(* ===== verification/_CoqProject ===== *)
-Q . S2P
Prelude.v
Effects.v
Json.v
JsonIndent.v
Pod.v
Container.v
Injection.v
Lifecycle.v
Annotation.v
Auth.v
Policy.v
SagaFlow.v
SagaEngine.v
Tracing.v
Aop.v
Domain.v
Data.v
ValueObject.v
Event.v
Outbox.v
AgentSafety.v
Agent.v
AgentStore.v
AgentTooling.v
Cache.v
Encoding.v
Crypto.v
Snapshot.v
Consumer.v
RabbitMQ.v
Kafka.v
Delivery.v
Diagnostics.v
Actuator.v
PolicyLoader.v
Tasks.v
AuthStartup.v
ModelPort.v
VllmSchema.v
Vllm.v
VllmClient.v
Oidc.v
OpenFga.v
DiscoveryManifest.v
Application.v
PluginLoading.v
FrontEnd.v
FastApi.v
GrpcServer.v
TyperCli.v
GenericTypes.v
Repository.v
GrpcSchema.v
Logging.v
OpenTelemetry.v
Background.v
Proxy.v
SqlTransaction.v
AgentBootstrap.v
AgentExposure.v
