(* ===== verification/Prelude.v ===== *)
(** * A verification library for the Spakky framework

    Spakky is an application framework for Python: a dependency-injection
    container with aspect-oriented proxies ([core/spakky]), feature packages on
    top of it ([core/spakky-auth], [-saga], [-tracing], [-domain], [-data],
    [-event], [-outbox], [-agent], [-cache], [-task], [-actuator]) and plugins
    that implement their ports ([plugins/spakky-sqlalchemy], [-redis],
    [-cryptography], [-fastapi], ...). This library models the packages' own
    logic as executable definitions and proves what makes each of them correct.
    File names below are relative to [src/].

    ** How the parts interact

    A bootstrap loads plugins, scans modules and registers the annotated classes
    it finds as Pods; the container resolves and injects their dependencies, runs
    the post-processors on every instance it builds, and starts and stops the
    services it found. The aspect post-processor replaces an instance by a proxy;
    a call through the proxy runs the advice of the matching aspects around the
    method. The authorization aspect refuses the call unless the providers allow
    every requirement annotated on it; the transactional aspect opens a
    transaction around it, and the publishing aspect hands the events of the
    aggregates the method saved to the publisher, inside that transaction.
    Integration events go to a bus; the outbox bus stores them in the same
    transaction and a relay sends them later, with the trace and the signed
    identity of the sender in their headers. A consumer on the other side
    verifies the identity, restores the context, and runs the handler. Front ends
    (HTTP, gRPC, command line) do the same for the credential of a request. A saga
    runs steps that commit separately, and compensates them in reverse when one
    fails. An agent asks a model, runs the tools the model calls once they are
    approved, and keeps its state, signals and evidence in tables from which a
    restart recovers.

    ** Files

    Shared definitions:

    - This file: the outcome of a call ([outcome]: it returns or raises), a state
      and exception monad ([comp]; the state survives an exception as the
      mutations of a Python frame do), Python's [try], [with]-style finalisation
      and loops, invariants ([preserves]) and triples ([triple]) of
      computations, Python strings and insertion-ordered dictionaries, stable
      sorting.
    - [Effects.v]: programs as trees of calls to a service, with two readings: run
      alone, and interleaved with other programs.
    - [Json.v], [JsonIndent.v]: JSON values, [json.dumps] (canonical, spaced, indented)
      and [json.loads]. The interpreter's limits on the length of integers and on
      nesting are not in [json_loads]; [VllmSchema.v] adds them for the adapter that
      reads what a server sends (the class [InterpreterLimits]), the loader of
      policies, OpenID documents, snapshots and manifests are modelled without them.

    The container ([core/spakky]):

    - [Pod.v]: the annotation of a component, what it reads from a signature,
      instantiation from resolved dependencies, the diagnostics of resolution
      errors.
    - [GenericTypes.v]: [common/mro.py] and [common/metadata.py], the resolution
      order of generic classes and the metadata of annotated types.
    - [Container.v]: [application/application_context.py]. The record
      [ApplicationContext] has the fields of the class; registration, bindings,
      candidate selection, collection injection, scopes, post-processing. User
      constructors, post-processors, services and pointcuts are the record
      [user_code].
    - [Injection.v]: the theorems of the container. A singleton is built once;
      [get] ends; a circularity error reports a real cycle and a complete acyclic
      wiring resolves; which candidate wins.
    - [Lifecycle.v]: [start], its rollback and [stop]. [Background.v]: services
      in threads of their own, as a step relation.
    - [Diagnostics.v]: the phases of a start and their records.
    - [Application.v], [DiscoveryManifest.v], [PluginLoading.v]: the scan of
      modules, the cached manifest of what it found, plugins and what they
      contribute to one another.
    - [Annotation.v]: [common/annotation.py], with the dictionary of metadata as
      a heap object, since attribute lookup shares it between a class and its
      bases.
    - [Aop.v], [Proxy.v]: pointcuts, advisors, the proxy handler with its cache;
      the generated proxy class and the weaving of aspects into an object.

    Authorization:

    - [Auth.v]: [core/spakky-auth]. Decisions, contexts, requirements, the
      aggregation of metadata along class and method, both aspects.
      [AuthStartup.v]: the check, at startup, that every capability has one
      provider.
    - [Policy.v], [PolicyLoader.v]: [plugins/spakky-policy]. Document model,
      evaluator, provider, and the loader of documents.
    - [Oidc.v], [OpenFga.v]: the providers behind an OpenID server and an OpenFGA
      store.
    - [Encoding.v], [Crypto.v], [Snapshot.v]: [plugins/spakky-cryptography].
      Base64, keys and codes; hashes, passwords and ciphers; the signed snapshot of
      an identity ([core/spakky-auth/.../snapshot.py]).

    Data, events and messages:

    - [Domain.v], [ValueObject.v]: [core/spakky-domain/models].
    - [Data.v]: the transaction context manager and its aspect, the collector of
      saved aggregates; the classes [ExitLaws] and [TransactionLaws] are what a
      database session promises.
    - [SqlTransaction.v], [Repository.v]: the transaction over scoped sessions, any
      call of which may raise, and the generic repository of [plugins/spakky-sqlalchemy].
    - [Event.v]: mediator, publisher, direct bus, header injection, and the
      publishing aspect composed with the transactional one through [Aop.v].
    - [Outbox.v]: [core/spakky-outbox] and its SQL storage. The class
      [OutboxContract] is what the relay relies on; the relay is verified against
      it and the SQL storage is shown to implement it, for any [SqlEngine]. The class
      [OutboxSession] ties what a session stages to what its transaction makes
      durable, messages and business data; a session over the SQL tables is its
      instance.
    - [Consumer.v], [RabbitMQ.v], [Kafka.v], [Delivery.v]: the consumers of both
      brokers with what they share, the transports, and the way from a publisher to
      a handler.
    - [Cache.v]: [core/spakky-cache] and [plugins/spakky-redis]: the cache aspect,
      and the Redis backend against the class [RedisServer]; the class
      [CacheContract] is a map with expiry and an index of tags, down to which
      entries an eviction removes and which it leaves.
    - [Tasks.v]: [core/spakky-task] and [plugins/spakky-celery].
    - [SagaFlow.v], [SagaEngine.v]: [core/spakky-saga]. Flow operators and
      builders, step authorization, and the executor with retries, timeouts,
      parallel groups and compensation. The relation [performs] says what awaiting an
      action did to the world, and [saga_report] reads a run as actions and
      compensations that were performed.

    Agents ([core/spakky-agent]):

    - [Agent.v], [AgentStore.v]: state, signals, approval, cancellation and
      recovery, and the SQL tables they live in.
    - [AgentTooling.v]: the schemas of tools, binding of calls, the catalog.
      [AgentBootstrap.v]: the annotation of agents and its validation at startup.
    - [AgentSafety.v]: masking, the guard of JSON values and the bounded redactor
      of token streams; the class [RegexEngine] is what is used of [re].
      [AgentExposure.v]: what schemas and evidence say about sensitive data, and
      the limits a tool declares.
    - [ModelPort.v], [VllmSchema.v], [Vllm.v], [VllmClient.v]: the port of a model,
      and its adapter to a server: the validator of JSON schemas, payloads,
      responses and streams, and the HTTP client.

    Front ends and observation:

    - [FrontEnd.v]: the shape the endpoints share. [FastApi.v], [GrpcServer.v],
      [TyperCli.v]: the three front ends. [GrpcSchema.v]: the descriptor of a
      gRPC service, built from the models of its controller.
    - [Actuator.v]: health and information. [Tracing.v], [OpenTelemetry.v]: the
      trace context, its W3C text and its bridge; the class [ITracePropagator] is
      the port, both propagators are instances. [Logging.v]: the logging aspect
      with its masking, contexts, formatters and set-up.

    ** What the theorems show

    - Identity and authorization: the aspect is fail-closed, the aggregation of
      requirements loses none, a method that requires a permission runs only for a
      subject the policy document grants it to; a context that was verified was
      signed, with the key, by a signer; and, end to end, the handler of an HTTP
      request, an RPC, a command or a message runs with the identity its credential
      proves, or does not run.
    - Confidentiality: a guarded field does not influence the guarded value, a
      redacted stream emits no secret its patterns cover (a secret fits the buffer
      with one character to spare), however the text is cut into chunks; the
      record of a call is the same whatever a sensitive keyword argument, printed
      between quotes, was.
    - Atomicity and rollback: a failed start, a failed transaction, a rejected
      attribute assignment and a failed saga leave no trace or are compensated in
      reverse; an outbox message is durable exactly with the business data; serial
      use cases over the scoped sessions run one after the other.
    - Refinement and equivalence: the SQL storage implements the outbox port, the
      signal table the queue of signals, a repository is a finite map, the Redis
      cache implements the port of caches under interleaving, both propagators the
      propagation port, a woven object is the object with advice around its
      methods, a cached scan registers what a fresh one does, a streamed answer is
      the completed one, the validator of the adapter is JSON Schema (but for an
      integer written with a fraction of zero, which it refuses), and the
      recovery of an agent refines the history it left.
    - Coherence of the cache: one client populates a missing entry, the others wait
      for it, and an eviction by tag reaches every entry that was tagged.
    - Types: the schema of a tool accepts exactly the values of its annotation, and
      an accepted payload binds to the signature; the descriptor of a service holds
      the models its methods mention; agents that started are well-formed.
    - Termination and liveness: container lookups, policy evaluation, relay batches,
      bounded retries, polling loops of consumers, lookups in complete acyclic
      wirings. A stream of the adapter is a finite sequence of chunks in the model:
      what is shown of it is that it closes with DONE, or with an exception of the
      interpreter.
    - Round trips: [traceparent], JSON (canonical and indented), base64, policy
      documents, stored passwords, snapshots, manifests, rows of tables.
    - Behaviour the documentation does not describe: theorems that state a
      deviation precisely (a timed-out saga compensates twice, a role check allows
      a role that is not held, events are published before the commit, annotations on a subclass reach its base, events
      raised during publication are lost, exhausted outbox messages are dropped,
      use cases that overlap share a session, a rollback that raises leaves its
      session open, values that are separators or are cut can leak into the log, an
      oversized integer escapes the stream of the adapter).

    ** Conventions and bounds

    - Each operation of a class is a definition with the name of the method;
      fields keep their names, private ones too. A call that may raise has type
      [outcome] or [comp]; errors are constructors named after the exceptions.
    - Code that is not part of the repository is a parameter: user classes and
      handlers, providers behind ports, the database, clocks and identifier
      generators. What is relied upon is a hypothesis or the law of a class, and
      every class has an instance in the witnesses.
    - Recursion that is not structural takes fuel, and a theorem says how much is
      enough: for [Container.get] one more than the number of registered Pods
      ([get_terminates]); for the evaluator of policies some amount for every
      request, when the named conditions do not refer to one another in a cycle
      ([evaluate_terminates]); for [json_loads] twice the length of the text; for
      the validator of schemas the depth of the schema; for the loader of policies
      the depth of the document; for [build_message_descriptor] more than the
      number of models; for [generic_mro] more than the length of the resolution
      order; for patterns of file names and of masked values their length and the
      number of chunks; for a client waiting for a cache entry the number of polls
      its time-out allows. Running out of fuel is an error of its own (Python's
      [RecursionError] where the code recurses), never a silent default.
    - Integers of Python are unbounded ([Z], or [N] and [nat] where the code keeps
      them non-negative). A string is a sequence of code points below 256.
    - The model of the container is one thread; locks and wall-clock durations of
      diagnostics are left out there ([Diagnostics.v] has the durations).
      Interleaving is modelled where the code meets it: awaits, deadlines and
      cancellation in [SagaEngine.v] (a child of a parallel group is atomic), steps
      of the database in [Outbox.v], of Redis in [Cache.v], of sessions in
      [SqlTransaction.v], of threads in [Background.v]. Elsewhere the asynchronous
      twin of a class runs the same statements with [await], and the synchronous
      one is modelled.

    ** Not modelled

    Reading configuration from the environment, the [main.py] of each plugin that
    registers its Pods, engines and connections of external systems, the bodies of
    [__str__] and [__repr__]; the evaluation of annotations written as strings; the
    payload of metadata of agents; scripts, examples and the tooling of the
    repository. They are I/O, or glue to libraries with nothing of their own to
    prove. Clients of external systems are modelled up to the library they call. *)

From Stdlib Require Export Ascii Sorted.
From stdpp Require Export prelude strings gmap.
From stdpp Require sorting.
From Stdlib Require Export ZArith Lia.

(** ** Outcomes: a Python call returns a value or raises *)

Inductive outcome (E A : Type) : Type :=
  | Ok (a : A)
  | Raise (e : E).
Arguments Ok {E A} a.
Arguments Raise {E A} e.

Global Instance outcome_ret E : MRet (outcome E) := λ A, Ok.
Global Instance outcome_bind E : MBind (outcome E) := λ A B f m,
  match m with Ok a => f a | Raise e => Raise e end.
Global Instance outcome_fmap E : FMap (outcome E) := λ A B f m,
  match m with Ok a => Ok (f a) | Raise e => Raise e end.

Definition is_ok {E A} (m : outcome E A) : bool :=
  match m with Ok _ => true | Raise _ => false end.

Definition map_error {E F A} (f : E → F) (m : outcome E A) : outcome F A :=
  match m with Ok a => Ok a | Raise e => Raise (f e) end.

Lemma outcome_bind_Ok {E A B} (m : outcome E A) (f : A → outcome E B) b :
  m ≫= f = Ok b ↔ ∃ a, m = Ok a ∧ f a = Ok b.
Proof. destruct m; simpl; split; naive_solver. Qed.

Lemma outcome_bind_Raise {E A B} (m : outcome E A) (f : A → outcome E B) e :
  m ≫= f = Raise e ↔ m = Raise e ∨ ∃ a, m = Ok a ∧ f a = Raise e.
Proof. destruct m; simpl; split; naive_solver. Qed.

Lemma mapM_outcome_Ok {E A B} (f : A → outcome E B) l k :
  mapM f l = Ok k ↔ Forall2 (λ x y, f x = Ok y) l k.
Proof.
  revert k. induction l as [|x l IH]; intros k; cbn.
  - split; [by intros [= <-]|]. by inversion 1.
  - rewrite outcome_bind_Ok. setoid_rewrite outcome_bind_Ok. setoid_rewrite IH. split.
    + intros (y & Hy & k' & Hk & [= <-]). by constructor.
    + inversion 1; subst. eauto.
Qed.

(** Members of lists *)
Lemma Forall2_elem_l {A B} (R : A → B → Prop) l k x : Forall2 R l k → x ∈ l → ∃ y, y ∈ k ∧ R x y.
Proof. induction 1; set_solver. Qed.
Lemma Forall2_elem_r {A B} (R : A → B → Prop) l k y : Forall2 R l k → y ∈ k → ∃ x, x ∈ l ∧ R x y.
Proof. induction 1; set_solver. Qed.
Lemma elem_of_flat_map {A B} (f : A → list B) l y : y ∈ flat_map f l ↔ ∃ x, x ∈ l ∧ y ∈ f x.
Proof. setoid_rewrite list_elem_of_In. apply in_flat_map. Qed.
Lemma singleton_list {A} (l : list A) x : NoDup l → (∀ y, y ∈ l ↔ y = x) → l = [x].
Proof.
  intros Hnd Hl. apply Permutation_singleton_r, NoDup_Permutation; [done|apply NoDup_singleton|].
  intros y. rewrite Hl. set_solver.
Qed.

(** [check b e] is the statement [if b: raise e]. *)
Definition check {E} (b : bool) (e : E) : outcome E unit :=
  if b then Raise e else Ok tt.

Lemma check_Ok {E} b (e : E) u : check b e = Ok u ↔ b = false.
Proof. destruct b, u; simpl; naive_solver. Qed.

(** ** Computations: state passing with exceptions

    The state survives an exception, as the mutations a Python frame made
    before it raised do. *)

Definition comp (S E A : Type) : Type := S → outcome E A * S.

Section comp_ops.
Context {S E : Type}.

Definition ret {A} (a : A) : comp S E A := λ s, (Ok a, s).
Definition bind {A B} (m : comp S E A) (f : A → comp S E B) : comp S E B :=
  λ s, match m s with
       | (Ok a, s') => f a s'
       | (Raise e, s') => (Raise e, s')
       end.
Definition raise {A} (e : E) : comp S E A := λ s, (Raise e, s).
Definition get_state : comp S E S := λ s, (Ok s, s).
Definition gets {A} (f : S → A) : comp S E A := λ s, (Ok (f s), s).
Definition modify (f : S → S) : comp S E unit := λ s, (Ok tt, f s).
Definition lift {A} (o : outcome E A) : comp S E A := λ s, (o, s).

(** [try: m except h]: [h] returns [None] for an exception it does not catch. *)
Definition try_except {A} (m : comp S E A) (h : E → option (comp S E A)) : comp S E A :=
  λ s, match m s with
       | (Ok a, s') => (Ok a, s')
       | (Raise e, s') =>
           match h e with Some k => k s' | None => (Raise e, s') end
       end.

(** [try: m finally: fin]: an exception of [fin] replaces the outcome of [m]. *)
Definition try_finally {A} (m : comp S E A) (fin : comp S E unit) : comp S E A :=
  λ s, let '(r, s1) := m s in
       match fin s1 with
       | (Ok _, s2) => (r, s2)
       | (Raise e, s2) => (Raise e, s2)
       end.

Fixpoint for_each {A} (f : A → comp S E unit) (l : list A) : comp S E unit :=
  match l with
  | [] => ret tt
  | x :: l' => bind (f x) (λ _, for_each f l')
  end.

Fixpoint map_comp {A B} (f : A → comp S E B) (l : list A) : comp S E (list B) :=
  match l with
  | [] => ret []
  | x :: l' => bind (f x) (λ y, bind (map_comp f l') (λ ys, ret (y :: ys)))
  end.
End comp_ops.

Lemma map_comp_step {ST E A B} (f : A → comp ST E B) x l s y s1 :
  f x s = (Ok y, s1) →
  map_comp f (x :: l) s = let '(o, s2) := map_comp f l s1 in (cons y <$> o, s2).
Proof.
  intros Hf. cbn [map_comp]. unfold bind. rewrite Hf. by destruct (map_comp f l s1) as [[]].
Qed.

Declare Scope comp_scope.
Delimit Scope comp_scope with comp.
Notation "x <- m ;; k" := (bind m (λ x, k))
  (at level 100, m at next level, right associativity) : comp_scope.
Notation "m ;;; k" := (bind m (λ _, k))
  (at level 100, right associativity) : comp_scope.
Open Scope comp_scope.

(** Pointwise equality of computations, the equivalence their laws hold for. *)
Global Instance comp_equiv {S E A} : Equiv (comp S E A) := λ m m', ∀ s, m s = m' s.

Section comp_laws.
Context {S E : Type}.
Implicit Types s : S.

Global Instance comp_equivalence A : Equivalence (≡@{comp S E A}).
Proof.
  split; [by intros m s|by intros m m' Hm s|].
  intros m1 m2 m3 H1 H2 s. by rewrite H1.
Qed.

Global Instance bind_proper {A B} :
  Proper ((≡) ==> pointwise_relation A (≡) ==> (≡)) (@bind S E A B).
Proof.
  intros m m' Hm f f' Hf s. unfold bind. rewrite Hm.
  destruct (m' s) as [[a|e] s']; [apply Hf|done].
Qed.

Global Instance try_finally_proper {A} :
  Proper ((≡) ==> (≡) ==> (≡)) (@try_finally S E A).
Proof.
  intros m m' Hm f f' Hf s. unfold try_finally. rewrite Hm.
  destruct (m' s) as [r s']. by rewrite Hf.
Qed.

Lemma bind_ret_l {A B} (a : A) (f : A → comp S E B) : bind (ret a) f ≡ f a.
Proof. done. Qed.
Lemma bind_ret_r {A} (m : comp S E A) : bind m ret ≡ m.
Proof. intros s. unfold bind. by destruct (m s) as [[]]. Qed.
Lemma bind_assoc {A B C} (m : comp S E A) (f : A → comp S E B) (g : B → comp S E C) :
  bind (bind m f) g ≡ bind m (λ a, bind (f a) g).
Proof. intros s. unfold bind. by destruct (m s) as [[]]. Qed.

Lemma for_each_app {A} (f : A → comp S E unit) l1 l2 :
  for_each f (l1 ++ l2) ≡ bind (for_each f l1) (λ _, for_each f l2).
Proof.
  induction l1 as [|x l1 IH]; simpl; [by intros s|].
  rewrite bind_assoc. by setoid_rewrite IH.
Qed.

Lemma bind_Ok_inv {A B} (m : comp S E A) (f : A → comp S E B) s b s2 :
  bind m f s = (Ok b, s2) → ∃ a s1, m s = (Ok a, s1) ∧ f a s1 = (Ok b, s2).
Proof. unfold bind. destruct (m s) as [[a|e] s1]; naive_solver. Qed.

Lemma bind_Raise_inv {A B} (m : comp S E A) (f : A → comp S E B) s e s2 :
  bind m f s = (Raise e, s2) →
  m s = (Raise e, s2) ∨ ∃ a s1, m s = (Ok a, s1) ∧ f a s1 = (Raise e, s2).
Proof. unfold bind. destruct (m s) as [[a|e'] s1]; naive_solver. Qed.
End comp_laws.

(** ** Invariants of a computation

    [preserves I m]: whatever [m] returns or raises, [I] holds of the state it
    leaves when it held of the state it started in. *)

Definition preserves {S E A} (I : S → Prop) (m : comp S E A) : Prop :=
  ∀ s, I s → I (m s).2.

Create HintDb preserves.

Section preserves.
Context {S E : Type} (I : S → Prop).

Lemma preserves_ret {A} (a : A) : preserves I (@ret S E A a).
Proof. by intros s. Qed.
Lemma preserves_raise {A} (e : E) : preserves I (@raise S E A e).
Proof. by intros s. Qed.
Lemma preserves_gets {A} (f : S → A) : preserves I (@gets S E A f).
Proof. by intros s. Qed.
Lemma preserves_lift {A} (o : outcome E A) : preserves I (@lift S E A o).
Proof. by intros s. Qed.
Lemma preserves_modify (f : S → S) :
  (∀ s, I s → I (f s)) → preserves I (@modify S E f).
Proof. intros Hf s Hs. by apply Hf. Qed.
Lemma preserves_bind {A B} (m : comp S E A) (f : A → comp S E B) :
  preserves I m → (∀ a, preserves I (f a)) → preserves I (bind m f).
Proof.
  intros Hm Hf s Hs. specialize (Hm s Hs). unfold bind.
  destruct (m s) as [[a|e] s']; simpl in *; [by apply Hf|done].
Qed.
Lemma preserves_bind_lift {A B} (o : outcome E A) (f : A → comp S E B) :
  (∀ a, o = Ok a → preserves I (f a)) → preserves I (bind (lift o) f).
Proof. intros Hf s Hs. unfold bind, lift. destruct o as [a|e]; [by apply Hf|done]. Qed.
Lemma preserves_try_except {A} (m : comp S E A) h :
  preserves I m → (∀ e k, h e = Some k → preserves I k) →
  preserves I (try_except m h).
Proof.
  intros Hm Hh s Hs. specialize (Hm s Hs). unfold try_except.
  destruct (m s) as [[a|e] s']; simpl in *; [done|].
  destruct (h e) as [k|] eqn:He; [by eapply Hh|done].
Qed.
Lemma preserves_try_finally {A} (m : comp S E A) fin :
  preserves I m → preserves I fin → preserves I (try_finally m fin).
Proof.
  intros Hm Hf s Hs. specialize (Hm s Hs). unfold try_finally.
  destruct (m s) as [r s1]; simpl in *. specialize (Hf s1 Hm).
  by destruct (fin s1) as [[] s2].
Qed.
Lemma preserves_for_each_in {A} (f : A → comp S E unit) l :
  (∀ x, x ∈ l → preserves I (f x)) → preserves I (for_each f l).
Proof.
  induction l as [|x l IH]; intros Hf; simpl; [apply preserves_ret|].
  apply preserves_bind; [apply Hf; by left|]. intros _. apply IH. intros y Hy. apply Hf. by right.
Qed.
Lemma preserves_for_each {A} (f : A → comp S E unit) l :
  (∀ x, preserves I (f x)) → preserves I (for_each f l).
Proof. intros Hf. by apply preserves_for_each_in. Qed.
Lemma preserves_map_comp {A B} (f : A → comp S E B) l :
  (∀ x, preserves I (f x)) → preserves I (map_comp f l).
Proof.
  intros Hf. induction l; simpl; [apply preserves_ret|].
  apply preserves_bind; [done|]. intros y.
  apply preserves_bind; [done|]. intros ys. apply preserves_ret.
Qed.
End preserves.

#[export] Hint Resolve preserves_ret preserves_raise preserves_gets preserves_lift
  preserves_modify preserves_bind preserves_try_except preserves_try_finally
  preserves_for_each preserves_map_comp : preserves.

(** [preserves_tac] walks a computation built from the combinators, splitting
    its matches; the goals left are those of the primitive state changes. *)
Ltac preserves_tac :=
  repeat first
    [ progress intros
    | solve [auto 1 with preserves nocore]
    | match goal with
      | |- preserves _ (match ?x with _ => _ end) => destruct x
      end
    | apply preserves_ret | apply preserves_raise | apply preserves_gets
    | apply preserves_lift | apply preserves_bind
    | apply preserves_try_finally | apply preserves_for_each
    | apply preserves_map_comp
    | solve [eauto 3 with preserves] ].

(** ** Triples

    [triple I Q X m]: from a state in [I], [m] leaves a state in [I], the value
    it returns satisfies [Q] and the error it raises satisfies [X]. *)

Definition triple {S E A} (I : S → Prop) (Q : A → Prop) (X : E → Prop) (m : comp S E A) : Prop :=
  ∀ s, I s → I (m s).2 ∧ match (m s).1 with Ok a => Q a | Raise e => X e end.

Section triple.
Context {S E : Type} (I : S → Prop) (X : E → Prop).

Lemma triple_ret {A} (Q : A → Prop) (a : A) : Q a → triple I Q X (@ret S E A a).
Proof. by intros ? s. Qed.
Lemma triple_raise {A} (Q : A → Prop) e : X e → triple I Q X (@raise S E A e).
Proof. by intros ? s. Qed.
Lemma triple_lift {A} (Q : A → Prop) (o : outcome E A) :
  (∀ a, o = Ok a → Q a) → (∀ e, o = Raise e → X e) → triple I Q X (@lift S E A o).
Proof. intros HQ HX s Hs. split; [done|]. cbn. destruct o; auto. Qed.
Lemma triple_gets {A} (Q : A → Prop) (f : S → A) :
  (∀ s, I s → Q (f s)) → triple I Q X (@gets S E A f).
Proof. intros HQ s Hs. split; [done|]. by apply HQ. Qed.
Lemma triple_modify (f : S → S) :
  (∀ s, I s → I (f s)) → triple I (λ _, True) X (@modify S E f).
Proof. intros Hf s Hs. split; [by apply Hf|done]. Qed.
Lemma triple_bind {A B} (Q : A → Prop) (R : B → Prop) (m : comp S E A) (f : A → comp S E B) :
  triple I Q X m → (∀ a, Q a → triple I R X (f a)) → triple I R X (bind m f).
Proof.
  intros Hm Hf s Hs. destruct (Hm s Hs) as [Hs' HQ]. unfold bind.
  destruct (m s) as [[a|e] s']; cbn in *; [by apply Hf|done].
Qed.
(** Reading the state tells that the invariant holds of what was read. *)
Lemma triple_get_state {B} (R : B → Prop) (f : S → comp S E B) :
  (∀ s, I s → triple I R X (f s)) → triple I R X (bind get_state f).
Proof. intros Hf s Hs. by apply (Hf s Hs s). Qed.
Lemma triple_weaken {A} (Q R : A → Prop) (m : comp S E A) :
  triple I Q X m → (∀ a, Q a → R a) → triple I R X m.
Proof.
  intros Hm HQR s Hs. destruct (Hm s Hs) as [? H]. split; [done|].
  destruct (m s).1; auto.
Qed.
Lemma triple_reraise {A} (Q : A → Prop) (m : comp S E A) (k : E → comp S E unit) :
  triple I Q X m → (∀ e, X e → triple I (λ _, True) X (k e)) →
  triple I Q X (try_except m (λ e, Some (bind (k e) (λ _, raise e)))).
Proof.
  intros Hm Hk s Hs. destruct (Hm s Hs) as [Hs' HQ]. unfold try_except.
  destruct (m s) as [[a|e] s']; cbn in *; [done|].
  destruct (Hk e HQ s' Hs') as [Hs2 Hr]. unfold bind, raise.
  by destruct (k e s') as [[u|e'] s2].
Qed.
Lemma triple_map_comp {A B} (Q : B → Prop) (f : A → comp S E B) l :
  (∀ x, x ∈ l → triple I Q X (f x)) → triple I (Forall Q) X (map_comp f l).
Proof.
  induction l as [|x l IH]; intros Hf; cbn; [by apply triple_ret|].
  eapply triple_bind; [apply Hf; left|]. intros y Hy. eapply triple_bind.
  { apply IH. intros z Hz. apply Hf. by right. }
  intros ys Hys. apply triple_ret. by constructor.
Qed.
End triple.

(** ** Concatenation of strings *)

Lemma string_app_nil s : s +:+ "" = s.
Proof. induction s as [|c s IH]; [done|]. exact (f_equal (String c) IH). Qed.
Lemma string_app_cons c s t : String c s +:+ t = String c (s +:+ t).
Proof. done. Qed.
Lemma string_app_assoc (s t u : string) : (s +:+ t) +:+ u = s +:+ (t +:+ u).
Proof. induction s as [|c s IH]; [done|]. exact (f_equal (String c) IH). Qed.
Lemma string_app_length (s t : string) : String.length (s +:+ t) = String.length s + String.length t.
Proof. induction s as [|c s IH]; [done|]. rewrite string_app_cons. cbn [String.length]. by rewrite IH. Qed.

Lemma list_of_string_app s1 s2 :
  String.list_ascii_of_string (s1 +:+ s2) =
  String.list_ascii_of_string s1 ++ String.list_ascii_of_string s2.
Proof. induction s1 as [|c s1 IH]; [done|]. exact (f_equal (cons c) IH). Qed.

(** ** Python strings

    A string is a sequence of code points below 256, one [ascii] each. *)

(** [str.lower] on ASCII letters *)
Definition lower_char (c : ascii) : ascii :=
  let n := N_of_ascii c in
  if ((65 <=? n) && (n <=? 90))%N then ascii_of_N (n + 32) else c.
Fixpoint lower (s : string) : string :=
  match s with EmptyString => "" | String c s' => String (lower_char c) (lower s') end.

Definition py_isspace (c : ascii) : bool :=
  let n := N_of_ascii c in
  ((9 <=? n) && (n <=? 13) || (28 <=? n) && (n <=? 32) || (n =? 133) || (n =? 160))%N.

Fixpoint lstrip_chars (l : list ascii) : list ascii :=
  match l with
  | [] => []
  | c :: l' => if py_isspace c then lstrip_chars l' else l
  end.

Definition strip_chars (l : list ascii) : list ascii :=
  reverse (lstrip_chars (reverse (lstrip_chars l))).

(** [value.strip()] *)
Definition py_strip (s : string) : string :=
  String.string_of_list_ascii (strip_chars (String.list_ascii_of_string s)).

(** [not value.strip()] *)
Definition is_blank (s : string) : bool :=
  match strip_chars (String.list_ascii_of_string s) with [] => true | _ => false end.

Lemma lstrip_chars_id l :
  (∀ c l', l = c :: l' → py_isspace c = false) → lstrip_chars l = l.
Proof. destruct l as [|c l]; simpl; [done|]. intros H. by rewrite (H c l). Qed.

Lemma lstrip_app_space l l' :
  Forall (λ c, py_isspace c = true) l → lstrip_chars (l ++ l') = lstrip_chars l'.
Proof. induction 1 as [|c l Hc _ IH]; simpl; [done|]. by rewrite Hc. Qed.
Lemma lstrip_chars_nil l : lstrip_chars l = [] ↔ Forall (λ c, py_isspace c = true) l.
Proof.
  induction l as [|c l IH]; simpl; [done|].
  rewrite Forall_cons. destruct (py_isspace c); naive_solver.
Qed.

Lemma strip_chars_id l :
  Forall (λ c, py_isspace c = false) l → strip_chars l = l.
Proof.
  intros Hl. unfold strip_chars.
  rewrite (lstrip_chars_id l), lstrip_chars_id, reverse_involutive; [done| |].
  - intros c l' Hc. rewrite <-Forall_reverse, Hc, Forall_cons in Hl. naive_solver.
  - intros c l' ->. rewrite Forall_cons in Hl. naive_solver.
Qed.

Lemma py_strip_id s :
  Forall (λ c, py_isspace c = false) (String.list_ascii_of_string s) → py_strip s = s.
Proof.
  intros Hs. unfold py_strip. rewrite strip_chars_id by done.
  apply String.string_of_list_ascii_of_string.
Qed.

Lemma is_blank_spec s :
  is_blank s = true ↔ Forall (λ c, py_isspace c = true) (String.list_ascii_of_string s).
Proof.
  unfold is_blank, strip_chars. set (l := String.list_ascii_of_string s).
  rewrite <-lstrip_chars_nil. split.
  - destruct (lstrip_chars l) as [|c l'] eqn:Hl; [done|].
    destruct (reverse (lstrip_chars (reverse (c :: l')))) eqn:Hr; [|done].
    apply (f_equal reverse) in Hr. rewrite reverse_involutive in Hr.
    apply lstrip_chars_nil in Hr. rewrite Forall_reverse, Forall_cons in Hr.
    destruct Hr as [Hc _]. intros _.
    assert (py_isspace c = false); [|congruence].
    clear Hc. revert Hl. generalize l. intros l0. induction l0 as [|d l0 IH]; simpl; [done|].
    destruct (py_isspace d) eqn:Hd; [done|]. by intros [= <- _].
  - by intros ->.
Qed.

(** ** Python dictionaries with string keys, in insertion order *)

Section dict.
Context {V : Type}.
Implicit Types (d : list (string * V)) (k : string) (v : V).

(** [d.get(k)] *)
Fixpoint dict_get k d : option V :=
  match d with
  | [] => None
  | (k', v) :: d' => if decide (k = k') then Some v else dict_get k d'
  end.

(** [d[k] = v]: an existing key keeps its position *)
Fixpoint dict_set k v d : list (string * V) :=
  match d with
  | [] => [(k, v)]
  | (k', v') :: d' =>
      if decide (k = k') then (k, v) :: d' else (k', v') :: dict_set k v d'
  end.

(** [d.pop(k)] on a present key, [del d[k]] *)
Fixpoint dict_del k d : list (string * V) :=
  match d with
  | [] => []
  | (k', v') :: d' => if decide (k = k') then d' else (k', v') :: dict_del k d'
  end.

Definition dict_has k d : bool := match dict_get k d with Some _ => true | None => false end.

(** [{**d, **d'}] *)
Definition dict_merge d d' : list (string * V) :=
  foldl (λ acc kv, dict_set kv.1 kv.2 acc) d d'.

Lemma dict_get_set_eq k v d : dict_get k (dict_set k v d) = Some v.
Proof.
  induction d as [|[k' v'] d IH]; simpl; repeat (case_decide; simpl); done.
Qed.
Lemma dict_get_set_ne k k' v d :
  k ≠ k' → dict_get k (dict_set k' v d) = dict_get k d.
Proof.
  intros Hk. induction d as [|[k1 v1] d IH]; simpl;
    repeat (case_decide; simpl); congruence.
Qed.
Lemma dict_get_del_ne k k' d :
  k ≠ k' → dict_get k (dict_del k' d) = dict_get k d.
Proof.
  intros Hk. induction d as [|[k1 v1] d IH]; simpl;
    repeat (case_decide; simpl); congruence.
Qed.
Lemma dict_get_None k d : dict_get k d = None ↔ k ∉ d.*1.
Proof.
  induction d as [|[k1 v1] d IH]; simpl; [set_solver|].
  rewrite not_elem_of_cons. case_decide; naive_solver.
Qed.
Lemma dict_get_del_eq k d : NoDup d.*1 → dict_get k (dict_del k d) = None.
Proof.
  induction d as [|[k1 v1] d IH]; simpl; [done|].
  rewrite NoDup_cons. intros [Hk1 Hd].
  case_decide as Hk; simpl; subst.
  - by apply dict_get_None.
  - rewrite decide_False by done. auto.
Qed.
Lemma dict_del_keys k k' d :
  NoDup d.*1 → k' ∈ (dict_del k d).*1 ↔ k' ∈ d.*1 ∧ k' ≠ k.
Proof.
  induction d as [|[k1 v1] d IH]; cbn; [set_solver|]. rewrite NoDup_cons. intros [Hk1 Hd].
  case_decide; subst; cbn; [|rewrite elem_of_cons, IH by done; set_solver].
  rewrite elem_of_cons. split; [|set_solver]. intros Hk'. split; [by right|]. by intros ->.
Qed.
Lemma dict_del_NoDup k d : NoDup d.*1 → NoDup (dict_del k d).*1.
Proof.
  induction d as [|[k1 v1] d IH]; cbn; [done|]. rewrite NoDup_cons. intros [Hk1 Hd].
  case_decide; [done|]. cbn. rewrite NoDup_cons. split; [|auto].
  by intros [? _]%dict_del_keys.
Qed.
Lemma dict_get_elem_of k v d : dict_get k d = Some v → (k, v) ∈ d.
Proof.
  induction d as [|[k1 v1] d IH]; simpl; [done|].
  case_decide; [intros [= ->]; subst; by left|]. right. auto.
Qed.
Lemma dict_get_NoDup k v d : NoDup d.*1 → (k, v) ∈ d → dict_get k d = Some v.
Proof.
  induction d as [|[k1 v1] d IH]; simpl; [set_solver|].
  rewrite NoDup_cons, elem_of_cons. intros [Hk1 Hd] [[= -> ->]|Hin].
  - by rewrite decide_True.
  - rewrite decide_False; [auto|]. intros ->. apply Hk1.
    apply list_elem_of_fmap. by exists (k1, v).
Qed.
Lemma dict_set_Forall (P : string * V → Prop) k v d : Forall P d → P (k, v) → Forall P (dict_set k v d).
Proof.
  intros Hd Hv. induction Hd as [|[k1 v1] d Hx Hd IH]; cbn; [by constructor|]. case_decide; by constructor.
Qed.
Lemma dict_del_Forall (P : string * V → Prop) k d : Forall P d → Forall P (dict_del k d).
Proof. intros Hd. induction Hd as [|[k1 v1] d Hx Hd IH]; cbn; [done|]. case_decide; [done|by constructor]. Qed.
Lemma dict_set_fresh k v d : k ∉ d.*1 → dict_set k v d = d ++ [(k, v)].
Proof.
  induction d as [|[k1 v1] d IH]; simpl; [done|]. rewrite not_elem_of_cons. intros [Hne Hk].
  rewrite decide_False by done. by rewrite IH.
Qed.
Lemma dict_set_same k v d : dict_get k d = Some v → dict_set k v d = d.
Proof.
  induction d as [|[k1 v1] d IH]; cbn; [done|]. case_decide as Hk; [by intros [= ->]; subst|]. intros Hd. by rewrite IH.
Qed.
Lemma dict_set_keys k v d :
  (dict_set k v d).*1 = if decide (k ∈ d.*1) then d.*1 else d.*1 ++ [k].
Proof.
  induction d as [|[k1 v1] d IH]; [done|]. cbn [dict_set].
  destruct (decide (k = k1)) as [->|Hk]; rewrite !fmap_cons; simpl.
  - by rewrite decide_True by set_solver.
  - rewrite IH. destruct (decide (k ∈ d.*1)); [rewrite decide_True|rewrite decide_False];
      set_solver.
Qed.
Lemma dict_set_NoDup k v d : NoDup d.*1 → NoDup (dict_set k v d).*1.
Proof.
  intros Hd. rewrite dict_set_keys. case_decide; [done|].
  apply NoDup_app. split_and!; [done| |apply NoDup_singleton]. set_solver.
Qed.
Lemma dict_get_merge_notin k d d' :
  k ∉ d'.*1 → dict_get k (dict_merge d d') = dict_get k d.
Proof.
  unfold dict_merge. revert d. induction d' as [|[k1 v1] d' IH]; intros d; simpl; [done|].
  rewrite not_elem_of_cons. intros [Hk1 Hk]. rewrite IH by done.
  by apply dict_get_set_ne.
Qed.
Lemma dict_get_merge k d d' :
  NoDup d'.*1 →
  dict_get k (dict_merge d d') = match dict_get k d' with Some v => Some v | None => dict_get k d end.
Proof.
  unfold dict_merge. revert d. induction d' as [|[k1 v1] d' IH]; intros d; simpl; [done|].
  rewrite NoDup_cons. intros [Hk1 Hd]. rewrite IH by done. case_decide as Hk; subst.
  - rewrite (proj2 (dict_get_None _ _) Hk1). apply dict_get_set_eq.
  - by rewrite dict_get_set_ne.
Qed.
Lemma dict_get_zip k v (ks : list string) (vs : list V) :
  NoDup ks →
  dict_get k (zip ks vs) = Some v ↔ ∃ i, ks !! i = Some k ∧ vs !! i = Some v.
Proof.
  revert vs. induction ks as [|k1 ks IH]; intros [|v1 vs]; simpl;
    [naive_solver|naive_solver|intros _; naive_solver|].
  rewrite NoDup_cons. intros [Hk1 Hks]. case_decide as Hk; subst.
  - split; [intros [= ->]; by exists 0|]. intros ([|i] & Hi & Hv); [done|].
    destruct Hk1. by eapply list_elem_of_lookup_2.
  - rewrite IH by done. split; [intros (i & ? & ?); by exists (S i)|].
    intros ([|i] & Hi & Hv); [naive_solver|]. by exists i.
Qed.
End dict.

Create Rewrite HintDb dict.
Create HintDb dict.
#[export] Hint Rewrite @dict_get_set_eq : dict.
#[export] Hint Rewrite @dict_get_set_ne using done : dict.
#[export] Hint Resolve dict_set_NoDup : dict.

(** ** [sorted(l, key=...)]: a stable insertion sort *)

Section sort.
Context {A : Type} (le : A → A → bool).

Fixpoint insert_by (x : A) (l : list A) : list A :=
  match l with
  | [] => [x]
  | y :: l' => if le x y then x :: l else y :: insert_by x l'
  end.

Fixpoint sort_by (l : list A) : list A :=
  match l with
  | [] => []
  | x :: l' => insert_by x (sort_by l')
  end.

Lemma insert_by_perm x l : insert_by x l ≡ₚ x :: l.
Proof.
  induction l as [|y l IH]; simpl; [done|].
  destruct (le x y); [done|]. rewrite IH. apply Permutation_swap.
Qed.
Lemma sort_by_perm l : sort_by l ≡ₚ l.
Proof. induction l as [|x l IH]; simpl; [done|]. by rewrite insert_by_perm, IH. Qed.

Lemma elem_of_sort_by x l : x ∈ sort_by l ↔ x ∈ l.
Proof. by rewrite sort_by_perm. Qed.
Lemma sort_by_length l : length (sort_by l) = length l.
Proof. by rewrite sort_by_perm. Qed.
Lemma sort_by_nil l : sort_by l = [] ↔ l = [].
Proof. rewrite <-!length_zero_iff_nil, sort_by_length. done. Qed.

(** An element above all others comes last. *)
Lemma sort_by_snoc l x :
  (∀ y, y ∈ l → le y x = true) → sort_by (l ++ [x]) = sort_by l ++ [x].
Proof.
  assert (∀ y l, le y x = true → insert_by y (l ++ [x]) = insert_by y l ++ [x]) as Hins.
  { intros y l' Hy. induction l' as [|z l' IH]; simpl; [by rewrite Hy|].
    destruct (le y z); [done|]. by rewrite IH. }
  induction l as [|y l IH]; intros Hx; [done|]. simpl.
  rewrite IH by (intros z Hz; apply Hx; by right). apply Hins, Hx. by left.
Qed.

(** What is sorted already stays as it is. *)
Lemma sort_by_id l : Sorted (λ x y, le x y = true) l → sort_by l = l.
Proof.
  induction 1 as [|x l _ IH Hx]; simpl; [done|]. rewrite IH. destruct Hx as [|y l Hxy]; simpl; [done|]. by rewrite Hxy.
Qed.

Context (le_total : ∀ x y, le x y = false → le y x = true).

Lemma sort_by_sorted l : Sorted (λ x y, le x y = true) (sort_by l).
Proof.
  induction l as [|x l IH]; simpl; [constructor|].
  revert IH. generalize (sort_by l). intros l0.
  induction 1 as [|y l0 Hl0 IH Hy]; simpl; [repeat constructor|].
  destruct (le x y) eqn:Hxy; [repeat constructor; done|].
  constructor; [done|]. destruct l0 as [|z l0]; simpl in *.
  - constructor. auto.
  - destruct (le x z); constructor; [auto|by inversion Hy].
Qed.

Context (le_trans : ∀ x y z, le x y = true → le y z = true → le x z = true).

Lemma sort_by_strongly_sorted l : StronglySorted (λ x y, le x y = true) (sort_by l).
Proof. apply Sorted_StronglySorted; [intros x y z; apply le_trans|apply sort_by_sorted]. Qed.

(** With distinct keys, what is sorted does not depend on the order it comes in. *)
Lemma sort_by_perm_eq {K} (key : A → K) l l' :
  (∀ x y, le x y = true → le y x = true → key x = key y) →
  NoDup (key <$> l) → l ≡ₚ l' → sort_by l = sort_by l'.
Proof.
  intros Hanti Hnd Hp. apply (sorting.StronglySorted_unique_strong (λ x y, le x y = true));
    [|apply sort_by_strongly_sorted..|by rewrite !sort_by_perm].
  intros x y. rewrite !elem_of_sort_by, <-Hp. intros Hx Hy Hxy Hyx.
  apply list_elem_of_lookup in Hx as [i Hx], Hy as [j Hy].
  assert (i = j) as ->; [|congruence].
  apply (NoDup_lookup _ i j (key x) Hnd); rewrite list_lookup_fmap; [by rewrite Hx|].
  rewrite Hy. cbn. by rewrite (Hanti x y).
Qed.

(** Sorting commutes with the removal of elements. *)
Lemma filter_sort_by (f : A → bool) l : List.filter f (sort_by l) = sort_by (List.filter f l).
Proof.
  assert (∀ x l, StronglySorted (λ x y, le x y = true) l →
    List.filter f (insert_by x l) = if f x then insert_by x (List.filter f l) else List.filter f l)
    as Hins.
  { intros x l' Hl. induction Hl as [|y l' Hl IH Hy]; simpl; [by destruct (f x)|].
    destruct (le x y) eqn:Hxy; simpl.
    - destruct (f x) eqn:Hfx; [|done]. destruct (f y) eqn:Hfy; simpl; [by rewrite Hxy|].
      clear IH. induction l' as [|z l' IHl]; [done|]. simpl. apply Forall_cons in Hy as [Hyz Hy].
      apply StronglySorted_inv in Hl as [Hl _].
      destruct (f z); simpl; [|by apply IHl]. by rewrite (le_trans x y z).
    - rewrite IH. destruct (f y), (f x); simpl; rewrite ?Hxy; done. }
  induction l as [|x l IH]; simpl; [done|].
  rewrite Hins by apply sort_by_strongly_sorted. rewrite IH. by destruct (f x).
Qed.
End sort.

(** The order of Python strings: lexicographic on code points. *)
Definition str_leb (s1 s2 : string) : bool := String.leb s1 s2.

Lemma str_leb_total s1 s2 : str_leb s1 s2 = false → str_leb s2 s1 = true.
Proof. unfold str_leb. destruct (String.leb_total s1 s2); congruence. Qed.

Lemma str_leb_cons c d s t :
  str_leb (String c s) (String d t) = true ↔
  (N_of_ascii c < N_of_ascii d)%N ∨ c = d ∧ str_leb s t = true.
Proof.
  unfold str_leb, String.leb. cbn. unfold Ascii.compare.
  destruct (N.compare_spec (N_of_ascii c) (N_of_ascii d)) as [Heq|Hlt|Hgt].
  - apply (f_equal ascii_of_N) in Heq. rewrite !ascii_N_embedding in Heq. subst d.
    split; [by right|]. intros [?|[_ ?]]; [lia|done].
  - split; [by left|done].
  - split; [done|]. intros [?|[-> _]]; lia.
Qed.

Lemma str_leb_trans s1 s2 s3 : str_leb s1 s2 = true → str_leb s2 s3 = true → str_leb s1 s3 = true.
Proof.
  revert s2 s3. induction s1 as [|a s1 IH]; intros [|b s2] [|c s3]; try done.
  rewrite !str_leb_cons. intros [?|[-> ?]] [?|[-> ?]]; [left; lia|by left|by left|right].
  split; [done|]. by eapply IH.
Qed.

Lemma str_leb_antisym s1 s2 : str_leb s1 s2 = true → str_leb s2 s1 = true → s1 = s2.
Proof. apply String.leb_antisym. Qed.

(** Removal of repeated elements, keeping first occurrences: the loop
    [for x in xs: if x not in seen: ordered.append(x); seen.add(x)]. *)
Fixpoint dedup_aux `{EqDecision A} (seen : list A) (l : list A) : list A :=
  match l with
  | [] => []
  | x :: l' => if decide (x ∈ seen) then dedup_aux seen l' else x :: dedup_aux (seen ++ [x]) l'
  end.

Definition dedup `{EqDecision A} (l : list A) : list A := dedup_aux [] l.

Section dedup.
Context `{EqDecision A}.
Implicit Types (l seen : list A) (x : A).

Lemma elem_of_dedup_aux x seen l : x ∈ dedup_aux seen l ↔ x ∈ l ∧ x ∉ seen.
Proof.
  revert seen. induction l as [|y l IH]; intros seen; simpl; [set_solver|].
  case_decide; rewrite ?elem_of_cons, IH; [set_solver|].
  rewrite elem_of_app, list_elem_of_singleton.
  destruct (decide (x = y)); naive_solver.
Qed.
Lemma elem_of_dedup x l : x ∈ dedup l ↔ x ∈ l.
Proof. unfold dedup. rewrite elem_of_dedup_aux. set_solver. Qed.
Lemma NoDup_dedup l : NoDup (dedup l).
Proof.
  unfold dedup. generalize (@nil A). induction l as [|y l IH]; intros seen; simpl;
    [constructor|]. case_decide; [done|].
  constructor; [|done]. rewrite elem_of_dedup_aux. set_solver.
Qed.
Lemma dedup_nil l : dedup l = [] ↔ l = [].
Proof.
  split; [|by intros ->]. destruct l as [|x l]; [done|]. intros H.
  assert (x ∈ dedup (x :: l)) as Hx by (apply elem_of_dedup; by left).
  rewrite H in Hx. set_solver.
Qed.
End dedup.

Lemma dedup_map {A B} `{EqDecision A, EqDecision B} (f : A → B) `{!Inj (=) (=) f} (l : list A) :
  dedup (map f l) = map f (dedup l).
Proof.
  unfold dedup. change (@nil B) with (map f []) at 1. generalize (@nil A). induction l as [|x l IH]; intros seen; cbn; [done|].
  assert (f x ∈ map f seen ↔ x ∈ seen) as Hx.
  { change (map f seen) with (f <$> seen). rewrite list_elem_of_fmap. naive_solver. }
  repeat case_decide; [apply IH|tauto..|]. cbn. by rewrite <-IH, map_app.
Qed.

(** ** Sorted and filtered lists *)

Lemma StronglySorted_filter {A} (R : relation A) (f : A → bool) l :
  StronglySorted R l → StronglySorted R (List.filter f l).
Proof.
  induction 1 as [|x l Hl IH Hx]; simpl; [constructor|].
  destruct (f x); [|done]. constructor; [done|].
  rewrite Forall_forall in *. intros y Hy. apply Hx.
  apply list_elem_of_In, List.filter_In in Hy as [Hy _]. by apply list_elem_of_In.
Qed.

Lemma StronglySorted_snoc {A} (R : relation A) l x :
  StronglySorted R l → Forall (λ y, R y x) l → StronglySorted R (l ++ [x]).
Proof.
  induction 1 as [|y l Hl IH Hy]; rewrite ?Forall_cons; simpl; [repeat constructor|].
  intros [Hyx Hlx]. constructor; [by apply IH|]. apply Forall_app. by repeat constructor.
Qed.

Lemma StronglySorted_reverse {A} (R : relation A) l :
  StronglySorted (flip R) l → StronglySorted R (reverse l).
Proof.
  induction 1 as [|x l Hl IH Hx]; [constructor|]. rewrite reverse_cons.
  apply StronglySorted_snoc; [done|]. by apply Forall_reverse.
Qed.

Lemma Sorted_weaken {A} (R R' : relation A) l :
  (∀ x y, R x y → R' x y) → Sorted R l → Sorted R' l.
Proof. intros HR. induction 1 as [|x l Hl IH Hx]; constructor; [done|]. destruct Hx; auto. Qed.

Lemma filter_all {A} (f : A → bool) l : (∀ x, x ∈ l → f x = true) → List.filter f l = l.
Proof.
  induction l as [|x l IH]; intros Hf; [done|]. cbn. rewrite (Hf x) by by left.
  f_equal. apply IH. intros y Hy. apply Hf. by right.
Qed.

(** A pair whose first component is known. *)
Lemma pair_fst_eq {A B} (p : A * B) a : p.1 = a → p = (a, p.2).
Proof. destruct p. by intros <-. Qed.

(** Closes a decidable closed goal by evaluation. *)
Ltac decide_compute := apply (bool_decide_unpack _); vm_compute; exact I.

(** Case analysis on the scrutinees of the hypothesis or goal, recording them. *)
Ltac case_all :=
  repeat match goal with
    | |- context [match ?x with _ => _ end] => destruct x eqn:?
    | H : context [match ?x with _ => _ end] |- _ => destruct x eqn:?
    end.
