(* ===== verification/Effects.v ===== *)
(** * Programs as trees of effects

    Code that talks to an external service between its own statements, and that
    other processes interleave with, is written as a tree: a call of the service
    is a node, and the rest of the code waits for its answer. One definition has
    then two readings: [run], which executes it alone against a state, and
    [pool_step], which interleaves the calls of many programs. *)

From S2P Require Import Prelude.

Section programs.
Context {F : Type → Type} {X : Type}.

Inductive prog (A : Type) : Type :=
  | Done (a : A)
  | Throw (x : X)
  | Do {R} (e : F R) (k : R → prog A).
Arguments Done {A} a.
Arguments Throw {A} x.
Arguments Do {A R} e k.

Fixpoint pbind {A B} (p : prog A) (f : A → prog B) : prog B :=
  match p with
  | Done a => f a
  | Throw x => Throw x
  | Do e k => Do e (λ r, pbind (k r) f)
  end.

(** [try: p finally: fin] *)
Fixpoint pfinally {A} (p : prog A) (fin : prog unit) : prog A :=
  match p with
  | Done a => pbind fin (λ _, Done a)
  | Throw x => pbind fin (λ _, Throw x)
  | Do e k => Do e (λ r, pfinally (k r) fin)
  end.

Definition perform {R} (e : F R) : prog R := Do e Done.

Fixpoint pfor {T} (f : T → prog unit) (l : list T) : prog unit :=
  match l with
  | [] => Done tt
  | x :: l' => pbind (f x) (λ _, pfor f l')
  end.

(** ** Alone *)

Section run.
Context {S : Type} (handle : ∀ R, F R → S → R * S).

Fixpoint run {A} (p : prog A) : comp S X A :=
  match p with
  | Done a => ret a
  | Throw x => raise x
  | Do e k => λ s, let '(r, s') := handle _ e s in run (k r) s'
  end.

Lemma run_pbind {A B} (p : prog A) (f : A → prog B) :
  run (pbind p f) ≡ bind (run p) (λ a, run (f a)).
Proof.
  induction p as [a|x|R e k IH]; intros s; [done..|]. cbn. unfold bind.
  destruct (handle R e s) as [r s']. apply IH.
Qed.
Lemma run_pfinally {A} (p : prog A) fin :
  run (pfinally p fin) ≡ try_finally (run p) (run fin).
Proof.
  induction p as [a|x|R e k IH]; intros s; cbn; unfold try_finally.
  - rewrite (run_pbind fin _ s). unfold bind. cbn. by destruct (run fin s) as [[]].
  - rewrite (run_pbind fin _ s). unfold bind. cbn. by destruct (run fin s) as [[]].
  - destruct (handle R e s) as [r s']. apply IH.
Qed.
Lemma run_pfor {T} (f : T → prog unit) l : run (pfor f l) ≡ for_each (λ x, run (f x)) l.
Proof.
  induction l as [|x l IH]; intros s; [done|]. cbn [pfor for_each].
  rewrite (run_pbind (f x) _ s). unfold bind. destruct (run (f x) s) as [[] s']; [apply IH|done].
Qed.

(** [wp p s Q]: run from [s], [p] ends with an outcome and a state in [Q]. *)
Definition wp {A} (p : prog A) (s : S) (Q : outcome X A → S → Prop) : Prop := Q (run p s).1 (run p s).2.

Lemma wp_mono {A} (p : prog A) s (Q Q' : outcome X A → S → Prop) :
  wp p s Q → (∀ o s', Q o s' → Q' o s') → wp p s Q'.
Proof. intros Hp HQ. by apply HQ. Qed.
Lemma wp_done {A} (a : A) s (Q : outcome X A → S → Prop) : Q (Ok a) s → wp (Done a) s Q.
Proof. done. Qed.
Lemma wp_throw {A} (x : X) s (Q : outcome X A → S → Prop) : Q (Raise x) s → wp (Throw x) s Q.
Proof. done. Qed.
Lemma wp_pbind {A B} (p : prog A) (f : A → prog B) s (Q : outcome X B → S → Prop) :
  wp p s (λ o s', match o with Ok a => wp (f a) s' Q | Raise x => Q (Raise x) s' end) →
  wp (pbind p f) s Q.
Proof.
  unfold wp. rewrite (run_pbind p f s). unfold bind. by destruct (run p s) as [[a|x] s'].
Qed.
Lemma wp_pfinally {A} (p : prog A) fin s (Q : outcome X A → S → Prop) :
  wp p s (λ o s', wp fin s' (λ o' s2, match o' with Ok _ => Q o s2 | Raise x => Q (Raise x) s2 end)) →
  wp (pfinally p fin) s Q.
Proof.
  unfold wp. rewrite (run_pfinally p fin s). unfold try_finally.
  destruct (run p s) as [o s']. cbn. by destruct (run fin s') as [[] s2].
Qed.
(** A loop whose body keeps [I] *)
Lemma wp_pfor {T} (f : T → prog unit) l s (I : S → Prop) :
  I s → (∀ x s', x ∈ l → I s' → wp (f x) s' (λ _, I)) → wp (pfor f l) s (λ _, I).
Proof.
  revert s. induction l as [|x l IH]; intros s Hs Hf; [done|]. cbn [pfor].
  apply wp_pbind. eapply wp_mono; [apply Hf; [by left|done]|].
  intros [[]|e] s' Hs'; [|done]. apply IH; [done|]. intros y s2 Hy. apply Hf. by right.
Qed.
Lemma wp_triple {A} (p : prog A) (I : S → Prop) (Q : A → Prop) (E : X → Prop) :
  triple I Q E (run p) ↔
  ∀ s, I s → wp p s (λ o s', I s' ∧ match o with Ok a => Q a | Raise x => E x end).
Proof. done. Qed.

Lemma triple_pbind {A B} (I : S → Prop) (E : X → Prop) (Q : A → Prop) (Q' : B → Prop)
    (p : prog A) (f : A → prog B) :
  triple I Q E (run p) → (∀ a, Q a → triple I Q' E (run (f a))) → triple I Q' E (run (pbind p f)).
Proof.
  intros Hp Hf s Hs. rewrite (run_pbind p f s). by apply (triple_bind I E Q Q' (run p) (λ a, run (f a))).
Qed.
Lemma triple_pfinally {A} (I : S → Prop) (E : X → Prop) (Q : A → Prop) (p : prog A) fin :
  triple I Q E (run p) → triple I (λ _, True) E (run fin) → triple I Q E (run (pfinally p fin)).
Proof.
  intros Hp Hf s Hs. rewrite (run_pfinally p fin s). unfold try_finally.
  destruct (Hp s Hs) as [Hs1 Ho]. destruct (run p s) as [o s1].
  destruct (Hf s1 Hs1) as [Hs2 Hx]. destruct (run fin s1) as [[u|x] s2]; by split.
Qed.
End run.

(** ** Together

    An effect answers and changes the shared world; [env] is what the world does
    on its own. *)

Section pool.
Context {W : Type} (effect : ∀ R, F R → W → R → W → Prop) (env : W → W → Prop).

Inductive pool_step {A} : list (prog A) * W → list (prog A) * W → Prop :=
  | step_effect ps i R (e : F R) k w r w' :
      ps !! i = Some (Do e k) → effect R e w r w' → pool_step (ps, w) (<[i := k r]> ps, w')
  | step_env ps w w' : env w w' → pool_step (ps, w) (ps, w').

Definition pool_steps {A} : list (prog A) * W → list (prog A) * W → Prop := rtc pool_step.

Lemma pool_invariant {A} (I : list (prog A) * W → Prop) :
  (∀ c c', pool_step c c' → I c → I c') → ∀ c c', pool_steps c c' → I c → I c'.
Proof. intros Hstep c c'. induction 1 as [|c1 c2 c3 H12 _ IH]; [done|]. intros H1. eauto. Qed.
End pool.

(** ** Protocols

    An automaton says which effects a program may perform in which phase and which
    phase an answer leads to. [protocol p t Q]: started in phase [t] the program
    performs only effects that are allowed, and ends in a phase [Q] admits. *)

Section protocol.
Context {T : Type} (next : ∀ R, T → F R → option (R → T)).

Fixpoint protocol {A} (p : prog A) (t : T) (Q : outcome X A → T → Prop) : Prop :=
  match p with
  | Done a => Q (Ok a) t
  | Throw x => Q (Raise x) t
  | Do e k =>
      match next _ t e with
      | None => False
      | Some n => ∀ r, protocol (k r) (n r) Q
      end
  end.

Lemma protocol_mono {A} (p : prog A) t (Q Q' : outcome X A → T → Prop) :
  (∀ o t', Q o t' → Q' o t') → protocol p t Q → protocol p t Q'.
Proof.
  intros HQ. revert t. induction p as [a|x|R e k IH]; intros t; cbn; [apply HQ..|].
  destruct (next R t e); [|done]. intros Hk r. by apply IH.
Qed.
Lemma protocol_pbind {A B} (p : prog A) (f : A → prog B) t Q :
  protocol p t (λ o t', match o with Ok a => protocol (f a) t' Q | Raise x => Q (Raise x) t' end) →
  protocol (pbind p f) t Q.
Proof.
  revert t. induction p as [a|x|R e k IH]; intros t; cbn; [done..|].
  destruct (next R t e); [|done]. intros Hk r. by apply IH.
Qed.
Lemma protocol_pfinally {A} (p : prog A) fin t Q :
  protocol p t (λ o t', protocol fin t' (λ o' t2,
    match o' with Ok _ => Q o t2 | Raise x => Q (Raise x) t2 end)) →
  protocol (pfinally p fin) t Q.
Proof.
  revert t. induction p as [a|x|R e k IH]; intros t; cbn.
  - intros H. apply protocol_pbind. eapply protocol_mono; [|exact H]. by intros [].
  - intros H. apply protocol_pbind. eapply protocol_mono; [|exact H]. by intros [].
  - destruct (next R t e); [|done]. intros Hk r. by apply IH.
Qed.
Lemma protocol_pfor {B} (f : B → prog unit) l t :
  (∀ x, x ∈ l → protocol (f x) t (λ _ t', t' = t)) →
  protocol (pfor f l) t (λ _ t', t' = t).
Proof.
  induction l as [|x l IH]; intros Hf; cbn [pfor]; [done|].
  apply protocol_pbind. eapply protocol_mono; [|apply Hf; by left].
  intros [[]|x'] t' ->; [|done]. apply IH. intros y Hy. apply Hf. by right.
Qed.
End protocol.
End programs.

Arguments prog : clear implicits.
Arguments Done {F X A} a.
Arguments Throw {F X A} x.
Arguments Do {F X A R} e k.

Declare Scope prog_scope.
Delimit Scope prog_scope with prog.
Notation "x <~ p ;; k" := (pbind p (λ x, k))
  (at level 100, p at next level, right associativity) : prog_scope.
Notation "p ;~ k" := (pbind p (λ _, k)) (at level 100, right associativity) : prog_scope.
Open Scope prog_scope.
