(* ===== verification/Json.v ===== *)
(** * JSON values and their text

    Python's [json] module, as the packages use it: [json.dumps] with sorted keys
    and compact separators, the canonical text that is signed, and [json.loads].
    A text is read back to the value it was written from, with the keys of its
    objects in order ([json_loads_dumps]); reading ends within a fuel of the length
    of the text ([json_loads_fuel]).

    A float is the text [json.dumps] writes for it; [py_float] is the constructor
    [float] on texts. Strings are code points below 256, so [json_loads] refuses
    an escape above [\u00ff]; the limit of [int] on the number of digits and the
    recursion limit are left out. *)

From S2P Require Import Prelude.
From Stdlib Require DecimalZ DecimalN DecimalFacts.
From Stdlib Require Import DecimalString.

Inductive json :=
  | JNull
  | JBool (b : bool)
  | JInt (z : Z)
  | JFloat (literal : string)
  | JStr (s : string)
  | JList (l : list json)
  | JObj (o : list (string * json)).

(** Induction over the values a list or an object holds. *)
Section json_rect.
Context (P : json → Prop).
Context (Pnull : P JNull) (Pbool : ∀ b, P (JBool b)) (Pint : ∀ z, P (JInt z)).
Context (Pfloat : ∀ r, P (JFloat r)) (Pstr : ∀ s, P (JStr s)).
Context (Plist : ∀ l, Forall P l → P (JList l)).
Context (Pobj : ∀ o, Forall (λ kv, P kv.2) o → P (JObj o)).

Fixpoint json_nested_ind (v : json) : P v :=
  match v with
  | JNull => Pnull | JBool b => Pbool b | JInt z => Pint z | JFloat r => Pfloat r | JStr s => Pstr s
  | JList l =>
      Plist l ((fix all l := match l return Forall P l with
                 | [] => Forall_nil_2 P
                 | x :: l' => Forall_cons_2 P x l' (json_nested_ind x) (all l')
                 end) l)
  | JObj o =>
      Pobj o ((fix all o := match o return Forall (λ kv, P kv.2) o with
                | [] => Forall_nil_2 _
                | kv :: o' => Forall_cons_2 _ kv o' (json_nested_ind kv.2) (all o')
                end) o)
  end.
End json_rect.

(** ** [json.dumps(v, sort_keys=True, separators=(",", ":"))] *)

Definition quote_char : ascii := "034".
Definition hex_digit (n : N) : ascii := ascii_of_N (if (n <? 10)%N then 48 + n else 87 + n).

(** [ensure_ascii] escapes what is not printable ASCII. *)
Definition escape_char (c : ascii) : string :=
  let n := N_of_ascii c in
  if (n =? 34)%N || (n =? 92)%N then String "\" (String c "")
  else if (n =? 10)%N then "\n" else if (n =? 13)%N then "\r" else if (n =? 9)%N then "\t"
  else if (n =? 12)%N then "\f" else if (n =? 8)%N then "\b"
  else if (32 <=? n)%N && (n <=? 126)%N then String c ""
  else "\u00" +:+ String (hex_digit (n / 16)) (String (hex_digit (n mod 16)) "").

Fixpoint escape (s : string) : string :=
  match s with "" => "" | String c s' => escape_char c +:+ escape s' end.

Definition quoted (s : string) : string := String quote_char (escape s +:+ String quote_char "").

Definition int_text (z : Z) : string := NilZero.string_of_int (Z.to_int z).

Definition key_le {A} (a b : string * A) : bool := str_leb a.1 b.1.
Definition sort_keys {A} (o : list (string * A)) : list (string * A) := sort_by key_le o.

Definition member_text (kt : string * string) : string := quoted kt.1 +:+ ":" +:+ kt.2.

(** [t1,t2,...] and the bracket that closes it *)
Fixpoint joined (close : string) (ts : list string) : string :=
  match ts with
  | [] => close
  | [t] => t +:+ close
  | t :: ts' => t +:+ "," +:+ joined close ts'
  end.

Fixpoint json_dumps (v : json) : string :=
  match v with
  | JNull => "null"
  | JBool true => "true"
  | JBool false => "false"
  | JInt z => int_text z
  | JFloat r => r
  | JStr s => quoted s
  | JList l => "[" +:+ joined "]" (map json_dumps l)
  | JObj o =>
      "{" +:+ joined "}" (map member_text (sort_keys (map (λ kv, (kv.1, json_dumps kv.2)) o)))
  end.

(** ** [json.loads] *)

Definition is_json_space (c : ascii) : bool :=
  let n := N_of_ascii c in (n =? 32)%N || (n =? 9)%N || (n =? 10)%N || (n =? 13)%N.
Fixpoint skip_ws (s : string) : string :=
  match s with String c s' => if is_json_space c then skip_ws s' else s | "" => "" end.

Fixpoint strip_prefix (p s : string) : option string :=
  match p, s with
  | "", _ => Some s
  | String c p', String d s' => if Ascii.eqb c d then strip_prefix p' s' else None
  | _, "" => None
  end.

Definition next_is (c : ascii) (s : string) : option string :=
  match s with String d s' => if Ascii.eqb d c then Some s' else None | "" => None end.

Definition is_digit (c : ascii) : bool :=
  let n := N_of_ascii c in (48 <=? n)%N && (n <=? 57)%N.

Fixpoint span (f : ascii → bool) (s : string) : string * string :=
  match s with
  | String c s' => if f c then let '(d, r) := span f s' in (String c d, r) else ("", s)
  | "" => ("", "")
  end.

(** *** Numbers: an integer without leading zeros, a fraction, an exponent *)

Definition scan_nat (s : string) : option (string * string) :=
  match s with
  | "" => None
  | String c r =>
      if Ascii.eqb c "0" then Some ("0", r)
      else if is_digit c then let '(d, r') := span is_digit r in Some (String c d, r')
      else None
  end.
Definition scan_int (s : string) : option (string * string) :=
  match s with
  | "" => None
  | String c r =>
      if Ascii.eqb c "-" then '(d, r') ← scan_nat r; Some (String c d, r') else scan_nat s
  end.
Definition scan_frac (s : string) : string * string :=
  match s with
  | "" => ("", s)
  | String c r =>
      if Ascii.eqb c "." then
        match span is_digit r with ("", _) => ("", s) | (d, r') => (String c d, r') end
      else ("", s)
  end.
Definition scan_sign (s : string) : string * string :=
  match s with
  | "" => ("", s)
  | String c r => if Ascii.eqb c "-" || Ascii.eqb c "+" then (String c "", r) else ("", s)
  end.
Definition scan_exp (s : string) : string * string :=
  match s with
  | "" => ("", s)
  | String c r =>
      if Ascii.eqb c "e" || Ascii.eqb c "E" then
        let '(sign, r1) := scan_sign r in
        match span is_digit r1 with ("", _) => ("", s) | (d, r') => (String c (sign +:+ d), r') end
      else ("", s)
  end.

(** *** Strings *)

Definition unescape (c : ascii) : option ascii :=
  let n := N_of_ascii c in
  if (n =? 34)%N || (n =? 92)%N || (n =? 47)%N then Some c
  else if Ascii.eqb c "b" then Some "008"%char else if Ascii.eqb c "f" then Some "012"%char
  else if Ascii.eqb c "n" then Some "010"%char else if Ascii.eqb c "r" then Some "013"%char
  else if Ascii.eqb c "t" then Some "009"%char else None.

Definition hex_value (c : ascii) : option N :=
  let n := N_of_ascii c in
  if is_digit c then Some (n - 48)%N
  else if (97 <=? n)%N && (n <=? 102)%N then Some (n - 87)%N
  else if (65 <=? n)%N && (n <=? 70)%N then Some (n - 55)%N
  else None.
Definition code_point (a b c d : ascii) : option ascii :=
  a ← hex_value a; b ← hex_value b; c ← hex_value c; d ← hex_value d;
  let n := (4096 * a + 256 * b + 16 * c + d)%N in
  if (n <? 256)%N then Some (ascii_of_N n) else None.

(** The characters up to the closing quote, and what follows it. A control
    character must be escaped. *)
Fixpoint scan_chars (s : string) : option (string * string) :=
  match s with
  | "" => None
  | String c r =>
      if Ascii.eqb c quote_char then Some ("", r)
      else if Ascii.eqb c "\" then
        match r with
        | String "u" (String x (String y (String z (String w r')))) =>
            ch ← code_point x y z w; '(t, r'') ← scan_chars r'; Some (String ch t, r'')
        | String e r' => ch ← unescape e; '(t, r'') ← scan_chars r'; Some (String ch t, r'')
        | "" => None
        end
      else if (N_of_ascii c <? 32)%N then None
      else '(t, r') ← scan_chars r; Some (String c t, r')
  end.

(** *** Values *)

Section loads.
Context (py_float : string → string).

Definition scan_number (s : string) : option (json * string) :=
  '(i, r) ← scan_int s;
  let '(frac, r1) := scan_frac r in
  let '(exp, r2) := scan_exp r1 in
  if String.eqb (frac +:+ exp) "" then
    z ← NilZero.int_of_string i; Some (JInt (Z.of_int z), r2)
  else Some (JFloat (py_float (i +:+ frac +:+ exp)), r2).

(** The values that start with a letter or a sign, tried in this order *)
Definition constants : list (string * json) :=
  [("null", JNull); ("true", JBool true); ("false", JBool false); ("NaN", JFloat "NaN");
   ("Infinity", JFloat "Infinity"); ("-Infinity", JFloat "-Infinity")].
Fixpoint scan_constant (table : list (string * json)) (s : string) : option (json * string) :=
  match table with
  | [] => None
  | (p, v) :: table' =>
      match strip_prefix p s with Some r => Some (v, r) | None => scan_constant table' s end
  end.
Definition scan_scalar (s : string) : option (json * string) :=
  match scan_constant constants s with Some x => Some x | None => scan_number s end.

Fixpoint parse_value (fuel : nat) (s : string) : option (json * string) :=
  match fuel, s with
  | S fuel, String c r =>
      if Ascii.eqb c quote_char then '(t, r') ← scan_chars r; Some (JStr t, r')
      else if Ascii.eqb c "[" then
        match next_is "]" (skip_ws r) with
        | Some r' => Some (JList [], r')
        | None => parse_elements fuel [] (skip_ws r)
        end
      else if Ascii.eqb c "{" then
        match next_is "}" (skip_ws r) with
        | Some r' => Some (JObj [], r')
        | None => parse_members fuel [] (skip_ws r)
        end
      else scan_scalar s
  | _, _ => None
  end
with parse_elements (fuel : nat) (l : list json) (s : string) : option (json * string) :=
  match fuel with
  | O => None
  | S fuel =>
      '(v, r) ← parse_value fuel s;
      match next_is "," (skip_ws r), next_is "]" (skip_ws r) with
      | Some r', _ => parse_elements fuel (l ++ [v]) (skip_ws r')
      | None, Some r' => Some (JList (l ++ [v]), r')
      | None, None => None
      end
  end
with parse_members (fuel : nat) (o : list (string * json)) (s : string) : option (json * string) :=
  match fuel with
  | O => None
  | S fuel =>
      s' ← next_is quote_char s;
      '(k, r) ← scan_chars s';
      r1 ← next_is ":" (skip_ws r);
      '(v, r2) ← parse_value fuel (skip_ws r1);
      match next_is "," (skip_ws r2), next_is "}" (skip_ws r2) with
      | Some r3, _ => parse_members fuel (dict_set k v o) (skip_ws r3)
      | None, Some r3 => Some (JObj (dict_set k v o), r3)
      | None, None => None
      end
  end.

Definition loads_with (fuel : nat) (s : string) : option json :=
  '(v, r) ← parse_value fuel (skip_ws s);
  if String.eqb (skip_ws r) "" then Some v else None.
Definition json_loads (s : string) : option json := loads_with (2 * String.length s) s.
End loads.

(** ** What is read back *)

(** The keys of every object in order. *)
Fixpoint canonical (v : json) : json :=
  match v with
  | JList l => JList (map canonical l)
  | JObj o => JObj (sort_keys (map (λ kv, (kv.1, canonical kv.2)) o))
  | _ => v
  end.

(** The text of a float is one that [float] gives back. *)
Definition float_text (py_float : string → string) (r : string) : Prop :=
  scan_scalar py_float r = Some (JFloat r, "").

(** A value of Python: the keys of a dictionary are distinct. *)
Fixpoint json_ok (py_float : string → string) (v : json) : Prop :=
  match v with
  | JFloat r => float_text py_float r
  | JList l => (fix all l := match l with [] => True | x :: l' => json_ok py_float x ∧ all l' end) l
  | JObj o =>
      NoDup o.*1 ∧
      (fix all o := match o with [] => True | kv :: o' => json_ok py_float kv.2 ∧ all o' end) o
  | _ => True
  end.

(** ** Lemmas on the scanners *)

(** What may follow a value in a text that [json.dumps] writes, indented or not. *)
Definition stops (rest : string) : Prop :=
  match rest with "" => True | String c _ => c = ","%char ∨ c = "]"%char ∨ c = "}"%char ∨ is_json_space c = true end.

Section scanners.
Context (rest : string) (Hrest : stops rest).

Lemma stops_head : match rest with
  | "" => True
  | String c _ => is_digit c = false ∧ (c ≠ ".")%char ∧ (c ≠ "e")%char ∧ (c ≠ "E")%char ∧
                  (c ≠ "-")%char ∧ (c ≠ "+")%char ∧ (c ≠ "0")%char
  end.
Proof.
  destruct rest as [|c s]; [done|]. destruct Hrest as [-> | [-> | [-> | Hc]]]; try done.
  by destruct c as [[] [] [] [] [] [] [] []].
Qed.

Lemma span_digits s d r : span is_digit s = (d, r) → span is_digit (s +:+ rest) = (d, r +:+ rest).
Proof.
  revert d r. induction s as [|c s IH]; intros d r.
  - intros [= <- <-]. pose proof stops_head as Hh. change ("" +:+ rest) with rest.
    destruct rest as [|c s]; [done|]. cbn [span]. by rewrite (proj1 Hh).
  - rewrite string_app_cons. cbn [span]. destruct (is_digit c); [|by intros [= <- <-]].
    destruct (span is_digit s) as [d' r']. intros [= <- <-]. by rewrite (IH d' r').
Qed.

Lemma scan_nat_app s d r : scan_nat s = Some (d, r) → scan_nat (s +:+ rest) = Some (d, r +:+ rest).
Proof.
  destruct s as [|c s]; [done|]. rewrite string_app_cons. cbn [scan_nat].
  destruct (Ascii.eqb c "0"); [by intros [= <- <-]|]. destruct (is_digit c); [|done].
  destruct (span is_digit s) as [d' r'] eqn:Hs. intros [= <- <-]. by rewrite (span_digits s d' r').
Qed.
Lemma scan_int_app s d r : scan_int s = Some (d, r) → scan_int (s +:+ rest) = Some (d, r +:+ rest).
Proof.
  destruct s as [|c s]; [done|]. rewrite string_app_cons. cbn [scan_int].
  destruct (Ascii.eqb c "-").
  - destruct (scan_nat s) as [[d' r']|] eqn:Hs; [|done]. intros [= <- <-]. by rewrite (scan_nat_app s d' r').
  - apply (scan_nat_app (String c s)).
Qed.
Lemma scan_frac_app s d r : scan_frac s = (d, r) → scan_frac (s +:+ rest) = (d, r +:+ rest).
Proof.
  destruct s as [|c s].
  - intros [= <- <-]. pose proof stops_head as Hh. change ("" +:+ rest) with rest.
    destruct rest as [|c s]; [done|]. cbn [scan_frac].
    by rewrite (proj2 (Ascii.eqb_neq c ".") (proj1 (proj2 Hh))).
  - rewrite string_app_cons. cbn [scan_frac]. destruct (Ascii.eqb c "."); [|by intros [= <- <-]].
    destruct (span is_digit s) as [d' r'] eqn:Hs. rewrite (span_digits s d' r' Hs).
    by destruct d'; intros [= <- <-].
Qed.
Lemma scan_sign_app s d r : scan_sign s = (d, r) → scan_sign (s +:+ rest) = (d, r +:+ rest).
Proof.
  destruct s as [|c s].
  - intros [= <- <-]. pose proof stops_head as Hh. change ("" +:+ rest) with rest.
    destruct rest as [|c s]; [done|]. cbn [scan_sign].
    destruct Hh as (_ & _ & _ & _ & H1 & H2 & _). by rewrite (proj2 (Ascii.eqb_neq _ _) H1), (proj2 (Ascii.eqb_neq _ _) H2).
  - rewrite string_app_cons. cbn [scan_sign]. by destruct (Ascii.eqb c "-" || Ascii.eqb c "+"); intros [= <- <-].
Qed.
Lemma scan_exp_app s d r : scan_exp s = (d, r) → scan_exp (s +:+ rest) = (d, r +:+ rest).
Proof.
  destruct s as [|c s].
  - intros [= <- <-]. pose proof stops_head as Hh. change ("" +:+ rest) with rest.
    destruct rest as [|c s]; [done|]. cbn [scan_exp].
    destruct Hh as (_ & _ & H1 & H2 & _). by rewrite (proj2 (Ascii.eqb_neq _ _) H1), (proj2 (Ascii.eqb_neq _ _) H2).
  - rewrite string_app_cons. cbn [scan_exp].
    destruct (Ascii.eqb c "e" || Ascii.eqb c "E"); [|by intros [= <- <-]].
    destruct (scan_sign s) as [sg r1] eqn:H1. rewrite (scan_sign_app s sg r1 H1).
    destruct (span is_digit r1) as [d' r'] eqn:Hs. rewrite (span_digits r1 d' r' Hs).
    by destruct d'; intros [= <- <-].
Qed.
Lemma scan_number_app py_float s v r :
  scan_number py_float s = Some (v, r) → scan_number py_float (s +:+ rest) = Some (v, r +:+ rest).
Proof.
  unfold scan_number. destruct (scan_int s) as [[i r0]|] eqn:Hi; [|done]. rewrite (scan_int_app s i r0 Hi). cbn.
  destruct (scan_frac r0) as [fr r1] eqn:Hf. rewrite (scan_frac_app r0 fr r1 Hf).
  destruct (scan_exp r1) as [e r2] eqn:He. rewrite (scan_exp_app r1 e r2 He).
  destruct (String.eqb _ _); [|by intros [= <- <-]].
  destruct (NilZero.int_of_string i); [|done]. by intros [= <- <-].
Qed.
End scanners.

Lemma strip_prefix_spec p s r : strip_prefix p s = Some r ↔ s = p +:+ r.
Proof.
  revert s. induction p as [|c p IH]; intros s; [cbn; naive_solver|].
  destruct s as [|d s]; [done|]. rewrite string_app_cons. cbn [strip_prefix].
  destruct (Ascii.eqb_spec c d) as [->|]; [|naive_solver]. rewrite IH. naive_solver.
Qed.

(** A number starts with a digit or with a sign and a digit, a constant does not. *)
Lemma scan_nat_head s x : scan_nat s = Some x → ∃ c s', s = String c s' ∧ is_digit c = true.
Proof.
  destruct s as [|c s]; [done|]. cbn [scan_nat]. destruct (Ascii.eqb_spec c "0") as [->|]; [by eauto|].
  destruct (is_digit c) eqn:Hc; [by eauto|done].
Qed.
Lemma digit_no_constant c s : is_digit c = true → scan_constant constants (String c s) = None.
Proof. by destruct c as [[] [] [] [] [] [] [] []]. Qed.
Lemma signed_no_constant c s : is_digit c = true → scan_constant constants (String "-" (String c s)) = None.
Proof. by destruct c as [[] [] [] [] [] [] [] []]. Qed.
Lemma number_no_constant py_float s x : scan_number py_float s = Some x → scan_constant constants s = None.
Proof.
  unfold scan_number. destruct (scan_int s) as [[i r]|] eqn:Hi; [|done]. intros _.
  destruct s as [|c s]; [done|]. unfold scan_int in Hi.
  destruct (Ascii.eqb_spec c "-") as [->|].
  - destruct (scan_nat s) as [x'|] eqn:Hs; [|done]. apply scan_nat_head in Hs as (d & s' & -> & Hd).
    by apply signed_no_constant.
  - apply scan_nat_head in Hi as (d & s' & [= -> ->] & Hd). by apply digit_no_constant.
Qed.

Lemma scan_scalar_number py_float s x : scan_number py_float s = Some x → scan_scalar py_float s = Some x.
Proof. intros Hs. unfold scan_scalar. by rewrite (number_no_constant _ _ _ Hs). Qed.

Lemma scan_scalar_app py_float s v r rest : stops rest →
  scan_scalar py_float s = Some (v, r) → scan_scalar py_float (s +:+ rest) = Some (v, r +:+ rest).
Proof.
  intros Hrest. unfold scan_scalar at 1. destruct (scan_constant constants s) as [x|] eqn:Hs.
  - intros [= ->]. revert Hs. unfold constants. cbn [scan_constant].
    repeat match goal with
    | |- match strip_prefix ?p s with _ => _ end = _ → _ =>
        let H := fresh in destruct (strip_prefix p s) eqn:H;
        [apply strip_prefix_spec in H as ->; intros [= <- <-]; by rewrite string_app_assoc|]
    end; done.
  - intros Hn. apply scan_scalar_number. by apply scan_number_app.
Qed.

(** *** Integers *)

Lemma uint_text_digits d : span is_digit (NilEmpty.string_of_uint d) = (NilEmpty.string_of_uint d, "").
Proof. induction d; cbn [NilEmpty.string_of_uint span]; [done|..]; by rewrite IHd. Qed.

Lemma scan_uint_text n : scan_nat (NilZero.string_of_uint (N.to_uint n)) = Some (NilZero.string_of_uint (N.to_uint n), "").
Proof.
  assert (N.to_uint n = Decimal.unorm (N.to_uint n)) as Hn.
  { rewrite <- DecimalN.Unsigned.to_of. by rewrite DecimalN.Unsigned.of_to. }
  rewrite Hn. unfold Decimal.unorm. pose proof (DecimalFacts.nzhead_nonzero (N.to_uint n)) as H0.
  destruct (Decimal.nzhead (N.to_uint n)) as [|d|d|d|d|d|d|d|d|d|d] eqn:Hd; try done; try (by destruct (H0 d));
    cbn [NilZero.string_of_uint NilEmpty.string_of_uint scan_nat]; cbv [Ascii.eqb Bool.eqb is_digit];
    cbn -[span is_digit]; by rewrite uint_text_digits.
Qed.

Lemma uint_nonnil n : N.to_uint n ≠ Decimal.Nil.
Proof. destruct n as [|p]; [done|]. apply (DecimalPos.Unsigned.to_uint_nonnil p). Qed.

Lemma uint_text_positive n c s : NilZero.string_of_uint (N.to_uint n) = String c s → c ≠ "-"%char.
Proof.
  intros Heq. pose proof (scan_uint_text n) as Hs. rewrite Heq in Hs.
  apply scan_nat_head in Hs as (c' & s' & [= -> ->] & Hc). by intros ->.
Qed.

Lemma int_text_eq z : ∃ n, Z.to_int z = (if (z <? 0)%Z then Decimal.Neg else Decimal.Pos) (N.to_uint n).
Proof. destruct z as [|p|p]; [by exists 0%N|by exists (N.pos p)..]. Qed.

Lemma int_text_scan py_float z : scan_number py_float (int_text z) = Some (JInt z, "").
Proof.
  unfold scan_number.
  assert (scan_int (int_text z) = Some (int_text z, "")) as ->.
  { unfold int_text. destruct (int_text_eq z) as [n ->]. pose proof (scan_uint_text n) as Hs.
    destruct (z <? 0)%Z; cbn [NilZero.string_of_int].
    - change (scan_int (String "-" (NilZero.string_of_uint (N.to_uint n)))) with
        ('(d, r') ← scan_nat (NilZero.string_of_uint (N.to_uint n)); Some (String "-" d, r')). by rewrite Hs.
    - destruct (NilZero.string_of_uint (N.to_uint n)) as [|c s] eqn:Ht; [done|]. cbn [scan_int].
      by rewrite (proj2 (Ascii.eqb_neq c "-") (uint_text_positive n c s Ht)). }
  cbn -[int_text NilZero.int_of_string]. unfold int_text. rewrite NilZero.isi.
  - cbn. by rewrite DecimalZ.of_to.
  - destruct (int_text_eq z) as [n ->]. destruct (z <? 0)%Z; [done|]. intros [= Hn]. by apply (uint_nonnil n).
  - destruct (int_text_eq z) as [n ->]. destruct (z <? 0)%Z; [|done]. intros [= Hn]. by apply (uint_nonnil n).
Qed.

(** *** Strings *)

Lemma scan_escaped c s t r : scan_chars s = Some (t, r) → scan_chars (escape_char c +:+ s) = Some (String c t, r).
Proof.
  intros Hs. destruct c as [[] [] [] [] [] [] [] []]; cbn [scan_chars];
    lazymatch goal with |- scan_chars (?e +:+ s) = _ => let e' := eval vm_compute in e in change e with e' end;
    rewrite ?string_app_cons; change ("" +:+ s) with s;
    cbn -[scan_chars]; cbn [scan_chars]; cbv [quote_char]; cbn -[scan_chars]; rewrite Hs; done.
Qed.

Lemma scan_quoted s r : scan_chars (escape s +:+ String quote_char r) = Some (s, r).
Proof.
  induction s as [|c s IH]; [done|]. cbn [escape]. rewrite string_app_assoc. by apply scan_escaped.
Qed.

(** ** Every scanner consumes *)

Abbreviation len := String.length.

Lemma skip_ws_length s : len (skip_ws s) ≤ len s.
Proof. induction s as [|c s IH]; [done|]. cbn. destruct (is_json_space c); cbn; lia. Qed.
Lemma span_length f s d r : span f s = (d, r) → len r ≤ len s.
Proof.
  revert d r. induction s as [|c s IH]; intros d r; cbn; [by intros [= <- <-]|].
  destruct (f c); [|intros [= <- <-]; cbn; lia].
  destruct (span f s) as [d' r'] eqn:Hs. intros [= <- <-]. specialize (IH d' r' eq_refl). lia.
Qed.
Lemma scan_nat_length s d r : scan_nat s = Some (d, r) → len r < len s.
Proof.
  destruct s as [|c s]; [done|]. cbn [scan_nat]. destruct (Ascii.eqb c "0"); [intros [= <- <-]; cbn; lia|].
  destruct (is_digit c); [|done]. destruct (span is_digit s) as [d' r'] eqn:Hs. intros [= <- <-].
  apply span_length in Hs. cbn. lia.
Qed.
Lemma scan_int_length s d r : scan_int s = Some (d, r) → len r < len s.
Proof.
  destruct s as [|c s]; [done|]. cbn [scan_int]. destruct (Ascii.eqb c "-"); [|apply scan_nat_length].
  destruct (scan_nat s) as [[d' r']|] eqn:Hs; [|done]. intros [= <- <-]. apply scan_nat_length in Hs. cbn. lia.
Qed.
Lemma scan_frac_length s d r : scan_frac s = (d, r) → len r ≤ len s.
Proof.
  destruct s as [|c s]; cbn [scan_frac]; [by intros [= <- <-]|].
  destruct (Ascii.eqb c "."); [|by intros [= <- <-]]. destruct (span is_digit s) as [d' r'] eqn:Hs.
  apply span_length in Hs. destruct d'; intros [= <- <-]; cbn; lia.
Qed.
Lemma scan_exp_length s d r : scan_exp s = (d, r) → len r ≤ len s.
Proof.
  destruct s as [|c s]; cbn [scan_exp]; [by intros [= <- <-]|].
  destruct (_ || _); [|by intros [= <- <-]]. destruct (scan_sign s) as [sg r1] eqn:H1.
  destruct (span is_digit r1) as [d' r'] eqn:Hs. apply span_length in Hs.
  assert (len r1 ≤ len s). { destruct s as [|x s]; cbn in H1; [by injection H1 as <- <-|].
    destruct (_ || _); injection H1 as <- <-; cbn; lia. }
  destruct d'; intros [= <- <-]; cbn; lia.
Qed.
Lemma scan_number_length py_float s v r : scan_number py_float s = Some (v, r) → len r < len s.
Proof.
  unfold scan_number. destruct (scan_int s) as [[i r0]|] eqn:Hi; [|done]. apply scan_int_length in Hi. cbn.
  destruct (scan_frac r0) as [fr r1] eqn:Hf. apply scan_frac_length in Hf.
  destruct (scan_exp r1) as [e r2] eqn:He. apply scan_exp_length in He.
  destruct (String.eqb _ _); [destruct (NilZero.int_of_string i); [|done]|]; intros [= <- <-]; lia.
Qed.
Lemma scan_scalar_length py_float s v r : scan_scalar py_float s = Some (v, r) → len r < len s.
Proof.
  unfold scan_scalar. destruct (scan_constant constants s) as [x|] eqn:Hs; [|apply scan_number_length].
  intros [= ->]. revert Hs. unfold constants. cbn [scan_constant].
  repeat match goal with
  | |- match strip_prefix ?p s with _ => _ end = _ → _ =>
      let H := fresh in destruct (strip_prefix p s) eqn:H;
      [apply strip_prefix_spec in H as ->; intros [= <- <-]; rewrite string_app_length; cbn; lia|]
  end; done.
Qed.
Lemma scan_chars_length s t r : scan_chars s = Some (t, r) → len r < len s.
Proof.
  remember (len s) as n eqn:Hn. revert s t r Hn. induction n as [n IH] using lt_wf_ind. intros s t r ->.
  assert (∀ s' f, len s' < len s →
    ('(t, r) ← scan_chars s'; Some (String f t, r)) = Some (t, r) → len r < len s) as Hrec.
  { intros s' f Hlt. destruct (scan_chars s') as [[t' r']|] eqn:Hs; [|done]. intros [= <- <-].
    specialize (IH _ Hlt s' t' r' eq_refl Hs). lia. }
  destruct s as [|c s]; [done|]. cbn [scan_chars]. destruct (Ascii.eqb c quote_char); [intros [= <- <-]; cbn; lia|].
  destruct (Ascii.eqb c "\").
  - destruct s as [|e s]; [done|].
    assert (∀ o : option ascii, (ch ← o; '(t, r) ← scan_chars s; Some (String ch t, r)) = Some (t, r) →
      len r < len (String c (String e s))) as Hesc.
    { intros [ch|]; [|done]. apply Hrec. cbn. lia. }
    destruct (decide (e = "u"%char)) as [->|He].
    + destruct s as [|x [|y [|z [|w s]]]]; try apply (Hesc (unescape "u")).
      destruct (code_point x y z w) as [ch|]; [|done]. apply Hrec. cbn. lia.
    + destruct e as [[] [] [] [] [] [] [] []]; try done; apply Hesc.
  - destruct (N_of_ascii c <? 32)%N; [done|]. apply Hrec. cbn. lia.
Qed.

Lemma next_is_spec c s r : next_is c s = Some r ↔ s = String c r.
Proof. destruct s as [|d s]; cbn; [done|]. destruct (Ascii.eqb_spec d c); naive_solver. Qed.
Lemma next_is_length c s r : next_is c (skip_ws s) = Some r → len r < len s.
Proof.
  intros Hr%next_is_spec. pose proof (skip_ws_length s) as Hs. rewrite Hr in Hs. cbn in Hs. lia.
Qed.

Section fuel.
Context (py_float : string → string).

Lemma parse_shorter n :
  (∀ s v r, parse_value py_float n s = Some (v, r) → len r < len s) ∧
  (∀ l s v r, parse_elements py_float n l s = Some (v, r) → len r < len s) ∧
  (∀ o s v r, parse_members py_float n o s = Some (v, r) → len r < len s).
Proof.
  induction n as [|n (IHv & IHe & IHm)]; [done|]. split_and!.
  - intros [|c s] v r; [done|]. cbn [parse_value]. pose proof (skip_ws_length s) as Hs.
    destruct (Ascii.eqb c quote_char); [|destruct (Ascii.eqb c "["); [|destruct (Ascii.eqb c "{")]].
    + destruct (scan_chars s) as [[t r']|] eqn:Ht; [|done]. apply scan_chars_length in Ht.
      intros [= <- <-]. cbn. lia.
    + destruct (next_is _ _) eqn:Hn; [apply next_is_length in Hn; intros [= <- <-]; cbn; lia|].
      intros He%IHe. cbn. lia.
    + destruct (next_is _ _) eqn:Hn; [apply next_is_length in Hn; intros [= <- <-]; cbn; lia|].
      intros He%IHm. cbn. lia.
    + apply scan_scalar_length.
  - intros l s v r. cbn [parse_elements]. destruct (parse_value py_float n s) as [[w r']|] eqn:Hw; [|done].
    apply IHv in Hw. cbn [mbind option_bind]. destruct (next_is "," _) as [r1|] eqn:H1; [|destruct (next_is "]" _) as [r1|] eqn:H2; [|done]].
    + apply next_is_length in H1. pose proof (skip_ws_length r1). intros He%IHe. lia.
    + apply next_is_length in H2. intros [= <- <-]. lia.
  - intros o s v r. cbn [parse_members]. destruct (next_is quote_char s) as [s'|] eqn:Hq; [|done].
    apply next_is_spec in Hq as ->. cbn [mbind option_bind len].
    destruct (scan_chars s') as [[k r0]|] eqn:Hk; [|done]. apply scan_chars_length in Hk. cbn [mbind option_bind].
    destruct (next_is ":" _) as [r1|] eqn:H1; [|done]. apply next_is_length in H1. cbn [mbind option_bind].
    pose proof (skip_ws_length r1).
    destruct (parse_value py_float n _) as [[w r2]|] eqn:Hw; [|done]. apply IHv in Hw. cbn [mbind option_bind].
    destruct (next_is "," _) as [r3|] eqn:H2; [|destruct (next_is "}" _) as [r3|] eqn:H3; [|done]].
    + apply next_is_length in H2. pose proof (skip_ws_length r3). intros He%IHm. lia.
    + apply next_is_length in H3. intros [= <- <-]. lia.
Qed.

(** Fuel in excess changes nothing. *)
Lemma parse_fuel n m :
  (∀ s, 2 * len s ≤ n → 2 * len s ≤ m → parse_value py_float n s = parse_value py_float m s) ∧
  (∀ l s, 2 * len s < n → 2 * len s < m → parse_elements py_float n l s = parse_elements py_float m l s) ∧
  (∀ o s, 2 * len s < n → 2 * len s < m → parse_members py_float n o s = parse_members py_float m o s).
Proof.
  revert m. induction n as [|n IH]; intros m; [split_and!; [|lia..]|].
  { intros [|c s]; cbn [len]; [by destruct m|lia]. }
  destruct m as [|m]; [split_and!; [|lia..]|].
  { intros [|c s]; cbn [len]; [done|lia]. }
  destruct (IH m) as (IHv & IHe & IHm). split_and!.
  - intros [|c s] Hn Hm; [done|]. cbn [len] in *. cbn [parse_value]. pose proof (skip_ws_length s) as Hs.
    destruct (Ascii.eqb c quote_char); [done|].
    rewrite (IHe [] (skip_ws s)), (IHm [] (skip_ws s)) by lia. done.
  - intros l s Hn Hm. cbn [parse_elements]. rewrite (IHv s) by lia.
    destruct (parse_value py_float m s) as [[w r']|] eqn:Hw; [|done]. apply (parse_shorter m) in Hw.
    cbn [mbind option_bind]. destruct (next_is "," _) as [r1|] eqn:H1; [|done].
    apply next_is_length in H1. pose proof (skip_ws_length r1). apply IHe; lia.
  - intros o s Hn Hm. cbn [parse_members]. destruct (next_is quote_char s) as [s'|] eqn:Hq; [|done].
    apply next_is_spec in Hq as ->. cbn [mbind option_bind len] in *.
    destruct (scan_chars s') as [[k r0]|] eqn:Hk; [|done]. apply scan_chars_length in Hk. cbn [mbind option_bind].
    destruct (next_is ":" _) as [r1|] eqn:H1; [|done]. apply next_is_length in H1. cbn [mbind option_bind].
    pose proof (skip_ws_length r1). rewrite (IHv (skip_ws r1)) by lia.
    destruct (parse_value py_float m _) as [[w r2]|] eqn:Hw; [|done]. apply (parse_shorter m) in Hw.
    cbn [mbind option_bind]. destruct (next_is "," _) as [r3|] eqn:H2; [|done].
    apply next_is_length in H2. pose proof (skip_ws_length r3). apply IHm; lia.
Qed.

(** Reading ends within the fuel that [json_loads] gives it. *)
Lemma json_loads_fuel n s : 2 * len s ≤ n → loads_with py_float n s = json_loads py_float s.
Proof.
  intros Hn. unfold json_loads, loads_with. pose proof (skip_ws_length s).
  by rewrite (proj1 (parse_fuel n (2 * len s)) (skip_ws s)) by lia.
Qed.
End fuel.

(** ** Reading what was written *)

Lemma insert_keys_map {A B} (f : A → B) (kv : string * A) o :
  insert_by key_le (kv.1, f kv.2) (map (λ x, (x.1, f x.2)) o) = map (λ x, (x.1, f x.2)) (insert_by key_le kv o).
Proof.
  induction o as [|kv' o IH]; [done|]. cbn [map insert_by].
  change (key_le (kv.1, f kv.2) (kv'.1, f kv'.2)) with (key_le kv kv'). destruct (key_le kv kv'); [done|].
  cbn [map]. by rewrite IH.
Qed.
Lemma sort_keys_map {A B} (f : A → B) (o : list (string * A)) :
  sort_keys (map (λ kv, (kv.1, f kv.2)) o) = map (λ kv, (kv.1, f kv.2)) (sort_keys o).
Proof.
  induction o as [|kv o IH]; [done|]. unfold sort_keys in *. cbn [map sort_by]. rewrite IH. apply insert_keys_map.
Qed.
Lemma sort_keys_perm {A} (o : list (string * A)) : sort_keys o ≡ₚ o.
Proof. apply sort_by_perm. Qed.

Lemma dict_merge_fresh {V} (d d' : list (string * V)) : NoDup (d ++ d').*1 → dict_merge d d' = d ++ d'.
Proof.
  unfold dict_merge. revert d. induction d' as [|[k v] d' IH]; intros d Hd; [by rewrite app_nil_r|]. cbn [foldl].
  assert (dict_set k v d = d ++ [(k, v)]) as Hset.
  { rewrite fmap_app, fmap_cons in Hd. apply NoDup_app in Hd as (_ & Hd & _).
    assert (k ∉ d.*1) as Hk by (intros Hk; by apply (Hd k Hk); left). clear -Hk.
    induction d as [|[k1 v1] d IH]; [done|]. rewrite fmap_cons, not_elem_of_cons in Hk. cbn [dict_set].
    rewrite decide_False by naive_solver. by rewrite IH by naive_solver. }
  cbn [fst snd]. rewrite Hset, IH; by rewrite <- app_assoc.
Qed.

(** How the text of a value starts. *)
Definition starts (t : string) : Prop :=
  ∃ c s, t = String c s ∧ is_json_space c = false ∧ c ≠ "]"%char ∧ c ≠ "}"%char.

Lemma starts_skip t rest : starts t → skip_ws (t +:+ rest) = t +:+ rest.
Proof. intros (c & s & -> & Hc & _). rewrite string_app_cons. cbn [skip_ws]. by rewrite Hc. Qed.
Lemma starts_next t rest c : starts t → c = "]"%char ∨ c = "}"%char → next_is c (t +:+ rest) = None.
Proof.
  intros (d & s & -> & _ & H1 & H2) Hc. rewrite string_app_cons. cbn [next_is].
  destruct (Ascii.eqb_spec d c) as [->|]; [|done]. naive_solver.
Qed.
Lemma skip_punctuation c s : c = ","%char ∨ c = "]"%char ∨ c = "}"%char ∨ c = ":"%char → skip_ws (String c s) = String c s.
Proof. by intros [-> | [-> | [-> | ->]]]. Qed.

Section reading.
Context (py_float : string → string).

Definition reads (v : json) (t : string) : Prop :=
  starts t ∧ ∃ n0, ∀ n rest, n0 ≤ n → stops rest →
    parse_value py_float n (t +:+ rest) = Some (canonical v, rest).

Lemma scalar_head s x : scan_scalar py_float s = Some x →
  ∃ c s', s = String c s' ∧ c ∉ [quote_char; "["; "{"; "]"; "}"]%char ∧ is_json_space c = false.
Proof.
  intros Hs. assert (∃ c s', s = String c s' ∧ (is_digit c = true ∨ c ∈ ["-"; "n"; "t"; "f"; "N"; "I"]%char)) as (c & s' & -> & Hc).
  { unfold scan_scalar in Hs. destruct (scan_constant constants s) as [y|] eqn:Hy.
    - revert Hy. unfold constants. cbn [scan_constant].
      repeat match goal with
      | |- match strip_prefix ?p s with _ => _ end = _ → _ =>
          let H := fresh in destruct (strip_prefix p s) eqn:H;
          [apply strip_prefix_spec in H as ->; intros _; eexists _, _; split; [done|right; set_solver]|]
      end; done.
    - unfold scan_number in Hs. destruct (scan_int s) as [[i r]|] eqn:Hi; [|done].
      destruct s as [|c s]; [done|]. unfold scan_int in Hi. destruct (Ascii.eqb_spec c "-") as [->|].
      + eexists _, _. split; [done|]. right. set_solver.
      + apply scan_nat_head in Hi as (d & s' & [= -> ->] & Hd). eauto. }
  exists c, s'. split; [done|]. destruct Hc as [Hc|Hc].
  - split; [|by destruct c as [[] [] [] [] [] [] [] []]]. intros Hin.
    repeat (apply elem_of_cons in Hin as [-> |Hin]; [done|]). by apply elem_of_nil in Hin.
  - repeat (apply elem_of_cons in Hc as [-> |Hc]; [by split; [decide_compute|]|]). by apply elem_of_nil in Hc.
Qed.

Lemma reads_scalar v t : canonical v = v → scan_scalar py_float t = Some (v, "") → reads v t.
Proof.
  intros Hv Hs. destruct (scalar_head _ _ Hs) as (c & s & -> & Hc & Hsp). rewrite !not_elem_of_cons in Hc.
  destruct Hc as (Hq & Hl & Hb & Hl' & Hb' & _). split; [by exists c, s|].
  exists 1. intros [|n] rest Hn Hrest; [lia|]. apply (scan_scalar_app _ _ _ _ rest Hrest) in Hs.
  rewrite string_app_cons in *. cbn [parse_value].
  rewrite (proj2 (Ascii.eqb_neq _ _) Hq), (proj2 (Ascii.eqb_neq _ _) Hl), (proj2 (Ascii.eqb_neq _ _) Hb). by rewrite Hs, Hv.
Qed.

Lemma reads_string s : reads (JStr s) (quoted s).
Proof.
  split; [eexists _, _; split; [done|]; by split_and!|].
  exists 1. intros [|n] rest Hn Hrest; [lia|]. unfold quoted. rewrite string_app_cons. cbn [parse_value].
  rewrite Ascii.eqb_refl, string_app_assoc, string_app_cons. by rewrite scan_quoted.
Qed.

Lemma reads_elements vs ts acc : Forall2 reads vs ts → ts ≠ [] → ∃ n0, ∀ n rest, n0 ≤ n →
  parse_elements py_float n acc (joined "]" ts +:+ rest) = Some (JList (acc ++ map canonical vs), rest).
Proof.
  intros Hvs. revert acc. induction Hvs as [|v t vs ts [Hst [n0 Ht]] Hvs IH]; intros acc Hne; [done|].
  destruct ts as [|t' ts].
  - apply Forall2_nil_inv_r in Hvs as ->. exists (S n0). intros [|n] rest Hn; [lia|].
    cbn [joined parse_elements map]. rewrite string_app_assoc. rewrite Ht by (done || lia || (right; by left)). done.
  - destruct (IH (acc ++ [canonical v]) ltac:(done)) as [n1 H1].
    exists (S (n0 + n1)). intros [|n] rest Hn; [lia|]. change (joined "]" (t :: t' :: ts)) with (t +:+ "," +:+ joined "]" (t' :: ts)).
    cbn [parse_elements]. rewrite !string_app_assoc.
    rewrite Ht by (lia || by left). cbn [mbind option_bind].
    rewrite string_app_cons. rewrite skip_punctuation by auto. cbn [next_is]. rewrite Ascii.eqb_refl.
    change ("" +:+ ?s) with s.
    assert (skip_ws (joined "]" (t' :: ts) +:+ rest) = joined "]" (t' :: ts) +:+ rest) as ->.
    { inversion Hvs as [|? ? ? ? [Hst' _] _]. subst. destruct ts; cbn [joined]; rewrite string_app_assoc; by apply starts_skip. }
    rewrite H1 by lia. by rewrite <- app_assoc.
Qed.
Lemma joined_start close ts rest : ts ≠ [] → Forall starts ts → skip_ws (joined close ts +:+ rest) = joined close ts +:+ rest.
Proof.
  intros Hne Hts. destruct ts as [|t [|t' ts]]; [done|..]; apply Forall_cons in Hts as [Ht _];
    cbn [joined]; rewrite string_app_assoc; by apply starts_skip.
Qed.

(** A member of an object, up to what follows its value *)
Lemma reads_member k v t o : reads v t → ∃ n0, ∀ n s, n0 ≤ n → stops s →
  parse_members py_float (S n) o (member_text (k, t) +:+ s) =
    match next_is "," (skip_ws s), next_is "}" (skip_ws s) with
    | Some r3, _ => parse_members py_float n (dict_set k (canonical v) o) (skip_ws r3)
    | None, Some r3 => Some (JObj (dict_set k (canonical v) o), r3)
    | None, None => None
    end.
Proof.
  intros [Hst [n0 Ht]]. exists n0. intros n s Hn Hs. unfold member_text, quoted. cbn [fst snd].
  rewrite string_app_cons, string_app_cons. cbn [parse_members next_is]. rewrite Ascii.eqb_refl.
  cbn [mbind option_bind]. rewrite !string_app_assoc, string_app_cons, scan_quoted. cbn [mbind option_bind].
  change ("" +:+ ?x) with x. rewrite string_app_cons, skip_punctuation by auto. cbn [next_is]. rewrite Ascii.eqb_refl.
  cbn [mbind option_bind]. change ("" +:+ ?x) with x. rewrite starts_skip by done. by rewrite Ht.
Qed.

Lemma reads_members kvs kts o :
  Forall2 (λ kv kt, kv.1 = kt.1 ∧ reads kv.2 kt.2) kvs kts → kts ≠ [] → ∃ n0, ∀ n rest, n0 ≤ n →
  parse_members py_float n o (joined "}" (map member_text kts) +:+ rest) =
    Some (JObj (dict_merge o (map (λ kv, (kv.1, canonical kv.2)) kvs)), rest).
Proof.
  intros Hkvs. revert o. induction Hkvs as [|[k v] [k' t] kvs kts [Hk Hv] Hkvs IH]; intros o Hne; [done|].
  cbn [fst snd] in Hk, Hv. subst k'.
  destruct (reads_member k v t o Hv) as [n0 H0]. destruct kts as [|kt kts].
  - apply Forall2_nil_inv_r in Hkvs as ->. exists (S n0). intros [|n] rest Hn; [lia|].
    cbn [map joined]. rewrite string_app_assoc, H0; [|lia|right; right; by left]. done.
  - destruct (IH (dict_set k (canonical v) o) ltac:(done)) as [n1 H1].
    exists (S (n0 + n1)). intros [|n] rest Hn; [lia|].
    change (joined "}" (map member_text ((k, t) :: kt :: kts))) with
      (member_text (k, t) +:+ "," +:+ joined "}" (map member_text (kt :: kts))).
    rewrite !string_app_assoc, H0; [|lia|by left]. rewrite string_app_cons, skip_punctuation by auto.
    cbn [next_is]. rewrite Ascii.eqb_refl. change ("" +:+ ?x) with x.
    rewrite joined_start, H1; [done|lia|done|].
    apply Forall_map, Forall_forall. intros [k' t'] _. eexists _, _. split; [done|]. by split_and!.
Qed.

Lemma json_ok_list l : json_ok py_float (JList l) ↔ Forall (json_ok py_float) l.
Proof. induction l as [|v l IH]; [done|]. rewrite Forall_cons, <- IH. done. Qed.
Lemma json_ok_obj o : json_ok py_float (JObj o) ↔ NoDup o.*1 ∧ Forall (λ kv, json_ok py_float kv.2) o.
Proof.
  change (json_ok py_float (JObj o)) with (NoDup o.*1 ∧
    (fix all o := match o with [] => True | kv :: o' => json_ok py_float kv.2 ∧ all o' end) o).
  f_equiv. induction o as [|kv o IH]; [done|]. by rewrite Forall_cons, <- IH.
Qed.

Lemma reads_list l : Forall2 reads l (map json_dumps l) → reads (JList l) (json_dumps (JList l)).
Proof.
  intros Hl. split; [eexists _, _; split; [done|]; by split_and!|].
  destruct l as [|v l].
  + exists 1. intros [|n] rest Hn _; [lia|done].
  + destruct (reads_elements _ _ [] Hl ltac:(done)) as [n0 H0]. exists (S n0). intros [|n] rest Hn _; [lia|].
    change (json_dumps (JList (v :: l))) with (String "[" (joined "]" (map json_dumps (v :: l)))).
    rewrite string_app_cons. cbn [parse_value]. change (Ascii.eqb "[" quote_char) with false. rewrite Ascii.eqb_refl.
    assert (Forall starts (map json_dumps (v :: l))) as Hst.
    { clear -Hl. induction Hl as [|? ? ? ? []]; by constructor. }
    rewrite joined_start by done.
    assert (next_is "]" (joined "]" (map json_dumps (v :: l)) +:+ rest) = None) as ->.
    { apply Forall_cons in Hst as [Hv _]. destruct l; cbn [map joined]; rewrite string_app_assoc; apply starts_next; auto. }
    apply H0. lia.
Qed.

Lemma reads_obj o : NoDup o.*1 → Forall (λ kv, reads kv.2 (json_dumps kv.2)) o → reads (JObj o) (json_dumps (JObj o)).
Proof.
  intros Hnd Hall. split; [eexists _, _; split; [done|]; by split_and!|].
  change (json_dumps (JObj o)) with
    ("{" +:+ joined "}" (map member_text (sort_keys (map (λ kv, (kv.1, json_dumps kv.2)) o)))).
  cbn [canonical]. rewrite !sort_keys_map.
  assert (Forall2 (λ kv kt, kv.1 = kt.1 ∧ reads kv.2 kt.2) (sort_keys o) (map (λ kv, (kv.1, json_dumps kv.2)) (sort_keys o))) as Ho.
  { rewrite <- sort_keys_perm in Hall. clear -Hall. induction Hall; by constructor. }
  assert (NoDup (map (λ kv, (kv.1, canonical kv.2)) (sort_keys o)).*1) as Hkeys.
  { change (map ?f (sort_keys o)) with (f <$> sort_keys o). rewrite <- list_fmap_compose.
    change (NoDup ((sort_keys o).*1)). by rewrite sort_keys_perm. }
  destruct (sort_keys o) as [|kv o'] eqn:Hs.
  + exists 1. intros [|n] rest Hn _; [lia|done].
  + destruct (reads_members _ _ [] Ho ltac:(done)) as [n0 H0]. rewrite dict_merge_fresh in H0 by done.
    exists (S n0). intros [|n] rest Hn _; [lia|]. rewrite string_app_assoc, string_app_cons. cbn [parse_value].
    change (Ascii.eqb "{" quote_char) with false. change (Ascii.eqb "{" "[") with false. rewrite Ascii.eqb_refl.
    change ("" +:+ ?x) with x. rewrite joined_start; [|done|].
    2:{ apply Forall_map, Forall_forall. intros [k' t'] _. eexists _, _. split; [done|]. by split_and!. }
    assert (next_is "}" (joined "}" (map member_text (map (λ kv, (kv.1, json_dumps kv.2)) (kv :: o'))) +:+ rest) = None) as ->.
    { by destruct o'. }
    apply H0. lia.
Qed.

Lemma reads_dumps v : json_ok py_float v → reads v (json_dumps v).
Proof.
  induction v as [|b|z|r|s|l IH|o IH] using json_nested_ind; intros Hok.
  - by apply reads_scalar.
  - destruct b; by apply reads_scalar.
  - apply reads_scalar; [done|]. apply scan_scalar_number, int_text_scan.
  - by apply reads_scalar.
  - apply reads_string.
  - apply json_ok_list in Hok. apply reads_list. induction IH as [|v l Hv _ IH]; [constructor|].
    apply Forall_cons in Hok as [? ?]. constructor; auto.
  - apply json_ok_obj in Hok as [Hnd Hok]. apply reads_obj; [done|]. rewrite Forall_forall in *. auto.
Qed.

(** The round trip: a value is read back with its keys in order. *)
Lemma json_loads_dumps v : json_ok py_float v → json_loads py_float (json_dumps v) = Some (canonical v).
Proof.
  intros [Hst [n0 H0]]%reads_dumps. rewrite <- (json_loads_fuel py_float (n0 + 2 * len (json_dumps v))) by lia.
  unfold loads_with. assert (skip_ws (json_dumps v) = json_dumps v) as ->.
  { rewrite <- (string_app_nil (json_dumps v)). by apply starts_skip. }
  specialize (H0 (n0 + 2 * len (json_dumps v)) "" ltac:(lia) I). rewrite string_app_nil in H0. by rewrite H0.
Qed.
End reading.

(** ** The canonical text *)

Lemma member_keys_map {A B} (f : A → B) (o : list (string * A)) : (map (λ kv, (kv.1, f kv.2)) o).*1 = o.*1.
Proof. induction o as [|kv o IH]; [done|]. cbn [map]. rewrite !fmap_cons. by rewrite IH. Qed.

Lemma member_le_total {A} (a b : string * A) : key_le a b = false → key_le b a = true.
Proof. apply str_leb_total. Qed.
Lemma member_le_trans {A} (a b c : string * A) : key_le a b = true → key_le b c = true → key_le a c = true.
Proof. apply str_leb_trans. Qed.
Lemma sort_keys_sorted {A} (o : list (string * A)) : StronglySorted (λ a b, key_le a b = true) (sort_keys o).
Proof. apply sort_by_strongly_sorted; [apply member_le_total|apply member_le_trans]. Qed.

Lemma sorted_sort_keys {A} (o : list (string * A)) : StronglySorted (λ a b, key_le a b = true) o → sort_keys o = o.
Proof.
  induction 1 as [|x o Ho IH Hx]; [done|]. unfold sort_keys in *. cbn [sort_by]. rewrite IH.
  destruct o as [|y o]; [done|]. apply Forall_cons in Hx as [Hx _]. cbn [insert_by]. by rewrite Hx.
Qed.
Lemma sort_keys_idemp {A} (o : list (string * A)) : sort_keys (sort_keys o) = sort_keys o.
Proof. apply sorted_sort_keys, sort_keys_sorted. Qed.

(** With distinct keys, the sorted members do not depend on their order. *)
Lemma sort_keys_unique {A} (o o' : list (string * A)) : NoDup o.*1 → o ≡ₚ o' → sort_keys o = sort_keys o'.
Proof.
  intros Hnd Ho.
  assert (sort_keys o ≡ₚ sort_keys o') as Hp by by rewrite !sort_keys_perm.
  assert (NoDup (sort_keys o).*1) as Hn by by rewrite sort_keys_perm.
  pose proof (sort_keys_sorted o) as H1. pose proof (sort_keys_sorted o') as H2. revert Hp Hn H1 H2.
  generalize (sort_keys o) (sort_keys o'). clear. intros l. induction l as [|x l IH]; intros l' Hp Hn H1 H2.
  - by apply Permutation_nil_l in Hp.
  - destruct l' as [|y l']; [by apply Permutation_nil_r in Hp|].
    apply StronglySorted_inv in H1 as [H1 Hx], H2 as [H2 Hy]. rewrite fmap_cons, NoDup_cons in Hn. destruct Hn as [Hxn Hn].
    assert (x = y) as <-.
    { assert (x ∈ y :: l') as Hxy by (rewrite <- Hp; by left). apply elem_of_cons in Hxy as [->|Hxy]; [done|].
      assert (y ∈ x :: l) as Hyx by (rewrite Hp; by left). apply elem_of_cons in Hyx as [->|Hyx]; [done|].
      rewrite Forall_forall in Hx, Hy. destruct Hxn. replace x.1 with y.1; [by apply list_elem_of_fmap_2|].
      apply str_leb_antisym; [by apply Hy|by apply Hx]. }
    f_equal. apply IH; [by eapply Permutation_cons_inv|done..].
Qed.

Lemma dumps_canonical v : json_dumps (canonical v) = json_dumps v.
Proof.
  induction v as [| | | | |l IH|o IH] using json_nested_ind; try done; cbn [canonical json_dumps].
  - do 2 f_equal. rewrite map_map. induction IH as [|v l Hv _ IH]; [done|]. cbn [map]. by rewrite Hv, IH.
  - do 3 f_equal. rewrite !sort_keys_map, map_map, sort_keys_idemp. cbn [fst snd].
    rewrite <- (sort_keys_perm o) in IH. induction IH as [|kv o' Hv _ IH]; [done|]. cbn [map]. by rewrite Hv, IH.
Qed.

(** Two values with the same canonical text are equal up to the order of keys. *)
Lemma dumps_inj py_float v w : json_ok py_float v → json_ok py_float w →
  json_dumps v = json_dumps w → canonical v = canonical w.
Proof.
  intros Hv%json_loads_dumps Hw%json_loads_dumps Heq. rewrite Heq in Hv. congruence.
Qed.

Lemma dict_del_filter {V} k (d : list (string * V)) : NoDup d.*1 →
  dict_del k d = List.filter (λ kv, negb (String.eqb k kv.1)) d.
Proof.
  induction d as [|[k' v] d IH]; [done|]. rewrite fmap_cons, NoDup_cons. intros [Hk Hd]. cbn [dict_del List.filter fst].
  destruct (String.eqb_spec k k') as [->|Hne]; cbn [negb].
  - rewrite decide_True by done. symmetry. apply filter_all. intros [k1 v1] Hin. cbn.
    destruct (String.eqb_spec k' k1) as [->|]; [|done]. destruct Hk. by apply (list_elem_of_fmap_2 fst _ _ Hin).
  - rewrite decide_False by done. by rewrite IH.
Qed.

(** Deleting a member commutes with sorting and with a change of the values. *)
Lemma sort_keys_del {V} k (o : list (string * V)) : NoDup o.*1 →
  sort_keys (dict_del k (sort_keys o)) = sort_keys (dict_del k o).
Proof.
  intros Hnd. rewrite !dict_del_filter; [|done|by rewrite sort_keys_perm].
  unfold sort_keys at 2. rewrite filter_sort_by by (apply member_le_total || apply member_le_trans).
  apply sort_keys_idemp.
Qed.
Lemma dict_del_map {A B} (f : A → B) k (o : list (string * A)) :
  map (λ kv, (kv.1, f kv.2)) (dict_del k o) = dict_del k (map (λ kv, (kv.1, f kv.2)) o).
Proof. induction o as [|[k' v] o IH]; [done|]. cbn. case_decide; [done|]. cbn. by rewrite IH. Qed.
Lemma dict_get_map {A B} (f : A → B) k (o : list (string * A)) :
  dict_get k (map (λ kv, (kv.1, f kv.2)) o) = f <$> dict_get k o.
Proof. induction o as [|[k' v] o IH]; [done|]. cbn. by case_decide. Qed.
Lemma dict_get_perm {V} k (o o' : list (string * V)) : NoDup o.*1 → o ≡ₚ o' → dict_get k o = dict_get k o'.
Proof.
  intros Hnd Ho. assert (NoDup o'.*1) as Hnd' by by rewrite <- Ho.
  destruct (dict_get k o) as [v|] eqn:Hv.
  - symmetry. apply dict_get_NoDup; [done|]. rewrite <- Ho. by apply dict_get_elem_of.
  - symmetry. apply dict_get_None. rewrite <- Ho. by apply dict_get_None.
Qed.

(** The members of an object in canonical form *)
Definition canonical_members (o : list (string * json)) : list (string * json) :=
  sort_keys (map (λ kv, (kv.1, canonical kv.2)) o).

Lemma dict_get_canonical k o : NoDup o.*1 → dict_get k (canonical_members o) = canonical <$> dict_get k o.
Proof.
  intros Hnd. unfold canonical_members. rewrite <- dict_get_map. apply dict_get_perm; [|apply sort_keys_perm].
  by rewrite sort_keys_perm, member_keys_map.
Qed.

(** The text of an object without one of its members depends on its canonical
    form only. *)
Lemma dumps_del_canonical k o : NoDup o.*1 →
  json_dumps (JObj (dict_del k (canonical_members o))) = json_dumps (JObj (dict_del k o)).
Proof.
  intros Hnd. cbn [json_dumps]. unfold canonical_members. rewrite !dict_del_map, <- sort_keys_map, map_map.
  assert (map (λ kv, ((kv.1, canonical kv.2).1, json_dumps (kv.1, canonical kv.2).2)) o =
    map (λ kv, (kv.1, json_dumps kv.2)) o) as -> by (apply map_ext; intros kv; cbn; by rewrite dumps_canonical).
  by rewrite sort_keys_del by by rewrite member_keys_map.
Qed.
