(* ===== verification/JsonIndent.v ===== *)
(** * JSON with white space

    [json.dumps(v, sort_keys=True)] as it writes by default, with a space after each
    comma and colon, and with [indent=2], every item on a line of its own; both are
    read back by [json_loads]. *)

From S2P Require Import Prelude Json.

(** The items of a collection, with what follows each comma, and the bracket that
    closes it *)
Fixpoint lines (line close : string) (ts : list string) : string :=
  match ts with
  | [] => close
  | [t] => t +:+ close
  | t :: ts' => t +:+ "," +:+ line +:+ lines line close ts'
  end.
Definition entry_text (kt : string * string) : string := quoted kt.1 +:+ ": " +:+ kt.2.

(** The white space inside the brackets and after the commas of a level *)
Record layout := mk_layout { edge : nat → string; gap : nat → string }.

Fixpoint json_dumps_layout (w : layout) (level : nat) (v : json) : string :=
  match v with
  | JList [] => "[]"
  | JList l => "[" +:+ edge w (S level) +:+ lines (gap w (S level)) (edge w level +:+ "]") (map (json_dumps_layout w (S level)) l)
  | JObj [] => "{}"
  | JObj o =>
      "{" +:+ edge w (S level) +:+
      lines (gap w (S level)) (edge w level +:+ "}")
        (map entry_text (sort_keys (map (λ kv, (kv.1, json_dumps_layout w (S level) kv.2)) o)))
  | _ => json_dumps v
  end.

(** [indent=2]: a line feed and the indentation of the level *)
Fixpoint blanks (n : nat) : string := match n with O => "" | S n => String " " (blanks n) end.
Definition new_line (level : nat) : string := String "010" (blanks (2 * level)).
Definition indented : layout := mk_layout new_line new_line.
Definition json_dumps_indent : nat → json → string := json_dumps_layout indented.

(** The default: one line, a space after each comma *)
Definition spaced : layout := mk_layout (λ _, "") (λ _, " ").
Definition json_dumps_default (v : json) : string := json_dumps_layout spaced 0 v.

(** ** White space *)

Class LayoutLaws (w : layout) := {
  edge_skip level s : skip_ws (edge w level +:+ s) = skip_ws s;
  gap_skip level s : skip_ws (gap w level +:+ s) = skip_ws s;
  edge_stops level c s : c = "]"%char ∨ c = "}"%char → stops (edge w level +:+ String c s);
}.

Lemma skip_blanks n s : skip_ws (blanks n +:+ s) = skip_ws s.
Proof. induction n as [|n IH]; [done|]. cbn [blanks]. by rewrite string_app_cons. Qed.
Lemma skip_new_line level s : skip_ws (new_line level +:+ s) = skip_ws s.
Proof. unfold new_line. rewrite string_app_cons. apply skip_blanks. Qed.

#[export] Instance indented_laws : LayoutLaws indented.
Proof. split; [apply skip_new_line..|]. intros level c s _. right. right. by right. Qed.
#[export] Instance spaced_laws : LayoutLaws spaced.
Proof. split; [done..|]. intros level c s [-> | ->]; [by right; left|by right; right; left]. Qed.

(** ** Reading what was written *)

Section reading.
Context (py_float : string → string) (w : layout) `{!LayoutLaws w}.

(** The text of an item is followed by a comma and a gap, or by an edge and a bracket. *)
Definition close_of (level : nat) (c : ascii) : string := edge w level +:+ String c "".

Lemma next_close level c d rest : c = "]"%char ∨ c = "}"%char →
  next_is d (skip_ws (close_of level c +:+ rest)) = if Ascii.eqb c d then Some rest else None.
Proof.
  intros Hc. unfold close_of. rewrite string_app_assoc, edge_skip, string_app_cons.
  by rewrite skip_punctuation by naive_solver.
Qed.
Lemma next_comma s : next_is "," (skip_ws ("," +:+ s)) = Some s.
Proof. done. Qed.

Lemma skip_lines line ts close rest : ts ≠ [] → Forall starts ts →
  skip_ws (lines line close ts +:+ rest) = lines line close ts +:+ rest.
Proof.
  intros Hne Hts. destruct ts as [|t [|t' ts]]; [done|..]; apply Forall_cons in Hts as [Ht _];
    cbn [lines]; rewrite string_app_assoc; by apply starts_skip.
Qed.

Lemma lines_cons line close t t' ts : lines line close (t :: t' :: ts) = t +:+ "," +:+ line +:+ lines line close (t' :: ts).
Proof. done. Qed.

Lemma reads_lines level low vs ts acc : Forall2 (reads py_float) vs ts → ts ≠ [] → ∃ n0, ∀ n rest, n0 ≤ n →
  parse_elements py_float n acc (lines (gap w level) (close_of low "]") ts +:+ rest) =
    Some (JList (acc ++ map canonical vs), rest).
Proof.
  intros Hvs. revert acc. induction Hvs as [|v t vs ts [Hst [n0 Ht]] Hvs IH]; intros acc Hne; [done|]. destruct ts as [|t' ts].
  - apply Forall2_nil_inv_r in Hvs as ->. exists (S n0). intros [|n] rest Hn; [lia|]. cbn [lines parse_elements map].
    rewrite string_app_assoc, Ht; [|lia|unfold close_of; rewrite string_app_assoc; apply edge_stops; auto].
    cbn [mbind option_bind]. by rewrite !next_close by auto.
  - destruct (IH (acc ++ [canonical v]) ltac:(done)) as [n1 H1].
    exists (S (n0 + n1)). intros [|n] rest Hn; [lia|]. rewrite lines_cons. cbn [parse_elements].
    rewrite !string_app_assoc, Ht by (lia || by left). cbn [mbind option_bind]. rewrite next_comma.
    rewrite gap_skip, skip_lines, H1; [by rewrite <-app_assoc|lia|done|].
    clear -Hvs. induction Hvs as [|? ? ? ? []]; by constructor.
Qed.

(** An entry of an object, up to what follows its value *)
Lemma reads_entry k v t o : reads py_float v t → ∃ n0, ∀ n s, n0 ≤ n → stops s →
  parse_members py_float (S n) o (entry_text (k, t) +:+ s) =
    match next_is "," (skip_ws s), next_is "}" (skip_ws s) with
    | Some r3, _ => parse_members py_float n (dict_set k (canonical v) o) (skip_ws r3)
    | None, Some r3 => Some (JObj (dict_set k (canonical v) o), r3)
    | None, None => None
    end.
Proof.
  intros [Hst [n0 Ht]]. exists n0. intros n s Hn Hs. unfold entry_text, quoted. cbn [fst snd].
  rewrite string_app_cons, string_app_cons. cbn [parse_members next_is]. rewrite Ascii.eqb_refl.
  cbn [mbind option_bind]. rewrite !string_app_assoc, string_app_cons, scan_quoted. cbn [mbind option_bind].
  change ("" +:+ ?x) with x. rewrite string_app_cons, skip_punctuation by auto. cbn [next_is]. rewrite Ascii.eqb_refl.
  cbn [mbind option_bind]. rewrite string_app_cons. change (skip_ws (String " " ?x)) with (skip_ws x).
  change ("" +:+ ?x) with x. rewrite starts_skip by done. by rewrite Ht.
Qed.

Lemma entry_starts kts : Forall starts (map entry_text kts).
Proof. apply Forall_map, Forall_forall. intros [k t] _. eexists _, _. split; [done|]. by split_and!. Qed.

Lemma reads_entries level low kvs kts o :
  Forall2 (λ kv kt, kv.1 = kt.1 ∧ reads py_float kv.2 kt.2) kvs kts → kts ≠ [] → ∃ n0, ∀ n rest, n0 ≤ n →
  parse_members py_float n o (lines (gap w level) (close_of low "}") (map entry_text kts) +:+ rest) =
    Some (JObj (dict_merge o (map (λ kv, (kv.1, canonical kv.2)) kvs)), rest).
Proof.
  intros Hkvs. revert o. induction Hkvs as [|[k v] [k' t] kvs kts [Hk Hv] Hkvs IH]; intros o Hne; [done|].
  cbn [fst snd] in Hk, Hv. subst k'. destruct (reads_entry k v t o Hv) as [n0 H0]. destruct kts as [|kt kts].
  - apply Forall2_nil_inv_r in Hkvs as ->. exists (S n0). intros [|n] rest Hn; [lia|]. cbn [map lines].
    rewrite string_app_assoc, H0; [|lia|unfold close_of; rewrite string_app_assoc; apply edge_stops; auto].
    by rewrite !next_close by auto.
  - destruct (IH (dict_set k (canonical v) o) ltac:(done)) as [n1 H1].
    exists (S (n0 + n1)). intros [|n] rest Hn; [lia|]. cbn [map]. rewrite lines_cons.
    rewrite !string_app_assoc, H0; [|lia|by left]. rewrite next_comma.
    change (entry_text kt :: map entry_text kts) with (map entry_text (kt :: kts)).
    rewrite gap_skip, skip_lines, H1; [done|lia|done|apply entry_starts].
Qed.

Lemma next_line_none level close c t ts rest : starts t → c = "]"%char ∨ c = "}"%char →
  next_is c (lines (gap w level) close (t :: ts) +:+ rest) = None.
Proof. intros Ht Hc. destruct ts; cbn [lines]; rewrite string_app_assoc; by apply starts_next. Qed.

Lemma reads_list_layout level l : Forall2 (reads py_float) l (map (json_dumps_layout w (S level)) l) →
  reads py_float (JList l) (json_dumps_layout w level (JList l)).
Proof.
  intros Hl. destruct l as [|v l].
  { split; [eexists _, _; split; [done|]; by split_and!|]. exists 1. intros [|n] rest Hn _; [lia|done]. }
  split; [eexists _, _; split; [done|]; by split_and!|].
  destruct (reads_lines (S level) level _ _ [] Hl ltac:(done)) as [n0 H0]. exists (S n0). intros [|n] rest Hn _; [lia|].
  change (json_dumps_layout w level (JList (v :: l))) with (String "[" (edge w (S level) +:+
    lines (gap w (S level)) (close_of level "]") (map (json_dumps_layout w (S level)) (v :: l)))).
  rewrite string_app_cons. cbn [parse_value]. change (Ascii.eqb "[" quote_char) with false. rewrite Ascii.eqb_refl.
  assert (Forall starts (map (json_dumps_layout w (S level)) (v :: l))) as Hst.
  { clear -Hl. induction Hl as [|? ? ? ? []]; by constructor. }
  rewrite string_app_assoc, edge_skip, skip_lines by done. cbn [map] in *. rewrite next_line_none; [|by apply Forall_cons in Hst as []|by left].
  apply H0. lia.
Qed.

Lemma reads_obj_layout level o : NoDup o.*1 → Forall (λ kv, reads py_float kv.2 (json_dumps_layout w (S level) kv.2)) o →
  reads py_float (JObj o) (json_dumps_layout w level (JObj o)).
Proof.
  intros Hnd Hall. destruct o as [|kv0 o0] eqn:Ho0.
  { split; [eexists _, _; split; [done|]; by split_and!|]. exists 1. intros [|n] rest Hn _; [lia|done]. }
  change (json_dumps_layout w level (JObj (kv0 :: o0))) with (String "{" (edge w (S level) +:+
    lines (gap w (S level)) (close_of level "}")
      (map entry_text (sort_keys (map (λ kv, (kv.1, json_dumps_layout w (S level) kv.2)) (kv0 :: o0)))))).
  rewrite <-Ho0 in *. cbn [canonical]. rewrite !sort_keys_map.
  assert (Forall2 (λ kv kt, kv.1 = kt.1 ∧ reads py_float kv.2 kt.2) (sort_keys o)
    (map (λ kv, (kv.1, json_dumps_layout w (S level) kv.2)) (sort_keys o))) as Ho.
  { rewrite <- sort_keys_perm in Hall. clear -Hall. induction Hall; by constructor. }
  assert (NoDup (map (λ kv, (kv.1, canonical kv.2)) (sort_keys o)).*1) as Hkeys.
  { change (map ?f (sort_keys o)) with (f <$> sort_keys o). rewrite <- list_fmap_compose.
    change (NoDup ((sort_keys o).*1)). by rewrite sort_keys_perm. }
  assert (sort_keys o ≠ []) as Hne.
  { intros He. pose proof (sort_keys_perm o) as Hp. rewrite He, Ho0 in Hp. by apply Permutation_nil_l in Hp. }
  split; [eexists _, _; split; [done|]; by split_and!|].
  destruct (sort_keys o) as [|kv o'] eqn:Hs; [done|].
  destruct (reads_entries (S level) level _ _ [] Ho ltac:(done)) as [n0 H0]. rewrite dict_merge_fresh in H0 by done.
  exists (S n0). intros [|n] rest Hn _; [lia|]. cbn [canonical]. rewrite sort_keys_map, Hs. rewrite string_app_cons. cbn [parse_value].
  change (Ascii.eqb "{" quote_char) with false. change (Ascii.eqb "{" "[") with false. rewrite Ascii.eqb_refl.
  rewrite string_app_assoc, edge_skip, skip_lines by (done || apply entry_starts). cbn [map] in *.
  rewrite next_line_none; [|eexists _, _; split; [done|]; by split_and!|by right]. apply H0. lia.
Qed.

Lemma reads_dumps_layout v level : json_ok py_float v → reads py_float v (json_dumps_layout w level v).
Proof.
  revert level. induction v as [|b|z|r|s|l IH|o IH] using json_nested_ind; intros level Hok; try by apply reads_dumps.
  - apply json_ok_list in Hok. apply reads_list_layout. induction IH as [|v l Hv _ IH]; [constructor|].
    apply Forall_cons in Hok as [? ?]. constructor; auto.
  - apply json_ok_obj in Hok as [Hnd Hok]. apply reads_obj_layout; [done|]. rewrite Forall_forall in *. auto.
Qed.

(** What is written is read back. *)
Lemma json_loads_layout v : json_ok py_float v → json_loads py_float (json_dumps_layout w 0 v) = Some (canonical v).
Proof.
  intros [Hst [n0 H0]]%(reads_dumps_layout _ 0).
  rewrite <- (json_loads_fuel py_float (n0 + 2 * String.length (json_dumps_layout w 0 v))) by lia.
  unfold loads_with. assert (skip_ws (json_dumps_layout w 0 v) = json_dumps_layout w 0 v) as ->.
  { rewrite <- (string_app_nil (json_dumps_layout w 0 v)). by apply starts_skip. }
  specialize (H0 (n0 + 2 * String.length (json_dumps_layout w 0 v)) "" ltac:(lia) I). rewrite string_app_nil in H0. by rewrite H0.
Qed.
End reading.

Lemma json_loads_indent py_float v : json_ok py_float v →
  json_loads py_float (json_dumps_indent 0 v) = Some (canonical v).
Proof. apply (json_loads_layout py_float indented). Qed.
Lemma json_loads_default py_float v : json_ok py_float v →
  json_loads py_float (json_dumps_default v) = Some (canonical v).
Proof. apply (json_loads_layout py_float spaced). Qed.
