(* ===== verification/Pod.v ===== *)
(** * Pods: [core/spakky/src/spakky/core/pod/]

    The annotation that declares a Pod ([annotations/pod.py]): what it reads
    from a constructor or factory signature, and how a Pod is instantiated from
    resolved dependencies. Bindings ([binding.py]) and the diagnostics carried
    by resolution errors ([diagnostics.py], [interfaces/container.py]). *)

From S2P Require Import Prelude.

(** ** Names *)

Definition is_upper (c : ascii) : bool :=
  let n := N_of_ascii c in ((65 <=? n) && (n <=? 90))%N.
Definition to_lower (c : ascii) : ascii :=
  if is_upper c then ascii_of_N (N_of_ascii c + 32) else c.

(** [PATTERN.sub("_", s).lower()]: an underscore before each capital that is
    not the first character. *)
Fixpoint snake_chars (first : bool) (l : list ascii) : list ascii :=
  match l with
  | [] => []
  | c :: l' =>
      (if is_upper c && negb first then ["_"%char; to_lower c] else [to_lower c])
        ++ snake_chars false l'
  end.
Definition pascal_to_snake (s : string) : string :=
  String.string_of_list_ascii (snake_chars true (String.list_ascii_of_string s)).

(** ** Annotations of parameters

    A class or generic alias is identified by a string; the selector of a
    qualifier is user code, so a qualifier is an identifier here and
    [Container] interprets it. *)

Abbreviation type := string.
Definition qualifier := nat.

Inductive metadata := MQualifier (q : qualifier) | MOther.
Inductive type_origin := OList | OTuple | ODict | OSet | OFrozenset | OOther.

Inductive py_type :=
  | TClass (id : type) (builtin : bool)
  | TStr (s : string)
  | TForwardRef (s : string)
  | TNoneType
  | TUnion (id : type) (args : list py_type)
  | TSubscript (origin : type_origin) (id : type) (args : list py_type)
  | TBare (origin : type_origin) (id : type)
  | TAnnotated (t : py_type) (metadatas : list metadata)
  | TResolvedAnnotated (t : py_type) (metadatas : list metadata)
  | TEllipsis
  | TValue.

(** What a dependency is looked up by: a type or the name of one. *)
Inductive type_ref := RType (t : type) | RForward (s : string).

Definition type_id (t : py_type) : type :=
  match t with
  | TClass id _ | TUnion id _ | TSubscript _ id _ | TBare _ id => id
  | TNoneType => "NoneType"
  | _ => "object"
  end.
Definition ref_of (t : py_type) : type_ref :=
  match t with TStr s => RForward s | _ => RType (type_id t) end.

Definition is_none_type (t : py_type) : bool := match t with TNoneType => true | _ => false end.

Definition is_optional (t : py_type) : bool :=
  match t with TUnion _ args => existsb is_none_type args | _ => false end.

(** [reduce(or_, args)] makes a smaller union, named by [union_id]. *)
Definition union_id (args : list py_type) : type := String.concat " | " (type_id <$> args).
Definition remove_none (t : py_type) : py_type :=
  match t with
  | TUnion _ args =>
      match List.filter (λ a, negb (is_none_type a)) args with
      | [] => TNoneType
      | [a] => a
      | rest => TUnion (union_id rest) rest
      end
  | _ => t
  end.

Definition isclass (t : py_type) : bool :=
  match t with TClass _ _ | TNoneType | TBare _ _ => true | _ => false end.
Definition in_builtins (t : py_type) : bool :=
  match t with
  | TClass _ b => b | TNoneType => true | TBare OOther _ => false | TBare _ _ => true
  | _ => false
  end.
Definition has_origin (t : py_type) : bool :=
  match t with TUnion _ _ | TSubscript _ _ _ | TAnnotated _ _ => true | _ => false end.

(** ** Errors *)

Record PodCandidateDiagnostic := mk_candidate {
  cand_pod_name : string; cand_pod_type_name : string; cand_is_primary : bool }.

Record PodDependencyPathNode := mk_node {
  node_pod_name : string;
  node_pod_type_name : string;
  node_parameter : option string;
  node_requested_type : option string;
}.

Record PodDependencyResolutionDiagnostic := mk_diagnostic {
  failed_pod_name : string;
  failed_pod_type_name : string;
  dependency_parameter_name : option string;
  requested_type_name : option string;
  path : list PodDependencyPathNode;
  candidates : list PodCandidateDiagnostic;
  resolution_hints : list string;
}.

Record PodBinding := mk_binding {
  interface : type;
  implementation_type : option type;
  implementation_name : option string;
}.

Inductive pod_error :=
  | CannotDeterminePodTypeError
  | CannotUseVarArgsInPodError
  | CannotUsePositionalOnlyArgsInPodError
  | CannotUseOptionalReturnTypeInPodError
  | UnsupportedCollectionDependencyTypeError
  | UnexpectedDependencyNameInjectedError
  | UnexpectedDependencyTypeInjectedError (d : option PodDependencyResolutionDiagnostic)
  | CircularDependencyGraphDetectedError (chain : list type)
      (d : option PodDependencyResolutionDiagnostic)
  | NoSuchPodError (t : type) (n : option string)
  | NoUniquePodError (t : type) (cs : list PodCandidateDiagnostic)
      (d : option PodDependencyResolutionDiagnostic) (hints : list string)
  | InvalidPodBindingError
  | NoSuchPodBindingTargetError (b : PodBinding)
  | CannotRegisterNonPodObjectError
  | PodNameAlreadyExistsError (n : string)
  | ApplicationContextAlreadyStartedError
  | ApplicationContextAlreadyStoppedError
  | EventLoopThreadAlreadyStartedInApplicationContextError
  | EventLoopThreadNotStartedInApplicationContextError
  | CannotAssignSystemContextIDError
  | RecursionError
  | UserError (n : nat).

(** ** Signatures *)

Inductive parameter_kind :=
  | POSITIONAL_ONLY | POSITIONAL_OR_KEYWORD | VAR_POSITIONAL | KEYWORD_ONLY | VAR_KEYWORD.

Record Param := mk_parameter {
  p_name : string;
  p_kind : parameter_kind;
  p_annotation : option py_type;
  p_has_default : bool;
}.

Inductive DependencyCollectionKind := LIST | TUPLE | DICT.

Record DependencyInfo := mk_dependency {
  dep_name : string;
  dep_type : type_ref;
  has_default : bool;
  is_optional_dep : bool;
  qualifiers : list qualifier;
  collection_kind : option DependencyCollectionKind;
}.

Abbreviation DependencyMap := (list (string * DependencyInfo)).

Definition metadata_qualifiers (l : list metadata) : list qualifier :=
  omap (λ m, match m with MQualifier q => Some q | MOther => None end) l.

Definition __normalize_dependency_annotation (annotation : py_type)
    : py_type * list qualifier * bool :=
  let '(actual_type, qs) :=
    match annotation with
    | TResolvedAnnotated t ms | TAnnotated t ms => (t, metadata_qualifiers ms)
    | t => (t, [])
    end in
  let actual_type := match actual_type with TForwardRef s => TStr s | t => t end in
  if is_optional actual_type then (remove_none actual_type, qs, true)
  else (actual_type, qs, false).

Definition __is_builtin_collection_element (t : py_type) : bool := isclass t && in_builtins t.

Definition __collection_element_type (t : py_type) : outcome pod_error type_ref :=
  if isclass t then Ok (ref_of t) else Raise UnsupportedCollectionDependencyTypeError.

Definition __collection_dependency_info (name : string) (annotation : py_type)
    (has_default is_optional_dependency : bool) (qs : list qualifier)
    : outcome pod_error (option DependencyInfo) :=
  let collection (elem : py_type) (k : DependencyCollectionKind) :=
    if __is_builtin_collection_element elem then Ok None
    else
      element_type ← __collection_element_type elem;
      Ok (Some (mk_dependency name element_type has_default is_optional_dependency qs (Some k))) in
  match annotation with
  | TSubscript OList _ args =>
      match args with
      | [a] => collection a LIST
      | _ => Raise UnsupportedCollectionDependencyTypeError
      end
  | TSubscript OTuple _ args =>
      match args with
      | [a; TEllipsis] => collection a TUPLE
      | _ => Raise UnsupportedCollectionDependencyTypeError
      end
  | TSubscript ODict _ args =>
      match args with
      | [TClass "str" _; v] => collection v DICT
      | _ => Raise UnsupportedCollectionDependencyTypeError
      end
  | TSubscript OSet _ _ | TSubscript OFrozenset _ _ =>
      Raise UnsupportedCollectionDependencyTypeError
  | TBare OOther _ => Ok None
  | TBare _ _ => Raise UnsupportedCollectionDependencyTypeError
  | _ => Ok None
  end.

Definition __is_dependency_type (t : py_type) : bool :=
  isclass t || (match t with TStr _ => true | _ => false end) || has_origin t.

(** One round of the loop over the parameters. *)
Definition parameter_dependency (p : Param) : outcome pod_error DependencyInfo :=
  match p_kind p with
  | POSITIONAL_ONLY => Raise CannotUsePositionalOnlyArgsInPodError
  | VAR_POSITIONAL | VAR_KEYWORD => Raise CannotUseVarArgsInPodError
  | _ =>
      match p_annotation p with
      | None => Raise CannotDeterminePodTypeError
      | Some annotation =>
          let '(t, qs, optional) := __normalize_dependency_annotation annotation in
          collection ← __collection_dependency_info (p_name p) t (p_has_default p) optional qs;
          match collection with
          | Some d => Ok d
          | None =>
              if __is_dependency_type t
              then Ok (mk_dependency (p_name p) (ref_of t) (p_has_default p) optional qs None)
              else Raise CannotDeterminePodTypeError
          end
      end
  end.

Fixpoint parameter_dependencies (ps : list Param) : outcome pod_error DependencyMap :=
  match ps with
  | [] => Ok []
  | p :: ps' =>
      d ← parameter_dependency p;
      ds ← parameter_dependencies ps';
      Ok ((p_name p, d) :: ds)
  end.

(** A class with its constructor ([None] for [object.__init__] or a protocol's
    placeholder), or a factory function. The annotations are those of
    [inspect.signature], evaluated. *)
Inductive PodType :=
  | ClassTarget (name : string) (constructor : option (list Param))
  | FunctionTarget (name : string) (parameters : list Param) (return_annotation : option py_type).

Definition is_instance_method (ps : list Param) : bool :=
  match ps with
  | p :: _ =>
      match p_kind p with
      | POSITIONAL_ONLY | POSITIONAL_OR_KEYWORD => String.eqb (p_name p) "self"
      | _ => false
      end
  | [] => false
  end.

Definition __get_dependencies (obj : PodType) : outcome pod_error DependencyMap :=
  match obj with
  | ClassTarget _ None => Ok []
  | ClassTarget _ (Some ps) | FunctionTarget _ ps _ =>
      parameter_dependencies (if is_instance_method ps then tail ps else ps)
  end.

(** ** Pods *)

Inductive Scope := SINGLETON | PROTOTYPE | CONTEXT.

Global Instance scope_eq_dec : EqDecision Scope.
Proof. solve_decision. Defined.

(** [is_primary] and [is_lazy] are the annotations of the target. *)
Record Pod := mk_pod {
  id : nat;
  name : string;
  scope : Scope;
  type_ : type;
  base_types : list type;
  target : PodType;
  dependencies : DependencyMap;
  is_primary : bool;
  is_lazy : bool;
}.

Definition target_name (obj : PodType) : string :=
  match obj with ClassTarget n _ | FunctionTarget n _ _ => n end.

(** [generic_mro] depends on the class hierarchy, a parameter. *)
Definition _initialize (generic_mro : type → list type) (pod_id : nat) (pod_name : string)
    (pod_scope : Scope) (primary lazy : bool) (obj : PodType) : outcome pod_error Pod :=
  deps ← __get_dependencies obj;
  t ← match obj with
      | FunctionTarget _ _ None => Raise CannotDeterminePodTypeError
      | FunctionTarget _ _ (Some r) => Ok r
      | ClassTarget n _ => Ok (TClass n false)
      end;
  if is_optional t then Raise CannotUseOptionalReturnTypeInPodError
  else Ok (mk_pod pod_id
             (if decide (pod_name = "") then pascal_to_snake (target_name obj) else pod_name)
             pod_scope (type_id t) (generic_mro (type_id t)) obj deps primary lazy).

Definition is_family_with (p : Pod) (t : type) : bool :=
  bool_decide (t = type_ p) || bool_decide (t ∈ base_types p).

(** ** Objects

    [VObj] is an object known by its identity, [VProxy] the proxy the aspect
    post-processor creates around a target. *)
Inductive value :=
  | VNone
  | VObj (identity : nat)
  | VStr (s : string)
  | VList (vs : list value)
  | VTuple (vs : list value)
  | VDict (kvs : list (string * value))
  | VProxy (aspects : list value) (target : value).

Definition is_none (v : value) : bool := match v with VNone => true | _ => false end.

Section instantiate.
Context {W : Type}.
(** The call of the target with keyword arguments: user code in the world [W]. *)
Context (construct : Pod → list (string * value) → W → outcome pod_error value * W).

(** The keyword arguments: a missing dependency with a default is left out. *)
Fixpoint final_dependencies (p : Pod) (deps : list (string * value))
    : outcome pod_error (list (string * value)) :=
  match deps with
  | [] => Ok []
  | (n, v) :: deps' =>
      match dict_get n (dependencies p) with
      | None => Raise UnexpectedDependencyNameInjectedError
      | Some info =>
          if is_none v && has_default info then final_dependencies p deps'
          else if is_none v && negb (is_optional_dep info)
          then Raise (UnexpectedDependencyTypeInjectedError None)
          else
            rest ← final_dependencies p deps';
            Ok ((n, v) :: rest)
      end
  end.

Definition instantiate (p : Pod) (deps : list (string * value)) (w : W)
    : outcome pod_error value * W :=
  match final_dependencies p deps with
  | Raise e => (Raise e, w)
  | Ok args => construct p args w
  end.
End instantiate.

(** ** Diagnostics *)

Definition node_text (n : PodDependencyPathNode) : string :=
  match node_parameter n with
  | None => node_pod_type_name n
  | Some p =>
      node_pod_type_name n +:+ "." +:+ p +:+ ":"
        +:+ match node_requested_type n with Some t => t | None => "None" end
  end.
Definition candidate_text (c : PodCandidateDiagnostic) : string :=
  cand_pod_name c +:+ ":" +:+ cand_pod_type_name c +:+ ":primary="
    +:+ (if cand_is_primary c then "True" else "False").

Definition as_detail_pairs (d : PodDependencyResolutionDiagnostic) : list (string * string) :=
  let path_value := String.concat " -> " (node_text <$> path d) in
  let details :=
    [("failed_pod", failed_pod_name d); ("failed_pod_type", failed_pod_type_name d);
     ("dependency_path", path_value)] in
  let dependency_details :=
    match dependency_parameter_name d with
    | None => details
    | Some p => details ++ [("dependency_parameter", p);
                            ("requested_type", default "" (requested_type_name d))]
    end in
  match candidates d with
  | [] => dependency_details
  | _ => dependency_details ++
           [("candidates", String.concat ", " (candidate_text <$> candidates d));
            ("resolution_hints", String.concat "; " (resolution_hints d))]
  end.
