(* ===== verification/Container.v ===== *)
(** * The container: [core/spakky/src/spakky/core/application/application_context.py]

    [ApplicationContext]: registration, candidate resolution, dependency
    injection with cycle detection, the scopes, post-processing, and the
    start/rollback/stop lifecycle. The post-processors of
    [pod/post_processors/aware_post_processor.py], [aop/post_processor.py] and
    [service/post_processor.py] are modelled here because they call back into
    the container. Wall-clock times and the locks (one thread runs the model)
    are left out. *)

From S2P Require Import Prelude Pod.

(** ** User code

    What the container calls but does not define: constructors and factories,
    user post-processors, services, the pointcuts of aspects, and the class
    hierarchy seen through [isinstance]. *)

Inductive framework_interface :=
  | IContainerAware | ITagRegistryAware | IApplicationContextAware
  | IService | IAsyncService.

Global Instance framework_interface_eq_dec : EqDecision framework_interface.
Proof. solve_decision. Defined.

Inductive service_operation := ServiceStart | ServiceStop | ServiceStartAsync | ServiceStopAsync.

(** [aspect_selects p v]: the target of [p] is an [Aspect] or [AsyncAspect] and
    its pointcuts match [v]. [set_iteration] is the order a Python set of these
    objects is listed in. *)
Record user_code (W : Type) := mk_user_code {
  construct : Pod → list (string * value) → W → outcome pod_error value * W;
  type_name : type → string;
  selector : qualifier → Pod → bool;
  isinstance : value → framework_interface → bool;
  set_framework_object : framework_interface → value → W → outcome pod_error unit * W;
  call_service : service_operation → value → W → outcome pod_error unit * W;
  aspect_selects : Pod → value → bool;
  order_annotation : value → option N;
  user_post_process : value → value → W → outcome pod_error value * W;
  set_iteration : list value → list value;
  uuid4 : W → value * W;
}.
Arguments construct {W} u.
Arguments type_name {W} u.
Arguments selector {W} u.
Arguments isinstance {W} u.
Arguments set_framework_object {W} u.
Arguments call_service {W} u.
Arguments aspect_selects {W} u.
Arguments order_annotation {W} u.
Arguments user_post_process {W} u.
Arguments set_iteration {W} u.
Arguments uuid4 {W} u.

Definition IPostProcessor_type : type := "IPostProcessor".
Definition CONTEXT_ID : string := "__spakky_context_id__".
Definition maxsize : N := 9223372036854775807.

(** ** State *)

Inductive post_processor :=
  | ApplicationContextAwareProcessor | AspectPostProcessor | ServicePostProcessor
  | UserPostProcessor (v : value).

(** Elapsed times are left out of the metrics and of the report. *)
Record startup_metrics_record := mk_metrics {
  instantiation_attempt_count : nat;
  post_processing_application_count : nat;
  post_processing_exception : option pod_error;
}.

Inductive startup_phase :=
  | POST_PROCESSOR_REGISTRATION | INSTANTIATION | POST_PROCESSING | SERVICE_START.

Record StartupPhaseRecord := mk_phase_record {
  phase_name : startup_phase;
  processed_count : nat;
  failure : option pod_error;
  diagnostic_details : list (string * string);
}.

(** [report] is [None] with the no-op recorder. The two lists of started
    services are the locals of [start] that its helpers append to. *)
Record ApplicationContext (W : Type) := mk_context {
  pods : list (string * Pod);
  tags : list string;
  type_cache : gmap type (list Pod);
  bindings : gmap type PodBinding;
  forward_type_map : gmap string type;
  singleton_cache : gmap string value;
  context_cache : gmap string value;
  post_processors : list post_processor;
  services : list value;
  async_services : list value;
  event_loop : bool;
  event_thread : bool;
  is_started : bool;
  startup_metrics : option startup_metrics_record;
  report : option (list StartupPhaseRecord);
  started_services : list value;
  started_async_services : list value;
  world : W;
}.
Arguments pods {W} a.
Arguments tags {W} a.
Arguments type_cache {W} a.
Arguments bindings {W} a.
Arguments forward_type_map {W} a.
Arguments singleton_cache {W} a.
Arguments context_cache {W} a.
Arguments post_processors {W} a.
Arguments services {W} a.
Arguments async_services {W} a.
Arguments event_loop {W} a.
Arguments event_thread {W} a.
Arguments is_started {W} a.
Arguments startup_metrics {W} a.
Arguments report {W} a.
Arguments started_services {W} a.
Arguments started_async_services {W} a.
Arguments world {W} a.
Arguments mk_context {W}.

Section setters.
Context {W : Type} (c : ApplicationContext W).
Definition set_pods (x : list (string * Pod)) : ApplicationContext W :=
  mk_context x (tags c) (type_cache c) (bindings c) (forward_type_map c) (singleton_cache
    c) (context_cache c) (post_processors c) (services c) (async_services c) (event_loop
    c) (event_thread c) (is_started c) (startup_metrics c) (report c) (started_services c)
    (started_async_services c) (world c).
Definition set_tags (x : list string) : ApplicationContext W :=
  mk_context (pods c) x (type_cache c) (bindings c) (forward_type_map c) (singleton_cache
    c) (context_cache c) (post_processors c) (services c) (async_services c) (event_loop
    c) (event_thread c) (is_started c) (startup_metrics c) (report c) (started_services c)
    (started_async_services c) (world c).
Definition set_type_cache (x : gmap type (list Pod)) : ApplicationContext W :=
  mk_context (pods c) (tags c) x (bindings c) (forward_type_map c) (singleton_cache c)
    (context_cache c) (post_processors c) (services c) (async_services c) (event_loop c)
    (event_thread c) (is_started c) (startup_metrics c) (report c) (started_services c)
    (started_async_services c) (world c).
Definition set_bindings (x : gmap type PodBinding) : ApplicationContext W :=
  mk_context (pods c) (tags c) (type_cache c) x (forward_type_map c) (singleton_cache c)
    (context_cache c) (post_processors c) (services c) (async_services c) (event_loop c)
    (event_thread c) (is_started c) (startup_metrics c) (report c) (started_services c)
    (started_async_services c) (world c).
Definition set_forward_type_map (x : gmap string type) : ApplicationContext W :=
  mk_context (pods c) (tags c) (type_cache c) (bindings c) x (singleton_cache c)
    (context_cache c) (post_processors c) (services c) (async_services c) (event_loop c)
    (event_thread c) (is_started c) (startup_metrics c) (report c) (started_services c)
    (started_async_services c) (world c).
Definition set_singleton_cache (x : gmap string value) : ApplicationContext W :=
  mk_context (pods c) (tags c) (type_cache c) (bindings c) (forward_type_map c) x
    (context_cache c) (post_processors c) (services c) (async_services c) (event_loop c)
    (event_thread c) (is_started c) (startup_metrics c) (report c) (started_services c)
    (started_async_services c) (world c).
Definition set_context_cache (x : gmap string value) : ApplicationContext W :=
  mk_context (pods c) (tags c) (type_cache c) (bindings c) (forward_type_map c)
    (singleton_cache c) x (post_processors c) (services c) (async_services c) (event_loop
    c) (event_thread c) (is_started c) (startup_metrics c) (report c) (started_services c)
    (started_async_services c) (world c).
Definition set_post_processors (x : list post_processor) : ApplicationContext W :=
  mk_context (pods c) (tags c) (type_cache c) (bindings c) (forward_type_map c)
    (singleton_cache c) (context_cache c) x (services c) (async_services c) (event_loop c)
    (event_thread c) (is_started c) (startup_metrics c) (report c) (started_services c)
    (started_async_services c) (world c).
Definition set_services (x : list value) : ApplicationContext W :=
  mk_context (pods c) (tags c) (type_cache c) (bindings c) (forward_type_map c)
    (singleton_cache c) (context_cache c) (post_processors c) x (async_services c)
    (event_loop c) (event_thread c) (is_started c) (startup_metrics c) (report c)
    (started_services c) (started_async_services c) (world c).
Definition set_async_services (x : list value) : ApplicationContext W :=
  mk_context (pods c) (tags c) (type_cache c) (bindings c) (forward_type_map c)
    (singleton_cache c) (context_cache c) (post_processors c) (services c) x (event_loop
    c) (event_thread c) (is_started c) (startup_metrics c) (report c) (started_services c)
    (started_async_services c) (world c).
Definition set_event_loop (x : bool) : ApplicationContext W :=
  mk_context (pods c) (tags c) (type_cache c) (bindings c) (forward_type_map c)
    (singleton_cache c) (context_cache c) (post_processors c) (services c) (async_services
    c) x (event_thread c) (is_started c) (startup_metrics c) (report c) (started_services
    c) (started_async_services c) (world c).
Definition set_event_thread (x : bool) : ApplicationContext W :=
  mk_context (pods c) (tags c) (type_cache c) (bindings c) (forward_type_map c)
    (singleton_cache c) (context_cache c) (post_processors c) (services c) (async_services
    c) (event_loop c) x (is_started c) (startup_metrics c) (report c) (started_services c)
    (started_async_services c) (world c).
Definition set_is_started (x : bool) : ApplicationContext W :=
  mk_context (pods c) (tags c) (type_cache c) (bindings c) (forward_type_map c)
    (singleton_cache c) (context_cache c) (post_processors c) (services c) (async_services
    c) (event_loop c) (event_thread c) x (startup_metrics c) (report c) (started_services
    c) (started_async_services c) (world c).
Definition set_startup_metrics (x : option startup_metrics_record) : ApplicationContext W :=
  mk_context (pods c) (tags c) (type_cache c) (bindings c) (forward_type_map c)
    (singleton_cache c) (context_cache c) (post_processors c) (services c) (async_services
    c) (event_loop c) (event_thread c) (is_started c) x (report c) (started_services c)
    (started_async_services c) (world c).
Definition set_report (x : option (list StartupPhaseRecord)) : ApplicationContext W :=
  mk_context (pods c) (tags c) (type_cache c) (bindings c) (forward_type_map c)
    (singleton_cache c) (context_cache c) (post_processors c) (services c) (async_services
    c) (event_loop c) (event_thread c) (is_started c) (startup_metrics c) x
    (started_services c) (started_async_services c) (world c).
Definition set_started_services (x : list value) : ApplicationContext W :=
  mk_context (pods c) (tags c) (type_cache c) (bindings c) (forward_type_map c)
    (singleton_cache c) (context_cache c) (post_processors c) (services c) (async_services
    c) (event_loop c) (event_thread c) (is_started c) (startup_metrics c) (report c) x
    (started_async_services c) (world c).
Definition set_started_async_services (x : list value) : ApplicationContext W :=
  mk_context (pods c) (tags c) (type_cache c) (bindings c) (forward_type_map c)
    (singleton_cache c) (context_cache c) (post_processors c) (services c) (async_services
    c) (event_loop c) (event_thread c) (is_started c) (startup_metrics c) (report c)
    (started_services c) x (world c).
Definition set_world (x : W) : ApplicationContext W :=
  mk_context (pods c) (tags c) (type_cache c) (bindings c) (forward_type_map c)
    (singleton_cache c) (context_cache c) (post_processors c) (services c) (async_services
    c) (event_loop c) (event_thread c) (is_started c) (startup_metrics c) (report c)
    (started_services c) (started_async_services c) x.
End setters.

(** ** The container *)

Section container.
Context {W : Type} (u : user_code W).

Abbreviation context := (ApplicationContext W).
Abbreviation action := (comp context pod_error).

(** Code of the program that runs in the world and returns to the container. *)
Definition run_user {A} (f : W → outcome pod_error A * W) : action A :=
  λ c, let '(r, w) := f (world c) in (r, set_world c w).

(** *** Diagnostics *)

Definition type_ref_name (t : type_ref) : string :=
  match t with RType t => type_name u t | RForward s => s end.

Definition __dependency_path_node (pod : Pod) (param : option string)
    (requested : option type_ref) : PodDependencyPathNode :=
  mk_node (name pod) (type_name u (type_ pod)) param (type_ref_name <$> requested).

Definition __dependency_diagnostic (pod : Pod) (param : option string)
    (requested : option string) (pth : list PodDependencyPathNode)
    (cs : list PodCandidateDiagnostic) (hints : list string)
    : PodDependencyResolutionDiagnostic :=
  mk_diagnostic (name pod) (type_name u (type_ pod)) param requested pth cs hints.

Definition __startup_diagnostic_details (e : pod_error) : list (string * string) :=
  match e with
  | UnexpectedDependencyTypeInjectedError (Some d)
  | NoUniquePodError _ _ (Some d) _
  | CircularDependencyGraphDetectedError _ (Some d) => as_detail_pairs d
  | _ => []
  end.

Definition __candidate_diagnostics (ps : list Pod) : list PodCandidateDiagnostic :=
  (λ p, mk_candidate (name p) (type_name u (type_ p)) (is_primary p))
    <$> sort_by (λ p q, str_leb (name p) (name q)) ps.

Definition __ambiguity_hints (param : option string) : list string :=
  ["add Annotated[T, Qualifier(...)] to select one candidate";
   "register ApplicationContext.bind(PodBinding(...)) from application config";
   "mark exactly one candidate with @Primary"]
  ++ match param with
     | None => ["call get(type_, name=...) for an explicit Pod name"]
     | Some _ => ["rename the dependency parameter to one candidate Pod name as legacy fallback"]
     end.

Definition __ambiguity_diagnostic (requester : option Pod) (param : option string) (t : type)
    (pth : list PodDependencyPathNode) (cs : list PodCandidateDiagnostic) (hints : list string)
    : option PodDependencyResolutionDiagnostic :=
  (λ r, __dependency_diagnostic r param (Some (type_name u t)) pth cs hints) <$> requester.

(** *** Candidate resolution *)

Definition __validate_binding (b : PodBinding) : outcome pod_error unit :=
  match implementation_type b, implementation_name b with
  | Some _, None | None, Some _ => Ok tt
  | _, _ => Raise InvalidPodBindingError
  end.

Definition named (n : string) (ps : list Pod) : list Pod :=
  filter (λ p, name p = n) ps.

Definition __resolve_binding_candidate (c : context) (t : type) (ps : list Pod)
    : outcome pod_error (option Pod) :=
  match bindings c !! t with
  | None => Ok None
  | Some b =>
      match implementation_name b with
      | Some n =>
          match named n ps with
          | [p] => Ok (Some p)
          | _ => Raise (NoSuchPodBindingTargetError b)
          end
      | None =>
          match filter (λ p, Some (type_ p) = implementation_type b) ps with
          | [p] => Ok (Some p)
          | _ => Raise (NoSuchPodBindingTargetError b)
          end
      end
  end.

Definition qualified (qs : list qualifier) (ps : list Pod) : list Pod :=
  filter (λ p, forallb (λ q, selector u q p) qs) ps.

Definition pods_of_type (c : context) (t : type) : list Pod := default [] (type_cache c !! t).

Definition __resolve_collection_candidates (c : context) (t : type) (qs : list qualifier)
    : list Pod :=
  let ps := pods_of_type c t in
  sort_by (λ p q, str_leb (name p) (name q))
    (match qs with [] => ps | _ => qualified qs ps end).

Definition no_unique (t : type) (param : option string) (requester : option Pod)
    (pth : list PodDependencyPathNode) (ps : list Pod) : pod_error :=
  let cs := __candidate_diagnostics ps in
  let hints := __ambiguity_hints param in
  NoUniquePodError t cs (__ambiguity_diagnostic requester param t pth cs hints) hints.

Definition __resolve_candidate (c : context) (t : type) (n : option string)
    (qs : list qualifier) (name_is_dependency_parameter : bool) (requester : option Pod)
    (pth : list PodDependencyPathNode) : outcome pod_error (option Pod) :=
  let ps := pods_of_type c t in
  let ambiguous := no_unique t n requester pth in
  let after_explicit_name :=
    binding_candidate ← __resolve_binding_candidate c t ps;
    match binding_candidate with
    | Some p => Ok (Some p)
    | None =>
        match ps with
        | [p] => Ok (Some p)
        | _ =>
            match List.filter is_primary ps with
            | [p] => Ok (Some p)
            | (_ :: _ :: _) as primary => Raise (ambiguous primary)
            | [] =>
                match n, name_is_dependency_parameter with
                | Some param, true =>
                    match named param ps with
                    | [p] => Ok (Some p)
                    | _ => Raise (ambiguous ps)
                    end
                | _, _ => Raise (ambiguous ps)
                end
            end
        end
    end in
  match ps with
  | [] => Ok None
  | _ =>
      match qs with
      | _ :: _ =>
          match qualified qs ps with
          | [p] => Ok (Some p)
          | [] => Ok None
          | several => Raise (ambiguous several)
          end
      | [] =>
          match n, name_is_dependency_parameter with
          | Some explicit, false =>
              match named explicit ps with
              | [p] => Ok (Some p)
              | [] => Ok None
              | _ => after_explicit_name
              end
          | _, _ => after_explicit_name
          end
      end
  end.

(** *** Caches and metrics *)

(** [cache.get(name)], where [None] is a miss *)
Definition cached (m : gmap string value) (n : string) : option value :=
  match m !! n with
  | Some v => if is_none v then None else Some v
  | None => None
  end.

Definition __set_singleton_cache (pod : Pod) (v : value) : action unit :=
  modify (λ c, set_singleton_cache c (<[name pod := v]> (singleton_cache c))).
Definition __set_context_cache (pod : Pod) (v : value) : action unit :=
  modify (λ c, set_context_cache c (<[name pod := v]> (context_cache c))).

Definition __record_post_processing_attempt (e : option pod_error) : action unit :=
  modify (λ c,
    match startup_metrics c with
    | None => c
    | Some m => set_startup_metrics c
        (Some (mk_metrics (instantiation_attempt_count m)
                 (S (post_processing_application_count m))
                 (match e with Some _ => e | None => post_processing_exception m end)))
    end).

(** *** Services and post-processors *)

Definition add_service (v : value) : action unit :=
  modify (λ c,
    let c := if isinstance u v IService then set_services c (services c ++ [v]) else c in
    if isinstance u v IAsyncService then set_async_services c (async_services c ++ [v]) else c).

Definition set_if_aware (i : framework_interface) (v : value) : action unit :=
  if isinstance u v i then run_user (set_framework_object u i v) else ret tt.

Definition ApplicationContextAwareProcessor_post_process (v : value) : action value :=
  set_if_aware IContainerAware v ;;;
  set_if_aware ITagRegistryAware v ;;;
  set_if_aware IApplicationContextAware v ;;;
  ret v.

Definition ServicePostProcessor_post_process (v : value) : action value :=
  (if isinstance u v IService
   then run_user (set_framework_object u IService v) ;;; add_service v else ret tt) ;;;
  (if isinstance u v IAsyncService
   then run_user (set_framework_object u IAsyncService v) ;;; add_service v else ret tt) ;;;
  ret v.

(** [bool(v)] for the objects a Pod may be *)
Definition truthy (v : value) : bool :=
  match v with
  | VNone | VStr "" | VList [] | VTuple [] | VDict [] => false
  | _ => true
  end.

Definition order_of (v : value) : N := default maxsize (order_annotation u v).

(** The recursion of the container goes through one function, the instance of a
    resolved Pod: the functions below take it as [rec] at a smaller depth. *)
Section recursion.
Context (rec : Pod → list type → list PodDependencyPathNode → action value).

Definition __get_internal (t : type_ref) (n : option string) (hierarchy : list type)
    (pth : list PodDependencyPathNode) (qs : list qualifier)
    (name_is_dependency_parameter : bool) (requester : option Pod) : action value :=
  c <- get_state ;;
  let resolved :=
    match t with RType t => Some t | RForward s => forward_type_map c !! s end in
  match resolved with
  | None => ret VNone
  | Some t =>
      candidate <- lift (__resolve_candidate c t n qs name_is_dependency_parameter requester pth) ;;
      match candidate with
      | None => ret VNone
      | Some pod => rec pod hierarchy pth
      end
  end.

Definition __resolve_collection_dependency (d : DependencyInfo) (k : DependencyCollectionKind)
    (hierarchy : list type) (pth : list PodDependencyPathNode) : action value :=
  c <- get_state ;;
  (* a forward name is not a key of the type index *)
  let ps := match dep_type d with
            | RType t => __resolve_collection_candidates c t (qualifiers d)
            | RForward _ => []
            end in
  match ps with
  | [] => ret VNone
  | _ =>
      instances <- map_comp (λ p, rec p hierarchy pth) ps ;;
      ret (match k with
           | LIST => VList instances
           | TUPLE => VTuple instances
           | DICT => VDict (zip (name <$> ps) instances)
           end)
  end.

Definition find_with (select : Pod → bool) : action (list value) :=
  c <- get_state ;;
  found <- map_comp (λ p, __get_internal (RType (type_ p)) (Some (name p)) [] [] [] false None)
             (List.filter select (snd <$> pods c)) ;;
  ret (set_iteration u found).

Definition AspectPostProcessor_post_process (v : value) : action value :=
  matched <- find_with (λ p, aspect_selects u p v) ;;
  if negb (existsb truthy matched) then ret v
  else ret (VProxy (sort_by (λ a b, (order_of b <=? order_of a)%N) matched) v).

Definition post_process (pp : post_processor) (v : value) : action value :=
  match pp with
  | ApplicationContextAwareProcessor => ApplicationContextAwareProcessor_post_process v
  | AspectPostProcessor => AspectPostProcessor_post_process v
  | ServicePostProcessor => ServicePostProcessor_post_process v
  | UserPostProcessor p => run_user (user_post_process u p v)
  end.

Fixpoint post_process_all (pps : list post_processor) (v : value) : action value :=
  match pps with
  | [] => ret v
  | pp :: pps' =>
      v' <- try_except (post_process pp v)
              (λ e, Some (__record_post_processing_attempt (Some e) ;;; raise e)) ;;
      __record_post_processing_attempt None ;;;
      post_process_all pps' v'
  end.

Definition __post_process_pod (v : value) : action value :=
  c <- get_state ;;
  post_process_all (post_processors c) v.

Definition resolve_dependency (pod : Pod) (hierarchy : list type)
    (pth : list PodDependencyPathNode) (nd : string * DependencyInfo) : action (string * value) :=
  let '(n, d) := nd in
  let current_path := pth ++ [__dependency_path_node pod (Some n) (Some (dep_type d))] in
  v <- match collection_kind d with
       | None => __get_internal (dep_type d) (Some n) hierarchy current_path (qualifiers d) true
                   (Some pod)
       | Some k => __resolve_collection_dependency d k hierarchy current_path
       end ;;
  if is_none v && negb (has_default d) && negb (is_optional_dep d)
  then raise (UnexpectedDependencyTypeInjectedError
         (Some (__dependency_diagnostic pod (Some n) (Some (type_ref_name (dep_type d)))
                  current_path [] [])))
  else ret (n, v).

Definition __instantiate_pod (pod : Pod) (hierarchy : list type)
    (pth : list PodDependencyPathNode) : action value :=
  if decide (type_ pod ∈ hierarchy) then
    let last_node := last pth in
    raise (CircularDependencyGraphDetectedError (hierarchy ++ [type_ pod])
      (Some (__dependency_diagnostic pod (last_node ≫= node_parameter)
               (last_node ≫= node_requested_type)
               (pth ++ [__dependency_path_node pod None None]) [] [])))
  else
    deps <- map_comp (resolve_dependency pod (hierarchy ++ [type_ pod]) pth) (dependencies pod) ;;
    v <- run_user (instantiate (construct u) pod deps) ;;
    __post_process_pod v.

(** Under the lock the singleton cache is read a second time; one thread sees
    the same cache twice. *)
Definition get_pod_instance_step (pod : Pod) (hierarchy : list type)
    (pth : list PodDependencyPathNode) : action value :=
  c <- get_state ;;
  match scope pod with
  | SINGLETON =>
      match cached (singleton_cache c) (name pod) with
      | Some v => ret v
      | None =>
          v <- __instantiate_pod pod hierarchy pth ;;
          __set_singleton_cache pod v ;;;
          ret v
      end
  | CONTEXT =>
      match cached (context_cache c) (name pod) with
      | Some v => ret v
      | None =>
          v <- __instantiate_pod pod hierarchy pth ;;
          __set_context_cache pod v ;;;
          ret v
      end
  | PROTOTYPE => __instantiate_pod pod hierarchy pth
  end.
End recursion.

Fixpoint __get_pod_instance (depth : nat) (pod : Pod) (hierarchy : list type)
    (pth : list PodDependencyPathNode) : action value :=
  match depth with
  | O => raise RecursionError
  | S depth' => get_pod_instance_step (__get_pod_instance depth') pod hierarchy pth
  end.

(** *** Registration *)

(** [set.add] on Pods, which are equal when their names are *)
Definition set_add (p : Pod) (ps : list Pod) : list Pod :=
  match named (name p) ps with [] => ps ++ [p] | _ => ps end.

Definition index_type (p : Pod) (m : gmap type (list Pod)) (t : type) : gmap type (list Pod) :=
  <[t := set_add p (default [] (m !! t))]> m.

(** [None] is an object that is not annotated. *)
Definition add (obj : option Pod) : action unit :=
  match obj with
  | None => raise CannotRegisterNonPodObjectError
  | Some pod =>
      c <- get_state ;;
      match dict_get (name pod) (pods c) with
      | Some registered =>
          if decide (id registered = id pod) then ret tt
          else raise (PodNameAlreadyExistsError (name pod))
      | None =>
          modify (λ c,
            let forward := foldl (λ m t, <[type_name u t := t]> m) (forward_type_map c)
                             (base_types pod) in
            let index := foldl (index_type pod) (type_cache c) (type_ pod :: base_types pod) in
            set_type_cache (set_pods (set_forward_type_map c forward)
                              (dict_set (name pod) pod (pods c))) index)
      end
  end.

Definition bind_ (b : PodBinding) : action unit :=
  lift (__validate_binding b) ;;;
  modify (λ c, set_bindings c (<[interface b := b]> (bindings c))).
Definition bind_to_type (i impl : type) : action unit := bind_ (mk_binding i (Some impl) None).
Definition bind_to_name (i : type) (n : string) : action unit := bind_ (mk_binding i None (Some n)).

(** *** Lookup *)

Definition get_or_none (depth : nat) (t : type) (n : option string) : action value :=
  __get_internal (__get_pod_instance depth) (RType t) n [] [] [] false None.

Definition get (depth : nat) (t : type) (n : option string) : action value :=
  v <- get_or_none depth t n ;;
  if is_none v then raise (NoSuchPodError t n) else ret v.

Definition find (depth : nat) (select : Pod → bool) : action (list value) :=
  find_with (__get_pod_instance depth) select.

Definition contains (c : context) (t : type) (n : option string) : bool :=
  match n with
  | Some n => dict_has n (pods c)
  | None => match type_cache c !! t with Some (_ :: _) => true | _ => false end
  end.

(** *** The values of the current context *)

Definition get_context_id : action value :=
  c <- get_state ;;
  match context_cache c !! CONTEXT_ID with
  | Some v => ret v
  | None =>
      v <- run_user (λ w, let '(v, w') := uuid4 u w in (Ok v, w')) ;;
      modify (λ c, set_context_cache c (<[CONTEXT_ID := v]> (context_cache c))) ;;;
      ret v
  end.

Definition get_context_value (k : string) : action value :=
  if decide (k = CONTEXT_ID) then get_context_id
  else gets (λ c, default VNone (context_cache c !! k)).

Definition set_context_value (k : string) (v : value) : action unit :=
  if decide (k = CONTEXT_ID) then raise CannotAssignSystemContextIDError
  else modify (λ c, set_context_cache c (<[k := v]> (context_cache c))).

Definition clear_context : action unit := modify (λ c, set_context_cache c ∅).

(** *** Tags: a tag is equal to another with the same fields, here a string *)

Definition register_tag (t : string) : action unit :=
  modify (λ c, if decide (t ∈ tags c) then c else set_tags c (tags c ++ [t])).
Definition contains_tag (c : context) (t : string) : bool := bool_decide (t ∈ tags c).
Definition list_tags (c : context) (select : option (string → bool)) : list string :=
  match select with None => tags c | Some f => List.filter f (tags c) end.
End container.

(** A context as [__init__] leaves it, with the recorder of its start. *)
Definition new_context {W} (r : option (list StartupPhaseRecord)) (w : W) : ApplicationContext W :=
  mk_context [] [] ∅ ∅ ∅ ∅ ∅ [] [] [] false false false None r [] [] w.

(** ** Registration lemmas *)

Section registration.
Context {W : Type} (u : user_code W).
Implicit Types c : ApplicationContext W.

(** The invariant of the registry: names are keys, the type index holds exactly
    the registered Pods under their type and base types, once each. *)
Definition registry_ok c : Prop :=
  NoDup (pods c).*1 ∧
  (∀ n p, (n, p) ∈ pods c → name p = n) ∧
  (∀ t p, p ∈ pods_of_type c t ↔ (name p, p) ∈ pods c ∧ is_family_with p t = true) ∧
  (∀ t, NoDup (name <$> pods_of_type c t)).

Lemma is_family_with_spec p t :
  is_family_with p t = true ↔ t ∈ type_ p :: base_types p.
Proof.
  unfold is_family_with. rewrite orb_true_iff, !bool_decide_eq_true. set_solver.
Qed.

Lemma named_elem n ps p : p ∈ named n ps ↔ p ∈ ps ∧ name p = n.
Proof. unfold named. rewrite list_elem_of_filter. naive_solver. Qed.

Lemma named_nil n ps : named n ps = [] ↔ n ∉ name <$> ps.
Proof.
  split.
  - intros Hn (p & -> & Hp)%list_elem_of_fmap.
    assert (p ∈ named (name p) ps) as H by by apply named_elem.
    rewrite Hn in H. by apply not_elem_of_nil in H.
  - intros Hn. destruct (named n ps) as [|p l] eqn:Hl; [done|]. destruct Hn.
    assert (p ∈ named n ps) as [Hp <-]%named_elem by (rewrite Hl; left).
    apply list_elem_of_fmap. eauto.
Qed.

Lemma named_length n ps : NoDup (name <$> ps) → (length (named n ps) ≤ 1)%nat.
Proof.
  induction ps as [|p ps IH]; [cbn; lia|].
  rewrite fmap_cons, NoDup_cons. intros [Hp Hps]. specialize (IH Hps).
  unfold named in *. rewrite filter_cons. case_decide as Hd; [|done].
  assert (named n ps = []) as Hnil by (apply named_nil; congruence).
  unfold named in Hnil. by rewrite Hnil.
Qed.

Lemma set_add_fresh p ps : name p ∉ name <$> ps → set_add p ps = ps ++ [p].
Proof. intros Hp. unfold set_add. by rewrite (proj2 (named_nil _ _) Hp). Qed.

Lemma set_add_present p ps : name p ∈ name <$> ps → set_add p ps = ps.
Proof.
  intros Hp. unfold set_add. destruct (named (name p) ps) eqn:Hn; [|done].
  by apply named_nil in Hn.
Qed.

Lemma set_add_idemp p ps : set_add p (set_add p ps) = set_add p ps.
Proof.
  apply set_add_present. destruct (decide (name p ∈ name <$> ps)) as [Hp|Hp].
  - by rewrite set_add_present.
  - rewrite set_add_fresh by done. rewrite fmap_app. set_solver.
Qed.

Lemma index_type_lookup p m t t' :
  default [] (index_type p m t' !! t) =
    if decide (t = t') then set_add p (default [] (m !! t)) else default [] (m !! t).
Proof.
  unfold index_type. case_decide as Ht; [subst; by rewrite lookup_insert_eq|].
  by rewrite lookup_insert_ne by done.
Qed.

Lemma index_fold p ts m t :
  default [] (foldl (index_type p) m ts !! t) =
    if decide (t ∈ ts) then set_add p (default [] (m !! t)) else default [] (m !! t).
Proof.
  revert m. induction ts as [|t' ts IH]; intros m; cbn [foldl].
  { rewrite decide_False; [done|apply not_elem_of_nil]. }
  rewrite IH, index_type_lookup.
  destruct (decide (t = t')) as [->|Ht].
  - rewrite set_add_idemp, (decide_True _ (P:=t' ∈ t' :: ts)); [by case_decide|left].
  - destruct (decide (t ∈ ts)); [rewrite decide_True by set_solver|rewrite decide_False];
      [done..|]. set_solver.
Qed.

Lemma add_registry_ok obj : preserves registry_ok (add u obj).
Proof.
  intros c (Hnd & Hnames & Hidx & Huniq). unfold add.
  destruct obj as [p|]; [|done]. cbn. unfold bind, get_state.
  destruct (dict_get (name p) (pods c)) as [r|] eqn:Hget; [by case_decide|].
  cbn. unfold registry_ok, pods_of_type. cbn.
  apply dict_get_None in Hget as Hp.
  assert (dict_set (name p) p (pods c) = pods c ++ [(name p, p)]) as Hset.
  { clear -Hp. induction (pods c) as [|[n q] l IH]; [done|]. rewrite fmap_cons in Hp. cbn in *.
    rewrite decide_False by set_solver. rewrite IH by set_solver. done. }
  assert (∀ t, name p ∉ name <$> pods_of_type c t) as Hfresh.
  { intros t (q & Hq & Hin)%list_elem_of_fmap. apply Hidx in Hin as [Hin _].
    apply Hp. rewrite Hq. apply list_elem_of_fmap. by exists (name q, q). }
  assert (∀ t, default [] (foldl (index_type p) (index_type p (type_cache c) (type_ p))
                (base_types p) !! t) =
            if is_family_with p t then pods_of_type c t ++ [p] else pods_of_type c t) as Hfold.
  { intros t. change (foldl _ (index_type p (type_cache c) (type_ p)) (base_types p))
      with (foldl (index_type p) (type_cache c) (type_ p :: base_types p)).
    rewrite index_fold, set_add_fresh by apply Hfresh.
    destruct (is_family_with p t) eqn:Hf.
    - by rewrite decide_True by by apply is_family_with_spec.
    - rewrite decide_False; [done|]. rewrite <-is_family_with_spec. by rewrite Hf. }
  split_and!.
  - by apply dict_set_NoDup.
  - intros n q. rewrite Hset, elem_of_app, list_elem_of_singleton. intros [?|[= -> ->]]; auto.
  - intros t q. rewrite Hfold, Hset, elem_of_app, list_elem_of_singleton. split.
    + destruct (is_family_with p t) eqn:Hf; rewrite ?elem_of_app, ?list_elem_of_singleton.
      * intros [?%Hidx| ->]; naive_solver.
      * intros Hq%Hidx. tauto.
    + intros [[Hq|[= _ ->]] Hf].
      * assert (q ∈ pods_of_type c t) by by apply Hidx.
        destruct (is_family_with p t); [apply elem_of_app; by left|done].
      * rewrite Hf. apply elem_of_app. right. by apply list_elem_of_singleton.
  - intros t. rewrite Hfold. destruct (is_family_with p t); [|apply Huniq].
    rewrite fmap_app. apply NoDup_app. split_and!; [apply Huniq| |apply NoDup_singleton].
    intros n Hn ->%list_elem_of_singleton. by apply (Hfresh t).
Qed.
End registration.

(** ** Resolution lemmas *)

Section resolution.
Context {W : Type} (u : user_code W).
Implicit Types (c : ApplicationContext W) (p : Pod).

Definition explicit_name (n : option string) (is_param : bool) : option string :=
  if is_param then None else n.

(** The candidate a binding selects. *)
Definition bound_to (b : PodBinding) p : Prop :=
  match implementation_name b with
  | Some n => name p = n
  | None => implementation_type b = Some (type_ p)
  end.

Lemma resolve_binding_spec c t ps :
  match __resolve_binding_candidate c t ps with
  | Ok (Some p) => p ∈ ps ∧ ∃ b, bindings c !! t = Some b ∧ bound_to b p
  | Ok None => bindings c !! t = None
  | Raise e => ∃ b, bindings c !! t = Some b ∧ e = NoSuchPodBindingTargetError b
  end.
Proof.
  unfold __resolve_binding_candidate, bound_to.
  destruct (bindings c !! t) as [b|]; [|done].
  destruct (implementation_name b) as [n|] eqn:Hb.
  - destruct (named n ps) as [|p [|]] eqn:Hn; [eauto| |eauto].
    assert (p ∈ named n ps) as [? ?]%named_elem by (rewrite Hn; left).
    split; [done|]. exists b. by rewrite Hb.
  - destruct (filter _ ps) as [|p [|]] eqn:Hn; [eauto| |eauto].
    assert (p ∈ filter (λ p, Some (type_ p) = implementation_type b) ps)
      as [? ?]%list_elem_of_filter by (rewrite Hn; left).
    split; [done|]. exists b. by rewrite Hb.
Qed.

Lemma elem_of_primary ps p : p ∈ List.filter is_primary ps ↔ p ∈ ps ∧ is_primary p = true.
Proof. by rewrite !list_elem_of_In, filter_In. Qed.

Lemma qualified_elem qs ps p :
  p ∈ qualified u qs ps ↔ p ∈ ps ∧ forallb (λ q, selector u q p) qs = true.
Proof. unfold qualified. rewrite list_elem_of_filter, Is_true_true. tauto. Qed.

(** What resolution promises of the Pod it selects. *)
Definition selected c t n qs is_param p : Prop :=
  p ∈ pods_of_type c t ∧
  forallb (λ q, selector u q p) qs = true ∧
  (qs = [] → match explicit_name n is_param with
    | Some e => name p = e
    | None =>
        match bindings c !! t with
        | Some b => bound_to b p
        | None =>
            pods_of_type c t = [p] ∨
            List.filter is_primary (pods_of_type c t) = [p] ∨
            (List.filter is_primary (pods_of_type c t) = [] ∧ is_param = true ∧ n = Some (name p))
        end
    end).

Lemma resolve_candidate_selected c t n qs is_param requester pth p :
  (∀ e, NoDup (name <$> pods_of_type c t) → (length (named e (pods_of_type c t)) ≤ 1)%nat) →
  NoDup (name <$> pods_of_type c t) →
  __resolve_candidate u c t n qs is_param requester pth = Ok (Some p) →
  selected c t n qs is_param p.
Proof.
  intros Hlen Hnd. specialize (λ e, Hlen e Hnd). unfold __resolve_candidate, selected.
  set (ps := pods_of_type c t) in *. set (amb := no_unique u t n requester pth).
  set (after := _ ≫= _).
  assert (after = Ok (Some p) → p ∈ ps ∧
    match bindings c !! t with
    | Some b => bound_to b p
    | None => ps = [p] ∨ List.filter is_primary ps = [p] ∨
              (List.filter is_primary ps = [] ∧ is_param = true ∧ n = Some (name p))
    end) as Hafter.
  { intros (r & Hr & H)%outcome_bind_Ok. pose proof (resolve_binding_spec c t ps) as Hb.
    rewrite Hr in Hb. destruct r as [q|].
    - injection H as ->. destruct Hb as (? & b & -> & ?). done.
    - rewrite Hb. clear Hb Hr. destruct ps as [|q [|q' ps']] eqn:Hps.
      + cbn in H. by destruct n, is_param.
      + injection H as ->. split; [by left|]. by left.
      + destruct (List.filter is_primary _) as [|r [|]] eqn:Hf; [|injection H as ->|done].
        * destruct n as [m|], is_param; try done.
          destruct (named m _) as [|r [|]] eqn:Hm; try done. injection H as ->.
          assert (p ∈ named m (q :: q' :: ps')) as [? <-]%named_elem by (rewrite Hm; left).
          split; [done|]. by right; right.
        * assert (p ∈ List.filter is_primary (q :: q' :: ps')) as [? ?]%elem_of_primary
            by (rewrite Hf; left). split; [done|]. by right; left. }
  clearbody after amb. intros H. destruct ps as [|q0 ps0] eqn:Hps; [done|].
  rewrite <-Hps in *. destruct qs as [|qu qs].
  - destruct n as [e|], is_param; cbn [explicit_name].
    2: { destruct (named e ps) as [|r [|r' l]] eqn:Hn; [done| |].
         - injection H as ->.
           assert (p ∈ named e ps) as [? ?]%named_elem by (rewrite Hn; left). done.
         - specialize (Hlen e). rewrite Hn in Hlen. cbn in Hlen. lia. }
    all: destruct (Hafter H); done.
  - destruct (qualified u (qu :: qs) ps) as [|r [|]] eqn:Hq; [done| |done].
    injection H as ->.
    assert (p ∈ qualified u (qu :: qs) ps) as [? ?]%qualified_elem by (rewrite Hq; left).
    done.
Qed.

Lemma resolve_candidate_none c t n qs is_param requester pth :
  __resolve_candidate u c t n qs is_param requester pth = Ok None →
  pods_of_type c t = [] ∨
  (qs ≠ [] ∧ qualified u qs (pods_of_type c t) = []) ∨
  (qs = [] ∧ ∃ e, explicit_name n is_param = Some e ∧ e ∉ name <$> pods_of_type c t).
Proof.
  unfold __resolve_candidate. set (ps := pods_of_type c t). set (after := _ ≫= _).
  assert (after ≠ Ok None ∨ ps = []) as Hafter.
  { unfold after. destruct (__resolve_binding_candidate c t ps) as [[q|]|]; [by left| |by left].
    destruct ps as [|q [|q' l]]; [by right|by left|left].
    cbn [mbind outcome_bind]. destruct (List.filter is_primary _) as [|r [|]]; try done.
    destruct n, is_param; try done. by destruct (named _ _) as [|? []]. }
  clearbody after. destruct ps as [|q0 ps0] eqn:Hps; [by left|]. rewrite <-Hps in *.
  intros H. right. destruct qs as [|qu qs].
  - right. split; [done|]. destruct Hafter as [Hafter|]; [|congruence].
    destruct n as [e|], is_param; try done. destruct (named e ps) as [|? []] eqn:Hn; try done.
    apply named_nil in Hn. eauto.
  - left. split; [done|]. by destruct (qualified u (qu :: qs) ps) as [|? []].
Qed.

(** The errors of resolution: a binding without target, or two candidates. *)
Lemma resolve_candidate_error c t n qs is_param requester pth e :
  __resolve_candidate u c t n qs is_param requester pth = Raise e →
  (∃ b, bindings c !! t = Some b ∧ e = NoSuchPodBindingTargetError b) ∨
  (∃ ps, (2 ≤ length ps)%nat ∧ (∀ p, p ∈ ps → p ∈ pods_of_type c t) ∧
     e = no_unique u t n requester pth ps).
Proof.
  unfold __resolve_candidate. set (ps := pods_of_type c t). set (amb := no_unique u t n requester pth).
  set (after := _ ≫= _).
  assert (ps ≠ [] → after = Raise e →
    (∃ b, bindings c !! t = Some b ∧ e = NoSuchPodBindingTargetError b) ∨
    (∃ l, (2 ≤ length l)%nat ∧ (∀ p, p ∈ l → p ∈ ps) ∧ e = amb l)) as Hafter.
  { intros Hne. unfold after. pose proof (resolve_binding_spec c t ps) as Hb.
    destruct (__resolve_binding_candidate c t ps) as [[q|]|]; [done| |].
    2: { intros [= ->]. by left. }
    cbn [mbind outcome_bind]. destruct ps as [|q [|q' l]] eqn:Hps; [done..|]. rewrite <-Hps.
    assert (Raise (A:=option Pod) (amb ps) = Raise e →
      ∃ l, (2 ≤ length l)%nat ∧ (∀ p, p ∈ l → p ∈ ps) ∧ e = amb l) as Hamb.
    { intros [= <-]. exists ps. rewrite Hps. cbn. split_and!; [lia|done..]. }
    destruct (List.filter is_primary ps) as [|r [|r' l']] eqn:Hf; [|done|].
    - intros H. right. apply Hamb. revert H.
      destruct n as [m|]; [|exact (λ H, H)]. destruct is_param; [|exact (λ H, H)].
      destruct (named m ps) as [|? []]; [exact (λ H, H)|discriminate|exact (λ H, H)].
    - intros [= <-]. right. exists (r :: r' :: l'). cbn. split_and!; [lia| |done].
      intros p Hp. rewrite <-Hf in Hp. by apply elem_of_primary in Hp as [? _]. }
  clearbody after amb. destruct ps as [|q0 ps0] eqn:Hps; [done|]. rewrite <-Hps in *.
  specialize (Hafter ltac:(by rewrite Hps)). destruct qs as [|qu qs].
  - destruct n, is_param; try exact Hafter. by destruct (named _ _) as [|? []].
  - destruct (qualified u (qu :: qs) ps) as [|r [|r' l]] eqn:Hq; [done..|].
    intros [= <-]. right. exists (r :: r' :: l). cbn. split_and!; [lia| |done].
    intros p Hp. rewrite <-Hq in Hp. by apply qualified_elem in Hp as [? _].
Qed.
End resolution.
