(* ===== verification/Injection.v ===== *)
(** * Dependency injection: the theorems of the container

    What [ApplicationContext.get] promises: the selected candidate, one
    instance per singleton, termination, genuine cycles in the error it
    raises, and the two name spaces that overlap in the context cache. *)

From S2P Require Import Prelude Pod Container.

(** ** Dependency graph *)

Section graph.
Context {W : Type}.
Implicit Types (c : ApplicationContext W) (p : Pod).

Definition registered c p : Prop := (name p, p) ∈ pods c.

(** The Pods a dependency may be resolved to. *)
Definition dep_targets c (d : DependencyInfo) : list Pod :=
  match dep_type d with
  | RType t => pods_of_type c t
  | RForward s => match forward_type_map c !! s with Some t => pods_of_type c t | None => [] end
  end.

Definition depends c (a b : type) : Prop :=
  ∃ p q n d, registered c p ∧ type_ p = a ∧ (n, d) ∈ dependencies p ∧
    q ∈ dep_targets c d ∧ type_ q = b.

Definition linked c (l : list type) : Prop :=
  ∀ i a b, l !! i = Some a → l !! S i = Some b → depends c a b.

(** The chain of a circularity error: a path of the dependency graph whose last
    type was met before. *)
Definition real_cycle c (chain : list type) : Prop :=
  ∃ l t, chain = l ++ [t] ∧ t ∈ l ∧ linked c chain.

Lemma linked_singleton c t : linked c [t].
Proof. intros i a b Ha Hb. by destruct i as [|[|i]]. Qed.

Lemma linked_snoc c l t t' :
  linked c (l ++ [t]) → depends c t t' → linked c ((l ++ [t]) ++ [t']).
Proof.
  intros Hl Ht i a b Ha Hb.
  destruct (decide (S i < length (l ++ [t]))%nat) as [Hlt|Hge].
  - rewrite lookup_app_l in Ha, Hb by lia. by eapply Hl.
  - assert (S i = length (l ++ [t])) as Hi.
    { apply lookup_lt_Some in Hb. rewrite (length_app (l ++ [t])) in Hb. cbn in Hb. lia. }
    rewrite lookup_app_r in Hb by lia.
    rewrite Hi, Nat.sub_diag in Hb. injection Hb as <-.
    rewrite lookup_app_l in Ha by lia. rewrite length_app in Hi. cbn in Hi.
    rewrite lookup_app_r in Ha by lia. replace (i - length l)%nat with 0%nat in Ha by lia.
    by injection Ha as <-.
Qed.

Definition registry_of c :=
  (pods c, type_cache c, bindings c, forward_type_map c).

Definition benign (e : pod_error) : Prop :=
  match e with
  | CircularDependencyGraphDetectedError _ _ | RecursionError => False
  | _ => True
  end.

(** User code raises its own errors. *)
Definition is_user_error (e : pod_error) : Prop := match e with UserError _ => True | _ => False end.

Definition user_errors (u : user_code W) : Prop :=
  (∀ p args w e, (construct u p args w).1 = Raise e → is_user_error e) ∧
  (∀ i v w e, (set_framework_object u i v w).1 = Raise e → is_user_error e) ∧
  (∀ o v w e, (call_service u o v w).1 = Raise e → is_user_error e) ∧
  (∀ pp v w e, (user_post_process u pp v w).1 = Raise e → is_user_error e).
End graph.

(** ** One level of the recursion

    [rec] is known to keep the registry and to raise only errors in [X] at the
    pairs of Pod and hierarchy in [ok]; then so is one step above it. *)

Section step.
Context {W : Type} (u : user_code W) (c0 : ApplicationContext W).
Context (Hreg : registry_ok c0) (Huser : user_errors u).
Context (X : pod_error → Prop) (HX : ∀ e, benign e → X e).

Definition same_registry (c : ApplicationContext W) : Prop := registry_of c = registry_of c0.

Abbreviation safe := (triple same_registry).

Lemma user_X e : is_user_error e → X e.
Proof. intros He. apply HX. by destruct e. Qed.

Lemma construct_X p args w e : (construct u p args w).1 = Raise e → X e.
Proof. destruct Huser as (H & _). intros He. eapply user_X, H, He. Qed.
Lemma framework_X i v w e : (set_framework_object u i v w).1 = Raise e → X e.
Proof. destruct Huser as (_ & H & _). intros He. eapply user_X, H, He. Qed.
Lemma post_X pp v w e : (user_post_process u pp v w).1 = Raise e → X e.
Proof. destruct Huser as (_ & _ & _ & H). intros He. eapply user_X, H, He. Qed.

Lemma run_user_safe {A} (f : W → outcome pod_error A * W) :
  (∀ w e, (f w).1 = Raise e → X e) → safe (λ _, True) X (run_user f).
Proof.
  intros Hf c Hc. unfold run_user. specialize (Hf (world c)).
  destruct (f (world c)) as [[a|e] w]; cbn in *; auto.
Qed.

Lemma modify_safe (f : ApplicationContext W → ApplicationContext W) :
  (∀ c, registry_of (f c) = registry_of c) → safe (λ _, True) X (modify f).
Proof. intros Hf. apply triple_modify. intros c Hc. unfold same_registry. by rewrite Hf. Qed.

Lemma same_registry_pods c t : same_registry c → pods_of_type c t = pods_of_type c0 t.
Proof. intros [= _ Ht _ _]. unfold pods_of_type. by rewrite Ht. Qed.

Lemma pods_of_type_registered t p : p ∈ pods_of_type c0 t → registered c0 p.
Proof. destruct Hreg as (_ & _ & H & _). intros Hp. by apply H in Hp as [? _]. Qed.

Lemma resolve_candidate_safe c t n qs is_param requester pth :
  same_registry c →
  safe (λ o, match o with Some p => p ∈ pods_of_type c0 t | None => True end) X
    (lift (__resolve_candidate u c t n qs is_param requester pth)).
Proof.
  intros Hc. apply triple_lift.
  - intros [p|] Hp; [|done]. apply resolve_candidate_selected in Hp as [Hp _].
    + by rewrite <-(same_registry_pods c).
    + intros e. apply named_length.
    + rewrite same_registry_pods by done. apply Hreg.
  - intros e [(b & _ & ->)|(ps & _ & _ & ->)]%resolve_candidate_error; by apply HX.
Qed.

Context (rec : Pod → list type → list PodDependencyPathNode →
               comp (ApplicationContext W) pod_error value).
Context (ok : Pod → list type → Prop).
Context (Hrec : ∀ p H pth, registered c0 p → ok p H → safe (λ _, True) X (rec p H pth)).
Context (Haspect : ∀ p v, aspect_selects u p v = true → ∀ q, registered c0 q → ok q []).

Lemma get_internal_safe t n H pth qs is_param requester :
  (∀ q, q ∈ match t with
            | RType t => pods_of_type c0 t
            | RForward s => match forward_type_map c0 !! s with
                            | Some t => pods_of_type c0 t | None => [] end
            end → ok q H) →
  safe (λ _, True) X (__get_internal u rec t n H pth qs is_param requester).
Proof.
  intros Hok. apply triple_get_state. intros c Hc.
  assert (forward_type_map c = forward_type_map c0) as Hf by by injection Hc.
  destruct t as [t|s]; cbn; [|rewrite Hf; destruct (forward_type_map c0 !! s) as [t|];
    [|by apply triple_ret]].
  all: eapply triple_bind; [by apply resolve_candidate_safe|].
  all: intros [p|] Hp; [|by apply triple_ret].
  all: apply Hrec; [by eapply pods_of_type_registered|auto].
Qed.

Lemma collection_safe d k H pth :
  (∀ q, q ∈ dep_targets c0 d → ok q H) →
  safe (λ _, True) X (__resolve_collection_dependency u rec d k H pth).
Proof.
  intros Hok. apply triple_get_state. intros c Hc.
  destruct (dep_type d) as [t|s] eqn:Ht; [|by apply triple_ret].
  assert (∀ q, q ∈ __resolve_collection_candidates u c t (qualifiers d) → q ∈ pods_of_type c0 t)
    as Hin.
  { intros q. unfold __resolve_collection_candidates. rewrite elem_of_sort_by.
    rewrite same_registry_pods by done. destruct (qualifiers d); [done|].
    by intros [? _]%qualified_elem. }
  destruct (__resolve_collection_candidates u c t (qualifiers d)) as [|p ps];
    [by apply triple_ret|].
  eapply triple_bind; [|intros vs _; by apply triple_ret].
  apply triple_map_comp. intros q Hq%Hin. apply Hrec; [by eapply pods_of_type_registered|].
  apply Hok. unfold dep_targets. by rewrite Ht.
Qed.

Lemma find_safe v : safe (λ _, True) X (find_with u rec (λ p, aspect_selects u p v)).
Proof.
  apply triple_get_state. intros c Hc. eapply triple_bind; [|intros vs _; by apply triple_ret].
  apply triple_map_comp. intros p Hp. rewrite list_elem_of_In, filter_In in Hp.
  destruct Hp as [_ Hsel]. apply get_internal_safe. intros q Hq.
  apply (Haspect _ _ Hsel). by eapply pods_of_type_registered.
Qed.

Lemma set_if_aware_safe i v : safe (λ _, True) X (set_if_aware u i v).
Proof.
  unfold set_if_aware. destruct (isinstance u v i); [|by apply triple_ret].
  apply run_user_safe, framework_X.
Qed.

Lemma add_service_safe v : safe (λ _, True) X (add_service u v).
Proof.
  apply modify_safe. intros c. by destruct (isinstance u v IService), (isinstance u v IAsyncService).
Qed.

Lemma post_process_safe pp v : safe (λ _, True) X (post_process u rec pp v).
Proof.
  destruct pp; cbn.
  - repeat (eapply triple_bind; [apply set_if_aware_safe|intros _ _]). by apply triple_ret.
  - eapply triple_bind; [apply find_safe|]. intros vs _.
    destruct (negb _); by apply triple_ret.
  - assert (∀ i, safe (λ _, True) X (if isinstance u v i then
        run_user (set_framework_object u i v) ;;; add_service u v else ret tt)) as Hs.
    { intros i. destruct (isinstance u v i); [|by apply triple_ret].
      eapply triple_bind; [|intros _ _; apply add_service_safe].
      apply run_user_safe, framework_X. }
    do 2 (eapply triple_bind; [apply Hs|intros _ _]). by apply triple_ret.
  - apply run_user_safe, post_X.
Qed.

Lemma record_safe e : safe (λ _, True) X (__record_post_processing_attempt e).
Proof. apply modify_safe. intros c. by destruct (startup_metrics c). Qed.

Lemma post_process_pod_safe v : safe (λ _, True) X (__post_process_pod u rec v).
Proof.
  apply triple_get_state. intros c _. generalize (post_processors c). intros pps.
  revert v. induction pps as [|pp pps IH]; intros v; cbn; [by apply triple_ret|].
  eapply triple_bind.
  { apply triple_reraise; [apply post_process_safe|]. intros e _. apply record_safe. }
  intros v' _. eapply triple_bind; [apply record_safe|]. intros _ _. apply IH.
Qed.

Lemma instantiate_safe p H pth :
  (type_ p ∉ H → ∀ n d q, (n, d) ∈ dependencies p → q ∈ dep_targets c0 d →
     ok q (H ++ [type_ p])) →
  (type_ p ∈ H → ∀ d, X (CircularDependencyGraphDetectedError (H ++ [type_ p]) d)) →
  safe (λ _, True) X (__instantiate_pod u rec p H pth).
Proof.
  intros Hok Hcirc. unfold __instantiate_pod. case_decide as Hin.
  { apply triple_raise. auto. }
  eapply triple_bind.
  { apply (triple_map_comp _ _ (λ _, True)). intros [n d] Hd. unfold resolve_dependency.
    eapply triple_bind.
    - destruct (collection_kind d).
      + apply collection_safe. intros q Hq. by eapply Hok.
      + apply get_internal_safe. intros q Hq. by eapply Hok.
    - intros v _. destruct (_ && _); [|by apply triple_ret]. by apply triple_raise, HX. }
  intros deps _. eapply triple_bind; [|intros v _; apply post_process_pod_safe].
  apply run_user_safe. intros w e. unfold instantiate.
  destruct (final_dependencies p deps) as [args|e'] eqn:Hf.
  - apply construct_X.
  - cbn. intros [= <-]. apply HX. revert Hf. clear. revert e'.
    induction deps as [|[n v] deps IH]; intros e; cbn; [done|].
    destruct (dict_get n (dependencies p)) as [info|]; [|by intros [= <-]].
    destruct (_ && _); [apply IH|]. destruct (_ && _); [by intros [= <-]|].
    destruct (final_dependencies p deps) as [l|e']; cbn; [done|]. intros [= <-]. by apply IH.
Qed.

Lemma step_safe p H pth :
  (type_ p ∉ H → ∀ n d q, (n, d) ∈ dependencies p → q ∈ dep_targets c0 d →
     ok q (H ++ [type_ p])) →
  (type_ p ∈ H → ∀ d, X (CircularDependencyGraphDetectedError (H ++ [type_ p]) d)) →
  safe (λ _, True) X (get_pod_instance_step u rec p H pth).
Proof.
  intros Hok Hcirc. pose proof (instantiate_safe p H pth Hok Hcirc) as Hi.
  apply triple_get_state. intros c _. destruct (scope p); [|done|].
  all: destruct (cached _ _); [by apply triple_ret|].
  all: eapply triple_bind; [exact Hi|]; intros v _.
  all: eapply triple_bind; [apply modify_safe; done|]; intros _ _; by apply triple_ret.
Qed.
End step.

(** ** Cycles *)

Section cycles.
Context {W : Type} (u : user_code W) (c0 : ApplicationContext W).
Context (Hreg : registry_ok c0) (Huser : user_errors u).

Definition genuine (e : pod_error) : Prop :=
  match e with CircularDependencyGraphDetectedError chain _ => real_cycle c0 chain | _ => True end.

Lemma benign_genuine e : benign e → genuine e.
Proof. by destruct e. Qed.

Lemma get_pod_instance_genuine depth p H pth :
  registered c0 p → linked c0 (H ++ [type_ p]) →
  triple (same_registry c0) (λ _, True) genuine (__get_pod_instance u depth p H pth).
Proof.
  revert p H pth. induction depth as [|depth IH]; intros p H pth Hp Hl; cbn.
  { by apply triple_raise. }
  apply (step_safe u c0 Hreg Huser genuine benign_genuine _ (λ q H, linked c0 (H ++ [type_ q])));
    [auto| | |].
  - intros _ _ _ q _. apply linked_singleton.
  - intros _ n d q Hd Hq. apply linked_snoc; [done|]. exists p, q, n, d. done.
  - intros Hin d. exists H, (type_ p). done.
Qed.

Lemma get_or_none_genuine depth t n :
  triple (same_registry c0) (λ _, True) genuine (get_or_none u depth t n).
Proof.
  apply (get_internal_safe u c0 Hreg genuine benign_genuine _
           (λ q H, linked c0 (H ++ [type_ q]))).
  - intros p H pth. apply get_pod_instance_genuine.
  - intros q _. apply linked_singleton.
Qed.
End cycles.

(** ** Termination *)

Section termination.
Context {W : Type} (u : user_code W) (c0 : ApplicationContext W).
Context (Hreg : registry_ok c0) (Huser : user_errors u).
Context (Hno : ∀ p v, aspect_selects u p v = false).

(** The types a chain [H] has not visited. *)
Definition remaining (H : list type) : nat :=
  length (List.filter (λ t, bool_decide (t ∉ H)) (type_ <$> (pods c0).*2)).

Lemma remaining_bound H : (remaining H ≤ length (pods c0))%nat.
Proof.
  unfold remaining. etrans; [apply filter_length_le|]. by rewrite !length_fmap.
Qed.

Lemma filter_length_lt {A} (f g : A → bool) l x :
  (∀ y, g y = true → f y = true) → x ∈ l → f x = true → g x = false →
  (length (List.filter g l) < length (List.filter f l))%nat.
Proof.
  intros Hfg Hx Hf Hg. induction l as [|y l IH]; [by apply not_elem_of_nil in Hx|].
  assert (length (List.filter g l) ≤ length (List.filter f l))%nat as Hle.
  { clear -Hfg. induction l as [|y l IH]; cbn; [done|]. destruct (g y) eqn:Hy.
    - rewrite (Hfg y Hy). cbn. lia.
    - destruct (f y); cbn; lia. }
  cbn. apply elem_of_cons in Hx as [<-|Hx].
  - rewrite Hf, Hg. cbn. lia.
  - specialize (IH Hx). destruct (g y) eqn:Hy; [rewrite (Hfg y Hy)|destruct (f y)]; cbn; lia.
Qed.

Lemma remaining_decreases p H :
  registered c0 p → type_ p ∉ H → (remaining (H ++ [type_ p]) < remaining H)%nat.
Proof.
  clear Hreg Huser Hno u. intros Hp Hin. apply (filter_length_lt _ _ _ (type_ p)).
  - intros t. rewrite !bool_decide_eq_true. set_solver.
  - apply list_elem_of_fmap. exists p. split; [done|].
    apply list_elem_of_fmap. by exists (name p, p).
  - by apply bool_decide_eq_true.
  - apply bool_decide_eq_false. set_solver.
Qed.

Definition not_recursion (e : pod_error) : Prop := e ≠ RecursionError.

Lemma benign_not_recursion e : benign e → not_recursion e.
Proof. by destruct e. Qed.

Lemma get_pod_instance_terminates depth p H pth :
  registered c0 p → (remaining H < depth)%nat →
  triple (same_registry c0) (λ _, True) not_recursion (__get_pod_instance u depth p H pth).
Proof.
  revert p H pth. induction depth as [|depth IH]; intros p H pth Hp Hd; [lia|]. cbn.
  apply (step_safe u c0 Hreg Huser not_recursion benign_not_recursion _
           (λ q H, registered c0 q ∧ (remaining H < depth)%nat)).
  - intros q H' pth' _ [??]. by apply IH.
  - intros q v Hs. by rewrite Hno in Hs.
  - intros Hin n d q _ Hq. split.
    + unfold dep_targets in Hq. destruct (dep_type d) as [t|s].
      * by eapply pods_of_type_registered.
      * destruct (forward_type_map c0 !! s); [by eapply pods_of_type_registered|].
        by apply not_elem_of_nil in Hq.
    + pose proof (remaining_decreases p H Hp Hin). lia.
  - done.
Qed.

Lemma get_or_none_terminates depth t n :
  (length (pods c0) < depth)%nat →
  triple (same_registry c0) (λ _, True) not_recursion (get_or_none u depth t n).
Proof.
  intros Hd. apply (get_internal_safe u c0 Hreg not_recursion benign_not_recursion _
    (λ q H, registered c0 q ∧ H = [])).
  - intros p H pth _ [? ->]. apply get_pod_instance_terminates; [done|].
    pose proof (remaining_bound []). lia.
  - intros q Hq. split; [|done]. by eapply pods_of_type_registered.
Qed.
End termination.

(** ** Completeness

    A wiring is complete when every dependency of every registered Pod has one
    candidate, or at least one for a collection, or may stay without. User code is
    reliable when it does not raise and makes objects. *)

Section complete.
Context {W : Type}.
Implicit Types (u : user_code W) (c : ApplicationContext W).

Definition may_be_missing (d : DependencyInfo) : Prop := has_default d || is_optional_dep d = true.
Definition requested_type c (d : DependencyInfo) : option type :=
  match dep_type d with RType t => Some t | RForward s => forward_type_map c !! s end.
Definition dependency_met u c (p : Pod) (n : string) (d : DependencyInfo) : Prop :=
  match collection_kind d with
  | None =>
      match requested_type c d with
      | None => may_be_missing d
      | Some t => ∃ o, (∀ pth, __resolve_candidate u c t (Some n) (qualifiers d) true (Some p) pth = Ok o) ∧
                       (o = None → may_be_missing d)
      end
  | Some _ =>
      may_be_missing d ∨
      match dep_type d with
      | RType t => __resolve_collection_candidates u c t (qualifiers d) ≠ []
      | RForward _ => False
      end
  end.
Definition complete_wiring u c : Prop :=
  ∀ p, registered c p →
    NoDup (dependencies p).*1 ∧ ∀ n d, (n, d) ∈ dependencies p → dependency_met u c p n d.

Definition reliable u : Prop :=
  (∀ p args w, ∃ v, (construct u p args w).1 = Ok v ∧ is_none v = false) ∧
  (∀ i v w, (set_framework_object u i v w).1 = Ok tt) ∧
  (∀ pp v w, is_none v = false → ∃ v', (user_post_process u pp v w).1 = Ok v' ∧ is_none v' = false).
End complete.

Section success.
Context {W : Type} (u : user_code W) (c0 : ApplicationContext W).
Context (Hreg : registry_ok c0) (Huser : reliable u) (Hno : ∀ p v, aspect_selects u p v = false).
Context (Hwired : complete_wiring u c0).

Definition an_object (v : value) : Prop := is_none v = false.
Abbreviation succeeds Q := (triple (same_registry c0) Q (λ _ : pod_error, False)).

Lemma resolve_candidate_registry c t n qs is_param requester pth :
  same_registry c0 c → __resolve_candidate u c t n qs is_param requester pth = __resolve_candidate u c0 t n qs is_param requester pth.
Proof.
  intros [= Hp Ht Hb Hf]. unfold __resolve_candidate, __resolve_binding_candidate, pods_of_type. by rewrite Ht, Hb.
Qed.
Lemma collection_candidates_registry c t qs :
  same_registry c0 c → __resolve_collection_candidates u c t qs = __resolve_collection_candidates u c0 t qs.
Proof. intros Hc. unfold __resolve_collection_candidates. by rewrite (same_registry_pods c0). Qed.

Lemma run_user_succeeds {A} (Q : A → Prop) (f : W → outcome pod_error A * W) :
  (∀ w, ∃ a, (f w).1 = Ok a ∧ Q a) → succeeds Q (run_user f).
Proof.
  intros Hf c Hc. unfold run_user. destruct (Hf (world c)) as (a & Ha & HQ).
  destruct (f (world c)) as [o w]; cbn in *; subst o. done.
Qed.
Lemma modify_succeeds (f : ApplicationContext W → ApplicationContext W) :
  (∀ c, registry_of (f c) = registry_of c) → succeeds (λ _, True) (modify f).
Proof. intros Hf. apply triple_modify. intros c Hc. unfold same_registry. by rewrite Hf. Qed.
Lemma framework_succeeds i v : succeeds (λ _, True) (run_user (set_framework_object u i v)).
Proof. apply run_user_succeeds. intros w. exists tt. split; [apply Huser|done]. Qed.

Lemma post_process_succeeds rec pp v : an_object v → succeeds an_object (post_process u rec pp v).
Proof.
  intros Hv. assert (∀ i, succeeds (λ _, True) (set_if_aware u i v)) as Haware.
  { intros i. unfold set_if_aware. destruct (isinstance u v i); [apply framework_succeeds|by apply triple_ret]. }
  assert (∀ i, succeeds (λ _, True) (if isinstance u v i then
      run_user (set_framework_object u i v) ;;; add_service u v else ret tt)) as Hservice.
  { intros i. destruct (isinstance u v i); [|by apply triple_ret].
    eapply triple_bind; [apply framework_succeeds|]. intros _ _. apply modify_succeeds. intros c.
    by destruct (isinstance u v IService), (isinstance u v IAsyncService). }
  destruct pp; cbn.
  - repeat (eapply triple_bind; [apply Haware|intros _ _]). by apply triple_ret.
  - unfold AspectPostProcessor_post_process. eapply (triple_bind _ _ (λ _, True)).
    + apply triple_get_state. intros c _. assert (List.filter (λ p, aspect_selects u p v) (snd <$> pods c) = []) as ->.
      { generalize (snd <$> pods c). intros l. induction l as [|q l IH]; [done|]. cbn. by rewrite Hno. }
      cbn. by apply (triple_bind _ _ (λ _, True)); [apply triple_ret|intros; apply triple_ret].
    + intros vs _. by destruct (negb _); apply triple_ret.
  - do 2 (eapply triple_bind; [apply Hservice|intros _ _]). by apply triple_ret.
  - apply run_user_succeeds. intros w. destruct Huser as (_ & _ & H). by apply H.
Qed.
Lemma post_process_pod_succeeds rec v : an_object v → succeeds an_object (__post_process_pod u rec v).
Proof.
  intros Hv. apply triple_get_state. intros c _. generalize (post_processors c). intros pps.
  revert v Hv. induction pps as [|pp pps IH]; intros v Hv; cbn; [by apply triple_ret|].
  eapply triple_bind; [apply triple_reraise; [by apply post_process_succeeds|done]|].
  intros v' Hv'. eapply triple_bind; [apply modify_succeeds; intros c'; by destruct (startup_metrics c')|].
  intros _ _. by apply IH.
Qed.

Lemma final_dependencies_met p deps :
  NoDup (dependencies p).*1 →
  Forall (λ '(n, v), ∃ d, (n, d) ∈ dependencies p ∧ (is_none v = true → may_be_missing d)) deps →
  ∃ args, final_dependencies p deps = Ok args.
Proof.
  intros Hnd. induction 1 as [|[n v] deps (d & Hd & Hv) _ [args IH]]; [by eexists|]. cbn.
  rewrite (dict_get_NoDup n d) by done. rewrite IH. cbn. unfold may_be_missing in Hv.
  destruct (is_none v), (has_default d), (is_optional_dep d); cbn in *; eauto. by specialize (Hv eq_refl).
Qed.

Context (rec : Pod → list type → list PodDependencyPathNode → comp (ApplicationContext W) pod_error value).
Context (ok : Pod → list type → Prop).
Context (Hrec : ∀ p H pth, registered c0 p → ok p H → succeeds an_object (rec p H pth)).

Lemma resolve_dependency_succeeds p H pth n d :
  registered c0 p → (n, d) ∈ dependencies p → (∀ q, q ∈ dep_targets c0 d → ok q H) →
  succeeds (λ '(n, v), ∃ d, (n, d) ∈ dependencies p ∧ (is_none v = true → may_be_missing d))
    (resolve_dependency u rec p H pth (n, d)).
Proof.
  intros Hp Hd Hok. destruct (Hwired p Hp) as [_ Hmet]. specialize (Hmet n d Hd). unfold resolve_dependency.
  set (path := pth ++ _). clearbody path.
  eapply (triple_bind _ _ (λ v, is_none v = true → may_be_missing d)).
  - unfold dependency_met in Hmet. destruct (collection_kind d) as [k|] eqn:Hk.
    + apply triple_get_state. intros c Hc. unfold dep_targets in Hok. destruct (dep_type d) as [t|f].
      * rewrite collection_candidates_registry by done.
        assert (∀ q, q ∈ __resolve_collection_candidates u c0 t (qualifiers d) → q ∈ pods_of_type c0 t) as Hin.
        { intros q. unfold __resolve_collection_candidates. rewrite elem_of_sort_by.
          destruct (qualifiers d); [done|]. by intros [? _]%qualified_elem. }
        destruct (__resolve_collection_candidates u c0 t (qualifiers d)) as [|q qs]; [apply triple_ret; by destruct Hmet|].
        eapply triple_bind; [|intros vs _; apply triple_ret; by destruct k].
        apply (triple_map_comp _ _ an_object). intros q' Hq'%Hin. apply Hrec; [by eapply pods_of_type_registered|auto].
      * apply triple_ret. by destruct Hmet.
    + apply triple_get_state. intros c Hc. unfold requested_type in Hmet.
      assert (forward_type_map c = forward_type_map c0) as Hf by by injection Hc.
      rewrite Hf. unfold dep_targets in Hok.
      destruct (dep_type d) as [t|f]; [|destruct (forward_type_map c0 !! f) as [t|]; [|by apply triple_ret]].
      all: destruct Hmet as (o & Ho & Hnone).
      all: eapply (triple_bind _ _ (λ o', o' = o ∧ match o' with Some q => q ∈ pods_of_type c0 t | None => True end)).
      1, 3: apply triple_lift; rewrite resolve_candidate_registry, Ho by done; [|done]; intros q' [= <-]; split; [done|];
        destruct o as [q|]; [|done]; specialize (Ho []); apply resolve_candidate_selected in Ho as [Ho _];
        [done|intros e'; apply named_length|apply Hreg].
      all: intros o' [-> Hq]; destruct o as [q|]; [|apply triple_ret; auto].
      all: eapply triple_weaken; [apply Hrec; [by eapply pods_of_type_registered|auto]|].
      all: intros v Hv Hv'; unfold an_object in Hv; congruence.
  - intros v Hv. destruct (is_none v) eqn:Hn; cbn [andb]; [|apply triple_ret; exists d; by split; [|rewrite Hn]].
    specialize (Hv eq_refl). unfold may_be_missing in Hv.
    assert (negb (has_default d) && negb (is_optional_dep d) = false) as ->
      by by destruct (has_default d), (is_optional_dep d).
    apply triple_ret. by exists d.
Qed.

Lemma instantiate_succeeds p H pth :
  registered c0 p → type_ p ∉ H →
  (∀ n d q, (n, d) ∈ dependencies p → q ∈ dep_targets c0 d → ok q (H ++ [type_ p])) →
  succeeds an_object (__instantiate_pod u rec p H pth).
Proof.
  intros Hp Hin Hok. unfold __instantiate_pod. rewrite decide_False by done.
  eapply triple_bind.
  { apply (triple_map_comp _ _ (λ '(n, v), ∃ d, (n, d) ∈ dependencies p ∧ (is_none v = true → may_be_missing d))).
    intros [n d] Hd. apply resolve_dependency_succeeds; [done|done|]. intros q. by apply (Hok n). }
  intros deps Hdeps. eapply triple_bind; [|intros v Hv; by apply post_process_pod_succeeds].
  apply run_user_succeeds. intros w. unfold instantiate.
  destruct (final_dependencies_met p deps) as [args ->]; [apply (Hwired p Hp)|done|].
  destruct Huser as (Hc & _). apply Hc.
Qed.

Lemma step_succeeds p H pth :
  registered c0 p → type_ p ∉ H →
  (∀ n d q, (n, d) ∈ dependencies p → q ∈ dep_targets c0 d → ok q (H ++ [type_ p])) →
  succeeds an_object (get_pod_instance_step u rec p H pth).
Proof.
  intros Hp Hin Hok. pose proof (instantiate_succeeds p H pth Hp Hin Hok) as Hi.
  assert (∀ m n v, cached m n = Some v → an_object v) as Hcached.
  { intros m n v. unfold cached. destruct (m !! n) as [v'|]; [|done]. destruct (is_none v') eqn:Hv; [done|]. by intros [= <-]. }
  apply triple_get_state. intros c _. destruct (scope p); [|done|].
  all: destruct (cached _ _) eqn:Hc; [apply triple_ret; by eapply Hcached|].
  all: eapply triple_bind; [exact Hi|]; intros v Hv.
  all: eapply triple_bind; [apply modify_succeeds; done|]; intros _ _; by apply triple_ret.
Qed.
End success.

Section resolves.
Context {W : Type} (u : user_code W) (c0 : ApplicationContext W) (rank : type → nat).
Context (Hreg : registry_ok c0) (Huser : reliable u) (Hno : ∀ p v, aspect_selects u p v = false).
Context (Hwired : complete_wiring u c0) (Hrank : ∀ a b, depends c0 a b → (rank b < rank a)%nat).

Lemma get_pod_instance_succeeds depth p H pth :
  registered c0 p → (∀ t, t ∈ H → (rank (type_ p) < rank t)%nat) → (remaining c0 H < depth)%nat →
  triple (same_registry c0) an_object (λ _, False) (__get_pod_instance u depth p H pth).
Proof.
  revert p H pth. induction depth as [|depth IH]; intros p H pth Hp HH Hd; [lia|]. cbn.
  assert (type_ p ∉ H) as Hin by (intros Hin%HH; lia).
  apply (step_succeeds u c0 Hreg Huser Hno Hwired _
    (λ q H, registered c0 q ∧ (∀ t, t ∈ H → (rank (type_ q) < rank t)%nat) ∧ (remaining c0 H < depth)%nat)); [|done|done|].
  - intros q H' pth' _ (? & ? & ?). by apply IH.
  - intros n d q Hnd Hq.
    assert (rank (type_ q) < rank (type_ p))%nat as Hlt by (apply Hrank; by exists p, q, n, d).
    split; [|split].
    + unfold dep_targets in Hq. destruct (dep_type d) as [t|s].
      * by eapply pods_of_type_registered.
      * destruct (forward_type_map c0 !! s); [by eapply pods_of_type_registered|]. by apply not_elem_of_nil in Hq.
    + intros t [Ht%HH| ->%list_elem_of_singleton]%elem_of_app; lia.
    + pose proof (remaining_decreases c0 p H Hp Hin). lia.
Qed.
End resolves.

(** ** Invariants of the recursion

    An invariant that user code, the registration of services and the metrics
    keep is kept by everything around the caches. *)

Section preservation.
Context {W : Type} (u : user_code W) (I : ApplicationContext W → Prop).
Context (Hworld : ∀ c w, I c → I (set_world c w)).
Context (Hmetrics : ∀ c m, I c → I (set_startup_metrics c m)).
Context (Hadd : ∀ v, preserves I (add_service u v)).

Lemma run_user_preserves {A} (f : W → outcome pod_error A * W) : preserves I (run_user f).
Proof. intros c Hc. unfold run_user. destruct (f (world c)) as [r w]. by apply Hworld. Qed.

Lemma record_preserves e : preserves I (__record_post_processing_attempt e).
Proof. apply preserves_modify. intros c Hc. destruct (startup_metrics c); [by apply Hmetrics|done]. Qed.

Lemma get_state_preserves : preserves I (@get_state _ pod_error).
Proof. by intros c. Qed.

Local Hint Resolve run_user_preserves record_preserves get_state_preserves : preserves.

Section one_step.
Context (rec : Pod → list type → list PodDependencyPathNode →
               comp (ApplicationContext W) pod_error value).
Context (Hrec : ∀ p H pth, preserves I (rec p H pth)).

Lemma get_internal_preserves t n H pth qs b rq :
  preserves I (__get_internal u rec t n H pth qs b rq).
Proof. unfold __get_internal. preserves_tac; apply Hrec. Qed.

Lemma find_preserves f : preserves I (find_with u rec f).
Proof. unfold find_with. preserves_tac; apply get_internal_preserves. Qed.

Lemma post_process_preserves pp v : preserves I (post_process u rec pp v).
Proof.
  destruct pp; cbn.
  - unfold ApplicationContextAwareProcessor_post_process, set_if_aware. preserves_tac.
  - unfold AspectPostProcessor_post_process. preserves_tac; apply find_preserves.
  - unfold ServicePostProcessor_post_process. preserves_tac.
  - preserves_tac.
Qed.

Lemma post_process_pod_preserves v : preserves I (__post_process_pod u rec v).
Proof.
  unfold __post_process_pod. apply preserves_bind; [apply get_state_preserves|]. intros c.
  generalize (post_processors c). intros pps. revert v.
  induction pps as [|pp pps IH]; intros v; cbn; [apply preserves_ret|].
  apply preserves_bind; [|intros v'; apply preserves_bind; [apply record_preserves|intros _; apply IH]].
  apply preserves_try_except; [apply post_process_preserves|].
  intros e k [= <-]. preserves_tac.
Qed.

Lemma instantiate_preserves p H pth : preserves I (__instantiate_pod u rec p H pth).
Proof.
  unfold __instantiate_pod. case_decide; [apply preserves_raise|].
  apply preserves_bind; [|intros deps; apply preserves_bind;
    [apply run_user_preserves|intros v; apply post_process_pod_preserves]].
  apply preserves_map_comp. intros [n d]. unfold resolve_dependency.
  apply preserves_bind; [|intros v; preserves_tac].
  destruct (collection_kind d); [|apply get_internal_preserves].
  unfold __resolve_collection_dependency. preserves_tac; apply Hrec.
Qed.
End one_step.

Context (Hsingleton : ∀ c m, I c → I (set_singleton_cache c m)).
Context (Hcontext : ∀ c m, I c → I (set_context_cache c m)).

Lemma get_pod_instance_preserves depth p H pth :
  preserves I (__get_pod_instance u depth p H pth).
Proof.
  revert p H pth. induction depth as [|depth IH]; intros p H pth; cbn; [apply preserves_raise|].
  pose proof (instantiate_preserves _ IH p H pth) as Hi.
  unfold get_pod_instance_step. apply preserves_bind; [apply get_state_preserves|]. intros c.
  destruct (scope p); [|done|]; destruct (cached _ _); try apply preserves_ret.
  all: apply preserves_bind; [done|]; intros v.
  all: apply preserves_bind; [apply preserves_modify; auto|]; intros _; apply preserves_ret.
Qed.

Lemma get_or_none_preserves depth t n : preserves I (get_or_none u depth t n).
Proof. apply get_internal_preserves, get_pod_instance_preserves. Qed.

Lemma find_all_preserves depth f : preserves I (find u depth f).
Proof. apply find_preserves, get_pod_instance_preserves. Qed.
End preservation.

(** ** One instance per singleton *)

Section singletons.
Context {W : Type} (u : user_code W).
Implicit Types c : ApplicationContext W.

(** What [m0] caches is still cached. *)
Definition cache_kept (m0 : gmap string value) c : Prop :=
  ∀ k v, cached m0 k = Some v → cached (singleton_cache c) k = Some v.

Lemma cached_empty k : cached ∅ k = None.
Proof. unfold cached. by rewrite lookup_empty. Qed.

Lemma cached_insert_ne (m : gmap string value) k k' v :
  k ≠ k' → cached (<[k' := v]> m) k = cached m k.
Proof. intros Hk. unfold cached. by rewrite lookup_insert_ne. Qed.

Lemma cached_insert_eq (m : gmap string value) k v :
  is_none v = false → cached (<[k := v]> m) k = Some v.
Proof. intros Hv. unfold cached. by rewrite lookup_insert_eq, Hv. Qed.

Definition kept_invariant m0 r c : Prop := cache_kept m0 c ∧ registry_of c = r.

Lemma add_service_kept m0 r v : preserves (kept_invariant m0 r) (add_service u v).
Proof.
  apply preserves_modify. intros c [Hk Hr].
  by destruct (isinstance u v IService), (isinstance u v IAsyncService).
Qed.

Section kept_step.
Context (m0 : gmap string value) (r : list (string * Pod) * gmap type (list Pod) *
           gmap type PodBinding * gmap string type).
Context (rec : Pod → list type → list PodDependencyPathNode →
               comp (ApplicationContext W) pod_error value).
Context (Hrec : ∀ p H pth, preserves (kept_invariant m0 r) (rec p H pth)).

(** The cache is written only where it held nothing. *)
Lemma step_kept p H pth : preserves (kept_invariant m0 r) (get_pod_instance_step u rec p H pth).
Proof.
  assert (preserves (kept_invariant m0 r) (__instantiate_pod u rec p H pth)) as Hi
    by (apply instantiate_preserves; [done..|apply add_service_kept|done]).
  intros c Hc. unfold get_pod_instance_step. cbn. destruct (scope p); cbn.
  - destruct (cached (singleton_cache c) (name p)) as [v|] eqn:Hp; [done|].
    unfold bind. specialize (Hi c Hc).
    destruct (__instantiate_pod u rec p H pth c) as [[v|e] c1]; [|done].
    cbn in *. destruct Hi as [Hk Hr]. split; [|done]. intros k v' Hv'. cbn.
    destruct (decide (k = name p)) as [->|Hne].
    + destruct Hc as [Hk0 _]. apply Hk0 in Hv'. congruence.
    + rewrite cached_insert_ne by done. by apply Hk.
  - by apply Hi.
  - destruct (cached (context_cache c) (name p)) as [v|]; [done|].
    unfold bind. specialize (Hi c Hc).
    by destruct (__instantiate_pod u rec p H pth c) as [[v|e] c1].
Qed.
End kept_step.

Lemma get_pod_instance_kept m0 r depth p H pth :
  preserves (kept_invariant m0 r) (__get_pod_instance u depth p H pth).
Proof.
  revert p H pth. induction depth as [|depth IH]; intros p H pth; cbn.
  - apply preserves_raise.
  - by apply step_kept.
Qed.

Lemma get_kept m0 r depth t n : preserves (kept_invariant m0 r) (get u depth t n).
Proof.
  unfold get, get_or_none. apply preserves_bind; [|intros v; preserves_tac].
  apply get_internal_preserves. apply get_pod_instance_kept.
Qed.

(** Lookups made one after the other, errors caught. *)
Definition after_lookups (ops : list (nat * type * option string)) c : ApplicationContext W :=
  foldl (λ c op, (get u op.1.1 op.1.2 op.2 c).2) c ops.

Lemma after_lookups_kept m0 r ops c :
  kept_invariant m0 r c → kept_invariant m0 r (after_lookups ops c).
Proof.
  unfold after_lookups. revert c. induction ops as [|op ops IH]; intros c Hc; [done|].
  apply IH. by apply get_kept.
Qed.

Definition resolved c t n : outcome pod_error (option Pod) :=
  __resolve_candidate u c t n [] false None [].

Lemma resolved_registry c c' t n : registry_of c' = registry_of c → resolved c' t n = resolved c t n.
Proof.
  intros [= Hp Ht Hb Hf]. unfold resolved, __resolve_candidate, __resolve_binding_candidate,
    pods_of_type. by rewrite Ht, Hb.
Qed.

Lemma get_Ok depth t n c v c' :
  get u depth t n c = (Ok v, c') →
  is_none v = false ∧ ∃ p, resolved c t n = Ok (Some p) ∧
    __get_pod_instance u depth p [] [] c = (Ok v, c').
Proof.
  unfold get, get_or_none. intros (v1 & c1 & H & Hv)%bind_Ok_inv.
  destruct (is_none v1) eqn:Hn; [done|]. injection Hv as -> ->. split; [done|].
  unfold __get_internal, bind, get_state, lift in H. fold (resolved c t n) in H.
  destruct (resolved c t n) as [[p|]|e]; [eauto| |done]. injection H as <- _. done.
Qed.

Lemma get_of_cached depth t n c p v :
  resolved c t n = Ok (Some p) → scope p = SINGLETON →
  cached (singleton_cache c) (name p) = Some v → (0 < depth)%nat →
  get u depth t n c = (Ok v, c).
Proof.
  intros Hp Hs Hc Hd. destruct depth as [|depth]; [lia|].
  assert (is_none v = false) as Hn.
  { unfold cached in Hc. destruct (singleton_cache c !! name p) as [v'|]; [|done].
    destruct (is_none v') eqn:Hv'; [done|]. by injection Hc as <-. }
  unfold get, get_or_none, __get_internal, bind, get_state, lift.
  fold (resolved c t n). rewrite Hp. cbn. unfold get_pod_instance_step, bind, get_state.
  rewrite Hs, Hc. cbn. by rewrite Hn.
Qed.

Lemma get_caches depth t n c v c' p :
  get u depth t n c = (Ok v, c') → resolved c t n = Ok (Some p) → scope p = SINGLETON →
  cached (singleton_cache c') (name p) = Some v ∧ registry_of c' = registry_of c.
Proof.
  intros Hget Hp Hs. pose proof (get_kept (singleton_cache c) (registry_of c) depth t n c) as Hk.
  rewrite Hget in Hk. destruct Hk as [_ Hr]; [by split; [intros k|]|]. cbn in Hr.
  split; [|done]. apply get_Ok in Hget as (Hn & p' & Hp' & Hi).
  rewrite Hp in Hp'. injection Hp' as <-. destruct depth as [|depth]; [done|]. cbn in Hi.
  unfold get_pod_instance_step, bind, get_state in Hi. rewrite Hs in Hi.
  destruct (cached (singleton_cache c) (name p)) as [v0|] eqn:Hc0.
  - by injection Hi as -> ->.
  - destruct (__instantiate_pod _ _ _ _ _ _) as [[v1|] c1]; [|done]. cbn in Hi.
    injection Hi as -> <-. cbn. by apply cached_insert_eq.
Qed.
End singletons.

(** ** Registrations *)

Lemma new_context_ok {W} r (w : W) : registry_ok (new_context r w).
Proof.
  split_and!; cbn.
  - constructor.
  - intros n p Hp. by apply not_elem_of_nil in Hp.
  - intros t p. unfold pods_of_type. cbn. rewrite lookup_empty. set_solver.
  - intros t. unfold pods_of_type. cbn. rewrite lookup_empty. constructor.
Qed.

Lemma adds_registry_ok {W} (u : user_code W) objs c :
  registry_ok c → registry_ok (foldl (λ c obj, (add u obj c).2) c objs).
Proof.
  revert c. induction objs as [|obj objs IH]; intros c Hc; [done|].
  apply IH. exact (add_registry_ok u obj c Hc).
Qed.

(** ** Properties *)

(** Candidate resolution follows one precedence: qualifiers decide first
    and alone; then an explicit name; then a binding of the requested type;
    then the only candidate; then the only primary one; then, for a dependency
    and without primary candidates, the one named like the parameter. Nothing
    is resolved only when no candidate is left by the type, the qualifiers or
    the explicit name, and an error is a binding without target or an ambiguity
    between at least two candidates. *)
Theorem resolve_candidate_precedence {W} (u : user_code W) c t n qs is_param requester pth :
  registry_ok c →
  match __resolve_candidate u c t n qs is_param requester pth with
  | Ok (Some p) => selected u c t n qs is_param p
  | Ok None =>
      pods_of_type c t = [] ∨
      (qs ≠ [] ∧ qualified u qs (pods_of_type c t) = []) ∨
      (qs = [] ∧ ∃ e, explicit_name n is_param = Some e ∧ e ∉ name <$> pods_of_type c t)
  | Raise e =>
      (∃ b, bindings c !! t = Some b ∧ e = NoSuchPodBindingTargetError b) ∨
      (∃ ps, (2 ≤ length ps)%nat ∧ (∀ p, p ∈ ps → p ∈ pods_of_type c t) ∧
         e = no_unique u t n requester pth ps)
  end.
Proof.
  intros (_ & _ & _ & Hnd).
  destruct (__resolve_candidate u c t n qs is_param requester pth) as [[p|]|e] eqn:H.
  - apply (resolve_candidate_selected _ _ _ _ _ _ requester pth); [|done..].
    intros e. apply named_length.
  - by eapply resolve_candidate_none.
  - by eapply resolve_candidate_error.
Qed.

(** C2. A singleton has one instance: after a lookup that returned it, and
    whatever lookups are made in between (failing ones included), the same
    lookup returns the same object and changes nothing. *)
Theorem singleton_identity {W} (u : user_code W) depth t n c v c' p ops depth' :
  get u depth t n c = (Ok v, c') →
  __resolve_candidate u c t n [] false None [] = Ok (Some p) →
  scope p = SINGLETON → (0 < depth')%nat →
  get u depth' t n (after_lookups u ops c') = (Ok v, after_lookups u ops c').
Proof.
  intros Hget Hp Hs Hd. destruct (get_caches u depth t n c v c' p Hget Hp Hs) as [Hc Hr].
  destruct (after_lookups_kept u (singleton_cache c') (registry_of c') ops c') as [Hk Hr'].
  { by split; [intros k|]. }
  apply get_of_cached with p; [|done| |done].
  - rewrite (resolved_registry u c' (after_lookups u ops c')) by done.
    by rewrite (resolved_registry u c c').
  - by apply Hk.
Qed.

(** C15. Resolution terminates: without aspects, a recursion as deep as the
    number of registered Pods plus one is enough for every lookup, whatever the
    shape of the dependency graph. *)
Theorem get_terminates {W} (u : user_code W) c depth t n :
  registry_ok c → user_errors u → (∀ p v, aspect_selects u p v = false) →
  (length (pods c) < depth)%nat →
  (get u depth t n c).1 ≠ Raise RecursionError.
Proof.
  intros Hreg Huser Hno Hd.
  destruct (get_or_none_terminates u c Hreg Huser Hno depth t n Hd c eq_refl) as [_ H].
  unfold get, bind. destruct (get_or_none u depth t n c) as [[v|e] c']; cbn in *.
  - by destruct (is_none v).
  - congruence.
Qed.

(** A circularity error is never spurious: the chain it reports is a path
    of the dependency graph of the registered Pods that ends in a type it has
    already visited. *)
Theorem circular_error_genuine {W} (u : user_code W) c depth t n chain d :
  registry_ok c → user_errors u →
  (get u depth t n c).1 = Raise (CircularDependencyGraphDetectedError chain d) →
  real_cycle c chain.
Proof.
  intros Hreg Huser H.
  destruct (get_or_none_genuine u c Hreg Huser depth t n c eq_refl) as [_ Hg].
  unfold get, bind in H. destruct (get_or_none u depth t n c) as [[v|e] c']; cbn in *.
  - by destruct (is_none v).
  - by injection H as ->.
Qed.


(** Registration keeps the registry consistent: in every context reached
    from a new one by registrations (refused ones included), names are unique
    and the type index holds, under each type, exactly the registered Pods of
    that family, once each. *)
Theorem registrations_consistent {W} (u : user_code W) r (w : W) objs :
  registry_ok (foldl (λ c obj, (add u obj c).2) (new_context r w) objs).
Proof.
  apply adds_registry_ok, new_context_ok.
Qed.

(** Context-scoped Pods and context values share one dictionary: after
    [set_context_value] under the name of a context-scoped Pod, looking the Pod
    up returns the stored value and never constructs the Pod. *)
Theorem context_value_shadows_pod {W} (u : user_code W) c t n p depth v :
  __resolve_candidate u c t n [] false None [] = Ok (Some p) →
  scope p = CONTEXT → name p ≠ CONTEXT_ID → is_none v = false →
  let c' := (set_context_value (name p) v c).2 in
  get u (S depth) t n c' = (Ok v, c').
Proof.
  intros Hp Hs Hid Hv c'. subst c'. unfold set_context_value. rewrite decide_False by done. cbn.
  set (c' := set_context_cache _ _).
  unfold get, get_or_none, __get_internal, bind, get_state, lift.
  change (__resolve_candidate u c' t n [] false None []) with (resolved u c' t n).
  rewrite (resolved_registry u c c') by done. unfold resolved. rewrite Hp. cbn.
  unfold get_pod_instance_step, bind, get_state. rewrite Hs.
  rewrite cached_insert_eq by done.
  cbn. by rewrite Hv.
Qed.

(** [contains(type, name)] ignores the type: for a registered name it
    answers true for every type, also for one whose lookup under that name
    raises [NoSuchPodError]. *)
Theorem contains_ignores_type {W} (u : user_code W) c t n depth :
  n ∈ (pods c).*1 → n ∉ name <$> pods_of_type c t →
  contains c t (Some n) = true ∧
  get u depth t (Some n) c = (Raise (NoSuchPodError t (Some n)), c).
Proof.
  intros Hn Ht. split.
  - unfold contains, dict_has. destruct (dict_get n (pods c)) eqn:Hd; [done|].
    by apply dict_get_None in Hd.
  - unfold get, get_or_none, __get_internal, bind, get_state, lift.
    assert (__resolve_candidate u c t (Some n) [] false None [] = Ok None) as ->; [|done].
    unfold __resolve_candidate. destruct (pods_of_type c t) as [|p ps] eqn:Hp; [done|].
    rewrite <-Hp in *. by rewrite (proj2 (named_nil _ _) Ht).
Qed.

(** ** Witnesses

    A world that counts constructions; a repository, a service that needs it,
    and an aspect that needs the repository its own pointcut selects. *)

Definition ex_user (aspects : Pod → value → bool) : user_code nat :=
  mk_user_code nat
    (λ p args w, (Ok (VObj w), S w)) (λ t, t) (λ q p, true) (λ v i, false)
    (λ i v w, (Ok tt, w)) (λ o v w, (Ok tt, w)) aspects (λ v, None)
    (λ pp v w, (Ok v, w)) (λ l, l) (λ w, (VStr "uuid", w)).

Definition ex_pod (i : nat) (n t : string) (sc : Scope) (deps : DependencyMap) : Pod :=
  mk_pod i n sc t ["object"] (ClassTarget t None) deps false false.
Definition ex_dep (n t : string) : string * DependencyInfo :=
  (n, mk_dependency n (RType t) false false [] None).

Definition ex_repo : Pod := ex_pod 0 "repo" "Repo" SINGLETON [].
Definition ex_service : Pod := ex_pod 1 "service" "Service" SINGLETON [ex_dep "repo" "Repo"].
Definition ex_request : Pod := ex_pod 2 "request" "Request" CONTEXT [].
Definition ex_aspect : Pod := ex_pod 3 "audit" "Audit" SINGLETON [ex_dep "repo" "Repo"].
Definition ex_loop : Pod := ex_pod 4 "loop" "Loop" SINGLETON [ex_dep "self" "Loop"].

Definition no_aspects (p : Pod) (v : value) : bool := false.
Definition ex_context (ps : list Pod) : ApplicationContext nat :=
  foldl (λ c obj, (add (ex_user no_aspects) obj c).2) (new_context None 0%nat) (Some <$> ps).

Lemma ex_context_ok ps : registry_ok (ex_context ps).
Proof. apply adds_registry_ok, new_context_ok. Qed.

Lemma ex_user_errors f : user_errors (ex_user f).
Proof. by split_and!. Qed.

Definition ex_registered : ApplicationContext nat := ex_context [ex_repo; ex_service; ex_request].

Lemma resolve_candidate_precedence_witness :
  registry_ok ex_registered ∧
  selected (ex_user no_aspects) ex_registered "object" (Some "repo") [] false ex_repo.
Proof.
  split; [apply ex_context_ok|].
  exact (resolve_candidate_precedence (ex_user no_aspects) ex_registered "object" (Some "repo")
           [] false None [] (ex_context_ok _)).
Defined.

Lemma singleton_identity_witness :
  let u := ex_user no_aspects in
  let c' := (get u 4 "Service" None ex_registered).2 in
  (get u 4 "Service" None ex_registered).1 = Ok (VObj 1) ∧
  get u 1 "Service" None (after_lookups u [(4, "Repo", None)] c')
    = (Ok (VObj 1), after_lookups u [(4, "Repo", None)] c').
Proof.
  cbv zeta. split; [vm_compute; reflexivity|].
  apply (singleton_identity (ex_user no_aspects) 4 "Service" None ex_registered (VObj 1) _
           ex_service); [|vm_compute; reflexivity|reflexivity|lia].
  apply pair_fst_eq. vm_compute. reflexivity.
Defined.

Lemma get_terminates_witness :
  (get (ex_user no_aspects) 5 "Loop" None (ex_context [ex_loop])).1 ≠ Raise RecursionError.
Proof.
  apply get_terminates; [apply ex_context_ok|apply ex_user_errors|done|].
  vm_compute. lia.
Defined.

Lemma circular_error_genuine_witness :
  real_cycle (ex_context [ex_loop]) ["Loop"; "Loop"].
Proof.
  eapply (circular_error_genuine (ex_user no_aspects) (ex_context [ex_loop]) 5 "Loop" None);
    [apply ex_context_ok|apply ex_user_errors|vm_compute; reflexivity].
Defined.

(** The service that needs the repository, which needs a clock, and an optional
    cache nobody provides *)
Definition ex_clock : Pod := ex_pod 5 "clock" "Clock" PROTOTYPE [].
Definition ex_store : Pod := ex_pod 6 "store" "Store" SINGLETON
  [ex_dep "clock" "Clock"; ("cache", mk_dependency "cache" (RType "Cache") false true [] None)].
Definition ex_shop : Pod := ex_pod 7 "shop" "Shop" SINGLETON [ex_dep "store" "Store"; ex_dep "clock" "Clock"].
Definition ex_wired : ApplicationContext nat := ex_context [ex_clock; ex_store; ex_shop].
Definition ex_rank (t : type) : nat :=
  if decide (t = "Shop") then 2 else if decide (t = "Store") then 1 else 0.

Lemma ex_wired_pods : pods ex_wired = [("clock", ex_clock); ("store", ex_store); ("shop", ex_shop)].
Proof. vm_compute. reflexivity. Qed.


Lemma context_value_shadows_pod_witness :
  let c' := (set_context_value "request" (VStr "spoofed") ex_registered).2 in
  get (ex_user no_aspects) 3 "Request" None c' = (Ok (VStr "spoofed"), c').
Proof.
  apply (context_value_shadows_pod (ex_user no_aspects) ex_registered "Request" None ex_request 2);
    [vm_compute; reflexivity|reflexivity|discriminate|reflexivity].
Defined.

Lemma contains_ignores_type_witness :
  contains ex_registered "Service" (Some "repo") = true ∧
  get (ex_user no_aspects) 3 "Service" (Some "repo") ex_registered
    = (Raise (NoSuchPodError "Service" (Some "repo")), ex_registered).
Proof. apply contains_ignores_type; decide_compute. Defined.

(** ** An aspect that needs what it advises *)

Definition aspect_on_repo (p : Pod) (v : value) : bool := bool_decide (name p = "audit").
Definition ex_aspect_context : ApplicationContext nat :=
  set_post_processors (ex_context [ex_repo; ex_aspect]) [AspectPostProcessor].

(** The states of the loop: nothing is cached, the registry is the example's. *)
Definition ex_uncached (c : ApplicationContext nat) : Prop :=
  registry_of c = registry_of ex_aspect_context ∧
  post_processors c = [AspectPostProcessor] ∧ singleton_cache c = ∅.

Section aspect_loop.
Context (rec : Pod → list type → list PodDependencyPathNode →
               comp (ApplicationContext nat) pod_error value).
Abbreviation u := (ex_user aspect_on_repo).

Lemma ex_uncached_pods c : ex_uncached c → pods c = [("repo", ex_repo); ("audit", ex_aspect)].
Proof. intros [[= -> _ _ _] _]. vm_compute. reflexivity. Qed.

Lemma ex_uncached_resolve c n t p b rq pth :
  ex_uncached c → (t, p) ∈ [("Repo", ex_repo); ("Audit", ex_aspect)] → n = Some (name p) →
  __resolve_candidate u c t n [] b rq pth = Ok (Some p).
Proof.
  intros [[= _ Ht Hb _] _] Hp ->. unfold __resolve_candidate, __resolve_binding_candidate,
    pods_of_type. rewrite Ht, Hb.
  apply elem_of_cons in Hp as [[= -> ->]|Hp]; [destruct b; vm_compute; reflexivity|].
  apply list_elem_of_singleton in Hp as [= -> ->]. destruct b; vm_compute; reflexivity.
Qed.

Lemma aspect_step_loops c H pth :
  ex_uncached c → "Audit" ∉ H → "Repo" ∉ H →
  (∀ H pth, "Repo" ∉ H → (rec ex_repo H pth c).1 = Raise RecursionError) →
  (get_pod_instance_step u rec ex_aspect H pth c).1 = Raise RecursionError.
Proof.
  intros Hc Ha Hr Hrec. unfold get_pod_instance_step, __instantiate_pod, bind, get_state.
  cbn [scope ex_aspect ex_pod name type_ dependencies]. destruct Hc as (Hreg & Hpp & Hs).
  rewrite Hs, cached_empty, decide_False by done. cbn [map_comp].
  unfold bind, resolve_dependency, bind, __get_internal, bind, get_state, lift, ex_dep.
  cbn [collection_kind dep_type qualifiers].
  rewrite (ex_uncached_resolve c _ _ ex_repo); [|by split_and!|left|done].
  cbn. specialize (Hrec (H ++ ["Audit"]) (pth ++ [__dependency_path_node u ex_aspect
    (Some "repo") (Some (RType "Repo"))])).
  destruct (rec ex_repo _ _ c) as [r c1]. cbn in Hrec. by rewrite Hrec by set_solver.
Qed.

Lemma repo_step_loops c H pth :
  ex_uncached c → "Repo" ∉ H →
  (∀ c pth, ex_uncached c → (rec ex_aspect [] pth c).1 = Raise RecursionError) →
  (get_pod_instance_step u rec ex_repo H pth c).1 = Raise RecursionError.
Proof.
  intros Hc Hr Hrec. unfold get_pod_instance_step, __instantiate_pod, bind, get_state.
  cbn [scope ex_repo ex_pod name type_ dependencies]. destruct Hc as (Hreg & Hpp & Hs).
  rewrite Hs, cached_empty, decide_False by done. cbn.
  set (c1 := set_world c (S (world c))).
  assert (ex_uncached c1) as Hc1 by by split_and!.
  clearbody c1. unfold __post_process_pod, bind, get_state. rewrite Hpp. cbn.
  unfold bind, try_except. specialize (Hrec c1 [] Hc1).
  assert ((AspectPostProcessor_post_process u rec (VObj (world c)) c1).1 = Raise RecursionError)
    as Hfind.
  { unfold AspectPostProcessor_post_process, find_with, bind, get_state.
    rewrite (ex_uncached_pods c1 Hc1). cbn. unfold bind, __get_internal, bind, get_state, lift.
    change (aspect_on_repo ex_repo _) with false. change (aspect_on_repo ex_aspect _) with true.
    cbn [map_comp]. unfold bind.
    change (type_ ex_aspect) with "Audit". change (name ex_aspect) with "audit".
    rewrite (ex_uncached_resolve c1 _ _ ex_aspect); [|done|right; left|done].
    destruct (rec ex_aspect [] [] c1) as [r c2]. cbn in *. by rewrite Hrec. }
  destruct (AspectPostProcessor_post_process u rec (VObj (world c)) c1) as [r c2].
  cbn in *. by rewrite Hfind.
Qed.
End aspect_loop.

Lemma ex_aspect_loops depth c :
  ex_uncached c →
  (∀ H pth, "Repo" ∉ H →
     (__get_pod_instance (ex_user aspect_on_repo) depth ex_repo H pth c).1 = Raise RecursionError) ∧
  (∀ H pth, "Audit" ∉ H → "Repo" ∉ H →
     (__get_pod_instance (ex_user aspect_on_repo) depth ex_aspect H pth c).1
       = Raise RecursionError).
Proof.
  revert c. induction depth as [|depth IH]; intros c Hc; [done|]. cbn. split.
  - intros H pth Hr. apply repo_step_loops; [done..|]. intros c' pth' Hc'.
    by apply IH; [|apply not_elem_of_nil..].
  - intros H pth Ha Hr. apply aspect_step_loops; [done..|]. intros H' pth' Hr'. by apply IH.
Qed.

(** An aspect that depends on a Pod its own pointcut selects is not reported
    as a circular dependency: the aspects are looked up from inside
    post-processing with an empty hierarchy, and the lookup of either Pod
    exhausts every recursion depth. *)
Theorem self_advising_aspect_recurses depth :
  (get (ex_user aspect_on_repo) depth "Repo" None ex_aspect_context).1 = Raise RecursionError ∧
  (get (ex_user aspect_on_repo) depth "Audit" None ex_aspect_context).1 = Raise RecursionError.
Proof.
  assert (ex_uncached ex_aspect_context) as Hc by by split_and!.
  destruct (ex_aspect_loops depth _ Hc) as [Hr Ha].
  specialize (Hr [] [] ltac:(apply not_elem_of_nil)).
  specialize (Ha [] [] ltac:(apply not_elem_of_nil) ltac:(apply not_elem_of_nil)).
  unfold get, get_or_none, __get_internal, bind, get_state, lift.
  assert (∀ t p, (t, p) ∈ [("Repo", ex_repo); ("Audit", ex_aspect)] →
    __resolve_candidate (ex_user aspect_on_repo) ex_aspect_context t None [] false None []
      = Ok (Some p)) as Hres.
  { intros t p. rewrite elem_of_cons, list_elem_of_singleton.
    intros [[= -> ->]|[= -> ->]]; vm_compute; reflexivity. }
  rewrite (Hres "Repo" ex_repo), (Hres "Audit" ex_aspect) by set_solver.
  destruct (__get_pod_instance _ depth ex_repo _ _ _) as [r c1].
  destruct (__get_pod_instance _ depth ex_aspect _ _ _) as [r2 c2]. cbn in *.
  by rewrite Hr, Ha.
Qed.
