(* ===== verification/Lifecycle.v ===== *)
(** * Start, rollback and stop of the container

    [ApplicationContext.start] and [stop] of
    [core/spakky/src/spakky/core/application/application_context.py], with the
    phase records of [startup_diagnostics.py]. The event loop and its thread are
    flags; a coroutine handed to the loop runs to its end before its result is
    used. *)

From S2P Require Import Prelude Pod Container Injection.

Section lifecycle.
Context {W : Type} (u : user_code W).

Abbreviation context := (ApplicationContext W).
Abbreviation action := (comp context pod_error).

(** ** Phase records *)

Definition add_record (r : StartupPhaseRecord) : action unit :=
  modify (λ c, set_report c ((λ l, l ++ [r]) <$> report c)).

Definition record_success (ph : startup_phase) (count : nat) : action unit :=
  add_record (mk_phase_record ph count None []).
Definition record_failure (ph : startup_phase) (count : nat) (e : pod_error)
    (details : list (string * string)) : action unit :=
  add_record (mk_phase_record ph count (Some e) details).

(** [with recorder.record_phase(...) as phase]: [m] returns the processed count
    it sets; a failure is recorded with the count given beforehand. *)
Definition record_phase (ph : startup_phase) (count : nat) (m : action nat) : action unit :=
  n <- try_except m (λ e, Some (record_failure ph count e [] ;;; raise e)) ;;
  record_success ph n.

(** ** Post-processors and eager Pods *)

Definition __add_post_processor (pp : post_processor) : action unit :=
  modify (λ c, set_post_processors c (post_processors c ++ [pp])).

Definition is_post_processor (p : Pod) : bool := bool_decide (IPostProcessor_type ∈ base_types p).

Definition __register_post_processors (depth : nat) : action unit :=
  __add_post_processor ApplicationContextAwareProcessor ;;;
  __add_post_processor AspectPostProcessor ;;;
  __add_post_processor ServicePostProcessor ;;;
  found <- find u depth is_post_processor ;;
  for_each (λ v, __add_post_processor (UserPostProcessor v))
    (sort_by (λ a b, (order_of u a <=? order_of u b)%N) found).

Definition count_instantiation : action unit :=
  modify (λ c,
    match startup_metrics c with
    | None => c
    | Some m => set_startup_metrics c
        (Some (mk_metrics (S (instantiation_attempt_count m))
                 (post_processing_application_count m) (post_processing_exception m)))
    end).

Definition __initialize_pods (depth : nat) : action unit :=
  c <- get_state ;;
  for_each (λ p,
    count_instantiation ;;;
    v <- get_or_none u depth (type_ p) (Some (name p)) ;;
    if is_none v then raise (NoSuchPodError (type_ p) (Some (name p))) else ret tt)
    (List.filter (λ p, negb (is_lazy p)) (snd <$> pods c)).

(** ** Services *)

Definition call (op : service_operation) (v : value) : action unit :=
  run_user (call_service u op v).

Definition __start_services : action unit :=
  c <- get_state ;;
  if event_loop c then raise EventLoopThreadAlreadyStartedInApplicationContextError
  else if event_thread c then raise EventLoopThreadAlreadyStartedInApplicationContextError
  else
    modify (λ c, set_event_thread (set_event_loop c true) true) ;;;
    for_each (λ v,
      call ServiceStart v ;;;
      modify (λ c, set_started_services c (started_services c ++ [v]))) (services c) ;;;
    (c <- get_state ;;
     if negb (event_loop c) then raise EventLoopThreadNotStartedInApplicationContextError
     else for_each (λ v,
       call ServiceStartAsync v ;;;
       modify (λ c, set_started_async_services c (started_async_services c ++ [v])))
       (async_services c)).

Definition __stop_services : action unit :=
  c <- get_state ;;
  if negb (event_loop c) then raise EventLoopThreadNotStartedInApplicationContextError
  else if negb (event_thread c) then raise EventLoopThreadNotStartedInApplicationContextError
  else
    for_each (call ServiceStop) (services c) ;;;
    for_each (call ServiceStopAsync) (async_services c) ;;;
    modify (λ c, set_event_thread (set_event_loop c false) false).

Definition __clear_all : action unit :=
  modify (λ c,
    set_async_services (set_services (set_post_processors (set_singleton_cache
      (set_forward_type_map (set_bindings (set_type_cache (set_pods c []) ∅) ∅) ∅) ∅) []) []) []).

Definition __rollback_failed_start (original_service_count original_async_service_count : nat)
    : action unit :=
  c <- get_state ;;
  for_each (call ServiceStop) (reverse (started_services c)) ;;;
  (if event_loop c && negb (bool_decide (started_async_services c = []))
   then for_each (call ServiceStopAsync) (reverse (started_async_services c)) else ret tt) ;;;
  modify (λ c, set_singleton_cache (set_event_thread (set_event_loop c false) false) ∅) ;;;
  clear_context ;;;
  modify (λ c,
    set_is_started
      (set_async_services
        (set_services (set_post_processors c [])
           (take original_service_count (services c)))
        (take original_async_service_count (async_services c))) false).

(** ** Start and stop *)

(** The instantiation phase: its failure is attributed to post-processing when
    a post-processor raised. *)
Definition instantiation_phase (depth : nat) : action unit :=
  modify (λ c, set_startup_metrics c (Some (mk_metrics 0 0 None))) ;;;
  try_except (__initialize_pods depth) (λ e, Some (
    c <- get_state ;;
    let m := default (mk_metrics 0 0 None) (startup_metrics c) in
    match post_processing_exception m with
    | None =>
        record_failure INSTANTIATION (instantiation_attempt_count m) e
          (__startup_diagnostic_details e)
    | Some e' =>
        record_success INSTANTIATION (instantiation_attempt_count m) ;;;
        record_failure POST_PROCESSING (post_processing_application_count m) e'
          (__startup_diagnostic_details e')
    end ;;;
    raise e)) ;;;
  (c <- get_state ;;
   let m := default (mk_metrics 0 0 None) (startup_metrics c) in
   record_success INSTANTIATION (instantiation_attempt_count m) ;;;
   record_success POST_PROCESSING (post_processing_application_count m)).

Definition start_phases (depth : nat) : action unit :=
  record_phase POST_PROCESSOR_REGISTRATION 0
    (__register_post_processors depth ;;; gets (λ c, length (post_processors c))) ;;;
  instantiation_phase depth ;;;
  (c <- get_state ;;
   let service_start_count := (length (services c) + length (async_services c))%nat in
   record_phase SERVICE_START service_start_count
     (__start_services ;;; ret service_start_count)).

Definition start (depth : nat) : action unit :=
  c <- get_state ;;
  if is_started c then raise ApplicationContextAlreadyStartedError
  else
    let original_service_count := length (services c) in
    let original_async_service_count := length (async_services c) in
    modify (λ c, set_is_started (set_started_async_services (set_started_services c []) []) true) ;;;
    try_finally
      (try_except (start_phases depth) (λ e, Some (
         __rollback_failed_start original_service_count original_async_service_count ;;;
         raise e)))
      (modify (λ c, set_startup_metrics c None)).

Definition stop : action unit :=
  c <- get_state ;;
  if negb (is_started c) then raise ApplicationContextAlreadyStoppedError
  else
    __stop_services ;;;
    __clear_all ;;;
    modify (λ c, set_is_started c false).
End lifecycle.

(** ** Lemmas *)

Section lemmas.
Context {W : Type} (u : user_code W).
Implicit Types c : ApplicationContext W.

(** What a start attempt leaves alone: the registry, the services that were
    registered before it and the started flag. *)
Definition attempt_invariant c0 c : Prop :=
  services c0 `prefix_of` services c ∧ async_services c0 `prefix_of` async_services c ∧
  registry_of c = registry_of c0 ∧ is_started c = true.

Lemma attempt_add_service c0 v : preserves (attempt_invariant c0) (add_service u v).
Proof.
  apply preserves_modify. intros c (Hs & Ha & Hr & Hst).
  destruct (isinstance u v IService), (isinstance u v IAsyncService);
    split_and!; cbn; try done; by apply prefix_app_r.
Qed.

Lemma attempt_get_or_none c0 depth t n :
  preserves (attempt_invariant c0) (get_or_none u depth t n).
Proof. apply get_or_none_preserves; try done. apply attempt_add_service. Qed.

Lemma attempt_find c0 depth f : preserves (attempt_invariant c0) (find u depth f).
Proof. apply find_all_preserves; try done. apply attempt_add_service. Qed.

(** A field the registry and the services do not depend on. *)
Lemma attempt_modify c0 (f : ApplicationContext W → ApplicationContext W) :
  (∀ c, services (f c) = services c ∧ async_services (f c) = async_services c ∧
        registry_of (f c) = registry_of c ∧ is_started (f c) = is_started c) →
  preserves (attempt_invariant c0) (@modify _ pod_error f).
Proof.
  intros Hf. apply preserves_modify. intros c (Hs & Ha & Hr & Hst).
  destruct (Hf c) as (H1 & H2 & H3 & H4). unfold attempt_invariant. by rewrite H1, H2, H3, H4.
Qed.

Lemma attempt_run_user c0 {A} (f : W → outcome pod_error A * W) :
  preserves (attempt_invariant c0) (run_user f).
Proof. by apply run_user_preserves. Qed.

Lemma attempt_get_state c0 : preserves (attempt_invariant c0) (@get_state _ pod_error).
Proof. by intros c. Qed.

Lemma attempt_add_record c0 r : preserves (attempt_invariant c0) (add_record r).
Proof. by apply attempt_modify. Qed.

Local Hint Resolve attempt_get_or_none attempt_find attempt_run_user attempt_get_state
  attempt_add_record : preserves.

Lemma attempt_start_phases c0 depth : preserves (attempt_invariant c0) (start_phases u depth).
Proof.
  unfold start_phases. apply preserves_bind; [|intros _; apply preserves_bind; [|intros _]].
  - apply preserves_bind; [|intros n; apply attempt_add_record].
    apply preserves_try_except; [|intros e k [= <-]; preserves_tac; apply attempt_add_record].
    unfold __register_post_processors, __add_post_processor.
    preserves_tac; by apply attempt_modify.
  - unfold instantiation_phase, record_success, record_failure.
    apply preserves_bind; [by apply attempt_modify|]. intros _.
    apply preserves_bind; [|intros _; preserves_tac].
    apply preserves_try_except.
    + unfold __initialize_pods, count_instantiation. preserves_tac.
      apply attempt_modify. intros c. by destruct (startup_metrics c).
    + intros e k [= <-]. preserves_tac.
  - apply preserves_bind; [preserves_tac|]. intros c. unfold record_phase, record_success.
    apply preserves_bind; [|intros n; preserves_tac].
    apply preserves_try_except; [|intros e k [= <-]; preserves_tac; apply attempt_add_record].
    unfold __start_services, call. preserves_tac; by apply attempt_modify.
Qed.

(** Stopping never fails. *)
Definition stops_succeed : Prop :=
  ∀ v w, (call_service u ServiceStop v w).1 = Ok tt ∧ (call_service u ServiceStopAsync v w).1 = Ok tt.

Lemma for_each_call_ok op l c :
  (∀ v w, (call_service u op v w).1 = Ok tt) →
  ∃ w, for_each (call u op) l c = (Ok tt, set_world c w).
Proof.
  intros Hok. revert c. induction l as [|v l IH]; intros c; cbn.
  { exists (world c). by destruct c. }
  unfold bind, call, run_user. specialize (Hok v (world c)).
  destruct (call_service u op v (world c)) as [r w]. cbn in Hok. rewrite Hok.
  destruct (IH (set_world c w)) as [w' Hw]. unfold call, run_user in Hw. rewrite Hw.
  by exists w'.
Qed.

(** The state a failed start is rolled back to. *)
Definition restored c0 c : Prop :=
  is_started c = false ∧ event_loop c = false ∧ event_thread c = false ∧
  singleton_cache c = ∅ ∧ context_cache c = ∅ ∧ post_processors c = [] ∧
  services c = services c0 ∧ async_services c = async_services c0 ∧
  startup_metrics c = None ∧ registry_of c = registry_of c0.

Lemma rollback_ok c0 c :
  stops_succeed → attempt_invariant c0 c →
  ∃ c', __rollback_failed_start u (length (services c0)) (length (async_services c0)) c
          = (Ok tt, c') ∧
    restored c0 (set_startup_metrics c' None).
Proof.
  intros Hstop (Hs & Ha & Hr & Hst).
  assert (∀ l c, ∃ w, for_each (call u ServiceStop) l c = (Ok tt, set_world c w)) as H1
    by (intros l c1; apply for_each_call_ok, Hstop).
  assert (∀ l c, ∃ w, for_each (call u ServiceStopAsync) l c = (Ok tt, set_world c w)) as H2
    by (intros l c1; apply for_each_call_ok, Hstop).
  unfold __rollback_failed_start, bind, get_state.
  destruct (H1 (reverse (started_services c)) c) as [w1 ->].
  match goal with |- context [if ?b then ?x else ret tt] => set (m := if b then x else ret tt) end.
  assert (∃ w2, m (set_world c w1) = (Ok tt, set_world (set_world c w1) w2)) as [w2 ->].
  { unfold m. destruct (_ && _); [apply H2|]. exists w1. done. }
  destruct Hs as [ks Hs], Ha as [ka Ha]. eexists. split; [reflexivity|].
  split_and!; cbn; try done.
  - rewrite Hs. by apply take_app_length.
  - rewrite Ha. by apply take_app_length.
Qed.
End lemmas.

(** [start] in one equation: the phases from the marked context, and the
    rollback of their failure. *)
Definition begun {W} (c : ApplicationContext W) : ApplicationContext W :=
  set_is_started (set_started_async_services (set_started_services c []) []) true.

Lemma start_eq {W} (u : user_code W) depth c :
  is_started c = false →
  start u depth c =
    match start_phases u depth (begun c) with
    | (Ok _, c1) => (Ok tt, set_startup_metrics c1 None)
    | (Raise e, c1) =>
        match __rollback_failed_start u (length (services c)) (length (async_services c)) c1 with
        | (Ok _, c2) => (Raise e, set_startup_metrics c2 None)
        | (Raise e', c2) => (Raise e', set_startup_metrics c2 None)
        end
    end.
Proof.
  intros Hnot. unfold start, bind at 1, get_state. rewrite Hnot. unfold bind at 1, modify at 1.
  fold (begun c). unfold try_finally, try_except.
  destruct (start_phases u depth (begun c)) as [[[]|e] c1]; [done|]. unfold bind, modify, raise.
  by destruct (__rollback_failed_start _ _ _ _) as [[[]|e'] c2].
Qed.

(** ** Services that log what is done to them *)

Section logging.
Context (base : user_code (list (service_operation * value))).
Context (fails : service_operation → value → bool).

Definition logging : user_code (list (service_operation * value)) :=
  mk_user_code _ (construct base) (type_name base) (selector base) (isinstance base)
    (set_framework_object base)
    (λ op v w, (if fails op v then Raise (UserError 0) else Ok tt, w ++ [(op, v)]))
    (aspect_selects base) (order_annotation base) (user_post_process base) (set_iteration base)
    (uuid4 base).

Abbreviation context := (ApplicationContext (list (service_operation * value))).
Implicit Types c : context.

Definition logged (op : service_operation) (l : list value) := (λ v, (op, v)) <$> l.

Lemma stop_each_logs op l c :
  (∀ v, fails op v = false) →
  for_each (call logging op) l c = (Ok tt, set_world c (world c ++ logged op l)).
Proof.
  intros Hok. revert c. induction l as [|v l IH]; intros c; cbn.
  { unfold logged. cbn. rewrite app_nil_r. by destruct c. }
  unfold bind, call, run_user at 1. cbn. rewrite Hok. rewrite IH. cbn.
  by rewrite <-app_assoc.
Qed.

(** Starting up to the first service that fails. *)
Lemma start_each_logs pre c :
  (∀ v, v ∈ pre → fails ServiceStart v = false) →
  for_each (λ v, call logging ServiceStart v ;;;
    modify (λ c, set_started_services c (started_services c ++ [v]))) pre c
  = (Ok tt, set_started_services (set_world c (world c ++ logged ServiceStart pre))
              (started_services c ++ pre)).
Proof.
  revert c. induction pre as [|v pre IH]; intros c Hok; cbn.
  { unfold logged. cbn. rewrite !app_nil_r. by destruct c. }
  unfold bind at 1, call, run_user at 1. cbn. unfold bind. rewrite Hok by (by left). cbn.
  rewrite IH by (intros; apply Hok; by right). cbn. by rewrite <-!app_assoc.
Qed.

Lemma start_async_each_logs pre c :
  (∀ v, v ∈ pre → fails ServiceStartAsync v = false) →
  for_each (λ v, call logging ServiceStartAsync v ;;;
    modify (λ c, set_started_async_services c (started_async_services c ++ [v]))) pre c
  = (Ok tt, set_started_async_services (set_world c (world c ++ logged ServiceStartAsync pre))
              (started_async_services c ++ pre)).
Proof.
  revert c. induction pre as [|v pre IH]; intros c Hok; cbn.
  { unfold logged. cbn. rewrite !app_nil_r. by destruct c. }
  unfold bind at 1, call, run_user at 1. cbn. unfold bind. rewrite Hok by (by left). cbn.
  rewrite IH by (intros; apply Hok; by right). cbn. by rewrite <-!app_assoc.
Qed.

Lemma for_each_fails {A} (f : A → comp context pod_error unit) pre x post c c' e :
  for_each f pre c = (Ok tt, c') → (f x c').1 = Raise e →
  for_each f (pre ++ x :: post) c = (Raise e, (f x c').2).
Proof.
  revert c. induction pre as [|y pre IH]; intros c; cbn; unfold bind.
  - intros [= ->] Hx. destruct (f x c') as [r c2]. cbn in *. by rewrite Hx.
  - destruct (f y c) as [[[]|e'] c1]; [|done]. apply IH.
Qed.

Lemma rollback_logs n m c :
  (∀ v, fails ServiceStop v = false) → (∀ v, fails ServiceStopAsync v = false) →
  event_loop c = true →
  ∃ c', __rollback_failed_start logging n m c = (Ok tt, c') ∧
    world c' = world c ++ logged ServiceStop (reverse (started_services c))
                 ++ logged ServiceStopAsync (reverse (started_async_services c)).
Proof.
  intros Hs Ha Hl. unfold __rollback_failed_start, bind, get_state.
  rewrite stop_each_logs by done. rewrite Hl.
  destruct (started_async_services c) as [|y l] eqn:Hy.
  - rewrite bool_decide_true by done. cbn [andb negb].
    eexists. split; [reflexivity|]. cbn [world set_is_started set_async_services set_services
      set_post_processors set_context_cache set_singleton_cache set_event_thread set_event_loop
      set_world]. unfold logged. cbn. by rewrite app_nil_r.
  - rewrite bool_decide_false by done. cbn [andb negb]. rewrite stop_each_logs by done.
    eexists. split; [reflexivity|]. cbn [world set_is_started set_async_services set_services
      set_post_processors set_context_cache set_singleton_cache set_event_thread set_event_loop
      set_world]. by rewrite <-app_assoc.
Qed.

Definition looping c : context := set_event_thread (set_event_loop c true) true.

Lemma start_services_eq c :
  event_loop c = false → event_thread c = false →
  __start_services logging c =
    match for_each (λ v, call logging ServiceStart v ;;;
            modify (λ c, set_started_services c (started_services c ++ [v]))) (services c) (looping c) with
    | (Ok _, c1) =>
        if negb (event_loop c1)
        then (Raise EventLoopThreadNotStartedInApplicationContextError, c1)
        else for_each (λ v, call logging ServiceStartAsync v ;;;
          modify (λ c, set_started_async_services c (started_async_services c ++ [v])))
          (async_services c1) c1
    | (Raise e, c1) => (Raise e, c1)
    end.
Proof.
  intros Hl Ht. unfold __start_services, bind at 1, get_state at 1. rewrite Hl, Ht.
  unfold bind at 1, modify at 1. fold (looping c). unfold bind at 1.
  destruct (for_each _ (services c) (looping c)) as [[[]|e] c1]; [|done].
  unfold bind at 1, get_state. by destruct (event_loop c1).
Qed.

Lemma sync_start_fails c pre x post :
  event_loop c = false → event_thread c = false → services c = pre ++ x :: post →
  fails ServiceStart x = true → (∀ v, v ∈ pre → fails ServiceStart v = false) →
  ∃ c', __start_services logging c = (Raise (UserError 0), c') ∧ event_loop c' = true ∧
    world c' = world c ++ logged ServiceStart (pre ++ [x]) ∧
    started_services c' = started_services c ++ pre ∧
    started_async_services c' = started_async_services c.
Proof.
  intros Hl Ht Hs Hx Hpre. rewrite start_services_eq by done. rewrite Hs.
  rewrite (for_each_fails _ pre x post _ _ (UserError 0) (start_each_logs pre (looping c) Hpre)).
  2: { unfold bind, call, run_user. cbn. by rewrite Hx. }
  eexists. split; [reflexivity|]. unfold bind, call, run_user. cbn. rewrite Hx. cbn.
  unfold logged. by rewrite fmap_app, <-app_assoc.
Qed.

Lemma async_start_fails c pre x post :
  event_loop c = false → event_thread c = false → async_services c = pre ++ x :: post →
  fails ServiceStartAsync x = true →
  (∀ v, v ∈ services c → fails ServiceStart v = false) →
  (∀ v, v ∈ pre → fails ServiceStartAsync v = false) →
  ∃ c', __start_services logging c = (Raise (UserError 0), c') ∧ event_loop c' = true ∧
    world c' = world c ++ logged ServiceStart (services c) ++ logged ServiceStartAsync (pre ++ [x]) ∧
    started_services c' = started_services c ++ services c ∧
    started_async_services c' = started_async_services c ++ pre.
Proof.
  intros Hl Ht Ha Hx Hs Hpre. rewrite start_services_eq by done.
  rewrite start_each_logs by done. set (c1 := set_started_services _ _).
  change (event_loop c1) with true. change (async_services c1) with (async_services c).
  cbn [negb]. rewrite Ha.
  rewrite (for_each_fails _ pre x post _ _ (UserError 0) (start_async_each_logs pre c1 Hpre)).
  2: { unfold bind, call, run_user. cbn. by rewrite Hx. }
  eexists. split; [reflexivity|]. unfold bind, call, run_user. cbn. rewrite Hx. cbn.
  unfold logged. by rewrite fmap_app, <-!app_assoc.
Qed.
End logging.

(** ** Properties *)

(** C14. A failed start leaves nothing behind: when stopping a service does not
    itself fail, the context that [start] leaves after raising is not started,
    its event loop and thread are gone, its caches and post-processors are
    empty, and its services are those registered before the attempt. *)
Theorem failed_start_restores {W} (u : user_code W) depth c e c' :
  stops_succeed u → is_started c = false →
  start u depth c = (Raise e, c') → restored c c'.
Proof.
  intros Hstop Hnot. rewrite start_eq by done.
  pose proof (attempt_start_phases u c depth (begun c)) as H2.
  destruct (start_phases u depth (begun c)) as [[[]|e1] c2]; [by intros [= ?]|].
  destruct (rollback_ok u c c2 Hstop) as (c3 & -> & Hres); [apply H2; by split_and!|].
  by intros [= <- <-].
Qed.

(** When a service fails to start, exactly the services started before it
    are stopped, in reverse order of their start (the synchronous ones first),
    the one that failed is not, and the failure is what [start] raises. *)
Theorem failed_service_start_rolls_back base fails c n m :
  event_loop c = false → event_thread c = false →
  started_services c = [] → started_async_services c = [] →
  (∀ v, fails ServiceStop v = false) → (∀ v, fails ServiceStopAsync v = false) →
  let u := logging base fails in
  let attempt := try_except (__start_services u) (λ e, Some (
    __rollback_failed_start u n m ;;; raise e)) in
  (∀ pre x post,
     services c = pre ++ x :: post → fails ServiceStart x = true →
     (∀ v, v ∈ pre → fails ServiceStart v = false) →
     (attempt c).1 = Raise (UserError 0) ∧
     world (attempt c).2 = world c ++ logged ServiceStart (pre ++ [x])
                             ++ logged ServiceStop (reverse pre)) ∧
  (∀ pre x post,
     async_services c = pre ++ x :: post → fails ServiceStartAsync x = true →
     (∀ v, v ∈ services c → fails ServiceStart v = false) →
     (∀ v, v ∈ pre → fails ServiceStartAsync v = false) →
     (attempt c).1 = Raise (UserError 0) ∧
     world (attempt c).2 = world c ++ logged ServiceStart (services c)
                             ++ logged ServiceStartAsync (pre ++ [x])
                             ++ logged ServiceStop (reverse (services c))
                             ++ logged ServiceStopAsync (reverse pre)).
Proof.
  intros Hl Ht Hs0 Ha0 Hstop Hstopa u attempt.
  assert (∀ c1 w, __start_services u c = (Raise (UserError 0), c1) → event_loop c1 = true →
    world c ++ w = world c1 ++ logged ServiceStop (reverse (started_services c1))
                     ++ logged ServiceStopAsync (reverse (started_async_services c1)) →
    (attempt c).1 = Raise (UserError 0) ∧ world (attempt c).2 = world c ++ w) as Hroll.
  { intros c1 w H1 Hl1 ->. destruct (rollback_logs base fails n m c1) as (c2 & H2 & Hw); [done..|].
    unfold attempt, try_except. rewrite H1. unfold bind. fold u in H2. by rewrite H2. }
  split; intros pre x post.
  - intros Hs Hx Hpre.
    destruct (sync_start_fails base fails c pre x post) as (c1 & H1 & Hl1 & Hw & Hsv & Hav);
      [done..|].
    apply (Hroll c1); [done..|]. rewrite Hw, Hsv, Hav, Hs0, Ha0. cbn. by rewrite app_nil_r, <-!app_assoc.
  - intros Ha Hx Hs Hpre.
    destruct (async_start_fails base fails c pre x post) as (c1 & H1 & Hl1 & Hw & Hsv & Hav);
      [done..|].
    apply (Hroll c1); [done..|]. rewrite Hw, Hsv, Hav, Hs0, Ha0. cbn. by rewrite <-!app_assoc.
Qed.

(** Stopping a started context stops every service in registration order,
    the synchronous ones first, and empties the registry, the caches and the
    service lists; a second stop is refused and changes nothing. *)
Theorem stop_clears base fails c :
  is_started c = true → event_loop c = true → event_thread c = true →
  (∀ v, fails ServiceStop v = false) → (∀ v, fails ServiceStopAsync v = false) →
  let u := logging base fails in
  let c' := (stop u c).2 in
  (stop u c).1 = Ok tt ∧
  world c' = world c ++ logged ServiceStop (services c) ++ logged ServiceStopAsync (async_services c) ∧
  is_started c' = false ∧ event_loop c' = false ∧ event_thread c' = false ∧
  pods c' = [] ∧ type_cache c' = ∅ ∧ bindings c' = ∅ ∧ singleton_cache c' = ∅ ∧
  services c' = [] ∧ async_services c' = [] ∧ post_processors c' = [] ∧
  stop u c' = (Raise ApplicationContextAlreadyStoppedError, c').
Proof.
  intros Hst Hl Ht Hs Ha u. unfold stop at 1 2 3, bind, get_state. rewrite Hst. cbn.
  unfold __stop_services, bind, get_state. rewrite Hl, Ht. cbn.
  unfold u. rewrite stop_each_logs by done. cbn. rewrite stop_each_logs by done. cbn.
  rewrite <-app_assoc. split_and!; done.
Qed.

(** A service whose stop fails during the rollback leaves the context
    marked as started with its event loop running: the error of the stop
    replaces the error of the start, and every later start is refused. *)
Theorem rollback_stop_failure_sticks {W} (u : user_code W) depth c c1 c2 e e' :
  is_started c = false →
  start_phases u depth (begun c) = (Raise e, c1) →
  __rollback_failed_start u (length (services c)) (length (async_services c)) c1
    = (Raise e', c2) →
  let c' := (start u depth c).2 in
  (start u depth c).1 = Raise e' ∧ event_loop c' = event_loop c1 ∧
  is_started c' = true ∧
  start u depth c' = (Raise ApplicationContextAlreadyStartedError, c').
Proof.
  intros Hnot Hph Hrb.
  assert (start u depth c = (Raise e', set_startup_metrics c2 None)) as Hstart.
  { rewrite start_eq by done. by rewrite Hph, Hrb. }
  rewrite Hstart. cbn.
  assert (is_started c2 = is_started c1 ∧ event_loop c2 = event_loop c1) as [H1 H2].
  { assert (∀ op l, preserves (λ x, is_started x = is_started c1 ∧ event_loop x = event_loop c1)
              (for_each (call u op) l)) as Hcalls.
    { intros op l. apply preserves_for_each. intros v. by apply run_user_preserves. }
    revert Hrb. unfold __rollback_failed_start, bind, get_state.
    pose proof (Hcalls ServiceStop (reverse (started_services c1)) c1 (conj eq_refl eq_refl)) as Ha.
    destruct (for_each _ _ c1) as [[[]|e1] c3]; cbn in Ha; [|by intros [= _ <-]].
    destruct (_ && _); [|done].
    pose proof (Hcalls ServiceStopAsync (reverse (started_async_services c1)) c3 Ha) as Hb.
    destruct (for_each _ _ c3) as [[[]|e1] c4]; cbn in Hb; [done|by intros [= _ <-]]. }
  assert (is_started c1 = true) as H3.
  { pose proof (attempt_start_phases u c depth (begun c)) as H. rewrite Hph in H.
    apply H. by split_and!. }
  rewrite H1, H2. split_and!; [done..|].
  unfold start, bind, get_state. change (is_started (set_startup_metrics c2 None)) with (is_started c2).
  by rewrite ?H1, ?H3.
Qed.

(** An object that is both a service and an asynchronous service is
    registered twice in each list, so both its starts run twice. *)
Theorem dual_service_registered_twice {W} (u : user_code W) v c w1 w2 :
  isinstance u v IService = true → isinstance u v IAsyncService = true →
  set_framework_object u IService v (world c) = (Ok tt, w1) →
  set_framework_object u IAsyncService v w1 = (Ok tt, w2) →
  let c' := (ServicePostProcessor_post_process u v c).2 in
  (ServicePostProcessor_post_process u v c).1 = Ok v ∧
  services c' = services c ++ [v; v] ∧ async_services c' = async_services c ++ [v; v].
Proof.
  intros Hs Ha H1 H2. unfold ServicePostProcessor_post_process, bind, run_user. rewrite Hs, Ha.
  rewrite H1. unfold add_service, modify. cbn. rewrite Hs, Ha. cbn. rewrite H2. cbn.
  by rewrite <-!app_assoc.
Qed.

(** ** Witnesses *)

Definition ex_base : user_code (list (service_operation * value)) :=
  mk_user_code _ (λ p args w, (Ok (VObj (id p)), w)) (λ t, t) (λ q p, true)
    (λ v i, bool_decide (i = IService)) (λ i v w, (Ok tt, w)) (λ o v w, (Ok tt, w))
    (λ p v, false) (λ v, None) (λ pp v w, (Ok v, w)) (λ l, l) (λ w, (VNone, w)).

Definition second_fails (op : service_operation) (v : value) : bool :=
  match op, v with ServiceStart, VObj 1 => true | ServiceStartAsync, VObj 3 => true | _, _ => false end.

Definition ex_services_context (ps : list Pod) : ApplicationContext (list (service_operation * value)) :=
  foldl (λ c p, (add ex_base (Some p) c).2) (new_context (Some []) []) ps.

Definition ex_worker (i : nat) (n : string) : Pod :=
  mk_pod i n SINGLETON n [] (ClassTarget n None) [] false false.

Lemma failed_start_restores_witness :
  let c := ex_services_context [ex_worker 0 "a"; ex_worker 1 "b"] in
  let u := logging ex_base second_fails in
  (start u 5 c).1 = Raise (UserError 0) ∧
  world (start u 5 c).2 = [(ServiceStart, VObj 0); (ServiceStart, VObj 1); (ServiceStop, VObj 0)] ∧
  restored c (start u 5 c).2.
Proof.
  cbv zeta. split; [vm_compute; reflexivity|]. split; [vm_compute; reflexivity|].
  apply (failed_start_restores (logging ex_base second_fails) 5 _ (UserError 0)).
  - intros v w. split; reflexivity.
  - reflexivity.
  - apply pair_fst_eq. vm_compute. reflexivity.
Defined.

Lemma failed_service_start_rolls_back_witness :
  let c := set_services (ex_services_context []) [VObj 0; VObj 1; VObj 2] in
  world (try_except (__start_services (logging ex_base second_fails)) (λ e, Some (
    __rollback_failed_start (logging ex_base second_fails) 3 0 ;;; raise e)) c).2
  = [] ++ logged ServiceStart ([VObj 0] ++ [VObj 1]) ++ logged ServiceStop (reverse [VObj 0]).
Proof.
  cbv zeta.
  refine (proj2 (proj1 (failed_service_start_rolls_back ex_base second_fails
    (set_services (ex_services_context []) [VObj 0; VObj 1; VObj 2]) 3 0
    eq_refl eq_refl eq_refl eq_refl (λ v, eq_refl) (λ v, eq_refl))
    [VObj 0] (VObj 1) [VObj 2] eq_refl eq_refl _)).
  intros v ->%list_elem_of_singleton. reflexivity.
Defined.

Lemma stop_clears_witness :
  let c := (start (logging ex_base (λ _ _, false)) 5 (ex_services_context [ex_worker 0 "a"])).2 in
  is_started c = true ∧ pods (stop (logging ex_base (λ _ _, false)) c).2 = [].
Proof.
  cbv zeta. split; [vm_compute; reflexivity|].
  refine (proj1 (proj2 (proj2 (proj2 (proj2 (proj2 (stop_clears ex_base (λ _ _, false) _
    _ _ _ (λ v, eq_refl) (λ v, eq_refl)))))))); vm_compute; reflexivity.
Defined.

Definition stop_fails (op : service_operation) (v : value) : bool :=
  match op, v with ServiceStart, VObj 1 => true | ServiceStop, _ => true | _, _ => false end.

Lemma rollback_stop_failure_sticks_witness :
  let c := ex_services_context [ex_worker 0 "a"; ex_worker 1 "b"] in
  let u := logging ex_base stop_fails in
  let c' := (start u 5 c).2 in
  is_started c' = true ∧ start u 5 c' = (Raise ApplicationContextAlreadyStartedError, c').
Proof.
  cbv zeta. split; [vm_compute; reflexivity|].
  set (c := ex_services_context _). set (u := logging _ _).
  destruct (start_phases u 5 (begun c)) as [[[]|e] c1] eqn:Hph;
    [exfalso; vm_compute in Hph; discriminate|].
  destruct (__rollback_failed_start u (length (services c)) (length (async_services c)) c1)
    as [[[]|e'] c2] eqn:Hrb.
  { exfalso. vm_compute in Hph. injection Hph as <- <-. vm_compute in Hrb. discriminate. }
  exact (proj2 (proj2 (proj2 (rollback_stop_failure_sticks u 5 c c1 c2 e e' eq_refl Hph Hrb)))).
Defined.

Definition ex_dual : user_code nat :=
  mk_user_code nat (λ p args w, (Ok VNone, w)) (λ t, t) (λ q p, true) (λ v i, true)
    (λ i v w, (Ok tt, S w)) (λ o v w, (Ok tt, w)) (λ p v, false) (λ v, None)
    (λ pp v w, (Ok v, w)) (λ l, l) (λ w, (VNone, w)).

Lemma dual_service_registered_twice_witness :
  services (ServicePostProcessor_post_process ex_dual (VObj 7) (new_context None 0%nat)).2
  = [VObj 7; VObj 7].
Proof.
  exact (proj1 (proj2 (dual_service_registered_twice ex_dual (VObj 7) (new_context None 0%nat)
    1%nat 2%nat eq_refl eq_refl eq_refl eq_refl))).
Defined.
