(* ===== verification/Annotation.v ===== *)
(** * Annotation metadata: [core/spakky/src/spakky/core/common/annotation.py]

    Every decorator of the framework ([Pod], [Order], [Transactional],
    [ProtectedRequirement], ...) is an [Annotation] that records itself in a
    dictionary kept under one attribute of the decorated object. The
    dictionary is found by [getattr], which for a class also looks at its
    bases, and it is then mutated in place: the model keeps the dictionaries
    in a heap, so that two objects may share one. *)

From S2P Require Import Prelude.

(** The class of an annotation, and a decorated class or function. *)
Abbreviation ann_class := string.
Abbreviation py_object := string.

(** An annotation instance: [type(self).mro()] and its fields. *)
Record annotation (P : Type) := mk_annotation {
  ann_mro : list ann_class;
  ann_payload : P;
}.
Arguments mk_annotation {P}.
Arguments ann_mro {P}.
Arguments ann_payload {P}.

Inductive annotation_error :=
  | AnnotationNotFoundError
  | MultipleAnnotationFoundError.

Section annotation.
Context {P : Type}.

(** [dict[type, list[Self]]] *)
Abbreviation metadata_dict := (list (ann_class * list (annotation P))).

(** [attr] is each object's own [ANNOTATION_METADATA] attribute, a reference
    into [dicts]; [lookup_order] is where [getattr] searches, the object
    first (its MRO for a class, the object alone for a function). *)
Record ann_store := mk_ann_store {
  attr : gmap py_object nat;
  dicts : gmap nat metadata_dict;
  lookup_order : py_object → list py_object;
}.

(** [getattr(obj, ANNOTATION_METADATA, ...)], as a reference *)
Fixpoint first_attr (own : gmap py_object nat) (order : list py_object) : option nat :=
  match order with
  | [] => None
  | o :: order' =>
      match own !! o with Some r => Some r | None => first_attr own order' end
  end.

Definition metadata_ref (st : ann_store) (obj : py_object) : option nat :=
  first_attr (attr st) (lookup_order st obj).

Definition get_metadata (st : ann_store) (obj : py_object) : metadata_dict :=
  match metadata_ref st obj with
  | Some r => default [] (dicts st !! r)
  | None => []
  end.

(** The loop over [type(self).mro()] of [__set_metadata]. *)
Definition index_annotation (a : annotation P) (md : metadata_dict) : metadata_dict :=
  foldl (λ md base_type,
           let md' := if dict_has base_type md then md else dict_set base_type [] md in
           dict_set base_type (default [] (dict_get base_type md') ++ [a]) md')
        md (ann_mro a).

Definition fresh_ref (st : ann_store) : nat := fresh (dom (dicts st)).

(** [annotation(obj)], [Annotation.__call__] *)
Definition set_metadata (a : annotation P) (obj : py_object) (st : ann_store) : ann_store :=
  let r := match metadata_ref st obj with Some r => r | None => fresh_ref st end in
  mk_ann_store (<[obj := r]> (attr st))
               (<[r := index_annotation a (get_metadata st obj)]> (dicts st))
               (lookup_order st).

Definition all (cls : ann_class) (st : ann_store) (obj : py_object) : list (annotation P) :=
  default [] (dict_get cls (get_metadata st obj)).

Definition exists_ (cls : ann_class) (st : ann_store) (obj : py_object) : bool :=
  dict_has cls (get_metadata st obj).

(** [annotations[0]] after the length test of [get], [get_or_none] and
    [get_or_default]; the lists of a metadata dictionary are never empty. *)
Definition single (l : list (annotation P)) : outcome annotation_error (annotation P) :=
  match l with
  | [a] => Ok a
  | [] => Raise AnnotationNotFoundError
  | _ => Raise MultipleAnnotationFoundError
  end.

Definition get (cls : ann_class) (st : ann_store) (obj : py_object)
    : outcome annotation_error (annotation P) :=
  match dict_get cls (get_metadata st obj) with
  | None => Raise AnnotationNotFoundError
  | Some annotations => single annotations
  end.

Definition get_or_none (cls : ann_class) (st : ann_store) (obj : py_object)
    : outcome annotation_error (option (annotation P)) :=
  match dict_get cls (get_metadata st obj) with
  | None => Ok None
  | Some annotations => Some <$> single annotations
  end.

Definition get_or_default (cls : ann_class) (st : ann_store) (obj : py_object)
    (dflt : annotation P) : outcome annotation_error (annotation P) :=
  match dict_get cls (get_metadata st obj) with
  | None => Ok dflt
  | Some annotations => single annotations
  end.

(** ** Lemmas *)

Implicit Types (st : ann_store) (a : annotation P) (cls : ann_class).

(** References used by attributes are allocated, and no list indexed under
    an annotation class is empty. *)
Definition ann_wf st : Prop :=
  (∀ o r, attr st !! o = Some r → is_Some (dicts st !! r)) ∧
  (∀ o, ∃ rest, lookup_order st o = o :: rest) ∧
  (∀ r md cls l, dicts st !! r = Some md → dict_get cls md = Some l → l ≠ []).

Lemma index_step a cls base md :
  dict_get cls
    (let md' := if dict_has base md then md else dict_set base [] md in
     dict_set base (default [] (dict_get base md') ++ [a]) md') =
  if decide (cls = base) then Some (default [] (dict_get cls md) ++ [a])
  else dict_get cls md.
Proof.
  simpl. destruct (decide (cls = base)) as [->|Hne].
  - rewrite dict_get_set_eq. unfold dict_has.
    destruct (dict_get base md) as [l|] eqn:Hb; [by rewrite Hb|].
    by rewrite dict_get_set_eq.
  - rewrite dict_get_set_ne by done. destruct (dict_has base md); [done|].
    by rewrite dict_get_set_ne.
Qed.

Lemma index_annotation_get a cls md :
  NoDup (ann_mro a) →
  dict_get cls (index_annotation a md) =
    if decide (cls ∈ ann_mro a) then Some (default [] (dict_get cls md) ++ [a])
    else dict_get cls md.
Proof.
  unfold index_annotation. revert md.
  induction (ann_mro a) as [|base mro IH]; intros md; [done|].
  rewrite NoDup_cons. intros [Hb Hmro]. cbn [foldl]. rewrite IH by done.
  rewrite index_step. destruct (decide (cls = base)) as [->|Hne].
  - by rewrite (decide_False (P := base ∈ mro)), (decide_True (P := base ∈ base :: mro)) by set_solver.
  - destruct (decide (cls ∈ mro)).
    + by rewrite decide_True by set_solver.
    + by rewrite decide_False by set_solver.
Qed.

Lemma first_attr_insert_self own o rest r :
  first_attr (<[o := r]> own) (o :: rest) = Some r.
Proof. simpl. by rewrite lookup_insert_eq. Qed.

Lemma get_metadata_set_self a obj st :
  ann_wf st →
  get_metadata (set_metadata a obj st) obj = index_annotation a (get_metadata st obj).
Proof.
  intros (_ & Hord & _). destruct (Hord obj) as [rest Hrest].
  unfold get_metadata at 1, metadata_ref, set_metadata. cbn.
  rewrite Hrest, first_attr_insert_self, lookup_insert_eq. done.
Qed.

Lemma first_attr_dicts st o r :
  ann_wf st → metadata_ref st o = Some r → is_Some (dicts st !! r).
Proof.
  intros (Hattr & _ & _). unfold metadata_ref.
  induction (lookup_order st o) as [|o' order IH]; simpl; [done|].
  destruct (attr st !! o') eqn:Ho'; [intros [= <-]; eauto|done].
Qed.

Lemma first_attr_insert_other own obj r order :
  obj ∉ order → first_attr (<[obj := r]> own) order = first_attr own order.
Proof.
  induction order as [|o order IH]; simpl; [done|].
  rewrite not_elem_of_cons. intros [Hne Hin].
  rewrite lookup_insert_ne by done. by rewrite IH.
Qed.

(** An object that does not reach [obj] and does not share its dictionary
    keeps its metadata. *)
Lemma get_metadata_set_other a obj st o :
  ann_wf st →
  obj ∉ lookup_order st o →
  (metadata_ref st o = metadata_ref st obj → metadata_ref st o = None) →
  get_metadata (set_metadata a obj st) o = get_metadata st o.
Proof.
  intros Hwf Hin Hdiff.
  assert (metadata_ref (set_metadata a obj st) o = metadata_ref st o) as Href.
  { unfold metadata_ref, set_metadata. cbn. by apply first_attr_insert_other. }
  unfold get_metadata. rewrite Href.
  destruct (metadata_ref st o) as [r|] eqn:Ho; [|done].
  cbn. destruct (metadata_ref st obj) as [r'|] eqn:Hobj.
  - rewrite lookup_insert_ne; [done|]. intros ->. by specialize (Hdiff eq_refl).
  - rewrite lookup_insert_ne; [done|]. intros <-.
    destruct (first_attr_dicts st o (fresh_ref st) Hwf Ho) as [md Hmd].
    apply (is_fresh (dom (dicts st))). apply elem_of_dom. eauto.
Qed.

Lemma index_annotation_nonempty a md :
  NoDup (ann_mro a) →
  (∀ cls l, dict_get cls md = Some l → l ≠ []) →
  ∀ cls l, dict_get cls (index_annotation a md) = Some l → l ≠ [].
Proof.
  intros Hmro Hmd cls l. rewrite index_annotation_get by done.
  case_decide; [intros [= <-]; by destruct (default _ _)|apply Hmd].
Qed.

Lemma get_metadata_nonempty st obj cls l :
  ann_wf st → dict_get cls (get_metadata st obj) = Some l → l ≠ [].
Proof.
  intros (_ & _ & Hne). unfold get_metadata.
  destruct (metadata_ref st obj) as [r|]; [|done].
  destruct (dicts st !! r) as [md|] eqn:Hr; simpl; [eauto|done].
Qed.

Lemma set_metadata_wf a obj st :
  NoDup (ann_mro a) → ann_wf st → ann_wf (set_metadata a obj st).
Proof.
  intros Hmro Hwf. pose proof Hwf as (Hattr & Hord & Hne).
  unfold set_metadata. set (r := match metadata_ref st obj with Some _ => _ | None => _ end).
  split_and!; cbn.
  - intros o r'. destruct (decide (o = obj)) as [->|Ho].
    + rewrite lookup_insert_eq. intros [= <-]. rewrite lookup_insert_eq. eauto.
    + rewrite lookup_insert_ne by done. intros Ho'.
      destruct (decide (r' = r)) as [->|Hr]; [rewrite lookup_insert_eq; eauto|].
      rewrite lookup_insert_ne by done. eauto.
  - done.
  - intros r' md cls l. destruct (decide (r' = r)) as [->|Hr].
    + rewrite lookup_insert_eq. intros [= <-].
      apply index_annotation_nonempty; [done|]. intros. by eapply get_metadata_nonempty.
    + rewrite lookup_insert_ne by done. eauto.
Qed.

Lemma all_set_metadata a obj st cls :
  ann_wf st → NoDup (ann_mro a) →
  all cls (set_metadata a obj st) obj =
    if decide (cls ∈ ann_mro a) then all cls st obj ++ [a] else all cls st obj.
Proof.
  intros Hwf Hmro. unfold all.
  rewrite get_metadata_set_self, index_annotation_get by done.
  by destruct (decide (cls ∈ ann_mro a)).
Qed.

(** Decorating an object appends the annotation, for that object, to
    exactly the lists indexed under the annotation's own classes (its MRO),
    in order of decoration, and leaves its other lists alone; the store stays
    well formed, so [annotations[0]] never fails on an indexed class. *)
Theorem annotate_indexes_mro a obj st cls :
  ann_wf st → NoDup (ann_mro a) →
  all cls (set_metadata a obj st) obj =
    (if decide (cls ∈ ann_mro a) then all cls st obj ++ [a] else all cls st obj) ∧
  ann_wf (set_metadata a obj st).
Proof.
  intros Hwf Hmro. split; [by apply all_set_metadata|by apply set_metadata_wf].
Qed.

(** Decorating a class that has no metadata of its own but inherits a
    decorated base's mutates the dictionary of that base: the annotation
    shows up on the base, and a base that was decorated once with the same
    annotation class can no longer be read with [get]. *)
Theorem annotating_subclass_mutates_base a child base st cls r :
  ann_wf st → NoDup (ann_mro a) → cls ∈ ann_mro a →
  metadata_ref st child = Some r → metadata_ref st base = Some r →
  child ∉ lookup_order st base →
  all cls (set_metadata a child st) base = all cls st base ++ [a] ∧
  (all cls st base ≠ [] →
   get cls (set_metadata a child st) base = Raise MultipleAnnotationFoundError).
Proof.
  intros Hwf Hmro Hcls Hc Hb Hin.
  assert (dict_get cls (get_metadata (set_metadata a child st) base) =
          Some (all cls st base ++ [a])) as Hget.
  { unfold get_metadata at 1.
    replace (metadata_ref (set_metadata a child st) base) with (Some r).
    - unfold set_metadata. cbn. rewrite Hc, lookup_insert_eq. simpl.
      rewrite index_annotation_get, decide_True by done.
      unfold all, get_metadata. by rewrite Hc, Hb.
    - unfold metadata_ref, set_metadata. cbn.
      by rewrite first_attr_insert_other. }
  split; [unfold all at 1; by rewrite Hget|].
  intros Hne. unfold get. rewrite Hget.
  destruct (all cls st base) as [|x [|y l]]; simpl; done.
Qed.

(** Objects that are neither related nor share a dictionary do not interfere. *)
Lemma annotate_frame a obj st o cls :
  ann_wf st → obj ∉ lookup_order st o →
  (metadata_ref st o = metadata_ref st obj → metadata_ref st o = None) →
  all cls (set_metadata a obj st) o = all cls st o.
Proof. intros. unfold all. by rewrite get_metadata_set_other. Qed.
End annotation.
Arguments ann_store : clear implicits.

Create HintDb annotation.
#[export] Hint Resolve set_metadata_wf : annotation.

(** ** Witnesses: [@Pod() class A], then [@Pod() class B(A)] *)

Definition ex_order (o : py_object) : list py_object :=
if decide (o = "B") then ["B"; "A"; "object"] else [o].
Definition ex_pod_a : annotation nat := mk_annotation ["Pod"; "Annotation"; "object"] 1.
Definition ex_pod_b : annotation nat := mk_annotation ["Pod"; "Annotation"; "object"] 2.

Definition ann_store_empty : ann_store nat := mk_ann_store ∅ ∅ ex_order.
Definition ann_store_a : ann_store nat := set_metadata ex_pod_a "A" ann_store_empty.

Lemma ann_store_empty_wf : ann_wf ann_store_empty.
Proof.
  split_and!; [done| |done]. intros o. cbn. unfold ex_order.
  case_decide; subst; eauto.
Qed.

Lemma annotate_indexes_mro_witness :
  all "Annotation" ann_store_a "A" = [ex_pod_a] ∧ ann_wf ann_store_a.
Proof.
  destruct (annotate_indexes_mro ex_pod_a "A" ann_store_empty "Annotation") as [H1 H2].
  - apply ann_store_empty_wf.
  - decide_compute.
  - split; [exact H1|exact H2].
Defined.

Lemma annotating_subclass_mutates_base_witness :
  all "Pod" (set_metadata ex_pod_b "B" ann_store_a) "A" = [ex_pod_a; ex_pod_b] ∧
  get "Pod" (set_metadata ex_pod_b "B" ann_store_a) "A" = Raise MultipleAnnotationFoundError.
Proof.
  destruct (annotating_subclass_mutates_base ex_pod_b "B" "A" ann_store_a "Pod" 0)
    as [H1 H2].
  - apply set_metadata_wf; [|apply ann_store_empty_wf].
    decide_compute.
  - decide_compute.
  - decide_compute.
  - vm_compute. done.
  - vm_compute. done.
  - decide_compute.
  - split; [exact H1|]. apply H2. vm_compute. done.
Defined.
