(* ===== verification/Auth.v ===== *)
(** * Authorization: [core/spakky-auth/src/spakky/auth/]

    Decisions ([decision.py]), the authenticated context ([context.py]),
    protected-boundary metadata ([metadata.py]) and the AOP aspects that
    enforce it ([aspects/authorization.py]). The provider ports of [ports.py]
    are the fields of [auth_ports]; a provider answers with a decision or
    raises. *)

From S2P Require Import Prelude Annotation.

(** ** Decisions *)

Inductive AuthorizationDecisionState := ALLOW | CHALLENGE | DENY | ERROR.

Inductive AuthorizationReasonCode :=
  | AUTHORIZED | MISSING_CREDENTIAL | INVALID_CREDENTIAL | EXPIRED_CREDENTIAL
  | INSUFFICIENT_ROLE | INSUFFICIENT_SCOPE | POLICY_DENIED | SNAPSHOT_MISSING
  | SNAPSHOT_INVALID | SNAPSHOT_EXPIRED | VERIFICATION_PROVIDER_UNAVAILABLE
  | INTERNAL_ERROR.

Global Instance decision_state_eq_dec : EqDecision AuthorizationDecisionState.
Proof. solve_decision. Defined.
Global Instance reason_code_eq_dec : EqDecision AuthorizationReasonCode.
Proof. solve_decision. Defined.

Record AuthorizationDecision := mk_decision {
  state : AuthorizationDecisionState;
  reason_code : AuthorizationReasonCode;
  reason : option string;
}.

Global Instance decision_eq_dec : EqDecision AuthorizationDecision.
Proof. solve_decision. Defined.

Definition decision_allow_with (c : AuthorizationReasonCode) (r : option string) :=
  mk_decision ALLOW c r.
Definition decision_allow : AuthorizationDecision := decision_allow_with AUTHORIZED None.
Definition decision_challenge (c : AuthorizationReasonCode) (r : option string) :=
  mk_decision CHALLENGE c r.
Definition decision_deny (c : AuthorizationReasonCode) (r : option string) :=
  mk_decision DENY c r.
Definition decision_error (c : AuthorizationReasonCode) (r : option string) :=
  mk_decision ERROR c r.

Definition MISSING_SNAPSHOT_DECISION := decision_challenge SNAPSHOT_MISSING None.
Definition INVALID_SNAPSHOT_DECISION := decision_challenge SNAPSHOT_INVALID None.
Definition EXPIRED_SNAPSHOT_DECISION := decision_challenge SNAPSHOT_EXPIRED None.
Definition VERIFICATION_PROVIDER_UNAVAILABLE_DECISION :=
  decision_error VERIFICATION_PROVIDER_UNAVAILABLE None.

(** ** Claims, subjects, contexts *)

(** [str | int | float | bool | None]; a finite float is the rational it denotes. *)
Inductive AuthClaimValue :=
  | CNone
  | CBool (b : bool)
  | CInt (z : Z)
  | CFloat (q : QArith_base.Q)
  | CStr (s : string).

Record AuthClaim := mk_claim { claim_name : string; claim_value : AuthClaimValue }.
Record AuthSubject := mk_subject { subject_id : string; display_name : option string }.

Inductive CredentialCarrierKind :=
  | BEARER_TOKEN | API_KEY | BASIC | CLIENT_CERTIFICATE | AUTH_CONTEXT_SNAPSHOT.
Inductive CredentialCarrierLocation :=
  | AUTHORIZATION_HEADER | HEADER | QUERY_PARAMETER | METADATA | COOKIE
  | CLI_OPTION | APPLICATION_CONTEXT.
Record CredentialCarrier := mk_carrier {
  carrier_kind : CredentialCarrierKind;
  carrier_location : CredentialCarrierLocation;
  carrier_material : string;
  carrier_name : option string;
  carrier_scheme : option string;
}.

Record AuthContext := mk_auth_context {
  subject : AuthSubject;
  issuer : string;
  tenant : option string;
  roles : list string;
  scopes : list string;
  claims : list AuthClaim;
  credential_carrier : option CredentialCarrier;
  context_metadata : list AuthClaim;
}.

(** What an application context may hold under a key. *)
Inductive context_value := VAuthContext (c : AuthContext) | VOther.

(** ** Errors

    [OtherError] stands for an exception of another hierarchy that a port raises. *)

Inductive auth_error :=
  | AuthContextNotFoundError
  | InvalidAuthContextValueError
  | ConflictingAuthMetadataError
  | AuthRequirementDeniedError (decision : AuthorizationDecision)
  | AuthRequirementProviderUnavailableError
  | MissingAuthContextSnapshotError
  | InvalidAuthContextSnapshotError
  | ExpiredAuthContextSnapshotError
  | AuthVerificationProviderUnavailableError
  | CredentialCarrierError
  | AuthenticationError
  | OtherError (class_name : string).

(** ** Invocations *)

(** Attributes are strings or [None] where the boundaries of the repository build them. *)
Record AuthInvocation := mk_auth_invocation {
  inv_boundary : string;
  inv_operation : string;
  inv_attributes : list (string * option string);
}.

Definition AUTH_CONTEXT_CONTEXT_KEY : string := "spakky.auth.context".
Definition AUTH_CONTEXT_SNAPSHOT_METADATA_KEY : string := "spakky.auth.context_snapshot".
Definition AUTH_CONTEXT_SNAPSHOT_HEADER_KEY : string := "x-spakky-auth-context-snapshot".

(** [application_context.get_context_value] *)
Abbreviation context_values := (string → option context_value).

Definition require_auth_context (ctx : context_values) : outcome auth_error AuthContext :=
  match ctx AUTH_CONTEXT_CONTEXT_KEY with
  | Some (VAuthContext c) => Ok c
  | None => Raise AuthContextNotFoundError
  | Some VOther => Raise InvalidAuthContextValueError
  end.

(** ** Requirements *)

Inductive AuthRequirementKind :=
  | AUTHENTICATED | PERMISSION | POLICY | RELATION | ROLE | SCOPE.

Global Instance requirement_kind_eq_dec : EqDecision AuthRequirementKind.
Proof. solve_decision. Defined.

Record AuthRequirement := mk_requirement {
  kind : AuthRequirementKind;
  ref : string;
  resource : option string;
  action : option string;
  req_tenant : option string;
}.

Global Instance requirement_eq_dec : EqDecision AuthRequirement.
Proof. solve_decision. Defined.

Definition AUTHENTICATED_REQUIREMENT_REF : string := "authenticated".

Definition protected_requirement : AuthRequirement :=
  mk_requirement AUTHENTICATED AUTHENTICATED_REQUIREMENT_REF None None None.
Definition require_permission (permission : string) (res ten : option string) :=
  mk_requirement PERMISSION permission res None ten.
Definition require_policy (res act : string) (ten : option string) :=
  mk_requirement POLICY res (Some res) (Some act) ten.
Definition require_relation (relation res : string) (ten : option string) :=
  mk_requirement RELATION relation (Some res) None ten.
Definition require_role (role : string) (ten : option string) :=
  mk_requirement ROLE role None None ten.
Definition require_scope (scope : string) :=
  mk_requirement SCOPE scope None None None.

Record EffectiveAuthMetadata := mk_effective {
  public_access : bool;
  requirements : list AuthRequirement;
}.

Definition protected (md : EffectiveAuthMetadata) : bool :=
  (0 <? length (requirements md))%nat.

(** ** Metadata of a boundary

    An annotation of this package carries a requirement ([ProtectedRequirement])
    or nothing ([PublicAccess]). *)

Definition PublicAccess_class : ann_class := "PublicAccess".
Definition ProtectedRequirement_class : ann_class := "ProtectedRequirement".

Definition PublicAccess : annotation (option AuthRequirement) :=
  mk_annotation [PublicAccess_class; "Annotation"; "object"] None.
Definition ProtectedRequirement (r : AuthRequirement) : annotation (option AuthRequirement) :=
  mk_annotation [ProtectedRequirement_class; "Annotation"; "object"] (Some r).

Abbreviation auth_store := (ann_store (option AuthRequirement)).

(** [public_access(obj)] and [_requirement_decorator(requirement)(obj)] *)
Definition public_access_decorator (obj : py_object) (st : auth_store) : auth_store :=
  set_metadata PublicAccess obj st.
Definition requirement_decorator (r : AuthRequirement) (obj : py_object) (st : auth_store)
    : auth_store := set_metadata (ProtectedRequirement r) obj st.

(** What can be inspected: a class, a callable with its [__self__], or an
    instance that is not callable. *)
Inductive bound_self := SelfClass (c : py_object) | SelfInstance (cls : py_object).
Inductive boundary :=
  | BClass (c : py_object)
  | BCallable (f : py_object) (self : option bound_self)
  | BInstance (o cls : py_object).

Definition boundary_object (b : boundary) : py_object :=
  match b with BClass c => c | BCallable f _ => f | BInstance o _ => o end.

Definition _owner_type (b : boundary) : option py_object :=
  match b with
  | BCallable _ (Some (SelfClass c)) => Some c
  | BCallable _ (Some (SelfInstance cls)) => Some cls
  | _ => None
  end.

Definition _metadata_sources (b : boundary) (owner_type : option py_object) : list py_object :=
  match b with
  | BClass c => [c]
  | _ =>
      let resolved_owner :=
        match owner_type with Some o => Some o | None => _owner_type b end in
      match resolved_owner with
      | None => [boundary_object b]
      | Some owner => [owner; boundary_object b]
      end
  end.

Definition source_requirements (st : auth_store) (source : py_object) : list AuthRequirement :=
  omap ann_payload (all ProtectedRequirement_class st source).

Definition _dedupe_requirements (l : list AuthRequirement) : list AuthRequirement := dedup l.

Definition get_effective_auth_metadata (st : auth_store) (b : boundary)
    (owner_type : option py_object) : outcome auth_error EffectiveAuthMetadata :=
  let sources := _metadata_sources b owner_type in
  let public := existsb (exists_ PublicAccess_class st) sources in
  let reqs := _dedupe_requirements (sources ≫= source_requirements st) in
  if public && (0 <? length reqs)%nat then Raise ConflictingAuthMetadataError
  else Ok (mk_effective public reqs).

Definition _source_has_auth_metadata (st : auth_store) (source : py_object) : bool :=
  exists_ PublicAccess_class st source ||
  (0 <? length (all ProtectedRequirement_class st source))%nat.

(** [callable_members] is [getmembers_static] restricted to callables. *)
Definition _type_has_method_auth_metadata (st : auth_store)
    (callable_members : py_object → list py_object) (cls : py_object) : bool :=
  existsb (_source_has_auth_metadata st) (callable_members cls).

Definition has_auth_boundary_metadata (st : auth_store)
    (callable_members : py_object → list py_object) (b : boundary) : bool :=
  if _source_has_auth_metadata st (boundary_object b) then true
  else match b with
       | BClass c => _type_has_method_auth_metadata st callable_members c
       | BCallable f _ =>
           match _owner_type b with
           | None => _source_has_auth_metadata st f
           | Some owner => _source_has_auth_metadata st owner || _source_has_auth_metadata st f
           end
       | BInstance _ cls =>
           _source_has_auth_metadata st cls ||
           _type_has_method_auth_metadata st callable_members cls
       end.

(** ** Provider ports *)

Record AuthorizationRequest := mk_authorization_request {
  ar_auth_context : AuthContext; ar_resource : string; ar_action : string;
  ar_tenant : option string }.
Record PermissionCheckRequest := mk_permission_request {
  pr_auth_context : AuthContext; pr_permission : string; pr_resource : option string;
  pr_tenant : option string }.
Record RoleCheckRequest := mk_role_request {
  rr_auth_context : AuthContext; rr_role : string; rr_tenant : option string }.
Record ScopeCheckRequest := mk_scope_request {
  sr_auth_context : AuthContext; sr_scope : string }.
Record RelationCheckRequest := mk_relation_request {
  lr_auth_context : AuthContext; lr_relation : string; lr_resource : string;
  lr_tenant : option string }.

Abbreviation verdict := (outcome auth_error AuthorizationDecision).

Record auth_ports := mk_auth_ports {
  authorization_policy_evaluator : option (AuthorizationRequest → verdict);
  permission_checker : option (PermissionCheckRequest → verdict);
  relation_checker : option (RelationCheckRequest → verdict);
  role_checker : option (RoleCheckRequest → verdict);
  scope_checker : option (ScopeCheckRequest → verdict);
}.

(** ** The aspects *)

Record AuthorizationAspect := mk_aspect {
  _application_context : option context_values;
  _ports : auth_ports;
}.

Definition _required_application_context (asp : AuthorizationAspect)
    : outcome auth_error context_values :=
  match _application_context asp with
  | None => Raise AuthContextNotFoundError
  | Some c => Ok c
  end.

Definition _evaluate_requirement (asp : AuthorizationAspect) (r : AuthRequirement)
    (c : AuthContext) : verdict :=
  let ports := _ports asp in
  match kind r with
  | AUTHENTICATED => Ok decision_allow
  | PERMISSION =>
      match permission_checker ports with
      | None => Raise AuthRequirementProviderUnavailableError
      | Some check_permission =>
          check_permission (mk_permission_request c (ref r) (resource r) (req_tenant r))
      end
  | POLICY =>
      match authorization_policy_evaluator ports with
      | None => Raise AuthRequirementProviderUnavailableError
      | Some evaluate_policy =>
          match resource r, action r with
          | Some res, Some act =>
              evaluate_policy (mk_authorization_request c res act (req_tenant r))
          | _, _ => Raise AuthRequirementProviderUnavailableError
          end
      end
  | RELATION =>
      match relation_checker ports, resource r with
      | Some check_relation, Some res =>
          check_relation (mk_relation_request c (ref r) res (req_tenant r))
      | _, _ => Raise AuthRequirementProviderUnavailableError
      end
  | ROLE =>
      match role_checker ports with
      | None => Raise AuthRequirementProviderUnavailableError
      | Some check_role => check_role (mk_role_request c (ref r) (req_tenant r))
      end
  | SCOPE =>
      match scope_checker ports with
      | None => Raise AuthRequirementProviderUnavailableError
      | Some check_scope => check_scope (mk_scope_request c (ref r))
      end
  end.

(** [for requirement in metadata.requirements: ...] of [around] *)
Fixpoint enforce (asp : AuthorizationAspect) (c : AuthContext) (rs : list AuthRequirement)
    : outcome auth_error unit :=
  match rs with
  | [] => Ok tt
  | r :: rs' =>
      match _evaluate_requirement asp r c with
      | Raise e => Raise e
      | Ok d =>
          if decide (state d = ALLOW) then enforce asp c rs'
          else Raise (AuthRequirementDeniedError d)
      end
  end.

Section around.
Context {S A : Type}.

(** [joinpoint] carries its metadata ([b]) and runs in the world [S]. *)
Definition AuthorizationAspect_around (asp : AuthorizationAspect) (st : auth_store)
    (b : boundary) (joinpoint : comp S auth_error A) : comp S auth_error A :=
  metadata <- lift (get_effective_auth_metadata st b None) ;;
  if negb (protected metadata) then joinpoint
  else
    ctx <- lift (_required_application_context asp) ;;
    auth_context <- lift (require_auth_context ctx) ;;
    lift (enforce asp auth_context (requirements metadata)) ;;;
    joinpoint.
End around.

(** The asynchronous aspect: a second class with its own copy of the checks. *)

Definition _evaluate_requirement_async (asp : AuthorizationAspect) (r : AuthRequirement)
    (c : AuthContext) : verdict :=
  if decide (kind r = AUTHENTICATED) then Ok decision_allow
  else if decide (kind r = PERMISSION) then
    match permission_checker (_ports asp) with
    | None => Raise AuthRequirementProviderUnavailableError
    | Some check_permission =>
        check_permission (mk_permission_request c (ref r) (resource r) (req_tenant r))
    end
  else if decide (kind r = POLICY) then
    match authorization_policy_evaluator (_ports asp), resource r, action r with
    | Some evaluate_policy, Some res, Some act =>
        evaluate_policy (mk_authorization_request c res act (req_tenant r))
    | _, _, _ => Raise AuthRequirementProviderUnavailableError
    end
  else if decide (kind r = RELATION) then
    match relation_checker (_ports asp), resource r with
    | Some check_relation, Some res =>
        check_relation (mk_relation_request c (ref r) res (req_tenant r))
    | _, _ => Raise AuthRequirementProviderUnavailableError
    end
  else if decide (kind r = ROLE) then
    match role_checker (_ports asp) with
    | None => Raise AuthRequirementProviderUnavailableError
    | Some check_role => check_role (mk_role_request c (ref r) (req_tenant r))
    end
  else if decide (kind r = SCOPE) then
    match scope_checker (_ports asp) with
    | None => Raise AuthRequirementProviderUnavailableError
    | Some check_scope => check_scope (mk_scope_request c (ref r))
    end
  else Raise AuthRequirementProviderUnavailableError.

Section around_async.
Context {S A : Type}.

(** The loop is the [for_each] of the coroutine's body. *)
Definition AsyncAuthorizationAspect_around_async (asp : AuthorizationAspect)
    (st : auth_store) (b : boundary) (joinpoint : comp S auth_error A)
    : comp S auth_error A :=
  metadata <- lift (get_effective_auth_metadata st b None) ;;
  if negb (protected metadata) then joinpoint
  else
    ctx <- lift (_required_application_context asp) ;;
    auth_context <- lift (require_auth_context ctx) ;;
    for_each (λ r,
      d <- lift (_evaluate_requirement_async asp r auth_context) ;;
      if decide (state d = ALLOW) then ret tt
      else raise (AuthRequirementDeniedError d)) (requirements metadata) ;;;
    joinpoint.
End around_async.

(** ** Lemmas *)

Lemma enforce_Ok asp c rs u :
  enforce asp c rs = Ok u ↔
  ∀ r, r ∈ rs → ∃ d, _evaluate_requirement asp r c = Ok d ∧ state d = ALLOW.
Proof.
  destruct u. induction rs as [|r rs IH]; simpl.
  { split; [|done]. intros _ r Hr. by apply not_elem_of_nil in Hr. }
  setoid_rewrite elem_of_cons.
  destruct (_evaluate_requirement asp r c) as [d|e] eqn:Hr.
  - case_decide as Hd.
    + rewrite IH. split; [|naive_solver]. intros H r' [->|Hin]; eauto.
    + split; [done|]. intros H. destruct (H r (or_introl eq_refl)) as (d' & Hd' & ?).
      congruence.
  - split; [done|]. intros H. destruct (H r (or_introl eq_refl)) as (d' & Hd' & ?).
    congruence.
Qed.

Lemma protected_false md : protected md = false ↔ requirements md = [].
Proof. unfold protected. by destruct (requirements md). Qed.

Lemma elem_of_requirements st b owner md r :
  get_effective_auth_metadata st b owner = Ok md →
  r ∈ requirements md ↔
    ∃ source, source ∈ _metadata_sources b owner ∧ r ∈ source_requirements st source.
Proof.
  unfold get_effective_auth_metadata. destruct (_ && _); [done|]. intros [= <-].
  cbn [requirements]. unfold _dedupe_requirements.
  rewrite elem_of_dedup, list_elem_of_bind. naive_solver.
Qed.

(** The abstract policy of the aspects: what it takes for a boundary to run. *)
Definition authorized (asp : AuthorizationAspect) (st : auth_store) (b : boundary) : Prop :=
  ∃ md, get_effective_auth_metadata st b None = Ok md ∧
    (requirements md = [] ∨
     ∃ ctx c, _application_context asp = Some ctx ∧ require_auth_context ctx = Ok c ∧
       ∀ r, r ∈ requirements md →
         ∃ d, _evaluate_requirement asp r c = Ok d ∧ state d = ALLOW).

Lemma around_authorized {S A} asp st b (jp : comp S auth_error A) s :
  authorized asp st b → AuthorizationAspect_around asp st b jp s = jp s.
Proof.
  intros (md & Hmd & Hreq). unfold AuthorizationAspect_around, bind, lift. rewrite Hmd.
  destruct (protected md) eqn:Hp; simpl; [|done].
  destruct Hreq as [Hnil|(ctx & c & Hctx & Hc & Hall)].
  - apply protected_false in Hnil. congruence.
  - unfold _required_application_context. rewrite Hctx, Hc.
    by rewrite (proj2 (enforce_Ok asp c (requirements md) tt) Hall).
Qed.

Lemma around_unauthorized {S A} asp st b (jp : comp S auth_error A) s :
  ¬ authorized asp st b → ∃ e, AuthorizationAspect_around asp st b jp s = (Raise e, s).
Proof.
  intros Hno. unfold AuthorizationAspect_around, bind, lift.
  destruct (get_effective_auth_metadata st b None) as [md|e] eqn:Hmd; [|eauto].
  destruct (protected md) eqn:Hp; simpl.
  2: { exfalso. apply Hno. exists md. apply protected_false in Hp. auto. }
  destruct (_required_application_context asp) as [ctx|e] eqn:Hctx; [|eauto].
  destruct (require_auth_context ctx) as [c|e] eqn:Hc; [|eauto].
  destruct (enforce asp c (requirements md)) as [u|e] eqn:He; [|eauto].
  exfalso. apply Hno. exists md. split; [done|]. right. exists ctx, c.
  split_and!; [|done|by apply (enforce_Ok asp c (requirements md) u)].
  unfold _required_application_context in Hctx. by destruct (_application_context asp); simplify_eq.
Qed.

Lemma decorated_requirement_checked {S A} asp st f self r (jp : comp S auth_error A) s a s' :
  ann_wf st →
  AuthorizationAspect_around asp (requirement_decorator r f st) (BCallable f self) jp s
    = (Ok a, s') →
  ∃ ctx c d, _application_context asp = Some ctx ∧ require_auth_context ctx = Ok c ∧
    _evaluate_requirement asp r c = Ok d ∧ state d = ALLOW.
Proof.
  intros Hwf Hrun. set (st' := requirement_decorator r f st) in *.
  assert (r ∈ source_requirements st' f) as Hr.
  { unfold source_requirements, st', requirement_decorator.
    rewrite all_set_metadata; [|done|decide_compute].
    rewrite decide_True by decide_compute.
    rewrite list_elem_of_omap. exists (ProtectedRequirement r). set_solver. }
  destruct (get_effective_auth_metadata st' (BCallable f self) None) as [md|e] eqn:Hmd.
  2: { unfold AuthorizationAspect_around, bind, lift in Hrun. by rewrite Hmd in Hrun. }
  assert (r ∈ requirements md) as Hin.
  { apply (elem_of_requirements _ _ _ _ r Hmd). exists f. split; [|done].
    simpl. destruct self as [[]|]; set_solver. }
  unfold AuthorizationAspect_around, bind, lift in Hrun. rewrite Hmd in Hrun.
  destruct (protected md) eqn:Hp; simpl in Hrun.
  2: { apply protected_false in Hp. rewrite Hp in Hin. set_solver. }
  unfold _required_application_context in Hrun.
  destruct (_application_context asp) as [ctx|] eqn:Hctx; [|done].
  destruct (require_auth_context ctx) as [c|] eqn:Hc; [|done].
  destruct (enforce asp c (requirements md)) as [u|] eqn:He; [|done].
  destruct (proj1 (enforce_Ok _ _ _ _) He r Hin) as (d & ? & ?).
  exists ctx, c, d. done.
Qed.

(** ** Properties *)

(** C16. The aspect is fail-closed: when the boundary has no protected
    requirement, or an authenticated context is available and every requirement
    is answered with ALLOW, the call behaves as the join point; in every other
    case it raises, the join point does not run and the world is unchanged. *)
Theorem around_fail_closed {S A} asp st b (jp : comp S auth_error A) s :
  (authorized asp st b → AuthorizationAspect_around asp st b jp s = jp s) ∧
  (¬ authorized asp st b → ∃ e, AuthorizationAspect_around asp st b jp s = (Raise e, s)).
Proof. split; [apply around_authorized|apply around_unauthorized]. Qed.

(** Class and method metadata are aggregated with AND semantics: the
    effective requirements are exactly those of the sources, without
    repetition, and a boundary both public and protected is rejected. *)
Theorem effective_metadata_aggregates st b owner :
  match get_effective_auth_metadata st b owner with
  | Ok md =>
      NoDup (requirements md) ∧
      (∀ r, r ∈ requirements md ↔ ∃ source,
         source ∈ _metadata_sources b owner ∧ r ∈ source_requirements st source) ∧
      (public_access md = true → requirements md = [])
  | Raise e =>
      e = ConflictingAuthMetadataError ∧
      (∃ source, source ∈ _metadata_sources b owner ∧
         exists_ PublicAccess_class st source = true) ∧
      (∃ source r, source ∈ _metadata_sources b owner ∧ r ∈ source_requirements st source)
  end.
Proof.
  pose proof (elem_of_requirements st b owner) as Helem.
  unfold get_effective_auth_metadata in *.
  set (public := existsb _ _) in *. set (reqs := _dedupe_requirements _) in *.
  assert (reqs = [] ∨ (0 <? length reqs)%nat = true) as Hreqs
    by (destruct reqs; auto).
  destruct (public && _) eqn:Hc.
  - apply andb_true_iff in Hc as [Hpub Hlen]. split_and!; [done| |].
    + apply existsb_exists in Hpub as (source & Hin & Hs).
      exists source. by rewrite list_elem_of_In.
    + destruct reqs as [|r reqs'] eqn:Hr; [done|].
      assert (r ∈ reqs) as Hin by (subst reqs; rewrite Hr; left).
      unfold reqs, _dedupe_requirements in Hin.
      rewrite elem_of_dedup, list_elem_of_bind in Hin. naive_solver.
  - split_and!; [apply NoDup_dedup|intros r; by apply (Helem _ r eq_refl)|].
    cbn. intros ->. destruct Hreqs as [|Hlen]; [done|]. by rewrite Hlen in Hc.
Qed.

(** Decorating a callable with a requirement makes the aspect enforce that
    requirement: the call behaves as the join point only when the provider of
    that requirement answers ALLOW for the current authenticated context. *)
Theorem decorated_requirement_enforced {S A} asp st f self r (jp : comp S auth_error A) s a s' :
  ann_wf st →
  AuthorizationAspect_around asp (requirement_decorator r f st) (BCallable f self) jp s
    = (Ok a, s') →
  ∃ ctx c d, _application_context asp = Some ctx ∧ require_auth_context ctx = Ok c ∧
    _evaluate_requirement asp r c = Ok d ∧ state d = ALLOW.
Proof. apply decorated_requirement_checked. Qed.

(** The asynchronous aspect enforces the same policy as the synchronous
    one: its separate copy of the checks gives the same outcome in every world. *)
Theorem async_around_equiv {S A} asp st b (jp : comp S auth_error A) :
  AsyncAuthorizationAspect_around_async asp st b jp ≡ AuthorizationAspect_around asp st b jp.
Proof.
  assert (∀ r c, _evaluate_requirement_async asp r c = _evaluate_requirement asp r c) as Heval.
  { intros r c. unfold _evaluate_requirement_async, _evaluate_requirement.
    by destruct (kind r). }
  intros s. unfold AsyncAuthorizationAspect_around_async, AuthorizationAspect_around, bind, lift.
  destruct (get_effective_auth_metadata st b None) as [md|]; [|done].
  destruct (protected md); simpl; [|done].
  destruct (_required_application_context asp) as [ctx|]; [|done].
  destruct (require_auth_context ctx) as [c|]; [|done].
  assert (∀ rs, for_each (λ r, bind (lift (_evaluate_requirement_async asp r c))
     (λ d, if decide (state d = ALLOW) then ret tt
           else raise (AuthRequirementDeniedError d))) rs s = (enforce asp c rs, s)) as Hloop.
  { induction rs as [|r rs IH]; simpl; [done|]. unfold bind, lift in *.
    rewrite Heval. destruct (_evaluate_requirement asp r c) as [d|]; [|done].
    by case_decide. }
  unfold bind, lift in Hloop. rewrite Hloop. by destruct (enforce asp c (requirements md)).
Qed.

(** ** Witness: a method decorated with [require_role("role:admin")] *)

Definition ex_auth_context : AuthContext :=
  mk_auth_context (mk_subject "user:ann" None) "issuer" None ["role:admin"] [] [] None [].
Definition ex_context_values : context_values :=
  λ k, if decide (k = AUTH_CONTEXT_CONTEXT_KEY) then Some (VAuthContext ex_auth_context) else None.
Definition ex_role_port (rq : RoleCheckRequest) : verdict :=
  Ok (if decide (rr_role rq ∈ roles (rr_auth_context rq)) then decision_allow
      else decision_deny INSUFFICIENT_ROLE None).
Definition ex_aspect : AuthorizationAspect :=
  mk_aspect (Some ex_context_values) (mk_auth_ports None None None (Some ex_role_port) None).
Definition ex_auth_store : auth_store := mk_ann_store ∅ ∅ (λ o, [o]).

Lemma ex_auth_store_wf : ann_wf ex_auth_store.
Proof. split_and!; [done| |done]. intros o. by exists []. Qed.

Lemma decorated_requirement_enforced_witness :
  AuthorizationAspect_around ex_aspect
    (requirement_decorator (require_role "role:admin" None) "Api.delete" ex_auth_store)
    (BCallable "Api.delete" (Some (SelfInstance "Api"))) (ret 7) 0 = (Ok 7, 0) ∧
  ∃ ctx c d, _application_context ex_aspect = Some ctx ∧ require_auth_context ctx = Ok c ∧
    _evaluate_requirement ex_aspect (require_role "role:admin" None) c = Ok d ∧
    state d = ALLOW.
Proof.
  split; [vm_compute; reflexivity|].
  apply (decorated_requirement_enforced ex_aspect ex_auth_store "Api.delete"
           (Some (SelfInstance "Api")) (require_role "role:admin" None) (ret 7) 0 7 0).
  - apply ex_auth_store_wf.
  - vm_compute. reflexivity.
Defined.
