(* ===== verification/Policy.v ===== *)
(** * Policy documents: [plugins/spakky-policy/src/spakky/plugins/policy/]

    The document model ([model.py]), its evaluator ([evaluator.py]) and the
    provider that offers it to the authorization aspects
    ([auth_provider.py]). The evaluator recurses on conditions, which may name
    one another; the recursion carries fuel, and running out of it is Python's
    [RecursionError]. *)

From Stdlib Require Import QArith_base.
From S2P Require Import Prelude Annotation Auth.

(** ** Document model *)

Abbreviation PolicyRef := string.
Abbreviation ClaimValue := AuthClaimValue.

Inductive PolicyEffect := EFFECT_ALLOW | EFFECT_DENY.
Inductive ConditionOperator := EQUALS | NOT_EQUALS | IN | CONTAINS | EXISTS.
Inductive ConditionComposition := ALL | ANY | NOT.
Inductive PolicyEvidenceKind :=
  | STATEMENT_MATCHED | STATEMENT_SKIPPED | CONDITION_MATCHED | CONDITION_FAILED
  | DEFAULT_DENY.

Global Instance policy_effect_eq_dec : EqDecision PolicyEffect.
Proof. solve_decision. Defined.

(** [ClaimValue | tuple[ClaimValue, ...]] *)
Inductive ConditionValue := CVScalar (v : ClaimValue) | CVTuple (vs : list ClaimValue).

Inductive PolicyCondition := mk_condition {
  cond_ref : option PolicyRef;
  operator : option ConditionOperator;
  key : option string;
  value : ConditionValue;
  composition : option ConditionComposition;
  children : list PolicyCondition;
}.

Record PolicySubject := mk_policy_subject {
  subj_ref : PolicyRef;
  subj_roles : list PolicyRef;
  subj_scopes : list PolicyRef;
  subj_permissions : list PolicyRef;
  subj_claims : list (string * ClaimValue);
  subj_tenant : option PolicyRef;
}.

(** [PolicyRole] and [PolicyScope] *)
Record PolicyRole := mk_policy_role { role_ref : PolicyRef; role_permissions : list PolicyRef }.
Record PolicyScope := mk_policy_scope { scope_ref : PolicyRef; scope_permissions : list PolicyRef }.

Record PolicyStatement := mk_statement {
  st_ref : PolicyRef;
  effect : PolicyEffect;
  st_subjects : list PolicyRef;
  st_roles : list PolicyRef;
  st_scopes : list PolicyRef;
  st_permissions : list PolicyRef;
  st_resources : list PolicyRef;
  st_actions : list PolicyRef;
  st_tenants : list PolicyRef;
  st_condition : option PolicyCondition;
}.

Record NamedPolicy := mk_named_policy {
  policy_ref : PolicyRef;
  statements : list PolicyStatement;
  policy_description : option string;
}.

(** The resources, actions and permissions a document declares play no part in
    its evaluation; the fields the evaluator reads are these. *)
Record PolicyDocument := mk_document {
  doc_subjects : list PolicySubject;
  doc_roles : list PolicyRole;
  doc_scopes : list PolicyScope;
  doc_policies : list NamedPolicy;
  doc_conditions : list PolicyCondition;
}.

Record PolicyEvaluationEvidence := mk_evidence {
  ev_kind : PolicyEvidenceKind;
  ev_policy : option PolicyRef;
  ev_statement : option PolicyRef;
  ev_reason : string;
}.

Record PolicyEvaluationResult := mk_result {
  allowed : bool;
  res_effect : option PolicyEffect;
  res_evidence : list PolicyEvaluationEvidence;
}.

Record PolicyEvaluationInput := mk_input {
  in_auth_context : AuthContext;
  in_resource : option PolicyRef;
  in_action : option PolicyRef;
  in_tenant : option PolicyRef;
  in_permission : option PolicyRef;
  in_role : option PolicyRef;
  in_scope : option PolicyRef;
  in_policy : option PolicyRef;
}.

Inductive policy_error := RecursionError | IndexError.

(** ** The evaluator *)

Record PolicyDocumentEvaluator := mk_evaluator {
  _document : PolicyDocument;
  _subjects : list (string * PolicySubject);
  _roles : list (string * list PolicyRef);
  _scopes : list (string * list PolicyRef);
  _policies : list (string * NamedPolicy);
  _conditions : list (string * PolicyCondition);
}.

(** [{k(x): v(x) for x in l}] *)
Definition dict_of {A V} (k : A → string) (v : A → V) (l : list A) : list (string * V) :=
  foldl (λ d x, dict_set (k x) (v x) d) [] l.

Definition evaluator_of (d : PolicyDocument) : PolicyDocumentEvaluator :=
  mk_evaluator d
    (dict_of subj_ref id (doc_subjects d))
    (dict_of role_ref role_permissions (doc_roles d))
    (dict_of scope_ref scope_permissions (doc_scopes d))
    (dict_of policy_ref id (doc_policies d))
    (foldl (λ acc c, match cond_ref c with Some r => dict_set r c acc | None => acc end)
       [] (doc_conditions d)).

Section evaluator.
Context (ev : PolicyDocumentEvaluator).

Definition _role_permissions (r : PolicyRef) : list PolicyRef :=
  default [] (dict_get r (_roles ev)).
Definition _scope_permissions (r : PolicyRef) : list PolicyRef :=
  default [] (dict_get r (_scopes ev)).

Definition _subject_roles (c : AuthContext) : list PolicyRef :=
  match dict_get (subject_id (subject c)) (_subjects ev) with
  | None => roles c
  | Some s => roles c ++ subj_roles s
  end.
Definition _subject_scopes (c : AuthContext) : list PolicyRef :=
  match dict_get (subject_id (subject c)) (_subjects ev) with
  | None => scopes c
  | Some s => scopes c ++ subj_scopes s
  end.
Definition _subject_permissions (c : AuthContext) : list PolicyRef :=
  dedup
    (match dict_get (subject_id (subject c)) (_subjects ev) with
     | None => []
     | Some s =>
         subj_permissions s ++ (subj_roles s ≫= _role_permissions)
           ++ (subj_scopes s ≫= _scope_permissions)
     end
     ++ (roles c ≫= _role_permissions) ++ (scopes c ≫= _scope_permissions)).

Definition _intersects (expected actual : list PolicyRef) : bool :=
  existsb (λ item, bool_decide (item ∈ actual)) expected.

Definition is_empty {A} (l : list A) : bool := match l with [] => true | _ => false end.

Definition _matches_subject (st : PolicyStatement) (c : AuthContext) : bool :=
  if is_empty (st_subjects st) then true
  else bool_decide (subject_id (subject c) ∈ st_subjects st).
Definition _matches_roles (st : PolicyStatement) (c : AuthContext) : bool :=
  if is_empty (st_roles st) then true else _intersects (st_roles st) (_subject_roles c).
Definition _matches_scopes (st : PolicyStatement) (c : AuthContext) : bool :=
  if is_empty (st_scopes st) then true else _intersects (st_scopes st) (_subject_scopes c).
Definition _matches_permissions (st : PolicyStatement) (rq : PolicyEvaluationInput) : bool :=
  if is_empty (st_permissions st) then true
  else _intersects (st_permissions st) (_subject_permissions (in_auth_context rq)).
Definition _matches_requested_permission (st : PolicyStatement) (rq : PolicyEvaluationInput)
    : bool :=
  match in_permission rq with
  | None => true
  | Some p =>
      if negb (is_empty (st_permissions st)) && negb (bool_decide (p ∈ st_permissions st))
      then false
      else bool_decide (p ∈ _subject_permissions (in_auth_context rq))
  end.
Definition _matches_resources (st : PolicyStatement) (resource : option PolicyRef) : bool :=
  if is_empty (st_resources st) then true
  else match resource with None => false | Some r => bool_decide (r ∈ st_resources st) end.
Definition _matches_actions (st : PolicyStatement) (action : option PolicyRef) : bool :=
  if is_empty (st_actions st) then true
  else match action with None => false | Some a => bool_decide (a ∈ st_actions st) end.
Definition _matches_tenants (st : PolicyStatement) (rq : PolicyEvaluationInput) : bool :=
  if is_empty (st_tenants st) then true
  else
    let t := match in_tenant rq with
             | Some t => Some t
             | None => tenant (in_auth_context rq)
             end in
    match t with None => false | Some t => bool_decide (t ∈ st_tenants st) end.
Definition _matches_requested_role (st : PolicyStatement) (role : option PolicyRef) : bool :=
  match role with
  | None => true
  | Some r => is_empty (st_roles st) || bool_decide (r ∈ st_roles st)
  end.
Definition _matches_requested_scope (st : PolicyStatement) (scope : option PolicyRef) : bool :=
  match scope with
  | None => true
  | Some s => is_empty (st_scopes st) || bool_decide (s ∈ st_scopes st)
  end.

(** *** Conditions *)

(** Python's [==] on scalars: booleans are integers, and an integer equals a
    float of the same value. *)
Definition claim_number (v : ClaimValue) : option Q :=
  match v with
  | CBool b => Some (if b then 1%Q else 0%Q)
  | CInt z => Some (inject_Z z)
  | CFloat q => Some q
  | _ => None
  end.
Definition claim_eqb (a b : ClaimValue) : bool :=
  match claim_number a, claim_number b with
  | Some x, Some y => Qeq_bool x y
  | _, _ =>
      match a, b with
      | CNone, CNone => true
      | CStr s, CStr t => String.eqb s t
      | _, _ => false
      end
  end.
(** [expected in actual] on strings *)
Fixpoint str_contains (sub s : string) : bool :=
  String.prefix sub s ||
  match s with EmptyString => false | String _ s' => str_contains sub s' end.

Definition _operator_matches (op : option ConditionOperator) (actual : ClaimValue)
    (expected : ConditionValue) : bool :=
  match op with
  | Some EXISTS => match actual with CNone => false | _ => true end
  | Some EQUALS => match expected with CVScalar v => claim_eqb actual v | CVTuple _ => false end
  | Some NOT_EQUALS =>
      negb (match expected with CVScalar v => claim_eqb actual v | CVTuple _ => false end)
  | Some IN =>
      match expected with
      | CVTuple vs => existsb (claim_eqb actual) vs
      | CVScalar v => claim_eqb actual v
      end
  | Some CONTAINS =>
      match actual, expected with
      | CStr s, CVScalar (CStr sub) => str_contains sub s
      | _, _ => false
      end
  | None => false
  end.

Fixpoint _claim_value (cs : list AuthClaim) (k : option string) : ClaimValue :=
  match k, cs with
  | None, _ => CNone
  | Some _, [] => CNone
  | Some k', c :: cs' =>
      if decide (claim_name c = k') then claim_value c else _claim_value cs' k
  end.

Definition _resolve_condition (c : PolicyCondition) : PolicyCondition :=
  match operator c, composition c, cond_ref c with
  | None, None, Some r =>
      match dict_get r (_conditions ev) with Some named => named | None => c end
  | _, _, _ => c
  end.

(** [all(f(x) for x in l)] and [any(f(x) for x in l)], stopping early. *)
Fixpoint all_outcome {A} (f : A → outcome policy_error bool) (l : list A)
    : outcome policy_error bool :=
  match l with
  | [] => Ok true
  | x :: l' => match f x with Ok true => all_outcome f l' | r => r end
  end.
Fixpoint any_outcome {A} (f : A → outcome policy_error bool) (l : list A)
    : outcome policy_error bool :=
  match l with
  | [] => Ok false
  | x :: l' => match f x with Ok false => any_outcome f l' | r => r end
  end.

Fixpoint _condition_matches (fuel : nat) (c : PolicyCondition) (ctx : AuthContext)
    : outcome policy_error bool :=
  match fuel with
  | O => Raise RecursionError
  | S fuel' =>
      let resolved := _resolve_condition c in
      match composition resolved with
      | Some ALL => all_outcome (λ child, _condition_matches fuel' child ctx) (children resolved)
      | Some ANY => any_outcome (λ child, _condition_matches fuel' child ctx) (children resolved)
      | Some NOT =>
          match children resolved with
          | [] => Raise IndexError
          | child :: _ => negb <$> _condition_matches fuel' child ctx
          end
      | None =>
          Ok (_operator_matches (operator resolved)
                (_claim_value (claims ctx) (key resolved)) (value resolved))
      end
  end.

(** *** Statements and policies *)

Abbreviation evidence := (list PolicyEvaluationEvidence).

Definition _matches_condition (fuel : nat) (st : PolicyStatement)
    (rq : PolicyEvaluationInput) (es : evidence) (p : PolicyRef)
    : outcome policy_error (bool * evidence) :=
  match st_condition st with
  | None => Ok (true, es)
  | Some c =>
      matched ← _condition_matches fuel c (in_auth_context rq);
      Ok (matched : bool, es ++ [mk_evidence
            (if matched then CONDITION_MATCHED else CONDITION_FAILED)
            (Some p) (Some (st_ref st))
            (if matched then "statement condition matched" else "statement condition failed")])
  end.

Definition _statement_matches (fuel : nat) (st : PolicyStatement)
    (rq : PolicyEvaluationInput) (es : evidence) (p : PolicyRef)
    : outcome policy_error (bool * evidence) :=
  if _matches_subject st (in_auth_context rq)
     && _matches_roles st (in_auth_context rq)
     && _matches_scopes st (in_auth_context rq)
     && _matches_permissions st rq
     && _matches_requested_permission st rq
     && _matches_resources st (in_resource rq)
     && _matches_actions st (in_action rq)
     && _matches_tenants st rq
     && _matches_requested_role st (in_role rq)
     && _matches_requested_scope st (in_scope rq)
  then _matches_condition fuel st rq es p
  else Ok (false, es).

Definition _selected_policies (r : option PolicyRef) : list NamedPolicy :=
  match r with
  | None => doc_policies (_document ev)
  | Some r => match dict_get r (_policies ev) with None => [] | Some p => [p] end
  end.

(** The two nested loops either return from [evaluate] or go on with the
    evidence gathered and [allow_seen]. *)
Inductive eval_step :=
  | EReturn (r : PolicyEvaluationResult)
  | EContinue (es : evidence) (allow_seen : bool).

Definition effect_value (e : PolicyEffect) : string :=
  match e with EFFECT_ALLOW => "allow" | EFFECT_DENY => "deny" end.

Fixpoint eval_statements (fuel : nat) (rq : PolicyEvaluationInput) (p : PolicyRef)
    (sts : list PolicyStatement) (es : evidence) (allow_seen : bool)
    : outcome policy_error eval_step :=
  match sts with
  | [] => Ok (EContinue es allow_seen)
  | st :: sts' =>
      m ← _statement_matches fuel st rq es p;
      if m.1 : bool then
        let es' := m.2 ++ [mk_evidence STATEMENT_MATCHED (Some p) (Some (st_ref st))
                     (effect_value (effect st) +:+ " statement matched")] in
        match effect st with
        | EFFECT_DENY => Ok (EReturn (mk_result false (Some EFFECT_DENY) es'))
        | EFFECT_ALLOW => eval_statements fuel rq p sts' es' true
        end
      else
        eval_statements fuel rq p sts'
          (m.2 ++ [mk_evidence STATEMENT_SKIPPED (Some p) (Some (st_ref st))
                     "statement did not match request"]) allow_seen
  end.

Fixpoint eval_policies (fuel : nat) (rq : PolicyEvaluationInput) (ps : list NamedPolicy)
    (es : evidence) (allow_seen : bool) : outcome policy_error eval_step :=
  match ps with
  | [] => Ok (EContinue es allow_seen)
  | p :: ps' =>
      step ← eval_statements fuel rq (policy_ref p) (statements p) es allow_seen;
      match step with
      | EReturn r => Ok (EReturn r)
      | EContinue es' seen' => eval_policies fuel rq ps' es' seen'
      end
  end.

Definition evaluate (fuel : nat) (rq : PolicyEvaluationInput)
    : outcome policy_error PolicyEvaluationResult :=
  step ← eval_policies fuel rq (_selected_policies (in_policy rq)) [] false;
  match step with
  | EReturn r => Ok r
  | EContinue es true => Ok (mk_result true (Some EFFECT_ALLOW) es)
  | EContinue es false =>
      Ok (mk_result false None
            (es ++ [mk_evidence DEFAULT_DENY None None "no allow statement matched"]))
  end.

(** *** The checks of the provider *)

Definition _decision (r : PolicyEvaluationResult) : AuthorizationDecision :=
  if allowed r then decision_allow else decision_deny POLICY_DENIED None.

Definition evaluate_authorization (fuel : nat) (rq : AuthorizationRequest)
    : outcome policy_error AuthorizationDecision :=
  _decision <$> evaluate fuel
    (mk_input (ar_auth_context rq) (Some (ar_resource rq)) (Some (ar_action rq))
       (ar_tenant rq) None None None None).
Definition check_permission (fuel : nat) (rq : PermissionCheckRequest)
    : outcome policy_error AuthorizationDecision :=
  _decision <$> evaluate fuel
    (mk_input (pr_auth_context rq) (pr_resource rq) None (pr_tenant rq)
       (Some (pr_permission rq)) None None None).
Definition check_role (fuel : nat) (rq : RoleCheckRequest)
    : outcome policy_error AuthorizationDecision :=
  _decision <$> evaluate fuel
    (mk_input (rr_auth_context rq) None None (rr_tenant rq) None (Some (rr_role rq)) None None).
Definition check_scope (fuel : nat) (rq : ScopeCheckRequest)
    : outcome policy_error AuthorizationDecision :=
  _decision <$> evaluate fuel
    (mk_input (sr_auth_context rq) None None None None None (Some (sr_scope rq)) None).
End evaluator.

(** [SpakkyPolicyAuthProvider]: the evaluator behind the ports of the aspects. *)
Definition policy_error_name (e : policy_error) : auth_error :=
  OtherError (match e with RecursionError => "RecursionError" | IndexError => "IndexError" end).

Definition SpakkyPolicyAuthProvider (fuel : nat) (d : PolicyDocument) : auth_ports :=
  let ev := evaluator_of d in
  mk_auth_ports
    (Some (λ rq, map_error policy_error_name (evaluate_authorization ev fuel rq)))
    (Some (λ rq, map_error policy_error_name (check_permission ev fuel rq)))
    None
    (Some (λ rq, map_error policy_error_name (check_role ev fuel rq)))
    (Some (λ rq, map_error policy_error_name (check_scope ev fuel rq))).


(** ** The verdict of a document

    [applies] is whether a statement matches a request, without the evidence;
    [selected_statements] are the statements the request is decided by. *)

Section verdict.
Context (ev : PolicyDocumentEvaluator) (fuel : nat) (rq : PolicyEvaluationInput).

Definition applies (st : PolicyStatement) : outcome policy_error bool :=
  fst <$> _statement_matches ev fuel st rq [] "".

Definition selected_statements : list PolicyStatement :=
  _selected_policies ev (in_policy rq) ≫= statements.

Lemma statement_matches_applies st es p :
  fst <$> _statement_matches ev fuel st rq es p = applies st.
Proof.
  unfold applies, _statement_matches. destruct (_ && _); [|done].
  unfold _matches_condition. destruct (st_condition st) as [c|]; [|done].
  by destruct (_condition_matches ev fuel c (in_auth_context rq)).
Qed.

(** What a run of the loops over the statements [sts] tells of them. *)
Definition step_spec (sts : list PolicyStatement) (seen : bool) (step : eval_step) : Prop :=
  match step with
  | EReturn r =>
      allowed r = false ∧ res_effect r = Some EFFECT_DENY ∧
      ∃ st, st ∈ sts ∧ effect st = EFFECT_DENY ∧ applies st = Ok true
  | EContinue es' seen' =>
      (∀ st, st ∈ sts →
         is_ok (applies st) = true ∧ (effect st = EFFECT_DENY → applies st = Ok false)) ∧
      (seen' = true ↔ seen = true ∨
         ∃ st, st ∈ sts ∧ effect st = EFFECT_ALLOW ∧ applies st = Ok true)
  end.

Lemma step_spec_nil seen es : step_spec [] seen (EContinue es seen).
Proof.
  split; [intros st Hst; by apply not_elem_of_nil in Hst|].
  split; [by left|]. intros [?|(st & Hst & _)]; [done|by apply not_elem_of_nil in Hst].
Qed.

Lemma step_spec_app sts1 sts2 seen seen1 es1 step :
  step_spec sts1 seen (EContinue es1 seen1) → step_spec sts2 seen1 step →
  step_spec (sts1 ++ sts2) seen step.
Proof.
  intros [H1 Hs1] H2. destruct step as [r|es2 seen2]; simpl in *.
  - destruct H2 as (? & ? & st & ? & ?). split_and!; [done..|].
    exists st. rewrite elem_of_app. auto.
  - destruct H2 as [H2 Hs2]. split.
    + intros st. rewrite elem_of_app. intros [?|?]; auto.
    + rewrite Hs2, Hs1. setoid_rewrite elem_of_app. split.
      * intros [[?|(st & ? & ?)]|(st & ? & ?)]; eauto 10.
      * intros [?|(st & [?|?] & ?)]; eauto 10.
Qed.

Lemma step_spec_return_app sts1 sts2 seen seen' r :
  step_spec sts1 seen (EReturn r) → step_spec (sts1 ++ sts2) seen' (EReturn r).
Proof.
  intros (? & ? & st & ? & ?). split_and!; [done..|].
  exists st. rewrite elem_of_app. auto.
Qed.

Lemma eval_statements_inv p sts es seen step :
  eval_statements ev fuel rq p sts es seen = Ok step → step_spec sts seen step.
Proof.
  revert es seen. induction sts as [|st sts IH]; intros es seen; cbn [eval_statements].
  { intros [= <-]. apply step_spec_nil. }
  intros H. apply outcome_bind_Ok in H as ([m es'] & Hm & H). cbn [fst snd] in H.
  pose proof (statement_matches_applies st es p) as Ha. rewrite Hm in Ha. symmetry in Ha.
  assert (∀ x, x ∈ [st] → x = st) as Hsing by (intros x; apply list_elem_of_singleton).
  destruct m; [destruct (effect st) eqn:He|].
  - apply IH in H. refine (step_spec_app [st] sts seen true [] step _ H). split.
    + intros x ->%Hsing. rewrite Ha, He. done.
    + split; [|done]. intros _. right. exists st. split_and!; [left|done..].
  - injection H as <-. split_and!; [done..|]. exists st. split_and!; [left|done..].
  - apply IH in H. refine (step_spec_app [st] sts seen seen [] step _ H). split.
    + intros x ->%Hsing. rewrite Ha. done.
    + split; [by left|]. intros [?|(x & ->%Hsing & _ & Hx)]; [done|].
      rewrite Ha in Hx. done.
Qed.

Lemma eval_policies_inv ps es seen step :
  eval_policies ev fuel rq ps es seen = Ok step → step_spec (ps ≫= statements) seen step.
Proof.
  revert es seen. induction ps as [|p ps IH]; intros es seen; cbn [eval_policies].
  { intros [= <-]. apply step_spec_nil. }
  intros H. apply outcome_bind_Ok in H as (step1 & H1 & H).
  apply eval_statements_inv in H1. rewrite bind_cons. destruct step1 as [r|es1 seen1].
  - injection H as <-. by eapply step_spec_return_app.
  - apply IH in H. by eapply step_spec_app.
Qed.

Lemma evaluate_inv r :
  evaluate ev fuel rq = Ok r →
  match res_effect r with
  | Some EFFECT_DENY => allowed r = false ∧
      ∃ st, st ∈ selected_statements ∧ effect st = EFFECT_DENY ∧ applies st = Ok true
  | Some EFFECT_ALLOW => allowed r = true ∧
      (∃ st, st ∈ selected_statements ∧ effect st = EFFECT_ALLOW ∧ applies st = Ok true) ∧
      (∀ st, st ∈ selected_statements → effect st = EFFECT_DENY → applies st = Ok false)
  | None => allowed r = false ∧
      (∀ st, st ∈ selected_statements → applies st = Ok false)
  end.
Proof.
  unfold evaluate. intros H. apply outcome_bind_Ok in H as (step & Hs & H).
  apply eval_policies_inv in Hs. fold selected_statements in Hs.
  destruct step as [r'|es [|]]; injection H as <-; cbn [res_effect allowed] in *.
  - destruct Hs as (-> & -> & ?). done.
  - destruct Hs as [Hd [Hseen _]]. split; [done|]. split.
    + destruct (Hseen eq_refl); [done|assumption].
    + intros st Hst. apply Hd, Hst.
  - destruct Hs as [Hd [_ Hseen]]. split; [done|]. intros st Hst.
    destruct (Hd st Hst) as [Hok Hdeny]. destruct (applies st) as [[]|] eqn:Hap; [|done|done].
    destruct (effect st) eqn:He; [|by apply Hdeny].
    discriminate Hseen. right. exists st. done.
Qed.
End verdict.

(** ** Termination of conditions

    A reference in a composed condition is looked up among the named ones, so
    the recursion ends when the named conditions can be ranked. *)

Definition is_reference (c : PolicyCondition) : option PolicyRef :=
  match operator c, composition c with None, None => cond_ref c | _, _ => None end.

Fixpoint condition_refs (c : PolicyCondition) : list PolicyRef :=
  match is_reference c, composition c with
  | Some r, _ => [r]
  | None, Some _ => (fix go l := match l with [] => [] | x :: l' => condition_refs x ++ go l' end)
                      (children c)
  | None, None => []
  end.

(** What the loader guarantees: [not] has an operand. *)
Fixpoint well_shaped (c : PolicyCondition) : bool :=
  match composition c, children c with Some NOT, [] => false | _, _ => true end &&
  (fix go l := match l with [] => true | x :: l' => well_shaped x && go l' end) (children c).

Definition child_refs (c : PolicyCondition) : list PolicyRef :=
  match composition c with Some _ => children c ≫= condition_refs | None => [] end.

Lemma PolicyCondition_nested_ind (P : PolicyCondition → Prop) :
  (∀ c, (∀ x, x ∈ children c → P x) → P c) → ∀ c, P c.
Proof.
  intros Hstep. fix IH 1. intros [r o k v comp l]. apply Hstep. cbn.
  assert (Forall P l) as Hl.
  { induction l as [|x l IHl]; constructor; [apply IH|apply IHl]. }
  intros x Hx. exact (proj1 (Forall_forall _ _) Hl x Hx).
Qed.

Lemma well_shaped_children c x : well_shaped c = true → x ∈ children c → well_shaped x = true.
Proof.
  destruct c as [r o k v comp l]. cbn. intros [_ Hl]%andb_true_iff.
  induction l as [|y l IH]; [intros H; by apply not_elem_of_nil in H|].
  apply andb_true_iff in Hl as [Hy Hl]. rewrite elem_of_cons. intros [->|?]; auto.
Qed.

Lemma well_shaped_not c :
  well_shaped c = true → composition c = Some NOT → children c ≠ [].
Proof. by destruct c as [r o k v [[]|] []]. Qed.

Lemma condition_refs_eq c :
  condition_refs c = match is_reference c with Some r => [r] | None => child_refs c end.
Proof.
  destruct c as [r o k v comp l]. unfold child_refs, is_reference. cbn.
  destruct o, comp; try done; try (destruct r; done); induction l as [|x l IH]; cbn in *;
    try done; by rewrite IH.
Qed.

Section totality.
Context (ev : PolicyDocumentEvaluator).

(** [rank] orders the named conditions: a composed one only mentions lower ones. *)
Definition ranked (rank : PolicyRef → nat) : Prop :=
  ∀ r c, dict_get r (_conditions ev) = Some c →
    well_shaped c = true ∧
    ∀ r', r' ∈ child_refs c → dict_has r' (_conditions ev) = true → (rank r' < rank r)%nat.

Definition condition_total (c : PolicyCondition) : Prop :=
  ∃ n, ∀ fuel ctx, (n ≤ fuel)%nat → is_ok (_condition_matches ev fuel c ctx) = true.

Lemma uniform_fuel {A} (P : A → nat → Prop) (l : list A) :
  (∀ x, x ∈ l → ∃ n, ∀ fuel, (n ≤ fuel)%nat → P x fuel) →
  ∃ n, ∀ fuel, (n ≤ fuel)%nat → ∀ x, x ∈ l → P x fuel.
Proof.
  induction l as [|y l IH]; intros H.
  { exists 0%nat. intros fuel _ x Hx. by apply not_elem_of_nil in Hx. }
  destruct IH as [n Hn]; [intros x Hx; apply H; by right|].
  destruct (H y) as [m Hm]; [by left|].
  exists (n `max` m)%nat. intros fuel Hf x [->|Hx]%elem_of_cons; [apply Hm|apply Hn]; auto; lia.
Qed.

Lemma all_outcome_ok {A} (f : A → outcome policy_error bool) l :
  (∀ x, x ∈ l → is_ok (f x) = true) → is_ok (all_outcome f l) = true.
Proof.
  induction l as [|x l IH]; intros H; cbn; [done|].
  specialize (H x (list_elem_of_here x l)) as Hx.
  destruct (f x) as [[]|]; [|done..]. apply IH. intros y Hy. apply H. by right.
Qed.
Lemma any_outcome_ok {A} (f : A → outcome policy_error bool) l :
  (∀ x, x ∈ l → is_ok (f x) = true) → is_ok (any_outcome f l) = true.
Proof.
  induction l as [|x l IH]; intros H; cbn; [done|].
  specialize (H x (list_elem_of_here x l)) as Hx.
  destruct (f x) as [[]|]; [done| |done]. apply IH. intros y Hy. apply H. by right.
Qed.

Lemma condition_total_intro c :
  well_shaped (_resolve_condition ev c) = true →
  (composition (_resolve_condition ev c) ≠ None →
   ∀ x, x ∈ children (_resolve_condition ev c) → condition_total x) →
  condition_total c.
Proof.
  set (d := _resolve_condition ev c). intros Hw Hx.
  destruct (composition d) as [op|] eqn:Hc.
  - destruct (uniform_fuel (λ x fuel, ∀ ctx, is_ok (_condition_matches ev fuel x ctx) = true)
                (children d)) as [n Hn].
    { intros x Hin. destruct (Hx ltac:(done) x Hin) as [n Hn]. exists n. auto. }
    exists (S n). intros [|fuel] ctx Hf; [lia|]. cbn [_condition_matches]. fold d. rewrite Hc.
    assert (n ≤ fuel)%nat as Hf' by lia. specialize (Hn fuel Hf').
    destruct op; [apply all_outcome_ok; auto|apply any_outcome_ok; auto|].
    pose proof (well_shaped_not d Hw Hc) as Hne.
    destruct (children d) as [|x l]; [done|]. specialize (Hn x (list_elem_of_here x l) ctx).
    by destruct (_condition_matches ev fuel x ctx).
  - exists 1%nat. intros [|fuel] ctx Hf; [lia|]. cbn [_condition_matches]. fold d.
    by rewrite Hc.
Qed.

Lemma resolve_reference c :
  _resolve_condition ev c = c ∨
  ∃ r, is_reference c = Some r ∧ dict_get r (_conditions ev) = Some (_resolve_condition ev c).
Proof.
  unfold _resolve_condition, is_reference.
  destruct (operator c), (composition c), (cond_ref c) as [r|]; auto.
  destruct (dict_get r (_conditions ev)) eqn:?; eauto.
Qed.

Lemma condition_total_ranked rank n c :
  ranked rank → well_shaped c = true →
  (∀ r, r ∈ condition_refs c → dict_has r (_conditions ev) = true → (rank r < n)%nat) →
  condition_total c.
Proof.
  intros Hrank. revert c. induction (lt_wf n) as [n _ IHn]. intros c.
  induction c as [c IHc] using PolicyCondition_nested_ind. intros Hw Hrefs.
  rewrite condition_refs_eq in Hrefs.
  destruct (resolve_reference c) as [Heq|(r & Hr & Hget)].
  - apply condition_total_intro; rewrite Heq; [done|]. intros Hc x Hx.
    apply IHc; [done|by eapply well_shaped_children|]. intros r Hr. apply Hrefs.
    assert (is_reference c = None) as ->.
    { unfold is_reference. by destruct (operator c), (composition c). }
    unfold child_refs. destruct (composition c); [|done].
    apply list_elem_of_bind. eauto.
  - rewrite Hr in Hrefs. destruct (Hrank _ _ Hget) as [Hw' Hlt].
    apply condition_total_intro; [done|]. intros Hc x Hx.
    apply (IHn (rank r)).
    + apply Hrefs; [by left|]. unfold dict_has. by rewrite Hget.
    + by eapply well_shaped_children.
    + intros r' Hr'. apply Hlt. unfold child_refs.
      destruct (composition _); [|done]. apply list_elem_of_bind. eauto.
Qed.

Lemma eval_statements_ok fuel rq p sts es seen :
  (∀ st, st ∈ sts → is_ok (applies ev fuel rq st) = true) →
  is_ok (eval_statements ev fuel rq p sts es seen) = true.
Proof.
  revert es seen. induction sts as [|st sts IH]; intros es seen H; [done|].
  cbn [eval_statements].
  pose proof (statement_matches_applies ev fuel rq st es p) as Ha.
  specialize (H st (list_elem_of_here st sts)) as Hst. rewrite <-Ha in Hst.
  destruct (_statement_matches ev fuel st rq es p) as [[[] es']|]; [|by apply IH; set_solver|done].
  cbn. destruct (effect st); [apply IH; set_solver|done].
Qed.

Lemma eval_policies_ok fuel rq ps es seen :
  (∀ st, st ∈ ps ≫= statements → is_ok (applies ev fuel rq st) = true) →
  is_ok (eval_policies ev fuel rq ps es seen) = true.
Proof.
  revert es seen. induction ps as [|p ps IH]; intros es seen H; [done|].
  rewrite bind_cons in H. setoid_rewrite elem_of_app in H. cbn [eval_policies].
  assert (is_ok (eval_statements ev fuel rq (policy_ref p) (statements p) es seen) = true)
    as Hok by (apply eval_statements_ok; auto).
  destruct (eval_statements _ _ _ _ _ _ _) as [[|]|]; [done| |done]. apply IH. auto.
Qed.

Definition statement_well_formed (st : PolicyStatement) : Prop :=
  match st_condition st with None => True | Some c => well_shaped c = true end.

Lemma applies_total rank st :
  ranked rank → statement_well_formed st →
  ∃ n, ∀ fuel, (n ≤ fuel)%nat → ∀ rq, is_ok (applies ev fuel rq st) = true.
Proof.
  intros Hrank Hst. unfold statement_well_formed in Hst.
  destruct (st_condition st) as [c|] eqn:Hc.
  - set (refs := condition_refs c).
    destruct (condition_total_ranked rank (S (list_max (rank <$> refs))) c Hrank Hst) as [n Hn].
    { intros r Hr _. apply Nat.lt_succ_r.
      pose proof (proj1 (list_max_le (rank <$> refs) (list_max (rank <$> refs))) (Nat.le_refl _))
        as Hall.
      rewrite Forall_forall in Hall. apply Hall, list_elem_of_fmap. eauto. }
    exists n. intros fuel Hf rq. unfold applies, _statement_matches.
    destruct (_ && _); [|done]. unfold _matches_condition. rewrite Hc.
    specialize (Hn fuel (in_auth_context rq) Hf).
    by destruct (_condition_matches ev fuel c (in_auth_context rq)).
  - exists 0%nat. intros fuel _ rq. unfold applies, _statement_matches.
    destruct (_ && _); [|done]. unfold _matches_condition. by rewrite Hc.
Qed.
End totality.

Lemma dict_of_elem {A} (k : A → string) (l : list A) r x :
  dict_get r (dict_of k id l) = Some x → x ∈ l.
Proof.
  unfold dict_of.
  assert (∀ d, dict_get r (foldl (λ d x, dict_set (k x) (id x) d) d l) = Some x →
            x ∈ l ∨ dict_get r d = Some x) as H.
  { induction l as [|y l IH]; intros d; cbn; [by right|]. intros [?|Hd]%IH.
    - left. by right.
    - destruct (decide (r = k y)) as [->|Hr].
      + rewrite dict_get_set_eq in Hd. injection Hd as <-. left. by left.
      + rewrite dict_get_set_ne in Hd by done. by right. }
  intros [?|?]%H; done.
Qed.

(** ** Allowed means an applicable ALLOW statement *)

Lemma evaluate_allowed ev fuel rq r :
  evaluate ev fuel rq = Ok r → allowed r = true →
  ∃ st, st ∈ selected_statements ev rq ∧ effect st = EFFECT_ALLOW ∧
    _statement_matches ev fuel st rq [] "" ≫= (λ m, Ok m.1) = Ok true.
Proof.
  intros Hr Ha. apply evaluate_inv in Hr. rewrite Ha in Hr.
  destruct (res_effect r) as [[]|]; [|by destruct Hr..].
  destruct Hr as (_ & (st & Hin & He & Hap) & _). exists st. split_and!; [done..|].
  unfold applies in Hap. by destruct (_statement_matches _ _ _ _ _ _).
Qed.

Lemma statement_matches_permission ev fuel st rq p :
  in_permission rq = Some p →
  _statement_matches ev fuel st rq [] "" ≫= (λ m, Ok m.1) = Ok true →
  p ∈ _subject_permissions ev (in_auth_context rq).
Proof.
  intros Hp. unfold _statement_matches. destruct (_ && _) eqn:Hm; [|done]. intros _.
  repeat apply andb_true_iff in Hm as [Hm ?].
  match goal with H : _matches_requested_permission _ _ _ = true |- _ => revert H end.
  unfold _matches_requested_permission. rewrite Hp. destruct (_ && _); [done|].
  apply bool_decide_eq_true_1.
Qed.

Lemma decision_ALLOW r : state (_decision r) = ALLOW ↔ allowed r = true.
Proof. unfold _decision. by destruct (allowed r). Qed.

Lemma check_permission_ALLOW ev fuel rq d :
  check_permission ev fuel rq = Ok d → state d = ALLOW →
  pr_permission rq ∈ _subject_permissions ev (pr_auth_context rq).
Proof.
  unfold check_permission. intros H Hd.
  destruct (evaluate _ _ _) as [r|] eqn:He; [|done]. injection H as <-.
  apply decision_ALLOW in Hd. destruct (evaluate_allowed _ _ _ _ He Hd) as (st & _ & _ & Hm).
  by eapply statement_matches_permission in Hm.
Qed.

(** ** Properties *)

(** C17. Evaluation is deny-overriding and default-deny, whatever the order of
    the statements: a request is allowed exactly when some ALLOW statement of
    the selected policies applies and no DENY statement does; the reported
    effect is DENY exactly when a DENY statement applies, and absent exactly
    when no statement applies. *)
Theorem evaluate_deny_overrides ev fuel rq r :
  evaluate ev fuel rq = Ok r →
  let sts := selected_statements ev rq in
  (allowed r = true ↔
     (∃ st, st ∈ sts ∧ effect st = EFFECT_ALLOW ∧ applies ev fuel rq st = Ok true) ∧
     (∀ st, st ∈ sts → effect st = EFFECT_DENY → applies ev fuel rq st = Ok false)) ∧
  (res_effect r = Some EFFECT_DENY ↔
     ∃ st, st ∈ sts ∧ effect st = EFFECT_DENY ∧ applies ev fuel rq st = Ok true) ∧
  (res_effect r = None ↔ ∀ st, st ∈ sts → applies ev fuel rq st = Ok false).
Proof.
  intros Hr sts. apply evaluate_inv in Hr. fold sts in Hr.
  destruct (res_effect r) as [[]|].
  - destruct Hr as (-> & (st & Hin & He & Hap) & Hdeny). split_and!.
    + split; [intros _; eauto|done].
    + split; [done|]. intros (st' & Hin' & He' & Hap'). by rewrite Hdeny in Hap'.
    + split; [done|]. intros H. by rewrite H in Hap.
  - destruct Hr as (-> & st & Hin & He & Hap). split_and!.
    + split; [done|]. intros [_ H]. by rewrite H in Hap.
    + split; [intros _; eauto|done].
    + split; [done|]. intros H. by rewrite H in Hap.
  - destruct Hr as (-> & Hnone). split_and!.
    + split; [done|]. intros [(st & Hin & _ & Hap) _]. by rewrite Hnone in Hap.
    + split; [done|]. intros (st & Hin & _ & Hap). by rewrite Hnone in Hap.
    + done.
Qed.

Lemma evaluate_total doc rank :
  let ev := evaluator_of doc in
  ranked ev rank →
  (∀ p, p ∈ doc_policies doc → Forall statement_well_formed (statements p)) →
  ∃ n, ∀ fuel rq, (n ≤ fuel)%nat → ∃ r, evaluate ev fuel rq = Ok r.
Proof.
  intros ev Hrank Hwf.
  destruct (uniform_fuel (λ st fuel, ∀ rq, is_ok (applies ev fuel rq st) = true)
              (doc_policies (_document ev) ≫= statements)) as [n Hn].
  { intros st (p & Hst & Hp)%list_elem_of_bind. apply (applies_total ev rank); [done|].
    specialize (Hwf p Hp). rewrite Forall_forall in Hwf. by apply Hwf. }
  exists n. intros fuel rq Hf.
  assert (is_ok (eval_policies ev fuel rq (_selected_policies ev (in_policy rq)) [] false) = true)
    as Hok.
  { apply eval_policies_ok. intros st (p & Hst & Hp)%list_elem_of_bind. apply Hn; [done|].
    apply list_elem_of_bind. exists p. split; [done|]. revert Hp. unfold _selected_policies.
    destruct (in_policy rq) as [r|]; [|done].
    destruct (dict_get r (_policies ev)) as [p'|] eqn:Hget.
    - intros Hp%list_elem_of_singleton. rewrite Hp.
      exact (dict_of_elem policy_ref (doc_policies doc) r p' Hget).
    - intros H. by apply not_elem_of_nil in H. }
  unfold evaluate. destruct (eval_policies _ _ _ _ _ _) as [[r|es []]|]; [cbn; eauto..|done].
Qed.

(** Evaluation terminates with a result when the named conditions can be
    ranked and every [not] has its operand (which the loader guarantees): one
    recursion depth is enough for every request on the document. *)
Theorem evaluate_terminates doc rank :
  let ev := evaluator_of doc in
  ranked ev rank →
  (∀ p, p ∈ doc_policies doc → Forall statement_well_formed (statements p)) →
  ∃ n, ∀ fuel rq, (n ≤ fuel)%nat → ∃ r, evaluate ev fuel rq = Ok r.
Proof. apply evaluate_total. Qed.

(** The permission check is sound: it answers ALLOW only for a permission
    the subject holds, directly or through a role or scope of the document or
    of the authenticated context. *)
Theorem check_permission_sound ev fuel rq d :
  check_permission ev fuel rq = Ok d → state d = ALLOW →
  let c := pr_auth_context rq in
  let s := dict_get (subject_id (subject c)) (_subjects ev) in
  (∃ s', s = Some s' ∧ pr_permission rq ∈ subj_permissions s') ∨
  (∃ r, r ∈ _subject_roles ev c ∧ pr_permission rq ∈ _role_permissions ev r) ∨
  (∃ r, r ∈ _subject_scopes ev c ∧ pr_permission rq ∈ _scope_permissions ev r).
Proof.
  intros Hd Ha. pose proof (check_permission_ALLOW _ _ _ _ Hd Ha) as Hp.
  revert Hp. unfold _subject_permissions, _subject_roles, _subject_scopes. cbv zeta.
  rewrite elem_of_dedup, !elem_of_app, !list_elem_of_bind.
  destruct (dict_get _ _) as [s|].
  - rewrite !elem_of_app, !list_elem_of_bind. setoid_rewrite elem_of_app.
    intros [[?|[(x & ? & ?)|(x & ? & ?)]]|[(x & ? & ?)|(x & ? & ?)]]; eauto 10.
  - intros [H|[(x & ? & ?)|(x & ? & ?)]]; [by apply not_elem_of_nil in H|eauto..].
Qed.

(** The role check does not ask whether the subject has the role: on a
    document without DENY statements, one ALLOW statement that names no role
    (and constrains nothing else) makes it answer ALLOW for every requested
    role and every subject. *)
Theorem check_role_allows_unheld_role ev fuel rq st :
  st ∈ selected_statements ev (mk_input (rr_auth_context rq) None None (rr_tenant rq) None
                                 (Some (rr_role rq)) None None) →
  (∀ st', st' ∈ selected_statements ev (mk_input (rr_auth_context rq) None None (rr_tenant rq)
                                 None (Some (rr_role rq)) None None) →
     effect st' = EFFECT_ALLOW ∧ st_condition st' = None) →
  st_subjects st = [] → st_roles st = [] → st_scopes st = [] → st_permissions st = [] →
  st_resources st = [] → st_actions st = [] → st_tenants st = [] →
  check_role ev fuel rq = Ok decision_allow.
Proof.
  intros Hin Hall Hs Hr Hsc Hp Hre Hac Hte. unfold check_role.
  set (inp := mk_input _ _ _ _ _ _ _ _) in *.
  assert (∀ st', st' ∈ selected_statements ev inp → is_ok (applies ev fuel inp st') = true)
    as Hok.
  { intros st' [_ Hc]%Hall. unfold applies, _statement_matches. destruct (_ && _); [|done].
    unfold _matches_condition. by rewrite Hc. }
  assert (applies ev fuel inp st = Ok true) as Hst.
  { unfold applies, _statement_matches, _matches_subject, _matches_roles, _matches_scopes,
      _matches_permissions, _matches_requested_permission, _matches_resources,
      _matches_actions, _matches_tenants, _matches_requested_role, _matches_requested_scope.
    rewrite Hs, Hr, Hsc, Hp, Hre, Hac, Hte. cbn. unfold _matches_condition.
    destruct (Hall st Hin) as [_ ->]. done. }
  assert (is_ok (evaluate ev fuel inp) = true) as He.
  { unfold evaluate. pose proof (eval_policies_ok ev fuel inp _ [] false Hok) as Hep.
    unfold selected_statements in Hep.
    by destruct (eval_policies _ _ _ _ _ _) as [[r|es []]|]. }
  destruct (evaluate ev fuel inp) as [r|] eqn:Hev; [|done]. apply evaluate_inv in Hev.
  cbn. unfold _decision. destruct (res_effect r) as [[]|].
  - by destruct Hev as [-> _].
  - destruct Hev as (_ & st' & Hin' & He' & _). destruct (Hall st' Hin'). congruence.
  - destruct Hev as [_ Hnone]. by rewrite (Hnone st Hin) in Hst.
Qed.

(** C18. End to end: with this plugin as the provider, a call to a callable
    decorated with [require_permission(p)] completes only for a subject who
    holds [p] according to the policy document. *)
Theorem permission_enforced_end_to_end {S A} fuel doc ctx st f self p res ten
    (jp : comp S auth_error A) s a s' :
  ann_wf st →
  AuthorizationAspect_around (mk_aspect ctx (SpakkyPolicyAuthProvider fuel doc))
    (requirement_decorator (require_permission p res ten) f st) (BCallable f self) jp s
    = (Ok a, s') →
  ∃ values c, ctx = Some values ∧ require_auth_context values = Ok c ∧
    p ∈ _subject_permissions (evaluator_of doc) c.
Proof.
  intros Hwf Hrun.
  destruct (decorated_requirement_checked _ _ _ _ _ _ _ _ _ Hwf Hrun)
    as (values & c & d & Hctx & Hc & He & Hd).
  exists values, c. split_and!; [done..|].
  set (rq := mk_permission_request c p res ten).
  assert (map_error policy_error_name (check_permission (evaluator_of doc) fuel rq) = Ok d)
    as He' by exact He.
  destruct (check_permission (evaluator_of doc) fuel rq) as [d'|] eqn:Hcp; [|done].
  injection He' as ->. by apply (check_permission_ALLOW (evaluator_of doc) fuel rq d Hcp) in Hd.
Qed.

(** ** Witnesses: a document in which editors may edit *)

Definition ex_statement : PolicyStatement :=
  mk_statement "st:edit" EFFECT_ALLOW [] [] [] [] [] [] [] None.
Definition ex_condition : PolicyCondition :=
  mk_condition None None None (CVScalar CNone) (Some ALL)
    [mk_condition (Some "cond:eu") None None (CVScalar CNone) None []].
Definition ex_deny_statement : PolicyStatement :=
  mk_statement "st:eu" EFFECT_DENY [] [] [] [] [] [] [] (Some ex_condition).
Definition ex_document (sts : list PolicyStatement) : PolicyDocument :=
  mk_document [mk_policy_subject "user:ann" ["role:editor"] [] [] [] None]
    [mk_policy_role "role:editor" ["perm:edit"]] []
    [mk_named_policy "policy:docs" sts None]
    [mk_condition (Some "cond:eu") (Some EQUALS) (Some "region") (CVScalar (CStr "eu")) None []].
Definition ex_evaluator (sts : list PolicyStatement) := evaluator_of (ex_document sts).

Lemma evaluate_deny_overrides_witness :
  let rq := mk_input ex_auth_context None None None (Some "perm:edit") None None None in
  let ev := ex_evaluator [ex_statement; ex_deny_statement] in
  ∃ r, evaluate ev 5 rq = Ok r ∧ allowed r = true ∧
    ∃ st, st ∈ selected_statements ev rq ∧ effect st = EFFECT_ALLOW ∧
      applies ev 5 rq st = Ok true.
Proof.
  cbv zeta. set (rq := mk_input _ _ _ _ _ _ _ _). set (ev := ex_evaluator _).
  destruct (evaluate ev 5 rq) as [r|] eqn:He; [|vm_compute in He; discriminate].
  assert (allowed r = true) as Ha by (vm_compute in He; injection He as <-; reflexivity).
  exists r. split; [reflexivity|]. split; [exact Ha|].
  exact (proj1 (proj1 (proj1 (evaluate_deny_overrides ev 5 rq r He)) Ha)).
Defined.

Lemma evaluate_terminates_witness :
  ∃ n, ∀ fuel rq, (n ≤ fuel)%nat →
    ∃ r, evaluate (ex_evaluator [ex_statement; ex_deny_statement]) fuel rq = Ok r.
Proof.
  apply (evaluate_terminates (ex_document [ex_statement; ex_deny_statement]) (λ _, 0%nat)).
  - intros r c H. apply dict_get_elem_of in H. apply list_elem_of_singleton in H.
    injection H as -> ->. split; [reflexivity|]. intros r' Hr'. by apply not_elem_of_nil in Hr'.
  - intros p ->%list_elem_of_singleton. repeat constructor.
Defined.

Lemma check_permission_sound_witness :
  let ev := ex_evaluator [ex_statement] in
  check_permission ev 5 (mk_permission_request ex_auth_context "perm:edit" None None)
    = Ok decision_allow ∧
  (∃ r, r ∈ _subject_roles ev ex_auth_context ∧ "perm:edit" ∈ _role_permissions ev r).
Proof.
  split; [vm_compute; reflexivity|].
  destruct (check_permission_sound (ex_evaluator [ex_statement]) 5
              (mk_permission_request ex_auth_context "perm:edit" None None) decision_allow)
    as [(s & Hs & Hp)|[H|(r & Hr & _)]]; try (vm_compute; reflexivity).
  - vm_compute in Hs. injection Hs as <-. vm_compute in Hp. by apply not_elem_of_nil in Hp.
  - exact H.
  - vm_compute in Hr. by apply not_elem_of_nil in Hr.
Defined.

Lemma check_role_allows_unheld_role_witness :
  check_role (ex_evaluator [ex_statement]) 5
    (mk_role_request ex_auth_context "role:owner" None) = Ok decision_allow ∧
  "role:owner" ∉ _subject_roles (ex_evaluator [ex_statement]) ex_auth_context.
Proof.
  split; [|decide_compute].
  apply (check_role_allows_unheld_role _ _ _ ex_statement); try reflexivity.
  - apply list_elem_of_singleton. reflexivity.
  - intros st' ->%list_elem_of_singleton. split; reflexivity.
Defined.

Lemma permission_enforced_end_to_end_witness :
  ∃ values c, Some ex_context_values = Some values ∧ require_auth_context values = Ok c ∧
    "perm:edit" ∈ _subject_permissions (ex_evaluator [ex_statement]) c.
Proof.
  apply (permission_enforced_end_to_end 5 (ex_document [ex_statement]) (Some ex_context_values)
           ex_auth_store "Api.edit" (Some (SelfInstance "Api")) "perm:edit" None None
           (ret 7) 0%nat 7%nat 0%nat).
  - apply ex_auth_store_wf.
  - vm_compute. reflexivity.
Defined.
