(* ===== verification/SagaFlow.v ===== *)
(** * Saga flows: [core/spakky-saga/src/spakky/saga/flow.py], [strategy.py],
    [data.py], [auth.py]

    The values a saga is described with, the operators that compose them
    ([>>], [&] and [|]), the builders, and the authorization of a step. *)

From Stdlib Require Import QArith_base.
From S2P Require Import Prelude Annotation Auth.

(** ** Error strategies *)

Record ExponentialBackoff := mk_backoff { backoff_base : Q }.

(** [base * 2 ** (attempt - 1)]; the engine passes attempts from 1. *)
Definition delay_for (b : ExponentialBackoff) (attempt : nat) : Q :=
  Qmult (backoff_base b) (inject_Z (2 ^ (Z.of_nat attempt - 1))).

Inductive then_strategy := ThenCompensate | ThenSkip.
Inductive ErrorStrategy :=
  | Compensate
  | Skip
  | Retry (max_attempts : nat) (backoff : ExponentialBackoff) (then_ : then_strategy).

Definition is_compensate (s : ErrorStrategy) : bool :=
  match s with Compensate => true | _ => false end.

(** ** Data and functions *)

(** [AbstractSagaData]: the engine looks at the identifier and the snapshot; the
    fields of the application are [payload]. *)
Record SagaData (P : Type) := mk_data {
  saga_id : string;
  auth_context_snapshot : option string;
  payload : P;
}.
Arguments mk_data {P}.
Arguments saga_id {P}.
Arguments auth_context_snapshot {P}.
Arguments payload {P}.

(** A function of the application: an identity, its [__name__], and the boundary
    its authorization metadata is read from. *)
Record pyfun := mk_fun { fun_id : nat; fun_name : string; fun_boundary : boundary }.

(** ** Flow items *)

Record SagaStep := mk_step {
  step_action : pyfun;
  step_on_error : ErrorStrategy;
  step_timeout : option Q;
  step_auth_boundary : option boundary;
  step_auth_owner_type : option py_object;
}.

Record Transaction := mk_transaction {
  tx_action : pyfun;
  tx_compensate : pyfun;
  tx_on_error : ErrorStrategy;
  tx_timeout : option Q;
  tx_action_auth_boundary : option boundary;
  tx_action_auth_owner_type : option py_object;
  tx_compensate_auth_boundary : option boundary;
  tx_compensate_auth_owner_type : option py_object;
}.

(** An item of a parallel group, and the group. *)
Inductive ParallelItem := PStep (s : SagaStep) | PTransaction (t : Transaction).
Record Parallel := mk_parallel { parallel_items : list ParallelItem }.

(** [FInvalid]: any object that is none of these. *)
Inductive FlowItem :=
  | FStep (s : SagaStep) | FTransaction (t : Transaction) | FParallel (p : Parallel)
  | FCallable (f : pyfun) | FInvalid.

Record SagaFlow := mk_flow {
  items : list FlowItem;
  saga_timeout : option Q;
  compensation_failure_handler : option pyfun;
}.

Inductive flow_error := SagaFlowDefinitionError.

(** ** Operators *)

(** The right operand of [>>]: a function or a step. *)
Inductive compensation := CompFunction (f : pyfun) | CompStep (s : SagaStep) | CompInvalid.

Definition _resolve_compensate_fn (c : compensation) : outcome flow_error pyfun :=
  match c with
  | CompStep s => Ok (step_action s)
  | CompFunction f => Ok f
  | CompInvalid => Raise SagaFlowDefinitionError
  end.

Definition step_rshift (s : SagaStep) (c : compensation) : outcome flow_error Transaction :=
  f ← _resolve_compensate_fn c;
  let '(boundary, owner) :=
    match c with
    | CompStep s' => (step_auth_boundary s', step_auth_owner_type s')
    | CompFunction f => (Some (fun_boundary f), None)
    | CompInvalid => (None, None)
    end in
  Ok (mk_transaction (step_action s) f (step_on_error s) (step_timeout s)
        (step_auth_boundary s) (step_auth_owner_type s) boundary owner).

(** The right operand of [&]. *)
Inductive and_operand := AItem (i : ParallelItem) | AParallel (p : Parallel).

Definition item_and (i : ParallelItem) (other : and_operand) : Parallel :=
  match other with
  | AParallel p => mk_parallel (i :: parallel_items p)
  | AItem j => mk_parallel [i; j]
  end.
Definition parallel_and (p : Parallel) (other : and_operand) : Parallel :=
  match other with
  | AParallel q => mk_parallel (parallel_items p ++ parallel_items q)
  | AItem j => mk_parallel (parallel_items p ++ [j])
  end.

Definition step_or (s : SagaStep) (e : ErrorStrategy) : SagaStep :=
  mk_step (step_action s) e (step_timeout s) (step_auth_boundary s) (step_auth_owner_type s).
Definition transaction_or (t : Transaction) (e : ErrorStrategy) : Transaction :=
  mk_transaction (tx_action t) (tx_compensate t) e (tx_timeout t) (tx_action_auth_boundary t)
    (tx_action_auth_owner_type t) (tx_compensate_auth_boundary t) (tx_compensate_auth_owner_type t).

Definition flow_timeout (f : SagaFlow) (duration : Q) : SagaFlow :=
  mk_flow (items f) (Some duration) (compensation_failure_handler f).
Definition on_compensation_failure (f : SagaFlow) (handler : pyfun) : SagaFlow :=
  mk_flow (items f) (saga_timeout f) (Some handler).

(** ** Builders *)

Definition promote (f : pyfun) : SagaStep := mk_step f Compensate None (Some (fun_boundary f)) None.

Definition step (action : pyfun) (compensate : option compensation)
    (on_error : option ErrorStrategy) (timeout : option Q) : outcome flow_error ParallelItem :=
  let resolved_on_error := default Compensate on_error in
  match compensate with
  | Some c =>
      f ← _resolve_compensate_fn c;
      Ok (PTransaction (mk_transaction action f resolved_on_error timeout
            (Some (fun_boundary action)) None (Some (fun_boundary f)) None))
  | None => Ok (PStep (mk_step action resolved_on_error timeout (Some (fun_boundary action)) None))
  end.

Fixpoint promote_parallel (l : list FlowItem) : outcome flow_error (list ParallelItem) :=
  match l with
  | [] => Ok []
  | i :: l' =>
      here ← match i with
             | FStep s => Ok [PStep s]
             | FTransaction t => Ok [PTransaction t]
             | FParallel p => Ok (parallel_items p)
             | FCallable f => Ok [PStep (promote f)]
             | FInvalid => Raise SagaFlowDefinitionError
             end;
      rest ← promote_parallel l';
      Ok (here ++ rest)
  end.

Definition _MIN_PARALLEL_ITEMS : nat := 2.
Definition parallel (l : list FlowItem) : outcome flow_error Parallel :=
  if (length l <? _MIN_PARALLEL_ITEMS)%nat then Raise SagaFlowDefinitionError
  else mk_parallel <$> promote_parallel l.

Fixpoint promote_items (l : list FlowItem) : outcome flow_error (list FlowItem) :=
  match l with
  | [] => Ok []
  | i :: l' =>
      here ← match i with
             | FCallable f => Ok (FStep (promote f))
             | FInvalid => Raise SagaFlowDefinitionError
             | _ => Ok i
             end;
      rest ← promote_items l';
      Ok (here :: rest)
  end.

Definition saga_flow (l : list FlowItem) : outcome flow_error SagaFlow :=
  match l with
  | [] => Raise SagaFlowDefinitionError
  | _ => (λ promoted, mk_flow promoted None None) <$> promote_items l
  end.

(** ** Normalisation *)

Record _NormalizedStep := mk_normalized {
  n_name : string;
  n_action : pyfun;
  n_compensate : option pyfun;
  n_on_error : ErrorStrategy;
  n_timeout : option Q;
  n_auth_boundary : option boundary;
  n_auth_owner_type : option py_object;
  n_compensate_auth_boundary : option boundary;
  n_compensate_auth_owner_type : option py_object;
}.
Inductive normalized_item := NStep (s : _NormalizedStep) | NParallel (l : list _NormalizedStep).

Definition _normalize_step (i : ParallelItem) : _NormalizedStep :=
  match i with
  | PStep s =>
      mk_normalized (fun_name (step_action s)) (step_action s) None (step_on_error s)
        (step_timeout s) (step_auth_boundary s) (step_auth_owner_type s) None None
  | PTransaction t =>
      mk_normalized (fun_name (tx_action t)) (tx_action t) (Some (tx_compensate t)) (tx_on_error t)
        (tx_timeout t) (tx_action_auth_boundary t) (tx_action_auth_owner_type t)
        (tx_compensate_auth_boundary t) (tx_compensate_auth_owner_type t)
  end.

Fixpoint _normalize_parallel (l : list ParallelItem) : outcome flow_error (list _NormalizedStep) :=
  match l with
  | [] => Ok []
  | i :: l' =>
      let n := _normalize_step i in
      if negb (is_compensate (n_on_error n)) then Raise SagaFlowDefinitionError
      else rest ← _normalize_parallel l'; Ok (n :: rest)
  end.

Fixpoint _normalize (l : list FlowItem) : outcome flow_error (list normalized_item) :=
  match l with
  | [] => Ok []
  | i :: l' =>
      n ← match i with
          | FParallel p => NParallel <$> _normalize_parallel (parallel_items p)
          | FStep s => Ok (NStep (_normalize_step (PStep s)))
          | FTransaction t => Ok (NStep (_normalize_step (PTransaction t)))
          | FCallable f =>
              Ok (NStep (mk_normalized (fun_name f) f None Compensate None
                           (Some (fun_boundary f)) None None None))
          | FInvalid => Raise SagaFlowDefinitionError
          end;
      rest ← _normalize l';
      Ok (n :: rest)
  end.

(** ** Authorization of a step *)

Definition SAGA_AUTH_BOUNDARY : string := "saga".

Record SagaAuthExecutionContext := mk_saga_auth {
  snapshot_verifier : option (string → AuthInvocation → outcome auth_error AuthContext);
  saga_ports : auth_ports;
}.

Definition no_saga_auth : SagaAuthExecutionContext :=
  mk_saga_auth None (mk_auth_ports None None None None None).

Definition _invocation {P} (step_name : string) (d : SagaData P) : AuthInvocation :=
  mk_auth_invocation SAGA_AUTH_BOUNDARY step_name
    [("saga_id", Some (saga_id d)); ("auth_context_snapshot", auth_context_snapshot d)].

Definition _provider_unavailable_decision : AuthorizationDecision :=
  decision_error INTERNAL_ERROR (Some "Saga auth provider is unavailable").

Section authorize.
Context (ctx : SagaAuthExecutionContext).

Definition _verify_snapshot (envelope : option string) (inv : AuthInvocation)
    : outcome auth_error AuthContext :=
  match envelope with
  | None | Some "" => Raise (AuthRequirementDeniedError MISSING_SNAPSHOT_DECISION)
  | Some e =>
      match snapshot_verifier ctx with
      | None => Raise (AuthRequirementDeniedError VERIFICATION_PROVIDER_UNAVAILABLE_DECISION)
      | Some verify =>
          match verify e inv with
          | Ok c => Ok c
          | Raise MissingAuthContextSnapshotError =>
              Raise (AuthRequirementDeniedError MISSING_SNAPSHOT_DECISION)
          | Raise InvalidAuthContextSnapshotError =>
              Raise (AuthRequirementDeniedError INVALID_SNAPSHOT_DECISION)
          | Raise ExpiredAuthContextSnapshotError =>
              Raise (AuthRequirementDeniedError EXPIRED_SNAPSHOT_DECISION)
          | Raise AuthVerificationProviderUnavailableError =>
              Raise (AuthRequirementDeniedError VERIFICATION_PROVIDER_UNAVAILABLE_DECISION)
          | Raise other => Raise other
          end
      end
  end.

Definition saga_evaluate_requirement (r : AuthRequirement) (c : AuthContext) : verdict :=
  let ports := saga_ports ctx in
  match kind r with
  | AUTHENTICATED => Ok decision_allow
  | PERMISSION =>
      match permission_checker ports with
      | None => Ok _provider_unavailable_decision
      | Some check => check (mk_permission_request c (ref r) (resource r) (req_tenant r))
      end
  | POLICY =>
      match authorization_policy_evaluator ports, resource r, action r with
      | Some evaluate, Some res, Some act =>
          evaluate (mk_authorization_request c res act (req_tenant r))
      | _, _, _ => Ok _provider_unavailable_decision
      end
  | RELATION =>
      match relation_checker ports, resource r with
      | Some check, Some res => check (mk_relation_request c (ref r) res (req_tenant r))
      | _, _ => Ok _provider_unavailable_decision
      end
  | ROLE =>
      match role_checker ports with
      | None => Ok _provider_unavailable_decision
      | Some check => check (mk_role_request c (ref r) (req_tenant r))
      end
  | SCOPE =>
      match scope_checker ports with
      | None => Ok _provider_unavailable_decision
      | Some check => check (mk_scope_request c (ref r))
      end
  end.

Fixpoint saga_enforce (c : AuthContext) (rs : list AuthRequirement) : outcome auth_error unit :=
  match rs with
  | [] => Ok tt
  | r :: rs' =>
      d ← saga_evaluate_requirement r c;
      if decide (state d = ALLOW) then saga_enforce c rs'
      else Raise (AuthRequirementDeniedError d)
  end.

Definition authorize_step {P} (st : auth_store) (step_name : string) (b : option boundary)
    (owner : option py_object) (d : SagaData P) : outcome auth_error unit :=
  match b with
  | None => Ok tt
  | Some b =>
      md ← get_effective_auth_metadata st b owner;
      if negb (protected md) then Ok tt
      else
        c ← _verify_snapshot (auth_context_snapshot d) (_invocation step_name d);
        saga_enforce c (requirements md)
  end.
End authorize.

(** ** Lemmas *)

Lemma saga_enforce_Ok ctx c rs u :
  saga_enforce ctx c rs = Ok u →
  ∀ r, r ∈ rs → ∃ d, saga_evaluate_requirement ctx r c = Ok d ∧ state d = ALLOW.
Proof.
  induction rs as [|r rs IH]; cbn.
  { intros _ r Hr. by apply not_elem_of_nil in Hr. }
  intros (d & Hd & H)%outcome_bind_Ok. case_decide; [|done].
  intros r' [->|Hin]%elem_of_cons; [eauto|by apply IH].
Qed.

Lemma normalize_parallel_Ok l ns :
  _normalize_parallel l = Ok ns →
  ns = _normalize_step <$> l ∧ Forall (λ n, n_on_error n = Compensate) ns.
Proof.
  revert ns. induction l as [|i l IH]; cbn; [by intros ns [= <-]|]. intros ns.
  destruct (n_on_error (_normalize_step i)) eqn:He; cbn; [|done..].
  intros (rest & Hr & [= <-])%outcome_bind_Ok. destruct (IH rest Hr) as [-> ?].
  split; [done|by constructor].
Qed.

(** ** Properties *)

(** The operator [&] is associative: however a group of items is bracketed,
    the result is the flat group of its items in order. *)
Theorem parallel_composition_associative a b c p q :
  item_and a (AParallel (item_and b (AItem c))) = mk_parallel [a; b; c] ∧
  parallel_and (item_and a (AItem b)) (AItem c) = mk_parallel [a; b; c] ∧
  parallel_and (parallel_and p (AParallel q)) (AItem c)
    = parallel_and p (AParallel (parallel_and q (AItem c))) ∧
  parallel_and (item_and a (AParallel p)) (AParallel q)
    = item_and a (AParallel (parallel_and p (AParallel q))).
Proof.
  split_and!; try done. unfold parallel_and. cbn. by rewrite <-app_assoc.
Qed.

(** A protected step runs only with a verified snapshot: when a step that
    carries a requirement is authorized, its data holds a non-empty snapshot,
    the configured verifier accepted it for this step of this saga, and every
    requirement was answered with ALLOW for the context it yields. *)
Theorem authorize_step_requires_snapshot {P} ctx st name b owner (d : SagaData P) u md :
  get_effective_auth_metadata st b owner = Ok md → protected md = true →
  authorize_step ctx st name (Some b) owner d = Ok u →
  ∃ envelope verify c,
    auth_context_snapshot d = Some envelope ∧ envelope ≠ "" ∧
    snapshot_verifier ctx = Some verify ∧ verify envelope (_invocation name d) = Ok c ∧
    ∀ r, r ∈ requirements md → ∃ dec, saga_evaluate_requirement ctx r c = Ok dec ∧ state dec = ALLOW.
Proof.
  intros Hmd Hp. unfold authorize_step. rewrite Hmd. cbn [mbind outcome_bind]. rewrite Hp. cbn [negb].
  intros (c & Hc & He)%outcome_bind_Ok. pose proof (saga_enforce_Ok _ _ _ _ He) as Hall.
  unfold _verify_snapshot in Hc. destruct (auth_context_snapshot d) as [e|] eqn:Hs; [|done].
  destruct (decide (e = "")) as [->|Hne]; [done|].
  assert (match snapshot_verifier ctx with Some v => v e (_invocation name d) = Ok c | None => False end)
    as Hv.
  { destruct e as [|ch e]; [done|].
    destruct (snapshot_verifier ctx) as [v|]; [|done].
    destruct (v _ _) as [c'|[]]; try done. }
  destruct (snapshot_verifier ctx) as [v|] eqn:Hver; [|done].
  exists e, v, c. done.
Qed.

Definition ex_action : pyfun := mk_fun 0 "reserve" (BCallable "reserve" None).
Definition ex_saga_data : SagaData nat := mk_data "saga-1" (Some "signed") 0.
Definition ex_saga_auth : SagaAuthExecutionContext :=
  mk_saga_auth (Some (λ e inv, Ok ex_auth_context))
    (mk_auth_ports None None None (Some ex_role_port) None).

Lemma authorize_step_requires_snapshot_witness :
  let st := requirement_decorator (require_role "role:admin" None) "reserve" ex_auth_store in
  ∃ envelope verify c,
    auth_context_snapshot ex_saga_data = Some envelope ∧ envelope ≠ "" ∧
    snapshot_verifier ex_saga_auth = Some verify ∧
    verify envelope (_invocation "reserve" ex_saga_data) = Ok c ∧
    ∀ r, r ∈ [require_role "role:admin" None] →
      ∃ dec, saga_evaluate_requirement ex_saga_auth r c = Ok dec ∧ state dec = ALLOW.
Proof.
  cbv zeta.
  apply (authorize_step_requires_snapshot ex_saga_auth
    (requirement_decorator (require_role "role:admin" None) "reserve" ex_auth_store)
    "reserve" (BCallable "reserve" None) None ex_saga_data tt
    (mk_effective false [require_role "role:admin" None])); vm_compute; reflexivity.
Defined.
