(* ===== verification/SagaEngine.v ===== *)
(** * The saga engine: [core/spakky-saga/src/spakky/saga/engine.py]

    [SagaExecutor] as a computation over its fields. Application code is a
    parameter: awaiting it returns, raises an exception, or is cancelled, and
    [asyncio.timeout] turns the cancellation its own deadline caused into a
    [TimeoutError] at its exit. A parallel group runs its children one after
    the other in the order a scheduler chooses; each child's effect on the
    world is atomic. *)

From Stdlib Require Import QArith_base.
From S2P Require Import Prelude Annotation Auth SagaFlow.

(** ** Exceptions *)

Inductive saga_exn :=
  | ActionError (n : nat)
  | TimeoutError
  | AuthError (e : auth_error)
  | SagaStepTimeoutError
  | SagaCompensationFailedError
  | DefinitionError (e : flow_error).

(** Who cancelled an await: the deadline of the step, that of the saga, or the
    caller. *)
Inductive canceller := StepDeadline | SagaDeadline | External.

(** [Exn] is an [Exception]; a cancellation is a [BaseException] only. *)
Inductive raised := Exn (e : saga_exn) | Cancelled (by_ : canceller).

(** ** Results *)

Inductive SagaStatus := COMPLETED | FAILED | TIMED_OUT.
Inductive StepStatus := STEP_COMMITTED | STEP_FAILED | STEP_COMPENSATED.

Global Instance step_status_eq_dec : EqDecision StepStatus.
Proof. solve_decision. Defined.

Record StepRecord := mk_record { rec_name : string; rec_status : StepStatus; rec_elapsed : Z }.

Record SagaResult (P : Type) := mk_saga_result {
  status : SagaStatus;
  result_data : SagaData P;
  failed_step : option string;
  error : option saga_exn;
  result_history : list StepRecord;
  elapsed : Z;
}.
Arguments mk_saga_result {P}.
Arguments status {P}.
Arguments result_data {P}.
Arguments failed_step {P}.
Arguments error {P}.
Arguments result_history {P}.
Arguments elapsed {P}.

Record _CompensableStep := mk_compensable {
  comp_name : string;
  comp_compensate : pyfun;
  comp_auth_boundary : option boundary;
  comp_auth_owner_type : option py_object;
}.

Record executor (P W : Type) := mk_executor {
  _data : SagaData P;
  _compensable : list _CompensableStep;
  _history : list StepRecord;
  _world : W;
}.
Arguments mk_executor {P W}.
Arguments _data {P W}.
Arguments _compensable {P W}.
Arguments _history {P W}.
Arguments _world {P W}.

(** ** Application code and the event loop *)

(** [perform_action] also tells whether the step's deadline had expired when the
    action ended. [gather_interrupt] is a cancellation of the whole group after
    some of its children ran. *)
Record saga_runtime (P W : Type) := mk_runtime {
  perform_action : pyfun → option Q → SagaData P → W
                   → outcome raised (option (SagaData P)) * bool * W;
  perform_effect : pyfun → SagaData P → W → outcome raised unit * W;
  sleep : Q → W → outcome raised unit * W;
  monotonic : W → Z;
  schedule : nat → W → list nat;
  gather_interrupt : nat → W → option (nat * canceller);
  auth_metadata : auth_store;
}.
Arguments mk_runtime {P W}.
Arguments perform_action {P W}.
Arguments perform_effect {P W}.
Arguments sleep {P W}.
Arguments monotonic {P W}.
Arguments schedule {P W}.
Arguments gather_interrupt {P W}.
Arguments auth_metadata {P W}.

Section engine.
Context {P W : Type} (rt : saga_runtime P W) (auth : SagaAuthExecutionContext) (flow : SagaFlow).

Abbreviation executor := (executor P W).
Abbreviation action := (comp executor raised).

Definition set_data (d : SagaData P) : action unit :=
  modify (λ s, mk_executor d (_compensable s) (_history s) (_world s)).
Definition set_saga_world (s : executor) (w : W) : executor :=
  mk_executor (_data s) (_compensable s) (_history s) w.
Definition now : action Z := gets (λ s, monotonic rt (_world s)).

(** [try: m except Exception as error]: a cancellation goes through. *)
Definition catch {A} (m : action A) : action (saga_exn + A) :=
  λ s, match m s with
       | (Ok a, s') => (Ok (inr a), s')
       | (Raise (Exn e), s') => (Ok (inl e), s')
       | (Raise (Cancelled c), s') => (Raise (Cancelled c), s')
       end.

Definition await_effect (f : pyfun) : action unit :=
  λ s, let '(r, w) := perform_effect rt f (_data s) (_world s) in (r, set_saga_world s w).
Definition _sleep (q : Q) : action unit :=
  λ s, let '(r, w) := sleep rt q (_world s) in (r, set_saga_world s w).

(** ** Records *)

Definition _record (name : string) (st : StepStatus) (start : Z) : action unit :=
  t <- now ;;
  modify (λ s, mk_executor (_data s) (_compensable s)
                 (_history s ++ [mk_record name st (t - start)]) (_world s)).
Definition _record_step_committed (name : string) (start : Z) : action unit :=
  _record name STEP_COMMITTED start.
Definition _record_step_failure (name : string) (start : Z) : action unit :=
  _record name STEP_FAILED start.
Definition _record_step_compensated (name : string) (start : Z) : action unit :=
  _record name STEP_COMPENSATED start.

Definition _remember_compensable (n : _NormalizedStep) : action unit :=
  match n_compensate n with
  | None => ret tt
  | Some f =>
      modify (λ s, mk_executor (_data s)
        (_compensable s ++ [mk_compensable (n_name n) f (n_compensate_auth_boundary n)
                              (n_compensate_auth_owner_type n)])
        (_history s) (_world s))
  end.

Definition _preserve_auth_context_snapshot (current d : SagaData P) : SagaData P :=
  match auth_context_snapshot d with
  | Some _ => d
  | None =>
      match auth_context_snapshot current with
      | None => d
      | Some e => mk_data (saga_id d) (Some e) (payload d)
      end
  end.

(** ** One step *)

Definition _invoke_action (f : pyfun) (timeout : option Q) : action (option (SagaData P)) :=
  λ s,
    let '(r, expired, w) := perform_action rt f timeout (_data s) (_world s) in
    let r' :=
      match timeout with
      | None => r
      | Some _ =>
          match r with
          | Raise (Cancelled StepDeadline) => Raise (Exn SagaStepTimeoutError)
          | Raise (Exn TimeoutError) => if expired : bool then Raise (Exn SagaStepTimeoutError) else r
          | _ => r
          end
      end in
    (r', set_saga_world s w).

Definition authorize (name : string) (b : option boundary) (owner : option py_object)
    : action unit :=
  s <- get_state ;;
  lift (map_error (λ e, Exn (AuthError e))
          (authorize_step auth (auth_metadata rt) name b owner (_data s))).

Definition _invoke_step_action (n : _NormalizedStep) : action (option (SagaData P)) :=
  authorize (n_name n) (n_auth_boundary n) (n_auth_owner_type n) ;;;
  _invoke_action (n_action n) (n_timeout n).

(** What follows a successful action, in a first attempt or a retry. *)
Definition commit (n : _NormalizedStep) (start : Z) (result : option (SagaData P)) : action unit :=
  match result with
  | Some d => s <- get_state ;; set_data (_preserve_auth_context_snapshot (_data s) d)
  | None => ret tt
  end ;;;
  _record_step_committed (n_name n) start ;;;
  _remember_compensable n.

Inductive _StrategyOutcome := CONTINUE | COMPENSATE_AND_FAIL.

Definition then_outcome (t : then_strategy) : _StrategyOutcome :=
  match t with ThenSkip => CONTINUE | ThenCompensate => COMPENSATE_AND_FAIL end.

(** [for attempt in attempts: ...] followed by the [then] strategy *)
Fixpoint retry_loop (n : _NormalizedStep) (b : ExponentialBackoff) (t : then_strategy)
    (attempts : list nat) (last_error : saga_exn) : action (_StrategyOutcome * saga_exn) :=
  match attempts with
  | [] => ret (then_outcome t, last_error)
  | attempt :: attempts' =>
      _sleep (delay_for b (attempt - 1)) ;;;
      (step_start <- now ;;
       result <- catch (_invoke_step_action n) ;;
       match result with
       | inl e => _record_step_failure (n_name n) step_start ;;; retry_loop n b t attempts' e
       | inr r => commit n step_start r ;;; ret (CONTINUE, last_error)
       end)
  end.

(** [range(2, max_attempts + 1)] *)
Definition retry_attempts (max_attempts : nat) : list nat := seq 2 (max_attempts - 1).

Definition _apply_strategy (n : _NormalizedStep) (first_error : saga_exn)
    : action (_StrategyOutcome * saga_exn) :=
  match n_on_error n with
  | Skip => ret (CONTINUE, first_error)
  | Retry max_attempts b t => retry_loop n b t (retry_attempts max_attempts) first_error
  | Compensate => ret (COMPENSATE_AND_FAIL, first_error)
  end.

Definition _execute_serial_step (n : _NormalizedStep) : action (option (string * saga_exn)) :=
  step_start <- now ;;
  result <- catch (_invoke_step_action n) ;;
  match result with
  | inl e =>
      _record_step_failure (n_name n) step_start ;;;
      (outcome <- _apply_strategy n e ;;
       match outcome with
       | (CONTINUE, _) => ret None
       | (COMPENSATE_AND_FAIL, last_error) => ret (Some (n_name n, last_error))
       end)
  | inr r => commit n step_start r ;;; ret None
  end.

(** ** A parallel group *)

Abbreviation child_result := (outcome raised (option (SagaData P))).

(** The children at [order], their results kept as values. *)
Fixpoint run_children (l : list _NormalizedStep) (order : list nat)
    : action (list (nat * child_result)) :=
  match order with
  | [] => ret []
  | i :: order' =>
      match l !! i with
      | None => run_children l order'
      | Some n =>
          r <- (λ s, let '(r, s') := _invoke_step_action n s in (Ok r, s')) ;;
          rest <- run_children l order' ;;
          ret ((i, r) :: rest)
      end
  end.

Definition result_at (results : list (nat * child_result)) (i : nat) : child_result :=
  match List.find (λ ir, (ir.1 =? i)%nat) results with
  | Some (_, r) => r
  | None => Raise (Cancelled External)
  end.

(** [asyncio.gather(..., return_exceptions=True)] *)
Definition gather (l : list _NormalizedStep) : action (list child_result) :=
  s <- get_state ;;
  let order := schedule rt (length l) (_world s) in
  match gather_interrupt rt (length l) (_world s) with
  | Some (k, by_) => run_children l (take k order) ;;; raise (Cancelled by_)
  | None =>
      results <- run_children l order ;;
      ret (result_at results <$> seq 0 (length l))
  end.

(** The loop over the results: the first failure and the first cancellation. *)
Fixpoint collect (l : list (_NormalizedStep * Z * child_result))
    (first_failure : option (string * saga_exn)) (cancellation : option canceller)
    : action (option (string * saga_exn) * option canceller) :=
  match l with
  | [] => ret (first_failure, cancellation)
  | (n, started, r) :: l' =>
      match r with
      | Raise (Cancelled c) =>
          _record_step_failure (n_name n) started ;;;
          collect l' first_failure (Some (default c cancellation))
      | Raise (Exn e) =>
          _record_step_failure (n_name n) started ;;;
          collect l' (Some (default (n_name n, e) first_failure)) cancellation
      | Ok _ =>
          _record_step_committed (n_name n) started ;;;
          _remember_compensable n ;;;
          collect l' first_failure cancellation
      end
  end.

Definition _execute_parallel (l : list _NormalizedStep) : action (option (string * saga_exn)) :=
  step_start <- now ;;
  results <- gather l ;;
  collected <- collect (zip (zip l (replicate (length l) step_start)) results) None None ;;
  match collected.2 with
  | Some c => raise (Cancelled c)
  | None => ret collected.1
  end.

(** ** Compensation *)

Definition compensate_one (c : _CompensableStep) : action unit :=
  comp_start <- now ;;
  result <- catch (
    authorize (comp_name c) (comp_auth_boundary c) (comp_auth_owner_type c) ;;;
    await_effect (comp_compensate c) ;;;
    _record_step_compensated (comp_name c) comp_start) ;;
  match result with
  | inr _ => ret tt
  | inl _ =>
      _record_step_failure (comp_name c) comp_start ;;;
      match compensation_failure_handler flow with
      | Some h => await_effect h
      | None => ret tt
      end ;;;
      raise (Exn SagaCompensationFailedError)
  end.

Definition _run_compensation : action unit :=
  s <- get_state ;;
  for_each compensate_one (reverse (_compensable s)).

(** ** The whole saga *)

Definition result_of (st : SagaStatus) (failure : option (string * saga_exn)) (saga_start : Z)
    : action (SagaResult P) :=
  s <- get_state ;;
  ret (mk_saga_result st (_data s) (fst <$> failure) (snd <$> failure) (_history s)
         (monotonic rt (_world s) - saga_start)).

Fixpoint _run_items (saga_start : Z) (l : list normalized_item) : action (SagaResult P) :=
  match l with
  | [] => result_of COMPLETED None saga_start
  | i :: l' =>
      failure <- match i with
                 | NParallel g => _execute_parallel g
                 | NStep n => _execute_serial_step n
                 end ;;
      match failure with
      | Some f => _run_compensation ;;; result_of FAILED (Some f) saga_start
      | None => _run_items saga_start l'
      end
  end.

(** [except TimeoutError] around [asyncio.timeout]: the deadline's cancellation,
    or a [TimeoutError] raised inside. *)
Definition _run_with_saga_timeout (saga_start : Z) (l : list normalized_item)
    : action (SagaResult P) :=
  try_except (_run_items saga_start l) (λ e,
    match e with
    | Cancelled SagaDeadline | Exn TimeoutError =>
        Some (_run_compensation ;;; result_of TIMED_OUT None saga_start)
    | _ => None
    end).

Definition run : action (SagaResult P) :=
  saga_start <- now ;;
  normalized <- lift (map_error (λ e, Exn (DefinitionError e)) (_normalize (items flow))) ;;
  match saga_timeout flow with
  | None => _run_items saga_start normalized
  | Some _ => _run_with_saga_timeout saga_start normalized
  end.

Definition run_saga_flow (d : SagaData P) (w : W) : outcome raised (SagaResult P) * W :=
  let '(r, s) := run (mk_executor d [] [] w) in (r, _world s).
End engine.

(** ** Lemmas *)

Section lemmas.
Context {P W : Type} (rt : saga_runtime P W) (auth : SagaAuthExecutionContext) (flow : SagaFlow).
Implicit Types (s : executor P W) (n : _NormalizedStep).

(** The history without the times. *)
Definition entry (r : StepRecord) : string * StepStatus := (rec_name r, rec_status r).
Definition trace s : list (string * StepStatus) := entry <$> _history s.

(** *** What application code was awaited

    The actions, compensations and delays of a run, each with the data it was
    given and what came of it. *)

Inductive awaited :=
  | AwaitAction (f : pyfun) (timeout : option Q) (d : SagaData P)
      (r : outcome raised (option (SagaData P))) (expired : bool)
  | AwaitEffect (f : pyfun) (d : SagaData P) (r : outcome raised unit)
  | AwaitSleep (q : Q) (r : outcome raised unit).

(** Awaiting [es], one after the other, takes the world from [w] to [w']. *)
Inductive performs : W → list awaited → W → Prop :=
  | performs_nil w : performs w [] w
  | performs_action w f t d r x w1 es w' :
      perform_action rt f t d w = (r, x, w1) → performs w1 es w' →
      performs w (AwaitAction f t d r x :: es) w'
  | performs_effect w f d r w1 es w' :
      perform_effect rt f d w = (r, w1) → performs w1 es w' →
      performs w (AwaitEffect f d r :: es) w'
  | performs_sleep w q r w1 es w' :
      sleep rt q w = (r, w1) → performs w1 es w' →
      performs w (AwaitSleep q r :: es) w'.

Lemma performs_app w es w1 es' w' :
  performs w es w1 → performs w1 es' w' → performs w (es ++ es') w'.
Proof. induction 1; cbn; [done|econstructor; eauto..]. Qed.

(** Neither compensations nor the failure handler. *)
Definition forward_event (e : awaited) : Prop :=
  match e with AwaitEffect _ _ _ => False | _ => True end.

(** The action of the step was awaited, under its deadline, and returned. *)
Definition action_returned (es : list awaited) n : Prop :=
  ∃ d r x, AwaitAction (n_action n) (n_timeout n) d (Ok r) x ∈ es.

(** What application code cannot touch. *)
Definition same_books s s' : Prop :=
  _history s' = _history s ∧ _compensable s' = _compensable s ∧ _data s' = _data s.

Lemma invoke_books n s : same_books s (_invoke_step_action rt auth n s).2.
Proof.
  unfold _invoke_step_action, authorize, bind, get_state, lift.
  destruct (map_error _ _) as [[]|e]; [|done]. unfold _invoke_action.
  by destruct (perform_action _ _ _ _ _) as [[r b] w].
Qed.

Lemma sleep_books q s : same_books s (_sleep rt q s).2.
Proof. unfold _sleep. by destruct (sleep rt q (_world s)) as [r w]. Qed.

Lemma effect_books f s : same_books s (await_effect rt f s).2.
Proof. unfold await_effect. by destruct (perform_effect rt f (_data s) (_world s)) as [r w]. Qed.

Lemma same_books_trace s s' : same_books s s' → trace s' = trace s.
Proof. intros (H & _ & _). unfold trace. by rewrite H. Qed.

Lemma trace_record name st start s :
  (_record rt name st start s).1 = Ok tt ∧
  trace (_record rt name st start s).2 = trace s ++ [(name, st)] ∧
  _compensable (_record rt name st start s).2 = _compensable s ∧
  _data (_record rt name st start s).2 = _data s ∧
  _world (_record rt name st start s).2 = _world s.
Proof. split_and!; try done. cbn. unfold trace. cbn. by rewrite fmap_app. Qed.

(** The compensation a committed step contributes. *)
Definition compensable_of n : list _CompensableStep :=
  match n_compensate n with
  | None => []
  | Some f => [mk_compensable (n_name n) f (n_compensate_auth_boundary n)
                 (n_compensate_auth_owner_type n)]
  end.

Lemma commit_spec n start r s :
  ∃ s', commit rt n start r s = (Ok tt, s') ∧
    trace s' = trace s ++ [(n_name n, STEP_COMMITTED)] ∧
    _compensable s' = _compensable s ++ compensable_of n ∧
    _world s' = _world s ∧
    (r = None → _data s' = _data s).
Proof.
  unfold commit, compensable_of, _remember_compensable, _record_step_committed, _record, trace.
  destruct r as [d|], (n_compensate n) as [f|]; eexists; (split; [reflexivity|]); cbn;
    rewrite fmap_app, ?app_nil_r; done.
Qed.

Lemma catch_Ok {A} (m : comp (executor P W) raised A) s r s' :
  catch m s = (Ok r, s') →
  match r with
  | inl e => m s = (Raise (Exn e), s')
  | inr a => m s = (Ok a, s')
  end.
Proof. unfold catch. destruct (m s) as [[a|[e|c]] s1]; by intros [= <- <-]. Qed.

Lemma invoke_catch n s r s' :
  catch (_invoke_step_action rt auth n) s = (Ok r, s') → same_books s s'.
Proof.
  intros H. apply catch_Ok in H. pose proof (invoke_books n s) as Hb.
  destruct r; rewrite H in Hb; apply Hb.
Qed.

Lemma retry_loop_spec n b t attempts e s o s' :
  retry_loop rt auth n b t attempts e s = (Ok o, s') →
  ∃ k (committed : bool),
    trace s' = trace s ++ replicate k (n_name n, STEP_FAILED)
                 ++ (if committed then [(n_name n, STEP_COMMITTED)] else []) ∧
    _compensable s' = _compensable s ++ (if committed then compensable_of n else []) ∧
    (k + (if committed then 1 else 0) ≤ length attempts)%nat ∧
    (committed = false → k = length attempts) ∧
    o.1 = if committed then CONTINUE else then_outcome t.
Proof.
  revert e s. induction attempts as [|a attempts IH]; intros e s; cbn.
  { intros [= <- <-]. exists 0%nat, false. cbn. by rewrite !app_nil_r. }
  intros ([] & s1 & Hsl & H)%bind_Ok_inv. pose proof (sleep_books (delay_for b (a - 1)) s) as Hb1.
  rewrite Hsl in Hb1. cbn in Hb1. unfold bind at 1, now at 1, gets in H.
  apply bind_Ok_inv in H as (r & s2 & Hc & H). apply invoke_catch in Hc as Hb2.
  assert (trace s2 = trace s ∧ _compensable s2 = _compensable s) as [Ht Hcomp].
  { split; [by rewrite (same_books_trace s1 s2), (same_books_trace s s1) by done|].
    destruct Hb1 as (_ & E1 & _), Hb2 as (_ & E2 & _). congruence. }
  destruct r as [e'|r].
  - unfold bind at 1 in H. destruct (trace_record (n_name n) STEP_FAILED (monotonic rt (_world s1)) s2)
      as (H1 & H2 & H3 & _). unfold _record_step_failure in H.
    destruct (_record _ _ _ _ s2) as [ro s3]. cbn in H1, H2, H3. subst ro.
    apply IH in H as (k & cm & Htr & Hco & Hle & Hfull & Ho).
    exists (S k), cm. rewrite Htr, H2, Ht, Hco, H3, Hcomp. split_and!; try done.
    + cbn. by rewrite <-!app_assoc.
    + cbn. destruct cm; lia.
    + intros Hcm. by rewrite Hfull.
  - unfold bind at 1 in H. destruct (commit_spec n (monotonic rt (_world s1)) r s2)
      as (s3 & Hcm & Htr & Hco & _). rewrite Hcm in H. injection H as <- <-.
    exists 0%nat, true. rewrite Htr, Ht, Hco, Hcomp. split_and!; try done. cbn. lia.
Qed.

(** How often a step is attempted at most, and what its failure leads to. *)
Definition attempts_of n : nat :=
  match n_on_error n with Retry m _ _ => 1 `max` m | _ => 1 end.
Definition final_outcome n : _StrategyOutcome :=
  match n_on_error n with
  | Skip => CONTINUE
  | Compensate => COMPENSATE_AND_FAIL
  | Retry _ _ t => then_outcome t
  end.

(** What a step leaves: [k] failed attempts, then perhaps a committed one. *)
Definition step_report n s (o : option (string * saga_exn)) s' : Prop :=
  ∃ k (committed : bool),
    trace s' = trace s ++ replicate k (n_name n, STEP_FAILED)
                 ++ (if committed then [(n_name n, STEP_COMMITTED)] else []) ∧
    _compensable s' = _compensable s ++ (if committed then compensable_of n else []) ∧
    (1 ≤ k + (if committed then 1 else 0) ≤ attempts_of n)%nat ∧
    (committed = false → k = attempts_of n) ∧
    (if committed then o = None
     else match final_outcome n with
          | CONTINUE => o = None
          | COMPENSATE_AND_FAIL => ∃ e, o = Some (n_name n, e)
          end).

Lemma execute_serial_step_spec n s o s' :
  _execute_serial_step rt auth n s = (Ok o, s') → step_report n s o s'.
Proof.
  unfold _execute_serial_step. unfold bind at 1, now at 1, gets.
  intros (r & s1 & Hc & H)%bind_Ok_inv. apply invoke_catch in Hc as Hb.
  assert (_compensable s1 = _compensable s) as Hcomp by apply Hb.
  pose proof (same_books_trace s s1 Hb) as Ht.
  destruct r as [e|r].
  - unfold bind at 1 in H.
    destruct (trace_record (n_name n) STEP_FAILED (monotonic rt (_world s)) s1)
      as (H1 & H2 & H3 & _). unfold _record_step_failure in H.
    destruct (_record _ _ _ _ s1) as [ro s2]. cbn in H1, H2, H3. subst ro.
    apply bind_Ok_inv in H as ([oc le] & s3 & Hap & H).
    unfold _apply_strategy in Hap. unfold step_report, attempts_of, final_outcome.
    destruct (n_on_error n) as [| |m b t] eqn:Hon.
    + injection Hap as <- <- <-. injection H as <- <-. exists 1%nat, false.
      rewrite H2, Ht, H3, Hcomp. cbn. rewrite !app_nil_r. split_and!; eauto.
    + injection Hap as <- <- <-. injection H as <- <-. exists 1%nat, false.
      rewrite H2, Ht, H3, Hcomp. cbn. rewrite !app_nil_r. split_and!; eauto.
    + apply retry_loop_spec in Hap as (k & cm & Htr & Hco & Hle & Hfull & Ho).
      unfold retry_attempts in Hle, Hfull. rewrite length_seq in Hle, Hfull.
      assert (s' = s3) as -> by (destruct oc; by injection H as _ <-).
      exists (S k), cm. rewrite Hco, Htr, H2, Ht, H3, Hcomp. cbn in Ho. subst oc.
      split_and!.
      * cbn. by rewrite <-!app_assoc.
      * done.
      * destruct cm; lia.
      * destruct cm; lia.
      * intros Hcm. rewrite (Hfull Hcm). lia.
      * destruct cm; [by injection H as <-|].
        destruct (then_outcome t); injection H as <-; eauto.
  - unfold bind at 1 in H. destruct (commit_spec n (monotonic rt (_world s)) r s1)
      as (s2 & Hcm & Htr & Hco & _). rewrite Hcm in H. injection H as <- <-.
    exists 0%nat, true. rewrite Htr, Ht, Hco, Hcomp. unfold attempts_of. cbn.
    split_and!; try done; destruct (n_on_error n); lia.
Qed.

(** ** Parallel groups *)

Lemma run_children_books l order s :
  same_books s (run_children rt auth l order s).2.
Proof.
  revert s. induction order as [|i order IH]; intros s; cbn [run_children]; [done|].
  destruct (l !! i) as [n|]; [|apply IH]. unfold bind. cbv beta.
  pose proof (invoke_books n s) as Hb. destruct (_invoke_step_action rt auth n s) as [r s1].
  cbn in Hb. specialize (IH s1). destruct (run_children rt auth l order s1) as [[rs|e] s2];
    cbn [snd ret] in *; unfold same_books in *;
    destruct Hb as (?&?&?), IH as (?&?&?); split_and!; congruence.
Qed.

Definition flag_entry n (ok : bool) : string * StepStatus :=
  (n_name n, if ok then STEP_COMMITTED else STEP_FAILED).

Lemma collect_spec l ff c s :
  ∃ o s', collect rt l ff c s = (Ok o, s') ∧
    trace s' = trace s ++ ((λ x, flag_entry x.1.1 (is_ok x.2)) <$> l) ∧
    _compensable s' = _compensable s
      ++ (l ≫= λ x, if is_ok x.2 then compensable_of x.1.1 else []) ∧
    _data s' = _data s ∧
    (o.2 = None → c = None ∧ Forall (λ x, match x.2 with Raise (Cancelled _) => False | _ => True end) l) ∧
    (o.1 = None ↔ ff = None ∧ Forall (λ x, match x.2 with Raise (Exn _) => False | _ => True end) l) ∧
    (∀ nm e, o.1 = Some (nm, e) → ff = Some (nm, e) ∨
       ∃ x, x ∈ l ∧ n_name x.1.1 = nm ∧ x.2 = Raise (Exn e)).
Proof.
  revert ff c s. induction l as [|[[n st] r] l IH]; intros ff c s.
  { exists (ff, c), s. cbn. rewrite !app_nil_r. split_and!; try done; auto.
    split; [done|by intros [? _]]. }
  cbn [collect]. destruct r as [d|[e|by_]].
  - destruct (trace_record (n_name n) STEP_COMMITTED st s) as (H1 & H2 & H3 & H4 & _).
    unfold bind at 1, _record_step_committed. destruct (_record _ _ _ _ s) as [ro s1].
    cbn in H1, H2, H3, H4. subst ro.
    assert (∃ s2, _remember_compensable n s1 = (Ok tt, s2) ∧ trace s2 = trace s1 ∧
      _compensable s2 = _compensable s1 ++ compensable_of n ∧ _data s2 = _data s1)
      as (s2 & Hrm & Ht2 & Hc2 & Hd2).
    { unfold _remember_compensable, compensable_of. destruct (n_compensate n);
        eexists; (split; [reflexivity|]); cbn; by rewrite ?app_nil_r. }
    unfold bind. rewrite Hrm. destruct (IH ff c s2) as (o & s' & Heq & Ht & Hc & Hd & Hn & Hf & Hx).
    exists o, s'. split; [done|]. rewrite Ht, Ht2, H2, Hc, Hc2, H3, Hd, Hd2, H4. cbn.
    rewrite <-!app_assoc. split_and!; try done.
    + intros Ho. destruct (Hn Ho). split; [done|by constructor].
    + rewrite Hf, Forall_cons. cbn. tauto.
    + intros n' e' Ho. destruct (Hx n' e' Ho) as [?|(x & ? & ?)]; [by left|].
      right. exists x. split; [by right|done].
  - destruct (trace_record (n_name n) STEP_FAILED st s) as (H1 & H2 & H3 & H4 & _).
    unfold bind, _record_step_failure. destruct (_record _ _ _ _ s) as [ro s1].
    cbn in H1, H2, H3, H4. subst ro.
    destruct (IH (Some (default (n_name n, e) ff)) c s1)
      as (o & s' & Heq & Ht & Hc & Hd & Hn & Hf & Hx).
    exists o, s'. split; [done|]. rewrite Ht, H2, Hc, H3, Hd, H4. cbn.
    rewrite <-!app_assoc. split_and!; try done.
    + intros Ho. destruct (Hn Ho). split; [done|by constructor].
    + rewrite Hf, Forall_cons. cbn. split; [by intros [? _]|by intros (_ & [] & _)].
    + intros n' e' Ho. destruct (Hx n' e' Ho) as [Hff|(x & ? & ?)].
      * destruct ff as [f|]; cbn in Hff; [by left|]. injection Hff as <- <-.
        right. exists (n, st, Raise (Exn e)). split; [by left|done].
      * right. exists x. split; [by right|done].
  - destruct (trace_record (n_name n) STEP_FAILED st s) as (H1 & H2 & H3 & H4 & _).
    unfold bind, _record_step_failure. destruct (_record _ _ _ _ s) as [ro s1].
    cbn in H1, H2, H3, H4. subst ro.
    destruct (IH ff (Some (default by_ c)) s1)
      as (o & s' & Heq & Ht & Hc & Hd & Hn & Hf & Hx).
    exists o, s'. split; [done|]. rewrite Ht, H2, Hc, H3, Hd, H4. cbn.
    rewrite <-!app_assoc. split_and!; try done.
    + intros Ho. by destruct (Hn Ho).
    + rewrite Hf, Forall_cons. cbn. tauto.
    + intros n' e' Ho. destruct (Hx n' e' Ho) as [?|(x & ? & ?)]; [by left|].
      right. exists x. split; [by right|done].
Qed.

Lemma gather_books l s : same_books s (gather rt auth l s).2.
Proof.
  unfold gather, bind, get_state. set (order := schedule _ _ _).
  destruct (gather_interrupt _ _ _) as [[k by_]|].
  - pose proof (run_children_books l (take k order) s) as Hb.
    by destruct (run_children rt auth l (take k order) s) as [[rs|e] s1].
  - pose proof (run_children_books l order s) as Hb.
    by destruct (run_children rt auth l order s) as [[rs|e] s1].
Qed.

Lemma gather_length l s rs s' :
  gather rt auth l s = (Ok rs, s') → length rs = length l.
Proof.
  unfold gather, bind, get_state. destruct (gather_interrupt _ _ _) as [[k by_]|].
  - by destruct (run_children _ _ _ _ _) as [[]].
  - destruct (run_children _ _ _ _ _) as [[rs'|e] s1]; [|done].
    intros [= <- _]. by rewrite length_fmap, length_seq.
Qed.

(** What a parallel group leaves: one record per child, in declared order. *)
Definition group_report (l : list _NormalizedStep) s (o : option (string * saga_exn)) s' : Prop :=
  ∃ oks : list bool,
    length oks = length l ∧
    trace s' = trace s ++ zip_with flag_entry l oks ∧
    _compensable s' = _compensable s
      ++ (zip l oks ≫= λ x, if x.2 : bool then compensable_of x.1 else []) ∧
    _data s' = _data s ∧
    (o = None ↔ Forall (λ ok, ok = true) oks) ∧
    (∀ nm e, o = Some (nm, e) → (nm, STEP_FAILED) ∈ zip_with flag_entry l oks).

Lemma zip_triples (l : list _NormalizedStep) (st : Z) (rs : list (outcome raised (option (SagaData P)))) :
  length rs = length l →
  let xs := zip (zip l (replicate (length l) st)) rs in
  ((λ x, flag_entry x.1.1 (is_ok x.2)) <$> xs) = zip_with flag_entry l (is_ok <$> rs) ∧
  (xs ≫= λ x, if is_ok x.2 then compensable_of x.1.1 else [])
    = (zip l (is_ok <$> rs) ≫= λ x, if x.2 : bool then compensable_of x.1 else []).
Proof.
  revert rs. induction l as [|n l IH]; intros [|r rs]; cbn; try done.
  intros [= Hl]. destruct (IH rs Hl) as [-> ->]. done.
Qed.

Lemma zip_triples_elem (l : list _NormalizedStep) (st : Z)
    (rs : list (outcome raised (option (SagaData P)))) x :
  x ∈ zip (zip l (replicate (length l) st)) rs →
  x.2 ∈ rs ∧ flag_entry x.1.1 (is_ok x.2) ∈ zip_with flag_entry l (is_ok <$> rs).
Proof.
  revert rs. induction l as [|n l IH]; intros [|r rs]; cbn; try (intros H; by apply not_elem_of_nil in H).
  rewrite !elem_of_cons. intros [->|Hx]; [auto|]. destruct (IH rs Hx). auto.
Qed.

Lemma zip_triples_elem_inv (l : list _NormalizedStep) (st : Z)
    (rs : list (outcome raised (option (SagaData P)))) r :
  length rs = length l → r ∈ rs → ∃ n, ((n, st), r) ∈ zip (zip l (replicate (length l) st)) rs.
Proof.
  revert rs. induction l as [|n l IH]; intros [|r' rs]; cbn; try done.
  { intros _ H. by apply not_elem_of_nil in H. }
  intros [= Hl]. rewrite elem_of_cons. intros [->|Hr].
  - exists n. by left.
  - destruct (IH rs Hl Hr) as [n' Hn']. exists n'. by right.
Qed.

Lemma execute_parallel_spec l s o s' :
  _execute_parallel rt auth l s = (Ok o, s') → group_report l s o s'.
Proof.
  unfold _execute_parallel. unfold bind at 1, now at 1, gets.
  intros (rs & s1 & Hg & H)%bind_Ok_inv. pose proof (gather_books l s) as Hb. rewrite Hg in Hb.
  cbn [snd] in Hb. pose proof (gather_length _ _ _ _ Hg) as Hlen.
  set (st := monotonic rt (_world s)) in *. set (xs := zip (zip l (replicate (length l) st)) rs) in *.
  destruct (collect_spec xs None None s1) as (co & s2 & Hc & Ht & Hco & Hd & Hcan & Hff & Hx).
  unfold bind in H. rewrite Hc in H.
  destruct (co.2) as [by_|] eqn:Ho2; [done|]. injection H as <- <-.
  destruct (Hcan eq_refl) as [_ Hnocancel]. destruct (zip_triples l st rs Hlen) as [Hz1 Hz2].
  fold xs in Hz1, Hz2. exists (is_ok <$> rs). split_and!.
  - by rewrite length_fmap.
  - by rewrite Ht, Hz1, (same_books_trace s s1 Hb).
  - rewrite Hco, Hz2. by destruct Hb as (_ & -> & _).
  - rewrite Hd. by destruct Hb as (_ & _ & ->).
  - rewrite Hff. rewrite Forall_fmap, !Forall_forall. rewrite Forall_forall in Hnocancel. split.
    + intros [_ Hno] r Hr. destruct (zip_triples_elem_inv l st rs r Hlen Hr) as [n Hn].
      specialize (Hnocancel _ Hn). specialize (Hno _ Hn). cbn in *. by destruct r as [|[]].
    + intros Hall. split; [done|]. intros x [Hin _]%zip_triples_elem.
      specialize (Hall _ Hin). cbn in Hall. by destruct x as [? [|]].
  - intros nm e Ho. destruct (Hx nm e Ho) as [?|(x & Hin & <- & He)]; [done|].
    apply zip_triples_elem in Hin as [_ Hin]. rewrite He in Hin. apply Hin.
Qed.

(** ** Compensation *)

Definition compensated (cs : list _CompensableStep) : list (string * StepStatus) :=
  (λ c, (comp_name c, STEP_COMPENSATED)) <$> cs.

(** A compensation that is recorded was awaited, and returned. *)
Lemma compensate_one_Ok c s u s' :
  compensate_one rt auth flow c s = (Ok u, s') →
  trace s' = trace s ++ compensated [c] ∧ _compensable s' = _compensable s ∧ _data s' = _data s ∧
  perform_effect rt (comp_compensate c) (_data s) (_world s) = (Ok tt, _world s').
Proof.
  unfold compensate_one. unfold bind at 1, now at 1, gets.
  intros (r & s1 & Hc & H)%bind_Ok_inv. destruct r as [e|[]].
  { apply bind_Ok_inv in H as (? & s2 & _ & H). by apply bind_Ok_inv in H as (? & s3 & _ & H). }
  injection H as _ <-. apply catch_Ok in Hc.
  apply bind_Ok_inv in Hc as ([] & s2 & Ha & Hc). apply bind_Ok_inv in Hc as ([] & s3 & He & Hc).
  assert (s2 = s) as ->.
  { unfold authorize, bind, get_state, lift in Ha. by injection Ha. }
  pose proof (effect_books (comp_compensate c) s) as Hb. rewrite He in Hb. cbn [snd] in Hb.
  destruct (trace_record (comp_name c) STEP_COMPENSATED (monotonic rt (_world s)) s3)
    as (_ & H2 & H3 & H4 & H5). unfold _record_step_compensated in Hc. rewrite Hc in H2, H3, H4, H5.
  cbn [snd] in *. rewrite H2, H3, H4, H5, (same_books_trace s s3 Hb).
  destruct Hb as (_ & -> & ->). split_and!; try done. unfold await_effect in He.
  destruct (perform_effect rt (comp_compensate c) (_data s) (_world s)) as [r w].
  by injection He as -> <-.
Qed.

Lemma run_compensation_Ok s u s' :
  _run_compensation rt auth flow s = (Ok u, s') →
  trace s' = trace s ++ compensated (reverse (_compensable s)) ∧
  _compensable s' = _compensable s ∧ _data s' = _data s ∧
  performs (_world s) ((λ c, AwaitEffect (comp_compensate c) (_data s) (Ok tt))
                         <$> reverse (_compensable s)) (_world s').
Proof.
  unfold _run_compensation, bind at 1, get_state. generalize (reverse (_compensable s)). intros cs.
  revert s. induction cs as [|c cs IH]; intros s; cbn [for_each].
  { intros [= _ <-]. cbn. rewrite app_nil_r. split_and!; try done. constructor. }
  intros (u1 & s1 & H1 & H2)%bind_Ok_inv. apply compensate_one_Ok in H1 as (Ht & Hc & Hd & He).
  apply IH in H2 as (-> & -> & -> & Hp). rewrite Ht, Hc. rewrite Hd in Hp |- *. split_and!; try done.
  - unfold compensated. by rewrite <-app_assoc.
  - by eapply performs_effect.
Qed.


(** ** What was awaited in the forward phase *)

Definition committed (tr : list (string * StepStatus)) : list string :=
  (filter (λ e, e.2 = STEP_COMMITTED) tr).*1.

Definition not_compensated (e : string * StepStatus) : Prop := e.2 ≠ STEP_COMPENSATED.

Lemma committed_app t1 t2 : committed (t1 ++ t2) = committed t1 ++ committed t2.
Proof. unfold committed. by rewrite filter_app, fmap_app. Qed.

(** From [s] to [s'], no compensation ran; the steps that were recorded as
    committed, and whose compensations were registered, are [done], steps of [l]
    whose actions were awaited and returned. *)
Definition advance (l : list _NormalizedStep) s s' : Prop :=
  ∃ done es,
    performs (_world s) es (_world s') ∧ Forall forward_event es ∧
    Forall (λ n, n ∈ l ∧ action_returned es n) done ∧
    _compensable s' = _compensable s ++ (done ≫= compensable_of) ∧
    committed (trace s') = committed (trace s) ++ (n_name <$> done) ∧
    (Forall not_compensated (trace s) → Forall not_compensated (trace s')).

Lemma action_returned_app es es' n :
  action_returned es n ∨ action_returned es' n → action_returned (es ++ es') n.
Proof. intros [(d & r & x & H)|(d & r & x & H)]; exists d, r, x; apply elem_of_app; auto. Qed.

Lemma advance_trans l s s1 s2 : advance l s s1 → advance l s1 s2 → advance l s s2.
Proof.
  intros (d1 & e1 & Hp1 & Hf1 & Hd1 & Hc1 & Ht1 & Hn1) (d2 & e2 & Hp2 & Hf2 & Hd2 & Hc2 & Ht2 & Hn2).
  exists (d1 ++ d2), (e1 ++ e2). split_and!.
  - by eapply performs_app.
  - by apply Forall_app.
  - apply Forall_app. split; eapply Forall_impl; try done; intros n [? ?];
      (split; [done|apply action_returned_app]); auto.
  - by rewrite Hc2, Hc1, bind_app, app_assoc.
  - by rewrite Ht2, Ht1, fmap_app, app_assoc.
  - auto.
Qed.

Lemma advance_mono l l' s s' : l ⊆ l' → advance l s s' → advance l' s s'.
Proof.
  intros Hl (d & es & Hp & Hf & Hd & H). exists d, es. split_and!; try apply H; try done.
  eapply Forall_impl; [done|]. intros n [? ?]. split; [by apply Hl|done].
Qed.

(** A step of the run that only awaits, and one that only records. *)
Lemma advance_awaits l s s' es :
  same_books s s' → performs (_world s) es (_world s') → Forall forward_event es → advance l s s'.
Proof.
  intros Hb Hp Hf. exists [], es. rewrite (same_books_trace s s' Hb). destruct Hb as (_ & -> & _).
  cbn. rewrite !app_nil_r. by split_and!.
Qed.

Lemma advance_failure l nm start s : advance l s (_record_step_failure rt nm start s).2.
Proof.
  destruct (trace_record nm STEP_FAILED start s) as (_ & Ht & Hc & _ & Hw). exists [], [].
  unfold _record_step_failure. rewrite Ht, Hc, Hw, committed_app. cbn. rewrite !app_nil_r.
  split_and!; try done; [constructor|]. intros H. apply Forall_app. split; [done|by constructor].
Qed.

Lemma invoke_awaits n s r s' :
  _invoke_step_action rt auth n s = (r, s') →
  ∃ es, performs (_world s) es (_world s') ∧ Forall forward_event es ∧
    (is_ok r = true → action_returned es n).
Proof.
  unfold _invoke_step_action, authorize, bind, get_state, lift.
  destruct (map_error _ _) as [[]|e]; [|intros [= <- <-]; exists []; split_and!; done || constructor].
  unfold _invoke_action.
  destruct (perform_action rt (n_action n) (n_timeout n) (_data s) (_world s)) as [[r0 x] w] eqn:Hp.
  intros [= <- <-]. exists [AwaitAction (n_action n) (n_timeout n) (_data s) r0 x]. split_and!.
  - by eapply performs_action, performs_nil.
  - by repeat constructor.
  - intros Hok. destruct r0 as [d|e].
    + exists (_data s), d, x. by apply list_elem_of_singleton.
    + destruct (n_timeout n); [|done]. by destruct e as [[]|[]], x.
Qed.

Lemma catch_awaits n s r s' :
  catch (_invoke_step_action rt auth n) s = (Ok r, s') →
  ∃ es, performs (_world s) es (_world s') ∧ Forall forward_event es ∧
    (if r then True else action_returned es n).
Proof.
  intros H%catch_Ok. destruct r as [e|d];
    apply invoke_awaits in H as (es & ? & ? & Hr); exists es; split_and!; auto.
Qed.

(** An attempt that succeeded, and its commit. *)
Lemma advance_commit l n start r s s1 es :
  n ∈ l → same_books s s1 → performs (_world s) es (_world s1) → Forall forward_event es →
  action_returned es n → advance l s (commit rt n start r s1).2.
Proof.
  intros Hl Hb Hp Hf Ha. destruct (commit_spec n start r s1) as (s2 & -> & Ht & Hc & Hw & _). cbn.
  exists [n], es. rewrite Ht, Hc, Hw, (same_books_trace s s1 Hb), committed_app. cbn.
  destruct Hb as (_ & -> & _). rewrite app_nil_r. split_and!; try done.
  - by constructor.
  - intros H. apply Forall_app. split; [done|by constructor].
Qed.

Lemma retry_loop_advance n b t attempts e s o s' :
  retry_loop rt auth n b t attempts e s = (Ok o, s') → advance [n] s s'.
Proof.
  revert e s. induction attempts as [|a attempts IH]; intros e s; cbn.
  { intros [= _ <-]. apply (advance_awaits _ _ _ []); [done|constructor..]. }
  intros ([] & s1 & Hsl & H)%bind_Ok_inv. pose proof (sleep_books (delay_for b (a - 1)) s) as Hb1.
  rewrite Hsl in Hb1. cbn [snd] in Hb1. unfold _sleep in Hsl.
  destruct (sleep rt (delay_for b (a - 1)) (_world s)) as [rs w1] eqn:Hs. injection Hsl as -> <-.
  eapply (advance_trans _ _ (set_saga_world s w1)).
  { eapply advance_awaits; [done|by eapply performs_sleep, performs_nil|by repeat constructor]. }
  unfold bind at 1, now at 1, gets in H. apply bind_Ok_inv in H as (r & s2 & Hc & H).
  pose proof (invoke_catch _ _ _ _ Hc) as Hb2. apply catch_awaits in Hc as (es & Hp & Hf & Hr).
  destruct r as [e'|r].
  - apply bind_Ok_inv in H as ([] & s3 & Hrec & H). eapply advance_trans; [by eapply advance_awaits|].
    eapply advance_trans; [|by eapply IH].
    pose proof (advance_failure [n] (n_name n) (monotonic rt w1) s2) as Hadv. cbn in Hrec, Hadv.
    injection Hrec as <-. exact Hadv.
  - apply bind_Ok_inv in H as ([] & s3 & Hcm & H). injection H as _ <-.
    change s3 with (Ok tt : outcome raised unit, s3).2. rewrite <-Hcm.
    eapply advance_commit; try done. by left.
Qed.

Lemma execute_serial_step_advance n s o s' :
  _execute_serial_step rt auth n s = (Ok o, s') → advance [n] s s'.
Proof.
  unfold _execute_serial_step. unfold bind at 1, now at 1, gets.
  intros (r & s1 & Hc & H)%bind_Ok_inv.
  pose proof (invoke_catch _ _ _ _ Hc) as Hb. apply catch_awaits in Hc as (es & Hp & Hf & Hr).
  destruct r as [e|r].
  - eapply advance_trans; [by eapply advance_awaits|].
    pose proof (advance_failure [n] (n_name n) (monotonic rt (_world s)) s1) as Hadv.
    apply bind_Ok_inv in H as ([] & s2 & Hrec & H). rewrite Hrec in Hadv.
    eapply advance_trans; [exact Hadv|]. apply bind_Ok_inv in H as ([oc le] & s3 & Hap & H).
    assert (s' = s3) as -> by (destruct oc; by injection H as _ <-). unfold _apply_strategy in Hap.
    destruct (n_on_error n); [injection Hap as _ _ <-..|by eapply retry_loop_advance];
      (eapply (advance_awaits _ _ _ []); [done|constructor..]).
  - apply bind_Ok_inv in H as ([] & s3 & Hcm & H). injection H as _ <-.
    change s3 with (Ok tt : outcome raised unit, s3).2. rewrite <-Hcm.
    eapply advance_commit; try done. by left.
Qed.

(** *** Parallel groups *)

Lemma run_children_awaits l order s rs s' :
  run_children rt auth l order s = (Ok rs, s') →
  ∃ es, performs (_world s) es (_world s') ∧ Forall forward_event es ∧
    ∀ i r, (i, r) ∈ rs → is_ok r = true → ∃ n, l !! i = Some n ∧ action_returned es n.
Proof.
  revert s rs. induction order as [|i order IH]; intros s rs; cbn [run_children].
  { intros [= <- <-]. exists []. split_and!; [constructor..|]. by intros i r ?%not_elem_of_nil. }
  destruct (l !! i) as [n|] eqn:Hi; [|apply IH]. unfold bind. cbv beta.
  destruct (_invoke_step_action rt auth n s) as [r s1] eqn:Hr.
  apply invoke_awaits in Hr as (es1 & Hp1 & Hf1 & Ha).
  destruct (run_children rt auth l order s1) as [[rs'|e] s2] eqn:Hch; [|done].
  intros [= <- <-]. apply IH in Hch as (es2 & Hp2 & Hf2 & Hall).
  exists (es1 ++ es2). split_and!; [by eapply performs_app|by apply Forall_app|].
  intros j r' [[= -> ->]|Hin]%elem_of_cons Hok.
  - exists n. split; [done|]. apply action_returned_app. auto.
  - destruct (Hall _ _ Hin Hok) as (m & ? & ?). exists m. split; [done|].
    apply action_returned_app. auto.
Qed.

Lemma gather_awaits l s rs s' :
  gather rt auth l s = (Ok rs, s') →
  ∃ es, performs (_world s) es (_world s') ∧ Forall forward_event es ∧
    Forall (λ x, is_ok x.2 = true → action_returned es x.1) (zip l rs).
Proof.
  unfold gather, bind, get_state. destruct (gather_interrupt _ _ _) as [[k by_]|].
  { by destruct (run_children _ _ _ _ _) as [[]]. }
  destruct (run_children _ _ _ _ _) as [[rs'|e] s1] eqn:Hch; [|done]. intros [= <- <-].
  apply run_children_awaits in Hch as (es & Hp & Hf & Hall). exists es. split_and!; try done.
  apply Forall_lookup. intros i [n r] Hi Hok. apply lookup_zip_Some in Hi as [Hn Hr].
  apply list_lookup_fmap_Some in Hr as (j & -> & Hj). apply lookup_seq in Hj as [-> _].
  unfold result_at in Hok. cbn in Hok. destruct (List.find _ rs') as [[j r]|] eqn:Hfind; [|done].
  apply find_some in Hfind as [Hin Heq%Nat.eqb_eq]. cbn in Heq. subst j.
  destruct (Hall i r) as (m & Hm & Ha); [by apply list_elem_of_In|done|].
  cbn. by simplify_eq.
Qed.

Lemma collect_world l ff c s : _world (collect rt l ff c s).2 = _world s.
Proof.
  revert ff c s. induction l as [|[[n st] r] l IH]; intros ff c s; [done|].
  cbn [collect]. destruct r as [d|[e|by_]]; cbn -[collect].
  - unfold _remember_compensable. destruct (n_compensate n); cbn -[collect]; by rewrite IH.
  - by rewrite IH.
  - by rewrite IH.
Qed.

(** The children that committed. *)
Definition committed_children (l : list _NormalizedStep) (oks : list bool) : list _NormalizedStep :=
  zip l oks ≫= λ x, if x.2 : bool then [x.1] else [].

Lemma committed_children_spec l oks :
  length oks = length l →
  (zip l oks ≫= λ x, if x.2 : bool then compensable_of x.1 else [])
    = committed_children l oks ≫= compensable_of ∧
  committed (zip_with flag_entry l oks) = n_name <$> committed_children l oks ∧
  Forall not_compensated (zip_with flag_entry l oks).
Proof.
  unfold committed_children. revert oks. induction l as [|n l IH]; intros [|ok oks]; try done.
  intros [= Hlen]. destruct (IH oks Hlen) as (H1 & H2 & H3). cbn. rewrite bind_app, H1.
  split_and!.
  - destruct ok; cbn; by rewrite ?app_nil_r.
  - rewrite fmap_app, <-H2. by destruct ok.
  - constructor; [by destruct ok|done].
Qed.

Lemma execute_parallel_advance l s o s' :
  _execute_parallel rt auth l s = (Ok o, s') → advance l s s'.
Proof.
  unfold _execute_parallel. unfold bind at 1, now at 1, gets.
  intros (rs & s1 & Hg & H)%bind_Ok_inv. pose proof (gather_books l s) as Hb. rewrite Hg in Hb.
  cbn [snd] in Hb. pose proof (gather_length _ _ _ _ Hg) as Hlen.
  apply gather_awaits in Hg as (es & Hp & Hf & Hall). eapply bind_Ok_inv in H as (co & s2 & Hc & H).
  assert (s' = s2) as -> by (destruct (co.2); by injection H as _ <-).
  set (st := monotonic rt (_world s)) in *. set (xs := zip (zip l (replicate (length l) st)) rs) in *.
  destruct (collect_spec xs None None s1) as (co' & s2' & Hc' & Ht & Hco & _).
  pose proof (collect_world xs None None s1) as Hw. rewrite Hc in Hc', Hw. injection Hc' as <- <-.
  destruct (zip_triples l st rs Hlen) as [Hz1 Hz2]. fold xs in Hz1, Hz2.
  destruct (committed_children_spec l (is_ok <$> rs)) as (H1 & H2 & H3); [by rewrite length_fmap|].
  exists (committed_children l (is_ok <$> rs)), es. cbn in Hw. rewrite Hw, Ht, Hco, Hz1, Hz2, H1.
  rewrite committed_app, H2, (same_books_trace s s1 Hb). destruct Hb as (_ & -> & _). split_and!; try done.
  - apply Forall_forall. intros n. unfold committed_children. rewrite list_elem_of_bind.
    intros ([m ok] & Hn & Hin). apply list_elem_of_lookup in Hin as [i Hi].
    apply lookup_zip_Some in Hi as [Hm Hok]. apply list_lookup_fmap_Some in Hok as (r & -> & Hr).
    cbn in Hn. destruct (is_ok r) eqn:Hokr; [|by apply not_elem_of_nil in Hn].
    apply list_elem_of_singleton in Hn as ->. split; [by eapply list_elem_of_lookup_2|].
    rewrite Forall_forall in Hall. apply (Hall (m, r)); [|done].
    apply list_elem_of_lookup. exists i. by apply lookup_zip_Some.
  - intros ?. by apply Forall_app.
Qed.

(** *** Whole runs *)

Definition has_compensation n : Prop := is_Some (n_compensate n).

Definition steps_of_item (i : normalized_item) : list _NormalizedStep :=
  match i with NStep n => [n] | NParallel l => l end.
Definition steps_of (ns : list normalized_item) : list _NormalizedStep := ns ≫= steps_of_item.

Definition item_has_compensation (i : normalized_item) : Prop :=
  Forall has_compensation (steps_of_item i).

(** What a run of the items [ns] from the world [w] did, when it ended with [r]
    in [w']. In the forward phase it awaited [es], no compensation among them,
    and recorded [pre]; the steps that are recorded as committed are [done],
    whose actions returned. A completed run did nothing else. A failed one then
    awaited the compensations of [done], the last first, each once, on the data
    of the result, and each returned; they are all it awaited and recorded. *)
Definition saga_report (ns : list normalized_item) (w : W) (r : SagaResult P) (w' : W) : Prop :=
  ∃ pre done es w1,
    performs w es w1 ∧ Forall forward_event es ∧
    Forall (λ n, n ∈ steps_of ns ∧ action_returned es n) done ∧
    committed pre = n_name <$> done ∧ Forall not_compensated pre ∧
    match status r with
    | COMPLETED =>
        entry <$> result_history r = pre ∧ w' = w1 ∧ failed_step r = None ∧ error r = None
    | FAILED =>
        entry <$> result_history r = pre ++ ((λ n, (n_name n, STEP_COMPENSATED)) <$> reverse done) ∧
        (∃ fs, n_compensate <$> done = Some <$> fs ∧
           performs w1 ((λ f, AwaitEffect f (result_data r) (Ok tt)) <$> reverse fs) w') ∧
        ∃ nm e, failed_step r = Some nm ∧ error r = Some e ∧ (nm, STEP_FAILED) ∈ pre
    | TIMED_OUT => False
    end.

Lemma execute_item_names_failure i s nm e s' :
  match i with
  | NParallel g => _execute_parallel rt auth g
  | NStep n => _execute_serial_step rt auth n
  end s = (Ok (Some (nm, e)), s') → (nm, STEP_FAILED) ∈ trace s'.
Proof.
  destruct i as [n|g]; intros H.
  - apply execute_serial_step_spec in H as (k & cm & -> & _ & Hk & _ & Ho).
    destruct cm; [done|]. destruct (final_outcome n); [done|].
    destruct Ho as [e' [= -> ->]]. destruct k as [|k]; [lia|]. cbn. rewrite elem_of_app, elem_of_cons. auto.
  - apply execute_parallel_spec in H as (oks & _ & -> & _ & _ & _ & Hf).
    apply elem_of_app. right. by eapply Hf.
Qed.

Lemma execute_item_advance i s o s' :
  match i with
  | NParallel g => _execute_parallel rt auth g
  | NStep n => _execute_serial_step rt auth n
  end s = (Ok o, s') → advance (steps_of_item i) s s'.
Proof. destruct i; [apply execute_serial_step_advance|apply execute_parallel_advance]. Qed.

(** The items advance to some [s1]; then the saga completes, or compensates. *)
Lemma run_items_advance start l s r s' :
  _run_items rt auth flow start l s = (Ok r, s') →
  ∃ s1, advance (steps_of l) s s1 ∧
    ((s' = s1 ∧ status r = COMPLETED ∧ failed_step r = None ∧ error r = None ∧
      result_history r = _history s1) ∨
     (_run_compensation rt auth flow s1 = (Ok tt, s') ∧ status r = FAILED ∧
      result_history r = _history s' ∧ result_data r = _data s' ∧
      ∃ nm e, failed_step r = Some nm ∧ error r = Some e ∧ (nm, STEP_FAILED) ∈ trace s1)).
Proof.
  revert s. induction l as [|i l IH]; intros s; cbn [_run_items].
  { unfold result_of, bind, get_state. intros [= <- <-]. exists s. split; [|by left].
    apply (advance_awaits _ _ _ []); [done|constructor..]. }
  intros (o & s1 & H1 & H2)%bind_Ok_inv. pose proof (execute_item_advance _ _ _ _ H1) as Hadv.
  destruct o as [[nm e]|].
  - apply execute_item_names_failure in H1. exists s1.
    split; [eapply advance_mono, Hadv; set_solver|]. right.
    apply bind_Ok_inv in H2 as ([] & s2 & H2 & H3).
    unfold result_of, bind, get_state in H3. injection H3 as <- <-. split_and!; try done.
    by exists nm, e.
  - apply IH in H2 as (s2 & Hadv2 & H2). exists s2. split; [|done].
    eapply advance_trans; (eapply advance_mono; [|done]); set_solver.
Qed.

Lemma compensable_of_all l :
  Forall has_compensation l →
  ∃ fs, n_compensate <$> l = Some <$> fs ∧ comp_compensate <$> (l ≫= compensable_of) = fs ∧
    comp_name <$> (l ≫= compensable_of) = n_name <$> l.
Proof.
  induction 1 as [|n l [f Hf] Hl (fs & E1 & E2 & E3)]; [by exists []|].
  exists (f :: fs). cbn. rewrite !fmap_app, E1, E2, E3. unfold compensable_of. by rewrite Hf.
Qed.

Lemma run_items_report start ns d w r s' :
  Forall item_has_compensation ns →
  _run_items rt auth flow start ns (mk_executor d [] [] w) = (Ok r, s') →
  saga_report ns w r (_world s').
Proof.
  intros Hns (s1 & (done & es & Hp & Hf & Hd & Hc & Ht & Hn) & H)%run_items_advance. cbn in Hc, Ht.
  specialize (Hn (Forall_nil_2 _)). exists (trace s1), done, es, (_world s1). split_and!; try done.
  destruct H as [(-> & -> & -> & -> & ->)|(Hrun & -> & -> & -> & nm & e & -> & -> & Hnm)]; [done|].
  apply run_compensation_Ok in Hrun as (Htr & _ & Hdata & Hperf).
  assert (Forall has_compensation done) as Hall.
  { eapply Forall_impl; [done|]. intros n [Hin _]. unfold steps_of in Hin.
    apply list_elem_of_bind in Hin as (i & Hin & Hi). rewrite Forall_forall in Hns.
    specialize (Hns i Hi). unfold item_has_compensation in Hns. rewrite Forall_forall in Hns. auto. }
  destruct (compensable_of_all done Hall) as (fs & E1 & E2 & E3). rewrite Hc in Htr, Hperf.
  split_and!.
  - fold (trace s'). rewrite Htr. f_equal. unfold compensated.
    change (λ c, (comp_name c, STEP_COMPENSATED)) with ((λ x, (x, STEP_COMPENSATED)) ∘ comp_name).
    change (λ n, (n_name n, STEP_COMPENSATED)) with ((λ x, (x, STEP_COMPENSATED)) ∘ n_name).
    by rewrite !list_fmap_compose, !fmap_reverse, E3.
  - exists fs. split; [done|]. rewrite Hdata, <-E2, <-fmap_reverse, <-list_fmap_compose. done.
  - by exists nm, e.
Qed.
End lemmas.


(** ** Invariants and errors of a run

    An invariant of the books that records, commits and compensations keep is
    kept by a run; and a run raises, besides cancellations, only the failure of
    a compensation and what the failure handler raised. *)

Section runs.
Context {P W : Type} (rt : saga_runtime P W) (auth : SagaAuthExecutionContext) (flow : SagaFlow).
Context (I : executor P W → Prop).
Context (Hbooks : ∀ s s', same_books s s' → I s → I s').
Context (Hrecord : ∀ nm st start, st ≠ STEP_COMPENSATED → preserves I (_record rt nm st start)).
Context (Hremember : ∀ n, preserves I (_remember_compensable (P:=P) (W:=W) n)).
Context (Hdata : ∀ s d, I s → I (mk_executor (_preserve_auth_context_snapshot (_data s) d)
                                   (_compensable s) (_history s) (_world s))).
Context (Hcompensation : preserves I (_run_compensation rt auth flow)).

Definition handler_raises (e : saga_exn) : Prop :=
  ∃ h d w, compensation_failure_handler flow = Some h ∧
    (perform_effect rt h d w).1 = Raise (Exn e).

Definition escapes (e : raised) : Prop :=
  match e with
  | Cancelled _ => True
  | Exn e => e = SagaCompensationFailedError ∨ handler_raises e
  end.

Abbreviation fine := (triple I (λ _, True) escapes).

Lemma preserves_fine {A} (m : comp (executor P W) raised A) :
  preserves I m → (∀ s e, (m s).1 = Raise e → escapes e) → fine m.
Proof.
  intros Hm He s Hs. split; [by apply Hm|]. specialize (He s). destruct (m s).1; [done|]. by apply He.
Qed.

Lemma catch_fine {A} (m : comp (executor P W) raised A) :
  preserves I m → fine (catch m).
Proof.
  intros Hm s Hs. specialize (Hm s Hs). unfold catch. by destruct (m s) as [[a|[e|c]] s'].
Qed.

Lemma record_fine nm st start : st ≠ STEP_COMPENSATED → fine (_record rt nm st start).
Proof. intros Hst. apply preserves_fine; [by apply Hrecord|]. done. Qed.

Lemma remember_fine n : fine (_remember_compensable n).
Proof.
  apply preserves_fine; [apply Hremember|]. intros s e. unfold _remember_compensable.
  by destruct (n_compensate n).
Qed.

Lemma invoke_preserves n : preserves I (_invoke_step_action rt auth n).
Proof. intros s Hs. by eapply Hbooks, Hs; apply invoke_books. Qed.

Lemma sleep_fine q : (∀ s e, (_sleep rt q s).1 = Raise e → escapes e) → fine (_sleep (P:=P) rt q).
Proof.
  intros He. apply preserves_fine; [|done]. intros s Hs. by eapply Hbooks, Hs; apply sleep_books.
Qed.

Lemma commit_fine n start r : fine (commit rt n start r).
Proof.
  unfold commit. eapply triple_bind.
  { instantiate (1 := λ _, True). destruct r as [d|]; [|by apply triple_ret].
    intros s Hs. split; [by apply Hdata|done]. }
  intros _ _. eapply triple_bind; [by apply record_fine|]. intros _ _. apply remember_fine.
Qed.

(** [asyncio.sleep] raises nothing but a cancellation. *)
Context (Hsleep : ∀ q w e, (sleep rt q w).1 = Raise (Exn e) → False).

Lemma sleep_escapes q s e : (_sleep (P:=P) rt q s).1 = Raise e → escapes e.
Proof.
  unfold _sleep. pose proof (Hsleep q (_world s)) as H. destruct (sleep rt q (_world s)) as [r w].
  cbn in *. intros ->. destruct e as [e|c]; [by destruct (H e)|done].
Qed.

Lemma now_fine : fine (now (P:=P) rt).
Proof. apply triple_gets. done. Qed.

Lemma retry_loop_fine n b t attempts e : fine (retry_loop rt auth n b t attempts e).
Proof.
  revert e. induction attempts as [|a attempts IH]; intros e; cbn [retry_loop].
  { by apply triple_ret. }
  eapply triple_bind; [apply sleep_fine, sleep_escapes|]. intros _ _.
  eapply triple_bind; [apply now_fine|]. intros st _.
  eapply triple_bind; [apply catch_fine, invoke_preserves|]. intros [e'|r] _.
  - eapply triple_bind; [by apply record_fine|]. intros _ _. apply IH.
  - eapply triple_bind; [apply commit_fine|]. intros _ _. by apply triple_ret.
Qed.

Lemma execute_serial_step_fine n : fine (_execute_serial_step rt auth n).
Proof.
  unfold _execute_serial_step. eapply triple_bind; [apply now_fine|]. intros st _.
  eapply triple_bind; [apply catch_fine, invoke_preserves|]. intros [e|r] _.
  - eapply triple_bind; [by apply record_fine|]. intros _ _. eapply triple_bind.
    + instantiate (1 := λ _, True). unfold _apply_strategy.
      destruct (n_on_error n); [by apply triple_ret..|apply retry_loop_fine].
    + intros [[] last] _; by apply triple_ret.
  - eapply triple_bind; [apply commit_fine|]. intros _ _. by apply triple_ret.
Qed.

Lemma collect_fine l ff c : fine (collect rt l ff c).
Proof.
  revert ff c. induction l as [|[[n st] r] l IH]; intros ff c; cbn [collect].
  { by apply triple_ret. }
  destruct r as [d|[e|by_]].
  - eapply triple_bind; [by apply record_fine|]. intros _ _.
    eapply triple_bind; [apply remember_fine|]. intros _ _. apply IH.
  - eapply triple_bind; [by apply record_fine|]. intros _ _. apply IH.
  - eapply triple_bind; [by apply record_fine|]. intros _ _. apply IH.
Qed.

Lemma run_children_escapes l order s e : (run_children rt auth l order s).1 = Raise e → False.
Proof.
  revert s. induction order as [|i order IH]; intros s; cbn [run_children]; [done|].
  destruct (l !! i) as [n|]; [|apply IH]. unfold bind. cbv beta.
  destruct (_invoke_step_action rt auth n s) as [r s1]. specialize (IH s1).
  by destruct (run_children rt auth l order s1) as [[]].
Qed.

Lemma gather_fine l : fine (gather rt auth l).
Proof.
  apply preserves_fine.
  - intros s Hs. by eapply Hbooks, Hs; apply gather_books.
  - intros s e. unfold gather, bind, get_state.
    destruct (gather_interrupt _ _ _) as [[k by_]|].
    + pose proof (run_children_escapes l (take k (schedule rt (length l) (_world s))) s) as H.
      destruct (run_children _ _ _ _ _) as [[rs|e'] s1]; [|by destruct (H e')]. by intros [= <-].
    + pose proof (run_children_escapes l (schedule rt (length l) (_world s)) s) as H.
      destruct (run_children _ _ _ _ _) as [[rs|e'] s1]; [done|by destruct (H e')].
Qed.

Lemma execute_parallel_fine l : fine (_execute_parallel rt auth l).
Proof.
  unfold _execute_parallel. eapply triple_bind; [apply now_fine|]. intros st _.
  eapply triple_bind; [apply gather_fine|]. intros rs _.
  eapply triple_bind; [apply collect_fine|]. intros [o [c|]] _; cbn.
  - by apply triple_raise.
  - by apply triple_ret.
Qed.

Lemma effect_escapes f s e :
  compensation_failure_handler flow = Some f →
  (await_effect (P:=P) rt f s).1 = Raise e → escapes e.
Proof.
  intros Hf. unfold await_effect. destruct (perform_effect rt f (_data s) (_world s)) as [r w] eqn:He.
  cbn. intros ->. destruct e as [e|c]; [|done]. right. exists f, (_data s), (_world s).
  by rewrite He.
Qed.

Lemma run_compensation_escapes s e : (_run_compensation rt auth flow s).1 = Raise e → escapes e.
Proof.
  unfold _run_compensation, bind at 1, get_state. generalize (reverse (_compensable s)). intros cs.
  revert s. induction cs as [|c cs IH]; intros s; cbn [for_each]; [done|].
  unfold bind at 1. destruct (compensate_one rt auth flow c s) as [[u|e1] s1] eqn:H1; [apply IH|].
  cbn. intros [= <-]. revert H1. unfold compensate_one. unfold bind at 1, now at 1, gets.
  intros H1. apply bind_Raise_inv in H1 as [H1|(r & s2 & _ & H1)].
  - unfold catch in H1. destruct (bind _ _ s) as [[a|[e'|c']] s']; [done|done|]. by injection H1 as <- _.
  - destruct r as [e'|[]]; [|done]. apply bind_Raise_inv in H1 as [H1|(u & s3 & _ & H1)]; [done|].
    apply bind_Raise_inv in H1 as [H1|(u' & s4 & _ & H1)].
    + destruct (compensation_failure_handler flow) as [h|] eqn:Hh; [|done].
      apply (effect_escapes h s3 e1 Hh). by rewrite H1.
    + injection H1 as <- _. by left.
Qed.

Lemma run_compensation_fine : fine (_run_compensation rt auth flow).
Proof. apply preserves_fine; [done|apply run_compensation_escapes]. Qed.

Lemma result_of_fine st f start : fine (result_of rt st f start).
Proof. apply triple_get_state. intros s _. by apply triple_ret. Qed.

Lemma run_items_fine start l : fine (_run_items rt auth flow start l).
Proof.
  induction l as [|i l IH]; cbn [_run_items]; [apply result_of_fine|].
  eapply triple_bind.
  { instantiate (1 := λ _, True).
    destruct i; [apply execute_serial_step_fine|apply execute_parallel_fine]. }
  intros [f|] _; [|apply IH].
  eapply triple_bind; [apply run_compensation_fine|]. intros _ _. apply result_of_fine.
Qed.

Lemma run_fine ns :
  _normalize (items flow) = Ok ns → fine (run rt auth flow).
Proof.
  intros Hns. unfold run. rewrite Hns. eapply triple_bind; [apply now_fine|]. intros start _.
  eapply (triple_bind _ _ (λ x, x = ns)); [by apply triple_lift; [intros a [= <-]|]|]. intros ? ->.
  destruct (saga_timeout flow); [|apply run_items_fine].
  intros s Hs. destruct (run_items_fine start ns s Hs) as [Hs1 He].
  unfold _run_with_saga_timeout, try_except.
  destruct (_run_items rt auth flow start ns s) as [[r|e] s1]; [done|]. cbn in Hs1, He.
  assert (fine (_run_compensation rt auth flow ;;; result_of rt TIMED_OUT None start)) as Hk.
  { eapply triple_bind; [apply run_compensation_fine|]. intros _ _. apply result_of_fine. }
  destruct e as [[]|[]]; cbn; try done; by apply Hk.
Qed.
End runs.

(** Completed compensations are those of registered callbacks. *)
Section repeated.
Context {P W : Type} (rt : saga_runtime P W) (auth : SagaAuthExecutionContext) (flow : SagaFlow).
Implicit Types (s : executor P W).

Definition compensated_known s : Prop :=
  ∀ nm, (nm, STEP_COMPENSATED) ∈ trace s → nm ∈ comp_name <$> _compensable s.

Lemma known_books s s' : same_books s s' → compensated_known s → compensated_known s'.
Proof.
  intros Hb Hk nm. rewrite (same_books_trace s s' Hb). destruct Hb as (_ & -> & _). apply Hk.
Qed.

Lemma known_record nm st start :
  st ≠ STEP_COMPENSATED → preserves compensated_known (_record (P:=P) rt nm st start).
Proof.
  intros Hst s Hs x. destruct (trace_record rt nm st start s) as (_ & -> & -> & _).
  rewrite elem_of_app, list_elem_of_singleton. intros [?|[= _ ?]]; [auto|congruence].
Qed.

Lemma known_remember n : preserves compensated_known (_remember_compensable (P:=P) (W:=W) n).
Proof.
  intros s Hs. unfold _remember_compensable. destruct (n_compensate n); [|done].
  intros nm Hnm. cbn. rewrite fmap_app, elem_of_app. left. by apply Hs.
Qed.

(** While [cs], all registered, are compensated. *)
Lemma known_compensate_one cs c s :
  c ∈ cs → (compensated_known s ∧ cs ⊆ _compensable s) →
  let s' := (compensate_one rt auth flow c s).2 in compensated_known s' ∧ cs ⊆ _compensable s'.
Proof.
  intros Hc. set (J := λ s : executor P W, compensated_known s ∧ cs ⊆ _compensable s).
  assert (∀ s s', same_books s s' → J s → J s') as Hb.
  { intros s1 s2 H12 [H1 H2]. split; [by eapply known_books|]. by destruct H12 as (_ & -> & _). }
  revert s. change (preserves J (compensate_one rt auth flow c)).
  assert (∀ nm st start, (st = STEP_COMPENSATED → nm ∈ comp_name <$> cs) →
            preserves J (_record rt nm st start)) as Hr.
  { intros nm st start Hst s [H1 H2]. destruct (trace_record rt nm st start s) as (_ & Ht & Hco & _).
    split; [|by rewrite Hco]. intros x. rewrite Ht, Hco, elem_of_app, list_elem_of_singleton.
    intros [?|[= -> <-]]; [by apply H1|]. destruct (proj1 (list_elem_of_fmap _ _ _) (Hst eq_refl))
      as (c' & -> & Hc'). apply list_elem_of_fmap. exists c'. auto. }
  unfold compensate_one. apply preserves_bind; [by intros s|]. intros start.
  apply preserves_bind.
  - assert (preserves J (authorize rt auth (comp_name c) (comp_auth_boundary c)
       (comp_auth_owner_type c) ;;; await_effect rt (comp_compensate c) ;;;
       _record_step_compensated rt (comp_name c) start)) as Hm.
    { apply preserves_bind; [by intros s|]. intros _. apply preserves_bind.
      - intros s Hs. by eapply Hb, Hs; apply effect_books.
      - intros _. apply Hr. intros _. apply list_elem_of_fmap. eauto. }
    intros s Hs. specialize (Hm s Hs). unfold catch.
    by destruct (bind _ _ s) as [[a|[e|c']] s'].
  - intros [e|[]]; [|by intros s]. apply preserves_bind; [by apply Hr|]. intros _.
    apply preserves_bind; [|intros _; by intros s].
    destruct (compensation_failure_handler flow); [|by intros s].
    intros s Hs. by eapply Hb, Hs; apply effect_books.
Qed.

Lemma known_compensation : preserves compensated_known (_run_compensation rt auth flow).
Proof.
  intros s Hs. unfold _run_compensation, bind at 1, get_state.
  assert (preserves (λ s', compensated_known s' ∧ reverse (_compensable s) ⊆ _compensable s')
            (for_each (compensate_one rt auth flow) (reverse (_compensable s)))) as H.
  { generalize (reverse (_compensable s)). intros cs.
    assert (∀ l, l ⊆ cs → preserves (λ s', compensated_known s' ∧ cs ⊆ _compensable s')
              (for_each (compensate_one rt auth flow) l)) as Hl.
    { induction l as [|c l IH]; intros Hl; cbn [for_each]; [by intros s'|].
      apply preserves_bind; [|intros _; apply IH; set_solver].
      intros s' Hs'. apply known_compensate_one; [set_solver|done]. }
    by apply Hl. }
  apply H. split; [done|]. intros c. by rewrite elem_of_reverse.
Qed.
End repeated.

(** ** Results *)

Section results.
Context {P W : Type} (rt : saga_runtime P W) (auth : SagaAuthExecutionContext) (flow : SagaFlow).
Implicit Types (s : executor P W) (r : SagaResult P).

Lemma result_of_inv st f start s r s' :
  result_of rt st f start s = (Ok r, s') →
  s' = s ∧ result_data r = _data s ∧ status r = st ∧ result_history r = _history s.
Proof. unfold result_of, bind, get_state. by intros [= <- <-]. Qed.

Lemma run_items_inv start l s r s' :
  _run_items rt auth flow start l s = (Ok r, s') →
  result_data r = _data s' ∧ status r ≠ TIMED_OUT.
Proof.
  revert s. induction l as [|i l IH]; intros s; cbn [_run_items].
  { by intros (-> & -> & -> & _)%result_of_inv. }
  intros (o & s1 & _ & H)%bind_Ok_inv. destruct o; [|by eapply IH].
  apply bind_Ok_inv in H as (u & s2 & _ & H). by apply result_of_inv in H as (-> & -> & -> & _).
Qed.

(** A run either ends in its items, or the deadline interrupted them. *)
Lemma run_inv ns s r s' :
  _normalize (items flow) = Ok ns → run rt auth flow s = (Ok r, s') →
  ∃ start,
    (_run_items rt auth flow start ns s = (Ok r, s') ∧ status r ≠ TIMED_OUT) ∨
    (∃ e s1 s2, _run_items rt auth flow start ns s = (Raise e, s1) ∧
       _run_compensation rt auth flow s1 = (Ok tt, s2) ∧ s' = s2 ∧
       status r = TIMED_OUT ∧ result_history r = _history s2 ∧ result_data r = _data s2).
Proof.
  intros Hns. unfold run. rewrite Hns. unfold bind at 1, now, gets, bind at 1, lift. cbn [map_error].
  set (start := monotonic rt (_world s)). intros Hr. exists start.
  destruct (saga_timeout flow); [|left; split; [done|exact (proj2 (run_items_inv _ _ _ _ _ Hr))]].
  unfold _run_with_saga_timeout, try_except in Hr.
  destruct (_run_items rt auth flow start ns s) as [[r1|e] s1] eqn:Hi.
  { injection Hr as -> ->. left. split; [done|exact (proj2 (run_items_inv _ _ _ _ _ Hi))]. }
  assert ((_run_compensation rt auth flow ;;; result_of rt TIMED_OUT None start) s1 = (Ok r, s'))
    as Hc by by destruct e as [[]|[]].
  right. apply bind_Ok_inv in Hc as ([] & s2 & Hc & H).
  apply result_of_inv in H as (-> & Hd & Hst & Hh). by exists e, s1, s2.
Qed.

Definition holds_snapshot s : Prop := auth_context_snapshot (_data s) ≠ None.

Lemma holds_snapshot_books s s' : same_books s s' → holds_snapshot s → holds_snapshot s'.
Proof. intros (_ & _ & H). unfold holds_snapshot. by rewrite H. Qed.

Lemma catch_preserves {A} (I : executor P W → Prop) (m : comp (executor P W) raised A) :
  preserves I m → preserves I (catch m).
Proof.
  intros Hm s Hs. specialize (Hm s Hs). unfold catch. by destruct (m s) as [[a|[e|c]] s'].
Qed.

Lemma effect_keeps_snapshot f : preserves holds_snapshot (await_effect (P:=P) rt f).
Proof. intros s Hs. by eapply holds_snapshot_books, Hs; apply effect_books. Qed.

Lemma compensation_keeps_snapshot : preserves holds_snapshot (_run_compensation rt auth flow).
Proof.
  intros s Hs. unfold _run_compensation, bind at 1, get_state.
  apply (preserves_for_each holds_snapshot); [|done]. intros c. unfold compensate_one.
  apply preserves_bind; [by intros s1|]. intros start. apply preserves_bind.
  - apply catch_preserves. apply preserves_bind; [by intros s1|]. intros _.
    apply preserves_bind; [apply effect_keeps_snapshot|]. intros _ s1 Hs1. exact Hs1.
  - intros [e|[]]; [|by intros s1]. apply preserves_bind; [by intros s1|]. intros _.
    apply preserves_bind; [|intros _; by intros s1].
    destruct (compensation_failure_handler flow); [apply effect_keeps_snapshot|by intros s1].
Qed.
End results.

(** ** Properties *)

(** C1. A saga of transactions is all or nothing. Whatever the application
    code does, a run that ends in time awaited first the actions and the
    delays of its steps; the steps it recorded as committed are ones whose
    action was awaited and returned. A completed run awaited no compensation.
    A failed run then awaited the compensation of every committed step, each
    once, in reverse order of commitment, each on the data of the result, and
    each returned; it recorded exactly these, and nothing else was awaited
    after the failure. The step it names has failed. This covers serial steps,
    retries, skips and parallel groups. *)
Theorem saga_compensates_in_reverse {P W} (rt : saga_runtime P W) auth flow d w r w' ns :
  _normalize (items flow) = Ok ns → Forall item_has_compensation ns →
  run_saga_flow rt auth flow d w = (Ok r, w') →
  status r ≠ TIMED_OUT → saga_report rt ns w r w'.
Proof.
  intros Hns Hc. unfold run_saga_flow.
  destruct (run rt auth flow (mk_executor d [] [] w)) as [ro s'] eqn:Hrun. intros [= -> <-] Hst.
  destruct (run_inv rt auth flow ns _ r s' Hns Hrun)
    as (start & [[Hi _]|(e & s1 & s2 & _ & _ & _ & Hto & _)]); [|done].
  by eapply run_items_report.
Qed.


(** C39. A serial step is attempted at most [max_attempts] times (once without a
    retry strategy) and no further after it committed; it is recorded once per
    attempt, its compensation is registered exactly when it committed, and
    after the last failure the saga goes on or fails as the strategy says. *)
Theorem serial_step_attempts {P W} (rt : saga_runtime P W) auth n s o s' :
  _execute_serial_step rt auth n s = (Ok o, s') → step_report n s o s'.
Proof. apply execute_serial_step_spec. Qed.

(** A parallel group is recorded in the declared order whatever order its
    children ran in: one record each, the compensations of the committed ones
    registered in that order, the data unchanged; it succeeds exactly when all
    children committed. *)
Theorem parallel_declared_order {P W} (rt : saga_runtime P W) auth l s o s' :
  _execute_parallel rt auth l s = (Ok o, s') → group_report l s o s'.
Proof. apply execute_parallel_spec. Qed.

(** The action of a step runs only when the step is authorized: otherwise
    the attempt raises the authorization error and the world is untouched. *)
Theorem action_requires_authorization {P W} (rt : saga_runtime P W) auth n (s : executor P W) e :
  authorize_step auth (auth_metadata rt) (n_name n) (n_auth_boundary n) (n_auth_owner_type n)
    (_data s) = Raise e →
  _invoke_step_action rt auth n s = (Raise (Exn (AuthError e)), s).
Proof.
  intros He. unfold _invoke_step_action, authorize, bind, get_state, lift. by rewrite He.
Qed.

(** Apart from cancellations, running a well-formed flow raises nothing but
    the failure of a compensation, or what the application's own
    compensation-failure handler raised: failures of steps become results. *)
Theorem run_raises_only_compensation_failures {P W} (rt : saga_runtime P W) auth flow d w ns e :
  _normalize (items flow) = Ok ns →
  (∀ q w e, (sleep rt q w).1 = Raise (Exn e) → False) →
  (run_saga_flow rt auth flow d w).1 = Raise (Exn e) →
  e = SagaCompensationFailedError ∨ handler_raises rt flow e.
Proof.
  intros Hns Hsl. unfold run_saga_flow.
  destruct (run_fine rt auth flow (λ _, True) (λ _ _ _ _, Logic.I) (λ _ _ _ _ _ _, Logic.I)
    (λ _ _ _, Logic.I) (λ _ _ _, Logic.I) (λ _ _, Logic.I) Hsl ns Hns (mk_executor d [] [] w)
    Logic.I) as [_ H].
  destruct (run rt auth flow _) as [ro s']. cbn in *. by intros ->.
Qed.

(** The signed snapshot of the caller survives the run: when the initial
    data carries one, so does the data of the result, whatever the actions
    return in its place. *)
Theorem snapshot_survives {P W} (rt : saga_runtime P W) auth flow d w r w' ns :
  _normalize (items flow) = Ok ns →
  (∀ q w e, (sleep rt q w).1 = Raise (Exn e) → False) →
  auth_context_snapshot d ≠ None →
  run_saga_flow rt auth flow d w = (Ok r, w') →
  auth_context_snapshot (result_data r) ≠ None.
Proof.
  intros Hns Hsl Hd. unfold run_saga_flow.
  destruct (run_fine rt auth flow holds_snapshot holds_snapshot_books) with
    (ns := ns) (s := mk_executor d [] [] w) as [HJ _]; try done.
  - intros nm st start _ s Hs. exact Hs.
  - intros n s Hs. unfold _remember_compensable. by destruct (n_compensate n).
  - intros s d' Hs. unfold holds_snapshot in *. cbn. unfold _preserve_auth_context_snapshot.
    destruct (auth_context_snapshot d') eqn:H1; [by rewrite H1|].
    by destruct (auth_context_snapshot (_data s)).
  - apply compensation_keeps_snapshot.
  - destruct (run rt auth flow (mk_executor d [] [] w)) as [ro s'] eqn:Hrun.
    intros [= -> _]. destruct (run_inv rt auth flow ns _ r s' Hns Hrun)
      as (start & [[Hi _]|(e & s1 & s2 & _ & _ & -> & _ & _ & ->)]); [|done].
    apply run_items_inv in Hi as [-> _]. done.
Qed.

(** A deadline that fires during compensation starts the compensation over:
    the history of a timed-out run ends with the compensation of every
    registered step, so a step whose compensation had already completed is
    compensated twice. *)
Theorem timeout_repeats_compensation {P W} (rt : saga_runtime P W) auth flow d w r w' ns :
  _normalize (items flow) = Ok ns →
  (∀ q w e, (sleep rt q w).1 = Raise (Exn e) → False) →
  run_saga_flow rt auth flow d w = (Ok r, w') → status r = TIMED_OUT →
  ∃ pre cs, entry <$> result_history r = pre ++ compensated cs ∧
    ∀ nm, (nm, STEP_COMPENSATED) ∈ pre → nm ∈ comp_name <$> cs.
Proof.
  intros Hns Hsl. unfold run_saga_flow.
  destruct (run rt auth flow (mk_executor d [] [] w)) as [ro s'] eqn:Hr. intros [= -> _] Hst.
  destruct (run_inv rt auth flow ns _ r s' Hns Hr)
    as (start & [[_ Hno]|(e & s1 & s2 & Hi & Hc & _ & _ & Hh & _)]); [done|].
  destruct (run_items_fine rt auth flow compensated_known known_books (known_record rt)
    known_remember (λ s d H, H) (known_compensation rt auth flow) Hsl start ns
    (mk_executor d [] [] w)) as [Hk _]; [intros nm H; by apply not_elem_of_nil in H|].
  rewrite Hi in Hk. apply run_compensation_Ok in Hc as (Ht & _).
  exists (trace s1), (reverse (_compensable s1)). rewrite Hh. split; [exact Ht|].
  intros nm Hnm. rewrite fmap_reverse, elem_of_reverse. by apply Hk.
Qed.

(** A failing compensation always ends in [SagaCompensationFailedError]: a
    configured failure handler is awaited, and when it returns the error is
    raised all the same, as it is without a handler. *)
Theorem compensation_failure_always_raises {P W} (rt : saga_runtime P W) auth flow c
    (s : executor P W) e w :
  authorize_step auth (auth_metadata rt) (comp_name c) (comp_auth_boundary c)
    (comp_auth_owner_type c) (_data s) = Ok tt →
  perform_effect rt (comp_compensate c) (_data s) (_world s) = (Raise (Exn e), w) →
  (∀ h, compensation_failure_handler flow = Some h → (perform_effect rt h (_data s) w).1 = Ok tt) →
  (compensate_one rt auth flow c s).1 = Raise (Exn SagaCompensationFailedError).
Proof.
  intros Ha He Hh. unfold compensate_one, bind at 1, now, gets, bind at 1, catch.
  unfold bind at 1, authorize, bind at 1, get_state, lift. rewrite Ha. cbn [map_error].
  unfold bind at 1, await_effect at 1. rewrite He. cbn [fst snd].
  unfold _record_step_failure, _record, bind, now, gets, modify. cbn.
  destruct (compensation_failure_handler flow) as [h|]; [|done].
  specialize (Hh h eq_refl). unfold await_effect. cbn.
  destruct (perform_effect rt h (_data s) w) as [r w2]. cbn in Hh. by rewrite Hh.
Qed.

(** ** Witnesses

    Application code that logs its calls: the names in [bad] raise, and awaiting
    [slow] in a compensation is cut off by the deadline of the saga once. *)

Definition ex_fun (name : string) : pyfun := mk_fun 0 name (BCallable name None).

Definition ex_runtime (bad : list string) (slow : string) : saga_runtime nat (list string) :=
  mk_runtime
    (λ f timeout d w,
       (if decide (fun_name f ∈ bad) then Raise (Exn (ActionError 1)) else Ok None, false,
        w ++ [fun_name f]))
    (λ f d w,
       (if decide (fun_name f ∈ bad) then Raise (Exn (ActionError 2))
        else if decide (fun_name f = slow ∧ slow ∉ w) then Raise (Cancelled SagaDeadline) else Ok tt,
        w ++ [fun_name f]))
    (λ q w, (Ok tt, w)) (λ w, Z.of_nat (length w)) (λ n w, reverse (seq 0 n)) (λ n w, None)
    ex_auth_store.

Definition ex_tx (a c : string) (e : ErrorStrategy) : FlowItem :=
  FTransaction (mk_transaction (ex_fun a) (ex_fun c) e None None None None None).
Definition ex_flow (l : list FlowItem) (timeout : option Q) (h : option pyfun) : SagaFlow :=
  mk_flow l timeout h.

Definition ex_order_items : list FlowItem :=
  [ex_tx "reserve" "release" Compensate;
   FParallel (mk_parallel [PTransaction (mk_transaction (ex_fun "pay") (ex_fun "refund")
     Compensate None None None None None);
     PTransaction (mk_transaction (ex_fun "pack") (ex_fun "unpack")
     Compensate None None None None None)]);
   ex_tx "ship" "recall" (Retry 2 (mk_backoff 1%Q) ThenCompensate)].

(** Shipping fails twice: the three committed steps are compensated. *)
Lemma saga_compensates_in_reverse_witness :
  let rt := ex_runtime ["ship"] "" in
  let flow := ex_flow ex_order_items None None in
  ∃ ns r w, _normalize (items flow) = Ok ns ∧
    run_saga_flow rt no_saga_auth flow ex_saga_data [] = (Ok r, w) ∧
    saga_report rt ns [] r w ∧ status r = FAILED ∧
    w = ["reserve"; "pack"; "pay"; "ship"; "ship"; "unpack"; "refund"; "release"].
Proof.
  cbv zeta.
  destruct (_normalize (items (ex_flow ex_order_items None None))) as [ns|e] eqn:Hns;
    [|vm_compute in Hns; discriminate].
  destruct (run_saga_flow (ex_runtime ["ship"] "") no_saga_auth (ex_flow ex_order_items None None)
              ex_saga_data []) as [[r|e] w] eqn:Hrun; [|vm_compute in Hrun; discriminate].
  assert (status r = FAILED) as Hst by (vm_compute in Hrun; injection Hrun as <- _; reflexivity).
  exists ns, r, w. split; [reflexivity|]. split; [reflexivity|]. split; [|split; [exact Hst|]].
  - eapply (saga_compensates_in_reverse (ex_runtime ["ship"] "") no_saga_auth
      (ex_flow ex_order_items None None) ex_saga_data [] r w); [exact Hns| |exact Hrun|].
    + vm_compute in Hns. injection Hns as <-. repeat constructor; eexists; reflexivity.
    + rewrite Hst. discriminate.
  - vm_compute in Hrun. injection Hrun as _ <-. reflexivity.
Defined.


Definition ex_retry_step : _NormalizedStep :=
  mk_normalized "ship" (ex_fun "ship") None (Retry 3 (mk_backoff 1%Q) ThenSkip) None None None None None.

Lemma serial_step_attempts_witness :
  let s := mk_executor ex_saga_data [] [] ([] : list string) in
  let out := _execute_serial_step (ex_runtime ["ship"] "") no_saga_auth ex_retry_step s in
  _world out.2 = ["ship"; "ship"; "ship"] ∧ step_report ex_retry_step s None out.2.
Proof.
  cbv zeta. split; [vm_compute; reflexivity|].
  apply (serial_step_attempts (ex_runtime ["ship"] "") no_saga_auth).
  apply pair_fst_eq. vm_compute. reflexivity.
Defined.

Lemma parallel_declared_order_witness :
  let l := [mk_normalized "a" (ex_fun "a") None Compensate None None None None None;
            mk_normalized "b" (ex_fun "b") None Compensate None None None None None] in
  let s := mk_executor ex_saga_data [] [] ([] : list string) in
  let out := _execute_parallel (ex_runtime [] "") no_saga_auth l s in
  _world out.2 = ["b"; "a"] ∧ group_report l s None out.2.
Proof.
  cbv zeta. split; [vm_compute; reflexivity|].
  apply (parallel_declared_order (ex_runtime [] "") no_saga_auth).
  apply pair_fst_eq. vm_compute. reflexivity.
Defined.

Lemma action_requires_authorization_witness :
  let rt := mk_runtime (perform_action (ex_runtime [] "")) (perform_effect (ex_runtime [] ""))
    (sleep (ex_runtime [] "")) (monotonic (ex_runtime [] "")) (schedule (ex_runtime [] ""))
    (gather_interrupt (ex_runtime [] ""))
    (requirement_decorator protected_requirement "pay" ex_auth_store) in
  let n := mk_normalized "pay" (ex_fun "pay") None Compensate None
             (Some (BCallable "pay" None)) None None None in
  let s := mk_executor ex_saga_data [] [] ([] : list string) in
  _invoke_step_action rt no_saga_auth n s
  = (Raise (Exn (AuthError (AuthRequirementDeniedError
       VERIFICATION_PROVIDER_UNAVAILABLE_DECISION))), s).
Proof. cbv zeta. apply action_requires_authorization. vm_compute. reflexivity. Defined.

Lemma run_raises_only_compensation_failures_witness :
  (run_saga_flow (ex_runtime ["ship"; "refund"] "") no_saga_auth (ex_flow ex_order_items None None)
     ex_saga_data []).1 = Raise (Exn SagaCompensationFailedError) ∧
  (SagaCompensationFailedError = SagaCompensationFailedError ∨
   handler_raises (ex_runtime ["ship"; "refund"] "") (ex_flow ex_order_items None None)
     SagaCompensationFailedError).
Proof.
  split; [vm_compute; reflexivity|].
  eapply (run_raises_only_compensation_failures (ex_runtime ["ship"; "refund"] "") no_saga_auth
    (ex_flow ex_order_items None None) ex_saga_data []); [vm_compute; reflexivity|done|].
  vm_compute. reflexivity.
Defined.

Lemma snapshot_survives_witness :
  ∃ r w, run_saga_flow (ex_runtime ["ship"] "") no_saga_auth (ex_flow ex_order_items None None)
      ex_saga_data [] = (Ok r, w) ∧ auth_context_snapshot (result_data r) ≠ None.
Proof.
  destruct (run_saga_flow (ex_runtime ["ship"] "") no_saga_auth (ex_flow ex_order_items None None)
              ex_saga_data []) as [[r|e] w] eqn:Hrun; [|vm_compute in Hrun; discriminate].
  exists r, w. split; [reflexivity|].
  eapply (snapshot_survives (ex_runtime ["ship"] "") no_saga_auth (ex_flow ex_order_items None None)
    ex_saga_data [] r w); [vm_compute; reflexivity|done|discriminate|exact Hrun].
Defined.

(** The refund completes, the release is cut off, and the refund runs again. *)
Definition ex_timeout_items : list FlowItem :=
  [ex_tx "reserve" "release" Compensate; ex_tx "pay" "refund" Compensate;
   ex_tx "ship" "recall" Compensate].

Lemma timeout_repeats_compensation_witness :
  ∃ r w, run_saga_flow (ex_runtime ["ship"] "release") no_saga_auth
      (ex_flow ex_timeout_items (Some 5%Q) None) ex_saga_data [] = (Ok r, w) ∧
    w = ["reserve"; "pay"; "ship"; "refund"; "release"; "refund"; "release"] ∧
    ∃ pre cs, entry <$> result_history r = pre ++ compensated cs ∧
      ∀ nm, (nm, STEP_COMPENSATED) ∈ pre → nm ∈ comp_name <$> cs.
Proof.
  destruct (run_saga_flow (ex_runtime ["ship"] "release") no_saga_auth
      (ex_flow ex_timeout_items (Some 5%Q) None) ex_saga_data []) as [[r|e] w] eqn:Hrun;
    [|vm_compute in Hrun; discriminate].
  exists r, w. split; [reflexivity|]. split; [vm_compute in Hrun; injection Hrun as _ <-; reflexivity|].
  eapply (timeout_repeats_compensation (ex_runtime ["ship"] "release") no_saga_auth
    (ex_flow ex_timeout_items (Some 5%Q) None) ex_saga_data [] r w);
    [vm_compute; reflexivity|done|exact Hrun|].
  vm_compute in Hrun. injection Hrun as <- _. reflexivity.
Defined.

Lemma compensation_failure_always_raises_witness :
  (compensate_one (ex_runtime ["refund"] "") no_saga_auth (ex_flow [] None (Some (ex_fun "alert")))
     (mk_compensable "pay" (ex_fun "refund") None None)
     (mk_executor ex_saga_data [] [] [])).1 = Raise (Exn SagaCompensationFailedError).
Proof.
  apply (compensation_failure_always_raises (ex_runtime ["refund"] "") no_saga_auth _ _ _
           (ActionError 2) ["refund"]); [reflexivity|reflexivity|].
  intros h [= <-]. vm_compute. reflexivity.
Defined.
