(* ===== verification/Tracing.v ===== *)
(** * Distributed tracing: the trace context and its W3C propagation

    [spakky-tracing]: [context.py] (the [TraceContext] value, its [traceparent]
    form and the ambient context of the execution) and [w3c_propagator.py]
    ([inject] and [extract]). [propagator.py] is the port: the class
    [ITracePropagator] states it with the laws its users rely on, and the W3C
    propagator is an instance. [secrets.token_hex] draws from an entropy
    source, the class [Entropy]. *)

From S2P Require Import Prelude.

(** ** Hexadecimal text *)

(** The character class [0-9a-f] of the patterns *)
Definition hex_value (c : ascii) : option N :=
  let n := N_of_ascii c in
  if ((48 <=? n) && (n <=? 57))%N then Some (n - 48)%N
  else if ((97 <=? n) && (n <=? 102))%N then Some (n - 87)%N
  else None.

Definition is_hex (c : ascii) : bool :=
  match hex_value c with Some _ => true | None => false end.

(** The digit of a value below 16 *)
Definition hex_digit (n : N) : ascii :=
  ascii_of_N (if (n <? 10)%N then n + 48 else n + 87)%N.

Fixpoint hex_digits (fuel : nat) (n : N) (acc : string) : string :=
  match fuel with
  | O => acc
  | S fuel' =>
      let acc' := String (hex_digit (n mod 16)%N) acc in
      if (n <? 16)%N then acc' else hex_digits fuel' (n / 16)%N acc'
  end.

(** [f"{n:02x}"]: zero padded to two characters, a sign counted among them *)
Definition format_02x (z : Z) : string :=
  let n := Z.abs_N z in
  let ds := hex_digits (S (N.to_nat (N.log2 n))) n "" in
  if decide (z < 0)%Z then String "-" ds
  else if decide (String.length ds < 2)%nat then String "0" ds else ds.

(** [int(s, 16)] on a string of hexadecimal digits *)
Fixpoint int_hex (acc : N) (s : string) : N :=
  match s with
  | EmptyString => acc
  | String c s' => int_hex (16 * acc + default 0 (hex_value c))%N s'
  end.

Fixpoint all_hex (s : string) : bool :=
  match s with EmptyString => true | String c s' => is_hex c && all_hex s' end.

(** [n] hexadecimal digits exactly *)
Definition hex_field (n : nat) (s : string) : Prop :=
  all_hex s = true ∧ String.length s = n.

Fixpoint zeros (n : nat) : string :=
  match n with O => "" | S n' => String "0" (zeros n') end.

(** ** The trace context *)

Record TraceContext := mk_trace {
  trace_id : string;
  span_id : string;
  parent_span_id : option string;
  trace_flags : Z;
}.

Inductive tracing_error := InvalidTraceparentError.

Definition _TRACE_ID_BYTES : nat := 16.
Definition _SPAN_ID_BYTES : nat := 8.
Definition _ZERO_TRACE_ID : string := zeros 32.
Definition _ZERO_SPAN_ID : string := zeros 16.

Definition to_traceparent (t : TraceContext) : string :=
  "00-" +:+ trace_id t +:+ "-" +:+ span_id t +:+ "-" +:+ format_02x (trace_flags t).

(** The group [([0-9a-f]{n})] of a pattern: the match and the rest *)
Fixpoint hex_group (n : nat) (s : string) : option (string * string) :=
  match n, s with
  | O, _ => Some ("", s)
  | S n', String c s' =>
      if is_hex c then
        match hex_group n' s' with Some (g, r) => Some (String c g, r) | None => None end
      else None
  | S _, EmptyString => None
  end.

Definition dash (s : string) : option string :=
  match s with String c s' => if decide (c = "-"%char) then Some s' else None | _ => None end.

(** [$] without [re.MULTILINE]: the end, or a newline that ends the text *)
Definition at_end (s : string) : bool :=
  match s with
  | EmptyString => true
  | String c EmptyString => bool_decide (c = "010"%char)
  | _ => false
  end.

Definition _TRACEPARENT_PATTERN (s : string) : option (string * string * string * string) :=
  '(version, s) ← hex_group 2 s; s ← dash s;
  '(tid, s) ← hex_group 32 s; s ← dash s;
  '(sid, s) ← hex_group 16 s; s ← dash s;
  '(flags, s) ← hex_group 2 s;
  if at_end s then Some (version, tid, sid, flags) else None.

Definition from_traceparent (header : string) : outcome tracing_error TraceContext :=
  match _TRACEPARENT_PATTERN (py_strip header) with
  | None => Raise InvalidTraceparentError
  | Some (_, tid, sid, flags_hex) =>
      if decide (tid = _ZERO_TRACE_ID ∨ sid = _ZERO_SPAN_ID) then Raise InvalidTraceparentError
      else Ok (mk_trace tid sid None (Z.of_N (int_hex 0 flags_hex)))
  end.

(** ** The ambient context of an execution *)

(** [secrets.token_hex(n)]: [2n] lowercase hexadecimal digits *)
Class Entropy (R : Type) := {
  token_hex : nat → R → string * R;
  token_hex_field n r : hex_field (2 * n) (token_hex n r).1;
}.

(** [_trace_context] is the value of the context variable. *)
Record execution (R : Type) := mk_execution {
  _trace_context : option TraceContext;
  entropy : R;
}.
Arguments mk_execution {R}.
Arguments _trace_context {R}.
Arguments entropy {R}.

Section context.
Context `{Entropy R}.

Abbreviation action := (comp (execution R) tracing_error).

Definition draw (n : nat) : action string := λ x,
  let '(s, r) := token_hex n (entropy x) in (Ok s, mk_execution (_trace_context x) r).

Definition generate_trace_id : action string := draw _TRACE_ID_BYTES.
Definition generate_span_id : action string := draw _SPAN_ID_BYTES.

Definition new_root : action TraceContext :=
  tid <- generate_trace_id ;;
  sid <- generate_span_id ;;
  ret (mk_trace tid sid None 1).

Definition child (t : TraceContext) : action TraceContext :=
  sid <- generate_span_id ;;
  ret (mk_trace (trace_id t) sid (Some (span_id t)) (trace_flags t)).

Definition get : action (option TraceContext) := gets _trace_context.
Definition set (t : TraceContext) : action unit :=
  modify (λ x, mk_execution (Some t) (entropy x)).
Definition clear : action unit :=
  modify (λ x, mk_execution None (entropy x)).

(** ** The W3C propagator *)

Definition TRACEPARENT_HEADER : string := "traceparent".

(** [inject] mutates the carrier: it returns the carrier the caller holds. *)
Definition inject (carrier : list (string * string)) : action (list (string * string)) :=
  ctx <- get ;;
  match ctx with
  | Some t => ret (dict_set TRACEPARENT_HEADER (to_traceparent t) carrier)
  | None => ret carrier
  end.

Definition extract (carrier : list (string * string)) : option TraceContext :=
  match dict_get TRACEPARENT_HEADER carrier with
  | None => None
  | Some header =>
      match from_traceparent header with Ok t => Some t | Raise _ => None end
  end.

Definition fields : list string := [TRACEPARENT_HEADER].
End context.

(** ** Well-formed contexts *)

(** What a context must satisfy for its header to be a W3C [traceparent] *)
Record valid_trace (t : TraceContext) : Prop := {
  valid_trace_id : hex_field 32 (trace_id t) ∧ trace_id t ≠ _ZERO_TRACE_ID;
  valid_span_id : hex_field 16 (span_id t) ∧ span_id t ≠ _ZERO_SPAN_ID;
  valid_flags : (0 ≤ trace_flags t < 256)%Z;
}.

(** What a carrier can transport: the parent span stays behind *)
Definition detached (t : TraceContext) : TraceContext :=
  mk_trace (trace_id t) (span_id t) None (trace_flags t).

(** A header of any version *)
Definition traceparent_of (version : string) (t : TraceContext) : string :=
  version +:+ "-" +:+ trace_id t +:+ "-" +:+ span_id t +:+ "-" +:+ format_02x (trace_flags t).

(** ** The propagation port and its contract *)

Class ITracePropagator (R : Type) := {
  port_inject : list (string * string) → comp (execution R) tracing_error (list (string * string));
  port_extract : list (string * string) → option TraceContext;
  port_fields : list string;
  (** injection is an upsert of the fields that reads the ambient context only *)
  port_inject_pure c x :
    ∃ c', port_inject c x = (Ok c', x) ∧
      (∀ k, k ∉ port_fields → dict_get k c' = dict_get k c) ∧
      (_trace_context x = None → c' = c);
  (** extraction reads the fields only *)
  port_extract_fields c c' :
    (∀ k, k ∈ port_fields → dict_get k c = dict_get k c') → port_extract c = port_extract c';
  (** what one side injects the other extracts *)
  port_extract_inject c x t c' :
    _trace_context x = Some t → valid_trace t →
    port_inject c x = (Ok c', x) → port_extract c' = Some (detached t);
}.

(** ** Lemmas *)

Lemma hex_value_digit c n : hex_value c = Some n → (n < 16)%N ∧ c = hex_digit n.
Proof.
  destruct c as [[] [] [] [] [] [] [] []]; vm_compute hex_value;
    intros [= <-] || intros [=]; by vm_compute.
Qed.

Lemma is_hex_digit c : is_hex c = true → ∃ n, (n < 16)%N ∧ c = hex_digit n.
Proof.
  unfold is_hex. destruct (hex_value c) as [n|] eqn:Hc; [|done].
  intros _. exists n. by apply hex_value_digit.
Qed.

Lemma below_16 (P : N → Prop) `{∀ n, Decision (P n)} :
  Forall P (N.of_nat <$> seq 0 16) → ∀ n, (n < 16)%N → P n.
Proof.
  rewrite Forall_forall. intros HP n Hn. apply HP. apply list_elem_of_fmap.
  exists (N.to_nat n). rewrite N2Nat.id, elem_of_seq. split; [done|lia].
Qed.

Lemma is_hex_not_space c : is_hex c = true → py_isspace c = false.
Proof.
  intros (n & Hn & ->)%is_hex_digit. revert n Hn. apply (below_16 _). decide_compute.
Qed.

(** Two digits and the value they write *)
Lemma format_int_hex n m :
  (n < 16)%N → (m < 16)%N →
  let s := String (hex_digit n) (String (hex_digit m) "") in
  format_02x (Z.of_N (int_hex 0 s)) = s ∧ int_hex 0 s = (16 * n + m)%N ∧ all_hex s = true.
Proof.
  intros Hn. revert m. apply (below_16 _). revert n Hn. apply (below_16 _). decide_compute.
Qed.

(** *** Fields of the pattern *)

Lemma hex_group_app n g r : hex_field n g → hex_group n (g +:+ r) = Some (g, r).
Proof.
  intros [Hh Hn]. revert n Hn. induction g as [|c g IH]; intros n <-; [done|].
  simpl in Hh. apply andb_true_iff in Hh as [Hc Hh]. simpl. rewrite Hc.
  change (String.append g r) with (g +:+ r). by rewrite (IH Hh _ eq_refl).
Qed.

Lemma hex_group_inv n s g r : hex_group n s = Some (g, r) → hex_field n g ∧ s = g +:+ r.
Proof.
  revert s g. induction n as [|n IH]; intros s g; simpl.
  - by intros [= <- <-].
  - destruct s as [|c s]; [done|]. destruct (is_hex c) eqn:Hc; [|done].
    destruct (hex_group n s) as [[g' r']|] eqn:Hg; [|done]. intros [= <- <-].
    destruct (IH s g' Hg) as [[Hh Hl] ->]. split; [|done].
    split; simpl; [by rewrite Hc, Hh|by f_equal].
Qed.

Lemma dash_inv s r : dash s = Some r ↔ s = "-" +:+ r.
Proof.
  destruct s as [|c s]; [done|]. unfold dash. change ("-" +:+ r) with (String "-" r).
  destruct (decide (c = "-"%char)) as [->|Hc]; split; congruence.
Qed.

Lemma dash_app r : dash ("-" +:+ r) = Some r.
Proof. by apply dash_inv. Qed.

Lemma at_end_inv s : at_end s = true ↔ s = "" ∨ s = String "010" "".
Proof.
  destruct s as [|c [|c' s]]; simpl; rewrite ?bool_decide_eq_true; naive_solver.
Qed.

(** *** Stripping *)

Lemma lstrip_chars_head l c l' : lstrip_chars l = c :: l' → py_isspace c = false.
Proof.
  induction l as [|d l IH]; simpl; [done|].
  destruct (py_isspace d) eqn:Hd; [exact IH|]. by intros [= -> _].
Qed.

Lemma strip_chars_last l l' c : strip_chars l = l' ++ [c] → py_isspace c = false.
Proof.
  unfold strip_chars. intros H. apply (f_equal reverse) in H.
  rewrite reverse_involutive, reverse_snoc in H. by eapply lstrip_chars_head.
Qed.

Lemma py_strip_last s p c : py_strip s = p +:+ String c "" → py_isspace c = false.
Proof.
  unfold py_strip. intros H. apply (f_equal String.list_ascii_of_string) in H.
  rewrite String.list_ascii_of_string_of_list_ascii, list_of_string_app in H.
  by eapply strip_chars_last.
Qed.

Definition no_space (s : string) : Prop :=
  Forall (λ c, py_isspace c = false) (String.list_ascii_of_string s).

Lemma no_space_app s1 s2 : no_space s1 → no_space s2 → no_space (s1 +:+ s2).
Proof. unfold no_space. rewrite list_of_string_app, Forall_app. done. Qed.

Lemma hex_field_no_space n s : hex_field n s → no_space s.
Proof.
  intros [H _]. unfold no_space. induction s as [|c s IH]; simpl in *; [by constructor|].
  apply andb_true_iff in H as [Hc H]. constructor; [by apply is_hex_not_space|auto].
Qed.

(** *** Flags *)

Lemma format_int_flags s :
  hex_field 2 s → format_02x (Z.of_N (int_hex 0 s)) = s ∧ (int_hex 0 s < 256)%N.
Proof.
  intros [Hh Hl]. destruct s as [|a [|b [|]]]; try done. simpl in Hh.
  rewrite !andb_true_iff in Hh. destruct Hh as ((n & Hn & ->)%is_hex_digit &
    (m & Hm & ->)%is_hex_digit & _).
  destruct (format_int_hex n m Hn Hm) as (Hf & Hi & _). split; [exact Hf|].
  rewrite Hi. lia.
Qed.

Lemma int_format_flags z :
  (0 ≤ z < 256)%Z →
  hex_field 2 (format_02x z) ∧ Z.of_N (int_hex 0 (format_02x z)) = z.
Proof.
  intros Hz.
  assert (Forall (λ z, (all_hex (format_02x z) = true ∧ String.length (format_02x z) = 2%nat) ∧
            Z.of_N (int_hex 0 (format_02x z)) = z) (Z.of_nat <$> seq 0 256)) as H
    by decide_compute.
  rewrite Forall_forall in H. apply H. apply list_elem_of_fmap.
  exists (Z.to_nat z). rewrite elem_of_seq. lia.
Qed.

(** *** The pattern, as a specification *)

Lemma pattern_spec s v tid sid fl :
  _TRACEPARENT_PATTERN s = Some (v, tid, sid, fl) ↔
  hex_field 2 v ∧ hex_field 32 tid ∧ hex_field 16 sid ∧ hex_field 2 fl ∧
  ∃ e, at_end e = true ∧ s = v +:+ "-" +:+ tid +:+ "-" +:+ sid +:+ "-" +:+ fl +:+ e.
Proof.
  unfold _TRACEPARENT_PATTERN. split.
  - intros H.
    apply bind_Some in H as ([v' s1] & [Hv ->]%hex_group_inv & H). cbv beta iota in H.
    apply bind_Some in H as (s2 & ->%dash_inv & H).
    apply bind_Some in H as ([t' s3] & [Ht ->]%hex_group_inv & H). cbv beta iota in H.
    apply bind_Some in H as (s4 & ->%dash_inv & H).
    apply bind_Some in H as ([i' s5] & [Hi ->]%hex_group_inv & H). cbv beta iota in H.
    apply bind_Some in H as (s6 & ->%dash_inv & H).
    apply bind_Some in H as ([f' e] & [Hf ->]%hex_group_inv & H). cbv beta iota in H.
    destruct (at_end e) eqn:He; [|done]. injection H as -> -> -> ->.
    split_and!; [done..|]. by exists e.
  - intros (Hv & Ht & Hi & Hf & e & He & ->).
    rewrite (hex_group_app 2) by done. cbv [mbind option_bind].
    rewrite dash_app, (hex_group_app 32) by done.
    rewrite dash_app, (hex_group_app 16) by done.
    rewrite dash_app, (hex_group_app 2) by done. by rewrite He.
Qed.

Lemma from_traceparent_Ok h t :
  from_traceparent h = Ok t ↔
  valid_trace t ∧ parent_span_id t = None ∧
  ∃ v, hex_field 2 v ∧ py_strip h = traceparent_of v t.
Proof.
  unfold from_traceparent. split.
  - destruct (_TRACEPARENT_PATTERN (py_strip h)) as [[[[v tid] sid] fl]|] eqn:Hp; [|done].
    apply pattern_spec in Hp as (Hv & Ht & Hi & Hf & e & He & Hs).
    case_decide as Hz; [done|]. intros [= <-].
    apply Decidable.not_or in Hz as [Hz1 Hz2]. destruct (format_int_flags fl Hf) as [Hfl Hlt].
    split_and!; [constructor; cbn; split_and?; lia || done|done|].
    exists v. split; [done|]. unfold traceparent_of; cbn [trace_id span_id trace_flags].
    rewrite Hfl, Hs. apply at_end_inv in He as [-> | -> ].
    + by rewrite string_app_nil.
    + exfalso. enough (py_isspace "010" = false) by done.
      apply (py_strip_last h (v +:+ "-" +:+ tid +:+ "-" +:+ sid +:+ "-" +:+ fl)).
      rewrite Hs, !string_app_assoc. done.
  - intros ([[Ht Hz1] [Hi Hz2] Hf] & Hpar & v & Hv & Hs).
    destruct (int_format_flags (trace_flags t) Hf) as [Hff Hint].
    rewrite (proj2 (pattern_spec _ v (trace_id t) (span_id t) (format_02x (trace_flags t)))).
    + rewrite decide_False by (intros []; done). rewrite Hint. destruct t; simpl in *. by subst.
    + split_and!; [done..|]. exists "". split; [done|].
      rewrite string_app_nil. exact Hs.
Qed.

Lemma to_traceparent_no_space t : valid_trace t → no_space (to_traceparent t).
Proof.
  intros [[Ht _] [Hi _] Hf]. destruct (int_format_flags _ Hf) as [Hff _].
  unfold to_traceparent.
  repeat apply no_space_app; eauto using hex_field_no_space; repeat constructor.
Qed.

Lemma valid_detached t : valid_trace t → valid_trace (detached t).
Proof. by intros [? ? ?]. Qed.

Lemma from_to_traceparent t :
  valid_trace t → from_traceparent (to_traceparent t) = Ok (detached t).
Proof.
  intros Ht. apply from_traceparent_Ok. split_and!; [by apply valid_detached|done|].
  exists "00". split; [done|]. by rewrite py_strip_id by by apply to_traceparent_no_space.
Qed.

Create Rewrite HintDb tracing.
Create HintDb tracing.
#[export] Hint Resolve valid_detached : tracing.
#[export] Hint Rewrite from_to_traceparent using done : tracing.

(** *** The W3C propagator implements the port *)

#[export] Program Instance W3CTracePropagator (R : Type) : ITracePropagator R := {
  port_inject := inject;
  port_extract := extract;
  port_fields := fields;
}.
Next Obligation.
  intros R c x. unfold inject, get, bind, gets. destruct (_trace_context x) as [t|] eqn:Hx;
    eexists; (split_and!; [done| |done]).
  - intros k Hk. apply dict_get_set_ne. intros ->. apply Hk. by left.
  - done.
Qed.
Next Obligation.
  intros R c c' H. unfold extract. by rewrite (H TRACEPARENT_HEADER) by by left.
Qed.
Next Obligation.
  intros R c x t c' Hx Ht. unfold inject, get, bind, gets. rewrite Hx. intros [= <-].
  unfold extract. autorewrite with dict. by autorewrite with tracing.
Qed.

(** ** Properties *)

Lemma strip_chars_between l1 l l2 :
  Forall (λ c, py_isspace c = true) l1 → Forall (λ c, py_isspace c = true) l2 →
  Forall (λ c, py_isspace c = false) l → strip_chars (l1 ++ l ++ l2) = l.
Proof.
  intros H1 H2 Hl. unfold strip_chars. rewrite lstrip_app_space by done.
  destruct l as [|c l].
  - rewrite (proj2 (lstrip_chars_nil ([] ++ l2)) H2). done.
  - rewrite (lstrip_chars_id ((c :: l) ++ l2)).
    + rewrite reverse_app, lstrip_app_space by (by apply Forall_reverse).
      rewrite lstrip_chars_id; [apply reverse_involutive|].
      intros d l' Hd. apply Forall_reverse in Hl. rewrite Hd, Forall_cons in Hl. naive_solver.
    + intros d l' [= -> _]. rewrite Forall_cons in Hl. naive_solver.
Qed.

Lemma py_strip_between s1 s s2 :
  is_blank s1 = true → is_blank s2 = true → no_space s → py_strip (s1 +:+ s +:+ s2) = s.
Proof.
  rewrite !is_blank_spec. intros H1 H2 Hs. unfold py_strip.
  rewrite !list_of_string_app, strip_chars_between by done.
  apply String.string_of_list_ascii_of_string.
Qed.

(** A well-formed trace context survives serialization: its header, with any
    whitespace around it, parses to the same trace, span and flags, and to no
    parent span. *)
Theorem traceparent_roundtrip t before after :
  valid_trace t → is_blank before = true → is_blank after = true →
  from_traceparent (before +:+ to_traceparent t +:+ after) = Ok (detached t).
Proof.
  intros Ht Hb Ha. apply from_traceparent_Ok. split_and!; [by apply valid_detached|done|].
  exists "00". split; [done|]. rewrite py_strip_between; [done..|].
  by apply to_traceparent_no_space.
Qed.

(** The parser accepts exactly the headers that, stripped, are a version of two
    digits followed by the serialization of a well-formed context; it returns
    that context and raises [InvalidTraceparentError] on any other text. *)
Theorem from_traceparent_exact h :
  match from_traceparent h with
  | Ok t => valid_trace t ∧ parent_span_id t = None ∧
            ∃ v, hex_field 2 v ∧ py_strip h = traceparent_of v t
  | Raise e => e = InvalidTraceparentError ∧
               ¬ ∃ t v, valid_trace t ∧ hex_field 2 v ∧ py_strip h = traceparent_of v t
  end.
Proof.
  destruct (from_traceparent h) as [t|[]] eqn:Hh; [by apply from_traceparent_Ok|].
  split; [done|]. intros (t & v & Ht & Hv & Hs).
  assert (from_traceparent h = Ok (detached t)) as Hok; [|congruence].
  apply from_traceparent_Ok. split_and!; [by apply valid_detached|done|]. by exists v.
Qed.

(** A trace crosses a boundary through any propagator that honours the port: the
    span the receiver opens under the extracted context belongs to the sender's
    trace, has the sender's span as its parent and carries its flags. *)
Theorem trace_crosses_boundary `{Entropy R} `{!ITracePropagator R} carrier x t carrier' y :
  _trace_context x = Some t → valid_trace t →
  port_inject carrier x = (Ok carrier', x) →
  ∃ received span y',
    port_extract carrier' = Some received ∧ child received y = (Ok span, y') ∧
    trace_id span = trace_id t ∧ parent_span_id span = Some (span_id t) ∧
    trace_flags span = trace_flags t ∧ hex_field 16 (span_id span) ∧
    _trace_context y' = _trace_context y.
Proof.
  intros Hx Ht Hin. exists (detached t).
  pose proof (token_hex_field 8 (entropy y)) as Hhex.
  unfold child, generate_span_id, draw, bind, ret, _SPAN_ID_BYTES.
  destruct (token_hex 8 (entropy y)) as [sid r]. do 2 eexists.
  split_and!; [by eapply port_extract_inject|done..].
Qed.

(** ** Witnesses *)

(** An entropy source that counts *)
Fixpoint counter_digits (n : nat) (k : N) : string :=
  match n with
  | O => ""
  | S n' => String (hex_digit (k mod 16)%N) (counter_digits n' (k / 16)%N)
  end.

Lemma counter_digits_field n k : hex_field n (counter_digits n k).
Proof.
  revert k. induction n as [|n IH]; intros k; [done|].
  destruct (IH (k / 16)%N) as [Hh Hl]. split; simpl; [|by rewrite Hl].
  rewrite Hh, andb_true_r. assert (k mod 16 < 16)%N as Hm by (apply N.mod_lt; lia).
  revert Hm. generalize (k mod 16)%N. apply (below_16 _). decide_compute.
Qed.

#[export] Program Instance counter : Entropy N := {
  token_hex n k := (counter_digits (2 * n) k, (k + 1)%N);
}.
Next Obligation. intros. apply counter_digits_field. Qed.

Definition ex_trace : TraceContext :=
  mk_trace "0af7651916cd43dd8448eb211c80319c" "b7ad6b7169203331" (Some "00f067aa0ba902b7") 1.

Lemma ex_trace_valid : valid_trace ex_trace.
Proof. constructor; [split; [done|by vm_compute]..|done]. Qed.

Example ex_header :
  to_traceparent ex_trace = "00-0af7651916cd43dd8448eb211c80319c-b7ad6b7169203331-01".
Proof. vm_compute. reflexivity. Qed.

Lemma traceparent_roundtrip_witness :
  from_traceparent (" " +:+ to_traceparent ex_trace +:+ String "010" "") = Ok (detached ex_trace).
Proof. apply (traceparent_roundtrip ex_trace); [apply ex_trace_valid|reflexivity..]. Defined.

Lemma trace_crosses_boundary_witness :
  let carrier := [("traceparent", to_traceparent ex_trace)] in
  ∃ received span y',
    port_extract (R:=N) carrier = Some received ∧
    child received (mk_execution None 3%N) = (Ok span, y') ∧
    trace_id span = trace_id ex_trace ∧ parent_span_id span = Some (span_id ex_trace) ∧
    trace_flags span = trace_flags ex_trace ∧ hex_field 16 (span_id span) ∧
    _trace_context y' = None.
Proof.
  apply (trace_crosses_boundary [] (mk_execution (Some ex_trace) 7%N) ex_trace);
    [reflexivity|apply ex_trace_valid|vm_compute; reflexivity].
Defined.
