(* ===== verification/Aop.v ===== *)
(** * Aspect-oriented calls: pointcuts, advisors and the proxy handler

    [core/aop]: the pointcuts of an aspect ([aspect.py], [pointcut.py]), the
    default advice ([interfaces/aspect.py]), the advisor that runs the advice
    around a method ([advisor.py]) and the handler that chains the advisors of
    a method ([post_processor.py]). Which aspects a proxy carries, and in which
    order, is decided by [AspectPostProcessor] in [Container.v]; this file says
    what a call through the proxy does. *)

From S2P Require Import Prelude.

(** ** Pointcuts *)

Inductive pointcut_kind := Before | AfterReturning | AfterRaising | After | Around.

(** A method is identified by its name; a predicate of the user selects it. *)
Abbreviation method := string.

(** The [pointcuts] of an [Aspect], in the order of the dictionary: for each
    kind the predicate of the annotation on the advice method, if it has one *)
Record pointcuts := mk_pointcuts {
  before_pointcut : option (method → bool);
  after_returning_pointcut : option (method → bool);
  after_raising_pointcut : option (method → bool);
  after_pointcut : option (method → bool);
  around_pointcut : option (method → bool);
}.

Definition pointcut_list (ps : pointcuts) : list (pointcut_kind * option (method → bool)) :=
  [(Before, before_pointcut ps); (AfterReturning, after_returning_pointcut ps);
   (AfterRaising, after_raising_pointcut ps); (After, after_pointcut ps);
   (Around, around_pointcut ps)].

(** What [matches] is given: [callable(pod)] tells a method, and an object has
    the methods of [get_callable_methods]. *)
Record matched_object := mk_matched {
  as_callable : option method;
  get_callable_methods : list method;
}.

Definition method_object (m : method) : matched_object := mk_matched (Some m) [].

Definition advice_matches (adv : pointcut_kind * option (method → bool)) (m : method) : bool :=
  match adv.2 with Some pointcut => pointcut m | None => false end.

Definition matches (ps : pointcuts) (pod : matched_object) : bool :=
  match as_callable pod with
  | Some m => existsb (λ adv, advice_matches adv m) (pointcut_list ps)
  | None => false
  end ||
  existsb (λ adv, existsb (advice_matches adv) (get_callable_methods pod)) (pointcut_list ps).

(** ** Aspects and advisors *)

Section aop.
Context {S E Args A : Type}.
(** [isinstance(e, Exception)]: cancellation and interpreter exits are not. *)
Context (is_exception : E → bool).

Abbreviation func := (Args → comp S E A).

Record IAspect := mk_aspect {
  aspect_order : N;
  aspect_pointcuts : pointcuts;
  before : Args → comp S E unit;
  after_raising : E → comp S E unit;
  after_returning : A → comp S E unit;
  after : comp S E unit;
  around : func → func;
}.

(** The methods an aspect does not override *)
Definition default_before (args : Args) : comp S E unit := ret tt.
Definition default_after_raising (error : E) : comp S E unit := ret tt.
Definition default_after_returning (result : A) : comp S E unit := ret tt.
Definition default_after : comp S E unit := ret tt.
Definition default_around (joinpoint : func) : func := joinpoint.

(** [Advisor(instance, next)], called *)
Definition Advisor_call (instance : IAspect) (next : func) : func := λ args,
  before instance args ;;;
  try_finally
    (try_except
      (result <- around instance next args ;;
       after_returning instance result ;;;
       ret result)
      (λ e, if is_exception e then Some (after_raising instance e ;;; raise e) else None))
    (after instance).

(** ** The proxy handler *)

Record AspectProxyHandler := mk_handler {
  aspects : list IAspect;
  advisors_cache : list (method * func);
}.

Definition new_handler (l : list IAspect) : AspectProxyHandler := mk_handler l [].

Definition candidates (l : list IAspect) (m : method) : list IAspect :=
  List.filter (λ x, matches (aspect_pointcuts x) (method_object m)) l.

(** [for candidate in candidates: runnable = Advisor(candidate, runnable)] *)
Definition advise (l : list IAspect) (m : method) (target : func) : func :=
  foldl (λ runnable candidate, Advisor_call candidate runnable) target (candidates l m).

(** [call]: the runnable of the method, built at its first call, and the
    handler with its cache *)
Definition runnable_of (h : AspectProxyHandler) (m : method) (target : func)
    : func * AspectProxyHandler :=
  match dict_get m (advisors_cache h) with
  | Some r => (r, h)
  | None =>
      let r := advise (aspects h) m target in
      (r, mk_handler (aspects h) (dict_set m r (advisors_cache h)))
  end.

Definition call (h : AspectProxyHandler) (m : method) (target : func) (args : Args) (s : S)
    : outcome E A * S * AspectProxyHandler :=
  let '(r, h') := runnable_of h m target in (r args s, h').

(** [matched_aspects.sort(key=order, reverse=True)] is stable *)
Definition sort_aspects (l : list IAspect) : list IAspect :=
  sort_by (λ x y, aspect_order y <=? aspect_order x)%N l.

(** ** Specification: nested calls *)

(** The advice of [l] around a method, the first aspect outermost *)
Definition nest (l : list IAspect) (target : func) : func :=
  foldr Advisor_call target l.

Definition order_le (x y : IAspect) : Prop := (aspect_order x ≤ aspect_order y)%N.

(** The aspects of [l] that advise [m], outermost first *)
Definition advice_order (l : list IAspect) (m : method) : list IAspect :=
  reverse (candidates (sort_aspects l) m).

(** A sequence of calls through one proxy, and the same calls without handler
    or cache *)
Fixpoint call_all (target : method → func) (cs : list (method * Args)) (h : AspectProxyHandler)
    (s : S) : list (outcome E A) * S :=
  match cs with
  | [] => ([], s)
  | (m, args) :: cs' =>
      let '(r, s', h') := call h m (target m) args s in
      let '(rs, s'') := call_all target cs' h' s' in (r :: rs, s'')
  end.

Fixpoint nested_calls (l : list IAspect) (target : method → func) (cs : list (method * Args))
    (s : S) : list (outcome E A) * S :=
  match cs with
  | [] => ([], s)
  | (m, args) :: cs' =>
      let '(r, s') := nest (advice_order l m) (target m) args s in
      let '(rs, s'') := nested_calls l target cs' s' in (r :: rs, s'')
  end.

(** Every cached runnable is the one the handler would build. *)
Definition cache_ok (target : method → func) (h : AspectProxyHandler) : Prop :=
  ∀ m r, dict_get m (advisors_cache h) = Some r → r = advise (aspects h) m (target m).

(** *** Lemmas *)

Lemma advise_nest l m target :
  advise l m target = nest (reverse (candidates l m)) target.
Proof.
  unfold advise, nest. generalize (candidates l m). intros cs. revert target.
  induction cs as [|x cs IH]; intros target; [done|].
  rewrite reverse_cons, foldr_app. apply IH.
Qed.

Lemma runnable_of_ok target h m :
  cache_ok target h →
  (runnable_of h m (target m)).1 = advise (aspects h) m (target m) ∧
  cache_ok target (runnable_of h m (target m)).2 ∧
  aspects (runnable_of h m (target m)).2 = aspects h.
Proof.
  intros Hok. unfold runnable_of. destruct (dict_get m (advisors_cache h)) as [r|] eqn:Hm.
  - split_and!; [by apply Hok|done..].
  - split_and!; [done| |done]. intros m' r'. cbn. destruct (decide (m' = m)) as [->|Hne].
    + rewrite dict_get_set_eq. by intros [= <-].
    + rewrite dict_get_set_ne by done. apply Hok.
Qed.

Lemma call_all_nested l target cs h s :
  cache_ok target h → aspects h = sort_aspects l →
  call_all target cs h s = nested_calls l target cs s.
Proof.
  revert h s. induction cs as [|[m args] cs IH]; intros h s Hok Hl; [done|].
  destruct (runnable_of_ok target h m Hok) as (Hr & Hok' & Hl').
  cbn [call_all nested_calls]. unfold call.
  destruct (runnable_of h m (target m)) as [r h']; cbn in *.
  rewrite Hr, Hl, advise_nest. fold (advice_order l m).
  destruct (nest (advice_order l m) (target m) args s) as [o s'].
  rewrite IH; [done|done|congruence].
Qed.

Lemma candidates_filter l m x :
  x ∈ candidates l m ↔ x ∈ l ∧ matches (aspect_pointcuts x) (method_object m) = true.
Proof. unfold candidates. rewrite !list_elem_of_In, List.filter_In. done. Qed.

Lemma advice_order_elem l m x :
  x ∈ advice_order l m ↔ x ∈ l ∧ matches (aspect_pointcuts x) (method_object m) = true.
Proof.
  unfold advice_order, sort_aspects. rewrite elem_of_reverse, candidates_filter.
  by rewrite elem_of_sort_by.
Qed.

Lemma advice_order_sorted l m : StronglySorted order_le (advice_order l m).
Proof.
  unfold advice_order, candidates. apply StronglySorted_reverse, StronglySorted_filter.
  apply Sorted_StronglySorted.
  { intros x y z. unfold flip, order_le. lia. }
  eapply Sorted_weaken; [|apply sort_by_sorted].
  - intros x y H%N.leb_le. exact H.
  - intros x y. rewrite N.leb_gt, N.leb_le. lia.
Qed.
End aop.

Arguments mk_aspect {S E Args A}.
Arguments IAspect : clear implicits.
Arguments new_handler {S E Args A} l.

(** ** Lemmas on particular aspects *)

Section shapes.
Context {S X Args A : Type} (exc : X → bool).
Implicit Types x y : IAspect S X Args A.

(** An aspect with an [around] only *)
Lemma advisor_around_only x next args s :
  before x = default_before → after_raising x = default_after_raising →
  after_returning x = default_after_returning → after x = default_after →
  Advisor_call exc x next args s = around x next args s.
Proof.
  intros Hb Hr Ht Ha. unfold Advisor_call. rewrite Hb, Hr, Ht, Ha.
  unfold default_before, default_after_raising, default_after_returning, default_after.
  unfold bind, ret, try_finally, try_except, raise.
  destruct (around x next args s) as [[a|e] s']; [done|]. by destruct (exc e).
Qed.

(** An aspect with [after_returning] and [after] only *)
Lemma advisor_returning_only x next args s :
  before x = default_before → after_raising x = default_after_raising →
  around x = default_around →
  Advisor_call exc x next args s =
    try_finally (result <- next args ;; after_returning x result ;;; ret result) (after x) s.
Proof.
  intros Hb Hr Ha. unfold Advisor_call. rewrite Hb, Hr, Ha.
  unfold default_before, default_after_raising, default_around. unfold bind at 1, ret at 1.
  unfold try_finally. generalize (result <- next args ;; after_returning x result ;;; ret result)
    as body. intros body.
  unfold try_except, bind, raise, ret. destruct (body s) as [[a|e] s']; [done|].
  by destruct (exc e).
Qed.

(** A list sorted by distinct orders is determined by its elements. *)
Lemma sorted_pair x y l :
  l ≡ₚ [x; y] → StronglySorted order_le l → (aspect_order x < aspect_order y)%N → l = [x; y].
Proof.
  intros Hp Hs Hlt. destruct l as [|a [|b [|]]];
    try (apply Permutation_length in Hp; cbn in Hp; lia).
  apply Permutation_length_2_inv in Hp. destruct Hp as [Hl|Hl]; [by symmetry|].
  injection Hl as -> ->. inversion Hs as [|? ? _ Hf]; subst. inversion Hf as [|? ? Hle _]; subst.
  unfold order_le in Hle. lia.
Qed.
End shapes.

(** ** Properties *)

Section properties.
Context {S E Args A : Type} (is_exception : E → bool).
Abbreviation func := (Args → comp S E A).
Implicit Types l : list (IAspect S E Args A).

(** Whatever calls go through a proxy, and in whatever sequence, each behaves
    as the target wrapped by the advice of exactly the matching aspects of the
    proxy, nested by their order with the lowest outermost; the cache of
    advisors is not observable. *)
Theorem proxy_calls_nest_by_order l (target : method → func) cs s :
  call_all is_exception target cs (new_handler (sort_aspects l)) s
    = nested_calls is_exception l target cs s ∧
  ∀ m, StronglySorted order_le (advice_order l m) ∧
       ∀ x, x ∈ advice_order l m ↔
            x ∈ l ∧ matches (aspect_pointcuts x) (method_object m) = true.
Proof.
  split; [by apply call_all_nested|]. intros m. split; [apply advice_order_sorted|].
  intros x. apply advice_order_elem.
Qed.

(** An advisor does not look at the pointcut of each advice: one pointcut that
    selects the method activates every advice of the aspect. *)
Theorem one_pointcut_activates_every_advice (x : IAspect S E Args A) adv m (target : func) args s :
  adv ∈ pointcut_list (aspect_pointcuts x) → advice_matches adv m = true →
  (call is_exception (new_handler [x]) m target args s).1
    = Advisor_call is_exception x target args s.
Proof.
  intros Hin Hadv. unfold call, runnable_of, new_handler; cbn [advisors_cache dict_get aspects].
  unfold advise, candidates; cbn [List.filter]. unfold matches; cbn [as_callable method_object].
  replace (existsb _ _) with true; [done|]. symmetry. apply existsb_exists. exists adv.
  split; [by apply list_elem_of_In|done].
Qed.
End properties.

(** *** The order of advice, seen by aspects that only record it *)

Inductive advice_event :=
  | EBefore (n : N) | EReturned (n : N) | ERaised (n : N) | EAfter (n : N).

Section observers.
Context {S E Args A : Type} (is_exception : E → bool).
Abbreviation world := (S * list advice_event)%type.

Definition record_event (e : advice_event) : comp world E unit :=
  modify (λ w, (w.1, w.2 ++ [e])).

(** An aspect of order [n] that records its advice and leaves the call alone *)
Definition observer (n : N) : IAspect world E Args A :=
  mk_aspect n (mk_pointcuts None None None None (Some (λ _, true)))
    (λ _, record_event (EBefore n)) (λ _, record_event (ERaised n))
    (λ _, record_event (EReturned n)) (record_event (EAfter n)) default_around.

Definition closing (o : outcome E A) (n : N) : list advice_event :=
  match o with
  | Ok _ => [EReturned n]
  | Raise e => if is_exception e then [ERaised n] else []
  end ++ [EAfter n].

Definition unobserved (target : Args → comp S E A) : Args → comp world E A :=
  λ args w, let '(o, s) := target args w.1 in (o, (s, w.2)).

Lemma observer_call n (next : Args → comp world E A) args w o w' :
  next args (w.1, w.2 ++ [EBefore n]) = (o, w') →
  Advisor_call is_exception (observer n) next args w
    = (o, (w'.1, w'.2 ++ closing o n)).
Proof.
  intros Hnext. unfold Advisor_call, observer, default_around, try_finally, try_except, bind.
  cbn. rewrite Hnext. destruct o as [a|e]; cbn; [by rewrite <-app_assoc|].
  destruct (is_exception e); cbn; [by rewrite <-app_assoc|done].
Qed.

(** The advice of nested aspects opens in order and closes in reverse order,
    around one execution of the target: every [before] runs before it and every
    [after] after it, [after_returning] when it returned, [after_raising] when it
    raised an [Exception], and neither when it was cancelled. *)
Theorem advice_nests (ns : list N) (target : Args → comp S E A) args s log :
  let '(o, s') := target args s in
  nest is_exception (observer <$> ns) (unobserved target) args (s, log)
    = (o, (s', log ++ (EBefore <$> ns) ++ (reverse ns ≫= closing o))).
Proof.
  destruct (target args s) as [o s'] eqn:Ht. revert log.
  induction ns as [|n ns IH]; intros log; cbn [fmap list_fmap nest foldr].
  - unfold unobserved. cbn. rewrite Ht. by rewrite app_nil_r.
  - erewrite observer_call; [|apply IH]. cbn [fst snd].
    rewrite reverse_cons, bind_app, <-!app_assoc. cbn [mbind list_bind app].
    by rewrite app_nil_r.
Qed.
End observers.

(** ** Witnesses *)

(** An aspect whose [before] is meant for [audit] and whose [around], meant for
    [reload] only, answers in place of the method *)
Definition ex_overreaching : IAspect nat unit nat nat :=
  mk_aspect 0
    (mk_pointcuts (Some (λ m, bool_decide (m = "audit"))) None None None
       (Some (λ m, bool_decide (m = "reload"))))
    (λ _, modify S) default_after_raising default_after_returning default_after
    (λ _ _, ret 99%nat).

Lemma one_pointcut_activates_every_advice_witness :
  (call (λ _, true) (new_handler [ex_overreaching]) "audit" (λ n, ret n) 7 0).1
    = (Ok 99, 1)%nat.
Proof.
  apply (one_pointcut_activates_every_advice (λ _, true) ex_overreaching
           (Before, Some (λ m, bool_decide (m = "audit"))) "audit" (λ n, ret n) 7%nat 0%nat);
    [left|reflexivity].
Defined.
