(* ===== verification/Domain.v ===== *)
(** * Domain models: events, entities and aggregate roots

    [spakky-domain/models]: the equality, hash and order of events
    ([event.py]), the guarded attribute assignment of entities ([entity.py]) and
    the event list of aggregate roots ([aggregate_root.py]). The [validate]
    method of an entity is user code: it reads the attributes and returns or
    raises. The clock and the generator of version identifiers ([uuid7], a
    library) are the class [Stamps]. *)

From S2P Require Import Prelude.

(** ** Events *)

Inductive event_kind := DomainEvent | IntegrationEvent | OtherEvent.

(** [event_class] is the class of the event; [event_fields] are the fields the
    subclass adds. *)
Record AbstractEvent := mk_event {
  event_class : string;
  event_category : event_kind;
  event_id : N;
  timestamp : Z;
  event_fields : list (string * string);
}.

Global Instance event_kind_eq_dec : EqDecision event_kind.
Proof. solve_decision. Defined.
Global Instance event_eq_dec : EqDecision AbstractEvent.
Proof. solve_decision. Defined.

Definition event_name (e : AbstractEvent) : string := event_class e.
Definition clone (e : AbstractEvent) : AbstractEvent := e.

(** The classes of a program, ordered by [issubclass] *)
Class ClassHierarchy := {
  issubclass : string → string → bool;
  issubclass_refl c : issubclass c c = true;
  issubclass_antisym c d : issubclass c d = true → issubclass d c = true → c = d;
}.

Section event_comparison.
Context `{ClassHierarchy}.

(** [__eq__]: [isinstance(other, type(self))] and the identity *)
Definition event_eq (self other : AbstractEvent) : bool :=
  if negb (issubclass (event_class other) (event_class self)) then false
  else (event_id self =? event_id other)%N && (timestamp self =? timestamp other)%Z.

(** [a == b]: the operand whose class is a proper subclass answers first. *)
Definition event_equal (a b : AbstractEvent) : bool :=
  if issubclass (event_class b) (event_class a) && negb (bool_decide (event_class b = event_class a))
  then event_eq b a else event_eq a b.

(** [hash((event_id, timestamp))]: equal hashes for equal pairs *)
Definition event_hash (e : AbstractEvent) : N * Z := (event_id e, timestamp e).

Definition event_lt (a b : AbstractEvent) : bool := (timestamp a <? timestamp b)%Z.
Definition event_le (a b : AbstractEvent) : bool := (timestamp a <=? timestamp b)%Z.
Definition event_gt (a b : AbstractEvent) : bool := (timestamp b <? timestamp a)%Z.
Definition event_ge (a b : AbstractEvent) : bool := (timestamp b <=? timestamp a)%Z.

Lemma event_equal_spec a b :
  event_equal a b = true ↔
  event_class a = event_class b ∧ event_id a = event_id b ∧ timestamp a = timestamp b.
Proof.
  unfold event_equal, event_eq.
  destruct (issubclass (event_class b) (event_class a)) eqn:Hba; cbn [andb].
  - case_bool_decide as Hc; cbn [negb].
    + rewrite andb_true_iff, N.eqb_eq, Z.eqb_eq. naive_solver.
    + destruct (issubclass (event_class a) (event_class b)) eqn:Hab; cbn [negb].
      * by destruct Hc; apply issubclass_antisym.
      * naive_solver.
  - split; [done|]. intros (Hc & _). rewrite Hc, issubclass_refl in Hba. done.
Qed.
End event_comparison.

(** ** Entities *)

Inductive attr_value :=
  | VNone | VBool (b : bool) | VInt (z : Z) | VStr (s : string) | VUuid (n : N) | VTime (t : Z).

Global Instance attr_value_eq_dec : EqDecision attr_value.
Proof. solve_decision. Defined.

(** [if value:] *)
Definition truthy (v : attr_value) : bool :=
  match v with
  | VNone => false
  | VBool b => b
  | VInt z => negb (z =? 0)%Z
  | VStr s => negb (bool_decide (s = ""))
  | VUuid _ | VTime _ => true
  end.

(** [datetime.now(UTC)] and [uuid7()] *)
Class Stamps (W : Type) := {
  now : W → Z * W;
  uuid7 : W → N * W;
}.

Inductive domain_error (E : Type) :=
  | CannotMonkeyPatchEntityError
  | ValidationError (e : E).
Arguments CannotMonkeyPatchEntityError {E}.
Arguments ValidationError {E}.

(** The attributes visible through an instance: its dictionary over the
    defaults of its class *)
Abbreviation attributes := (gmap string attr_value).

(** A class of entities: the fields of its dataclass, the defaults that live on
    the class, and its [validate] method *)
Record entity_class (E : Type) := mk_entity_class {
  dataclass_fields : list string;
  class_defaults : attributes;
  validate : attributes → outcome E unit;
}.
Arguments mk_entity_class {E}.
Arguments dataclass_fields {E}.
Arguments class_defaults {E}.
Arguments validate {E}.

Record entity_state (W : Type) := mk_entity_state {
  attrs : attributes;
  stamps : W;
}.
Arguments mk_entity_state {W}.
Arguments attrs {W}.
Arguments stamps {W}.

Definition INITIALIZED : string := "_AbstractEntity__initialized".

Definition _AUTO_UPDATE_EXCLUDE_FIELDS : list string :=
  ["uid"; "version"; "created_at"; "updated_at"; INITIALIZED].

Section entity.
Context {E : Type} `{Stamps W} (cls : entity_class E).

Abbreviation action := (comp (entity_state W) (domain_error E)).

(** [getattr(self, name, None)] *)
Definition getattr (m : attributes) (name : string) : attr_value := default VNone (m !! name).

(** [super().__setattr__(name, value)] *)
Definition object_setattr (name : string) (v : attr_value) : action unit :=
  modify (λ s, mk_entity_state (<[name := v]> (attrs s)) (stamps s)).

Definition datetime_now : action attr_value := λ s,
  let '(t, w) := now (stamps s) in (Ok (VTime t), mk_entity_state (attrs s) w).
Definition new_version : action attr_value := λ s,
  let '(u, w) := uuid7 (stamps s) in (Ok (VUuid u), mk_entity_state (attrs s) w).

Definition run_validate : action unit :=
  s <- get_state ;; lift (map_error ValidationError (validate cls (attrs s))).

Definition __setattr__ (name : string) (v : attr_value) : action unit :=
  if bool_decide (name ∉ dataclass_fields cls) then raise CannotMonkeyPatchEntityError
  else
    s <- get_state ;;
    let old := getattr (attrs s) name in
    object_setattr name v ;;;
    s' <- get_state ;;
    if truthy (getattr (attrs s') INITIALIZED) then
      try_except
        (run_validate ;;;
         if bool_decide (name ∉ _AUTO_UPDATE_EXCLUDE_FIELDS) then
           t <- datetime_now ;; object_setattr "updated_at" t ;;;
           u <- new_version ;; object_setattr "version" u
         else ret tt)
        (λ e, Some (object_setattr name old ;;; raise e))
    else ret tt.

Definition __post_init__ : action unit :=
  run_validate ;;; __setattr__ INITIALIZED (VBool true).

(** The constructor of the dataclass: it assigns the initial values field by
    field, through [__setattr__], then calls [__post_init__]. *)
Definition construct (values : list (string * attr_value)) : action unit :=
  for_each (λ nv, __setattr__ nv.1 nv.2) values ;;; __post_init__.

(** [__eq__] of entities whose classes are [c] and [d] *)
Definition entity_eq `{ClassHierarchy} (c d : string) (self other : attributes) : bool :=
  if negb (issubclass d c) then false
  else bool_decide (getattr self "uid" = getattr other "uid").
End entity.

(** ** Aggregate roots *)

(** The private list [__events] of one aggregate *)
Abbreviation events := (list AbstractEvent).

Inductive aggregate_error := ValueError.

Definition add_event (e : AbstractEvent) (es : events) : events := es ++ [e].
Definition clear_events (es : events) : events := [].

(** [list.remove]: the first element that is equal *)
Fixpoint remove_event `{ClassHierarchy} (e : AbstractEvent) (es : events)
    : outcome aggregate_error events :=
  match es with
  | [] => Raise ValueError
  | x :: es' => if event_equal x e then Ok es' else cons x <$> remove_event e es'
  end.

(** ** Lemmas *)

Section entity_lemmas.
Context {E : Type} `{Stamps W} (cls : entity_class E).
Implicit Types s : entity_state W.

(** The attributes the framework itself maintains *)
Definition stamped (name : string) : Prop := name = "updated_at" ∨ name = "version".

(** Every field of the dataclass has a value. *)
Definition complete (m : attributes) : Prop :=
  ∀ n, n ∈ dataclass_fields cls → is_Some (m !! n).

(** The validator does not look at the stamps. *)
Definition ignores_stamps : Prop :=
  ∀ m n v, stamped n → validate cls (<[n := v]> m) = validate cls m.

Definition initialized (m : attributes) : bool := truthy (getattr m INITIALIZED).

(** What an assignment does on each branch *)
Lemma setattr_cases name v s :
  let m := <[name := v]> (attrs s) in
  __setattr__ cls name v s =
    if bool_decide (name ∉ dataclass_fields cls) then (Raise CannotMonkeyPatchEntityError, s)
    else if initialized m then
      match validate cls m with
      | Raise e => (Raise (ValidationError e),
                    mk_entity_state (<[name := getattr (attrs s) name]> (attrs s)) (stamps s))
      | Ok _ =>
          if bool_decide (name ∉ _AUTO_UPDATE_EXCLUDE_FIELDS) then
            let '(t, w) := now (stamps s) in
            let '(u, w') := uuid7 w in
            (Ok tt, mk_entity_state (<["version" := VUuid u]> (<["updated_at" := VTime t]> m)) w')
          else (Ok tt, mk_entity_state m (stamps s))
      end
    else (Ok tt, mk_entity_state m (stamps s)).
Proof.
  cbv zeta. unfold __setattr__. case_bool_decide as Hf; [done|].
  unfold bind at 1. cbn [get_state]. unfold object_setattr at 1, bind at 1, modify.
  unfold bind at 1. cbn [get_state attrs stamps]. fold (initialized (<[name:=v]> (attrs s))).
  destruct (initialized (<[name:=v]> (attrs s))); [|done].
  unfold try_except, run_validate, bind, get_state, lift. cbn [attrs stamps].
  destruct (validate cls (<[name:=v]> (attrs s))) as [[]|e]; cbn [map_error].
  - case_bool_decide; [|done]. unfold datetime_now, new_version, object_setattr, modify.
    cbn [attrs stamps]. destruct (now (stamps s)) as [t w]. cbn [attrs stamps].
    by destruct (uuid7 w) as [u w'].
  - unfold object_setattr, modify, raise. cbn [attrs stamps]. by rewrite insert_insert_eq.
Qed.

Lemma getattr_restore m name :
  is_Some (m !! name) → <[name := getattr m name]> m = m.
Proof. intros [v Hv]. unfold getattr. rewrite Hv. by apply insert_id. Qed.

Lemma complete_insert m n v : complete m → complete (<[n := v]> m).
Proof. intros Hm k Hk. rewrite lookup_insert_is_Some. destruct (decide (n = k)); auto. Qed.

Lemma getattr_insert_ne m n k v : n ≠ k → getattr (<[n := v]> m) k = getattr m k.
Proof. intros Hn. unfold getattr. by rewrite lookup_insert_ne. Qed.

(** What holds of an entity between two statements of a program *)
Definition entity_inv s : Prop :=
  complete (attrs s) ∧ (initialized (attrs s) = true → validate cls (attrs s) = Ok tt).

Lemma setattr_preserves_inv name v :
  ignores_stamps → preserves entity_inv (__setattr__ cls name v).
Proof.
  intros Hst s [Hc Hv]. rewrite setattr_cases. case_bool_decide as Hf; [by split|].
  destruct (initialized (<[name:=v]> (attrs s))) eqn:Hi; cbn [snd attrs].
  2: { split; [by apply complete_insert|]. cbn [snd attrs]. by rewrite Hi. }
  destruct (validate cls (<[name:=v]> (attrs s))) as [[]|e] eqn:Hval.
  - case_bool_decide as Hx.
    + destruct (now (stamps s)) as [t w], (uuid7 w) as [u w']; cbn [snd attrs].
      split; [by repeat apply complete_insert|]. intros _. cbn [snd attrs].
      rewrite (Hst _ "version") by by right. by rewrite (Hst _ "updated_at") by by left.
    + split; [by apply complete_insert|done].
  - cbn [snd attrs]. rewrite getattr_restore by by apply Hc. done.
Qed.

Lemma setattr_uninitialized name v s :
  name ≠ INITIALIZED → initialized (attrs s) = false → name ∈ dataclass_fields cls →
  __setattr__ cls name v s = (Ok tt, mk_entity_state (<[name := v]> (attrs s)) (stamps s)).
Proof.
  intros Hn Hi Hf. rewrite setattr_cases, bool_decide_false by (intros Hnf; done).
  unfold initialized in *. by rewrite getattr_insert_ne, Hi by done.
Qed.

Lemma assign_uninitialized values s :
  (∀ nv, nv ∈ values → nv.1 ≠ INITIALIZED ∧ nv.1 ∈ dataclass_fields cls) →
  initialized (attrs s) = false →
  for_each (λ nv, __setattr__ cls nv.1 nv.2) values s
    = (Ok tt, mk_entity_state (foldl (λ m nv, <[nv.1 := nv.2]> m) (attrs s) values) (stamps s)) ∧
  initialized (foldl (λ m nv, <[nv.1 := nv.2]> m) (attrs s) values) = false.
Proof.
  revert s. induction values as [|[n v] values IH]; intros s Hvs Hi; [by destruct s|].
  destruct (Hvs (n, v)) as [Hn Hf]; [by left|]. cbn [for_each foldl fst snd] in *.
  destruct (IH (mk_entity_state (<[n:=v]> (attrs s)) (stamps s))) as [Hrun Hni].
  - intros nv Hin. apply Hvs. by right.
  - unfold initialized. cbn [attrs]. by rewrite getattr_insert_ne by done.
  - unfold bind. rewrite setattr_uninitialized by done. split; [exact Hrun|exact Hni].
Qed.

Lemma foldl_insert_complete (values : list (string * attr_value)) (m : attributes) k :
  k ∈ values.*1 ∨ is_Some (m !! k) →
  is_Some (foldl (λ m nv, <[nv.1 := nv.2]> m) m values !! k).
Proof.
  revert m. induction values as [|[n v] values IH]; intros m; cbn.
  - intros [Hk|]; [by apply not_elem_of_nil in Hk|done].
  - rewrite elem_of_cons. intros H0. apply IH.
    destruct (decide (n = k)) as [->|Hnk]; [right; by rewrite lookup_insert_eq|].
    rewrite lookup_insert_ne by done. destruct H0 as [[->|]|]; [done|by left|by right].
Qed.

(** A construction that returns leaves a complete entity its validator accepts. *)
Lemma construct_establishes values s s' :
  (∀ nv, nv ∈ values → nv.1 ≠ INITIALIZED ∧ nv.1 ∈ dataclass_fields cls) →
  (∀ n, n ∈ dataclass_fields cls → n ∈ values.*1 ∨ is_Some (attrs s !! n)) →
  initialized (attrs s) = false →
  construct cls values s = (Ok tt, s') →
  entity_inv s' ∧ initialized (attrs s') = true.
Proof.
  intros Hvs Hall Hi Hrun. unfold construct in Hrun.
  destruct (assign_uninitialized values s Hvs Hi) as [Has _].
  apply bind_Ok_inv in Hrun as ([] & s1 & Hs1 & Hrun). rewrite Has in Hs1. injection Hs1 as <-.
  set (m := foldl _ _ _) in *.
  apply bind_Ok_inv in Hrun as ([] & s2 & Hval & Hrun).
  assert (s2 = mk_entity_state m (stamps s)) as ->.
  { revert Hval. unfold run_validate, bind, get_state, lift. by intros [= _ <-]. }
  rewrite setattr_cases in Hrun. case_bool_decide as Hf; [done|].
  assert (initialized (<[INITIALIZED:=VBool true]> m) = true) as Hinit
    by (unfold initialized, getattr; by rewrite lookup_insert_eq).
  cbn [attrs stamps] in Hrun. rewrite Hinit in Hrun.
  destruct (validate cls (<[INITIALIZED:=VBool true]> m)) as [[]|e] eqn:Hv; [|done].
  rewrite bool_decide_false in Hrun by (intros Hx; apply Hx; vm_compute; set_solver).
  injection Hrun as <-. repeat split; cbn [attrs]; [|done|done].
  apply complete_insert. intros k Hk. apply foldl_insert_complete. auto.
Qed.
Lemma setattr_effect name v s s' o :
  complete (attrs s) → __setattr__ cls name v s = (o, s') →
  match o with
  | Raise _ => s' = s
  | Ok _ =>
      getattr (attrs s') name = v ∧
      (∀ k, k ≠ name → ¬ stamped k → attrs s' !! k = attrs s !! k) ∧
      if initialized (<[name := v]> (attrs s)) && bool_decide (name ∉ _AUTO_UPDATE_EXCLUDE_FIELDS)
      then getattr (attrs s') "updated_at" = VTime (now (stamps s)).1 ∧
           getattr (attrs s') "version" = VUuid (uuid7 (now (stamps s)).2).1
      else stamps s' = stamps s ∧ (∀ k, k ≠ name → attrs s' !! k = attrs s !! k)
  end.
Proof.
  intros Hc. rewrite setattr_cases. case_bool_decide as Hf; [by intros [= <- <-]|].
  destruct (initialized (<[name:=v]> (attrs s))) eqn:Hi; cbn [andb].
  2: { intros [= <- <-]. unfold getattr. cbn. rewrite lookup_insert_eq.
       split_and!; try done; intros; by rewrite lookup_insert_ne by congruence. }
  destruct (validate cls (<[name:=v]> (attrs s))) as [[]|e].
  2: { intros [= <- <-]. rewrite getattr_restore by by apply Hc. by destruct s. }
  case_bool_decide as Hx.
  2: { intros [= <- <-]. unfold getattr. cbn. rewrite lookup_insert_eq.
       split_and!; try done; intros; by rewrite lookup_insert_ne by congruence. }
  destruct (now (stamps s)) as [t w] eqn:Hnow; cbn [snd fst].
  destruct (uuid7 w) as [u w'] eqn:Hu; cbn [snd fst]. intros [= <- <-].
  assert (name ≠ "updated_at" ∧ name ≠ "version") as [Hn1 Hn2].
  { split; intros ->; apply Hx; vm_compute; set_solver. }
  unfold getattr. cbn [attrs]. split_and!.
  - by rewrite !lookup_insert_ne, lookup_insert_eq by congruence.
  - intros k Hk Hst. unfold stamped in Hst. apply Decidable.not_or in Hst as [].
    by rewrite !lookup_insert_ne by congruence.
  - by rewrite lookup_insert_ne, lookup_insert_eq by congruence.
  - by rewrite lookup_insert_eq.
Qed.

End entity_lemmas.

(** ** Properties *)

Section entity_properties.
Context {E : Type} `{Stamps W} (cls : entity_class E).

(** An assignment to an entity is atomic: one that raises leaves every
    attribute and the generators as they were; one that returns changed the
    named attribute to the given value, moved [updated_at] and [version] to fresh
    stamps exactly when a business attribute of an initialized entity was
    assigned, and touched nothing else. *)
Theorem entity_assignment_atomic name v s s' o :
  complete cls (attrs s) → __setattr__ cls name v s = (o, s') →
  match o with
  | Raise _ => s' = s
  | Ok _ =>
      getattr (attrs s') name = v ∧
      (∀ k, k ≠ name → ¬ stamped k → attrs s' !! k = attrs s !! k) ∧
      if initialized (<[name := v]> (attrs s)) && bool_decide (name ∉ _AUTO_UPDATE_EXCLUDE_FIELDS)
      then getattr (attrs s') "updated_at" = VTime (now (stamps s)).1 ∧
           getattr (attrs s') "version" = VUuid (uuid7 (now (stamps s)).2).1
      else stamps s' = stamps s ∧ (∀ k, k ≠ name → attrs s' !! k = attrs s !! k)
  end.
Proof. apply setattr_effect. Qed.

(** A program that assigns attributes and survives the errors *)
Definition attempt (nv : string * attr_value) : comp (entity_state W) (domain_error E) unit :=
  try_except (__setattr__ cls nv.1 nv.2) (λ _, Some (ret tt)).

Lemma attempt_keeps n v s :
  ignores_stamps cls → n ≠ INITIALIZED → entity_inv cls s → initialized (attrs s) = true →
  entity_inv cls (attempt (n, v) s).2 ∧ initialized (attrs (attempt (n, v) s).2) = true.
Proof.
  intros Hst Hn Hinv Hinit. pose proof (setattr_preserves_inv cls n v Hst s Hinv) as Hinv'.
  assert (entity_inv cls (__setattr__ cls n v s).2 ∧
          initialized (attrs (__setattr__ cls n v s).2) = true) as Hboth.
  { split; [done|]. destruct (__setattr__ cls n v s) as [o s'] eqn:Hrun.
    apply setattr_effect in Hrun; [|apply Hinv]. destruct o as [u|e]; [|by subst].
    destruct Hrun as (_ & Hrest & _). unfold initialized, getattr in *. cbn [snd].
    rewrite Hrest; [done|done|]. unfold stamped, INITIALIZED. naive_solver. }
  unfold attempt, try_except. cbn [fst snd].
  by destruct (__setattr__ cls n v s) as [[]].
Qed.

(** An entity is always valid: after its construction returned, its
    validator accepts it after any sequence of assignments, whether each of them
    succeeded or raised, provided the validator does not read the stamps and the
    program does not reset the private flag. *)
Theorem constructed_entity_stays_valid values program s s1 :
  ignores_stamps cls →
  (∀ nv, nv ∈ values → nv.1 ≠ INITIALIZED ∧ nv.1 ∈ dataclass_fields cls) →
  (∀ n, n ∈ dataclass_fields cls → n ∈ values.*1 ∨ is_Some (attrs s !! n)) →
  initialized (attrs s) = false →
  (∀ nv, nv ∈ program → nv.1 ≠ INITIALIZED) →
  construct cls values s = (Ok tt, s1) →
  let s2 := (for_each attempt program s1).2 in
  initialized (attrs s2) = true ∧ validate cls (attrs s2) = Ok tt.
Proof.
  intros Hst Hvs Hall Hi Hp Hrun s2.
  destruct (construct_establishes cls values s s1 Hvs Hall Hi Hrun) as [Hinv Hinit].
  enough (entity_inv cls s2 ∧ initialized (attrs s2) = true) as [[_ Hv] Hi2] by auto.
  clear Hrun. revert s1 Hinv Hinit s2.
  induction program as [|[n v] program IH]; intros s1 Hinv Hinit; [done|].
  destruct (attempt_keeps n v s1 Hst (Hp (n, v) (list_elem_of_here _ _)) Hinv Hinit)
    as [Hinv' Hinit'].
  specialize (IH (λ nv Hin, Hp nv (list_elem_of_further _ _ _ Hin)) _ Hinv' Hinit').
  cbn [for_each]. unfold bind. destruct (attempt (n, v) s1) as [[[]|e] s1'] eqn:Ha; [exact IH|].
  revert Ha. unfold attempt, try_except.
  by destruct (__setattr__ cls n v s1) as [[]].
Qed.
End entity_properties.

(** Equality of events is an equivalence that neither the direction of the
    comparison nor a subclass relation disturbs: two events are equal exactly
    when they are of the same class and have the same identity and time; equal
    events hash alike, and neither precedes the other. *)
Theorem event_equality_equivalence `{ClassHierarchy} :
  Equivalence (λ a b, event_equal a b = true) ∧
  ∀ a b, event_equal a b = true →
    event_class a = event_class b ∧ event_hash a = event_hash b ∧
    event_lt a b = false ∧ event_le a b = true ∧ event_ge a b = true.
Proof.
  split.
  - split; red; intros *; rewrite !event_equal_spec; naive_solver congruence.
  - intros a b (Hc & Hid & Ht)%event_equal_spec.
    unfold event_hash, event_lt, event_le, event_ge. rewrite Hid, Ht.
    rewrite Z.ltb_irrefl, Z.leb_refl. done.
Qed.

(** Two unrelated classes are never subclasses of one another. *)
Definition flat_subclass (c d : string) : bool :=
  bool_decide (c = d ∨ d = "AbstractEvent").

#[export] Instance flat_hierarchy : ClassHierarchy.
Proof.
  refine {| issubclass := flat_subclass |}.
  - intros c. apply bool_decide_eq_true. by left.
  - intros c d H1%bool_decide_eq_true H2%bool_decide_eq_true. naive_solver.
Defined.

(** ** Witnesses: an account that may not be overdrawn *)

#[export] Instance ticks : Stamps N := { now n := (Z.of_N n, n + 1)%N; uuid7 n := (n, n + 1)%N }.

Definition ex_account : entity_class string :=
  mk_entity_class ["uid"; "balance"; "updated_at"; "version"; INITIALIZED]
    {[ INITIALIZED := VBool false ]}
    (λ m, match getattr m "balance" with
          | VInt z => if (z <? 0)%Z then Raise "overdrawn" else Ok tt
          | _ => Raise "no balance"
          end).

Definition ex_values : list (string * attr_value) :=
  [("uid", VInt 1); ("balance", VInt 10); ("updated_at", VTime 0); ("version", VUuid 0)].

Definition ex_new : entity_state N := mk_entity_state (class_defaults ex_account) 5%N.
Definition ex_constructed : entity_state N := (construct ex_account ex_values ex_new).2.

Lemma ex_account_ignores_stamps : ignores_stamps ex_account.
Proof.
  intros m n v [-> | ->]; cbn; by rewrite getattr_insert_ne.
Qed.

Lemma entity_assignment_atomic_witness :
  (__setattr__ ex_account "balance" (VInt (-5)) ex_constructed).2 = ex_constructed.
Proof.
  apply (entity_assignment_atomic ex_account "balance" (VInt (-5)) ex_constructed _
           (Raise (ValidationError "overdrawn"))).
  - intros n. unfold ex_account. cbn [dataclass_fields]. rewrite !elem_of_cons, elem_of_nil.
    intros Hn. destruct_or? Hn; subst; try done; vm_compute; eauto.
  - apply pair_fst_eq. vm_compute. reflexivity.
Defined.

Lemma constructed_entity_stays_valid_witness :
  let s := (for_each (attempt ex_account) [("balance", VInt (-5)); ("balance", VInt 3)]
              ex_constructed).2 in
  initialized (attrs s) = true ∧ validate ex_account (attrs s) = Ok tt.
Proof.
  apply (constructed_entity_stays_valid ex_account ex_values _ ex_new ex_constructed).
  - apply ex_account_ignores_stamps.
  - intros nv. unfold ex_values. rewrite !elem_of_cons, elem_of_nil.
    intros Hn. destruct_or? Hn; subst; try done; (split; [done|decide_compute]).
  - intros n. unfold ex_account. cbn [dataclass_fields]. rewrite !elem_of_cons, elem_of_nil.
    intros Hn. destruct_or? Hn; subst; try done; try (left; decide_compute); right; vm_compute; eauto.
  - reflexivity.
  - intros nv. rewrite !elem_of_cons, elem_of_nil. intros Hn.
    destruct_or? Hn; subst; done.
  - apply pair_fst_eq. vm_compute. reflexivity.
Defined.
