(* ===== verification/Data.v ===== *)
(** * Transactions and the aggregates they touch

    [spakky-data]: the context manager of a transaction
    ([persistency/transaction.py]), the aspect that runs a [transactional]
    method inside one ([aspects/transactional.py]) and the collector of the
    aggregates a transaction saved ([persistency/aggregate_collector.py]). The
    four operations of a transaction are abstract methods: a [Record] of
    operations, with the class [TransactionLaws] for what a database session
    behind them promises. The asynchronous twins run the same statements with
    [await] before each. *)

From S2P Require Import Prelude Aop.

(** ** Transactions *)

Section transaction.
Context {S E : Type}.

Record AbstractTransaction := mk_transaction {
  autocommit_enabled : bool;
  initialize : comp S E unit;
  dispose : comp S E unit;
  commit : comp S E unit;
  rollback : comp S E unit;
}.

Definition __enter__ (t : AbstractTransaction) : comp S E unit := initialize t.

(** [__exit__]: [failed] tells that the block raised. It returns [None], so the
    exception of the block goes on. *)
Definition __exit__ (t : AbstractTransaction) (failed : bool) : comp S E unit :=
  if failed then rollback t ;;; dispose t
  else
    try_finally
      (try_except (if autocommit_enabled t then commit t else ret tt)
         (λ e, Some (rollback t ;;; raise e)))
      (dispose t).

(** [with transaction: body] *)
Definition with_transaction {A} (t : AbstractTransaction) (body : comp S E A) : comp S E A :=
  __enter__ t ;;;
  λ s, match body s with
       | (Ok a, s1) => (__exit__ t false ;;; ret a) s1
       | (Raise e, s1) => (__exit__ t true ;;; raise e) s1
       end.

(** *** The aspect *)

(** [Transactional.exists(x) and not iscoroutinefunction(x)] *)
Definition transactional_pointcut (is_transactional is_coroutine : method → bool)
    (m : method) : bool :=
  is_transactional m && negb (is_coroutine m).

Definition TransactionalAspect_around {Args A} (t : AbstractTransaction)
    (joinpoint : Args → comp S E A) (args : Args) : comp S E A :=
  with_transaction t (joinpoint args).

(** [@Order(0)] and the pointcut on [around]; the other advice is inherited. *)
Definition TransactionalAspect {Args A} (is_transactional is_coroutine : method → bool)
    (t : AbstractTransaction) : IAspect S E Args A :=
  mk_aspect 0
    (mk_pointcuts None None None None
       (Some (transactional_pointcut is_transactional is_coroutine)))
    default_before default_after_raising default_after_returning default_after
    (TransactionalAspect_around t).
End transaction.
Arguments AbstractTransaction : clear implicits.
Arguments mk_transaction {S E}.

(** ** The collector

    It tracks references: the same aggregate saved twice is listed twice. *)

Abbreviation aggregate_ref := nat.

Record AggregateCollector := mk_collector { _aggregates : list aggregate_ref }.

Definition new_collector : AggregateCollector := mk_collector [].
Definition collect (a : aggregate_ref) (c : AggregateCollector) : AggregateCollector :=
  mk_collector (_aggregates c ++ [a]).
Definition all (c : AggregateCollector) : list aggregate_ref := _aggregates c.
Definition clear (c : AggregateCollector) : AggregateCollector := mk_collector [].

(** ** What a database session promises

    [durable s] is what other sessions see, [working s] what the open session
    sees. A commit that raises has not committed; closing the session loses what
    was not committed and does not raise. *)

Class ExitLaws {S E D : Type} (t : AbstractTransaction S E) (durable : S → D) (working : S → option D) := {
  commit_durable s s' d : commit t s = (Ok tt, s') → working s = Some d → durable s' = d;
  commit_raise s e s' : commit t s = (Raise e, s') → durable s' = durable s;
  rollback_durable s : durable (rollback t s).2 = durable s;
  dispose_durable s : durable (dispose t s).2 = durable s;
  dispose_returns s : (dispose t s).1 = Ok tt;
}.
Class TransactionLaws {S E D : Type} (t : AbstractTransaction S E)
    (durable : S → D) (working : S → option D) := {
  transaction_exit :: ExitLaws t durable working;
  initialize_durable s : durable (initialize t s).2 = durable s;
  initialize_working s s' : initialize t s = (Ok tt, s') → working s' = Some (durable s);
}.

Global Instance with_transaction_proper {S E A} (t : AbstractTransaction S E) :
  Proper ((≡) ==> (≡)) (@with_transaction S E A t).
Proof.
  intros m m' Hm s. unfold with_transaction, bind at 1. unfold bind at 3.
  destruct (__enter__ t s) as [[u|e] s1]; [|done]. by rewrite Hm.
Qed.

Section transaction_lemmas.
Context {S E D : Type} (t : AbstractTransaction S E) (durable : S → D) (working : S → option D).
Context `{!ExitLaws t durable working}.

Lemma preserves_value {X A} (f : S → X) (m : comp S E A) x :
  (∀ s, f (m s).2 = f s) → preserves (λ s, f s = x) m.
Proof. intros Hm s Hs. by rewrite Hm. Qed.

(** Leaving the block after an exception changes nothing durable. *)
Lemma exit_failed_durable {A} (e : E) s :
  durable ((__exit__ t true ;;; raise e : comp S E A) s).2 = durable s ∧
  ∃ e', ((__exit__ t true ;;; raise e : comp S E A) s).1 = Raise e'.
Proof.
  unfold __exit__, bind, raise. pose proof (rollback_durable s) as Hr.
  destruct (rollback t s) as [[[]|e1] s1]; cbn in *; [|by eauto].
  pose proof (dispose_durable s1) as Hd.
  destruct (dispose t s1) as [[[]|e2] s2]; cbn in *; (split; [congruence|eauto]).
Qed.

(** Leaving it after the body returned commits the session's work, or raises
    and changes nothing durable. *)
Lemma exit_committed s d :
  working s = Some d → autocommit_enabled t = true →
  match __exit__ t false s with
  | (Ok _, s') => durable s' = d
  | (Raise _, s') => durable s' = durable s
  end.
Proof.
  intros Hw Hauto. unfold __exit__, try_finally, try_except, bind, raise. rewrite Hauto.
  destruct (commit t s) as [[[]|e] s1] eqn:Hc.
  - pose proof (commit_durable s s1 d Hc Hw). pose proof (dispose_durable s1) as Hd.
    pose proof (dispose_returns s1) as Hdr.
    destruct (dispose t s1) as [[[]|e2] s2]; cbn in *; [congruence|done].
  - pose proof (commit_raise s e s1 Hc) as Hc'. pose proof (rollback_durable s1) as Hr.
    destruct (rollback t s1) as [[[]|e1] s2]; cbn in *;
      pose proof (dispose_durable s2) as Hd;
      destruct (dispose t s2) as [[[]|e2] s3]; cbn in *; congruence.
Qed.

(** The end of the block, after the body *)
Lemma exit_cases {A} (o : outcome E A) s :
  autocommit_enabled t = true → is_Some (working s) →
  match (match o with Ok a => __exit__ t false ;;; ret a | Raise e => __exit__ t true ;;; raise e end : comp S E A) s with
  | (Ok a, s') => o = Ok a ∧ working s = Some (durable s')
  | (Raise e, s') => durable s' = durable s
  end.
Proof.
  intros Hauto [d Hd]. destruct o as [a|e].
  - pose proof (exit_committed s d Hd Hauto) as Hx. unfold bind.
    destruct (__exit__ t false s) as [[[]|e] s']; cbn; [|done]. by rewrite Hx.
  - destruct (exit_failed_durable (A:=A) e s) as [Hx [e' He']].
    destruct ((__exit__ t true ;;; raise e : comp S E A) s) as [[a'|e2] s']; cbn in *; [congruence|done].
Qed.

Lemma with_transaction_opened {A} (body : comp S E A) s s1 :
  autocommit_enabled t = true → initialize t s = (Ok tt, s1) →
  durable (body s1).2 = durable s1 → is_Some (working (body s1).2) →
  match with_transaction t body s with
  | (Ok a, s') => (body s1).1 = Ok a ∧ working (body s1).2 = Some (durable s')
  | (Raise e, s') => durable s' = durable s1
  end.
Proof.
  intros Hauto Hi Hbody Hopen. unfold with_transaction, bind at 1, __enter__. rewrite Hi.
  destruct (body s1) as [o s2]; cbn [fst snd] in *. pose proof (exit_cases o s2 Hauto Hopen) as Hx.
  destruct o as [a|e]; revert Hx.
  - destruct ((__exit__ t false ;;; ret a) s2) as [[a'|e] s3]; [done|congruence].
  - destruct ((__exit__ t true ;;; raise e : comp S E A) s2) as [[a'|e'] s3]; [by intros []|congruence].
Qed.
End transaction_lemmas.

Lemma with_transaction_cases {S E D A} (t : AbstractTransaction S E) (durable : S → D) (working : S → option D)
    `{!TransactionLaws t durable working} (body : comp S E A) s :
  autocommit_enabled t = true →
  (∀ s1, durable (body s1).2 = durable s1) →
  (∀ s1, is_Some (working s1) → is_Some (working (body s1).2)) →
  match with_transaction t body s with
  | (Ok a, s') => ∃ s1 s2, initialize t s = (Ok tt, s1) ∧ body s1 = (Ok a, s2) ∧
                           working s2 = Some (durable s')
  | (Raise e, s') => durable s' = durable s
  end.
Proof.
  intros Hauto Hbody Hopen. pose proof (initialize_durable s) as Hi.
  destruct (initialize t s) as [[[]|e] s1] eqn:His; cbn in Hi.
  - pose proof (with_transaction_opened t durable working body s s1 Hauto His (Hbody s1)
      (Hopen s1 ltac:(rewrite (initialize_working s s1 His); by eexists))) as Hx.
    destruct (with_transaction t body s) as [[a|e] s']; [|congruence]. destruct Hx as [Ho Hw].
    exists s1, (body s1).2. split_and!; [done| |done]. by destruct (body s1) as [o s2]; cbn in *; subst o.
  - unfold with_transaction, bind, __enter__. by rewrite His.
Qed.

(** ** Properties *)

(** A transactional block is all or nothing: when it returns, what the
    session saw at the end of the body is durable; when anything in it raises -
    opening the session, the body, the commit, the rollback - nothing has become
    durable. *)
Theorem transaction_atomic {S E D A : Type} (t : AbstractTransaction S E)
    (durable : S → D) (working : S → option D) `{!TransactionLaws t durable working}
    (body : comp S E A) s :
  autocommit_enabled t = true →
  (∀ s1, durable (body s1).2 = durable s1) →
  (∀ s1, is_Some (working s1) → is_Some (working (body s1).2)) →
  match with_transaction t body s with
  | (Ok a, s') => ∃ s1 s2, initialize t s = (Ok tt, s1) ∧ body s1 = (Ok a, s2) ∧
                           working s2 = Some (durable s')
  | (Raise e, s') => durable s' = durable s
  end.
Proof. apply with_transaction_cases. done. Qed.

(** A rollback that raises after the body raised ends the exit at once: the
    session is not disposed, and the error of the rollback hides that of the
    body. After a failed commit the session is disposed in every case. *)
Theorem failed_rollback_skips_dispose {S E A : Type} (t : AbstractTransaction S E)
    (body : comp S E A) s s1 s2 s3 e e' :
  initialize t s = (Ok tt, s1) → body s1 = (Raise e, s2) → rollback t s2 = (Raise e', s3) →
  with_transaction t body s = (Raise e', s3).
Proof.
  intros Hi Hb Hr. unfold with_transaction, __enter__, __exit__, bind.
  by rewrite Hi, Hb, Hr.
Qed.

(** ** Witnesses: a session over one cell *)

Record cell := mk_cell { cell_durable : nat; cell_working : option nat; commits_fail : bool }.

Definition ex_transaction : AbstractTransaction cell string := mk_transaction true
  (modify (λ c, mk_cell (cell_durable c) (Some (cell_durable c)) (commits_fail c)))
  (modify (λ c, mk_cell (cell_durable c) None (commits_fail c)))
  (c <- get_state ;;
   if commits_fail c then raise "serialization failure"
   else modify (λ c, mk_cell (default (cell_durable c) (cell_working c)) (cell_working c) false))
  (modify (λ c, mk_cell (cell_durable c) (Some (cell_durable c)) (commits_fail c))).

#[export] Instance ex_transaction_laws : TransactionLaws ex_transaction cell_durable cell_working.
Proof.
  split; [split|..]; try done.
  - intros [d w [|]] s' d'; cbn; [done|]. by intros [= <-] ->.
  - by intros [d w [|]] e s'; cbn; [intros [= _ <-]|].
  - by intros [d w f] s' [= <-].
Qed.

Definition ex_write (n : nat) : comp cell string nat :=
  modify (λ c, mk_cell (cell_durable c) ((λ _, n) <$> cell_working c) (commits_fail c)) ;;;
  if decide (n < 5)%nat then ret n else raise "too large".

Lemma transaction_atomic_witness :
  match with_transaction ex_transaction (ex_write 3) (mk_cell 1 None false) with
  | (Ok a, s') => ∃ s1 s2, initialize ex_transaction (mk_cell 1 None false) = (Ok tt, s1) ∧
                    ex_write 3 s1 = (Ok a, s2) ∧ cell_working s2 = Some (cell_durable s')
  | (Raise e, s') => cell_durable s' = 1%nat
  end.
Proof.
  apply (transaction_atomic ex_transaction cell_durable cell_working (ex_write 3)
    (mk_cell 1 None false)); [done..|].
  intros s1 [x Hx]. cbn. rewrite Hx. by eexists.
Defined.

Lemma failed_rollback_skips_dispose_witness :
  let t := mk_transaction true (modify S) (modify (λ _, 0%nat)) (ret tt) (raise "lost") in
  with_transaction t (raise "first" : comp nat string unit) 0%nat = (Raise "lost", 1%nat).
Proof. by apply (failed_rollback_skips_dispose _ _ 0%nat 1%nat 1%nat 1%nat "first"). Defined.
