(* ===== verification/ValueObject.v ===== *)
(** * Value objects

    [core/spakky-domain/models/value_object.py]: objects without identity, equal by
    their attributes, frozen, validated when they are made, and whose classes are
    checked for fields that cannot be hashed. [astuple] is the one of
    [dataclasses]. *)

From S2P Require Import Prelude Domain.

(** ** Values of fields

    An object is an instance of a dataclass with its field values in the order of
    the class; [Atom] is any other value that is compared by equality and hashed. *)
Inductive field_value :=
  | Atom (n : Z)
  | Tuple (l : list field_value)
  | List_ (l : list field_value)
  | Object (cls : string) (fields : list field_value).

(** [dataclasses.astuple] goes into dataclasses, lists and tuples. *)
Fixpoint astuple (v : field_value) : field_value :=
  match v with
  | Atom n => Atom n
  | Tuple l => Tuple (map astuple l)
  | List_ l => List_ (map astuple l)
  | Object _ fields => Tuple (map astuple fields)
  end.

#[global] Instance field_value_eq_dec : EqDecision field_value.
Proof.
  refine (fix go (v w : field_value) : Decision (v = w) :=
    match v, w with
    | Atom n, Atom m => cast_if (decide (n = m))
    | Tuple l, Tuple k | List_ l, List_ k =>
        cast_if ((fix all l k : Decision (l = k) :=
            match l, k with
            | [], [] => left _
            | x :: l', y :: k' => cast_if_and (go x y) (all l' k')
            | _, _ => right _
            end) l k)
    | Object c l, Object d k =>
        cast_if_and (decide (c = d)) ((fix all l k : Decision (l = k) :=
            match l, k with
            | [], [] => left _
            | x :: l', y :: k' => cast_if_and (go x y) (all l' k')
            | _, _ => right _
            end) l k)
    | _, _ => right _
    end); congruence.
Defined.

(** What [hash] needs: no list inside *)
Fixpoint hashable (v : field_value) : bool :=
  match v with
  | Atom _ => true
  | Tuple l => forallb hashable l
  | List_ _ => false
  | Object _ fields => forallb hashable fields
  end.

(** ** The class *)

Record value_object := mk_value_object { value_class : string; value_fields : list field_value }.
Definition as_tuple (o : value_object) : field_value := astuple (Object (value_class o) (value_fields o)).

(** [clone] returns the object itself: it is frozen. *)
Definition clone_value (o : value_object) : value_object := o.

Section comparison.
Context `{ClassHierarchy}.

Definition value_eq (self other : value_object) : bool :=
  if negb (issubclass (value_class other) (value_class self)) then false
  else bool_decide (as_tuple self = as_tuple other).
(** [a == b]: the operand whose class is a proper subclass answers first. *)
Definition value_equal (a b : value_object) : bool :=
  if issubclass (value_class b) (value_class a) && negb (bool_decide (value_class b = value_class a))
  then value_eq b a else value_eq a b.

(** [hash(astuple(self))]; [TypeError] for a list inside *)
Context (hash_tuple : field_value → Z).
Inductive value_error (E : Type) := TypeError | UnhashableFieldTypeError (field_name : string) | ValidationError (e : E).
Arguments TypeError {E}.
Arguments UnhashableFieldTypeError {E} field_name.
Arguments ValidationError {E} e.
Definition value_hash {E} (o : value_object) : outcome (value_error E) Z :=
  if hashable (as_tuple o) then Ok (hash_tuple (as_tuple o)) else Raise TypeError.

(** The constructor: [__post_init__] runs [validate]. *)
Definition construct_value {E} (validate : value_object → outcome E unit) (o : value_object) : outcome (value_error E) value_object :=
  match validate o with Ok _ => Ok o | Raise e => Raise (ValidationError e) end.

(** What an annotation of a class is: a class, with or without [__hash__], a
    subscripted type, or the text of a postponed annotation; the last two are
    objects that have a hash. *)
Inductive field_annotation := Class_ (has_hash : bool) | Subscripted | Text.
Fixpoint __init_subclass__ {E} (annotations : list (string * field_annotation)) : outcome (value_error E) unit :=
  match annotations with
  | [] => Ok tt
  | (name, Class_ false) :: _ => Raise (UnhashableFieldTypeError name)
  | _ :: annotations' => __init_subclass__ annotations'
  end.

Lemma value_equal_spec a b :
  value_equal a b = true ↔ value_class a = value_class b ∧ as_tuple a = as_tuple b.
Proof.
  unfold value_equal, value_eq.
  destruct (issubclass (value_class b) (value_class a)) eqn:Hba; cbn [andb].
  - case_bool_decide as Hc; cbn [negb].
    + rewrite bool_decide_eq_true. split; [by split|by intros [_ ?]].
    + destruct (issubclass (value_class a) (value_class b)) eqn:Hab; cbn [negb].
      * by destruct Hc; apply issubclass_antisym.
      * split; [done|]. by intros [? _].
  - split; [done|]. intros (Hc & _). by rewrite Hc, issubclass_refl in Hba.
Qed.

(** Equality of value objects is an equivalence, in which neither the direction nor
    a subclass matters: equal objects are of one class and have the same tuple, so
    both can be hashed, to the same number, or neither can. *)
Theorem value_equality_equivalence :
  Equivalence (λ a b, value_equal a b = true) ∧
  ∀ a b, value_equal a b = true →
    value_class a = value_class b ∧ ∀ E, value_hash (E:=E) a = value_hash b.
Proof.
  split.
  - split.
    + intros a. by rewrite value_equal_spec.
    + intros a b. rewrite !value_equal_spec. by intros [-> ->].
    + intros a b c. rewrite !value_equal_spec. intros [-> ->] [-> ->]. done.
  - intros a b (Hc & Ht)%value_equal_spec. split; [done|]. intros E. unfold value_hash. by rewrite Ht.
Qed.

(** A class is refused exactly when the annotation of one of its fields is a class
    without [__hash__]; the error names the first. *)
Theorem class_check_spec {E} annotations :
  __init_subclass__ (E:=E) annotations =
  match head (List.filter (λ a : string * field_annotation, match a.2 with Class_ false => true | _ => false end) annotations) with
  | Some (name, _) => Raise (UnhashableFieldTypeError name)
  | None => Ok tt
  end.
Proof. induction annotations as [|[name [[]| |]] annotations IH]; [done|apply IH|done|apply IH|apply IH]. Qed.
End comparison.
Arguments TypeError {E}.
Arguments UnhashableFieldTypeError {E} field_name.
Arguments ValidationError {E} e.

(** An object that is made is valid, and no assignment can change it. *)
Theorem constructed_value_is_valid {E} (validate : value_object → outcome E unit) o o' :
  construct_value validate o = Ok o' → o' = o ∧ validate o' = Ok tt.
Proof. unfold construct_value. destruct (validate o) as [[]|e] eqn:Hv; [|done]. by intros [= <-]. Qed.

(** ** Examples *)

(** [astuple] forgets the classes of nested objects: an order over one hundred
    euros equals an order over one hundred points. *)
Example nested_classes_are_forgotten :
  let order (amount : field_value) := mk_value_object "Order" [Atom 7; amount] in
  value_equal (order (Object "Euros" [Atom 100])) (order (Object "Points" [Atom 100])) = true ∧
  value_equal (mk_value_object "Euros" [Atom 100]) (mk_value_object "Points" [Atom 100]) = false.
Proof. split; vm_compute; reflexivity. Qed.

(** The check of the class looks at the annotation object: [list] is refused, but
    [list[int]], or any annotation of a module with postponed evaluation, passes,
    and the objects cannot be hashed. *)
Example subscripted_lists_pass :
  __init_subclass__ (E:=string) [("tags", Class_ false)] = Raise (UnhashableFieldTypeError "tags") ∧
  __init_subclass__ (E:=string) [("tags", Subscripted); ("notes", Text)] = Ok tt ∧
  value_hash (E:=string) (λ _, 0%Z) (mk_value_object "Labels" [List_ [Atom 1]]) = Raise TypeError.
Proof. done. Qed.

Definition ex_validate (o : value_object) : outcome string unit :=
  if bool_decide (value_fields o = []) then Raise "empty" else Ok tt.
Definition ex_euros : value_object := mk_value_object "Euros" [Atom 100].
Lemma constructed_value_is_valid_witness : ex_euros = ex_euros ∧ ex_validate ex_euros = Ok tt.
Proof. apply (constructed_value_is_valid ex_validate ex_euros ex_euros). reflexivity. Defined.
