(* ===== verification/Event.v ===== *)
(** * Events: dispatch, publication and the transactional publishing aspect

    [spakky-event]: the in-process mediator ([mediator/domain_event_mediator.py]),
    the publisher that routes by category ([publisher/domain_event_publisher.py]),
    the direct bus ([bus/transport_event_bus.py]) with the headers it injects
    ([auth_propagation.py]), and the aspect that publishes the events of the
    aggregates a transactional method saved
    ([aspects/transactional_event_publishing.py]). The asynchronous twins run the
    same statements with [await]. Handlers and transports are user code. Handlers
    are registered while the application starts: a handler does not change the
    registry while an event is dispatched. *)

From S2P Require Import Prelude Aop Auth Tracing Domain Data.

(** ** State *)

(** The aggregates in memory, the collector of the transaction, the ambient
    trace and the rest of the program's state *)
Record app (R W : Type) := mk_app {
  aggregates : gmap aggregate_ref (list AbstractEvent);
  collector : AggregateCollector;
  ambient : execution R;
  world : W;
}.
Arguments mk_app {R W}.
Arguments aggregates {R W}.
Arguments collector {R W}.
Arguments ambient {R W}.
Arguments world {R W}.

(** [UserError e] is an exception of a handler, a transport or a signer. *)
Inductive event_error (E : Type) :=
  | UnknownEventTypeError (event_type : string)
  | AuthSnapshotPropagationSignerUnavailableError
  | AuthSnapshotPropagationContextUnavailableError
  | EventInvalidAuthContextValueError
  | TracingError (e : tracing_error)
  | UserError (e : E).
Arguments UnknownEventTypeError {E}.
Arguments AuthSnapshotPropagationSignerUnavailableError {E}.
Arguments AuthSnapshotPropagationContextUnavailableError {E}.
Arguments EventInvalidAuthContextValueError {E}.
Arguments TracingError {E}.
Arguments UserError {E}.

Abbreviation headers := (list (string * string)).

(** ** Header injection *)

Definition AUTHORIZATION_HEADER : string := "authorization".
Definition BEARER_AUTHORIZATION_PREFIX : string := "bearer ".

Definition carries_bearer (kv : string * string) : bool :=
  bool_decide (lower kv.1 = AUTHORIZATION_HEADER) &&
  String.prefix BEARER_AUTHORIZATION_PREFIX (lower kv.2).

(** [for key in tuple(headers.keys()): if ...: del headers[key]] *)
Definition _remove_raw_bearer_headers (h : headers) : headers :=
  foldl (λ h k, match dict_get k h with
                | Some v => if carries_bearer (k, v) then dict_del k h else h
                | None => h
                end) h h.*1.

Section events.
Context {E R W : Type}.
(** [isinstance(e, Exception)] for the exceptions of user code *)
Context (user_exception : E → bool).

Abbreviation action := (comp (app R W) (event_error E)).

Definition is_exception (e : event_error E) : bool :=
  match e with UserError e => user_exception e | _ => true end.

(** [_auth_snapshot_signer] returns a snapshot, here in the form
    [base64url_canonical_json()] gives it. *)
Record AuthContextSnapshotHeaderInjector := mk_injector {
  _auth_snapshot_signer : option (AuthContext → outcome E string);
  propagation_enabled : bool;
  injector_context : option context_values;
}.

Definition _current_auth_context (i : AuthContextSnapshotHeaderInjector)
    : outcome (event_error E) (option AuthContext) :=
  match injector_context i with
  | None => Raise AuthSnapshotPropagationContextUnavailableError
  | Some ctx =>
      match ctx AUTH_CONTEXT_CONTEXT_KEY with
      | None => Ok None
      | Some (VAuthContext c) => Ok (Some c)
      | Some VOther => Raise EventInvalidAuthContextValueError
      end
  end.

Definition _required_signer (i : AuthContextSnapshotHeaderInjector)
    : outcome (event_error E) (AuthContext → outcome E string) :=
  match _auth_snapshot_signer i with
  | None => Raise AuthSnapshotPropagationSignerUnavailableError
  | Some sign => Ok sign
  end.

Definition inject_auth (i : AuthContextSnapshotHeaderInjector) (h : headers)
    : outcome (event_error E) headers :=
  let h := _remove_raw_bearer_headers h in
  if negb (propagation_enabled i) then Ok h
  else
    auth_context ← _current_auth_context i;
    match auth_context with
    | None => Ok h
    | Some c =>
        sign ← _required_signer i;
        snapshot ← map_error UserError (sign c);
        Ok (dict_set AUTH_CONTEXT_SNAPSHOT_METADATA_KEY snapshot h)
    end.

(** ** The direct bus *)

(** [IEventTransport.send(event_name, payload, headers)] *)
Abbreviation transport := (string → string → headers → action unit).

Definition inject_trace `{!ITracePropagator R} (h : headers) : action headers := λ s,
  let '(o, x) := port_inject h (ambient s) in
  (map_error TracingError o, mk_app (aggregates s) (collector s) x (world s)).

(** [dump_json] is the serializer of pydantic. *)
Definition DirectEventBus_send `{!ITracePropagator R} (dump_json : AbstractEvent → string)
    (send : transport) (i : AuthContextSnapshotHeaderInjector) (e : AbstractEvent) : action unit :=
  h <- inject_trace [] ;;
  h <- lift (inject_auth i h) ;;
  send (event_name e) (dump_json e) h.

(** ** The mediator *)

Abbreviation handler := (AbstractEvent → action unit).

(** [_handlers], keyed by the event class *)
Abbreviation EventMediator := (list (string * list handler)).

Definition register (event_type : string) (h : handler) (m : EventMediator) : EventMediator :=
  dict_set event_type (default [] (dict_get event_type m) ++ [h]) m.

Definition guarded (e : AbstractEvent) (h : handler) : action unit :=
  try_except (h e) (λ err, if is_exception err then Some (ret tt) else None).

Definition dispatch (m : EventMediator) (e : AbstractEvent) : action unit :=
  for_each (guarded e) (default [] (dict_get (event_class e) m)).

(** ** The publisher *)

Definition publish (m : EventMediator) (bus_send : AbstractEvent → action unit)
    (e : AbstractEvent) : action unit :=
  match event_category e with
  | DomainEvent => dispatch m e
  | IntegrationEvent => bus_send e
  | OtherEvent => raise (UnknownEventTypeError (event_class e))
  end.

(** ** The publishing aspect *)

Section aspect.
Context (publisher : AbstractEvent → action unit).

(** [aggregate.events] is a copy. *)
Definition events_of (a : aggregate_ref) (s : app R W) : list AbstractEvent :=
  default [] (aggregates s !! a).

Definition clear_aggregate (a : aggregate_ref) : action unit :=
  modify (λ s, mk_app (alter clear_events a (aggregates s)) (collector s) (ambient s) (world s)).

Definition publish_aggregate (a : aggregate_ref) : action unit :=
  es <- gets (events_of a) ;;
  for_each publisher es ;;;
  clear_aggregate a.

Definition publishing_after_returning : action unit :=
  collected <- gets (λ s, Data.all (collector s)) ;;
  for_each publish_aggregate collected.

Definition publishing_after : action unit :=
  modify (λ s, mk_app (aggregates s) (Data.clear (collector s)) (ambient s) (world s)).

(** [@Order(1)], [@AfterReturning] and [@After] on the transactional methods *)
Definition TransactionalEventPublishingAspect {Args A}
    (is_transactional is_coroutine : method → bool)
    : IAspect (app R W) (event_error E) Args A :=
  Aop.mk_aspect 1
    (mk_pointcuts None
       (Some (transactional_pointcut is_transactional is_coroutine)) None
       (Some (transactional_pointcut is_transactional is_coroutine)) None)
    default_before default_after_raising (λ _, publishing_after_returning) publishing_after
    default_around.
End aspect.
End events.


(** ** Lemmas *)

(** *** Headers *)

Definition strip_key (h : headers) (k : string) : headers :=
  match dict_get k h with
  | Some v => if carries_bearer (k, v) then dict_del k h else h
  | None => h
  end.

Lemma strip_key_get h k k' :
  NoDup h.*1 →
  NoDup (strip_key h k).*1 ∧
  dict_get k' (strip_key h k) =
    match dict_get k' h with
    | Some v => if bool_decide (k' = k) && carries_bearer (k', v) then None else Some v
    | None => None
    end.
Proof.
  intros Hnd. unfold strip_key. destruct (decide (k' = k)) as [->|Hk].
  - rewrite bool_decide_true by done. cbn [andb]. destruct (dict_get k h) as [v|] eqn:Hg.
    + destruct (carries_bearer (k, v)); [|done]. split; [by apply dict_del_NoDup|].
      by apply dict_get_del_eq.
    + done.
  - rewrite bool_decide_false by done. cbn [andb].
    assert (∀ o : option string, match o with Some v => Some v | None => None end = o) as Ho
      by by destruct o.
    rewrite Ho. destruct (dict_get k h) as [v|]; [|done].
    destruct (carries_bearer (k, v)); [|done].
    split; [by apply dict_del_NoDup|by apply dict_get_del_ne].
Qed.

Lemma strip_keys_get ks h k' :
  NoDup h.*1 →
  NoDup (foldl strip_key h ks).*1 ∧
  dict_get k' (foldl strip_key h ks) =
    match dict_get k' h with
    | Some v => if bool_decide (k' ∈ ks) && carries_bearer (k', v) then None else Some v
    | None => None
    end.
Proof.
  revert h. induction ks as [|k ks IH]; intros h Hnd; cbn [foldl].
  - split; [done|]. rewrite bool_decide_false by apply not_elem_of_nil.
    by destruct (dict_get k' h).
  - destruct (strip_key_get h k k' Hnd) as [Hnd' Hget].
    destruct (IH (strip_key h k) Hnd') as [Hnd2 ->]. split; [done|]. rewrite Hget.
    destruct (dict_get k' h) as [v|]; [|done].
    destruct (bool_decide_reflect (k' = k)) as [->|Hne]; cbn [andb].
    + rewrite (bool_decide_true (k ∈ k :: ks)) by by left.
      destruct (carries_bearer (k, v)) eqn:Hc; cbn; [done|].
      by rewrite Hc, andb_false_r.
    + destruct (bool_decide_reflect (k' ∈ ks)) as [Hin|Hin].
      * by rewrite bool_decide_true by by right.
      * rewrite bool_decide_false; [done|]. rewrite elem_of_cons. by intros [].
Qed.

Lemma remove_raw_bearer_get h k :
  NoDup h.*1 →
  dict_get k (_remove_raw_bearer_headers h) =
    match dict_get k h with
    | Some v => if carries_bearer (k, v) then None else Some v
    | None => None
    end.
Proof.
  intros Hnd. change (_remove_raw_bearer_headers h) with (foldl strip_key h h.*1).
  destruct (strip_keys_get h.*1 h k Hnd) as [_ ->].
  destruct (dict_get k h) as [v|] eqn:Hg; [|done].
  rewrite bool_decide_true; [done|]. apply list_elem_of_fmap. exists (k, v).
  split; [done|]. by apply dict_get_elem_of.
Qed.

Lemma remove_raw_bearer_NoDup h : NoDup h.*1 → NoDup (_remove_raw_bearer_headers h).*1.
Proof. intros Hnd. by destruct (strip_keys_get h.*1 h "" Hnd) as [? _]. Qed.

Section lemmas.
Context {E R W : Type} (user_exception : E → bool).
Abbreviation action := (comp (app R W) (event_error E)).
Implicit Types s : app R W.

(** *** The injector *)

Lemma inject_auth_cases (i : @AuthContextSnapshotHeaderInjector E) h h' :
  inject_auth i h = Ok h' →
  ((∃ c sign snapshot, propagation_enabled i = true ∧
      _current_auth_context i = Ok (Some c) ∧ _auth_snapshot_signer i = Some sign ∧
      sign c = Ok snapshot ∧
      h' = dict_set AUTH_CONTEXT_SNAPSHOT_METADATA_KEY snapshot (_remove_raw_bearer_headers h)) ∨
   ((propagation_enabled i = false ∨ _current_auth_context i = Ok None) ∧
    h' = _remove_raw_bearer_headers h)) ∧
  ∀ k, k ≠ AUTH_CONTEXT_SNAPSHOT_METADATA_KEY →
    dict_get k h' = dict_get k (_remove_raw_bearer_headers h).
Proof.
  unfold inject_auth. set (h0 := _remove_raw_bearer_headers h). intros Hok.
  match goal with |- ?P ∧ _ => assert P as Hcases end.
  { destruct (propagation_enabled i); cbn [negb] in Hok; [|right; by injection Hok as <-; auto].
    apply outcome_bind_Ok in Hok as ([c|] & Hc & Hok); [|right; by injection Hok as <-; auto].
    unfold _required_signer in Hok. left.
    destruct (_auth_snapshot_signer i) as [sign|] eqn:Hs; [|done]. cbn in Hok.
    destruct (sign c) as [snap|] eqn:Hsc; [|done]. injection Hok as <-. by exists c, sign, snap. }
  split; [done|]. intros k Hne.
  destruct Hcases as [(c & sign & snap & _ & _ & _ & _ & ->)|[_ ->]]; [|done].
  by rewrite dict_get_set_ne.
Qed.

(** A header that is neither a bearer nor the snapshot goes through. *)
Lemma inject_auth_other (i : @AuthContextSnapshotHeaderInjector E) h h' k v :
  NoDup h.*1 → inject_auth i h = Ok h' → dict_get k h = Some v →
  carries_bearer (k, v) = false → k ≠ AUTH_CONTEXT_SNAPSHOT_METADATA_KEY →
  dict_get k h' = Some v.
Proof.
  intros Hnd Hok Hv Hb Hne. destruct (inject_auth_cases i h h' Hok) as [_ Hk].
  by rewrite Hk, remove_raw_bearer_get, Hv, Hb.
Qed.

(** *** The mediator *)

(** The registrations a sequence of [register] calls leaves for a class *)
Lemma registered_handlers (rs : list (string * (AbstractEvent → action unit))) m c :
  default [] (dict_get c (foldl (λ m r, register r.1 r.2 m) m rs)) =
  default [] (dict_get c m) ++ (List.filter (λ r, bool_decide (r.1 = c)) rs).*2.
Proof.
  revert m. induction rs as [|[c' h] rs IH]; intros m; cbn [foldl List.filter fst snd].
  - by rewrite app_nil_r.
  - rewrite IH. unfold register. case_bool_decide as Hc.
    + subst. rewrite dict_get_set_eq. cbn. by rewrite <-app_assoc.
    + by rewrite dict_get_set_ne by done.
Qed.

Lemma guarded_contains e h s :
  (∀ err, (h e s).1 = Raise err → is_exception user_exception err = true) →
  guarded user_exception e h s = (Ok tt, (h e s).2).
Proof.
  intros Hexc. unfold guarded, try_except. destruct (h e s) as [[[]|err] s']; [done|].
  by rewrite (Hexc err).
Qed.

Lemma for_each_guarded e hs s :
  (∀ h s err, h ∈ hs → (h e s).1 = Raise err → is_exception user_exception err = true) →
  for_each (guarded user_exception e) hs s = (Ok tt, foldl (λ s h, (h e s).2) s hs).
Proof.
  revert s. induction hs as [|h hs IH]; intros s Hexc; [done|]. cbn [for_each foldl].
  unfold bind. rewrite guarded_contains by (intros err; apply Hexc; by left).
  apply IH. intros h' s' err Hin. apply Hexc. by right.
Qed.

(** *** Publication *)

(** A publisher that works on the rest of the program's state *)
Definition on_world (p : AbstractEvent → comp W (event_error E) unit) (e : AbstractEvent)
    : action unit := λ s,
  let '(o, w) := p e (world s) in (o, mk_app (aggregates s) (collector s) (ambient s) w).

Lemma for_each_on_world p es s :
  for_each (on_world p) es s =
    ((for_each p es (world s)).1,
     mk_app (aggregates s) (collector s) (ambient s) (for_each p es (world s)).2).
Proof.
  revert s. induction es as [|e es IH]; intros s; cbn [for_each]; [by destruct s|].
  unfold bind, on_world. destruct (p e (world s)) as [[[]|err] w]; [|done].
  fold (on_world p). by rewrite IH.
Qed.

(** The events of a list of references, each aggregate's once *)
Definition pending_events (refs : list aggregate_ref) (aggs : gmap aggregate_ref (list AbstractEvent))
    : list AbstractEvent :=
  dedup refs ≫= (λ a, default [] (aggs !! a)).

(** The aggregates of [refs] have no events left, the others keep theirs. *)
Definition cleared_of (refs : list aggregate_ref)
    (aggs : gmap aggregate_ref (list AbstractEvent)) s : Prop :=
  ∀ a, events_of a s = if decide (a ∈ refs) then [] else default [] (aggs !! a).

Lemma publish_aggregate_on_world p a s :
  publish_aggregate (on_world p) a s =
    match for_each p (events_of a s) (world s) with
    | (Ok _, w) => (Ok tt, mk_app (alter clear_events a (aggregates s)) (collector s) (ambient s) w)
    | (Raise e, w) => (Raise e, mk_app (aggregates s) (collector s) (ambient s) w)
    end.
Proof.
  unfold publish_aggregate, bind at 1, gets. unfold bind. rewrite for_each_on_world.
  by destruct (for_each p (events_of a s) (world s)) as [[u|e] w].
Qed.

Lemma cleared_of_step refs aggs a s w :
  cleared_of refs aggs s →
  cleared_of (refs ++ [a]) aggs
    (mk_app (alter clear_events a (aggregates s)) (collector s) (ambient s) w).
Proof.
  intros Hs b. specialize (Hs b). unfold events_of in *. cbn [aggregates].
  destruct (decide (b = a)) as [->|Hne].
  - rewrite lookup_alter_eq, decide_True by (apply elem_of_app; right; by left).
    by destruct (aggregates s !! a).
  - rewrite lookup_alter_ne, Hs by done. apply decide_ext.
    rewrite elem_of_app, list_elem_of_singleton. naive_solver.
Qed.

Lemma cleared_of_again refs aggs a s :
  a ∈ refs → cleared_of (refs ++ [a]) aggs s → cleared_of refs aggs s.
Proof.
  intros Ha Hs b. rewrite Hs. apply decide_ext.
  rewrite elem_of_app, list_elem_of_singleton. naive_solver.
Qed.

Lemma publish_aggregates p refs seen aggs s :
  cleared_of seen aggs s →
  let '(o, s') := for_each (publish_aggregate (on_world p)) refs s in
  for_each p (dedup_aux seen refs ≫= λ a, default [] (aggs !! a)) (world s) = (o, world s') ∧
  collector s' = collector s ∧ ambient s' = ambient s ∧
  (o = Ok tt → cleared_of (seen ++ refs) aggs s').
Proof.
  revert seen s. induction refs as [|a refs IH]; intros seen s Hs.
  { cbn. by rewrite app_nil_r. }
  cbn [for_each dedup_aux]. unfold bind. rewrite publish_aggregate_on_world, (Hs a).
  destruct (decide (a ∈ seen)) as [Hin|Hin].
  - cbn [for_each]. unfold ret.
    pose proof (IH seen _ (cleared_of_again _ _ _ _ Hin (cleared_of_step _ _ a s (world s) Hs)))
      as Hrun. cbn [world collector ambient] in Hrun.
    destruct (for_each (publish_aggregate (on_world p)) refs _) as [o s'].
    destruct Hrun as (? & ? & ? & Hc). split_and!; [done..|]. intros Ho.
    intros b. rewrite (Hc Ho b). apply decide_ext. rewrite !elem_of_app, elem_of_cons.
    naive_solver.
  - rewrite bind_cons, for_each_app. unfold bind.
    destruct (for_each p (default [] (aggs !! a)) (world s)) as [[[]|e] w]; [|done].
    pose proof (IH (seen ++ [a]) _ (cleared_of_step _ _ a s w Hs)) as Hrun.
    cbn [world collector ambient] in Hrun.
    destruct (for_each (publish_aggregate (on_world p)) refs _) as [o s'].
    by rewrite <-app_assoc in Hrun.
Qed.
End lemmas.

(** ** Properties *)

(** A bus that sends at once hands the transport the sender's trace: whoever
    extracts it from the headers gets the ambient context of the sender. *)
Theorem direct_bus_carries_trace {E R W : Type} (dump_json : AbstractEvent → string) send
    (i : @AuthContextSnapshotHeaderInjector E) e (s : app R W) t :
  _trace_context (ambient s) = Some t → valid_trace t →
  match inject_auth i [(TRACEPARENT_HEADER, to_traceparent t)] with
  | Ok h => DirectEventBus_send dump_json send i e s = send (event_name e) (dump_json e) h s ∧
            extract h = Some (detached t)
  | Raise err => DirectEventBus_send dump_json send i e s = (Raise err, s)
  end.
Proof.
  intros Ht Hv.
  assert (inject_trace (E:=E) [] s = (Ok [(TRACEPARENT_HEADER, to_traceparent t)], s)) as Hin.
  { unfold inject_trace. cbn [port_inject W3CTracePropagator]. unfold inject, get, bind, gets.
    rewrite Ht. by destruct s. }
  assert (NoDup [(TRACEPARENT_HEADER, to_traceparent t)].*1) as Hnd by apply NoDup_singleton.
  unfold DirectEventBus_send, bind, lift. rewrite Hin.
  destruct (inject_auth i [(TRACEPARENT_HEADER, to_traceparent t)]) as [h|err] eqn:Hi; [|done].
  split; [done|]. unfold extract.
  rewrite (inject_auth_other i _ h TRACEPARENT_HEADER (to_traceparent t) Hnd Hi);
    [by autorewrite with tracing|done|reflexivity|done].
Qed.

Section properties.
Context {E R W : Type} (user_exception : E → bool).
Implicit Types s : app R W.

(** A call of a transactional method through a proxy that carries the
    transactional and the publishing aspect, in whatever order they were found,
    is: open the transaction, run the method, publish the events of the
    collected aggregates, clear the collector, and only then commit. Publication
    is therefore part of the transaction, not a consequence of its commit. *)
Theorem transactional_call_publishes_inside {Args A} (is_transactional is_coroutine : method → bool)
    (t : AbstractTransaction (app R W) (event_error E)) publisher
    (l : list (IAspect (app R W) (event_error E) Args A)) m target args s :
  l ≡ₚ [TransactionalAspect is_transactional is_coroutine t;
        TransactionalEventPublishingAspect publisher is_transactional is_coroutine] →
  is_transactional m = true → is_coroutine m = false →
  (call (is_exception user_exception) (new_handler (sort_aspects l)) m target args s).1 =
    with_transaction t
      (try_finally
         (result <- target args ;; publishing_after_returning publisher ;;; ret result)
         publishing_after) s.
Proof.
  intros Hl Ht Hc.
  assert (advice_order l m = [TransactionalAspect is_transactional is_coroutine t;
            TransactionalEventPublishingAspect publisher is_transactional is_coroutine]) as Hord.
  { apply sorted_pair; [|apply advice_order_sorted|done].
    unfold advice_order, candidates. rewrite reverse_Permutation.
    assert (Hall : ∀ x, x ∈ sort_aspects l →
              matches (aspect_pointcuts x) (method_object m) = true).
    { intros x Hx. unfold sort_aspects in Hx. rewrite elem_of_sort_by, Hl in Hx.
      unfold matches, transactional_pointcut. rewrite !elem_of_cons, elem_of_nil in Hx.
      destruct_or? Hx; subst; cbn; try done; unfold advice_matches, transactional_pointcut; cbn;
        by rewrite Ht, Hc. }
    rewrite filter_all by done. unfold sort_aspects. by rewrite sort_by_perm. }
  unfold call, runnable_of; cbn [new_handler advisors_cache dict_get aspects].
  rewrite advise_nest. fold (advice_order l m). rewrite Hord. cbn [nest foldr fst].
  rewrite advisor_around_only by done. cbn [around TransactionalAspect].
  unfold TransactionalAspect_around. apply with_transaction_proper. intros s1.
  by rewrite advisor_returning_only by done.
Qed.

(** C29. After a transactional method returned, the publisher receives the events of
    every collected aggregate exactly once - an aggregate saved twice included - in
    the order the aggregates were first collected and, within one, in the order they
    were raised, up to a publication that fails, whose exception goes on; when every
    publication succeeds the collected aggregates have no events left and no other
    aggregate lost one. The publisher is any that leaves the aggregates alone. *)
Theorem collected_events_published_once (p : AbstractEvent → comp W (event_error E) unit) s :
  let '(o, s') := publishing_after_returning (on_world p) s in
  for_each p (pending_events (Data.all (collector s)) (aggregates s)) (world s) = (o, world s') ∧
  (o = Ok tt → cleared_of (Data.all (collector s)) (aggregates s) s').
Proof.
  unfold publishing_after_returning, bind, gets, pending_events, dedup.
  assert (cleared_of [] (aggregates s) s) as Hs.
  { intros a. by rewrite decide_False by apply not_elem_of_nil. }
  pose proof (publish_aggregates p (Data.all (collector s)) [] (aggregates s) s Hs) as Hrun.
  destruct (for_each _ _ s) as [o s']. naive_solver.
Qed.

(** Events that a handler raises on the aggregate whose events are being
    published are lost: the aggregate is cleared after its copied events were
    published, and the added event is never handed to the publisher. *)
Theorem event_raised_while_publishing_is_lost
    (publisher : AbstractEvent → comp (app R W) (event_error E) unit) a e added s s1 :
  collector s = mk_collector [a] → aggregates s !! a = Some [e] →
  publisher e s = (Ok tt, s1) → aggregates s1 !! a = Some [e; added] →
  ∃ s2, publishing_after_returning publisher s = (Ok tt, s2) ∧
        aggregates s2 !! a = Some [] ∧ world s2 = world s1.
Proof.
  intros Hc Ha Hp Ha1.
  set (s2 := mk_app (alter clear_events a (aggregates s1)) (collector s1) (ambient s1) (world s1)).
  assert (publish_aggregate publisher a s = (Ok tt, s2)) as Hrun.
  { unfold publish_aggregate, gets. unfold bind at 1.
    replace (events_of a s) with [e] by (unfold events_of; by rewrite Ha).
    cbn [for_each]. unfold bind. by rewrite Hp. }
  exists s2. split_and!; [|cbn; by rewrite lookup_alter_eq, Ha1|done].
  unfold publishing_after_returning, gets. unfold bind at 1. rewrite Hc.
  cbn [Data.all _aggregates for_each]. unfold bind. by rewrite Hrun.
Qed.

(** The mediator delivers an event to every handler registered for its class,
    in the order of registration, and returns: a handler that raises an
    [Exception] neither stops the others nor reaches the publisher. *)
Theorem dispatch_reaches_every_handler
    (rs : list (string * (AbstractEvent → comp (app R W) (event_error E) unit))) e s :
  (∀ r s err, r ∈ rs → (r.2 e s).1 = Raise err → is_exception user_exception err = true) →
  dispatch user_exception (foldl (λ m r, register r.1 r.2 m) [] rs) e s =
    (Ok tt, foldl (λ s h, (h e s).2) s
              (List.filter (λ r, bool_decide (r.1 = event_class e)) rs).*2).
Proof.
  intros Hexc. unfold dispatch. rewrite registered_handlers. cbn [dict_get default Datatypes.app].
  apply for_each_guarded. intros h s0 err (r & -> & Hr)%list_elem_of_fmap.
  apply Hexc. apply list_elem_of_In, List.filter_In in Hr as [Hr _]. by apply list_elem_of_In.
Qed.

(** No raw credential leaves with an event: after injection no header is a
    bearer [authorization], in whatever case it was written; every other header
    is untouched, and a snapshot is attached exactly when propagation is enabled
    and an authenticated context is present, never without a signer. *)
Theorem injected_headers_carry_no_bearer (i : @AuthContextSnapshotHeaderInjector E) h h' :
  NoDup h.*1 → inject_auth i h = Ok h' →
  (∀ k v, dict_get k h' = Some v → k ≠ AUTH_CONTEXT_SNAPSHOT_METADATA_KEY →
     carries_bearer (k, v) = false ∧ dict_get k h = Some v) ∧
  (∀ k v, dict_get k h = Some v → carries_bearer (k, v) = false →
     k ≠ AUTH_CONTEXT_SNAPSHOT_METADATA_KEY → dict_get k h' = Some v) ∧
  ((∃ c sign snapshot, propagation_enabled i = true ∧ _current_auth_context i = Ok (Some c) ∧
      _auth_snapshot_signer i = Some sign ∧ sign c = Ok snapshot ∧
      dict_get AUTH_CONTEXT_SNAPSHOT_METADATA_KEY h' = Some snapshot) ∨
   ((propagation_enabled i = false ∨ _current_auth_context i = Ok None) ∧
    h' = _remove_raw_bearer_headers h)).
Proof.
  intros Hnd Hok. destruct (inject_auth_cases i h h' Hok) as [Hcases Hk].
  pose proof (remove_raw_bearer_get h) as Hget. split_and!.
  - intros k v Hv Hne. rewrite Hk, Hget in Hv by done.
    destruct (dict_get k h) as [v'|]; [|done].
    destruct (carries_bearer (k, v')) eqn:Hb; [done|]. by injection Hv as <-.
  - intros k v Hv Hb Hne. by eapply inject_auth_other.
  - destruct Hcases as [(c & sign & snap & ? & ? & ? & ? & ->)|Hr]; [left|by right].
    exists c, sign, snap. by rewrite dict_get_set_eq.
Qed.
End properties.

(** ** Witnesses: an order whose events go to a log *)

Definition ex_created : AbstractEvent := mk_event "Order.Created" DomainEvent 1 10 [].
Definition ex_paid : AbstractEvent := mk_event "Order.Paid" DomainEvent 2 11 [].

Definition ex_app : app N (list string) :=
  mk_app {[ 0%nat := [ex_created] ]} (mk_collector [0%nat]) (mk_execution None 0%N) [].

(** Publication as a line in the log; a second one raises another event on the
    same order. *)
Definition ex_publish (e : AbstractEvent) : comp (app N (list string)) (event_error string) unit :=
  on_world (λ e, modify (λ l, l ++ [event_name e])) e.
Definition ex_publish_and_pay (e : AbstractEvent)
    : comp (app N (list string)) (event_error string) unit :=
  ex_publish e ;;;
  modify (λ s, mk_app (alter (add_event ex_paid) 0%nat (aggregates s)) (collector s) (ambient s)
                 (world s)).

(** A transaction that writes its steps to the same log *)
Definition ex_log (l : string) : comp (app N (list string)) (event_error string) unit :=
  modify (λ s, mk_app (aggregates s) (collector s) (ambient s) (world s ++ [l])).
Definition ex_tx : AbstractTransaction (app N (list string)) (event_error string) :=
  mk_transaction true (ex_log "begin") (ex_log "close") (ex_log "commit") (ex_log "rollback").

Lemma transactional_call_publishes_inside_witness :
  let pub := ex_publish in
  (call (is_exception (λ _ : string, true))
     (new_handler (sort_aspects
        [TransactionalEventPublishingAspect pub (λ _, true) (λ _, false);
         TransactionalAspect (λ _, true) (λ _, false) ex_tx]))
     "place_order" (λ n : nat, ret n) 3%nat ex_app).1 =
  with_transaction ex_tx
    (try_finally (result <- ret 3%nat ;; publishing_after_returning pub ;;; ret result)
       publishing_after) ex_app ∧
  world (with_transaction ex_tx
    (try_finally (result <- ret 3%nat ;; publishing_after_returning pub ;;; ret result)
       publishing_after) ex_app).2 = ["begin"; "Order.Created"; "commit"; "close"].
Proof.
  split; [|vm_compute; reflexivity].
  apply (transactional_call_publishes_inside (λ _, true) (λ _, true) (λ _, false) ex_tx ex_publish);
    [apply Permutation_swap|reflexivity..].
Defined.

Lemma event_raised_while_publishing_is_lost_witness :
  ∃ s2, publishing_after_returning ex_publish_and_pay ex_app = (Ok tt, s2) ∧
        aggregates s2 !! 0%nat = Some [] ∧ world s2 = ["Order.Created"].
Proof.
  apply (event_raised_while_publishing_is_lost ex_publish_and_pay 0%nat ex_created ex_paid ex_app
           (ex_publish_and_pay ex_created ex_app).2); [reflexivity|reflexivity| |].
  - apply pair_fst_eq. reflexivity.
  - vm_compute. reflexivity.
Defined.

Definition ex_failing (e : AbstractEvent) : comp (app N (list string)) (event_error string) unit :=
  raise (UserError "down").

Lemma dispatch_reaches_every_handler_witness :
  let rs := [("Order.Created", ex_failing); ("Order.Created", ex_publish)] in
  dispatch (λ _, true) (foldl (λ m r, register r.1 r.2 m) [] rs) ex_created ex_app =
    (Ok tt, (ex_publish ex_created ex_app).2).
Proof.
  apply (dispatch_reaches_every_handler (λ _ : string, true)
           [("Order.Created", ex_failing); ("Order.Created", ex_publish)] ex_created ex_app).
  intros r s err. rewrite !elem_of_cons, elem_of_nil. intros [-> | [-> | []]]; cbn; [|done].
  by intros [= <-].
Defined.

Definition ex_headers : headers := [("Authorization", "Bearer abc"); ("traceparent", "00-")].

Lemma injected_headers_carry_no_bearer_witness :
  let h' := _remove_raw_bearer_headers ex_headers in
  h' = [("traceparent", "00-")] ∧
  ∀ k v, dict_get k h' = Some v → k ≠ AUTH_CONTEXT_SNAPSHOT_METADATA_KEY →
    carries_bearer (k, v) = false ∧ dict_get k ex_headers = Some v.
Proof.
  split; [vm_compute; reflexivity|].
  apply (injected_headers_carry_no_bearer (mk_injector (E:=string) None false None) ex_headers);
    [decide_compute|vm_compute; reflexivity].
Defined.
