(* ===== verification/Outbox.v ===== *)
(** * The transactional outbox: port, relay, SQL storage and event bus

    [spakky-outbox] and the storage [spakky-sqlalchemy] contributes to it: the
    message ([common/message.py]), the storage port ([ports/storage.py]) as a
    record of operations with the class [OutboxContract] that says what the relay
    may rely on, the relay ([relay/relay.py]), the bus that saves instead of
    sending ([bus/outbox_event_bus.py]) and [SqlAlchemyOutboxStorage]
    ([outbox/storage.py]), which is shown to implement the port. The SQL engine
    behind it is the class [SqlEngine]: the order of [ORDER BY] among equals and
    of [RETURNING] is the engine's. The asynchronous twins run the same
    statements with [await]. *)

From S2P Require Import Prelude Auth Tracing Domain Data Event.

(** ** Messages *)

Record OutboxMessage := mk_message {
  message_id : N;
  message_event_name : string;
  payload : string;
  message_headers : headers;
  created_at : Z;
  published_at : option Z;
  retry_count : nat;
  claimed_at : option Z;
}.

Global Instance outbox_message_eq_dec : EqDecision OutboxMessage.
Proof. solve_decision. Defined.

Record OutboxConfig := mk_config {
  batch_size : nat;
  max_retry_count : nat;
  claim_timeout_seconds : Z;
}.
Definition default_config : OutboxConfig := mk_config 100 5 300.

Definition with_published (t : Z) (m : OutboxMessage) : OutboxMessage :=
  mk_message (message_id m) (message_event_name m) (payload m) (message_headers m)
    (created_at m) (Some t) (retry_count m) (claimed_at m).
Definition with_retry (m : OutboxMessage) : OutboxMessage :=
  mk_message (message_id m) (message_event_name m) (payload m) (message_headers m)
    (created_at m) (published_at m) (retry_count m + 1) (claimed_at m).
Definition with_claim (t : Z) (m : OutboxMessage) : OutboxMessage :=
  mk_message (message_id m) (message_event_name m) (payload m) (message_headers m)
    (created_at m) (published_at m) (retry_count m) (Some t).

(** [UPDATE ... WHERE id IN ids] *)
Definition update_where (ids : list N) (f : OutboxMessage → OutboxMessage)
    (rows : list OutboxMessage) : list OutboxMessage :=
  (λ r, if decide (message_id r ∈ ids) then f r else r) <$> rows.

(** What a message carries to the broker *)
Definition content (m : OutboxMessage) : string * string * headers :=
  (message_event_name m, payload m, message_headers m).

(** ** The storage port *)

Record IOutboxStorage (S E : Type) := mk_storage {
  save : OutboxMessage → comp S E unit;
  fetch_pending : nat → nat → comp S E (list OutboxMessage);
  mark_published : N → comp S E unit;
  increment_retry : N → comp S E unit;
}.
Arguments mk_storage {S E}.
Arguments save {S E}.
Arguments fetch_pending {S E}.
Arguments mark_published {S E}.
Arguments increment_retry {S E}.

(** What the relay relies on. [stored s] are the messages of the outbox. *)
Class OutboxContract {S E : Type} (st : IOutboxStorage S E) (stored : S → list OutboxMessage) := {
  fetch_contract limit max s :
    match fetch_pending st limit max s with
    | (Ok ms, s') =>
        (∃ t, stored s' = update_where (message_id <$> ms) (with_claim t) (stored s)) ∧
        (∀ m, m ∈ ms → m ∈ stored s') ∧
        (NoDup (message_id <$> stored s) →
           (length ms ≤ limit)%nat ∧ NoDup (message_id <$> ms) ∧
           ∀ m, m ∈ ms → published_at m = None ∧ (retry_count m < max)%nat)
    | (Raise _, s') => stored s' = stored s
    end;
  mark_contract i s :
    match mark_published st i s with
    | (Ok _, s') => ∃ t, stored s' = update_where [i] (with_published t) (stored s)
    | (Raise _, s') => stored s' = stored s
    end;
  retry_contract i s :
    match increment_retry st i s with
    | (Ok _, s') => stored s' = update_where [i] with_retry (stored s)
    | (Raise _, s') => stored s' = stored s
    end;
}.

(** ** The relay *)

Section relay.
Context {S E : Type} (is_exception : E → bool).
Context (storage : IOutboxStorage S E).
(** [IEventTransport.send] *)
Context (send : string → string → headers → comp S E unit).
Context (config : OutboxConfig).

Definition relay_message (m : OutboxMessage) : comp S E unit :=
  try_except
    (send (message_event_name m) (payload m) (message_headers m) ;;;
     mark_published storage (message_id m))
    (λ e, if is_exception e then Some (increment_retry storage (message_id m)) else None).

Definition _relay_batch : comp S E unit :=
  messages <- fetch_pending storage (batch_size config) (max_retry_count config) ;;
  for_each relay_message messages.

(** [while not stop_event.is_set(): relay; wait]: the schedule gives what
    [is_set] answers at the head of each turn. *)
Fixpoint run (schedule : list bool) : comp S E unit :=
  match schedule with
  | [] => ret tt
  | true :: _ => ret tt
  | false :: schedule' => _relay_batch ;;; run schedule'
  end.
End relay.

(** ** The event bus *)

(** [uuid4()] and [datetime.now(UTC)] *)
Class MessageStamps (W : Type) := {
  uuid4 : W → N * W;
  utc_now : W → Z * W;
}.

Section bus.
Context {E R W : Type} `{!ITracePropagator R} `{MessageStamps W}.
Context (storage : IOutboxStorage (app R W) (event_error E)).
Context (dump_json : AbstractEvent → string).
Context (i : @AuthContextSnapshotHeaderInjector E).

Definition draw_stamp {A} (f : W → A * W) : comp (app R W) (event_error E) A := λ s,
  let '(a, w) := f (world s) in (Ok a, mk_app (aggregates s) (collector s) (ambient s) w).

Definition OutboxEventBus_send (e : AbstractEvent) : comp (app R W) (event_error E) unit :=
  h <- inject_trace [] ;;
  h <- lift (inject_auth i h) ;;
  mid <- draw_stamp uuid4 ;;
  t <- draw_stamp utc_now ;;
  save storage (mk_message mid (event_name e) (dump_json e) h t None 0 None).
End bus.

(** ** The SQL storage *)

(** The table as other sessions see it, the session of the current transaction
    (its own view of the table), the clock, and the rows other transactions hold
    locks on *)
Record database := mk_database {
  outbox_table : list OutboxMessage;
  session_view : option (list OutboxMessage);
  db_now : Z;
  locked : list N;
}.

Inductive storage_error := SessionNotInitializedError.

Class SqlEngine := {
  (** [ORDER BY created_at] *)
  order_by_created : list OutboxMessage → list OutboxMessage;
  order_by_created_perm l : order_by_created l ≡ₚ l;
  order_by_created_sorted l : Sorted (λ a b, (created_at a ≤ created_at b)%Z) (order_by_created l);
  (** the order in which [RETURNING] lists the updated rows *)
  returning_order : list OutboxMessage → list OutboxMessage;
  returning_order_perm l : returning_order l ≡ₚ l;
}.

Section sql.
Context `{SqlEngine}.
Context (_claim_timeout_seconds : Z).

Abbreviation action := (comp database storage_error).

Definition set_table (rows : list OutboxMessage) : action unit :=
  modify (λ d, mk_database rows (session_view d) (db_now d) (locked d)).

(** [session.add(row)] and [flush]: the columns it does not name take the
    defaults of the table. *)
Definition sql_save (m : OutboxMessage) : action unit :=
  d <- get_state ;;
  match session_view d with
  | None => raise SessionNotInitializedError
  | Some rows =>
      let row := mk_message (message_id m) (message_event_name m) (payload m) (message_headers m)
                   (created_at m) None 0 None in
      modify (λ d, mk_database (outbox_table d) (Some (rows ++ [row])) (db_now d) (locked d))
  end.

Definition claimable (cutoff : Z) (max_retry : nat) (held : list N) (r : OutboxMessage) : bool :=
  bool_decide (published_at r = None) && (retry_count r <? max_retry)%nat &&
  match claimed_at r with None => true | Some t => (t <? cutoff)%Z end &&
  negb (bool_decide (message_id r ∈ held)).

(** The subquery: [FOR UPDATE SKIP LOCKED] passes over the rows of others. *)
Definition pending_ids (limit max_retry : nat) (d : database) : list N :=
  message_id <$> take limit (order_by_created
    (List.filter (claimable (db_now d - _claim_timeout_seconds) max_retry (locked d))
       (outbox_table d))).

Definition sql_fetch_pending (limit max_retry : nat) : action (list OutboxMessage) :=
  d <- get_state ;;
  let ids := pending_ids limit max_retry d in
  let rows := update_where ids (with_claim (db_now d)) (outbox_table d) in
  set_table rows ;;;
  ret (returning_order (List.filter (λ r, bool_decide (message_id r ∈ ids)) rows)).

Definition sql_mark_published (i : N) : action unit :=
  d <- get_state ;;
  set_table (update_where [i] (with_published (db_now d)) (outbox_table d)).

Definition sql_increment_retry (i : N) : action unit :=
  d <- get_state ;;
  set_table (update_where [i] with_retry (outbox_table d)).

Definition SqlAlchemyOutboxStorage : IOutboxStorage database storage_error :=
  mk_storage sql_save sql_fetch_pending sql_mark_published sql_increment_retry.
End sql.

(** ** Lemmas *)

(** *** Updates *)

(** An update that keeps what identifies a message *)
Definition keeps_identity (f : OutboxMessage → OutboxMessage) : Prop :=
  ∀ m, message_id (f m) = message_id m ∧ content (f m) = content m.

Lemma keeps_published t : keeps_identity (with_published t).
Proof. done. Qed.
Lemma keeps_retry : keeps_identity with_retry.
Proof. done. Qed.
Lemma keeps_claim t : keeps_identity (with_claim t).
Proof. done. Qed.

Create HintDb outbox.
#[export] Hint Resolve keeps_published keeps_retry keeps_claim : outbox.

Lemma update_where_ids ids f rows :
  keeps_identity f → message_id <$> update_where ids f rows = message_id <$> rows.
Proof.
  intros Hf. unfold update_where. rewrite <-list_fmap_compose. apply list_fmap_ext.
  intros i r _. cbn. case_decide; [apply Hf|done].
Qed.

Lemma elem_of_update_where ids f rows r :
  r ∈ update_where ids f rows ↔
  (∃ r0, r0 ∈ rows ∧ message_id r0 ∈ ids ∧ r = f r0) ∨ (r ∈ rows ∧ message_id r ∉ ids).
Proof.
  unfold update_where. rewrite list_elem_of_fmap. split.
  - intros (r0 & -> & Hr0). case_decide; [left; by exists r0|by right].
  - intros [(r0 & Hr0 & Hid & ->)|[Hr Hid]].
    + exists r0. by rewrite decide_True.
    + exists r. by rewrite decide_False.
Qed.

Lemma NoDup_ids_inj (rows : list OutboxMessage) r r' :
  NoDup (message_id <$> rows) → r ∈ rows → r' ∈ rows → message_id r = message_id r' → r = r'.
Proof.
  intros Hnd Hr Hr' Hid. apply list_elem_of_lookup in Hr as [i Hi].
  apply list_elem_of_lookup in Hr' as [j Hj].
  assert (i = j) as ->; [|congruence].
  eapply NoDup_lookup; [done| |]; rewrite list_lookup_fmap.
  - by rewrite Hi.
  - by rewrite Hj, Hid.
Qed.

(** *** The relay against the port *)

(** What the transport promises: it does not touch the outbox, a send that
    returned was accepted by the broker, and nothing accepted is taken back. *)
Class RelayEnvironment {S E : Type} (st : IOutboxStorage S E)
    (send : string → string → headers → comp S E unit)
    (stored : S → list OutboxMessage) (delivered : S → list (string * string * headers)) := {
  env_storage :: OutboxContract st stored;
  fetch_delivered limit max s : delivered (fetch_pending st limit max s).2 = delivered s;
  mark_delivered i s : delivered (mark_published st i s).2 = delivered s;
  retry_delivered i s : delivered (increment_retry st i s).2 = delivered s;
  send_stored n p h s : stored (send n p h s).2 = stored s;
  send_keeps n p h s : delivered s ⊆ delivered (send n p h s).2;
  send_delivers n p h s s' : send n p h s = (Ok tt, s') → (n, p, h) ∈ delivered s';
}.

Section relay_lemmas.
Context {S E : Type} (is_exception : E → bool).
Context (st : IOutboxStorage S E) (send : string → string → headers → comp S E unit).
Context (stored : S → list OutboxMessage) (delivered : S → list (string * string * headers)).
Context `{!RelayEnvironment st send stored delivered}.

(** Identifiers are unique and what is marked published was delivered. *)
Definition relay_inv (s : S) : Prop :=
  NoDup (message_id <$> stored s) ∧
  ∀ r, r ∈ stored s → is_Some (published_at r) → content r ∈ delivered s.

(** The outbox still has the message [m] was fetched from. *)
Definition holds (m : OutboxMessage) (s : S) : Prop :=
  ∃ r, r ∈ stored s ∧ message_id r = message_id m ∧ content r = content m.

Lemma holds_update m ids f s s' :
  keeps_identity f → stored s' = update_where ids f (stored s) → holds m s → holds m s'.
Proof.
  intros Hf Hs (r & Hr & Hid & Hc). unfold holds. rewrite Hs.
  destruct (decide (message_id r ∈ ids)) as [Hin|Hin].
  - exists (f r). destruct (Hf r) as [-> ->]. split_and!; [|done..].
    apply elem_of_update_where. left. by exists r.
  - exists r. split_and!; [|done..]. apply elem_of_update_where. by right.
Qed.

Lemma relay_inv_update ids f s s' :
  keeps_identity f → stored s' = update_where ids f (stored s) → delivered s ⊆ delivered s' →
  (∀ r, r ∈ stored s → message_id r ∈ ids → is_Some (published_at (f r)) →
        is_Some (published_at r) ∨ content r ∈ delivered s') →
  relay_inv s → relay_inv s'.
Proof.
  intros Hf Hs Hd Hpub [Hnd Hall]. split.
  - by rewrite Hs, update_where_ids.
  - intros r. rewrite Hs, elem_of_update_where.
    intros [(r0 & Hr0 & Hid & ->)|[Hr Hid]] Hp; [|apply Hd, Hall; done].
    destruct (Hf r0) as [_ ->]. destruct (Hpub r0 Hr0 Hid Hp) as [Hp0|]; [|done].
    by apply Hd, Hall.
Qed.

Lemma relay_inv_frame s s' :
  stored s' = stored s → delivered s ⊆ delivered s' → relay_inv s → relay_inv s'.
Proof.
  unfold relay_inv. intros -> Hd [Hnd Hall]. split; [done|]. intros r Hr Hp. by apply Hd, Hall.
Qed.

Lemma holds_frame m s s' : stored s' = stored s → holds m s → holds m s'.
Proof. unfold holds. by intros ->. Qed.

(** Every step of the relay's loop keeps the invariant, whichever call raises. *)
Lemma increment_retry_inv i s : relay_inv s → relay_inv (increment_retry st i s).2.
Proof.
  pose proof (retry_contract (st:=st) i s) as Hc. pose proof (retry_delivered i s) as Hd.
  destruct (increment_retry st i s) as [[u|e] s']; cbn in *; intros Hinv.
  - eapply relay_inv_update; [apply keeps_retry|exact Hc|by rewrite Hd|by left|done].
  - eapply relay_inv_frame; [exact Hc|by rewrite Hd|done].
Qed.

Lemma increment_retry_holds m i s : holds m s → holds m (increment_retry st i s).2.
Proof.
  pose proof (retry_contract (st:=st) i s) as Hc.
  destruct (increment_retry st i s) as [[u|e] s']; cbn in *.
  - eapply holds_update; [apply keeps_retry|exact Hc].
  - by apply holds_frame.
Qed.

Lemma mark_published_inv m s :
  holds m s → content m ∈ delivered s →
  relay_inv s → relay_inv (mark_published st (message_id m) s).2.
Proof.
  intros (r0 & Hr0 & Hid0 & Hc0) Hdel Hinv.
  pose proof (mark_contract (st:=st) (message_id m) s) as Hc.
  pose proof (mark_delivered (message_id m) s) as Hd.
  destruct (mark_published st (message_id m) s) as [[u|e] s']; cbn in *.
  - destruct Hc as [t Hc]. eapply relay_inv_update;
      [apply (keeps_published t)|exact Hc|by rewrite Hd| |done].
    intros r Hr Hid%list_elem_of_singleton _. right. rewrite Hd.
    assert (r = r0) as -> by (eapply NoDup_ids_inj; [apply Hinv|done|done|congruence]).
    by rewrite Hc0.
  - eapply relay_inv_frame; [exact Hc|by rewrite Hd|done].
Qed.

Lemma mark_published_holds m i s : holds m s → holds m (mark_published st i s).2.
Proof.
  pose proof (mark_contract (st:=st) i s) as Hc.
  destruct (mark_published st i s) as [[u|e] s']; cbn in *.
  - destruct Hc as [t Hc]. eapply holds_update; [apply keeps_published|exact Hc].
  - by apply holds_frame.
Qed.

Lemma send_inv n p h s : relay_inv s → relay_inv (send n p h s).2.
Proof. apply relay_inv_frame; [apply send_stored|apply send_keeps]. Qed.
Lemma send_holds m n p h s : holds m s → holds m (send n p h s).2.
Proof. apply holds_frame, send_stored. Qed.

Lemma relay_message_inv m m' s :
  relay_inv s → holds m s → holds m' s →
  relay_inv (relay_message is_exception st send m s).2 ∧
  holds m' (relay_message is_exception st send m s).2.
Proof.
  intros Hinv Hm Hm'. unfold relay_message, try_except, bind.
  pose proof (send_inv (message_event_name m) (payload m) (message_headers m) s Hinv) as Hi1.
  pose proof (send_holds m (message_event_name m) (payload m) (message_headers m) s Hm) as Hh1.
  pose proof (send_holds m' (message_event_name m) (payload m) (message_headers m) s Hm') as Hh1'.
  pose proof (send_delivers (message_event_name m) (payload m) (message_headers m) s) as Hdel.
  destruct (send _ _ _ s) as [[[]|e] s1]; cbn in *.
  - pose proof (mark_published_inv m s1 Hh1 (Hdel s1 eq_refl) Hi1) as Hi2.
    pose proof (mark_published_holds m' (message_id m) s1 Hh1') as Hh2.
    destruct (mark_published st (message_id m) s1) as [[[]|e] s2]; cbn in *; [done|].
    destruct (is_exception e); [|done].
    split; [by apply increment_retry_inv|by apply increment_retry_holds].
  - destruct (is_exception e); [|done].
    split; [by apply increment_retry_inv|by apply increment_retry_holds].
Qed.

Lemma relay_messages_inv ms s :
  relay_inv s → (∀ m, m ∈ ms → holds m s) →
  relay_inv (for_each (relay_message is_exception st send) ms s).2.
Proof.
  revert s. induction ms as [|m ms IH]; intros s Hinv Hms; [done|].
  cbn [for_each]. unfold bind.
  assert (relay_inv (relay_message is_exception st send m s).2 ∧
          ∀ m', m' ∈ ms → holds m' (relay_message is_exception st send m s).2) as [Hi Hh].
  { split; [by apply (relay_message_inv m m); [|apply Hms; left..]|].
    intros m' Hm'. apply relay_message_inv; [done|apply Hms; by left|apply Hms; by right]. }
  destruct (relay_message is_exception st send m s) as [[u|e] s1]; [by apply IH|done].
Qed.

Lemma fetch_inv limit max s :
  relay_inv s →
  relay_inv (fetch_pending st limit max s).2 ∧
  ∀ ms, (fetch_pending st limit max s).1 = Ok ms →
        ∀ m, m ∈ ms → holds m (fetch_pending st limit max s).2.
Proof.
  intros Hinv. pose proof (fetch_contract (st:=st) limit max s) as Hc.
  pose proof (fetch_delivered limit max s) as Hd.
  destruct (fetch_pending st limit max s) as [[ms|e] s']; cbn in *.
  - destruct Hc as ([t Hc] & Hin & _). split.
    + eapply relay_inv_update; [apply (keeps_claim t)|exact Hc|by rewrite Hd|by left|done].
    + intros ms' [= <-] m Hm. exists m. split_and!; [by apply Hin|done..].
  - split; [|done]. eapply relay_inv_frame; [exact Hc|by rewrite Hd|done].
Qed.

Lemma relay_batch_inv config : preserves relay_inv (_relay_batch is_exception st send config).
Proof.
  intros s Hinv. unfold _relay_batch, bind.
  destruct (fetch_inv (batch_size config) (max_retry_count config) s Hinv) as [Hi Hh].
  destruct (fetch_pending st _ _ s) as [[ms|e] s1]; cbn in *; [|done].
  apply relay_messages_inv; [done|]. by apply Hh.
Qed.
End relay_lemmas.

(** *** Progress of a batch *)

Section settle.
Context {S E : Type} (is_exception : E → bool).
Context (st : IOutboxStorage S E) (send : string → string → headers → comp S E unit).
Context (stored : S → list OutboxMessage) (delivered : S → list (string * string * headers)).
Context `{!RelayEnvironment st send stored delivered}.
Context (Hexc : ∀ e, is_exception e = true).
Context (Hretry : ∀ i s, (increment_retry st i s).1 = Ok tt).

(** The message is published, or was tried once more. *)
Definition settled (m : OutboxMessage) (s : S) : Prop :=
  ∃ r, r ∈ stored s ∧ message_id r = message_id m ∧
       (is_Some (published_at r) ∨ retry_count r = (retry_count m + 1)%nat).

Lemma increment_retry_effect i s :
  ∃ s', increment_retry st i s = (Ok tt, s') ∧
        stored s' = update_where [i] with_retry (stored s).
Proof.
  pose proof (retry_contract (st:=st) i s) as Hc. pose proof (Hretry i s) as Ho.
  destruct (increment_retry st i s) as [o s']; cbn in Ho; subst. eauto.
Qed.

Lemma relay_message_effect m s :
  ∃ s' f, relay_message is_exception st send m s = (Ok tt, s') ∧ keeps_identity f ∧
    stored s' = update_where [message_id m] f (stored s) ∧
    ∀ r, is_Some (published_at (f r)) ∨ retry_count (f r) = (retry_count r + 1)%nat.
Proof.
  assert (∀ s1, stored s1 = stored s →
    ∃ s' f, increment_retry st (message_id m) s1 = (Ok tt, s') ∧ keeps_identity f ∧
      stored s' = update_where [message_id m] f (stored s) ∧
      ∀ r, is_Some (published_at (f r)) ∨ retry_count (f r) = (retry_count r + 1)%nat) as Hr.
  { intros s1 Hs1. destruct (increment_retry_effect (message_id m) s1) as (s' & Hi & Hs').
    exists s', with_retry. rewrite <-Hs1. split_and!; [done|apply keeps_retry|done|by right]. }
  unfold relay_message, try_except, bind.
  pose proof (send_stored (message_event_name m) (payload m) (message_headers m) s) as Hs1.
  destruct (send _ _ _ s) as [[[]|e] s1]; cbn in Hs1; [|rewrite Hexc; by apply Hr].
  pose proof (mark_contract (st:=st) (message_id m) s1) as Hm.
  destruct (mark_published st (message_id m) s1) as [[[]|e] s2]; [|rewrite Hexc; apply Hr; congruence].
  destruct Hm as [t Hm]. exists s2, (with_published t). rewrite <-Hs1.
  split_and!; [done|apply keeps_published|done|]. left. by eexists.
Qed.

Lemma settled_update m i f s s' :
  message_id m ≠ i → stored s' = update_where [i] f (stored s) → settled m s → settled m s'.
Proof.
  intros Hne Hs (r & Hr & Hid & Hst). exists r. split_and!; [|done..]. rewrite Hs.
  apply elem_of_update_where. right. split; [done|]. by rewrite list_elem_of_singleton, Hid.
Qed.

Lemma relay_messages_settle ms s :
  NoDup (message_id <$> ms) → NoDup (message_id <$> stored s) → (∀ m, m ∈ ms → m ∈ stored s) →
  ∃ s', for_each (relay_message is_exception st send) ms s = (Ok tt, s') ∧
    (∀ m, m ∈ ms → settled m s') ∧
    (∀ m, message_id m ∉ message_id <$> ms → settled m s → settled m s').
Proof.
  revert s. induction ms as [|m ms IH]; intros s Hms Hnd Hin.
  { exists s. split_and!; [done|intros m Hm; by apply not_elem_of_nil in Hm|done]. }
  rewrite fmap_cons, NoDup_cons in Hms. destruct Hms as [Hm Hms]. cbn [for_each]. unfold bind.
  destruct (relay_message_effect m s) as (s1 & f & -> & Hf & Hs1 & Hset).
  destruct (IH s1) as (s' & Hrun & Hall & Hkeep); [done|by rewrite Hs1, update_where_ids| |].
  { intros m' Hm'. rewrite Hs1. apply elem_of_update_where. right.
    split; [apply Hin; by right|]. rewrite list_elem_of_singleton. intros Heq. apply Hm.
    rewrite <-Heq. by apply list_elem_of_fmap_2. }
  exists s'. split_and!; [done| |].
  - intros m' [->|Hm']%elem_of_cons; [|by apply Hall]. apply Hkeep; [done|].
    exists (f m). destruct (Hf m) as [-> _]. split_and!; [|done|apply Hset].
    rewrite Hs1. apply elem_of_update_where. left. exists m.
    split_and!; [apply Hin; by left|by apply list_elem_of_singleton|done].
  - intros m' Hm' Hst. rewrite fmap_cons, not_elem_of_cons in Hm'. destruct Hm' as [Hne Hm'].
    apply Hkeep; [done|]. by eapply settled_update.
Qed.
End settle.

(** *** The SQL storage implements the port *)

Section sql_lemmas.
Context `{SqlEngine} (timeout : Z).

Lemma elem_of_pending_row limit max d r :
  NoDup (message_id <$> outbox_table d) → r ∈ outbox_table d →
  message_id r ∈ pending_ids timeout limit max d →
  claimable (db_now d - timeout) max (locked d) r = true.
Proof.
  intros Hnd Hr (r' & Hid & Hr')%list_elem_of_fmap.
  apply elem_of_take in Hr' as (k & Hr'%list_elem_of_lookup_2 & _).
  rewrite order_by_created_perm in Hr'.
  apply list_elem_of_In, List.filter_In in Hr' as [Hr' Hc]. apply list_elem_of_In in Hr'.
  by rewrite (NoDup_ids_inj _ r r' Hnd Hr Hr' Hid).
Qed.

Lemma update_where_ext ids ids' f rows :
  (∀ r, r ∈ rows → message_id r ∈ ids ↔ message_id r ∈ ids') →
  update_where ids f rows = update_where ids' f rows.
Proof.
  intros Heq. unfold update_where. apply list_fmap_ext. intros i r Hr.
  apply list_elem_of_lookup_2, Heq in Hr. by apply decide_ext.
Qed.

(** The rows a fetch claims and returns *)
Definition claimed_rows (limit max : nat) (d : database) : list OutboxMessage :=
  returning_order (List.filter (λ r, bool_decide (message_id r ∈ pending_ids timeout limit max d))
    (update_where (pending_ids timeout limit max d) (with_claim (db_now d)) (outbox_table d))).

Lemma elem_of_claimed_rows limit max d m :
  m ∈ claimed_rows limit max d ↔
  ∃ r, r ∈ outbox_table d ∧ message_id r ∈ pending_ids timeout limit max d ∧
       m = with_claim (db_now d) r.
Proof.
  unfold claimed_rows. rewrite returning_order_perm, list_elem_of_In, List.filter_In.
  rewrite <-list_elem_of_In, bool_decide_eq_true, elem_of_update_where. split.
  - intros [[(r & Hr & Hid & ->)|[Hr Hid]] Hin]; [by exists r|done].
  - intros (r & Hr & Hid & ->). split; [left; by exists r|done].
Qed.

Lemma claimed_rows_ids limit max d :
  NoDup (message_id <$> outbox_table d) →
  NoDup (message_id <$> claimed_rows limit max d) ∧
  (length (claimed_rows limit max d) ≤ limit)%nat.
Proof.
  intros Hnd.
  assert (NoDup (message_id <$> claimed_rows limit max d)) as Hnd'.
  { unfold claimed_rows. rewrite returning_order_perm.
    rewrite <-(update_where_ids (pending_ids timeout limit max d) (with_claim (db_now d)))
      in Hnd by apply keeps_claim.
    revert Hnd. generalize (update_where (pending_ids timeout limit max d)
      (with_claim (db_now d)) (outbox_table d)). intros rows.
    induction rows as [|r rows IH]; [done|]. rewrite fmap_cons, NoDup_cons. intros [Hr Hrows].
    cbn [List.filter]. case_bool_decide; [|auto]. rewrite fmap_cons, NoDup_cons.
    split; [|auto]. intros (r' & Hid & Hr')%list_elem_of_fmap. apply Hr.
    apply list_elem_of_In, List.filter_In in Hr' as [Hr' _]. apply list_elem_of_In in Hr'.
    rewrite Hid. by apply list_elem_of_fmap_2. }
  split; [done|].
  assert (message_id <$> claimed_rows limit max d ⊆+ pending_ids timeout limit max d) as Hsub.
  { apply NoDup_submseteq; [done|]. intros i (m & -> & Hm)%list_elem_of_fmap.
    apply elem_of_claimed_rows in Hm as (r & _ & Hid & ->). exact Hid. }
  apply submseteq_length in Hsub. rewrite length_fmap in Hsub.
  etrans; [exact Hsub|]. unfold pending_ids. rewrite length_fmap, length_take. lia.
Qed.

Lemma sql_fetch_eq limit max d :
  sql_fetch_pending timeout limit max d =
    (Ok (claimed_rows limit max d),
     mk_database (update_where (pending_ids timeout limit max d) (with_claim (db_now d))
                    (outbox_table d)) (session_view d) (db_now d) (locked d)).
Proof. done. Qed.

Lemma claimed_rows_pending limit max d r :
  r ∈ outbox_table d →
  message_id r ∈ pending_ids timeout limit max d ↔
  message_id r ∈ message_id <$> claimed_rows limit max d.
Proof.
  intros Hr. split.
  - intros Hid. apply list_elem_of_fmap. exists (with_claim (db_now d) r). split; [done|].
    apply elem_of_claimed_rows. by exists r.
  - intros (m & -> & (r' & _ & Hid & ->)%elem_of_claimed_rows)%list_elem_of_fmap. exact Hid.
Qed.
End sql_lemmas.

#[export] Instance SqlAlchemyOutboxStorage_contract `{SqlEngine} timeout :
  OutboxContract (SqlAlchemyOutboxStorage timeout) outbox_table.
Proof.
  split.
  - intros limit max d. cbn [fetch_pending SqlAlchemyOutboxStorage].
    rewrite sql_fetch_eq. cbn [outbox_table]. split_and!.
    + exists (db_now d). apply update_where_ext. apply claimed_rows_pending.
    + intros m (r & Hr & Hid & ->)%elem_of_claimed_rows. apply elem_of_update_where.
      left. by exists r.
    + intros Hnd. destruct (claimed_rows_ids timeout limit max d Hnd) as [Hnd' Hlen].
      split_and!; [done..|]. intros m (r & Hr & Hid & ->)%elem_of_claimed_rows.
      pose proof (elem_of_pending_row timeout limit max d r Hnd Hr Hid) as Hc.
      unfold claimable in Hc. rewrite !andb_true_iff, bool_decide_eq_true, Nat.ltb_lt in Hc.
      cbn. naive_solver.
  - intros i d. by exists (db_now d).
  - by intros i d.
Qed.

(** ** The life of the table

    The steps any participant may take: a transaction commits a message it
    saved, a relay fetches, marks or retries, time passes, other transactions
    take and release locks or change their sessions. *)

Section table_life.
Context `{SqlEngine} (timeout : Z).

Inductive outbox_step : database → database → Prop :=
  | step_commit d m :
      message_id m ∉ message_id <$> outbox_table d →
      published_at m = None → retry_count m = 0%nat → claimed_at m = None →
      outbox_step d (mk_database (outbox_table d ++ [m]) (session_view d) (db_now d) (locked d))
  | step_fetch d limit max : outbox_step d (sql_fetch_pending timeout limit max d).2
  | step_mark d i : outbox_step d (sql_mark_published i d).2
  | step_retry d i : outbox_step d (sql_increment_retry i d).2
  | step_other d view t held :
      (db_now d ≤ t)%Z → outbox_step d (mk_database (outbox_table d) view t held).

(** A property of rows that no step from time [t0] on destroys *)
Record stable_row (t0 : Z) (Q : OutboxMessage → Prop) : Prop := {
  stable_claim r t : (t0 ≤ t)%Z → Q r → Q (with_claim t r);
  stable_published r t : Q r → Q (with_published t r);
  stable_retry r : Q r → Q (with_retry r);
}.

(** The rows with these identifiers exist, once each, and satisfy [Q]. *)
Definition tracked (t0 : Z) (Q : OutboxMessage → Prop) (ids : list N) (d : database) : Prop :=
  NoDup (message_id <$> outbox_table d) ∧ (t0 ≤ db_now d)%Z ∧
  ∀ i, i ∈ ids → ∃ r, r ∈ outbox_table d ∧ message_id r = i ∧ Q r.

Lemma tracked_update t0 Q ids ids' f d view held :
  keeps_identity f → (∀ r, Q r → Q (f r)) → tracked t0 Q ids d →
  tracked t0 Q ids (mk_database (update_where ids' f (outbox_table d)) view (db_now d) held).
Proof.
  intros Hf HQ (Hnd & Ht & Hall). split_and!; cbn; [by rewrite update_where_ids|done|].
  intros i Hi. destruct (Hall i Hi) as (r & Hr & Hid & Hq).
  destruct (decide (message_id r ∈ ids')) as [Hin|Hin].
  - exists (f r). destruct (Hf r) as [-> _]. split_and!; [|done|by apply HQ].
    apply elem_of_update_where. left. by exists r.
  - exists r. split_and!; [|done..]. apply elem_of_update_where. by right.
Qed.

Lemma tracked_step t0 Q ids d d' :
  stable_row t0 Q → tracked t0 Q ids d → outbox_step d d' → tracked t0 Q ids d'.
Proof.
  intros [Hc Hp Hr] Htr Hstep. destruct Hstep.
  - destruct Htr as (Hnd & Ht & Hall). split_and!; cbn; [|done|].
    + rewrite fmap_app. apply NoDup_app. split_and!; [done| |apply NoDup_singleton].
      intros i Hi ->%list_elem_of_singleton. done.
    + intros i Hi. destruct (Hall i Hi) as (r & ? & ? & ?). exists r. set_solver.
  - rewrite sql_fetch_eq. apply tracked_update; [apply keeps_claim| |done].
    intros r. apply Hc, Htr.
  - by apply tracked_update; [apply keeps_published|auto|].
  - by apply tracked_update; [apply keeps_retry|auto|].
  - destruct Htr as (Hnd & Ht & Hall). split_and!; cbn; [done|lia|done].
Qed.

Lemma tracked_steps t0 Q ids d d' :
  stable_row t0 Q → rtc outbox_step d d' → tracked t0 Q ids d → tracked t0 Q ids d'.
Proof. intros HQ. induction 1; eauto using tracked_step. Qed.

(** A claimed row is one the fetch could claim. *)
Lemma tracked_claimable t0 Q ids d limit max m :
  tracked t0 Q ids d → m ∈ claimed_rows timeout limit max d → message_id m ∈ ids →
  ∃ r, Q r ∧ claimable (db_now d - timeout) max (locked d) r = true.
Proof.
  intros (Hnd & _ & Hall) (r & Hr & Hid & ->)%elem_of_claimed_rows Hin.
  destruct (Hall _ Hin) as (r' & Hr' & Hid' & Hq). exists r'. split; [done|].
  assert (r' = r) as -> by (by eapply NoDup_ids_inj).
  by eapply elem_of_pending_row.
Qed.

Definition claimed_since (t0 : Z) (r : OutboxMessage) : Prop :=
  ∃ t, claimed_at r = Some t ∧ (t0 ≤ t)%Z.
Lemma claimed_since_stable t0 : stable_row t0 (claimed_since t0).
Proof. split; unfold claimed_since; cbn; eauto. Qed.

Definition exhausted (max : nat) (r : OutboxMessage) : Prop := (max ≤ retry_count r)%nat.
Lemma exhausted_stable t0 max : stable_row t0 (exhausted max).
Proof. split; unfold exhausted; cbn; intros; lia. Qed.
End table_life.

(** ** The bus inside a transaction

    The database of the application is the outbox table beside the tables of the
    business. [save] adds its message to the outbox of the session and leaves the
    business data of the session alone; drawing identifiers, reading the clock
    and the ambient trace do not touch the database. *)

(** The row [save] adds: the columns it does not name take their defaults. *)
Definition pending_row (m : OutboxMessage) : OutboxMessage :=
  mk_message (message_id m) (message_event_name m) (payload m) (message_headers m)
    (created_at m) None 0 None.

Class OutboxSession {E R W B : Type} `{!ITracePropagator R} `{MessageStamps W}
    (st : IOutboxStorage (app R W) (event_error E))
    (durable : app R W → list OutboxMessage * B)
    (working : app R W → option (list OutboxMessage * B)) := {
  save_durable m s : durable (save st m s).2 = durable s;
  save_needs_session m s s' : save st m s = (Ok tt, s') → is_Some (working s);
  save_working m s s' rows b :
    save st m s = (Ok tt, s') → working s = Some (rows, b) →
    working s' = Some (rows ++ [pending_row m], b);
  save_open m s : is_Some (working s) → is_Some (working (save st m s).2);
  frame_world a c x w w' :
    w' = (uuid4 w).2 ∨ w' = (utc_now w).2 ∨ w' = w →
    ∀ a' c' x', durable (mk_app a' c' x' w') = durable (mk_app a c x w) ∧
                working (mk_app a' c' x' w') = working (mk_app a c x w);
}.

Section outbox_session.
Context {E R W B : Type} `{!ITracePropagator R} `{MessageStamps W}.
Context (st : IOutboxStorage (app R W) (event_error E)).
Context (durable : app R W → list OutboxMessage * B).
Context (working : app R W → option (list OutboxMessage * B)).
Context `{!OutboxSession st durable working}.

Definition same_database (s s' : app R W) : Prop :=
  durable s' = durable s ∧ working s' = working s.

Lemma same_database_trans s1 s2 s3 :
  same_database s1 s2 → same_database s2 s3 → same_database s1 s3.
Proof. unfold same_database. intros [] []. split; congruence. Qed.

Lemma inject_trace_frame (h : headers) s :
  same_database s (inject_trace (E:=E) h s).2.
Proof.
  unfold inject_trace. destruct (port_inject h (ambient s)) as [o x]. destruct s as [a c x0 w].
  apply (frame_world (st:=st)). by right; right.
Qed.

Lemma draw_uuid4_frame s : same_database s (draw_stamp (E:=E) (R:=R) uuid4 s).2.
Proof.
  unfold draw_stamp. destruct s as [a c x w]; cbn. destruct (uuid4 w) as [n w'] eqn:Hw.
  apply (frame_world (st:=st)). left. by rewrite Hw.
Qed.

Lemma draw_now_frame s : same_database s (draw_stamp (E:=E) (R:=R) utc_now s).2.
Proof.
  unfold draw_stamp. destruct s as [a c x w]; cbn. destruct (utc_now w) as [n w'] eqn:Hw.
  apply (frame_world (st:=st)). right; left. by rewrite Hw.
Qed.

(** Everything [send] does before [save] *)
Lemma bus_send_cases dump_json i e s :
  ∃ s1, same_database s s1 ∧
    ((∃ err, OutboxEventBus_send st dump_json i e s = (Raise err, s1)) ∨
     ∃ m, message_event_name m = event_name e ∧ payload m = dump_json e ∧ published_at m = None ∧
          OutboxEventBus_send st dump_json i e s = save st m s1).
Proof.
  unfold OutboxEventBus_send, bind, lift.
  pose proof (inject_trace_frame [] s) as H1.
  destruct (inject_trace [] s) as [[h|err] s1]; cbn in H1; [|exists s1; eauto].
  destruct (inject_auth i h) as [h'|err]; [|exists s1; eauto].
  pose proof (same_database_trans _ _ _ H1 (draw_uuid4_frame s1)) as H2.
  destruct (draw_stamp uuid4 s1) as [[mid|err] s2]; cbn in H2; [|exists s2; eauto].
  pose proof (same_database_trans _ _ _ H2 (draw_now_frame s2)) as H3.
  destruct (draw_stamp utc_now s2) as [[t|err] s3]; cbn in H3; exists s3; (split; [done|]).
  - right. by exists (mk_message mid (event_name e) (dump_json e) h' t None 0 None).
  - left. eauto.
Qed.

Lemma bus_send_durable dump_json i e s :
  durable (OutboxEventBus_send st dump_json i e s).2 = durable s.
Proof.
  destruct (bus_send_cases dump_json i e s) as (s1 & [Hd Hw] & [[err ->]|(m & _ & _ & _ & ->)]).
  - done.
  - by rewrite save_durable.
Qed.

Lemma bus_send_open dump_json i e s :
  is_Some (working s) → is_Some (working (OutboxEventBus_send st dump_json i e s).2).
Proof.
  destruct (bus_send_cases dump_json i e s) as (s1 & [Hd Hw] & [[err ->]|(m & _ & _ & _ & ->)]);
    cbn; rewrite <-Hw; [done|apply save_open].
Qed.

Lemma bus_send_Ok dump_json i e s s' :
  OutboxEventBus_send st dump_json i e s = (Ok tt, s') →
  ∃ rows b m, working s = Some (rows, b) ∧ working s' = Some (rows ++ [m], b) ∧
    message_event_name m = event_name e ∧ payload m = dump_json e ∧ published_at m = None.
Proof.
  destruct (bus_send_cases dump_json i e s) as (s1 & [Hd Hw] & [[err ->]|(m & Hn & Hp & _ & ->)]);
    [done|]. intros Hsave. destruct (save_needs_session m s1 s' Hsave) as [[rows b] Hs].
  exists rows, b, (pending_row m). rewrite <-Hw. split_and!; try done. by eapply save_working.
Qed.

(** A use case that ends by publishing *)
Lemma publishing_use_case {A} (use_case : comp (app R W) (event_error E) A) dump_json i e :
  let body := a <- use_case ;; OutboxEventBus_send st dump_json i e ;;; ret a in
  (∀ s, durable (use_case s).2 = durable s) →
  (∀ s, is_Some (working s) → is_Some (working (use_case s).2)) →
  (∀ s, durable (body s).2 = durable s) ∧
  (∀ s, is_Some (working s) → is_Some (working (body s).2)).
Proof.
  intros body Hdur Hopen. unfold body, bind. split; intros s.
  - specialize (Hdur s). destruct (use_case s) as [[x|x] s2]; [|done]. cbn in Hdur.
    pose proof (bus_send_durable dump_json i e s2) as Hb.
    destruct (OutboxEventBus_send st dump_json i e s2) as [[] s3]; cbn in *; congruence.
  - intros Hs. specialize (Hopen s Hs). destruct (use_case s) as [[x|x] s2]; [|done].
    pose proof (bus_send_open dump_json i e s2 Hopen) as Hb.
    by destruct (OutboxEventBus_send st dump_json i e s2) as [[] s3].
Qed.
End outbox_session.

(** *** The SQL storage in the session of a transaction

    One database with the outbox table and the business data [B]. A session is a
    copy of both ([session_view] tells whether one is open), which a commit writes back unless the database refuses it
    ([refuses]: a constraint, a serialization failure, a lost connection); the
    operations of the outbox are those of [SqlAlchemyOutboxStorage]. *)

Record sql_world (B : Type) := mk_sql_world {
  drawn : N;
  outbox_database : database;
  business : B;
  business_view : B;
}.
Arguments mk_sql_world {B}.
Arguments drawn {B}.
Arguments outbox_database {B}.
Arguments business {B}.
Arguments business_view {B}.

#[export] Instance sql_world_stamps {B} : MessageStamps (sql_world B) := {
  uuid4 w := (drawn w, mk_sql_world (drawn w + 1) (outbox_database w) (business w) (business_view w));
  utc_now w := (db_now (outbox_database w), w);
}.

Section sql_session.
Context {E R B : Type} `{!ITracePropagator R} `{SqlEngine} (timeout : Z).
Context (wrap : storage_error → E) (refuses : sql_world B → option E).

Abbreviation sql_app := (app R (sql_world B)).
Abbreviation action := (comp sql_app (event_error E)).

Definition sql_durable (s : sql_app) : list OutboxMessage * B :=
  (outbox_table (outbox_database (world s)), business (world s)).
Definition sql_working (s : sql_app) : option (list OutboxMessage * B) :=
  (λ rows, (rows, business_view (world s))) <$> session_view (outbox_database (world s)).

Definition set_sql_world (s : sql_app) (w : sql_world B) : sql_app :=
  mk_app (aggregates s) (collector s) (ambient s) w.
Definition with_database (w : sql_world B) (d : database) : sql_world B :=
  mk_sql_world (drawn w) d (business w) (business_view w).

Definition on_database {A} (m : comp database storage_error A) : action A := λ s,
  let '(r, d) := m (outbox_database (world s)) in
  (map_error (λ e, UserError (wrap e)) r, set_sql_world s (with_database (world s) d)).

Definition sql_session_storage : IOutboxStorage sql_app (event_error E) :=
  let st := SqlAlchemyOutboxStorage timeout in
  mk_storage (λ m, on_database (save st m)) (λ l r, on_database (fetch_pending st l r))
    (λ i, on_database (mark_published st i)) (λ i, on_database (increment_retry st i)).

(** The session set to [v], the tables to [p] *)
Definition put (p : list OutboxMessage * B) (v : option (list OutboxMessage * B)) (s : sql_app)
    : sql_app :=
  let d := outbox_database (world s) in
  set_sql_world s (mk_sql_world (drawn (world s))
    (mk_database p.1 (fst <$> v) (db_now d) (locked d)) p.2
    (default (business_view (world s)) (snd <$> v))).

Definition sql_transaction : AbstractTransaction sql_app (event_error E) := mk_transaction true
  (modify (λ s, put (sql_durable s) (Some (sql_durable s)) s))
  (modify (λ s, put (sql_durable s) None s))
  (s <- get_state ;;
   match sql_working s, refuses (world s) with
   | None, _ => ret tt
   | Some _, Some e => raise (UserError e)
   | Some d, None => modify (put d (Some d))
   end)
  (modify (λ s, put (sql_durable s) (Some (sql_durable s)) s)).

(** A statement of the business on the data of its session *)
Definition on_business {A} (f : B → A * B) : action A := λ s,
  let '(a, b) := f (business_view (world s)) in
  (Ok a, set_sql_world s (mk_sql_world (drawn (world s)) (outbox_database (world s))
                            (business (world s)) b)).

Lemma put_durable p v s : sql_durable (put p v s) = p.
Proof. by destruct p. Qed.
Lemma put_working p v s : sql_working (put p v s) = v.
Proof. by destruct v as [[]|]. Qed.

#[export] Instance sql_transaction_laws : TransactionLaws sql_transaction sql_durable sql_working.
Proof.
  split; [split|..].
  - intros s s' d. cbn. unfold bind, get_state. intros Hc Hw. rewrite Hw in Hc.
    destruct (refuses (world s)); [done|]. injection Hc as <-. apply put_durable.
  - intros s e s'. cbn. unfold bind, get_state. destruct (sql_working s); [|done].
    destruct (refuses (world s)); [by intros [= _ <-]|done].
  - intros s. apply put_durable.
  - intros s. apply put_durable.
  - done.
  - intros s. apply put_durable.
  - intros s s' [= <-]. apply put_working.
Qed.

#[export] Instance sql_outbox_session : OutboxSession sql_session_storage sql_durable sql_working.
Proof.
  assert (∀ m s, save sql_session_storage m s =
    match session_view (outbox_database (world s)) with
    | None => (Raise (UserError (wrap SessionNotInitializedError)),
               set_sql_world s (with_database (world s) (outbox_database (world s))))
    | Some rows => (Ok tt, set_sql_world s (with_database (world s)
        (mk_database (outbox_table (outbox_database (world s))) (Some (rows ++ [pending_row m]))
           (db_now (outbox_database (world s))) (locked (outbox_database (world s))))))
    end) as Hsave.
  { intros m s. cbn. unfold on_database, sql_save, bind, get_state. by destruct (session_view _). }
  split.
  - intros m s. rewrite Hsave. by destruct (session_view _).
  - intros m s s'. rewrite Hsave. unfold sql_working. destruct (session_view _); by eauto.
  - intros m s s' rows b. rewrite Hsave. unfold sql_working. destruct (session_view _) as [v|]; [|done].
    by intros [= <-] [= <- <-].
  - intros m s. rewrite Hsave. unfold sql_working.
    destruct (session_view _) as [v|]; [by eauto|]. by intros [].
  - intros a c x w w' [-> | [-> | ->]] a' c' x'; done.
Qed.
End sql_session.

(** ** Properties *)

(** C12. The relay marks as published only what the broker accepted: against any
    storage and transport that honour their ports, in every schedule of polls and
    wherever a call raises, a stored message whose [published_at] is set has been
    delivered with its own name, payload and headers. *)
Theorem relay_publishes_only_delivered {S E} (is_exception : E → bool)
    (st : IOutboxStorage S E) send stored delivered
    `{!RelayEnvironment st send stored delivered} config schedule s :
  relay_inv stored delivered s →
  relay_inv stored delivered (run is_exception st send config schedule s).2.
Proof.
  revert s. induction schedule as [|[] schedule IH]; intros s Hs; cbn [run]; [done..|].
  unfold bind. pose proof (relay_batch_inv is_exception st send stored delivered config s Hs) as Hb.
  destruct (_relay_batch is_exception st send config s) as [[u|e] s1]; [by apply IH|done].
Qed.

(** C38. A batch settles every message it fetched: when the storage can record
    retries and no interpreter exit intervenes, the relay returns, and each
    fetched message is either published or has been charged one retry. *)
Theorem relay_batch_settles {S E} (is_exception : E → bool)
    (st : IOutboxStorage S E) send stored delivered
    `{!RelayEnvironment st send stored delivered} config s ms s1 :
  (∀ e, is_exception e = true) → (∀ i s, (increment_retry st i s).1 = Ok tt) →
  NoDup (message_id <$> stored s) →
  fetch_pending st (batch_size config) (max_retry_count config) s = (Ok ms, s1) →
  ∃ s', _relay_batch is_exception st send config s = (Ok tt, s') ∧
    (length ms ≤ batch_size config)%nat ∧ ∀ m, m ∈ ms → settled stored m s'.
Proof.
  intros Hexc Hretry Hnd Hf.
  pose proof (fetch_contract (st:=st) (batch_size config) (max_retry_count config) s) as Hc.
  rewrite Hf in Hc. destruct Hc as ([t Hs1] & Hin & Hrest). destruct (Hrest Hnd) as (Hlen & Hms & _).
  destruct (relay_messages_settle is_exception st send stored delivered Hexc Hretry ms s1)
    as (s' & Hrun & Hall & _); [done|by rewrite Hs1, update_where_ids|done|].
  exists s'. unfold _relay_batch, bind. by rewrite Hf.
Qed.

(** C13. Claims are exclusive: within the claim timeout, whatever other relays and
    transactions do between two fetches, no message is returned by both. *)
Theorem claims_exclusive `{SqlEngine} timeout limit1 max1 limit2 max2 d ms1 d1 d2 ms2 d3 :
  NoDup (message_id <$> outbox_table d) →
  sql_fetch_pending timeout limit1 max1 d = (Ok ms1, d1) →
  rtc (outbox_step timeout) d1 d2 →
  (db_now d2 - db_now d ≤ timeout)%Z →
  sql_fetch_pending timeout limit2 max2 d2 = (Ok ms2, d3) →
  ∀ m1 m2, m1 ∈ ms1 → m2 ∈ ms2 → message_id m1 ≠ message_id m2.
Proof.
  intros Hnd Hf1 Hsteps Ht Hf2 m1 m2 Hm1 Hm2 Heq.
  rewrite sql_fetch_eq in Hf1, Hf2. injection Hf1 as <- <-. injection Hf2 as <- _.
  destruct (tracked_claimable timeout (db_now d) (claimed_since (db_now d)) [message_id m2]
              d2 limit2 max2 m2) as (r & (t & Hc & Hle) & Hcl); [|done|by left|].
  - eapply tracked_steps; [apply claimed_since_stable|exact Hsteps|].
    split_and!; cbn; [by rewrite update_where_ids|lia|].
    intros i ->%list_elem_of_singleton.
    apply elem_of_claimed_rows in Hm1 as (r & Hr & Hid & ->).
    exists (with_claim (db_now d) r). split_and!; [|exact Heq|by eexists].
    apply elem_of_update_where. left. by exists r.
  - unfold claimable in Hcl. rewrite Hc, !andb_true_iff, Z.ltb_lt in Hcl. lia.
Qed.

(** Delivery is given up silently: a message that has used its retries is never
    returned by any later fetch with that limit, whatever happens in between. *)
Theorem exhausted_message_never_fetched `{SqlEngine} timeout limit max d r d2 ms d3 :
  NoDup (message_id <$> outbox_table d) → r ∈ outbox_table d → (max ≤ retry_count r)%nat →
  rtc (outbox_step timeout) d d2 →
  sql_fetch_pending timeout limit max d2 = (Ok ms, d3) →
  message_id r ∉ message_id <$> ms.
Proof.
  intros Hnd Hr Hmax Hsteps Hf (m & Hid & Hm)%list_elem_of_fmap.
  rewrite sql_fetch_eq in Hf. injection Hf as <- _.
  destruct (tracked_claimable timeout (db_now d) (exhausted max) [message_id m]
              d2 limit max m) as (r' & Hex & Hcl); [|done|by left|].
  - eapply tracked_steps; [apply exhausted_stable|exact Hsteps|].
    split_and!; [done|lia|]. intros i ->%list_elem_of_singleton. by exists r.
  - unfold claimable, exhausted in *. rewrite !andb_true_iff, Nat.ltb_lt in Hcl. lia.
Qed.

(** C3. An integration event is stored exactly when the business data is. When a
    transactional use case that publishes through the outbox bus returns, the
    whole database holds what the session of the use case held when it ended:
    its business data as it left them, and its outbox with one more row, which
    has the name and the payload of the event and is not published. When it
    raises, at any point up to and including the commit, the whole database is
    as before. [OutboxSession] and [TransactionLaws] are discharged for the SQL
    storage by [sql_outbox_session] and [sql_transaction_laws]. *)
Theorem outbox_event_atomic {E R W B A : Type} `{!ITracePropagator R} `{MessageStamps W}
    (st : IOutboxStorage (app R W) (event_error E)) t
    (durable : app R W → list OutboxMessage * B)
    (working : app R W → option (list OutboxMessage * B))
    `{!TransactionLaws t durable working} `{!OutboxSession st durable working}
    (use_case : comp (app R W) (event_error E) A) dump_json i e s :
  autocommit_enabled t = true →
  (∀ s1, durable (use_case s1).2 = durable s1) →
  (∀ s1, is_Some (working s1) → is_Some (working (use_case s1).2)) →
  match with_transaction t
          (a <- use_case ;; OutboxEventBus_send st dump_json i e ;;; ret a) s with
  | (Ok a, s') => ∃ s1 s2 rows b m,
      use_case s1 = (Ok a, s2) ∧ working s1 = Some (durable s) ∧
      working s2 = Some (rows, b) ∧ durable s' = (rows ++ [m], b) ∧
      message_event_name m = event_name e ∧ payload m = dump_json e ∧ published_at m = None
  | (Raise err, s') => durable s' = durable s
  end.
Proof.
  intros Hauto Hdur Hopen.
  destruct (publishing_use_case st durable working use_case dump_json i e Hdur Hopen)
    as [Hbd Hbo].
  pose proof (with_transaction_cases t durable working _ s Hauto Hbd Hbo) as Hcases.
  destruct (with_transaction _ _ s) as [[a|err] s']; [|done].
  destruct Hcases as (s1 & s3 & Hi & Hb & Hw3).
  apply bind_Ok_inv in Hb as (a' & s2 & Huc & Hb).
  apply bind_Ok_inv in Hb as ([] & s3' & Hsend & Hb). injection Hb as -> ->.
  destruct (bus_send_Ok st durable working _ _ _ _ _ Hsend) as (rows & b & m & Hd & Hd' & Hm).
  exists s1, s2, rows, b, m. rewrite Hw3 in Hd'. injection Hd' as <-.
  pose proof (initialize_working s s1 Hi). done.
Qed.

(** ** Witnesses: the SQL storage, a broker that records what it accepts *)

#[export] Program Instance ex_engine : SqlEngine := {
  order_by_created := sort_by (λ a b, created_at a <=? created_at b)%Z;
  returning_order l := l;
}.
Next Obligation. intros l. apply sort_by_perm. Qed.
Next Obligation.
  intros l. eapply Sorted_weaken; [|apply sort_by_sorted].
  - intros a b H%Z.leb_le. exact H.
  - intros a b. rewrite Z.leb_gt, Z.leb_le. lia.
Qed.
Next Obligation. done. Qed.

(** A storage beside another component of the state *)
Section beside.
Context {S L E : Type}.
Definition on_fst {A} (m : comp S E A) : comp (S * L) E A := λ s,
  let '(o, s') := m s.1 in (o, (s', s.2)).
Definition beside (st : IOutboxStorage S E) : IOutboxStorage (S * L) E :=
  mk_storage (λ m, on_fst (save st m)) (λ l r, on_fst (fetch_pending st l r))
    (λ i, on_fst (mark_published st i)) (λ i, on_fst (increment_retry st i)).

Lemma beside_contract st stored :
  OutboxContract st stored → OutboxContract (beside st) (λ s : S * L, stored s.1).
Proof.
  intros Hst. split.
  - intros limit max s. pose proof (fetch_contract (st:=st) limit max s.1) as H.
    cbn. unfold on_fst. by destruct (fetch_pending st limit max s.1) as [[] ?].
  - intros i s. pose proof (mark_contract (st:=st) i s.1) as H.
    cbn. unfold on_fst. by destruct (mark_published st i s.1) as [[] ?].
  - intros i s. pose proof (retry_contract (st:=st) i s.1) as H.
    cbn. unfold on_fst. by destruct (increment_retry st i s.1) as [[] ?].
Qed.
End beside.

Definition ex_state : Type := database * list (string * string * headers).
Definition ex_storage : IOutboxStorage ex_state storage_error :=
  beside (SqlAlchemyOutboxStorage 300).
Definition ex_send (n p : string) (h : headers) : comp ex_state storage_error unit :=
  if decide (n = "Poison") then raise SessionNotInitializedError
  else modify (λ s, (s.1, s.2 ++ [(n, p, h)])).

#[export] Instance ex_environment :
  RelayEnvironment ex_storage ex_send (λ s, outbox_table s.1) snd.
Proof.
  split.
  - apply beside_contract, _.
  - done.
  - done.
  - done.
  - intros n p h s. unfold ex_send. by case_decide.
  - intros n p h s. unfold ex_send. case_decide; cbn; [done|set_solver].
  - intros n p h s s'. unfold ex_send. case_decide; [done|]. intros [= <-]. cbn. set_solver.
Qed.

Definition ex_message (i : N) (n : string) : OutboxMessage := mk_message i n "{}" [] 0 None 0 None.
Definition ex_table : list OutboxMessage := [ex_message 1 "Paid"; ex_message 2 "Poison"].
Definition ex_outbox : ex_state := (mk_database ex_table None 1000 [], []).

Lemma ex_outbox_inv : relay_inv (λ s, outbox_table s.1) snd ex_outbox.
Proof.
  split; [decide_compute|]. intros r. unfold ex_outbox, ex_table. cbn. rewrite !elem_of_cons, elem_of_nil.
  intros [-> | [-> | []]]; intros [? ?]; done.
Qed.

Lemma relay_publishes_only_delivered_witness :
  relay_inv (λ s, outbox_table s.1) snd
    (run (λ _, true) ex_storage ex_send default_config [false; false; true] ex_outbox).2.
Proof. apply relay_publishes_only_delivered; [apply _|apply ex_outbox_inv]. Defined.

Definition ex_fetched : list OutboxMessage * ex_state :=
  match fetch_pending ex_storage 100 5 ex_outbox with
  | (Ok ms, s) => (ms, s) | (Raise _, s) => ([], s)
  end.

Lemma relay_batch_settles_witness :
  (message_id <$> ex_fetched.1) = [1; 2]%N ∧
  ∃ s', _relay_batch (λ _, true) ex_storage ex_send default_config ex_outbox = (Ok tt, s') ∧
    (length ex_fetched.1 ≤ 100)%nat ∧
    ∀ m, m ∈ ex_fetched.1 → settled (λ s, outbox_table s.1) m s'.
Proof.
  split; [vm_compute; reflexivity|].
  apply (relay_batch_settles (λ _, true) ex_storage ex_send (λ s, outbox_table s.1) snd
           default_config ex_outbox ex_fetched.1 ex_fetched.2).
  - done.
  - done.
  - decide_compute.
  - vm_compute. reflexivity.
Defined.

(** A second relay polls ten seconds after the first, a message was committed in
    between. *)
Definition ex_late : OutboxMessage := ex_message 4 "Late".
Definition ex_first : database := mk_database ex_table None 1000 [].
Definition ex_second : database :=
  mk_database ((with_claim 1000 <$> ex_table) ++ [ex_late]) None 1010 [].

Lemma claims_exclusive_witness :
  message_id <$> claimed_rows 300 100 5 ex_first = [1; 2]%N ∧
  message_id <$> claimed_rows 300 100 5 ex_second = [4]%N ∧
  ∀ m1 m2, m1 ∈ claimed_rows 300 100 5 ex_first → m2 ∈ claimed_rows 300 100 5 ex_second →
    message_id m1 ≠ message_id m2.
Proof.
  split_and!; [vm_compute; reflexivity..|].
  apply (claims_exclusive 300 100 5 100 5 ex_first (claimed_rows 300 100 5 ex_first)
           (sql_fetch_pending 300 100 5 ex_first).2 ex_second (claimed_rows 300 100 5 ex_second)
           (sql_fetch_pending 300 100 5 ex_second).2).
  - decide_compute.
  - apply sql_fetch_eq.
  - eapply rtc_l; [apply (step_commit 300 _ ex_late); [decide_compute|done..]|].
    apply rtc_once. refine (step_other 300 _ None 1010 [] _). cbn. lia.
  - cbn. lia.
  - apply sql_fetch_eq.
Defined.

Definition ex_spent : OutboxMessage := mk_message 3 "Paid" "{}" [] 0 None 5 None.

Lemma exhausted_message_never_fetched_witness :
  let d := mk_database [ex_spent] None 1000 [] in
  3%N ∉ message_id <$> claimed_rows 300 100 5 d.
Proof.
  intros d.
  apply (exhausted_message_never_fetched 300 100 5 d ex_spent d (claimed_rows 300 100 5 d)
           (sql_fetch_pending 300 100 5 d).2); [decide_compute|by left|done|apply rtc_refl|].
  apply sql_fetch_eq.
Defined.

(** An order is booked, and the event saved with it; then a database that refuses
    the commit. *)
Definition ex_integration : AbstractEvent := mk_event "OrderPaid" IntegrationEvent 9 12 [].
Definition ex_sql_app : app N (sql_world (list string)) :=
  mk_app ∅ new_collector (mk_execution None 0%N)
    (mk_sql_world 1 (mk_database [] None 1000 []) ["opened"] []).
Definition ex_refuses (refused : bool) (w : sql_world (list string)) : option string :=
  if refused then Some "serialization failure" else None.
Definition ex_book : comp (app N (sql_world (list string))) (event_error string) nat :=
  on_business (λ b, (length b, b ++ ["paid"])).
Definition ex_booking (refused : bool)
    : outcome (event_error string) nat * app N (sql_world (list string)) :=
  with_transaction (sql_transaction (ex_refuses refused))
    (a <- ex_book ;;
     OutboxEventBus_send (sql_session_storage 300 (λ _, "no session")) event_name
       (mk_injector None false None) ex_integration ;;; ret a) ex_sql_app.

Lemma outbox_event_atomic_witness :
  (ex_booking false).1 = Ok 1%nat ∧ (ex_booking true).1 = Raise (UserError "serialization failure") ∧
  ∀ refused,
  match ex_booking refused with
  | (Ok a, s') => ∃ s1 s2 rows b m,
      ex_book s1 = (Ok a, s2) ∧ sql_working s1 = Some ([], ["opened"]) ∧
      sql_working s2 = Some (rows, b) ∧ sql_durable s' = (rows ++ [m], b) ∧
      message_event_name m = "OrderPaid" ∧ payload m = "OrderPaid" ∧ published_at m = None
  | (Raise err, s') => sql_durable s' = ([], ["opened"])
  end.
Proof.
  split; [vm_compute; reflexivity|]. split; [vm_compute; reflexivity|]. intros refused.
  apply (outbox_event_atomic (sql_session_storage 300 (λ _, "no session"))
    (sql_transaction (ex_refuses refused)) sql_durable sql_working ex_book event_name
    (mk_injector None false None) ex_integration ex_sql_app).
  - reflexivity.
  - intros s1. reflexivity.
  - intros s1 [d Hd]. unfold sql_working in *. cbn in *.
    destruct (session_view (outbox_database (world s1))); [eexists; reflexivity|discriminate].
Defined.
