(* ===== verification/AgentSafety.v ===== *)
(** * Sensitive data at the boundaries of an agent

    [spakky-agent/safety.py]: exposure policies, masking of sensitive and secret
    fields, the guard of JSON values along the paths of sensitive fields, and the
    bounded redactor of token streams. Regular expressions are compiled by the
    engine of Python, the class [RegexEngine]; [sha256] and [str] of a JSON value
    are parameters. *)

From S2P Require Import Prelude Json.

(** ** Errors *)

Inductive agent_error :=
  | AgentDefinitionError (message : string)
  | AgentOutputGuardError (message : string).

Definition _require_non_blank (value label : string) : outcome agent_error unit :=
  check (is_blank value) (AgentDefinitionError (label +:+ " cannot be blank")).

(** ** Sensitivity *)

Definition REDACTED_VALUE : string := "[REDACTED]".
Definition SECRET_VALUE : string := "[SECRET]".

Inductive DataSensitivity := PUBLIC | INTERNAL | CONFIDENTIAL | SENSITIVITY_PII | SENSITIVITY_SECRET.
Inductive PII := NAME | EMAIL | PHONE | ADDRESS | ACCOUNT_ID | IDENTIFIER | LOCATION.
Inductive MaskingPolicy := MASK_REDACT | LAST_FOUR | FIRST_LAST | HASH.
Inductive RedactionPolicy := REDACT | DROP | REFERENCE_ONLY.

Global Instance redaction_eq_dec : EqDecision RedactionPolicy.
Proof. solve_decision. Defined.

Definition pii_value (p : PII) : string :=
  match p with
  | NAME => "name" | EMAIL => "email" | PHONE => "phone" | ADDRESS => "address"
  | ACCOUNT_ID => "account_id" | IDENTIFIER => "identifier" | LOCATION => "location"
  end.
Definition sensitivity_value (d : DataSensitivity) : string :=
  match d with
  | PUBLIC => "public" | INTERNAL => "internal" | CONFIDENTIAL => "confidential"
  | SENSITIVITY_PII => "pii" | SENSITIVITY_SECRET => "secret"
  end.

(** [SensitiveField | SecretField] *)
Inductive sensitive_marker :=
  | SensitiveField (category : PII + DataSensitivity) (masking : MaskingPolicy)
      (redaction : RedactionPolicy) (label : option string)
  | SecretField (redaction : RedactionPolicy) (label : option string).

Definition make_marker (m : sensitive_marker) : outcome agent_error sensitive_marker :=
  match m with
  | SensitiveField _ _ _ (Some l) => _require_non_blank l "Sensitive field label";; Ok m
  | SecretField _ (Some l) => _require_non_blank l "Secret field label";; Ok m
  | _ => Ok m
  end%stdpp.

Definition redaction_of (m : sensitive_marker) : RedactionPolicy :=
  match m with SensitiveField _ _ r _ => r | SecretField r _ => r end.

Definition sensitivity (m : sensitive_marker) : DataSensitivity :=
  match m with
  | SensitiveField (inl _) _ _ _ => SENSITIVITY_PII
  | SensitiveField (inr d) _ _ _ => d
  | SecretField _ _ => SENSITIVITY_SECRET
  end.

Definition category_name (c : PII + DataSensitivity) : string :=
  match c with inl p => pii_value p | inr d => sensitivity_value d end.

(** The two policies decide with the same fields; they differ in what metadata
    they let through. *)
Record ContextExposurePolicy := mk_context_policy {
  ctx_include_pii_values : bool;
  ctx_include_sensitive_values : bool;
  include_sensitive_schema_metadata : bool;
  include_sensitive_context_metadata : bool;
}.
Record EvidenceExposurePolicy := mk_evidence_policy {
  ev_include_pii_values : bool;
  ev_include_sensitive_values : bool;
  include_sensitive_metadata : bool;
}.
Inductive exposure_policy :=
  | ContextPolicy (p : ContextExposurePolicy)
  | EvidencePolicy (p : EvidenceExposurePolicy).

Definition exposes (pii sensitive : bool) (m : sensitive_marker) : bool :=
  match m with
  | SecretField _ _ => false
  | SensitiveField _ _ _ _ =>
      match sensitivity m with
      | SENSITIVITY_PII => pii
      | CONFIDENTIAL | SENSITIVITY_SECRET => sensitive
      | PUBLIC | INTERNAL => true
      end
  end.

Definition can_expose_value (p : exposure_policy) (m : sensitive_marker) : bool :=
  match p with
  | ContextPolicy c => exposes (ctx_include_pii_values c) (ctx_include_sensitive_values c) m
  | EvidencePolicy e => exposes (ev_include_pii_values e) (ev_include_sensitive_values e) m
  end.

(** ** Masking *)

Definition last_chars (n : nat) (s : string) : string :=
  String.substring (String.length s - n) n s.

Section masking.
(** [sha256(value).hexdigest()] and [str(value)] *)
Context (sha256_hex : string → string) (py_str : json → string).

Definition _mask_text (v : string) (p : MaskingPolicy) (category : string) : string :=
  match p with
  | LAST_FOUR =>
      if decide (4 < String.length v)%nat then "***" +:+ last_chars 4 v else REDACTED_VALUE
  | FIRST_LAST =>
      if decide (1 < String.length v)%nat
      then String.substring 0 1 v +:+ "***" +:+ last_chars 1 v else REDACTED_VALUE
  | HASH =>
      "[HASHED:" +:+ category +:+ ":" +:+ String.substring 0 12 (sha256_hex v) +:+ "]"
  | MASK_REDACT => REDACTED_VALUE
  end.

Definition guard_text (m : sensitive_marker) (v : string) : string :=
  match m with
  | SensitiveField c masking _ _ => _mask_text v masking (category_name c)
  | SecretField _ _ => SECRET_VALUE
  end.

(** ** JSON guard *)

Definition _guard_scalar (v : json) (m : sensitive_marker) (p : exposure_policy) : json :=
  if can_expose_value p m then v
  else
    match v with
    | JStr s => JStr (guard_text m s)
    | _ => if decide (redaction_of m = DROP) then JNull else JStr (guard_text m (py_str v))
    end.

Fixpoint _guard_json_path (v : json) (path : list string) (m : sensitive_marker)
    (p : exposure_policy) : json :=
  match path with
  | [] => _guard_scalar v m p
  | key :: path' =>
      match v with
      | JObj o =>
          match dict_get key o with
          | None => v
          | Some x =>
              let guarded := _guard_json_path x path' m p in
              if bool_decide (redaction_of m = DROP) && negb (can_expose_value p m)
              then JObj (dict_del key o)
              else JObj (dict_set key guarded o)
          end
      | _ => v
      end
  end.

Record SensitiveFieldDescriptor := mk_descriptor {
  path : list string;
  field : sensitive_marker;
}.

Definition guard_json_value (v : json) (fields : list SensitiveFieldDescriptor)
    (p : exposure_policy) : json :=
  foldl (λ v d, _guard_json_path v (path d) (field d) p) v fields.
End masking.

(** ** Streaming redaction *)

Inductive StreamingGuardFailureMode := RAISE | EMIT_ERROR.
Inductive StreamingRedactionAuditStatus := PASSED | FAILED.

Global Instance failure_mode_eq_dec : EqDecision StreamingGuardFailureMode.
Proof. solve_decision. Defined.
Global Instance audit_status_eq_dec : EqDecision StreamingRedactionAuditStatus.
Proof. solve_decision. Defined.

(** A text cut into kept ([inl]) and matched ([inr]) pieces, in order *)
Definition pieces : Type := list (list ascii + list ascii).
Definition original_text (ps : pieces) : list ascii :=
  ps ≫= λ x, match x with inl k => k | inr m => m end.
Definition replaced_text (r : list ascii) (ps : pieces) : list ascii :=
  ps ≫= λ x, match x with inl k => k | inr _ => r end.

Abbreviation chars := String.list_ascii_of_string.

(** [re]: [compile] refuses an invalid pattern; [subn] replaces what [finditer]
    finds and keeps the rest. A replacement without a backslash is literal. *)
Class RegexEngine (regex : Type) := {
  compile : string → option regex;
  subn : regex → string → string → string * nat;
  finditer : regex → string → list (nat * nat);
  subn_count r replacement s : (subn r replacement s).2 = length (finditer r s);
  subn_no_match r replacement s : finditer r s = [] → (subn r replacement s).1 = s;
  subn_pieces r replacement s :
    "\"%char ∉ chars replacement →
    ∃ ps, chars s = original_text ps ∧
          chars (subn r replacement s).1 = replaced_text (chars replacement) ps;
}.

Section streaming.
Context `{RegexEngine regex}.

Record StreamingSensitivePattern := mk_pattern {
  pattern_name : string;
  pattern_regex : regex;
  pattern_replacement : string;
}.

Definition make_pattern (name pattern replacement : string)
    : outcome agent_error StreamingSensitivePattern :=
  _require_non_blank name "Streaming sensitive pattern name";;
  _require_non_blank pattern "Streaming sensitive pattern";;
  match compile pattern with
  | None => Raise (AgentDefinitionError "Streaming sensitive pattern is invalid")
  | Some r => Ok (mk_pattern name r replacement)
  end%stdpp.

Definition redact (p : StreamingSensitivePattern) (v : string) : string * nat :=
  subn (pattern_regex p) (pattern_replacement p) v.

Record StreamingRedactionMatch := mk_match {
  match_pattern_name : string;
  match_start : nat;
  match_end : nat;
}.

Definition find_matches (p : StreamingSensitivePattern) (v : string)
    : list StreamingRedactionMatch :=
  (λ m, mk_match (pattern_name p) m.1 m.2) <$> finditer (pattern_regex p) v.

Record StreamingRedactionPolicy := mk_policy {
  patterns : list StreamingSensitivePattern;
  buffer_size : nat;
  emit_chunk_size : option nat;
  failure_mode : StreamingGuardFailureMode;
}.

Definition make_policy (p : StreamingRedactionPolicy)
    : outcome agent_error StreamingRedactionPolicy :=
  check (buffer_size p =? 0)%nat
    (AgentDefinitionError "Streaming redaction buffer size must be positive");;
  check (match emit_chunk_size p with Some n => (n =? 0)%nat | None => false end)
    (AgentDefinitionError "Streaming redaction emit chunk size must be positive");;
  check (length (patterns p) =? 0)%nat
    (AgentDefinitionError "Streaming redaction patterns cannot be empty");;
  Ok p%stdpp.

Record StreamingRedactionAudit := mk_audit {
  status : StreamingRedactionAuditStatus;
  detected_count : nat;
  redacted_count : nat;
  missed_matches : list StreamingRedactionMatch;
  audit_buffer_size : nat;
  emitted_char_count : nat;
  original_char_count : nat;
}.

(** [error] tells that the result carries the error payload of the audit. *)
Record StreamingRedactionResult := mk_result {
  chunks : list string;
  audit : option StreamingRedactionAudit;
  error : option StreamingRedactionAudit;
}.

Record StreamingRedactionSession := mk_session {
  _buffer : string;
  _original_chunks : list string;
  _emitted_chunks : list string;
  _redacted_count : nat;
  _closed : bool;
}.
Definition new_session : StreamingRedactionSession := mk_session "" [] [] 0 false.

Context (policy : StreamingRedactionPolicy).

Abbreviation action := (comp StreamingRedactionSession agent_error).

Definition _ensure_open : action unit :=
  s <- get_state ;;
  if _closed s then raise (AgentOutputGuardError "Streaming redaction session is already closed")
  else ret tt.

(** The text and the number of replacements after every pattern *)
Definition redact_all (v : string) : string * nat :=
  foldl (λ acc p, let '(r, n) := redact p acc.1 in (r, acc.2 + n)%nat) (v, 0%nat) (patterns policy).

Definition _redact_text (v : string) : action string := λ s,
  let '(r, n) := redact_all v in
  (Ok r, mk_session (_buffer s) (_original_chunks s) (_emitted_chunks s) (_redacted_count s + n)
           (_closed s)).

Fixpoint split_every (fuel n : nat) (v : string) : list string :=
  match fuel, v with
  | _, EmptyString => []
  | O, _ => []
  | S fuel', _ =>
      String.substring 0 n v :: split_every fuel' n (String.substring n (String.length v - n) v)
  end.

Definition _split_for_emit (v : string) : list string :=
  if decide (v = "") then []
  else match emit_chunk_size policy with
       | None => [v]
       | Some n => split_every (String.length v) n v
       end.

Definition _emit_safe_prefix : action (list string) := λ s,
  let emit_length := (String.length (_buffer s) - buffer_size policy)%nat in
  if decide (emit_length = 0%nat) then (Ok [], s)
  else
    let prefix := String.substring 0 emit_length (_buffer s) in
    let rest := String.substring emit_length (String.length (_buffer s) - emit_length) (_buffer s) in
    let cs := _split_for_emit prefix in
    (Ok cs, mk_session rest (_original_chunks s) (_emitted_chunks s ++ cs) (_redacted_count s)
              (_closed s)).

Definition push (chunk : string) : action StreamingRedactionResult :=
  _ensure_open ;;;
  if decide (chunk = "") then ret (mk_result [] None None)
  else
    modify (λ s, mk_session (_buffer s) (_original_chunks s ++ [chunk]) (_emitted_chunks s)
                   (_redacted_count s) (_closed s)) ;;;
    s <- get_state ;;
    b <- _redact_text (_buffer s +:+ chunk) ;;
    modify (λ s, mk_session b (_original_chunks s) (_emitted_chunks s) (_redacted_count s)
                   (_closed s)) ;;;
    cs <- _emit_safe_prefix ;;
    ret (mk_result cs None None).

Definition _audit (s : StreamingRedactionSession) : StreamingRedactionAudit :=
  let original := String.concat "" (_original_chunks s) in
  let emitted := String.concat "" (_emitted_chunks s) in
  let missed := patterns policy ≫= λ p, find_matches p emitted in
  mk_audit (match missed with [] => PASSED | _ => FAILED end)
    (sum_list ((λ p, length (find_matches p original)) <$> patterns policy))
    (_redacted_count s) missed (buffer_size policy)
    (String.length emitted) (String.length original).

Definition finish : action StreamingRedactionResult :=
  _ensure_open ;;;
  modify (λ s, mk_session (_buffer s) (_original_chunks s) (_emitted_chunks s) (_redacted_count s)
                 true) ;;;
  s <- get_state ;;
  b <- _redact_text (_buffer s) ;;
  let cs := _split_for_emit b in
  modify (λ s, mk_session "" (_original_chunks s) (_emitted_chunks s ++ cs) (_redacted_count s)
                 (_closed s)) ;;;
  s <- get_state ;;
  let a := _audit s in
  if decide (status a = FAILED) then
    if decide (failure_mode policy = RAISE)
    then raise (AgentOutputGuardError
                  "Streaming redaction final audit detected unmasked candidates")
    else ret (mk_result cs (Some a) (Some a))
  else ret (mk_result cs (Some a) None).

(** A whole stream: what the client received, and the last result *)
Definition stream (input : list string) : action (list string * StreamingRedactionResult) :=
  rs <- map_comp push input ;;
  r <- finish ;;
  ret ((rs ≫= chunks) ++ chunks r, r).
End streaming.

Arguments StreamingSensitivePattern : clear implicits.
Arguments StreamingRedactionPolicy : clear implicits.

(** ** What the guard of JSON values lets through *)

Section dict_updates.
Context {V : Type}.
Implicit Types o : list (string * V).

Lemma dict_del_set_eq k x y o : dict_del k (dict_set k x o) = dict_del k (dict_set k y o).
Proof. induction o as [|[j z] o IH]; cbn; repeat (case_decide; cbn); congruence. Qed.
Lemma dict_set_set_eq k x y o : dict_set k y (dict_set k x o) = dict_set k y o.
Proof. induction o as [|[j z] o IH]; cbn; repeat (case_decide; cbn); congruence. Qed.
Lemma dict_del_set_ne j k x o : j ≠ k → dict_del j (dict_set k x o) = dict_set k x (dict_del j o).
Proof.
  intros Hjk. induction o as [|[i z] o IH]; cbn; repeat (case_decide; cbn); congruence.
Qed.
Lemma dict_set_set_ne j k x y z o :
  j ≠ k → dict_get j o = Some z → dict_set j y (dict_set k x o) = dict_set k x (dict_set j y o).
Proof.
  intros Hjk. induction o as [|[i w] o IH]; cbn; [done|].
  repeat (case_decide; cbn); intros Hz; try congruence. by rewrite IH.
Qed.
End dict_updates.

Section guard.
Context (sha256_hex : string → string) (py_str : json → string).
Notation guard_path := (_guard_json_path sha256_hex py_str).

(** Two values with the same contents but for what is at [path] *)
Fixpoint same_off (path : list string) (v v' : json) : Prop :=
  match path with
  | [] => True
  | k :: path' =>
      v = v' ∨ ∃ o x x', v = JObj (dict_set k x o) ∧ v' = JObj (dict_set k x' o) ∧
                         same_off path' x x'
  end.

Definition proper_prefix (q path : list string) : Prop := q `prefix_of` path ∧ q ≠ path.

(** The text of the field does not depend on its value. *)
Definition opaque_marker (m : sensitive_marker) (p : exposure_policy) : Prop :=
  can_expose_value p m = false ∧
  match m with SecretField _ _ => True | SensitiveField _ masking _ _ => masking = MASK_REDACT end.

Lemma guard_keeps_same_off q path m p v v' :
  ¬ proper_prefix q path → same_off path v v' →
  same_off path (guard_path v q m p) (guard_path v' q m p).
Proof.
  revert q v v'. induction path as [|k path IH]; intros q v v' Hq Hs; [done|].
  destruct Hs as [->|(o & x & x' & -> & -> & Hs)]; [by left|].
  destruct q as [|j q]; [exfalso; apply Hq; split; [apply prefix_nil|done]|].
  cbn [_guard_json_path]. destruct (decide (j = k)) as [->|Hjk].
  - rewrite !dict_get_set_eq. destruct (_ && _); [left; f_equal; apply dict_del_set_eq|right].
    exists o, (guard_path x q m p), (guard_path x' q m p). rewrite !dict_set_set_eq.
    split_and!; [done..|]. apply IH; [|done]. intros [Hp Hne]. apply Hq. split.
    + by apply prefix_cons.
    + intros [= ?]. done.
  - rewrite !dict_get_set_ne by done. destruct (dict_get j o) as [z|] eqn:Hz.
    + right. destruct (_ && _).
      * exists (dict_del j o), x, x'. by rewrite !dict_del_set_ne.
      * exists (dict_set j (guard_path z q m p) o), x, x'.
        by rewrite !(dict_set_set_ne j k _ _ z).
    + right. by exists o, x, x'.
Qed.

Lemma guard_opaque path m p v v' :
  opaque_marker m p → path ≠ [] ∨ redaction_of m ≠ DROP → same_off path v v' →
  guard_path v path m p = guard_path v' path m p.
Proof.
  intros [Hx Hm]. revert v v'. induction path as [|k path IH]; intros v v' Hp Hs.
  - destruct Hp as [?|Hp]; [done|]. cbn. unfold _guard_scalar. rewrite Hx.
    assert (∀ s t, guard_text sha256_hex m s = guard_text sha256_hex m t) as Hg.
    { intros s t. destruct m; cbn in *; [by rewrite Hm|done]. }
    destruct (decide (redaction_of m = DROP)); [done|].
    destruct v, v'; f_equal; apply Hg.
  - destruct Hs as [->|(o & x & x' & -> & -> & Hs)]; [done|].
    cbn [_guard_json_path]. rewrite !dict_get_set_eq, Hx. cbn [negb].
    rewrite andb_true_r. case_bool_decide as Hd; [f_equal; apply dict_del_set_eq|].
    rewrite !dict_set_set_eq. do 2 f_equal. apply IH; [by right|done].
Qed.

Lemma guard_hides_field pre d post p v v' :
  opaque_marker (field d) p → path d ≠ [] ∨ redaction_of (field d) ≠ DROP →
  (∀ e, e ∈ pre → ¬ proper_prefix (path e) (path d)) →
  same_off (path d) v v' →
  guard_json_value sha256_hex py_str v (pre ++ d :: post) p =
  guard_json_value sha256_hex py_str v' (pre ++ d :: post) p.
Proof.
  intros Hm Hd. unfold guard_json_value. rewrite !foldl_app. cbn [foldl].
  revert v v'. induction pre as [|e pre IH]; intros v v' Hpre Hs; cbn [foldl].
  - by rewrite (guard_opaque (path d) (field d) p v v').
  - apply IH; [intros e' He'; apply Hpre; by right|].
    apply guard_keeps_same_off; [|done]. apply Hpre. by left.
Qed.

(** C20. The guard of JSON values does not let through what it hides: for a
    field that is secret, or masked by redaction and not exposed by the policy,
    two values that differ only in that field are guarded to the same value,
    whatever the other fields are, provided no earlier descriptor replaces an
    object that contains the field. *)
Theorem hidden_field_does_not_interfere pre d post p v v' :
  opaque_marker (field d) p → path d ≠ [] ∨ redaction_of (field d) ≠ DROP →
  (∀ e, e ∈ pre → ¬ proper_prefix (path e) (path d)) →
  same_off (path d) v v' →
  guard_json_value sha256_hex py_str v (pre ++ d :: post) p =
  guard_json_value sha256_hex py_str v' (pre ++ d :: post) p.
Proof. apply guard_hides_field. Qed.

(** The value at a path *)
Fixpoint at_path (path : list string) (v : json) : option json :=
  match path with
  | [] => Some v
  | k :: path' => match v with JObj o => dict_get k o ≫= at_path path' | _ => None end
  end.

(** Without [DROP] the guard of a path replaces the value at the path by its
    guarded scalar and leaves the value at every path that is not comparable to
    it. *)
Theorem guard_path_replaces_value path m p v :
  redaction_of m ≠ DROP →
  at_path path (guard_path v path m p) =
    (λ x, _guard_scalar sha256_hex py_str x m p) <$> at_path path v ∧
  ∀ q, ¬ q `prefix_of` path → ¬ path `prefix_of` q →
    at_path q (guard_path v path m p) = at_path q v.
Proof.
  intros Hd. revert v. induction path as [|k path IH]; intros v.
  { split; [done|]. intros q _ Hq. by destruct Hq; apply prefix_nil. }
  cbn [_guard_json_path]. rewrite (bool_decide_false _ Hd). cbn [andb].
  destruct v as [| | | | | |o]; try (split; [done|]; intros q _ _; done).
  destruct (dict_get k o) as [x|] eqn:Hx; cbn [at_path].
  - rewrite dict_get_set_eq, Hx. cbn. destruct (IH x) as [IHeq IHne]. split; [done|].
    intros [|j q] Hq1 Hq2; [by destruct Hq1; apply prefix_nil|]. cbn.
    destruct (decide (j = k)) as [->|Hjk]; [|by rewrite dict_get_set_ne].
    rewrite dict_get_set_eq, Hx. cbn. apply IHne; intros ?; [apply Hq1|apply Hq2];
      by apply prefix_cons.
  - by rewrite Hx.
Qed.

(** With [DROP] the guard of a nested path removes the key of the outermost
    object on the path, and everything next to the field with it. *)
Theorem nested_drop_removes_outermost_key k path m p o x :
  redaction_of m = DROP → can_expose_value p m = false → dict_get k o = Some x →
  guard_path (JObj o) (k :: path) m p = JObj (dict_del k o).
Proof. intros Hd Hx Hk. cbn. by rewrite Hk, (bool_decide_true _ Hd), Hx. Qed.
End guard.

Lemma hidden_field_does_not_interfere_witness :
  guard_json_value id (λ _, "")
    (JObj [("user", JObj [("token", JStr "sk-1"); ("name", JStr "Ada")])])
    [mk_descriptor ["user"; "name"] (SensitiveField (inl NAME) FIRST_LAST REDACT None);
     mk_descriptor ["user"; "token"] (SecretField REFERENCE_ONLY None)]
    (EvidencePolicy (mk_evidence_policy false false true)) =
  JObj [("user", JObj [("token", JStr "[SECRET]"); ("name", JStr "A***a")])] ∧
  guard_json_value id (λ _, "")
    (JObj [("user", JObj [("token", JStr "sk-1"); ("name", JStr "Ada")])])
    [mk_descriptor ["user"; "name"] (SensitiveField (inl NAME) FIRST_LAST REDACT None);
     mk_descriptor ["user"; "token"] (SecretField REFERENCE_ONLY None)]
    (EvidencePolicy (mk_evidence_policy false false true)) =
  guard_json_value id (λ _, "")
    (JObj [("user", JObj [("token", JInt 7); ("name", JStr "Ada")])])
    [mk_descriptor ["user"; "name"] (SensitiveField (inl NAME) FIRST_LAST REDACT None);
     mk_descriptor ["user"; "token"] (SecretField REFERENCE_ONLY None)]
    (EvidencePolicy (mk_evidence_policy false false true)).
Proof.
  split; [vm_compute; reflexivity|].
  apply (hidden_field_does_not_interfere id (λ _, "")
    [mk_descriptor ["user"; "name"] (SensitiveField (inl NAME) FIRST_LAST REDACT None)]
    (mk_descriptor ["user"; "token"] (SecretField REFERENCE_ONLY None)) []).
  - by split.
  - by left.
  - intros e ->%list_elem_of_singleton [Hp _]. revert Hp. decide_compute.
  - right. exists [], (JObj [("token", JStr "sk-1"); ("name", JStr "Ada")]),
      (JObj [("token", JInt 7); ("name", JStr "Ada")]).
    split_and!; [done..|]. right.
    by exists [("token", JNull); ("name", JStr "Ada")], (JStr "sk-1"), (JInt 7).
Defined.

Lemma nested_drop_removes_outermost_key_witness :
  _guard_json_path id (λ _, "") (JObj [("user", JObj [("ssn", JStr "1"); ("id", JInt 3)])])
    ["user"; "ssn"] (SecretField DROP None)
    (ContextPolicy (mk_context_policy false false false false)) = JObj [].
Proof.
  apply (nested_drop_removes_outermost_key id (λ _, "") "user" ["ssn"] (SecretField DROP None)
    (ContextPolicy (mk_context_policy false false false false))
    [("user", JObj [("ssn", JStr "1"); ("id", JInt 3)])]
    (JObj [("ssn", JStr "1"); ("id", JInt 3)])); reflexivity.
Defined.

Lemma guard_path_replaces_value_witness :
  redaction_of (SensitiveField (inl EMAIL) HASH REDACT None) ≠ DROP ∧
  at_path ["email"] (_guard_json_path (λ _, "0123456789abcdef") (λ _, "")
    (JObj [("email", JStr "a@b.c"); ("id", JInt 1)]) ["email"]
    (SensitiveField (inl EMAIL) HASH REDACT None)
    (ContextPolicy (mk_context_policy false false false false))) =
  Some (JStr "[HASHED:email:0123456789ab]").
Proof.
  split; [done|].
  rewrite (proj1 (guard_path_replaces_value (λ _, "0123456789abcdef") (λ _, "") ["email"]
    (SensitiveField (inl EMAIL) HASH REDACT None) _ _ ltac:(done))).
  reflexivity.
Defined.

(** ** Infixes of texts *)

Definition infix {A} (w v : list A) : Prop := ∃ a b, v = a ++ w ++ b.
Definition contains (w v : string) : Prop := infix (chars w) (chars v).

Section infix.
Context {A : Type}.
Implicit Types (w v e t r : list A).

Lemma infix_trans w v t : infix w v → infix v t → infix w t.
Proof.
  intros (a & b & ->) (a' & b' & ->). exists (a' ++ a), (b ++ b'). by rewrite <-!(assoc_L (++)).
Qed.
Lemma infix_app_l w v t : infix w v → infix w (v ++ t).
Proof. intros (a & b & ->). exists a, (b ++ t). by rewrite <-!(assoc_L (++)). Qed.
Lemma infix_app_r w v t : infix w v → infix w (t ++ v).
Proof. intros (a & b & ->). exists (t ++ a), b. by rewrite <-!(assoc_L (++)). Qed.
Lemma infix_prefix w v : w `prefix_of` v → infix w v.
Proof. intros [b ->]. by exists [], b. Qed.
Lemma infix_nil_r w : infix w [] → w = [].
Proof. intros (a & b & Hab). by apply eq_sym, app_nil in Hab as [_ [? _]%app_nil]. Qed.
Lemma infix_cons w c v : infix w (c :: v) → w `prefix_of` c :: v ∨ infix w v.
Proof.
  intros ([|x a] & b & Hv); [left; by exists b|right]. simplify_eq/=. by exists a, b.
Qed.

(** An infix of a concatenation lies in the second part or starts in the first. *)
Lemma infix_app_inv w e t :
  infix w (e ++ t) → infix w t ∨ ∃ a e', e = a ++ e' ∧ e' ≠ [] ∧ w `prefix_of` e' ++ t.
Proof.
  induction e as [|c e IH]; cbn; [by left|]. intros [Hw|Hw]%infix_cons.
  - right. by exists [], (c :: e).
  - destruct (IH Hw) as [?|(a & e' & -> & ? & ?)]; [by left|right]. by exists (c :: a), e'.
Qed.

Lemma prefix_app_short w v t : w `prefix_of` v ++ t → (length w ≤ length v)%nat → w `prefix_of` v.
Proof.
  intros [k Hk] Hlen. apply (f_equal (take (length w))) in Hk.
  rewrite take_app_le, take_app_length in Hk by done. rewrite <-Hk. apply prefix_take.
Qed.

(** What avoids a letter does not extend over it. *)
Lemma prefix_avoid w e x t : x ∉ w → w `prefix_of` e ++ x :: t → w `prefix_of` e.
Proof.
  revert e. induction w as [|y w IH]; intros e Hx Hw; [apply prefix_nil|].
  apply not_elem_of_cons in Hx as [Hxy Hx]. destruct e as [|z e]; cbn in *.
  - by apply prefix_cons_inv_1 in Hw.
  - pose proof (prefix_cons_inv_1 _ _ _ _ Hw) as ->.
    apply prefix_cons_inv_2 in Hw. apply prefix_cons. by apply (IH e).
Qed.

Lemma infix_avoid w e r t :
  w ≠ [] → r ≠ [] → (∀ x, x ∈ r → x ∉ w) → infix w (e ++ r ++ t) → infix w e ∨ infix w t.
Proof.
  intros Hne. revert e. induction r as [|x r IH]; intros e Hr Hx Hw; [done|].
  assert (infix w e ∨ infix w (r ++ t)) as [?|Hrt]; [|by left|].
  - apply infix_app_inv in Hw as [[Hw|?]%infix_cons|(a & e' & -> & _ & Hw)].
    + apply (prefix_avoid w [] x) in Hw; [|apply Hx; by left]. destruct w; [done|].
      by apply prefix_nil_not in Hw.
    + by right.
    + left. apply (prefix_avoid w e' x) in Hw; [|apply Hx; by left].
      by apply infix_app_r, infix_prefix.
  - destruct r as [|y r]; [by right|].
    destruct (IH [] ltac:(done) (λ z Hz, Hx z (list_elem_of_further _ _ _ Hz)) Hrt)
      as [Hn|?]; [|by right]. by apply infix_nil_r in Hn.
Qed.
End infix.

(** Replacing pieces by a text whose letters [w] avoids makes no new [w]. *)
Section pieces.
Context (w r : list ascii) (Hw : w ≠ []) (Hr : r ≠ []) (Havoid : ∀ x, x ∈ r → x ∉ w).

Lemma prefix_replaced e ps :
  w `prefix_of` e ++ replaced_text r ps → w `prefix_of` e ++ original_text ps.
Proof.
  revert e. induction ps as [|[k|m] ps IH]; intros e; cbn; [done| |].
  - rewrite !(assoc_L (++)). apply IH.
  - destruct r as [|x r']; [done|]. cbn. intros H%prefix_avoid; [|apply Havoid; by left].
    by apply prefix_app_r.
Qed.

Lemma infix_replaced ps : infix w (replaced_text r ps) → infix w (original_text ps).
Proof.
  cut (∀ e, infix w (e ++ replaced_text r ps) → infix w (e ++ original_text ps)).
  { intros H. apply (H []). }
  induction ps as [|[k|m] ps IH]; intros e; cbn; [done| |].
  - rewrite !(assoc_L (++)). apply IH.
  - intros [?|H]%infix_avoid; [by apply infix_app_l| |done..].
    apply infix_app_r, infix_app_r. by apply (IH []).
Qed.
End pieces.

Lemma replaced_kept_or_marked (r : list ascii) ps :
  r ≠ [] →
  replaced_text r ps = original_text ps ∨ ∃ x, x ∈ r ∧ x ∈ replaced_text r ps.
Proof.
  intros Hr. induction ps as [|[k|m] ps IH]; cbn; [by left| |].
  - destruct IH as [IH|(x & ? & ?)]; [left; by apply (f_equal (app k))|right].
    exists x. split; [done|]. apply elem_of_app. by right.
  - right. destruct r as [|x r']; [done|]. exists x. set_solver.
Qed.

(** ** Strings as lists of characters *)

Lemma chars_inj s t : chars s = chars t → s = t.
Proof.
  intros H. by rewrite <-(String.string_of_list_ascii_of_string s), H,
    String.string_of_list_ascii_of_string.
Qed.
Lemma chars_app s t : chars (s +:+ t) = chars s ++ chars t.
Proof. induction s as [|c s IH]; cbn; [done|]. by rewrite <-IH. Qed.
Lemma chars_length s : length (chars s) = String.length s.
Proof. induction s; cbn; congruence. Qed.
Lemma chars_nil s : chars s = [] ↔ s = "".
Proof. by destruct s. Qed.
Lemma chars_substring n m s : chars (String.substring n m s) = take m (drop n (chars s)).
Proof.
  revert n m. induction s as [|c s IH]; intros [|n] [|m]; cbn; rewrite ?IH; done.
Qed.
Lemma chars_concat l : chars (String.concat "" l) = l ≫= chars.
Proof.
  induction l as [|s [|s' l] IH]; [done| |].
  - cbn. by rewrite app_nil_r.
  - change (String.concat "" (s :: s' :: l)) with (s +:+ ("" +:+ String.concat "" (s' :: l))).
    by rewrite chars_app, bind_cons, <-IH.
Qed.

(** ** The states of a streaming session *)

Section session.
Context `{RegexEngine regex} (policy : StreamingRedactionPolicy regex).
Implicit Types s : StreamingRedactionSession.

Definition emitted s : list ascii := chars (String.concat "" (_emitted_chunks s)).
Definition received s : list ascii := chars (String.concat "" (_original_chunks s)).

(** What [push] leaves: the redacted buffer, less what exceeds the window. *)
Definition after_push s (c : string) : StreamingRedactionSession :=
  let '(v, n) := redact_all policy (_buffer s +:+ c) in
  let k := (String.length v - buffer_size policy)%nat in
  mk_session (String.substring k (String.length v - k) v) (_original_chunks s ++ [c])
    (_emitted_chunks s ++ _split_for_emit policy (String.substring 0 k v))
    (_redacted_count s + n) (_closed s).

Definition push_step s (c : string) : StreamingRedactionSession :=
  if decide (c = "") then s else after_push s c.

Lemma push_step_empty s : push_step s "" = s.
Proof. done. Qed.
Lemma push_step_text s c : c ≠ "" → push_step s c = after_push s c.
Proof. intros Hc. unfold push_step. by rewrite decide_False. Qed.

Definition after_finish s : StreamingRedactionSession :=
  let '(v, n) := redact_all policy (_buffer s) in
  mk_session "" (_original_chunks s) (_emitted_chunks s ++ _split_for_emit policy v)
    (_redacted_count s + n) true.

Lemma substring_all v : String.substring 0 (String.length v) v = v.
Proof. apply chars_inj. by rewrite chars_substring, drop_0, <-chars_length, firstn_all. Qed.

Lemma push_empty s : _closed s = false → push policy "" s = (Ok (mk_result [] None None), s).
Proof. intros Hs. unfold push, _ensure_open, bind, get_state. by rewrite Hs. Qed.

Lemma push_eq s c :
  _closed s = false → c ≠ "" →
  ∃ cs, push policy c s = (Ok (mk_result cs None None), after_push s c) ∧
        _emitted_chunks (after_push s c) = _emitted_chunks s ++ cs.
Proof.
  intros Hs Hc. unfold push, _ensure_open, after_push, bind, get_state, modify, ret. cbn.
  rewrite Hs, decide_False by done. cbn. unfold _redact_text, _emit_safe_prefix. cbn.
  destruct (redact_all policy (_buffer s +:+ c)) as [v n]. cbn. rewrite Hs.
  case_decide as Hk; cbn; [|by eauto].
  exists []. assert (String.substring 0 0 v = "") as Hv by (by destruct v).
  rewrite Hk, Nat.sub_0_r, substring_all, Hv.
  change (_split_for_emit policy "") with (@nil string). by rewrite app_nil_r.
Qed.

Lemma finish_eq s :
  _closed s = false →
  ∃ cs, _emitted_chunks (after_finish s) = _emitted_chunks s ++ cs ∧
        let a := _audit policy (after_finish s) in
        finish policy s =
          (if decide (status a = FAILED) then
             if decide (failure_mode policy = RAISE)
             then Raise (AgentOutputGuardError
                    "Streaming redaction final audit detected unmasked candidates")
             else Ok (mk_result cs (Some a) (Some a))
           else Ok (mk_result cs (Some a) None), after_finish s).
Proof.
  intros Hs. exists (_split_for_emit policy (redact_all policy (_buffer s)).1).
  unfold finish, _ensure_open, after_finish, bind, get_state, modify, ret. cbn.
  rewrite Hs. cbn. unfold _redact_text. cbn.
  destruct (redact_all policy (_buffer s)) as [v n]. cbn. split; [done|].
  repeat (case_decide; cbn; try done).
Qed.

(** A stream that is pushed raises nothing. *)
Lemma pushes_spec input s :
  _closed s = false →
  let s' := foldl push_step s input in
  ∃ rs, map_comp (push policy) input s = (Ok rs, s') ∧ _closed s' = false ∧
    _emitted_chunks s' = _emitted_chunks s ++ (rs ≫= chunks) ∧
    received s' = received s ++ (input ≫= chars).
Proof.
  revert s. induction input as [|c input IH]; intros s Hs.
  { exists []. cbn. by rewrite !app_nil_r. }
  cbn [map_comp foldl]. destruct (decide (c = "")) as [->|Hc];
    [rewrite (push_step_empty s)|rewrite (push_step_text s c Hc)].
  { destruct (IH s Hs) as (rs & Hrun & ? & ? & ?).
    exists (mk_result [] None None :: rs). split; [|done].
    unfold bind. by rewrite push_empty, Hrun. }
  destruct (push_eq s c Hs Hc) as (cs & Hpush & Hcs).
  destruct (IH (after_push s c)) as (rs & Hrun & ? & He & Hr).
  { unfold after_push. by destruct (redact_all _ _). }
  exists (mk_result cs None None :: rs). split; [|split_and!; [done| |]].
  - unfold bind. rewrite Hpush. by rewrite Hrun.
  - cbn. by rewrite He, Hcs, (assoc_L (++)).
  - rewrite Hr. unfold received, after_push. destruct (redact_all _ _). cbn.
    rewrite !chars_concat, bind_app. cbn. by rewrite app_nil_r, (assoc_L (++)).
Qed.

Lemma pushes_ind (I : StreamingRedactionSession → Prop) input s :
  (∀ s c, I s → I (after_push s c)) → I s → I (foldl push_step s input).
Proof.
  intros HI. revert s. induction input as [|c input IH]; intros s Hs; [done|]. apply IH.
  unfold push_step. case_decide; auto.
Qed.

(** A stream of a new session: the client receives what the session emitted, and
    the last step decides on the audit of it. *)
Lemma stream_spec input (s := foldl push_step new_session input) :
  ∃ out r, received s = input ≫= chars ∧ out = _emitted_chunks (after_finish s) ∧
    let a := _audit policy (after_finish s) in
    audit r = Some a ∧
    error r = (if decide (status a = FAILED) then Some a else None) ∧
    stream policy input new_session =
      (if decide (status a = FAILED ∧ failure_mode policy = RAISE)
       then Raise (AgentOutputGuardError
                    "Streaming redaction final audit detected unmasked candidates")
       else Ok (out, r), after_finish s).
Proof.
  destruct (pushes_spec input new_session eq_refl) as (rs & Hrun & Hs & He & Hr).
  destruct (finish_eq s Hs) as (cs & Hcs & Hfin). cbn zeta in Hfin. fold s in Hrun, He, Hr.
  set (a := _audit policy (after_finish s)) in *.
  exists (_emitted_chunks (after_finish s)),
    (mk_result cs (Some a) (if decide (status a = FAILED) then Some a else None)).
  cbn zeta. fold a. split_and!; [done..|]. unfold stream, bind, ret.
  rewrite Hrun, Hfin, Hcs, He.
  destruct (decide (status a = FAILED ∧ failure_mode policy = RAISE)) as [[Hf Hm]|Hd].
  - by rewrite !decide_True.
  - destruct (decide (status a = FAILED)) as [Hf|Hf]; [|done].
    by rewrite decide_False by (intros Hm; by apply Hd).
Qed.

(** ** What a covering policy guarantees *)

Lemma split_every_chars n fuel v :
  (0 < n)%nat → (String.length v ≤ fuel)%nat → split_every fuel n v ≫= chars = chars v.
Proof.
  intros Hn. revert v. induction fuel as [|fuel IH]; intros v Hv; [by destruct v; cbn in *; [|lia]|].
  destruct v as [|c v]; [done|]. cbn [split_every]. rewrite bind_cons, IH.
  - rewrite !chars_substring, drop_0, (firstn_all2 (drop _ _)); [apply take_drop|].
    rewrite length_drop, chars_length. lia.
  - rewrite <-chars_length, chars_substring, length_take, length_drop, chars_length in *.
    cbn [String.length] in *. lia.
Qed.

Lemma make_policy_valid p :
  make_policy policy = Ok p →
  p = policy ∧ (0 < buffer_size policy)%nat ∧ patterns policy ≠ [] ∧
  ∀ n, emit_chunk_size policy = Some n → (0 < n)%nat.
Proof.
  unfold make_policy.
  intros (? & Hb%check_Ok & (? & Hc%check_Ok & (? & Hp%check_Ok & [= <-])%outcome_bind_Ok)
    %outcome_bind_Ok)%outcome_bind_Ok.
  split_and!; [done|by apply Nat.eqb_neq in Hb; lia| |].
  - intros Hn. by rewrite Hn in Hp.
  - intros n Hn. rewrite Hn in Hc. apply Nat.eqb_neq in Hc. lia.
Qed.

Context (Hvalid : make_policy policy = Ok policy).

Lemma split_for_emit_chars v : _split_for_emit policy v ≫= chars = chars v.
Proof.
  destruct (make_policy_valid _ Hvalid) as (_ & _ & _ & Hn).
  unfold _split_for_emit. case_decide as Hv; [by rewrite Hv|].
  destruct (emit_chunk_size policy) as [n|]; cbn; [|by rewrite app_nil_r].
  by apply split_every_chars; [apply Hn|].
Qed.

Lemma emitted_eq s : emitted s = _emitted_chunks s ≫= chars.
Proof. apply chars_concat. Qed.

Lemma after_push_eq s c (out := chars (redact_all policy (_buffer s +:+ c)).1)
    (k := (length out - buffer_size policy)%nat) :
  emitted (after_push s c) = emitted s ++ take k out ∧
  chars (_buffer (after_push s c)) = drop k out.
Proof.
  subst k out. unfold after_push. rewrite !emitted_eq.
  destruct (redact_all policy (_buffer s +:+ c)) as [v n]. cbn.
  rewrite bind_app, split_for_emit_chars, !chars_substring, drop_0, chars_length.
  split; [done|]. apply firstn_all2. rewrite length_drop, chars_length. lia.
Qed.

Lemma after_finish_eq s :
  emitted (after_finish s) = emitted s ++ chars (redact_all policy (_buffer s)).1.
Proof.
  unfold after_finish. rewrite !emitted_eq.
  destruct (redact_all policy (_buffer s)) as [v n]. cbn.
  by rewrite bind_app, split_for_emit_chars.
Qed.

(** *** Text without matches *)

Definition innocent (v : list ascii) : Prop :=
  ∀ p u, p ∈ patterns policy → infix (chars u) v → finditer (pattern_regex p) u = [].

Lemma innocent_infix u v : infix u v → innocent v → innocent u.
Proof. intros Huv Hv p t Hp Ht. apply (Hv p t Hp). by eapply infix_trans. Qed.

Lemma redact_all_innocent v : innocent (chars v) → redact_all policy v = (v, 0%nat).
Proof.
  intros Hv. unfold redact_all.
  assert (∀ p, p ∈ patterns policy → redact p v = (v, 0%nat)) as Hp.
  { intros p Hp. assert (finditer (pattern_regex p) v = []) as Hf.
    { apply (Hv p v Hp). by exists [], []; rewrite app_nil_r. }
    unfold redact. rewrite (surjective_pairing (subn _ _ _)), subn_count, Hf.
    by rewrite subn_no_match. }
  clear Hv. revert Hp. induction (patterns policy) as [|p ps IH]; intros Hp; [done|].
  cbn. rewrite (Hp p) by by left. apply IH. intros q Hq. apply Hp. by right.
Qed.

Lemma innocent_audit s :
  innocent (emitted s) → missed_matches (_audit policy s) = [] ∧ status (_audit policy s) = PASSED.
Proof.
  intros Hs. assert (missed_matches (_audit policy s) = []) as Hm; [|cbn in *; by rewrite Hm].
  cbn. unfold emitted in Hs. revert Hs. unfold innocent.
  induction (patterns policy) as [|p ps IH]; intros Hs; [done|].
  rewrite bind_cons, IH by (intros q u Hq; apply Hs; by right). rewrite app_nil_r.
  unfold find_matches. rewrite (Hs p); [done|by left|]. by exists [], []; rewrite app_nil_r.
Qed.

Lemma finish_innocent s :
  innocent (chars (_buffer s)) → emitted (after_finish s) = emitted s ++ chars (_buffer s).
Proof. intros Hb. by rewrite after_finish_eq, (redact_all_innocent _ Hb). Qed.

Definition unchanged s : Prop :=
  innocent (received s) →
  emitted s ++ chars (_buffer s) = received s ∧ _redacted_count s = 0%nat.

Lemma unchanged_push s c : unchanged s → unchanged (after_push s c).
Proof.
  intros Hs Hi. assert (received (after_push s c) = received s ++ chars c) as Hr.
  { unfold received, after_push. destruct (redact_all _ _). cbn.
    rewrite !chars_concat, bind_app. cbn. by rewrite app_nil_r. }
  rewrite Hr in Hi |- *. destruct Hs as [Hs Hn].
  { eapply innocent_infix, Hi. by apply infix_prefix, prefix_app_r. }
  assert (redact_all policy (_buffer s +:+ c) = (_buffer s +:+ c, 0%nat)) as Hred.
  { apply redact_all_innocent. eapply innocent_infix, Hi. rewrite chars_app, <-Hs.
    exists (emitted s), []. by rewrite app_nil_r, (assoc_L (++)). }
  destruct (after_push_eq s c) as [-> ->]. rewrite Hred. cbn [fst].
  rewrite <-(assoc_L (++)), take_drop, chars_app, (assoc_L (++)), Hs. split; [done|].
  unfold after_push. rewrite Hred. cbn. lia.
Qed.

(** A stream none of whose infixes matches a pattern is passed on unchanged,
    however it is cut into chunks: the client receives the concatenation of the
    chunks, and the audit passes with nothing detected or redacted. *)
Theorem innocent_stream_unchanged input :
  innocent (input ≫= chars) →
  ∃ out r a s, stream policy input new_session = (Ok (out, r), s) ∧
    String.concat "" out = String.concat "" input ∧
    audit r = Some a ∧ status a = PASSED ∧ redacted_count a = 0%nat.
Proof.
  intros Hi. destruct (stream_spec input) as (out & r & Hr & -> & Ha & He & Hrun).
  set (s := foldl _ _ _) in *. rewrite <-Hr in Hi.
  assert (unchanged s) as Hs by (apply pushes_ind; [apply unchanged_push|done]).
  destruct (Hs Hi) as [Hbuf Hn].
  assert (innocent (chars (_buffer s))) as Hb.
  { eapply innocent_infix, Hi. rewrite <-Hbuf. by apply infix_app_r, infix_prefix. }
  pose proof (finish_innocent s Hb) as Hf. rewrite Hbuf in Hf.
  destruct (innocent_audit (after_finish s)) as [_ Hp]; [by rewrite Hf|]. rewrite Hp in He, Hrun.
  rewrite decide_False in Hrun by (by intros [? _]).
  eexists _, r, _, _. split_and!; [done| |done|done|].
  - apply chars_inj. by rewrite !chars_concat, <-emitted_eq, <-Hr.
  - unfold after_finish. rewrite (redact_all_innocent _ Hb). cbn. lia.
Qed.

(** A secret that arrives in two chunks, the first of which the pattern
    already matches, leaks its tail: the session replaces the first part when it
    arrives, so that the rest no longer matches, is emitted as it is, and passes
    the final audit, although the pattern matches the whole secret in the text
    received. *)
Theorem split_secret_tail_leaks p c1 c2 :
  patterns policy = [p] → c1 ≠ "" → c2 ≠ "" →
  redact p c1 = (pattern_replacement p, 1%nat) →
  redact p (c1 +:+ c2) = (pattern_replacement p, 1%nat) →
  (String.length (pattern_replacement p) ≤ buffer_size policy)%nat →
  innocent (chars (pattern_replacement p) ++ chars c2) →
  ∃ out r a s, stream policy [c1; c2] new_session = (Ok (out, r), s) ∧
    String.concat "" out = pattern_replacement p +:+ c2 ∧
    audit r = Some a ∧ status a = PASSED ∧ detected_count a = 1%nat ∧ redacted_count a = 1%nat.
Proof.
  intros Hps Hc1 Hc2 Hr1 Hr12 Hlen Hi.
  destruct (stream_spec [c1; c2]) as (out & r & Hr & -> & Ha & He & Hrun).
  set (s := foldl _ _ _) in *.
  assert (after_push new_session c1 = mk_session (pattern_replacement p) [c1] [] 1 false) as H1.
  { assert (redact_all policy ("" +:+ c1) = (pattern_replacement p, 1%nat)) as Hred1.
    { unfold redact_all. rewrite Hps. change ("" +:+ c1) with c1. cbn -[redact].
      by rewrite Hr1. }
    unfold after_push. cbn [_buffer new_session]. rewrite Hred1. cbn.
    replace (String.length (pattern_replacement p) - buffer_size policy)%nat with 0%nat by lia.
    rewrite Nat.sub_0_r, substring_all. by destruct (pattern_replacement p). }
  assert (s = after_push (after_push new_session c1) c2) as Hs.
  { subst s. cbn. by rewrite !push_step_text. }
  assert (redact_all policy (pattern_replacement p +:+ c2) = (pattern_replacement p +:+ c2, 0%nat))
    as Hred by (apply redact_all_innocent; by rewrite chars_app).
  rewrite H1 in Hs. pose proof (after_push_eq (mk_session (pattern_replacement p) [c1] [] 1 false) c2)
    as [Hem Hbuf]. rewrite <-Hs in Hem, Hbuf. cbn [_buffer] in Hem, Hbuf.
  rewrite Hred in Hem, Hbuf. cbn [fst] in Hem, Hbuf. rewrite chars_app in Hem, Hbuf.
  change (emitted (mk_session _ _ _ _ _)) with (@nil ascii) in Hem. cbn [app] in Hem.
  assert (innocent (chars (_buffer s))) as Hb.
  { eapply innocent_infix, Hi. rewrite Hbuf. eexists (take _ _), [].
    by rewrite app_nil_r, take_drop. }
  assert (emitted (after_finish s) = chars (pattern_replacement p) ++ chars c2) as Hf.
  { by rewrite (finish_innocent s Hb), Hem, Hbuf, take_drop. }
  assert (_original_chunks (after_finish s) = [c1; c2] ∧ _redacted_count (after_finish s) = 1%nat)
    as [Ho Hn].
  { unfold after_finish. rewrite (redact_all_innocent _ Hb), Hs. unfold after_push.
    cbn [_buffer]. by rewrite Hred. }
  destruct (innocent_audit (after_finish s)) as [_ Hp]; [by rewrite Hf|].
  rewrite Hp in He, Hrun. rewrite decide_False in Hrun by (by intros [? _]).
  eexists _, r, _, _. split_and!; [done| |done|done| |done].
  - apply chars_inj. by rewrite chars_app, <-Hf.
  - unfold detected_count, _audit. rewrite Ho, Hps. cbn -[find_matches].
    unfold find_matches. rewrite length_fmap, <-(subn_count _ (pattern_replacement p)).
    unfold redact in Hr12. change ("" +:+ c2) with c2. by rewrite Hr12.
Qed.

(** The patterns of a policy cover a set of secrets: a secret fits the window
    with one character to spare, its pattern leaves none of it in a text, what
    a pattern finds is a secret, and replacements are told from secrets by
    their characters. *)
Class Covers (secret : string → Prop) := {
  secret_bounded w : secret w → w ≠ "" ∧ (String.length w ≤ buffer_size policy + 1)%nat;
  replacement_literal p : p ∈ patterns policy →
    pattern_replacement p ≠ "" ∧ "\"%char ∉ chars (pattern_replacement p);
  replacement_apart p w x : p ∈ patterns policy → secret w →
    x ∈ chars (pattern_replacement p) → x ∉ chars w;
  secret_redacted w : secret w →
    ∃ p, p ∈ patterns policy ∧ ∀ v, ¬ contains w (redact p v).1;
  match_is_secret p v : p ∈ patterns policy → finditer (pattern_regex p) v ≠ [] →
    ∃ w, secret w ∧ contains w v;
}.

Context `{Hcovers : Covers secret}.

(** Every pattern in turn keeps what one of them keeps. *)
Lemma redact_fold_ind (P : string → Prop) ps a :
  P a.1 → (∀ p u, p ∈ ps → P u → P (redact p u).1) →
  P (foldl (λ acc p, let '(r, n) := redact p acc.1 in (r, (acc.2 + n)%nat)) a ps).1.
Proof.
  revert a. induction ps as [|p ps IH]; intros a Ha Hstep; [done|]. cbn.
  pose proof (Hstep p a.1 ltac:(by left) Ha) as Hp. destruct (redact p a.1).
  apply IH; [done|]. intros q u Hq. apply Hstep. by right.
Qed.

Lemma redact_all_ind (P : string → Prop) v :
  P v → (∀ p u, p ∈ patterns policy → P u → P (redact p u).1) → P (redact_all policy v).1.
Proof. by apply (redact_fold_ind P (patterns policy) (v, 0%nat)). Qed.

Lemma redact_pieces p v :
  p ∈ patterns policy →
  ∃ ps, chars v = original_text ps ∧
        chars (redact p v).1 = replaced_text (chars (pattern_replacement p)) ps.
Proof. intros Hp. by apply subn_pieces, replacement_literal. Qed.

Lemma secret_avoids p w :
  p ∈ patterns policy → secret w →
  chars w ≠ [] ∧ chars (pattern_replacement p) ≠ [] ∧
  ∀ x, x ∈ chars (pattern_replacement p) → x ∉ chars w.
Proof.
  intros Hp Hw. rewrite !chars_nil. split_and!.
  - by apply secret_bounded.
  - by apply replacement_literal.
  - intros x. by apply replacement_apart.
Qed.

Lemma redact_all_prefix w e v :
  secret w → chars w `prefix_of` e ++ chars (redact_all policy v).1 →
  chars w `prefix_of` e ++ chars v.
Proof.
  intros Hw. apply (redact_all_ind (λ u, _ `prefix_of` e ++ chars u → _)); [done|].
  intros p u Hp IH. destruct (redact_pieces p u Hp) as (ps & Hu & ->).
  destruct (secret_avoids p w Hp Hw) as (_ & Hr & Hx). rewrite Hu in IH.
  intros Hpre. apply IH. by apply prefix_replaced in Hpre.
Qed.

Lemma redact_all_clean w v : secret w → ¬ contains w (redact_all policy v).1.
Proof.
  intros Hw. destruct (secret_redacted w Hw) as (p & Hp & Hclean).
  assert (∀ q u, q ∈ patterns policy → ¬ contains w u → ¬ contains w (redact q u).1) as Hkeep.
  { intros q u Hq Hu. unfold contains. destruct (redact_pieces q u Hq) as (ps & Hps & ->).
    destruct (secret_avoids q w Hq Hw) as (? & ? & ?). intros Hin. apply Hu.
    unfold contains. rewrite Hps. by apply infix_replaced in Hin. }
  unfold redact_all. apply list_elem_of_split in Hp as (l1 & l2 & Hl). rewrite Hl in Hkeep |- *.
  rewrite foldl_app. cbn. set (a := foldl _ _ l1).
  specialize (Hclean a.1). destruct (redact p a.1).
  apply (redact_fold_ind (λ u, ¬ contains w u)); [done|].
  intros q u Hq. apply Hkeep. set_solver.
Qed.

(** The window ends what a secret can reach: it is full, or holds a character
    no secret has. *)
Definition barrier (v : list ascii) : Prop :=
  (buffer_size policy ≤ length v)%nat ∨ ∃ x, x ∈ v ∧ ∀ w, secret w → x ∉ chars w.

Lemma barrier_app v c : barrier v → barrier (v ++ c).
Proof.
  intros [?|(x & ? & ?)]; [left; rewrite length_app; lia|right].
  exists x. split; [|done]. apply elem_of_app. by left.
Qed.

Lemma barrier_redact_all v : barrier (chars v) → barrier (chars (redact_all policy v).1).
Proof.
  apply (redact_all_ind (λ u, barrier (chars v) → barrier (chars u))); [done|].
  intros p u Hp IH Hv. destruct (redact_pieces p u Hp) as (ps & Hu & Hr).
  destruct (replacement_literal p Hp) as [Hne _]. rewrite <-chars_nil in Hne.
  destruct (replaced_kept_or_marked _ ps Hne) as [Hk|(x & Hx & Hin)].
  - rewrite Hr, Hk, <-Hu. by apply IH.
  - right. exists x. rewrite Hr. split; [done|]. intros w Hw.
    by apply (replacement_apart p w x Hp Hw).
Qed.

(** What the session keeps between two pushes: neither the emitted text nor its
    continuation by the buffer has a secret, and the buffer is a barrier once
    something was emitted. *)
Definition sealed s : Prop :=
  (∀ w, secret w → ¬ infix (chars w) (emitted s ++ chars (_buffer s))) ∧
  (emitted s = [] ∨ barrier (chars (_buffer s))).

Lemma sealed_extend s c w :
  sealed s → secret w →
  ¬ infix (chars w) (emitted s ++ chars (redact_all policy (_buffer s +:+ c)).1).
Proof.
  intros [Hclean Hbar] Hw [Hin|(a & e & He & Hne & Hpre)]%infix_app_inv.
  { by apply (redact_all_clean w (_buffer s +:+ c)). }
  apply redact_all_prefix in Hpre; [|done]. rewrite chars_app, (assoc_L (++)) in Hpre.
  apply (Hclean w Hw). rewrite He, <-(assoc_L (++)). apply infix_app_r.
  destruct Hbar as [He0|[Hlen|(x & Hx & Havoid)]].
  - rewrite He in He0. by apply app_nil in He0 as [_ ->].
  - destruct (secret_bounded w Hw) as [_ Hb]. rewrite <-chars_length in Hb.
    apply infix_prefix. eapply prefix_app_short; [done|]. rewrite length_app.
    destruct e; [done|]. cbn. lia.
  - apply infix_prefix.
    apply list_elem_of_split in Hx as (b1 & b2 & Hb). rewrite Hb in Hpre |- *.
    rewrite <-!(assoc_L (++)), (assoc_L (++) e), <-app_comm_cons in Hpre.
    apply prefix_avoid in Hpre; [|by apply Havoid]. rewrite (assoc_L (++)).
    by apply prefix_app_r.
Qed.

Lemma sealed_push s c : sealed s → sealed (after_push s c).
Proof.
  intros Hs. destruct (after_push_eq s c) as [He Hb]. split.
  - intros w Hw. rewrite He, Hb, <-(assoc_L (++)), take_drop. by apply sealed_extend.
  - set (out := chars (redact_all policy (_buffer s +:+ c)).1) in *.
    set (k := (length out - buffer_size policy)%nat) in *.
    destruct (decide (k = 0%nat)) as [Hk|Hk].
    + rewrite He, Hb, Hk, take_0, drop_0, app_nil_r. destruct Hs as [_ [?|Hbar]]; [by left|right].
      apply barrier_redact_all. rewrite chars_app. by apply barrier_app.
    + right. left. rewrite Hb, length_drop. subst k. lia.
Qed.

Lemma sealed_finish s w : sealed s → secret w → ¬ infix (chars w) (emitted (after_finish s)).
Proof.
  intros Hs Hw. rewrite after_finish_eq. pose proof (sealed_extend s "" w Hs Hw) as Hext.
  by rewrite (chars_inj (_buffer s +:+ "") (_buffer s)) in Hext by (by rewrite chars_app, app_nil_r).
Qed.

Lemma clean_audit s :
  (∀ w, secret w → ¬ infix (chars w) (emitted s)) →
  missed_matches (_audit policy s) = [] ∧ status (_audit policy s) = PASSED.
Proof.
  intros Hclean. cbn.
  assert (∀ ps, (∀ p, p ∈ ps → p ∈ patterns policy) →
    (ps ≫= λ p, find_matches p (String.concat "" (_emitted_chunks s))) = []) as Hnone.
  { intros ps. induction ps as [|p ps IH]; intros Hps; [done|].
    rewrite bind_cons, IH by (intros q Hq; apply Hps; by right). rewrite app_nil_r.
    unfold find_matches. destruct (finditer _ _) eqn:Hf; [done|].
    destruct (match_is_secret p (String.concat "" (_emitted_chunks s)) (Hps p ltac:(by left)))
      as (w & Hw & Hin); [by rewrite Hf|]. by destruct (Hclean w Hw). }
  by rewrite Hnone.
Qed.

(** C19. A stream through a redaction session emits no secret when the patterns
    of its policy cover the secrets: for every way the text is cut into chunks,
    no secret of at most one character more than the buffer size is in what the
    client received, chunk boundaries included; the final audit passes and the
    session does not raise. *)
Theorem covered_stream_emits_no_secret input :
  ∃ out r a s, stream policy input new_session = (Ok (out, r), s) ∧
    (∀ w, secret w → ¬ contains w (String.concat "" out)) ∧
    audit r = Some a ∧ status a = PASSED ∧ error r = None.
Proof.
  destruct (stream_spec input) as (out & r & _ & -> & Ha & He & Hrun).
  set (s := foldl _ _ _) in *. assert (sealed s) as Hs.
  { apply pushes_ind; [apply sealed_push|]. split; [|by left].
    intros w Hw Hin. apply infix_nil_r, chars_nil in Hin. by apply (secret_bounded w Hw). }
  pose proof (λ w, sealed_finish s w Hs) as Hclean.
  destruct (clean_audit _ Hclean) as [_ Hp]. rewrite Hp in He, Hrun.
  rewrite decide_False in Hrun by (by intros [? _]).
  rewrite decide_False in He by done. by eexists _, r, _, _.
Qed.
End session.

(** ** A regular expression engine for the examples

    A matcher tells the length of the match at the start of a text, zero for
    none; the text is scanned from the left, and the scan goes on after a
    match. *)

Definition matcher : Type := list ascii → nat.

Fixpoint scan (m : matcher) (skip : nat) (v : list ascii) : pieces :=
  match v with
  | [] => []
  | c :: v' =>
      match skip with
      | S k => scan m k v'
      | O => match m v with
             | O => inl [c] :: scan m 0 v'
             | S k => inr (take (S k) v) :: scan m k v'
             end
      end
  end.

Fixpoint scan_positions (m : matcher) (skip i : nat) (v : list ascii) : list (nat * nat) :=
  match v with
  | [] => []
  | c :: v' =>
      match skip with
      | S k => scan_positions m k (S i) v'
      | O => match m v with
             | O => scan_positions m 0 (S i) v'
             | S k => (i, i + S k)%nat :: scan_positions m k (S i) v'
             end
      end
  end.

Definition literal (w : list ascii) : matcher := λ v, if decide (w `prefix_of` v) then length w else 0%nat.

Fixpoint leading_digits (v : list ascii) : nat :=
  match v with
  | c :: v' => if ((48 <=? N_of_ascii c) && (N_of_ascii c <=? 57))%N
               then S (leading_digits v') else 0%nat
  | [] => 0%nat
  end.

(** The word followed by [[0-9]+] *)
Definition word_and_digits (w : list ascii) : matcher := λ v,
  match literal w v, leading_digits (drop (length w) v) with
  | S n, S k => (S n + S k)%nat
  | _, _ => 0%nat
  end.

Lemma scan_original m skip v : original_text (scan m skip v) = drop skip v.
Proof.
  revert skip. induction v as [|c v IH]; intros [|skip]; cbn; [done..| |apply IH].
  destruct (m (c :: v)) as [|k]; cbn; [apply (f_equal (cons c) (IH 0%nat))|].
  change (original_text (inr (c :: take k v) :: scan m k v) = c :: v). unfold original_text.
  rewrite bind_cons. fold (original_text (scan m k v)). rewrite IH. cbn. by rewrite take_drop.
Qed.

Lemma scan_no_match m r skip i v :
  scan_positions m skip i v = [] → replaced_text r (scan m skip v) = original_text (scan m skip v).
Proof.
  revert skip i. induction v as [|c v IH]; intros [|skip] i; cbn; [done..| |apply IH].
  destruct (m (c :: v)) as [|k]; cbn; [|done]. intros Hi. apply (f_equal (cons c)).
  by apply (IH 0%nat (S i)).
Qed.

Lemma scan_none m skip i v : (∀ t, t `suffix_of` v → m t = 0%nat) → scan_positions m skip i v = [].
Proof.
  revert skip i. induction v as [|c v IH]; intros skip i Hm; [done|].
  assert (∀ t, t `suffix_of` v → m t = 0%nat) as Hv by (intros t Ht; apply Hm; by apply suffix_cons_r).
  destruct skip as [|k]; cbn; [|by apply IH]. rewrite (Hm (c :: v)) by done. by apply IH.
Qed.

#[global, refine] Instance scanning_engine : RegexEngine matcher := {
  compile pattern := if decide (pattern = "") then None else Some (literal (chars pattern));
  subn m r s :=
    (String.string_of_list_ascii (replaced_text (chars r) (scan m 0 (chars s))),
     length (scan_positions m 0 0 (chars s)));
  finditer m s := scan_positions m 0 0 (chars s);
}.
Proof.
  - done.
  - intros m r s Hs. cbn. rewrite (scan_no_match _ _ _ _ _ Hs), scan_original.
    apply String.string_of_list_ascii_of_string.
  - intros m r s _. exists (scan m 0 (chars s)). cbn.
    by rewrite scan_original, String.list_ascii_of_string_of_list_ascii.
Defined.

Lemma scan_literal_found w skip i v : scan_positions (literal w) skip i v ≠ [] → infix w v.
Proof.
  revert skip i. induction v as [|c v IH]; intros [|skip] i; cbn; [done..| |].
  - unfold literal at 1. case_decide as Hpre; [intros _; by apply infix_prefix|].
    intros Hv%IH. by apply (infix_app_r _ _ [c]).
  - intros Hv%IH. by apply (infix_app_r _ _ [c]).
Qed.

(** Replacing a word by a text without its letters leaves no occurrence. *)
Lemma scan_literal_clean w r skip v :
  w ≠ [] → r ≠ [] → (∀ x, x ∈ r → x ∉ w) →
  ¬ infix w (replaced_text r (scan (literal w) skip v)).
Proof.
  intros Hw Hr Havoid. revert skip.
  induction v as [|c v IH]; intros skip; [by intros ?%infix_nil_r|].
  destruct skip as [|k]; cbn; [|apply IH].
  destruct (literal w (c :: v)) as [|k] eqn:Hm.
  - intros [Hpre|Hin]%infix_cons; [|by apply (IH 0%nat)].
    apply (prefix_replaced w r Hr Havoid [c]) in Hpre. rewrite scan_original in Hpre.
    unfold literal in Hm. rewrite decide_True in Hm by done. by destruct w.
  - intros [Hin|Hin]%(infix_avoid w []); [by apply infix_nil_r in Hin|by apply (IH k)|done..].
Qed.

(** ** The theorems on concrete streams *)

Section examples.
Definition token_policy : StreamingRedactionPolicy matcher :=
  mk_policy [mk_pattern "token" (literal (chars "TOKEN")) "***"] 4 (Some 2%nat) RAISE.
Definition is_token (w : string) : Prop := w = "TOKEN".

#[local] Instance token_covers : Covers token_policy is_token.
Proof.
  split.
  - by intros w ->.
  - intros p ->%list_elem_of_singleton. split; [done|]. decide_compute.
  - intros p w x ->%list_elem_of_singleton -> Hx. revert x Hx. apply Forall_forall. decide_compute.
  - intros w ->. eexists. split; [by left|]. intros v.
    unfold contains, redact. cbn -[scan]. rewrite String.list_ascii_of_string_of_list_ascii.
    apply scan_literal_clean; [done..|]. apply Forall_forall. decide_compute.
  - intros p v ->%list_elem_of_singleton Hf. exists "TOKEN". split; [done|].
    by apply scan_literal_found in Hf.
Qed.

(** A secret over two chunks is replaced before it reaches the client. *)
Lemma covered_stream_emits_no_secret_witness :
  (stream token_policy ["my TO"; "KEN and TOKEN"] new_session).1 =
    Ok (["m"; "y "; "**"; "* "; "an"; "d"; " *"; "**"],
        mk_result [" *"; "**"] (Some (mk_audit PASSED 2 2 [] 4 14 18)) None) ∧
  (∃ out r a s, stream token_policy ["my TO"; "KEN and TOKEN"] new_session = (Ok (out, r), s) ∧
    (∀ w, is_token w → ¬ contains w (String.concat "" out)) ∧
    audit r = Some a ∧ status a = PASSED ∧ error r = None).
Proof.
  split; [vm_compute; reflexivity|].
  apply (covered_stream_emits_no_secret token_policy eq_refl (secret:=is_token)).
Defined.

Lemma innocent_stream_unchanged_witness :
  innocent token_policy (["my TO"; "KIT"] ≫= chars) ∧
  (∃ out r a s, stream token_policy ["my TO"; "KIT"] new_session = (Ok (out, r), s) ∧
    String.concat "" out = String.concat "" ["my TO"; "KIT"] ∧
    audit r = Some a ∧ status a = PASSED ∧ redacted_count a = 0%nat).
Proof.
  assert (innocent token_policy (["my TO"; "KIT"] ≫= chars)) as Hi.
  { intros p u ->%list_elem_of_singleton (a & b & Hu). apply scan_none. intros t [t' Ht].
    unfold literal. apply decide_False. intros [t'' Hp]. cbn in Hu. rewrite Ht, Hp in Hu.
    assert ("N"%char ∈ chars "my TOKIT") as Hn.
    { cbn. rewrite Hu. cbn. rewrite !elem_of_app. set_solver. }
    revert Hn. decide_compute. }
  split; [exact Hi|]. by apply (innocent_stream_unchanged token_policy).
Defined.

Definition key_policy : StreamingRedactionPolicy matcher :=
  mk_policy [mk_pattern "api-key" (word_and_digits (chars "sk-live-")) "[API_KEY]"] 16 None RAISE.

(** The tail of the key reaches the client. *)
Lemma split_secret_tail_leaks_witness :
  (stream key_policy ["sk-live-1"; "234"] new_session).1 =
    Ok (["[API_KEY]234"], mk_result ["[API_KEY]234"] (Some (mk_audit PASSED 1 1 [] 16 12 12)) None) ∧
  (∃ out r a s, stream key_policy ["sk-live-1"; "234"] new_session = (Ok (out, r), s) ∧
    String.concat "" out = "[API_KEY]" +:+ "234" ∧
    audit r = Some a ∧ status a = PASSED ∧ detected_count a = 1%nat ∧ redacted_count a = 1%nat).
Proof.
  split; [vm_compute; reflexivity|].
  apply (split_secret_tail_leaks key_policy eq_refl
    (mk_pattern "api-key" (word_and_digits (chars "sk-live-")) "[API_KEY]")); try done;
    [vm_compute; reflexivity..|cbn; lia|].
  intros p u ->%list_elem_of_singleton (a & b & Hu). apply scan_none. intros t [t' Ht].
  cbn [pattern_regex]. unfold word_and_digits, literal. rewrite decide_False; [done|].
  intros [t'' Hp].
  rewrite Ht, Hp in Hu. assert ("s"%char ∈ chars "[API_KEY]234") as Hn.
  { cbn. cbn in Hu. rewrite Hu. rewrite !elem_of_app. set_solver. }
  revert Hn. decide_compute.
Defined.
End examples.
