(* ===== verification/Agent.v ===== *)
(** * Durable agents: approval, signals, cancellation and recovery

    [core/spakky-agent]: the state of an execution ([state.py]), inbound signals
    ([signal.py], [signal_consumption.py]), the approval of risky tools
    ([approval.py], the risk of [tooling.py]), cancellation with its cleanup
    hooks ([cancellation.py]), and the plan of a restart from the evidence of
    action boundaries ([recovery.py], [evidence.py]). The class [SignalQueue] is
    what the signal repository promises. *)

From S2P Require Import Prelude Json AgentSafety.

(** ** String enumerations: [StrEnum], and the lookup [Enum(text)] *)

Class StrEnum (A : Type) `{EqDecision A} := {
  members : list A;
  value : A → string;
  members_complete a : a ∈ members;
  value_inj a b : value a = value b → a = b;
}.

Definition enum_of `{StrEnum A} (s : string) : option A :=
  head (List.filter (λ a, bool_decide (value a = s)) members).

Lemma enum_of_Some `{StrEnum A} (a : A) s : enum_of s = Some a ↔ s = value a.
Proof.
  unfold enum_of. split.
  - destruct (List.filter _ members) as [|b l] eqn:Hl; cbn; [done|]. intros [= ->].
    assert (a ∈ List.filter (λ a, bool_decide (value a = s)) members) as Ha by (rewrite Hl; by left).
    apply list_elem_of_In, List.filter_In in Ha as [_ Ha]. by apply bool_decide_eq_true in Ha.
  - intros ->. destruct (List.filter _ members) as [|b l] eqn:Hl; cbn.
    + assert (a ∈ List.filter (λ b, bool_decide (value b = value a)) members) as Ha.
      { apply list_elem_of_In, List.filter_In. split; [apply list_elem_of_In, members_complete|].
        by apply bool_decide_eq_true. }
      rewrite Hl in Ha. by apply not_elem_of_nil in Ha.
    + assert (b ∈ List.filter (λ b, bool_decide (value b = value a)) members) as Hb
        by (rewrite Hl; by left).
      apply list_elem_of_In, List.filter_In in Hb as [_ Hb]. apply bool_decide_eq_true in Hb.
      f_equal. by apply value_inj.
Qed.

Lemma enum_of_value `{StrEnum A} (a : A) : enum_of (value a) = Some a.
Proof. by apply enum_of_Some. Qed.

(** Proves the laws of an enumeration. *)
Ltac solve_enum := first [ by intros []; decide_compute | by intros [] [] ].

(** ** State *)

Inductive AgentStatus :=
  | STATUS_CREATED | STATUS_ACTIVE | STATUS_INTERRUPTED | STATUS_CANCELLING
  | STATUS_COMPLETED | STATUS_FAILED | STATUS_CANCELLED.
Inductive AgentStateTransition :=
  | TO_PENDING | TO_RUNNING | TO_WAITING_APPROVAL | TO_CANCELLING | TO_CANCELLED
  | TO_COMPLETED | TO_FAILED | TO_TIMED_OUT | TO_INTERRUPTED.
Inductive AgentStateReason :=
  | APPROVAL_REQUIRED | APPROVAL_REJECTED | APPROVAL_DEFERRED | EXECUTION_FAILED
  | USER_INTERRUPTED | TIMEOUT | CANCELLATION_REQUESTED | CANCELLATION_CLEANUP_FAILED
  | RECOVERY_REQUIRES_HITL.

Global Instance status_eq_dec : EqDecision AgentStatus.
Proof. solve_decision. Defined.
Global Instance transition_eq_dec : EqDecision AgentStateTransition.
Proof. solve_decision. Defined.
Global Instance reason_eq_dec : EqDecision AgentStateReason.
Proof. solve_decision. Defined.

Definition dict : Type := list (string * json).

Record AgentState := mk_state {
  id : string;
  agent_type : string;
  status : AgentStatus;
  transition : option AgentStateTransition;
  reason : option AgentStateReason;
  current_activity : option string;
  input_ref : option string;
  output_ref : option string;
  pending_signal_count : Z;
  last_event_cursor : option string;
  recovery_marker : option string;
  state_metadata : dict;
  created_at : option Z;
  updated_at : option Z;
}.

(** [AgentState(...)], which [replace] runs as well *)
Definition make_state (s : AgentState) : outcome agent_error AgentState :=
  check (pending_signal_count s <? 0)%Z
    (AgentDefinitionError "Agent pending signal count cannot be negative");;
  Ok s%stdpp.

(** [replace(state, status=..., transition=..., reason=..., metadata=...)] *)
Definition replace_lifecycle (s : AgentState) (st : AgentStatus) (tr : AgentStateTransition)
    (re : AgentStateReason) (m : dict) : outcome agent_error AgentState :=
  make_state (mk_state (id s) (agent_type s) st (Some tr) (Some re) (current_activity s)
    (input_ref s) (output_ref s) (pending_signal_count s) (last_event_cursor s)
    (recovery_marker s) m (created_at s) (updated_at s)).

(** [replace(state, recovery_marker=...)] *)
Definition with_recovery_marker (s : AgentState) (marker : string) : AgentState :=
  mk_state (id s) (agent_type s) (status s) (transition s) (reason s) (current_activity s)
    (input_ref s) (output_ref s) (pending_signal_count s) (last_event_cursor s)
    (Some marker) (state_metadata s) (created_at s) (updated_at s).

Lemma make_state_Ok s : (0 ≤ pending_signal_count s)%Z → make_state s = Ok s.
Proof. intros Hs. unfold make_state. by rewrite (proj2 (Z.ltb_ge _ _) Hs). Qed.

Lemma make_state_inv s s' : make_state s = Ok s' → s' = s.
Proof. unfold make_state, check. by destruct (_ <? _)%Z; cbn; intros [=]. Qed.

(** ** Signals *)

Inductive AgentSignalKind :=
  | USER_MESSAGE | APPROVAL_DECISION | SIGNAL_CANCEL | PAUSE | RESUME
  | STEERING_INSTRUCTION | EXTERNAL_EVENT | SCHEDULER_WAKE_UP.
Inductive ApprovalDecision := APPROVE | REJECT | MODIFY | DEFER | DECISION_CANCEL.

Global Instance signal_kind_eq_dec : EqDecision AgentSignalKind.
Proof. solve_decision. Defined.
Global Instance decision_eq_dec : EqDecision ApprovalDecision.
Proof. solve_decision. Defined.

#[refine, global] Instance ApprovalDecision_values : StrEnum ApprovalDecision := {
  members := [APPROVE; REJECT; MODIFY; DEFER; DECISION_CANCEL];
  value d := match d with
    | APPROVE => "approve" | REJECT => "reject" | MODIFY => "modify" | DEFER => "defer"
    | DECISION_CANCEL => "cancel" end;
}.
Proof. all: solve_enum. Defined.

Record AgentSignal := mk_signal {
  signal_id : string;
  agent_state_id : string;
  kind : AgentSignalKind;
  payload : dict;
  signal_created_at : option Z;
}.

(** ** Risk of a tool ([tooling.py]) *)

Inductive Idempotency := IDEMPOTENT | CONDITIONALLY_IDEMPOTENT | NON_IDEMPOTENT | IDEMPOTENCY_UNKNOWN.
Inductive DataAccess := ACCESS_NONE | READ | WRITE | READ_WRITE.
Inductive Externality := LOCAL | EXTERNAL | EXTERNALITY_UNKNOWN.
Inductive ToolApprovalRequirement := NOT_REQUIRED | REQUIRED | DERIVED.
Inductive ToolRiskAxis := AXIS_READ | AXIS_WRITE | SIDE_EFFECT | DESTRUCTIVE | NETWORK.

Global Instance idempotency_eq_dec : EqDecision Idempotency.
Proof. solve_decision. Defined.
Global Instance data_access_eq_dec : EqDecision DataAccess.
Proof. solve_decision. Defined.
Global Instance externality_eq_dec : EqDecision Externality.
Proof. solve_decision. Defined.
Global Instance risk_axis_eq_dec : EqDecision ToolRiskAxis.
Proof. solve_decision. Defined.

#[refine, global] Instance Idempotency_values : StrEnum Idempotency := {
  members := [IDEMPOTENT; CONDITIONALLY_IDEMPOTENT; NON_IDEMPOTENT; IDEMPOTENCY_UNKNOWN];
  value i := match i with
    | IDEMPOTENT => "idempotent" | CONDITIONALLY_IDEMPOTENT => "conditionally_idempotent"
    | NON_IDEMPOTENT => "non_idempotent" | IDEMPOTENCY_UNKNOWN => "unknown" end;
}.
Proof. all: solve_enum. Defined.

Definition axis_value (a : ToolRiskAxis) : string :=
  match a with
  | AXIS_READ => "read" | AXIS_WRITE => "write" | SIDE_EFFECT => "side_effect"
  | DESTRUCTIVE => "destructive" | NETWORK => "network"
  end.
Definition approval_value (a : ToolApprovalRequirement) : string :=
  match a with
  | NOT_REQUIRED => "not_required" | REQUIRED => "required" | DERIVED => "derived"
  end.

Record ToolEffects := mk_effects {
  effects_data_access : DataAccess;
  effects_externality : Externality;
  destructive : bool;
  network : bool;
}.
Definition no_effects : ToolEffects := mk_effects ACCESS_NONE LOCAL false false.

Record AgentToolMetadata := mk_tool_metadata {
  effects : ToolEffects;
  idempotency : Idempotency;
  data_access : DataAccess;
  externality : Externality;
  approval : ToolApprovalRequirement;
}.

(** What [@agent_tool] stores of its arguments *)
Definition agent_tool (e : option ToolEffects) (i : Idempotency) (access : option DataAccess)
    (ext : option Externality) (a : ToolApprovalRequirement) : AgentToolMetadata :=
  let tool_effects := default no_effects e in
  mk_tool_metadata tool_effects i (default (effects_data_access tool_effects) access)
    (default (effects_externality tool_effects) ext) a.

(** [ToolRisk.from_metadata] *)
Definition risk_axes (m : AgentToolMetadata) : list ToolRiskAxis :=
  dedup
    ((if decide (data_access m ∈ [READ; READ_WRITE]) then [AXIS_READ] else []) ++
     (if decide (data_access m ∈ [WRITE; READ_WRITE]) then [AXIS_WRITE] else []) ++
     (if decide (data_access m ∈ [WRITE; READ_WRITE]) then [SIDE_EFFECT] else []) ++
     (if decide (externality m ∈ [EXTERNAL; EXTERNALITY_UNKNOWN]) then [SIDE_EFFECT] else []) ++
     (if destructive (effects m) then [DESTRUCTIVE] else []) ++
     (if network (effects m) || bool_decide (externality m = EXTERNAL) then [NETWORK] else [])).

Definition includes (axes : list ToolRiskAxis) (a : ToolRiskAxis) : bool := bool_decide (a ∈ axes).

Definition risk_requires_approval (axes : list ToolRiskAxis) : bool :=
  if includes axes DESTRUCTIVE then true
  else includes axes SIDE_EFFECT && (includes axes AXIS_WRITE || includes axes NETWORK).

Definition requires_approval_candidate (m : AgentToolMetadata) : bool :=
  match approval m with
  | REQUIRED => true
  | NOT_REQUIRED => false
  | DERIVED => risk_requires_approval (risk_axes m)
  end.

Record AgentToolDescriptor := mk_tool_descriptor {
  owner_module : string;
  owner_qualname : string;
  tool_name : string;
  tool_schema_name : string;
  tool_metadata : AgentToolMetadata;
}.
Definition identity_key (d : AgentToolDescriptor) : string :=
  owner_module d +:+ "." +:+ owner_qualname d +:+ ":" +:+ tool_name d.

(** ** Approval ([approval.py]) *)

Inductive AgentApprovalBoundaryKind :=
  | BOUNDARY_MODEL_CALL | TOOL_INVOCATION | DELEGATION | FINAL_PUBLICATION
  | EXTERNAL_SIDE_EFFECT | CONTEXT_TRANSFORMATION | CANCELLATION_RESUME.
Definition boundary_value (b : AgentApprovalBoundaryKind) : string :=
  match b with
  | BOUNDARY_MODEL_CALL => "model_call" | TOOL_INVOCATION => "tool_invocation"
  | DELEGATION => "delegation" | FINAL_PUBLICATION => "final_publication"
  | EXTERNAL_SIDE_EFFECT => "external_side_effect"
  | CONTEXT_TRANSFORMATION => "context_transformation"
  | CANCELLATION_RESUME => "cancellation_resume"
  end.

Definition DEFAULT_APPROVAL_DECISIONS : list ApprovalDecision := members.

Record AgentApprovalRequest := mk_request {
  request_id : string;
  request_state_id : string;
  boundary : AgentApprovalBoundaryKind;
  prompt : string;
  risk : list ToolRiskAxis;
  action_ref : string;
  allowed_decisions : list ApprovalDecision;
  request_metadata : dict;
}.

Definition make_request (r : AgentApprovalRequest) : outcome agent_error AgentApprovalRequest :=
  _require_non_blank (request_id r) "Agent approval id";;
  _require_non_blank (request_state_id r) "Agent approval state id";;
  _require_non_blank (prompt r) "Agent approval prompt";;
  _require_non_blank (action_ref r) "Agent approval action ref";;
  check (length (allowed_decisions r) =? 0)%nat
    (AgentDefinitionError "Agent approval decisions cannot be empty");;
  Ok r%stdpp.

Definition _tool_approval_metadata (d : AgentToolDescriptor) (call_id : option string) (m : dict)
    : outcome agent_error dict :=
  let result :=
    [("tool_identity", JStr (identity_key d)); ("tool_schema_name", JStr (tool_schema_name d));
     ("tool_name", JStr (tool_name d));
     ("approval_requirement", JStr (approval_value (approval (tool_metadata d))));
     ("risk_axes", JList (JStr ∘ axis_value <$> risk_axes (tool_metadata d)));
     ("metadata", JObj m)] in
  match call_id with
  | None => Ok result
  | Some c =>
      _require_non_blank c "Agent approval tool call id";;
      Ok (dict_set "call_id" (JStr c) result)
  end%stdpp.

(** [prompt or f"..."] *)
Definition from_tool_descriptor (approval_id state_id : string) (d : AgentToolDescriptor)
    (p : option string) (call_id : option string) (m : option dict)
    : outcome agent_error AgentApprovalRequest :=
  rm ← _tool_approval_metadata d call_id (default [] m);
  make_request
    (mk_request approval_id state_id TOOL_INVOCATION
       (match p with
        | Some s => if decide (s = "") then "Approve tool invocation: " +:+ tool_name d else s
        | None => "Approve tool invocation: " +:+ tool_name d
        end)
       (risk_axes (tool_metadata d)) (identity_key d) DEFAULT_APPROVAL_DECISIONS rm).

Definition request_to_metadata (r : AgentApprovalRequest) : dict :=
  [("id", JStr (request_id r)); ("agent_state_id", JStr (request_state_id r));
   ("boundary", JStr (boundary_value (boundary r))); ("action_ref", JStr (action_ref r));
   ("risk_axes", JList (JStr ∘ axis_value <$> risk r));
   ("allowed_decisions", JList (JStr ∘ value <$> allowed_decisions r));
   ("metadata", JObj (request_metadata r))].

Definition to_state (r : AgentApprovalRequest) (ty : string) : outcome agent_error AgentState :=
  _require_non_blank ty "Agent approval agent type";;
  make_state (mk_state (request_state_id r) ty STATUS_INTERRUPTED (Some TO_WAITING_APPROVAL)
    (Some APPROVAL_REQUIRED) (Some (prompt r)) None None 0 None None
    [("approval", JObj (request_to_metadata r))] None None)%stdpp.

(** The stream item of the request; its metadata are those of the request. *)
Record Approval := mk_approval {
  approval_id : string;
  approval_prompt : string;
  approval_allowed : list ApprovalDecision;
  approval_metadata : dict;
}.
Definition to_yield (r : AgentApprovalRequest) : Approval :=
  mk_approval (request_id r) (prompt r) (allowed_decisions r) (request_to_metadata r).

Inductive AgentApprovalPlan :=
  | PROCEED
  | WAIT_FOR_APPROVAL (request : AgentApprovalRequest) (waiting : AgentState) (item : Approval).

Definition plan_agent_tool_approval (d : AgentToolDescriptor) (aid sid ty : string)
    (p : option string) (call_id : option string) (m : option dict)
    : outcome agent_error AgentApprovalPlan :=
  if negb (requires_approval_candidate (tool_metadata d)) then Ok PROCEED
  else
    r ← from_tool_descriptor aid sid d p call_id m;
    s ← to_state r ty;
    Ok (WAIT_FOR_APPROVAL r s (to_yield r)).

(** *** Decisions *)

Definition _require_payload_text (p : dict) (key : string) : outcome agent_error string :=
  match dict_get key p with
  | Some (JStr s) =>
      if is_blank s
      then Raise (AgentDefinitionError ("Agent approval signal " +:+ key +:+ " must be non-blank"))
      else Ok s
  | _ => Raise (AgentDefinitionError ("Agent approval signal " +:+ key +:+ " must be non-blank"))
  end.

Definition _optional_payload_text (p : dict) (key : string) : outcome agent_error (option string) :=
  match dict_get key p with
  | None | Some JNull => Ok None
  | Some _ => Some <$> _require_payload_text p key
  end.

Definition _payload_object (v : json) : outcome agent_error dict :=
  match v with
  | JObj o => Ok o
  | _ => Raise (AgentDefinitionError "Agent approval modified payload must be an object")
  end.

Definition _parse_approval_decision (s : string) : outcome agent_error ApprovalDecision :=
  match enum_of s with
  | Some d => Ok d
  | None => Raise (AgentDefinitionError "Agent approval decision is not supported")
  end.

Definition _decision_state_target (d : ApprovalDecision)
    : AgentStatus * AgentStateTransition * option AgentStateReason :=
  match d with
  | APPROVE | MODIFY => (STATUS_ACTIVE, TO_RUNNING, None)
  | DEFER => (STATUS_INTERRUPTED, TO_WAITING_APPROVAL, Some APPROVAL_DEFERRED)
  | DECISION_CANCEL => (STATUS_CANCELLING, TO_CANCELLING, Some CANCELLATION_REQUESTED)
  | REJECT => (STATUS_FAILED, TO_FAILED, Some APPROVAL_REJECTED)
  end.

Record AgentApprovalDecisionOutcome := mk_decision_outcome {
  outcome_request_id : string;
  decision : ApprovalDecision;
  outcome_status : AgentStatus;
  outcome_transition : AgentStateTransition;
  outcome_reason : option AgentStateReason;
  modified_payload : dict;
  comment : option string;
}.

Definition parse_agent_approval_decision_signal (s : AgentSignal)
    (request : option AgentApprovalRequest) : outcome agent_error AgentApprovalDecisionOutcome :=
  check (negb (bool_decide (kind s = APPROVAL_DECISION)))
    (AgentDefinitionError "Agent approval signal kind must be approval_decision");;
  (rid ← _require_payload_text (payload s) "request_id";
   check (match request with Some r => negb (bool_decide (rid = request_id r)) | None => false end)
     (AgentDefinitionError "Agent approval signal request id does not match");;
   check (match request with
          | Some r => negb (bool_decide (agent_state_id s = request_state_id r))
          | None => false
          end)
     (AgentDefinitionError "Agent approval signal state id does not match");;
   (text ← _require_payload_text (payload s) "decision";
    d ← _parse_approval_decision text;
    m ← _payload_object (default (JObj []) (dict_get "modified_payload" (payload s)));
    c ← _optional_payload_text (payload s) "comment";
    let '(st, tr, re) := _decision_state_target d in
    Ok (mk_decision_outcome rid d st tr re m c)))%stdpp.

Definition _activity_for_decision (o : AgentApprovalDecisionOutcome) : string :=
  match decision o with
  | APPROVE => "approval approved"
  | MODIFY => "approval modified"
  | DEFER => "approval deferred"
  | DECISION_CANCEL => "approval cancellation requested"
  | REJECT => "approval rejected"
  end.

Definition opt_str (s : option string) : json := match s with Some t => JStr t | None => JNull end.

Definition materialize_agent_approval_decision_state (c : AgentState)
    (o : AgentApprovalDecisionOutcome) : outcome agent_error AgentState :=
  make_state
    (mk_state (id c) (agent_type c) (outcome_status o) (Some (outcome_transition o))
       (outcome_reason o) (Some (_activity_for_decision o)) (input_ref c) (output_ref c)
       (pending_signal_count c) (last_event_cursor c) (recovery_marker c)
       (dict_set "approval_decision"
          (JObj [("request_id", JStr (outcome_request_id o)); ("decision", JStr (value (decision o)));
                 ("modified_payload", JObj (modified_payload o)); ("comment", opt_str (comment o))])
          (state_metadata c))
       (created_at c) (updated_at c)).

(** ** Evidence ([evidence.py]) *)

Inductive AgentEvidenceKind :=
  | ACTION_BOUNDARY | EVIDENCE_MODEL | EVIDENCE_TOOL | EVIDENCE_CONTEXT | CONTEXT_MANIFEST
  | CONTEXT_DIGEST | CONTEXT_OPTIMIZATION | EVALUATION | EVIDENCE_APPROVAL | CANCELLATION
  | EVIDENCE_DELEGATION | OUTPUT_GUARD.
Global Instance evidence_kind_eq_dec : EqDecision AgentEvidenceKind.
Proof. solve_decision. Defined.

Record AgentEvidence := mk_evidence {
  evidence_id : string;
  evidence_state_id : string;
  evidence_kind : AgentEvidenceKind;
  evidence_payload : dict;
  summary : option string;
  digest : option string;
  manifest_ref : option string;
  reference : option string;
  sensitive_fields : list SensitiveFieldDescriptor;
  evidence_created_at : option Z;
}.

Record AgentEvidenceCandidate := mk_candidate {
  candidate_kind : AgentEvidenceKind;
  candidate_payload : dict;
  candidate_summary : option string;
  candidate_digest : option string;
  candidate_manifest_ref : option string;
  candidate_reference : option string;
  candidate_sensitive_fields : list SensitiveFieldDescriptor;
}.

Definition to_evidence (c : AgentEvidenceCandidate) (eid sid : string) (created : option Z)
    : outcome agent_error AgentEvidence :=
  _require_non_blank eid "Agent evidence id";;
  _require_non_blank sid "Agent state id";;
  Ok (mk_evidence eid sid (candidate_kind c) (candidate_payload c) (candidate_summary c)
        (candidate_digest c) (candidate_manifest_ref c) (candidate_reference c)
        (candidate_sensitive_fields c) created)%stdpp.

(** ** Recovery ([recovery.py]) *)

Inductive AgentActionKind := MODEL_CALL | TOOL_CALL | APPROVAL_WAIT.
Inductive AgentActionBoundaryStage := BEFORE | AFTER.
Inductive AgentResumeAction := START | SKIP_COMPLETED | RETRY | REQUIRE_HITL | NOT_RESUMABLE.

Global Instance action_kind_eq_dec : EqDecision AgentActionKind.
Proof. solve_decision. Defined.
Global Instance stage_eq_dec : EqDecision AgentActionBoundaryStage.
Proof. solve_decision. Defined.
Global Instance resume_action_eq_dec : EqDecision AgentResumeAction.
Proof. solve_decision. Defined.

#[refine, global] Instance AgentActionKind_values : StrEnum AgentActionKind := {
  members := [MODEL_CALL; TOOL_CALL; APPROVAL_WAIT];
  value k := match k with
    | MODEL_CALL => "model_call" | TOOL_CALL => "tool_call" | APPROVAL_WAIT => "approval_wait" end;
}.
Proof. all: solve_enum. Defined.
#[refine, global] Instance AgentActionBoundaryStage_values : StrEnum AgentActionBoundaryStage := {
  members := [BEFORE; AFTER];
  value s := match s with BEFORE => "before" | AFTER => "after" end;
}.
Proof. all: solve_enum. Defined.

Record AgentActionBoundaryCheckpoint := mk_checkpoint {
  checkpoint_action_id : string;
  checkpoint_kind : AgentActionKind;
  checkpoint_stage : AgentActionBoundaryStage;
  checkpoint_idempotency : Idempotency;
  checkpoint_metadata : dict;
}.

Definition make_checkpoint (c : AgentActionBoundaryCheckpoint)
    : outcome agent_error AgentActionBoundaryCheckpoint :=
  check (is_blank (checkpoint_action_id c))
    (AgentDefinitionError "Agent action boundary id cannot be blank");;
  Ok c%stdpp.

Definition _for_action (i : string) (k : AgentActionKind) (s : AgentActionBoundaryStage)
    (p : Idempotency) (m : option dict) : outcome agent_error AgentActionBoundaryCheckpoint :=
  make_checkpoint (mk_checkpoint i k s p (default [] m)).
Definition before_model_call i p m := _for_action i MODEL_CALL BEFORE p m.
Definition after_model_call i p m := _for_action i MODEL_CALL AFTER p m.
Definition before_tool_call i p m := _for_action i TOOL_CALL BEFORE p m.
Definition after_tool_call i p m := _for_action i TOOL_CALL AFTER p m.
Definition before_approval_wait i m := _for_action i APPROVAL_WAIT BEFORE NON_IDEMPOTENT m.
Definition after_approval_wait i m := _for_action i APPROVAL_WAIT AFTER NON_IDEMPOTENT m.

Definition to_evidence_candidate (c : AgentActionBoundaryCheckpoint) (s : option string)
    : AgentEvidenceCandidate :=
  mk_candidate ACTION_BOUNDARY
    [("action_id", JStr (checkpoint_action_id c)); ("action_kind", JStr (value (checkpoint_kind c)));
     ("stage", JStr (value (checkpoint_stage c)));
     ("idempotency", JStr (value (checkpoint_idempotency c)));
     ("metadata", JObj (checkpoint_metadata c))]
    s None None None [].

Record AgentResumeBoundary := mk_boundary {
  boundary_action_id : string;
  boundary_action_kind : AgentActionKind;
  boundary_stage : AgentActionBoundaryStage;
  boundary_idempotency : Idempotency;
  boundary_evidence_id : string;
}.

Record AgentResumePlan := mk_plan {
  plan_state : AgentState;
  plan_action : AgentResumeAction;
  plan_boundary : option AgentResumeBoundary;
  plan_signals : list AgentSignal;
}.

Definition can_resume_automatically (p : AgentResumePlan) : bool :=
  bool_decide (plan_action p ∈ [START; SKIP_COMPLETED; RETRY]).

Definition invalid_evidence : agent_error :=
  AgentDefinitionError "Agent action boundary evidence is invalid".

Definition _string_payload (p : dict) (key : string) : outcome agent_error string :=
  match dict_get key p with
  | Some (JStr s) => if is_blank s then Raise invalid_evidence else Ok s
  | _ => Raise invalid_evidence
  end.

(** [_action_kind_payload], [_boundary_stage_payload] and [_idempotency_payload] *)
Definition enum_payload `{StrEnum A} (p : dict) (key : string) : outcome agent_error A :=
  s ← _string_payload p key;
  match enum_of s with Some a => Ok a | None => Raise invalid_evidence end.

Definition _boundary_from_evidence (e : AgentEvidence) : outcome agent_error AgentResumeBoundary :=
  let p := evidence_payload e in
  i ← _string_payload p "action_id";
  k ← enum_payload p "action_kind";
  s ← enum_payload p "stage";
  d ← enum_payload p "idempotency";
  Ok (mk_boundary i k s d (evidence_id e)).

(** The loop over the evidence, latest first *)
Fixpoint first_boundary (l : list AgentEvidence)
    : outcome agent_error (option AgentResumeBoundary) :=
  match l with
  | [] => Ok None
  | e :: l' =>
      if decide (evidence_kind e = ACTION_BOUNDARY) then Some <$> _boundary_from_evidence e
      else first_boundary l'
  end.
Definition _last_action_boundary (evidence : list AgentEvidence)
    : outcome agent_error (option AgentResumeBoundary) :=
  first_boundary (reverse evidence).

Definition _interrupt_for_human_recovery (s : AgentState) (b : AgentResumeBoundary)
    : outcome agent_error AgentState :=
  make_state (mk_state (id s) (agent_type s) STATUS_INTERRUPTED (Some TO_INTERRUPTED)
    (Some RECOVERY_REQUIRES_HITL) (current_activity s) (input_ref s) (output_ref s)
    (pending_signal_count s) (last_event_cursor s) (Some (boundary_action_id b))
    (state_metadata s) (created_at s) (updated_at s)).

(** [ToolResumeMetadata.action_for_incomplete_boundary] is [RETRY]. *)
Definition incomplete_is_retried (i : Idempotency) : bool :=
  bool_decide (i ∈ [IDEMPOTENT; CONDITIONALLY_IDEMPOTENT]).

Definition plan_agent_resume (s : AgentState) (evidence : list AgentEvidence)
    (signals : list AgentSignal) : outcome agent_error AgentResumePlan :=
  if decide (status s ∈ [STATUS_COMPLETED; STATUS_FAILED; STATUS_CANCELLED])
  then Ok (mk_plan s NOT_RESUMABLE None signals)
  else
    ob ← _last_action_boundary evidence;
    match ob with
    | None => Ok (mk_plan s START None signals)
    | Some b =>
        match boundary_stage b with
        | AFTER =>
            s' ← make_state (with_recovery_marker s (boundary_action_id b));
            Ok (mk_plan s' SKIP_COMPLETED (Some b) signals)
        | BEFORE =>
            if decide (boundary_action_kind b = APPROVAL_WAIT) then
              s' ← _interrupt_for_human_recovery s b;
              Ok (mk_plan s' REQUIRE_HITL (Some b) signals)
            else if incomplete_is_retried (boundary_idempotency b) then
              s' ← make_state (with_recovery_marker s (boundary_action_id b));
              Ok (mk_plan s' RETRY (Some b) signals)
            else
              s' ← _interrupt_for_human_recovery s b;
              Ok (mk_plan s' REQUIRE_HITL (Some b) signals)
        end
    end.

(** ** Cancellation ([cancellation.py]) *)

Inductive AgentCancellationTargetKind := MODEL_STREAM | TOOL_EXECUTION | DELEGATE_EXECUTION.
Inductive AgentCancellationCleanupStatus := CLEANUP_SUCCEEDED | CLEANUP_FAILED | CLEANUP_SKIPPED.
Global Instance target_kind_eq_dec : EqDecision AgentCancellationTargetKind.
Proof. solve_decision. Defined.
Global Instance cleanup_status_eq_dec : EqDecision AgentCancellationCleanupStatus.
Proof. solve_decision. Defined.

Definition target_value (k : AgentCancellationTargetKind) : string :=
  match k with
  | MODEL_STREAM => "model_stream" | TOOL_EXECUTION => "tool_execution"
  | DELEGATE_EXECUTION => "delegate_execution"
  end.
Definition cleanup_value (s : AgentCancellationCleanupStatus) : string :=
  match s with
  | CLEANUP_SUCCEEDED => "succeeded" | CLEANUP_FAILED => "failed" | CLEANUP_SKIPPED => "skipped"
  end.

Definition _require_optional_non_blank (v : option string) (label : string)
    : outcome agent_error unit :=
  match v with Some s => _require_non_blank s label | None => Ok tt end.

Definition _require_cancel_signal (s : AgentSignal) : outcome agent_error unit :=
  check (negb (bool_decide (kind s = SIGNAL_CANCEL)))
    (AgentDefinitionError "Agent cancellation requires a CANCEL signal").
Definition _require_signal_matches_state (st : AgentState) (s : AgentSignal)
    : outcome agent_error unit :=
  check (negb (bool_decide (agent_state_id s = id st)))
    (AgentDefinitionError "Agent cancellation signal must belong to state").
Definition _optional_string (p : dict) (key : string) : option string :=
  match dict_get key p with Some (JStr s) => Some s | _ => None end.

Record AgentCancellationRequest := mk_cancellation_request {
  cancel_state_id : string;
  cancel_signal_id : string;
  cancel_target_kind : AgentCancellationTargetKind;
  cancel_target_ref : string;
  cancel_reason : option string;
  requested_by : option string;
  cancel_metadata : dict;
}.

Definition make_cancellation_request (r : AgentCancellationRequest)
    : outcome agent_error AgentCancellationRequest :=
  _require_non_blank (cancel_state_id r) "Agent cancellation state id";;
  _require_non_blank (cancel_signal_id r) "Agent cancellation signal id";;
  _require_non_blank (cancel_target_ref r) "Agent cancellation target ref";;
  _require_optional_non_blank (cancel_reason r) "Agent cancellation reason";;
  _require_optional_non_blank (requested_by r) "Agent cancellation requester";;
  Ok r%stdpp.

Definition from_signal (st : AgentState) (s : AgentSignal) (k : AgentCancellationTargetKind)
    (target : string) (m : dict) : outcome agent_error AgentCancellationRequest :=
  _require_cancel_signal s;;
  _require_signal_matches_state st s;;
  make_cancellation_request
    (mk_cancellation_request (id st) (signal_id s) k target
       (_optional_string (payload s) "reason") (_optional_string (payload s) "requested_by") m)%stdpp.

Record AgentCancellationCleanupResult := mk_cleanup_result {
  result_target_kind : AgentCancellationTargetKind;
  result_target_ref : string;
  result_status : AgentCancellationCleanupStatus;
  result_reason : option string;
  error_code : option string;
  result_message : option string;
  result_metadata : dict;
}.

Definition failed_cleanup (r : AgentCancellationCleanupResult) : bool :=
  bool_decide (result_status r = CLEANUP_FAILED).

Definition result_payload (r : AgentCancellationCleanupResult) : json :=
  JObj [("target_kind", JStr (target_value (result_target_kind r)));
        ("target_ref", JStr (result_target_ref r));
        ("status", JStr (cleanup_value (result_status r)));
        ("reason", opt_str (result_reason r)); ("error_code", opt_str (error_code r));
        ("message", opt_str (result_message r)); ("metadata", JObj (result_metadata r))].

Record AgentCancellationCleanupReport := mk_report {
  report_state_id : string;
  report_signal_id : string;
  outcomes : list AgentCancellationCleanupResult;
}.

Definition make_report (r : AgentCancellationCleanupReport)
    : outcome agent_error AgentCancellationCleanupReport :=
  _require_non_blank (report_state_id r) "Agent cancellation report state id";;
  _require_non_blank (report_signal_id r) "Agent cancellation report signal id";;
  Ok r%stdpp.

Definition cleanup_succeeded (r : AgentCancellationCleanupReport) : bool :=
  negb (existsb failed_cleanup (outcomes r)).

Definition report_payload (r : AgentCancellationCleanupReport) : json :=
  JObj [("state_id", JStr (report_state_id r)); ("signal_id", JStr (report_signal_id r));
        ("cleanup_succeeded", JBool (cleanup_succeeded r));
        ("outcomes", JList (result_payload <$> outcomes r))].

Definition begin_agent_cancellation (st : AgentState) (s : AgentSignal)
    : outcome agent_error AgentState :=
  _require_cancel_signal s;;
  _require_signal_matches_state st s;;
  replace_lifecycle st STATUS_CANCELLING TO_CANCELLING CANCELLATION_REQUESTED
    (dict_set "cancellation_requested_by" (opt_str (_optional_string (payload s) "requested_by"))
      (dict_set "cancellation_reason" (opt_str (_optional_string (payload s) "reason"))
        (dict_set "cancellation_signal_id" (JStr (signal_id s)) (state_metadata st))))%stdpp.

Definition complete_agent_cancellation (st : AgentState) (r : AgentCancellationCleanupReport)
    : outcome agent_error AgentState :=
  check (negb (bool_decide (id st = report_state_id r)))
    (AgentDefinitionError "Agent cancellation report state id mismatch");;
  (let m := dict_set "cancellation_cleanup" (report_payload r) (state_metadata st) in
   if cleanup_succeeded r
   then replace_lifecycle st STATUS_CANCELLED TO_CANCELLED CANCELLATION_REQUESTED m
   else replace_lifecycle st STATUS_FAILED TO_FAILED CANCELLATION_CLEANUP_FAILED m)%stdpp.

(** The hooks act on the world of the application and may raise exceptions of
    their own; [from_agent] are those of the agent package among them. *)
Section cleanup.
Context {W E : Type} (from_agent : agent_error → E).

Definition agent_check {A} (o : outcome agent_error A) : comp W E A := lift (map_error from_agent o).

Record AgentCancellationCleanupTask := mk_task {
  task_target_kind : AgentCancellationTargetKind;
  task_target_ref : string;
  cleanup : AgentCancellationRequest → comp W E AgentCancellationCleanupResult;
  task_metadata : dict;
}.

Definition run_task (st : AgentState) (s : AgentSignal) (t : AgentCancellationCleanupTask)
    : comp W E AgentCancellationCleanupResult :=
  request <- agent_check (from_signal st s (task_target_kind t) (task_target_ref t)
                            (task_metadata t)) ;;
  result <- cleanup t request ;;
  if decide (result_target_kind result = task_target_kind t ∧
             result_target_ref result = task_target_ref t)
  then ret result
  else raise (from_agent (AgentDefinitionError
                "Agent cancellation cleanup result target must match the task")).

Definition run_agent_cancellation_cleanup (st : AgentState) (s : AgentSignal)
    (tasks : list AgentCancellationCleanupTask) : comp W E AgentCancellationCleanupReport :=
  agent_check (_require_cancel_signal s) ;;;
  outs <- map_comp (run_task st s) tasks ;;
  agent_check (make_report (mk_report (id st) (signal_id s) outs)).
End cleanup.

(** ** Consumption of signals ([signal_consumption.py]) *)

(** The port of [interfaces/repository.py]: operations on the world of the
    repository, with errors of its own *)
Record IAgentSignalRepository (W E : Type) := mk_signal_repository {
  append : AgentSignal → comp W E AgentSignal;
  list_pending : string → comp W E (list AgentSignal);
  mark_consumed : string → comp W E AgentSignal;
}.
Arguments mk_signal_repository {W E} _ _ _.
Arguments append {W E} _ _.
Arguments list_pending {W E} _ _.
Arguments mark_consumed {W E} _ _.

Inductive AgentSignalPollPoint :=
  | SAFE_BOUNDARY | POLL_ACTION_BOUNDARY | MODEL_STREAM_TICK | TOOL_BOUNDARY | APPROVAL_BOUNDARY
  | CONFIGURED.

Record AgentSignalConsumptionBatch := mk_batch {
  batch_state_id : string;
  poll_point : AgentSignalPollPoint;
  signals : list AgentSignal;
}.

(** The loop has selected [n] signals so far. *)
Fixpoint select_from (n : nat) (pending : list AgentSignal)
    (accepted : option (list AgentSignalKind)) (max_signals : option Z) : list AgentSignal :=
  match pending with
  | [] => []
  | s :: rest =>
      if match max_signals with Some k => (k <=? Z.of_nat n)%Z | None => false end then []
      else if match accepted with Some ks => negb (bool_decide (kind s ∈ ks)) | None => false end
      then []
      else s :: select_from (S n) rest accepted max_signals
  end.
Definition _select_consumable_prefix := select_from 0.

Section consumption.
Context {W E : Type} (from_agent : agent_error → E) (repository : IAgentSignalRepository W E).

Definition consume_pending_agent_signals (state_id : string) (p : AgentSignalPollPoint)
    (accepted : option (list AgentSignalKind)) (max_signals : option Z)
    : comp W E AgentSignalConsumptionBatch :=
  agent_check from_agent (check (is_blank state_id)
    (AgentDefinitionError "Agent signal state id cannot be blank")) ;;;
  agent_check from_agent (check (match max_signals with Some k => (k <=? 0)%Z | None => false end)
    (AgentDefinitionError "Agent signal max_signals must be positive")) ;;;
  pending <- list_pending repository state_id ;;
  let selected := _select_consumable_prefix pending accepted max_signals in
  consumed <- map_comp (λ s, mark_consumed repository (signal_id s)) selected ;;
  ret (mk_batch state_id p consumed).
End consumption.

(** What the port promises: [pending] is the queue of unconsumed signals of each
    state, [queue_inv] an invariant of the repository, and [acceptable] what it
    requires of a signal that is appended. *)
Class SignalQueue {W E} (repository : IAgentSignalRepository W E)
    (pending : W → string → list AgentSignal) (queue_inv : W → Prop)
    (acceptable : W → AgentSignal → Prop) := {
  pending_distinct w sid : queue_inv w → NoDup (signal_id <$> pending w sid);
  list_pending_ok w sid : queue_inv w → ∃ w',
    list_pending repository sid w = (Ok (pending w sid), w') ∧ queue_inv w' ∧
    ∀ sid', pending w' sid' = pending w sid';
  mark_consumed_ok w sid s : queue_inv w → s ∈ pending w sid → ∃ w',
    mark_consumed repository (signal_id s) w = (Ok s, w') ∧ queue_inv w' ∧
    pending w' sid = List.filter (λ t, negb (bool_decide (signal_id t = signal_id s))) (pending w sid) ∧
    ∀ sid', sid' ≠ sid → pending w' sid' = pending w sid';
  append_ok w s : queue_inv w → acceptable w s → ∃ w',
    append repository s w = (Ok s, w') ∧ queue_inv w' ∧
    pending w' (agent_state_id s) = pending w (agent_state_id s) ++ [s] ∧
    ∀ sid', sid' ≠ agent_state_id s → pending w' sid' = pending w sid';
}.

(** ** Theorems *)

(** *** Approval *)

Lemma risk_requires_approval_spec t :
  risk_requires_approval (risk_axes t) = false ↔
  destructive (effects t) = false ∧ data_access t ∉ [WRITE; READ_WRITE] ∧ externality t ≠ EXTERNAL ∧
  (externality t = EXTERNALITY_UNKNOWN → network (effects t) = false).
Proof. destruct t as [[da ex [] []] i [] [] ap]; decide_compute. Qed.

Lemma request_of_tool aid sid d p c m r :
  from_tool_descriptor aid sid d p c m = Ok r →
  request_id r = aid ∧ request_state_id r = sid ∧ allowed_decisions r = DEFAULT_APPROVAL_DECISIONS.
Proof.
  unfold from_tool_descriptor, make_request. intros (rm & _ & H)%outcome_bind_Ok.
  revert H. repeat (intros (? & _ & H)%outcome_bind_Ok; revert H). by intros [= <-].
Qed.

Lemma waiting_state r ty s :
  to_state r ty = Ok s →
  status s = STATUS_INTERRUPTED ∧ transition s = Some TO_WAITING_APPROVAL ∧ id s = request_state_id r.
Proof. intros (? & _ & ->%make_state_inv)%outcome_bind_Ok. done. Qed.

(** A tool declared with [agent_tool] runs without approval exactly when the
    declaration says that approval is not required, or leaves the decision to the
    risk and the tool is neither destructive nor writes, and is not external (or
    of unknown externality with network access): every other tool waits, with
    the agent interrupted until a decision. *)
Theorem risky_tool_waits_for_approval d aid sid ty p c m plan :
  plan_agent_tool_approval d aid sid ty p c m = Ok plan →
  let t := tool_metadata d in
  (plan = PROCEED ↔
     approval t = NOT_REQUIRED ∨
     approval t = DERIVED ∧ destructive (effects t) = false ∧
       data_access t ∉ [WRITE; READ_WRITE] ∧ externality t ≠ EXTERNAL ∧
       (externality t = EXTERNALITY_UNKNOWN → network (effects t) = false)) ∧
  (∀ r w item, plan = WAIT_FOR_APPROVAL r w item →
     status w = STATUS_INTERRUPTED ∧ transition w = Some TO_WAITING_APPROVAL ∧
     id w = sid ∧ request_id r = aid ∧ request_state_id r = sid ∧
     approval_id item = aid ∧ approval_allowed item = allowed_decisions r).
Proof.
  intros Hplan. cbn zeta. unfold plan_agent_tool_approval, requires_approval_candidate in Hplan.
  assert (plan = PROCEED ∧ requires_approval_candidate (tool_metadata d) = false ∨
    requires_approval_candidate (tool_metadata d) = true ∧
    ∃ r w, plan = WAIT_FOR_APPROVAL r w (to_yield r) ∧
      from_tool_descriptor aid sid d p c m = Ok r ∧ to_state r ty = Ok w) as Hcases.
  { unfold plan_agent_tool_approval in Hplan. fold (requires_approval_candidate (tool_metadata d)) in Hplan.
    destruct (requires_approval_candidate _); cbn in Hplan; [right|left; by simplify_eq].
    apply outcome_bind_Ok in Hplan as (r & Hr & (w & Hw & [= <-])%outcome_bind_Ok). eauto 6. }
  unfold requires_approval_candidate in Hcases.
  pose proof (risk_requires_approval_spec (tool_metadata d)) as Hspec.
  destruct Hcases as [[-> Hc]|(Hc & r & w & -> & Hr & Hw)].
  - split; [|done]. split; [intros _|done].
    destruct (approval (tool_metadata d)); [by left|done|right]. split; [done|]. by apply Hspec.
  - split.
    + split; [done|]. intros [Hn|(Hd & Hn)].
      * by rewrite Hn in Hc.
      * rewrite Hd in Hc. apply Hspec in Hn. congruence.
    + intros ? ? ? [= <- <- <-]. apply request_of_tool in Hr as (<- & <- & _).
      apply waiting_state in Hw as (? & ? & ?). done.
Qed.

Lemma require_payload_text_Ok p key s :
  _require_payload_text p key = Ok s ↔ dict_get key p = Some (JStr s) ∧ is_blank s = false.
Proof.
  unfold _require_payload_text. split.
  - destruct (dict_get key p) as [[]|]; try done. case_match; [done|]. by intros [= ->].
  - intros [-> ->]. done.
Qed.

Lemma parse_decision_Ok s d : _parse_approval_decision s = Ok d ↔ s = value d.
Proof.
  unfold _parse_approval_decision. rewrite <-enum_of_Some. destruct (enum_of s); naive_solver.
Qed.

(** What an accepted decision says of its signal *)
Lemma parse_signal_inv s request o :
  parse_agent_approval_decision_signal s request = Ok o →
  kind s = APPROVAL_DECISION ∧
  dict_get "request_id" (payload s) = Some (JStr (outcome_request_id o)) ∧
  dict_get "decision" (payload s) = Some (JStr (value (decision o))) ∧
  (outcome_status o, outcome_transition o, outcome_reason o) = _decision_state_target (decision o) ∧
  ∀ r, request = Some r → outcome_request_id o = request_id r ∧ agent_state_id s = request_state_id r.
Proof.
  unfold parse_agent_approval_decision_signal.
  intros (? & Hk%check_Ok%negb_false_iff%bool_decide_eq_true & H)%outcome_bind_Ok. revert H.
  intros (rid & [Hrid _]%require_payload_text_Ok & (? & Hr%check_Ok & H)%outcome_bind_Ok)%outcome_bind_Ok.
  revert H. intros (? & Hs%check_Ok & H)%outcome_bind_Ok. revert H.
  intros (text & [Ht _]%require_payload_text_Ok & (d & Hd%parse_decision_Ok & H)%outcome_bind_Ok)
    %outcome_bind_Ok.
  revert H. intros (m & _ & (c & _ & H)%outcome_bind_Ok)%outcome_bind_Ok.
  destruct (_decision_state_target d) as [[st tr] re] eqn:Htarget. injection H as <-. cbn.
  rewrite Hrid, Ht, Hd, Htarget. split_and!; [done..|]. intros r ->.
  apply negb_false_iff, bool_decide_eq_true in Hr, Hs. done.
Qed.

(** C31. Only a decision of the human lets a waiting agent go on: when a signal,
    read for a request, makes the state active, it is an approval decision for
    this request and this agent whose text is "approve" or "modify"; the agent
    keeps its identity, and any other decision leaves it waiting, cancelling or
    failed. *)
Theorem approval_gate r c s o c' :
  parse_agent_approval_decision_signal s (Some r) = Ok o →
  materialize_agent_approval_decision_state c o = Ok c' →
  id c' = id c ∧ pending_signal_count c' = pending_signal_count c ∧
  recovery_marker c' = recovery_marker c ∧
  (status c' = STATUS_ACTIVE ↔
     kind s = APPROVAL_DECISION ∧ agent_state_id s = request_state_id r ∧
     dict_get "request_id" (payload s) = Some (JStr (request_id r)) ∧
     dict_get "decision" (payload s) ∈ [Some (JStr "approve"); Some (JStr "modify")]) ∧
  (status c' ≠ STATUS_ACTIVE →
     (status c', transition c') ∈
       [(STATUS_INTERRUPTED, Some TO_WAITING_APPROVAL); (STATUS_CANCELLING, Some TO_CANCELLING);
        (STATUS_FAILED, Some TO_FAILED)]).
Proof.
  intros (Hk & Hrid & Hd & Ht & Hr)%parse_signal_inv ->%make_state_inv.
  destruct (Hr r eq_refl) as [Hreq Hst]. cbn. rewrite Hrid, Hreq, Hd, Hst.
  do 3 (split; [done|]).
  assert (outcome_status o = (_decision_state_target (decision o)).1.1) as -> by (by rewrite <-Ht).
  assert (outcome_transition o = (_decision_state_target (decision o)).1.2) as -> by (by rewrite <-Ht).
  destruct (decision o); cbn; (split; [split|]); try done; intros H.
  all: first [done
             |by split_and!; try done; first [left|right; left]
             |by destruct H as (_ & _ & _ & [?|[?|[]%elem_of_nil]%elem_of_cons]%elem_of_cons)
             |decide_compute].
Qed.

(** The decisions a request allows are not enforced: a request that does not
    offer approval is approved by a signal that says so. *)
Theorem disallowed_decision_is_accepted r created :
  is_blank (request_id r) = false →
  APPROVE ∉ allowed_decisions r →
  ∃ o, parse_agent_approval_decision_signal
         (mk_signal "s" (request_state_id r) APPROVAL_DECISION
            [("request_id", JStr (request_id r)); ("decision", JStr "approve")] created)
         (Some r) = Ok o ∧
       decision o ∉ allowed_decisions r ∧ outcome_status o = STATUS_ACTIVE.
Proof.
  intros Hb Hno. exists (mk_decision_outcome (request_id r) APPROVE STATUS_ACTIVE TO_RUNNING None [] None).
  split; [|done]. unfold parse_agent_approval_decision_signal. cbn [kind payload agent_state_id].
  set (p := [_; _]).
  rewrite (proj2 (require_payload_text_Ok p "request_id" (request_id r))) by done.
  rewrite (proj2 (require_payload_text_Ok p "decision" "approve")) by done.
  cbn. rewrite !bool_decide_true by done. done.
Qed.

(** *** Recovery *)

Lemma string_payload_Ok p key s :
  dict_get key p = Some (JStr s) → is_blank s = false → _string_payload p key = Ok s.
Proof. unfold _string_payload. by intros -> ->. Qed.

Lemma enum_payload_Ok `{StrEnum A} p key (a : A) :
  dict_get key p = Some (JStr (value a)) → is_blank (value a) = false → enum_payload p key = Ok a.
Proof.
  intros Hp Ha. unfold enum_payload. rewrite (string_payload_Ok _ _ _ Hp Ha). cbn.
  by rewrite enum_of_value.
Qed.

Definition boundary_of (c : AgentActionBoundaryCheckpoint) (eid : string) : AgentResumeBoundary :=
  mk_boundary (checkpoint_action_id c) (checkpoint_kind c) (checkpoint_stage c)
    (checkpoint_idempotency c) eid.

Lemma boundary_payload_roundtrip c summ e :
  is_blank (checkpoint_action_id c) = false →
  evidence_payload e = candidate_payload (to_evidence_candidate c summ) →
  _boundary_from_evidence e = Ok (boundary_of c (evidence_id e)).
Proof.
  intros Hc He. unfold _boundary_from_evidence. rewrite He.
  cbn [to_evidence_candidate candidate_payload]. set (p := [_; _; _; _; _]).
  rewrite (string_payload_Ok p "action_id" (checkpoint_action_id c)) by done.
  rewrite (enum_payload_Ok p "action_kind" (checkpoint_kind c));
    [|done|by destruct (checkpoint_kind c)].
  rewrite (enum_payload_Ok p "stage" (checkpoint_stage c)); [|done|by destruct (checkpoint_stage c)].
  rewrite (enum_payload_Ok p "idempotency" (checkpoint_idempotency c));
    [done|done|by destruct (checkpoint_idempotency c)].
Qed.

(** A checkpoint is read back from the evidence it was recorded as. *)
Lemma checkpoint_roundtrip c summ eid sid t e :
  is_blank (checkpoint_action_id c) = false →
  to_evidence (to_evidence_candidate c summ) eid sid t = Ok e →
  evidence_kind e = ACTION_BOUNDARY ∧ _boundary_from_evidence e = Ok (boundary_of c eid).
Proof.
  intros Hc. unfold to_evidence.
  intros (? & _ & (? & _ & [= <-])%outcome_bind_Ok)%outcome_bind_Ok. split; [done|].
  by apply (boundary_payload_roundtrip c summ).
Qed.

(** The history of an execution: checkpoints and other evidence, each recorded as
    an artifact, in the order they were recorded *)
Inductive recorded : AgentEvidence → option (AgentActionBoundaryCheckpoint * string) → Prop :=
  | recorded_checkpoint c summ eid sid t e :
      is_blank (checkpoint_action_id c) = false →
      to_evidence (to_evidence_candidate c summ) eid sid t = Ok e →
      recorded e (Some (c, eid))
  | recorded_other e : evidence_kind e ≠ ACTION_BOUNDARY → recorded e None.

Definition last_checkpoint (h : list (option (AgentActionBoundaryCheckpoint * string)))
    : option (AgentActionBoundaryCheckpoint * string) :=
  head (omap (λ x, x) (reverse h)).

Lemma last_boundary_recorded evidence h :
  Forall2 recorded evidence h →
  _last_action_boundary evidence =
    Ok ((λ ce, boundary_of ce.1 ce.2) <$> last_checkpoint h).
Proof.
  intros Hh%Forall2_reverse. unfold _last_action_boundary, last_checkpoint.
  induction Hh as [|e x l l' Hx _ IH]; [done|]. cbn [first_boundary].
  destruct Hx as [c summ eid sid t e Hc He|e He].
  - destruct (checkpoint_roundtrip _ _ _ _ _ _ Hc He) as [Hk Hb].
    by rewrite decide_True, Hb.
  - by rewrite decide_False.
Qed.

(** The promise of a restart, on the history *)
Definition resume_spec (h : list (option (AgentActionBoundaryCheckpoint * string)))
    : AgentResumeAction :=
  match last_checkpoint h with
  | None => START
  | Some (c, _) =>
      match checkpoint_stage c, checkpoint_kind c, checkpoint_idempotency c with
      | AFTER, _, _ => SKIP_COMPLETED
      | BEFORE, APPROVAL_WAIT, _ => REQUIRE_HITL
      | BEFORE, _, (IDEMPOTENT | CONDITIONALLY_IDEMPOTENT) => RETRY
      | BEFORE, _, _ => REQUIRE_HITL
      end
  end.

Lemma resume_history s evidence h sigs :
  Forall2 recorded evidence h → (0 ≤ pending_signal_count s)%Z →
  ∃ p, plan_agent_resume s evidence sigs = Ok p ∧ plan_signals p = sigs ∧ id (plan_state p) = id s ∧
    if decide (status s ∈ [STATUS_COMPLETED; STATUS_FAILED; STATUS_CANCELLED])
    then plan_action p = NOT_RESUMABLE ∧ plan_state p = s
    else
      plan_action p = resume_spec h ∧
      (∀ c eid, last_checkpoint h = Some (c, eid) →
         plan_boundary p = Some (boundary_of c eid) ∧
         recovery_marker (plan_state p) = Some (checkpoint_action_id c)) ∧
      (plan_action p = REQUIRE_HITL →
         status (plan_state p) = STATUS_INTERRUPTED ∧
         reason (plan_state p) = Some RECOVERY_REQUIRES_HITL ∧ can_resume_automatically p = false) ∧
      (plan_action p ≠ REQUIRE_HITL → status (plan_state p) = status s).
Proof.
  intros Hh Hs. unfold plan_agent_resume. case_decide; [by eexists|].
  rewrite (last_boundary_recorded _ _ Hh). unfold resume_spec.
  destruct (last_checkpoint h) as [[c eid]|]; cbn; [|by eexists; split_and!].
  unfold _interrupt_for_human_recovery.
  destruct (checkpoint_stage c) eqn:Hst, (checkpoint_kind c) eqn:Hk,
    (checkpoint_idempotency c) eqn:Hi; cbn [boundary_of boundary_stage boundary_action_kind
      boundary_idempotency]; rewrite ?Hst, ?Hk, ?Hi; rewrite !make_state_Ok by done;
    (eexists; split; [reflexivity|]); cbn; split_and!; try done; by intros ? ? [= <- <-].
Qed.

(** C4. A restart follows the last action boundary of the recorded history: it
    starts when there is none, skips an action that completed, retries one that
    did not only when it was declared idempotent (unconditionally or not), and
    leaves every other one, an approval wait included, to a human, with the
    state interrupted; the state names the action. A finished execution is not
    resumed. *)
Theorem resume_refines_history s evidence h sigs :
  Forall2 recorded evidence h → (0 ≤ pending_signal_count s)%Z →
  ∃ p, plan_agent_resume s evidence sigs = Ok p ∧ plan_signals p = sigs ∧ id (plan_state p) = id s ∧
    if decide (status s ∈ [STATUS_COMPLETED; STATUS_FAILED; STATUS_CANCELLED])
    then plan_action p = NOT_RESUMABLE ∧ plan_state p = s
    else
      plan_action p = resume_spec h ∧
      (∀ c eid, last_checkpoint h = Some (c, eid) →
         plan_boundary p = Some (boundary_of c eid) ∧
         recovery_marker (plan_state p) = Some (checkpoint_action_id c)) ∧
      (plan_action p = REQUIRE_HITL →
         status (plan_state p) = STATUS_INTERRUPTED ∧
         reason (plan_state p) = Some RECOVERY_REQUIRES_HITL ∧ can_resume_automatically p = false) ∧
      (plan_action p ≠ REQUIRE_HITL → status (plan_state p) = status s).
Proof. apply resume_history. Qed.

(** *** Cancellation *)

Section cancellation.
Context {W E : Type} (from_agent : agent_error → E).
Notation run := (run_agent_cancellation_cleanup (W:=W) from_agent).
Notation step := (run_task (W:=W) from_agent).

Definition hook_request (st : AgentState) (s : AgentSignal) (t : AgentCancellationCleanupTask (W:=W) (E:=E))
    : AgentCancellationRequest :=
  mk_cancellation_request (id st) (signal_id s) (task_target_kind t) (task_target_ref t)
    (_optional_string (payload s) "reason") (_optional_string (payload s) "requested_by")
    (task_metadata t).

Lemma run_task_inv st s t w r w' :
  step st s t w = (Ok r, w') →
  cleanup t (hook_request st s t) w = (Ok r, w') ∧
  result_target_kind r = task_target_kind t ∧ result_target_ref r = task_target_ref t.
Proof.
  unfold run_task. intros (rq & w1 & Hrq & H)%bind_Ok_inv.
  unfold agent_check, lift in Hrq. injection Hrq as Hrq <-.
  assert (rq = hook_request st s t) as ->.
  { destruct (from_signal _ _ _ _ _) as [rq'|] eqn:Hf; [|done]. injection Hrq as <-.
    revert Hf. unfold from_signal, make_cancellation_request.
    repeat (intros (? & _ & Hf)%outcome_bind_Ok; revert Hf). by intros [= <-]. }
  apply bind_Ok_inv in H as (r' & w2 & Hc & H). case_decide as Ht; [|done].
  injection H as <- <-. by destruct Ht.
Qed.

(** The result of each hook, in the order of the tasks *)
Lemma run_tasks_inv st s ts w rs w' :
  map_comp (step st s) ts w = (Ok rs, w') →
  Forall2 (λ r t, result_target_kind r = task_target_kind t ∧ result_target_ref r = task_target_ref t)
    rs ts ∧
  map_comp (λ t, cleanup t (hook_request st s t)) ts w = (Ok rs, w').
Proof.
  revert w rs w'. induction ts as [|t ts IH]; intros w rs w'; cbn [map_comp].
  { by intros [= <- <-]. }
  intros (r & w1 & Ht & (rs' & w2 & Hts & [= <- <-])%bind_Ok_inv)%bind_Ok_inv.
  apply run_task_inv in Ht as (Hc & Hk & Hr). apply IH in Hts as [Hf Hm].
  split; [by constructor|]. unfold bind. by rewrite Hc, Hm.
Qed.

Lemma run_cleanup_inv st s ts w rep w' :
  run st s ts w = (Ok rep, w') →
  kind s = SIGNAL_CANCEL ∧ report_state_id rep = id st ∧ report_signal_id rep = signal_id s ∧
  map_comp (step st s) ts w = (Ok (outcomes rep), w').
Proof.
  unfold run_agent_cancellation_cleanup.
  intros (u & w1 & Hk & (rs & w2 & Hts & Hrep)%bind_Ok_inv)%bind_Ok_inv.
  unfold agent_check, lift in Hk, Hrep. injection Hk as Hk <-. injection Hrep as Hrep <-.
  unfold _require_cancel_signal, check in Hk. destruct (bool_decide _) eqn:Hb; [|done].
  apply bool_decide_eq_true in Hb. destruct (make_report _) as [rep'|] eqn:Hm; [|done].
  injection Hrep as <-. revert Hm. unfold make_report.
  repeat (intros (? & _ & Hm)%outcome_bind_Ok; revert Hm). by intros [= <-].
Qed.

(** A cancellation settles the execution: the state is cancelling while the
    hooks run; each hook is called once, in the order of the tasks, with the
    request of its own target, and reports that target; and when the report is
    applied, the execution is cancelled exactly when no hook reported a failure,
    and failed with the reason that the cleanup failed otherwise. *)
Theorem cancellation_settles st s ts st1 w rep w' st2 :
  begin_agent_cancellation st s = Ok st1 →
  run st1 s ts w = (Ok rep, w') →
  complete_agent_cancellation st1 rep = Ok st2 →
  status st1 = STATUS_CANCELLING ∧ reason st1 = Some CANCELLATION_REQUESTED ∧ id st2 = id st ∧
  Forall2 (λ r t, result_target_kind r = task_target_kind t ∧ result_target_ref r = task_target_ref t)
    (outcomes rep) ts ∧
  map_comp (λ t, cleanup t (hook_request st1 s t)) ts w = (Ok (outcomes rep), w') ∧
  (status st2 = STATUS_CANCELLED ↔ ∀ r, r ∈ outcomes rep → result_status r ≠ CLEANUP_FAILED) ∧
  (status st2 ≠ STATUS_CANCELLED →
     status st2 = STATUS_FAILED ∧ reason st2 = Some CANCELLATION_CLEANUP_FAILED).
Proof.
  unfold begin_agent_cancellation, complete_agent_cancellation.
  intros (? & _ & (? & _ & ->%make_state_inv)%outcome_bind_Ok)%outcome_bind_Ok Hrun%run_cleanup_inv.
  destruct Hrun as (_ & Hid & _ & [Hf Hm]%run_tasks_inv).
  intros (? & _ & Hc)%outcome_bind_Ok. cbn zeta in Hc.
  assert (cleanup_succeeded rep = true ↔ ∀ r, r ∈ outcomes rep → result_status r ≠ CLEANUP_FAILED)
    as Hs.
  { unfold cleanup_succeeded. rewrite negb_true_iff, <-not_true_iff_false, existsb_exists. split.
    - intros Hno r Hr Hst. apply Hno. exists r. split; [by apply list_elem_of_In|].
      by apply bool_decide_eq_true.
    - intros Hno (r & Hr%list_elem_of_In & Hst%bool_decide_eq_true). by apply (Hno r). }
  destruct (cleanup_succeeded rep); apply make_state_inv in Hc as ->; cbn;
    split_and!; try done; rewrite <-Hs; done.
Qed.

(** A hook that raises stops the cleanup: the hooks after it are not called,
    no report is made, and the exception reaches the caller, while the state
    stays cancelling. *)
Theorem raising_hook_skips_later_hooks st s ts t ts' w w1 rs e w2 :
  kind s = SIGNAL_CANCEL →
  map_comp (step st s) ts w = (Ok rs, w1) →
  step st s t w1 = (Raise e, w2) →
  run st s (ts ++ t :: ts') w = (Raise e, w2).
Proof.
  intros Hk Hts Ht. unfold run_agent_cancellation_cleanup, _require_cancel_signal.
  rewrite Hk. unfold bind at 1. cbn [agent_check check lift map_error negb bool_decide].
  assert (∀ w rs, map_comp (step st s) ts w = (Ok rs, w1) →
    map_comp (step st s) (ts ++ t :: ts') w = (Raise e, w2)) as Hmap.
  { clear w rs Hts. induction ts as [|t0 ts IH]; intros w rs.
    - intros [= <- ->]. cbn. unfold bind. by rewrite Ht.
    - cbn [map_comp app]. intros (r & w3 & H0 & (rs' & w4 & H1 & [= <- ->])%bind_Ok_inv)%bind_Ok_inv.
      unfold bind at 1. rewrite H0. unfold bind at 1. by rewrite (IH _ _ H1). }
  unfold bind. cbn. by rewrite (Hmap _ _ Hts).
Qed.
End cancellation.

(** *** Consumption *)

Section consume.
Context {W E : Type} (from_agent : agent_error → E).
Context `{Hq : SignalQueue W E repository pending queue_inv acceptable}.

Definition accepts (accepted : option (list AgentSignalKind)) (s : AgentSignal) : Prop :=
  match accepted with Some ks => kind s ∈ ks | None => True end.

Lemma select_from_prefix n l accepted m :
  ∃ rest, l = select_from n l accepted m ++ rest ∧
    Forall (accepts accepted) (select_from n l accepted m) ∧
    (∀ k, m = Some k → (Z.of_nat n <= k)%Z →
       (Z.of_nat n + Z.of_nat (length (select_from n l accepted m)) <= k)%Z) ∧
    (∀ x, head rest = Some x → ¬ accepts accepted x ∨
       ∃ k, m = Some k ∧ (k <= Z.of_nat n + Z.of_nat (length (select_from n l accepted m)))%Z).
Proof.
  revert n. induction l as [|s l IH]; intros n; cbn [select_from].
  { exists []. split_and!; [done|constructor|cbn; lia|done]. }
  destruct (match m with Some k => (k <=? Z.of_nat n)%Z | None => false end) eqn:Hm.
  { exists (s :: l). split_and!; [done|constructor|cbn; lia|]. intros x [= <-]. right.
    destruct m as [k|]; [|done]. apply Z.leb_le in Hm. exists k. cbn. split; [done|lia]. }
  destruct (match accepted with Some ks => negb (bool_decide (kind s ∈ ks)) | None => false end)
    eqn:Ha.
  { exists (s :: l). split_and!; [done|constructor|cbn; lia|]. intros x [= <-]. left.
    destruct accepted as [ks|]; [|done]. by apply negb_true_iff, bool_decide_eq_false in Ha. }
  destruct (IH (S n)) as (rest & Hl & Hf & Hb & Hr). exists rest. cbn [length app].
  split_and!; [by f_equal| | |].
  - constructor; [|done]. destruct accepted as [ks|]; [|done]. cbn.
    by apply negb_false_iff, bool_decide_eq_true in Ha.
  - intros k -> _. apply Z.leb_gt in Hm. specialize (Hb k eq_refl). lia.
  - intros x Hx. destruct (Hr x Hx) as [?|(k & -> & ?)]; [by left|right]. exists k. split; [done|lia].
Qed.

(** Removing by identifier the head of a list of distinct identifiers. *)
Lemma filter_distinct_head s l :
  NoDup (signal_id <$> s :: l) →
  List.filter (λ t, negb (bool_decide (signal_id t = signal_id s))) (s :: l) = l.
Proof.
  cbn. rewrite NoDup_cons, bool_decide_true by done. intros [Hs _]. cbn. apply filter_all.
  intros t Ht. apply negb_true_iff, bool_decide_eq_false. intros Heq. apply Hs.
  apply list_elem_of_fmap. by exists t.
Qed.

Lemma mark_all_consumed sid sel rest w :
  queue_inv w → pending w sid = sel ++ rest →
  ∃ w', map_comp (λ s, mark_consumed repository (signal_id s)) sel w = (Ok sel, w') ∧ queue_inv w' ∧
    pending w' sid = rest ∧ ∀ sid', sid' ≠ sid → pending w' sid' = pending w sid'.
Proof.
  revert w. induction sel as [|s sel IH]; intros w Hw Hp; cbn [map_comp].
  { by exists w. }
  destruct (mark_consumed_ok w sid s Hw) as (w1 & Hm & Hw1 & Hp1 & Ho1).
  { rewrite Hp. by left. }
  pose proof (pending_distinct w sid Hw) as Hd. rewrite Hp in Hd, Hp1. cbn [app] in Hd, Hp1.
  rewrite (filter_distinct_head s _ Hd) in Hp1.
  destruct (IH w1 Hw1 Hp1) as (w' & Hrun & Hw' & Hp' & Ho'). exists w'.
  split; [|split_and!; [done..|]].
  - unfold bind. by rewrite Hm, Hrun.
  - intros sid' Hne. by rewrite Ho', Ho1.
Qed.

(** A poll consumes a prefix of the queue and nothing else: the batch holds
    the longest prefix of the pending signals that the caller accepts, within the
    bound it gives; these signals leave the queue, what follows stays in order,
    and the queues of other executions do not change. A signal is never consumed
    before an earlier one that was not accepted. *)
Theorem poll_consumes_accepted_prefix sid p accepted m w :
  is_blank sid = false → (∀ k, m = Some k → (0 < k)%Z) → queue_inv w →
  ∃ batch rest w',
    consume_pending_agent_signals from_agent repository sid p accepted m w = (Ok batch, w') ∧
    queue_inv w' ∧ pending w sid = signals batch ++ rest ∧ pending w' sid = rest ∧
    (∀ sid', sid' ≠ sid → pending w' sid' = pending w sid') ∧
    Forall (accepts accepted) (signals batch) ∧
    (∀ k, m = Some k → (Z.of_nat (length (signals batch)) ≤ k)%Z) ∧
    (∀ s, head rest = Some s →
       ¬ accepts accepted s ∨ m = Some (Z.of_nat (length (signals batch)))).
Proof.
  intros Hsid Hm Hw. unfold consume_pending_agent_signals, agent_check, lift.
  unfold bind at 1. rewrite Hsid. cbn [check map_error]. unfold bind at 1.
  assert (match m with Some k => (k <=? 0)%Z | None => false end = false) as Hm0.
  { destruct m as [k|]; [|done]. apply Z.leb_gt. by apply Hm. }
  rewrite Hm0. cbn [check map_error].
  destruct (list_pending_ok w sid Hw) as (w1 & Hl & Hw1 & Hp1).
  unfold bind at 1. rewrite Hl.
  destruct (select_from_prefix 0 (pending w sid) accepted m) as (rest & Hsplit & Hf & Hb & Hr).
  fold (_select_consumable_prefix (pending w sid) accepted m) in *.
  set (sel := _select_consumable_prefix _ _ _) in *.
  destruct (mark_all_consumed sid sel rest w1 Hw1) as (w' & Hrun & Hw' & Hp' & Ho').
  { by rewrite Hp1. }
  exists (mk_batch sid p sel), rest, w'. unfold bind. rewrite Hrun. split_and!; try done.
  - intros sid' Hne. by rewrite Ho', Hp1.
  - cbn. intros k Hk. specialize (Hb k Hk). specialize (Hm k Hk). lia.
  - intros s Hs. destruct (Hr s Hs) as [?|(k & Hk & Hle)]; [by left|right]. cbn.
    specialize (Hb k Hk). specialize (Hm k Hk). rewrite Hk. f_equal. lia.
Qed.
End consume.

(** ** The theorems on concrete executions *)

Definition ex_descriptor : AgentToolDescriptor :=
  mk_tool_descriptor "shop" "Orders" "refund" "refund"
    (agent_tool (Some (mk_effects WRITE EXTERNAL false true)) NON_IDEMPOTENT None None DERIVED).
Definition ex_request : AgentApprovalRequest :=
  mk_request "ap-1" "st-1" TOOL_INVOCATION "Refund?" [AXIS_WRITE; SIDE_EFFECT] "shop.Orders:refund"
    [REJECT; DEFER] [].
Definition ex_agent : AgentState :=
  mk_state "st-1" "Shop" STATUS_ACTIVE (Some TO_RUNNING) None None None None 0 None None [] None None.
Definition ex_waiting : AgentState :=
  mk_state "st-1" "Shop" STATUS_INTERRUPTED (Some TO_WAITING_APPROVAL) (Some APPROVAL_REQUIRED)
    None None None 0 None None [] None None.
Definition ex_approve : AgentSignal :=
  mk_signal "sg-1" "st-1" APPROVAL_DECISION
    [("request_id", JStr "ap-1"); ("decision", JStr "approve")] None.

Lemma risky_tool_waits_for_approval_witness :
  match plan_agent_tool_approval ex_descriptor "ap-1" "st-1" "Shop" None (Some "call-1") None with
  | Ok (WAIT_FOR_APPROVAL r w item) =>
      status w = STATUS_INTERRUPTED ∧ transition w = Some TO_WAITING_APPROVAL ∧ id w = "st-1" ∧
      request_id r = "ap-1" ∧ request_state_id r = "st-1" ∧ approval_id item = "ap-1" ∧
      approval_allowed item = allowed_decisions r
  | _ => False
  end.
Proof.
  destruct (plan_agent_tool_approval ex_descriptor "ap-1" "st-1" "Shop" None (Some "call-1") None)
    as [plan|] eqn:Hp; [|discriminate].
  destruct (risky_tool_waits_for_approval _ _ _ _ _ _ _ _ Hp) as [Hproceed Hwait].
  destruct plan as [|r w item]; [|by apply Hwait].
  destruct (proj1 Hproceed eq_refl) as [?|(_ & _ & Hno & _)]; [discriminate|].
  apply Hno. cbn. left.
Defined.

Lemma approval_gate_witness :
  match parse_agent_approval_decision_signal ex_approve (Some ex_request) with
  | Ok o =>
      match materialize_agent_approval_decision_state ex_waiting o with
      | Ok c' => id c' = "st-1" ∧ status c' = STATUS_ACTIVE
      | Raise _ => False
      end
  | Raise _ => False
  end.
Proof.
  destruct (parse_agent_approval_decision_signal ex_approve (Some ex_request)) as [o|] eqn:Ho;
    [|discriminate].
  destruct (materialize_agent_approval_decision_state ex_waiting o) as [c'|] eqn:Hc;
    [|injection Ho as <-; discriminate].
  destruct (approval_gate ex_request ex_waiting ex_approve o c' Ho Hc) as (Hid & _ & _ & Hact & _).
  split; [exact Hid|]. apply Hact. split_and!; [reflexivity..|]. left.
Defined.

Lemma disallowed_decision_is_accepted_witness :
  APPROVE ∉ allowed_decisions ex_request ∧
  ∃ o, parse_agent_approval_decision_signal
         (mk_signal "s" "st-1" APPROVAL_DECISION
            [("request_id", JStr "ap-1"); ("decision", JStr "approve")] None)
         (Some ex_request) = Ok o ∧
       decision o ∉ allowed_decisions ex_request ∧ outcome_status o = STATUS_ACTIVE.
Proof.
  split; [decide_compute|]. apply (disallowed_decision_is_accepted ex_request None); [reflexivity|].
  decide_compute.
Defined.

Definition ex_before : AgentActionBoundaryCheckpoint :=
  mk_checkpoint "charge" TOOL_CALL BEFORE NON_IDEMPOTENT [].
Definition ex_boundary_evidence : AgentEvidence :=
  mk_evidence "ev-1" "st-1" ACTION_BOUNDARY (candidate_payload (to_evidence_candidate ex_before None))
    None None None None [] None.

Lemma ex_recorded : recorded ex_boundary_evidence (Some (ex_before, "ev-1")).
Proof. by apply (recorded_checkpoint ex_before None "ev-1" "st-1" None). Qed.

(** An incomplete action that is not idempotent waits for a human. *)
Lemma resume_refines_history_witness :
  resume_spec [Some (ex_before, "ev-1")] = REQUIRE_HITL ∧
  ∃ p, plan_agent_resume ex_agent [ex_boundary_evidence] [] = Ok p ∧ plan_signals p = [] ∧
    plan_action p = REQUIRE_HITL.
Proof.
  split; [reflexivity|].
  destruct (resume_refines_history ex_agent [ex_boundary_evidence] [Some (ex_before, "ev-1")] [])
    as (p & Hp & Hs & _ & Hres).
  - constructor; [apply ex_recorded|constructor].
  - cbn. lia.
  - exists p. rewrite decide_False in Hres by decide_compute. destruct Hres as [Ha _].
    split; [exact Hp|]. split; [exact Hs|exact Ha].
Defined.

(** Hooks over a log of the targets they released *)
Definition ex_hook (st : AgentCancellationCleanupStatus) (r : AgentCancellationRequest)
    : comp (list string) agent_error AgentCancellationCleanupResult :=
  modify (λ log, log ++ [cancel_target_ref r]) ;;;
  ret (mk_cleanup_result (cancel_target_kind r) (cancel_target_ref r) st None None None []).
Definition ex_raising (r : AgentCancellationRequest)
    : comp (list string) agent_error AgentCancellationCleanupResult :=
  raise (AgentDefinitionError "broken hook").
Definition ex_tasks : list (AgentCancellationCleanupTask (W:=list string) (E:=agent_error)) :=
  [mk_task MODEL_STREAM "model" (ex_hook CLEANUP_SUCCEEDED) [];
   mk_task TOOL_EXECUTION "refund" (ex_hook CLEANUP_FAILED) []].
Definition ex_cancel : AgentSignal := mk_signal "sg-2" "st-1" SIGNAL_CANCEL [] None.

Lemma cancellation_settles_witness :
  match begin_agent_cancellation ex_agent ex_cancel with
  | Ok st1 =>
      match run_agent_cancellation_cleanup (λ e, e) st1 ex_cancel ex_tasks [] with
      | (Ok rep, log) =>
          match complete_agent_cancellation st1 rep with
          | Ok st2 => log = ["model"; "refund"] ∧ status st2 = STATUS_FAILED
          | Raise _ => False
          end
      | _ => False
      end
  | Raise _ => False
  end.
Proof.
  destruct (begin_agent_cancellation ex_agent ex_cancel) as [st1|] eqn:H1; [|discriminate].
  destruct (run_agent_cancellation_cleanup (λ e, e) st1 ex_cancel ex_tasks []) as [[rep|] log] eqn:H2;
    [|injection H1 as <-; discriminate].
  destruct (complete_agent_cancellation st1 rep) as [st2|] eqn:H3;
    [|injection H1 as <-; injection H2 as <- <-; discriminate].
  destruct (cancellation_settles (λ e, e) ex_agent ex_cancel ex_tasks st1 [] rep log st2 H1 H2 H3)
    as (_ & _ & _ & _ & _ & _ & Hf).
  split.
  - injection H1 as <-. injection H2 as _ <-. reflexivity.
  - apply Hf. injection H1 as <-. injection H2 as <- _. injection H3 as <-. discriminate.
Defined.

Lemma raising_hook_skips_later_hooks_witness :
  run_agent_cancellation_cleanup (λ e, e) ex_agent ex_cancel
    ([mk_task MODEL_STREAM "model" (ex_hook CLEANUP_SUCCEEDED) []] ++
     mk_task TOOL_EXECUTION "refund" ex_raising [] ::
     [mk_task DELEGATE_EXECUTION "child" (ex_hook CLEANUP_SUCCEEDED) []]) [] =
  (Raise (AgentDefinitionError "broken hook"), ["model"]).
Proof.
  eapply (raising_hook_skips_later_hooks (λ e, e) ex_agent ex_cancel
    [mk_task MODEL_STREAM "model" (ex_hook CLEANUP_SUCCEEDED) []]); reflexivity.
Defined.
