(* ===== verification/AgentStore.v ===== *)
(** * Persistence of agents in SQL

    [plugins/spakky-sqlalchemy/agent]: the three tables with their mappings, and
    the repositories of states, signals and evidence. The signal repository is
    shown to implement the port of [Agent.v] (class [SignalQueue]), and the
    restart of [Agent.v] is composed with what the evidence table returns. The
    order of the database on text and on missing time stamps is the class
    [SqlOrder]. *)

From S2P Require Import Prelude Json AgentSafety Agent.

(** ** Stored enumerations *)

#[refine, global] Instance AgentStatus_values : StrEnum AgentStatus := {
  members := [STATUS_CREATED; STATUS_ACTIVE; STATUS_INTERRUPTED; STATUS_CANCELLING;
              STATUS_COMPLETED; STATUS_FAILED; STATUS_CANCELLED];
  value s := match s with
    | STATUS_CREATED => "created" | STATUS_ACTIVE => "active" | STATUS_INTERRUPTED => "interrupted"
    | STATUS_CANCELLING => "cancelling" | STATUS_COMPLETED => "completed"
    | STATUS_FAILED => "failed" | STATUS_CANCELLED => "cancelled" end;
}.
Proof. all: solve_enum. Defined.

#[refine, global] Instance AgentStateTransition_values : StrEnum AgentStateTransition := {
  members := [TO_PENDING; TO_RUNNING; TO_WAITING_APPROVAL; TO_CANCELLING; TO_CANCELLED;
              TO_COMPLETED; TO_FAILED; TO_TIMED_OUT; TO_INTERRUPTED];
  value t := match t with
    | TO_PENDING => "pending" | TO_RUNNING => "running"
    | TO_WAITING_APPROVAL => "waiting_approval" | TO_CANCELLING => "cancelling"
    | TO_CANCELLED => "cancelled" | TO_COMPLETED => "completed" | TO_FAILED => "failed"
    | TO_TIMED_OUT => "timed_out" | TO_INTERRUPTED => "interrupted" end;
}.
Proof. all: solve_enum. Defined.

#[refine, global] Instance AgentStateReason_values : StrEnum AgentStateReason := {
  members := [APPROVAL_REQUIRED; APPROVAL_REJECTED; APPROVAL_DEFERRED; EXECUTION_FAILED;
              USER_INTERRUPTED; TIMEOUT; CANCELLATION_REQUESTED; CANCELLATION_CLEANUP_FAILED;
              RECOVERY_REQUIRES_HITL];
  value r := match r with
    | APPROVAL_REQUIRED => "approval_required" | APPROVAL_REJECTED => "approval_rejected"
    | APPROVAL_DEFERRED => "approval_deferred" | EXECUTION_FAILED => "execution_failed"
    | USER_INTERRUPTED => "user_interrupted" | TIMEOUT => "timeout"
    | CANCELLATION_REQUESTED => "cancellation_requested"
    | CANCELLATION_CLEANUP_FAILED => "cancellation_cleanup_failed"
    | RECOVERY_REQUIRES_HITL => "recovery_requires_hitl" end;
}.
Proof. all: solve_enum. Defined.

#[refine, global] Instance AgentSignalKind_values : StrEnum AgentSignalKind := {
  members := [USER_MESSAGE; APPROVAL_DECISION; SIGNAL_CANCEL; PAUSE; RESUME; STEERING_INSTRUCTION;
              EXTERNAL_EVENT; SCHEDULER_WAKE_UP];
  value k := match k with
    | USER_MESSAGE => "user_message" | APPROVAL_DECISION => "approval_decision"
    | SIGNAL_CANCEL => "cancel" | PAUSE => "pause" | RESUME => "resume"
    | STEERING_INSTRUCTION => "steering_instruction" | EXTERNAL_EVENT => "external_event"
    | SCHEDULER_WAKE_UP => "scheduler_wake_up" end;
}.
Proof. all: solve_enum. Defined.

#[refine, global] Instance AgentEvidenceKind_values : StrEnum AgentEvidenceKind := {
  members := [ACTION_BOUNDARY; EVIDENCE_MODEL; EVIDENCE_TOOL; EVIDENCE_CONTEXT; CONTEXT_MANIFEST;
              CONTEXT_DIGEST; CONTEXT_OPTIMIZATION; EVALUATION; EVIDENCE_APPROVAL; CANCELLATION;
              EVIDENCE_DELEGATION; OUTPUT_GUARD];
  value k := match k with
    | ACTION_BOUNDARY => "action_boundary" | EVIDENCE_MODEL => "model" | EVIDENCE_TOOL => "tool"
    | EVIDENCE_CONTEXT => "context" | CONTEXT_MANIFEST => "context_manifest"
    | CONTEXT_DIGEST => "context_digest" | CONTEXT_OPTIMIZATION => "context_optimization"
    | EVALUATION => "evaluation" | EVIDENCE_APPROVAL => "approval" | CANCELLATION => "cancellation"
    | EVIDENCE_DELEGATION => "delegation" | OUTPUT_GUARD => "output_guard" end;
}.
Proof. all: solve_enum. Defined.

(** ** Errors of the repositories *)

Inductive agent_store_error :=
  | SessionNotInitializedError
  | AgentPersistenceRowNotFoundError (row : string)
  | IntegrityError
  | ValueError (text : string)
  | StoredDefinition (e : agent_error).

(** [Enum(column)], and the same for a nullable column: [Enum(c) if c else None] *)
Definition enum_column `{StrEnum A} (s : string) : outcome agent_store_error A :=
  match enum_of s with Some a => Ok a | None => Raise (ValueError s) end.
Definition nullable_enum `{StrEnum A} (c : option string)
    : outcome agent_store_error (option A) :=
  match c with
  | None => Ok None
  | Some s => if decide (s = "") then Ok None else Some <$> enum_column s
  end.

(** ** Tables ([table.py]) *)

Record AgentStateTable := mk_state_row {
  row_id : string;
  row_agent_type : string;
  row_status : string;
  row_transition : option string;
  row_reason : option string;
  row_current_activity : option string;
  row_input_ref : option string;
  row_output_ref : option string;
  row_pending_signal_count : Z;
  row_last_event_cursor : option string;
  row_recovery_marker : option string;
  row_metadata_json : dict;
  row_created_at : option Z;
  row_updated_at : option Z;
}.

Definition state_from_domain (s : AgentState) : AgentStateTable :=
  mk_state_row (id s) (agent_type s) (value (status s)) (value <$> transition s)
    (value <$> reason s) (current_activity s) (input_ref s) (output_ref s)
    (pending_signal_count s) (last_event_cursor s) (recovery_marker s) (state_metadata s)
    (created_at s) (updated_at s).

Definition state_to_domain (r : AgentStateTable) : outcome agent_store_error AgentState :=
  st ← enum_column (row_status r);
  tr ← nullable_enum (row_transition r);
  re ← nullable_enum (row_reason r);
  map_error StoredDefinition
    (make_state (mk_state (row_id r) (row_agent_type r) st tr re (row_current_activity r)
       (row_input_ref r) (row_output_ref r) (row_pending_signal_count r)
       (row_last_event_cursor r) (row_recovery_marker r) (row_metadata_json r)
       (row_created_at r) (row_updated_at r))).

Record AgentSignalTable := mk_signal_row {
  srow_id : string;
  srow_state_id : string;
  srow_kind : string;
  srow_payload : dict;
  srow_created_at : option Z;
  consumed_at : option Z;
}.

Definition signal_from_domain (s : AgentSignal) : AgentSignalTable :=
  mk_signal_row (signal_id s) (agent_state_id s) (value (kind s)) (payload s)
    (signal_created_at s) None.

Definition signal_to_domain (r : AgentSignalTable) : outcome agent_store_error AgentSignal :=
  k ← enum_column (srow_kind r);
  Ok (mk_signal (srow_id r) (srow_state_id r) k (srow_payload r) (srow_created_at r)).

Record AgentEvidenceTable := mk_evidence_row {
  erow_id : string;
  erow_state_id : string;
  erow_kind : string;
  erow_payload : dict;
  erow_summary : option string;
  erow_digest : option string;
  erow_manifest_ref : option string;
  erow_reference : option string;
  erow_created_at : option Z;
}.

Definition evidence_from_domain (e : AgentEvidence) : AgentEvidenceTable :=
  mk_evidence_row (evidence_id e) (evidence_state_id e) (value (evidence_kind e))
    (evidence_payload e) (summary e) (digest e) (manifest_ref e) (reference e)
    (evidence_created_at e).

Definition evidence_to_domain (r : AgentEvidenceTable) : outcome agent_store_error AgentEvidence :=
  k ← enum_column (erow_kind r);
  Ok (mk_evidence (erow_id r) (erow_state_id r) k (erow_payload r) (erow_summary r)
        (erow_digest r) (erow_manifest_ref r) (erow_reference r) [] (erow_created_at r)).

(** ** Order of rows: [ORDER BY created_at, id]

    Where missing time stamps go, and how text is compared, is up to the
    database. *)

Class SqlOrder := {
  nulls_first : bool;
  collate : string → string → bool;
  collate_total x y : collate x y = false → collate y x = true;
  collate_trans x y z : collate x y = true → collate y z = true → collate x z = true;
  collate_antisym x y : collate x y = true → collate y x = true → x = y;
}.

(** ** Repositories ([repository.py]) *)

Record agent_db := mk_agent_db {
  session_open : bool;
  db_clock : Z;
  state_rows : list AgentStateTable;
  signal_rows : list AgentSignalTable;
  evidence_rows : list AgentEvidenceTable;
}.

Section store.
Context `{SqlOrder}.

Definition time_lt (a b : option Z) : bool :=
  match a, b with
  | Some x, Some y => (x <? y)%Z
  | None, Some _ => nulls_first
  | Some _, None => negb nulls_first
  | None, None => false
  end.

Definition key_le (a b : option Z * string) : bool :=
  if time_lt a.1 b.1 then true
  else if time_lt b.1 a.1 then false
  else collate a.2 b.2.

Definition state_key (r : AgentStateTable) : option Z * string := (row_updated_at r, row_id r).
Definition signal_key (r : AgentSignalTable) : option Z * string := (srow_created_at r, srow_id r).
Definition evidence_key (r : AgentEvidenceTable) : option Z * string := (erow_created_at r, erow_id r).

Definition order_by {A} (key : A → option Z * string) (l : list A) : list A :=
  sort_by (λ a b, key_le (key a) (key b)) l.

Abbreviation action := (comp agent_db agent_store_error).

(** [self._session_manager.session] *)
Definition session : action unit :=
  d <- get_state ;;
  if session_open d then ret tt else raise SessionNotInitializedError.

Definition set_state_rows (l : list AgentStateTable) : action unit :=
  modify (λ d, mk_agent_db (session_open d) (db_clock d) l (signal_rows d) (evidence_rows d)).
Definition set_signal_rows (l : list AgentSignalTable) : action unit :=
  modify (λ d, mk_agent_db (session_open d) (db_clock d) (state_rows d) l (evidence_rows d)).
Definition set_evidence_rows (l : list AgentEvidenceTable) : action unit :=
  modify (λ d, mk_agent_db (session_open d) (db_clock d) (state_rows d) (signal_rows d) l).

Fixpoint to_domain_all {A B} (f : A → outcome agent_store_error B) (l : list A)
    : outcome agent_store_error (list B) :=
  match l with
  | [] => Ok []
  | x :: l' => y ← f x; ys ← to_domain_all f l'; Ok (y :: ys)
  end.

(** *** States *)

Definition find_state (i : string) (l : list AgentStateTable) : option AgentStateTable :=
  head (List.filter (λ r, bool_decide (row_id r = i)) l).

Definition state_get_or_none (i : string) : action (option AgentState) :=
  session ;;;
  d <- get_state ;;
  match find_state i (state_rows d) with
  | None => ret None
  | Some r => s <- lift (state_to_domain r) ;; ret (Some s)
  end.

Definition state_get (i : string) : action AgentState :=
  o <- state_get_or_none i ;;
  match o with
  | None => raise (AgentPersistenceRowNotFoundError i)
  | Some s => ret s
  end.

(** [merge]: the row of the identifier is replaced, or added. *)
Fixpoint merge_row (r : AgentStateTable) (l : list AgentStateTable) : list AgentStateTable :=
  match l with
  | [] => [r]
  | x :: l' => if decide (row_id x = row_id r) then r :: l' else x :: merge_row r l'
  end.

Definition state_save (s : AgentState) : action AgentState :=
  session ;;;
  d <- get_state ;;
  set_state_rows (merge_row (state_from_domain s) (state_rows d)) ;;;
  lift (state_to_domain (state_from_domain s)).

Definition list_states (statuses : list AgentStatus) : action (list AgentState) :=
  session ;;;
  d <- get_state ;;
  lift (to_domain_all state_to_domain (order_by state_key
    (List.filter (λ r, bool_decide (row_status r ∈ value <$> statuses)) (state_rows d)))).
Definition list_by_status (st : AgentStatus) := list_states [st].
Definition list_resume_candidates := list_states [STATUS_ACTIVE; STATUS_INTERRUPTED].

(** *** Signals *)

Definition signal_append (s : AgentSignal) : action AgentSignal :=
  session ;;;
  d <- get_state ;;
  if decide (signal_id s ∈ srow_id <$> signal_rows d) then raise IntegrityError
  else
    set_signal_rows (signal_rows d ++ [signal_from_domain s]) ;;;
    lift (signal_to_domain (signal_from_domain s)).

Definition pending_row (sid : string) (r : AgentSignalTable) : bool :=
  bool_decide (srow_state_id r = sid) && bool_decide (consumed_at r = None).

Definition pending_rows (sid : string) (d : agent_db) : list AgentSignalTable :=
  order_by signal_key (List.filter (pending_row sid) (signal_rows d)).

Definition signal_list_pending (sid : string) : action (list AgentSignal) :=
  session ;;;
  d <- get_state ;;
  lift (to_domain_all signal_to_domain (pending_rows sid d)).

Definition consume_row (t : Z) (r : AgentSignalTable) : AgentSignalTable :=
  mk_signal_row (srow_id r) (srow_state_id r) (srow_kind r) (srow_payload r) (srow_created_at r)
    (Some t).

Definition signal_mark_consumed (i : string) : action AgentSignal :=
  session ;;;
  d <- get_state ;;
  match head (List.filter (λ r, bool_decide (srow_id r = i)) (signal_rows d)) with
  | None => raise (AgentPersistenceRowNotFoundError i)
  | Some r =>
      set_signal_rows
        ((λ x, if decide (srow_id x = i) then consume_row (db_clock d) x else x) <$> signal_rows d) ;;;
      lift (signal_to_domain r)
  end.

Definition SqlAlchemyAgentSignalRepository : IAgentSignalRepository agent_db agent_store_error :=
  mk_signal_repository signal_append signal_list_pending signal_mark_consumed.

(** *** Evidence *)

Definition evidence_append (e : AgentEvidence) : action AgentEvidence :=
  session ;;;
  d <- get_state ;;
  if decide (evidence_id e ∈ erow_id <$> evidence_rows d) then raise IntegrityError
  else
    set_evidence_rows (evidence_rows d ++ [evidence_from_domain e]) ;;;
    lift (evidence_to_domain (evidence_from_domain e)).

Definition evidence_get (i : string) : action AgentEvidence :=
  session ;;;
  d <- get_state ;;
  match head (List.filter (λ r, bool_decide (erow_id r = i)) (evidence_rows d)) with
  | None => raise (AgentPersistenceRowNotFoundError i)
  | Some r => lift (evidence_to_domain r)
  end.

Definition list_evidence (p : AgentEvidenceTable → bool) : action (list AgentEvidence) :=
  session ;;;
  d <- get_state ;;
  lift (to_domain_all evidence_to_domain (order_by evidence_key (List.filter p (evidence_rows d)))).
Definition evidence_list_by_state (sid : string) :=
  list_evidence (λ r, bool_decide (erow_state_id r = sid)).
Definition evidence_list_by_manifest_ref (m : string) :=
  list_evidence (λ r, bool_decide (erow_manifest_ref r = Some m)).
End store.

(** ** The order of rows *)

Section order.
Context `{SqlOrder}.

Lemma time_lt_trichotomy a b : time_lt a b = false → time_lt b a = false → a = b.
Proof.
  destruct a as [x|], b as [y|]; cbn; try done; [|by destruct nulls_first..].
  rewrite !Z.ltb_ge. intros ? ?. f_equal. lia.
Qed.
Lemma time_lt_asym a b : time_lt a b = true → time_lt b a = false.
Proof. destruct a, b, nulls_first eqn:Hn; cbn; rewrite ?Hn; try done; rewrite Z.ltb_lt, Z.ltb_ge; lia. Qed.
Lemma time_lt_trans a b c : time_lt a b = true → time_lt b c = true → time_lt a c = true.
Proof.
  destruct a, b, c; cbn; destruct nulls_first; cbn; try done; rewrite !Z.ltb_lt; lia.
Qed.

Lemma key_le_total a b : key_le a b = false → key_le b a = true.
Proof.
  unfold key_le. destruct (time_lt a.1 b.1) eqn:Hab; [done|].
  destruct (time_lt b.1 a.1) eqn:Hba; [done|]. apply collate_total.
Qed.

Lemma key_le_spec a b :
  key_le a b = true ↔ time_lt a.1 b.1 = true ∨ a.1 = b.1 ∧ collate a.2 b.2 = true.
Proof.
  unfold key_le. destruct (time_lt a.1 b.1) eqn:Hab; [naive_solver|].
  destruct (time_lt b.1 a.1) eqn:Hba.
  - split; [done|]. intros [?|[Heq _]]; [done|]. rewrite Heq in Hab, Hba. congruence.
  - pose proof (time_lt_trichotomy _ _ Hab Hba). naive_solver.
Qed.

Lemma key_le_trans a b c : key_le a b = true → key_le b c = true → key_le a c = true.
Proof.
  rewrite !key_le_spec. intros [Hab|[Hab Hab2]] [Hbc|[Hbc Hbc2]].
  - left. by eapply time_lt_trans.
  - left. by rewrite <-Hbc.
  - left. by rewrite Hab.
  - right. split; [congruence|]. by eapply collate_trans.
Qed.

Section order_by.
Context {A : Type} (key : A → option Z * string).

Lemma order_by_filter f l : List.filter f (order_by key l) = order_by key (List.filter f l).
Proof.
  apply filter_sort_by; [intros x y; apply key_le_total|intros x y z; apply key_le_trans].
Qed.
Lemma order_by_snoc l x :
  (∀ y, y ∈ l → key_le (key y) (key x) = true) → order_by key (l ++ [x]) = order_by key l ++ [x].
Proof. apply (sort_by_snoc (λ a b, key_le (key a) (key b))). Qed.
Lemma elem_of_order_by x l : x ∈ order_by key l ↔ x ∈ l.
Proof. apply elem_of_sort_by. Qed.
Lemma order_by_perm l : order_by key l ≡ₚ l.
Proof. apply sort_by_perm. Qed.

(** Rows inserted in the order of their keys are listed in the order of insertion. *)
Lemma order_by_sorted_id l :
  StronglySorted (λ x y, key_le (key x) (key y) = true) l → order_by key l = l.
Proof.
  induction 1 as [|x l Hl IH Hx]; [done|]. unfold order_by in *. cbn. rewrite IH.
  destruct Hx as [|y l Hy Hx]; [done|]. cbn. by rewrite Hy.
Qed.
End order_by.
End order.

(** ** Rows and domain objects *)

Lemma enum_column_value `{StrEnum A} (a : A) : enum_column (value a) = Ok a.
Proof. unfold enum_column. by rewrite enum_of_value. Qed.
Lemma nullable_enum_value `{StrEnum A} (o : option A) :
  (∀ a : A, value a ≠ "") → nullable_enum (value <$> o) = Ok o.
Proof.
  intros Hne. destruct o as [a|]; [|done]. cbn. rewrite decide_False by apply Hne.
  by rewrite enum_column_value.
Qed.

Lemma state_row_roundtrip s :
  (0 ≤ pending_signal_count s)%Z → state_to_domain (state_from_domain s) = Ok s.
Proof.
  intros Hs. unfold state_to_domain, state_from_domain. cbn [row_status row_transition row_reason].
  rewrite enum_column_value, (nullable_enum_value (transition s)), (nullable_enum_value (reason s))
    by by intros []. cbn. rewrite make_state_Ok by done. by destruct s.
Qed.

Lemma signal_row_roundtrip s : signal_to_domain (signal_from_domain s) = Ok s.
Proof.
  unfold signal_to_domain, signal_from_domain. cbn [srow_kind]. rewrite enum_column_value.
  by destruct s.
Qed.

Definition forget_sensitive (e : AgentEvidence) : AgentEvidence :=
  mk_evidence (evidence_id e) (evidence_state_id e) (evidence_kind e) (evidence_payload e)
    (summary e) (digest e) (manifest_ref e) (reference e) [] (evidence_created_at e).

Lemma evidence_row_roundtrip e :
  evidence_to_domain (evidence_from_domain e) = Ok (forget_sensitive e).
Proof.
  unfold evidence_to_domain, evidence_from_domain. cbn [erow_kind]. by rewrite enum_column_value.
Qed.

Section to_domain.
Context {A B : Type} (f : A → outcome agent_store_error B).

Lemma to_domain_all_Ok l ys : to_domain_all f l = Ok ys ↔ Forall2 (λ x y, f x = Ok y) l ys.
Proof.
  revert ys. induction l as [|x l IH]; intros ys; cbn.
  - split; [intros [= <-]; constructor|]. by inversion 1.
  - rewrite outcome_bind_Ok. setoid_rewrite outcome_bind_Ok. split.
    + intros (y & Hy & ys' & Hys & [= <-]). constructor; [done|]. by apply IH.
    + inversion 1; subst. eexists. split; [done|]. eexists. split; [by apply IH|done].
Qed.

Lemma to_domain_all_filter p q l ys :
  (∀ x y, f x = Ok y → q y = p x) →
  to_domain_all f l = Ok ys → to_domain_all f (List.filter p l) = Ok (List.filter q ys).
Proof.
  intros Hpq. rewrite !to_domain_all_Ok. induction 1 as [|x y l ys Hxy Hl IH]; cbn; [constructor|].
  rewrite (Hpq x y Hxy). destruct (p x); [by constructor|done].
Qed.
End to_domain.

(** ** The signal repository implements the port *)

Section queue.
Context `{SqlOrder}.

Definition sql_pending (d : agent_db) (sid : string) : list AgentSignal :=
  match to_domain_all signal_to_domain (pending_rows sid d) with Ok l => l | Raise _ => [] end.

(** The primary key, an open session, and kinds that were written by the mapping *)
Definition sql_queue_inv (d : agent_db) : Prop :=
  session_open d = true ∧ NoDup (srow_id <$> signal_rows d) ∧
  ∀ r, r ∈ signal_rows d → ∃ s, signal_to_domain r = Ok s.

(** What the table asks of a signal so that the queue stays in order: a new
    identifier, and a key not below those of the signals that wait. *)
Definition sql_acceptable (d : agent_db) (s : AgentSignal) : Prop :=
  signal_id s ∉ srow_id <$> signal_rows d ∧
  ∀ r, r ∈ List.filter (pending_row (agent_state_id s)) (signal_rows d) →
    key_le (signal_key r) (signal_created_at s, signal_id s) = true.

Lemma signal_to_domain_inv r s :
  signal_to_domain r = Ok s →
  signal_id s = srow_id r ∧ agent_state_id s = srow_state_id r ∧ payload s = srow_payload r ∧
  signal_created_at s = srow_created_at r.
Proof. unfold signal_to_domain. by intros (k & _ & [= <-])%outcome_bind_Ok. Qed.

Lemma elem_of_pending_rows r sid d :
  r ∈ pending_rows sid d ↔ r ∈ signal_rows d ∧ srow_state_id r = sid ∧ consumed_at r = None.
Proof.
  unfold pending_rows. rewrite elem_of_order_by, !list_elem_of_In, filter_In.
  unfold pending_row. rewrite andb_true_iff, !bool_decide_eq_true. naive_solver.
Qed.

Lemma sql_pending_Ok d sid :
  sql_queue_inv d → to_domain_all signal_to_domain (pending_rows sid d) = Ok (sql_pending d sid).
Proof.
  intros (_ & _ & Hd). unfold sql_pending.
  assert (∀ l, (∀ r, r ∈ l → ∃ s, signal_to_domain r = Ok s) →
    ∃ ys, to_domain_all signal_to_domain l = Ok ys) as Hall.
  { induction l as [|r l IH]; intros Hl; [by exists []|].
    destruct (Hl r ltac:(by left)) as [s Hs], IH as [ys Hys]; [intros x Hx; apply Hl; by right|].
    exists (s :: ys). cbn. by rewrite Hs, Hys. }
  destruct (Hall (pending_rows sid d)) as [ys Hys]; [|by rewrite Hys].
  intros r [Hr _]%elem_of_pending_rows. by apply Hd.
Qed.

Lemma sql_pending_rows d sid :
  sql_queue_inv d → Forall2 (λ r s, signal_to_domain r = Ok s) (pending_rows sid d) (sql_pending d sid).
Proof. intros Hd. by apply to_domain_all_Ok, sql_pending_Ok. Qed.

Lemma sql_pending_ids d sid :
  sql_queue_inv d → signal_id <$> sql_pending d sid = srow_id <$> pending_rows sid d.
Proof.
  intros Hd. pose proof (sql_pending_rows d sid Hd) as Hall. revert Hall.
  generalize (pending_rows sid d), (sql_pending d sid).
  induction 1 as [|r s l l' (Hi & _)%signal_to_domain_inv _ IH]; [done|]. cbn. by rewrite Hi, IH.
Qed.

Lemma pending_rows_nodup d sid : sql_queue_inv d → NoDup (srow_id <$> pending_rows sid d).
Proof.
  intros (_ & Hnd & _). unfold pending_rows. rewrite (order_by_perm signal_key).
  revert Hnd. generalize (signal_rows d). intros l. induction l as [|r l IH]; [done|].
  cbn. intros [Hr Hl]%NoDup_cons. destruct (pending_row sid r); cbn; [|by apply IH].
  constructor; [|by apply IH]. intros Hin. apply Hr.
  apply list_elem_of_fmap in Hin as (x & -> & Hx). apply list_elem_of_fmap. exists x.
  split; [done|]. by apply list_elem_of_In, filter_In, proj1, list_elem_of_In in Hx.
Qed.

(** The update that consumes a row, on the pending rows *)
Lemma pending_consume i t sid l :
  List.filter (pending_row sid)
    ((λ x, if decide (srow_id x = i) then consume_row t x else x) <$> l) =
  List.filter (λ r, negb (bool_decide (srow_id r = i))) (List.filter (pending_row sid) l).
Proof.
  induction l as [|r l IH]; [done|]. cbn. destruct (decide (srow_id r = i)) as [Hi|Hi]; cbn.
  - replace (pending_row sid (consume_row t r)) with false.
    + destruct (pending_row sid r); cbn; [|done]. rewrite bool_decide_true by done. cbn. done.
    + unfold pending_row. cbn. symmetry. apply andb_false_iff. by right.
  - destruct (pending_row sid r); cbn; [|done]. rewrite bool_decide_false by done. cbn. by rewrite IH.
Qed.

Lemma find_row l r :
  NoDup (srow_id <$> l) → r ∈ l →
  head (List.filter (λ x, bool_decide (srow_id x = srow_id r)) l) = Some r.
Proof.
  induction l as [|x l IH]; cbn; [intros _ []%elem_of_nil|].
  intros [Hx Hl]%NoDup_cons [->|Hr]%elem_of_cons.
  - by rewrite bool_decide_true.
  - rewrite bool_decide_false; [by apply IH|]. intros Heq. apply Hx. rewrite Heq.
    apply list_elem_of_fmap. by exists r.
Qed.

Definition mark_rows (i : string) (t : Z) (l : list AgentSignalTable) : list AgentSignalTable :=
  (λ x, if decide (srow_id x = i) then consume_row t x else x) <$> l.

Lemma mark_rows_ids i t l : srow_id <$> mark_rows i t l = srow_id <$> l.
Proof.
  unfold mark_rows. rewrite <-list_fmap_compose. apply list_fmap_ext. intros k x _. cbn.
  by case_decide.
Qed.

Lemma sql_mark_pending d d' i t sid :
  sql_queue_inv d → signal_rows d' = mark_rows i t (signal_rows d) → sql_queue_inv d' →
  sql_pending d' sid =
    List.filter (λ s, negb (bool_decide (signal_id s = i))) (sql_pending d sid).
Proof.
  intros Hd Hrows Hd'. pose proof (sql_pending_Ok d sid Hd) as Hok.
  pose proof (sql_pending_Ok d' sid Hd') as Hok'.
  apply (to_domain_all_filter _ (λ r, negb (bool_decide (srow_id r = i)))
    (λ s, negb (bool_decide (signal_id s = i)))) in Hok.
  - unfold pending_rows in Hok, Hok' at 1. rewrite order_by_filter, <-(pending_consume i t) in Hok.
    unfold mark_rows in Hrows. rewrite <-Hrows in Hok. unfold pending_rows in Hok'.
    rewrite Hok in Hok'. by injection Hok' as <-.
  - intros r s (-> & _)%signal_to_domain_inv. done.
Qed.

Lemma signal_append_rows d s :
  session_open d = true → signal_id s ∉ srow_id <$> signal_rows d →
  signal_append s d =
    (Ok s, mk_agent_db true (db_clock d) (state_rows d) (signal_rows d ++ [signal_from_domain s])
             (evidence_rows d)).
Proof.
  intros Ho Hs. unfold signal_append, session, bind, get_state, set_signal_rows, modify, lift, ret.
  rewrite Ho. cbn. rewrite decide_False by done. cbn. by rewrite signal_row_roundtrip, Ho.
Qed.

Lemma inv_append d s :
  sql_queue_inv d → signal_id s ∉ srow_id <$> signal_rows d →
  sql_queue_inv (mk_agent_db true (db_clock d) (state_rows d)
    (signal_rows d ++ [signal_from_domain s]) (evidence_rows d)).
Proof.
  intros (Ho & Hnd & Hd) Hs. split_and!; [done| |].
  - cbn. rewrite fmap_app. apply NoDup_app. split_and!; [done| |apply NoDup_singleton].
    intros x Hx ->%list_elem_of_singleton. done.
  - cbn. intros r [Hr| ->%list_elem_of_singleton]%elem_of_app; [by apply Hd|].
    exists s. apply signal_row_roundtrip.
Qed.

Lemma pending_append d d' s sid :
  sql_queue_inv d → sql_acceptable d s → sql_queue_inv d' →
  signal_rows d' = signal_rows d ++ [signal_from_domain s] →
  sql_pending d' sid = sql_pending d sid ++ (if decide (agent_state_id s = sid) then [s] else []).
Proof.
  intros Hd [Hnew Hkey] Hd' Hrows. pose proof (sql_pending_Ok d' sid Hd') as Hok'.
  pose proof (sql_pending_rows d sid Hd) as Hok. unfold pending_rows in Hok'.
  rewrite Hrows, List.filter_app in Hok'. cbn [List.filter] in Hok'.
  replace (pending_row sid (signal_from_domain s)) with (bool_decide (agent_state_id s = sid)) in Hok'
    by (unfold pending_row; cbn; by rewrite andb_true_r).
  case_bool_decide as Hsid; [rewrite decide_True by done|rewrite decide_False by done].
  - subst sid. rewrite order_by_snoc in Hok' by exact Hkey.
    apply to_domain_all_Ok in Hok'.
    assert (Forall2 (λ r s, signal_to_domain r = Ok s)
      (order_by signal_key (List.filter (pending_row (agent_state_id s)) (signal_rows d)) ++
        [signal_from_domain s]) (sql_pending d (agent_state_id s) ++ [s])) as Hall.
    { apply Forall2_app; [done|]. constructor; [apply signal_row_roundtrip|constructor]. }
    apply to_domain_all_Ok in Hok', Hall. rewrite Hall in Hok'. by injection Hok'.
  - rewrite app_nil_r in Hok' |- *. fold (pending_rows sid d) in Hok'.
    rewrite (sql_pending_Ok d sid Hd) in Hok'. by injection Hok'.
Qed.

Lemma inv_mark d t i :
  sql_queue_inv d →
  sql_queue_inv (mk_agent_db true (db_clock d) (state_rows d) (mark_rows i t (signal_rows d))
    (evidence_rows d)).
Proof.
  intros (Ho & Hnd & Hd). split_and!; [done| |].
  - cbn. by rewrite mark_rows_ids.
  - cbn. unfold mark_rows. intros r (x & -> & Hx)%list_elem_of_fmap. destruct (Hd x Hx) as [s Hs].
    exists s. by case_decide.
Qed.

Lemma sql_signal_queue :
  SignalQueue SqlAlchemyAgentSignalRepository sql_pending sql_queue_inv sql_acceptable.
Proof.
  split.
  - intros d sid Hd. rewrite sql_pending_ids by done. by apply pending_rows_nodup.
  - intros d sid Hd. exists d. split; [|done]. cbn. unfold signal_list_pending, session.
    unfold bind, get_state, lift, ret. destruct Hd as (Ho & Hnd & Hd). rewrite Ho.
    by rewrite sql_pending_Ok.
  - intros d sid s Hd Hs. pose proof Hd as (Ho & Hnd & _).
    assert (∃ r, r ∈ pending_rows sid d ∧ signal_to_domain r = Ok s) as (r & Hr & Hrs).
    { apply list_elem_of_lookup in Hs as [k Hk].
      destruct (Forall2_lookup_r _ _ _ _ _ (sql_pending_rows d sid Hd) Hk) as (r & Hk' & Hrs).
      exists r. split; [|done]. apply list_elem_of_lookup. by exists k. }
    apply elem_of_pending_rows in Hr as (Hr & Hsid & _).
    pose proof (signal_to_domain_inv r s Hrs) as (Hid & _).
    set (d' := mk_agent_db true (db_clock d) (state_rows d)
                 (mark_rows (signal_id s) (db_clock d) (signal_rows d)) (evidence_rows d)).
    assert (sql_queue_inv d') as Hd' by by apply inv_mark.
    exists d'. split; [|split; [done|split]].
    + cbn. unfold signal_mark_consumed, session, bind, get_state, set_signal_rows, modify, lift, ret.
      rewrite Ho. rewrite Hid, (find_row _ _ Hnd Hr). cbn. rewrite Hrs. unfold d'. by rewrite Hid, Ho.
    + by apply (sql_mark_pending d d' (signal_id s) (db_clock d)).
    + intros sid' Hne. rewrite (sql_mark_pending d d' (signal_id s) (db_clock d)) by done.
      apply filter_all. intros x Hx. apply negb_true_iff, bool_decide_eq_false. intros Heq.
      apply list_elem_of_lookup in Hx as [k Hk].
      destruct (Forall2_lookup_r _ _ _ _ _ (sql_pending_rows d sid' Hd) Hk) as (r' & Hk' & Hrx).
      apply signal_to_domain_inv in Hrx as (Hid' & _).
      assert (r' ∈ pending_rows sid' d) as (Hr' & Hsid' & _)%elem_of_pending_rows.
      { apply list_elem_of_lookup. by exists k. }
      apply Hne. rewrite <-Hsid, <-Hsid'. f_equal.
      assert (Some r' = Some r) as [= ->]; [|done].
      rewrite <-(find_row _ _ Hnd Hr), <-(find_row _ _ Hnd Hr'). by rewrite <-Hid, <-Hid', Heq.
  - intros d s Hd Hs. pose proof Hd as (Ho & _ & _). pose proof Hs as [Hnew _].
    pose proof (inv_append d s Hd Hnew) as Hd'.
    eexists. split; [by apply signal_append_rows|]. split; [done|]. split.
    + rewrite (pending_append d _ s _ Hd Hs Hd' eq_refl). by rewrite decide_True.
    + intros sid' Hne. rewrite (pending_append d _ s _ Hd Hs Hd' eq_refl).
      rewrite decide_False by done. by rewrite app_nil_r.
Qed.

(** C5. The SQL repository of signals implements the port: on an open session it
    lists the pending signals of a state, marks one as consumed without touching
    the others, and appends a signal at the end of its queue, provided the signal
    has a new identifier and a time stamp (or, at the same time, an identifier)
    not below those of the signals that wait. *)
Theorem sql_queue_refines_port :
  SignalQueue SqlAlchemyAgentSignalRepository sql_pending sql_queue_inv sql_acceptable.
Proof. apply sql_signal_queue. Qed.
End queue.

(** ** States are stored and read back *)

Section states.
Context `{SqlOrder}.

Lemma find_merge_eq r l :
  find_state (row_id r) (merge_row r l) = Some r.
Proof.
  unfold find_state. induction l as [|x l IH]; cbn; [by rewrite bool_decide_true|].
  case_decide as Hx; cbn; [by rewrite bool_decide_true|by rewrite bool_decide_false].
Qed.
Lemma find_merge_ne i r l : i ≠ row_id r → find_state i (merge_row r l) = find_state i l.
Proof.
  intros Hi. unfold find_state. induction l as [|x l IH]; cbn; [by rewrite bool_decide_false|].
  case_decide as Hx; cbn.
  - by rewrite !bool_decide_false by congruence.
  - case_bool_decide; [done|]. apply IH.
Qed.

(** A state that is saved is read back unchanged, in every field, and saving
    it does not change what is read for any other identifier. *)
Theorem saved_state_is_read_back s d :
  session_open d = true → (0 ≤ pending_signal_count s)%Z →
  ∃ d', state_save s d = (Ok s, d') ∧ state_get (id s) d' = (Ok s, d') ∧
    ∀ i, i ≠ id s → (state_get i d').1 = (state_get i d).1.
Proof.
  intros Ho Hs. exists (mk_agent_db true (db_clock d) (merge_row (state_from_domain s) (state_rows d))
    (signal_rows d) (evidence_rows d)).
  unfold state_save, state_get, state_get_or_none, session, bind, get_state, set_state_rows, modify,
    lift, ret, raise. rewrite Ho. cbn. split_and!.
  - by rewrite state_row_roundtrip, Ho.
  - rewrite (find_merge_eq (state_from_domain s)). by rewrite state_row_roundtrip.
  - intros i Hi. rewrite ?Ho. cbn. rewrite ?Ho, (find_merge_ne i (state_from_domain s)) by done.
    destruct (find_state i (state_rows d)) as [r|]; [|done]. by destruct (state_to_domain r).
Qed.
End states.

(** ** Restart from the stored evidence *)

Section restart.
Context `{SqlOrder}.

(** The evidence of an execution is appended, the process ends, and another one
    plans the restart from what the table lists. *)
Definition record_then_resume (es : list AgentEvidence) (sid : string) (s : AgentState)
    (sigs : list AgentSignal) : comp agent_db agent_store_error AgentResumePlan :=
  map_comp evidence_append es ;;;
  ev <- evidence_list_by_state sid ;;
  lift (map_error StoredDefinition (plan_agent_resume s ev sigs)).

Lemma append_evidence_all es d :
  session_open d = true → NoDup (evidence_id <$> es) →
  (∀ e, e ∈ es → evidence_id e ∉ erow_id <$> evidence_rows d) →
  map_comp evidence_append es d =
    (Ok (forget_sensitive <$> es),
     mk_agent_db true (db_clock d) (state_rows d) (signal_rows d)
       (evidence_rows d ++ (evidence_from_domain <$> es))).
Proof.
  revert d. induction es as [|e es IH]; intros d Ho; cbn [map_comp fmap list_fmap].
  { intros _ _. rewrite app_nil_r. destruct d; cbn in *. by rewrite Ho. }
  intros [He Hes]%NoDup_cons Hfresh. unfold bind at 1.
  unfold evidence_append at 1, session, bind at 1 2 3 4, get_state, set_evidence_rows, modify, lift, ret.
  rewrite Ho. cbn. rewrite decide_False by (apply Hfresh; by left). cbn.
  rewrite evidence_row_roundtrip. unfold bind. rewrite IH; cbn; [|done|done|].
  - by rewrite <-(assoc_L (++)).
  - intros x Hx. rewrite fmap_app, not_elem_of_app. split; [apply Hfresh; by right|].
    intros Heq%list_elem_of_singleton. apply He, list_elem_of_fmap. by exists x.
Qed.

Lemma to_domain_evidence es :
  to_domain_all evidence_to_domain (evidence_from_domain <$> es) = Ok (forget_sensitive <$> es).
Proof.
  apply to_domain_all_Ok. induction es as [|e es IH]; constructor; [apply evidence_row_roundtrip|done].
Qed.

Lemma record_then_resume_eq es sid s sigs d rows :
  session_open d = true → NoDup (evidence_id <$> es) →
  (∀ e, e ∈ es → evidence_id e ∉ erow_id <$> evidence_rows d) →
  (∀ r, r ∈ evidence_rows d → erow_state_id r ≠ sid) → (∀ e, e ∈ es → evidence_state_id e = sid) →
  order_by evidence_key (evidence_from_domain <$> es) = evidence_from_domain <$> rows →
  (record_then_resume es sid s sigs d).1 =
    map_error StoredDefinition (plan_agent_resume s (forget_sensitive <$> rows) sigs).
Proof.
  intros Ho Hnd Hfresh Hother Hes Horder. unfold record_then_resume.
  unfold bind at 1. rewrite append_evidence_all by done.
  unfold evidence_list_by_state, list_evidence, session, bind, get_state, lift, ret.
  cbn -[order_by]. rewrite List.filter_app.
  assert (List.filter (λ r, bool_decide (erow_state_id r = sid)) (evidence_rows d) = []) as ->.
  { induction (evidence_rows d) as [|r l IH]; [done|]. cbn.
    rewrite bool_decide_false by (apply Hother; by left). apply IH.
    - intros e He Hin. apply (Hfresh e He). by right.
    - intros x Hx. apply Hother. by right. }
  assert (List.filter (λ r, bool_decide (erow_state_id r = sid)) (evidence_from_domain <$> es) =
    evidence_from_domain <$> es) as ->.
  { apply filter_all. intros r (e & -> & He)%list_elem_of_fmap. apply bool_decide_eq_true. by apply Hes. }
  cbn [app]. by rewrite Horder, to_domain_evidence.
Qed.

Lemma forget_recorded e x : recorded e x → recorded (forget_sensitive e) x.
Proof.
  intros [c summ eid sid t e' Hc He|e' He]; [|by constructor].
  assert (forget_sensitive e' = e') as ->; [|by econstructor].
  revert He. unfold to_evidence. by intros (? & _ & (? & _ & [= <-])%outcome_bind_Ok)%outcome_bind_Ok.
Qed.

(** C30. A restart from the database follows the recorded history: when the
    evidence of an execution is stored with time stamps (and identifiers, at equal
    times) in the order it was recorded, the plan made from what the table lists
    takes the action the history calls for. *)
Theorem restart_follows_stored_history es h sid s sigs d :
  session_open d = true → NoDup (evidence_id <$> es) →
  (∀ e, e ∈ es → evidence_id e ∉ erow_id <$> evidence_rows d) →
  (∀ r, r ∈ evidence_rows d → erow_state_id r ≠ sid) → (∀ e, e ∈ es → evidence_state_id e = sid) →
  StronglySorted (λ a b, key_le (evidence_created_at a, evidence_id a)
                                (evidence_created_at b, evidence_id b) = true) es →
  Forall2 recorded es h → (0 ≤ pending_signal_count s)%Z →
  status s ∉ [STATUS_COMPLETED; STATUS_FAILED; STATUS_CANCELLED] →
  ∃ p, (record_then_resume es sid s sigs d).1 = Ok p ∧ plan_action p = resume_spec h ∧
    plan_signals p = sigs.
Proof.
  intros Ho Hnd Hfresh Hother Hes Hsorted Hh Hs Hst.
  rewrite (record_then_resume_eq es sid s sigs d es); try done.
  - destruct (resume_history s (forget_sensitive <$> es) h sigs) as (p & -> & Hsig & _ & Hp).
    { apply Forall2_fmap_l. eapply Forall2_impl; [done|]. intros e x. apply forget_recorded. }
    { done. }
    rewrite decide_False in Hp by done. exists p. by destruct Hp.
  - apply order_by_sorted_id. clear -Hsorted. induction Hsorted as [|e es _ IH He]; cbn; constructor.
    + done.
    + by apply Forall_fmap.
Qed.

Definition boundary_evidence (c : AgentActionBoundaryCheckpoint) (eid sid : string) (t : option Z)
    : AgentEvidence :=
  mk_evidence eid sid ACTION_BOUNDARY (candidate_payload (to_evidence_candidate c None))
    None None None None [] t.

(** Evidence without distinct time stamps is listed by identifier, so that a
    restart can repeat a completed action: when the checkpoint after an idempotent
    action has the time of the one before it (the default is no time at all) and an
    identifier that sorts below, the plan is to retry the action. *)
Theorem untimed_evidence_repeats_completed_action before eb ea sid s sigs d t :
  session_open d = true → evidence_rows d = [] → (0 ≤ pending_signal_count s)%Z →
  status s ∉ [STATUS_COMPLETED; STATUS_FAILED; STATUS_CANCELLED] →
  is_blank (checkpoint_action_id before) = false → checkpoint_kind before = TOOL_CALL →
  checkpoint_idempotency before = IDEMPOTENT → checkpoint_stage before = BEFORE →
  eb ≠ ea → collate ea eb = true →
  let after := mk_checkpoint (checkpoint_action_id before) TOOL_CALL AFTER IDEMPOTENT
                 (checkpoint_metadata before) in
  resume_spec [Some (before, eb); Some (after, ea)] = SKIP_COMPLETED ∧
  ∃ p, (record_then_resume [boundary_evidence before eb sid t; boundary_evidence after ea sid t]
          sid s sigs d).1 = Ok p ∧ plan_action p = RETRY.
Proof.
  intros Ho Hd Hs Hst Hb Hk Hi Hbef Hne Hcol after. split; [done|].
  rewrite (record_then_resume_eq _ sid s sigs d
    [boundary_evidence after ea sid t; boundary_evidence before eb sid t]); try done.
  - unfold plan_agent_resume. rewrite decide_False by done.
    unfold _last_action_boundary. rewrite fmap_cons, fmap_cons, reverse_cons, reverse_cons. cbn [reverse].
    cbn. rewrite (boundary_payload_roundtrip before None) by done. rewrite decide_True by done. cbn.
    rewrite Hbef, Hk, Hi. cbn.
    rewrite make_state_Ok by done. by eexists.
  - cbn. repeat constructor; [|apply not_elem_of_nil]. by intros ?%list_elem_of_singleton.
  - intros e _. rewrite Hd. apply not_elem_of_nil.
  - intros r Hr. rewrite Hd in Hr. by apply not_elem_of_nil in Hr.
  - intros e [->|[->|[]%elem_of_nil]%elem_of_cons]%elem_of_cons; done.
  - unfold order_by. cbn [fmap list_fmap sort_by insert_by].
    change (evidence_key (evidence_from_domain (boundary_evidence before eb sid t))) with (t, eb).
    change (evidence_key (evidence_from_domain (boundary_evidence after ea sid t))) with (t, ea).
    destruct (key_le (t, eb) (t, ea)) eqn:Hle; [|done].
    apply key_le_spec in Hle as [Hlt|[_ Hle]]; cbn in *.
    + pose proof (time_lt_asym t t Hlt). congruence.
    + destruct Hne. by apply collate_antisym.
Qed.
End restart.

(** ** The theorems on a concrete database *)

#[export] Instance ex_order : SqlOrder := {
  nulls_first := true;
  collate := str_leb;
  collate_total := str_leb_total;
  collate_trans := str_leb_trans;
  collate_antisym := str_leb_antisym;
}.

Definition ex_db : agent_db := mk_agent_db true 100 [] [] [].
Definition ex_message (i : string) (k : AgentSignalKind) (t : Z) : AgentSignal :=
  mk_signal i "st-1" k [] (Some t).
Definition ex_queue : agent_db :=
  mk_agent_db true 100 []
    (signal_from_domain <$> [ex_message "b" USER_MESSAGE 1; ex_message "a" RESUME 2;
                             ex_message "c" USER_MESSAGE 3]) [].

Lemma ex_queue_inv : sql_queue_inv ex_queue.
Proof.
  split_and!; [reflexivity|decide_compute|].
  intros r (s & -> & _)%list_elem_of_fmap. exists s. apply signal_row_roundtrip.
Qed.

(** The resume signal is not accepted, so that the message after it waits too. *)
Lemma poll_consumes_accepted_prefix_witness :
  (consume_pending_agent_signals StoredDefinition SqlAlchemyAgentSignalRepository "st-1"
     SAFE_BOUNDARY (Some [USER_MESSAGE]) (Some 5%Z) ex_queue).1 =
    Ok (mk_batch "st-1" SAFE_BOUNDARY [ex_message "b" USER_MESSAGE 1]) ∧
  ∃ batch rest w',
    consume_pending_agent_signals StoredDefinition SqlAlchemyAgentSignalRepository "st-1"
      SAFE_BOUNDARY (Some [USER_MESSAGE]) (Some 5%Z) ex_queue = (Ok batch, w') ∧
    sql_pending ex_queue "st-1" = signals batch ++ rest ∧ sql_pending w' "st-1" = rest.
Proof.
  split; [vm_compute; reflexivity|].
  destruct (@poll_consumes_accepted_prefix _ _ StoredDefinition _ _ _ _ sql_signal_queue "st-1"
    SAFE_BOUNDARY (Some [USER_MESSAGE]) (Some 5%Z) ex_queue) as (b & rest & w' & Hrun & _ & Hp & Hp' & _).
  - reflexivity.
  - by intros k [= <-].
  - apply ex_queue_inv.
  - exists b, rest, w'. split; [exact Hrun|]. split; [exact Hp|exact Hp'].
Defined.

Lemma saved_state_is_read_back_witness :
  ∃ d', state_save ex_agent ex_db = (Ok ex_agent, d') ∧ state_get "st-1" d' = (Ok ex_agent, d').
Proof.
  destruct (saved_state_is_read_back ex_agent ex_db) as (d' & Hs & Hg & _); [reflexivity|cbn; lia|].
  exists d'. split; [exact Hs|exact Hg].
Defined.

Definition ex_done : AgentActionBoundaryCheckpoint := mk_checkpoint "charge" TOOL_CALL AFTER NON_IDEMPOTENT [].

Lemma restart_follows_stored_history_witness :
  ∃ p, (record_then_resume
          [boundary_evidence ex_before "z" "st-1" (Some 1%Z);
           boundary_evidence ex_done "a" "st-1" (Some 2%Z)] "st-1" ex_agent [] ex_db).1 = Ok p ∧
    plan_action p = SKIP_COMPLETED ∧ plan_signals p = [].
Proof.
  apply (restart_follows_stored_history _ [Some (ex_before, "z"); Some (ex_done, "a")]).
  - reflexivity.
  - decide_compute.
  - intros e _. apply not_elem_of_nil.
  - intros r []%elem_of_nil.
  - intros e [->|[->|[]%elem_of_nil]%elem_of_cons]%elem_of_cons; reflexivity.
  - repeat constructor.
  - repeat constructor.
    + by apply (recorded_checkpoint ex_before None "z" "st-1" (Some 1%Z)).
    + by apply (recorded_checkpoint ex_done None "a" "st-1" (Some 2%Z)).
  - cbn. lia.
  - decide_compute.
Defined.

Lemma untimed_evidence_repeats_completed_action_witness :
  ∃ p, (record_then_resume
          [boundary_evidence (mk_checkpoint "charge" TOOL_CALL BEFORE IDEMPOTENT []) "b" "st-1" None;
           boundary_evidence (mk_checkpoint "charge" TOOL_CALL AFTER IDEMPOTENT []) "a" "st-1" None]
          "st-1" ex_agent [] ex_db).1 = Ok p ∧ plan_action p = RETRY.
Proof.
  apply (untimed_evidence_repeats_completed_action
    (mk_checkpoint "charge" TOOL_CALL BEFORE IDEMPOTENT []) "b" "a" "st-1" ex_agent [] ex_db None);
    try reflexivity; [decide_compute|discriminate].
Defined.
