(* ===== verification/AgentTooling.v ===== *)
(** * Tools of an agent: schemas, discovery and binding

    [core/spakky-agent/tooling.py]. The type annotations of a tool become a JSON
    schema; a call the model makes is bound to the signature of the tool. What a
    JSON schema accepts is the relation [validates], and what it means for a JSON
    value to be of an annotated type is the relation [has_type]: the schema
    extraction is verified against the two, and the binding on top of it. *)

From S2P Require Import Prelude Json AgentSafety Agent.

(** ** Errors *)

Inductive tool_error :=
  | Definition_error (e : agent_error)
  | AgentToolBindingError (message : string)
  | RecursionError.

Definition definition_error (m : string) : tool_error := Definition_error (AgentDefinitionError m).

(** ** Annotations: the type hints [get_type_hints] resolves *)

Inductive primitive := P_str | P_int | P_float | P_bool | P_none.

Inductive annotation :=
  | A_any
  | A_primitive (p : primitive)
  | A_union (args : list annotation)
  | A_list (item : annotation)
  | A_tuple_of (item : annotation)
  | A_tuple (items : list annotation)
  | A_mapping (key value : annotation)
  | A_enum (values : list (option json))
  | A_dataclass (name : string)
  | A_annotated (arg : annotation) (markers : list sensitive_marker)
  | A_other.

(** A dataclass: its fields in order, [None] when its hints cannot be resolved.
    The value of an enumeration member is [None] when it is not a primitive. *)
Record dataclass_field := mk_field {
  field_name : string;
  field_annotation : annotation;
  field_has_default : bool;
}.
Definition dataclasses : Type := string → option (list dataclass_field).

(** ** Schema extraction *)

Record _SchemaExtraction := mk_extraction {
  schema : dict;
  extracted_fields : list SensitiveFieldDescriptor;
}.

Definition _primitive_schema (p : primitive) : string :=
  match p with
  | P_str => "string" | P_int => "integer" | P_float => "number" | P_bool => "boolean"
  | P_none => "null"
  end.

Definition _unwrap_annotated (a : annotation) (path : list string)
    : annotation * list SensitiveFieldDescriptor :=
  match a with
  | A_annotated b ms => (b, mk_descriptor path <$> ms)
  | _ => (a, [])
  end.

Definition _json_value_type (v : json) : option string :=
  match v with
  | JBool _ => Some "boolean"
  | JStr _ => Some "string"
  | JInt _ => Some "integer"
  | JFloat _ => Some "number"
  | JNull => Some "null"
  | _ => None
  end.

(** The loop over the members: their values and the set of their types *)
Fixpoint enum_values (l : list (option json)) : outcome tool_error (list json * list string) :=
  match l with
  | [] => Ok ([], [])
  | ov :: l' =>
      match ov ≫= λ v, pair v <$> _json_value_type v with
      | None => Raise (definition_error "Agent tool enum values must be JSON primitives")
      | Some (v, t) =>
          '(vs, ts) ← enum_values l';
          Ok (v :: vs, if decide (t ∈ ts) then ts else t :: ts)
      end
  end.

Definition _enum_schema (l : list (option json)) : outcome tool_error dict :=
  '(vs, ts) ← enum_values l;
  Ok (match ts with
      | [t] => [("enum", JList vs); ("type", JStr t)]
      | _ => [("enum", JList vs)]
      end).

Definition _merge_annotated_fields (e : _SchemaExtraction) (fs : list SensitiveFieldDescriptor)
    : _SchemaExtraction := mk_extraction (schema e) (fs ++ extracted_fields e).

Fixpoint map_outcome {E A B} (f : A → outcome E B) (l : list A) : outcome E (list B) :=
  match l with
  | [] => Ok []
  | x :: l' => y ← f x; ys ← map_outcome f l'; Ok (y :: ys)
  end.

Definition object_schema (properties : dict) (required : list string) : dict :=
  [("type", JStr "object"); ("properties", JObj properties); ("additionalProperties", JBool false)] ++
  match required with [] => [] | _ => [("required", JList (JStr <$> required))] end.

(** The loop that fills [properties] *)
Definition collect_properties (names : list string) (es : list _SchemaExtraction) : dict :=
  dict_merge [] (zip names (JObj ∘ schema <$> es)).

Section schemas.
Context (classes : dataclasses).

(** The recursion goes down into the arguments of an annotation and into the
    fields of a dataclass, which may refer to itself: the fuel is the depth of
    the recursion. [_union_schema], [_list_schema], [_tuple_schema],
    [_mapping_schema] and [_dataclass_schema] are the branches. *)
Fixpoint _schema_for_annotation (fuel : nat) (a : annotation) (label : string) (path : list string)
    {struct fuel} : outcome tool_error _SchemaExtraction :=
  match fuel with
  | O => Raise RecursionError
  | S fuel =>
      let '(b, marked) := _unwrap_annotated a path in
      match b with
      | A_any => Raise (definition_error (label +:+ " cannot use Any"))
      | A_primitive p => Ok (mk_extraction [("type", JStr (_primitive_schema p))] marked)
      | A_union args =>
          alts ← map_outcome (λ x, _schema_for_annotation fuel x label path) args;
          Ok (_merge_annotated_fields
                (mk_extraction [("anyOf", JList (JObj ∘ schema <$> alts))] (alts ≫= extracted_fields))
                marked)
      | A_list item | A_tuple_of item =>
          e ← _schema_for_annotation fuel item label path;
          Ok (_merge_annotated_fields
                (mk_extraction [("type", JStr "array"); ("items", JObj (schema e))]
                   (extracted_fields e)) marked)
      | A_tuple items =>
          es ← map_outcome (λ x, _schema_for_annotation fuel x label path) items;
          Ok (_merge_annotated_fields
                (mk_extraction
                   [("type", JStr "array"); ("prefixItems", JList (JObj ∘ schema <$> es));
                    ("minItems", JInt (Z.of_nat (length es)));
                    ("maxItems", JInt (Z.of_nat (length es)))]
                   (es ≫= extracted_fields)) marked)
      | A_mapping key v =>
          match key with
          | A_primitive P_str =>
              e ← _schema_for_annotation fuel v label path;
              Ok (_merge_annotated_fields
                    (mk_extraction [("type", JStr "object"); ("additionalProperties", JObj (schema e))]
                       (extracted_fields e)) marked)
          | _ => Raise (definition_error (label +:+ " mapping keys must be strings"))
          end
      | A_enum vs =>
          s ← _enum_schema vs;
          Ok (mk_extraction s marked)
      | A_dataclass name =>
          match classes name with
          | None =>
              Raise (definition_error (label +:+ " dataclass annotations cannot be resolved"))
          | Some fs =>
              es ← map_outcome (λ f,
                     _schema_for_annotation fuel (field_annotation f)
                       (label +:+ "." +:+ field_name f) (path ++ [field_name f])) fs;
              Ok (_merge_annotated_fields
                    (mk_extraction
                       (object_schema
                          (collect_properties (field_name <$> fs) es)
                          (field_name <$> List.filter (λ f, negb (field_has_default f)) fs))
                       (es ≫= extracted_fields)) marked)
          end
      | A_annotated _ _ | A_other =>
          Raise (definition_error (label +:+ " is not JSON-schema compatible"))
      end
  end.
End schemas.

(** ** Functions and their signatures *)

Inductive tool_param_kind := P_POSITIONAL_ONLY | POSITIONAL_OR_KEYWORD | KEYWORD_ONLY | VARIADIC.
Global Instance tool_param_kind_eq_dec : EqDecision tool_param_kind.
Proof. solve_decision. Defined.

(** A parameter: its hint ([None] when it is not annotated) and its default *)
Record tool_parameter := mk_parameter {
  parameter_name : string;
  parameter_kind : tool_param_kind;
  parameter_hint : option annotation;
  parameter_default : option json;
}.

Record tool_function := mk_function {
  function_name : string;
  parameters : list tool_parameter;
  return_hint : option annotation;
  hints_resolve : bool;
}.

Definition _resolve_type_hints (f : tool_function) : outcome tool_error unit :=
  check (negb (hints_resolve f)) (definition_error "Agent tool type annotations cannot be resolved").

Definition is_owner (p : tool_parameter) : bool :=
  bool_decide (parameter_name p ∈ ["self"; "cls"]).

Definition _validate_schema_parameter (p : tool_parameter) : outcome tool_error unit :=
  check (bool_decide (parameter_kind p = P_POSITIONAL_ONLY))
    (definition_error "Agent tool parameters cannot be positional-only");;
  check (bool_decide (parameter_kind p = VARIADIC))
    (definition_error "Agent tool parameters cannot use variable arguments")%stdpp.

Section input_schema.
Context (classes : dataclasses) (fuel : nat).

Definition parameter_schema (p : tool_parameter) : outcome tool_error _SchemaExtraction :=
  _validate_schema_parameter p;;
  match parameter_hint p with
  | None => Raise (definition_error "Agent tool parameters must be type annotated")
  | Some a =>
      _schema_for_annotation classes fuel a
        ("Agent tool parameter '" +:+ parameter_name p +:+ "'") [parameter_name p]
  end%stdpp.

Definition _build_input_schema (f : tool_function) (name : string)
    : outcome tool_error _SchemaExtraction :=
  _resolve_type_hints f;;
  (let ps := List.filter (negb ∘ is_owner) (parameters f) in
   es ← map_outcome parameter_schema ps;
   let properties := collect_properties (parameter_name <$> ps) es in
   let required := parameter_name <$> List.filter (λ p, bool_decide (parameter_default p = None)) ps in
   Ok (mk_extraction
         ([("type", JStr "object"); ("title", JStr (name +:+ ".input"));
           ("properties", JObj properties); ("additionalProperties", JBool false)] ++
          match required with [] => [] | _ => [("required", JList (JStr <$> required))] end)
         (es ≫= extracted_fields)))%stdpp.

Definition _build_output_schema (f : tool_function) (name : string)
    : outcome tool_error _SchemaExtraction :=
  _resolve_type_hints f;;
  match return_hint f with
  | None => Raise (definition_error "Agent tool return type is required")
  | Some a =>
      e ← _schema_for_annotation classes fuel a "Agent tool return type" [];
      Ok (mk_extraction (dict_merge [("title", JStr (name +:+ ".output"))] (schema e))
            (extracted_fields e))
  end%stdpp.
End input_schema.

(** ** Binding a call of the model *)

Record _StructuredInvocationPayload := mk_payload {
  payload_args : list json;
  payload_kwargs : dict;
}.

Definition _copy_string_key_mapping (v : json) (label : string) : outcome tool_error dict :=
  match v with
  | JObj o => Ok o
  | _ => Raise (AgentToolBindingError (label +:+ " must be an object"))
  end.

Definition _payload_args (v : json) : outcome tool_error (list json) :=
  match v with
  | JList l => Ok l
  | _ => Raise (AgentToolBindingError "Agent tool invocation args must be an array")
  end.
Definition _payload_kwargs (v : json) : outcome tool_error dict :=
  _copy_string_key_mapping v "Agent tool invocation kwargs".

Definition _parse_args_kwargs_payload (p : dict) : outcome tool_error _StructuredInvocationPayload :=
  check (existsb (λ k, negb (bool_decide (k ∈ ["args"; "kwargs"]))) p.*1)
    (AgentToolBindingError "Agent tool structured invocation payload cannot mix direct arguments");;
  (a ← _payload_args (default (JList []) (dict_get "args" p));
   k ← _payload_kwargs (default (JObj []) (dict_get "kwargs" p));
   Ok (mk_payload a k))%stdpp.

Definition _parse_invocation_payload (p : json) : outcome tool_error _StructuredInvocationPayload :=
  d ← _copy_string_key_mapping p "Agent tool invocation payload";
  if dict_has "args" d || dict_has "kwargs" d then _parse_args_kwargs_payload d
  else Ok (mk_payload [] d).

Definition _drop_owner_parameter (ps : list tool_parameter) : list tool_parameter :=
  match ps with
  | p :: ps' => if is_owner p then ps' else ps
  | [] => []
  end.

(** [Signature.bind] on the two kinds of parameters a descriptor admits: each
    positional argument goes to the next parameter that is not keyword-only;
    the others come from the keywords. [None] is its [TypeError]. *)
Fixpoint bind_parameters (ps : list tool_parameter) (args : list json) (kwargs : dict)
    : option (list (string * json) * dict) :=
  match ps with
  | [] => match args with [] => Some ([], kwargs) | _ => None end
  | p :: ps' =>
      let n := parameter_name p in
      match args, parameter_kind p with
      | x :: args', POSITIONAL_OR_KEYWORD =>
          if dict_has n kwargs then None
          else '(bs, rest) ← bind_parameters ps' args' kwargs; Some ((n, x) :: bs, rest)
      | _ :: _, _ => None
      | [], _ =>
          match dict_get n kwargs with
          | Some x =>
              '(bs, rest) ← bind_parameters ps' [] (dict_del n kwargs); Some ((n, x) :: bs, rest)
          | None =>
              match parameter_default p with
              | Some _ => bind_parameters ps' [] kwargs
              | None => None
              end
          end
      end
  end.

Record AgentToolBoundInvocation := mk_invocation {
  bound_args : list json;
  bound_kwargs : dict;
}.

(** [apply_defaults], then [args] up to the first keyword-only parameter and
    [kwargs] from it *)
Definition with_default (bs : list (string * json)) (p : tool_parameter) : string * json :=
  (parameter_name p, default JNull (dict_get (parameter_name p) bs ∪ parameter_default p)).
Fixpoint invocation_of (bs : list (string * json)) (ps : list tool_parameter) : AgentToolBoundInvocation :=
  match ps with
  | [] => mk_invocation [] []
  | p :: ps' =>
      match parameter_kind p with
      | KEYWORD_ONLY => mk_invocation [] (with_default bs <$> ps)
      | _ =>
          let i := invocation_of bs ps' in
          mk_invocation ((with_default bs p).2 :: bound_args i) (bound_kwargs i)
      end
  end.

Definition bind_agent_tool_invocation (f : tool_function) (p : json)
    : outcome tool_error AgentToolBoundInvocation :=
  i ← _parse_invocation_payload p;
  let ps := _drop_owner_parameter (parameters f) in
  match bind_parameters ps (payload_args i) (payload_kwargs i) with
  | Some (bs, []) => Ok (invocation_of bs ps)
  | _ => Raise (AgentToolBindingError "Agent tool invocation payload cannot be bound")
  end.

(** ** Discovery *)

Record AgentToolDefinition := mk_definition {
  definition_name : string;
  definition_schema_name : string;
  definition_description : option string;
  definition_metadata : AgentToolMetadata;
}.

Definition require_tool_text (s label : string) : outcome tool_error unit :=
  map_error Definition_error (_require_non_blank s label).

Definition _normalize_name (v : option string) (d label : string) : outcome tool_error string :=
  let candidate := default d v in
  require_tool_text candidate label;; Ok candidate%stdpp.

(** The decorator: it attaches the definition to the function. *)
Definition decorate (f : tool_function) (name schema_name description : option string)
    (m : AgentToolMetadata) : outcome tool_error AgentToolDefinition :=
  n ← _normalize_name name (function_name f) "Agent tool name";
  s ← _normalize_name schema_name n "Agent tool schema name";
  check (match description with Some d => is_blank d | None => false end)
    (definition_error "Agent tool description cannot be blank");;
  Ok (mk_definition n s description m).

(** A member of a class: a function (a static or class method is unwrapped), with
    what is stored under the key of the decorator, or something else *)
Inductive stored_metadata := No_metadata | Tool_metadata (d : AgentToolDefinition) | Foreign_metadata.
Inductive class_member := Function_member (f : tool_function) (m : stored_metadata) | Other_member.

Record owner_class := mk_owner {
  class_module : string;
  class_qualname : string;
  class_members : list (string * class_member);
}.

Record AgentToolSchemaHandle := mk_handle {
  handle_name : string;
  input_schema_name : string;
  output_schema_name : string;
  input_schema : dict;
  output_schema : dict;
  input_sensitive_fields : list SensitiveFieldDescriptor;
  output_sensitive_fields : list SensitiveFieldDescriptor;
}.

Record ToolDescriptor := mk_descriptor_of {
  descriptor_identity : AgentToolDescriptor;
  descriptor_schema : AgentToolSchemaHandle;
  descriptor_function : tool_function;
  descriptor_description : option string;
}.
Definition descriptor_key (d : ToolDescriptor) : string := identity_key (descriptor_identity d).

Definition get_agent_tool_definition (m : stored_metadata)
    : outcome tool_error (option AgentToolDefinition) :=
  match m with
  | No_metadata => Ok None
  | Tool_metadata d => Ok (Some d)
  | Foreign_metadata => Raise (definition_error "Agent tool metadata is invalid")
  end.

Section discovery.
Context (classes : dataclasses) (fuel : nat).

Definition _build_descriptor (o : owner_class) (f : tool_function) (d : AgentToolDefinition)
    : outcome tool_error ToolDescriptor :=
  require_tool_text (class_module o) "Agent tool owner module";;
  require_tool_text (class_qualname o) "Agent tool owner qualname";;
  require_tool_text (definition_name d) "Agent tool name";;
  (i ← _build_input_schema classes fuel f (definition_schema_name d);
   r ← _build_output_schema classes fuel f (definition_schema_name d);
   require_tool_text (definition_schema_name d) "Agent tool schema name";;
   Ok (mk_descriptor_of
         (mk_tool_descriptor (class_module o) (class_qualname o) (definition_name d)
            (definition_schema_name d) (definition_metadata d))
         (mk_handle (definition_schema_name d) (definition_schema_name d +:+ ".input")
            (definition_schema_name d +:+ ".output") (schema i) (schema r)
            (extracted_fields i) (extracted_fields r))
         f (definition_description d)))%stdpp.

(** The members of one class; [seen] are the names resolved so far. *)
Fixpoint discover_members (o : owner_class) (ms : list (string * class_member)) (seen : list string)
    : outcome tool_error (list ToolDescriptor * list string) :=
  match ms with
  | [] => Ok ([], seen)
  | (n, m) :: ms' =>
      if decide (n ∈ seen) then discover_members o ms' seen
      else
        match m with
        | Other_member => discover_members o ms' (n :: seen)
        | Function_member f stored =>
            od ← get_agent_tool_definition stored;
            match od with
            | None => discover_members o ms' (n :: seen)
            | Some d =>
                x ← _build_descriptor o f d;
                '(xs, seen') ← discover_members o ms' (n :: seen);
                Ok (x :: xs, seen')
            end
        end
  end.

(** The classes of the MRO but [object] *)
Fixpoint discover_classes (mro : list owner_class) (seen : list string)
    : outcome tool_error (list ToolDescriptor) :=
  match mro with
  | [] => Ok []
  | o :: mro' =>
      '(xs, seen') ← discover_members o (class_members o) seen;
      ys ← discover_classes mro' seen';
      Ok (xs ++ ys)
  end.

(** [AgentToolCatalog.__post_init__] *)
Fixpoint check_catalog (l : list ToolDescriptor) (keys names : list string) : outcome tool_error unit :=
  match l with
  | [] => Ok tt
  | d :: l' =>
      check (bool_decide (descriptor_key d ∈ keys))
        (definition_error "Agent tool identity must be unique");;
      check (bool_decide (handle_name (descriptor_schema d) ∈ names))
        (definition_error "Agent tool schema name must be unique");;
      check_catalog l' (descriptor_key d :: keys) (handle_name (descriptor_schema d) :: names)
  end%stdpp.

Definition discover_agent_tools (mro : list owner_class) : outcome tool_error (list ToolDescriptor) :=
  ds ← discover_classes mro [];
  let ordered := sort_by (λ a b, str_leb (descriptor_key a) (descriptor_key b)) ds in
  check_catalog ordered [] [];; Ok ordered.
End discovery.

Definition by_schema_name (l : list ToolDescriptor) (n : string) : outcome tool_error ToolDescriptor :=
  require_tool_text n "Agent tool schema name";;
  match head (List.filter (λ d, bool_decide (handle_name (descriptor_schema d) = n)) l) with
  | Some d => Ok d
  | None => Raise (definition_error "Agent tool schema name is not registered")
  end%stdpp.

Definition by_identity (l : list ToolDescriptor) (owner_module owner_qualname name : string)
    : outcome tool_error ToolDescriptor :=
  match head (List.filter (λ d,
          bool_decide (Agent.owner_module (descriptor_identity d) = owner_module ∧
                       Agent.owner_qualname (descriptor_identity d) = owner_qualname ∧
                       tool_name (descriptor_identity d) = name)) l) with
  | Some d => Ok d
  | None => Raise (definition_error "Agent tool identity is not registered")
  end.

(** ** What a schema accepts

    The keywords of JSON Schema that the extraction uses, on values of its data
    model: a number with an integral value is a [JInt], also one written [1.0]
    ([json_model] of [VllmSchema.v] takes parsed values there). *)

Definition type_matches (t : string) (v : json) : Prop :=
  match v with
  | JNull => t = "null"
  | JBool _ => t = "boolean"
  | JInt _ => t = "integer" ∨ t = "number"
  | JFloat _ => t = "number"
  | JStr _ => t = "string"
  | JList _ => t = "array"
  | JObj _ => t = "object"
  end.

Definition keyword_object (k : string) (s : dict) : dict :=
  match dict_get k s with Some (JObj o) => o | _ => [] end.

Inductive validates : json → json → Prop :=
  | validates_object v s :
      (∀ t, dict_get "type" s = Some (JStr t) → type_matches t v) →
      (∀ vs, dict_get "enum" s = Some (JList vs) → v ∈ vs) →
      (∀ alts, dict_get "anyOf" s = Some (JList alts) → ∃ alt, alt ∈ alts ∧ validates v alt) →
      (∀ i xs x, dict_get "items" s = Some i → v = JList xs → x ∈ xs → validates x i) →
      (∀ its xs k x i, dict_get "prefixItems" s = Some (JList its) → v = JList xs →
         xs !! k = Some x → its !! k = Some i → validates x i) →
      (∀ n xs, dict_get "minItems" s = Some (JInt n) → v = JList xs → (n ≤ Z.of_nat (length xs))%Z) →
      (∀ n xs, dict_get "maxItems" s = Some (JInt n) → v = JList xs → (Z.of_nat (length xs) ≤ n)%Z) →
      (∀ o k x p, v = JObj o → dict_get k o = Some x →
         dict_get k (keyword_object "properties" s) = Some p → validates x p) →
      (∀ o k x, v = JObj o → dict_get k o = Some x →
         dict_get k (keyword_object "properties" s) = None →
         dict_get "additionalProperties" s ≠ Some (JBool false)) →
      (∀ o k x ap, v = JObj o → dict_get k o = Some x →
         dict_get k (keyword_object "properties" s) = None →
         dict_get "additionalProperties" s = Some (JObj ap) → validates x (JObj ap)) →
      (∀ o ks k, v = JObj o → dict_get "required" s = Some (JList ks) → JStr k ∈ ks →
         dict_get k o ≠ None) →
      validates v (JObj s).

Section typing.
Context (classes : dataclasses).

(** The JSON values of an annotated type *)
Inductive has_type : json → annotation → Prop :=
  | T_str s : has_type (JStr s) (A_primitive P_str)
  | T_int z : has_type (JInt z) (A_primitive P_int)
  | T_float_int z : has_type (JInt z) (A_primitive P_float)
  | T_float l : has_type (JFloat l) (A_primitive P_float)
  | T_bool b : has_type (JBool b) (A_primitive P_bool)
  | T_none : has_type JNull (A_primitive P_none)
  | T_union v a args : a ∈ args → has_type v a → has_type v (A_union args)
  | T_list xs a : (∀ x, x ∈ xs → has_type x a) → has_type (JList xs) (A_list a)
  | T_tuple_of xs a : (∀ x, x ∈ xs → has_type x a) → has_type (JList xs) (A_tuple_of a)
  | T_tuple xs items :
      length xs = length items →
      (∀ k x a, xs !! k = Some x → items !! k = Some a → has_type x a) →
      has_type (JList xs) (A_tuple items)
  | T_mapping o a :
      (∀ k x, dict_get k o = Some x → has_type x a) →
      has_type (JObj o) (A_mapping (A_primitive P_str) a)
  | T_enum v vs : Some v ∈ vs → has_type v (A_enum vs)
  | T_dataclass o n fs :
      classes n = Some fs →
      (∀ k x, dict_get k o = Some x → k ∈ field_name <$> fs) →
      (∀ f x, f ∈ fs → dict_get (field_name f) o = Some x → has_type x (field_annotation f)) →
      (∀ f, f ∈ fs → dict_get (field_name f) o = None → field_has_default f = true) →
      has_type (JObj o) (A_dataclass n)
  | T_annotated v a ms : has_type v a → has_type v (A_annotated a ms).

(** The fields of a class have distinct names. *)
Definition classes_ok : Prop := ∀ n fs, classes n = Some fs → NoDup (field_name <$> fs).
End typing.

(** *** The schemas of the extraction, by shape *)

(** Looks literal keys up in literal schemas, everywhere. *)
Ltac keyword_cases :=
  unfold keyword_object; cbn; repeat case_decide; try congruence; intros; try discriminate.

Lemma validates_inv v s :
  validates v (JObj s) →
  (∀ t, dict_get "type" s = Some (JStr t) → type_matches t v) ∧
  (∀ vs, dict_get "enum" s = Some (JList vs) → v ∈ vs) ∧
  (∀ alts, dict_get "anyOf" s = Some (JList alts) → ∃ alt, alt ∈ alts ∧ validates v alt) ∧
  (∀ i xs x, dict_get "items" s = Some i → v = JList xs → x ∈ xs → validates x i) ∧
  (∀ its xs k x i, dict_get "prefixItems" s = Some (JList its) → v = JList xs →
         xs !! k = Some x → its !! k = Some i → validates x i) ∧
  (∀ n xs, dict_get "minItems" s = Some (JInt n) → v = JList xs → (n ≤ Z.of_nat (length xs))%Z) ∧
  (∀ n xs, dict_get "maxItems" s = Some (JInt n) → v = JList xs → (Z.of_nat (length xs) ≤ n)%Z) ∧
  (∀ o k x p, v = JObj o → dict_get k o = Some x →
         dict_get k (keyword_object "properties" s) = Some p → validates x p) ∧
  (∀ o k x, v = JObj o → dict_get k o = Some x →
         dict_get k (keyword_object "properties" s) = None →
         dict_get "additionalProperties" s ≠ Some (JBool false)) ∧
  (∀ o k x ap, v = JObj o → dict_get k o = Some x →
         dict_get k (keyword_object "properties" s) = None →
         dict_get "additionalProperties" s = Some (JObj ap) → validates x (JObj ap)) ∧
  (∀ o ks k, v = JObj o → dict_get "required" s = Some (JList ks) → JStr k ∈ ks →
         dict_get k o ≠ None).
Proof. inversion 1; subst. by split_and!. Qed.

Lemma validates_type v t : validates v (JObj [("type", JStr t)]) ↔ type_matches t v.
Proof.
  split; [intros H%validates_inv; by apply H|]. intros Hv.
  constructor; unfold keyword_object; cbn; intros; simplify_eq/=; try done.
Qed.

Lemma validates_anyOf v alts :
  validates v (JObj [("anyOf", JList alts)]) ↔ ∃ alt, alt ∈ alts ∧ validates v alt.
Proof.
  split; [intros H%validates_inv; by apply H|]. intros Hv.
  constructor; unfold keyword_object; cbn; intros; simplify_eq/=; done.
Qed.

Lemma validates_items v i :
  validates v (JObj [("type", JStr "array"); ("items", i)]) ↔
  ∃ xs, v = JList xs ∧ ∀ x, x ∈ xs → validates x i.
Proof.
  split.
  - intros (Ht & _ & _ & Hi & _)%validates_inv. specialize (Ht "array" eq_refl).
    destruct v as [| | | | |xs|]; cbn in Ht; try (by destruct Ht); try done.
    exists xs. split; [done|]. intros x. by apply (Hi i xs x).
  - intros (xs & -> & Hi).
    constructor; keyword_cases; simplify_eq; try done. by apply Hi.
Qed.

Lemma validates_tuple v its :
  validates v (JObj [("type", JStr "array"); ("prefixItems", JList its);
                     ("minItems", JInt (Z.of_nat (length its))); ("maxItems", JInt (Z.of_nat (length its)))]) ↔
  ∃ xs, v = JList xs ∧ length xs = length its ∧
    ∀ k x i, xs !! k = Some x → its !! k = Some i → validates x i.
Proof.
  split.
  - intros (Ht & _ & _ & _ & Hi & Hmin & Hmax & _)%validates_inv. specialize (Ht "array" eq_refl).
    destruct v as [| | | | |xs|]; cbn in Ht; try (by destruct Ht); try done.
    exists xs. split; [done|]. specialize (Hmin _ xs eq_refl eq_refl).
    specialize (Hmax _ xs eq_refl eq_refl). split; [lia|]. intros k x i. by apply (Hi its xs k x i).
  - intros (xs & -> & Hlen & Hi).
    constructor; keyword_cases; simplify_eq; try done; try lia.
    eapply Hi; eassumption.
Qed.

Lemma validates_mapping v ap :
  validates v (JObj [("type", JStr "object"); ("additionalProperties", JObj ap)]) ↔
  ∃ o, v = JObj o ∧ ∀ k x, dict_get k o = Some x → validates x (JObj ap).
Proof.
  split.
  - intros (Ht & _ & _ & _ & _ & _ & _ & _ & _ & Hap & _)%validates_inv. specialize (Ht "object" eq_refl).
    destruct v as [| | | | | |o]; cbn in Ht; try (by destruct Ht); try done.
    exists o. split; [done|]. intros k x Hx. by apply (Hap o k x ap).
  - intros (o & -> & Hi). constructor; unfold keyword_object; cbn; intros; try discriminate.
    + keyword_cases.
    + match goal with H : ?e = Some (JObj ?a) |- _ => change (Some (JObj ap) = Some (JObj a)) in H end.
      simplify_eq. by apply (Hi k x).
Qed.

(** An object schema, told by its keywords *)
Lemma validates_closed_object v s props required :
  dict_get "type" s = Some (JStr "object") → dict_get "enum" s = None → dict_get "anyOf" s = None →
  dict_get "properties" s = Some (JObj props) →
  dict_get "additionalProperties" s = Some (JBool false) →
  dict_get "required" s = (match required with [] => None | _ => Some (JList (JStr <$> required)) end) →
  validates v (JObj s) ↔
  ∃ o, v = JObj o ∧ (∀ k, k ∈ required → dict_get k o ≠ None) ∧
    ∀ k x, dict_get k o = Some x → ∃ p, dict_get k props = Some p ∧ validates x p.
Proof.
  intros Hty Hen Han Hpr Had Hrq.
  assert (keyword_object "properties" s = props) as Hkw by (unfold keyword_object; by rewrite Hpr).
  split.
  - intros (Ht & _ & _ & _ & _ & _ & _ & Hp & Hap & _ & Hr)%validates_inv. specialize (Ht "object" Hty).
    destruct v as [| | | | | |o]; cbn in Ht; try (by destruct Ht); try done.
    exists o. split_and!; [done| |].
    + intros k Hk. destruct required as [|k0 ks]; [by apply not_elem_of_nil in Hk|].
      apply (Hr o _ k eq_refl Hrq). apply list_elem_of_fmap. by exists k.
    + rewrite Hkw in *. intros k x Hx. destruct (dict_get k props) as [p|] eqn:Hk.
      * exists p. split; [done|]. by apply (Hp o k x p).
      * destruct (Hap o k x eq_refl Hx Hk Had).
  - intros (o & -> & Hreq & Hprops).
    constructor; rewrite ?Hkw, ?Hty, ?Hen, ?Han, ?Had; intros; simplify_eq/=; try done.
    + destruct (Hprops k x) as (p' & Hp' & ?); [done|]. by simplify_eq.
    + by destruct (Hprops k x) as (p' & Hp' & _); simplify_eq.
    + rewrite Hrq in *. destruct required as [|k0 ks0]; simplify_eq.
      apply Hreq.
      match goal with H : JStr _ ∈ _ |- _ => apply (list_elem_of_fmap_1 JStr (k0 :: ks0)) in H as (? & [= ->] & ?) end.
      done.
Qed.

Lemma map_outcome_Ok {E A B} (f : A → outcome E B) l ys :
  map_outcome f l = Ok ys ↔ Forall2 (λ x y, f x = Ok y) l ys.
Proof.
  revert ys. induction l as [|x l IH]; intros ys; cbn [map_outcome].
  - split; [intros [= <-]; constructor|by inversion 1].
  - rewrite outcome_bind_Ok. setoid_rewrite outcome_bind_Ok. setoid_rewrite IH. split.
    + intros (y & Hy & ys' & Hys & [= <-]). by constructor.
    + inversion 1 as [|? y ? ys' Hy Hys]; subst. by exists y; split; [done|exists ys'].
Qed.

Lemma collect_properties_get k p names es :
  NoDup names →
  dict_get k (collect_properties names es) = Some p ↔
  ∃ i e, names !! i = Some k ∧ es !! i = Some e ∧ p = JObj (schema e).
Proof.
  intros Hnd. unfold collect_properties. rewrite dict_get_merge.
  - transitivity (dict_get k (zip names (JObj ∘ schema <$> es)) = Some p).
    { by destruct (dict_get k (zip _ _)). }
    rewrite dict_get_zip by done. setoid_rewrite list_lookup_fmap_Some. split.
    + intros (i & Hi & e & -> & He). by exists i, e.
    + intros (i & e & Hi & He & ->). exists i. eauto.
  - eapply sublist_NoDup; [exact Hnd|]. clear. revert es.
    induction names as [|n names IH]; intros [|e es]; cbn; auto using sublist_nil_l, sublist_skip.
Qed.

(** *** Enumerations *)

Lemma enum_values_Ok l vs ts :
  enum_values l = Ok (vs, ts) →
  l = Some <$> vs ∧ (∀ v, v ∈ vs → ∃ t, _json_value_type v = Some t ∧ t ∈ ts).
Proof.
  revert vs ts. induction l as [|ov l IH]; intros vs ts; cbn [enum_values].
  { intros [= <- <-]. split; [done|]. by intros v ?%not_elem_of_nil. }
  destruct ov as [v|]; cbn [mbind option_bind]; [|done].
  destruct (_json_value_type v) as [t|] eqn:Ht; cbn [fmap option_fmap option_map]; [|done].
  intros ([vs' ts'] & Hl & [= <- <-])%outcome_bind_Ok. destruct (IH _ _ Hl) as [-> Hvs].
  split; [done|]. intros w [->|Hw]%elem_of_cons.
  - exists t. split; [done|]. case_decide; set_solver.
  - destruct (Hvs w Hw) as (t' & ? & ?). exists t'. split; [done|]. case_decide; set_solver.
Qed.

Lemma json_value_type_matches v t : _json_value_type v = Some t → type_matches t v.
Proof. destruct v; intros [= <-]; cbn; auto. Qed.

Lemma validates_enum v vs : validates v (JObj [("enum", JList vs)]) ↔ v ∈ vs.
Proof.
  split; [intros (_ & He & _)%validates_inv; by apply He|].
  intros Hv. constructor; keyword_cases; by simplify_eq.
Qed.
Lemma validates_typed_enum v vs t :
  validates v (JObj [("enum", JList vs); ("type", JStr t)]) ↔ v ∈ vs ∧ type_matches t v.
Proof.
  split; [intros (Ht & He & _)%validates_inv; split; [by apply He|by apply Ht]|].
  intros [Hv Ht]. constructor; keyword_cases; by simplify_eq.
Qed.

Lemma enum_schema_exact l s v :
  _enum_schema l = Ok s → validates v (JObj s) ↔ Some v ∈ l.
Proof.
  intros ([vs ts] & Hl & Hs)%outcome_bind_Ok. destruct (enum_values_Ok _ _ _ Hl) as [-> Hts].
  transitivity (v ∈ vs); [|rewrite list_elem_of_fmap; naive_solver].
  destruct ts as [|t [|t' ts]]; injection Hs as <-; [apply validates_enum| |apply validates_enum].
  rewrite validates_typed_enum. split; [by intros []|]. intros Hv. split; [done|].
  destruct (Hts v Hv) as (t' & Ht & ->%list_elem_of_singleton). by apply json_value_type_matches.
Qed.

(** *** The extraction is exact *)

Section exactness.
Context (classes : dataclasses).

Definition exact (a : annotation) (e : _SchemaExtraction) : Prop :=
  ∀ v, validates v (JObj (schema e)) ↔ has_type classes v a.

Lemma exact_primitive p v :
  validates v (JObj [("type", JStr (_primitive_schema p))]) ↔ has_type classes v (A_primitive p).
Proof.
  rewrite validates_type. destruct p, v; cbn; split;
    first [by inversion 1 | by intros [|] | intros; by constructor | auto].
Qed.

Lemma exact_union args alts v :
  Forall2 exact args alts →
  validates v (JObj [("anyOf", JList (JObj ∘ schema <$> alts))]) ↔ has_type classes v (A_union args).
Proof.
  intros Hex. rewrite validates_anyOf. split.
  - intros (alt & (e & -> & He)%list_elem_of_fmap & Hv).
    destruct (Forall2_elem_l (flip exact) _ _ e (proj2 (Forall2_flip _ _ _) Hex) He) as (a & Ha & Hx).
    apply (T_union classes v a); [done|]. by apply Hx.
  - inversion 1 as [| | | | | |v' a args' Ha Hv| | | | | | |]; subst.
    destruct (Forall2_elem_l _ _ _ a Hex Ha) as (e & He & Hx).
    exists (JObj (schema e)). split; [|by apply Hx]. apply list_elem_of_fmap. by exists e.
Qed.

Lemma exact_array a e v :
  exact a e →
  validates v (JObj [("type", JStr "array"); ("items", JObj (schema e))]) ↔
  ∃ xs, v = JList xs ∧ ∀ x, x ∈ xs → has_type classes x a.
Proof.
  intros He. rewrite validates_items. by setoid_rewrite (He _).
Qed.

Lemma exact_tuple items es v :
  Forall2 exact items es →
  validates v (JObj [("type", JStr "array"); ("prefixItems", JList (JObj ∘ schema <$> es));
                     ("minItems", JInt (Z.of_nat (length es))); ("maxItems", JInt (Z.of_nat (length es)))]) ↔
  has_type classes v (A_tuple items).
Proof.
  intros Hex. pose proof (validates_tuple v (JObj ∘ schema <$> es)) as Ht.
  rewrite length_fmap in Ht. rewrite Ht, <- (Forall2_length _ _ _ Hex). clear Ht. split.
  - intros (xs & -> & Hlen & Hv). apply T_tuple; [done|]. intros k x a Hx Ha.
    destruct (Forall2_lookup_l _ _ _ _ _ Hex Ha) as (e & He & Hae). apply Hae.
    apply (Hv k x); [done|]. by rewrite list_lookup_fmap, He.
  - inversion 1 as [| | | | | | | | |xs items' Hlen Hv| | | |]; subst. exists xs. split_and!; [done..|].
    intros k x i Hx (e & -> & He)%list_lookup_fmap_Some.
    destruct (Forall2_lookup_r _ _ _ _ _ Hex He) as (a & Ha & Hae). apply Hae. by eapply Hv.
Qed.

Lemma exact_mapping a e v :
  exact a e →
  validates v (JObj [("type", JStr "object"); ("additionalProperties", JObj (schema e))]) ↔
  has_type classes v (A_mapping (A_primitive P_str) a).
Proof.
  intros He. rewrite validates_mapping. setoid_rewrite (He _). split.
  - intros (o & -> & Ho). by apply T_mapping.
  - inversion 1; subst. eauto.
Qed.
(** A closed object over the properties that were collected *)
Lemma validates_record v s names es required :
  NoDup names → length names = length es →
  dict_get "type" s = Some (JStr "object") → dict_get "enum" s = None → dict_get "anyOf" s = None →
  dict_get "properties" s = Some (JObj (collect_properties names es)) →
  dict_get "additionalProperties" s = Some (JBool false) →
  dict_get "required" s = (match required with [] => None | _ => Some (JList (JStr <$> required)) end) →
  validates v (JObj s) ↔
  ∃ o, v = JObj o ∧ (∀ k, k ∈ required → dict_get k o ≠ None) ∧
    (∀ k x, dict_get k o = Some x → k ∈ names) ∧
    ∀ i k e x, names !! i = Some k → es !! i = Some e → dict_get k o = Some x →
      validates x (JObj (schema e)).
Proof.
  intros Hnd Hlen Hty Hen Han Hpr Had Hrq.
  rewrite (validates_closed_object v s _ required Hty Hen Han Hpr Had Hrq).
  setoid_rewrite (λ k p, collect_properties_get k p names es Hnd). split.
  - intros (o & -> & Hreq & Ho). exists o. split_and!; [done|done| |].
    + intros k x Hx. destruct (Ho k x Hx) as (p & (i & e & Hi & _) & _).
      by eapply list_elem_of_lookup_2.
    + intros i k e x Hi He Hx. destruct (Ho k x Hx) as (p & (j & e' & Hj & He' & ->) & Hv).
      pose proof (NoDup_lookup _ _ _ _ Hnd Hi Hj) as <-. rewrite He in He'. by injection He' as <-.
  - intros (o & -> & Hreq & Hk & Ho). exists o. split_and!; [done|done|]. intros k x Hx.
    destruct (list_elem_of_lookup_1 _ _ (Hk k x Hx)) as [i Hi].
    destruct (lookup_lt_is_Some_2 es i) as [e He].
    { rewrite <- Hlen. by eapply lookup_lt_Some. }
    exists (JObj (schema e)). split; [by exists i, e|]. by eapply Ho.
Qed.

Lemma object_schema_keys props required :
  let s := object_schema props required in
  dict_get "type" s = Some (JStr "object") ∧ dict_get "enum" s = None ∧ dict_get "anyOf" s = None ∧
  dict_get "properties" s = Some (JObj props) ∧
  dict_get "additionalProperties" s = Some (JBool false) ∧
  dict_get "required" s = (match required with [] => None | _ => Some (JList (JStr <$> required)) end).
Proof. by destruct required. Qed.

Lemma exact_dataclass n fs es v :
  classes n = Some fs → NoDup (field_name <$> fs) →
  Forall2 (λ f e, exact (field_annotation f) e) fs es →
  validates v (JObj (object_schema (collect_properties (field_name <$> fs) es)
                       (field_name <$> List.filter (λ f, negb (field_has_default f)) fs))) ↔
  has_type classes v (A_dataclass n).
Proof.
  intros Hfs Hnd Hex. destruct (object_schema_keys (collect_properties (field_name <$> fs) es)
    (field_name <$> List.filter (λ f, negb (field_has_default f)) fs)) as (?&?&?&?&?&?).
  rewrite (validates_record v _ (field_name <$> fs) es _ Hnd) by
    (done || by rewrite length_fmap; eapply Forall2_length).
  split.
  - intros (o & -> & Hreq & Hk & Ho). apply (T_dataclass classes o n fs Hfs Hk).
    + intros f x [i Hi]%list_elem_of_lookup_1 Hx.
      destruct (Forall2_lookup_l _ _ _ _ _ Hex Hi) as (e & He & Hfe). apply Hfe.
      apply (Ho i (field_name f) e); [|done..]. by rewrite list_lookup_fmap, Hi.
    + intros f Hf Hx. destruct (field_has_default f) eqn:Hd; [done|]. destruct (Hreq (field_name f)); [|done].
      apply list_elem_of_fmap. exists f. split; [done|]. apply list_elem_of_In, filter_In.
      by rewrite <- list_elem_of_In, Hd.
  - inversion 1 as [| | | | | | | | | | | |o n' fs' Hfs' Hk Hf Hd|]; subst.
    rewrite Hfs in Hfs'. injection Hfs' as <-.
    exists o. split_and!; [done| |done|].
    + intros k (f & -> & Hin)%list_elem_of_fmap Hx.
      apply list_elem_of_In, filter_In in Hin as [Hin%list_elem_of_In Hdef].
      by rewrite (Hd f Hin Hx) in Hdef.
    + intros i k e x (f & -> & Hi)%list_lookup_fmap_Some He Hx.
      destruct (Forall2_lookup_lr _ _ _ _ _ _ Hex Hi He) with x as [_ Hv].
      apply Hv, (Hf f x); [by eapply list_elem_of_lookup_2|done].
Qed.

Lemma has_type_unwrap v a path :
  has_type classes v a ↔ has_type classes v (_unwrap_annotated a path).1.
Proof. destruct a; try done. cbn. split; [by inversion 1|by constructor]. Qed.
End exactness.

Section extraction.
Context (classes : dataclasses) (Hclasses : classes_ok classes).

Lemma Forall2_exact {A} (annotation_of : A → annotation) fuel (label_of : A → string)
    (path_of : A → list string) l es :
  (∀ a label path e, _schema_for_annotation classes fuel a label path = Ok e → exact classes a e) →
  map_outcome (λ x, _schema_for_annotation classes fuel (annotation_of x) (label_of x) (path_of x)) l =
    Ok es →
  Forall2 (λ x e, exact classes (annotation_of x) e) l es.
Proof.
  intros IH Hes%map_outcome_Ok. eapply Forall2_impl; [exact Hes|]. cbn. intros x e. apply IH.
Qed.

Lemma schema_exact fuel a label path e :
  _schema_for_annotation classes fuel a label path = Ok e → exact classes a e.
Proof.
  revert a label path e. induction fuel as [|fuel IH]; intros a label path e; [done|].
  cbn [_schema_for_annotation]. intros He v. rewrite (has_type_unwrap classes v a path).
  destruct (_unwrap_annotated a path) as [b marked]. cbn [fst].
  destruct b as [|p|args|item|item|items|key value|vs|n|b ms|]; try discriminate He.
  - injection He as <-. apply exact_primitive.
  - apply outcome_bind_Ok in He as (alts & Halts & [= <-]). apply exact_union.
    by apply (Forall2_exact (λ x, x) fuel (λ _, label) (λ _, path)).
  - apply outcome_bind_Ok in He as (i & Hi & [= <-]). etransitivity; [by eapply exact_array, IH|].
    split; [intros (xs & -> & ?); by constructor|inversion 1; eauto].
  - apply outcome_bind_Ok in He as (i & Hi & [= <-]). etransitivity; [by eapply exact_array, IH|].
    split; [intros (xs & -> & ?); by constructor|inversion 1; eauto].
  - apply outcome_bind_Ok in He as (es & Hes & [= <-]). apply exact_tuple.
    by apply (Forall2_exact (λ x, x) fuel (λ _, label) (λ _, path)).
  - destruct key as [|[]| | | | | | | | |]; try discriminate He.
    apply outcome_bind_Ok in He as (i & Hi & [= <-]). by eapply exact_mapping, IH.
  - apply outcome_bind_Ok in He as (s & Hs & [= <-]). cbn [schema].
    rewrite (enum_schema_exact _ _ _ Hs). split; [by constructor|by inversion 1].
  - destruct (classes n) as [fs|] eqn:Hfs; [|done].
    apply outcome_bind_Ok in He as (es & Hes & [= <-]).
    apply (exact_dataclass classes n fs es v Hfs); [by eapply Hclasses|].
    by apply (Forall2_exact field_annotation fuel (λ f, label +:+ "." +:+ field_name f)
                (λ f, path ++ [field_name f])).
Qed.

(** C8. The JSON schema generated for an annotation accepts exactly the JSON
    values of the annotated type: for every annotation the extraction supports
    (primitives, unions, lists, tuples, mappings, enumerations, dataclasses and
    [Annotated] around any of them) a value validates against the schema if and
    only if it has the type. *)
Theorem schema_accepts_exactly_the_type fuel a label path e v :
  _schema_for_annotation classes fuel a label path = Ok e →
  validates v (JObj (schema e)) ↔ has_type classes v a.
Proof. intros He. by apply (schema_exact fuel a label path e He). Qed.
End extraction.

(** ** Binding *)

(** Keywords only: the call binds when its keys are parameters and every
    parameter without a default is given. *)
Lemma bind_keywords ps (kw : dict) :
  NoDup (parameter_name <$> ps) → NoDup kw.*1 →
  (∀ k, k ∈ kw.*1 → k ∈ parameter_name <$> ps) →
  (∀ p, p ∈ ps → parameter_default p = None → dict_get (parameter_name p) kw ≠ None) →
  ∃ bs, bind_parameters ps [] kw = Some (bs, []) ∧
    ∀ k, dict_get k bs = dict_get k kw.
Proof.
  revert kw. induction ps as [|p ps IH]; intros kw Hnd Hkw Hkeys Hreq.
  { exists []. destruct kw as [|[k v] kw]; [split; [done|set_solver]|].
    by destruct (not_elem_of_nil k); apply Hkeys; left. }
  rewrite fmap_cons, NoDup_cons in Hnd. destruct Hnd as [Hp Hnd]. cbn [bind_parameters].
  assert (∀ q, q ∈ ps → parameter_name q ≠ parameter_name p) as Hne.
  { intros q Hq Heq. apply Hp. rewrite <- Heq. apply list_elem_of_fmap. by exists q. }
  destruct (dict_get (parameter_name p) kw) as [x|] eqn:Hx.
  - destruct (IH (dict_del (parameter_name p) kw)) as (bs & -> & Hbs); [done|by apply dict_del_NoDup| | |].
    + intros k [Hk Hkp]%dict_del_keys; [|done]. specialize (Hkeys k Hk). set_solver.
    + intros q Hq Hd. rewrite dict_get_del_ne by auto. apply Hreq; [by right|done].
    + exists ((parameter_name p, x) :: bs). split; [done|]. intros k. cbn. case_decide as Hk; subst; [done|].
      rewrite Hbs. by apply dict_get_del_ne.
  - destruct (parameter_default p) eqn:Hd; [|by destruct (Hreq p ltac:(by left) Hd)].
    apply dict_get_None in Hx. destruct (IH kw) as (bs & -> & Hbs); [done|done| | |].
    + intros k Hk. specialize (Hkeys k Hk). set_solver.
    + intros q Hq. apply Hreq. by right.
    + by exists bs.
Qed.

(** The call the binding makes, parameter by parameter *)
Definition call_values (i : AgentToolBoundInvocation) : list json := bound_args i ++ (bound_kwargs i).*2.

Lemma invocation_values bs ps :
  call_values (invocation_of bs ps) = snd ∘ with_default bs <$> ps ∧
  (bound_kwargs (invocation_of bs ps)).*1 =
    parameter_name <$> drop (length (bound_args (invocation_of bs ps))) ps.
Proof.
  unfold call_values. induction ps as [|p ps [IHv IHk]]; [done|]. cbn [invocation_of].
  destruct (parameter_kind p); cbn; rewrite ?IHv, ?IHk; try done.
  rewrite <- !list_fmap_compose. by split.
Qed.

Section binding.
Context (classes : dataclasses) (Hclasses : classes_ok classes).

Definition schema_parameters (f : tool_function) : list tool_parameter :=
  List.filter (negb ∘ is_owner) (parameters f).

(** The value a parameter gets: what the payload says, of the type of the
    parameter, or else its default *)
Definition parameter_value (o : dict) (p : tool_parameter) (x : json) : Prop :=
  match dict_get (parameter_name p) o with
  | Some y => x = y ∧ ∃ a, parameter_hint p = Some a ∧ has_type classes x a
  | None => parameter_default p = Some x
  end.

Lemma parameter_schema_Ok fuel p e :
  parameter_schema classes fuel p = Ok e → ∃ a, parameter_hint p = Some a ∧ exact classes a e.
Proof.
  unfold parameter_schema. intros (u & _ & He)%outcome_bind_Ok.
  destruct (parameter_hint p) as [a|]; [|discriminate He].
  exists a. split; [done|]. by eapply schema_exact.
Qed.

Lemma input_schema_record f fuel name s :
  NoDup (parameter_name <$> schema_parameters f) →
  _build_input_schema classes fuel f name = Ok s →
  ∃ es, Forall2 (λ p e, ∃ a, parameter_hint p = Some a ∧ exact classes a e) (schema_parameters f) es ∧
    ∀ v, validates v (JObj (schema s)) ↔
      ∃ o, v = JObj o ∧
        (∀ p, p ∈ schema_parameters f → parameter_default p = None → dict_get (parameter_name p) o ≠ None) ∧
        (∀ k x, dict_get k o = Some x → k ∈ parameter_name <$> schema_parameters f) ∧
        ∀ i k e x, (parameter_name <$> schema_parameters f) !! i = Some k → es !! i = Some e →
          dict_get k o = Some x → validates x (JObj (schema e)).
Proof.
  intros Hnd Hs. unfold _build_input_schema in Hs. apply outcome_bind_Ok in Hs as (u & _ & Hs).
  apply outcome_bind_Ok in Hs as (es & Hes%map_outcome_Ok & Hs). exists es.
  fold (schema_parameters f) in *. split.
  { eapply Forall2_impl; [exact Hes|]. intros p e. apply parameter_schema_Ok. }
  intros v. injection Hs as <-. cbn [schema].
  rewrite (validates_record v _ (parameter_name <$> schema_parameters f) es
    (parameter_name <$> List.filter (λ p, bool_decide (parameter_default p = None)) (schema_parameters f)));
    [|done|by rewrite length_fmap; eapply Forall2_length|by destruct (parameter_name <$> List.filter _ _)..].
  split; intros (o & -> & Hreq & Ho); exists o; (split; [done|]); (split; [|done]).
  - intros p Hp Hd. apply Hreq, list_elem_of_fmap. exists p. split; [done|].
    apply list_elem_of_In, filter_In. by rewrite <- list_elem_of_In, bool_decide_eq_true.
  - intros k (p & -> & Hp)%list_elem_of_fmap. apply list_elem_of_In, filter_In in Hp as [Hp Hd].
    rewrite <- list_elem_of_In in Hp. apply Hreq; [done|]. by apply bool_decide_eq_true in Hd.
Qed.

Lemma direct_payload o :
  dict_has "args" o = false → dict_has "kwargs" o = false →
  _parse_invocation_payload (JObj o) = Ok (mk_payload [] o).
Proof. unfold _parse_invocation_payload. cbn. by intros -> ->. Qed.

Lemma valid_payload_binds f fuel name s o :
  NoDup (parameter_name <$> schema_parameters f) →
  _drop_owner_parameter (parameters f) = schema_parameters f →
  "args" ∉ parameter_name <$> schema_parameters f →
  "kwargs" ∉ parameter_name <$> schema_parameters f →
  _build_input_schema classes fuel f name = Ok s →
  NoDup o.*1 →
  validates (JObj o) (JObj (schema s)) →
  ∃ i, bind_agent_tool_invocation f (JObj o) = Ok i ∧
    Forall2 (parameter_value o) (schema_parameters f) (call_values i) ∧
    (bound_kwargs i).*1 = parameter_name <$> drop (length (bound_args i)) (schema_parameters f).
Proof.
  intros Hnd Hown Hargs Hkwargs Hs Ho Hv.
  destruct (input_schema_record f fuel name s Hnd Hs) as (es & Hes & Hval).
  destruct (proj1 (Hval _) Hv) as (o' & Heq & Hreq & Hkeys & Htypes). assert (o' = o) as -> by congruence.
  assert (∀ k, k ∉ parameter_name <$> schema_parameters f → dict_has k o = false) as Habs.
  { intros k Hk. unfold dict_has. destruct (dict_get k o) as [x|] eqn:Hx; [|done].
    by destruct Hk; apply (Hkeys k x). }
  destruct (bind_keywords (schema_parameters f) o Hnd Ho) as (bs & Hbind & Hbs); [|done|].
  { intros k Hk. destruct (dict_get k o) as [x|] eqn:Hx; [by eapply Hkeys|].
    by apply dict_get_None in Hx. }
  exists (invocation_of bs (schema_parameters f)).
  destruct (invocation_values bs (schema_parameters f)) as [Hvals Hks]. split_and!; [| |done].
  - unfold bind_agent_tool_invocation. rewrite direct_payload by auto. cbn.
    by rewrite Hown, Hbind.
  - rewrite Hvals. apply Forall2_fmap_r, Forall_Forall2_diag, Forall_forall. intros p Hp. cbn.
    unfold parameter_value. rewrite Hbs. destruct (dict_get (parameter_name p) o) as [x|] eqn:Hx; cbn.
    + assert (default JNull (Some x ∪ parameter_default p) = x) as -> by (by destruct (parameter_default p)).
      split; [done|]. destruct (list_elem_of_lookup_1 _ _ Hp) as [i Hi].
      destruct (Forall2_lookup_l _ _ _ _ _ Hes Hi) as (e & He & a & Ha & Hex).
      exists a. split; [done|]. apply Hex, (Htypes i (parameter_name p) e); [|done..].
      by rewrite list_lookup_fmap, Hi.
    + destruct (parameter_default p) as [d|] eqn:Hd; [done|]. by destruct (Hreq p Hp Hd).
Qed.

(** C9. A payload the model sends that is valid for the input schema of a tool
    can be called: when the parameters have distinct names, none of them [args]
    or [kwargs], and an owner parameter comes first, the binding succeeds and
    gives every parameter, in the order of the signature and by keyword from the
    first keyword-only one, the value of the payload, which has the type of its
    annotation, or else its default. *)
Theorem schema_valid_payload_binds f fuel name s o :
  NoDup (parameter_name <$> schema_parameters f) →
  _drop_owner_parameter (parameters f) = schema_parameters f →
  "args" ∉ parameter_name <$> schema_parameters f →
  "kwargs" ∉ parameter_name <$> schema_parameters f →
  _build_input_schema classes fuel f name = Ok s →
  NoDup o.*1 →
  validates (JObj o) (JObj (schema s)) →
  ∃ i, bind_agent_tool_invocation f (JObj o) = Ok i ∧
    Forall2 (parameter_value o) (schema_parameters f) (call_values i) ∧
    (bound_kwargs i).*1 = parameter_name <$> drop (length (bound_args i)) (schema_parameters f).
Proof. apply valid_payload_binds. Qed.

(** A tool with a required parameter named [args] cannot be called: its
    schema is published with that property, and unless the parameter takes an
    array every payload valid for the schema is refused by the binding, which
    takes the property for the array of the positional arguments. *)
Theorem parameter_named_args_refuses_valid_payloads f fuel name s o p a :
  NoDup (parameter_name <$> schema_parameters f) →
  p ∈ schema_parameters f → parameter_name p = "args" →
  parameter_default p = None → parameter_hint p = Some a →
  (∀ l, ¬ has_type classes (JList l) a) →
  _build_input_schema classes fuel f name = Ok s →
  validates (JObj o) (JObj (schema s)) →
  ∃ m, bind_agent_tool_invocation f (JObj o) = Raise (AgentToolBindingError m).
Proof.
  intros Hnd Hp Hname Hd Ha Hlist Hs Hv.
  destruct (input_schema_record f fuel name s Hnd Hs) as (es & Hes & Hval).
  destruct (proj1 (Hval _) Hv) as (o' & Heq & Hreq & _ & Htypes).
  assert (o' = o) as -> by congruence.
  specialize (Hreq p Hp Hd). rewrite Hname in Hreq.
  destruct (dict_get "args" o) as [x|] eqn:Hx; [|done].
  assert (has_type classes x a) as Hxa.
  { destruct (list_elem_of_lookup_1 _ _ Hp) as [i Hi].
    destruct (Forall2_lookup_l _ _ _ _ _ Hes Hi) as (e & He & a' & Ha' & Hex).
    rewrite Ha in Ha'. injection Ha' as <-. apply Hex, (Htypes i "args" e); [|done..].
    by rewrite list_lookup_fmap, Hi, <- Hname. }
  unfold bind_agent_tool_invocation, _parse_invocation_payload, dict_has. cbn. rewrite Hx. cbn.
  unfold _parse_args_kwargs_payload, check. destruct (existsb _ _); [by eexists|]. cbn. rewrite Hx.
  destruct x as [| | | | |l|]; try by eexists. by destruct (Hlist l).
Qed.
End binding.

(** ** Termination of the extraction *)

(** The dataclasses an annotation names *)
Fixpoint class_names (a : annotation) : list string :=
  match a with
  | A_union args | A_tuple args => args ≫= class_names
  | A_list b | A_tuple_of b | A_annotated b _ => class_names b
  | A_mapping k v => class_names v
  | A_dataclass n => [n]
  | _ => []
  end.

Section annotation_induction.
Context (P : annotation → Prop).
Context (P_any : P A_any) (P_primitive : ∀ p, P (A_primitive p)).
Context (P_union : ∀ l, Forall P l → P (A_union l)) (P_tuple : ∀ l, Forall P l → P (A_tuple l)).
Context (P_list : ∀ a, P a → P (A_list a)) (P_tuple_of : ∀ a, P a → P (A_tuple_of a)).
Context (P_mapping : ∀ k v, P v → P (A_mapping k v)) (P_enum : ∀ vs, P (A_enum vs)).
Context (P_dataclass : ∀ n, P (A_dataclass n)).
Context (P_annotated : ∀ a ms, P a → P (A_annotated a ms)) (P_other : P A_other).

Fixpoint annotation_nested_ind (a : annotation) : P a :=
  let fix all (l : list annotation) : Forall P l :=
    match l with
    | [] => Forall_nil_2 P
    | x :: l' => Forall_cons_2 P x l' (annotation_nested_ind x) (all l')
    end in
  match a with
  | A_any => P_any
  | A_primitive p => P_primitive p
  | A_union l => P_union l (all l)
  | A_list b => P_list b (annotation_nested_ind b)
  | A_tuple_of b => P_tuple_of b (annotation_nested_ind b)
  | A_tuple l => P_tuple l (all l)
  | A_mapping k v => P_mapping k v (annotation_nested_ind v)
  | A_enum vs => P_enum vs
  | A_dataclass n => P_dataclass n
  | A_annotated b ms => P_annotated b ms (annotation_nested_ind b)
  | A_other => P_other
  end.
End annotation_induction.

Section termination.
Context (classes : dataclasses).

(** From some depth of recursion on, the extraction ends. *)
Definition ends (a : annotation) : Prop :=
  ∃ n, ∀ fuel label path, n ≤ fuel →
    _schema_for_annotation classes fuel a label path ≠ Raise RecursionError.

Lemma ends_upto (l : list annotation) :
  Forall ends l →
  ∃ n, ∀ a fuel label path, a ∈ l → n ≤ fuel →
    _schema_for_annotation classes fuel a label path ≠ Raise RecursionError.
Proof.
  induction 1 as [|a l [n Hn] _ [m Hm]]; [exists 0; set_solver|]. exists (n `max` m).
  intros b fuel label path [->|Hb]%elem_of_cons Hf; [apply Hn; lia|apply Hm; [done|lia]].
Qed.

Lemma map_outcome_Raise {E A B} (f : A → outcome E B) l e :
  map_outcome f l = Raise e → ∃ x, x ∈ l ∧ f x = Raise e.
Proof.
  induction l as [|x l IH]; cbn [map_outcome]; [done|].
  intros [Hx|(y & _ & [Hl|(ys & _ & ?)]%outcome_bind_Raise)]%outcome_bind_Raise; [| |done].
  - exists x. split; [by left|done].
  - destruct (IH Hl) as (z & Hz & ?). exists z. split; [by right|done].
Qed.

Lemma map_outcome_stops {E A B} (f : A → outcome E B) e pre y post :
  (∀ x, x ∈ pre → f x = Raise e ∨ ∃ b, f x = Ok b) → f y = Raise e →
  map_outcome f (pre ++ y :: post) = Raise e.
Proof.
  intros Hpre Hy. induction pre as [|x pre IH]; simpl; [by rewrite Hy|].
  destruct (Hpre x) as [->|[b ->]]; [by left|done|]. cbn. rewrite IH; [done|].
  intros z Hz. apply Hpre. by right.
Qed.

Lemma enum_schema_ends vs : _enum_schema vs ≠ Raise RecursionError.
Proof.
  unfold _enum_schema. intros [Hl|((ws & ts) & _ & ?)]%outcome_bind_Raise; [|done].
  revert Hl. induction vs as [|ov vs IH]; cbn [enum_values]; [done|].
  destruct (ov ≫= _) as [[v t]|]; [|done].
  by intros [?|((ws & ts) & _ & ?)]%outcome_bind_Raise; [apply IH|].
Qed.

(** The annotations the extraction recurs into *)
Definition parts (a : annotation) : list annotation :=
  match (_unwrap_annotated a []).1 with
  | A_union args | A_tuple args => args
  | A_list b | A_tuple_of b | A_mapping _ b => [b]
  | A_dataclass n => match classes n with Some fs => field_annotation <$> fs | None => [] end
  | _ => []
  end.

Lemma recursion_error_in_part fuel a label path :
  _schema_for_annotation classes (S fuel) a label path = Raise RecursionError →
  ∃ b label' path', b ∈ parts a ∧
    _schema_for_annotation classes fuel b label' path' = Raise RecursionError.
Proof.
  assert ((_unwrap_annotated a path).1 = (_unwrap_annotated a []).1) as Heq by (by destruct a).
  unfold parts. rewrite <- Heq. cbn [_schema_for_annotation]. clear Heq.
  destruct (_unwrap_annotated a path) as [b marked]. cbn [fst].
  destruct b as [|p|args|item|item|items|key value|vs|n|b ms|]; try discriminate.
  - intros [(x & Hx & He)%map_outcome_Raise|(? & _ & ?)]%outcome_bind_Raise; [|discriminate]. eauto.
  - intros [He|(? & _ & ?)]%outcome_bind_Raise; [|discriminate]. eexists _, _, _. split; [by left|exact He].
  - intros [He|(? & _ & ?)]%outcome_bind_Raise; [|discriminate]. eexists _, _, _. split; [by left|exact He].
  - intros [(x & Hx & He)%map_outcome_Raise|(? & _ & ?)]%outcome_bind_Raise; [|discriminate]. eauto.
  - destruct key as [|[]| | | | | | | | |]; try discriminate.
    intros [He|(? & _ & ?)]%outcome_bind_Raise; [|discriminate]. eexists _, _, _. split; [by left|exact He].
  - intros [He%enum_schema_ends|(? & _ & ?)]%outcome_bind_Raise; [done|discriminate].
  - destruct (classes n) as [fs|]; [|discriminate].
    intros [(f & Hf & He)%map_outcome_Raise|(? & _ & ?)]%outcome_bind_Raise; [|discriminate].
    eexists _, _, _. split; [|exact He]. apply list_elem_of_fmap. by exists f.
Qed.

Lemma ends_parts a : Forall ends (parts a) → ends a.
Proof.
  intros [n Hn]%ends_upto. exists (S n). intros [|fuel] label path Hf; [lia|].
  intros (b & l & p & Hb & He)%recursion_error_in_part. by apply (Hn b fuel l p); [|lia|].
Qed.

(** The extraction of an annotation ends when the extractions of the fields of
    the dataclasses it names do. *)
Lemma ends_annotation a :
  (∀ n fs, n ∈ class_names a → classes n = Some fs → Forall ends (field_annotation <$> fs)) → ends a.
Proof.
  intros Ha. apply ends_parts. revert Ha.
  induction a as [| |l IH|l IH|b IH|b IH|k b IH| |n|b ms IH|] using annotation_nested_ind; intros Ha;
    unfold parts; cbn; try constructor; try constructor.
  - apply Forall_forall. intros x Hx. rewrite Forall_forall in IH. apply ends_parts, IH; [done|].
    intros n fs Hn. apply Ha. apply list_elem_of_bind. by exists x.
  - apply Forall_forall. intros x Hx. rewrite Forall_forall in IH. apply ends_parts, IH; [done|].
    intros n fs Hn. apply Ha. apply list_elem_of_bind. by exists x.
  - by apply ends_parts, IH.
  - by apply ends_parts, IH.
  - by apply ends_parts, IH.
  - destruct (classes n) as [fs|] eqn:Hn; [|done]. apply (Ha n); [by left|done].
  - specialize (IH Ha). unfold parts in IH. by destruct b.
Qed.

(** A dataclass refers to another from the annotation of a field. *)
Definition refers (m n : string) : Prop :=
  ∃ fs f, classes n = Some fs ∧ f ∈ fs ∧ m ∈ class_names (field_annotation f).

Lemma acyclic_ends : well_founded refers → ∀ a, ends a.
Proof.
  intros Hwf a. apply ends_annotation. intros n fs _. revert fs.
  induction (Hwf n) as [n _ IH]. intros fs Hn. apply Forall_forall.
  intros x (f & -> & Hf)%list_elem_of_fmap. apply ends_annotation. intros m fs' Hm Hfs'.
  apply (IH m); [|done]. by exists fs, f.
Qed.

(** The extraction of a schema ends: when no chain of references between
    dataclasses goes on for ever, there is for every annotation a depth of
    recursion beyond which the extraction returns a schema or raises an error of
    the definition, whatever the label and the path. *)
Theorem extraction_ends a :
  well_founded refers → ∃ n, ∀ fuel label path, n ≤ fuel →
    _schema_for_annotation classes fuel a label path ≠ Raise RecursionError.
Proof. intros Hwf. by apply acyclic_ends. Qed.

(** A dataclass with an optional field of its own type, after fields of
    primitive types, overflows the stack whatever its size: the tool that takes
    one is refused with [RecursionError], not with an error of the definition. *)
Theorem recursive_dataclass_overflows n pre f post fuel label path :
  classes n = Some (pre ++ f :: post) →
  Forall (λ g, ∃ p, field_annotation g = A_primitive p) pre →
  field_annotation f = A_union [A_dataclass n; A_primitive P_none] →
  _schema_for_annotation classes fuel (A_dataclass n) label path = Raise RecursionError.
Proof.
  intros Hn Hpre Hf. revert label path. induction (lt_wf fuel) as [fuel _ IH]. intros label path.
  destruct fuel as [|fuel]; [done|]. cbn [_schema_for_annotation _unwrap_annotated]. rewrite Hn.
  apply outcome_bind_Raise. left. rewrite Forall_forall in Hpre. apply map_outcome_stops.
  - intros g [p Hp]%Hpre. rewrite Hp. destruct fuel as [|fuel]; [by left|]. right. by eexists.
  - rewrite Hf. destruct fuel as [|fuel]; [done|].
    cbn [_schema_for_annotation _unwrap_annotated map_outcome]. by rewrite IH by lia.
Qed.
End termination.

(** ** Sensitive fields inside arrays *)

Section sensitive_arrays.
Context (classes : dataclasses).
Context (sha256_hex : string → string) (py_str : json → string).

Definition under (p : list string) (ds : list SensitiveFieldDescriptor) : Prop :=
  Forall (λ d, p `prefix_of` path d) ds.

Lemma under_marks p a : under p (_unwrap_annotated a p).2.
Proof. destruct a; cbn; try constructor. apply Forall_fmap, Forall_true. by intros m; cbn. Qed.

Lemma under_all {A} (es : list _SchemaExtraction) p (f : A → outcome tool_error _SchemaExtraction) l :
  map_outcome f l = Ok es → (∀ x e, x ∈ l → f x = Ok e → under p (extracted_fields e)) →
  under p (es ≫= extracted_fields).
Proof.
  intros Hes%map_outcome_Ok Hf. induction Hes as [|x e l es He _ IH]; [constructor|].
  apply Forall_app. split; [apply (Hf x); [by left|done]|]. apply IH. intros y e' Hy. apply Hf. by right.
Qed.

(** What an extraction finds is under the path it was given. *)
Lemma extracted_under fuel a label p e :
  _schema_for_annotation classes fuel a label p = Ok e → under p (extracted_fields e).
Proof.
  revert a label p e. induction fuel as [|fuel IH]; intros a label p e; [done|].
  pose proof (under_marks p a) as Hm. cbn [_schema_for_annotation].
  destruct (_unwrap_annotated a p) as [b marked]. cbn [snd] in Hm. intros He.
  destruct b as [|q|args|item|item|items|key value|vs|n|b ms|]; try discriminate He.
  - by injection He as <-.
  - apply outcome_bind_Ok in He as (es & Hes & [= <-]). apply Forall_app. split; [done|].
    by eapply (under_all _ _ _ _ Hes); eauto.
  - apply outcome_bind_Ok in He as (i & Hi & [= <-]). apply Forall_app. split; [done|exact (IH _ _ _ _ Hi)].
  - apply outcome_bind_Ok in He as (i & Hi & [= <-]). apply Forall_app. split; [done|exact (IH _ _ _ _ Hi)].
  - apply outcome_bind_Ok in He as (es & Hes & [= <-]). apply Forall_app. split; [done|].
    by eapply (under_all _ _ _ _ Hes); eauto.
  - destruct key as [|[]| | | | | | | | |]; try discriminate He.
    apply outcome_bind_Ok in He as (i & Hi & [= <-]). apply Forall_app. split; [done|exact (IH _ _ _ _ Hi)].
  - by apply outcome_bind_Ok in He as (i & Hi & [= <-]).
  - destruct (classes n) as [fs|]; [|discriminate He].
    apply outcome_bind_Ok in He as (es & Hes & [= <-]). apply Forall_app. split; [done|].
    eapply (under_all _ _ _ _ Hes). intros g e _ Hg%IH. eapply Forall_impl; [exact Hg|].
    intros d Hd. cbn in Hd. etransitivity; [by apply prefix_app_r|exact Hd].
Qed.

Lemma dataclass_fields_under fuel n label p e :
  _schema_for_annotation classes fuel (A_dataclass n) label p = Ok e →
  ∀ fs, classes n = Some fs →
  ∃ es, Forall2 (λ g x, ∃ label, under (p ++ [field_name g]) (extracted_fields x) ∧
          ∃ fuel, _schema_for_annotation classes fuel (field_annotation g) label (p ++ [field_name g]) = Ok x)
        fs es ∧ extracted_fields e = es ≫= extracted_fields.
Proof.
  destruct fuel as [|fuel]; [done|]. cbn [_schema_for_annotation _unwrap_annotated].
  intros He fs Hn. rewrite Hn in He. apply outcome_bind_Ok in He as (es & Hes%map_outcome_Ok & [= <-]).
  exists es. split; [|done]. eapply Forall2_impl; [exact Hes|]. intros g x Hx. cbv beta in Hx.
  eexists. split; [by eapply extracted_under|]. eauto.
Qed.

Lemma marks_extracted fuel a ms label p e m :
  _schema_for_annotation classes fuel (A_annotated a ms) label p = Ok e →
  m ∈ ms → mk_descriptor p m ∈ extracted_fields e.
Proof.
  destruct fuel as [|fuel]; [done|]. cbn [_schema_for_annotation _unwrap_annotated]. intros He Hm.
  assert (mk_descriptor p m ∈ mk_descriptor p <$> ms) as Hd by (apply list_elem_of_fmap; eauto).
  destruct a as [|q|args|item|item|items|key value|vs|n|b ms'|]; try discriminate He.
  1: by injection He as <-.
  5: destruct key as [|[]| | | | | | | | |]; try discriminate He.
  7: destruct (classes n) as [fs|]; [|discriminate He].
  all: apply outcome_bind_Ok in He as (x & _ & [= <-]); try done.
  all: cbn; apply elem_of_app; by left.
Qed.

Lemma guard_array_unchanged l ds p :
  Forall (λ d, path d ≠ []) ds →
  guard_json_value sha256_hex py_str (JList l) ds p = JList l.
Proof.
  unfold guard_json_value. induction 1 as [|d ds Hd _ IH]; cbn [foldl]; [done|].
  destruct (path d); [done|]. apply IH.
Qed.

(** What a tool returns in an array is not guarded: when the result of a
    tool is a list of a dataclass with a field marked as secret or sensitive,
    the marker is published with the schema of the result, at a path that starts
    at the field, and the guard, which stops at the array, records every result
    as it is, whatever the exposure policy is. *)
Theorem marked_fields_of_listed_items_are_not_guarded f fuel name n fs g a ms m s l p :
  return_hint f = Some (A_list (A_dataclass n)) → classes n = Some fs → g ∈ fs →
  field_annotation g = A_annotated a ms → m ∈ ms →
  _build_output_schema classes fuel f name = Ok s →
  mk_descriptor [field_name g] m ∈ extracted_fields s ∧
  guard_json_value sha256_hex py_str (JList l) (extracted_fields s) p = JList l.
Proof.
  intros Hret Hn Hg Ha Hm Hs. unfold _build_output_schema in Hs.
  apply outcome_bind_Ok in Hs as (u & _ & Hs). rewrite Hret in Hs.
  apply outcome_bind_Ok in Hs as (e & He & [= <-]). cbn [extracted_fields].
  destruct fuel as [|fuel]; [done|]. cbn [_schema_for_annotation _unwrap_annotated] in He.
  apply outcome_bind_Ok in He as (i & Hi & [= <-]). cbn.
  destruct (dataclass_fields_under _ _ _ _ _ Hi fs Hn) as (es & Hes & ->). split.
  - destruct (Forall2_elem_l _ _ _ g Hes Hg) as (x & Hx & label & _ & fuel' & Hgx).
    rewrite Ha in Hgx. apply list_elem_of_bind. exists x. split; [|done].
    by apply (marks_extracted _ _ _ _ _ _ _ Hgx).
  - apply guard_array_unchanged, Forall_bind. clear -Hes. induction Hes as [|g x fs es Hx _ IH]; constructor; [|done].
    destruct Hx as (label & Hx & _). eapply Forall_impl; [exact Hx|]. intros d Hd Hnil.
    cbv beta in Hd. rewrite Hnil in Hd. by apply prefix_nil_not in Hd.
Qed.
End sensitive_arrays.

(** ** The catalog *)

Lemma check_catalog_Ok l keys names u :
  check_catalog l keys names = Ok u →
  NoDup (descriptor_key <$> l) ∧ NoDup (handle_name ∘ descriptor_schema <$> l) ∧
  ∀ d, d ∈ l → descriptor_key d ∉ keys ∧ handle_name (descriptor_schema d) ∉ names.
Proof.
  revert keys names. induction l as [|d l IH]; intros keys names; cbn [check_catalog].
  { intros _. split_and!; [constructor..|]. by intros d ?%not_elem_of_nil. }
  intros (? & Hk%check_Ok%bool_decide_eq_false & (? & Hn%check_Ok%bool_decide_eq_false & Hl)%outcome_bind_Ok)%outcome_bind_Ok.
  destruct (IH _ _ Hl) as (IHk & IHn & IHd). rewrite !fmap_cons. split_and!.
  - apply NoDup_cons. split; [|done]. intros (y & Hy & Hin)%list_elem_of_fmap.
    destruct (IHd y Hin) as [Hno _]. apply Hno. rewrite Hy. by left.
  - apply NoDup_cons. split; [|done]. intros (y & Hy & Hin)%list_elem_of_fmap.
    destruct (IHd y Hin) as [_ Hno]. apply Hno. cbn in Hy. rewrite Hy. by left.
  - intros y [->|Hy]%elem_of_cons; [done|]. destruct (IHd y Hy). set_solver.
Qed.

(** The first element a key selects, when keys are distinct *)
Lemma head_filter_unique {A} (p : A → bool) l d :
  d ∈ l → p d = true → (∀ x, x ∈ l → p x = true → x = d) → head (List.filter p l) = Some d.
Proof.
  intros Hd Hp Hu. destruct (List.filter p l) as [|x l'] eqn:Hl.
  - assert (d ∈ List.filter p l) as Hin by (apply list_elem_of_In, filter_In; by rewrite <- list_elem_of_In).
    rewrite Hl in Hin. by apply not_elem_of_nil in Hin.
  - cbn. f_equal. assert (x ∈ List.filter p l) as Hin by (rewrite Hl; by left).
    apply list_elem_of_In, filter_In in Hin as [Hin%list_elem_of_In Hx]. by apply Hu.
Qed.
Lemma NoDup_fmap_eq {A B} (f : A → B) l x y :
  NoDup (f <$> l) → x ∈ l → y ∈ l → f x = f y → x = y.
Proof.
  intros Hnd [i Hi]%list_elem_of_lookup_1 [j Hj]%list_elem_of_lookup_1 Heq.
  assert (i = j) as <-; [|congruence].
  apply (NoDup_lookup (f <$> l) i j (f x)); [done|by rewrite list_lookup_fmap, Hi|].
  by rewrite list_lookup_fmap, Hj, Heq.
Qed.

Section discovery_facts.
Context (classes : dataclasses) (fuel : nat).

(** The tool [d] is built from a member of [o] under a name that is not taken. *)
Definition tool_of (o : owner_class) (taken : string → Prop) (d : ToolDescriptor) : Prop :=
  ∃ n f def, (n, Function_member f (Tool_metadata def)) ∈ class_members o ∧ ¬ taken n ∧
    _build_descriptor classes fuel o f def = Ok d.

Lemma discover_members_spec o ms seen xs seen' :
  NoDup ms.*1 → discover_members classes fuel o ms seen = Ok (xs, seen') →
  (∀ n, n ∈ seen' ↔ n ∈ seen ∨ n ∈ ms.*1) ∧
  ∀ d, d ∈ xs ↔ ∃ n f def, (n, Function_member f (Tool_metadata def)) ∈ ms ∧ n ∉ seen ∧
                  _build_descriptor classes fuel o f def = Ok d.
Proof.
  revert seen xs seen'. induction ms as [|[n m] ms IH]; intros seen xs seen'; cbn [discover_members].
  { intros _ [= <- <-]. split; [set_solver|]. set_solver. }
  rewrite fmap_cons, NoDup_cons. cbn [fst]. intros [Hn Hnd].
  assert (∀ m', (n, m') ∉ ms) as Hno.
  { intros m' Hin. apply Hn, list_elem_of_fmap. by exists (n, m'). }
  destruct (decide (n ∈ seen)) as [Hs|Hs].
  { intros H. destruct (IH _ _ _ Hnd H) as [Hseen Hxs]. split; [set_solver|].
    intros d. rewrite Hxs. set_solver. }
  assert (∀ seen' : list string, (∀ k, k ∈ seen' ↔ k ∈ n :: seen ∨ k ∈ ms.*1) →
    ∀ k, k ∈ seen' ↔ k ∈ seen ∨ k ∈ n :: ms.*1) as Hseens by set_solver.
  assert (∀ k m', (k, m') ∈ ms → k ∉ n :: seen ↔ k ∉ seen) as Hout.
  { intros k m' Hk. rewrite not_elem_of_cons. split; [by intros []|]. intros ?. split; [|done].
    intros ->. by apply (Hno m'). }
  assert (∀ d, (∃ k g def, (k, Function_member g (Tool_metadata def)) ∈ (n, m) :: ms ∧ k ∉ seen ∧
                  _build_descriptor classes fuel o g def = Ok d) ↔
               (∃ g def, m = Function_member g (Tool_metadata def) ∧
                  _build_descriptor classes fuel o g def = Ok d) ∨
               ∃ k g def, (k, Function_member g (Tool_metadata def)) ∈ ms ∧ k ∉ n :: seen ∧
                  _build_descriptor classes fuel o g def = Ok d) as Hsplit.
  { intros d. split.
    - intros (k & g & def & [[= -> <-]|Hk]%elem_of_cons & Hks & Hg); [by left; exists g, def|].
      right. exists k, g, def. split_and!; [done| |done]. by apply (Hout _ _ Hk).
    - intros [(g & def & -> & Hg)|(k & g & def & Hk & Hks & Hg)].
      + exists n, g, def. split_and!; [by left|done|done].
      + exists k, g, def. split_and!; [by right| |done]. by apply (Hout _ _ Hk). }
  destruct m as [f stored|].
  - intros (od & Hod & H)%outcome_bind_Ok. destruct od as [def|].
    + apply outcome_bind_Ok in H as (x & Hx & ([ys seen2] & Hys & [= <- <-])%outcome_bind_Ok).
      destruct (IH _ _ _ Hnd Hys) as [Hseen Hxs]. split; [by apply Hseens|].
      assert (stored = Tool_metadata def) as -> by (destruct stored; cbn in Hod; congruence).
      intros d. rewrite elem_of_cons, Hxs, Hsplit. apply or_iff_compat_r. split; [intros ->; eauto|].
      intros (g & def' & [= <- <-] & Hg). congruence.
    + destruct (IH _ _ _ Hnd H) as [Hseen Hxs]. split; [by apply Hseens|].
      assert (stored = No_metadata) as -> by (destruct stored; cbn in Hod; congruence).
      intros d. rewrite Hxs, Hsplit. split; [by right|]. by intros [(g & def' & [=] & _)|?].
  - intros H. destruct (IH _ _ _ Hnd H) as [Hseen Hxs]. split; [by apply Hseens|].
    intros d. rewrite Hxs, Hsplit. split; [by right|]. by intros [(g & def' & [=] & _)|?].
Qed.

Lemma discover_classes_spec mro seen ds :
  Forall (λ o, NoDup (class_members o).*1) mro →
  discover_classes classes fuel mro seen = Ok ds →
  ∀ d, d ∈ ds ↔ ∃ pre o post, mro = pre ++ o :: post ∧
    tool_of o (λ n, n ∈ seen ∨ ∃ o', o' ∈ pre ∧ n ∈ (class_members o').*1) d.
Proof.
  intros Hnd. revert seen ds. induction Hnd as [|o mro Ho _ IH]; intros seen ds; cbn [discover_classes].
  { intros [= <-] d. split; [by intros ?%not_elem_of_nil|by intros ([|] & ? & ? & ? & _)]. }
  intros ([xs seen'] & Hxs & (ys & Hys & [= <-])%outcome_bind_Ok)%outcome_bind_Ok d.
  destruct (discover_members_spec _ _ _ _ _ Ho Hxs) as [Hseen Hx].
  rewrite elem_of_app, Hx, (IH _ _ Hys). split.
  - intros [(n & f & def & Hin & Hs & Hd)|(pre & o' & post & -> & n & f & def & Hin & Hs & Hd)].
    + exists [], o, mro. split; [done|]. exists n, f, def. split_and!; [done| |done]. set_solver.
    + exists (o :: pre), o', post. split; [done|]. exists n, f, def. split_and!; [done| |done]. set_solver.
  - intros ([|o' pre] & o2 & post & [= -> ->] & n & f & def & Hin & Hs & Hd).
    + left. exists n, f, def. split_and!; [done| |done]. set_solver.
    + right. exists pre, o2, post. split; [done|]. exists n, f, def. split_and!; [done| |done]. set_solver.
Qed.

Lemma build_descriptor_name o f def d :
  _build_descriptor classes fuel o f def = Ok d →
  is_blank (handle_name (descriptor_schema d)) = false.
Proof.
  unfold _build_descriptor. intros (? & _ & H)%outcome_bind_Ok.
  apply outcome_bind_Ok in H as (? & _ & H). apply outcome_bind_Ok in H as (? & _ & H).
  apply outcome_bind_Ok in H as (i & _ & H). apply outcome_bind_Ok in H as (r & _ & H).
  apply outcome_bind_Ok in H as (u & Hu & [= <-]). cbn.
  unfold require_tool_text, _require_non_blank, check in Hu.
  destruct (is_blank (definition_schema_name def)); [discriminate Hu|done].
Qed.

(** Discovery finds the tools Python would call: a catalog holds exactly the
    descriptors of the tool members that no class earlier in the resolution order
    hides, under a tool or anything else of the same name, in the order of their
    identities; identities and schema names are unique, and both lookups find
    every descriptor of the catalog. *)
Theorem catalog_holds_the_visible_tools mro l :
  Forall (λ o, NoDup (class_members o).*1) mro →
  discover_agent_tools classes fuel mro = Ok l →
  (∀ d, d ∈ l ↔ ∃ pre o post, mro = pre ++ o :: post ∧
     tool_of o (λ n, ∃ o', o' ∈ pre ∧ n ∈ (class_members o').*1) d) ∧
  StronglySorted (λ d d', str_leb (descriptor_key d) (descriptor_key d') = true) l ∧
  NoDup (descriptor_key <$> l) ∧
  ∀ d, d ∈ l →
    by_schema_name l (handle_name (descriptor_schema d)) = Ok d ∧
    by_identity l (Agent.owner_module (descriptor_identity d))
      (Agent.owner_qualname (descriptor_identity d)) (tool_name (descriptor_identity d)) = Ok d.
Proof.
  intros Hmro. unfold discover_agent_tools. intros (ds & Hds & H)%outcome_bind_Ok.
  apply outcome_bind_Ok in H as (u & Hc & [= <-]).
  set (l := sort_by _ ds) in *. destruct (check_catalog_Ok _ _ _ _ Hc) as (Hkeys & Hnames & _).
  pose proof (discover_classes_spec _ _ _ Hmro Hds) as Hspec.
  assert (∀ d, d ∈ l ↔ d ∈ ds) as Hl by (intros d; apply elem_of_sort_by). split_and!.
  - intros d. rewrite Hl, Hspec. unfold tool_of. set_solver.
  - apply sort_by_strongly_sorted; intros *; [apply str_leb_total|apply str_leb_trans].
  - done.
  - intros d Hd. split.
    + unfold by_schema_name, require_tool_text, _require_non_blank.
      assert (is_blank (handle_name (descriptor_schema d)) = false) as ->.
      { apply Hl, Hspec in Hd as (pre & o & post & _ & n & f & def & _ & _ & Hb).
        by eapply build_descriptor_name. }
      cbn. rewrite (head_filter_unique _ l d); [done|done|by apply bool_decide_eq_true|].
      intros x Hx Heq%bool_decide_eq_true.
      by apply (NoDup_fmap_eq (handle_name ∘ descriptor_schema) l).
    + unfold by_identity. rewrite (head_filter_unique _ l d); [done|done|by apply bool_decide_eq_true|].
      intros x Hx (H1 & H2 & H3)%bool_decide_eq_true.
      apply (NoDup_fmap_eq descriptor_key l); [done..|].
      unfold descriptor_key, identity_key. by rewrite H1, H2, H3.
Qed.
End discovery_facts.

(** ** Instances *)

(** [search(self, query: str, *, top: int = 5) -> list[Customer]], where a
    [Customer] has a secret [token] *)
Definition ex_fields : list dataclass_field :=
  [mk_field "name" (A_primitive P_str) false;
   mk_field "token" (A_annotated (A_primitive P_str) [SecretField REFERENCE_ONLY None]) false;
   mk_field "age" (A_union [A_primitive P_int; A_primitive P_none]) true].
Definition ex_classes : dataclasses := λ n, if decide (n = "Customer") then Some ex_fields else None.
Definition ex_search : tool_function :=
  mk_function "search"
    [mk_parameter "self" POSITIONAL_OR_KEYWORD None None;
     mk_parameter "query" POSITIONAL_OR_KEYWORD (Some (A_primitive P_str)) None;
     mk_parameter "top" KEYWORD_ONLY (Some (A_primitive P_int)) (Some (JInt 5))]
    (Some (A_list (A_dataclass "Customer"))) true.
Definition ex_run : tool_function :=
  mk_function "run" [mk_parameter "args" POSITIONAL_OR_KEYWORD (Some (A_primitive P_str)) None]
    (Some (A_primitive P_none)) true.

Lemma ex_classes_ok : classes_ok ex_classes.
Proof. intros n fs. unfold ex_classes. case_decide; intros [= <-]. decide_compute. Qed.
Lemma ex_acyclic : well_founded (refers ex_classes).
Proof.
  intros n. constructor. intros m (fs & f & Hfs & Hf & Hm). unfold ex_classes in Hfs.
  destruct (decide (n = "Customer")); [|done]. injection Hfs as <-. exfalso.
  repeat (apply elem_of_cons in Hf as [->|Hf]; [by apply not_elem_of_nil in Hm|]).
  by apply not_elem_of_nil in Hf.
Qed.

Definition extraction_of (o : outcome tool_error _SchemaExtraction) : _SchemaExtraction :=
  match o with Ok s => s | Raise _ => mk_extraction [] [] end.

(** A record with one required text *)
Lemma validates_one_text s props k t :
  dict_get "type" s = Some (JStr "object") → dict_get "enum" s = None → dict_get "anyOf" s = None →
  dict_get "properties" s = Some (JObj props) →
  dict_get "additionalProperties" s = Some (JBool false) →
  dict_get "required" s = Some (JList [JStr k]) →
  dict_get k props = Some (JObj [("type", JStr "string")]) →
  validates (JObj [(k, JStr t)]) (JObj s).
Proof.
  intros Hty Hen Han Hpr Had Hrq Hk.
  apply (validates_closed_object _ s props [k]); [done..|]. exists [(k, JStr t)]. split_and!; [done| |].
  - intros j ->%list_elem_of_singleton. cbn. by rewrite decide_True.
  - intros j x. cbn. case_decide; intros [= <-]; subst. eexists. split; [done|]. by apply validates_type.
Qed.

Lemma schema_accepts_exactly_the_type_witness :
  ∃ e, _schema_for_annotation ex_classes 4 (A_dataclass "Customer") "result" [] = Ok e ∧
    ∀ v, validates v (JObj (schema e)) ↔ has_type ex_classes v (A_dataclass "Customer").
Proof.
  eexists. split; [vm_compute; reflexivity|]. intros v.
  apply (schema_accepts_exactly_the_type ex_classes ex_classes_ok 4 _ "result" []).
  vm_compute. reflexivity.
Defined.

Lemma schema_valid_payload_binds_witness :
  ∃ s i, _build_input_schema ex_classes 2 ex_search "search" = Ok s ∧
    bind_agent_tool_invocation ex_search (JObj [("query", JStr "ada")]) = Ok i ∧
    call_values i = [JStr "ada"; JInt 5] ∧
    Forall2 (parameter_value ex_classes [("query", JStr "ada")]) (schema_parameters ex_search) (call_values i).
Proof.
  exists (extraction_of (_build_input_schema ex_classes 2 ex_search "search")).
  eexists. split; [vm_compute; reflexivity|]. split; [vm_compute; reflexivity|]. split; [done|].
  destruct (schema_valid_payload_binds ex_classes ex_classes_ok ex_search 2 "search"
    (extraction_of (_build_input_schema ex_classes 2 ex_search "search")) [("query", JStr "ada")])
    as (i & Hi & Hv & _).
  - decide_compute.
  - reflexivity.
  - decide_compute.
  - decide_compute.
  - vm_compute. reflexivity.
  - decide_compute.
  - by apply (validates_one_text _ [("query", JObj [("type", JStr "string")]);
                                    ("top", JObj [("type", JStr "integer")])] "query").
  - vm_compute in Hi. injection Hi as <-. exact Hv.
Defined.

Lemma parameter_named_args_refuses_valid_payloads_witness :
  ∃ s m, _build_input_schema ex_classes 2 ex_run "run" = Ok s ∧
    validates (JObj [("args", JStr "ls")]) (JObj (schema s)) ∧
    bind_agent_tool_invocation ex_run (JObj [("args", JStr "ls")]) = Raise (AgentToolBindingError m).
Proof.
  exists (extraction_of (_build_input_schema ex_classes 2 ex_run "run")).
  destruct (parameter_named_args_refuses_valid_payloads ex_classes ex_classes_ok ex_run 2 "run"
    (extraction_of (_build_input_schema ex_classes 2 ex_run "run")) [("args", JStr "ls")] (mk_parameter "args" POSITIONAL_OR_KEYWORD (Some (A_primitive P_str)) None)
    (A_primitive P_str)) as (m & Hm).
  - decide_compute.
  - by left.
  - done.
  - done.
  - done.
  - by inversion 1.
  - vm_compute. reflexivity.
  - by apply (validates_one_text _ [("args", JObj [("type", JStr "string")])] "args").
  - exists m. split; [vm_compute; reflexivity|]. split; [|exact Hm].
    by apply (validates_one_text _ [("args", JObj [("type", JStr "string")])] "args").
Defined.

Lemma extraction_ends_witness :
  ∃ n, ∀ fuel label path, n ≤ fuel →
    _schema_for_annotation ex_classes fuel (A_list (A_dataclass "Customer")) label path ≠
      Raise RecursionError.
Proof. exact (extraction_ends ex_classes _ ex_acyclic). Defined.

Lemma recursive_dataclass_overflows_witness :
  let classes n := if decide (n = "Node") then
    Some [mk_field "value" (A_primitive P_int) false;
          mk_field "next" (A_union [A_dataclass "Node"; A_primitive P_none]) true] else None in
  ∀ fuel label, _schema_for_annotation classes fuel (A_dataclass "Node") label [] = Raise RecursionError.
Proof.
  intros classes fuel label.
  apply (recursive_dataclass_overflows classes "Node" [mk_field "value" (A_primitive P_int) false]
    (mk_field "next" (A_union [A_dataclass "Node"; A_primitive P_none]) true) []); [done| |done].
  constructor; [by exists P_int|constructor].
Defined.

Lemma marked_fields_of_listed_items_are_not_guarded_witness :
  let p := EvidencePolicy (mk_evidence_policy false false false) in
  let result := JList [JObj [("name", JStr "ada"); ("token", JStr "s3cr3t")]] in
  ∃ s, _build_output_schema ex_classes 5 ex_search "search" = Ok s ∧
    guard_json_value (λ s, s) (λ _, "") result (extracted_fields s) p = result.
Proof.
  intros p result. eexists. split; [vm_compute; reflexivity|].
  apply (marked_fields_of_listed_items_are_not_guarded ex_classes (λ s, s) (λ _, "") ex_search 5 "search"
    "Customer" ex_fields (mk_field "token" (A_annotated (A_primitive P_str) [SecretField REFERENCE_ONLY None]) false)
    (A_primitive P_str) [SecretField REFERENCE_ONLY None] (SecretField REFERENCE_ONLY None)).
  - done.
  - done.
  - by right; left.
  - done.
  - by left.
  - vm_compute. reflexivity.
Defined.

Definition ex_member (name : string) : class_member :=
  Function_member ex_search (Tool_metadata (mk_definition name name None (agent_tool None IDEMPOTENT None None DERIVED))).
Definition ex_mro : list owner_class :=
  [mk_owner "app" "Child" [("find", ex_member "find"); ("old", Other_member)];
   mk_owner "app" "Base" [("find", ex_member "base_find"); ("old", ex_member "old"); ("get", ex_member "get")]].

Lemma catalog_holds_the_visible_tools_witness :
  ∃ l, discover_agent_tools ex_classes 5 ex_mro = Ok l ∧
    (handle_name ∘ descriptor_schema <$> l) = ["get"; "find"] ∧ NoDup (descriptor_key <$> l).
Proof.
  eexists. split; [vm_compute; reflexivity|]. split; [vm_compute; reflexivity|].
  refine (proj1 (proj2 (proj2 (catalog_holds_the_visible_tools ex_classes 5 ex_mro _ _ _)))).
  - repeat constructor; decide_compute.
  - vm_compute. reflexivity.
Defined.
