(* ===== verification/Cache.v ===== *)
(** * Cache: the cache aspect and the Redis backend

    [core/spakky-cache] and [plugins/spakky-redis/cache.py]. Redis is an interface
    ([RedisServer]): its commands are atomic, and what they answer and store is
    what the documentation of Redis says. The operations of [RedisCache] are
    programs over the commands ([Effects.v]), so that they can be run alone and
    interleaved with other clients. The asynchronous twins of the operations and
    of the aspect run the same statements with [await]. *)

From S2P Require Import Prelude Effects.
From Stdlib Require Import SpecFloat.

(** ** Redis *)

Inductive redis_value := RStr (b : string) | RSet (members : gset string).

(** A key is a byte string; its expiry is an instant in milliseconds. *)
Record redis_entry := mk_entry { entry_value : redis_value; expires : option Z }.
Record redis_state := mk_redis { store : gmap string redis_entry; redis_now : Z }.

Definition live (s : redis_state) (k : string) : option redis_value :=
  e ← store s !! k;
  if match expires e with Some t => (t <=? redis_now s)%Z | None => false end then None
  else Some (entry_value e).

Inductive command :=
  | PING
  | GET (k : string)
  | SET (k v : string) (px : option Z)
  | SETNX (k v : string) (px : Z)
  | DEL (ks : list string)
  | SADD (k : string) (vs : list string)
  | SMEMBERS (k : string)
  | SCAN (pattern : string).

(** An answer before its type is known, [Iterator] and [other] included *)
Inductive raw :=
  | R_none | R_bytes (b : string) | R_bool (b : bool) | R_int (z : Z)
  | R_set (l : list string) | R_keys (l : list string) | R_other.

Definition put (s : redis_state) (k v : string) (px : option Z) : redis_state :=
  mk_redis (<[k := mk_entry (RStr v) ((λ p, redis_now s + p)%Z <$> px)]> (store s)) (redis_now s).
Definition members_of (v : option redis_value) : option (gset string) :=
  match v with None => Some ∅ | Some (RSet m) => Some m | Some (RStr _) => None end.
Definition expiry_of (s : redis_state) (k : string) : option Z :=
  match live s k with Some _ => store s !! k ≫= expires | None => None end.
Definition remove (s : redis_state) (ks : list string) : redis_state :=
  mk_redis (filter (λ kv, kv.1 ∉ ks) (store s)) (redis_now s).
Definition elapse (d : Z) (s : redis_state) : redis_state := mk_redis (store s) (redis_now s + d).

(** What the server may answer to a command, and the data it leaves *)
Definition redis_allows (glob : string → string → bool) (c : command) (s : redis_state) (r : raw)
    (s' : redis_state) : Prop :=
  match c with
  | PING => r = R_bool true ∧ s' = s
  | GET k =>
      s' = s ∧ match live s k with
               | None => r = R_none | Some (RStr b) => r = R_bytes b | Some (RSet _) => False
               end
  | SET k v px => r = R_bool true ∧ s' = put s k v px
  | SETNX k v px =>
      match live s k with
      | None => r = R_bool true ∧ s' = put s k v (Some px)
      | Some _ => r = R_none ∧ s' = s
      end
  | DEL ks =>
      r = R_int (Z.of_nat (length (filter (λ k, is_Some (live s k)) (remove_dups ks)))) ∧ s' = remove s ks
  | SADD k vs =>
      ∃ m n, members_of (live s k) = Some m ∧ r = R_int n ∧
        s' = mk_redis (<[k := mk_entry (RSet (m ∪ list_to_set vs)) (expiry_of s k)]> (store s)) (redis_now s)
  | SMEMBERS k =>
      s' = s ∧ ∃ m, members_of (live s k) = Some m ∧ r = R_set (elements m)
  | SCAN p =>
      s' = s ∧ ∃ l, r = R_keys l ∧ ∀ k, k ∈ l ↔ is_Some (live s k) ∧ glob p k = true
  end.

(** The characters that mean something in a pattern *)
Definition glob_special (c : ascii) : bool :=
  bool_decide (c ∈ ["*"; "?"; "["; "]"; "^"; "\"]%char).
Definition plain_prefix (p : string) : Prop :=
  Forall (λ c, glob_special c = false) (String.list_ascii_of_string p).

(** The server as the clients see it: a command answers or fails, and one that
    fails may have been executed; time passes between commands. *)
Class RedisServer (W : Type) := {
  glob : string → string → bool;
  exec : command → W → outcome unit raw * W;
  pass : Z → W → W;
  view : W → redis_state;
  glob_prefix p k : plain_prefix p → glob (p +:+ "*") k = String.prefix p k;
  exec_answers c w r w' : exec c w = (Ok r, w') → redis_allows glob c (view w) r (view w');
  exec_fails c w w' : exec c w = (Raise tt, w') →
    view w' = view w ∨ ∃ r, redis_allows glob c (view w) r (view w');
  pass_view d w : view (pass d w) = elapse d (view w);
}.

(** ** Errors *)

Inductive cache_error (X : Type) :=
  | RedisCacheOperationError
  | RedisCacheSerializationError
  | RedisCacheLockTimeoutError
  | InvalidCacheTTLError
  | CacheKeyGenerationError
  | CacheBackendCapabilityError
  | RedisError
  | ValueError
  | OverflowError
  | AnnotationNotFoundError
  | Application_error (x : X)
  | Out_of_fuel.
Arguments RedisCacheOperationError {X}.
Arguments RedisCacheSerializationError {X}.
Arguments RedisCacheLockTimeoutError {X}.
Arguments InvalidCacheTTLError {X}.
Arguments CacheKeyGenerationError {X}.
Arguments CacheBackendCapabilityError {X}.
Arguments RedisError {X}.
Arguments ValueError {X}.
Arguments OverflowError {X}.
Arguments Application_error {X} x.
Arguments AnnotationNotFoundError {X}.
Arguments Out_of_fuel {X}.

(** ** Lifetimes *)

Inductive CacheTTL :=
  | No_expiry
  | Seconds (n : Z)
  | Float_seconds (x : spec_float)
  | Timedelta (microseconds : Z).

(** Python floats are IEEE 754 binary64 numbers. *)
Definition float_of_int (n : Z) : spec_float := binary_normalize 53 1024 n 0 false.
Definition float_mul : spec_float → spec_float → spec_float := SFmul 53 1024.
Definition signed (n : Z) : spec_float :=
  match n with
  | Z0 => S754_zero false | Zpos p => S754_finite false p 0 | Zneg p => S754_finite true p 0
  end.
(** [n / m] on integers: the quotient, rounded once *)
Definition true_div (n m : Z) : spec_float := SFdiv 53 1024 (signed n) (signed m).
Definition int_of_float {X} (x : spec_float) : outcome (cache_error X) Z :=
  match x with
  | S754_zero _ => Ok 0%Z
  | S754_infinity _ => Raise OverflowError
  | S754_nan => Raise ValueError
  | S754_finite s m e =>
      let n := Z.shiftl (Zpos m) e in Ok (if s then - n else n)%Z
  end.

Definition ttl_seconds {X} (t : CacheTTL) : outcome (cache_error X) spec_float :=
  match t with
  | Seconds n =>
      match float_of_int n with S754_infinity _ => Raise OverflowError | x => Ok x end
  | Float_seconds x => Ok x
  | Timedelta us => Ok (true_div us 1000000)
  | No_expiry => Ok (S754_zero false)
  end.

Definition _ttl_ms {X} (t : CacheTTL) : outcome (cache_error X) (option Z) :=
  match t with
  | No_expiry => Ok None
  | _ =>
      s ← ttl_seconds t;
      check (SFleb s (S754_zero false)) InvalidCacheTTLError;;
      (ms ← int_of_float (float_mul s (float_of_int 1000)); Ok (Some (Z.max 1 ms)))
  end%stdpp.

(** ** The Redis cache *)

Inductive metric := Hits | Misses | Writes | Deletes | Clears | TagEvictions | StampedeWaits.
Global Instance metric_eq_dec : EqDecision metric.
Proof. solve_decision. Defined.

(** What the backend does: commands, its counters, the clock in microseconds,
    [uuid4().hex], and calls [C] of application code, which return a value [V]
    or raise [X] *)
Inductive effect (C V X : Type) : Type → Type :=
  | Redis (c : command) : effect C V X (outcome unit raw)
  | Count (m : metric) : effect C V X unit
  | Monotonic : effect C V X Z
  | Sleep (microseconds : Z) : effect C V X unit
  | Uuid : effect C V X string
  | App (c : C) : effect C V X (outcome X V).
Arguments Redis {C V X} c.
Arguments Count {C V X} m.
Arguments Monotonic {C V X}.
Arguments Sleep {C V X} microseconds.
Arguments Uuid {C V X}.
Arguments App {C V X} c.

Inductive CacheResult (V : Type) := CacheHit (v : V) | CacheMiss.
Arguments CacheHit {V} v.
Arguments CacheMiss {V}.

(** [pickle], on the values that can be cached *)
Class Pickle (V : Type) := {
  dumps : V → option string;
  loads : string → option V;
  loads_dumps v b : dumps v = Some b → loads b = Some v;
}.

Section programs.
Context {C V X : Type} `{Pickle V}.

Abbreviation program := (prog (effect C V X) (cache_error X)).

Definition ask {R} (e : effect C V X R) : program R := perform e.
Definition from_outcome {A} (o : outcome (cache_error X) A) : program A :=
  match o with Ok a => Done a | Raise e => Throw e end.
Definition invoke (c : C) : program V :=
  o <~ ask (App c) ;; match o with Ok v => Done v | Raise x => Throw (Application_error x) end.

(** *** [SyncRedisAdapter] *)

Definition raw_command (c : command) : program raw :=
  o <~ ask (Redis c) ;;
  match o with Ok r => Done r | Raise _ => Throw RedisCacheOperationError end.

Definition client_ping : program unit := raw_command PING ;~ Done tt.
Definition client_get (name : string) : program (option string) :=
  r <~ raw_command (GET name) ;;
  match r with
  | R_none => Done None
  | R_bytes b => Done (Some b)
  | _ => Throw RedisCacheOperationError
  end.
Definition client_set (name value : string) (px : option Z) : program unit :=
  raw_command (SET name value px) ;~ Done tt.
Definition client_set_if_absent (name value : string) (px : Z) : program bool :=
  r <~ raw_command (SETNX name value px) ;;
  match r with
  | R_none => Done false
  | R_bool b => Done b
  | _ => Throw RedisCacheOperationError
  end.

(** [isinstance(x, int)]: a [bool] is one *)
Definition narrow_int (r : raw) : program Z :=
  match r with
  | R_int z => Done z
  | R_bool b => Done (if b then 1 else 0)%Z
  | _ => Throw RedisCacheOperationError
  end.
Definition client_delete (names : list string) : program Z :=
  r <~ raw_command (DEL names) ;; narrow_int r.
Definition client_add_set_members (name : string) (values : list string) : program Z :=
  r <~ raw_command (SADD name values) ;; narrow_int r.
Definition client_set_members (name : string) : program (list string) :=
  r <~ raw_command (SMEMBERS name) ;;
  match r with R_set l => Done l | _ => Throw RedisCacheOperationError end.

(** [scan_iter] is a generator: its commands run, and fail, where it is iterated,
    outside the [try] of the adapter. *)
Definition client_scan_iter (pattern : string) : program (list string) :=
  o <~ ask (Redis (SCAN pattern)) ;;
  match o with
  | Ok (R_keys l) => Done l
  | Ok _ => Throw RedisError
  | Raise _ => Throw RedisError
  end.

(** *** [RedisCache] *)

Context (key_prefix : string).

Definition _redis_key (key : string) : string := key_prefix +:+ key.
Definition _tag_key (tag : string) : string := key_prefix +:+ "__tag__:" +:+ tag.
Definition _lock_key (key : string) : string := key_prefix +:+ "__lock__:" +:+ key.

Definition _serialize (v : V) : program string :=
  match dumps v with Some b => Done b | None => Throw RedisCacheSerializationError end.
Definition _deserialize (b : string) : program V :=
  match loads b with Some v => Done v | None => Throw RedisCacheSerializationError end.

Definition redis_get (key : string) : program (CacheResult V) :=
  payload <~ client_get (_redis_key key) ;;
  match payload with
  | None => ask (Count Misses) ;~ Done CacheMiss
  | Some b => ask (Count Hits) ;~ v <~ _deserialize b ;; Done (CacheHit v)
  end.

Definition redis_set (key : string) (v : V) (ttl : CacheTTL) : program unit :=
  payload <~ _serialize v ;;
  ttl_ms <~ from_outcome (_ttl_ms ttl) ;;
  client_set (_redis_key key) payload ttl_ms ;~
  ask (Count Writes).

Definition redis_delete (key : string) : program bool :=
  n <~ client_delete [_redis_key key] ;;
  if (0 <? n)%Z then ask (Count Deletes) ;~ Done true else Done false.

Definition redis_clear : program unit :=
  keys <~ client_scan_iter (key_prefix +:+ "*") ;;
  (match keys with [] => Done tt | _ => client_delete keys ;~ Done tt end) ;~
  ask (Count Clears).

Definition set_with_tags (key : string) (v : V) (tags : list string) (ttl : CacheTTL) : program unit :=
  redis_set key v ttl ;~
  pfor (λ tag, client_add_set_members (_tag_key tag) [_redis_key key] ;~ Done tt) tags.

Fixpoint tagged_members (tags : list string) : program (list string) :=
  match tags with
  | [] => Done []
  | tag :: tags' =>
      l <~ client_set_members (_tag_key tag) ;;
      ls <~ tagged_members tags' ;; Done (l ++ ls)
  end.
Definition _tagged_keys (tags : list string) : program (list string) :=
  keys <~ tagged_members tags ;; Done (sort_by str_leb (remove_dups keys)).

Definition evict_tags (tags : list string) : program Z :=
  keys <~ _tagged_keys tags ;;
  match keys ++ (_tag_key <$> tags) with
  | [] => Done 0%Z
  | names => deleted <~ client_delete names ;; ask (Count TagEvictions) ;~ Done deleted
  end.

Definition _lock_ttl_ms : Z := 30000.

Definition _produce_locked_value (key : string) (factory : C) (ttl : CacheTTL) (tags : list string)
    : program V :=
  pfinally
    (second_check <~ redis_get key ;;
     match second_check with
     | CacheHit v => Done v
     | CacheMiss =>
         v <~ invoke factory ;;
         set_with_tags key v tags ttl ;~
         Done v
     end)
    (client_delete [_lock_key key] ;~ Done tt).

(** The loop, [fuel] rounds at most: a round sleeps for 10 milliseconds and the
    deadline is 30 seconds away. *)
Fixpoint wait_until (fuel : nat) (deadline : Z) (key : string) (factory : C) (ttl : CacheTTL)
    (tags : list string) : program V :=
  match fuel with
  | O => Throw Out_of_fuel
  | S fuel =>
      t <~ ask Monotonic ;;
      if (t <? deadline)%Z then
        cached <~ redis_get key ;;
        match cached with
        | CacheHit v => Done v
        | CacheMiss =>
            token <~ ask Uuid ;;
            acquired <~ client_set_if_absent (_lock_key key) token _lock_ttl_ms ;;
            if acquired : bool then _produce_locked_value key factory ttl tags
            else ask (Sleep 10000) ;~ wait_until fuel deadline key factory ttl tags
        end
      else Throw RedisCacheLockTimeoutError
  end.
Definition _wait_for_value_or_reacquire (key : string) (factory : C) (ttl : CacheTTL)
    (tags : list string) : program V :=
  t <~ ask Monotonic ;; wait_until 3001 (t + 30000000) key factory ttl tags.

Definition get_or_set (key : string) (factory : C) (ttl : CacheTTL) (tags : list string) : program V :=
  cached <~ redis_get key ;;
  match cached with
  | CacheHit v => Done v
  | CacheMiss =>
      token <~ ask Uuid ;;
      acquired <~ client_set_if_absent (_lock_key key) token _lock_ttl_ms ;;
      if acquired : bool then _produce_locked_value key factory ttl tags
      else ask (Count StampedeWaits) ;~ _wait_for_value_or_reacquire key factory ttl tags
  end.

Definition write_through (key : string) (v : V) (writer : V → C) (ttl : CacheTTL) (tags : list string)
    : program unit :=
  invoke (writer v) ;~ set_with_tags key v tags ttl.
Definition write_behind (key : string) (v : V) (writer : V → C) (ttl : CacheTTL) (tags : list string)
    : program unit :=
  set_with_tags key v tags ttl ;~ invoke (writer v) ;~ Done tt.
End programs.

(** ** The cache aspect *)

Record Cacheable := mk_cacheable {
  cacheable_key : option string;
  cacheable_ttl : CacheTTL;
  cacheable_tags : list string;
}.
Record CacheEvict := mk_evict { evict_key : option string; evict_tag_names : list string }.

Section aspect.
Context {C V X : Type}.

Abbreviation program := (prog (effect C V X) (cache_error X)).

(** A backend; [ITaggedCache] and [IStampedeProtectedCache] are optional. *)
Record ITaggedCache := mk_tagged {
  cache_set_with_tags : string → V → list string → CacheTTL → program unit;
  cache_evict_tags : list string → program Z;
}.
Record ICache := mk_cache {
  cache_get : string → program (CacheResult V);
  cache_set : string → V → CacheTTL → program unit;
  cache_delete : string → program bool;
  cache_clear : program unit;
  tagged : option ITaggedCache;
  stampede_protected : option (string → C → CacheTTL → list string → program V);
}.

(** A method: where it is defined, its annotations and the call it makes.
    [str.format] and [repr] depend on the arguments and may raise. *)
Record method := mk_method {
  method_module : string;
  method_qualname : string;
  cache_evict : option CacheEvict;
  cacheable : option Cacheable;
  joinpoint : list V → list (string * V) → C;
}.
Context (format_key : string → list V → list (string * V) → option string).
Context (repr_args : list V → option string) (repr_kwargs : list (string * V) → option string).

Definition _key_from_call (m : method) (configured_key : option string) (args : list V)
    (kwargs : list (string * V)) : program string :=
  let key :=
    match configured_key with
    | Some template => format_key template args kwargs
    | None =>
        let ordered_kwargs := sort_by (λ a b, str_leb a.1 b.1) kwargs in
        a ← repr_args args;
        k ← repr_kwargs ordered_kwargs;
        Some (method_module m +:+ "." +:+ method_qualname m +:+ ":args=" +:+ a +:+ ":kwargs=" +:+ k)
    end in
  match key with Some k => Done k | None => Throw CacheKeyGenerationError end.

Definition around_evict (cache : ICache) (m : method) (e : CacheEvict) (args : list V)
    (kwargs : list (string * V)) : program V :=
  result <~ invoke (joinpoint m args kwargs) ;;
  (match evict_key e with
   | Some _ => k <~ _key_from_call m (evict_key e) args kwargs ;; cache_delete cache k ;~ Done tt
   | None => Done tt
   end) ;~
  (match evict_tag_names e with
   | [] => Done tt
   | tags =>
       match tagged cache with
       | None => Throw CacheBackendCapabilityError
       | Some t => cache_evict_tags t tags ;~ Done tt
       end
   end) ;~
  Done result.

Definition around_cacheable (cache : ICache) (m : method) (c : Cacheable) (args : list V)
    (kwargs : list (string * V)) : program V :=
  key <~ _key_from_call m (cacheable_key c) args kwargs ;;
  match stampede_protected cache with
  | Some get_or_set =>
      get_or_set key (joinpoint m args kwargs) (cacheable_ttl c) (cacheable_tags c)
  | None =>
      match cacheable_tags c, tagged cache with
      | _ :: _, None => Throw CacheBackendCapabilityError
      | _ :: _, Some t =>
          cached <~ cache_get cache key ;;
          match cached with
          | CacheHit v => Done v
          | CacheMiss =>
              result <~ invoke (joinpoint m args kwargs) ;;
              cache_set_with_tags t key result (cacheable_tags c) (cacheable_ttl c) ;~
              Done result
          end
      | [], _ =>
          cached <~ cache_get cache key ;;
          match cached with
          | CacheHit v => Done v
          | CacheMiss =>
              result <~ invoke (joinpoint m args kwargs) ;;
              cache_set cache key result (cacheable_ttl c) ;~
              Done result
          end
      end
  end.

Definition around (cache : ICache) (m : method) (args : list V) (kwargs : list (string * V))
    : program V :=
  match cache_evict m, cacheable m with
  | Some e, _ => around_evict cache m e args kwargs
  | None, Some c => around_cacheable cache m c args kwargs
  | None, None => Throw AnnotationNotFoundError
  end.
End aspect.

Arguments ICache : clear implicits.
Arguments ITaggedCache : clear implicits.
Arguments method : clear implicits.

Definition RedisCache {C V X} `{Pickle V} (key_prefix : string) : ICache C V X :=
  mk_cache (redis_get key_prefix) (redis_set key_prefix) (redis_delete key_prefix) (redis_clear key_prefix)
    (Some (mk_tagged (set_with_tags key_prefix) (evict_tags key_prefix)))
    (Some (get_or_set key_prefix)).

(** ** Running the cache *)

(** The process: the server it talks to, its counters, its clock and the state of
    the application *)
Record host (W A : Type) := mk_host {
  server : W;
  metrics : metric → Z;
  clock : Z;
  application : A;
}.
Arguments mk_host {W A} server metrics clock application.
Arguments server {W A} h.
Arguments metrics {W A} h.
Arguments clock {W A} h.
Arguments application {W A} h.

Section running.
Context {C V X W A : Type} `{Pickle V} `{RedisServer W}.
(** What the application does when it is called, and [uuid4().hex] *)
Context (app_call : C → host W A → outcome X V * host W A) (uuid : host W A → string).

Definition handle (R : Type) (e : effect C V X R) : host W A → R * host W A :=
  match e with
  | Redis c => λ h, let '(r, w) := exec c (server h) in (r, mk_host w (metrics h) (clock h) (application h))
  | Count m => λ h,
      (tt, mk_host (server h) (λ n, if decide (n = m) then metrics h n + 1 else metrics h n)%Z (clock h)
             (application h))
  | Monotonic => λ h, (clock h, h)
  | Sleep d => λ h, (tt, mk_host (pass (d / 1000) (server h)) (metrics h) (clock h + d)%Z (application h))
  | Uuid => λ h, (uuid h, h)
  | App c => app_call c
  end.

Definition data (h : host W A) : redis_state := view (server h).
End running.

(** *** The contract of a cache

    [entries s k] is what the cache holds for a key that can be used for entries,
    [indexed s t k] says that the tag [t] names [k]. *)

Section contract.
Context {C V X S : Type} (handle : ∀ R, effect C V X R → S → R * S).
Context (usable : string → Prop) (entries : S → string → option V).
Context (indexed : S → string → string → Prop).

Definition coherent (G : string → V → Prop) (s : S) : Prop :=
  ∀ k v, usable k → entries s k = Some v → G k v.

Definition others_kept (k : string) (s s' : S) : Prop :=
  ∀ j, usable j → j ≠ k → entries s' j = entries s j.
Definition same_index (s s' : S) : Prop := ∀ t j, indexed s' t j ↔ indexed s t j.
Definition same_cache (s s' : S) : Prop :=
  (∀ j, usable j → entries s' j = entries s j) ∧ same_index s s'.

(** Entries and tags may be gone, as by the passing of time; nothing is new. *)
Definition decayed (s s' : S) : Prop :=
  (∀ j, usable j → entries s' j = entries s j ∨ entries s' j = None) ∧
  ∀ t j, indexed s' t j → indexed s t j.

(** The entry of [k] is [v], and [tags] name it; no other entry and no other tag
    has changed. A store that raises may have happened in part. *)
Definition stored {A} (k : string) (v : V) (tags : list string) (o : outcome (cache_error X) A)
    (s s' : S) : Prop :=
  others_kept k s s' ∧
  match o with
  | Ok _ =>
      entries s' k = Some v ∧ ∀ t j, indexed s' t j ↔ indexed s t j ∨ (j = k ∧ t ∈ tags)
  | Raise _ =>
      (entries s' k = entries s k ∨ entries s' k = Some v) ∧
      (∀ t j, indexed s t j → indexed s' t j) ∧
      (∀ t j, indexed s' t j → indexed s t j ∨ (j = k ∧ t ∈ tags))
  end.

(** The entries that [tags] name are gone, and only these; [tags] name nothing
    any more, and the other tags what they did. An eviction that raises has
    removed none or some of what it had to remove. *)
Definition named (tags : list string) (s : S) (k : string) : Prop := ∃ t, t ∈ tags ∧ indexed s t k.
Definition evicted {A} (tags : list string) (o : outcome (cache_error X) A) (s s' : S) : Prop :=
  match o with
  | Ok _ =>
      (∀ j, usable j →
         named tags s j ∧ entries s' j = None ∨ ¬ named tags s j ∧ entries s' j = entries s j) ∧
      ((∀ t j, indexed s t j → usable j) → ∀ t j, indexed s' t j ↔ indexed s t j ∧ t ∉ tags)
  | Raise _ =>
      (∀ j, usable j → entries s' j = entries s j ∨ named tags s j ∧ entries s' j = None) ∧
      (∀ t j, indexed s' t j → indexed s t j)
  end.

(** Populating [k] with the call [c], alone. It returns the entry there was, and
    changes nothing; or there was none, and it returns what the call returned and
    stores that under its tags, on the cache as the call left it. If it raises,
    it has at most run the call and stored its result. *)
Definition populated (k : string) (c : C) (tags : list string) (o : outcome (cache_error X) V)
    (s s' : S) : Prop :=
  match o with
  | Ok w =>
      (entries s k = Some w ∧ same_cache s s') ∨
      (entries s k = None ∧ ∃ s1 s2, decayed s s1 ∧ entries s1 k = None ∧
         run handle (invoke c) s1 = (Ok w, s2) ∧ stored k w tags o s2 s')
  | Raise e =>
      decayed s s' ∨
      ∃ s1 r s2, decayed s s1 ∧ entries s1 k = None ∧ run handle (invoke c) s1 = (r, s2) ∧
        match r with Ok w => stored k w tags o s2 s' | Raise _ => same_cache s2 s' end
  end.

Class CacheContract (cache : ICache C V X) := {
  get_contract k s : usable k →
    wp handle (cache_get cache k) s (λ o s',
      same_cache s s' ∧
      ∀ c, o = Ok c → c = match entries s k with Some v => CacheHit v | None => CacheMiss end);
  set_contract k v ttl s : usable k →
    wp handle (cache_set cache k v ttl) s (λ o s', stored k v [] o s s');
  delete_contract k s : usable k →
    wp handle (cache_delete cache k) s (λ o s',
      others_kept k s s' ∧ same_index s s' ∧
      match o with
      | Ok b => entries s' k = None ∧ (is_Some (entries s k) → b = true)
      | Raise _ => entries s' k = entries s k ∨ entries s' k = None
      end);
  clear_contract s :
    wp handle (cache_clear cache) s (λ o s',
      match o with
      | Ok _ => (∀ j, usable j → entries s' j = None) ∧ ∀ t j, ¬ indexed s' t j
      | Raise _ => decayed s s'
      end);
  set_with_tags_contract t k v tags ttl s : tagged cache = Some t → usable k →
    wp handle (cache_set_with_tags t k v tags ttl) s (λ o s', stored k v tags o s s');
  evict_tags_contract t tags s : tagged cache = Some t →
    wp handle (cache_evict_tags t tags) s (λ o s', evicted tags o s s');
  stampede_contract g k c ttl tags s : stampede_protected cache = Some g → usable k →
    wp handle (g k c ttl tags) s (λ o s', populated k c tags o s s');
}.

(** *** What follows from it *)

Lemma same_cache_decayed s s' : same_cache s s' → decayed s s'.
Proof. intros [He Hi]. split; [by left; auto|]. intros t j. apply Hi. Qed.
Lemma decayed_trans s s1 s2 : decayed s s1 → decayed s1 s2 → decayed s s2.
Proof.
  intros [E1 I1] [E2 I2]. split; [|auto]. intros j Hj.
  destruct (E2 j Hj) as [-> |]; [by apply E1|by right].
Qed.
Lemma same_cache_trans s s1 s2 : same_cache s s1 → same_cache s1 s2 → same_cache s s2.
Proof. intros [E1 I1] [E2 I2]. split; [intros j Hj; by rewrite E2, E1|]. intros t j. by rewrite (I2 t j). Qed.
Lemma stored_same {A} k v tags (o : outcome (cache_error X) A) s s1 s2 :
  usable k → stored k v tags o s s1 → same_cache s1 s2 → stored k v tags o s s2.
Proof.
  intros Hk [Hne Ho] [E I]. split; [intros j Hj Hjk; rewrite E by done; by apply Hne|].
  rewrite (E k Hk). destruct o.
  - destruct Ho as [Ho Hi]. split; [done|]. intros t j. by rewrite (I t j).
  - destruct Ho as (Ho & H1 & H2). split_and!; [done|..]; intros t j; rewrite (I t j); auto.
Qed.
Lemma stored_partly {A} k v tags (o : outcome (cache_error X) A) e s s' :
  stored k v tags o s s' → stored k v tags (Raise e : outcome (cache_error X) V) s s'.
Proof.
  intros [Hne Ho]. split; [done|]. destruct o; [|done]. destruct Ho as [Ho Hi].
  split_and!; [by right|..]; intros t j; rewrite Hi; auto.
Qed.
Lemma evicted_decayed {A} tags (o : outcome (cache_error X) A) s s' :
  evicted tags o s s' → ∀ j, usable j → entries s' j = entries s j ∨ entries s' j = None.
Proof.
  destruct o; cbn.
  - intros [H _] j Hj. destruct (H j Hj) as [[]|[]]; auto.
  - intros [H _] j Hj. destruct (H j Hj) as [|[]]; auto.
Qed.

Lemma coherent_decayed G s s' : coherent G s → decayed s s' → coherent G s'.
Proof. intros Hs [He _] k v Hk Hv. destruct (He k Hk) as [Heq|Heq]; rewrite Heq in Hv; [by apply Hs|done]. Qed.
Lemma coherent_stored {A} G k v tags (o : outcome (cache_error X) A) s s' :
  G k v → coherent G s → stored k v tags o s s' → coherent G s'.
Proof.
  intros Hv Hs [Hne Ho] j w Hj Hw. destruct (decide (j = k)) as [->|Hjk].
  - destruct o; [destruct Ho; congruence|]. destruct Ho as [[Ho|Ho] _]; rewrite Ho in Hw; [by apply Hs|congruence].
  - rewrite Hne in Hw by done. by apply Hs.
Qed.

(** A population keeps a cache of good values good. *)
Lemma populated_coherent G k c tags o s s' :
  usable k → coherent G s → triple (coherent G) (G k) (λ _, True) (run handle (invoke c)) →
  populated k c tags o s s' → coherent G s' ∧ match o with Ok w => G k w | Raise _ => True end.
Proof.
  intros Hk Hs Hc. destruct o as [w|e]; cbn [populated].
  - intros [[Hw Hsame]|(_ & s1 & s2 & Hd & _ & Hrun & Hst)].
    + split; [|by apply Hs]. eapply coherent_decayed; [exact Hs|by apply same_cache_decayed].
    + destruct (Hc s1 (coherent_decayed G s s1 Hs Hd)) as [H2 Hw]. rewrite Hrun in H2, Hw. cbn in H2, Hw.
      split; [|done]. by eapply coherent_stored.
  - intros [Hd|(s1 & r & s2 & Hd & _ & Hrun & Hst)]; (split; [|done]).
    + by eapply coherent_decayed.
    + destruct (Hc s1 (coherent_decayed G s s1 Hs Hd)) as [H2 Hw]. rewrite Hrun in H2, Hw. cbn in H2, Hw.
      destruct r as [w|x]; [|eapply coherent_decayed; [exact H2|by apply same_cache_decayed]].
      by eapply coherent_stored.
Qed.
End contract.

(** ** The data of the server *)

Lemma live_put_eq s k v px :
  match px with Some p => (0 < p)%Z | None => True end → live (put s k v px) k = Some (RStr v).
Proof.
  intros Hp. unfold live, put. cbn. rewrite lookup_insert_eq. cbn. destruct px as [p|]; cbn; [|done].
  by rewrite (proj2 (Z.leb_gt _ _)) by lia.
Qed.
Lemma live_put_ne s k v px j : j ≠ k → live (put s k v px) j = live s j.
Proof. intros Hj. unfold live, put. cbn. by rewrite lookup_insert_ne. Qed.
Lemma live_remove s ks k : live (remove s ks) k = if decide (k ∈ ks) then None else live s k.
Proof.
  unfold live, remove. cbn. case_decide as Hk.
  - rewrite map_lookup_filter_None_2; [done|]. right. intros x _. by intros [].
  - destruct (store s !! k) as [e|] eqn:He; cbn.
    + by rewrite (map_lookup_filter_Some_2 _ _ _ _ He).
    + rewrite map_lookup_filter_None_2; [done|]. by left.
Qed.
Lemma live_elapse d s k : (0 ≤ d)%Z → live (elapse d s) k = None ∨ live (elapse d s) k = live s k.
Proof.
  intros Hd. unfold live, elapse. cbn. destruct (store s !! k) as [e|]; cbn; [|by right].
  destruct (expires e) as [t|]; [|by right]. destruct (Z.leb_spec t (redis_now s + d)); [by left|].
  rewrite (proj2 (Z.leb_gt t (redis_now s))) by lia. by right.
Qed.

(** What one command can change *)
Definition touches (c : command) (k : string) : Prop :=
  match c with
  | SET j _ _ | SETNX j _ _ | SADD j _ => j = k
  | DEL ks => k ∈ ks
  | _ => False
  end.

Lemma allowed_untouched g c s r s' k :
  redis_allows g c s r s' → ¬ touches c k → live s' k = live s k.
Proof.
  destruct c as [|j|j v px|j v px|ks|j vs|j|p]; cbn; intros Hs Hk.
  - by destruct Hs as [_ ->].
  - by destruct Hs as [-> _].
  - destruct Hs as [_ ->]. by apply live_put_ne, not_eq_sym.
  - destruct (live s j); destruct Hs as [_ ->]; [done|]. by apply live_put_ne, not_eq_sym.
  - destruct Hs as [_ ->]. rewrite live_remove. by rewrite decide_False.
  - destruct Hs as (m & n & _ & _ & ->). unfold live. cbn. by rewrite lookup_insert_ne.
  - by destruct Hs as [-> _].
  - by destruct Hs as [-> _].
Qed.

(** ** The keys of the cache *)

Section keys.
Context (key_prefix : string).

(** The prefix of the backend is shared by entries, tags and locks: an entry must
    not be named as a tag or a lock. *)
Definition usable (k : string) : Prop :=
  String.prefix "__tag__:" k = false ∧ String.prefix "__lock__:" k = false.

Lemma prefix_append p s : String.prefix p (p +:+ s) = true.
Proof.
  induction p as [|c p IH]; [by destruct s|]. change (String c p +:+ s) with (String c (p +:+ s)).
  cbn. by destruct (ascii_dec c c).
Qed.

Lemma redis_key_inj k k' : _redis_key key_prefix k = _redis_key key_prefix k' → k = k'.
Proof. apply (inj (String.append key_prefix)). Qed.
Lemma redis_key_not_tag k t : usable k → _redis_key key_prefix k ≠ _tag_key key_prefix t.
Proof. intros [Ht _] ->%(inj (String.append key_prefix)). by rewrite prefix_append in Ht. Qed.
Lemma redis_key_not_lock k j : usable k → _redis_key key_prefix k ≠ _lock_key key_prefix j.
Proof. intros [_ Hl] ->%(inj (String.append key_prefix)). by rewrite prefix_append in Hl. Qed.
Lemma tag_key_not_lock t j : _tag_key key_prefix t ≠ _lock_key key_prefix j.
Proof. by intros ?%(inj (String.append key_prefix)). Qed.
Lemma lock_key_inj j j' : _lock_key key_prefix j = _lock_key key_prefix j' → j = j'.
Proof. intros ?%(inj (String.append key_prefix)). by apply (inj (String.append "__lock__:")). Qed.
Lemma redis_key_prefixed k : String.prefix key_prefix (_redis_key key_prefix k) = true.
Proof. apply prefix_append. Qed.
End keys.

Lemma ttl_ms_positive {X} t (ms : Z) : @_ttl_ms X t = Ok (Some ms) → (0 < ms)%Z.
Proof.
  unfold _ttl_ms. destruct t; [done| | |];
    intros (y & _ & (u & _ & (m & _ & [= <-])%outcome_bind_Ok)%outcome_bind_Ok)%outcome_bind_Ok; lia.
Qed.

(** ** The Redis cache keeps the contract *)

Section redis_contract.
Context {C V X W A : Type} `{Pickle V} `{RedisServer W}.
Context (app_call : C → host W A → outcome X V * host W A) (uuid : host W A → string).
Context (key_prefix : string).

Abbreviation program := (prog (effect C V X) (cache_error X)).
Abbreviation handler := (handle app_call uuid).
Abbreviation wpr p s Q := (wp handler p s Q).

(** Nothing but one command happened to the data. *)
Definition at_most (c : command) (d d' : redis_state) : Prop :=
  d' = d ∨ ∃ r, redis_allows glob c d r d'.

Lemma wp_ask_redis c s (Q : outcome (cache_error X) (outcome unit raw) → host W A → Prop) :
  (∀ r s', redis_allows glob c (data s) r (data s') → Q (Ok (Ok r)) s') →
  (∀ s', at_most c (data s) (data s') → Q (Ok (Raise tt)) s') →
  wpr (ask (Redis c)) s Q.
Proof.
  intros HQ HX. unfold wp, ask, perform. cbn. destruct (exec c (server s)) as [[r|[]] w] eqn:He; cbn.
  - apply HQ. by apply exec_answers in He.
  - apply HX. by apply exec_fails in He.
Qed.

Lemma wp_raw_command c s (Q : outcome (cache_error X) raw → host W A → Prop) :
  (∀ r s', redis_allows glob c (data s) r (data s') → Q (Ok r) s') →
  (∀ s', at_most c (data s) (data s') → Q (Raise RedisCacheOperationError) s') →
  wpr (raw_command c) s Q.
Proof. intros HQ HX. apply wp_pbind, wp_ask_redis; intros; [by apply HQ|by apply HX]. Qed.

(** The statements that do not call the server leave its data. *)
Lemma wp_count m s (Q : outcome (cache_error X) unit → host W A → Prop) :
  (∀ s', data s' = data s → Q (Ok tt) s') → wpr (ask (Count m)) s Q.
Proof. intros HQ. by apply HQ. Qed.

Lemma wp_client_get name s (Q : outcome (cache_error X) (option string) → host W A → Prop) :
  (∀ s', data s' = data s → live (data s) name = None → Q (Ok None) s') →
  (∀ s' b, data s' = data s → live (data s) name = Some (RStr b) → Q (Ok (Some b)) s') →
  (∀ s', data s' = data s → Q (Raise RedisCacheOperationError) s') →
  wpr (client_get name) s Q.
Proof.
  intros HN HS HX. apply wp_pbind, wp_raw_command.
  - intros r s' [Hs Hr]. destruct (live (data s) name) as [[b|m]|]; [..|]; subst; [by apply HS|done|by apply HN].
  - intros s' [Hs|(r & Hs & _)]; by apply HX.
Qed.

Lemma wp_client_set name b px s (Q : outcome (cache_error X) unit → host W A → Prop) :
  (∀ s', data s' = put (data s) name b px → Q (Ok tt) s') →
  (∀ s', data s' = data s ∨ data s' = put (data s) name b px → Q (Raise RedisCacheOperationError) s') →
  wpr (client_set name b px) s Q.
Proof.
  intros HQ HX. apply wp_pbind, wp_raw_command.
  - intros r s' [_ Hs]. by apply HQ.
  - intros s' [Hs|(r & _ & Hs)]; apply HX; auto.
Qed.

Lemma wp_client_delete names s (Q : outcome (cache_error X) Z → host W A → Prop) :
  (∀ s', data s' = remove (data s) names →
     Q (Ok (Z.of_nat (length (filter (λ k, is_Some (live (data s) k)) (remove_dups names))))) s') →
  (∀ s', data s' = data s ∨ data s' = remove (data s) names → Q (Raise RedisCacheOperationError) s') →
  wpr (client_delete names) s Q.
Proof.
  intros HQ HX. apply wp_pbind, wp_raw_command.
  - intros r s' [-> Hs]. by apply HQ.
  - intros s' [Hs|(r & _ & Hs)]; apply HX; auto.
Qed.

(** A command that does not touch a key leaves it. *)
Lemma at_most_untouched c d d' k : at_most c d d' → ¬ touches c k → live d' k = live d k.
Proof. intros [->|(r & Hr)] Hk; [done|]. by eapply allowed_untouched. Qed.

(** What the server holds for a key of the application *)
Definition entry_of (d : redis_state) (k : string) : option V :=
  match live d (_redis_key key_prefix k) with Some (RStr b) => loads b | _ => None end.
Definition entries (s : host W A) (k : string) : option V := entry_of (data s) k.

Lemma entry_of_eq d d' k :
  live d' (_redis_key key_prefix k) = live d (_redis_key key_prefix k) → entry_of d' k = entry_of d k.
Proof. unfold entry_of. by intros ->. Qed.
Lemma entry_of_put_eq d k b v px :
  match px with Some p => (0 < p)%Z | None => True end → dumps v = Some b →
  entry_of (put d (_redis_key key_prefix k) b px) k = Some v.
Proof. intros Hp Hv. unfold entry_of. rewrite live_put_eq by done. by apply loads_dumps. Qed.
Lemma entry_of_remove d ks j :
  entry_of (remove d ks) j = if decide (_redis_key key_prefix j ∈ ks) then None else entry_of d j.
Proof. unfold entry_of. rewrite live_remove. by case_decide. Qed.

(** *** Entries and tags *)

(** The index of a tag names the entry of a key. *)
Definition tagged_with (d : redis_state) (t k : string) : Prop :=
  ∃ m, live d (_tag_key key_prefix t) = Some (RSet m) ∧ _redis_key key_prefix k ∈ m.
Definition indexed (s : host W A) (t k : string) : Prop := tagged_with (data s) t k.

Abbreviation others_kept := (others_kept usable entries).
Abbreviation same_index := (same_index indexed).
Abbreviation same_cache := (same_cache usable entries indexed).
Abbreviation decayed := (decayed usable entries indexed).
Abbreviation stored := (stored usable entries indexed).
Abbreviation named := (named indexed).
Abbreviation evicted := (evicted usable entries indexed).
Abbreviation populated := (populated handler usable entries indexed).

Global Instance tagged_with_dec d t k : Decision (tagged_with d t k).
Proof.
  refine (match live d (_tag_key key_prefix t) as x return x = _ → _ with
          | Some (RSet m) => λ Hl, cast_if (decide (_redis_key key_prefix k ∈ m))
          | _ => λ Hl, right _
          end eq_refl).
  - intros (m & Hm & _). congruence.
  - by exists m.
  - intros (m' & Hm & Hk). congruence.
  - intros (m & Hm & _). congruence.
Defined.

Lemma tagged_with_same d d' t k :
  live d' (_tag_key key_prefix t) = live d (_tag_key key_prefix t) →
  tagged_with d' t k ↔ tagged_with d t k.
Proof. unfold tagged_with. by intros ->. Qed.
Lemma tag_key_inj t t' : _tag_key key_prefix t = _tag_key key_prefix t' → t = t'.
Proof. by intros ?%(inj (String.append key_prefix))%(inj (String.append "__tag__:")). Qed.

(** Only other keys of the server changed. *)
Lemma same_cache_live s s' :
  (∀ j, usable j → live (data s') (_redis_key key_prefix j) = live (data s) (_redis_key key_prefix j)) →
  (∀ t, live (data s') (_tag_key key_prefix t) = live (data s) (_tag_key key_prefix t)) →
  same_cache s s'.
Proof.
  intros He Ht. split; [intros j Hj; by apply entry_of_eq, He|]. intros t j. apply tagged_with_same, Ht.
Qed.
Lemma same_cache_data s s' : data s' = data s → same_cache s s'.
Proof. intros Hd. apply same_cache_live; by rewrite Hd. Qed.

(** What happens to one key of the server, and not to the others *)
Definition only_key (n : string) (d d' : redis_state) : Prop := ∀ n', n' ≠ n → live d' n' = live d n'.

Lemma at_most_only_key c n d d' : (∀ n', touches c n' → n' = n) → at_most c d d' → only_key n d d'.
Proof. intros Hc Ha n' Hn. eapply at_most_untouched; [exact Ha|]. by intros ?%Hc. Qed.

Lemma only_entry_kept k s s' : usable k → only_key (_redis_key key_prefix k) (data s) (data s') →
  others_kept k s s' ∧ same_index s s'.
Proof.
  intros Hk Hd. split.
  - intros j Hj Hjk. apply entry_of_eq, Hd. by intros ?%(redis_key_inj key_prefix).
  - intros t j. apply tagged_with_same, Hd. by apply not_eq_sym, redis_key_not_tag.
Qed.
Lemma only_lock_same k s s' : only_key (_lock_key key_prefix k) (data s) (data s') → same_cache s s'.
Proof.
  intros Hd. apply same_cache_live.
  - intros j Hj. by apply Hd, redis_key_not_lock.
  - intros t. apply Hd, tag_key_not_lock.
Qed.

(** *** [get], [set] and [delete] *)

Lemma wp_redis_get k s (Q : outcome (cache_error X) (CacheResult V) → host W A → Prop) :
  (∀ s', data s' = data s → live (data s) (_redis_key key_prefix k) = None → Q (Ok CacheMiss) s') →
  (∀ s' v, data s' = data s → entries s k = Some v → Q (Ok (CacheHit v)) s') →
  (∀ s' e, data s' = data s → Q (Raise e) s') →
  wpr (redis_get key_prefix k) s Q.
Proof.
  intros HN HS HX. apply wp_pbind, wp_client_get; cbv beta iota.
  - intros s' Hd Hl. apply wp_pbind, wp_count. intros s2 Hd2. apply HN; [|done].
    by etransitivity.
  - intros s' b Hd Hl. apply wp_pbind, wp_count. intros s2 Hd2. apply wp_pbind. unfold _deserialize.
    destruct (loads b) as [v|] eqn:Hb; cbn; [|apply HX; by etransitivity].
    apply HS; [by etransitivity|]. unfold entries, entry_of. by rewrite Hl.
  - intros s' Hd. by apply HX.
Qed.

Lemma only_key_put n d b px : only_key n d (put d n b px).
Proof. intros n' Hn. by apply live_put_ne. Qed.
Lemma only_key_remove n d : only_key n d (remove d [n]).
Proof. intros n' Hn. rewrite live_remove, decide_False; [done|]. by intros ?%list_elem_of_singleton. Qed.

Lemma wp_redis_set k v ttl s : usable k →
  wpr (redis_set key_prefix k v ttl) s (λ o s', stored k v [] o s s').
Proof.
  intros Hk.
  assert (∀ o s', only_key (_redis_key key_prefix k) (data s) (data s') →
    match o : outcome (cache_error X) unit with
    | Ok _ => entries s' k = Some v
    | Raise _ => entries s' k = entries s k ∨ entries s' k = Some v
    end → stored k v [] o s s') as Hst.
  { intros o s' Hd Ho. destruct (only_entry_kept k s s' Hk Hd) as [Hne Hi]. split; [done|].
    destruct o; split_and!; try done; intros t j; rewrite (Hi t j); set_solver. }
  assert (∀ e s', data s' = data s → stored k v [] (Raise e : outcome (cache_error X) unit) s s') as Hsame.
  { intros e s' Hd. apply Hst; [by rewrite Hd|]. left. unfold entries. by rewrite Hd. }
  unfold entries. apply wp_pbind. unfold _serialize. destruct (dumps v) as [b|] eqn:Hb; cbv iota;
    [apply wp_done|apply wp_throw; by apply Hsame].
  apply wp_pbind. destruct (_ttl_ms ttl) as [px|e] eqn:Ht; cbn [from_outcome];
    [apply wp_done|apply wp_throw; by apply Hsame].
  assert (match px with Some p => (0 < p)%Z | None => True end) as Hpx.
  { destruct px; [|done]. by eapply ttl_ms_positive. }
  apply wp_pbind, wp_client_set; cbv beta iota.
  - intros s' Hd. apply wp_count. intros s2 Hd2. apply Hst; unfold entries; rewrite Hd2, Hd;
      [apply only_key_put|by apply entry_of_put_eq].
  - intros s' [Hd|Hd]; [by apply Hsame|]. apply Hst; unfold entries; rewrite Hd; [apply only_key_put|].
    right. by apply entry_of_put_eq.
Qed.

Lemma wp_redis_delete k s : usable k →
  wpr (redis_delete key_prefix k) s (λ o s',
    others_kept k s s' ∧ same_index s s' ∧
    match o with
    | Ok b => entries s' k = None ∧ (is_Some (entries s k) → b = true)
    | Raise _ => entries s' k = entries s k ∨ entries s' k = None
    end).
Proof.
  intros Hk. apply wp_pbind.
  assert (∀ s', data s' = remove (data s) [_redis_key key_prefix k] →
    others_kept k s s' ∧ same_index s s' ∧ entries s' k = None) as Hrem.
  { intros s' Hd. destruct (only_entry_kept k s s' Hk) as [Hne Hi]; [rewrite Hd; apply only_key_remove|].
    split_and!; [done..|]. unfold entries. rewrite Hd, entry_of_remove.
    by rewrite decide_True by (by apply list_elem_of_singleton). }
  apply wp_client_delete; cbv beta iota.
  - intros s' Hd. set (n := Z.of_nat _).
    assert (is_Some (entries s k) → (0 < n)%Z) as Hn.
    { intros [v Hv]. unfold n. unfold entries, entry_of in Hv.
      change (remove_dups [_redis_key key_prefix k]) with [_redis_key key_prefix k]. rewrite filter_cons.
      destruct (live (data s) (_redis_key key_prefix k)) as [x|] eqn:Hl; [|done].
      rewrite decide_True by eauto. cbn. lia. }
    destruct (Z.ltb_spec 0 n).
    + apply wp_pbind, wp_count. intros s2 Hd2. apply wp_done.
      destruct (Hrem s2) as (? & ? & ?); [by rewrite Hd2|]. by split_and!.
    + apply wp_done. destruct (Hrem s' Hd) as (? & ? & ?). split_and!; [done..|]. intros ?%Hn. lia.
  - intros s' [Hd|Hd].
    + destruct (same_cache_data s s' Hd) as [He Hi]. split_and!; [intros j Hj _; by apply He|done|].
      left. by apply He.
    + destruct (Hrem s' Hd) as (? & ? & ?). split_and!; [done..|by right].
Qed.

(** *** Tags *)

Lemma live_sadd d k ks m :
  members_of (live d k) = Some m →
  live (mk_redis (<[k := mk_entry (RSet (m ∪ list_to_set ks)) (expiry_of d k)]> (store d)) (redis_now d)) k =
  Some (RSet (m ∪ list_to_set ks)).
Proof.
  intros Hm. unfold live at 1. cbn. rewrite lookup_insert_eq. cbn. unfold expiry_of.
  destruct (live d k) as [v|] eqn:Hl; [|done]. unfold live in Hl.
  destruct (store d !! k) as [e|]; cbn in *; [|done]. destruct (expires e) as [t|]; [|done]. by destruct (t <=? redis_now d)%Z.
Qed.

Lemma tagged_sadd tag k d r d' t j :
  redis_allows glob (SADD (_tag_key key_prefix tag) [_redis_key key_prefix k]) d r d' →
  tagged_with d' t j ↔ tagged_with d t j ∨ (j = k ∧ t = tag).
Proof.
  intros Hr. destruct (decide (t = tag)) as [->|Ht].
  - destruct Hr as (m & n & Hm & _ & ->). unfold tagged_with.
    rewrite live_sadd by done. cbn [list_to_set foldr]. rewrite union_empty_r_L.
    assert (_redis_key key_prefix j ∈ m ↔
      ∃ m', live d (_tag_key key_prefix tag) = Some (RSet m') ∧ _redis_key key_prefix j ∈ m') as <-.
    { split.
      - intros Hj. destruct (live d (_tag_key key_prefix tag)) as [[]|]; [done|..]; injection Hm as <-; [eauto|set_solver].
      - intros (m' & Hl & Hj). rewrite Hl in Hm. by injection Hm as <-. }
    split.
    + intros (m' & [= <-] & [Hj|Hj%elem_of_singleton%(redis_key_inj key_prefix)]%elem_of_union); auto.
    + intros Hj. eexists. split; [done|]. apply elem_of_union. destruct Hj as [Hj|[-> _]]; [by left|].
      right. by apply elem_of_singleton.
  - rewrite (tagged_with_same d d'); [naive_solver|]. eapply allowed_untouched; [exact Hr|]. cbn.
    by intros ->%tag_key_inj.
Qed.

Lemma wp_sadd tag k s (Q : outcome (cache_error X) Z → host W A → Prop) :
  (∀ o s', (∀ j, usable j → entries s' j = entries s j) →
     match o with
     | Ok _ => ∀ t j, indexed s' t j ↔ indexed s t j ∨ (j = k ∧ t = tag)
     | Raise _ => same_index s s' ∨ ∀ t j, indexed s' t j ↔ indexed s t j ∨ (j = k ∧ t = tag)
     end → Q o s') →
  wpr (client_add_set_members (_tag_key key_prefix tag) [_redis_key key_prefix k]) s Q.
Proof.
  intros HQ.
  assert (∀ s', at_most (SADD (_tag_key key_prefix tag) [_redis_key key_prefix k]) (data s) (data s') →
    ∀ j, usable j → entries s' j = entries s j) as He.
  { intros s' Hs j Hj. apply entry_of_eq. eapply at_most_untouched; [exact Hs|]. cbn. intros Heq.
    by apply (redis_key_not_tag key_prefix j tag Hj). }
  apply wp_pbind, wp_raw_command.
  - intros r s' Hr. pose proof (λ t j, tagged_sadd _ _ _ _ _ t j Hr) as Hi.
    assert (∀ j, usable j → entries s' j = entries s j) as Hj by (apply He; right; eauto).
    destruct Hr as (m & n & Hm & -> & Hd). apply wp_done. by apply HQ.
  - intros s' Hr. apply HQ; [by apply He|]. destruct Hr as [Hd|(r & Hr)].
    + left. by apply same_cache_data.
    + right. intros t j. by eapply tagged_sadd.
Qed.

Lemma wp_tag_loop k tags s : usable k →
  wpr (pfor (λ tag, client_add_set_members (_tag_key key_prefix tag) [_redis_key key_prefix k] ;~ Done tt)
    tags) s (λ o s',
    (∀ j, usable j → entries s' j = entries s j) ∧
    match o with
    | Ok _ => ∀ t j, indexed s' t j ↔ indexed s t j ∨ (j = k ∧ t ∈ tags)
    | Raise _ =>
        (∀ t j, indexed s t j → indexed s' t j) ∧
        (∀ t j, indexed s' t j → indexed s t j ∨ (j = k ∧ t ∈ tags))
    end).
Proof.
  intros Hk. revert s. induction tags as [|tag tags IH]; intros s; cbn [pfor].
  - apply wp_done. split; [done|]. set_solver.
  - apply wp_pbind, wp_pbind, wp_sadd. intros [z|e] s2 He2 Hi2; cbv beta iota.
    + apply wp_done. eapply wp_mono; [apply IH|]. intros o s3 [He3 Ho].
      split; [intros j Hj; by rewrite He3, He2|]. destruct o.
      * intros t j. rewrite Ho, Hi2. set_solver.
      * destruct Ho as [H1 H2]. split; intros t j Hj; [apply H1, Hi2; auto|].
        destruct (H2 t j Hj) as [[|]%Hi2|]; set_solver.
    + split; [done|]. destruct Hi2 as [Hi|Hi]; split; intros t j; rewrite (Hi t j); set_solver.
Qed.

Lemma wp_set_with_tags k v tags ttl s : usable k →
  wpr (set_with_tags key_prefix k v tags ttl) s (λ o s', stored k v tags o s s').
Proof.
  intros Hk. apply wp_pbind. eapply wp_mono; [by apply wp_redis_set|].
  intros [[]|e] s1 [Hne Ho]; cbv beta iota in *.
  - destruct Ho as [Heq Hi1]. eapply wp_mono; [by apply wp_tag_loop|]. intros o s' [He Ho].
    split; [intros j Hj Hjk; rewrite He by done; by apply Hne|]. rewrite (He k Hk). destruct o.
    + split; [done|]. intros t j. rewrite Ho, Hi1. set_solver.
    + destruct Ho as [H1 H2]. split_and!; [by right| |]; intros t j Hj; [apply H1, Hi1; auto|].
      destruct (H2 t j Hj) as [[|]%Hi1|]; set_solver.
  - destruct Ho as (Heq & H1 & H2). split; [done|]. split_and!; [done..|].
    intros t j Hj. destruct (H2 t j Hj); set_solver.
Qed.

Lemma wp_client_set_members t s (Q : outcome (cache_error X) (list string) → host W A → Prop) :
  (∀ s' m, data s' = data s → members_of (live (data s) (_tag_key key_prefix t)) = Some m →
     Q (Ok (elements m)) s') →
  (∀ s', data s' = data s → Q (Raise RedisCacheOperationError) s') →
  wpr (client_set_members (_tag_key key_prefix t)) s Q.
Proof.
  intros HQ HX. apply wp_pbind, wp_raw_command.
  - intros r s' (Hs & m & Hm & ->). apply wp_done. by apply (HQ s' m).
  - intros s' [Hs|(r & Hs & _)]; by apply HX.
Qed.

(** A key of the server that one of the tags names *)
Definition member_key (d : redis_state) (tags : list string) (n : string) : Prop :=
  ∃ t m, t ∈ tags ∧ live d (_tag_key key_prefix t) = Some (RSet m) ∧ n ∈ m.

Lemma wp_tagged_members tags s :
  wpr (tagged_members key_prefix tags) s (λ o s', data s' = data s ∧
    match o with Ok ls => ∀ n, n ∈ ls ↔ member_key (data s) tags n | Raise _ => True end).
Proof.
  revert s. induction tags as [|t tags IH]; intros s; cbn [tagged_members].
  { apply wp_done. split; [done|]. intros n. unfold member_key. set_solver. }
  apply wp_pbind, wp_client_set_members; cbv beta iota; [|done]. intros s' m Hd Hm.
  apply wp_pbind. eapply wp_mono; [apply IH|]. intros [ls|e] s2 [Hd2 Hls]; cbv beta iota.
  - apply wp_done. split; [congruence|]. intros n. rewrite elem_of_app, elem_of_elements, Hls, Hd.
    unfold member_key. split.
    + intros [Hn|(t' & m' & ? & ? & ?)]; [|exists t', m'; set_solver].
      destruct (live (data s) (_tag_key key_prefix t)) as [[]|] eqn:Hl; [done|..]; injection Hm as <-; [|set_solver].
      exists t, members. set_solver.
    + intros (t' & m' & [->|Ht]%elem_of_cons & Hl & Hn); [|right; by exists t', m'].
      left. rewrite Hl in Hm. by injection Hm as <-.
  - split; [congruence|done].
Qed.

Lemma wp_evict_keys tags s :
  let gone n := member_key (data s) tags n ∨ n ∈ (_tag_key key_prefix <$> tags) in
  wpr (evict_tags key_prefix tags) s (λ o s',
    match o with
    | Ok _ => ∀ n, (gone n → live (data s') n = None) ∧ (¬ gone n → live (data s') n = live (data s) n)
    | Raise _ => ∀ n, live (data s') n = live (data s) n ∨ gone n ∧ live (data s') n = None
    end).
Proof.
  intros gone. apply wp_pbind, wp_pbind. eapply wp_mono; [apply wp_tagged_members|].
  intros [ls|e] s1 [Hd1 Hls]; cbv beta iota; [|rewrite Hd1; by left]. apply wp_done.
  assert (∀ n, n ∈ sort_by str_leb (remove_dups ls) ++ (_tag_key key_prefix <$> tags) ↔ gone n) as Hin.
  { intros n. unfold gone. by rewrite elem_of_app, elem_of_sort_by, elem_of_remove_dups, Hls. }
  destruct (sort_by _ _ ++ _) as [|n0 ns].
  - apply wp_done. rewrite Hd1. intros n. split; [|done]. intros Hn%Hin. by apply not_elem_of_nil in Hn.
  - assert (∀ n, (gone n → live (remove (data s) (n0 :: ns)) n = None) ∧
                 (¬ gone n → live (remove (data s) (n0 :: ns)) n = live (data s) n)) as Hrem.
    { intros n. rewrite live_remove. split; intros Hn; [by rewrite decide_True by (by apply Hin)|].
      rewrite decide_False; [done|]. by rewrite Hin. }
    apply wp_pbind, wp_client_delete; cbv beta iota.
    + intros s2 Hd2. apply wp_pbind, wp_count. intros s3 Hd3. apply wp_done. rewrite Hd3, Hd2, Hd1. exact Hrem.
    + intros s2 [-> | ->]; rewrite Hd1; [by left|]. intros n. rewrite live_remove.
      case_decide as Hn; [|by left]. right. split; [by apply Hin|done].
Qed.

Lemma gone_entry s tags j : usable j →
  member_key (data s) tags (_redis_key key_prefix j) ∨
    _redis_key key_prefix j ∈ (_tag_key key_prefix <$> tags) ↔ named tags s j.
Proof.
  intros Hj. unfold member_key, Cache.named, indexed, tagged_with. split.
  - intros [(t & m & ?)|(t & Heq & _)%list_elem_of_fmap]; [naive_solver|].
    by destruct (redis_key_not_tag key_prefix j t Hj).
  - intros (t & Ht & m & ? & ?). left. by exists t, m.
Qed.
Lemma gone_tag s tags t : (∀ t j, indexed s t j → usable j) →
  member_key (data s) tags (_tag_key key_prefix t) ∨
    _tag_key key_prefix t ∈ (_tag_key key_prefix <$> tags) ↔ t ∈ tags.
Proof.
  intros Hwf. split.
  - intros [(t' & m & Ht' & Hl & Hm)|(t' & ->%tag_key_inj & Ht')%list_elem_of_fmap]; [|done].
    destruct (Hwf t' ("__tag__:" +:+ t)) as [Htag _]; [by exists m|]. by rewrite prefix_append in Htag.
  - intros Ht. right. apply list_elem_of_fmap. by exists t.
Qed.

Lemma wp_evict_tags tags s :
  wpr (evict_tags key_prefix tags) s (λ o s', evicted tags o s s').
Proof.
  eapply wp_mono; [apply wp_evict_keys|]. intros [z|e] s' Hl; cbv beta iota zeta in Hl.
  - assert (∀ j, Decision (named tags s j)) as Hdec.
    { intros j. unfold Cache.named. apply list_exist_dec. intros t. apply tagged_with_dec. }
    split.
    + intros j Hj. destruct (Hl (_redis_key key_prefix j)) as [H1 H2].
      rewrite (gone_entry s tags j Hj) in H1, H2. destruct (decide (named tags s j)) as [Hn|Hn]; [left|right];
        (split; [done|]); unfold entries, entry_of; [by rewrite H1|by rewrite H2].
    + intros Hwf t j. destruct (Hl (_tag_key key_prefix t)) as [H1 H2].
      rewrite (gone_tag s tags t Hwf) in H1, H2. unfold indexed, tagged_with at 1.
      destruct (decide (t ∈ tags)) as [Ht|Ht].
      * rewrite H1 by done. split; [by intros (? & ? & _)|by intros []].
      * rewrite H2 by done. unfold tagged_with. tauto.
  - split.
    + intros j Hj. destruct (Hl (_redis_key key_prefix j)) as [Heq|[Hg Heq]]; unfold entries, entry_of;
        rewrite Heq; [by left|]. right. split; [by apply gone_entry|done].
    + intros t j (m & Hm & Hj). destruct (Hl (_tag_key key_prefix t)) as [Heq|[_ Heq]]; rewrite Heq in Hm; [|done].
      by exists m.
Qed.

(** *** [clear] *)

Lemma wp_redis_clear s :
  wpr (redis_clear key_prefix) s (λ o s', ∀ k,
    match o with
    | Ok _ => live (data s') k = if glob (key_prefix +:+ "*") k then None else live (data s) k
    | Raise _ => live (data s') k = live (data s) k ∨
                 glob (key_prefix +:+ "*") k = true ∧ live (data s') k = None
    end).
Proof.
  apply wp_pbind, wp_pbind, wp_ask_redis; cbv beta iota.
  2:{ intros s' Hd. apply wp_throw. intros k. left. by destruct Hd as [->|(r & -> & _)]. }
  intros r s1 (Hd1 & l & -> & Hl). apply wp_done.
  assert (∀ d k, d = data s → live (remove d l) k = if glob (key_prefix +:+ "*") k then None else live d k) as Hrem.
  { intros d k ->. rewrite live_remove. case_decide as Hk.
    - apply Hl in Hk as [_ Hg]. by rewrite Hg.
    - destruct (glob _ k) eqn:Hg; [|done]. destruct (live (data s) k) eqn:Hk'; [|done].
      destruct Hk. apply Hl. by rewrite Hk'. }
  apply wp_pbind. destruct l as [|n ns].
  - apply wp_done, wp_count. intros s2 Hd2 k. rewrite Hd2, Hd1, <- Hrem by done. rewrite live_remove.
    by rewrite decide_False by apply not_elem_of_nil.
  - apply wp_pbind, wp_client_delete; cbv beta iota.
    + intros s2 Hd2. apply wp_done, wp_count. intros s3 Hd3 k. rewrite Hd3, Hd2, Hd1. by apply Hrem.
    + intros s2 [-> | ->]; rewrite Hd1; [by left|]. intros k. rewrite Hrem by done.
      destruct (glob _ k); auto.
Qed.

(** *** [get_or_set] *)

(** A command on a lock leaves the entries and the tags. *)
Lemma lock_command_keeps c k (o : outcome unit raw) (s s' : host W A) :
  (∀ j, touches c j → j = _lock_key key_prefix k) →
  match o with
  | Ok r => redis_allows glob c (data s) r (data s')
  | Raise _ => at_most c (data s) (data s')
  end → same_cache s s'.
Proof.
  intros Hc Ho. apply (only_lock_same k), (at_most_only_key c); [done|]. destruct o; [right; eauto|done].
Qed.

Lemma wp_client_lock k token s (Q : outcome (cache_error X) bool → host W A → Prop) :
  (∀ o s', same_cache s s' → Q o s') →
  wpr (client_set_if_absent (_lock_key key_prefix k) token _lock_ttl_ms) s Q.
Proof.
  intros HQ. apply wp_pbind, wp_raw_command.
  - intros r s' Hr. assert (same_cache s s') as Hs.
    { eapply (lock_command_keeps _ k (Ok r)); [|exact Hr]. by intros j <-. }
    destruct r; (apply wp_done || apply wp_throw); by apply HQ.
  - intros s' Hr. apply HQ. eapply (lock_command_keeps _ k (Raise tt)); [|exact Hr]. by intros j <-.
Qed.
Lemma wp_client_unlock k s (Q : outcome (cache_error X) unit → host W A → Prop) :
  (∀ o s', same_cache s s' → Q o s') →
  wpr (client_delete [_lock_key key_prefix k] ;~ Done tt) s Q.
Proof.
  intros HQ. apply wp_pbind, wp_pbind, wp_raw_command.
  - intros r s' Hr. assert (same_cache s s') as Hs.
    { eapply (lock_command_keeps _ k (Ok r)); [|exact Hr]. by intros j ?%list_elem_of_singleton. }
    destruct r; (apply wp_done, wp_done || apply wp_throw); by apply HQ.
  - intros s' Hr. apply HQ. eapply (lock_command_keeps _ k (Raise tt)); [|exact Hr].
    by intros j ?%list_elem_of_singleton.
Qed.

(** Time only takes entries and tags away. *)
Lemma wp_sleep_decays d s (Q : outcome (cache_error X) unit → host W A → Prop) : (0 ≤ d)%Z →
  (∀ s', decayed s s' → Q (Ok tt) s') → wpr (ask (Sleep d)) s Q.
Proof.
  intros Hd HQ. apply HQ. assert (0 ≤ d / 1000)%Z by by apply Z.div_pos. split.
  - intros j Hj. unfold entries, data. cbn. rewrite pass_view. unfold entry_of.
    destruct (live_elapse (d / 1000) (view (server s)) (_redis_key key_prefix j)) as [-> | ->]; auto.
  - intros t j (m & Hm & Hj). unfold data in Hm. cbn in Hm. rewrite pass_view in Hm.
    destruct (live_elapse (d / 1000) (view (server s)) (_tag_key key_prefix t)) as [Heq|Heq]; try done;
      rewrite Heq in Hm; [done|by exists m].
Qed.

Section population.
Context (k : string) (Hk : usable k) (c : C) (ttl : CacheTTL) (tags : list string).

Lemma populated_raise e s s' : decayed s s' → populated k c tags (Raise e) s s'.
Proof. by left. Qed.

(** A population that began when time had passed, without an entry *)
Lemma populated_later o s s0 s' :
  entries s k = None → decayed s s0 → populated k c tags o s0 s' → populated k c tags o s s'.
Proof.
  intros Hn Hd. destruct o as [w|e].
  - intros [[Hw _]|(_ & s1 & s2 & Hd1 & Hrest)].
    + destruct (proj1 Hd k Hk) as [Heq|Heq]; congruence.
    + right. split; [done|]. exists s1, s2. split; [by eapply decayed_trans|done].
  - intros [Hd1|(s1 & r & s2 & Hd1 & Hrest)]; [left; by eapply decayed_trans|].
    right. exists s1, r, s2. split; [by eapply decayed_trans|done].
Qed.

Lemma miss_no_entry s : live (data s) (_redis_key key_prefix k) = None → entries s k = None.
Proof. unfold entries, entry_of. by intros ->. Qed.

(** The end of a population: the lock is released *)
Lemma populated_released o o' s s1 s' : populated k c tags o s s1 → same_cache s1 s' →
  o' = o ∨ (∃ e, o' = Raise e) → populated k c tags o' s s'.
Proof.
  intros Hp Hs [->|[e ->]].
  - destruct o as [w|e].
    + destruct Hp as [[Hw H1]|(Hn & s2 & s3 & Hd & Hn2 & Hrun & Hst)].
      * left. split; [done|]. by eapply same_cache_trans.
      * right. split; [done|]. exists s2, s3. split_and!; [done..|]. by eapply stored_same.
    + destruct Hp as [Hd|(s2 & r & s3 & Hd & Hn2 & Hrun & Hst)].
      * left. eapply decayed_trans; [exact Hd|by apply same_cache_decayed].
      * right. exists s2, r, s3. split_and!; [done..|].
        destruct r; [by eapply stored_same|by eapply same_cache_trans].
  - destruct o as [w|e'].
    + destruct Hp as [[Hw H1]|(Hn & s2 & s3 & Hd & Hn2 & Hrun & Hst)].
      * left. eapply same_cache_decayed, same_cache_trans; [exact H1|exact Hs].
      * right. exists s2, (Ok w), s3. split_and!; [done..|]. eapply stored_partly, stored_same; done.
    + destruct Hp as [Hd|(s2 & r & s3 & Hd & Hn2 & Hrun & Hst)].
      * left. eapply decayed_trans; [exact Hd|by apply same_cache_decayed].
      * right. exists s2, r, s3. split_and!; [done..|].
        destruct r; [eapply stored_partly, stored_same; done|by eapply same_cache_trans].
Qed.

Lemma wp_produce s :
  wpr (_produce_locked_value key_prefix k c ttl tags) s (λ o s', populated k c tags o s s').
Proof.
  apply wp_pfinally.
  apply (wp_mono _ _ _ (λ o s1, populated k c tags o s s1)).
  2:{ intros o s1 Hp. apply wp_client_unlock. intros o' s' Hs.
      destruct o'; (eapply populated_released; [exact Hp|exact Hs|eauto]). }
  apply wp_pbind, wp_redis_get; cbv beta iota.
  - intros s1 Hd Hl. pose proof (miss_no_entry s Hl) as Hn.
    assert (decayed s s1) as Hs1 by by apply same_cache_decayed, same_cache_data.
    assert (entries s1 k = None) as Hn1 by (unfold entries; by rewrite Hd).
    apply wp_pbind. unfold wp at 1. destruct (run handler (invoke c) s1) as [[w|x] s2] eqn:Hrun; cbn [fst snd].
    + apply wp_pbind. eapply wp_mono; [by apply wp_set_with_tags|]. intros [[]|e] s3 Hst; cbv beta iota.
      * apply wp_done. right. split; [done|]. exists s1, s2. by split_and!.
      * right. exists s1, (Ok w), s2. by split_and!.
    + right. exists s1, (Raise x), s2. split_and!; [done..|]. by apply same_cache_data.
  - intros s1 v Hd Hv. apply wp_done. left. split; [done|by apply same_cache_data].
  - intros s1 e Hd. by apply populated_raise, same_cache_decayed, same_cache_data.
Qed.

Lemma wp_wait fuel deadline s : entries s k = None →
  wpr (wait_until key_prefix fuel deadline k c ttl tags) s (λ o s', populated k c tags o s s').
Proof.
  revert s. induction fuel as [|fuel IH]; intros s Hn; cbn [wait_until].
  { by apply wp_throw, populated_raise, same_cache_decayed, same_cache_data. }
  apply wp_pbind. change (wpr (if (clock s <? deadline)%Z then
    cached <~ redis_get key_prefix k ;;
    match cached with
    | CacheHit v => Done v
    | CacheMiss =>
        token <~ ask Uuid ;;
        acquired <~ client_set_if_absent (_lock_key key_prefix k) token _lock_ttl_ms ;;
        if acquired : bool then _produce_locked_value key_prefix k c ttl tags
        else ask (Sleep 10000) ;~ wait_until key_prefix fuel deadline k c ttl tags
    end else Throw RedisCacheLockTimeoutError) s (λ o s', populated k c tags o s s')).
  destruct (clock s <? deadline)%Z; [|by apply wp_throw, populated_raise, same_cache_decayed, same_cache_data].
  apply wp_pbind, wp_redis_get; cbv beta iota.
  - intros s1 Hd _. apply same_cache_data in Hd.
    apply wp_pbind. change (wpr (acquired <~ client_set_if_absent (_lock_key key_prefix k) (uuid s1) _lock_ttl_ms ;;
        if acquired : bool then _produce_locked_value key_prefix k c ttl tags
        else ask (Sleep 10000) ;~ wait_until key_prefix fuel deadline k c ttl tags) s1
        (λ o s', populated k c tags o s s')).
    apply wp_pbind, wp_client_lock. intros [[]|e] s2 Hs2; cbv beta iota;
      (assert (decayed s s2) as Hd2 by (by eapply same_cache_decayed, same_cache_trans)).
    + eapply wp_mono; [apply wp_produce|]. intros o s'. by apply populated_later.
    + apply wp_pbind, wp_sleep_decays; [done|]. intros s3 Hs3.
      assert (decayed s s3) as Hd3 by by eapply decayed_trans.
      eapply wp_mono; [apply IH|].
      * destruct (proj1 Hd3 k Hk) as [-> |]; done.
      * intros o s'. by apply populated_later.
    + by apply populated_raise.
  - intros s1 v Hd Hv. congruence.
  - intros s1 e Hd. by apply populated_raise, same_cache_decayed, same_cache_data.
Qed.

Lemma wp_get_or_set s :
  wpr (get_or_set key_prefix k c ttl tags) s (λ o s', populated k c tags o s s').
Proof.
  apply wp_pbind, wp_redis_get; cbv beta iota.
  - intros s1 Hd Hl. pose proof (miss_no_entry s Hl) as Hn. apply same_cache_data in Hd.
    apply wp_pbind. change (wpr (acquired <~ client_set_if_absent (_lock_key key_prefix k) (uuid s1) _lock_ttl_ms ;;
        if acquired : bool then _produce_locked_value key_prefix k c ttl tags
        else ask (Count StampedeWaits) ;~ _wait_for_value_or_reacquire key_prefix k c ttl tags) s1
        (λ o s', populated k c tags o s s')).
    apply wp_pbind, wp_client_lock. intros [[]|e] s2 Hs2; cbv beta iota;
      (assert (decayed s s2) as Hd2 by (by eapply same_cache_decayed, same_cache_trans)).
    + eapply wp_mono; [apply wp_produce|]. intros o s'. by apply populated_later.
    + apply wp_pbind, wp_count. intros s3 Hd3%same_cache_data. apply wp_pbind.
      assert (decayed s s3) as Hs3 by (eapply decayed_trans; [exact Hd2|by apply same_cache_decayed]).
      apply (wp_mono _ _ _ (λ o s', populated k c tags o s3 s')); [|intros o s'; by apply populated_later].
      apply (wp_wait 3001 (clock s3 + 30000000)). destruct (proj1 Hs3 k Hk) as [-> |]; done.
    + by apply populated_raise.
  - intros s1 v Hd Hv. apply wp_done. left. split; [done|by apply same_cache_data].
  - intros s1 e Hd. by apply populated_raise, same_cache_decayed, same_cache_data.
Qed.
End population.

(** A backend whose prefix has no character that means something in a pattern
    keeps the contract of a cache. *)
Lemma redis_cache_contract : plain_prefix key_prefix →
  CacheContract handler usable entries indexed (RedisCache key_prefix).
Proof.
  intros Hp. split; cbn [RedisCache cache_get cache_set cache_delete cache_clear tagged stampede_protected].
  - intros k s Hk. apply wp_redis_get.
    + intros s' Hd Hl. split; [by apply same_cache_data|]. intros c [= <-]. unfold entries, entry_of. by rewrite Hl.
    + intros s' v Hd Hv. split; [by apply same_cache_data|]. intros c [= <-]. by rewrite Hv.
    + intros s' e Hd. split; [by apply same_cache_data|]. by intros c [=].
  - intros k v ttl s Hk. by apply wp_redis_set.
  - intros k s Hk. by apply wp_redis_delete.
  - intros s. eapply wp_mono; [apply wp_redis_clear|]. intros o s' Hl.
    assert (∀ n, glob (key_prefix +:+ "*") (key_prefix +:+ n) = true) as Hg.
    { intros n. by rewrite (glob_prefix _ _ Hp), prefix_append. }
    destruct o; split.
    + intros j Hj. unfold entries, entry_of.
      by rewrite (Hl (_redis_key key_prefix j)), (Hg j : glob _ (_redis_key key_prefix j) = true).
    + intros t j (m & Hm & _).
      by rewrite (Hl (_tag_key key_prefix t)), (Hg _ : glob _ (_tag_key key_prefix t) = true) in Hm.
    + intros j Hj. unfold entries, entry_of. destruct (Hl (_redis_key key_prefix j)) as [-> |[_ ->]]; auto.
    + intros t j (m & Hm & Hj). destruct (Hl (_tag_key key_prefix t)) as [Heq|[_ Heq]]; rewrite Heq in Hm; [by exists m|done].
  - intros t k v tags ttl s [= <-] Hk. by apply wp_set_with_tags.
  - intros t tags s [= <-]. apply wp_evict_tags.
  - intros g k c ttl tags s [= <-] Hk. by apply wp_get_or_set.
Qed.
End redis_contract.

(** ** Stampedes: many clients of one server

    The clients of [get_or_set] interleave their commands. A client whose next
    effect is a call of the application is inside that call. *)

Section stampede.
Context {C V X W : Type} `{Pickle V} `{RedisServer W}.
Context (key_prefix k : string).
(** The calls that produce the value of [k] *)
Context (populates : C → bool).

Abbreviation program := (prog (effect C V X) (cache_error X)).
Abbreviation lock := (_lock_key key_prefix k).
Abbreviation key := (_redis_key key_prefix k).

(** A client has not the lock, has it, or has it and found no entry since. *)
Inductive phase := Free | Held | Checked.
Global Instance phase_eq_dec : EqDecision phase.
Proof. solve_decision. Defined.

Definition next_command (t : phase) (c : command) : option (outcome unit raw → phase) :=
  match c with
  | GET n =>
      if decide (n = key) then
        Some (λ r, match t, r with Free, _ => Free | _, Ok R_none => Checked | _, _ => Held end)
      else Some (λ _, t)
  | SETNX n _ px =>
      if decide (n = lock) then
        match t, (0 <? px)%Z with
        | Free, true => Some (λ r, match r with Ok (R_bool true) => Held | _ => Free end)
        | _, _ => None
        end
      else if decide (n = key) then None else Some (λ _, t)
  | SET n _ _ =>
      if decide (n = key) then match t with Free => None | _ => Some (λ _, Held) end
      else if decide (n = lock) then None else Some (λ _, t)
  | DEL ns =>
      if decide (ns = [lock]) then match t with Free => None | _ => Some (λ _, Free) end
      else if decide (lock ∈ ns ∨ key ∈ ns) then None else Some (λ _, t)
  | SADD n _ => if decide (n = lock ∨ n = key) then None else Some (λ _, t)
  | PING | SMEMBERS _ | SCAN _ => Some (λ _, t)
  end.

Definition next (R : Type) (t : phase) (e : effect C V X R) : option (R → phase) :=
  match e with
  | Redis c => next_command t c
  | App c => if populates c then match t with Checked => Some (λ _, Held) | _ => None end else Some (λ _, t)
  | Count _ | Monotonic | Sleep _ | Uuid => Some (λ _, t)
  end.

(** One effect of a client on the shared server. A call of the application may
    answer anything, and keeps off the lock and the entry. *)
Definition elsewhere (w w' : W) : Prop :=
  live (view w') lock = live (view w) lock ∧ live (view w') key = live (view w) key.
Definition client_effect (R : Type) (e : effect C V X R) (w : W) (r : R) (w' : W) : Prop :=
  match e in effect _ _ _ R return R → Prop with
  | Redis c => λ r, exec c w = (r, w')
  | App _ => λ _, elsewhere w w'
  | Count _ | Monotonic | Sleep _ | Uuid => λ _, w' = w
  end r.

(** Time passes; [in_time]: no lock of [k] expires. *)
Definition time_passes (w w' : W) : Prop := ∃ d, (0 ≤ d)%Z ∧ w' = pass d w.
Definition in_time (w w' : W) : Prop :=
  time_passes w w' ∧ (is_Some (live (view w) lock) → is_Some (live (view w') lock)).
(** What happens besides: time passes, others use other keys. *)
Definition surroundings (time : W → W → Prop) (w w' : W) : Prop := time w w' ∨ elsewhere w w'.

Definition inside {A} (p : prog (effect C V X) (cache_error X) A) : Prop :=
  ∃ c cont, p = Do (App c) cont ∧ populates c = true.

Definition released {A} (o : outcome (cache_error X) A) (t : phase) : Prop := t = Free.

(** *** The clients follow the protocol of the lock *)

Lemma next_tag t tag ks : usable k → next_command t (SADD (_tag_key key_prefix tag) ks) = Some (λ _, t).
Proof.
  intros Hk. cbn. rewrite decide_False; [done|]. intros [Heq|Heq].
  - by apply (tag_key_not_lock key_prefix tag k).
  - by apply (redis_key_not_tag key_prefix k tag Hk).
Qed.
Lemma next_own_set t v px : t ≠ Free → next_command t (SET key v px) = Some (λ _, Held).
Proof. intros Ht. cbn. rewrite decide_True by done. by destruct t. Qed.
Lemma next_own_get t :
  next_command t (GET key) =
  Some (λ r, match t, r with Free, _ => Free | _, Ok R_none => Checked | _, _ => Held end).
Proof. cbn. by rewrite decide_True. Qed.

Lemma protocol_raw_command {A} c (f : raw → program A) t n Q :
  next_command t c = Some n → (∀ r, protocol next (f r) (n (Ok r)) Q) →
  Q (Raise RedisCacheOperationError) (n (Raise tt)) →
  protocol next (pbind (raw_command c) f) t Q.
Proof.
  intros Hn Hf HX. apply protocol_pbind. unfold raw_command, ask, perform. cbn. rewrite Hn.
  intros [r|[]]; [apply Hf|exact HX].
Qed.

Lemma protocol_ask {A R} (e : effect C V X R) (f : R → program A) t Q :
  next R t e = Some (λ _, t) → (∀ r, protocol next (f r) t Q) → protocol next (pbind (ask e) f) t Q.
Proof. intros Hn Hf. unfold ask, perform. cbn [pbind protocol]. by rewrite Hn. Qed.

(** Reading the entry; a miss under the lock is a check. *)
Lemma protocol_get t (Q : outcome (cache_error X) (CacheResult V) → phase → Prop) :
  (∀ o t', (t = Free → t' = Free) → (t ≠ Free → t' ≠ Free ∧ (o = Ok CacheMiss → t' = Checked)) → Q o t') →
  protocol next (redis_get key_prefix k) t Q.
Proof.
  intros HQ. apply protocol_pbind. eapply protocol_raw_command; [apply next_own_get| |].
  - intros [| b | | | | |]; cbn.
    + intros _. apply HQ; by destruct t.
    + intros _. unfold _deserialize. destruct (loads b); cbn; apply HQ; by destruct t.
    + apply HQ; by destruct t.
    + apply HQ; by destruct t.
    + apply HQ; by destruct t.
    + apply HQ; by destruct t.
    + apply HQ; by destruct t.
  - apply HQ; by destruct t.
Qed.

Lemma protocol_store v tags ttl t : usable k → t ≠ Free →
  protocol next (set_with_tags key_prefix k v tags ttl) t (λ _ t', t' ≠ Free).
Proof.
  intros Hk Ht. apply protocol_pbind, protocol_pbind. unfold _serialize.
  destruct (dumps v) as [b|]; cbn [protocol]; [|done].
  apply protocol_pbind. destruct (_ttl_ms ttl) as [px|]; cbn [from_outcome protocol]; [|done].
  apply protocol_pbind. unfold client_set. eapply protocol_raw_command; [by apply next_own_set| |done].
  intros r. cbn [protocol]. unfold ask, perform. cbn [protocol next]. intros _.
  eapply protocol_mono; [|apply protocol_pfor; intros tag _].
  - by intros o t' ->.
  - cbv beta. apply protocol_pbind. eapply protocol_raw_command; [by apply next_tag| |done].
    intros r'. by destruct r'.
Qed.

Lemma protocol_produce c ttl tags t : usable k → t ≠ Free →
  protocol next (_produce_locked_value key_prefix k c ttl tags) t released.
Proof.
  intros Hk Ht. apply protocol_pfinally.
  assert (∀ t' (Q : outcome (cache_error X) unit → phase → Prop), t' ≠ Free → (∀ o, Q o Free) →
    protocol next (client_delete [lock] ;~ Done tt) t' Q) as Hunlock.
  { intros t' Q Ht' HQ. apply protocol_pbind. eapply protocol_raw_command.
    - cbn. rewrite decide_True by done. by destruct t'.
    - intros r. destruct r; cbn; apply HQ.
    - apply HQ. }
  cut (protocol next
    (second_check <~ redis_get key_prefix k ;;
     match second_check with
     | CacheHit v => Done v
     | CacheMiss => v <~ invoke c ;; set_with_tags key_prefix k v tags ttl ;~ Done v
     end) t (λ _ t', t' ≠ Free)).
  { apply protocol_mono. intros o t' Ht'. apply Hunlock; [done|]. by intros []. }
  apply protocol_pbind, protocol_get. intros o t' _ [Ht' Hmiss]; [done|].
  destruct o as [[v|]|e]; cbn [protocol]; [done| |done]. rewrite (Hmiss eq_refl).
  apply protocol_pbind. unfold invoke, ask, perform. cbn.
  assert (∀ t2 v, t2 ≠ Free → protocol next (set_with_tags key_prefix k v tags ttl ;~ Done v) t2
    (λ _ t3, t3 ≠ Free)) as Hstore.
  { intros t2 v Ht2. apply protocol_pbind. eapply protocol_mono; [|by apply protocol_store].
    by intros []. }
  destruct (populates c); intros [v|x]; cbn [pbind protocol]; try done; by apply Hstore.
Qed.

Lemma protocol_acquire token (Q : outcome (cache_error X) bool → phase → Prop) :
  Q (Ok true) Held → (∀ o, o ≠ Ok true → Q o Free) →
  protocol next (client_set_if_absent lock token _lock_ttl_ms) Free Q.
Proof.
  intros HT HF. eapply protocol_raw_command.
  - cbn. by rewrite decide_True.
  - intros [| | [] | | | |]; cbn; try by apply HF. exact HT.
  - by apply HF.
Qed.

Lemma protocol_wait fuel deadline c ttl tags : usable k →
  protocol next (wait_until key_prefix fuel deadline k c ttl tags) Free released.
Proof.
  intros Hk. induction fuel as [|fuel IH]; cbn [wait_until]; [done|].
  apply protocol_ask; [done|]. intros t. destruct (t <? deadline)%Z; [|done].
  apply protocol_pbind, protocol_get. intros o t' Hf _. rewrite (Hf eq_refl).
  destruct o as [[v|]|e]; [done| |done]. apply protocol_ask; [done|]. intros token.
  apply protocol_pbind, protocol_acquire; [by apply protocol_produce|].
  intros [[]|e] Ho; [done| |done]. by apply protocol_ask.
Qed.

Lemma protocol_get_or_set c ttl tags : usable k →
  protocol next (get_or_set key_prefix k c ttl tags) Free released.
Proof.
  intros Hk. apply protocol_pbind, protocol_get. intros o t' Hf _. rewrite (Hf eq_refl).
  destruct o as [[v|]|e]; [done| |done]. apply protocol_ask; [done|]. intros token.
  apply protocol_pbind, protocol_acquire; [by apply protocol_produce|].
  intros [[]|e] Ho; [done| |done]. apply protocol_ask; [done|]. intros _.
  apply protocol_ask; [done|]. intros t. by apply protocol_wait.
Qed.

(** *** Mutual exclusion *)

Definition request : Type := C * CacheTTL * list string.
Definition client (r : request) : program V := get_or_set key_prefix k r.1.1 r.1.2 r.2.

(** The phases of the clients: at most one has the lock, which is on the server,
    and a client that found no entry under the lock is right. *)
Definition phases_ok (w : W) (ts : list phase) : Prop :=
  (∀ i j t t', ts !! i = Some t → ts !! j = Some t' → t ≠ Free → t' ≠ Free → i = j) ∧
  (∀ i t, ts !! i = Some t → t ≠ Free → is_Some (live (view w) lock)) ∧
  (∀ i, ts !! i = Some Checked → live (view w) key = None).
Definition exclusive (c : list (program V) * W) : Prop :=
  ∃ ts, Forall2 (λ p t, protocol next p t released) c.1 ts ∧ phases_ok c.2 ts.

(** The server changed, the phases did not. *)
Lemma phases_ok_server w w' ts :
  (is_Some (live (view w) lock) → is_Some (live (view w') lock)) →
  (live (view w) key = None → live (view w') key = None) →
  phases_ok w ts → phases_ok w' ts.
Proof.
  intros Hl Hk (H1 & H2 & H3). split_and!; [done| |].
  - intros i t Hi Ht. by apply Hl, (H2 i t).
  - intros i Hi. by apply Hk, (H3 i).
Qed.

(** One client moved. *)
Record legal (w : W) (t : phase) (w' : W) (t' : phase) : Prop := mk_legal {
  legal_lock : t' ≠ Free → (t ≠ Free → is_Some (live (view w) lock)) → is_Some (live (view w') lock);
  legal_check : t' = Checked → (t = Checked → live (view w) key = None) → live (view w') key = None;
  legal_acquire : t' ≠ Free → t ≠ Free ∨ live (view w) lock = None;
  legal_keeps_lock : t = Free → is_Some (live (view w) lock) → is_Some (live (view w') lock);
  legal_keeps_miss : t = Free → live (view w) key = None → live (view w') key = None;
}.

Lemma phases_ok_move w ts i t w' t' :
  phases_ok w ts → ts !! i = Some t → legal w t w' t' → phases_ok w' (<[i := t']> ts).
Proof.
  intros (H1 & H2 & H3) Hi [Hl Hc Ha Hkl Hkm].
  assert (∀ j u, (<[i := t']> ts) !! j = Some u → u ≠ Free → j = i ∧ u = t' ∨
            j ≠ i ∧ ts !! j = Some u ∧ t = Free ∧ t' = Free) as Hother.
  { intros j u Hj Hu. destruct (decide (j = i)) as [->|Hji].
    - rewrite list_lookup_insert_eq in Hj by (by eapply lookup_lt_Some). naive_solver.
    - rewrite list_lookup_insert_ne in Hj by done. right. split_and!; [done..| |].
      + destruct (decide (t = Free)) as [|Ht]; [done|]. by destruct Hji, (H1 j i u t Hj Hi Hu Ht).
      + destruct (decide (t' = Free)) as [|Ht']; [done|]. destruct (Ha Ht') as [Ht|Hn].
        * by destruct Hji, (H1 j i u t Hj Hi Hu Ht).
        * destruct (H2 j u Hj Hu) as [x Hx]. congruence. }
  split_and!.
  - intros j j' u u' Hj Hj' Hu Hu'.
    destruct (Hother j u Hj Hu) as [[-> ->]|(Hji & Hj2 & Ht & Ht')];
    destruct (Hother j' u' Hj' Hu') as [[-> ->]|(Hji' & Hj2' & Ht2 & Ht2')]; try done. by apply (H1 j j' u u').
  - intros j u Hj Hu. destruct (Hother j u Hj Hu) as [[-> ->]|(Hji & Hj2 & Ht & Ht')].
    + apply Hl; [done|]. intros Ht. by apply (H2 i t).
    + apply Hkl; [done|]. by apply (H2 j u).
  - intros j Hj. destruct (Hother j Checked Hj ltac:(done)) as [[-> <-]|(Hji & Hj2 & Ht & Ht')].
    + apply Hc; [done|]. intros ->. by apply (H3 i).
    + apply Hkm; [done|]. by apply (H3 j).
Qed.

Lemma legal_untouched w w' t :
  live (view w') lock = live (view w) lock → live (view w') key = live (view w) key → legal w t w' t.
Proof. intros Hl Hk. split; rewrite ?Hl, ?Hk; auto. Qed.
Lemma key_not_lock : usable k → key ≠ lock.
Proof. intros Hk. by apply redis_key_not_lock. Qed.

(** What a command leaves of the lock and the entry, whether it fails or not *)
Lemma exec_untouched c w r w' j :
  exec c w = (r, w') → ¬ touches c j → live (view w') j = live (view w) j.
Proof.
  intros He Hj. destruct r as [r|[]].
  - apply exec_answers in He. by eapply allowed_untouched.
  - apply exec_fails in He. by eapply at_most_untouched.
Qed.

Lemma exec_set w n b px r w' : exec (SET n b px) w = (r, w') →
  view w' = view w ∨ view w' = put (view w) n b px.
Proof.
  intros He. destruct r as [r|[]].
  - apply exec_answers in He as [_ He]. by right.
  - apply exec_fails in He as [He|(r & _ & He)]; auto.
Qed.

(** A client that has the lock keeps it; it may lose its check. *)
Lemma legal_held w w' t : t ≠ Free → live (view w') lock = live (view w) lock → legal w t w' Held.
Proof. intros Ht Hl. split; rewrite ?Hl; auto; done. Qed.
(** The check *)
Lemma legal_checked w w' t : t ≠ Free →
  live (view w') lock = live (view w) lock → live (view w') key = None → legal w t w' Checked.
Proof. intros Ht Hl Hk. split; rewrite ?Hl; auto; done. Qed.
(** The acquisition *)
Lemma legal_acquired w w' : live (view w) lock = None → is_Some (live (view w') lock) →
  live (view w') key = live (view w) key → legal w Free w' Held.
Proof. intros Hn Hl Hk. split; rewrite ?Hk; auto; done. Qed.
(** The release, and an acquisition that fails *)
Lemma legal_free w w' t :
  (t = Free → is_Some (live (view w) lock) → is_Some (live (view w') lock)) →
  live (view w') key = live (view w) key → legal w t w' Free.
Proof. intros Hl Hk. split; rewrite ?Hk; auto; done. Qed.

Lemma legal_command c w r w' t n : usable k →
  next_command t c = Some n → exec c w = (r, w') → legal w t w' (n r).
Proof.
  intros Hk Hn He. pose proof (key_not_lock Hk) as Hne.
  assert (∀ j, ¬ touches c j → live (view w') j = live (view w) j) as Hu by (intros; by eapply exec_untouched).
  assert (¬ touches c lock → ¬ touches c key → legal w t w' t) as Hsame.
  { intros ??. apply legal_untouched; by apply Hu. }
  destruct c as [|j|j v px|j v px|ks|j vs|j|p]; cbn in Hn, Hsame.
  all: try by (injection Hn as <-; apply Hsame; intros []).
  - destruct (decide (j = key)) as [->|Hjk]; injection Hn as <-; [|by apply Hsame; intros []].
    assert (live (view w') lock = live (view w) lock) as Hl by (apply Hu; intros []).
    destruct t; [by apply Hsame; intros []|..]; (destruct r as [[]|]; try by apply legal_held).
    + apply exec_answers in He as [Hv Hr]. destruct (live (view w) key) as [[]|] eqn:Hm; try done.
      apply legal_checked; [done|by rewrite Hv|by rewrite Hv].
    + apply exec_answers in He as [Hv Hr]. destruct (live (view w) key) as [[]|] eqn:Hm; try done.
      apply legal_checked; [done|by rewrite Hv|by rewrite Hv].
  - destruct (decide (j = key)) as [->|Hjk].
    + assert (t ≠ Free ∧ n = λ _, Held) as [Ht ->] by (by destruct t; simplify_eq).
      apply legal_held; [done|]. by apply Hu.
    + destruct (decide (j = lock)); [done|]. injection Hn as <-. by apply Hsame.
  - destruct (decide (j = lock)) as [->|Hjl].
    + destruct t; try done. destruct (Z.ltb_spec 0 px) as [Hpx|]; [|done]. injection Hn as <-.
      assert (live (view w') key = live (view w) key) as Hkey by (apply Hu; by apply not_eq_sym).
      assert (is_Some (live (view w) lock) → is_Some (live (view w') lock)) as Hkeep.
      { intros [x Hx]. destruct r as [r|[]].
        - apply exec_answers in He. cbn in He. rewrite Hx in He. destruct He as [_ ->]. eauto.
        - apply exec_fails in He as [->|(r & He)]; [eauto|]. cbn in He. rewrite Hx in He.
          destruct He as [_ ->]. eauto. }
      destruct r as [[| | [] | | | |]|]; try by apply legal_free.
      apply exec_answers in He. cbn in He. destruct (live (view w) lock) as [x|] eqn:Hl; [by destruct He|].
      apply legal_acquired; [done| |done]. destruct He as [_ ->].
      rewrite live_put_eq by done. by eexists.
    + destruct (decide (j = key)); [done|]. injection Hn as <-. by apply Hsame.
  - destruct (decide (ks = [lock])) as [->|Hks].
    + assert (t ≠ Free ∧ n = λ _, Free) as [Ht ->] by (by destruct t; simplify_eq).
      apply legal_free; [done|]. apply Hu. cbn. by intros ?%list_elem_of_singleton.
    + destruct (decide (lock ∈ ks ∨ key ∈ ks)); [done|]. injection Hn as <-. apply Hsame; naive_solver.
  - destruct (decide (j = lock ∨ j = key)); [done|]. injection Hn as <-. apply Hsame; naive_solver.
Qed.

Lemma exclusive_step : usable k → ∀ c c',
  pool_step client_effect (surroundings in_time) c c' → exclusive c → exclusive c'.
Proof.
  intros Hk c c' Hstep (ts & Hts & Hok). destruct Hstep as [ps i R e cont w r w' Hi He|ps w w' He].
  - cbn in Hts, Hok. destruct (Forall2_lookup_l _ _ _ _ _ Hts Hi) as (t & Ht & Hp).
    cbn [protocol] in Hp. destruct (next R t e) as [n|] eqn:Hn; [|done].
    exists (<[i := n r]> ts). split; [by apply Forall2_insert|].
    apply (phases_ok_move w ts i t); [done..|].
    destruct e as [c|m| |d| |c]; cbn in Hn, He;
      try (injection Hn as <-; subst w'; by apply legal_untouched).
    + by eapply legal_command.
    + destruct He as [Hl Hkey]. destruct (populates c); [|injection Hn as <-; by apply legal_untouched].
      destruct t; try done. injection Hn as <-. by apply legal_held.
  - exists ts. split; [done|]. cbn in Hok |- *. destruct He as [[(d & Hd & ->) Hl]|[Hl Hkey]].
    + apply (phases_ok_server w); [exact Hl| |done]. intros Hn. rewrite pass_view.
      destruct (live_elapse d (view w) key Hd) as [Hn'|Hn']; [done|congruence].
    + apply (phases_ok_server w); [by rewrite Hl|by rewrite Hkey|done].
Qed.

Lemma exclusive_start reqs w : usable k → exclusive (client <$> reqs, w).
Proof.
  intros Hk. exists (replicate (length reqs) Free). split; cbn.
  - apply Forall2_fmap_l. induction reqs as [|r reqs IH]; cbn; constructor; [|done].
    by apply protocol_get_or_set.
  - split_and!; intros i; [intros j t t' [-> _]%lookup_replicate|intros t [-> _]%lookup_replicate|
      intros [? _]%lookup_replicate]; done.
Qed.

Lemma inside_phase (p : program V) t : protocol next p t released → inside p → t = Checked.
Proof. intros Hp (c & cont & -> & Hc). cbn in Hp. rewrite Hc in Hp. by destruct t. Qed.

(** C7. The lock of the cache serialises the population of a key: whatever
    clients of [get_or_set] ask for the same key at once, in whatever order the
    server executes their commands, and whichever commands fail, at most one of
    them is inside the call that produces the value, and then the server holds no
    entry for the key, as long as no lock expires and others keep off the entry
    and its lock. *)
Theorem one_client_populates reqs w ps w' : usable k →
  pool_steps client_effect (surroundings in_time) (client <$> reqs, w) (ps, w') →
  (∀ i j p q, ps !! i = Some p → ps !! j = Some q → inside p → inside q → i = j) ∧
  (∀ i p, ps !! i = Some p → inside p → live (view w') key = None).
Proof.
  intros Hk Hsteps.
  destruct (pool_invariant _ _ exclusive (exclusive_step Hk) _ _ Hsteps (exclusive_start reqs w Hk))
    as (ts & Hts & H1 & _ & H3).
  assert (∀ i p, ps !! i = Some p → inside p → ts !! i = Some Checked) as Hin.
  { intros i p Hi Hp. destruct (Forall2_lookup_l _ _ _ _ _ Hts Hi) as (t & Ht & Hpt).
    by rewrite <- (inside_phase p t Hpt Hp). }
  split; [|intros i p Hi Hp; by apply (H3 i), (Hin i p)].
  intros i j p q Hi Hj Hp Hq. by apply (H1 i j Checked Checked); [by apply (Hin i p)|by apply (Hin j q)|..].
Qed.
End stampede.

(** ** The aspect *)

Section aspect_facts.
Context {C V X S : Type} (run_effect : ∀ R, effect C V X R → S → R * S).
Context (usable : string → Prop) (entries : S → string → option V).
Context (indexed : S → string → string → Prop).
Context (cache : ICache C V X) `{!CacheContract run_effect usable entries indexed cache}.
Context (format_key : string → list V → list (string * V) → option string).
Context (repr_args : list V → option string) (repr_kwargs : list (string * V) → option string).

Abbreviation around := (around format_key repr_args repr_kwargs).
Abbreviation _key_from_call := (_key_from_call format_key repr_args repr_kwargs).
Abbreviation holds G := (coherent usable entries G).

Lemma contract_get_triple (G : string → V → Prop) k : usable k →
  triple (holds G) (λ c, match c with CacheHit v => G k v | CacheMiss => True end) (λ _, True)
    (run run_effect (cache_get cache k)).
Proof.
  intros Hk. apply wp_triple. intros s Hs. eapply wp_mono; [by apply get_contract|].
  intros o s' [He Ho]. split; [by eapply coherent_decayed, same_cache_decayed|].
  destruct o as [c|]; [|done]. rewrite (Ho c eq_refl). destruct (entries s k) eqn:Hv; [by apply Hs|done].
Qed.
(** Storing a good value keeps the cache coherent. *)
Lemma contract_store_triple (G : string → V → Prop) k v tags (p : prog (effect C V X) (cache_error X) unit) :
  G k v → (∀ s, wp run_effect p s (λ o s', stored usable entries indexed k v tags o s s')) →
  triple (holds G) (λ _, True) (λ _, True) (run run_effect p).
Proof.
  intros Hv Hp. apply wp_triple. intros s Hs. eapply wp_mono; [apply Hp|].
  intros o s' Ho. split; [exact (coherent_stored usable entries indexed G k v tags o s s' Hv Hs Ho)|by destruct o].
Qed.

(** Caching is transparent: with any backend that keeps the contract of a
    cache, when the results a method gives for a key are all good and the cache
    holds good results only, a call of the annotated method, if it returns,
    returns a good result, from the cache or from the method, and the cache
    holds good results only again, also when the call raises. *)
Theorem cached_call_is_coherent (G : string → V → Prop) (m : method C V) c args kwargs k :
  cache_evict m = None → cacheable m = Some c →
  _key_from_call m (cacheable_key c) args kwargs = (Done k : prog (effect C V X) (cache_error X) string) →
  usable k →
  triple (holds G) (G k) (λ _, True) (run run_effect (invoke (joinpoint m args kwargs))) →
  triple (holds G) (G k) (λ _, True) (run run_effect (around cache m args kwargs)).
Proof.
  intros He Hc Hkey Hk Hcall. unfold Cache.around. rewrite He, Hc. unfold around_cacheable. rewrite Hkey.
  cbn [pbind]. destruct (stampede_protected cache) as [g|] eqn:Hg.
  { apply wp_triple. intros s Hs. eapply wp_mono; [by eapply stampede_contract|].
    intros o s' Hp. destruct (populated_coherent run_effect usable entries indexed G k _ _ o s s' Hk Hs Hcall Hp).
    by destruct o. }
  assert (∀ store : V → prog (effect C V X) (cache_error X) unit, (∀ v, G k v → triple (holds G) (λ _, True) (λ _, True) (run run_effect (store v))) →
    triple (holds G) (G k) (λ _, True) (run run_effect
      (cached <~ cache_get cache k ;;
       match cached with
       | CacheHit v => Done v
       | CacheMiss => v <~ invoke (joinpoint m args kwargs) ;; store v ;~ Done v
       end))) as Hmiss.
  { intros store Hstore. eapply triple_pbind; [by apply contract_get_triple|].
    intros [v|] Hv; [by apply (triple_ret _ _ (G k) v)|].
    eapply triple_pbind; [exact Hcall|]. intros v Hv'.
    eapply triple_pbind; [by apply Hstore|]. intros _ _. by apply (triple_ret _ _ (G k) v). }
  destruct (cacheable_tags c) as [|tag tags].
  - apply Hmiss. intros v Hv. eapply (contract_store_triple G k v); [done|]. intros s. by apply set_contract.
  - destruct (tagged cache) as [t|] eqn:Ht; [|by apply (triple_raise _ (λ _, True))].
    apply Hmiss. intros v Hv. eapply (contract_store_triple G k v); [done|].
    intros s. by apply (set_with_tags_contract run_effect usable entries indexed t).
Qed.

(** Eviction follows success: when the annotated method raises, its
    exception is raised and the cache is not called; when it returns and the
    eviction does not fail, its result is returned, the entry of its key is gone
    and no entry was added or changed. *)
Theorem eviction_follows_success (m : method C V) e template args kwargs k s :
  cache_evict m = Some e → evict_key e = Some template →
  _key_from_call m (Some template) args kwargs = (Done k : prog (effect C V X) (cache_error X) string) →
  usable k →
  match run run_effect (invoke (joinpoint m args kwargs)) s with
  | (Raise x, s1) => run run_effect (around cache m args kwargs) s = (Raise x, s1)
  | (Ok v, s1) =>
      wp run_effect (around cache m args kwargs) s (λ o s',
        (∀ j, usable j → entries s' j = entries s1 j ∨ entries s' j = None) ∧
        match o with Ok w => w = v ∧ entries s' k = None | Raise _ => True end)
  end.
Proof.
  intros He Hkey Hk Husable. unfold Cache.around. rewrite He. unfold around_evict. rewrite Hkey, Hk.
  destruct (run run_effect (invoke (joinpoint m args kwargs)) s) as [[v|x] s1] eqn:Hrun.
  2:{ rewrite (run_pbind run_effect (invoke _) _ s). unfold bind. by rewrite Hrun. }
  apply wp_pbind. unfold wp at 1. rewrite Hrun. cbn [fst snd pbind].
  apply wp_pbind, wp_pbind. eapply wp_mono; [by apply delete_contract|].
  assert (∀ s2 : S, (∀ j, usable j → j ≠ k → entries s2 j = entries s1 j) →
    entries s2 k = entries s1 k ∨ entries s2 k = None →
    ∀ j, usable j → entries s2 j = entries s1 j ∨ entries s2 j = None) as Hall.
  { intros s2 Hne Heq j Hj. destruct (decide (j = k)) as [->|Hjk]; [done|]. left. by apply Hne. }
  intros [b|x] s2 (Hne & _ & Ho); [|split; [by apply Hall|done]]. destruct Ho as [Ho _]. apply wp_done, wp_pbind.
  assert (∀ j, usable j → entries s2 j = entries s1 j ∨ entries s2 j = None) as H2.
  { apply Hall; [done|by right]. }
  destruct (evict_tag_names e) as [|tag tags]; [by apply wp_done|].
  destruct (tagged cache) as [t|] eqn:Ht; [|by apply wp_throw].
  apply wp_pbind. eapply wp_mono; [by apply (evict_tags_contract run_effect usable entries indexed t)|].
  intros o s3 H3. cbv beta in H3. pose proof (evicted_decayed usable entries indexed _ o s2 s3 H3) as H3'. clear H3. rename H3' into H3.
  assert (∀ j, usable j → entries s3 j = entries s1 j ∨ entries s3 j = None) as H31.
  { intros j Hj. destruct (H3 j Hj) as [-> |]; auto. }
  destruct o; [apply wp_done, wp_done|]; (split; [done|]); [|done]. split; [done|].
  destruct (H3 k Husable) as [-> |]; done.
Qed.

(** [@cache_evict()] evicts nothing: without a key and without tags the
    annotated method is just called, although a default key is derived for
    [@cacheable()] without a key. *)
Theorem evict_without_key_evicts_nothing (m : method C V) args kwargs s :
  cache_evict m = Some (mk_evict None []) →
  run run_effect (around cache m args kwargs) s = run run_effect (invoke (joinpoint m args kwargs)) s.
Proof.
  intros He. unfold Cache.around. rewrite He. unfold around_evict. cbn [evict_key evict_tag_names].
  rewrite (run_pbind run_effect (invoke _) _ s). unfold bind.
  by destruct (run run_effect (invoke (joinpoint m args kwargs)) s) as [[v|x] s1].
Qed.
End aspect_facts.

(** The default key does not depend on the order of the keyword arguments. *)
Definition kwarg_le {V} (a b : string * V) : bool := str_leb a.1 b.1.

(** ** The Redis cache *)

Section redis_facts.
Context {C V X W A : Type} `{Pickle V} `{RedisServer W}.
Context (app_call : C → host W A → outcome X V * host W A) (uuid : host W A → string).
Context (key_prefix : string).

Abbreviation program := (prog (effect C V X) (cache_error X)).
Abbreviation handler := (handle app_call uuid).


(** Clearing the cache removes what the pattern of its prefix matches, and
    nothing else of what the server holds: exactly the keys that start with the
    prefix, when the prefix has no character special in a pattern. *)
Theorem clear_removes_the_prefix s : plain_prefix key_prefix →
  wp handler (redis_clear key_prefix) s (λ o s', o = Ok tt → ∀ k,
    live (data s') k = if String.prefix key_prefix k then None else live (data s) k).
Proof.
  intros Hp. eapply wp_mono; [apply wp_redis_clear|]. intros o s' Ho -> k. specialize (Ho k). cbn in Ho.
  by rewrite (glob_prefix _ _ Hp) in Ho.
Qed.

(** *** Tags *)

(** The tag index is kept by what the cache does but evictions. *)
Definition keeps_tags (p : program unit) : Prop :=
  ∀ s t k, tagged_with key_prefix (data s) t k →
    wp handler p s (λ _ s', tagged_with key_prefix (data s') t k).

Lemma keeps_tags_stored (p : program unit) k v tags :
  (∀ s, wp handler p s (λ o s', stored usable (entries key_prefix) (indexed key_prefix) k v tags o s s')) →
  keeps_tags p.
Proof.
  intros Hp s t j Hj. eapply wp_mono; [apply Hp|]. intros o s' [_ Ho]. destruct o.
  - apply Ho. by left.
  - by apply Ho.
Qed.
Lemma keeps_tags_set k v ttl : usable k → keeps_tags (redis_set key_prefix k v ttl).
Proof. intros Hk. eapply keeps_tags_stored. intros s. by apply wp_redis_set. Qed.
Lemma keeps_tags_set_with_tags k v tags ttl : usable k → keeps_tags (set_with_tags key_prefix k v tags ttl).
Proof. intros Hk. eapply keeps_tags_stored. intros s. by apply wp_set_with_tags. Qed.

(** An eviction by tag reaches every entry that was stored with the tag:
    after [set_with_tags] and anything that keeps the tag index, other entries
    and tags included, [evict_tags] with one of the tags leaves no entry for the
    key, also when the key was stored again since, with other tags. *)
Theorem tag_eviction_reaches_entry k v tags ttl between ts t s :
  usable k → t ∈ tags → t ∈ ts → keeps_tags between →
  wp handler (set_with_tags key_prefix k v tags ttl ;~ between ;~ evict_tags key_prefix ts) s
    (λ o s', ∀ n, o = Ok n → entries key_prefix s' k = None).
Proof.
  intros Hk Ht Hts Hb. apply wp_pbind. eapply wp_mono; [by apply wp_set_with_tags|].
  intros [[]|e] s1 [_ H1]; [|done]. destruct H1 as [_ H1].
  apply wp_pbind. eapply wp_mono; [apply (Hb s1 t k), H1; auto|]. intros [[]|e] s2 H2; [|done].
  eapply wp_mono; [apply wp_evict_tags|]. intros o s3 H3 n ->. destruct H3 as [H3 _].
  destruct (H3 k Hk) as [[_ ?]|[Hn _]]; [done|]. destruct Hn. by exists t.
Qed.

(** *** The waiting ends *)

Definition within_fuel (e : cache_error X) : Prop := e ≠ Out_of_fuel.

(** Takes no time and does not run out of fuel. *)
Definition calm {B} (p : program B) : Prop :=
  ∀ t, triple (λ s, clock s = t) (λ _, True) within_fuel (run handler p).
Definition ends {B} (p : program B) : Prop := triple (λ _, True) (λ _, True) within_fuel (run handler p).

Lemma calm_ends {B} (p : program B) : calm p → ends p.
Proof. intros Hp s _. destruct (Hp (clock s) s eq_refl) as [_ H']. by split. Qed.
Lemma calm_done {B} (b : B) : calm (Done b).
Proof. intros t. by apply (triple_ret (λ s, clock s = t) within_fuel (λ _, True) b). Qed.
Lemma calm_throw {B} e : within_fuel e → calm (Throw e : program B).
Proof. intros He t. by apply triple_raise. Qed.
Lemma calm_pbind {B B'} (p : program B) (f : B → program B') : calm p → (∀ b, calm (f b)) → calm (pbind p f).
Proof. intros Hp Hf t. eapply triple_pbind; [apply Hp|]. intros b _. apply Hf. Qed.
Lemma ends_pbind {B B'} (p : program B) (f : B → program B') : ends p → (∀ b, ends (f b)) → ends (pbind p f).
Proof. intros Hp Hf. eapply triple_pbind; [apply Hp|]. intros b _. apply Hf. Qed.
Lemma calm_ask {R} (e : effect C V X R) :
  match e with Sleep _ | App _ => False | _ => True end → calm (ask e).
Proof.
  intros He t. apply wp_triple. intros s Hs. unfold wp, ask, perform.
  destruct e; cbn; try done. by destruct (exec c (server s)) as [r w].
Qed.

Local Ltac calm := repeat first
  [ done | progress intros | apply calm_pbind | apply calm_done | apply calm_throw | by apply calm_ask
  | match goal with |- calm (match ?x with _ => _ end) => destruct x end ].

Lemma calm_get k : calm (redis_get key_prefix k).
Proof. unfold redis_get, client_get, raw_command, _deserialize. calm. Qed.
Lemma calm_lock k token px : calm (client_set_if_absent (_lock_key key_prefix k) token px).
Proof. unfold client_set_if_absent, raw_command. calm. Qed.
Lemma calm_delete names : calm (client_delete names).
Proof. unfold client_delete, raw_command, narrow_int. calm. Qed.
Lemma ends_invoke c : ends (invoke c).
Proof.
  intros s _. split; [done|]. unfold invoke, ask, perform. cbn.
  destruct (app_call c s) as [[v|x] s']; done.
Qed.
Lemma ttl_error_within_fuel t e : @_ttl_ms X t = Raise e → within_fuel e.
Proof.
  assert (∀ x e, @int_of_float X x = Raise e → within_fuel e) as Hint by (by intros [] ? [= <-]).
  assert (∀ e, @ttl_seconds X t = Raise e → within_fuel e) as Hs.
  { destruct t; cbn; try done. intros e'. by destruct (float_of_int n); intros [= <-]. }
  unfold _ttl_ms. destruct t; [done|..];
    (intros [H1|(y & _ & [H2|(u & _ & [H3|(m & _ & H4)]%outcome_bind_Raise)]%outcome_bind_Raise)]%outcome_bind_Raise;
     [by apply Hs|unfold check in H2; case_match; [by injection H2 as <-|done]|by eapply Hint|done]).
Qed.
Lemma ends_store k v tags ttl : ends (set_with_tags key_prefix k v tags ttl).
Proof.
  apply calm_ends, calm_pbind.
  - unfold redis_set, _serialize, client_set, raw_command, from_outcome.
    pose proof (ttl_error_within_fuel ttl) as Ht.
    destruct (_ttl_ms ttl) as [px|e]; [|specialize (Ht e eq_refl)]; calm.
  - intros _. induction tags as [|t tags IH]; cbn [pfor]; [apply calm_done|].
    unfold client_add_set_members, raw_command, narrow_int in *. apply calm_pbind; [calm|done].
Qed.

Lemma ends_produce k c ttl tags : ends (_produce_locked_value key_prefix k c ttl tags).
Proof.
  apply triple_pfinally; [|apply calm_ends, calm_pbind; [apply calm_delete|intros; apply calm_done]].
  apply ends_pbind; [apply calm_ends, calm_get|]. intros [v|]; [apply calm_ends, calm_done|].
  apply ends_pbind; [apply ends_invoke|]. intros v.
  apply ends_pbind; [apply ends_store|]. intros _. apply calm_ends, calm_done.
Qed.

Definition in_fuel {B} (o : outcome (cache_error X) B) (_ : host W A) : Prop :=
  match o with Ok _ => True | Raise e => within_fuel e end.

Lemma wp_ends {B} (p : program B) s : ends p → wp handler p s in_fuel.
Proof. intros Hp. destruct (Hp s I) as [_ Ho]. unfold wp. by destruct (run handler p s) as [[] s']. Qed.
Lemma wp_calm {B B'} (p : program B) (f : B → program B') s : calm p →
  (∀ b s', clock s' = clock s → wp handler (f b) s' in_fuel) → wp handler (pbind p f) s in_fuel.
Proof.
  intros Hp Hf. apply wp_pbind. destruct (Hp (clock s) s eq_refl) as [Hs Ho]. unfold wp at 1.
  destruct (run handler p s) as [[b|e] s']; [by apply Hf|done].
Qed.

Lemma wp_monotonic {B} (f : Z → program B) s :
  wp handler (f (clock s)) s in_fuel → wp handler (pbind (ask Monotonic) f) s in_fuel.
Proof. done. Qed.
Lemma wp_sleep {B} d (f : unit → program B) s :
  (∀ s', clock s' = (clock s + d)%Z → wp handler (f tt) s' in_fuel) →
  wp handler (pbind (ask (Sleep d)) f) s in_fuel.
Proof. intros Hf. by apply (Hf (mk_host (pass (d / 1000) (server s)) _ (clock s + d) _)). Qed.

(** A round sleeps, so that the rounds that are left reach the deadline. *)
Lemma wait_within_fuel fuel deadline k c ttl tags s :
  (1 ≤ fuel)%nat → (deadline ≤ clock s + 10000 * (Z.of_nat fuel - 1))%Z →
  wp handler (wait_until key_prefix fuel deadline k c ttl tags) s in_fuel.
Proof.
  revert s. induction fuel as [|fuel IH]; intros s Hf Hd; [lia|]. cbn [wait_until].
  apply wp_monotonic. destruct (Z.ltb_spec (clock s) deadline) as [Hlt|]; [|done].
  apply wp_calm; [apply calm_get|]. intros [v|] s2 Hs2; [done|].
  apply wp_calm; [by apply calm_ask|]. intros token s3 Hs3.
  apply wp_calm; [apply calm_lock|]. intros [] s4 Hs4; [apply wp_ends, ends_produce|].
  apply wp_sleep. intros s5 Hs5. apply IH; lia.
Qed.

(** Waiting for another client ends: [get_or_set] returns, or raises
    something, within the 3001 rounds of its loop that the 30 seconds of its
    deadline allow, whatever the server answers and the other clients do. *)
Theorem waiting_ends k c ttl tags s :
  (run handler (get_or_set key_prefix k c ttl tags) s).1 ≠ Raise Out_of_fuel.
Proof.
  enough (wp handler (get_or_set key_prefix k c ttl tags) s in_fuel) as Hwp.
  { unfold wp in Hwp. intros Heq. by rewrite Heq in Hwp. }
  apply wp_calm; [apply calm_get|]. intros [v|] s2 _; [done|].
  apply wp_calm; [by apply calm_ask|]. intros token s3 _.
  apply wp_calm; [apply calm_lock|]. intros [] s4 _; [apply wp_ends, ends_produce|].
  apply wp_calm; [by apply calm_ask|]. intros _ s5 _.
  apply wp_monotonic, wait_within_fuel; lia.
Qed.
End redis_facts.

(** ** A server *)

Definition model_glob (p k : string) : bool :=
  match reverse (String.list_ascii_of_string p) with
  | "*"%char :: r => String.prefix (String.string_of_list_ascii (reverse r)) k
  | _ => bool_decide (p = k)
  end.

Lemma model_glob_prefix p k : model_glob (p +:+ "*") k = String.prefix p k.
Proof.
  unfold model_glob. rewrite list_of_string_app. change (String.list_ascii_of_string "*") with ["*"%char].
  rewrite reverse_snoc, reverse_involutive. by rewrite String.string_of_list_ascii_of_string.
Qed.

Definition live_keys (p : string) (s : redis_state) : list string :=
  filter (λ k, bool_decide (is_Some (live s k)) && model_glob p k) (map_to_list (store s)).*1.

Definition model_exec (c : command) (s : redis_state) : outcome unit raw * redis_state :=
  match c with
  | PING => (Ok (R_bool true), s)
  | GET k =>
      match live s k with
      | None => (Ok R_none, s) | Some (RStr b) => (Ok (R_bytes b), s) | Some (RSet _) => (Raise tt, s)
      end
  | SET k v px => (Ok (R_bool true), put s k v px)
  | SETNX k v px =>
      match live s k with None => (Ok (R_bool true), put s k v (Some px)) | Some _ => (Ok R_none, s) end
  | DEL ks =>
      (Ok (R_int (Z.of_nat (length (filter (λ k, is_Some (live s k)) (remove_dups ks))))), remove s ks)
  | SADD k vs =>
      match members_of (live s k) with
      | None => (Raise tt, s)
      | Some m =>
          (Ok (R_int (Z.of_nat (size (list_to_set vs ∖ m : gset string)))),
           mk_redis (<[k := mk_entry (RSet (m ∪ list_to_set vs)) (expiry_of s k)]> (store s)) (redis_now s))
      end
  | SMEMBERS k =>
      match members_of (live s k) with None => (Raise tt, s) | Some m => (Ok (R_set (elements m)), s) end
  | SCAN p => (Ok (R_keys (live_keys p s)), s)
  end.

#[refine, global] Instance model_server : RedisServer redis_state := {
  glob := model_glob;
  exec := model_exec;
  pass := elapse;
  view := λ s, s;
}.
Proof.
  - intros p k _. apply model_glob_prefix.
  - intros c s r s'. destruct c as [|k|k v px|k v px|ks|k vs|k|p]; cbn.
    + by intros [= <- <-].
    + by destruct (live s k) as [[]|]; intros [= <- <-].
    + by intros [= <- <-].
    + by destruct (live s k); intros [= <- <-].
    + by intros [= <- <-].
    + destruct (members_of (live s k)) as [m|]; intros [= <- <-]. by eexists _, _.
    + destruct (members_of (live s k)) as [m|]; intros [= <- <-]. eauto.
    + intros [= <- <-]. split; [done|]. eexists. split; [done|]. intros k. unfold live_keys.
      rewrite list_elem_of_filter, andb_True, bool_decide_spec. split.
      * intros [[Hl Hg] _]. split; [done|]. by apply Is_true_true.
      * intros [Hl Hg]. split; [split; [done|by apply Is_true_true]|].
        destruct Hl as [v Hl]. unfold live in Hl. destruct (store s !! k) as [e|] eqn:He; [|done].
        apply list_elem_of_fmap. exists (k, e). split; [done|]. by apply elem_of_map_to_list.
  - intros c s s'. destruct c as [|k|k v px|k v px|ks|k vs|k|p]; cbn; try done.
    + destruct (live s k) as [[]|]; intros [= <-]. by left.
    + by destruct (live s k).
    + destruct (members_of (live s k)); intros [= <-]. by left.
    + destruct (members_of (live s k)); intros [= <-]. by left.
  - done.
Defined.

#[global] Instance string_pickle : Pickle string := { dumps v := Some v; loads b := Some b; loads_dumps v b H := eq_sym H }.

(** ** Schedules *)

Section schedules.
Context {V X : Type} `{Pickle V}.

Definition default_answer (o : outcome X V) (R : Type) (e : effect nat V X R) (w : redis_state) : R * redis_state :=
  match e with
  | Redis c => exec c w
  | Count _ => (tt, w)
  | Monotonic => (0%Z, w)
  | Sleep _ => (tt, w)
  | Uuid => ("token", w)
  | App _ => (o, w)
  end.

(** Client [i] moves; [o] answers a call of the application. *)
Definition turn (i : nat) (o : outcome X V) (c : list (prog (effect nat V X) (cache_error X) V) * redis_state)
    : option (list (prog (effect nat V X) (cache_error X) V) * redis_state) :=
  match c.1 !! i with
  | Some (Do e k) => let '(r, w) := default_answer o _ e c.2 in Some (<[i := k r]> c.1, w)
  | _ => None
  end.
Fixpoint turns (l : list (nat * outcome X V)) (c : list (prog (effect nat V X) (cache_error X) V) * redis_state)
    : option (list (prog (effect nat V X) (cache_error X) V) * redis_state) :=
  match l with
  | [] => Some c
  | (i, o) :: l' => c' ← turn i o c; turns l' c'
  end.

Lemma turns_steps key_prefix k env l c c' :
  turns l c = Some c' → pool_steps (client_effect key_prefix k) env c c'.
Proof.
  revert c. induction l as [|[i o] l IH]; intros c; cbn; [by intros [= ->]|].
  destruct (turn i o c) as [c1|] eqn:H1; cbn; [|done]. intros Hc'. eapply rtc_l; [|by apply IH].
  unfold turn in H1. destruct c as [ps w]. cbn [fst snd] in H1.
  destruct (ps !! i) as [[| |R e cont]|] eqn:Hi; try done.
  destruct (default_answer o R e w) as [r w1] eqn:Hr. injection H1 as <-.
  apply (step_effect _ _ ps i R e cont w r w1 Hi). destruct e; cbn in Hr |- *; try by injection Hr as <- <-.
  done.
Qed.

Definition after (l : list (nat * outcome X V))
    (c : list (prog (effect nat V X) (cache_error X) V) * redis_state) :=
  default c (turns l c).
Lemma after_steps key_prefix k env l c :
  match turns l c with Some _ => true | None => false end = true →
  pool_steps (client_effect key_prefix k) env c (after l c).
Proof.
  unfold after. destruct (turns l c) as [c'|] eqn:Hc; [|done]. intros _. by apply (turns_steps _ _ _ l).
Qed.

Definition is_inside (p : option (prog (effect nat V X) (cache_error X) V)) : bool :=
  match p with Some (Do (App _) _) => true | _ => false end.
Lemma is_inside_spec (ps : list (prog (effect nat V X) (cache_error X) V)) i :
  is_inside (ps !! i) = true → ∃ p, ps !! i = Some p ∧ inside (λ _, true) p.
Proof.
  destruct (ps !! i) as [[| |R e cont]|] eqn:Hi; try done. destruct e; try done. intros _.
  eexists. split; [done|]. by eexists _, _.
Qed.
End schedules.

Definition ex_request : request (C := nat) := (0, No_expiry, []).
Definition ex_client : request → prog (effect nat string unit) (cache_error unit) string :=
  client "app:" "answer".
(** A client that finds no entry gets the lock and is in the call after six
    effects: a lookup, its count, a token, the lock, a lookup, its count. *)
Definition enters (i : nat) : list (nat * outcome unit string) := replicate 6 (i, Raise tt).
Definition empty_server : redis_state := mk_redis ∅ 0.

(** The first client enters and its lock expires; the second enters. *)
Definition ex_start := (ex_client <$> replicate 3 ex_request, empty_server).
Definition ex_slow := after (enters 0) ex_start.
Definition ex_expired := (ex_slow.1, elapse 30000 ex_slow.2).
Definition ex_second := after (enters 1) ex_expired.
(** The call of the first raises and it deletes the lock; the third enters. *)
Definition ex_third := after ((0, Raise tt) :: (0, Raise tt) :: enters 2) ex_second.

(** A lock that expired is released by the client that lost it: the lock is
    deleted without a comparison with its token. When a call takes longer than the
    30 seconds of the lock, another client enters; when the first call then ends,
    in an error, the fresh lock of the second client is deleted and a third one
    enters, although no time has passed since the second took its lock. *)
Theorem expired_lock_is_released_by_its_former_owner :
  ∃ ps1 w1 ps2 w2,
    pool_steps (client_effect "app:" "answer") (surroundings "app:" "answer" time_passes)
      (ex_client <$> replicate 3 ex_request, empty_server) (ps1, w1) ∧
    pool_steps (client_effect "app:" "answer") (λ _ _, False) (ps1, w1) (ps2, w2) ∧
    (∃ p, ps1 !! 1 = Some p ∧ inside (λ _, true) p) ∧ is_Some (live (view w1) (_lock_key "app:" "answer")) ∧
    (∃ p, ps2 !! 1 = Some p ∧ inside (λ _, true) p) ∧ (∃ p, ps2 !! 2 = Some p ∧ inside (λ _, true) p).
Proof.
  exists ex_second.1, ex_second.2, ex_third.1, ex_third.2. split_and!.
  - transitivity ex_slow; [apply (after_steps _ _ _ (enters 0)); vm_compute; reflexivity|].
    apply (rtc_l _ _ ex_expired).
    + unfold ex_expired. rewrite (surjective_pairing ex_slow). apply step_env. left. by exists 30000%Z.
    + rewrite <- surjective_pairing. apply (after_steps _ _ _ (enters 1)). vm_compute. reflexivity.
  - rewrite <- !surjective_pairing.
    apply (after_steps _ _ _ ((0, Raise tt) :: (0, Raise tt) :: enters 2)). vm_compute. reflexivity.
  - apply is_inside_spec. vm_compute. reflexivity.
  - vm_compute. eauto.
  - apply is_inside_spec. vm_compute. reflexivity.
  - apply is_inside_spec. vm_compute. reflexivity.
Qed.

(** ** Instances *)

Definition ex_host : host redis_state unit := mk_host empty_server (λ _, 0%Z) 0 tt.
(** The application answers every call with the same text. *)
Definition ex_call (c : nat) (h : host redis_state unit) : outcome unit string * host redis_state unit :=
  (Ok "value", h).
Definition ex_run := handle ex_call (λ _, "token").
Definition ex_cache : ICache nat string unit := RedisCache "app:".
Definition ex_method : method nat string :=
  mk_method "service" "load" None (Some (mk_cacheable (Some "answer") (Seconds 5) ["all"])) (λ _ _, 0).
Definition ex_refresh : method nat string :=
  mk_method "service" "refresh" (Some (mk_evict (Some "answer") ["all"])) None (λ _ _, 0).
Definition ex_format (t : string) (_ : list string) (_ : list (string * string)) : option string := Some t.

Lemma ex_plain : plain_prefix "app:".
Proof. by repeat constructor. Qed.
Lemma ex_usable : usable "answer".
Proof. done. Qed.
Lemma ex_contract : CacheContract ex_run usable (entries "app:") (indexed "app:") ex_cache.
Proof. apply redis_cache_contract, ex_plain. Qed.

Lemma one_client_populates_witness :
  let c := after (enters 0) ex_start in
  (∃ p, c.1 !! 0 = Some p ∧ inside (λ _, true) p) ∧
  (∀ p, c.1 !! 1 = Some p → ¬ inside (λ _, true) p) ∧ live (view c.2) (_redis_key "app:" "answer") = None.
Proof.
  intros c. assert (∃ p, c.1 !! 0 = Some p ∧ inside (λ _, true) p) as (p & Hp & Hin).
  { apply is_inside_spec. vm_compute. reflexivity. }
  destruct (one_client_populates "app:" "answer" (λ _, true) (replicate 3 ex_request) empty_server c.1 c.2)
    as [H1 H2].
  - apply ex_usable.
  - rewrite <- surjective_pairing. apply (after_steps _ _ _ (enters 0)). vm_compute. reflexivity.
  - split_and!; [by exists p| |by apply (H2 0 p)]. intros q Hq Hinq. by specialize (H1 0 1 p q Hp Hq Hin Hinq).
Defined.

Lemma cached_call_is_coherent_witness :
  triple (coherent usable (entries "app:") (λ _ v, v = "value")) (λ v, v = "value") (λ _, True)
    (run ex_run (around ex_format (λ _, None) (λ _, None) ex_cache ex_method [] [])).
Proof.
  apply (cached_call_is_coherent (CacheContract0 := ex_contract) ex_run usable (entries "app:") (indexed "app:") ex_cache ex_format
    (λ _, None) (λ _, None) (λ _ v, v = "value") ex_method
    (mk_cacheable (Some "answer") (Seconds 5) ["all"]) [] [] "answer"); try done.
Defined.

Lemma eviction_follows_success_witness :
  wp ex_run (around ex_format (λ _, None) (λ _, None) ex_cache ex_refresh [] []) ex_host (λ o s',
    (∀ j, usable j → entries "app:" s' j = entries "app:" ex_host j ∨ entries "app:" s' j = None) ∧
    match o with Ok w => w = "value" ∧ entries "app:" s' "answer" = None | Raise _ => True end).
Proof.
  apply (eviction_follows_success (CacheContract0 := ex_contract) ex_run usable (entries "app:") (indexed "app:") ex_cache ex_format
    (λ _, None) (λ _, None) ex_refresh (mk_evict (Some "answer") ["all"]) "answer" [] [] "answer" ex_host); done.
Defined.


Lemma clear_removes_the_prefix_witness :
  wp ex_run (redis_clear "app:") ex_host (λ o s', o = Ok tt → ∀ k,
    live (data s') k = if String.prefix "app:" k then None else live (data ex_host) k).
Proof. apply clear_removes_the_prefix, ex_plain. Defined.

(** The entry is stored again without tags, and evicted by its former tag. *)
Lemma tag_eviction_reaches_entry_witness :
  let p := (set_with_tags "app:" "answer" "old" ["all"] No_expiry ;~
            redis_set "app:" "answer" "new" No_expiry ;~ evict_tags "app:" ["all"]) in
  (run ex_run p ex_host).1 = Ok 2%Z ∧ entries "app:" (run ex_run p ex_host).2 "answer" = None.
Proof.
  intros p. assert ((run ex_run p ex_host).1 = Ok 2%Z) as Hok by (vm_compute; reflexivity).
  split; [exact Hok|]. refine (tag_eviction_reaches_entry ex_call (λ _, "token") "app:" "answer" "old" ["all"] No_expiry
    (redis_set "app:" "answer" "new" No_expiry) ["all"] "all" ex_host ex_usable _ _ _ _ Hok).
  - by left.
  - by left.
  - exact (keeps_tags_set ex_call (λ _, "token") "app:" "answer" "new" No_expiry ex_usable).
Defined.

Lemma evict_without_key_evicts_nothing_witness :
  let m := mk_method "service" "refresh" (Some (mk_evict None [])) None (λ _ _, 0) in
  run ex_run (around ex_format (λ _, None) (λ _, None) ex_cache m [] []) ex_host = run ex_run (invoke 0) ex_host.
Proof. intros m. by apply evict_without_key_evicts_nothing. Defined.
