(* ===== verification/Encoding.v ===== *)
(** * Base64, keys and message authentication codes

    [plugins/spakky-cryptography]: [encoding.py], [key.py], [hmac_signer.py]. The
    codecs of Python that they call are definitions: UTF-8 on the strings of this
    development (code points below 256) and [binascii]'s encoder and lenient
    decoder, which skips what is not in the alphabet and stops at the padding.
    The digest itself is a parameter. *)

From S2P Require Import Prelude Json.

(** A sequence of bytes is a [string], too. *)
Abbreviation bytes := string.

Definition byte (n : N) : ascii := ascii_of_N n.

(** ** UTF-8 *)

Fixpoint utf8_encode (s : string) : bytes :=
  match s with
  | "" => ""
  | String c s' =>
      let n := N_of_ascii c in
      if (n <? 128)%N then String c (utf8_encode s')
      else String (byte (192 + n / 64)) (String (byte (128 + n mod 64)) (utf8_encode s'))
  end.

(** Longer sequences are invalid or stand for a code point above 255. *)
Fixpoint utf8_decode (b : bytes) : option string :=
  match b with
  | "" => Some ""
  | String c b' =>
      let n := N_of_ascii c in
      if (n <? 128)%N then String c <$> utf8_decode b'
      else
        match b' with
        | String d b'' =>
            let m := N_of_ascii d in
            if ((n =? 194) || (n =? 195))%N && ((128 <=? m) && (m <? 192))%N then
              String (byte ((n - 192) * 64 + (m - 128))) <$> utf8_decode b''
            else None
        | "" => None
        end
  end.

(** ** [base64] *)

Definition b64_char (v : N) : ascii :=
  byte (if v <? 26 then v + 65 else if v <? 52 then v + 71 else if v <? 62 then v - 4
        else if v =? 62 then 43 else 47)%N.
Definition b64_value (c : ascii) : option N :=
  let n := N_of_ascii c in
  if (65 <=? n)%N && (n <=? 90)%N then Some (n - 65)%N
  else if (97 <=? n)%N && (n <=? 122)%N then Some (n - 71)%N
  else if (48 <=? n)%N && (n <=? 57)%N then Some (n + 4)%N
  else if (n =? 43)%N then Some 62%N else if (n =? 47)%N then Some 63%N else None.

Fixpoint b64encode (b : bytes) : string :=
  match b with
  | "" => ""
  | String x "" =>
      let x := N_of_ascii x in
      String (b64_char (x / 4)) (String (b64_char (x mod 4 * 16)) "==")
  | String x (String y "") =>
      let x := N_of_ascii x in let y := N_of_ascii y in
      String (b64_char (x / 4)) (String (b64_char (x mod 4 * 16 + y / 16))
        (String (b64_char (y mod 16 * 4)) "="))
  | String x (String y (String z b')) =>
      let x := N_of_ascii x in let y := N_of_ascii y in let z := N_of_ascii z in
      String (b64_char (x / 4)) (String (b64_char (x mod 4 * 16 + y / 16))
        (String (b64_char (y mod 16 * 4 + z / 64)) (String (b64_char (z mod 64)) (b64encode b'))))
  end.

(** [binascii.a2b_base64], not strict: [quad] characters of a group were read,
    [left] are the bits they leave over, [pads] padding characters were seen. *)
Fixpoint a2b (quad left pads : N) (s : string) : option bytes :=
  match s with
  | "" => if (quad =? 0)%N then Some "" else None
  | String c s' =>
      if Ascii.eqb c "=" then
        if (2 <=? quad)%N then
          if (4 <=? quad + (pads + 1))%N then Some "" else a2b quad left (pads + 1) s'
        else a2b quad left pads s'
      else
        match b64_value c with
        | None => a2b quad left pads s'
        | Some v =>
            if (quad =? 0)%N then a2b 1 v 0 s'
            else if (quad =? 1)%N then String (byte (left * 4 + v / 16)) <$> a2b 2 (v mod 16) 0 s'
            else if (quad =? 2)%N then String (byte (left * 16 + v / 4)) <$> a2b 3 (v mod 4) 0 s'
            else String (byte (left * 64 + v)) <$> a2b 0 0 0 s'
        end
  end.
Definition b64decode (s : bytes) : option bytes := a2b 0 0 0 s.

Fixpoint translate (f : ascii → ascii) (s : string) : string :=
  match s with "" => "" | String c s' => String (f c) (translate f s') end.
Definition to_urlsafe (c : ascii) : ascii :=
  if Ascii.eqb c "+" then "-"%char else if Ascii.eqb c "/" then "_"%char else c.
Definition from_urlsafe (c : ascii) : ascii :=
  if Ascii.eqb c "-" then "+"%char else if Ascii.eqb c "_" then "/"%char else c.

Definition urlsafe_b64encode (b : bytes) : string := translate to_urlsafe (b64encode b).
Definition urlsafe_b64decode (s : bytes) : option bytes := b64decode (translate from_urlsafe s).

(** [s.rstrip("=")] *)
Fixpoint rstrip_padding (s : string) : string :=
  match s with
  | "" => ""
  | String c s' =>
      match rstrip_padding s' with
      | "" => if Ascii.eqb c "=" then "" else String c ""
      | r => String c r
      end
  end.

Fixpoint string_repeat (n : nat) (c : ascii) : string :=
  match n with O => "" | S n => String c (string_repeat n c) end.

(** [Base64Encoder] *)
Definition from_bytes (binary : bytes) (url_safe : bool) : string :=
  if url_safe then rstrip_padding (urlsafe_b64encode binary) else b64encode binary.
Definition get_bytes (b64 : string) (url_safe : bool) : option bytes :=
  if url_safe then
    urlsafe_b64decode (utf8_encode (b64 +:+ string_repeat (4 - String.length b64 mod 4) "="))
  else b64decode (utf8_encode b64).
Definition b64_encode (utf8 : string) (url_safe : bool) : string :=
  from_bytes (utf8_encode utf8) url_safe.
Definition b64_decode (b64 : string) (url_safe : bool) : option string :=
  b ← get_bytes b64 url_safe; utf8_decode b.

(** ** [Key] *)

Inductive key_error := InvalidKeyConstructorCallError | Base64Error.

(** The constructor looks at [size], [binary] and [base64] in this order;
    [token_bytes] are the random bytes it would draw. *)
Definition make_key (token_bytes : nat → bytes) (size : option nat) (binary base64 : option bytes)
    (url_safe : bool) : outcome key_error bytes :=
  match size, binary, base64 with
  | Some n, _, _ => Ok (token_bytes n)
  | None, Some b, _ => Ok b
  | None, None, Some t => match get_bytes t url_safe with Some b => Ok b | None => Raise Base64Error end
  | None, None, None => Raise InvalidKeyConstructorCallError
  end.
Definition key_length (k : bytes) : nat := String.length k.
Definition key_b64 (k : bytes) : string := from_bytes k false.
Definition key_b64_urlsafe (k : bytes) : string := from_bytes k true.

Definition upper_hex (n : N) : ascii := byte (if (n <? 10)%N then 48 + n else 55 + n)%N.
Fixpoint key_hex (k : bytes) : string :=
  match k with
  | "" => ""
  | String c k' =>
      let n := N_of_ascii c in String (upper_hex (n / 16)) (String (upper_hex (n mod 16)) (key_hex k'))
  end.

(** ** [HMAC] *)

Inductive HMACType := HS224 | HS256 | HS384 | HS512.

Section hmac.
(** [hmac.new(key, content, hash_function).digest()] *)
Context (digest : HMACType → bytes → bytes → bytes).

Definition sign_text (key : bytes) (hmac_type : HMACType) (content : string) (url_safe : bool) : string :=
  from_bytes (digest hmac_type key (utf8_encode content)) url_safe.
Definition hmac_verify (key : bytes) (hmac_type : HMACType) (content signature : string)
    (url_safe : bool) : bool :=
  String.eqb (from_bytes (digest hmac_type key (utf8_encode content)) url_safe) signature.
End hmac.

(** ** Lemmas *)

#[local] Ltac Zify.zify_post_hook ::= Z.to_euclidean_division_equations.

Lemma byte_value n : (n < 256)%N → N_of_ascii (byte n) = n.
Proof. apply N_ascii_embedding. Qed.
Lemma value_byte c : byte (N_of_ascii c) = c.
Proof. apply ascii_N_embedding. Qed.
Lemma byte_eq n c : n = N_of_ascii c → byte n = c.
Proof. intros ->. apply value_byte. Qed.
Lemma value_bounded c : (N_of_ascii c < 256)%N.
Proof. apply N_ascii_bounded. Qed.

Lemma utf8_roundtrip s : utf8_decode (utf8_encode s) = Some s.
Proof.
  induction s as [|c s IH]; [done|]. cbn [utf8_encode]. pose proof (value_bounded c) as Hc.
  destruct (N.ltb_spec (N_of_ascii c) 128) as [Hlt|Hge]; cbn [utf8_decode].
  - rewrite (proj2 (N.ltb_lt _ _) Hlt), IH. done.
  - rewrite (byte_value (192 + N_of_ascii c / 64)), (byte_value (128 + N_of_ascii c mod 64)) by lia.
    rewrite (proj2 (N.ltb_ge (192 + N_of_ascii c / 64) 128)) by lia.
    assert (((192 + N_of_ascii c / 64 =? 194) || (192 + N_of_ascii c / 64 =? 195))%N = true) as ->.
    { apply orb_true_iff. rewrite !N.eqb_eq. lia. }
    assert (((128 <=? 128 + N_of_ascii c mod 64) && (128 + N_of_ascii c mod 64 <? 192))%N = true) as ->.
    { rewrite andb_true_iff, N.leb_le, N.ltb_lt. lia. }
    rewrite IH. cbn [andb fmap option_fmap option_map]. do 2 f_equal.
    apply byte_eq. lia.
Qed.

Fixpoint all_ascii (s : string) : Prop :=
  match s with "" => True | String c s' => (N_of_ascii c < 128)%N ∧ all_ascii s' end.

Lemma utf8_ascii s : all_ascii s → utf8_encode s = s.
Proof.
  induction s as [|c s IH]; [done|]. intros [Hc Hs]. cbn [utf8_encode].
  by rewrite (proj2 (N.ltb_lt _ _) Hc), IH.
Qed.
Lemma all_ascii_app s t : all_ascii (s +:+ t) ↔ all_ascii s ∧ all_ascii t.
Proof.
  induction s as [|c s IH]; [change ("" +:+ t) with t; cbn; tauto|]. rewrite string_app_cons. cbn [all_ascii]. rewrite IH. tauto.
Qed.

Lemma b64_value_char v : (v < 64)%N →
  b64_value (b64_char v) = Some v ∧ (N_of_ascii (b64_char v) < 128)%N ∧ b64_char v ≠ "="%char ∧
  from_urlsafe (to_urlsafe (b64_char v)) = b64_char v ∧ to_urlsafe (b64_char v) ≠ "="%char ∧
  (N_of_ascii (to_urlsafe (b64_char v)) < 128)%N.
Proof.
  intros Hv. assert (v ∈ (N.of_nat <$> seq 0 64)) as Hin by (apply list_elem_of_fmap; exists (N.to_nat v); split; [lia|apply elem_of_seq; lia]). revert v Hv Hin.
  enough (Forall (λ v, b64_value (b64_char v) = Some v ∧ (N_of_ascii (b64_char v) < 128)%N ∧ b64_char v ≠ "="%char ∧
    from_urlsafe (to_urlsafe (b64_char v)) = b64_char v ∧ to_urlsafe (b64_char v) ≠ "="%char ∧
    (N_of_ascii (to_urlsafe (b64_char v)) < 128)%N) ((N.of_nat <$> seq 0 64))) as Hall.
  { intros v _ Hin. rewrite Forall_forall in Hall. by apply Hall. }
  decide_compute.
Qed.

(** *** The round trip of base64 *)

(** The text without padding. *)
Fixpoint b64data (b : bytes) : string :=
  match b with
  | "" => ""
  | String x "" =>
      let x := N_of_ascii x in String (b64_char (x / 4)) (String (b64_char (x mod 4 * 16)) "")
  | String x (String y "") =>
      let x := N_of_ascii x in let y := N_of_ascii y in
      String (b64_char (x / 4)) (String (b64_char (x mod 4 * 16 + y / 16)) (String (b64_char (y mod 16 * 4)) ""))
  | String x (String y (String z b')) =>
      let x := N_of_ascii x in let y := N_of_ascii y in let z := N_of_ascii z in
      String (b64_char (x / 4)) (String (b64_char (x mod 4 * 16 + y / 16))
        (String (b64_char (y mod 16 * 4 + z / 64)) (String (b64_char (z mod 64)) (b64data b'))))
  end.
Definition b64padding (n : nat) : string :=
  match n mod 3 with 0 => "" | 1 => "==" | _ => "=" end.

Lemma bytes_ind3 (P : bytes → Prop) :
  P "" → (∀ x, P (String x "")) → (∀ x y, P (String x (String y ""))) →
  (∀ x y z b, P b → P (String x (String y (String z b)))) → ∀ b, P b.
Proof.
  intros H0 H1 H2 H3. fix IH 1. intros [|x [|y [|z b]]]; [done|apply H1|apply H2|apply H3, IH].
Qed.

Lemma b64encode_data b : b64encode b = b64data b +:+ b64padding (String.length b).
Proof.
  induction b as [|x|x y|x y z b IH] using bytes_ind3; [done..|].
  cbn [b64encode b64data String.length]. rewrite IH, !string_app_cons. unfold b64padding.
  replace (S (S (S (String.length b)))) with (String.length b + 1 * 3) by lia. by rewrite Nat.Div0.mod_add.
Qed.

Fixpoint string_all (P : ascii → Prop) (s : string) : Prop :=
  match s with "" => True | String c s' => P c ∧ string_all P s' end.

Lemma b64data_chars (P : ascii → Prop) b : (∀ v, (v < 64)%N → P (b64_char v)) → string_all P (b64data b).
Proof.
  intros HP. induction b as [|x|x y|x y z b IH] using bytes_ind3; cbn -[b64_char N.div N.modulo N.mul N.add];
    repeat match goal with |- _ ∧ _ => split end; try done; apply HP;
    repeat match goal with
    | |- context [N_of_ascii ?c] =>
        pose proof (value_bounded c); let n := fresh "n" in set (n := N_of_ascii c) in *; clearbody n
    end; lia.
Qed.

Lemma a2b_char v quad left pads s : (v < 64)%N →
  a2b quad left pads (String (b64_char v) s) =
    if (quad =? 0)%N then a2b 1 v 0 s
    else if (quad =? 1)%N then String (byte (left * 4 + v / 16)) <$> a2b 2 (v mod 16) 0 s
    else if (quad =? 2)%N then String (byte (left * 16 + v / 4)) <$> a2b 3 (v mod 4) 0 s
    else String (byte (left * 64 + v)) <$> a2b 0 0 0 s.
Proof.
  intros Hv. destruct (b64_value_char v Hv) as (H1 & _ & H2 & _). cbn [a2b].
  by rewrite (proj2 (Ascii.eqb_neq _ _) H2), H1.
Qed.

(** Enough padding for what the last group lacks. *)
Definition padded (n : nat) (k : nat) : Prop :=
  match n mod 3 with 0 => True | 1 => 2 ≤ k | _ => 1 ≤ k end.

Lemma a2b_padding k : a2b 0 0 0 (string_repeat k "=") = Some "".
Proof. induction k as [|k IH]; [done|]. exact IH. Qed.

Lemma a2b_end2 left k : a2b 2 left 0 (string_repeat (S (S k)) "=") = Some "".
Proof. done. Qed.
Lemma a2b_end3 left k : a2b 3 left 0 (string_repeat (S k) "=") = Some "".
Proof. done. Qed.
Lemma string_cons_eq c d s t : c = d → s = t → String c s = String d t.
Proof. by intros -> ->. Qed.

Lemma b64decode_data b k : padded (String.length b) k → b64decode (b64data b +:+ string_repeat k "=") = Some b.
Proof.
  unfold b64decode. induction b as [|x|x y|x y z b IH] using bytes_ind3; intros Hk.
  - apply a2b_padding.
  - pose proof (value_bounded x). cbn [b64data]. rewrite !string_app_cons. change ("" +:+ ?s) with s.
    rewrite !a2b_char by lia. cbn [N.eqb Pos.eqb]. destruct k as [|[|k]]; [cbn in Hk; lia..|].
    rewrite a2b_end2. cbn [fmap option_fmap option_map]. do 2 f_equal. apply byte_eq. lia.
  - pose proof (value_bounded x). pose proof (value_bounded y). cbn [b64data]. rewrite !string_app_cons. change ("" +:+ ?s) with s.
    rewrite !a2b_char by lia. cbn [N.eqb Pos.eqb]. destruct k as [|k]; [cbn in Hk; lia|].
    rewrite a2b_end3. cbn [fmap option_fmap option_map]. apply (f_equal Some).
    do 2 (apply string_cons_eq; [apply byte_eq; lia|]). done.
  - pose proof (value_bounded x). pose proof (value_bounded y). pose proof (value_bounded z).
    cbn [b64data]. rewrite !string_app_cons.
    rewrite !a2b_char by lia. cbn [N.eqb Pos.eqb]. rewrite IH.
    + cbn [fmap option_fmap option_map]. apply (f_equal Some).
      do 3 (apply string_cons_eq; [apply byte_eq; lia|]). done.
    + revert Hk. unfold padded. cbn [String.length].
      replace (S (S (S (String.length b)))) with (String.length b + 1 * 3) by lia. by rewrite Nat.Div0.mod_add.
Qed.

Lemma b64data_length b : String.length (b64data b) mod 4 =
  match String.length b mod 3 with 0 => 0 | 1 => 2 | _ => 3 end.
Proof.
  induction b as [|x|x y|x y z b IH] using bytes_ind3; [done..|]. cbn [b64data String.length].
  replace (S (S (S (String.length b)))) with (String.length b + 1 * 3) by lia.
  replace (S (S (S (S (String.length (b64data b)))))) with (String.length (b64data b) + 1 * 4) by lia.
  by rewrite !Nat.Div0.mod_add.
Qed.

Lemma translate_app f s t : translate f (s +:+ t) = translate f s +:+ translate f t.
Proof. induction s as [|c s IH]; [done|]. rewrite !string_app_cons. cbn [translate]. by rewrite IH. Qed.
Lemma translate_length f s : String.length (translate f s) = String.length s.
Proof. induction s as [|c s IH]; [done|]. cbn. by rewrite IH. Qed.
Lemma translate_repeat f n c : f c = c → translate f (string_repeat n c) = string_repeat n c.
Proof. intros Hc. induction n as [|n IH]; [done|]. cbn. by rewrite Hc, IH. Qed.

Lemma data_properties b :
  all_ascii (b64data b) ∧ all_ascii (translate to_urlsafe (b64data b)) ∧
  translate from_urlsafe (translate to_urlsafe (b64data b)) = b64data b ∧
  ∀ t, rstrip_padding t = "" → rstrip_padding (translate to_urlsafe (b64data b) +:+ t) = translate to_urlsafe (b64data b).
Proof.
  assert (string_all (λ c, (N_of_ascii c < 128)%N ∧ (N_of_ascii (to_urlsafe c) < 128)%N ∧
    from_urlsafe (to_urlsafe c) = c ∧ to_urlsafe c ≠ "="%char) (b64data b)) as Hall.
  { apply b64data_chars. intros v Hv. by destruct (b64_value_char v Hv) as (? & ? & ? & ? & ? & ?). }
  induction (b64data b) as [|c s IH]; [done|]. destruct Hall as [(H1 & H2 & H3 & H4) Hall].
  destruct (IH Hall) as (I1 & I2 & I3 & I4). cbn [all_ascii translate]. split_and!; try done; [by rewrite H3, I3|].
  intros t Ht. rewrite string_app_cons. cbn [rstrip_padding]. rewrite (I4 t Ht).
  destruct (translate to_urlsafe s); [|done]. by rewrite (proj2 (Ascii.eqb_neq _ _) H4).
Qed.

Lemma all_ascii_repeat n c : (N_of_ascii c < 128)%N → all_ascii (string_repeat n c).
Proof. intros Hc. by induction n. Qed.

Lemma from_bytes_urlsafe b : from_bytes b true = translate to_urlsafe (b64data b).
Proof.
  unfold from_bytes, urlsafe_b64encode. rewrite b64encode_data, translate_app. apply data_properties.
  unfold b64padding. by destruct (String.length b mod 3) as [|[|]].
Qed.

Lemma get_bytes_from_bytes b url_safe : get_bytes (from_bytes b url_safe) url_safe = Some b.
Proof.
  destruct (data_properties b) as (H1 & H2 & H3 & _). destruct url_safe.
  - rewrite from_bytes_urlsafe. unfold get_bytes, urlsafe_b64decode.
    rewrite utf8_ascii by (apply all_ascii_app; split; [done|by apply all_ascii_repeat]).
    rewrite translate_app, H3, translate_length, translate_repeat by done. apply b64decode_data.
    unfold padded. rewrite b64data_length. destruct (String.length b mod 3) as [|[|]]; lia.
  - unfold get_bytes, from_bytes. rewrite b64encode_data.
    assert (∃ k, b64padding (String.length b) = string_repeat k "=" ∧ padded (String.length b) k) as (k & -> & Hk).
    { unfold b64padding, padded. destruct (String.length b mod 3) as [|[|]]; [by exists 0|by exists 2|by exists 1]. }
    rewrite utf8_ascii by (apply all_ascii_app; split; [done|by apply all_ascii_repeat]). by apply b64decode_data.
Qed.

Lemma b64_decode_encode s url_safe : b64_decode (b64_encode s url_safe) url_safe = Some s.
Proof. unfold b64_decode, b64_encode. rewrite get_bytes_from_bytes. apply utf8_roundtrip. Qed.

#[global] Instance from_bytes_inj url_safe : Inj (=) (=) (λ b, from_bytes b url_safe).
Proof. intros b b' Heq. apply (inj Some). rewrite <- (get_bytes_from_bytes b url_safe), <- (get_bytes_from_bytes b' url_safe). by rewrite Heq. Qed.

#[global] Instance utf8_encode_inj : Inj (=) (=) utf8_encode.
Proof. intros s s' Heq. apply (inj Some). by rewrite <- (utf8_roundtrip s), <- (utf8_roundtrip s'), Heq. Qed.
