(* ===== verification/Crypto.v ===== *)
(** * Hashes, password encoders and ciphers: [plugins/spakky-cryptography]

    [hash.py], [password/] and [cryptography/]. The primitives come from
    [hashlib], bcrypt, argon2 and PyCryptodome and are parameters; what is
    modelled is what the package does around them: the texts it stores, how it
    reads them back, which parameters and which errors. *)

From S2P Require Import Prelude Json Encoding.
From Stdlib Require Import DecimalString.

Inductive crypto_error :=
  | PasswordRequiredError | DecryptionFailedError | KeySizeError | PrivateKeyRequiredError
  | CannotImportAsymmetricKeyError | AsymmetricKeyRequiredError
  | ValueError | IndexError | LibraryError.

(** ** Python: [str.split], [int], [str.lower], [str.upper] *)

Fixpoint split_on (c : ascii) (s : string) : list string :=
  match s with
  | "" => [""]
  | String d s' =>
      if Ascii.eqb d c then "" :: split_on c s'
      else match split_on c s' with p :: ps => String d p :: ps | [] => [String d ""] end
  end.

(** [parts[i]] *)
Definition part (parts : list string) (i : nat) : outcome crypto_error string :=
  match parts !! i with Some p => Ok p | None => Raise IndexError end.

(** The digits of an integer, single underscores between them allowed. *)
Fixpoint strip_underscores (after_digit : bool) (s : string) : option string :=
  match s with
  | "" => if after_digit then Some "" else None
  | String c s' =>
      if is_digit c then String c <$> strip_underscores true s'
      else if Ascii.eqb c "_" && after_digit then strip_underscores false s' else None
  end.
Definition digits_value (s : string) : outcome crypto_error Z :=
  match strip_underscores false s ≫= NilEmpty.uint_of_string with
  | Some d => Ok (Z.of_uint d)
  | None => Raise ValueError
  end.
Definition py_int (s : string) : outcome crypto_error Z :=
  match py_strip s with
  | String c s' =>
      if Ascii.eqb c "-" then Z.opp <$> digits_value s'
      else if Ascii.eqb c "+" then digits_value s' else digits_value (String c s')
  | "" => Raise ValueError
  end.

Definition char_upper (c : ascii) : ascii :=
  let n := N_of_ascii c in if (97 <=? n)%N && (n <=? 122)%N then byte (n - 32) else c.
Definition char_lower (c : ascii) : ascii :=
  let n := N_of_ascii c in if (65 <=? n)%N && (n <=? 90)%N then byte (n + 32) else c.

Definition decode_bytes (text : string) (url_safe : bool) : outcome crypto_error bytes :=
  match get_bytes text url_safe with Some b => Ok b | None => Raise ValueError end.

(** ** [Hash] *)

Inductive HashType := MD5 | SHA1 | SHA224 | SHA256 | SHA384 | SHA512.
#[global] Instance hash_type_eq_dec : EqDecision HashType.
Proof. solve_decision. Defined.

Definition hash_name (t : HashType) : string :=
  match t with
  | MD5 => "MD5" | SHA1 => "SHA1" | SHA224 => "SHA224" | SHA256 => "SHA256"
  | SHA384 => "SHA384" | SHA512 => "SHA512"
  end.
Definition hash_types : list HashType := [MD5; SHA1; SHA224; SHA256; SHA384; SHA512].
(** [HashType(name)] *)
Definition hash_type_of (name : string) : outcome crypto_error HashType :=
  match List.find (λ t, String.eqb (hash_name t) name) hash_types with
  | Some t => Ok t
  | None => Raise ValueError
  end.

Section hash.
Context (digest : HashType → bytes → bytes).

Fixpoint string_take (n : nat) (s : string) : string :=
  match n, s with S n, String c s' => String c (string_take n s') | _, _ => "" end.
Fixpoint string_drop (n : nat) (s : string) : string :=
  match n, s with S n, String _ s' => string_drop n s' | _, _ => s end.
(** [any(buffer)] of bytes: one of them is not zero *)
Fixpoint any_byte (b : bytes) : bool :=
  match b with "" => false | String c b' => negb (N_of_ascii c =? 0)%N || any_byte b' end.

(** What the loop [while True: buffer = data.read(65536); if not any(buffer):
    break; update(buffer)] has passed to the hash. A round consumes a buffer that
    is not empty, so that the length of the file is enough fuel. *)
Fixpoint read_buffers (fuel : nat) (size : nat) (data : bytes) : bytes :=
  match fuel with
  | O => ""
  | S fuel =>
      let buffer := string_take size data in
      if any_byte buffer then buffer +:+ read_buffers fuel size (string_drop size data) else ""
  end.
Definition BUFFER_SIZE : nat := 65536.

Inductive hash_input := HashText (s : string) | HashReader (content : bytes).
Definition hash_digest (data : hash_input) (t : HashType) : bytes :=
  digest t match data with
           | HashText s => utf8_encode s
           | HashReader content => read_buffers (String.length content) BUFFER_SIZE content
           end.
Definition hash_b64 (data : hash_input) (t : HashType) : string := from_bytes (hash_digest data t) false.
Definition hash_b64_urlsafe (data : hash_input) (t : HashType) : string := from_bytes (hash_digest data t) true.
Definition hash_hex (data : hash_input) (t : HashType) : string := key_hex (hash_digest data t).
End hash.

(** ** Password encoders *)

(** The port: what is stored, and the check of a password against it. *)
Class IPasswordEncoder (E : Type) := {
  encode : E → string;
  challenge : E → string → outcome crypto_error bool;
}.

(** What a client relies on: what was stored is read back as the encoder that
    stored it, and the encoder accepts the password it was made from. *)
Class PasswordContract (E : Type) `{IPasswordEncoder E} (algorithm : string)
    (of_hash : string → outcome crypto_error E) (of_password : string → outcome crypto_error E) := {
  encode_tagged e : ∃ t, encode e = algorithm +:+ ":" +:+ t;
  of_hash_encode p e : of_password p = Ok e → of_hash (encode e) = Ok e;
  challenge_own p e : of_password p = Ok e → challenge e p = Ok true;
}.

Definition key_text (k : bytes) (url_safe : bool) : string :=
  if url_safe then key_b64_urlsafe k else key_b64 k.

(** *** bcrypt *)

Section bcrypt.
Context (hashpw : bytes → bytes → outcome crypto_error bytes)
  (checkpw : bytes → bytes → outcome crypto_error bool).

Record BcryptPasswordEncoder := mk_bcrypt { bcrypt_salt : bytes; bcrypt_hash : string; bcrypt_url_safe : bool }.

Definition bcrypt_of_hash (password_hash : string) (url_safe : bool) : outcome crypto_error BcryptPasswordEncoder :=
  let parts := List.tl (split_on ":" password_hash) in
  p0 ← part parts 0; salt ← decode_bytes p0 url_safe;
  p1 ← part parts 1;
  Ok (mk_bcrypt salt p1 url_safe).
(** [gensalt] is the salt the library draws. *)
Definition bcrypt_of_password (gensalt : bytes) (password : option string) (url_safe : bool)
    : outcome crypto_error BcryptPasswordEncoder :=
  match password with
  | None => Raise PasswordRequiredError
  | Some p => h ← hashpw (utf8_encode p) gensalt; Ok (mk_bcrypt gensalt (from_bytes h url_safe) url_safe)
  end.
Definition bcrypt_encode (e : BcryptPasswordEncoder) : string :=
  "bcrypt:" +:+ key_text (bcrypt_salt e) (bcrypt_url_safe e) +:+ ":" +:+ bcrypt_hash e.
Definition bcrypt_challenge (e : BcryptPasswordEncoder) (password : string) : outcome crypto_error bool :=
  h ← decode_bytes (bcrypt_hash e) (bcrypt_url_safe e); checkpw (utf8_encode password) h.
Definition bcrypt_encoder : IPasswordEncoder BcryptPasswordEncoder :=
  {| encode := bcrypt_encode; challenge := bcrypt_challenge |}.
End bcrypt.

(** *** PBKDF2 *)

Section pbkdf2.
Context (pbkdf2_hmac : string → bytes → bytes → Z → outcome crypto_error bytes).

Record Pbkdf2PasswordEncoder := mk_pbkdf2 {
  pbkdf2_salt : bytes; pbkdf2_iteration : Z; pbkdf2_hash_type : HashType;
  pbkdf2_hash : string; pbkdf2_url_safe : bool;
}.

Definition pbkdf2_of_hash (password_hash : string) (url_safe : bool) : outcome crypto_error Pbkdf2PasswordEncoder :=
  let parts := List.tl (split_on ":" password_hash) in
  p0 ← part parts 0; t ← hash_type_of (translate char_upper p0);
  p1 ← part parts 1; iteration ← py_int p1;
  p2 ← part parts 2; salt ← decode_bytes p2 url_safe;
  p3 ← part parts 3;
  Ok (mk_pbkdf2 salt iteration t p3 url_safe).
Definition pbkdf2_of_password (salt : bytes) (t : HashType) (iteration : Z) (password : option string)
    (url_safe : bool) : outcome crypto_error Pbkdf2PasswordEncoder :=
  match password with
  | None => Raise PasswordRequiredError
  | Some p =>
      h ← pbkdf2_hmac (hash_name t) (utf8_encode p) salt iteration;
      Ok (mk_pbkdf2 salt iteration t (from_bytes h url_safe) url_safe)
  end.
Definition pbkdf2_encode (e : Pbkdf2PasswordEncoder) : string :=
  "pbkdf2:" +:+ translate char_lower (hash_name (pbkdf2_hash_type e)) +:+ ":" +:+
  int_text (pbkdf2_iteration e) +:+ ":" +:+ key_text (pbkdf2_salt e) (pbkdf2_url_safe e) +:+ ":" +:+ pbkdf2_hash e.
(** [self == new_password]: the texts are equal. [url_safe] is not passed on. *)
Definition pbkdf2_challenge (e : Pbkdf2PasswordEncoder) (password : string) : outcome crypto_error bool :=
  new_password ← pbkdf2_of_password (pbkdf2_salt e) (pbkdf2_hash_type e) (pbkdf2_iteration e) (Some password) false;
  Ok (String.eqb (pbkdf2_encode e) (pbkdf2_encode new_password)).
Definition pbkdf2_encoder : IPasswordEncoder Pbkdf2PasswordEncoder :=
  {| encode := pbkdf2_encode; challenge := pbkdf2_challenge |}.
End pbkdf2.

(** *** scrypt *)

Record scrypt_cost := mk_cost { cost_n : Z; cost_r : Z; cost_p : Z; cost_maxmem : Z; cost_dklen : Z }.

Section scrypt.
Context (scrypt : bytes → bytes → scrypt_cost → outcome crypto_error bytes).

Record ScryptPasswordEncoder := mk_scrypt {
  scrypt_salt : bytes; scrypt_params : scrypt_cost; scrypt_hash : string; scrypt_url_safe : bool;
}.

Definition scrypt_of_hash (password_hash : string) (url_safe : bool) : outcome crypto_error ScryptPasswordEncoder :=
  let parts := List.tl (split_on ":" password_hash) in
  p0 ← part parts 0; salt ← decode_bytes p0 url_safe;
  p1 ← part parts 1; n ← py_int p1;
  p2 ← part parts 2; r ← py_int p2;
  p3 ← part parts 3; p ← py_int p3;
  p4 ← part parts 4; maxmem ← py_int p4;
  p5 ← part parts 5; dklen ← py_int p5;
  p6 ← part parts 6;
  Ok (mk_scrypt salt (mk_cost n r p maxmem dklen) p6 url_safe).
Definition scrypt_of_password (salt : bytes) (cost : scrypt_cost) (password : option string) (url_safe : bool)
    : outcome crypto_error ScryptPasswordEncoder :=
  match password with
  | None => Raise PasswordRequiredError
  | Some p => h ← scrypt (utf8_encode p) salt cost; Ok (mk_scrypt salt cost (from_bytes h url_safe) url_safe)
  end.
Definition scrypt_encode (e : ScryptPasswordEncoder) : string :=
  let c := scrypt_params e in
  "scrypt:" +:+ key_text (scrypt_salt e) (scrypt_url_safe e) +:+ ":" +:+ int_text (cost_n c) +:+ ":" +:+
  int_text (cost_r c) +:+ ":" +:+ int_text (cost_p c) +:+ ":" +:+ int_text (cost_maxmem c) +:+ ":" +:+
  int_text (cost_dklen c) +:+ ":" +:+ scrypt_hash e.
Definition scrypt_challenge (e : ScryptPasswordEncoder) (password : string) : outcome crypto_error bool :=
  h ← scrypt (utf8_encode password) (scrypt_salt e) (scrypt_params e);
  Ok (String.eqb (scrypt_hash e) (from_bytes h (scrypt_url_safe e))).
Definition scrypt_encoder : IPasswordEncoder ScryptPasswordEncoder :=
  {| encode := scrypt_encode; challenge := scrypt_challenge |}.
End scrypt.

(** *** argon2 *)

Record argon2_cost := mk_argon2_cost {
  time_cost : Z; memory_cost : Z; parallelism : Z; hash_len : Z; salt_len : nat;
}.

Section argon2.
(** [PasswordHasher(...).hash(password, salt=salt)], a text; [verify] raises when
    the password does not match. *)
Context (hasher_hash : argon2_cost → bytes → bytes → outcome crypto_error string)
  (hasher_verify : argon2_cost → bytes → bytes → outcome crypto_error bool).

Record Argon2PasswordEncoder := mk_argon2 {
  argon2_salt : bytes; argon2_params : argon2_cost; argon2_hash : string; argon2_url_safe : bool;
}.

Definition argon2_of_hash (password_hash : string) (url_safe : bool) : outcome crypto_error Argon2PasswordEncoder :=
  let parts := List.tl (split_on ":" password_hash) in
  p0 ← part parts 0; salt ← decode_bytes p0 url_safe;
  p1 ← part parts 1; t ← py_int p1;
  p2 ← part parts 2; m ← py_int p2;
  p3 ← part parts 3; p ← py_int p3;
  p4 ← part parts 4; l ← py_int p4;
  p5 ← part parts 5;
  Ok (mk_argon2 salt (mk_argon2_cost t m p l (key_length salt)) p5 url_safe).
Definition argon2_of_password (salt : bytes) (t m p l : Z) (password : option string) (url_safe : bool)
    : outcome crypto_error Argon2PasswordEncoder :=
  match password with
  | None => Raise PasswordRequiredError
  | Some pw =>
      let cost := mk_argon2_cost t m p l (key_length salt) in
      h ← hasher_hash cost (utf8_encode pw) salt;
      Ok (mk_argon2 salt cost (from_bytes (utf8_encode h) url_safe) url_safe)
  end.
Definition argon2_encode (e : Argon2PasswordEncoder) : string :=
  let c := argon2_params e in
  "argon2:" +:+ key_text (argon2_salt e) (argon2_url_safe e) +:+ ":" +:+ int_text (time_cost c) +:+ ":" +:+
  int_text (memory_cost c) +:+ ":" +:+ int_text (parallelism c) +:+ ":" +:+ int_text (hash_len c) +:+ ":" +:+
  argon2_hash e.
Definition argon2_challenge (e : Argon2PasswordEncoder) (password : string) : outcome crypto_error bool :=
  h ← decode_bytes (argon2_hash e) (argon2_url_safe e);
  hasher_verify (argon2_params e) h (utf8_encode password).
Definition argon2_encoder : IPasswordEncoder Argon2PasswordEncoder :=
  {| encode := argon2_encode; challenge := argon2_challenge |}.
End argon2.

(** ** Ciphers *)

Definition AES_KEY_SIZE : nat := 32.
Definition check_key (key : bytes) : outcome crypto_error unit :=
  check (negb (key_length key =? AES_KEY_SIZE)) KeySizeError.

(** [except Exception as e: raise DecryptionFailedError from e] *)
Definition decryption {A} (m : outcome crypto_error A) : outcome crypto_error A :=
  map_error (λ _, DecryptionFailedError) m.
Definition decode_text (b : bytes) : outcome crypto_error string :=
  match utf8_decode b with Some s => Ok s | None => Raise ValueError end.

Section ciphers.
Context (pad unpad : bytes → outcome crypto_error bytes).

(** AES-CBC: the key, the initialisation vector and the text *)
Context (cbc_encrypt cbc_decrypt : bytes → bytes → bytes → outcome crypto_error bytes).

Definition aes_encrypt (key : bytes) (url_safe : bool) (iv : bytes) (message : string) : outcome crypto_error string :=
  check_key key ≫= λ _,
  plain ← pad (utf8_encode message);
  cipher ← cbc_encrypt key iv plain;
  Ok (key_text iv url_safe +:+ ":" +:+ from_bytes cipher url_safe).
Definition aes_decrypt (key : bytes) (url_safe : bool) (cipher : string) : outcome crypto_error string :=
  check_key key ≫= λ _,
  decryption
    match split_on ":" cipher with
    | [iv; text] =>
        iv_bytes ← decode_bytes iv url_safe;
        cipher_bytes ← decode_bytes text url_safe;
        plain ← cbc_decrypt key iv_bytes cipher_bytes;
        b ← unpad plain; decode_text b
    | _ => Raise ValueError
    end.

(** AES-GCM: the key, the nonce, the associated data and the text; the tag is
    checked by [gcm_decrypt]. *)
Context (gcm_encrypt : bytes → bytes → bytes → bytes → outcome crypto_error (bytes * bytes))
  (gcm_decrypt : bytes → bytes → bytes → bytes → bytes → outcome crypto_error bytes).

Definition gcm_text (aad tag iv cipher : bytes) (url_safe : bool) : string :=
  key_text aad url_safe +:+ ":" +:+ from_bytes tag url_safe +:+ ":" +:+ key_text iv url_safe +:+ ":" +:+
  from_bytes cipher url_safe.
Definition Gcm_encrypt (key : bytes) (url_safe : bool) (aad iv : bytes) (message : string)
    : outcome crypto_error string :=
  check_key key ≫= λ _,
  plain ← pad (utf8_encode message);
  '(cipher, tag) ← gcm_encrypt key iv aad plain;
  Ok (gcm_text aad tag iv cipher url_safe).
Definition Gcm_decrypt (key : bytes) (url_safe : bool) (cipher : string) : outcome crypto_error string :=
  check_key key ≫= λ _,
  decryption
    match split_on ":" cipher with
    | [aad; tag; iv; text] =>
        aad_bytes ← decode_bytes aad url_safe;
        tag_bytes ← decode_bytes tag url_safe;
        iv_bytes ← decode_bytes iv url_safe;
        cipher_bytes ← decode_bytes text url_safe;
        plain ← gcm_decrypt key iv_bytes aad_bytes cipher_bytes tag_bytes;
        b ← unpad plain; decode_text b
    | _ => Raise ValueError
    end.
End ciphers.

(** *** RSA *)

Section rsa.
(** An imported key, what the library does with it, and its exports; [rsa_import]
    raises one of the exceptions the constructor catches, or another one. *)
Context {R : Type} (rsa_import : bytes → option string → outcome crypto_error R) (rsa_generate : nat → R).
Context (size_in_bits : R → nat) (has_private : R → bool).
Context (export_key : R → option string → bytes) (export_public : R → bytes).

Record AsymmetricKey := mk_asymmetric { private_key : option bytes; public_key : bytes }.
Definition KEY_SIZES : list nat := [1024; 2048; 4096; 8192].
Definition is_private (k : AsymmetricKey) : bool := match private_key k with Some _ => true | None => false end.

Definition import_key (key : bytes) (passphrase : option string) : outcome crypto_error R :=
  match rsa_import key passphrase with
  | Raise ValueError | Raise IndexError => Raise CannotImportAsymmetricKeyError
  | Raise e => Raise e
  | Ok k => if decide (size_in_bits k ∈ KEY_SIZES) then Ok k else Raise KeySizeError
  end.
Definition make_asymmetric_key (key : option bytes) (size : option nat) (passphrase : option string)
    : outcome crypto_error AsymmetricKey :=
  imported ← match key with Some b => Some <$> import_key b passphrase | None => Ok None end;
  chosen ← match size, imported with
           | Some n, _ => if decide (n ∈ KEY_SIZES) then Ok (rsa_generate n) else Raise KeySizeError
           | None, Some k => Ok k
           | None, None => Raise AsymmetricKeyRequiredError
           end;
  Ok (mk_asymmetric (if has_private chosen then Some (export_key chosen passphrase) else None)
        (export_public chosen)).

(** The primitives, on an imported key *)
Context (oaep_encrypt oaep_decrypt : R → bytes → outcome crypto_error bytes).
Context (hash : HashType → bytes → bytes).
Context (pkcs1_sign : R → HashType → bytes → outcome crypto_error bytes)
  (pkcs1_verify : R → HashType → bytes → bytes → bool).

Definition rsa_encrypt (k : AsymmetricKey) (url_safe : bool) (message : string) : outcome crypto_error string :=
  r ← rsa_import (public_key k) None;
  cipher ← oaep_encrypt r (utf8_encode message); Ok (from_bytes cipher url_safe).
Definition rsa_decrypt (k : AsymmetricKey) (url_safe : bool) (cipher : string) : outcome crypto_error string :=
  match private_key k with
  | None => Raise PrivateKeyRequiredError
  | Some private =>
      decryption (b ← decode_bytes cipher url_safe;
         r ← rsa_import private None;
         plain ← oaep_decrypt r b; decode_text plain)
  end.
Definition rsa_sign (k : AsymmetricKey) (url_safe : bool) (message : string) (t : HashType)
    : outcome crypto_error string :=
  match private_key k with
  | None => Raise PrivateKeyRequiredError
  | Some private =>
      r ← rsa_import private None;
      signature ← pkcs1_sign r t (hash_digest hash (HashText message) t); Ok (from_bytes signature url_safe)
  end.
Definition rsa_verify (k : AsymmetricKey) (url_safe : bool) (message signature : string) (t : HashType)
    : outcome crypto_error bool :=
  b ← decode_bytes signature url_safe;
  r ← rsa_import (public_key k) None;
  Ok (pkcs1_verify r t (hash_digest hash (HashText message) t) b).
End rsa.

(** ** Lemmas *)

Fixpoint no_char (c : ascii) (s : string) : Prop :=
  match s with "" => True | String d s' => d ≠ c ∧ no_char c s' end.

Lemma split_on_none c s : no_char c s → split_on c s = [s].
Proof.
  induction s as [|d s IH]; [done|]. intros [Hd Hs]. cbn [split_on].
  by rewrite (proj2 (Ascii.eqb_neq _ _) Hd), (IH Hs).
Qed.
Lemma split_on_cons c s t : no_char c s → split_on c (s +:+ String c t) = s :: split_on c t.
Proof.
  induction s as [|d s IH]; intros Hs.
  - change ("" +:+ ?x) with x. cbn [split_on]. by rewrite Ascii.eqb_refl.
  - destruct Hs as [Hd Hs]. rewrite string_app_cons. cbn [split_on].
    by rewrite (proj2 (Ascii.eqb_neq _ _) Hd), (IH Hs).
Qed.

Lemma string_all_no_char P c s : (∀ d, P d → d ≠ c) → string_all P s → no_char c s.
Proof. intros HP. induction s as [|d s IH]; [done|]. intros [Hd Hs]. split; auto. Qed.

Lemma from_bytes_no_colon b url_safe : no_char ":" (from_bytes b url_safe).
Proof.
  assert (∀ s t, no_char ":" s → no_char ":" t → no_char ":" (s +:+ t)) as Happ.
  { intros s t. induction s as [|d s IH]; [done|]. intros [Hd Hs] Ht. rewrite string_app_cons. split; auto. }
  assert (∀ v, (v < 64)%N → b64_char v ≠ ":"%char ∧ to_urlsafe (b64_char v) ≠ ":"%char) as Hchar.
  { intros v Hv. destruct (b64_value_char v Hv) as (H1 & _).
    assert (b64_char v ≠ ":"%char) as Hne by (intros Heq; by rewrite Heq in H1).
    split; [done|]. unfold to_urlsafe. destruct (Ascii.eqb _ _); [done|]. by destruct (Ascii.eqb _ _). }
  destruct url_safe.
  - rewrite from_bytes_urlsafe.
    assert (string_all (λ c, to_urlsafe c ≠ ":"%char) (b64data b)) as Hall by by apply b64data_chars, Hchar.
    induction (b64data b) as [|c s IH]; [done|]. destruct Hall. split; auto.
  - unfold from_bytes. rewrite b64encode_data. apply Happ.
    + eapply (string_all_no_char (λ d, d ≠ ":"%char)); [done|]. by apply b64data_chars, Hchar.
    + unfold b64padding. by destruct (String.length b mod 3) as [|[|]].
Qed.

Lemma string_all_mono (P Q : ascii → Prop) s : (∀ c, P c → Q c) → string_all P s → string_all Q s.
Proof. intros HPQ. induction s as [|c s IH]; [done|]. intros [? ?]. split; auto. Qed.

Lemma uint_chars d : string_all (λ c, is_digit c = true) (NilEmpty.string_of_uint d).
Proof. by induction d. Qed.
Lemma nilzero_uint n : NilZero.string_of_uint (N.to_uint n) = NilEmpty.string_of_uint (N.to_uint n).
Proof. pose proof (uint_nonnil n). by destruct (N.to_uint n). Qed.

Lemma strip_digits s b : string_all (λ c, is_digit c = true) s → (s = "" → b = true) → strip_underscores b s = Some s.
Proof.
  revert b. induction s as [|c s IH]; intros b Hs Hb; cbn [strip_underscores].
  - by rewrite Hb.
  - destruct Hs as [-> Hs]. by rewrite IH.
Qed.

Lemma digits_value_text n : digits_value (NilEmpty.string_of_uint (N.to_uint n)) = Ok (Z.of_uint (N.to_uint n)).
Proof.
  unfold digits_value. rewrite strip_digits; [|apply uint_chars|].
  - cbn [mbind option_bind]. by rewrite NilEmpty.usu.
  - pose proof (uint_nonnil n). by destruct (N.to_uint n).
Qed.

Lemma int_text_chars z : string_all (λ c, is_digit c = true ∨ c = "-"%char) (int_text z).
Proof.
  unfold int_text. destruct (int_text_eq z) as [n ->].
  assert (string_all (λ c, is_digit c = true ∨ c = "-"%char) (NilZero.string_of_uint (N.to_uint n))).
  { rewrite nilzero_uint. eapply string_all_mono; [|apply uint_chars]. by left. }
  destruct (z <? 0)%Z; cbn [NilZero.string_of_int]; [|done]. by split; [right|].
Qed.

Lemma strip_no_space s : string_all (λ c, py_isspace c = false) s → py_strip s = s.
Proof.
  intros Hs. apply py_strip_id. induction s as [|c s IH]; [constructor|]. destruct Hs. constructor; auto.
Qed.

Lemma int_char_facts c : is_digit c = true ∨ c = "-"%char → py_isspace c = false ∧ c ≠ ":"%char.
Proof. intros [Hc| ->]; [|done]. by destruct c as [[] [] [] [] [] [] [] []]. Qed.

Lemma int_text_no_colon z : no_char ":" (int_text z).
Proof. eapply string_all_no_char; [|apply int_text_chars]. intros c Hc. by apply int_char_facts. Qed.

Lemma py_int_text z : py_int (int_text z) = Ok z.
Proof.
  unfold py_int. rewrite strip_no_space.
  2:{ eapply string_all_mono; [|apply int_text_chars]. intros c Hc. by apply int_char_facts. }
  unfold int_text. pose proof (DecimalZ.of_to z) as Hz. destruct (int_text_eq z) as [n Hn]. rewrite Hn in *.
  destruct (z <? 0)%Z; cbn [NilZero.string_of_int Z.of_int] in *; rewrite nilzero_uint.
  - cbn [Ascii.eqb]. change (Ascii.eqb "-" "-") with true. cbv iota. by rewrite digits_value_text, <- Hz at 1.
  - destruct (NilEmpty.string_of_uint (N.to_uint n)) as [|c s] eqn:Hs.
    { pose proof (uint_nonnil n). by destruct (N.to_uint n). }
    assert (is_digit c = true) as Hc. { pose proof (uint_chars (N.to_uint n)) as Hall. rewrite Hs in Hall. apply Hall. }
    assert (c ≠ "-"%char ∧ c ≠ "+"%char) as [H1 H2] by by destruct c as [[] [] [] [] [] [] [] []].
    rewrite (proj2 (Ascii.eqb_neq _ _) H1), (proj2 (Ascii.eqb_neq _ _) H2), <- Hs, digits_value_text. by rewrite Hz.
Qed.

Lemma key_text_no_colon k url_safe : no_char ":" (key_text k url_safe).
Proof. destruct url_safe; apply from_bytes_no_colon. Qed.
Lemma decode_key_text k url_safe : decode_bytes (key_text k url_safe) url_safe = Ok k.
Proof.
  unfold decode_bytes, key_text, key_b64_urlsafe, key_b64. by destruct url_safe; rewrite get_bytes_from_bytes.
Qed.
Lemma decode_from_bytes b url_safe : decode_bytes (from_bytes b url_safe) url_safe = Ok b.
Proof. unfold decode_bytes. by rewrite get_bytes_from_bytes. Qed.

Lemma hash_type_text t : no_char ":" (translate char_lower (hash_name t)) ∧
  hash_type_of (translate char_upper (translate char_lower (hash_name t))) = Ok t.
Proof. by destruct t. Qed.

Lemma colon_cons x : ":" +:+ x = String ":" x.
Proof. done. Qed.

(** The parts of a text of colons. *)
Ltac split_parts :=
  repeat (rewrite split_on_cons by
    (apply key_text_no_colon || apply int_text_no_colon || apply from_bytes_no_colon || apply hash_type_text || by split_and!));
  rewrite ?split_on_none by (apply from_bytes_no_colon || done).
Ltac read_parts :=
  cbn [List.tl part lookup list_lookup mbind outcome_bind];
  rewrite ?decode_key_text, ?py_int_text, ?decode_from_bytes; cbn [mbind outcome_bind].

(** ** The encoders keep the contract *)

Section contracts.
Context (hashpw : bytes → bytes → outcome crypto_error bytes)
  (checkpw : bytes → bytes → outcome crypto_error bool).
(** bcrypt: a password matches its hash. *)
Context (checkpw_hashpw : ∀ p salt h, hashpw p salt = Ok h → checkpw p h = Ok true).

#[refine, global] Instance bcrypt_contract gensalt url_safe :
  @PasswordContract _ (bcrypt_encoder checkpw) "bcrypt" (λ t, bcrypt_of_hash t url_safe)
    (λ p, bcrypt_of_password hashpw gensalt (Some p) url_safe) := {}.
Proof.
  - intros e. by eexists.
  - intros p e He. cbn [bcrypt_of_password] in He. apply outcome_bind_Ok in He as (h & _ & [= <-]).
    cbn [encode bcrypt_encoder]. unfold bcrypt_encode, bcrypt_of_hash. cbn [bcrypt_salt bcrypt_url_safe bcrypt_hash].
    change "bcrypt:" with ("bcrypt" +:+ ":"). rewrite string_app_assoc, !colon_cons.
    split_parts. by read_parts.
  - intros p e He. cbn [bcrypt_of_password] in He. apply outcome_bind_Ok in He as (h & Hh & [= <-]).
    cbn [challenge bcrypt_encoder]. unfold bcrypt_challenge. cbn [bcrypt_hash bcrypt_url_safe]. read_parts. by apply (checkpw_hashpw _ gensalt).
Qed.

Context (pbkdf2_hmac : string → bytes → bytes → Z → outcome crypto_error bytes).

#[refine, global] Instance pbkdf2_contract salt t iteration :
  @PasswordContract _ (pbkdf2_encoder pbkdf2_hmac) "pbkdf2" (λ x, pbkdf2_of_hash x false)
    (λ p, pbkdf2_of_password pbkdf2_hmac salt t iteration (Some p) false) := {}.
Proof.
  - intros e. by eexists.
  - intros p e He. cbn [pbkdf2_of_password] in He. apply outcome_bind_Ok in He as (h & _ & [= <-]).
    cbn [encode pbkdf2_encoder]. unfold pbkdf2_encode, pbkdf2_of_hash.
    cbn [pbkdf2_salt pbkdf2_url_safe pbkdf2_hash pbkdf2_hash_type pbkdf2_iteration].
    change (b64encode h) with (from_bytes h false). change "pbkdf2:" with ("pbkdf2" +:+ ":"). rewrite string_app_assoc, !colon_cons.
    split_parts. cbn [List.tl part lookup list_lookup mbind outcome_bind].
    rewrite (proj2 (hash_type_text t)). by read_parts.
  - intros p e He. cbn [pbkdf2_of_password] in He. apply outcome_bind_Ok in He as (h & Hh & [= <-]).
    cbn [challenge pbkdf2_encoder]. unfold pbkdf2_challenge.
    cbn [pbkdf2_salt pbkdf2_hash_type pbkdf2_iteration pbkdf2_of_password]. rewrite Hh. cbn. by rewrite String.eqb_refl.
Qed.

Context (scrypt : bytes → bytes → scrypt_cost → outcome crypto_error bytes).

#[refine, global] Instance scrypt_contract salt cost url_safe :
  @PasswordContract _ (scrypt_encoder scrypt) "scrypt" (λ x, scrypt_of_hash x url_safe)
    (λ p, scrypt_of_password scrypt salt cost (Some p) url_safe) := {}.
Proof.
  - intros e. by eexists.
  - intros p e He. cbn [scrypt_of_password] in He. apply outcome_bind_Ok in He as (h & _ & [= <-]). destruct cost.
    cbn [encode scrypt_encoder]. unfold scrypt_encode, scrypt_of_hash.
    cbn [scrypt_salt scrypt_params scrypt_hash scrypt_url_safe cost_n cost_r cost_p cost_maxmem cost_dklen].
    change "scrypt:" with ("scrypt" +:+ ":"). rewrite string_app_assoc, !colon_cons.
    split_parts. by read_parts.
  - intros p e He. cbn [scrypt_of_password] in He. apply outcome_bind_Ok in He as (h & Hh & [= <-]).
    cbn [challenge scrypt_encoder]. unfold scrypt_challenge. cbn [scrypt_salt scrypt_params scrypt_hash scrypt_url_safe].
    rewrite Hh. cbn [mbind outcome_bind]. by rewrite String.eqb_refl.
Qed.

Context (hasher_hash : argon2_cost → bytes → bytes → outcome crypto_error string)
  (hasher_verify : argon2_cost → bytes → bytes → outcome crypto_error bool).
(** argon2: a password matches its hash. *)
Context (verify_hash : ∀ cost p salt h, hasher_hash cost p salt = Ok h →
  hasher_verify cost (utf8_encode h) p = Ok true).

#[refine, global] Instance argon2_contract salt t m par l url_safe :
  @PasswordContract _ (argon2_encoder hasher_verify) "argon2" (λ x, argon2_of_hash x url_safe)
    (λ p, argon2_of_password hasher_hash salt t m par l (Some p) url_safe) := {}.
Proof.
  - intros e. by eexists.
  - intros p e He. cbn [argon2_of_password] in He. apply outcome_bind_Ok in He as (h & _ & [= <-]).
    cbn [encode argon2_encoder]. unfold argon2_encode, argon2_of_hash.
    cbn [argon2_salt argon2_params argon2_hash argon2_url_safe time_cost memory_cost parallelism hash_len].
    change "argon2:" with ("argon2" +:+ ":"). rewrite string_app_assoc, !colon_cons.
    split_parts. by read_parts.
  - intros p e He. cbn [argon2_of_password] in He. apply outcome_bind_Ok in He as (h & Hh & [= <-]).
    cbn [challenge argon2_encoder]. unfold argon2_challenge. cbn [argon2_params argon2_hash argon2_url_safe].
    read_parts. by apply (verify_hash _ _ salt).
Qed.
End contracts.

(** ** Theorems *)

Section pbkdf2_facts.
Context (pbkdf2_hmac : string → bytes → bytes → Z → outcome crypto_error bytes).

Lemma rstrip_no_padding s : no_char "=" s → rstrip_padding s = s.
Proof.
  induction s as [|c s IH]; [done|]. intros [Hc Hs]. cbn [rstrip_padding]. rewrite (IH Hs).
  destruct s; [|done]. by rewrite (proj2 (Ascii.eqb_neq _ _) Hc).
Qed.

(** A password is accepted exactly when its derived key is the stored one. *)
Theorem pbkdf2_challenge_exact salt t iteration p q h h' e :
  pbkdf2_hmac (hash_name t) (utf8_encode p) salt iteration = Ok h →
  pbkdf2_hmac (hash_name t) (utf8_encode q) salt iteration = Ok h' →
  pbkdf2_of_password pbkdf2_hmac salt t iteration (Some p) false = Ok e →
  pbkdf2_challenge pbkdf2_hmac e q = Ok (bool_decide (h = h')).
Proof.
  intros Hh Hh'. cbn [pbkdf2_of_password]. rewrite Hh. cbn [mbind outcome_bind]. intros [= <-].
  unfold pbkdf2_challenge. cbn [pbkdf2_salt pbkdf2_hash_type pbkdf2_iteration pbkdf2_of_password]. rewrite Hh'.
  cbn [mbind outcome_bind]. f_equal. apply eq_bool_prop_intro.
  rewrite bool_decide_spec, Is_true_true, String.eqb_eq. unfold pbkdf2_encode.
  cbn [pbkdf2_salt pbkdf2_url_safe pbkdf2_hash pbkdf2_hash_type pbkdf2_iteration]. split; [|by intros ->].
  intros Heq. repeat apply (inj (String.append _)) in Heq. by apply (inj (λ b, from_bytes b false)) in Heq.
Qed.

(** An encoder made with [url_safe=True] rejects its own password: the encoder
    that [challenge] compares with is made without [url_safe], and the 32 bytes of
    a salt have padding in one alphabet and none in the other. *)
Theorem pbkdf2_url_safe_rejects_own_password salt t iteration p e :
  String.length salt mod 3 ≠ 0 →
  pbkdf2_of_password pbkdf2_hmac salt t iteration (Some p) true = Ok e →
  pbkdf2_challenge pbkdf2_hmac e p = Ok false.
Proof.
  intros Hsalt. cbn [pbkdf2_of_password].
  destruct (pbkdf2_hmac (hash_name t) (utf8_encode p) salt iteration) as [h|] eqn:Hh; [|done]. cbn [mbind outcome_bind]. intros [= <-].
  unfold pbkdf2_challenge. cbn [pbkdf2_salt pbkdf2_hash_type pbkdf2_iteration pbkdf2_of_password]. rewrite Hh.
  cbn [mbind outcome_bind]. f_equal. apply String.eqb_neq. unfold pbkdf2_encode.
  cbn [pbkdf2_salt pbkdf2_url_safe pbkdf2_hash pbkdf2_hash_type pbkdf2_iteration]. intros Heq.
  do 5 apply (inj (String.append _)) in Heq. apply (f_equal (split_on ":")) in Heq.
  rewrite !colon_cons in Heq.
  rewrite !split_on_cons in Heq by apply key_text_no_colon. injection Heq as Heq _. revert Heq.
  unfold key_text, key_b64_urlsafe, key_b64. rewrite from_bytes_urlsafe. unfold from_bytes. rewrite b64encode_data.
  intros Heq%(f_equal String.length). rewrite translate_length, string_app_length in Heq.
  unfold b64padding in Heq. destruct (String.length salt mod 3) as [|[|]]; cbn in Heq; lia.
Qed.
End pbkdf2_facts.

(** *** The hash of a file *)

Lemma take_drop s n : string_take n s +:+ string_drop n s = s.
Proof.
  revert s. induction n as [|n IH]; intros [|c s]; try done. cbn [string_take string_drop]. by rewrite string_app_cons, IH.
Qed.
Lemma drop_length s n : String.length (string_drop n s) = String.length s - n.
Proof. revert s. induction n as [|n IH]; intros [|c s]; try done. cbn. by rewrite IH. Qed.
Lemma take_app s t : string_take (String.length s) (s +:+ t) = s.
Proof. induction s as [|c s IH]; [by destruct t|]. rewrite string_app_cons. cbn. by rewrite IH. Qed.
Lemma drop_app s t : string_drop (String.length s) (s +:+ t) = t.
Proof. induction s as [|c s IH]; [by destruct t|]. rewrite string_app_cons. cbn. by rewrite IH. Qed.
Lemma any_byte_zeros n : any_byte (string_repeat n "000") = false.
Proof. by induction n. Qed.
Lemma repeat_length n c : String.length (string_repeat n c) = n.
Proof. induction n as [|n IH]; [done|]. cbn. by rewrite IH. Qed.

(** A file is read to its end when each buffer has a byte that is not zero. *)
Fixpoint buffers_nonzero (fuel size : nat) (data : bytes) : Prop :=
  match fuel with
  | O => True
  | S fuel =>
      data = "" ∨ any_byte (string_take size data) = true ∧ buffers_nonzero fuel size (string_drop size data)
  end.

Lemma read_buffers_all fuel size data : 0 < size → String.length data ≤ fuel →
  buffers_nonzero fuel size data → read_buffers fuel size data = data.
Proof.
  intros Hsize. revert data. induction fuel as [|fuel IH]; intros data Hlen Hbuf; cbn [read_buffers].
  - by destruct data; cbn in Hlen; [|lia].
  - destruct Hbuf as [->|[Hany Hbuf]]; [by destruct size|]. rewrite Hany, IH; [apply take_drop| |done].
    rewrite drop_length. lia.
Qed.

(** A buffer of zeros ends the loop: what follows it in the file does not matter. *)
Lemma read_buffers_zeros fuel size pre rest : 0 < size →
  read_buffers fuel size (string_repeat size "000" +:+ rest) = "" ∧
  (String.length pre = size → any_byte pre = true →
   read_buffers (S (S fuel)) size (pre +:+ string_repeat size "000" +:+ rest) = pre).
Proof.
  intros Hsize.
  assert (∀ fuel, read_buffers fuel size (string_repeat size "000" +:+ rest) = "") as Hz.
  { intros [|f]; [done|]. cbn [read_buffers]. rewrite <- (repeat_length size "000") at 1. by rewrite take_app, any_byte_zeros. }
  split; [apply Hz|]. intros <- Hpre. set (n := String.length pre) in *.
  change (read_buffers (S (S fuel)) n (pre +:+ string_repeat n "000" +:+ rest)) with
    (if any_byte (string_take n (pre +:+ string_repeat n "000" +:+ rest))
     then string_take n (pre +:+ string_repeat n "000" +:+ rest) +:+
          read_buffers (S fuel) n (string_drop n (pre +:+ string_repeat n "000" +:+ rest)) else "").
  unfold n. rewrite take_app, drop_app, Hpre. fold n. rewrite Hz. apply string_app_nil.
Qed.

(** The hash of a file that starts with 64 KiB of zeros is the hash of the empty
    file, whatever follows them. *)
Theorem zero_buffer_hides_the_rest (digest : HashType → bytes → bytes) t rest :
  hash_digest digest (HashReader (string_repeat BUFFER_SIZE "000" +:+ rest)) t =
  hash_digest digest (HashReader "") t.
Proof.
  unfold hash_digest. apply (f_equal (digest t)).
  assert (0 < BUFFER_SIZE) as Hpos by (apply Nat.ltb_lt; reflexivity).
  exact (proj1 (read_buffers_zeros _ BUFFER_SIZE "" rest Hpos)).
Qed.

(** *** Ciphers *)

Section cipher_facts.
Context (pad unpad : bytes → outcome crypto_error bytes).
Context (unpad_pad : ∀ b p, pad b = Ok p → unpad p = Ok b).
Context (cbc_encrypt cbc_decrypt : bytes → bytes → bytes → outcome crypto_error bytes).
Context (cbc_inverse : ∀ k iv p c, cbc_encrypt k iv p = Ok c → cbc_decrypt k iv c = Ok p).
Context (gcm_encrypt : bytes → bytes → bytes → bytes → outcome crypto_error (bytes * bytes))
  (gcm_decrypt : bytes → bytes → bytes → bytes → bytes → outcome crypto_error bytes).
Context (gcm_inverse : ∀ k iv aad p c tag, gcm_encrypt k iv aad p = Ok (c, tag) → gcm_decrypt k iv aad c tag = Ok p).

Lemma decode_text_utf8 s : decode_text (utf8_encode s) = Ok s.
Proof. unfold decode_text. by rewrite utf8_roundtrip. Qed.

Theorem aes_roundtrip key url_safe iv message cipher :
  aes_encrypt pad cbc_encrypt key url_safe iv message = Ok cipher →
  aes_decrypt unpad cbc_decrypt key url_safe cipher = Ok message.
Proof.
  unfold aes_encrypt, aes_decrypt. destruct (check_key key) as [[]|]; [|done]. cbn [mbind outcome_bind].
  intros (p & Hp & (c & Hc & [= <-])%outcome_bind_Ok)%outcome_bind_Ok.
  change (if url_safe then rstrip_padding (urlsafe_b64encode c) else b64encode c) with (from_bytes c url_safe).
  rewrite colon_cons. split_parts. read_parts. rewrite (cbc_inverse _ _ _ _ Hc). cbn [mbind outcome_bind].
  rewrite (unpad_pad _ _ Hp). cbn [mbind outcome_bind]. by rewrite decode_text_utf8.
Qed.

Theorem gcm_roundtrip key url_safe aad iv message cipher :
  Gcm_encrypt pad gcm_encrypt key url_safe aad iv message = Ok cipher →
  Gcm_decrypt unpad gcm_decrypt key url_safe cipher = Ok message.
Proof.
  unfold Gcm_encrypt, Gcm_decrypt. destruct (check_key key) as [[]|]; [|done]. cbn [mbind outcome_bind].
  intros (p & Hp & ([c tag] & Hc & [= <-])%outcome_bind_Ok)%outcome_bind_Ok.
  unfold gcm_text. rewrite !colon_cons. split_parts. read_parts. rewrite (gcm_inverse _ _ _ _ _ _ Hc). cbn [mbind outcome_bind].
  rewrite (unpad_pad _ _ Hp). cbn [mbind outcome_bind]. by rewrite decode_text_utf8.
Qed.

(** Decryption raises one error, whatever is wrong with the text. *)
Theorem gcm_decrypt_errors key url_safe cipher e :
  Gcm_decrypt unpad gcm_decrypt key url_safe cipher = Raise e →
  e = if key_length key =? AES_KEY_SIZE then DecryptionFailedError else KeySizeError.
Proof.
  unfold Gcm_decrypt, check_key. destruct (key_length key =? AES_KEY_SIZE); cbn [negb check mbind outcome_bind].
  - unfold decryption. destruct (match _ with [] => _ | _ => _ end); by intros [= <-].
  - by intros [= <-].
Qed.
End cipher_facts.

Section rsa_facts.
Context {R : Type} (rsa_import : bytes → option string → outcome crypto_error R) (rsa_generate : nat → R).
Context (size_in_bits : R → nat) (has_private : R → bool).
Context (export_key : R → option string → bytes) (export_public : R → bytes).
Context (oaep_decrypt : R → bytes → outcome crypto_error bytes).

(** A private key that was given a passphrase cannot be used: it is exported with
    the passphrase and imported again without it. *)
Theorem passphrase_key_cannot_decrypt size passphrase k url_safe cipher :
  (∀ r, ∃ e, rsa_import (export_key r (Some passphrase)) None = Raise e) →
  has_private (rsa_generate size) = true →
  make_asymmetric_key rsa_import rsa_generate size_in_bits has_private export_key export_public
    None (Some size) (Some passphrase) = Ok k →
  rsa_decrypt rsa_import oaep_decrypt k url_safe cipher = Raise DecryptionFailedError.
Proof.
  intros Himport Hpriv. unfold make_asymmetric_key. cbn [mbind outcome_bind]. case_decide; [|done].
  cbn [mbind outcome_bind]. rewrite Hpriv. intros [= <-]. unfold rsa_decrypt. cbn [private_key].
  destruct (decode_bytes cipher url_safe) as [b|e]; cbn [mbind outcome_bind]; [|done].
  destruct (Himport (rsa_generate size)) as [e ->]. done.
Qed.
End rsa_facts.
