(* ===== verification/Snapshot.v ===== *)
(** * Signed snapshots of the authentication context

    The envelope ([core/spakky-auth/snapshot.py]) and the provider that signs and
    verifies it, which also hashes passwords
    ([plugins/spakky-cryptography/auth_provider.py]). A snapshot is the canonical
    JSON of a context with its signature inside; verification reads the text,
    takes the signature out and signs the rest again. The digest, the datetimes
    and the texts of floats are parameters with what Python documents of them. *)

From S2P Require Import Prelude Json Encoding Crypto Auth.

(** Aware and naive datetimes. *)
Class DateTime (T : Type) := {
  isoformat : T → string;
  fromisoformat : string → option T;
  is_aware : T → bool;
  replace_utc : T → T;
  before : T → T → bool;
  add_delta : T → Z → T;
  fromisoformat_isoformat t : fromisoformat (isoformat t) = Some t;
  replace_utc_aware t : is_aware (replace_utc t) = true;
  add_delta_aware t d : is_aware t = true → is_aware (add_delta t d) = true;
}.

(** Texts of floats: [repr], and [float] of a text, as a number and as its [repr].
    [float] gives a [repr] back. *)
Class FloatText := {
  float_repr : QArith_base.Q → string;
  float_value : string → QArith_base.Q;
  py_float : string → string;
  py_float_repr s r rest : scan_number py_float s = Some (JFloat r, rest) → float_text py_float r;
}.

Definition AUTH_CONTEXT_SNAPSHOT_SCHEMA_VERSION : Z := 1.
Definition SNAPSHOT_SIGNATURE_ALGORITHM : string := "HS256".

(** ** The envelope *)

Record AuthContextSnapshotSignature := mk_signature {
  signature_key_id : string; signature_algorithm : string; signature_text : string;
}.

Definition signature_payload (s : AuthContextSnapshotSignature) : list (string * json) :=
  [("algorithm", JStr (signature_algorithm s)); ("key_id", JStr (signature_key_id s));
   ("signature", JStr (signature_text s))].

Section snapshot.
Context {T : Type} `{DateTime T} `{FloatText}.

Record AuthContextSnapshot := mk_snapshot {
  snapshot_subject : AuthSubject;
  snapshot_issuer : string;
  issued_at : T;
  expires_at : T;
  snapshot_signature : AuthContextSnapshotSignature;
  schema_version : Z;
  snapshot_tenant : option string;
  snapshot_roles : list string;
  snapshot_scopes : list string;
  selected_claims : list AuthClaim;
  correlation_id : option string;
  delegation_chain : list string;
}.

Definition opt_json (s : option string) : json := match s with Some s => JStr s | None => JNull end.
Definition strings_json (l : list string) : json := JList (JStr <$> l).

Definition claim_json (v : AuthClaimValue) : json :=
  match v with
  | CNone => JNull | CBool b => JBool b | CInt z => JInt z | CFloat q => JFloat (float_repr q) | CStr s => JStr s
  end.
Definition claim_le (a b : AuthClaim) : bool := str_leb (claim_name a) (claim_name b).
(** [{claim.name: claim.value for claim in sorted(claims, key=name)}] *)
Definition claims_dict (claims : list AuthClaim) : list (string * json) :=
  dict_merge [] ((λ c, (claim_name c, claim_json (claim_value c))) <$> sort_by claim_le claims).
Definition subject_json (s : AuthSubject) : json :=
  JObj [("display_name", opt_json (display_name s)); ("id", JStr (subject_id s))].

Definition canonical_payload (s : AuthContextSnapshot) : list (string * json) :=
  [("correlation_id", opt_json (correlation_id s));
   ("delegation_chain", strings_json (delegation_chain s));
   ("expires_at", JStr (isoformat (expires_at s)));
   ("issued_at", JStr (isoformat (issued_at s)));
   ("issuer", JStr (snapshot_issuer s));
   ("roles", strings_json (snapshot_roles s));
   ("schema_version", JInt (schema_version s));
   ("scopes", strings_json (snapshot_scopes s));
   ("selected_claims", JObj (claims_dict (selected_claims s)));
   ("signature", JObj (signature_payload (snapshot_signature s)));
   ("subject", subject_json (snapshot_subject s));
   ("tenant", opt_json (snapshot_tenant s))].
Definition canonical_json (s : AuthContextSnapshot) : string := json_dumps (JObj (canonical_payload s)).
Definition base64url_canonical_json (s : AuthContextSnapshot) : string :=
  rstrip_padding (urlsafe_b64encode (utf8_encode (canonical_json s))).

(** ** [CryptographyAuthProvider] *)

Record CryptographyAuthProviderConfig := mk_config {
  snapshot_key : bytes;
  snapshot_key_id : string;
  snapshot_ttl : Z;
  verification_available : bool;
  password_available : bool;
}.

Record SnapshotSignRequest := mk_sign_request { request_context : AuthContext; request_tenant : option string }.

Definition _aware_datetime (t : T) : T := if is_aware t then t else replace_utc t.

Definition _unsigned_payload (c : AuthContext) (tenant : option string) (issued expires : T)
    : list (string * json) :=
  [("correlation_id", JNull);
   ("delegation_chain", JList []);
   ("expires_at", JStr (isoformat expires));
   ("issued_at", JStr (isoformat issued));
   ("issuer", JStr (issuer c));
   ("roles", strings_json (roles c));
   ("schema_version", JInt AUTH_CONTEXT_SNAPSHOT_SCHEMA_VERSION);
   ("scopes", strings_json (scopes c));
   ("selected_claims", JObj (claims_dict (claims c)));
   ("subject", subject_json (subject c));
   ("tenant", opt_json tenant)].

Context (digest : HMACType → bytes → bytes → bytes) (config : CryptographyAuthProviderConfig).

Definition signed_tenant (r : SnapshotSignRequest) : option string :=
  match request_tenant r with Some t => Some t | None => tenant (request_context r) end.

(** [now] is what the clock of the configuration returns. *)
Definition sign_snapshot (r : SnapshotSignRequest) (now : T) : AuthContextSnapshot :=
  let issued := _aware_datetime now in
  let c := request_context r in
  let unsigned_payload := _unsigned_payload c (signed_tenant r) issued (add_delta issued (snapshot_ttl config)) in
  let signature := sign_text digest (snapshot_key config) HS256 (json_dumps (JObj unsigned_payload)) true in
  mk_snapshot (subject c) (issuer c) issued (add_delta issued (snapshot_ttl config))
    (mk_signature (snapshot_key_id config) SNAPSHOT_SIGNATURE_ALGORITHM signature)
    AUTH_CONTEXT_SNAPSHOT_SCHEMA_VERSION (signed_tenant r) (roles c) (scopes c) (claims c) None [].

(** *** Reading a payload *)

Definition invalid {A} : outcome auth_error A := Raise InvalidAuthContextSnapshotError.

Definition _decode_envelope (envelope : string) : outcome auth_error (list (string * json)) :=
  match (b ← get_bytes envelope true; t ← utf8_decode b; json_loads py_float t) with
  | Some (JObj payload) => Ok payload
  | _ => invalid
  end.
Definition _dict_value (p : list (string * json)) (k : string) : outcome auth_error (list (string * json)) :=
  match dict_get k p with Some (JObj o) => Ok o | _ => invalid end.
Definition _string_value (p : list (string * json)) (k : string) : outcome auth_error string :=
  match dict_get k p with Some (JStr s) => Ok s | _ => invalid end.
Definition _optional_string_value (p : list (string * json)) (k : string) : outcome auth_error (option string) :=
  match dict_get k p with
  | None | Some JNull => Ok None
  | Some (JStr s) => Ok (Some s)
  | _ => invalid
  end.
Fixpoint string_items (l : list json) : outcome auth_error (list string) :=
  match l with
  | [] => Ok []
  | JStr s :: l' => ss ← string_items l'; Ok (s :: ss)
  | _ :: _ => invalid
  end.
Definition _string_tuple_value (p : list (string * json)) (k : string) : outcome auth_error (list string) :=
  match dict_get k p with Some (JList l) => string_items l | _ => invalid end.
Definition _claim_value (v : json) : outcome auth_error AuthClaimValue :=
  match v with
  | JNull => Ok CNone | JStr s => Ok (CStr s) | JInt z => Ok (CInt z) | JBool b => Ok (CBool b)
  | JFloat r => Ok (CFloat (float_value r))
  | JList _ | JObj _ => invalid
  end.
Fixpoint claim_items (l : list (string * json)) : outcome auth_error (list AuthClaim) :=
  match l with
  | [] => Ok []
  | (k, v) :: l' => x ← _claim_value v; cs ← claim_items l'; Ok (mk_claim k x :: cs)
  end.
Definition _claims_value (p : list (string * json)) (k : string) : outcome auth_error (list AuthClaim) :=
  o ← _dict_value p k; claim_items (sort_keys o).
Definition _datetime_value (p : list (string * json)) (k : string) : outcome auth_error T :=
  s ← _string_value p k;
  match fromisoformat s with Some t => Ok (_aware_datetime t) | None => invalid end.

Definition _auth_context_from_payload (p : list (string * json)) : outcome auth_error AuthContext :=
  subject_payload ← _dict_value p "subject";
  sid ← _string_value subject_payload "id";
  name ← _optional_string_value subject_payload "display_name";
  iss ← _string_value p "issuer";
  ten ← _optional_string_value p "tenant";
  rs ← _string_tuple_value p "roles";
  ss ← _string_tuple_value p "scopes";
  cs ← _claims_value p "selected_claims";
  Ok (mk_auth_context (mk_subject sid name) iss ten rs ss cs None []).

Definition _verify_payload_signature (p : list (string * json)) : outcome auth_error unit :=
  s ← _dict_value p "signature";
  key_id ← _string_value s "key_id";
  algorithm ← _string_value s "algorithm";
  signature ← _string_value s "signature";
  check (negb (String.eqb key_id (snapshot_key_id config))) InvalidAuthContextSnapshotError ≫= λ _,
  check (negb (String.eqb algorithm SNAPSHOT_SIGNATURE_ALGORITHM)) InvalidAuthContextSnapshotError ≫= λ _,
  check (negb (hmac_verify digest (snapshot_key config) HS256
                 (json_dumps (JObj (dict_del "signature" p))) signature true))
    InvalidAuthContextSnapshotError.

Definition verify_snapshot (envelope : string) (now : T) : outcome auth_error AuthContext :=
  check (negb (verification_available config)) AuthVerificationProviderUnavailableError ≫= λ _,
  check (String.eqb envelope "") MissingAuthContextSnapshotError ≫= λ _,
  payload ← _decode_envelope envelope;
  _verify_payload_signature payload ≫= λ _,
  expires ← _datetime_value payload "expires_at";
  check (before expires (_aware_datetime now)) ExpiredAuthContextSnapshotError ≫= λ _,
  _auth_context_from_payload payload.

Record AuthContextSnapshotVerificationResult := mk_result {
  result_decision : AuthorizationDecision;
  result_auth_context : option AuthContext;
}.
Definition verify_snapshot_result (envelope : string) (now : T)
    : outcome auth_error AuthContextSnapshotVerificationResult :=
  match verify_snapshot envelope now with
  | Ok c => Ok (mk_result decision_allow (Some c))
  | Raise MissingAuthContextSnapshotError => Ok (mk_result (decision_challenge SNAPSHOT_MISSING None) None)
  | Raise InvalidAuthContextSnapshotError => Ok (mk_result (decision_challenge SNAPSHOT_INVALID None) None)
  | Raise ExpiredAuthContextSnapshotError => Ok (mk_result (decision_challenge SNAPSHOT_EXPIRED None) None)
  | Raise AuthVerificationProviderUnavailableError =>
      Ok (mk_result (decision_error VERIFICATION_PROVIDER_UNAVAILABLE None) None)
  | Raise e => Raise e
  end.
End snapshot.

(** *** Passwords *)

Section passwords.
Context (hashpw : bytes → bytes → outcome crypto_error bytes)
  (checkpw : bytes → bytes → outcome crypto_error bool)
  (pbkdf2_hmac : string → bytes → bytes → Z → outcome crypto_error bytes)
  (scrypt : bytes → bytes → scrypt_cost → outcome crypto_error bytes)
  (hasher_verify : argon2_cost → bytes → bytes → outcome crypto_error bool).
Context (available : bool).

Inductive password_error := PasswordProviderUnavailable | PasswordEncoderError (e : crypto_error).

Definition hash_password (gensalt : bytes) (password : string) : outcome password_error string :=
  if available then
    map_error PasswordEncoderError (bcrypt_encode <$> bcrypt_of_password hashpw gensalt (Some password) false)
  else Raise PasswordProviderUnavailable.

Inductive any_encoder :=
  | Argon2 (e : Argon2PasswordEncoder) | Bcrypt (e : BcryptPasswordEncoder)
  | Pbkdf2 (e : Pbkdf2PasswordEncoder) | Scrypt (e : ScryptPasswordEncoder).

(** [None]: the algorithm is unknown; the code raises
    [InvalidAuthContextSnapshotError]. *)
Definition _password_encoder (h : string) : outcome (option crypto_error) any_encoder :=
  if String.prefix "argon2:" h then map_error Some (Argon2 <$> argon2_of_hash h false)
  else if String.prefix "bcrypt:" h then map_error Some (Bcrypt <$> bcrypt_of_hash h false)
  else if String.prefix "pbkdf2:" h then map_error Some (Pbkdf2 <$> pbkdf2_of_hash h false)
  else if String.prefix "scrypt:" h then map_error Some (Scrypt <$> scrypt_of_hash h false)
  else Raise None.

Definition challenge_any (e : any_encoder) (password : string) : outcome crypto_error bool :=
  match e with
  | Argon2 e => argon2_challenge hasher_verify e password
  | Bcrypt e => bcrypt_challenge checkpw e password
  | Pbkdf2 e => pbkdf2_challenge pbkdf2_hmac e password
  | Scrypt e => scrypt_challenge scrypt e password
  end.

Definition verify_password (password password_hash : string) : AuthorizationDecision :=
  if available then
    match (e ← _password_encoder password_hash; map_error Some (challenge_any e password)) with
    | Ok true => decision_allow
    | Ok false | Raise _ => decision_challenge INVALID_CREDENTIAL None
    end
  else decision_error VERIFICATION_PROVIDER_UNAVAILABLE None.
End passwords.

(** ** Reading does not depend on the order of keys *)

Section reading.
Context {T : Type} `{DateTime T} `{FloatText}.
Implicit Types (p o : list (string * json)) (k : string).

Lemma canonical_scalar v :
  match v with JList l => canonical v = JList (map canonical l) | JObj o => canonical v = JObj (canonical_members o)
  | _ => canonical v = v end.
Proof. by destruct v. Qed.

Lemma string_value_canonical p k : NoDup p.*1 → _string_value (canonical_members p) k = _string_value p k.
Proof. intros Hp. unfold _string_value. rewrite dict_get_canonical by done. by destruct (dict_get k p) as [[]|]. Qed.
Lemma optional_string_value_canonical p k : NoDup p.*1 →
  _optional_string_value (canonical_members p) k = _optional_string_value p k.
Proof. intros Hp. unfold _optional_string_value. rewrite dict_get_canonical by done. by destruct (dict_get k p) as [[]|]. Qed.
Lemma string_items_canonical l : string_items (map canonical l) = string_items l.
Proof. induction l as [|v l IH]; [done|]. destruct v; cbn [map canonical string_items]; by rewrite ?IH. Qed.
Lemma string_tuple_value_canonical p k : NoDup p.*1 →
  _string_tuple_value (canonical_members p) k = _string_tuple_value p k.
Proof.
  intros Hp. unfold _string_tuple_value. rewrite dict_get_canonical by done.
  destruct (dict_get k p) as [[]|]; try done. apply string_items_canonical.
Qed.
Lemma dict_value_canonical p k : NoDup p.*1 →
  _dict_value (canonical_members p) k = canonical_members <$> _dict_value p k.
Proof. intros Hp. unfold _dict_value. rewrite dict_get_canonical by done. by destruct (dict_get k p) as [[]|]. Qed.
Lemma claim_items_canonical l : claim_items (map (λ kv, (kv.1, canonical kv.2)) l) = claim_items l.
Proof.
  induction l as [|[k v] l IH]; [done|]. cbn [map fst snd claim_items]. rewrite IH. by destruct v.
Qed.
Lemma claims_value_canonical p k : NoDup p.*1 → _claims_value (canonical_members p) k = _claims_value p k.
Proof.
  intros Hp. unfold _claims_value. rewrite dict_value_canonical by done.
  destruct (_dict_value p k) as [o|e]; [|done]. cbn [fmap outcome_fmap mbind outcome_bind]. unfold canonical_members.
  rewrite sort_keys_idemp, sort_keys_map. apply claim_items_canonical.
Qed.

Lemma dict_value_NoDup p k o : json_ok py_float (JObj p) → _dict_value p k = Ok o → NoDup o.*1.
Proof.
  intros [_ Hp]%json_ok_obj Ho. unfold _dict_value in Ho. destruct (dict_get k p) as [[]|] eqn:Hk; try done.
  injection Ho as ->. apply dict_get_elem_of in Hk. rewrite Forall_forall in Hp. by apply Hp, json_ok_obj in Hk as [? _].
Qed.

Lemma auth_context_canonical p : json_ok py_float (JObj p) →
  _auth_context_from_payload (canonical_members p) = _auth_context_from_payload p.
Proof.
  intros Hok. assert (NoDup p.*1) as Hp by by apply json_ok_obj in Hok as [? _].
  unfold _auth_context_from_payload. rewrite dict_value_canonical by done.
  destruct (_dict_value p "subject") as [o|e] eqn:Ho; [|done]. apply (dict_value_NoDup _ _ _ Hok) in Ho.
  cbn [fmap outcome_fmap mbind outcome_bind].
  by rewrite ?(string_value_canonical o), ?(optional_string_value_canonical o), ?(string_value_canonical p),
    ?(optional_string_value_canonical p), ?string_tuple_value_canonical, ?claims_value_canonical by done.
Qed.
Lemma datetime_value_canonical p k : NoDup p.*1 → _datetime_value (canonical_members p) k = _datetime_value p k.
Proof. intros Hp. unfold _datetime_value. by rewrite string_value_canonical. Qed.

(** *** ... nor on the signature *)

Lemma auth_context_del p : _auth_context_from_payload (dict_del "signature" p) = _auth_context_from_payload p.
Proof.
  unfold _auth_context_from_payload, _claims_value, _dict_value, _string_value, _optional_string_value, _string_tuple_value.
  by rewrite !dict_get_del_ne.
Qed.
Lemma datetime_value_del p k : k ≠ "signature" → _datetime_value (dict_del "signature" p) k = _datetime_value p k.
Proof. intros Hk. unfold _datetime_value, _string_value. by rewrite dict_get_del_ne. Qed.

(** *** What [json.loads] returns is a value *)

Lemma constants_ok table : Forall (λ e, json_ok py_float e.2) table → ∀ s v r,
  scan_constant table s = Some (v, r) → json_ok py_float v.
Proof.
  intros Htab s v r. induction Htab as [|[q w] table Hw Htab IH]; [done|]. cbn [scan_constant].
  destruct (strip_prefix q s); [by intros [= <- <-]|apply IH].
Qed.
Lemma scalar_ok s v r : scan_scalar py_float s = Some (v, r) → json_ok py_float v.
Proof.
  unfold scan_scalar. destruct (scan_constant constants s) as [[w r']|] eqn:Hc.
  - intros [= <- <-]. revert Hc. apply constants_ok. unfold constants. by repeat constructor.
  - intros Hn. destruct v; try done; [by apply (py_float_repr s _ r)|..];
      unfold scan_number in Hn; destruct (scan_int s) as [[i r0]|]; try done; cbn in Hn;
      destruct (scan_frac r0) as [fr r1]; destruct (scan_exp r1) as [ex r2];
      destruct (String.eqb _ _); try done; by destruct (DecimalString.NilZero.int_of_string i).
Qed.

Lemma dict_set_ok k v o : json_ok py_float v → json_ok py_float (JObj o) → json_ok py_float (JObj (dict_set k v o)).
Proof.
  intros Hv [Hnd Ho]%json_ok_obj. apply json_ok_obj. split; [by apply dict_set_NoDup|]. clear Hnd.
  induction Ho as [|[k' v'] o Hv' Ho IH]; cbn [dict_set]; [by repeat constructor|]. case_decide; by constructor.
Qed.

Lemma parse_ok n :
  (∀ s v r, parse_value py_float n s = Some (v, r) → json_ok py_float v) ∧
  (∀ l s v r, json_ok py_float (JList l) → parse_elements py_float n l s = Some (v, r) → json_ok py_float v) ∧
  (∀ o s v r, json_ok py_float (JObj o) → parse_members py_float n o s = Some (v, r) → json_ok py_float v).
Proof.
  induction n as [|n (IHv & IHe & IHm)]; [done|]. split_and!.
  - intros [|c s] v r; [done|]. cbn [parse_value].
    destruct (Ascii.eqb c quote_char); [|destruct (Ascii.eqb c "["); [|destruct (Ascii.eqb c "{")]].
    + destruct (scan_chars s) as [[t r']|]; [|done]. by intros [= <- <-].
    + destruct (next_is _ _); [by intros [= <- <-]|]. by apply IHe.
    + destruct (next_is _ _); [intros [= <- <-]|apply IHm]; apply json_ok_obj; split; constructor.
    + apply scalar_ok.
  - intros l s v r Hl. cbn [parse_elements]. destruct (parse_value py_float n s) as [[w r']|] eqn:Hw; [|done].
    apply IHv in Hw. cbn [mbind option_bind].
    assert (json_ok py_float (JList (l ++ [w]))) as Hlw.
    { apply json_ok_list. apply json_ok_list in Hl. apply Forall_app. by repeat constructor. }
    destruct (next_is "," _); [by apply IHe|]. destruct (next_is "]" _); [by intros [= <- <-]|done].
  - intros o s v r Ho. cbn [parse_members]. destruct (next_is quote_char s) as [s'|]; [|done]. cbn [mbind option_bind].
    destruct (scan_chars s') as [[k r0]|]; [|done]. cbn [mbind option_bind].
    destruct (next_is ":" _) as [r1|]; [|done]. cbn [mbind option_bind].
    destruct (parse_value py_float n _) as [[w r2]|] eqn:Hw; [|done]. apply IHv in Hw. cbn [mbind option_bind].
    pose proof (dict_set_ok k w o Hw Ho). destruct (next_is "," _); [by apply IHm|].
    destruct (next_is "}" _); [by intros [= <- <-]|done].
Qed.

Lemma loads_ok s v : json_loads py_float s = Some v → json_ok py_float v.
Proof.
  unfold json_loads, loads_with. destruct (parse_value _ _ _) as [[w r]|] eqn:Hw; [|done]. cbn [mbind option_bind].
  destruct (String.eqb _ _); [|done]. intros [= <-]. by apply parse_ok in Hw.
Qed.
Lemma decode_envelope_ok e p : _decode_envelope e = Ok p → json_ok py_float (JObj p).
Proof.
  unfold _decode_envelope. destruct (get_bytes e true) as [b|]; [|done]. cbn [mbind option_bind].
  destruct (utf8_decode b) as [t|]; [|done]. cbn [mbind option_bind].
  destruct (json_loads py_float t) as [v|] eqn:Hv; [|done]. apply loads_ok in Hv. destruct v; try done. by intros [= <-].
Qed.
End reading.

(** ** A signed context is read back *)

Section payloads.
Context {T : Type} `{DateTime T} `{FloatText}.

(** The claims have distinct names and floats that [repr] and [float] keep. *)
Definition signable (c : AuthContext) : Prop :=
  NoDup (claim_name <$> claims c) ∧
  Forall (λ x, ∀ q, claim_value x = CFloat q → float_text py_float (float_repr q) ∧ float_value (float_repr q) = q) (claims c).

(** What a verified snapshot of a context tells of it. *)
Definition verified (c : AuthContext) (tenant : option string) : AuthContext :=
  mk_auth_context (subject c) (issuer c) tenant (roles c) (scopes c) (sort_by claim_le (claims c)) None [].

Lemma claims_dict_map c : signable c →
  claims_dict (claims c) = (λ x, (claim_name x, claim_json (claim_value x))) <$> sort_by claim_le (claims c).
Proof.
  intros [Hnd _]. unfold claims_dict. apply (dict_merge_fresh []). cbn [app].
  rewrite <- list_fmap_compose. change (NoDup (claim_name <$> sort_by claim_le (claims c))). by rewrite sort_by_perm.
Qed.
Lemma claims_dict_keys c : NoDup (claims_dict (claims c)).*1.
Proof.
  unfold claims_dict, dict_merge. assert (NoDup (@nil (string * json)).*1) as Hd by constructor. revert Hd.
  generalize (@nil (string * json)). induction ((λ x, (claim_name x, claim_json (claim_value x))) <$> sort_by claim_le (claims c))
    as [|[k v] l IH]; intros d Hd; [done|]. cbn [foldl]. apply IH. by apply dict_set_NoDup.
Qed.

Lemma strings_ok l : json_ok py_float (strings_json l).
Proof. apply json_ok_list. induction l; by constructor. Qed.
Lemma opt_ok o : json_ok py_float (opt_json o).
Proof. by destruct o. Qed.

Lemma claims_ok c : signable c → json_ok py_float (JObj (claims_dict (claims c))).
Proof.
  intros Hc. apply json_ok_obj. split; [apply claims_dict_keys|]. rewrite claims_dict_map by done.
  destruct Hc as [_ Hc]. rewrite <- (sort_by_perm claim_le) in Hc.
  induction Hc as [|x l Hx Hl IH]; constructor; [|done]. cbn [snd]. destruct (claim_value x) as [| | |q|]; try done.
  by apply Hx.
Qed.

Lemma unsigned_ok c t i e : signable c → json_ok py_float (JObj (_unsigned_payload c t i e)).
Proof.
  intros Hc. apply json_ok_obj. split; [decide_compute|].
  assert (json_ok py_float (subject_json (subject c))) as Hs.
  { apply json_ok_obj. split; [decide_compute|]. repeat apply Forall_cons_2; [apply opt_ok|done|apply Forall_nil_2]. }
  unfold _unsigned_payload. repeat apply Forall_cons_2; try apply Forall_nil_2; cbn [snd];
    first [done|apply strings_ok|apply opt_ok|by apply claims_ok].
Qed.

Lemma string_items_strings l : string_items (JStr <$> l) = Ok l.
Proof. induction l as [|s l IH]; [done|]. cbn. change (list_fmap string json JStr l) with (JStr <$> l). by rewrite IH. Qed.

Lemma claim_items_claims c : signable c → claim_items (sort_keys (claims_dict (claims c))) = Ok (sort_by claim_le (claims c)).
Proof.
  intros Hc. rewrite claims_dict_map by done. rewrite sorted_sort_keys.
  - destruct Hc as [_ Hc]. rewrite <- (sort_by_perm claim_le) in Hc.
    induction Hc as [|[k v] l Hx Hl IH]; [done|]. rewrite fmap_cons. cbn [claim_items claim_name claim_value].
    assert (_claim_value (claim_json v) = Ok v) as ->.
    { destruct v as [| | |q|]; try done. cbn. by rewrite (proj2 (Hx q eq_refl)). }
    cbn [mbind outcome_bind]. by rewrite IH.
  - pose proof (sort_by_strongly_sorted claim_le (λ x y, str_leb_total _ _) (λ x y z, str_leb_trans _ _ _) (claims c)) as Hs.
    induction Hs as [|x l Hl IH Hx]; [constructor|]. constructor; [done|]. apply Forall_fmap. exact Hx.
Qed.

Lemma optional_string_opt o p k : dict_get k p = Some (opt_json o) → _optional_string_value p k = Ok o.
Proof. unfold _optional_string_value. intros ->. by destruct o. Qed.

Lemma unsigned_context c t i e : signable c → _auth_context_from_payload (_unsigned_payload c t i e) = Ok (verified c t).
Proof.
  intros Hc. unfold _auth_context_from_payload.
  set (s := [("display_name", opt_json (display_name (subject c))); ("id", JStr (subject_id (subject c)))]).
  change (_dict_value (_unsigned_payload c t i e) "subject") with (Ok (E := auth_error) s).
  cbn [mbind outcome_bind].
  rewrite (optional_string_opt (display_name (subject c)) s "display_name" eq_refl).
  rewrite (optional_string_opt t (_unsigned_payload c t i e) "tenant" eq_refl).
  change (_string_tuple_value (_unsigned_payload c t i e) "roles") with (string_items (JStr <$> roles c)).
  change (_string_tuple_value (_unsigned_payload c t i e) "scopes") with (string_items (JStr <$> scopes c)).
  change (_claims_value (_unsigned_payload c t i e) "selected_claims") with (claim_items (sort_keys (claims_dict (claims c)))).
  rewrite !string_items_strings, claim_items_claims by done.
  cbn [mbind outcome_bind]. unfold verified. subst s. destruct (subject c). reflexivity.
Qed.

Lemma aware_aware t : is_aware (_aware_datetime t) = true.
Proof. unfold _aware_datetime. destruct (is_aware t) eqn:Ht; [done|]. apply replace_utc_aware. Qed.
Lemma unsigned_expires c t i e : is_aware e = true →
  _datetime_value (_unsigned_payload c t i e) "expires_at" = Ok e.
Proof.
  intros He. unfold _datetime_value.
  change (_string_value (_unsigned_payload c t i e) "expires_at") with (Ok (E := auth_error) (isoformat e)).
  cbn [mbind outcome_bind]. rewrite fromisoformat_isoformat. unfold _aware_datetime. by rewrite He.
Qed.

(** What two payloads with the same unsigned text tell. *)
Lemma same_text_same_content p c t i e : json_ok py_float (JObj p) → signable c → is_aware e = true →
  json_dumps (JObj (dict_del "signature" p)) = json_dumps (JObj (_unsigned_payload c t i e)) →
  _auth_context_from_payload p = Ok (verified c t) ∧ _datetime_value p "expires_at" = Ok e.
Proof.
  intros Hp Hc He Htext.
  assert (json_ok py_float (JObj (dict_del "signature" p))) as Hd.
  { apply json_ok_obj in Hp as [Hnd Hp]. apply json_ok_obj. rewrite dict_del_filter by done. split.
    - eapply sublist_NoDup; [apply Hnd|]. apply fmap_sublist. clear.
      induction p as [|kv p IH]; [constructor|]. cbn. destruct (negb _); by constructor.
    - rewrite Forall_forall in *. intros kv Hin. apply Hp. apply list_elem_of_In in Hin. apply filter_In in Hin as [Hin _].
      by apply list_elem_of_In. }
  pose proof (unsigned_ok c t i e Hc) as Hu.
  assert (canonical_members (dict_del "signature" p) = canonical_members (_unsigned_payload c t i e)) as Heq.
  { pose proof (dumps_inj py_float _ _ Hd Hu Htext) as Hcan. by injection Hcan. }
  split.
  - by rewrite <- auth_context_del, <- auth_context_canonical, Heq, auth_context_canonical, unsigned_context.
  - rewrite <- (datetime_value_del p) by done.
    rewrite <- datetime_value_canonical by by apply json_ok_obj in Hd as [? _].
    rewrite Heq, datetime_value_canonical by by apply json_ok_obj in Hu as [? _]. by apply unsigned_expires.
Qed.
End payloads.

(** ** Theorems *)

Section signing.
Context {T : Type} `{DateTime T} `{FloatText}.
Context (digest : HMACType → bytes → bytes → bytes) (config : CryptographyAuthProviderConfig).

Abbreviation sign := (sign_snapshot digest config).
Abbreviation verify := (verify_snapshot digest config).

Lemma envelope_bytes s : base64url_canonical_json s = from_bytes (utf8_encode (canonical_json s)) true.
Proof. done. Qed.

Lemma envelope_nonempty s : base64url_canonical_json s ≠ "".
Proof.
  intros Hs. rewrite envelope_bytes in Hs. pose proof (get_bytes_from_bytes (utf8_encode (canonical_json s)) true) as Hb.
  rewrite Hs in Hb. injection Hb as Hb. discriminate Hb.
Qed.

Lemma signed_payload_del r now : dict_del "signature" (canonical_payload (sign r now)) =
  _unsigned_payload (request_context r) (signed_tenant r) (_aware_datetime now)
    (add_delta (_aware_datetime now) (snapshot_ttl config)).
Proof. reflexivity. Qed.

Lemma signed_payload_ok r now : signable (request_context r) →
  json_ok py_float (JObj (canonical_payload (sign r now))).
Proof.
  intros Hc. apply json_ok_obj. split; [decide_compute|].
  pose proof (unsigned_ok _ (signed_tenant r) (_aware_datetime now) (add_delta (_aware_datetime now) (snapshot_ttl config)) Hc) as Hu.
  rewrite <- signed_payload_del in Hu. apply json_ok_obj in Hu as [_ Hu].
  assert (json_ok py_float (JObj (signature_payload (snapshot_signature (sign r now))))) as Hs.
  { apply json_ok_obj. split; [decide_compute|]. by repeat constructor. }
  change (dict_del "signature" ?d) with (take 9 d ++ drop 10 d) in Hu.
  rewrite <- (take_drop_middle (canonical_payload (sign r now)) 9 _ eq_refl).
  apply Forall_app in Hu as [H1 H2]. apply Forall_app. split; [exact H1|]. constructor; [exact Hs|exact H2].
Qed.

Lemma decode_signed r now : signable (request_context r) →
  _decode_envelope (base64url_canonical_json (sign r now)) = Ok (canonical_members (canonical_payload (sign r now))).
Proof.
  intros Hc. unfold _decode_envelope. rewrite envelope_bytes, get_bytes_from_bytes. cbn [mbind option_bind].
  rewrite utf8_roundtrip. cbn [mbind option_bind]. unfold canonical_json.
  by rewrite (json_loads_dumps py_float _ (signed_payload_ok r now Hc)).
Qed.

Lemma check_false {E} (e : E) : check false e = Ok tt.
Proof. done. Qed.

Lemma signature_verifies r now : signable (request_context r) →
  _verify_payload_signature digest config (canonical_members (canonical_payload (sign r now))) = Ok tt.
Proof.
  intros Hc. unfold _verify_payload_signature.
  assert (NoDup (canonical_payload (sign r now)).*1) as Hnd by decide_compute.
  rewrite dict_value_canonical by done.
  change (_dict_value (canonical_payload (sign r now)) "signature") with
    (Ok (E := auth_error) (signature_payload (snapshot_signature (sign r now)))).
  cbn [fmap outcome_fmap mbind outcome_bind].
  rewrite !string_value_canonical by decide_compute. rewrite dumps_del_canonical, signed_payload_del by done.
  set (o := json_dumps _).
  change (_string_value (signature_payload (snapshot_signature (sign r now))) "key_id") with (Ok (E := auth_error) (snapshot_key_id config)).
  change (_string_value (signature_payload (snapshot_signature (sign r now))) "algorithm") with (Ok (E := auth_error) SNAPSHOT_SIGNATURE_ALGORITHM).
  change (_string_value (signature_payload (snapshot_signature (sign r now))) "signature") with
    (Ok (E := auth_error) (sign_text digest (snapshot_key config) HS256 o true)).
  cbn [mbind outcome_bind]. rewrite !String.eqb_refl. unfold hmac_verify, sign_text. by rewrite String.eqb_refl.
Qed.

Lemma sign_verify r now now' : verification_available config = true → signable (request_context r) →
  verify (base64url_canonical_json (sign r now)) now' =
    if before (add_delta (_aware_datetime now) (snapshot_ttl config)) (_aware_datetime now')
    then Raise ExpiredAuthContextSnapshotError
    else Ok (verified (request_context r) (signed_tenant r)).
Proof.
  intros Hav Hc. unfold verify_snapshot. rewrite Hav, (proj2 (String.eqb_neq _ _) (envelope_nonempty _)).
  cbn [negb]. rewrite !check_false. cbn [mbind outcome_bind]. rewrite decode_signed by done. cbn [mbind outcome_bind].
  rewrite signature_verifies by done. cbn [mbind outcome_bind].
  assert (NoDup (canonical_payload (sign r now)).*1) as Hnd by decide_compute.
  set (e := add_delta (_aware_datetime now) (snapshot_ttl config)).
  destruct (same_text_same_content (canonical_payload (sign r now)) (request_context r) (signed_tenant r) (_aware_datetime now) e)
    as [Hctx Hexp]; [by apply signed_payload_ok|done|apply add_delta_aware, aware_aware|by rewrite signed_payload_del|].
  rewrite datetime_value_canonical, Hexp by done. cbn [mbind outcome_bind]. destruct (before _ _); [done|]. cbn [check mbind outcome_bind].
  by rewrite auth_context_canonical, Hctx by by apply signed_payload_ok.
Qed.


(** The texts the provider has signed *)
Context (signed : AuthContext → option string → T → Prop).
Definition signed_text (t : string) : Prop :=
  ∃ c tenant i, signed c tenant i ∧
    t = json_dumps (JObj (_unsigned_payload c tenant i (add_delta i (snapshot_ttl config)))).

(** The signature an envelope presents *)
Definition presents (envelope signature : string) : Prop :=
  ∃ p s, _decode_envelope envelope = Ok p ∧ _dict_value p "signature" = Ok s ∧ _string_value s "signature" = Ok signature.

Lemma verify_inv envelope now c : verify envelope now = Ok c →
  ∃ p e t, _decode_envelope envelope = Ok p ∧ presents envelope (sign_text digest (snapshot_key config) HS256 t true) ∧
    t = json_dumps (JObj (dict_del "signature" p)) ∧ _datetime_value p "expires_at" = Ok e ∧
    before e (_aware_datetime now) = false ∧ _auth_context_from_payload p = Ok c.
Proof.
  unfold verify_snapshot. intros (? & _ & H1)%outcome_bind_Ok. apply outcome_bind_Ok in H1 as (? & _ & H1).
  apply outcome_bind_Ok in H1 as (p & Hp & H1). apply outcome_bind_Ok in H1 as ([] & Hs & H1).
  apply outcome_bind_Ok in H1 as (e & He & H1). apply outcome_bind_Ok in H1 as (? & Hb%check_Ok & Hc).
  exists p, e, (json_dumps (JObj (dict_del "signature" p))). split_and!; try done.
  unfold _verify_payload_signature in Hs.
  apply outcome_bind_Ok in Hs as (s & Hs & H2). apply outcome_bind_Ok in H2 as (? & _ & H2).
  apply outcome_bind_Ok in H2 as (? & _ & H2). apply outcome_bind_Ok in H2 as (sig & Hsig & H2).
  apply outcome_bind_Ok in H2 as (? & _ & H2). apply outcome_bind_Ok in H2 as (? & _ & H2).
  apply check_Ok, negb_false_iff in H2. unfold hmac_verify in H2. apply String.eqb_eq in H2 as <-. by exists p, s.
Qed.

(** C10. What is verified was signed: when the signature of an envelope is one
    the provider made, if it is a signature at all, and the contexts it signed
    are signable, a context that verification returns for any text at all is a
    context that was signed, unchanged, within its validity. *)
Theorem verified_context_was_signed envelope now c :
  (∀ c t i, signed c t i → signable c ∧ is_aware i = true) →
  (∀ t, presents envelope (sign_text digest (snapshot_key config) HS256 t true) → signed_text t) →
  verify envelope now = Ok c →
  ∃ c0 tenant i, signed c0 tenant i ∧ c = verified c0 tenant ∧
    before (add_delta i (snapshot_ttl config)) (_aware_datetime now) = false.
Proof.
  intros Hsigned Hunforged Hv. destruct (verify_inv _ _ _ Hv) as (p & e & t & Hp & Hpres & -> & He & Hb & Hc).
  destruct (Hunforged _ Hpres) as (c0 & tenant & i & Hi & Ht). destruct (Hsigned _ _ _ Hi) as [Hok Haw].
  apply decode_envelope_ok in Hp.
  destruct (same_text_same_content p c0 tenant i _ Hp Hok (add_delta_aware i (snapshot_ttl config) Haw) Ht) as [H1 H2].
  exists c0, tenant, i. rewrite H1 in Hc. rewrite H2 in He. injection Hc as <-. injection He as <-. done.
Qed.

Definition fails_invalid {A} (m : outcome auth_error A) : Prop := ∀ e, m = Raise e → e = InvalidAuthContextSnapshotError.
Lemma fails_invalid_bind {A B} (m : outcome auth_error A) (f : A → outcome auth_error B) :
  fails_invalid m → (∀ a, fails_invalid (f a)) → fails_invalid (m ≫= f).
Proof. intros Hm Hf e He. apply outcome_bind_Raise in He as [He|(a & _ & He)]; [by apply Hm|by apply (Hf a)]. Qed.
Lemma fails_invalid_ok {A} (a : A) : fails_invalid (Ok a).
Proof. by intros e. Qed.
Lemma fails_invalid_check b : fails_invalid (check b InvalidAuthContextSnapshotError).
Proof. intros e. destruct b; by intros [= <-]. Qed.

Lemma accessors_fail_invalid p k :
  fails_invalid (_dict_value p k) ∧ fails_invalid (_string_value p k) ∧ fails_invalid (_optional_string_value p k) ∧
  fails_invalid (_string_tuple_value p k) ∧ fails_invalid (_claims_value p k) ∧ fails_invalid (_datetime_value p k).
Proof.
  assert (∀ A, fails_invalid (@invalid A)) as Hi by (intros A e; by intros [= <-]).
  assert (∀ l, fails_invalid (string_items l)) as Hitems.
  { induction l as [|v l IH]; [apply fails_invalid_ok|]. destruct v; try apply Hi.
    apply fails_invalid_bind; [apply IH|]. intros a. apply fails_invalid_ok. }
  assert (∀ l, fails_invalid (claim_items l)) as Hclaims.
  { induction l as [|[k' v] l IH]; [apply fails_invalid_ok|]. apply fails_invalid_bind.
    - destruct v; apply fails_invalid_ok || apply Hi.
    - intros a. apply fails_invalid_bind; [apply IH|]. intros l'. apply fails_invalid_ok. }
  assert (fails_invalid (_dict_value p k)) as Hd.
  { unfold _dict_value. destruct (dict_get k p) as [[]|]; apply Hi || apply fails_invalid_ok. }
  assert (fails_invalid (_string_value p k)) as Hs.
  { unfold _string_value. destruct (dict_get k p) as [[]|]; apply Hi || apply fails_invalid_ok. }
  split_and!; [done|done|..].
  - unfold _optional_string_value. destruct (dict_get k p) as [[]|]; apply Hi || apply fails_invalid_ok.
  - unfold _string_tuple_value. destruct (dict_get k p) as [[]|]; apply Hi || apply Hitems.
  - apply fails_invalid_bind; [done|]. intros o. apply Hclaims.
  - apply fails_invalid_bind; [done|]. intros t. destruct (fromisoformat t); [apply fails_invalid_ok|apply Hi].
Qed.

Lemma payload_fails_invalid p :
  fails_invalid (_auth_context_from_payload p) ∧ fails_invalid (_verify_payload_signature digest config p).
Proof.
  split; unfold _auth_context_from_payload, _verify_payload_signature;
    repeat (apply fails_invalid_bind; [first [apply accessors_fail_invalid|apply fails_invalid_check]|intros ?]);
    apply fails_invalid_ok || apply fails_invalid_check.
Qed.

Lemma verify_error envelope now e : verify envelope now = Raise e →
  if verification_available config then
    if String.eqb envelope "" then e = MissingAuthContextSnapshotError
    else e = InvalidAuthContextSnapshotError ∨ e = ExpiredAuthContextSnapshotError
  else e = AuthVerificationProviderUnavailableError.
Proof.
  unfold verify_snapshot. destruct (verification_available config); cbn [negb check mbind outcome_bind]; [|congruence].
  destruct (String.eqb envelope ""); cbn [check mbind outcome_bind]; [congruence|].
  assert (fails_invalid (_decode_envelope envelope)) as Hd.
  { unfold _decode_envelope. destruct (_ ≫= _) as [[]|]; try apply fails_invalid_ok; intros x; by intros [= <-]. }
  intros [He|(p & _ & He)]%outcome_bind_Raise; [left; by apply Hd|].
  apply outcome_bind_Raise in He as [He|([] & _ & He)]; [left; by apply (payload_fails_invalid p)|].
  apply outcome_bind_Raise in He as [He|(x & _ & He)]; [left; by apply (accessors_fail_invalid p "expires_at")|].
  apply outcome_bind_Raise in He as [He|([] & _ & He)]; [|left; exact (proj1 (payload_fails_invalid p) _ He)].
  right. destruct (before _ _); [by injection He as <-|done].
Qed.

(** C32. Every failure of verification is a refusal: the result is an ALLOW with
    the verified context, or a CHALLENGE or an ERROR without one, and no exception
    escapes; a text that cannot be read is not told from a wrong signature. *)
Theorem verification_result_total envelope now :
  ∃ res, verify_snapshot_result digest config envelope now = Ok res ∧
    match verify envelope now with
    | Ok c => res = mk_result decision_allow (Some c)
    | Raise e =>
        result_auth_context res = None ∧
        result_decision res =
          if verification_available config then
            decision_challenge (if String.eqb envelope "" then SNAPSHOT_MISSING
              else match e with ExpiredAuthContextSnapshotError => SNAPSHOT_EXPIRED | _ => SNAPSHOT_INVALID end) None
          else decision_error VERIFICATION_PROVIDER_UNAVAILABLE None
    end.
Proof.
  unfold verify_snapshot_result. destruct (verify envelope now) as [c|e] eqn:Hv; [by eexists|].
  apply verify_error in Hv. destruct (verification_available config); [|by subst; eexists].
  destruct (String.eqb envelope ""); [by subst; eexists|]. destruct Hv as [-> | ->]; by eexists.
Qed.
End signing.

Section password_facts.
Context (hashpw : bytes → bytes → outcome crypto_error bytes)
  (checkpw : bytes → bytes → outcome crypto_error bool)
  (pbkdf2_hmac : string → bytes → bytes → Z → outcome crypto_error bytes)
  (scrypt : bytes → bytes → scrypt_cost → outcome crypto_error bytes)
  (hasher_hash : argon2_cost → bytes → bytes → outcome crypto_error string)
  (hasher_verify : argon2_cost → bytes → bytes → outcome crypto_error bool).
Context (checkpw_hashpw : ∀ p salt h, hashpw p salt = Ok h → checkpw p h = Ok true).
Context (verify_hash : ∀ cost p salt h, hasher_hash cost p salt = Ok h → hasher_verify cost (utf8_encode h) p = Ok true).

(** An encoder that the provider finds by its tag *)
Definition found {E} (algorithm : string) (of_hash : string → outcome crypto_error E) (wrap : E → any_encoder) : Prop :=
  ∀ t, _password_encoder (algorithm +:+ ":" +:+ t) = map_error Some (wrap <$> of_hash (algorithm +:+ ":" +:+ t)).

(** The contract of an encoder is all that is needed. *)
Lemma contract_verifies {E} (enc : IPasswordEncoder E) algorithm of_hash of_password wrap p e :
  PasswordContract E algorithm of_hash of_password → found algorithm of_hash wrap →
  (∀ e q, challenge_any checkpw pbkdf2_hmac scrypt hasher_verify (wrap e) q = challenge e q) →
  of_password p = Ok e →
  verify_password checkpw pbkdf2_hmac scrypt hasher_verify true p (encode e) = decision_allow.
Proof.
  intros Hcon Hfound Hch He. unfold verify_password.
  destruct (encode_tagged e) as [t Ht].
  assert (_password_encoder (encode e) = Ok (wrap e)) as ->.
  { rewrite Ht, Hfound, <- Ht. by rewrite (of_hash_encode p e He). }
  cbn [mbind outcome_bind]. by rewrite Hch, (challenge_own p e He).
Qed.

(** A stored password is accepted: what any of the four encoders stores for
    a password, [hash_password] included, is recognised by its tag and read back,
    and the password is allowed. *)
Theorem stored_password_allowed p :
  (∀ gensalt h, hash_password hashpw true gensalt p = Ok h →
    verify_password checkpw pbkdf2_hmac scrypt hasher_verify true p h = decision_allow) ∧
  (∀ salt t n e, pbkdf2_of_password pbkdf2_hmac salt t n (Some p) false = Ok e →
    verify_password checkpw pbkdf2_hmac scrypt hasher_verify true p (pbkdf2_encode e) = decision_allow) ∧
  (∀ salt cost e, scrypt_of_password scrypt salt cost (Some p) false = Ok e →
    verify_password checkpw pbkdf2_hmac scrypt hasher_verify true p (scrypt_encode e) = decision_allow) ∧
  (∀ salt t m par l e, argon2_of_password hasher_hash salt t m par l (Some p) false = Ok e →
    verify_password checkpw pbkdf2_hmac scrypt hasher_verify true p (argon2_encode e) = decision_allow).
Proof.
  split_and!.
  - intros gensalt h Hh. unfold hash_password in Hh.
    destruct (bcrypt_of_password hashpw gensalt (Some p) false) as [e|] eqn:He; [|done]. injection Hh as <-.
    apply (contract_verifies (bcrypt_encoder checkpw) "bcrypt" _ _ Bcrypt p e
      (bcrypt_contract hashpw checkpw checkpw_hashpw gensalt false)); [by intros []|done|exact He].
  - intros salt t n e He.
    apply (contract_verifies (pbkdf2_encoder pbkdf2_hmac) "pbkdf2" _ _ Pbkdf2 p e (pbkdf2_contract pbkdf2_hmac salt t n)); [by intros []|done|exact He].
  - intros salt cost e He.
    apply (contract_verifies (scrypt_encoder scrypt) "scrypt" _ _ Scrypt p e (scrypt_contract scrypt salt cost false)); [by intros []|done|exact He].
  - intros salt t m par l e He.
    apply (contract_verifies (argon2_encoder hasher_verify) "argon2" _ _ Argon2 p e
      (argon2_contract hasher_hash hasher_verify verify_hash salt t m par l false)); [by intros []|done|exact He].
Qed.
End password_facts.

(** ** Examples *)

(** Datetimes in seconds, written as integers; one float. *)
#[refine, local] Instance ex_datetime : DateTime Z := {
  isoformat := int_text;
  fromisoformat s := match py_int s with Ok z => Some z | Raise _ => None end;
  is_aware _ := true;
  replace_utc t := t;
  before := Z.ltb;
  add_delta := Z.add;
}.
Proof. all: try done. intros t. by rewrite py_int_text. Defined.

#[refine, local] Instance ex_floats : FloatText := {
  float_repr _ := "0.5";
  float_value _ := QArith_base.Qmake 1 2;
  py_float _ := "0.5";
}.
Proof.
  intros s r rest Hs. assert (r = "0.5") as ->; [|reflexivity]. unfold scan_number in Hs.
  destruct (scan_int s) as [[i r0]|]; [|done]. cbn in Hs. destruct (scan_frac r0) as [fr r1]. destruct (scan_exp r1) as [ex r2].
  destruct (String.eqb _ _); [by destruct (DecimalString.NilZero.int_of_string i)|congruence].
Defined.

Definition ex_digest (t : HMACType) (key content : bytes) : bytes := key +:+ content.
Definition ex_config : CryptographyAuthProviderConfig := mk_config "key" "default" 300 true true.
Definition ex_context : AuthContext :=
  mk_auth_context (mk_subject "user-1" (Some "Ada")) "issuer" None ["admin"] ["read"; "write"]
    [mk_claim "level" (CInt 3); mk_claim "area" (CStr "eu"); mk_claim "share" (CFloat (QArith_base.Qmake 1 2))] None [].
Definition ex_request : SnapshotSignRequest := mk_sign_request ex_context (Some "acme").
Definition ex_envelope : string := base64url_canonical_json (sign_snapshot ex_digest ex_config ex_request 1000%Z).
Definition ex_signed (c : AuthContext) (t : option string) (i : Z) : Prop := c = ex_context ∧ t = Some "acme" ∧ i = 1000%Z.

Lemma ex_signable : signable ex_context.
Proof.
  split; [decide_compute|]. repeat apply Forall_cons_2; try apply Forall_nil_2; cbn [claim_value]; try done.
  intros q [= <-]. by split.
Qed.


Lemma Ok_inj {E A} (a b : A) : Ok (E := E) a = Ok b → a = b.
Proof. by intros [= ->]. Qed.

Lemma ex_unforged t : presents ex_envelope (sign_text ex_digest (snapshot_key ex_config) HS256 t true) →
  signed_text ex_config ex_signed t.
Proof.
  intros (p & s & Hp & Hs & Hsig). exists ex_context, (Some "acme"), 1000%Z.
  split; [exact (conj eq_refl (conj eq_refl eq_refl))|].
  unfold ex_envelope in Hp. rewrite (decode_signed ex_digest ex_config ex_request 1000%Z ex_signable) in Hp.
  injection Hp as <-. rewrite dict_value_canonical in Hs by decide_compute.
  injection Hs as <-. rewrite string_value_canonical in Hsig by decide_compute.
  set (text := json_dumps _).
  change (Ok (E := auth_error) (sign_text ex_digest "key" HS256 text true) = Ok (sign_text ex_digest "key" HS256 t true)) in Hsig.
  apply Ok_inj, (inj (λ b, from_bytes b true)), (inj (String.append _)), (inj utf8_encode) in Hsig. by symmetry.
Qed.

Lemma verified_context_was_signed_witness : ∃ c0 tenant i,
  ex_signed c0 tenant i ∧ verified ex_context (Some "acme") = verified c0 tenant ∧
  before (add_delta i (snapshot_ttl ex_config)) (_aware_datetime 1300%Z) = false.
Proof.
  apply (verified_context_was_signed ex_digest ex_config ex_signed ex_envelope 1300%Z (verified ex_context (Some "acme"))).
  - intros c t i (-> & _ & _). split; [exact ex_signable|done].
  - exact ex_unforged.
  - vm_compute. reflexivity.
Defined.

Lemma stored_password_allowed_witness : ∃ h,
  hash_password (λ p _, Ok p) true "salt" "pässword" = Ok h ∧
  verify_password (λ p h, Ok (String.eqb p h)) (λ _ _ _ _, Raise ValueError) (λ _ _ _, Raise ValueError)
    (λ _ h p, Ok (String.eqb h (utf8_encode p))) true "pässword" h = decision_allow.
Proof.
  eexists. split; [reflexivity|].
  apply (stored_password_allowed (λ p _, Ok p) (λ p h, Ok (String.eqb p h)) (λ _ _ _ _, Raise ValueError)
    (λ _ _ _, Raise ValueError) (λ _ p _, Ok p) (λ _ h p, Ok (String.eqb h (utf8_encode p)))) with (gensalt := "salt").
  - intros p salt h [= <-]. by rewrite String.eqb_refl.
  - intros cost p salt h [= <-]. by rewrite String.eqb_refl.
  - reflexivity.
Defined.
