(* ===== verification/Consumer.v ===== *)
(** * Consumers of integration events

    [plugins/spakky-rabbitmq] and [plugins/spakky-kafka]: the boundary that turns
    the headers of a message into an authentication context ([auth.py]), the
    endpoint the post-processor registers for a handler method
    ([post_processor.py]), and the consumer that routes messages to the endpoints
    and settles them ([event/consumer.py]). This file holds what the two share;
    [RabbitMQ.v] and [Kafka.v] hold the consumers. The broker clients, the
    validation of payloads (pydantic) and the handler methods are parameters. The
    asynchronous twins run the same statements with [await]. *)

From S2P Require Import Prelude Encoding Annotation Auth Tracing Domain.

(** ** State *)

(** What a handler method sees and may change: the values of the application
    context, the ambient trace and the rest of the program *)
Record visible (R W : Type) := mk_visible {
  context : list (string * context_value);
  trace : execution R;
  program : W;
}.
Arguments mk_visible {R W}.
Arguments context {R W}.
Arguments trace {R W}.
Arguments program {R W}.

Inductive settlement := ACK | NACK_REQUEUE | NACK_DROP.
#[global] Instance settlement_eq_dec : EqDecision settlement.
Proof. solve_decision. Defined.

Abbreviation headers := (list (string * string)).

(** A consumer process: what its handlers see, the headers of the current message
    (a context variable) and what it told the broker, delivery by delivery *)
Record process (R W : Type) := mk_process {
  seen : visible R W;
  message_headers : option headers;
  settled : list (N * settlement);
}.
Arguments mk_process {R W}.
Arguments seen {R W}.
Arguments message_headers {R W}.
Arguments settled {R W}.

(** The exceptions; [UserError e] is any other of user code or of a client. An
    [AuthRequirementDeniedError] may be raised without a decision. *)
Inductive consumer_error (E : Type) :=
  | ValidationError
  | AuthError (e : auth_error)
  | DeniedWithoutDecision
  | InvalidMessageError
  | UnicodeDecodeError
  | MissingKey
  | TraceError (e : tracing_error)
  | UserError (e : E).
Arguments ValidationError {E}.
Arguments AuthError {E}.
Arguments DeniedWithoutDecision {E}.
Arguments InvalidMessageError {E}.
Arguments UnicodeDecodeError {E}.
Arguments MissingKey {E}.
Arguments TraceError {E}.
Arguments UserError {E}.

(** [except AuthRequirementDeniedError as error], with [error.decision] *)
Definition denial {E} (e : consumer_error E) : option (option AuthorizationDecision) :=
  match e with
  | DeniedWithoutDecision => Some None
  | AuthError (AuthRequirementDeniedError d) => Some (Some d)
  | _ => None
  end.

(** A value of a header as the client library gives it *)
Inductive header_value := HStr (s : string) | HBytes (b : bytes) | HOther.

(** The port [IAuthContextSnapshotVerifier] *)
Abbreviation verifier := (string → AuthInvocation → outcome auth_error AuthContext).

(** ** The registry

    Event classes are named; an adapter is the validation of pydantic. [C] is the
    type of the callbacks. *)

Record registry (C : Type) := mk_registry {
  handlers : list (string * list C);
  type_adapters : list (string * (bytes → option AbstractEvent));
  type_lookup : list (string * string);
}.
Arguments mk_registry {C}.
Arguments handlers {C}.
Arguments type_adapters {C}.
Arguments type_lookup {C}.
Definition no_handlers {C} : registry C := mk_registry [] [] [].

(** [self.handlers[event].append(handler)] *)
Definition append_handler {C} (event : string) (h : C) (r : registry C) : registry C :=
  mk_registry (dict_set event (default [] (dict_get event (handlers r)) ++ [h]) (handlers r))
    (type_adapters r) (type_lookup r).

(** *** A handler pod

    What [post_process] reads of a method of an event handler: its name, its route
    with the event class, whether that is an integration event, whether the method
    is a coroutine function, and the function its authorization metadata is on. *)
Record handler_method := mk_handler_method {
  method_name : string;
  route : option string;
  is_integration_event : bool;
  is_coroutine : bool;
  function : py_object;
}.
Record handler_pod := mk_handler_pod {
  handler_type : py_object;
  handler_name : string;
  members : list handler_method;
}.

Definition operation (p : handler_pod) (m : handler_method) : string :=
  handler_name p +:+ "." +:+ method_name m.
Definition auth_metadata (st : auth_store) (p : handler_pod) (m : handler_method)
    : outcome auth_error EffectiveAuthMetadata :=
  get_effective_auth_metadata st (BCallable (function m) (Some (SelfInstance (handler_type p))))
    (Some (handler_type p)).

(** Authenticated as [c], and nothing else, in the application context *)
Definition authenticated (c : AuthContext) : list (string * context_value) :=
  [(AUTH_CONTEXT_CONTEXT_KEY, VAuthContext c)].
Definition with_context {R W} (ctx : list (string * context_value)) (v : visible R W) : visible R W :=
  mk_visible ctx (trace v) (program v).

Section consumers.
Context {E R W : Type}.

Abbreviation action := (comp (process R W) (consumer_error E)).
Abbreviation user_code := (comp (visible R W) (consumer_error E)).

(** What user code does happens in what it sees. *)
Definition on_seen {A} (m : user_code A) : action A := λ s,
  let '(o, v) := m (seen s) in (o, mk_process v (message_headers s) (settled s)).

Definition clear_context : user_code unit :=
  modify (with_context []).
Definition store_auth_context (c : AuthContext) : user_code unit :=
  modify (λ v, with_context (dict_set AUTH_CONTEXT_CONTEXT_KEY (VAuthContext c) (context v)) v).
Definition on_trace {A} (m : comp (execution R) tracing_error A) : user_code A := λ v,
  let '(o, x) := m (trace v) in (map_error TraceError o, mk_visible (context v) x (program v)).

(** [_to_string_headers] *)
Fixpoint _to_string_headers (raw : list (string * header_value)) (result : headers)
    : outcome (consumer_error E) headers :=
  match raw with
  | [] => Ok result
  | (key, HStr s) :: raw' => _to_string_headers raw' (dict_set key s result)
  | (key, HBytes b) :: raw' =>
      match utf8_decode b with
      | Some s => _to_string_headers raw' (dict_set key s result)
      | None => Raise UnicodeDecodeError
      end
  | (_, HOther) :: raw' => _to_string_headers raw' result
  end.

(** ** Tracing a message *)

Context `{Entropy R} `{!ITracePropagator R} (has_propagator : bool).

Definition begin_trace (carrier : headers) : user_code unit :=
  if has_propagator then
    ctx <- on_trace (match port_extract carrier with Some parent => child parent | None => new_root end) ;;
    on_trace (Tracing.set ctx)
  else ret tt.
Definition end_trace : user_code unit :=
  if has_propagator then on_trace Tracing.clear else ret tt.

(** ** Handlers *)

Definition lookup_key {A} (k : string) (d : list (string * A)) : outcome (consumer_error E) A :=
  match dict_get k d with Some x => Ok x | None => Raise MissingKey end.

(** The container and the handler methods: an instance of the controller, and the
    call of a method of it. *)
Context {K : Type} (get_controller : py_object → user_code K)
  (call_method : K → string → AbstractEvent → user_code unit).

Definition invoke (p : handler_pod) (m : handler_method) (e : AbstractEvent) : user_code unit :=
  controller_instance <- get_controller (handler_type p) ;;
  call_method controller_instance (method_name m) e.

(** [_event_routing_name]: a property [event_name] in the dictionary of the class
    itself, or the name of the class *)
Context (event_name_property : string → option string) (class_name : string → string).
Definition _event_routing_name (event : string) : string :=
  default (class_name event) (event_name_property event).

(** ** Lemmas the consumers share *)

Lemma on_seen_frame {A} (m : user_code A) (s : process R W) :
  message_headers (on_seen m s).2 = message_headers s ∧ settled (on_seen m s).2 = settled s.
Proof. unfold on_seen. by destruct (m (seen s)). Qed.

Lemma on_seen_seen {A} (m : user_code A) (s : process R W) : seen (on_seen m s).2 = (m (seen s)).2.
Proof. unfold on_seen. by destruct (m (seen s)). Qed.

(** Starting the trace of a message always succeeds; it reads the entropy and the
    message, not the trace before. *)
Lemma begin_trace_spec (h : headers) (v : visible R W) :
  ∃ x, begin_trace h v = (Ok tt, mk_visible (context v) x (program v)) ∧
       (has_propagator = false → x = trace v) ∧
       ∀ ctx t, has_propagator = true →
         begin_trace h (mk_visible ctx (mk_execution t (entropy (trace v))) (program v)) =
         (Ok tt, mk_visible ctx x (program v)).
Proof.
  unfold begin_trace. destruct has_propagator; [|by exists (trace v); destruct v].
  destruct v as [ctx [t r] w]. cbn [trace entropy context program].
  unfold on_trace, bind. cbn [trace context program].
  destruct (port_extract h) as [parent|].
  - unfold child, bind, generate_span_id, draw. cbn [entropy].
    destruct (token_hex _ r) as [sp r']. cbn. by eexists.
  - unfold new_root, bind, generate_trace_id, generate_span_id, draw. cbn [entropy].
    destruct (token_hex _ r) as [tr r']. cbn. destruct (token_hex _ r') as [sp r2]. cbn. by eexists.
Qed.

Lemma end_trace_spec (v : visible R W) :
  end_trace v = (Ok tt, mk_visible (context v)
    (if has_propagator then mk_execution None (entropy (trace v)) else trace v) (program v)).
Proof. unfold end_trace. destruct v. by destruct has_propagator. Qed.

Lemma lookup_key_Ok {A} (k : string) (d : list (string * A)) x :
  lookup_key k d = Ok x ↔ dict_get k d = Some x.
Proof. unfold lookup_key. destruct (dict_get k d); naive_solver. Qed.
End consumers.

(** Tags given to classes are looked up as the classes they were given to. *)
Lemma lookup_initialized (tags classes : list string) (d : list (string * string)) k c :
  dict_get k (foldl (λ d te, dict_set te.1 te.2 d) d (zip tags classes)) = Some c →
  c ∈ classes ∨ dict_get k d = Some c.
Proof.
  revert classes d. induction tags as [|t tags IH]; intros [|c' cs] d; cbn; [by right..|].
  intros [Hc|Hc]%IH; [left; by right|]. destruct (decide (k = t)) as [->|Hne].
  - rewrite dict_get_set_eq in Hc. injection Hc as ->. left. by left.
  - rewrite dict_get_set_ne in Hc by done. by right.
Qed.

(** ** An application with one protected handler, for the witnesses

    [Billing.on_paid] handles the integration event [OrderPaid] and logs its call. *)

Definition ex_store : auth_store :=
  requirement_decorator protected_requirement "Billing.on_paid" ex_auth_store.
Definition ex_method : handler_method :=
  mk_handler_method "on_paid" (Some "OrderPaid") true false "Billing.on_paid".
Definition ex_pod : handler_pod := mk_handler_pod "Billing" "shop.Billing" [ex_method].
Definition ex_paid : AbstractEvent := mk_event "OrderPaid" IntegrationEvent 7 10 [].
Definition ex_adapter (event : string) (content : bytes) : option AbstractEvent :=
  if bool_decide (event = "OrderPaid" ∧ content = "paid") then Some ex_paid else None.
Definition ex_controller (_ : py_object) : comp (visible N (list string)) (consumer_error string) unit := ret tt.
Definition ex_call (_ : unit) (name : string) (e : AbstractEvent)
    : comp (visible N (list string)) (consumer_error string) unit :=
  modify (λ v, mk_visible (context v) (trace v) (program v ++ [name])).
Definition ex_verifier (envelope : string) (_ : AuthInvocation) : outcome auth_error AuthContext :=
  if bool_decide (envelope = "signed") then Ok ex_auth_context else Raise InvalidAuthContextSnapshotError.
Definition ex_visible : visible N (list string) := mk_visible [] (mk_execution None 0%N) [].
