(* ===== verification/RabbitMQ.v ===== *)
(** * The RabbitMQ consumer

    [plugins/spakky-rabbitmq]: [RabbitMQAuthBoundary], the endpoints of
    [RabbitMQPostProcessor], [RabbitMQEventConsumer] with its settlement of
    deliveries, and the transport. *)

From S2P Require Import Prelude Encoding Annotation Auth Tracing Domain Consumer.

Section rabbitmq.
Context {E R W : Type} `{Entropy R} `{!ITracePropagator R} (has_propagator : bool).
Context (TypeAdapter : string → bytes → option AbstractEvent).
Context {K : Type} (get_controller : py_object → comp (visible R W) (consumer_error E) K)
  (call_method : K → string → AbstractEvent → comp (visible R W) (consumer_error E) unit).
Context (event_name_property : string → option string) (class_name : string → string).
Context (snapshot_verifier : option verifier).

Abbreviation action := (comp (process R W) (consumer_error E)).
Abbreviation user_code := (comp (visible R W) (consumer_error E)).
Abbreviation invoke := (invoke get_controller call_method).
Abbreviation _event_routing_name := (_event_routing_name event_name_property class_name).
Abbreviation begin_trace := (begin_trace (E := E) (W := W) has_propagator).
Abbreviation end_trace := (end_trace (E := E) (R := R) (W := W) has_propagator).

(** Whether the channel accepts a settlement, after those it accepted before *)
Context (channel_error : list (N * settlement) → option E).
Context (auth_challenge_action auth_deny_action auth_error_action malformed_payload_action : settlement).

Definition RABBITMQ_AUTH_BOUNDARY : string := "rabbitmq".
Definition RABBITMQ_EVENT_NAME_ATTRIBUTE : string := "event_name".
Definition RABBITMQ_SNAPSHOT_ATTRIBUTE : string := "auth_context_snapshot".

Definition set_message_headers (h : option headers) : action unit :=
  modify (λ s, mk_process (seen s) h (settled s)).
Definition current_rabbitmq_message_headers : action headers := gets (λ s, default [] (message_headers s)).

Definition _snapshot_envelope (h : headers) : option string :=
  match dict_get AUTH_CONTEXT_SNAPSHOT_METADATA_KEY h with
  | Some snapshot => Some snapshot
  | None => dict_get AUTH_CONTEXT_SNAPSHOT_HEADER_KEY h
  end.

Definition rabbit_invocation (event op snapshot_envelope : string) : AuthInvocation :=
  mk_auth_invocation RABBITMQ_AUTH_BOUNDARY op
    [(RABBITMQ_EVENT_NAME_ATTRIBUTE, Some (class_name event));
     (RABBITMQ_SNAPSHOT_ATTRIBUTE, Some snapshot_envelope)].

Definition rabbit_seed_auth_context (event op : string) (protected : bool) : action unit :=
  h <- current_rabbitmq_message_headers ;;
  match _snapshot_envelope h with
  | None =>
      if protected then raise (AuthError (AuthRequirementDeniedError MISSING_SNAPSHOT_DECISION)) else ret tt
  | Some snapshot_envelope =>
      match snapshot_verifier with
      | None => raise (AuthError (AuthRequirementDeniedError VERIFICATION_PROVIDER_UNAVAILABLE_DECISION))
      | Some verify =>
          match verify snapshot_envelope (rabbit_invocation event op snapshot_envelope) with
          | Ok auth_context => on_seen (store_auth_context auth_context)
          | Raise MissingAuthContextSnapshotError =>
              raise (AuthError (AuthRequirementDeniedError MISSING_SNAPSHOT_DECISION))
          | Raise InvalidAuthContextSnapshotError =>
              raise (AuthError (AuthRequirementDeniedError INVALID_SNAPSHOT_DECISION))
          | Raise ExpiredAuthContextSnapshotError =>
              raise (AuthError (AuthRequirementDeniedError EXPIRED_SNAPSHOT_DECISION))
          | Raise AuthVerificationProviderUnavailableError =>
              raise (AuthError (AuthRequirementDeniedError VERIFICATION_PROVIDER_UNAVAILABLE_DECISION))
          | Raise e => raise (AuthError e)
          end
      end
  end.

(** [endpoint] of the post-processor, for the event class of its route *)
Definition rabbit_endpoint (p : handler_pod) (event : string) (m : handler_method) (protected : bool)
    (e : AbstractEvent) : action unit :=
  on_seen clear_context ;;;
  rabbit_seed_auth_context event (operation p m) protected ;;;
  on_seen (invoke p m e).

Abbreviation rabbit_registry := (registry (AbstractEvent → action unit)).

Definition rabbit_register (event : string) (h : AbstractEvent → action unit) (r : rabbit_registry)
    : rabbit_registry :=
  let r := match dict_get event (handlers r) with
           | Some _ => r
           | None => mk_registry (dict_set event [] (handlers r))
                       (dict_set event (TypeAdapter event) (type_adapters r)) (type_lookup r)
           end in
  append_handler event h r.

(** What is registered with the synchronous consumer (the methods that are not
    coroutines) or with the asynchronous one (the others) *)
Definition rabbit_post_process (asynchronous : bool) (st : auth_store) (p : handler_pod)
    : comp rabbit_registry auth_error unit :=
  for_each (λ m,
    match route m with
    | Some event =>
        if is_integration_event m then
          md <- lift (auth_metadata st p m) ;;
          if Bool.eqb (is_coroutine m) asynchronous
          then modify (rabbit_register event (rabbit_endpoint p event m (protected md)))
          else ret tt
        else ret tt
    | None => ret tt
    end) (members p).

(** [initialize] declares a durable queue per class and consumes it; the broker
    answers with the tags. *)
Definition rabbit_queues (r : rabbit_registry) : list string := _event_routing_name <$> (handlers r).*1.
Definition rabbit_initialize (tags : list string) (r : rabbit_registry) : rabbit_registry :=
  mk_registry (handlers r) (type_adapters r)
    (foldl (λ d te, dict_set te.1 te.2 d) (type_lookup r) (zip tags (handlers r).*1)).

(** *** A delivery *)

Record delivery := mk_delivery {
  consumer_tag : option string;
  delivery_tag : option N;
  raw_headers : option (list (string * header_value));
  body : bytes;
}.

Definition settle (tag : N) (a : settlement) : action unit := λ s,
  match channel_error (settled s) with
  | Some e => (Raise (UserError e), s)
  | None => (Ok tt, mk_process (seen s) (message_headers s) (settled s ++ [(tag, a)]))
  end.

Definition _auth_failure_action (decision : option AuthorizationDecision) : settlement :=
  match decision with
  | None => auth_error_action
  | Some d =>
      match state d with
      | ALLOW => auth_error_action
      | CHALLENGE => auth_challenge_action
      | DENY => auth_deny_action
      | ERROR => auth_error_action
      end
  end.

(** The statements of the [try] before [basic_ack] *)
Definition dispatch (r : rabbit_registry) (tag : string) (content : bytes) : action unit :=
  event_type <- lift (lookup_key tag (type_lookup r)) ;;
  hs <- lift (lookup_key event_type (handlers r)) ;;
  type_adapter <- lift (lookup_key event_type (type_adapters r)) ;;
  event <- lift (match type_adapter content with Some e => Ok e | None => Raise ValidationError end) ;;
  for_each (λ h, h event) hs.

Definition rabbit_route_event_handler (r : rabbit_registry) (d : delivery) : action unit :=
  match consumer_tag d, delivery_tag d with
  | Some ctag, Some dtag =>
      carrier <- lift (_to_string_headers (default [] (raw_headers d)) []) ;;
      on_seen (begin_trace carrier) ;;;
      previous <- gets message_headers ;;
      set_message_headers (Some carrier) ;;;
      try_finally
        (try_except (dispatch r ctag (body d) ;;; settle dtag ACK)
          (λ e, match e with
                | ValidationError => Some (settle dtag malformed_payload_action)
                | _ =>
                    match denial e with
                    | Some decision => Some (settle dtag (_auth_failure_action decision))
                    | None => None
                    end
                end))
        (set_message_headers previous ;;; on_seen end_trace)
  | _, _ => raise InvalidMessageError
  end.

(** *** What is registered *)

(** The endpoints the post-processor makes of the methods of the pods for a class,
    in order *)
Definition method_endpoints (asynchronous : bool) (st : auth_store) (event : string) (p : handler_pod)
    (m : handler_method) : list (AbstractEvent → action unit) :=
  match route m, auth_metadata st p m with
  | Some event', Ok md =>
      if String.eqb event event' && is_integration_event m && Bool.eqb (is_coroutine m) asynchronous
      then [rabbit_endpoint p event' m (protected md)] else []
  | _, _ => []
  end.
Definition endpoints (asynchronous : bool) (st : auth_store) (pods : list handler_pod) (event : string)
    : list (AbstractEvent → action unit) :=
  pods ≫= λ p, members p ≫= method_endpoints asynchronous st event p.

(** The handlers and the adapters of a registry have the same classes. *)
Definition registry_ok (r : rabbit_registry) : Prop :=
  ∀ event, dict_get event (type_adapters r) =
           (λ _, TypeAdapter event) <$> dict_get event (handlers r).

Definition handlers_of (r : rabbit_registry) (event : string) := default [] (dict_get event (handlers r)).

Lemma register_handlers event h r event' :
  handlers_of (rabbit_register event h r) event' =
  handlers_of r event' ++ (if String.eqb event' event then [h] else []).
Proof.
  unfold handlers_of, rabbit_register, append_handler. cbn [handlers].
  destruct (String.eqb_spec event' event) as [->|Hne].
  - rewrite dict_get_set_eq. destruct (dict_get event (handlers r)) eqn:Hd; cbn [handlers].
    + by rewrite Hd.
    + by rewrite dict_get_set_eq.
  - rewrite dict_get_set_ne by done. rewrite app_nil_r.
    destruct (dict_get event (handlers r)); cbn [handlers]; [done|]. by rewrite dict_get_set_ne.
Qed.

Lemma register_ok event h r : registry_ok r → registry_ok (rabbit_register event h r).
Proof.
  intros Hr event'. unfold rabbit_register, append_handler. cbn [handlers type_adapters].
  destruct (decide (event' = event)) as [->|Hne].
  - rewrite dict_get_set_eq. specialize (Hr event).
    destruct (dict_get event (handlers r)); cbn [type_adapters]; [done|].
    by rewrite dict_get_set_eq.
  - rewrite dict_get_set_ne by done. specialize (Hr event').
    destruct (dict_get event (handlers r)); cbn [type_adapters handlers]; [done|].
    by rewrite !dict_get_set_ne.
Qed.

Lemma register_lookup event h r : type_lookup (rabbit_register event h r) = type_lookup r.
Proof. unfold rabbit_register, append_handler. by destruct (dict_get event (handlers r)). Qed.

(** [registered r r' l]: [r'] has the handlers of [r] and then those of [l]. *)
Definition registered (r r' : rabbit_registry) (l : string → list (AbstractEvent → action unit)) : Prop :=
  (∀ event, handlers_of r' event = handlers_of r event ++ l event) ∧
  (registry_ok r → registry_ok r') ∧ type_lookup r' = type_lookup r.

Lemma registered_nil r : registered r r (λ _, []).
Proof. split; [|done]. intros event. by rewrite app_nil_r. Qed.
Lemma registered_app r1 r2 r3 l1 l2 :
  registered r1 r2 l1 → registered r2 r3 l2 → registered r1 r3 (λ event, l1 event ++ l2 event).
Proof.
  intros (H12 & Hok12 & Hl12) (H23 & Hok23 & Hl23). split; [|split; [auto|congruence]].
  intros event. by rewrite H23, H12, app_assoc.
Qed.
Lemma registered_for_each {A} (f : A → comp rabbit_registry auth_error unit) (l : list A) g r r' :
  (∀ x r r', x ∈ l → f x r = (Ok tt, r') → registered r r' (g x)) →
  for_each f l r = (Ok tt, r') → registered r r' (λ event, l ≫= λ x, g x event).
Proof.
  revert r. induction l as [|x l IH]; intros r Hf.
  - intros [= <-]. apply registered_nil.
  - cbn [for_each]. intros ([] & r1 & Hx & Hl)%bind_Ok_inv.
    apply (registered_app r r1 r'); [apply Hf; [by left|done]|].
    apply IH; [|done]. intros y r2 r3 Hy. apply Hf. by right.
Qed.

Lemma post_process_registers asynchronous st pods r r' :
  for_each (rabbit_post_process asynchronous st) pods r = (Ok tt, r') →
  registered r r' (endpoints asynchronous st pods).
Proof.
  apply registered_for_each. intros p r1 r2 _. unfold rabbit_post_process.
  apply registered_for_each. intros m r3 r4 _. unfold method_endpoints.
  destruct (route m) as [event|]; [|intros [= <-]; apply registered_nil].
  destruct (is_integration_event m).
  - unfold bind, lift. destruct (auth_metadata st p m) as [md|e]; [|done].
    destruct (Bool.eqb (is_coroutine m) asynchronous); intros [= <-].
    + split; [|split; [apply register_ok|apply register_lookup]].
      intros event'. rewrite register_handlers. by destruct (String.eqb event' event).
    + split; [|done]. intros event'. rewrite andb_false_r. by rewrite app_nil_r.
  - intros [= <-]. split; [|done]. intros event'. rewrite andb_false_r.
    destruct (auth_metadata st p m); by rewrite app_nil_r.
Qed.

(** *** The endpoint *)

(** The signed snapshot in the headers verifies as [c] for an operation. *)
Definition rabbit_verified (event op : string) (h : headers) (c : AuthContext) : Prop :=
  ∃ verify envelope, snapshot_verifier = Some verify ∧ _snapshot_envelope h = Some envelope ∧
    verify envelope (rabbit_invocation event op envelope) = Ok c.

(** The process with a given application context *)
Definition in_context (ctx : list (string * context_value)) (s : process R W) : process R W :=
  mk_process (with_context ctx (seen s)) (message_headers s) (settled s).

Lemma endpoint_spec p event m prot e s h :
  message_headers s = Some h →
  (∃ c, rabbit_verified event (operation p m) h c ∧
     rabbit_endpoint p event m prot e s = on_seen (invoke p m e) (in_context (authenticated c) s)) ∨
  (prot = false ∧ _snapshot_envelope h = None ∧
     rabbit_endpoint p event m prot e s = on_seen (invoke p m e) (in_context [] s)) ∨
  ((∀ c, ¬ rabbit_verified event (operation p m) h c) ∧
     ∃ x, rabbit_endpoint p event m prot e s = (Raise (AuthError x), in_context [] s)).
Proof.
  destruct s as [v mh ss]. cbn [message_headers]. intros ->. unfold rabbit_verified.
  destruct (rabbit_endpoint p event m prot e _) as [o s'] eqn:Hg. revert Hg.
  unfold rabbit_endpoint, rabbit_seed_auth_context, current_rabbitmq_message_headers, bind, gets, on_seen at 1.
  cbn -[_snapshot_envelope on_seen]. change (id h) with h.
  destruct (_snapshot_envelope h) as [envelope|].
  - destruct snapshot_verifier as [verify|].
    + destruct (verify envelope (rabbit_invocation event (operation p m) envelope)) as [c|x] eqn:Hv.
      * intros <-. left. exists c. split; [by eauto 6|done].
      * intros Hg. right. right. split.
        { intros c2 (? & ? & [= <-] & [= <-] & Hv2). by rewrite Hv in Hv2. }
        destruct x; injection Hg as <- <-; by eexists.
    + intros [= <- <-]. right. right. split; [by intros c' (? & ? & ? & ? & ?)|]. by eexists.
  - destruct prot; [|by intros <-; right; left].
    intros [= <- <-]. right. right. split; [by intros c' (? & ? & ? & ? & ?)|]. by eexists.
Qed.

Lemma endpoint_clears p event m prot e ctx s :
  rabbit_endpoint p event m prot e (in_context ctx s) = rabbit_endpoint p event m prot e s.
Proof. done. Qed.

(** What the endpoints leave alone: the headers of the message and the settlements *)
Definition frame (h : option headers) (l : list (N * settlement)) (s : process R W) : Prop :=
  message_headers s = h ∧ settled s = l.
Lemma on_seen_preserves {A} h l (m : user_code A) : preserves (frame h l) (on_seen m).
Proof. intros s [<- <-]. apply on_seen_frame. Qed.
#[local] Hint Resolve on_seen_preserves : preserves.

Lemma endpoint_preserves p event m prot e h l : preserves (frame h l) (rabbit_endpoint p event m prot e).
Proof.
  unfold rabbit_endpoint, rabbit_seed_auth_context, current_rabbitmq_message_headers. preserves_tac.
Qed.

(** *** The registry of an application: its handler pods, and the tags of the broker *)
Context (asynchronous : bool) (st : auth_store) (pods : list handler_pod) (tags : list string).

Definition application_registry (r : rabbit_registry) : Prop :=
  ∃ r0, for_each (rabbit_post_process asynchronous st) pods no_handlers = (Ok tt, r0) ∧
        r = rabbit_initialize tags r0.

Lemma application_handlers r event :
  application_registry r → handlers_of r event = endpoints asynchronous st pods event.
Proof. intros (r0 & Hr0 & ->). apply post_process_registers in Hr0 as (Hh & _ & _). apply Hh. Qed.

Lemma application_adapters r : application_registry r → registry_ok r.
Proof. intros (r0 & Hr0 & ->). apply post_process_registers in Hr0 as (_ & Hok & _). by apply Hok. Qed.

(** A known tag is the tag of a class that has handlers and an adapter. *)
Lemma application_tags r tag event :
  application_registry r → dict_get tag (type_lookup r) = Some event →
  dict_get event (handlers r) = Some (endpoints asynchronous st pods event) ∧
  dict_get event (type_adapters r) = Some (TypeAdapter event).
Proof.
  intros Hr Htag. pose proof (application_handlers r event Hr) as Hh.
  pose proof (application_adapters r Hr event) as Ha. unfold handlers_of in Hh.
  assert (dict_get event (handlers r) ≠ None) as Hne.
  { destruct Hr as (r0 & Hr0 & ->). cbn in *. apply post_process_registers in Hr0 as (_ & _ & Hl).
    rewrite Hl in Htag. apply lookup_initialized in Htag as [Hin|]; [|done].
    by rewrite dict_get_None; auto. }
  destruct (dict_get event (handlers r)) as [l|]; [|done]. cbn in Hh. by subst l.
Qed.

Lemma elem_endpoints event h :
  h ∈ endpoints asynchronous st pods event ↔
  ∃ p m md, p ∈ pods ∧ m ∈ members p ∧ route m = Some event ∧ is_integration_event m = true ∧
    is_coroutine m = asynchronous ∧ auth_metadata st p m = Ok md ∧
    h = rabbit_endpoint p event m (protected md).
Proof.
  unfold endpoints. rewrite list_elem_of_bind. setoid_rewrite list_elem_of_bind. unfold method_endpoints. split.
  - intros (p & (m & Hh & Hm) & Hp). destruct (route m) as [event'|] eqn:Hr; [|by inversion Hh].
    destruct (auth_metadata st p m) as [md|] eqn:Hmd; [|by inversion Hh].
    destruct (String.eqb_spec event event') as [->|]; [|by inversion Hh].
    destruct (is_integration_event m) eqn:Hi; [|by inversion Hh].
    destruct (Bool.eqb_spec (is_coroutine m) asynchronous); [|by inversion Hh].
    apply list_elem_of_singleton in Hh. by exists p, m, md.
  - intros (p & m & md & Hp & Hm & Hr & Hi & Hc & Hmd & ->). exists p. split; [|done].
    exists m. split; [|done]. rewrite Hr, Hmd, Hi, Hc, String.eqb_refl, Bool.eqb_reflx. by left.
Qed.

(** *** Routing *)

(** A delivery of an unknown tag has no handlers; one of a known tag is validated
    and given to the endpoints of its class. *)
Lemma dispatch_cases r tag content :
  application_registry r →
  (dict_get tag (type_lookup r) = None ∧ ∀ s, dispatch r tag content s = (Raise MissingKey, s)) ∨
  (∃ event, dict_get tag (type_lookup r) = Some event ∧
     ((TypeAdapter event content = None ∧ ∀ s, dispatch r tag content s = (Raise ValidationError, s)) ∨
      (∃ e, TypeAdapter event content = Some e ∧ ∀ s,
         dispatch r tag content s = for_each (λ f, f e) (endpoints asynchronous st pods event) s))).
Proof.
  intros Hr. unfold dispatch, bind, lift, lookup_key.
  destruct (dict_get tag (type_lookup r)) as [event|] eqn:Htag; [right|by left].
  destruct (application_tags r tag event Hr Htag) as [-> ->]. exists event. split; [done|].
  destruct (TypeAdapter event content) as [e|]; [right; by exists e|by left].
Qed.

Lemma dispatch_preserves r tag content h l :
  application_registry r → preserves (frame h l) (dispatch r tag content).
Proof.
  intros Hr s Hs.
  destruct (dispatch_cases r tag content Hr) as [[_ ->]|(event & _ & [[_ ->]|(e & _ & ->)])]; [done..|].
  revert s Hs. apply preserves_for_each_in. intros f Hf.
  apply elem_endpoints in Hf as (p & m & md & _ & _ & _ & _ & _ & _ & ->). apply endpoint_preserves.
Qed.

(** How what came of a message settles it *)
Definition settlement_of (o : outcome (consumer_error E) unit) : option settlement :=
  match o with
  | Ok _ => Some ACK
  | Raise ValidationError => Some malformed_payload_action
  | Raise e => _auth_failure_action <$> denial e
  end.

(** The state in which the handlers of a message start *)
Definition prepared (carrier : headers) (s : process R W) : process R W :=
  mk_process (begin_trace carrier (seen s)).2 (Some carrier) (settled s).
(** The state after them, with the boundary's own variables restored *)
Definition finished (s s1 : process R W) (l : list (N * settlement)) : process R W :=
  mk_process (end_trace (seen s1)).2 (message_headers s) l.

(** The settlement the route attempts, given what came of the handlers *)
Definition attempt (dtag : N) (o : outcome (consumer_error E) unit) (l : list (N * settlement))
    : outcome (consumer_error E) unit * list (N * settlement) :=
  match settlement_of o with
  | None => (o, l)
  | Some a =>
      match channel_error l with
      | None => (Ok tt, l ++ [(dtag, a)])
      | Some x => (Raise (UserError x), l)
      end
  end.

Lemma route_spec r d ctag dtag carrier s :
  application_registry r → consumer_tag d = Some ctag → delivery_tag d = Some dtag →
  _to_string_headers (E := E) (default [] (raw_headers d)) [] = Ok carrier →
  let '(o, s1) := dispatch r ctag (body d) (prepared carrier s) in
  let '(o', l) := attempt dtag o (settled s) in
  rabbit_route_event_handler r d s = (o', finished s s1 l).
Proof.
  intros Hr Hc Hd Hh. destruct s as [v mh l0].
  destruct (dispatch_preserves r ctag (body d) (Some carrier) l0 Hr (prepared carrier (mk_process v mh l0)))
    as [Hm Hl]; [done|].
  destruct (dispatch r ctag (body d) (prepared carrier (mk_process v mh l0))) as [o s1] eqn:Hdis.
  cbn [snd] in Hm, Hl. unfold rabbit_route_event_handler. rewrite Hc, Hd, Hh.
  unfold bind at 1. cbn [lift]. unfold bind at 1, on_seen at 1. cbn [seen message_headers settled].
  destruct (begin_trace_spec (E := E) has_propagator carrier v) as (x & Hx & _).
  unfold prepared in Hdis. cbn [seen settled] in Hdis. rewrite Hx in *. cbn [snd] in Hdis.
  unfold bind at 1, gets. unfold bind at 1, set_message_headers, modify. cbn [seen message_headers settled].
  unfold try_finally, try_except. unfold bind at 1. rewrite Hdis.
  unfold attempt, settlement_of, finished, settle. cbn [settled message_headers].
  destruct s1 as [v1 mh1 l1]. cbn [message_headers settled seen] in *. subst mh1 l1.
  unfold bind, on_seen. destruct o as [[]|e]; [|destruct e as [|e| | | | | |]; try destruct e]; cbn;
    rewrite ?end_trace_spec; cbn; repeat (case_match; simplify_eq; cbn; rewrite ?end_trace_spec; cbn); try done.
Qed.

(** *** Theorems *)

(** The broker is asked once to settle the delivery [dtag] with [a]; when the
    channel fails, its exception escapes. *)
Definition settled_with (s : process R W) (dtag : N) (a : settlement)
    (o : outcome (consumer_error E) unit) (s' : process R W) : Prop :=
  match channel_error (settled s) with
  | None => o = Ok tt ∧ settled s' = settled s ++ [(dtag, a)]
  | Some x => o = Raise (UserError x) ∧ settled s' = settled s
  end.

Lemma attempt_settled dtag a o s s1 :
  settlement_of o = Some a →
  settled_with s dtag a (attempt dtag o (settled s)).1 (finished s s1 (attempt dtag o (settled s)).2).
Proof. unfold attempt, settled_with. intros ->. by destruct (channel_error (settled s)). Qed.
Lemma attempt_unsettled dtag o l : settlement_of o = None → attempt dtag o l = (o, l).
Proof. unfold attempt. by intros ->. Qed.

(** C35. Every delivery with its tags, and headers that are text, is settled at most
    once, and as its handling came out. A payload that does not validate is settled with the action for
    malformed payloads and reaches no handler. A payload that validates goes to the
    handlers of its event: the delivery is acknowledged after all of them returned,
    settled with the action of the decision when one is denied, and not settled when
    one raises another exception, which escapes; except that a [ValidationError] of a
    handler is not told from one of the payload, about which nothing is stated. The
    headers of the message and its trace do not outlive it. *)
Theorem settlement_follows_handling r d ctag dtag carrier s :
  application_registry r → consumer_tag d = Some ctag → delivery_tag d = Some dtag →
  _to_string_headers (E := E) (default [] (raw_headers d)) [] = Ok carrier →
  let '(o', s') := rabbit_route_event_handler r d s in
  message_headers s' = message_headers s ∧
  (has_propagator = true → _trace_context (trace (seen s')) = None) ∧
  match dict_get ctag (type_lookup r) with
  | None => o' = Raise MissingKey ∧ settled s' = settled s ∧ program (seen s') = program (seen s)
  | Some event =>
      match TypeAdapter event (body d) with
      | None => settled_with s dtag malformed_payload_action o' s' ∧ program (seen s') = program (seen s)
      | Some e =>
          let '(o, s1) := for_each (λ f, f e) (endpoints asynchronous st pods event) (prepared carrier s) in
          program (seen s') = program (seen s1) ∧
          match o with
          | Ok _ => settled_with s dtag ACK o' s'
          | Raise x =>
              x ≠ ValidationError →
              match denial x with
              | Some decision => settled_with s dtag (_auth_failure_action decision) o' s'
              | None => o' = Raise x ∧ settled s' = settled s
              end
          end
      end
  end.
Proof.
  intros Hr Hc Hd Hh. pose proof (route_spec r d ctag dtag carrier s Hr Hc Hd Hh) as Hroute.
  assert (program (seen (prepared carrier s)) = program (seen s)) as Hprep.
  { unfold prepared. destruct (begin_trace_spec (E := E) has_propagator carrier (seen s)) as (x & -> & _). done. }
  destruct (dispatch r ctag (body d) (prepared carrier s)) as [o s1] eqn:Hdis.
  pose proof (attempt_settled dtag) as Hset. destruct (attempt dtag o (settled s)) as [o' l] eqn:Hatt. rewrite Hroute.
  assert (∀ a, settlement_of o = Some a → settled_with s dtag a o' (finished s s1 l)) as Ha.
  { intros a Hs. specialize (Hset a o s s1 Hs). by rewrite Hatt in Hset. }
  assert (settlement_of o = None → o' = o ∧ l = settled s) as Hn.
  { intros Hs. rewrite attempt_unsettled in Hatt by done. by injection Hatt as <- <-. }
  assert (program (seen (finished s s1 l)) = program (seen s1)) as Hprog by (cbn; by rewrite end_trace_spec).
  split; [done|]. split; [cbn; rewrite end_trace_spec; by intros ->|]. rewrite Hprog. clear Hprog Hset Hatt Hroute.
  destruct (dispatch_cases r ctag (body d) Hr) as [[-> Hx]|(event & -> & [[-> Hx]|(e & -> & Hx)])];
    rewrite Hx in Hdis.
  - injection Hdis as <- <-. by destruct (Hn eq_refl) as [-> ->].
  - injection Hdis as <- <-. split; [by apply Ha|done].
  - rewrite Hdis. split; [done|]. destruct o as [[]|x]; [by apply Ha|]. intros Hx'.
    destruct (denial x) as [decision|] eqn:Hden.
    + apply Ha. cbn. rewrite Hden. by destruct x.
    + apply Hn. cbn. rewrite Hden. by destruct x.
Qed.

Lemma for_each_endpoints_program (P : W → Prop) (l : list (AbstractEvent → action unit)) h e s :
  (∀ f, f ∈ l → ∀ s, message_headers s = Some h → P (program (seen s)) →
     message_headers (f e s).2 = Some h ∧ P (program (seen (f e s).2))) →
  message_headers s = Some h → P (program (seen s)) →
  P (program (seen (for_each (λ f, f e) l s).2)).
Proof.
  revert s. induction l as [|f l IH]; intros s Hf Hs HP; [done|]. cbn [for_each]. unfold bind.
  destruct (Hf f (list_elem_of_here f l) s Hs HP) as [Hs1 HP1].
  destruct (f e s) as [[[]|x] s1]; [|done]. apply IH; [|done..].
  intros g Hg. apply Hf. by right.
Qed.

(** A handler method runs only on what the boundary admits: the method of a
    protected handler runs with the authentication context, alone in the
    application context, of a snapshot in the headers of this very message that
    verifies for its operation. Every invariant of the program that the methods
    keep under that assumption is kept by the consumer. *)
Theorem handlers_run_verified (P : W → Prop) r d s :
  application_registry r →
  (∀ carrier p m event md e ctx tr w,
     _to_string_headers (E := E) (default [] (raw_headers d)) [] = Ok carrier →
     p ∈ pods → m ∈ members p → route m = Some event → auth_metadata st p m = Ok md →
     (∃ c, rabbit_verified event (operation p m) carrier c ∧ ctx = authenticated c) ∨
       (protected md = false ∧ _snapshot_envelope carrier = None ∧ ctx = []) →
     P w → P (program (invoke p m e (mk_visible ctx tr w)).2)) →
  P (program (seen s)) → P (program (seen (rabbit_route_event_handler r d s).2)).
Proof.
  intros Hr Hm HP. destruct (consumer_tag d) as [ctag|] eqn:Hc; [|by unfold rabbit_route_event_handler; rewrite Hc].
  destruct (delivery_tag d) as [dtag|] eqn:Hd; [|by unfold rabbit_route_event_handler; rewrite Hc, Hd].
  destruct (_to_string_headers (default [] (raw_headers d)) []) as [carrier|x] eqn:Hh;
    [|by unfold rabbit_route_event_handler; rewrite Hc, Hd, Hh].
  pose proof (route_spec r d ctag dtag carrier s Hr Hc Hd Hh) as Hroute.
  destruct (dispatch r ctag (body d) (prepared carrier s)) as [o s1] eqn:Hdis.
  destruct (attempt dtag o (settled s)) as [o' l]. rewrite Hroute. unfold finished. cbn.
  rewrite end_trace_spec. cbn.
  assert (s1 = (dispatch r ctag (body d) (prepared carrier s)).2) as -> by by rewrite Hdis.
  assert (P (program (seen (prepared carrier s)))) as HP0.
  { unfold prepared. destruct (begin_trace_spec (E := E) has_propagator carrier (seen s)) as (x & -> & _). done. }
  destruct (dispatch_cases r ctag (body d) Hr) as [[_ ->]|(event & _ & [[_ ->]|(e & _ & ->)])]; [done..|].
  apply (for_each_endpoints_program P _ carrier); [|done|done]. intros f Hf s2 Hs2 HP2.
  apply elem_endpoints in Hf as (p & m & md & Hp & Hm' & Hroute' & _ & _ & Hmd & ->).
  split; [by apply (endpoint_preserves p event m (protected md) e (Some carrier) (settled s2) s2)|].
  assert (∀ ctx, (∃ c, rabbit_verified event (operation p m) carrier c ∧ ctx = authenticated c) ∨
       (protected md = false ∧ _snapshot_envelope carrier = None ∧ ctx = []) →
     P (program (seen (on_seen (invoke p m e) (in_context ctx s2)).2))) as Hinv.
  { intros ctx Hctx. specialize (Hm carrier p m event md e ctx (trace (seen s2)) (program (seen s2))).
    rewrite on_seen_seen. unfold in_context. cbn [seen]. by apply Hm. }
  destruct (endpoint_spec p event m (protected md) e s2 carrier Hs2)
    as [(c & Hv & ->)|[(Hpr & Hnone & ->)|(_ & x & ->)]]; [apply Hinv; by left; exists c|apply Hinv; by right|done].
Qed.

Lemma for_each_endpoints_isolated event hs e ctx s :
  (∀ f, f ∈ hs → ∃ p m prot, f = rabbit_endpoint p event m prot) →
  (for_each (λ f, f e) hs (in_context ctx s)).1 = (for_each (λ f, f e) hs s).1 ∧
  in_context [] (for_each (λ f, f e) hs (in_context ctx s)).2 = in_context [] (for_each (λ f, f e) hs s).2.
Proof.
  destruct hs as [|f hs]; intros Hf; [done|]. destruct (Hf f) as (p & m & prot & ->); [by left|].
  cbn [for_each]. unfold bind. by rewrite endpoint_clears.
Qed.

(** Messages are handled in isolation: the outcome, the settlement and the
    effect on the program do not depend on the application context, the trace and
    the message headers that earlier messages, or anything else, left behind. *)
Theorem deliveries_are_isolated r d s ctx t mh :
  application_registry r → has_propagator = true →
  let s' := mk_process (mk_visible ctx (mk_execution t (entropy (trace (seen s)))) (program (seen s)))
              mh (settled s) in
  (rabbit_route_event_handler r d s').1 = (rabbit_route_event_handler r d s).1 ∧
  settled (rabbit_route_event_handler r d s').2 = settled (rabbit_route_event_handler r d s).2 ∧
  program (seen (rabbit_route_event_handler r d s').2) = program (seen (rabbit_route_event_handler r d s).2).
Proof.
  intros Hr Htr s'. destruct (consumer_tag d) as [ctag|] eqn:Hc; [|by unfold rabbit_route_event_handler; rewrite Hc].
  destruct (delivery_tag d) as [dtag|] eqn:Hd; [|by unfold rabbit_route_event_handler; rewrite Hc, Hd].
  destruct (_to_string_headers (E := E) (default [] (raw_headers d)) []) as [carrier|x] eqn:Hh;
    [|by unfold rabbit_route_event_handler; rewrite Hc, Hd, Hh].
  pose proof (route_spec r d ctag dtag carrier s Hr Hc Hd Hh) as Hroute.
  pose proof (route_spec r d ctag dtag carrier s' Hr Hc Hd Hh) as Hroute'.
  destruct (begin_trace_spec (E := E) has_propagator carrier (seen s)) as (x & Hx & _ & Hx').
  specialize (Hx' ctx t Htr).
  assert (prepared carrier s' = in_context ctx (prepared carrier s)) as Heq.
  { unfold prepared, s'. cbn [seen settled]. by rewrite Hx', Hx. }
  rewrite Heq in Hroute'.
  assert ((dispatch r ctag (body d) (in_context ctx (prepared carrier s))).1 =
            (dispatch r ctag (body d) (prepared carrier s)).1 ∧
          in_context [] (dispatch r ctag (body d) (in_context ctx (prepared carrier s))).2 =
            in_context [] (dispatch r ctag (body d) (prepared carrier s)).2) as [Ho Hs].
  { destruct (dispatch_cases r ctag (body d) Hr) as [[_ Hd']|(event & _ & [[_ Hd']|(e & _ & Hd')])];
      rewrite !Hd'; [done..|].
    apply (for_each_endpoints_isolated event). intros f Hf.
    apply elem_endpoints in Hf as (p & m & md & _ & _ & _ & _ & _ & _ & ->). eauto. }
  destruct (dispatch r ctag (body d) (prepared carrier s)) as [o s1].
  destruct (dispatch r ctag (body d) (in_context ctx (prepared carrier s))) as [o2 s2].
  cbn in Ho, Hs. subst o2. cbn [settled] in Hroute'. unfold s' in Hroute' at 1. cbn [settled] in Hroute'.
  destruct (attempt dtag o (settled s)) as [o' l]. rewrite Hroute, Hroute'. unfold finished. cbn.
  rewrite !end_trace_spec. cbn. unfold in_context in Hs. injection Hs as _ Hp _ _. done.
Qed.
End rabbitmq.

(** ** Witnesses *)

Definition ex_route := rabbit_route_event_handler (E := string) (R := N) (W := list string) true
  (λ _, None) ACK ACK NACK_REQUEUE ACK.
Definition ex_registry : registry (AbstractEvent → comp (process N (list string)) (consumer_error string) unit) :=
  rabbit_initialize ["ctag1"]
    (rabbit_post_process ex_adapter ex_controller ex_call (λ e, e) (Some ex_verifier)
       false ex_store ex_pod no_handlers).2.
Definition ex_process : process N (list string) := mk_process ex_visible None [].
Definition ex_delivery (h : list (string * header_value)) : delivery :=
  mk_delivery (Some "ctag1") (Some 5%N) (Some h) "paid".

Lemma ex_application : application_registry (E := string) (R := N) (W := list string) ex_adapter
  ex_controller ex_call (λ e, e) (Some ex_verifier) false ex_store [ex_pod] ["ctag1"] ex_registry.
Proof.
  eexists. split; [|reflexivity]. cbn [for_each]. unfold bind at 1.
  by destruct (rabbit_post_process ex_adapter ex_controller ex_call (λ e, e) (Some ex_verifier) false
                 ex_store ex_pod no_handlers) as [[[]|]] eqn:He; vm_compute in He.
Qed.

(** A message with a good snapshot is handled and acknowledged; one without is
    challenged, which acknowledges it, and its handler does not run. *)
Example ex_handled : let s := (ex_route ex_registry (ex_delivery [("spakky.auth.context_snapshot", HBytes "signed")]) ex_process).2 in
  settled s = [(5%N, ACK)] ∧ program (seen s) = ["on_paid"].
Proof. vm_compute. by split. Qed.

(** One message that is challenged, and one that is handled *)
Lemma settlement_follows_handling_witness :
  settled (ex_route ex_registry (ex_delivery []) ex_process).2 = [(5%N, ACK)] ∧
  settled (ex_route ex_registry (ex_delivery [("spakky.auth.context_snapshot", HBytes "signed")]) ex_process).2 = [(5%N, ACK)].
Proof.
  pose proof (λ h carrier Hh, settlement_follows_handling true ex_adapter ex_controller ex_call (λ e, e) (Some ex_verifier)
    (λ _, None) ACK ACK NACK_REQUEUE ACK false ex_store [ex_pod] ["ctag1"] ex_registry (ex_delivery h) "ctag1" 5%N carrier
    ex_process ex_application eq_refl eq_refl Hh) as H.
  pose proof (H [] [] eq_refl) as H1.
  pose proof (H [("spakky.auth.context_snapshot", HBytes "signed")] [("spakky.auth.context_snapshot", "signed")] eq_refl) as H2.
  clear H. vm_compute in H1, H2. vm_compute. split.
  - destruct H1 as (_ & _ & _ & H1). by destruct (H1 ltac:(done)).
  - destruct H2 as (_ & _ & _ & H2). by destruct H2.
Defined.

Lemma handlers_run_verified_witness :
  program (seen (ex_route ex_registry (ex_delivery [("spakky.auth.context_snapshot", HStr "forged")]) ex_process).2) = [].
Proof.
  apply (handlers_run_verified true ex_adapter ex_controller ex_call (λ e, e) (Some ex_verifier)
    (λ _, None) ACK ACK NACK_REQUEUE ACK false ex_store [ex_pod] ["ctag1"] (λ w, w = [])); [apply ex_application| |reflexivity].
  intros carrier p m event md e ctx tr w [= <-] Hp Hm _ Hmd [(c & Hv & _)|(_ & Hnone & _)]; [|done].
  destruct Hv as (verify & envelope & [= <-] & [= <-] & Hc). done.
Defined.

Lemma deliveries_are_isolated_witness :
  let d := ex_delivery [("spakky.auth.context_snapshot", HStr "signed")] in
  let s := mk_process (mk_visible [("spakky.auth.context", VAuthContext ex_auth_context)]
             (mk_execution (Some ex_trace) 0%N) []) (Some [("spakky.auth.context_snapshot", "old")]) [] in
  program (seen (ex_route ex_registry d s).2) = program (seen (ex_route ex_registry d ex_process).2).
Proof.
  intros d s. apply (deliveries_are_isolated true ex_adapter ex_controller ex_call (λ e, e) (Some ex_verifier)
    (λ _, None) ACK ACK NACK_REQUEUE ACK false ex_store [ex_pod] ["ctag1"] ex_registry d ex_process
    [("spakky.auth.context", VAuthContext ex_auth_context)] (Some ex_trace)
    (Some [("spakky.auth.context_snapshot", "old")])); [apply ex_application|reflexivity].
Defined.
