(* ===== verification/Kafka.v ===== *)
(** * The Kafka consumer

    [plugins/spakky-kafka]: [KafkaAuthBoundary], the endpoints of
    [KafkaPostProcessor] and [KafkaEventConsumer]. *)

From S2P Require Import Prelude Encoding Annotation Auth Tracing Domain Consumer.

Section kafka.
Context {E R W : Type} `{Entropy R} `{!ITracePropagator R} (has_propagator : bool).
Context (TypeAdapter : string → bytes → option AbstractEvent).
Context {K : Type} (get_controller : py_object → comp (visible R W) (consumer_error E) K)
  (call_method : K → string → AbstractEvent → comp (visible R W) (consumer_error E) unit).
Context (event_name_property : string → option string) (class_name : string → string).
Context (snapshot_verifier : option verifier).

Abbreviation user_code := (comp (visible R W) (consumer_error E)).
Abbreviation invoke := (invoke get_controller call_method).
Abbreviation _event_routing_name := (_event_routing_name event_name_property class_name).
Abbreviation begin_trace := (begin_trace (E := E) (W := W) has_propagator).
Abbreviation end_trace := (end_trace (E := E) (R := R) (W := W) has_propagator).

Definition KAFKA_AUTH_BOUNDARY : string := "kafka".

Record KafkaHandlerAuthBinding := mk_binding { binding_operation : string; binding_protected : bool }.

Fixpoint find_lower (h : headers) (lower_name : string) : option string :=
  match h with
  | [] => None
  | (key, candidate) :: h' => if String.eqb (lower key) lower_name then Some candidate else find_lower h' lower_name
  end.
Definition _header_value (h : headers) (name : string) : option string :=
  match dict_get name h with Some value => Some value | None => find_lower h (lower name) end.

Fixpoint first_header (h : headers) (names : list string) : option string :=
  match names with
  | [] => None
  | name :: names' =>
      match _header_value h name with
      | Some value => if String.eqb value "" then first_header h names' else Some value
      | None => first_header h names'
      end
  end.
Definition _snapshot_header (h : headers) : option string :=
  first_header h [AUTH_CONTEXT_SNAPSHOT_HEADER_KEY; AUTH_CONTEXT_SNAPSHOT_METADATA_KEY].

Definition kafka_invocation (b : KafkaHandlerAuthBinding) : AuthInvocation :=
  mk_auth_invocation KAFKA_AUTH_BOUNDARY (binding_operation b) [("handler", Some (binding_operation b))].

Definition kafka_seed_auth_context (h : headers) (b : KafkaHandlerAuthBinding)
    : user_code AuthorizationDecision :=
  match _snapshot_header h with
  | None => ret (if binding_protected b then MISSING_SNAPSHOT_DECISION else decision_allow)
  | Some snapshot =>
      match snapshot_verifier with
      | None => raise (AuthError AuthVerificationProviderUnavailableError)
      | Some verify =>
          match verify snapshot (kafka_invocation b) with
          | Ok auth_context => store_auth_context auth_context ;;; ret decision_allow
          | Raise MissingAuthContextSnapshotError => ret MISSING_SNAPSHOT_DECISION
          | Raise InvalidAuthContextSnapshotError => ret INVALID_SNAPSHOT_DECISION
          | Raise ExpiredAuthContextSnapshotError => ret EXPIRED_SNAPSHOT_DECISION
          | Raise e => raise (AuthError e)
          end
      end
  end.

(** The endpoint, with the keyword argument [_spakky_kafka_headers] *)
Definition kafka_endpoint (p : handler_pod) (m : handler_method) (b : KafkaHandlerAuthBinding)
    (e : AbstractEvent) (_spakky_kafka_headers : option headers) : user_code unit :=
  clear_context ;;;
  decision <- kafka_seed_auth_context (default [] _spakky_kafka_headers) b ;;
  match state decision with
  | ALLOW => invoke p m e
  | _ => ret tt
  end.

(** A callback with its identity, under which [_auth_boundary_handlers] holds it *)
Record kafka_handler := mk_kafka_handler {
  handler_ref : nat;
  call_handler : AbstractEvent → option headers → user_code unit;
}.
Record kafka_consumer := mk_kafka_consumer {
  kafka_registry : registry kafka_handler;
  _auth_boundary_handlers : list nat;
  next_ref : nat;
}.
Definition new_kafka_consumer : kafka_consumer := mk_kafka_consumer no_handlers [] 0.

Definition kafka_register (event : string) (h : kafka_handler) (c : kafka_consumer) : kafka_consumer :=
  let r := kafka_registry c in
  let r := match dict_get event (handlers r) with
           | Some _ => r
           | None => mk_registry (dict_set event [] (handlers r))
                       (dict_set event (TypeAdapter event) (type_adapters r))
                       (dict_set (_event_routing_name event) event (type_lookup r))
           end in
  mk_kafka_consumer (append_handler event h r) (_auth_boundary_handlers c) (next_ref c).

Definition register_auth_boundary (h : kafka_handler) (c : kafka_consumer) : kafka_consumer :=
  mk_kafka_consumer (kafka_registry c) (handler_ref h :: _auth_boundary_handlers c) (next_ref c).

(** A new function object for the endpoint, registered as a handler and as an
    endpoint that takes the headers *)
Definition kafka_add_endpoint (event : string) (f : AbstractEvent → option headers → user_code unit)
    (c : kafka_consumer) : kafka_consumer :=
  let h := mk_kafka_handler (next_ref c) f in
  register_auth_boundary h
    (kafka_register event h
       (mk_kafka_consumer (kafka_registry c) (_auth_boundary_handlers c) (S (next_ref c)))).

Definition kafka_post_process (asynchronous : bool) (st : auth_store) (p : handler_pod)
    : comp kafka_consumer auth_error unit :=
  for_each (λ m,
    match route m with
    | Some event =>
        if is_integration_event m then
          md <- lift (auth_metadata st p m) ;;
          if Bool.eqb (is_coroutine m) asynchronous
          then modify (kafka_add_endpoint event
                 (kafka_endpoint p m (mk_binding (operation p m) (protected md))))
          else ret tt
        else ret tt
    | None => ret tt
    end) (members p).

(** [initialize]: the topics to create, when the broker has the topics
    [existing_topics], and the subscription *)
Definition _create_topics (topics existing_topics : list string) : list string :=
  List.filter (λ t, bool_decide (t ∉ existing_topics)) (dedup topics).
Definition kafka_topics (c : kafka_consumer) : list string :=
  _event_routing_name <$> (handlers (kafka_registry c)).*1.

Record kafka_message := mk_message {
  message_error : bool;
  topic : option string;
  message_raw_headers : option (list (string * header_value));
  value : option bytes;
}.

Fixpoint call_handlers (boundary : list nat) (hs : list kafka_handler) (e : AbstractEvent) (h : headers)
    : user_code unit :=
  match hs with
  | [] => ret tt
  | handler :: hs' =>
      call_handler handler e (if bool_decide (handler_ref handler ∈ boundary) then Some h else None) ;;;
      call_handlers boundary hs' e h
  end.

(** [is_exception e]: an exception of user code is an [Exception]; others, such
    as [KeyboardInterrupt], are not caught. *)
Context (is_exception : E → bool).

Definition kafka_route_event_handler (c : kafka_consumer) (msg : kafka_message) : user_code unit :=
  if message_error msg then ret tt else
  match topic msg with
  | None => ret tt
  | Some t =>
      match dict_get t (type_lookup (kafka_registry c)) with
      | None => ret tt
      | Some event_type =>
          h <- lift (_to_string_headers (default [] (message_raw_headers msg)) []) ;;
          begin_trace h ;;;
          try_finally
            (try_except
              (match value msg with
               | None => ret tt
               | Some event_message =>
                   type_adapter <- lift (lookup_key event_type (type_adapters (kafka_registry c))) ;;
                   event_data <- lift (match type_adapter event_message with
                                       | Some e => Ok e | None => Raise ValidationError end) ;;
                   hs <- lift (lookup_key event_type (handlers (kafka_registry c))) ;;
                   call_handlers (_auth_boundary_handlers c) hs event_data h
               end)
              (λ e, match e with
                    | AuthError AuthVerificationProviderUnavailableError
                    | AuthError AuthRequirementProviderUnavailableError => None
                    | UserError x => if is_exception x then Some (ret tt) else None
                    | _ => Some (ret tt)
                    end))
            end_trace
      end
  end.

(** [run]: the answers of [poll] until the stop event is set *)
Definition kafka_run (c : kafka_consumer) (polled : list (option kafka_message)) : user_code unit :=
  for_each (λ m, match m with None => ret tt | Some m => kafka_route_event_handler c m end) polled.

(** ** What is registered *)

Section registered.
Context (asynchronous : bool) (st : auth_store) (pods : list handler_pod).

Definition is_endpoint (event : string) (f : AbstractEvent → option headers → user_code unit) : Prop :=
  ∃ p m md, p ∈ pods ∧ m ∈ members p ∧ route m = Some event ∧ auth_metadata st p m = Ok md ∧
    f = kafka_endpoint p m (mk_binding (operation p m) (protected md)).

(** Every handler is an endpoint of a method of the pods that gets the headers; a
    class with handlers has its adapter, and a topic is that of a class with
    handlers. *)
Record consumer_ok (c : kafka_consumer) : Prop := {
  ok_handlers event hs h : dict_get event (handlers (kafka_registry c)) = Some hs → h ∈ hs →
    handler_ref h ∈ _auth_boundary_handlers c ∧ is_endpoint event (call_handler h);
  ok_adapters event : dict_get event (type_adapters (kafka_registry c)) =
    (λ _, TypeAdapter event) <$> dict_get event (handlers (kafka_registry c));
  ok_topics t event : dict_get t (type_lookup (kafka_registry c)) = Some event →
    is_Some (dict_get event (handlers (kafka_registry c))) ∧ _event_routing_name event = t;
  ok_names event : is_Some (dict_get event (handlers (kafka_registry c))) →
    is_Some (dict_get (_event_routing_name event) (type_lookup (kafka_registry c)));
}.

Lemma new_consumer_ok : consumer_ok new_kafka_consumer.
Proof. constructor; cbn; [done..|by intros ? [? ?]]. Qed.

Lemma add_endpoint_ok event f c :
  is_endpoint event f → consumer_ok c → consumer_ok (kafka_add_endpoint event f c).
Proof.
  intros Hf [Hh Ha Ht Hn]. unfold kafka_add_endpoint, register_auth_boundary, kafka_register, append_handler.
  cbn [kafka_registry _auth_boundary_handlers next_ref handler_ref].
  destruct (dict_get event (handlers (kafka_registry c))) as [l|] eqn:Hl; constructor;
    cbn [kafka_registry _auth_boundary_handlers handlers type_adapters type_lookup];
    rewrite ?dict_get_set_eq, ?Hl; cbn [default];
    intros event'.
  - intros hs h Hhs Hin. destruct (decide (event' = event)) as [->|Hne].
    + rewrite dict_get_set_eq in Hhs. injection Hhs as <-.
      apply elem_of_app in Hin as [Hin| ->%list_elem_of_singleton]; [|split; [by left|done]].
      destruct (Hh event l h Hl Hin). split; [by right|done].
    + rewrite dict_get_set_ne in Hhs by done. destruct (Hh event' hs h Hhs Hin). split; [by right|done].
  - destruct (decide (event' = event)) as [->|Hne]; [by rewrite dict_get_set_eq, Ha, Hl|].
    by rewrite dict_get_set_ne.
  - intros event2 [Hs Hr]%Ht. split; [|done].
    destruct (decide (event2 = event)) as [->|Hne]; [by rewrite dict_get_set_eq|by rewrite dict_get_set_ne].
  - intros Hs. apply Hn. destruct (decide (event' = event)) as [->|Hne]; [by rewrite Hl|].
    by rewrite dict_get_set_ne in Hs.
  - intros hs h Hhs Hin. destruct (decide (event' = event)) as [->|Hne].
    + rewrite dict_get_set_eq in Hhs. injection Hhs as <-.
      apply list_elem_of_singleton in Hin as ->. split; [by left|done].
    + rewrite !dict_get_set_ne in Hhs by done. destruct (Hh event' hs h Hhs Hin). split; [by right|done].
  - destruct (decide (event' = event)) as [->|Hne]; [by rewrite !dict_get_set_eq|].
    by rewrite !dict_get_set_ne.
  - intros event2 Hev. destruct (decide (event' = _event_routing_name event)) as [->|Hne].
    + rewrite dict_get_set_eq in Hev. injection Hev as <-. by rewrite dict_get_set_eq.
    + rewrite dict_get_set_ne in Hev by done. destruct (Ht event' event2 Hev) as [Hs Hr]. split; [|done].
      destruct (decide (event2 = event)) as [->|Hne2]; [by rewrite dict_get_set_eq|by rewrite !dict_get_set_ne].
  - intros Hs. destruct (decide (_event_routing_name event' = _event_routing_name event)) as [->|Hne];
      [by rewrite dict_get_set_eq|]. rewrite dict_get_set_ne by done. apply Hn.
    rewrite !dict_get_set_ne in Hs; [done|..]; by intros ->.
Qed.

Lemma post_process_ok p : p ∈ pods → preserves consumer_ok (kafka_post_process asynchronous st p).
Proof.
  intros Hp. apply preserves_for_each_in. intros m Hm.
  destruct (route m) as [event|] eqn:Hr; [|apply preserves_ret].
  destruct (is_integration_event m); [|apply preserves_ret].
  intros c Hc. unfold bind, lift. destruct (auth_metadata st p m) as [md|x] eqn:Hmd; [|done].
  destruct (Bool.eqb (is_coroutine m) asynchronous); [|done]. cbn.
  apply add_endpoint_ok; [|done]. by exists p, m, md.
Qed.

Lemma application_ok : consumer_ok (for_each (kafka_post_process asynchronous st) pods new_kafka_consumer).2.
Proof. apply (preserves_for_each_in consumer_ok); [apply post_process_ok|apply new_consumer_ok]. Qed.

(** ** The endpoint *)

(** The signed snapshot in the headers verifies as [c] for an operation. *)
Definition kafka_verified (b : KafkaHandlerAuthBinding) (h : headers) (c : AuthContext) : Prop :=
  ∃ verify envelope, snapshot_verifier = Some verify ∧ _snapshot_header h = Some envelope ∧
    verify envelope (kafka_invocation b) = Ok c.

Lemma kafka_endpoint_spec p m b e h v :
  (∃ c, kafka_verified b h c ∧
     kafka_endpoint p m b e (Some h) v = invoke p m e (with_context (authenticated c) v)) ∨
  (binding_protected b = false ∧ _snapshot_header h = None ∧
     kafka_endpoint p m b e (Some h) v = invoke p m e (with_context [] v)) ∨
  (kafka_endpoint p m b e (Some h) v).2 = with_context [] v.
Proof.
  unfold kafka_verified. destruct (kafka_endpoint p m b e (Some h) v) as [o v'] eqn:Hg. revert Hg.
  unfold kafka_endpoint, kafka_seed_auth_context, bind. cbn -[_snapshot_header]. change (id h) with h.
  destruct (_snapshot_header h) as [envelope|].
  - destruct snapshot_verifier as [verify|]; [|intros [= _ <-]; by do 2 right].
    destruct (verify envelope (kafka_invocation b)) as [c|x] eqn:Hv.
    + intros <-. left. exists c. split; [by eauto 6|done].
    + intros Hg. do 2 right. destruct x; by injection Hg as _ <-.
  - destruct (binding_protected b); [intros [= _ <-]; by do 2 right|intros <-; by right; left].
Qed.

(** ** Routing *)

Lemma call_handlers_all c event hs e h v :
  consumer_ok c → dict_get event (handlers (kafka_registry c)) = Some hs →
  call_handlers (_auth_boundary_handlers c) hs e h v = for_each (λ f, call_handler f e (Some h)) hs v.
Proof.
  intros Hc Hhs. assert (∀ f, f ∈ hs → handler_ref f ∈ _auth_boundary_handlers c) as Hin.
  { intros f Hf. by destruct (ok_handlers c Hc event hs f Hhs Hf). }
  clear Hhs. revert v. induction hs as [|f hs IH]; intros v; [done|]. cbn [call_handlers for_each].
  rewrite bool_decide_eq_true_2 by (apply Hin; by left). unfold bind.
  destruct (call_handler f e (Some h) v) as [[] v1]; [|done]. apply IH. intros g Hg. apply Hin. by right.
Qed.

(** What becomes of an exception of a handler *)
Definition caught (o : outcome (consumer_error E) unit) : outcome (consumer_error E) unit :=
  match o with
  | Ok _ => Ok tt
  | Raise (AuthError AuthVerificationProviderUnavailableError) =>
      Raise (AuthError AuthVerificationProviderUnavailableError)
  | Raise (AuthError AuthRequirementProviderUnavailableError) =>
      Raise (AuthError AuthRequirementProviderUnavailableError)
  | Raise (UserError x) => if is_exception x then Ok tt else Raise (UserError x)
  | Raise _ => Ok tt
  end.

(** The handlers of a message, one after the other *)
Definition handle_content (event : string) (hs : list kafka_handler) (content : option bytes) (h : headers)
    : user_code unit :=
  match content ≫= TypeAdapter event with
  | Some e => for_each (λ f, call_handler f e (Some h)) hs
  | None => ret tt
  end.

Lemma kafka_route_spec c msg t event hs carrier v :
  consumer_ok c → message_error msg = false → topic msg = Some t →
  dict_get t (type_lookup (kafka_registry c)) = Some event →
  dict_get event (handlers (kafka_registry c)) = Some hs →
  _to_string_headers (E := E) (default [] (message_raw_headers msg)) [] = Ok carrier →
  kafka_route_event_handler c msg v =
    let '(o, v1) := handle_content event hs (value msg) carrier (begin_trace carrier v).2 in
    (caught o, (end_trace v1).2).
Proof.
  intros Hc Herr Ht Hev Hhs Hh. unfold kafka_route_event_handler. rewrite Herr, Ht, Hev, Hh.
  unfold bind at 1. cbn [lift]. unfold bind at 1.
  destruct (begin_trace_spec (E := E) has_propagator carrier v) as (x & -> & _). cbn [snd].
  set (v0 := mk_visible (context v) x (program v)). unfold try_finally, try_except, handle_content.
  destruct (value msg) as [content|]; cbn [mbind option_bind]; [|by unfold ret; rewrite !end_trace_spec].
  pose proof (ok_adapters c Hc event) as Ha. rewrite Hhs in Ha. cbn in Ha.
  unfold bind, lift, lookup_key. rewrite Ha, Hhs.
  destruct (TypeAdapter event content) as [e|]; [|by unfold ret; cbn; rewrite !end_trace_spec].
  rewrite (call_handlers_all c event hs e carrier v0 Hc Hhs).
  destruct (for_each _ hs v0) as [[[]|y] v1]; [by rewrite !end_trace_spec|].
  destruct y as [|y| | | | | |y]; cbn; try (by rewrite !end_trace_spec).
  - destruct y; cbn; by rewrite !end_trace_spec.
  - destruct (is_exception y); cbn; by rewrite !end_trace_spec.
Qed.

(** ** Theorems *)

(** The exceptions that escape the handling of a message *)
Definition escapes (raw : list (string * header_value)) (e : consumer_error E) : Prop :=
  match e with
  | AuthError AuthVerificationProviderUnavailableError
  | AuthError AuthRequirementProviderUnavailableError => True
  | UserError x => is_exception x = false
  | UnicodeDecodeError => _to_string_headers (E := E) raw [] = Raise UnicodeDecodeError
  | _ => False
  end.

Lemma string_headers_error raw acc e : _to_string_headers (E := E) raw acc = Raise e → e = UnicodeDecodeError.
Proof.
  revert acc. induction raw as [|[k [x|b|]] raw IH]; intros acc; cbn; [done|apply IH| |apply IH].
  destruct (utf8_decode b); [apply IH|]. by intros [= <-].
Qed.

Lemma message_escapes c msg v :
  consumer_ok c →
  match (kafka_route_event_handler c msg v).1 with
  | Ok _ => True | Raise e => escapes (default [] (message_raw_headers msg)) e end ∧
  (has_propagator = true → _trace_context (trace v) = None →
     _trace_context (trace (kafka_route_event_handler c msg v).2) = None).
Proof.
  intros Hc. destruct (message_error msg) eqn:Herr; [by unfold kafka_route_event_handler; rewrite Herr|].
  destruct (topic msg) as [t|] eqn:Ht; [|by unfold kafka_route_event_handler; rewrite Herr, Ht].
  destruct (dict_get t (type_lookup (kafka_registry c))) as [event|] eqn:Hev;
    [|by unfold kafka_route_event_handler; rewrite Herr, Ht, Hev].
  destruct (ok_topics c Hc t event Hev) as [[hs Hhs] _].
  destruct (_to_string_headers (E := E) (default [] (message_raw_headers msg)) []) as [carrier|x] eqn:Hh.
  - rewrite (kafka_route_spec c msg t event hs carrier v Hc Herr Ht Hev Hhs Hh).
    destruct (handle_content event hs (value msg) carrier _) as [o v1]. rewrite end_trace_spec. cbn. split.
    + destruct o as [|y]; [done|]. destruct y as [|y| | | | | |y]; try done; cbn; [by destruct y|].
      by destruct (is_exception y) eqn:Hy.
    + by intros ->.
  - pose proof (string_headers_error _ _ _ Hh) as ->. unfold kafka_route_event_handler. by rewrite Herr, Ht, Hev, Hh.
Qed.

Lemma for_each_program (P : W → Prop) (hs : list kafka_handler) e h v :
  (∀ f, f ∈ hs → ∀ v, P (program v) → P (program (call_handler f e (Some h) v).2)) →
  P (program v) → P (program (for_each (λ f, call_handler f e (Some h)) hs v).2).
Proof.
  intros Hf. apply (preserves_for_each_in (λ v, P (program v))). intros f Hin v'. by apply Hf.
Qed.

(** A handler method of a Kafka consumer runs only on what the boundary admits:
    every invariant of the program that the methods keep, when those of protected
    handlers run alone with the authentication context of a snapshot of this message
    that verifies for them, is kept by the consumer. *)
Theorem kafka_handlers_run_verified (P : W → Prop) c msg v :
  consumer_ok c →
  (∀ carrier p m event md e ctx tr w,
     _to_string_headers (E := E) (default [] (message_raw_headers msg)) [] = Ok carrier →
     p ∈ pods → m ∈ members p → route m = Some event → auth_metadata st p m = Ok md →
     (∃ c, kafka_verified (mk_binding (operation p m) (protected md)) carrier c ∧ ctx = authenticated c) ∨
       (protected md = false ∧ _snapshot_header carrier = None ∧ ctx = []) →
     P w → P (program (invoke p m e (mk_visible ctx tr w)).2)) →
  P (program v) → P (program (kafka_route_event_handler c msg v).2).
Proof.
  intros Hc Hm HP. destruct (message_error msg) eqn:Herr; [by unfold kafka_route_event_handler; rewrite Herr|].
  destruct (topic msg) as [t|] eqn:Ht; [|by unfold kafka_route_event_handler; rewrite Herr, Ht].
  destruct (dict_get t (type_lookup (kafka_registry c))) as [event|] eqn:Hev;
    [|by unfold kafka_route_event_handler; rewrite Herr, Ht, Hev].
  destruct (ok_topics c Hc t event Hev) as [[hs Hhs] _].
  destruct (_to_string_headers (E := E) (default [] (message_raw_headers msg)) []) as [carrier|x] eqn:Hh;
    [|by unfold kafka_route_event_handler; rewrite Herr, Ht, Hev, Hh].
  rewrite (kafka_route_spec c msg t event hs carrier v Hc Herr Ht Hev Hhs Hh).
  destruct (begin_trace_spec (E := E) has_propagator carrier v) as (x & -> & _). cbn [snd].
  set (v0 := mk_visible (context v) x (program v)).
  assert (P (program (handle_content event hs (value msg) carrier v0).2)) as HP1;
    [|by destruct (handle_content event hs (value msg) carrier v0) as [o v1]; rewrite end_trace_spec].
  unfold handle_content. destruct (value msg ≫= TypeAdapter event) as [e|]; [|done].
  apply for_each_program; [|done]. intros f Hf v2 HP2.
  destruct (ok_handlers c Hc event hs f Hhs Hf) as (_ & p & m & md & Hp & Hin & Hr & Hmd & ->).
  specialize (λ ctx, Hm carrier p m event md e ctx (trace v2) (program v2) eq_refl Hp Hin Hr Hmd).
  destruct (kafka_endpoint_spec p m (mk_binding (operation p m) (protected md)) e carrier v2)
    as [(a & Ha & ->)|[(Hpr & Hnone & ->)|Hcl]];
    [apply Hm; [left; by exists a|done]|apply Hm; [by right|done]|by rewrite Hcl].
Qed.

(** C37. The polling loop handles every message, whatever came of the ones before
    it, and only an unavailable provider, an exception that is not an [Exception] or
    a header that is not UTF-8 ends it; every other failure of a handler (denied,
    invalid payload, an exception of its own) is absorbed. *)
Theorem kafka_loop_continues c polled v :
  consumer_ok c →
  match kafka_run c polled v with
  | (Ok _, v') => v' = foldl (λ v m, match m with Some m => (kafka_route_event_handler c m v).2 | None => v end) v polled
  | (Raise e, v') => ∃ l1 m l2, polled = l1 ++ Some m :: l2 ∧
      escapes (default [] (message_raw_headers m)) e ∧
      v' = foldl (λ v m, match m with Some m => (kafka_route_event_handler c m v).2 | None => v end) v (l1 ++ [Some m])
  end.
Proof.
  intros Hc. revert v. induction polled as [|[m|] polled IH]; intros v; [done| |].
  - cbn [kafka_run for_each foldl]. unfold bind.
    pose proof (message_escapes c m v Hc) as Hm. change (for_each _ polled) with (kafka_run c polled).
    destruct (kafka_route_event_handler c m v) as [[[]|e] v1] eqn:Hroute; cbn [snd].
    + specialize (IH v1). destruct (kafka_run c polled v1) as [[u|e] v2]; [done|].
      destruct IH as (l1 & m' & l2 & -> & He & ->). exists (Some m :: l1), m', l2.
      split; [done|]. split; [done|]. cbn. by rewrite Hroute.
    + exists [], m, polled. split; [done|]. split; [apply Hm|]. cbn. by rewrite Hroute.
  - cbn [kafka_run for_each foldl]. unfold bind. cbn. specialize (IH v).
    change (for_each _ polled) with (kafka_run c polled).
    destruct (kafka_run c polled v) as [[u|e] v2]; [done|].
    destruct IH as (l1 & m' & l2 & -> & He & ->). by exists (None :: l1), m', l2.
Qed.
End registered.

(** Two event classes with one routing name share a topic; the messages of the
    topic go to the handlers of the class registered last. *)
Lemma shared_topic event1 event2 h1 h2 c :
  event1 ≠ event2 → _event_routing_name event1 = _event_routing_name event2 →
  dict_get event1 (handlers (kafka_registry c)) = None → dict_get event2 (handlers (kafka_registry c)) = None →
  let c' := kafka_register event2 h2 (kafka_register event1 h1 c) in
  dict_get (_event_routing_name event1) (type_lookup (kafka_registry c')) = Some event2 ∧
  dict_get event1 (handlers (kafka_registry c')) = Some [h1].
Proof.
  intros Hne Hname H1 H2. unfold kafka_register, append_handler. rewrite H1.
  cbn [kafka_registry handlers type_lookup type_adapters]. rewrite !dict_get_set_ne by done. rewrite H2.
  cbn [handlers type_lookup type_adapters]. rewrite Hname, !dict_get_set_eq.
  split; [done|]. rewrite !(dict_get_set_ne event1 event2) by done. rewrite !dict_get_set_eq. done.
Qed.
End kafka.

(** ** Witnesses *)

Definition ex_kafka : kafka_consumer (E := string) (R := N) (W := list string) :=
  (for_each (kafka_post_process ex_adapter ex_controller ex_call (λ _, None) (λ e, e) (Some ex_verifier)
     false ex_store) [ex_pod] new_kafka_consumer).2.
Definition ex_message (h : list (string * header_value)) (content : bytes) : kafka_message :=
  mk_message false (Some "OrderPaid") (Some h) (Some content).

Lemma ex_kafka_ok : consumer_ok (E := string) (R := N) (W := list string) ex_adapter ex_controller ex_call
  (λ _, None) (λ e, e) (Some ex_verifier) ex_store [ex_pod] ex_kafka.
Proof. apply application_ok. Qed.

Lemma kafka_handlers_run_verified_witness :
  program (kafka_route_event_handler (E := string) (R := N) (W := list string) true (λ _, true) ex_kafka
    (ex_message [("X-Spakky-Auth-Context-Snapshot", HStr "forged")] "paid") ex_visible).2 = [].
Proof.
  apply (kafka_handlers_run_verified true ex_adapter ex_controller ex_call (λ _, None) (λ e, e) (Some ex_verifier)
    (λ _, true) ex_store [ex_pod] (λ w, w = [])); [apply ex_kafka_ok| |reflexivity].
  intros carrier p m event md e ctx tr w [= <-] Hp Hm _ Hmd [(c & Hv & _)|(_ & Hnone & _)]; [|done].
  destruct Hv as (verify & envelope & [= <-] & [= <-] & Hc). done.
Defined.

(** A refused message, an invalid one, then one that is handled *)
Lemma kafka_loop_continues_witness :
  program (kafka_run (E := string) (R := N) (W := list string) true (λ _, true) ex_kafka
    [Some (ex_message [] "paid"); None; Some (ex_message [] "junk");
     Some (ex_message [("x-spakky-auth-context-snapshot", HBytes "signed")] "paid")] ex_visible).2 = ["on_paid"].
Proof.
  pose proof (kafka_loop_continues true ex_adapter ex_controller ex_call (λ _, None) (λ e, e) (Some ex_verifier)
    (λ _, true) ex_store [ex_pod] ex_kafka
    [Some (ex_message [] "paid"); None; Some (ex_message [] "junk");
     Some (ex_message [("x-spakky-auth-context-snapshot", HBytes "signed")] "paid")] ex_visible ex_kafka_ok) as H.
  revert H. destruct (kafka_run _ _ _ _ _) as [[u|e] v'] eqn:Hk; intros H; [by rewrite H|].
  vm_compute in Hk. discriminate.
Defined.
