(* ===== verification/Delivery.v ===== *)
(** * From a publisher to a handler

    The transports that hand an event to the broker
    ([plugins/spakky-rabbitmq/.../event/transport.py],
    [plugins/spakky-kafka/.../event/transport.py]), and the composition of the
    header injection of [Event.v], the signer and verifier of [Snapshot.v] and the
    consumers: the identity of the publisher is the identity the handler sees. *)

From S2P Require Import Prelude Json Encoding Annotation Auth Tracing Domain Event Crypto Snapshot Consumer RabbitMQ Kafka.

(** ** The transports *)

Section transports.
Context {S X : Type}.

(** The calls of the client libraries, in order *)
Inductive amqp_command :=
  | AmqpConnect
  | AmqpChannel
  | QueueDeclare (queue : string)
  | ExchangeDeclare (exchange : string)
  | QueueBind (queue exchange routing_key : string)
  | BasicPublish (exchange routing_key : string) (payload : bytes) (headers : list (string * string))
  | ChannelClose
  | ConnectionClose.
Context (amqp : amqp_command → comp S X unit).

Definition rabbit_send (exchange_name : option string) (event_name : string) (payload : bytes)
    (headers : list (string * string)) : comp S X unit :=
  amqp AmqpConnect ;;;
  amqp AmqpChannel ;;;
  amqp (QueueDeclare event_name) ;;;
  match exchange_name with
  | Some exchange =>
      amqp (ExchangeDeclare exchange) ;;;
      amqp (QueueBind event_name exchange event_name)
  | None => ret tt
  end ;;;
  amqp (BasicPublish (default "" exchange_name) event_name payload headers) ;;;
  amqp ChannelClose ;;;
  amqp ConnectionClose.

Context (list_topics : comp S X (list string)) (create_topic : string → comp S X unit)
  (produce : string → bytes → list (string * string) → comp S X unit) (poll flush : comp S X unit).

Definition kafka_create_topic (topic : string) : comp S X unit :=
  existing_topics <- list_topics ;;
  if bool_decide (topic ∈ existing_topics) then ret tt else create_topic topic.

Definition kafka_send (event_name : string) (payload : bytes) (headers : list (string * string)) : comp S X unit :=
  kafka_create_topic event_name ;;;
  produce event_name payload headers ;;;
  poll ;;;
  flush.
End transports.

(** ** Headers on the wire

    A broker delivers every header, as the text it was given or as its UTF-8
    encoding. *)
Definition arrives (sent : list (string * string)) (received : list (string * header_value)) : Prop :=
  Forall2 (λ kv r, r.1 = kv.1 ∧ (r.2 = HStr kv.2 ∨ r.2 = HBytes (utf8_encode kv.2))) sent received.

Lemma arrives_decoded {E} sent received acc :
  arrives sent received → NoDup (acc.*1 ++ sent.*1) →
  _to_string_headers (E := E) received acc = Ok (acc ++ sent).
Proof.
  intros H. revert acc. induction H as [|[k v] [k' r] sent received [Hk Hr] _ IH]; intros acc Hnd.
  - by rewrite app_nil_r.
  - cbn in Hk. subst k'. cbn [fmap list_fmap] in Hnd.
    assert (k ∉ acc.*1) as Hnew.
    { intros Hin. apply NoDup_app in Hnd as (_ & Hd & _). apply (Hd k Hin). by left. }
    assert (_to_string_headers (E := E) received (dict_set k v acc) = Ok (acc ++ (k, v) :: sent)) as Hgo.
    { rewrite dict_set_fresh by done. rewrite IH; [by rewrite <-app_assoc|]. by rewrite fmap_app, <-app_assoc. }
    destruct Hr as [Hr|Hr]; cbn in Hr; subst r; cbn; [done|]. by rewrite utf8_roundtrip.
Qed.

(** ** End to end *)

Section delivery.
Context {X E R W : Type} {T : Type} `{DateTime T} `{FloatText}.
Context (digest : HMACType → bytes → bytes → bytes) (config : CryptographyAuthProviderConfig).

(** The signer the injector asks, at [now], and the verifier the boundary asks, at
    [now'] *)
Definition signer_at (now : T) (c : AuthContext) : outcome X string :=
  Ok (base64url_canonical_json (sign_snapshot digest config (mk_sign_request c None) now)).
Definition verifier_at (now' : T) : verifier := λ envelope _, verify_snapshot digest config envelope now'.

(** The injector of a publisher that acts as [c] *)
Definition publishes_as (i : @AuthContextSnapshotHeaderInjector X) (c : AuthContext) (now : T) : Prop :=
  propagation_enabled i = true ∧ _current_auth_context i = Ok (Some c) ∧
  _auth_snapshot_signer i = Some (signer_at now).

Definition expired (now now' : T) : bool :=
  before (add_delta (_aware_datetime now) (snapshot_ttl config)) (_aware_datetime now').

Context {K : Type} (get_controller : py_object → comp (visible R W) (consumer_error E) K)
  (call_method : K → string → AbstractEvent → comp (visible R W) (consumer_error E) unit)
  (class_name : string → string).

(** The envelope the injector writes, and what verifying it says *)
Lemma injected_envelope i c now now' h0 h :
  verification_available config = true → signable c → publishes_as i c now → NoDup h0.*1 →
  inject_auth i h0 = Ok h →
  ∃ envelope, NoDup h.*1 ∧ dict_get AUTH_CONTEXT_SNAPSHOT_METADATA_KEY h = Some envelope ∧ envelope ≠ "" ∧
    ∀ inv, verifier_at now' envelope inv =
      if expired now now' then Raise ExpiredAuthContextSnapshotError else Ok (verified c (tenant c)).
Proof.
  intros Hav Hc (He & Hctx & Hs) Hnd Hi.
  destruct (inject_auth_cases i h0 h Hi) as [[(c' & sign & snap & _ & Hc' & Hs' & Hsnap & ->)|[[He'|Hc'] _]] _];
    [|congruence..].
  rewrite Hctx in Hc'. injection Hc' as <-. rewrite Hs in Hs'. injection Hs' as <-. injection Hsnap as <-.
  eexists. split; [|split; [apply dict_get_set_eq|split; [apply envelope_nonempty|]]].
  - apply dict_set_NoDup. by apply remove_raw_bearer_NoDup.
  - intros inv. unfold verifier_at. by rewrite sign_verify.
Qed.


(** The same for Kafka, whose boundary prefers a header of the HTTP name, in any
    case, when the message has one; an expired message is dropped without an error. *)
Theorem identity_reaches_kafka_handler i c now now' h0 h raw p m b e v :
  verification_available config = true → signable c → publishes_as i c now → NoDup h0.*1 →
  inject_auth i h0 = Ok h → arrives h raw → _header_value h AUTH_CONTEXT_SNAPSHOT_HEADER_KEY = None →
  ∃ carrier, _to_string_headers (E := E) raw [] = Ok carrier ∧
    kafka_endpoint get_controller call_method (Some (verifier_at now')) p m b e (Some carrier) v =
    if expired now now' then (Ok tt, with_context [] v)
    else invoke get_controller call_method p m e (with_context (authenticated (verified c (tenant c))) v).
Proof.
  intros Hav Hc Hi Hnd Hinj Harr Hno.
  destruct (injected_envelope i c now now' h0 h Hav Hc Hi Hnd Hinj) as (envelope & Hnd' & Henv & Hne & Hver).
  exists h. split; [by apply (arrives_decoded h raw [])|].
  assert (_snapshot_header h = Some envelope) as Hs.
  { unfold _snapshot_header. cbn [first_header]. rewrite Hno. unfold _header_value. rewrite Henv.
    by rewrite (proj2 (String.eqb_neq _ _) Hne). }
  unfold kafka_endpoint, kafka_seed_auth_context, bind. cbn -[_snapshot_header]. change (id h) with h.
  rewrite Hs, Hver. by destruct (expired now now').
Qed.
End delivery.

(** ** Witnesses *)

#[local] Existing Instance ex_datetime.
#[local] Existing Instance ex_floats.

Definition ex_sender : @AuthContextSnapshotHeaderInjector string :=
  mk_injector (Some (signer_at ex_digest ex_config 1000%Z)) true
    (Some (λ k, if String.eqb k AUTH_CONTEXT_CONTEXT_KEY then Some (VAuthContext ex_context) else None)).
Lemma ex_publishes : publishes_as ex_digest ex_config ex_sender ex_context 1000%Z.
Proof. done. Qed.
Definition ex_raw : list (string * header_value) :=
  [(AUTH_CONTEXT_SNAPSHOT_METADATA_KEY, HBytes (utf8_encode (base64url_canonical_json
     (sign_snapshot ex_digest ex_config (mk_sign_request ex_context None) 1000%Z))))].
Lemma ex_arrives : ∃ h, inject_auth ex_sender [("authorization", "Bearer s3cret")] = Ok h ∧ arrives h ex_raw.
Proof.
  eexists. split; [reflexivity|]. unfold ex_raw. constructor; [|constructor]. split; [reflexivity|by right].
Defined.


Lemma identity_reaches_kafka_handler_witness : ∃ carrier,
  _to_string_headers (E := string) ex_raw [] = Ok carrier ∧
  (kafka_endpoint ex_controller ex_call (Some (verifier_at ex_digest ex_config 1301%Z)) ex_pod ex_method
    (mk_binding "shop.Billing.on_paid" true) ex_paid (Some carrier) ex_visible).1 = Ok tt.
Proof.
  destruct ex_arrives as (h & Hi & Ha).
  destruct (identity_reaches_kafka_handler (E := string) (R := N) (W := list string) ex_digest ex_config ex_controller ex_call
    ex_sender ex_context 1000%Z 1301%Z [("authorization", "Bearer s3cret")] h ex_raw ex_pod ex_method
    (mk_binding "shop.Billing.on_paid" true) ex_paid ex_visible eq_refl ex_signable ex_publishes) as (carrier & Hc & Hrun);
    [decide_compute|exact Hi|exact Ha|injection Hi as <-; vm_compute; reflexivity|].
  exists carrier. split; [exact Hc|]. rewrite Hrun. reflexivity.
Defined.
