(* ===== verification/Diagnostics.v ===== *)
(** * Startup diagnostics

    [core/spakky/.../application/startup_diagnostics.py]: records of startup phases,
    the recorders and the context manager that measures a phase. [Container.v] and
    [Lifecycle.v] use records without times; here they are complete, with the times
    of [perf_counter] as integers. *)

From S2P Require Import Prelude.

Inductive StartupPhaseStatus := SUCCESS | FAILURE.
#[global] Instance StartupPhaseStatus_eq_dec : EqDecision StartupPhaseStatus.
Proof. solve_decision. Defined.

Abbreviation StartupDiagnosticDetails := (list (string * string)).

Record StartupFailureSummary := mk_summary {
  exception_type_name : string;
  message : string;
  summary_details : StartupDiagnosticDetails;
}.

Record StartupPhaseRecord := mk_record {
  phase_name : string;
  elapsed_seconds : Z;
  processed_count : Z;
  status : StartupPhaseStatus;
  failure_summary : option StartupFailureSummary;
  diagnostic_details : StartupDiagnosticDetails;
}.

(** The errors of this module, and those of the phases *)
Inductive startup_error (E : Type) :=
  | StartupElapsedTimeCannotBeNegativeError
  | StartupProcessedCountCannotBeNegativeError
  | StartupFailureSummaryRequiredError
  | StartupFailureSummaryNotAllowedError
  | PhaseError (e : E).
Arguments StartupElapsedTimeCannotBeNegativeError {E}.
Arguments StartupProcessedCountCannotBeNegativeError {E}.
Arguments StartupFailureSummaryRequiredError {E}.
Arguments StartupFailureSummaryNotAllowedError {E}.
Arguments PhaseError {E}.

(** [__post_init__] *)
Definition new_record {E} (r : StartupPhaseRecord) : outcome (startup_error E) StartupPhaseRecord :=
  check (elapsed_seconds r <? 0)%Z StartupElapsedTimeCannotBeNegativeError ≫= λ _,
  check (processed_count r <? 0)%Z StartupProcessedCountCannotBeNegativeError ≫= λ _,
  check (bool_decide (status r = SUCCESS) && bool_decide (is_Some (failure_summary r)))
    StartupFailureSummaryNotAllowedError ≫= λ _,
  check (bool_decide (status r = FAILURE) && bool_decide (failure_summary r = None))
    StartupFailureSummaryRequiredError ≫= λ _,
  Ok r.

(** The report under construction and the rest of the program *)
Record startup (W : Type) := mk_startup {
  records : list StartupPhaseRecord;
  world : W;
}.
Arguments mk_startup {W}.
Arguments records {W}.
Arguments world {W}.

(** [StartupPhaseRecording]: the fields the phase may change before it exits *)
Record recording := mk_recording {
  _processed_count : Z;
  _diagnostic_details : StartupDiagnosticDetails;
}.

Inductive recorder := ActiveStartupPhaseRecorder | NoOpStartupPhaseRecorder.

Section recording.
Context {E W : Type}.
(** [perf_counter()], and what an exception tells of itself: its class, its text
    and the details of an [IStartupDiagnosticDetailProvider] *)
Context (perf_counter : W → Z * W).
Context (type_name : startup_error E → string) (text : startup_error E → string)
  (provided_details : startup_error E → option StartupDiagnosticDetails).

Abbreviation action := (comp (startup W) (startup_error E)).
(** The body of a [with] statement *)
Abbreviation body := (comp (startup W * recording) (startup_error E)).

Definition from_exception (e : startup_error E) (details : StartupDiagnosticDetails) : StartupFailureSummary :=
  mk_summary (type_name e) (text e) (details ++ default [] (provided_details e)).

Definition add_record (r : StartupPhaseRecord) : action unit :=
  modify (λ s, mk_startup (records s ++ [r]) (world s)).

Definition keep_record (rec : recorder) (r : StartupPhaseRecord) : action unit :=
  match rec with ActiveStartupPhaseRecorder => add_record r | NoOpStartupPhaseRecorder => ret tt end.

Definition record_success (rec : recorder) (name : string) (elapsed count : Z)
    (details : StartupDiagnosticDetails) : action StartupPhaseRecord :=
  r <- lift (new_record (mk_record name elapsed count SUCCESS None details)) ;;
  keep_record rec r ;;; ret r.

Definition record_failure (rec : recorder) (name : string) (elapsed : Z) (e : startup_error E) (count : Z)
    (details : StartupDiagnosticDetails) : action StartupPhaseRecord :=
  r <- lift (new_record (mk_record name elapsed count FAILURE (Some (from_exception e details)) details)) ;;
  keep_record rec r ;;; ret r.

Definition read_clock : action Z := λ s,
  let '(t, w) := perf_counter (world s) in (Ok t, mk_startup (records s) w).

Definition set_processed_count (n : Z) : body unit := λ sr,
  if (n <? 0)%Z then (Raise StartupProcessedCountCannotBeNegativeError, sr)
  else (Ok tt, (sr.1, mk_recording n (_diagnostic_details sr.2))).
Definition set_diagnostic_details (d : StartupDiagnosticDetails) : body unit :=
  modify (λ sr, (sr.1, mk_recording (_processed_count sr.2) d)).

(** [with recorder.record_phase(name, ...) as recording: body] *)
Definition record_phase {A} (rec : recorder) (name : string) (count : Z) (details : StartupDiagnosticDetails)
    (m : body A) : action A :=
  if (count <? 0)%Z then raise StartupProcessedCountCannotBeNegativeError else
  started_at <- read_clock ;;
  λ s,
    let '(o, (s1, r)) := m (s, mk_recording count details) in
    match o with
    | Ok a =>
        (now <- read_clock ;;
         record_success rec name (now - started_at)%Z (_processed_count r) (_diagnostic_details r) ;;;
         ret a) s1
    | Raise e =>
        (now <- read_clock ;;
         record_failure rec name (now - started_at)%Z e (_processed_count r) (_diagnostic_details r) ;;;
         raise e) s1
    end.

(** ** Properties *)

(** What a record must satisfy to exist *)
Definition record_ok (r : StartupPhaseRecord) : Prop :=
  (0 ≤ elapsed_seconds r)%Z ∧ (0 ≤ processed_count r)%Z ∧
  (status r = FAILURE ↔ is_Some (failure_summary r)).

Lemma new_record_ok r : record_ok r → new_record (E := E) r = Ok r.
Proof.
  intros (He & Hc & Hs). unfold new_record. rewrite (proj2 (Z.ltb_ge _ _) He), (proj2 (Z.ltb_ge _ _) Hc).
  destruct (status r), (failure_summary r) as [f|]; try done; exfalso.
  - pose proof (proj2 Hs (ex_intro _ f eq_refl)). done.
  - destruct (proj1 Hs eq_refl). done.
Qed.
Lemma new_record_inv r r' : new_record (E := E) r = Ok r' → r' = r ∧ record_ok r.
Proof.
  unfold new_record, record_ok. destruct (Z.ltb_spec (elapsed_seconds r) 0); [done|].
  destruct (Z.ltb_spec (processed_count r) 0); [done|].
  destruct (status r), (failure_summary r) as [f|]; cbn; try done; intros [= <-];
    (split; [done|]; split; [lia|]; split; [lia|]); by split.
Qed.

(** A report only holds well-formed records, whatever the phases do. *)
Definition report_ok (s : startup W) : Prop := Forall record_ok (records s).

Lemma keep_record_preserves rec r : record_ok r → preserves report_ok (keep_record rec r).
Proof.
  intros Hr. destruct rec; [|apply preserves_ret]. intros s Hs. apply Forall_app. split; [done|]. by constructor.
Qed.
Lemma record_success_preserves rec name elapsed count details :
  preserves report_ok (record_success rec name elapsed count details).
Proof.
  intros s Hs. unfold record_success, bind, lift. destruct (new_record _) as [r|x] eqn:Hr; [|done].
  apply new_record_inv in Hr as [-> Hr]. pose proof (keep_record_preserves rec _ Hr s Hs) as Hk.
  by destruct (keep_record rec _ s) as [[] ?].
Qed.
Lemma record_failure_preserves rec name elapsed e count details :
  preserves report_ok (record_failure rec name elapsed e count details).
Proof.
  intros s Hs. unfold record_failure, bind, lift. destruct (new_record _) as [r|x] eqn:Hr; [|done].
  apply new_record_inv in Hr as [-> Hr]. pose proof (keep_record_preserves rec _ Hr s Hs) as Hk.
  by destruct (keep_record rec _ s) as [[] ?].
Qed.
Lemma read_clock_preserves : preserves report_ok read_clock.
Proof. intros s Hs. unfold read_clock. by destruct (perf_counter (world s)). Qed.

(** The record a phase leaves: its outcome, its time, what it says it processed *)
Definition phase_record {A} (name : string) (elapsed : Z) (o : outcome (startup_error E) A) (r : recording)
    : StartupPhaseRecord :=
  match o with
  | Ok _ => mk_record name elapsed (_processed_count r) SUCCESS None (_diagnostic_details r)
  | Raise e =>
      mk_record name elapsed (_processed_count r) FAILURE (Some (from_exception e (_diagnostic_details r)))
        (_diagnostic_details r)
  end.

(** A clock: what [perf_counter] reads does not go back. *)
Context (clock : W → Z).
Context (perf_counter_reads : ∀ w, (perf_counter w).1 = clock w ∧ (clock w ≤ clock (perf_counter w).2)%Z).

Lemma read_clock_spec (s : startup W) :
  read_clock s = (Ok (clock (world s)), mk_startup (records s) (perf_counter (world s)).2).
Proof. unfold read_clock. destruct (perf_counter_reads (world s)) as [<- _]. by destruct (perf_counter (world s)). Qed.

(** Measuring a phase is transparent: the phase returns or raises exactly what
    its body does, and the report gets one record, which says whether the phase
    failed and with what, the items it counted and a time that is not negative; with
    the no-op recorder the report is untouched. *)
Theorem recorded_phase_is_transparent {A} rec name count details (m : body A) s :
  (0 ≤ count)%Z →
  preserves (λ sr, (0 ≤ _processed_count sr.2)%Z) m →
  (∀ sr, (clock (world sr.1) ≤ clock (world (m sr).2.1))%Z) →
  let '(o, (s1, r)) := m (mk_startup (records s) (perf_counter (world s)).2, mk_recording count details) in
  ∃ elapsed, (0 ≤ elapsed)%Z ∧ record_ok (phase_record name elapsed o r) ∧
    record_phase rec name count details m s =
    (o, mk_startup
          (records s1 ++ match rec with ActiveStartupPhaseRecorder => [phase_record name elapsed o r] | _ => [] end)
          (perf_counter (world s1)).2).
Proof.
  intros Hcount Hm Hclock. set (s0 := mk_startup (records s) (perf_counter (world s)).2).
  specialize (Hm (s0, mk_recording count details) Hcount).
  specialize (Hclock (s0, mk_recording count details)).
  destruct (m (s0, mk_recording count details)) as [o [s1 r]] eqn:Hrun. cbn [snd fst] in *.
  exists (clock (world s1) - clock (world s))%Z.
  destruct (perf_counter_reads (world s)) as [_ Hle].
  assert (0 ≤ clock (world s1) - clock (world s))%Z as Helapsed.
  { change (world s0) with (perf_counter (world s)).2 in Hclock. lia. }
  assert (record_ok (phase_record name (clock (world s1) - clock (world s)) o r)) as Hok.
  { unfold phase_record. destruct o; cbn; (split; [done|]; split; [done|]); cbn; split; try done; by intros []. }
  split; [done|]. split; [done|].
  unfold record_phase. rewrite (proj2 (Z.ltb_ge _ _) Hcount). unfold bind at 1. rewrite read_clock_spec.
  fold s0. rewrite Hrun. unfold record_success, record_failure.
  destruct o as [a|e]; unfold bind, lift; rewrite read_clock_spec; cbn [world records];
    rewrite new_record_ok by exact Hok; destruct rec; cbn; by rewrite ?app_nil_r.
Qed.
End recording.

(** ** Witness: a phase that counts three items and fails *)

Definition ex_clock (w : Z) : Z * Z := (w, (w + 1)%Z).
Definition ex_phase : comp (startup Z * recording) (startup_error string) unit :=
  set_processed_count 3 ;;; raise (PhaseError "boom").
Definition ex_record_phase :=
  record_phase ex_clock (λ _, "RuntimeError") (λ e, match e with PhaseError m => m | _ => "" end) (λ _, None)
    ActiveStartupPhaseRecorder "scan" 0 [] ex_phase.

Lemma recorded_phase_is_transparent_witness : ∃ elapsed,
  ex_record_phase (mk_startup [] 10%Z) =
  (Raise (PhaseError "boom"),
   mk_startup [mk_record "scan" elapsed 3 FAILURE (Some (mk_summary "RuntimeError" "boom" [])) []] 12%Z).
Proof.
  destruct (recorded_phase_is_transparent ex_clock (λ _, "RuntimeError")
    (λ e, match e with PhaseError m => m | _ => "" end) (λ _, None) (λ w, w)
    (λ w, conj eq_refl (Z.le_succ_diag_r w)) ActiveStartupPhaseRecorder "scan" 0 [] ex_phase (mk_startup [] 10%Z))
    as (elapsed & _ & _ & Hrun); [lia|by intros [s r] Hr|intros [s r]; cbn; lia|].
  exists elapsed. exact Hrun.
Defined.
