(* ===== verification/Actuator.v ===== *)
(** * The actuator

    [core/spakky-actuator]: the registry of health probes and info contributors, the
    aggregation of their results, the startup contributor; and the two front ends
    that show them ([plugins/spakky-fastapi/.../post_processors/register_actuator.py],
    [plugins/spakky-typer/.../actuator.py]). Probes and contributors are user code;
    detail and info values are JSON values. *)

From S2P Require Import Prelude Json JsonIndent Diagnostics.

(** ** Results *)

Inductive HealthStatus := HEALTHY | UNHEALTHY.
#[global] Instance HealthStatus_eq_dec : EqDecision HealthStatus.
Proof. solve_decision. Defined.
Inductive ActuatorEndpoint := HEALTH | READINESS | LIVENESS.
#[global] Instance ActuatorEndpoint_eq_dec : EqDecision ActuatorEndpoint.
Proof. solve_decision. Defined.

Definition status_value (s : HealthStatus) : string :=
  match s with HEALTHY => "healthy" | UNHEALTHY => "unhealthy" end.
Definition endpoint_value (e : ActuatorEndpoint) : string :=
  match e with HEALTH => "health" | READINESS => "readiness" | LIVENESS => "liveness" end.

Record ComponentHealthResult := mk_component {
  component_name : string;
  component_status : HealthStatus;
  component_required : bool;
  details : list (string * json);
}.

Definition _sorted_mapping (values : option (list (string * json))) : list (string * json) :=
  match values with None => [] | Some o => sort_keys o end.

Definition component_healthy (name : string) (required : bool) (d : option (list (string * json)))
    : ComponentHealthResult := mk_component name HEALTHY required (_sorted_mapping d).
Definition component_unhealthy (name : string) (required : bool) (d : option (list (string * json)))
    : ComponentHealthResult := mk_component name UNHEALTHY required (_sorted_mapping d).

Record ActuatorHealthResult := mk_health {
  health_endpoint : ActuatorEndpoint;
  health_status : HealthStatus;
  components : list ComponentHealthResult;
}.

Definition healthy_baseline (e : ActuatorEndpoint) : ActuatorHealthResult := mk_health e HEALTHY [].

Fixpoint aggregate_status (cs : list ComponentHealthResult) : HealthStatus :=
  match cs with
  | [] => HEALTHY
  | c :: cs' =>
      if component_required c && bool_decide (component_status c = UNHEALTHY) then UNHEALTHY
      else aggregate_status cs'
  end.

Definition component_le (a b : ComponentHealthResult) : bool := str_leb (component_name a) (component_name b).
Definition from_components (e : ActuatorEndpoint) (cs : list ComponentHealthResult) : ActuatorHealthResult :=
  let ordered_components := sort_by component_le cs in
  match ordered_components with
  | [] => healthy_baseline e
  | _ => mk_health e (aggregate_status ordered_components) ordered_components
  end.

(** ** Extensions *)

Inductive actuator_error (E : Type) :=
  | CannotEvaluateAsyncExtensionSynchronouslyError
  | ExtensionError (e : E).
Arguments CannotEvaluateAsyncExtensionSynchronouslyError {E}.
Arguments ExtensionError {E}.

Section actuator.
Context {S E : Type}.

Abbreviation action := (comp S (actuator_error E)).

(** [AbstractHealthProbe] and its asynchronous twin; [check] is user code. *)
Record probe := mk_probe {
  probe_name : string;
  required : bool;
  endpoints : list ActuatorEndpoint;
  check : comp S E ComponentHealthResult;
}.
Record contributor := mk_contributor {
  contributor_name : string;
  contribute_info : comp S E (list (string * json));
}.

Definition default_endpoints : list ActuatorEndpoint := [HEALTH; READINESS].

Record ActuatorExtensionRegistry := mk_extensions {
  _health_probes : list probe;
  _async_health_probes : list probe;
  _info_contributors : list contributor;
  _async_info_contributors : list contributor;
}.
Definition empty_registry : ActuatorExtensionRegistry := mk_extensions [] [] [] [].

Definition register_health_probe (p : probe) (r : ActuatorExtensionRegistry) : ActuatorExtensionRegistry :=
  mk_extensions (_health_probes r ++ [p]) (_async_health_probes r) (_info_contributors r) (_async_info_contributors r).
Definition register_async_health_probe (p : probe) (r : ActuatorExtensionRegistry) : ActuatorExtensionRegistry :=
  mk_extensions (_health_probes r) (_async_health_probes r ++ [p]) (_info_contributors r) (_async_info_contributors r).
Definition register_info_contributor (c : contributor) (r : ActuatorExtensionRegistry) : ActuatorExtensionRegistry :=
  mk_extensions (_health_probes r) (_async_health_probes r) (_info_contributors r ++ [c]) (_async_info_contributors r).
Definition register_async_info_contributor (c : contributor) (r : ActuatorExtensionRegistry)
    : ActuatorExtensionRegistry :=
  mk_extensions (_health_probes r) (_async_health_probes r) (_info_contributors r) (_async_info_contributors r ++ [c]).

Definition probe_le (a b : probe) : bool := str_leb (probe_name a) (probe_name b).
Definition contributor_le (a b : contributor) : bool := str_leb (contributor_name a) (contributor_name b).
Definition health_probes (r : ActuatorExtensionRegistry) := sort_by probe_le (_health_probes r).
Definition async_health_probes (r : ActuatorExtensionRegistry) := sort_by probe_le (_async_health_probes r).
Definition info_contributors (r : ActuatorExtensionRegistry) := sort_by contributor_le (_info_contributors r).
Definition async_info_contributors (r : ActuatorExtensionRegistry) :=
  sort_by contributor_le (_async_info_contributors r).

(** A Pod, by what it is an instance of *)
Record extension_pod := mk_extension_pod {
  as_health_probe : option probe;
  as_async_health_probe : option probe;
  as_info_contributor : option contributor;
  as_async_info_contributor : option contributor;
}.
Definition with_option {A B} (f : A → B → B) (o : option A) (b : B) : B :=
  match o with Some a => f a b | None => b end.
Definition extension_post_process (p : extension_pod) (r : ActuatorExtensionRegistry) : ActuatorExtensionRegistry :=
  let r := with_option register_health_probe (as_health_probe p) r in
  let r := with_option register_async_health_probe (as_async_health_probe p) r in
  let r := with_option register_info_contributor (as_info_contributor p) r in
  with_option register_async_info_contributor (as_async_info_contributor p) r.

(** ** Aggregation *)

Context (registry : ActuatorExtensionRegistry) (include_details : bool).
(** An [Exception] is caught, anything else is not; its text and class *)
Context (is_exception : E → bool) (str type_name : E → string).

Definition _apply_details_policy (r : ComponentHealthResult) : ComponentHealthResult :=
  if include_details then r
  else if String.eqb (status_value (component_status r)) "healthy"
  then component_healthy (component_name r) (component_required r) None
  else component_unhealthy (component_name r) (component_required r) None.

Definition _exception_result (name : string) (required : bool) (e : E) : ComponentHealthResult :=
  _apply_details_policy (component_unhealthy name required
    (Some [("error", JObj [("message", JStr (str e)); ("type", JStr (type_name e))])])).

Definition _check_probe (p : probe) : action ComponentHealthResult := λ s,
  match check p s with
  | (Ok r, s') => (Ok (_apply_details_policy r), s')
  | (Raise e, s') =>
      if is_exception e then (Ok (_exception_result (probe_name p) (required p) e), s')
      else (Raise (ExtensionError e), s')
  end.

Definition matching (e : ActuatorEndpoint) (ps : list probe) : list probe :=
  List.filter (λ p, bool_decide (e ∈ endpoints p)) ps.
Definition _matching_health_probes (e : ActuatorEndpoint) := matching e (health_probes registry).
Definition _matching_async_health_probes (e : ActuatorEndpoint) := matching e (async_health_probes registry).

Definition _evaluate_sync (e : ActuatorEndpoint) : action ActuatorHealthResult :=
  match _matching_async_health_probes e with
  | [] =>
      components <- map_comp _check_probe (_matching_health_probes e) ;;
      ret (from_components e components)
  | _ => raise CannotEvaluateAsyncExtensionSynchronouslyError
  end.

Definition _evaluate_async (e : ActuatorEndpoint) : action ActuatorHealthResult :=
  sync_components <- map_comp _check_probe (_matching_health_probes e) ;;
  async_components <- map_comp _check_probe (_matching_async_health_probes e) ;;
  ret (from_components e (sync_components ++ async_components)).

Definition contribute (c : contributor) : action (list (string * json)) := λ s,
  let '(o, s') := contribute_info c s in (map_error ExtensionError o, s').

Definition _merge_info_payload (target payload : list (string * json)) : list (string * json) :=
  foldl (λ d kv, dict_set kv.1 kv.2 d) target (sort_keys payload).

Fixpoint merge_info (cs : list contributor) (info : list (string * json)) : action (list (string * json)) :=
  match cs with
  | [] => ret info
  | c :: cs' => payload <- contribute c ;; merge_info cs' (_merge_info_payload info payload)
  end.
Definition _merge_info (cs : list contributor) : action (list (string * json)) := merge_info cs [].

Fixpoint update_info (cs : list contributor) (info : list (string * json)) : action (list (string * json)) :=
  match cs with
  | [] => ret info
  | c :: cs' => payload <- contribute c ;; update_info cs' (dict_merge info payload)
  end.

(** An info result is its sorted mapping. *)
Definition evaluate_info : action (list (string * json)) :=
  match async_info_contributors registry with
  | [] => info <- _merge_info (info_contributors registry) ;; ret (sort_keys info)
  | _ => raise CannotEvaluateAsyncExtensionSynchronouslyError
  end.
Definition evaluate_info_async : action (list (string * json)) :=
  info <- _merge_info (info_contributors registry) ;;
  info <- update_info (async_info_contributors registry) info ;;
  ret (sort_keys info).
End actuator.
Arguments probe : clear implicits.
Arguments contributor : clear implicits.
Arguments ActuatorExtensionRegistry : clear implicits.

(** ** The startup contributor *)

Section startup_info.
(** How a time is written as a float *)
Context (float_json : Z → json).

Definition details_payload (d : list (string * string)) : json :=
  JList (map (λ kv, JObj [("key", JStr kv.1); ("value", JStr kv.2)]) d).

Definition _total_elapsed_seconds (records : list StartupPhaseRecord) : Z :=
  foldl (λ t r, t + elapsed_seconds r)%Z 0%Z records.

Definition _record_payload (r : StartupPhaseRecord) : json :=
  JObj ([("diagnostic_details", details_payload (diagnostic_details r));
         ("elapsed_seconds", float_json (elapsed_seconds r));
         ("phase_name", JStr (phase_name r));
         ("processed_count", JInt (processed_count r));
         ("status", JStr (match status r with SUCCESS => "success" | FAILURE => "failure" end))] ++
        match failure_summary r with
        | Some f =>
            [("failure", JObj [("diagnostic_details", details_payload (summary_details f));
                               ("exception_type_name", JStr (exception_type_name f));
                               ("message", JStr (message f))])]
        | None => []
        end).

Definition StartupReportInfoContributor {S E} (report_provider : S → list StartupPhaseRecord) : contributor S E :=
  mk_contributor "startup" (
    records <- gets report_provider ;;
    ret [("startup", JObj [("phase_count", JInt (Z.of_nat (length records)));
                           ("records", JList (map _record_payload records));
                           ("total_elapsed_seconds", float_json (_total_elapsed_seconds records))])]).
End startup_info.

(** ** Front ends *)

Definition _component_payload (c : ComponentHealthResult) : json :=
  JObj [("name", JStr (component_name c)); ("status", JStr (status_value (component_status c)));
        ("required", JBool (component_required c)); ("details", JObj (sort_keys (details c)))].
Definition _health_payload (r : ActuatorHealthResult) : json :=
  JObj [("endpoint", JStr (endpoint_value (health_endpoint r))); ("status", JStr (status_value (health_status r)));
        ("components", JList (map _component_payload (components r)))].

(** The response of the HTTP endpoint: its status code and content *)
Definition _health_response (r : ActuatorHealthResult) : Z * json :=
  (if bool_decide (health_status r = UNHEALTHY) then 503%Z else 200%Z, _health_payload r).

Record FastAPIActuatorConfig := mk_fastapi_actuator {
  enabled : bool;
  base_path : string;
  health_enabled : bool;
  readiness_enabled : bool;
  liveness_enabled : bool;
  info_enabled : bool;
}.

(** [base_path.strip("/")] *)
Fixpoint lstrip_slash (l : list ascii) : list ascii :=
  match l with c :: l' => if Ascii.eqb c "/"%char then lstrip_slash l' else l | [] => [] end.
Definition strip_slash (s : string) : string :=
  String.string_of_list_ascii (reverse (lstrip_slash (reverse (lstrip_slash (String.list_ascii_of_string s))))).
Definition _normalize_base_path (p : string) : string :=
  let stripped := strip_slash p in if String.eqb stripped "" then "" else "/" +:+ stripped.

Definition _register_routes (c : FastAPIActuatorConfig) : list (string * option ActuatorEndpoint) :=
  (if health_enabled c then [(base_path c +:+ "/health", Some HEALTH)] else []) ++
  (if readiness_enabled c then [(base_path c +:+ "/readiness", Some READINESS)] else []) ++
  (if liveness_enabled c then [(base_path c +:+ "/liveness", Some LIVENESS)] else []) ++
  (if info_enabled c then [(base_path c +:+ "/info", None)] else []).

(** [RegisterActuatorPostProcessor] on a FastAPI instance *)
Definition register_actuator (service_registered : bool) (c : FastAPIActuatorConfig)
    : list (string * option ActuatorEndpoint) :=
  if negb service_registered then [] else if negb (enabled c) then [] else _register_routes c.

(** The command line. The JSON is the one line the command prints. *)
Definition _component_line (c : ComponentHealthResult) : json :=
  JObj [("details", JObj (details c)); ("name", JStr (component_name c));
        ("required", JBool (component_required c)); ("status", JStr (status_value (component_status c)))].
Definition _health_line (r : ActuatorHealthResult) : json :=
  JObj [("components", JList (map _component_line (components r)));
        ("endpoint", JStr (endpoint_value (health_endpoint r))); ("status", JStr (status_value (health_status r)))].

Record ActuatorTyperConfig := mk_actuator_typer { command_enabled : bool; command_name : string }.

Inductive actuator_command := HealthCommand (e : ActuatorEndpoint) | InfoCommand.
Definition __command_group : list (string * actuator_command) :=
  [("health", HealthCommand HEALTH); ("readiness", HealthCommand READINESS); ("liveness", HealthCommand LIVENESS);
   ("info", InfoCommand)].

(** [ActuatorTyperCommandPostProcessor]: whether it has registered the commands, and the
    groups of the Typer application *)
Record typer_actuator := mk_typer_actuator {
  typer_registered : bool;
  typer_groups : list (string * list (string * actuator_command));
}.
Definition typer_post_process (config : ActuatorTyperConfig) (is_service : bool) (a : typer_actuator) : typer_actuator :=
  if typer_registered a then a
  else if negb (command_enabled config) then a
  else if negb is_service then a
  else mk_typer_actuator true (typer_groups a ++ [(command_name config, __command_group)]).

Section commands.
Context {S E : Type} (is_exception : E → bool) (str type_name : E → string).
(** [clear_context], the service the container gives and [typer.echo] *)
Context (clear_context : comp S (actuator_error E) unit)
  (get_service : comp S (actuator_error E) (ActuatorExtensionRegistry S E * bool))
  (echo : string → comp S (actuator_error E) unit).

Definition __service : comp S (actuator_error E) (ActuatorExtensionRegistry S E * bool) :=
  clear_context ;;; get_service.
Definition __print_health (r : ActuatorHealthResult) : comp S (actuator_error E) unit :=
  echo (json_dumps_default (_health_line r)).
Definition __print_info (info : list (string * json)) : comp S (actuator_error E) unit :=
  echo (json_dumps_default (JObj [("info", JObj info)])).

Definition run_command (c : actuator_command) : comp S (actuator_error E) unit :=
  service <- __service ;;
  let '(registry, include_details) := service in
  match c with
  | HealthCommand e =>
      result <- _evaluate_sync registry include_details is_exception str type_name e ;; __print_health result
  | InfoCommand => info <- evaluate_info registry ;; __print_info info
  end.
End commands.

(** ** Properties *)

Section properties.
Context {S E : Type} (is_exception : E → bool) (str type_name : E → string) (include_details : bool).
Implicit Types (s : S) (ps : list (probe S E)) (r : ActuatorExtensionRegistry S E).

Abbreviation check_probe := (_check_probe (S := S) include_details is_exception str type_name).
Abbreviation evaluate_async r := (_evaluate_async r include_details is_exception str type_name).
Abbreviation evaluate_sync r := (_evaluate_sync r include_details is_exception str type_name).

(** The answers of the probes, each checked once, one after the other *)
Fixpoint answers ps s : list (outcome E ComponentHealthResult) * S :=
  match ps with
  | [] => ([], s)
  | p :: ps' => let '(o, s1) := check p s in let '(os, s2) := answers ps' s1 in (o :: os, s2)
  end.

(** The component a probe reports: its result, or an unhealthy component of its own
    name that says what it raised; without its details when they are hidden *)
Definition component_of (p : probe S E) (o : outcome E ComponentHealthResult) : ComponentHealthResult :=
  let c := match o with
           | Ok c => c
           | Raise e => component_unhealthy (probe_name p) (required p)
                          (Some [("error", JObj [("message", JStr (str e)); ("type", JStr (type_name e))])])
           end in
  if include_details then c
  else mk_component (component_name c) (component_status c) (component_required c) [].

Lemma apply_details_policy_hides c :
  _apply_details_policy include_details c =
  if include_details then c else mk_component (component_name c) (component_status c) (component_required c) [].
Proof. unfold _apply_details_policy. destruct include_details; [done|]. destruct c as [n [] q d]; done. Qed.

Lemma map_check_probe ps s :
  (∀ p s e, p ∈ ps → (check p s).1 = Raise e → is_exception e = true) →
  map_comp check_probe ps s = (Ok (zip_with component_of ps (answers ps s).1), (answers ps s).2).
Proof.
  revert s. induction ps as [|p ps IH]; intros s Hex; [done|]. cbn [map_comp answers].
  pose proof (Hex p s) as Hp. unfold bind, _check_probe. destruct (check p s) as [[c|e] s1].
  - rewrite IH by (intros q s' e Hq; apply Hex; by right). destruct (answers ps s1) as [os s2]. cbn.
    by rewrite apply_details_policy_hides.
  - rewrite (Hp e) by (done || by left).
    rewrite IH by (intros q s' e' Hq; apply Hex; by right). destruct (answers ps s1) as [os s2]. cbn.
    unfold _exception_result. by rewrite apply_details_policy_hides.
Qed.

Lemma answers_app ps1 ps2 s :
  answers (ps1 ++ ps2) s =
  ((answers ps1 s).1 ++ (answers ps2 (answers ps1 s).2).1, (answers ps2 (answers ps1 s).2).2).
Proof.
  revert s. induction ps1 as [|p ps1 IH]; intros s; cbn; [by destruct (answers ps2 s)|].
  destruct (check p s) as [o s1]. rewrite IH. by destruct (answers ps1 s1).
Qed.
Lemma answers_length ps s : length (answers ps s).1 = length ps.
Proof.
  revert s. induction ps as [|p ps IH]; intros s; cbn; [done|]. destruct (check p s) as [o s1].
  specialize (IH s1). destruct (answers ps s1). cbn in *. by rewrite IH.
Qed.

Lemma aggregate_unhealthy cs :
  aggregate_status cs = UNHEALTHY ↔ ∃ c, c ∈ cs ∧ component_required c = true ∧ component_status c = UNHEALTHY.
Proof.
  induction cs as [|c cs IH]; cbn; [split; [done|by intros (c & Hc%not_elem_of_nil & _)]|].
  destruct (component_required c) eqn:Hr; [case_bool_decide as Hs|]; cbn.
  - split; [|done]. intros _. exists c. split; [by left|done].
  - rewrite IH. split; intros (c' & Hc & Hr' & Hs'); exists c'; [by split; [right|]|].
    apply elem_of_cons in Hc as [->|Hc]; [congruence|done].
  - rewrite IH. split; intros (c' & Hc & Hr' & Hs'); exists c'; [by split; [right|]|].
    apply elem_of_cons in Hc as [->|Hc]; [congruence|done].
Qed.

Lemma from_components_spec e cs :
  components (from_components e cs) ≡ₚ cs ∧
  Sorted (λ a b, component_le a b = true) (components (from_components e cs)) ∧
  health_status (from_components e cs) = aggregate_status (components (from_components e cs)) ∧
  health_endpoint (from_components e cs) = e.
Proof.
  unfold from_components. pose proof (sort_by_perm component_le cs) as Hp.
  assert (Sorted (λ a b, component_le a b = true) (sort_by component_le cs)) as Hs.
  { apply sort_by_sorted. intros a b. apply str_leb_total. }
  destruct (sort_by component_le cs) as [|c cs']; [|done].
  split; [done|]. split; [constructor|done].
Qed.

Definition checked r e : list (probe S E) := _matching_health_probes r e ++ _matching_async_health_probes r e.

(** An evaluation always answers: every probe of the endpoint is checked once and
    reports one component, one that raises reports itself unhealthy; the components
    are ordered by name, and the status is unhealthy exactly when a required
    component is. *)
Theorem health_evaluation_total r e s :
  (∀ p s x, p ∈ checked r e → (check p s).1 = Raise x → is_exception x = true) →
  ∃ result, evaluate_async r e s = (Ok result, (answers (checked r e) s).2) ∧
    components result ≡ₚ zip_with component_of (checked r e) (answers (checked r e) s).1 ∧
    length (components result) = length (checked r e) ∧
    Sorted (λ a b, component_le a b = true) (components result) ∧
    (health_status result = UNHEALTHY ↔
     ∃ c, c ∈ components result ∧ component_required c = true ∧ component_status c = UNHEALTHY).
Proof.
  intros Hex. unfold checked in *. unfold _evaluate_async, bind.
  rewrite map_check_probe by (intros p s' x Hp; apply Hex; apply elem_of_app; by left).
  rewrite map_check_probe by (intros p s' x Hp; apply Hex; apply elem_of_app; by right).
  rewrite answers_app. cbn [fst snd]. eexists. split; [reflexivity|].
  match goal with |- context [from_components e ?cs] => destruct (from_components_spec e cs) as (Hp & Hs & Ha & _) end.
  rewrite zip_with_app by (by rewrite answers_length). split; [done|]. split.
  { rewrite Hp, !length_app, !length_zip_with, !answers_length. lia. }
  split; [done|]. rewrite Ha. apply aggregate_unhealthy.
Qed.

Lemma evaluation_modes r e s :
  match _matching_async_health_probes r e with
  | [] => evaluate_sync r e s = evaluate_async r e s
  | _ => evaluate_sync r e s = (Raise CannotEvaluateAsyncExtensionSynchronouslyError, s)
  end.
Proof.
  unfold _evaluate_sync, _evaluate_async. destruct (_matching_async_health_probes r e) as [|p ps]; [|done].
  unfold bind. destruct (map_comp _ _ s) as [[cs|x] s1]; [|done]. cbn. by rewrite app_nil_r.
Qed.

(** The synchronous evaluation is the asynchronous one where it is allowed: it is
    refused exactly when an asynchronous probe reports to the endpoint. *)
Theorem sync_evaluation_agrees r e s :
  match _matching_async_health_probes r e with
  | [] => evaluate_sync r e s = evaluate_async r e s
  | _ => evaluate_sync r e s = (Raise CannotEvaluateAsyncExtensionSynchronouslyError, s)
  end.
Proof. apply evaluation_modes. Qed.

(** With details hidden no detail of a component leaves the service, neither what
    a probe reported nor the text of what it raised. *)
Theorem hidden_details_do_not_leak r e s result s' :
  include_details = false → evaluate_async r e s = (Ok result, s') →
  ∀ c, c ∈ components result → details c = [].
Proof.
  intros Hd Hev. unfold _evaluate_async in Hev.
  assert (∀ ps, triple (λ _ : S, True) (Forall (λ c, details c = [])) (λ _, True) (map_comp check_probe ps)) as Hmap.
  { intros ps. apply triple_map_comp. intros p _ s0 _. split; [done|]. unfold _check_probe.
    destruct (check p s0) as [[c|x] s1]; cbn; [by rewrite apply_details_policy_hides, Hd|].
    destruct (is_exception x); cbn; [|done]. unfold _exception_result. by rewrite apply_details_policy_hides, Hd. }
  apply bind_Ok_inv in Hev as (cs1 & s1 & H1 & Hev). apply bind_Ok_inv in Hev as (cs2 & s2 & H2 & Hev).
  injection Hev as <- <-. destruct (from_components_spec e (cs1 ++ cs2)) as (Hp & _).
  intros c. rewrite Hp, elem_of_app.
  pose proof (proj2 (Hmap (_matching_health_probes r e) s I)) as Hc1. rewrite H1 in Hc1.
  pose proof (proj2 (Hmap (_matching_async_health_probes r e) s1 I)) as Hc2. rewrite H2 in Hc2.
  cbn in *. rewrite Forall_forall in Hc1, Hc2. intros [Hc|Hc]; eauto.
Qed.

(** Registration order does not matter: with distinct names, the same extensions
    give the same result, down to the order in which they are called. *)
Theorem registration_order_irrelevant r r' e s :
  NoDup (probe_name <$> _health_probes r) → NoDup (probe_name <$> _async_health_probes r) →
  NoDup (contributor_name <$> _info_contributors r) → NoDup (contributor_name <$> _async_info_contributors r) →
  _health_probes r ≡ₚ _health_probes r' → _async_health_probes r ≡ₚ _async_health_probes r' →
  _info_contributors r ≡ₚ _info_contributors r' → _async_info_contributors r ≡ₚ _async_info_contributors r' →
  evaluate_async r e s = evaluate_async r' e s ∧ evaluate_sync r e s = evaluate_sync r' e s ∧
  evaluate_info_async r s = evaluate_info_async r' s ∧ evaluate_info r s = evaluate_info r' s.
Proof.
  intros Hn1 Hn2 Hn3 Hn4 H1 H2 H3 H4.
  assert (∀ ps ps' : list (probe S E), NoDup (probe_name <$> ps) → ps ≡ₚ ps' → sort_by probe_le ps = sort_by probe_le ps') as Hp.
  { intros ps ps'. apply (sort_by_perm_eq probe_le); unfold probe_le; [by intros ??; apply str_leb_total| |].
    - intros x y z. apply str_leb_trans.
    - intros x y. apply str_leb_antisym. }
  assert (∀ cs cs' : list (contributor S E), NoDup (contributor_name <$> cs) → cs ≡ₚ cs' →
    sort_by contributor_le cs = sort_by contributor_le cs') as Hc.
  { intros cs cs'. apply (sort_by_perm_eq contributor_le); unfold contributor_le; [by intros ??; apply str_leb_total| |].
    - intros x y z. apply str_leb_trans.
    - intros x y. apply str_leb_antisym. }
  unfold _evaluate_async, _evaluate_sync, evaluate_info_async, evaluate_info, _matching_health_probes,
    _matching_async_health_probes, health_probes, async_health_probes, info_contributors, async_info_contributors.
  by rewrite (Hp _ _ Hn1 H1), (Hp _ _ Hn2 H2), (Hc _ _ Hn3 H3), (Hc _ _ Hn4 H4).
Qed.
End properties.

(** The [required] attribute of a probe only counts when its check raises: an
    optional probe that returns [ComponentHealthResult.unhealthy(name)] makes the
    aggregate unhealthy, since the result is required by default. *)
Lemma optional_probe_fails_the_aggregate {S E} (is_exception : E → bool) (str type_name : E → string) name :
  ∃ p : probe S E, probe_name p = name ∧ required p = false ∧
  ∀ s, let r := register_health_probe p empty_registry in
  ∃ result, _evaluate_sync r true is_exception str type_name HEALTH s = (Ok result, s) ∧
    health_status result = UNHEALTHY.
Proof.
  exists (mk_probe name false default_endpoints (ret (component_unhealthy name true None))).
  split; [done|]. split; [done|]. intros s. by eexists.
Qed.

(** ** What the command line shows *)

Section command_line.
Context (py_float : string → string).

Lemma canonical_sort_keys (o : list (string * json)) : NoDup o.*1 →
  canonical (JObj (sort_keys o)) = canonical (JObj o).
Proof. intros Ho. cbn [canonical]. by rewrite sort_keys_map, sort_keys_idemp, <-sort_keys_map. Qed.

Lemma component_line_canonical c : NoDup (details c).*1 →
  canonical (_component_line c) = canonical (_component_payload c).
Proof.
  intros Hd. assert (∀ n t q d : json, canonical (JObj [("name", n); ("status", t); ("required", q); ("details", d)]) =
    JObj [("details", canonical d); ("name", canonical n); ("required", canonical q); ("status", canonical t)]) as Hc by done.
  unfold _component_payload. by rewrite Hc, canonical_sort_keys.
Qed.

Lemma json_ok_sorted o : json_ok py_float (JObj o) → json_ok py_float (JObj (sort_keys o)).
Proof. rewrite !json_ok_obj. by rewrite sort_keys_perm. Qed.

Definition details_ok (r : ActuatorHealthResult) : Prop :=
  Forall (λ c, json_ok py_float (JObj (details c))) (components r).

Lemma line_ok r : details_ok r → json_ok py_float (_health_line r) ∧ json_ok py_float (_health_payload r).
Proof.
  intros Hr. split; apply json_ok_obj; (split; [decide_compute|]); rewrite !Forall_cons, Forall_nil; split_and!; try done;
    apply json_ok_list, Forall_map; (eapply Forall_impl; [exact Hr|]); intros c Hc; apply json_ok_obj;
    (split; [decide_compute|]); rewrite !Forall_cons, Forall_nil; split_and!; try done. by apply json_ok_sorted.
Qed.

Lemma health_line_canonical r : details_ok r → canonical (_health_line r) = canonical (_health_payload r).
Proof.
  intros Hr. assert (∀ e t l : json, canonical (JObj [("endpoint", e); ("status", t); ("components", l)]) =
    JObj [("components", canonical l); ("endpoint", canonical e); ("status", canonical t)]) as Hc by done.
  unfold _health_payload. rewrite Hc.
  change (canonical (_health_line r)) with (JObj [("components", canonical (JList (map _component_line (components r))));
    ("endpoint", JStr (endpoint_value (health_endpoint r))); ("status", JStr (status_value (health_status r)))]).
  do 3 f_equal. cbn [canonical]. f_equal. rewrite !map_map. apply Forall_fmap_ext, (Forall_impl _ _ _ Hr).
  intros c [Hd _]%json_ok_obj. by apply component_line_canonical.
Qed.

Context {S E : Type} (is_exception : E → bool) (str type_name : E → string).
Context (clear_context : comp S (actuator_error E) unit)
  (get_service : comp S (actuator_error E) (ActuatorExtensionRegistry S E * bool))
  (echo : string → comp S (actuator_error E) unit).

(** The command line shows what the HTTP endpoint answers: the line a command prints is
    read as the JSON of the response, as long as no asynchronous probe reports to the
    endpoint. If one does, the command fails and prints nothing, while the endpoint
    answers. *)
Theorem command_prints_the_response e registry include_details s s0 result s1 :
  __service clear_context get_service s = (Ok (registry, include_details), s0) →
  _evaluate_async registry include_details is_exception str type_name e s0 = (Ok result, s1) → details_ok result →
  if decide (_matching_async_health_probes registry e = []) then
    ∃ line, run_command is_exception str type_name clear_context get_service echo (HealthCommand e) s = echo line s1 ∧
      json_loads py_float line = json_loads py_float (json_dumps (_health_response result).2)
  else run_command is_exception str type_name clear_context get_service echo (HealthCommand e) s =
    (Raise CannotEvaluateAsyncExtensionSynchronouslyError, s0).
Proof.
  intros Hs Hr Hok. pose proof (evaluation_modes is_exception str type_name include_details registry e s0) as Hsync.
  unfold run_command. destruct (_matching_async_health_probes registry e) as [|p ps].
  - rewrite decide_True by done. eexists. unfold bind. rewrite Hs, Hsync, Hr. split; [reflexivity|].
    destruct (line_ok _ Hok) as [Hl Hp]. cbn [snd _health_response].
    by rewrite json_loads_default, json_loads_dumps, health_line_canonical.
  - rewrite decide_False by done. unfold bind. by rewrite Hs, Hsync.
Qed.
End command_line.

Lemma ex_command_line : let log : comp (list string) (actuator_error string) unit := ret tt in
  run_command (λ _, true) (λ e : string, e) (λ _, "E") log (ret (empty_registry, true)) (λ line, modify (λ l, l ++ [line]))
    (HealthCommand LIVENESS) [] =
  (Ok tt, [json_dumps_default (JObj [("components", JList []); ("endpoint", JStr "liveness"); ("status", JStr "healthy")])]).
Proof. reflexivity. Qed.

(** ** Witnesses *)

Definition ex_db : probe nat string := mk_probe "db" true default_endpoints (raise "refused").
Definition ex_cache : probe nat string :=
  mk_probe "cache" false default_endpoints (modify Datatypes.S ;;; ret (component_unhealthy "cache" false (Some [("host", JStr "h")]))).
Definition ex_extensions : ActuatorExtensionRegistry nat string :=
  register_health_probe ex_db (register_async_health_probe ex_cache empty_registry).

Lemma health_evaluation_total_witness : ∃ result,
  _evaluate_async ex_extensions true (λ _, true) (λ e, e) (λ _, "ConnectionError") HEALTH 0 = (Ok result, 1) ∧
  length (components result) = 2 ∧ health_status result = UNHEALTHY.
Proof.
  destruct (health_evaluation_total (λ _, true) (λ e, e) (λ _, "ConnectionError") true ex_extensions HEALTH 0)
    as (result & Hr & Hp & Hl & _ & Hs); [done|].
  exists result. split; [exact Hr|]. split; [exact Hl|]. apply Hs.
  exists (component_unhealthy "db" true (Some [("error", JObj [("message", JStr "refused"); ("type", JStr "ConnectionError")])])).
  split; [|done]. rewrite Hp. vm_compute. by left.
Defined.

Lemma hidden_details_do_not_leak_witness : ∃ result,
  _evaluate_async ex_extensions false (λ _, true) (λ e, e) (λ _, "ConnectionError") HEALTH 0 = (Ok result, 1) ∧
  ∀ c, c ∈ components result → details c = [].
Proof.
  eexists. split; [reflexivity|].
  apply (hidden_details_do_not_leak (λ _, true) (λ e, e) (λ _, "ConnectionError") false ex_extensions HEALTH 0 _ 1);
    reflexivity.
Defined.

Lemma registration_order_irrelevant_witness :
  let r p q := register_health_probe p (register_health_probe q empty_registry) in
  _evaluate_async (r ex_db ex_cache) true (λ _, true) (λ e, e) (λ _, "X") HEALTH 0 =
  _evaluate_async (r ex_cache ex_db) true (λ _, true) (λ e, e) (λ _, "X") HEALTH 0.
Proof.
  intros r. apply (registration_order_irrelevant (λ _, true) (λ e, e) (λ _, "X") true (r ex_db ex_cache) (r ex_cache ex_db) HEALTH 0);
    cbn; try done; [decide_compute|constructor..|apply Permutation_swap].
Defined.
