(* ===== verification/PolicyLoader.v ===== *)
(** * Loading policy documents: [plugins/spakky-policy/.../loader.py]

    A parsed document is a Python value; the loader turns it into the model of
    [Policy.v] or rejects it. The parsers of JSON, TOML and YAML are parameters. The
    theorems relate the loader to the evaluator (what it accepts is evaluated without
    an internal error) and to a reference writer (what the model can say can be
    written and loads back). *)

From S2P Require Import Prelude Auth Policy.

(** ** Parsed values *)

(** The keys of a YAML mapping need not be strings. [VOther] is any value that is
    neither a scalar of JSON, a sequence nor a mapping (bytes, dates). *)
Inductive document_key := KStr (s : string) | KOther.
Inductive document_value :=
  | VNone
  | VBool (b : bool)
  | VInt (z : Z)
  | VFloat (q : QArith_base.Q)
  | VStr (s : string)
  | VList (l : list document_value)
  | VMap (o : list (document_key * document_value))
  | VOtherValue.

Abbreviation RawMapping := (list (string * document_value)).

Inductive load_error :=
  | PolicyDocumentLoadError
  | PolicyDocumentValidationError (message : string)
  | ValueError
  | LoaderRecursionError.

Definition invalid {A} (message : string) : outcome load_error A := Raise (PolicyDocumentValidationError message).

(** ** The rest of the document model *)

Record PolicyMetadata := mk_metadata {
  metadata_name : string;
  metadata_description : option string;
  labels : list string;
}.
Record PolicyResource := mk_resource { resource_ref : PolicyRef; resource_tenant : option PolicyRef }.
Record PolicyPermission := mk_permission {
  permission_ref : PolicyRef;
  permission_resources : list PolicyRef;
  permission_actions : list PolicyRef;
}.

(** A whole document: what the evaluator reads ([document]) and the rest *)
Record FullDocument := mk_full_document {
  version : string;
  metadata : PolicyMetadata;
  resources : list PolicyResource;
  actions : list PolicyRef;
  permissions : list PolicyPermission;
  document : PolicyDocument;
}.

(** ** Accessors *)

Fixpoint string_keys (o : list (document_key * document_value)) (label : string) (result : RawMapping)
    : outcome load_error RawMapping :=
  match o with
  | [] => Ok result
  | (KStr k, v) :: o' => string_keys o' label (dict_set k v result)
  | (KOther, _) :: _ => invalid (label +:+ " contains non-string key")
  end.
Definition _mapping (v : document_value) (label : string) : outcome load_error RawMapping :=
  match v with
  | VMap o => string_keys o label []
  | _ => invalid (label +:+ " must be a mapping")
  end.

Definition _sequence (v : document_value) (label : string) : outcome load_error (list document_value) :=
  match v with VList l => Ok l | _ => invalid (label +:+ " must be a sequence") end.

Definition _string (v : document_value) (label : string) : outcome load_error string :=
  match v with
  | VStr s => if String.eqb s "" then invalid (label +:+ " must be a non-empty string") else Ok s
  | _ => invalid (label +:+ " must be a non-empty string")
  end.
Definition _optional_string (v : document_value) (label : string) : outcome load_error (option string) :=
  match v with VNone => Ok None | _ => Some <$> _string v label end.

(** [tuple(f(item) for item in l)] *)
Fixpoint each {A} (f : document_value → outcome load_error A) (l : list document_value)
    : outcome load_error (list A) :=
  match l with
  | [] => Ok []
  | v :: l' => x ← f v; xs ← each f l'; Ok (x :: xs)
  end.
Definition _string_tuple (v : document_value) (label : string) : outcome load_error (list string) :=
  l ← _sequence v label; each (λ item, _string item label) l.

Definition _scalar (v : document_value) (label : string) : outcome load_error ClaimValue :=
  match v with
  | VNone => Ok CNone
  | VBool b => Ok (CBool b)
  | VInt z => Ok (CInt z)
  | VFloat q => Ok (CFloat q)
  | VStr s => Ok (CStr s)
  | _ => invalid (label +:+ " must be a JSON scalar")
  end.

(** [payload.get(key)] and [payload.get(key, default)] *)
Definition field (p : RawMapping) (k : string) (d : document_value) : document_value := default d (dict_get k p).
Definition get (p : RawMapping) (k : string) : document_value := field p k VNone.
Definition nothing : document_value := VList [].

Definition field_le (a b : string * document_value) : bool := str_leb a.1 b.1.
Definition _claims (v : document_value) : outcome load_error (list (string * ClaimValue)) :=
  payload ← _mapping v "claims";
  (fix go (o : RawMapping) := match o with
     | [] => Ok []
     | (k, v) :: o' => x ← _scalar v "claim"; xs ← go o'; Ok ((k, x) :: xs)
     end) (sort_by field_le payload).

(** ** Conditions *)

Definition condition_operator (s : string) : outcome load_error ConditionOperator :=
  if String.eqb s "equals" then Ok EQUALS else if String.eqb s "not_equals" then Ok NOT_EQUALS
  else if String.eqb s "in" then Ok IN else if String.eqb s "contains" then Ok CONTAINS
  else if String.eqb s "exists" then Ok EXISTS else Raise ValueError.
Definition policy_effect (s : string) : outcome load_error PolicyEffect :=
  if String.eqb s "allow" then Ok EFFECT_ALLOW else if String.eqb s "deny" then Ok EFFECT_DENY else Raise ValueError.

Definition _optional_composition (p : RawMapping) : option ConditionComposition :=
  if dict_has "all" p then Some ALL else if dict_has "any" p then Some ANY
  else if dict_has "not" p then Some NOT else None.
Definition composition_value (c : ConditionComposition) : string :=
  match c with ALL => "all" | ANY => "any" | NOT => "not" end.

Definition _condition_value (v : document_value) : outcome load_error ConditionValue :=
  match v with
  | VList l => CVTuple <$> each (λ item, _scalar item "condition.value") l
  | VMap _ | VOtherValue => invalid "condition.value must be scalar or sequence"
  | _ => CVScalar <$> _scalar v "condition.value"
  end.

(** The recursion of [_condition] through [_condition_children] *)
Fixpoint _condition (fuel : nat) (item : document_value) : outcome load_error PolicyCondition :=
  match fuel with
  | O => Raise LoaderRecursionError
  | S fuel' =>
      match item with
      | VStr s => Ok (mk_condition (Some s) None None (CVScalar CNone) None [])
      | _ =>
          payload ← _mapping item "condition";
          match _optional_composition payload with
          | Some composition =>
              ref ← _optional_string (get payload "ref") "condition.ref";
              let child_value := get payload (composition_value composition) in
              children ←
                match composition with
                | NOT => child ← _condition fuel' child_value; Ok [child]
                | _ => l ← _sequence child_value "condition.children"; each (_condition fuel') l
                end;
              Ok (mk_condition ref None None (CVScalar CNone) (Some composition) children)
          | None =>
              ref ← _optional_string (get payload "ref") "condition.ref";
              operator ← _string (get payload "operator") "condition.operator" ≫= condition_operator;
              key ← _string (get payload "key") "condition.key";
              value ← _condition_value (get payload "value");
              Ok (mk_condition ref (Some operator) (Some key) value None [])
          end
      end
  end.

Section loader.
Context (fuel : nat).

Definition _optional_condition (item : document_value) : outcome load_error (option PolicyCondition) :=
  match item with VNone => Ok None | _ => Some <$> _condition fuel item end.

(** ** Sections of a document *)

Definition _subject (item : document_value) : outcome load_error PolicySubject :=
  p ← _mapping item "subject";
  ref ← _string (get p "ref") "subject.ref";
  rs ← _string_tuple (field p "roles" nothing) "subject.roles";
  ss ← _string_tuple (field p "scopes" nothing) "subject.scopes";
  ps ← _string_tuple (field p "permissions" nothing) "subject.permissions";
  cs ← _claims (field p "claims" (VMap []));
  t ← _optional_string (get p "tenant") "subject.tenant";
  Ok (mk_policy_subject ref rs ss ps cs t).

Definition _resource (item : document_value) : outcome load_error PolicyResource :=
  p ← _mapping item "resource";
  ref ← _string (get p "ref") "resource.ref";
  t ← _optional_string (get p "tenant") "resource.tenant";
  Ok (mk_resource ref t).

Definition _action (item : document_value) : outcome load_error PolicyRef :=
  p ← _mapping item "action";
  _string (get p "ref") "action.ref".

Definition _permission (item : document_value) : outcome load_error PolicyPermission :=
  p ← _mapping item "permission";
  ref ← _string (get p "ref") "permission.ref";
  rs ← _string_tuple (field p "resources" nothing) "permission.resources";
  acts ← _string_tuple (field p "actions" nothing) "permission.actions";
  Ok (mk_permission ref rs acts).

Definition _role (item : document_value) : outcome load_error PolicyRole :=
  p ← _mapping item "role";
  ref ← _string (get p "ref") "role.ref";
  ps ← _string_tuple (field p "permissions" nothing) "role.permissions";
  Ok (mk_policy_role ref ps).

Definition _scope (item : document_value) : outcome load_error PolicyScope :=
  p ← _mapping item "scope";
  ref ← _string (get p "ref") "scope.ref";
  ps ← _string_tuple (field p "permissions" nothing) "scope.permissions";
  Ok (mk_policy_scope ref ps).

Definition _statement (item : document_value) : outcome load_error PolicyStatement :=
  p ← _mapping item "statement";
  ref ← _string (get p "ref") "statement.ref";
  eff ← _string (get p "effect") "statement.effect" ≫= policy_effect;
  subs ← _string_tuple (field p "subjects" nothing) "statement.subjects";
  rs ← _string_tuple (field p "roles" nothing) "statement.roles";
  ss ← _string_tuple (field p "scopes" nothing) "statement.scopes";
  ps ← _string_tuple (field p "permissions" nothing) "statement.permissions";
  res ← _string_tuple (field p "resources" nothing) "statement.resources";
  acts ← _string_tuple (field p "actions" nothing) "statement.actions";
  ts ← _string_tuple (field p "tenants" nothing) "statement.tenants";
  cond ← _optional_condition (get p "condition");
  Ok (mk_statement ref eff subs rs ss ps res acts ts cond).

Definition _policy (item : document_value) : outcome load_error NamedPolicy :=
  p ← _mapping item "policy";
  ref ← _string (get p "ref") "policy.ref";
  d ← _optional_string (get p "description") "policy.description";
  l ← _sequence (field p "statements" nothing) "policy.statements";
  sts ← each _statement l;
  Ok (mk_named_policy ref sts d).

(** [tuple(f(item) for item in _sequence(payload.get(key, ()), key))] *)
Definition section {A} (p : RawMapping) (k : string) (f : document_value → outcome load_error A)
    : outcome load_error (list A) :=
  l ← _sequence (field p k nothing) k; each f l.

Definition policy_document_from_mapping (payload : document_value) : outcome load_error FullDocument :=
  p ← _mapping payload "document";
  md ← _mapping (field p "metadata" (VMap [(KStr "name", VStr "policy")])) "metadata";
  v ← _string (field p "version" (VStr "1")) "version";
  md_name ← _string (field md "name" (VStr "policy")) "metadata.name";
  md_description ← _optional_string (get md "description") "metadata.description";
  md_labels ← _string_tuple (field md "labels" nothing) "metadata.labels";
  subjects ← section p "subjects" _subject;
  resources ← section p "resources" _resource;
  actions ← section p "actions" _action;
  permissions ← section p "permissions" _permission;
  roles ← section p "roles" _role;
  scopes ← section p "scopes" _scope;
  policies ← section p "policies" _policy;
  conditions ← section p "conditions" (_condition fuel);
  Ok (mk_full_document v (mk_metadata md_name md_description md_labels) resources actions permissions
        (mk_document subjects roles scopes policies conditions)).
End loader.

(** ** Files *)

Inductive document_format := JsonFormat | TomlFormat | YamlFormat.
Definition document_format_of (suffix : string) : option document_format :=
  let s := lower suffix in
  if String.eqb s ".json" then Some JsonFormat else if String.eqb s ".toml" then Some TomlFormat
  else if String.eqb s ".yaml" || String.eqb s ".yml" then Some YamlFormat else None.

(** [parse]: reading the file and parsing it; [None] when that raises *)
Definition load_policy_document (parse : document_format → option document_value) (suffix : string) (fuel : nat)
    : outcome load_error FullDocument :=
  match document_format_of suffix with
  | None => Raise PolicyDocumentLoadError
  | Some f =>
      match parse f with
      | None => Raise PolicyDocumentLoadError
      | Some loaded =>
          p ← _mapping loaded "document";
          policy_document_from_mapping fuel (VMap (map (λ kv, (KStr kv.1, kv.2)) p))
      end
  end.

(** [spakky_policy_document] without a configured path *)
Definition default_document : document_value :=
  VMap [(KStr "version", VStr "1"); (KStr "metadata", VMap [(KStr "name", VStr "spakky-policy")])].
Definition spakky_policy_document (path : option (string * (document_format → option document_value))) (fuel : nat)
    : outcome load_error FullDocument :=
  match path with
  | None => policy_document_from_mapping fuel default_document
  | Some (suffix, parse) => load_policy_document parse suffix fuel
  end.

(** ** Results and rejections *)

(** [spec Q X m]: what [m] returns satisfies [Q], what it raises satisfies [X]. *)
Definition spec {A} (Q : A → Prop) (X : load_error → Prop) (m : outcome load_error A) : Prop :=
  match m with Ok a => Q a | Raise e => X e end.

(** The document is refused with a reason, not by an accident of the loader. *)
Definition rejected (e : load_error) : Prop :=
  match e with PolicyDocumentValidationError _ | ValueError => True | _ => False end.

Section specs.
Context {X : load_error → Prop}.

Lemma spec_bind {A B} (Q : A → Prop) (Q' : B → Prop) (m : outcome load_error A) (f : A → outcome load_error B) :
  spec Q X m → (∀ a, Q a → spec Q' X (f a)) → spec Q' X (m ≫= f).
Proof. destruct m; cbn; auto. Qed.
Lemma spec_fmap {A B} (Q : A → Prop) (Q' : B → Prop) (f : A → B) (m : outcome load_error A) :
  spec Q X m → (∀ a, Q a → Q' (f a)) → spec Q' X (f <$> m).
Proof. destruct m; cbn; auto. Qed.
Lemma spec_each {A} (Q : A → Prop) (f : document_value → outcome load_error A) l :
  (∀ v, v ∈ l → spec Q X (f v)) → spec (Forall Q) X (each f l).
Proof.
  induction l as [|v l IH]; intros Hf; cbn; [constructor|].
  eapply spec_bind; [apply Hf; by left|]. intros a Ha.
  eapply spec_bind; [apply IH; intros w Hw; apply Hf; by right|]. intros xs Hxs. by constructor.
Qed.
Lemma spec_weaken {A} (Q Q' : A → Prop) (m : outcome load_error A) : spec Q X m → (∀ a, Q a → Q' a) → spec Q' X m.
Proof. destruct m; cbn; auto. Qed.
End specs.

(** ** Depth *)

Fixpoint depth (v : document_value) : nat :=
  match v with
  | VList l => S (foldr (λ w n, Nat.max (depth w) n) 0 l)
  | VMap o => S (foldr (λ kw n, Nat.max (depth kw.2) n) 0 o)
  | _ => 1
  end.

Lemma depth_elem v l : v ∈ l → (depth v < depth (VList l))%nat.
Proof.
  cbn. intros Hv. apply Nat.lt_succ_r. induction l as [|w l IH]; [by apply not_elem_of_nil in Hv|]. cbn.
  apply elem_of_cons in Hv as [->|Hv]; [lia|]. specialize (IH Hv). lia.
Qed.
Lemma string_keys_depth o label acc p n :
  string_keys o label acc = Ok p → (∀ k v, dict_get k acc = Some v → (depth v < n)%nat) →
  (depth (VMap o) ≤ n)%nat → ∀ k v, dict_get k p = Some v → (depth v < n)%nat.
Proof.
  revert acc. induction o as [|[[k0|] v0] o IH]; intros acc; cbn; [by intros [= <-]| |done].
  intros Hp Hacc Hn. apply (IH _ Hp); [|cbn; lia].
  intros k v. destruct (decide (k = k0)) as [->|Hne]; [rewrite dict_get_set_eq|rewrite dict_get_set_ne by done; apply Hacc].
  intros [= <-]. lia.
Qed.

(** What [_mapping] returns lies inside what it is given. *)
Lemma mapping_spec v label :
  spec (λ p, ∀ k w, dict_get k p = Some w → (depth w < depth v)%nat) rejected (_mapping v label).
Proof.
  destruct v as [| | | | | |o|]; cbn; try done. destruct (string_keys o label []) as [p|e] eqn:Hp; cbn.
  - apply (string_keys_depth o label [] p _ Hp); [done|]. cbn. lia.
  - assert (∀ acc, spec (λ _ : RawMapping, True) rejected (string_keys o label acc)) as Hr.
    { clear. induction o as [|[[k|] v] o IH]; intros acc; [done|apply IH|done]. }
    specialize (Hr []). by rewrite Hp in Hr.
Qed.
Lemma mapping_keys_NoDup v label p : _mapping v label = Ok p → NoDup p.*1.
Proof.
  destruct v as [| | | | | |o|]; cbn; try done.
  assert (∀ acc : RawMapping, NoDup acc.*1 → string_keys o label acc = Ok p → NoDup p.*1) as H; [|apply H; constructor].
  induction o as [|[[k|] v] o IH]; intros acc Hacc; cbn; [by intros [= <-]| |done]. apply IH. by apply dict_set_NoDup.
Qed.
Lemma sequence_spec v label :
  spec (λ l, ∀ w, w ∈ l → (depth w < depth v)%nat) rejected (_sequence v label).
Proof. destruct v as [| | | | |l| |]; cbn; try done. intros w. apply depth_elem. Qed.
Lemma string_spec v label : spec (λ s, s ≠ "") rejected (_string v label).
Proof. destruct v as [| | | |s| | |]; cbn; try done. by destruct (String.eqb_spec s ""). Qed.
Lemma optional_string_spec v label : spec (λ _, True) rejected (_optional_string v label).
Proof.
  destruct v; cbn; try done. destruct (String.eqb s ""); done.
Qed.
Lemma string_tuple_spec v label : spec (λ _, True) rejected (_string_tuple v label).
Proof.
  eapply spec_bind; [apply sequence_spec|]. intros l _. eapply spec_weaken; [|done].
  apply (spec_each (λ _, True)). intros w _. eapply spec_weaken; [apply string_spec|done].
Qed.
Lemma scalar_spec v label : spec (λ _, True) rejected (_scalar v label).
Proof. by destruct v. Qed.
Lemma claims_spec v : spec (λ _, True) rejected (_claims v).
Proof.
  eapply spec_bind; [apply mapping_spec|]. intros p _. generalize (sort_by field_le p). intros o.
  induction o as [|[k w] o IH]; [done|]. eapply spec_bind; [apply scalar_spec|]. intros x _.
  eapply spec_bind; [apply IH|done].
Qed.
Lemma condition_value_spec v : spec (λ _, True) rejected (_condition_value v).
Proof.
  destruct v; try done. cbn. eapply spec_fmap; [|done]. apply (spec_each (λ _, True)). intros w _. apply scalar_spec.
Qed.

(** ** Loaded conditions *)

Lemma well_shaped_all c :
  (composition c = Some NOT → children c ≠ []) → Forall (λ x, well_shaped x = true) (children c) →
  well_shaped c = true.
Proof.
  destruct c as [r o k v comp l]. cbn. intros Hnot Hall. apply andb_true_iff. split.
  - destruct comp as [[]|]; try done. destruct l; [by destruct Hnot|done].
  - clear Hnot. induction Hall as [|x l Hx _ IH]; [done|]. by rewrite Hx.
Qed.

(** With as much fuel as the value is deep, a condition is loaded or rejected, and a
    loaded one has an operand for every [not]. *)
Lemma condition_spec n v :
  (depth v ≤ n)%nat → spec (λ c, well_shaped c = true) rejected (_condition n v).
Proof.
  revert v. induction n as [|n IH]; intros v Hv; [destruct v; cbn in Hv; lia|].
  assert (∀ w : document_value, (∀ s, w ≠ VStr s) → (depth w ≤ S n)%nat →
    spec (λ c, well_shaped c = true) rejected
      (payload ← _mapping w "condition";
       match _optional_composition payload with
       | Some composition =>
           ref ← _optional_string (get payload "ref") "condition.ref";
           let child_value := get payload (composition_value composition) in
           children ← match composition with
             | NOT => child ← _condition n child_value; Ok [child]
             | _ => l ← _sequence child_value "condition.children"; each (_condition n) l
             end;
           Ok (mk_condition ref None None (CVScalar CNone) (Some composition) children)
       | None =>
           ref ← _optional_string (get payload "ref") "condition.ref";
           operator ← _string (get payload "operator") "condition.operator" ≫= condition_operator;
           key ← _string (get payload "key") "condition.key";
           value ← _condition_value (get payload "value");
           Ok (mk_condition ref (Some operator) (Some key) value None [])
       end)) as Hmap; [|destruct v; try (apply Hmap; [by intros|done]); done].
  clear v Hv. intros v _ Hv. eapply spec_bind; [apply mapping_spec|]. intros p Hp. cbn beta in Hp.
  destruct (_optional_composition p) as [comp|] eqn:Hcomp.
  - eapply spec_bind; [apply optional_string_spec|]. intros ref _.
    assert (depth (get p (composition_value comp)) < depth v)%nat as Hd.
    { unfold get, field. destruct (dict_get (composition_value comp) p) as [w|] eqn:Hw; [by apply (Hp _ _ Hw)|].
      exfalso. revert Hcomp. unfold _optional_composition, dict_has.
      destruct (dict_get "all" p) eqn:Ha; [intros [= <-]; cbn in Hw; congruence|].
      destruct (dict_get "any" p) eqn:Hy; [intros [= <-]; cbn in Hw; congruence|].
      destruct (dict_get "not" p) eqn:Hn; [intros [= <-]; cbn in Hw; congruence|done]. }
    eapply (spec_bind (λ l, (comp = NOT → l ≠ []) ∧ Forall (λ x, well_shaped x = true) l)).
    + assert (∀ c, c ≠ NOT → spec (λ l, (c = NOT → l ≠ []) ∧ Forall (λ x, well_shaped x = true) l) rejected
        (l ← _sequence (get p (composition_value comp)) "condition.children"; each (_condition n) l)) as Hlist.
      { intros c Hc. eapply spec_bind; [apply sequence_spec|]. intros l Hl. cbn beta in Hl.
        eapply spec_weaken; [apply (spec_each (λ x, well_shaped x = true))|by split].
        intros w Hw. apply IH. specialize (Hl w Hw). lia. }
      destruct comp; [by apply Hlist..|]. eapply spec_bind; [apply IH; lia|]. intros c Hc. cbn. split; [done|].
      by constructor.
    + intros l [Hnot Hl]. apply well_shaped_all; cbn; [|done]. intros [= ->]. by apply Hnot.
  - eapply spec_bind; [apply optional_string_spec|]. intros ref _.
    eapply spec_bind.
    { eapply spec_bind; [apply string_spec|]. intros o _. instantiate (1 := λ _, True).
      unfold condition_operator. by repeat case_match. }
    intros o _. eapply spec_bind; [apply string_spec|]. intros k _.
    eapply spec_bind; [apply condition_value_spec|]. done.
Qed.

(** ** Loaded documents *)

Section documents.
Context (fuel : nat).

Definition policy_shaped (p : NamedPolicy) : Prop := Forall statement_well_formed (statements p).

(** The items of a section lie inside the mapping. *)
Lemma items_spec {A} (Q : A → Prop) p k label (f : document_value → outcome load_error A) n :
  (∀ k w, dict_get k p = Some w → (depth w < n)%nat) →
  (∀ w, (depth w < n)%nat → spec Q rejected (f w)) →
  spec (Forall Q) rejected (l ← _sequence (field p k nothing) label; each f l).
Proof.
  intros Hp Hf. eapply (spec_bind (λ l, ∀ w, w ∈ l → (depth w < n)%nat)).
  - unfold field. destruct (dict_get k p) as [v|] eqn:Hk; cbn [default].
    + eapply spec_weaken; [apply sequence_spec|]. intros l Hl w Hw. cbn beta in Hl.
      specialize (Hl w Hw). specialize (Hp k v Hk). unfold id in Hl. lia.
    + intros w Hw. by apply not_elem_of_nil in Hw.
  - intros l Hl. apply spec_each. auto.
Qed.

Lemma subject_spec v : spec (λ _, True) rejected (_subject v).
Proof.
  eapply spec_bind; [apply mapping_spec|]. intros p _. eapply spec_bind; [apply string_spec|]. intros ? _.
  do 3 (eapply spec_bind; [apply string_tuple_spec|]; intros ? _).
  eapply spec_bind; [apply claims_spec|]. intros ? _. by eapply spec_bind; [apply optional_string_spec|].
Qed.
Lemma resource_spec v : spec (λ _, True) rejected (_resource v).
Proof.
  eapply spec_bind; [apply mapping_spec|]. intros p _. eapply spec_bind; [apply string_spec|]. intros ? _.
  by eapply spec_bind; [apply optional_string_spec|].
Qed.
Lemma action_spec v : spec (λ _, True) rejected (_action v).
Proof.
  eapply spec_bind; [apply mapping_spec|]. intros p _. by eapply spec_weaken; [apply string_spec|].
Qed.
Lemma permission_spec v : spec (λ _, True) rejected (_permission v).
Proof.
  eapply spec_bind; [apply mapping_spec|]. intros p _. eapply spec_bind; [apply string_spec|]. intros ? _.
  eapply spec_bind; [apply string_tuple_spec|]; intros ? _. by eapply spec_bind; [apply string_tuple_spec|].
Qed.
Lemma role_spec v : spec (λ _, True) rejected (_role v).
Proof.
  eapply spec_bind; [apply mapping_spec|]. intros p _. eapply spec_bind; [apply string_spec|]. intros ? _.
  by eapply spec_bind; [apply string_tuple_spec|].
Qed.
Lemma scope_spec v : spec (λ _, True) rejected (_scope v).
Proof.
  eapply spec_bind; [apply mapping_spec|]. intros p _. eapply spec_bind; [apply string_spec|]. intros ? _.
  by eapply spec_bind; [apply string_tuple_spec|].
Qed.

Lemma statement_spec v : (depth v ≤ fuel)%nat → spec statement_well_formed rejected (_statement fuel v).
Proof.
  intros Hv. eapply spec_bind; [apply mapping_spec|]. intros p Hp. eapply spec_bind; [apply string_spec|]. intros ? _.
  eapply (spec_bind (λ _, True)).
  { eapply spec_bind; [apply string_spec|]. intros o _. unfold policy_effect. by repeat case_match. }
  intros ? _. do 7 (eapply spec_bind; [apply string_tuple_spec|]; intros ? _).
  eapply (spec_bind (λ c, ∀ x, c = Some x → well_shaped x = true)).
  - assert (depth (get p "condition") ≤ fuel)%nat as Hc.
    { unfold get, field. destruct (dict_get "condition" p) as [w|] eqn:Hw; cbn.
      - specialize (Hp _ _ Hw). lia.
      - destruct v; cbn in Hv; lia. }
    unfold _optional_condition. pose proof (condition_spec fuel _ Hc) as Hs.
    destruct (get p "condition"); try done; (eapply spec_fmap; [apply Hs|]); by intros c ? ? [= <-].
  - intros c Hc. cbn. unfold statement_well_formed. cbn. destruct c; [by apply Hc|done].
Qed.
Lemma policy_spec v : (depth v ≤ fuel)%nat → spec policy_shaped rejected (_policy fuel v).
Proof.
  intros Hv. eapply spec_bind; [apply mapping_spec|]. intros p Hp. eapply spec_bind; [apply string_spec|]. intros ? _.
  eapply spec_bind; [apply optional_string_spec|]. intros ? _.
  pose proof (items_spec statement_well_formed p "statements" "policy.statements" (_statement fuel) (depth v) Hp) as Hi.
  destruct (_sequence (field p "statements" nothing) "policy.statements") as [l|e]; cbn in *.
  - assert (spec (Forall statement_well_formed) rejected (each (_statement fuel) l)) as Hs
      by (apply Hi; intros w Hw; apply statement_spec; lia).
    by destruct (each (_statement fuel) l).
  - apply Hi. intros w Hw. apply statement_spec. lia.
Qed.

(** Every condition of the document, named or of a statement, has its operands. *)
Definition document_shaped (d : FullDocument) : Prop :=
  Forall (λ c, well_shaped c = true) (doc_conditions (document d)) ∧
  Forall policy_shaped (doc_policies (document d)).

Lemma document_spec payload :
  (depth payload ≤ fuel)%nat → spec document_shaped rejected (policy_document_from_mapping fuel payload).
Proof.
  intros Hd. unfold policy_document_from_mapping. eapply spec_bind; [apply mapping_spec|]. intros p Hp.
  cbn beta in Hp. eapply spec_bind; [apply mapping_spec|]. intros md _. eapply spec_bind; [apply string_spec|]. intros ? _.
  eapply spec_bind; [apply string_spec|]. intros ? _. eapply spec_bind; [apply optional_string_spec|]. intros ? _.
  eapply spec_bind; [apply string_tuple_spec|]. intros ? _.
  eapply spec_bind; [apply (items_spec (λ _, True) p _ _ _ _ Hp); intros w _; apply subject_spec|]. intros ? _.
  eapply spec_bind; [apply (items_spec (λ _, True) p _ _ _ _ Hp); intros w _; apply resource_spec|]. intros ? _.
  eapply spec_bind; [apply (items_spec (λ _, True) p _ _ _ _ Hp); intros w _; apply action_spec|]. intros ? _.
  eapply spec_bind; [apply (items_spec (λ _, True) p _ _ _ _ Hp); intros w _; apply permission_spec|]. intros ? _.
  eapply spec_bind; [apply (items_spec (λ _, True) p _ _ _ _ Hp); intros w _; apply role_spec|]. intros ? _.
  eapply spec_bind; [apply (items_spec (λ _, True) p _ _ _ _ Hp); intros w _; apply scope_spec|]. intros ? _.
  eapply spec_bind; [apply (items_spec policy_shaped p _ _ _ _ Hp); intros w Hw; apply policy_spec; lia|]. intros ps Hps.
  eapply spec_bind; [apply (items_spec (λ c, well_shaped c = true) p _ _ _ _ Hp); intros w Hw; apply condition_spec; lia|].
  by intros cs Hcs.
Qed.

(** Loading is total: with as much fuel as the document is deep it yields a
    document or a rejection, of the validator or for an unknown enumeration value;
    a file moreover fails with a load error when it has another suffix or does not
    parse. *)
Theorem loading_total parse suffix :
  (∀ f v, parse f = Some v → (depth v ≤ fuel)%nat) →
  match load_policy_document parse suffix fuel with
  | Ok d => document_shaped d
  | Raise PolicyDocumentLoadError =>
      document_format_of suffix = None ∨ ∃ f, document_format_of suffix = Some f ∧ parse f = None
  | Raise e => rejected e
  end.
Proof.
  intros Hd. unfold load_policy_document. destruct (document_format_of suffix) as [f|]; [|by left].
  destruct (parse f) as [v|] eqn:Hv; [|right; by exists f]. specialize (Hd f v Hv).
  pose proof (mapping_spec v "document") as Hm. destruct (_mapping v "document") as [p|e] eqn:Hmap; cbn [spec mbind outcome_bind] in *;
    [|by destruct e].
  assert (depth (VMap (map (λ kv, (KStr kv.1, kv.2)) p)) ≤ fuel)%nat as Hp.
  { cbn [depth]. apply (Nat.le_trans _ (depth v)); [|done]. apply Nat.le_succ_l.
    assert (∀ k w, (k, w) ∈ p → (depth w < depth v)%nat) as Hin.
    { intros k w Hkw. apply (Hm k). apply dict_get_NoDup; [|done]. by apply (mapping_keys_NoDup v "document"). }
    clear -Hin. induction p as [|[k w] p IH]; cbn.
    - destruct v; cbn; lia.
    - apply Nat.max_lub_lt; [by apply (Hin k); left|]. apply IH. intros k' w' H'. apply (Hin k'). by right. }
  pose proof (document_spec (VMap (map (λ kv, (KStr kv.1, kv.2)) p)) Hp) as Hs.
  destruct (policy_document_from_mapping fuel _) as [d|e]; cbn [spec] in Hs; [done|]. by destruct e.
Qed.

(** What the loader accepts the evaluator evaluates: when the named conditions of
    a loaded document do not refer to one another in a cycle, some recursion depth is
    enough for every request, and no internal error occurs. *)
Theorem loaded_document_evaluates payload d (rank : PolicyRef → nat) :
  (depth payload ≤ fuel)%nat → policy_document_from_mapping fuel payload = Ok d →
  (∀ r c r', dict_get r (_conditions (evaluator_of (document d))) = Some c → r' ∈ child_refs c →
     dict_has r' (_conditions (evaluator_of (document d))) = true → (rank r' < rank r)%nat) →
  ∃ n, ∀ depth rq, (n ≤ depth)%nat → ∃ r, evaluate (evaluator_of (document d)) depth rq = Ok r.
Proof.
  intros Hd Hload Hrank. pose proof (document_spec payload Hd) as Hs. rewrite Hload in Hs.
  destruct Hs as [Hc Hp]. rewrite Forall_forall in Hc. rewrite Forall_forall in Hp.
  apply (evaluate_total (document d) rank); [|intros p Hin; by apply Hp].
  intros r c Hrc. split; [|intros r' Hr' Hhas; by apply (Hrank r c r')].
  apply Hc. revert Hrc. unfold evaluator_of. cbn [_conditions].
  assert (∀ cs acc, (∀ r c, dict_get r acc = Some c → c ∈ doc_conditions (document d)) →
    (∀ c, c ∈ cs → c ∈ doc_conditions (document d)) →
    ∀ r c, dict_get r (foldl (λ acc c, match cond_ref c with Some r => dict_set r c acc | None => acc end) acc cs) = Some c →
      c ∈ doc_conditions (document d)) as Hfold; [|by apply Hfold].
  clear. induction cs as [|c cs IH]; intros acc Hacc Hcs; [done|]. cbn [foldl]. apply IH; [|intros x Hx; apply Hcs; by right].
  intros r' c'. destruct (cond_ref c) as [r0|]; [|apply Hacc].
  destruct (decide (r' = r0)) as [->|Hne]; [rewrite dict_get_set_eq; intros [= <-]; apply Hcs; by left|].
  rewrite dict_get_set_ne by done. apply Hacc.
Qed.
End documents.

(** ** A reference writer

    How a document of the model is written; reading it back is the identity. *)

Definition opt_value (s : option string) : document_value := match s with Some s => VStr s | None => VNone end.
Definition strings (l : list string) : document_value := VList (VStr <$> l).
Definition mapping (o : RawMapping) : document_value := VMap (map (λ kv, (KStr kv.1, kv.2)) o).
Definition claim_payload (v : ClaimValue) : document_value :=
  match v with CNone => VNone | CBool b => VBool b | CInt z => VInt z | CFloat q => VFloat q | CStr s => VStr s end.
Definition value_payload (v : ConditionValue) : document_value :=
  match v with CVScalar v => claim_payload v | CVTuple vs => VList (claim_payload <$> vs) end.
Definition operator_name (o : ConditionOperator) : string :=
  match o with EQUALS => "equals" | NOT_EQUALS => "not_equals" | IN => "in" | CONTAINS => "contains" | EXISTS => "exists" end.
Definition effect_name (e : PolicyEffect) : string := match e with EFFECT_ALLOW => "allow" | EFFECT_DENY => "deny" end.

Fixpoint condition_payload (c : PolicyCondition) : document_value :=
  match composition c, operator c with
  | Some NOT, _ => mapping [("ref", opt_value (cond_ref c));
                            ("not", match children c with x :: _ => condition_payload x | [] => VNone end)]
  | Some comp, _ => mapping [("ref", opt_value (cond_ref c)); (composition_value comp, VList (map condition_payload (children c)))]
  | None, Some o => mapping [("ref", opt_value (cond_ref c)); ("operator", VStr (operator_name o));
                             ("key", opt_value (key c)); ("value", value_payload (value c))]
  | None, None => opt_value (cond_ref c)
  end.

Definition subject_payload (s : PolicySubject) : document_value :=
  mapping [("ref", VStr (subj_ref s)); ("roles", strings (subj_roles s)); ("scopes", strings (subj_scopes s));
           ("permissions", strings (subj_permissions s));
           ("claims", mapping (map (λ kv, (kv.1, claim_payload kv.2)) (subj_claims s)));
           ("tenant", opt_value (subj_tenant s))].
Definition resource_payload (r : PolicyResource) : document_value :=
  mapping [("ref", VStr (resource_ref r)); ("tenant", opt_value (resource_tenant r))].
Definition action_payload (a : PolicyRef) : document_value := mapping [("ref", VStr a)].
Definition permission_payload (p : PolicyPermission) : document_value :=
  mapping [("ref", VStr (permission_ref p)); ("resources", strings (permission_resources p));
           ("actions", strings (permission_actions p))].
Definition role_payload (r : PolicyRole) : document_value :=
  mapping [("ref", VStr (role_ref r)); ("permissions", strings (role_permissions r))].
Definition scope_payload (s : PolicyScope) : document_value :=
  mapping [("ref", VStr (scope_ref s)); ("permissions", strings (scope_permissions s))].
Definition statement_payload (st : PolicyStatement) : document_value :=
  mapping [("ref", VStr (st_ref st)); ("effect", VStr (effect_name (effect st))); ("subjects", strings (st_subjects st));
           ("roles", strings (st_roles st)); ("scopes", strings (st_scopes st)); ("permissions", strings (st_permissions st));
           ("resources", strings (st_resources st)); ("actions", strings (st_actions st)); ("tenants", strings (st_tenants st));
           ("condition", match st_condition st with Some c => condition_payload c | None => VNone end)].
Definition policy_payload (p : NamedPolicy) : document_value :=
  mapping [("ref", VStr (policy_ref p)); ("description", opt_value (policy_description p));
           ("statements", VList (map statement_payload (statements p)))].
Definition document_payload (d : FullDocument) : document_value :=
  mapping [("version", VStr (version d));
           ("metadata", mapping [("name", VStr (metadata_name (metadata d)));
                                 ("description", opt_value (metadata_description (metadata d)));
                                 ("labels", strings (labels (metadata d)))]);
           ("subjects", VList (map subject_payload (doc_subjects (document d))));
           ("resources", VList (map resource_payload (resources d)));
           ("actions", VList (map action_payload (actions d)));
           ("permissions", VList (map permission_payload (permissions d)));
           ("roles", VList (map role_payload (doc_roles (document d))));
           ("scopes", VList (map scope_payload (doc_scopes (document d))));
           ("policies", VList (map policy_payload (doc_policies (document d))));
           ("conditions", VList (map condition_payload (doc_conditions (document d))))].

(** *** What can be written: strings are not empty, claims are sorted, and a condition
    is a reference, a comparison or a composition *)

Definition text (s : string) : Prop := s ≠ "".
Definition texts (l : list string) : Prop := Forall text l.
Definition opt_text (s : option string) : Prop := match s with Some s => text s | None => True end.

Inductive writable_condition : PolicyCondition → Prop :=
  | writable_reference s : writable_condition (mk_condition (Some s) None None (CVScalar CNone) None [])
  | writable_comparison r o k v : opt_text r → text k →
      writable_condition (mk_condition r (Some o) (Some k) v None [])
  | writable_not r c : opt_text r → writable_condition c →
      writable_condition (mk_condition r None None (CVScalar CNone) (Some NOT) [c])
  | writable_composition r comp l : opt_text r → comp ≠ NOT → Forall writable_condition l →
      writable_condition (mk_condition r None None (CVScalar CNone) (Some comp) l).

Record writable_subject (s : PolicySubject) : Prop := {
  ws_ref : text (subj_ref s);
  ws_roles : texts (subj_roles s);
  ws_scopes : texts (subj_scopes s);
  ws_permissions : texts (subj_permissions s);
  ws_claims : NoDup (subj_claims s).*1 ∧ Sorted (λ a b, str_leb a.1 b.1 = true) (subj_claims s);
  ws_tenant : opt_text (subj_tenant s);
}.
Record writable_statement (s : PolicyStatement) : Prop := {
  wt_ref : text (st_ref s);
  wt_subjects : texts (st_subjects s);
  wt_roles : texts (st_roles s);
  wt_scopes : texts (st_scopes s);
  wt_permissions : texts (st_permissions s);
  wt_resources : texts (st_resources s);
  wt_actions : texts (st_actions s);
  wt_tenants : texts (st_tenants s);
  wt_condition : match st_condition s with Some c => writable_condition c | None => True end;
}.
Record writable_document (d : FullDocument) : Prop := {
  wd_version : text (version d);
  wd_name : text (metadata_name (metadata d));
  wd_description : opt_text (metadata_description (metadata d));
  wd_labels : texts (labels (metadata d));
  wd_subjects : Forall writable_subject (doc_subjects (document d));
  wd_resources : Forall (λ r, text (resource_ref r) ∧ opt_text (resource_tenant r)) (resources d);
  wd_actions : texts (actions d);
  wd_permissions : Forall (λ p, text (permission_ref p) ∧ texts (permission_resources p) ∧ texts (permission_actions p))
                     (permissions d);
  wd_roles : Forall (λ r, text (role_ref r) ∧ texts (role_permissions r)) (doc_roles (document d));
  wd_scopes : Forall (λ r, text (scope_ref r) ∧ texts (scope_permissions r)) (doc_scopes (document d));
  wd_policies : Forall (λ p, text (policy_ref p) ∧ opt_text (policy_description p) ∧ Forall writable_statement (statements p))
                  (doc_policies (document d));
  wd_conditions : Forall writable_condition (doc_conditions (document d));
}.

(** *** Reading back *)

Lemma mapping_written o label : NoDup o.*1 → _mapping (mapping o) label = Ok o.
Proof.
  intros Hnd. cbn. assert (∀ acc, NoDup (acc.*1 ++ o.*1) →
    string_keys (map (λ kv, (KStr kv.1, kv.2)) o) label acc = Ok (acc ++ o)) as H; [|by apply (H [])].
  clear Hnd. induction o as [|[k v] o IH]; intros acc Hnd; cbn; [by rewrite app_nil_r|].
  rewrite dict_set_fresh.
  - rewrite IH; [by rewrite <-app_assoc|]. by rewrite fmap_app, <-app_assoc.
  - intros Hin. apply NoDup_app in Hnd as (_ & Hd & _). apply (Hd k Hin). by left.
Qed.
Lemma field_hd k v p d : field ((k, v) :: p) k d = v.
Proof. unfold field. cbn. by rewrite decide_True. Qed.
Lemma field_tl k k' v p d : k ≠ k' → field ((k', v) :: p) k d = field p k d.
Proof. intros Hne. unfold field. cbn. by rewrite decide_False. Qed.

Lemma string_written s label : text s → _string (VStr s) label = Ok s.
Proof. intros Hs. cbn. by rewrite (proj2 (String.eqb_neq s "") Hs). Qed.
Lemma optional_written s label : opt_text s → _optional_string (opt_value s) label = Ok s.
Proof. destruct s as [s|]; [|done]. intros Hs. cbn. by rewrite (proj2 (String.eqb_neq s "") Hs). Qed.
Lemma each_written {A} (f : document_value → outcome load_error A) (g : A → document_value) l :
  Forall (λ x, f (g x) = Ok x) l → each f (map g l) = Ok l.
Proof. induction 1 as [|x l Hx _ IH]; cbn; [done|]. by rewrite Hx; cbn; rewrite IH. Qed.
Lemma strings_written l label : texts l → _string_tuple (strings l) label = Ok l.
Proof.
  intros Hl. unfold _string_tuple, strings. cbn. apply (each_written _ VStr).
  eapply Forall_impl; [exact Hl|]. intros s. apply string_written.
Qed.
Lemma list_written {A} (f : document_value → outcome load_error A) (g : A → document_value) l label :
  Forall (λ x, f (g x) = Ok x) l → (l0 ← _sequence (VList (map g l)) label; each f l0) = Ok l.
Proof. apply each_written. Qed.
Lemma scalar_written v label : _scalar (claim_payload v) label = Ok v.
Proof. by destruct v. Qed.
Lemma value_written v : _condition_value (value_payload v) = Ok v.
Proof.
  destruct v as [v|vs]; [by destruct v|]. cbn. rewrite (each_written _ claim_payload); [done|].
  apply Forall_forall. intros v _. apply scalar_written.
Qed.
Lemma claims_written cs : NoDup cs.*1 → Sorted (λ a b, str_leb a.1 b.1 = true) cs →
  _claims (mapping (map (λ kv, (kv.1, claim_payload kv.2)) cs)) = Ok cs.
Proof.
  intros Hnd Hs. unfold _claims. rewrite mapping_written by (by rewrite <-list_fmap_compose).
  cbn [mbind outcome_bind]. rewrite sort_by_id.
  - clear. induction cs as [|[k v] cs IH]; [done|]. cbn. rewrite scalar_written. cbn. by rewrite IH.
  - clear Hnd. induction Hs as [|x l _ IH Hx]; constructor; [done|]. by destruct Hx; constructor.
Qed.
Lemma operator_written o label : _string (VStr (operator_name o)) label ≫= condition_operator = Ok o.
Proof. by destruct o. Qed.
Lemma effect_written e label : _string (VStr (effect_name e)) label ≫= policy_effect = Ok e.
Proof. by destruct e. Qed.

(** Look up the fields of a written mapping and read them. *)
Ltac read_fields :=
  repeat first
    [ rewrite field_hd
    | rewrite field_tl by done
    | rewrite string_written by done
    | rewrite optional_written by done
    | rewrite strings_written by done
    | rewrite operator_written | rewrite effect_written | rewrite value_written
    | progress cbn [mbind outcome_bind fmap outcome_fmap] ].
Ltac read_mapping := rewrite mapping_written by decide_compute; unfold get; read_fields.

Lemma resource_written r : text (resource_ref r) → opt_text (resource_tenant r) → _resource (resource_payload r) = Ok r.
Proof. intros. unfold _resource, resource_payload. read_mapping. by destruct r. Qed.
Lemma action_written a : text a → _action (action_payload a) = Ok a.
Proof. intros. unfold _action, action_payload. by read_mapping. Qed.
Lemma permission_written p :
  text (permission_ref p) ∧ texts (permission_resources p) ∧ texts (permission_actions p) →
  _permission (permission_payload p) = Ok p.
Proof. intros (? & ? & ?). unfold _permission, permission_payload. read_mapping. by destruct p. Qed.
Lemma role_written r : text (role_ref r) ∧ texts (role_permissions r) → _role (role_payload r) = Ok r.
Proof. intros (? & ?). unfold _role, role_payload. read_mapping. by destruct r. Qed.
Lemma scope_written r : text (scope_ref r) ∧ texts (scope_permissions r) → _scope (scope_payload r) = Ok r.
Proof. intros (? & ?). unfold _scope, scope_payload. read_mapping. by destruct r. Qed.
Lemma subject_written s : writable_subject s → _subject (subject_payload s) = Ok s.
Proof.
  intros [? ? ? ? [? ?] ?]. unfold _subject, subject_payload. read_mapping.
  rewrite claims_written by done. read_fields. by destruct s.
Qed.

Lemma payload_string c : writable_condition c → ∀ s, condition_payload c = VStr s → c = mk_condition (Some s) None None (CVScalar CNone) None [].
Proof. intros Hc s. destruct Hc as [| |r c|r comp l ? ? ?]; cbn; [by intros [= ->]|done|done|by destruct comp]. Qed.

Lemma condition_step n o :
  NoDup o.*1 →
  _condition (S n) (mapping o) =
    match _optional_composition o with
    | Some composition =>
        ref ← _optional_string (get o "ref") "condition.ref";
        let child_value := get o (composition_value composition) in
        children ← match composition with
          | NOT => child ← _condition n child_value; Ok [child]
          | _ => l ← _sequence child_value "condition.children"; each (_condition n) l
          end;
        Ok (mk_condition ref None None (CVScalar CNone) (Some composition) children)
    | None =>
        ref ← _optional_string (get o "ref") "condition.ref";
        operator ← _string (get o "operator") "condition.operator" ≫= condition_operator;
        key ← _string (get o "key") "condition.key";
        value ← _condition_value (get o "value");
        Ok (mk_condition ref (Some operator) (Some key) value None [])
    end.
Proof.
  intros Hnd. transitivity (_mapping (mapping o) "condition" ≫= λ payload,
    match _optional_composition payload with
    | Some composition =>
        ref ← _optional_string (get payload "ref") "condition.ref";
        let child_value := get payload (composition_value composition) in
        children ← match composition with
          | NOT => child ← _condition n child_value; Ok [child]
          | _ => l ← _sequence child_value "condition.children"; each (_condition n) l
          end;
        Ok (mk_condition ref None None (CVScalar CNone) (Some composition) children)
    | None =>
        ref ← _optional_string (get payload "ref") "condition.ref";
        operator ← _string (get payload "operator") "condition.operator" ≫= condition_operator;
        key ← _string (get payload "key") "condition.key";
        value ← _condition_value (get payload "value");
        Ok (mk_condition ref (Some operator) (Some key) value None [])
    end); [done|]. by rewrite mapping_written.
Qed.

(** Decide which kind of condition a written mapping is. *)
Ltac read_composition c :=
  match goal with |- context [_optional_composition ?o] => change (_optional_composition o) with c end;
  unfold get; cbv beta iota zeta; cbn [composition_value].

Lemma depth_field k v o : (k, v) ∈ o → (depth v < depth (mapping o))%nat.
Proof.
  intros Hin. unfold mapping. cbn [depth]. apply Nat.lt_succ_r. induction o as [|[k' v'] o IH]; [by apply not_elem_of_nil in Hin|].
  cbn. apply elem_of_cons in Hin as [[= <- <-]|Hin]; [lia|]. specialize (IH Hin). lia.
Qed.

Lemma condition_written c : writable_condition c → ∀ n, (depth (condition_payload c) ≤ n)%nat →
  _condition n (condition_payload c) = Ok c.
Proof.
  induction c as [c IH] using PolicyCondition_nested_ind. intros Hc [|n]; [destruct (condition_payload c); cbn; lia|].
  destruct Hc as [s|r o k v Hr Hk|r c Hr Hc|r comp l Hr Hcomp Hl]; intros Hn.
  - done.
  - cbn [condition_payload composition operator cond_ref key value]. rewrite condition_step by decide_compute.
    change (opt_value (Some k)) with (VStr k). read_composition (@None ConditionComposition). by read_fields.
  - cbn [condition_payload composition operator cond_ref children] in *. rewrite condition_step by decide_compute.
    read_composition (Some NOT). read_fields.
    rewrite IH; [done|by left|done|].
    pose proof (depth_field "not" (condition_payload c) [("ref", opt_value r); ("not", condition_payload c)]) as Hd.
    assert (("not", condition_payload c) ∈ [("ref", opt_value r); ("not", condition_payload c)]) as Hin by (right; by left).
    specialize (Hd Hin). lia.
  - assert (condition_payload (mk_condition r None None (CVScalar CNone) (Some comp) l) =
      mapping [("ref", opt_value r); (composition_value comp, VList (map condition_payload l))]) as Heq by by destruct comp.
    rewrite Heq in *.
    assert (depth (VList (map condition_payload l)) < S n)%nat as Hd.
    { eapply Nat.lt_le_trans; [|exact Hn]. apply (depth_field (composition_value comp)). right. by left. }
    assert (Forall (λ x, _condition n (condition_payload x) = Ok x) l) as Hread.
    { apply Forall_forall. intros x Hx. apply IH; [done|by rewrite Forall_forall in Hl; apply Hl|].
      pose proof (depth_elem (condition_payload x) (map condition_payload l)) as Hdx.
      assert (condition_payload x ∈ map condition_payload l) as Hin by (apply list_elem_of_fmap; by exists x).
      specialize (Hdx Hin). lia. }
    rewrite condition_step by (destruct comp; decide_compute).
    destruct comp; [..|done]; cbn [composition_value]; [read_composition (Some ALL)|read_composition (Some ANY)];
      read_fields; by rewrite list_written.
Qed.

Section written.
Context (fuel : nat).

Lemma statement_written st :
  writable_statement st → (depth (statement_payload st) ≤ fuel)%nat → _statement fuel (statement_payload st) = Ok st.
Proof.
  intros [] Hd.
  set (c := match st_condition st with Some c => condition_payload c | None => VNone end).
  assert (depth c < depth (statement_payload st))%nat as Hc.
  { apply (depth_field "condition"). do 9 right. by left. }
  assert (_optional_condition fuel c = Ok (st_condition st)) as Hoc.
  { subst c. destruct (st_condition st) as [c|] eqn:Hst; [|done].
    assert (_optional_condition fuel (condition_payload c) = Some <$> _condition fuel (condition_payload c)) as ->.
    { unfold _optional_condition. destruct (condition_payload c) eqn:Hp; try done.
      destruct wt_condition0; cbn in Hp; try done. by destruct comp. }
    rewrite condition_written; [done|done|lia]. }
  unfold _statement, statement_payload. fold c. read_mapping. rewrite Hoc. cbn. by destruct st.
Qed.

Lemma elem_depth {A} (g : A → document_value) l k o x :
  x ∈ l → (k, VList (map g l)) ∈ o → (S (depth (g x)) < depth (mapping o))%nat.
Proof.
  intros Hx Hin. pose proof (depth_field k (VList (map g l)) o Hin) as Ho.
  pose proof (depth_elem (g x) (map g l)) as Hg.
  assert (g x ∈ map g l) as Hgx by (apply list_elem_of_fmap; by exists x). specialize (Hg Hgx). lia.
Qed.

Lemma policy_written p :
  text (policy_ref p) ∧ opt_text (policy_description p) ∧ Forall writable_statement (statements p) →
  (depth (policy_payload p) ≤ fuel)%nat → _policy fuel (policy_payload p) = Ok p.
Proof.
  intros (? & ? & Hst) Hd. unfold _policy, policy_payload. read_mapping.
  cbn [_sequence mbind outcome_bind]. rewrite each_written.
  - cbn. by destruct p.
  - apply Forall_forall. intros st Hin. rewrite Forall_forall in Hst. apply statement_written; [by apply Hst|].
    assert (S (depth (statement_payload st)) < depth (policy_payload p))%nat; [|lia].
    apply (elem_depth statement_payload (statements p) "statements"); [done|]. do 2 right. by left.
Qed.

(** Every document of the model can be written, and loads back as it was: no
    combination of subjects, resources, actions, permissions, roles, scopes, policies,
    statements and nested conditions is lost or altered by the loader. *)
Theorem document_roundtrip d :
  writable_document d → (depth (document_payload d) ≤ fuel)%nat →
  policy_document_from_mapping fuel (document_payload d) = Ok d.
Proof.
  intros [] Hd. unfold policy_document_from_mapping, document_payload.
  rewrite mapping_written by decide_compute. cbn [mbind outcome_bind]. unfold get, section.
  read_fields. rewrite mapping_written by decide_compute. read_fields.
  assert (∀ k l, (k, VList l) ∈ [
    ("policies", VList (map policy_payload (doc_policies (document d))));
    ("conditions", VList (map condition_payload (doc_conditions (document d))))] → ∀ v, v ∈ l → (depth v ≤ fuel)%nat) as Hdepth.
  { intros k l Hk v Hv. apply Nat.lt_le_incl, (Nat.lt_le_trans _ (depth (document_payload d))); [|done].
    apply (Nat.lt_trans _ (depth (VList l))); [by apply depth_elem|]. apply (depth_field k). do 8 right. done. }
  rewrite (list_written _subject) by (eapply Forall_impl; [done|]; apply subject_written).
  rewrite (list_written _resource) by (eapply Forall_impl; [done|]; intros ? []; by apply resource_written).
  rewrite (list_written _action) by (eapply Forall_impl; [done|]; apply action_written).
  rewrite (list_written _permission) by (eapply Forall_impl; [done|]; apply permission_written).
  rewrite (list_written _role) by (eapply Forall_impl; [done|]; apply role_written).
  rewrite (list_written _scope) by (eapply Forall_impl; [done|]; apply scope_written).
  rewrite (list_written (_policy fuel)).
  2: { apply Forall_forall. intros p Hp. rewrite Forall_forall in wd_policies0. apply policy_written; [by apply wd_policies0|].
       eapply (Hdepth "policies"); [by left|]. apply list_elem_of_fmap. by exists p. }
  rewrite (list_written (_condition fuel)).
  2: { apply Forall_forall. intros c Hc. rewrite Forall_forall in wd_conditions0. apply condition_written; [by apply wd_conditions0|].
       eapply (Hdepth "conditions"); [right; by left|]. apply list_elem_of_fmap. by exists c. }
  cbn. destruct d as [? [] ? ? ? []]. done.
Qed.
End written.

(** ** Witnesses *)

(** An effect that is not one of the enumeration is not rejected by the validator: the
    constructor of the enumeration raises. *)
Lemma unknown_effect_raises_value_error fuel s ref :
  text s → text ref → s ≠ "allow" → s ≠ "deny" →
  _statement fuel (mapping [("ref", VStr ref); ("effect", VStr s)]) = Raise ValueError.
Proof.
  intros Hs Href Ha Hd. unfold _statement. rewrite mapping_written by decide_compute. unfold get. read_fields.
  unfold policy_effect. by rewrite (proj2 (String.eqb_neq _ _) Ha), (proj2 (String.eqb_neq _ _) Hd).
Qed.

Definition ex_rule : PolicyCondition :=
  mk_condition (Some "eu-or-root") None None (CVScalar CNone) (Some ANY)
    [mk_condition None (Some EQUALS) (Some "area") (CVScalar (CStr "eu")) None [];
     mk_condition None None None (CVScalar CNone) (Some NOT) [mk_condition (Some "guest") None None (CVScalar CNone) None []]].
Definition ex_document : FullDocument :=
  mk_full_document "1" (mk_metadata "shop" None ["prod"]) [mk_resource "order" None] ["read"] []
    (mk_document [mk_policy_subject "user-1" ["admin"] [] [] [("area", CStr "eu"); ("level", CInt 3)] None] [] []
       [mk_named_policy "orders" [mk_statement "read-orders" EFFECT_ALLOW ["user-1"] [] [] [] ["order"] ["read"] []
          (Some (mk_condition (Some "eu-or-root") None None (CVScalar CNone) None []))] None]
       [ex_rule; mk_condition (Some "guest") (Some EXISTS) (Some "guest") (CVScalar CNone) None []]).

Lemma ex_writable : writable_document ex_document.
Proof.
  constructor; cbn; repeat constructor; try done.
  all: decide_compute.
Qed.

Lemma document_roundtrip_witness :
  policy_document_from_mapping 9 (document_payload ex_document) = Ok ex_document.
Proof. apply document_roundtrip; [apply ex_writable|vm_compute; lia]. Defined.

Lemma loading_total_witness :
  match load_policy_document (λ _, Some (document_payload ex_document)) ".JSON" 9 with
  | Ok d => document_shaped d
  | Raise _ => False
  end.
Proof.
  pose proof (loading_total 9 (λ _, Some (document_payload ex_document)) ".JSON") as H.
  destruct (load_policy_document (λ _, Some (document_payload ex_document)) ".JSON" 9) as [d|e] eqn:Hl;
    [apply H; intros f v [= <-]; vm_compute; lia|]. vm_compute in Hl. discriminate.
Defined.

Lemma loaded_document_evaluates_witness :
  ∃ n, ∀ depth rq, (n ≤ depth)%nat → ∃ r, evaluate (evaluator_of (document ex_document)) depth rq = Ok r.
Proof.
  apply (loaded_document_evaluates 9 (document_payload ex_document) ex_document (λ r, if String.eqb r "guest" then 0 else 1));
    [vm_compute; lia|reflexivity|].
  intros r c r' Hc Hr' Hhas. apply dict_get_elem_of in Hc.
  apply elem_of_cons in Hc as [[= -> ->]|Hc%list_elem_of_singleton]; [|injection Hc as -> ->].
  - apply list_elem_of_singleton in Hr' as ->. vm_compute. lia.
  - by apply not_elem_of_nil in Hr'.
Defined.
