(* ===== verification/Tasks.v ===== *)
(** * Tasks

    [core/spakky-task] and [plugins/spakky-celery]: schedules and their conversion for
    the beat scheduler, the authorization metadata of a task, direct execution, the
    aspect that turns a call into a message, and the worker's endpoint. The Celery
    client, its scheduler and the handler methods are parameters; application context
    and trace are those of [Consumer.v]. *)

From S2P Require Import Prelude Json Encoding Annotation Auth Tracing Domain Event Crypto Snapshot Consumer Delivery.

(** ** Schedules *)

Inductive Weekday := MONDAY | TUESDAY | WEDNESDAY | THURSDAY | FRIDAY | SATURDAY | SUNDAY.
Inductive Month :=
  | JANUARY | FEBRUARY | MARCH | APRIL | MAY | JUNE | JULY | AUGUST | SEPTEMBER | OCTOBER | NOVEMBER | DECEMBER.

(** The values of the two [IntEnum] classes *)
Definition weekday_value (d : Weekday) : Z :=
  match d with
  | MONDAY => 0 | TUESDAY => 1 | WEDNESDAY => 2 | THURSDAY => 3 | FRIDAY => 4 | SATURDAY => 5 | SUNDAY => 6
  end%Z.
Definition month_value (m : Month) : Z :=
  match m with
  | JANUARY => 1 | FEBRUARY => 2 | MARCH => 3 | APRIL => 4 | MAY => 5 | JUNE => 6 | JULY => 7 | AUGUST => 8
  | SEPTEMBER => 9 | OCTOBER => 10 | NOVEMBER => 11 | DECEMBER => 12
  end%Z.

(** [A | tuple[A, ...] | None] *)
Inductive selection (A : Type) := Every | One (a : A) | Several (l : list A).
Arguments Every {A}.
Arguments One {A}.
Arguments Several {A}.

Record Crontab := mk_crontab {
  month : selection Month;
  day : selection Z;
  weekday : selection Weekday;
  hour : Z;
  minute : Z;
}.

Record time_of_day := mk_time { time_hour : Z; time_minute : Z; time_second : Z }.

Record ScheduleRoute := mk_schedule_route {
  interval : option Z;
  at_ : option time_of_day;
  crontab : option Crontab;
}.

Inductive task_error := InvalidScheduleSpecificationError | InvalidScheduleRouteError.

Definition specified {A} (o : option A) : nat := match o with Some _ => 1 | None => 0 end.
(** [__post_init__] *)
Definition schedule (i : option Z) (t : option time_of_day) (c : option Crontab) : outcome task_error ScheduleRoute :=
  check (negb (specified i + specified t + specified c =? 1)) InvalidScheduleSpecificationError ≫= λ _,
  Ok (mk_schedule_route i t c).

(** What the plugin builds for the scheduler: an interval, or the five fields of a
    [celery.schedules.crontab] as text *)
Inductive celery_schedule :=
  | CelerySchedule (run_every : Z)
  | CeleryCrontab (minute hour day_of_week day_of_month month_of_year : string).

Fixpoint comma_joined (l : list string) : string :=
  match l with [] => "" | [s] => s | s :: l' => s +:+ "," +:+ comma_joined l' end.
Definition _to_str {A} (value_of : A → Z) (v : selection A) : string :=
  match v with
  | Every => "*"
  | One a => int_text (value_of a)
  | Several l => comma_joined (map (λ a, int_text (value_of a)) l)
  end.
Definition _crontab_to_celery (c : Crontab) : celery_schedule :=
  CeleryCrontab (int_text (minute c)) (int_text (hour c)) (_to_str weekday_value (weekday c))
    (_to_str id (day c)) (_to_str month_value (month c)).

Definition _to_celery_schedule (r : ScheduleRoute) : outcome task_error celery_schedule :=
  match interval r with
  | Some i => Ok (CelerySchedule i)
  | None =>
      match at_ r with
      | Some t => Ok (CeleryCrontab (int_text (time_minute t)) (int_text (time_hour t)) "*" "*" "*")
      | None =>
          match crontab r with
          | Some c => Ok (_crontab_to_celery c)
          | None => Raise InvalidScheduleRouteError
          end
      end
  end.

(** ** Authorization metadata of a task *)

Record TaskAuthRequirementMetadata := mk_task_requirement {
  task_kind : string;
  task_ref : string;
  task_resource : option string;
  task_action : option string;
  task_tenant : option string;
}.
#[global] Instance task_requirement_eq_dec : EqDecision TaskAuthRequirementMetadata.
Proof. solve_decision. Defined.

Record TaskAuthMetadata := mk_task_auth {
  task_public_access : bool;
  task_requirements : list TaskAuthRequirementMetadata;
}.
Definition task_protected (m : TaskAuthMetadata) : bool := (0 <? length (task_requirements m))%nat.

Definition kind_text (k : AuthRequirementKind) : string :=
  match k with
  | AUTHENTICATED => "AUTHENTICATED" | PERMISSION => "PERMISSION" | POLICY => "POLICY"
  | RELATION => "RELATION" | ROLE => "ROLE" | SCOPE => "SCOPE"
  end.

Definition _task_auth_requirement_from_annotation (a : annotation (option AuthRequirement))
    : option TaskAuthRequirementMetadata :=
  match ann_payload a with
  | Some r => Some (mk_task_requirement (kind_text (kind r)) (ref r) (resource r) (Auth.action r) (req_tenant r))
  | None => None
  end.

Definition _metadata_items (st : auth_store) (source : py_object)
    : list (ann_class * list (annotation (option AuthRequirement))) := get_metadata st source.
Definition _is_auth_annotation_type (annotation_type qualname : ann_class) : bool :=
  String.eqb annotation_type qualname.
Definition _has_auth_annotation (st : auth_store) (source : py_object) (qualname : ann_class) : bool :=
  existsb (λ item, _is_auth_annotation_type item.1 qualname) (_metadata_items st source).
Definition _auth_requirements_from_source (st : auth_store) (source : py_object)
    : list TaskAuthRequirementMetadata :=
  _metadata_items st source ≫= λ item,
    if _is_auth_annotation_type item.1 ProtectedRequirement_class
    then omap _task_auth_requirement_from_annotation item.2 else [].

Definition collect_task_auth_metadata (st : auth_store) (method : py_object) (owner_type : option py_object)
    : TaskAuthMetadata :=
  let sources := match owner_type with Some o => [o; method] | None => [method] end in
  mk_task_auth (existsb (λ s, _has_auth_annotation st s PublicAccess_class) sources)
    (dedup (sources ≫= _auth_requirements_from_source st)).

(** What [spakky-auth] says of the same method is what the task carries; the two are
    kept apart so that tasks need not import it. *)
Definition task_requirement (r : AuthRequirement) : TaskAuthRequirementMetadata :=
  mk_task_requirement (kind_text (kind r)) (ref r) (resource r) (Auth.action r) (req_tenant r).

#[global] Instance task_requirement_inj : Inj (=) (=) task_requirement.
Proof. intros [[] ????] [[] ????] [=]; by subst. Qed.

Lemma bind_items {A B} (f : A → list B) (k : string) (d : list (string * A)) :
  NoDup d.*1 →
  (d ≫= λ item, if String.eqb item.1 k then f item.2 else []) = match dict_get k d with Some x => f x | None => [] end.
Proof.
  induction d as [|[k' x] d IH]; [done|]. cbn [fmap list_fmap]. intros [Hk Hnd]%NoDup_cons.
  rewrite bind_cons, IH by done. cbn [fst snd dict_get]. destruct (decide (k = k')) as [->|Hne].
  - rewrite String.eqb_refl. rewrite (proj2 (dict_get_None k' d) Hk). apply app_nil_r.
  - by rewrite (proj2 (String.eqb_neq k' k)).
Qed.

Lemma has_auth_annotation_exists st source cls : _has_auth_annotation st source cls = exists_ cls st source.
Proof.
  unfold _has_auth_annotation, _metadata_items, _is_auth_annotation_type, exists_, dict_has.
  induction (get_metadata st source) as [|[k l] d IH]; simpl; [done|]. rewrite IH. destruct (decide (cls = k)) as [->|Hne].
  - by rewrite String.eqb_refl.
  - by rewrite (proj2 (String.eqb_neq k cls)).
Qed.

Lemma auth_requirements_project st source :
  NoDup (get_metadata st source).*1 →
  _auth_requirements_from_source st source = map task_requirement (source_requirements st source).
Proof.
  intros Hnd. unfold _auth_requirements_from_source, _metadata_items, _is_auth_annotation_type, source_requirements, all.
  rewrite bind_items by done. destruct (dict_get _ _) as [l|]; [|done]. cbn. change (id l) with l. induction l as [|a l IH]; cbn; [done|].
  unfold _task_auth_requirement_from_annotation at 1. rewrite IH. by destruct (ann_payload a).
Qed.

(** The metadata a task carries are those [get_effective_auth_metadata] gives its
    method, whenever that does not refuse them as conflicting. *)
Theorem task_metadata_agree st f owner md :
  NoDup (get_metadata st owner).*1 → NoDup (get_metadata st f).*1 →
  get_effective_auth_metadata st (BCallable f (Some (SelfInstance owner))) (Some owner) = Ok md →
  collect_task_auth_metadata st f (Some owner) = mk_task_auth (public_access md) (map task_requirement (requirements md)) ∧
  task_protected (collect_task_auth_metadata st f (Some owner)) = protected md.
Proof.
  intros Ho Hf Hmd. apply and_comm. unfold get_effective_auth_metadata in Hmd. destruct (_ && _); [done|].
  injection Hmd as <-. cbn [public_access requirements].
  assert (collect_task_auth_metadata st f (Some owner) =
    mk_task_auth (existsb (exists_ PublicAccess_class st) [owner; f])
      (map task_requirement (_dedupe_requirements ([owner; f] ≫= source_requirements st)))) as ->.
  { unfold collect_task_auth_metadata, _dedupe_requirements. rewrite <-dedup_map by apply _. cbn.
    by rewrite !has_auth_annotation_exists, !auth_requirements_project, !app_nil_r, map_app by done. }
  split; [|done]. unfold task_protected, protected. cbn [task_requirements requirements]. by rewrite length_map.
Qed.

(** ** Pods with tasks *)

Record task_method := mk_task_method {
  task_name : string;
  task_function : py_object;
  has_task : bool;
  schedule_route : option ScheduleRoute;
  task_is_coroutine : bool;
}.

(** [TaskRegistrationPostProcessor]: the bound methods it has collected, each a pod and
    a function, and the metadata of their routes. A route is an annotation of the
    function, so the pods that inherit a method share it. *)
Record TaskRegistrationPostProcessor := mk_task_registration {
  route_metadata : gmap py_object TaskAuthMetadata;
  _task_routes : list (py_object * py_object);
}.
Definition register_task_route (st : auth_store) (pod pod_type : py_object) (p : TaskRegistrationPostProcessor) (m : task_method)
    : TaskRegistrationPostProcessor :=
  if has_task m then
    mk_task_registration
      (<[task_function m := collect_task_auth_metadata st (task_function m) (Some pod_type)]> (route_metadata p))
      (if decide ((pod, task_function m) ∈ _task_routes p) then _task_routes p else _task_routes p ++ [(pod, task_function m)])
  else p.
Definition task_registration_post_process (is_task_handler : bool) (st : auth_store) (pod pod_type : py_object)
    (methods : list task_method) (p : TaskRegistrationPostProcessor) : TaskRegistrationPostProcessor :=
  if is_task_handler then foldl (register_task_route st pod pod_type) p methods else p.
Definition get_task_routes (p : TaskRegistrationPostProcessor) : list ((py_object * py_object) * option TaskAuthMetadata) :=
  map (λ k, (k, route_metadata p !! k.2)) (_task_routes p).

(** What the routes say of a method is what was collected for the type processed last,
    for every pod that has the method. *)
Lemma last_type_processed_wins st pod pod_type m p k :
  has_task m = true → (k, task_function m) ∈ _task_routes (task_registration_post_process true st pod pod_type [m] p) →
  ((k, task_function m), Some (collect_task_auth_metadata st (task_function m) (Some pod_type)))
    ∈ get_task_routes (task_registration_post_process true st pod pod_type [m] p).
Proof.
  intros Hm Hk. cbn in Hk. unfold get_task_routes. cbn -[collect_task_auth_metadata].
  unfold register_task_route in *. rewrite Hm in *. cbn [_task_routes route_metadata] in *.
  apply list_elem_of_fmap. exists (k, task_function m). split; [|done]. cbn. by rewrite lookup_insert_eq.
Qed.

Section tasks.
Context {E R W : Type} `{Entropy R} `{!ITracePropagator R} (has_propagator : bool).
(** Arguments, results and handler instances of user code *)
Context {A V K : Type}.

Abbreviation user_code := (comp (visible R W) (consumer_error E)).

(** *** Direct execution *)

Inductive direct_error :=
  | TaskApplicationContextNotFoundError | TaskAsyncInvocationRequiredError | TaskNotFoundError.

(** A callable method of an instance: its name, whether it is a coroutine function,
    and the call (awaited, when it is) *)
Record callable_method := mk_callable { callable_name : string; callable_async : bool; call : A → user_code V }.

Fixpoint find_method (name : string) (l : list callable_method) : option callable_method :=
  match l with
  | [] => None
  | m :: l' => if String.eqb (callable_name m) name then Some m else find_method name l'
  end.

Section direct.
Context (direct_failure : direct_error → consumer_error E).
(** [application_context.get] followed by [get_callable_methods] *)
Context (application_context : option (py_object → user_code (list callable_method))).

Definition _resolve_method (handler_type : py_object) (name : string) : user_code callable_method :=
  match application_context with
  | None => raise (direct_failure TaskApplicationContextNotFoundError)
  | Some get_methods =>
      methods <- get_methods handler_type ;;
      match find_method name methods with
      | Some m => ret m
      | None => raise (direct_failure TaskNotFoundError)
      end
  end.
Definition direct_execute (handler_type : py_object) (name : string) (args : A) : user_code V :=
  m <- _resolve_method handler_type name ;;
  if callable_async m then raise (direct_failure TaskAsyncInvocationRequiredError) else call m args.
Definition direct_execute_async (handler_type : py_object) (name : string) (args : A) : user_code V :=
  m <- _resolve_method handler_type name ;; call m args.
End direct.

(** *** Dispatch *)

Definition CELERY_TASK_CONTEXT_KEY : string := "__celery_task__".
Definition CELERY_AUTH_BOUNDARY : string := "task".

Definition set_context_value (k : string) (v : context_value) : user_code unit :=
  modify (λ s, with_context (dict_set k v (context s)) s).

Context (auth_snapshot_signer : option (AuthContext → outcome E string)) (propagation_enabled : bool).

Definition inject_auth_context_snapshot (h : headers) : user_code headers :=
  if negb propagation_enabled then ret h else
  value <- gets (λ s, dict_get AUTH_CONTEXT_CONTEXT_KEY (context s)) ;;
  match value with
  | None => ret h
  | Some VOther => raise (AuthError InvalidAuthContextValueError)
  | Some (VAuthContext c) =>
      match auth_snapshot_signer with
      | None => raise (AuthError (OtherError "AuthSnapshotPropagationSignerUnavailableError"))
      | Some sign =>
          snapshot <- lift (map_error UserError (sign c)) ;;
          ret (dict_set AUTH_CONTEXT_SNAPSHOT_METADATA_KEY snapshot h)
      end
  end.

Definition inject_trace_headers (h : headers) : user_code headers :=
  if has_propagator then on_trace (port_inject h) else ret h.

(** What a call through the aspect gives: the value of the method, or the handle of
    the message that was sent *)
Inductive task_call := Returned (v : V) | Dispatched (task_id : string).

(** [CeleryTaskDispatchAspect.around]; a value under the key is truthy, since the
    worker puts [True] there. *)
Definition dispatch_around (send_task : string → A → headers → user_code string) (name : string)
    (joinpoint : A → user_code V) (args : A) : user_code task_call :=
  in_worker <- gets (λ s, dict_has CELERY_TASK_CONTEXT_KEY (context s)) ;;
  if in_worker then v <- joinpoint args ;; ret (Returned v)
  else
    task_headers <- inject_trace_headers [] ;;
    task_headers <- inject_auth_context_snapshot task_headers ;;
    async_result <- send_task name args task_headers ;;
    ret (Dispatched async_result).

(** *** The worker *)

Context (ports : auth_ports) (snapshot_verifier : option verifier).

Definition celery_unavailable : AuthorizationDecision :=
  decision_error INTERNAL_ERROR (Some "Celery task auth provider is unavailable").

Definition celery_verify_snapshot (envelope : option string) (inv : AuthInvocation) : outcome auth_error AuthContext :=
  match envelope with
  | None | Some "" => Raise (AuthRequirementDeniedError MISSING_SNAPSHOT_DECISION)
  | Some e =>
      match snapshot_verifier with
      | None => Raise (AuthRequirementDeniedError VERIFICATION_PROVIDER_UNAVAILABLE_DECISION)
      | Some verify =>
          match verify e inv with
          | Ok c => Ok c
          | Raise MissingAuthContextSnapshotError => Raise (AuthRequirementDeniedError MISSING_SNAPSHOT_DECISION)
          | Raise InvalidAuthContextSnapshotError => Raise (AuthRequirementDeniedError INVALID_SNAPSHOT_DECISION)
          | Raise ExpiredAuthContextSnapshotError => Raise (AuthRequirementDeniedError EXPIRED_SNAPSHOT_DECISION)
          | Raise AuthVerificationProviderUnavailableError =>
              Raise (AuthRequirementDeniedError VERIFICATION_PROVIDER_UNAVAILABLE_DECISION)
          | Raise other => Raise other
          end
      end
  end.

Definition celery_evaluate_requirement (r : TaskAuthRequirementMetadata) (c : AuthContext) : verdict :=
  if String.eqb (task_kind r) "AUTHENTICATED" then Ok decision_allow
  else if String.eqb (task_kind r) "PERMISSION" then
    match permission_checker ports with
    | None => Ok celery_unavailable
    | Some check_permission => check_permission (mk_permission_request c (task_ref r) (task_resource r) (task_tenant r))
    end
  else if String.eqb (task_kind r) "POLICY" then
    match authorization_policy_evaluator ports, task_resource r, task_action r with
    | Some evaluate_policy, Some res, Some act => evaluate_policy (mk_authorization_request c res act (task_tenant r))
    | _, _, _ => Ok celery_unavailable
    end
  else if String.eqb (task_kind r) "RELATION" then
    match relation_checker ports, task_resource r with
    | Some check_relation, Some res => check_relation (mk_relation_request c (task_ref r) res (task_tenant r))
    | _, _ => Ok celery_unavailable
    end
  else if String.eqb (task_kind r) "ROLE" then
    match role_checker ports with
    | None => Ok celery_unavailable
    | Some check_role => check_role (mk_role_request c (task_ref r) (task_tenant r))
    end
  else if String.eqb (task_kind r) "SCOPE" then
    match scope_checker ports with
    | None => Ok celery_unavailable
    | Some check_scope => check_scope (mk_scope_request c (task_ref r))
    end
  else Ok celery_unavailable.

Fixpoint celery_enforce (c : AuthContext) (rs : list TaskAuthRequirementMetadata) : outcome auth_error unit :=
  match rs with
  | [] => Ok tt
  | r :: rs' =>
      decision ← celery_evaluate_requirement r c;
      if decide (state decision = ALLOW) then celery_enforce c rs'
      else Raise (AuthRequirementDeniedError decision)
  end.

Definition seed_and_authorize_celery_task (name : string) (h : headers) (md : TaskAuthMetadata) : user_code unit :=
  if negb (task_protected md) then ret tt else
  let envelope := dict_get AUTH_CONTEXT_SNAPSHOT_METADATA_KEY h in
  let invocation := mk_auth_invocation CELERY_AUTH_BOUNDARY name [("auth_context_snapshot", envelope)] in
  auth_context <- lift (map_error AuthError (celery_verify_snapshot envelope invocation)) ;;
  store_auth_context auth_context ;;;
  lift (map_error AuthError (celery_enforce auth_context (task_requirements md))).

Definition is_retryable_auth_failure (decision : option AuthorizationDecision) : bool :=
  match decision with Some d => bool_decide (state d = ERROR) | None => false end.

(** [current_task.retry(exc=error)]: it raises [Retry], or the error again *)
Context (current_task_retry : consumer_error E → user_code unit).

Definition string_headers (raw : list (string * header_value)) : headers :=
  omap (λ kv, match kv.2 with HStr s => Some (kv.1, s) | _ => None end) raw.

Definition _seed_and_authorize_task (st : auth_store) (handler_type : py_object) (m : task_method)
    (raw_headers : list (string * header_value)) : user_code unit :=
  if negb (has_task m) then ret tt else
  let md := collect_task_auth_metadata st (task_function m) (Some handler_type) in
  try_except (seed_and_authorize_celery_task (task_name m) (string_headers raw_headers) md)
    (λ e, match denial e with
          | Some decision =>
              if is_retryable_auth_failure decision then Some (current_task_retry e ;;; raise e) else Some (raise e)
          | None => None
          end).

(** [application_context.get(handler_type)] and the call of the function of the class
    on the instance *)
Context (get_handler : py_object → user_code K) (call_function : K → py_object → A → user_code V).

Definition run_task_handler (handler_type : py_object) (m : task_method) (args : A) : user_code V :=
  handler_instance <- get_handler handler_type ;;
  call_function handler_instance (task_function m) args.

(** The endpoint; that of a coroutine function runs the same statements in a loop. *)
Definition celery_endpoint (st : auth_store) (handler_type : py_object) (m : task_method)
    (raw_headers : list (string * header_value)) (args : A) : user_code V :=
  clear_context ;;;
  set_context_value CELERY_TASK_CONTEXT_KEY VOther ;;;
  _seed_and_authorize_task st handler_type m raw_headers ;;;
  begin_trace has_propagator (string_headers raw_headers) ;;;
  try_finally (run_task_handler handler_type m args) (end_trace has_propagator).

(** *** Registration *)

(** The registrations asked of [celery.task], in order, and the beat schedule *)
Record celery_app := mk_celery_app {
  registered_tasks : list (string * (list (string * header_value) → A → user_code V));
  beat_schedule : list (string * celery_schedule);
}.

Definition celery_post_process (st : auth_store) (pod_type : py_object) (methods : list task_method)
    : comp celery_app task_error unit :=
  for_each (λ m,
    if negb (has_task m) && bool_decide (schedule_route m = None) then ret tt
    else
      modify (λ app, mk_celery_app
        (registered_tasks app ++ [(task_name m, celery_endpoint st pod_type m)]) (beat_schedule app)) ;;;
      match schedule_route m with
      | Some r =>
          sched <- lift (_to_celery_schedule r) ;;
          modify (λ app, mk_celery_app (registered_tasks app) (dict_set (task_name m) sched (beat_schedule app)))
      | None => ret tt
      end) methods.

(** *** The worker: lemmas *)

(** The application context of a handler in the worker *)
Definition worker_context (who : option AuthContext) : list (string * context_value) :=
  (CELERY_TASK_CONTEXT_KEY, VOther) :: match who with Some c => authenticated c | None => [] end.

Definition snapshot_invocation (name : string) (h : headers) : AuthInvocation :=
  mk_auth_invocation CELERY_AUTH_BOUNDARY name
    [("auth_context_snapshot", dict_get AUTH_CONTEXT_SNAPSHOT_METADATA_KEY h)].

(** Whom a message may act as: nobody, when the task is not protected; otherwise the
    one of a snapshot that verifies for this task, if every requirement allows it *)
Definition task_admits (name : string) (md : TaskAuthMetadata) (h : headers) (who : option AuthContext) : Prop :=
  match who with
  | None => task_protected md = false
  | Some c =>
      task_protected md = true ∧
      (∃ verify envelope, snapshot_verifier = Some verify ∧ envelope ≠ "" ∧
         dict_get AUTH_CONTEXT_SNAPSHOT_METADATA_KEY h = Some envelope ∧
         verify envelope (snapshot_invocation name h) = Ok c) ∧
      ∀ r, r ∈ task_requirements md → ∃ d, celery_evaluate_requirement r c = Ok d ∧ state d = ALLOW
  end.

Lemma celery_verify_Ok name h c :
  celery_verify_snapshot (dict_get AUTH_CONTEXT_SNAPSHOT_METADATA_KEY h) (snapshot_invocation name h) = Ok c ↔
  ∃ verify envelope, snapshot_verifier = Some verify ∧ envelope ≠ "" ∧
    dict_get AUTH_CONTEXT_SNAPSHOT_METADATA_KEY h = Some envelope ∧
    verify envelope (snapshot_invocation name h) = Ok c.
Proof.
  unfold celery_verify_snapshot, snapshot_invocation.
  destruct (dict_get _ h) as [[|a envelope]|].
  - split; [done|]. intros (? & ? & _ & Hne & [= <-] & _). done.
  - destruct snapshot_verifier as [verify|].
    2:{ split; [done|]. by intros (? & ? & ? & _). }
    transitivity (verify (String a envelope) (mk_auth_invocation CELERY_AUTH_BOUNDARY name
      [("auth_context_snapshot", Some (String a envelope))]) = Ok c).
    { destruct (verify _ _) as [c'|[]]; split; congruence. }
    split; [intros Hc; by exists verify, (String a envelope)|]. by intros (? & ? & [= <-] & _ & [= <-] & Hc).
  - split; [done|]. by intros (? & ? & _ & _ & ? & _).
Qed.

Lemma celery_enforce_Ok c rs :
  celery_enforce c rs = Ok tt ↔ ∀ r, r ∈ rs → ∃ d, celery_evaluate_requirement r c = Ok d ∧ state d = ALLOW.
Proof.
  induction rs as [|r rs IH]; cbn [celery_enforce].
  { split; [|done]. intros _ r Hr. by apply not_elem_of_nil in Hr. }
  setoid_rewrite elem_of_cons. destruct (celery_evaluate_requirement r c) as [d|e] eqn:Hr; cbn.
  - case_decide as Hd; [rewrite IH; naive_solver|]. split; [done|]. intros Hall.
    destruct (Hall r (or_introl eq_refl)) as (d' & Hd' & ?). congruence.
  - split; [done|]. intros Hall. destruct (Hall r (or_introl eq_refl)) as (d' & Hd' & ?). congruence.
Qed.

(** The checks admit someone, or raise; they touch the application context only. *)
Lemma seed_cases name md h v :
  context v = worker_context None →
  (∃ who, task_admits name md h who ∧
     seed_and_authorize_celery_task name h md v = (Ok tt, with_context (worker_context who) v)) ∨
  ((∀ who, ¬ task_admits name md h who) ∧
   ∃ e ctx, seed_and_authorize_celery_task name h md v = (Raise e, with_context ctx v)).
Proof.
  intros Hctx. unfold seed_and_authorize_celery_task.
  assert (v = with_context (worker_context None) v) as Hv by (destruct v; cbn in Hctx; by subst).
  destruct (task_protected md) eqn:Hp; cbn [negb].
  2:{ left. exists None. split; [done|]. by rewrite <-Hv. }
  fold (snapshot_invocation name h). unfold bind, lift.
  destruct (celery_verify_snapshot _ _) as [c|e] eqn:Hver; cbn [map_error].
  2:{ right. split; [|exists (AuthError e), (worker_context None); by rewrite <-Hv].
      intros [c|]; unfold task_admits; [|congruence]. intros (_ & Hc & _). apply celery_verify_Ok in Hc.
      congruence. }
  rewrite Hv. cbn -[celery_enforce].
  destruct (celery_enforce c (task_requirements md)) as [[]|e] eqn:Henf; cbn [map_error].
  - left. exists (Some c). split; [|done]. split; [done|]. by rewrite <-celery_verify_Ok, <-celery_enforce_Ok.
  - right. split; [|by eexists _, _]. intros [c'|]; unfold task_admits; [|congruence].
    rewrite <-celery_verify_Ok, <-celery_enforce_Ok. intros (_ & Hc & He). congruence.
Qed.

(** The handler, traced, in the application context [ctx] *)
Definition worker_run (handler_type : py_object) (m : task_method) (args : A) (h : headers)
    (ctx : list (string * context_value)) : user_code V := λ v,
  (begin_trace has_propagator h ;;; try_finally (run_task_handler handler_type m args) (end_trace has_propagator))
    (with_context ctx v).

(** The endpoint of a task: the checks, and the handler in the context they leave *)
Lemma endpoint_seeds st handler_type m raw args v :
  has_task m = true →
  celery_endpoint st handler_type m raw args v =
    match seed_and_authorize_celery_task (task_name m) (string_headers raw)
      (collect_task_auth_metadata st (task_function m) (Some handler_type)) (with_context (worker_context None) v) with
    | (Ok _, v') => worker_run handler_type m args (string_headers raw) (context v') v'
    | (Raise e, v') =>
        (if match denial e with Some d => is_retryable_auth_failure d | None => false end
         then current_task_retry e ;;; raise e else raise e) v'
    end.
Proof.
  intros Ht. unfold celery_endpoint, _seed_and_authorize_task, worker_run. rewrite Ht. cbn [negb].
  unfold clear_context, set_context_value, modify, bind at 1 2, try_except.
  cbn -[seed_and_authorize_celery_task begin_trace dict_set]. unfold bind at 1.
  change (with_context (dict_set CELERY_TASK_CONTEXT_KEY VOther []) (with_context [] v))
    with (with_context (worker_context None) v).
  destruct (seed_and_authorize_celery_task _ _ _ _) as [[[]|e] v']; [by destruct v'|].
  destruct (denial e) as [d|]; [|done]. destruct (is_retryable_auth_failure d); [|done].
  unfold bind, raise. by destruct (current_task_retry e _) as [[[]|?] ?].
Qed.

(** What a worker does with the message of a task: the handler runs, in an application
    context that holds the mark of the worker and the identity the message proves and
    nothing else, if that identity is admitted by every requirement of the task;
    otherwise the message fails without the handler, after a retry when the decision
    was an error. *)
Theorem worker_runs_admitted st handler_type m raw args v :
  has_task m = true →
  let md := collect_task_auth_metadata st (task_function m) (Some handler_type) in
  let h := string_headers raw in
  (∃ who, task_admits (task_name m) md h who ∧
     celery_endpoint st handler_type m raw args v = worker_run handler_type m args h (worker_context who) v) ∨
  ((∀ who, ¬ task_admits (task_name m) md h who) ∧
   ∃ e ctx, celery_endpoint st handler_type m raw args v =
     (if match denial e with Some d => is_retryable_auth_failure d | None => false end
      then current_task_retry e ;;; raise e else raise e) (with_context ctx v)).
Proof.
  intros Ht md h. rewrite endpoint_seeds by done. fold md h.
  destruct (seed_cases (task_name m) md h (with_context (worker_context None) v) eq_refl)
    as [(who & Ha & ->)|(Hno & e & ctx & ->)]; [left|right]; eauto.
Qed.

(** A method with a schedule and no task is registered with the same endpoint and
    run for whoever sends the message, whatever its authorization metadata say. *)
Theorem scheduled_method_runs_unchecked st handler_type m raw args v :
  has_task m = false →
  celery_endpoint st handler_type m raw args v =
  worker_run handler_type m args (string_headers raw) (worker_context None) v.
Proof. intros Ht. unfold celery_endpoint, _seed_and_authorize_task. by rewrite Ht. Qed.

(** A call through the aspect runs the method in the worker only; everywhere else it
    sends one message, or fails before sending. *)
Theorem dispatch_runs_in_the_worker_only send_task name jp args v :
  dispatch_around send_task name jp args v =
  if dict_has CELERY_TASK_CONTEXT_KEY (context v) then (r <- jp args ;; ret (Returned r)) v
  else (h <- (h <- inject_trace_headers [] ;; inject_auth_context_snapshot h) ;;
        r <- send_task name args h ;; ret (Dispatched r)) v.
Proof.
  unfold dispatch_around, gets, bind at 1. cbn. destruct (dict_has _ _); [done|].
  unfold bind. by destruct (inject_trace_headers [] v) as [[h|] ?].
Qed.
End tasks.

(** ** From a caller to a handler *)

Section identity.
Context {E R W : Type} {T : Type} `{DateTime T} `{FloatText} `{Entropy R} `{!ITracePropagator R} (has_propagator : bool).
Context (digest : HMACType → bytes → bytes → bytes) (config : CryptographyAuthProviderConfig).
Context {A V K : Type} (ports : auth_ports) (current_task_retry : consumer_error E → comp (visible R W) (consumer_error E) unit).
Context (get_handler : py_object → comp (visible R W) (consumer_error E) K)
  (call_function : K → py_object → A → comp (visible R W) (consumer_error E) V).

(** Identity crosses the task queue: the headers a caller acting as [c] dispatches make
    a worker that shares the key act as [c], if the requirements of the task allow it,
    until the snapshot expires; afterwards the message is refused as expired, without
    a retry. *)
Theorem identity_reaches_task_handler c now now' h0 h (v v' w : visible R W) st handler_type m raw args :
  verification_available config = true → signable c →
  dict_get AUTH_CONTEXT_CONTEXT_KEY (context v) = Some (VAuthContext c) →
  inject_auth_context_snapshot (E := E) (Some (signer_at digest config now)) true h0 v = (Ok h, v') →
  string_headers raw = h → has_task m = true →
  let md := collect_task_auth_metadata st (task_function m) (Some handler_type) in
  task_protected md = true →
  let endpoint := celery_endpoint has_propagator ports (Some (verifier_at digest config now')) current_task_retry
    get_handler call_function st handler_type m raw args w in
  (expired config now now' = false →
   (∀ r, r ∈ task_requirements md →
      ∃ d, celery_evaluate_requirement ports r (verified c (tenant c)) = Ok d ∧ state d = ALLOW) →
   endpoint = worker_run has_propagator get_handler call_function handler_type m args h
     (worker_context (Some (verified c (tenant c)))) w) ∧
  (expired config now now' = true →
   endpoint = (Raise (AuthError (AuthRequirementDeniedError EXPIRED_SNAPSHOT_DECISION)),
               with_context (worker_context None) w)).
Proof.
  intros Hav Hc Hctx Hinj Hraw Ht md Hp endpoint. unfold endpoint. rewrite endpoint_seeds by done. fold md. rewrite Hraw.
  unfold inject_auth_context_snapshot, gets, bind in Hinj. cbn [negb] in Hinj. rewrite Hctx in Hinj.
  unfold lift, signer_at, ret in Hinj. cbn [map_error] in Hinj. injection Hinj as Hh _.
  assert (dict_get AUTH_CONTEXT_SNAPSHOT_METADATA_KEY h = Some (base64url_canonical_json
    (sign_snapshot digest config (mk_sign_request c None) now))) as Henv by (subst h; apply dict_get_set_eq).
  unfold seed_and_authorize_celery_task. rewrite Hp, Henv. cbn [negb]. unfold bind, lift, celery_verify_snapshot.
  destruct (base64url_canonical_json _) as [|a e] eqn:He; [by apply envelope_nonempty in He|]. rewrite <-He.
  unfold verifier_at. rewrite sign_verify by done. fold (expired config now now').
  destruct (expired config now now') eqn:Hexp; (split; [|try done]); [done|].
  intros _ Hall%celery_enforce_Ok. change (signed_tenant (mk_sign_request c None)) with (tenant c).
  change (request_context (mk_sign_request c None)) with c. cbn [map_error]. unfold store_auth_context, modify.
  by rewrite Hall.
Qed.
End identity.

(** ** Schedules, as the beat scheduler reads them

    A moment, in the terms of the program *)
Record moment := mk_moment {
  at_minute : Z;
  at_hour : Z;
  on_weekday : Weekday;
  on_day : Z;
  in_month : Month;
}.
Definition selects {A} (v : selection A) (a : A) : Prop :=
  match v with Every => True | One b => a = b | Several l => a ∈ l end.
Definition nonempty {A} (v : selection A) : Prop := v ≠ Several [].

Definition tomorrow (d : Weekday) : Weekday :=
  match d with
  | MONDAY => TUESDAY | TUESDAY => WEDNESDAY | WEDNESDAY => THURSDAY | THURSDAY => FRIDAY | FRIDAY => SATURDAY
  | SATURDAY => SUNDAY | SUNDAY => MONDAY
  end.

#[global] Instance weekday_value_inj : Inj (=) (=) weekday_value.
Proof. by intros [] []. Qed.
#[global] Instance month_value_inj : Inj (=) (=) month_value.
Proof. by intros [] []. Qed.

Section celery_schedules.
(** The documented reading of a field: a star is every value, a list of integers the
    values it lists; days of the week are counted from Sunday, which is 0. *)
Context (matches : string → Z → bool).
Hypothesis matches_star : ∀ n, matches "*" n = true.
Hypothesis matches_list : ∀ l n, l ≠ [] → matches (comma_joined (map int_text l)) n = bool_decide (n ∈ l).

Definition celery_day_of_week (d : Weekday) : Z := ((weekday_value d + 1) mod 7)%Z.
Definition due (s : celery_schedule) (t : moment) : Prop :=
  match s with
  | CelerySchedule _ => False
  | CeleryCrontab mi ho dw dm mo =>
      matches mi (at_minute t) = true ∧ matches ho (at_hour t) = true ∧
      matches dw (celery_day_of_week (on_weekday t)) = true ∧ matches dm (on_day t) = true ∧
      matches mo (month_value (in_month t)) = true
  end.

Lemma matches_int n m : matches (int_text n) m = true ↔ m = n.
Proof.
  pose proof (matches_list [n] m ltac:(done)) as H. cbn in H. rewrite H, bool_decide_eq_true. set_solver.
Qed.

Lemma matches_selection {A} (value_of : A → Z) v n :
  nonempty v → matches (_to_str value_of v) n = true ↔ v = Every ∨ ∃ a, selects v a ∧ n = value_of a.
Proof.
  intros Hne. destruct v as [|b|l]; cbn.
  - rewrite matches_star. split; [by left|done].
  - rewrite matches_int. naive_solver.
  - rewrite <-(map_map value_of int_text), matches_list.
    + rewrite bool_decide_eq_true. change (map value_of l) with (value_of <$> l). rewrite list_elem_of_fmap.
      naive_solver.
    + intros Hnil%map_eq_nil. by subst l.
Qed.

Lemma matches_selected {A} (value_of : A → Z) `{!Inj (=) (=) value_of} v a :
  nonempty v → matches (_to_str value_of v) (value_of a) = true ↔ selects v a.
Proof.
  intros Hne. rewrite matches_selection by done. split; [|by eauto].
  intros [->|(b & Hb & Heq)]; [done|]. by apply (inj value_of) in Heq as ->.
Qed.

Lemma celery_day_tomorrow d : celery_day_of_week d = weekday_value (tomorrow d).
Proof. by destruct d. Qed.

(** A crontab on chosen weekdays is due one day early: Celery counts the days of the
    week from Sunday, the enumeration of the program from Monday, and the values are
    passed as they are. The other fields mean what they say. *)
Theorem crontab_due_the_day_before c t :
  nonempty (month c) → nonempty (day c) → nonempty (weekday c) →
  due (_crontab_to_celery c) t ↔
  at_minute t = minute c ∧ at_hour t = hour c ∧ selects (weekday c) (tomorrow (on_weekday t)) ∧
  selects (day c) (on_day t) ∧ selects (month c) (in_month t).
Proof.
  intros Hm Hd Hw. unfold due, _crontab_to_celery.
  by rewrite !matches_int, celery_day_tomorrow, (matches_selected weekday_value), (matches_selected id _ (on_day t)),
    (matches_selected month_value) by done.
Qed.
End celery_schedules.

(** ** Witnesses *)

(** A reading of the fields that does what is documented *)
Definition ex_matches (text : string) (n : Z) : bool :=
  existsb (λ f, String.eqb f "*" || match py_int f with Ok m => (m =? n)%Z | Raise _ => false end) (split_on "," text).

Lemma int_text_no_comma z : no_char "," (int_text z).
Proof. eapply string_all_no_char; [|apply int_text_chars]. intros c [Hc|Hc] Heq; by rewrite Heq in Hc. Qed.

Lemma split_comma_joined l : l ≠ [] → split_on "," (comma_joined (map int_text l)) = map int_text l.
Proof.
  induction l as [|z [|z' l] IH]; intros Hl; [done| |].
  - apply split_on_none, int_text_no_comma.
  - change (comma_joined (map int_text (z :: z' :: l))) with (int_text z +:+ String "," (comma_joined (map int_text (z' :: l)))).
    rewrite split_on_cons by apply int_text_no_comma. by rewrite IH.
Qed.

Lemma ex_matches_list l n : l ≠ [] → ex_matches (comma_joined (map int_text l)) n = bool_decide (n ∈ l).
Proof.
  intros Hl. unfold ex_matches. rewrite split_comma_joined by done. clear Hl. induction l as [|z l IH]; cbn [map existsb]; [done|].
  rewrite IH, py_int_text. assert (String.eqb (int_text z) "*" = false) as ->.
  { apply String.eqb_neq. intros Heq. pose proof (py_int_text z) as Hz. by rewrite Heq in Hz. }
  cbn [orb]. apply eq_true_iff_eq. rewrite orb_true_iff, Z.eqb_eq, !bool_decide_eq_true, elem_of_cons. naive_solver.
Qed.

(** Chosen for Mondays at 9:30, run on Sundays *)
Definition ex_crontab : Crontab := mk_crontab Every Every (One MONDAY) 9 30.
Definition ex_sunday : moment := mk_moment 30 9 SUNDAY 4 JANUARY.
Lemma crontab_due_the_day_before_witness : due ex_matches (_crontab_to_celery ex_crontab) ex_sunday.
Proof.
  apply (crontab_due_the_day_before ex_matches (λ _, eq_refl) ex_matches_list); [done..|]. by split_and!.
Defined.

Definition ex_task : task_method := mk_task_method "shop.Billing.on_paid" "Billing.on_paid" true None false.
Definition ex_scheduled : task_method :=
  mk_task_method "shop.Billing.on_paid" "Billing.on_paid" false (Some (mk_schedule_route (Some 60%Z) None None)) false.
Definition ex_ports : auth_ports := mk_auth_ports None None None None None.
Definition ex_retry (_ : consumer_error string) : comp (visible N (list string)) (consumer_error string) unit := ret tt.
Definition ex_function (_ : unit) (f : py_object) (_ : unit) : comp (visible N (list string)) (consumer_error string) unit :=
  modify (λ v, mk_visible (context v) (trace v) (program v ++ [f])).

(** A signed message runs the handler; a forged one does not. *)
Lemma worker_runs_admitted_witness :
  celery_endpoint true ex_ports (Some ex_verifier) ex_retry ex_controller ex_function ex_store "Billing" ex_task
    [(AUTH_CONTEXT_SNAPSHOT_METADATA_KEY, HStr "signed")] tt ex_visible =
  worker_run true ex_controller ex_function "Billing" ex_task tt [(AUTH_CONTEXT_SNAPSHOT_METADATA_KEY, "signed")]
    (worker_context (Some ex_auth_context)) ex_visible.
Proof.
  destruct (worker_runs_admitted true ex_ports (Some ex_verifier) ex_retry ex_controller ex_function ex_store "Billing" ex_task
    [(AUTH_CONTEXT_SNAPSHOT_METADATA_KEY, HStr "signed")] tt ex_visible eq_refl) as [([c|] & Ha & ->)|[Hno _]].
  - destruct Ha as (_ & (verify & envelope & [= <-] & _ & [= <-] & [= <-]) & _). reflexivity.
  - discriminate Ha.
  - destruct (Hno (Some ex_auth_context)). split; [reflexivity|]. split.
    + exists ex_verifier, "signed". by split_and!.
    + intros r. vm_compute. intros Hr. inversion Hr as [|? ? ? Hr']; subst; [by eexists|]. inversion Hr'.
Defined.

Lemma scheduled_method_runs_unchecked_witness :
  program (celery_endpoint true ex_ports (Some ex_verifier) ex_retry ex_controller ex_function ex_store "Billing" ex_scheduled
    [] tt ex_visible).2 = ["Billing.on_paid"].
Proof. rewrite scheduled_method_runs_unchecked by reflexivity. reflexivity. Defined.

Lemma task_metadata_agree_witness :
  task_protected (collect_task_auth_metadata ex_store "Billing.on_paid" (Some "Billing")) = true.
Proof.
  destruct (task_metadata_agree ex_store "Billing.on_paid" "Billing" (mk_effective false [protected_requirement])) as [_ ->];
    [decide_compute|decide_compute|reflexivity|reflexivity].
Defined.

#[local] Existing Instance ex_datetime.
#[local] Existing Instance ex_floats.
Definition ex_caller : visible N (list string) := with_context (authenticated ex_context) ex_visible.
Definition ex_sent : headers :=
  [(AUTH_CONTEXT_SNAPSHOT_METADATA_KEY, base64url_canonical_json (sign_snapshot ex_digest ex_config (mk_sign_request ex_context None) 1000%Z))].

Lemma identity_reaches_task_handler_witness :
  celery_endpoint true ex_ports (Some (verifier_at ex_digest ex_config 1200%Z)) ex_retry ex_controller ex_function ex_store
    "Billing" ex_task (map (λ kv, (kv.1, HStr kv.2)) ex_sent) tt ex_visible =
  worker_run true ex_controller ex_function "Billing" ex_task tt ex_sent
    (worker_context (Some (verified ex_context (tenant ex_context)))) ex_visible.
Proof.
  apply (identity_reaches_task_handler (E := string) true ex_digest ex_config ex_ports ex_retry ex_controller ex_function
    ex_context 1000%Z 1200%Z [] ex_sent ex_caller ex_caller ex_visible);
    [reflexivity|exact ex_signable|reflexivity..|].
  intros r. vm_compute. intros Hr. inversion Hr as [|? ? ? Hr']; subst; [by eexists|]. inversion Hr'.
Defined.
