(* ===== verification/AuthStartup.v ===== *)
(** * Startup validation of authorization

    [core/spakky-auth/.../capability.py], [contribution.py] and [startup.py]: before the
    user's services start, every capability the scanned boundaries need must have
    exactly one provider. The pods, the contributions and the configurations are what
    the container of [Container.v] gives; the metadata are those of [Auth.v], whose
    aspect the last theorem is about. *)

From S2P Require Import Prelude Json Annotation Auth Actuator.

Inductive AuthCapability :=
  | AUTHENTICATION | POLICY_EVALUATION | PERMISSION_CHECK | ROLE_CHECK | SCOPE_CHECK | RELATION_CHECK
  | SNAPSHOT_SIGN | SNAPSHOT_VERIFY | PASSWORD_HASH | PASSWORD_VERIFY.

Definition capability_value (c : AuthCapability) : string :=
  match c with
  | AUTHENTICATION => "AUTHENTICATION" | POLICY_EVALUATION => "POLICY_EVALUATION"
  | PERMISSION_CHECK => "PERMISSION_CHECK" | ROLE_CHECK => "ROLE_CHECK" | SCOPE_CHECK => "SCOPE_CHECK"
  | RELATION_CHECK => "RELATION_CHECK" | SNAPSHOT_SIGN => "SNAPSHOT_SIGN" | SNAPSHOT_VERIFY => "SNAPSHOT_VERIFY"
  | PASSWORD_HASH => "PASSWORD_HASH" | PASSWORD_VERIFY => "PASSWORD_VERIFY"
  end.
Definition capability_of (s : string) : option AuthCapability :=
  List.find (λ c, String.eqb (capability_value c) s)
    [AUTHENTICATION; POLICY_EVALUATION; PERMISSION_CHECK; ROLE_CHECK; SCOPE_CHECK; RELATION_CHECK;
     SNAPSHOT_SIGN; SNAPSHOT_VERIFY; PASSWORD_HASH; PASSWORD_VERIFY].

#[global] Instance capability_eq_dec : EqDecision AuthCapability.
Proof. solve_decision. Defined.
#[global] Program Instance capability_countable : Countable AuthCapability :=
  inj_countable capability_value capability_of _.
Next Obligation. by intros []. Qed.

(** [AuthProviderContribution]: the capabilities are a frozen set *)
Record AuthProviderContribution := mk_contribution {
  provider_id : string;
  capabilities : gset AuthCapability;
}.
Definition supports (c : AuthCapability) (p : AuthProviderContribution) : bool := bool_decide (c ∈ capabilities p).

Record AuthStartupCapabilityDiagnostic := mk_capability_diagnostic {
  capability : AuthCapability;
  provider_count : nat;
  provider_ids : list string;
  required_by : list string;
}.

Definition AUTH_STARTUP_VALIDATION_ERROR_DETAIL_KEY : string := "auth.capability.validation.error".
Definition join_commas (l : list string) : string := String.concat "," l.
(** [as_startup_diagnostic_detail] *)
Definition as_startup_diagnostic_detail (d : AuthStartupCapabilityDiagnostic) : string * string :=
  (AUTH_STARTUP_VALIDATION_ERROR_DETAIL_KEY,
   "capability=" +:+ capability_value (capability d) +:+ ";" +:+
   "provider_count=" +:+ int_text (Z.of_nat (provider_count d)) +:+ ";" +:+
   "providers=" +:+ join_commas (provider_ids d) +:+ ";" +:+
   "required_by=" +:+ join_commas (required_by d)).

Inductive auth_startup_error :=
  | AuthStartupCapabilityValidationError (diagnostics : list AuthStartupCapabilityDiagnostic)
  | AuthStartupContainerUnavailableError
  | MetadataError (e : auth_error).
Definition startup_diagnostic_details (e : auth_startup_error) : list (string * string) :=
  match e with
  | AuthStartupCapabilityValidationError ds => map as_startup_diagnostic_detail ds
  | _ => []
  end.

(** What the validator reads of a pod: its target, the full name of it and, when it
    is a class, its callable members *)
Record scanned_pod := mk_scanned {
  scanned_target : boundary;
  _source_name : string;
  scanned_members : list (string * boundary);
}.
(** The class a target is, if it is one *)
Definition target_class (b : boundary) : option py_object := match b with BClass c => Some c | _ => None end.

Section startup.
Context (st : auth_store) (callable_members : py_object → list py_object).

Definition has_metadata (b : boundary) : bool := has_auth_boundary_metadata st callable_members b.

Definition member_sources (p : scanned_pod) (owner : py_object) : outcome auth_error (list (EffectiveAuthMetadata * string)) :=
  mapM (λ m, md ← get_effective_auth_metadata st m.2 (Some owner); Ok (md, _source_name p +:+ "." +:+ m.1))
    (List.filter (λ m, has_metadata m.2) (scanned_members p)).

Definition _protected_metadata_sources (p : scanned_pod) : outcome auth_error (list (EffectiveAuthMetadata * string)) :=
  own ← (if has_metadata (scanned_target p)
         then md ← get_effective_auth_metadata st (scanned_target p) None; Ok [(md, _source_name p)]
         else Ok []);
  members ← match target_class (scanned_target p) with
            | Some owner => member_sources p owner
            | None => Ok []
            end;
  Ok (own ++ members).

Abbreviation required := (gmap AuthCapability (gset string)).

Definition _record_required_capability (c : AuthCapability) (source : string) (r : required) : required :=
  <[c := default ∅ (r !! c) ∪ {[source]}]> r.

Definition requirement_capability (k : AuthRequirementKind) : option AuthCapability :=
  match k with
  | AUTHENTICATED => None
  | PERMISSION => Some PERMISSION_CHECK
  | POLICY => Some POLICY_EVALUATION
  | RELATION => Some RELATION_CHECK
  | ROLE => Some ROLE_CHECK
  | SCOPE => Some SCOPE_CHECK
  end.
Definition _record_protected_requirement_capabilities (md : EffectiveAuthMetadata) (source : string) (r : required) : required :=
  foldl (λ r q, match requirement_capability (kind q) with
                | Some c => _record_required_capability c source r
                | None => r
                end) r (requirements md).
Definition record_source (r : required) (ms : EffectiveAuthMetadata * string) : required :=
  if protected ms.1 then
    _record_protected_requirement_capabilities ms.1 ms.2 (_record_required_capability AUTHENTICATION ms.2 r)
  else r.

(** One source per configuration that is enabled *)
Definition _enabled_snapshot_propagation_sources (configs : list bool) : list string :=
  map (λ _, "AuthSnapshotPropagationConfig.enabled") (List.filter id configs).

Fixpoint record_pods (pods : list scanned_pod) (r : required) : outcome auth_error required :=
  match pods with
  | [] => Ok r
  | p :: pods' => sources ← _protected_metadata_sources p; record_pods pods' (foldl record_source r sources)
  end.
Definition record_configs (configs : list bool) (r : required) : required :=
  foldl (λ r source, _record_required_capability SNAPSHOT_VERIFY source (_record_required_capability SNAPSHOT_SIGN source r))
    r (_enabled_snapshot_propagation_sources configs).
Definition _required_capabilities (pods : list scanned_pod) (configs : list bool) : outcome auth_error required :=
  record_configs configs <$> record_pods pods ∅.

Definition capability_le (a b : AuthCapability) : bool := str_leb (capability_value a) (capability_value b).

Definition providers_of (contributions : list AuthProviderContribution) (c : AuthCapability) : list string :=
  sort_by str_leb (map provider_id (List.filter (supports c) contributions)).

Definition capability_diagnostic (contributions : list AuthProviderContribution) (r : required) (c : AuthCapability)
    : option AuthStartupCapabilityDiagnostic :=
  let ids := providers_of contributions c in
  if (length ids =? 1)%nat then None
  else Some (mk_capability_diagnostic c (length ids) ids (sort_by str_leb (elements (default ∅ (r !! c))))).

Definition _invalid_capability_diagnostics (pods : list scanned_pod) (configs : list bool)
    (contributions : list AuthProviderContribution) : outcome auth_error (list AuthStartupCapabilityDiagnostic) :=
  r ← _required_capabilities pods configs;
  Ok (omap (capability_diagnostic contributions r) (sort_by capability_le (elements (dom r)))).

Definition validate (pods : list scanned_pod) (configs : list bool) (contributions : list AuthProviderContribution)
    : outcome auth_startup_error unit :=
  diagnostics ← map_error MetadataError (_invalid_capability_diagnostics pods configs contributions);
  if (0 <? length diagnostics)%nat then Raise (AuthStartupCapabilityValidationError diagnostics) else Ok tt.

(** [AuthCapabilityStartupValidationService]: its validator, once the container is set,
    and the stop event *)
Record validation_service := mk_validation_service {
  _validator : option (unit → outcome auth_startup_error unit);
  _stop_event : option bool;
}.
Definition set_container (v : unit → outcome auth_startup_error unit) (s : validation_service) : validation_service :=
  mk_validation_service (Some v) (_stop_event s).
Definition set_stop_event (e : bool) (s : validation_service) : validation_service :=
  mk_validation_service (_validator s) (Some e).
Definition service_start (s : validation_service) : outcome auth_startup_error unit :=
  match _validator s with None => Raise AuthStartupContainerUnavailableError | Some v => v tt end.
Definition service_stop (s : validation_service) : validation_service :=
  match _stop_event s with None => s | Some _ => mk_validation_service (_validator s) (Some true) end.

(** ** What the boundaries demand *)

Definition demands (md : EffectiveAuthMetadata) (k : AuthCapability) : Prop :=
  protected md = true ∧
  (k = AUTHENTICATION ∨ ∃ q, q ∈ requirements md ∧ requirement_capability (kind q) = Some k).

(** Some boundary named [source] demands [k], or a configuration does. *)
Definition demanded (pods : list scanned_pod) (configs : list bool) (k : AuthCapability) (source : string) : Prop :=
  (∃ p sources md, p ∈ pods ∧ _protected_metadata_sources p = Ok sources ∧ (md, source) ∈ sources ∧ demands md k) ∨
  (true ∈ configs ∧ source = "AuthSnapshotPropagationConfig.enabled" ∧ (k = SNAPSHOT_SIGN ∨ k = SNAPSHOT_VERIFY)).

(** The sources recorded for a capability; no capability is recorded without one. *)
Definition recorded (r : required) (k : AuthCapability) (source : string) : Prop := source ∈ default ∅ (r !! k).
Definition required_ok (r : required) : Prop := ∀ k, k ∈ dom r ↔ ∃ source, recorded r k source.

Lemma recorded_record c s r k s' :
  recorded (_record_required_capability c s r) k s' ↔ recorded r k s' ∨ (k = c ∧ s' = s).
Proof.
  unfold recorded, _record_required_capability. destruct (decide (k = c)) as [->|Hne].
  - rewrite lookup_insert_eq. cbn. set_solver.
  - rewrite lookup_insert_ne by done. set_solver.
Qed.

Lemma required_ok_record c s r : required_ok r → required_ok (_record_required_capability c s r).
Proof.
  intros Hr k. setoid_rewrite recorded_record. unfold _record_required_capability. rewrite dom_insert, elem_of_union, elem_of_singleton, (Hr k).
  naive_solver.
Qed.

Lemma recorded_requirements md s r k s' :
  recorded (_record_protected_requirement_capabilities md s r) k s' ↔
  recorded r k s' ∨ (s' = s ∧ ∃ q, q ∈ requirements md ∧ requirement_capability (kind q) = Some k).
Proof.
  unfold _record_protected_requirement_capabilities. revert r. induction (requirements md) as [|q l IH]; intros r; cbn [foldl].
  { setoid_rewrite elem_of_nil. naive_solver. }
  rewrite IH. setoid_rewrite elem_of_cons. destruct (requirement_capability (kind q)) as [c|] eqn:Hc;
    [rewrite recorded_record|]; naive_solver.
Qed.

Lemma required_ok_requirements md s r : required_ok r → required_ok (_record_protected_requirement_capabilities md s r).
Proof.
  unfold _record_protected_requirement_capabilities. revert r. induction (requirements md) as [|q l IH]; intros r Hr; cbn; [done|].
  apply IH. destruct (requirement_capability (kind q)); [by apply required_ok_record|done].
Qed.

Lemma recorded_sources sources r k s :
  recorded (foldl record_source r sources) k s ↔ recorded r k s ∨ ∃ md, (md, s) ∈ sources ∧ demands md k.
Proof.
  revert r. induction sources as [|[md s0] sources IH]; intros r; cbn [foldl].
  { setoid_rewrite elem_of_nil. naive_solver. }
  rewrite IH. setoid_rewrite elem_of_cons. unfold record_source, demands. cbn [fst snd].
  destruct (protected md) eqn:Hp.
  - rewrite recorded_requirements, recorded_record. split.
    + intros [[[Hr|[-> ->]]|[-> Hq]]|(md' & Hin & Hd)]; [by left|right; exists md; auto..|right; exists md'; auto].
    + intros [Hr|(md' & [[= -> ->]|Hin] & Hd & Hk)]; [by left; left; left| |right; eauto].
      destruct Hk as [->|Hq]; [left; left; right|left; right]; auto.
  - split; [intros [Hr|(md' & Hin & Hd)]; [by left|right; eauto]|].
    intros [Hr|(md' & [[= -> ->]|Hin] & Hd & Hk)]; [by left|congruence|right; eauto].
Qed.

Lemma required_ok_sources sources r : required_ok r → required_ok (foldl record_source r sources).
Proof.
  revert r. induction sources as [|[md s] sources IH]; intros r Hr; cbn; [done|]. apply IH. unfold record_source.
  cbn [fst snd]. destruct (protected md); [|done]. by apply required_ok_requirements, required_ok_record.
Qed.

Lemma record_pods_Ok pods r r' :
  record_pods pods r = Ok r' → required_ok r →
  required_ok r' ∧ (∀ p, p ∈ pods → ∃ sources, _protected_metadata_sources p = Ok sources) ∧
  ∀ k s, recorded r' k s ↔ recorded r k s ∨ ∃ p sources md, p ∈ pods ∧ _protected_metadata_sources p = Ok sources ∧
    (md, s) ∈ sources ∧ demands md k.
Proof.
  revert r. induction pods as [|p pods IH]; intros r Hr Hok; cbn in Hr.
  { injection Hr as <-. split_and!; [done| |]; setoid_rewrite elem_of_nil; naive_solver. }
  apply outcome_bind_Ok in Hr as (sources & Hs & Hr). apply IH in Hr as (Hr' & Hp & Hk); [|by apply required_ok_sources].
  split_and!; [done|setoid_rewrite elem_of_cons; naive_solver|].
  intros k s. rewrite Hk, recorded_sources. split.
  - intros [[Hrec|(md & Hin & Hd)]|(p' & l & md & Hp' & Hrest)]; [by left|right; exists p, sources, md|right; exists p', l, md].
    + split; [by left|done].
    + split; [by right|done].
  - intros [Hrec|(p' & l & md & [->|Hp']%elem_of_cons & Hl & Hin & Hd)];
      [by left; left|left; right; exists md|right; exists p', l, md; auto].
    rewrite Hl in Hs. by injection Hs as <-.
Qed.

Lemma record_pods_total pods r :
  (∀ p, p ∈ pods → ∃ sources, _protected_metadata_sources p = Ok sources) → ∃ r', record_pods pods r = Ok r'.
Proof.
  revert r. induction pods as [|p pods IH]; intros r Hp; cbn; [eauto|].
  destruct (Hp p) as [sources ->]; [by left|]. apply IH. intros p' Hin. apply Hp. by right.
Qed.

Lemma record_configs_spec configs r :
  required_ok r → required_ok (record_configs configs r) ∧
  ∀ k s, recorded (record_configs configs r) k s ↔ recorded r k s ∨
    (true ∈ configs ∧ s = "AuthSnapshotPropagationConfig.enabled" ∧ (k = SNAPSHOT_SIGN ∨ k = SNAPSHOT_VERIFY)).
Proof.
  unfold record_configs, _enabled_snapshot_propagation_sources. revert r. induction configs as [|[] configs IH]; intros r Hr.
  - cbn. split; [done|]. intros. rewrite elem_of_nil. naive_solver.
  - change (List.filter id (true :: configs)) with (true :: List.filter id configs). cbn [map foldl].
    destruct (IH (_record_required_capability SNAPSHOT_VERIFY "AuthSnapshotPropagationConfig.enabled"
      (_record_required_capability SNAPSHOT_SIGN "AuthSnapshotPropagationConfig.enabled" r))) as [Ho Hk];
      [by do 2 apply required_ok_record|].
    split; [done|]. intros k s. rewrite Hk, !recorded_record, elem_of_cons. naive_solver.
  - change (List.filter id (false :: configs)) with (List.filter id configs). destruct (IH r Hr) as [Ho Hk].
    split; [done|]. intros k s. rewrite Hk, elem_of_cons. naive_solver.
Qed.

Lemma required_spec pods configs r :
  _required_capabilities pods configs = Ok r →
  (∀ p, p ∈ pods → ∃ sources, _protected_metadata_sources p = Ok sources) ∧ required_ok r ∧
  ∀ k s, recorded r k s ↔ demanded pods configs k s.
Proof.
  unfold _required_capabilities. destruct (record_pods pods ∅) as [r0|e] eqn:Hr; cbn; [|done]. intros [= <-].
  apply record_pods_Ok in Hr as (Hok & Hp & Hk).
  2:{ intros k. unfold recorded. rewrite lookup_empty, dom_empty. set_solver. }
  destruct (record_configs_spec configs r0 Hok) as [Hok' Hk']. split_and!; [done..|].
  intros k s. rewrite Hk', Hk. unfold demanded, recorded at 1. rewrite lookup_empty. set_solver.
Qed.

Lemma required_total pods configs :
  (∀ p, p ∈ pods → ∃ sources, _protected_metadata_sources p = Ok sources) →
  ∃ r, _required_capabilities pods configs = Ok r.
Proof.
  intros Hp. unfold _required_capabilities. destruct (record_pods_total pods ∅ Hp) as [r ->]. by eexists.
Qed.

(** The number of providers of a capability *)
Definition providers_count (contributions : list AuthProviderContribution) (k : AuthCapability) : nat :=
  length (List.filter (supports k) contributions).
Lemma providers_of_length contributions k : length (providers_of contributions k) = providers_count contributions k.
Proof. unfold providers_of. by rewrite sort_by_length, length_map. Qed.
Lemma providers_of_perm contributions k :
  providers_of contributions k ≡ₚ map provider_id (List.filter (supports k) contributions).
Proof. apply sort_by_perm. Qed.

Lemma capability_diagnostic_Some contributions r k d :
  capability_diagnostic contributions r k = Some d ↔
  providers_count contributions k ≠ 1 ∧
  d = mk_capability_diagnostic k (providers_count contributions k) (providers_of contributions k)
        (sort_by str_leb (elements (default ∅ (r !! k)))).
Proof.
  unfold capability_diagnostic. rewrite providers_of_length.
  destruct (Nat.eqb_spec (providers_count contributions k) 1) as [Heq|Hne]; [by split; [|intros [? _]]|].
  split; [by intros [= <-]|]. by intros [_ ->].
Qed.

Lemma diagnostics_complete pods configs contributions r k :
  _required_capabilities pods configs = Ok r →
  (∃ d, d ∈ omap (capability_diagnostic contributions r) (sort_by capability_le (elements (dom r))) ∧ capability d = k) ↔
  (∃ s, demanded pods configs k s) ∧ providers_count contributions k ≠ 1.
Proof.
  intros Hr. destruct (required_spec pods configs r Hr) as (_ & Hok & Hk). setoid_rewrite <-Hk. rewrite <-(Hok k).
  setoid_rewrite list_elem_of_omap. setoid_rewrite elem_of_sort_by. setoid_rewrite elem_of_elements. split.
  - intros (d & (k' & Hin & Hd) & <-). apply capability_diagnostic_Some in Hd as [Hne ->]. by split.
  - intros [Hin Hne]. eexists. split; [|]. { exists k. split; [done|]. by apply capability_diagnostic_Some. } done.
Qed.

(** The start of the application is allowed exactly when the metadata of every boundary
    are consistent and every capability some boundary or configuration demands has
    one provider: not none, and not two. *)
Lemma validation_exact pods configs contributions :
  validate pods configs contributions = Ok tt ↔
  (∀ p, p ∈ pods → ∃ sources, _protected_metadata_sources p = Ok sources) ∧
  ∀ k s, demanded pods configs k s → providers_count contributions k = 1.
Proof.
  unfold validate, _invalid_capability_diagnostics. split.
  - destruct (_required_capabilities pods configs) as [r|e] eqn:Hr; cbn [mbind outcome_bind map_error]; [|done].
    intros Hv. split; [by apply (required_spec pods configs r)|]. intros k s Hd.
    destruct (decide (providers_count contributions k = 1)) as [|Hne]; [done|].
    destruct (proj2 (diagnostics_complete pods configs contributions r k Hr)) as (d & Hin & _); [by split; [exists s|]|].
    destruct (omap _ _) as [|d' ds]; [by apply not_elem_of_nil in Hin|done].
  - intros [Hp Hk]. destruct (required_total pods configs Hp) as [r Hr]. rewrite Hr. cbn [mbind outcome_bind map_error].
    destruct (omap _ _) as [|d ds] eqn:Hds; [done|].
    destruct (proj1 (diagnostics_complete pods configs contributions r (capability d) Hr)) as [(s & Hd) Hne].
    { exists d. split; [rewrite Hds; by left|done]. }
    by rewrite (Hk _ s) in Hne.
Qed.

(** What a refused start reports: the capabilities with a wrong number of providers, all
    of them, in the order of their names, each with its providers and with every
    boundary or configuration that demands it. *)
Theorem diagnostics_are_exact pods configs contributions ds :
  validate pods configs contributions = Raise (AuthStartupCapabilityValidationError ds) →
  Sorted (λ d d', capability_le (capability d) (capability d') = true) ds ∧
  (∀ k, (∃ d, d ∈ ds ∧ capability d = k) ↔ (∃ s, demanded pods configs k s) ∧ providers_count contributions k ≠ 1) ∧
  ∀ d, d ∈ ds →
    provider_ids d ≡ₚ map provider_id (List.filter (supports (capability d)) contributions) ∧
    provider_count d = length (provider_ids d) ∧
    ∀ s, s ∈ required_by d ↔ demanded pods configs (capability d) s.
Proof.
  unfold validate, _invalid_capability_diagnostics.
  destruct (_required_capabilities pods configs) as [r|e] eqn:Hr; cbn [mbind outcome_bind map_error]; [|done].
  destruct (_ <? _)%nat; [|done]. intros [= <-].
  destruct (required_spec pods configs r Hr) as (_ & Hok & Hk). split_and!.
  - assert (StronglySorted (λ a b, capability_le a b = true) (sort_by capability_le (elements (dom r)))) as Hs.
    { apply sort_by_strongly_sorted; unfold capability_le; intros *; [apply str_leb_total|apply str_leb_trans]. }
    apply StronglySorted_Sorted. induction Hs as [|k l _ IH Hall]; cbn; [constructor|].
    destruct (capability_diagnostic contributions r k) as [d|] eqn:Hd; [|done]. constructor; [done|].
    apply Forall_forall. intros d' (k' & Hin & Hd')%list_elem_of_omap.
    apply capability_diagnostic_Some in Hd as [_ ->], Hd' as [_ ->]. by apply (proj1 (Forall_forall _ _) Hall).
  - intros k. by apply diagnostics_complete.
  - intros d (k & _ & Hd)%list_elem_of_omap. apply capability_diagnostic_Some in Hd as [_ ->].
    cbn [provider_ids capability provider_count required_by].
    split_and!; [apply providers_of_perm|by rewrite providers_of_length|].
    intros s. by rewrite elem_of_sort_by, elem_of_elements, <-Hk.
Qed.

(** ** A started application has its providers *)

(** A contribution that declares a capability comes with the port. *)
Definition port_present (ports : auth_ports) (k : AuthCapability) : Prop :=
  match k with
  | POLICY_EVALUATION => is_Some (authorization_policy_evaluator ports)
  | PERMISSION_CHECK => is_Some (permission_checker ports)
  | RELATION_CHECK => is_Some (relation_checker ports)
  | ROLE_CHECK => is_Some (role_checker ports)
  | SCOPE_CHECK => is_Some (scope_checker ports)
  | _ => True
  end.
Definition backed (contributions : list AuthProviderContribution) (ports : auth_ports) : Prop :=
  ∀ p k, p ∈ contributions → k ∈ capabilities p → port_present ports k.

(** The requirements the decorators of [Auth.v] build *)
Definition decorated (r : AuthRequirement) : Prop :=
  match kind r with
  | POLICY => is_Some (resource r) ∧ is_Some (action r)
  | RELATION => is_Some (resource r)
  | _ => True
  end.

(** A provider that answers, whatever it is asked *)
Definition answering (ports : auth_ports) : Prop :=
  (∀ f rq, authorization_policy_evaluator ports = Some f → f rq ≠ Raise AuthRequirementProviderUnavailableError) ∧
  (∀ f rq, permission_checker ports = Some f → f rq ≠ Raise AuthRequirementProviderUnavailableError) ∧
  (∀ f rq, relation_checker ports = Some f → f rq ≠ Raise AuthRequirementProviderUnavailableError) ∧
  (∀ f rq, role_checker ports = Some f → f rq ≠ Raise AuthRequirementProviderUnavailableError) ∧
  (∀ f rq, scope_checker ports = Some f → f rq ≠ Raise AuthRequirementProviderUnavailableError).

Lemma evaluated_by_provider asp r c :
  answering (_ports asp) → decorated r →
  (∀ k, requirement_capability (kind r) = Some k → port_present (_ports asp) k) →
  _evaluate_requirement asp r c ≠ Raise AuthRequirementProviderUnavailableError.
Proof.
  intros (Hpo & Hpe & Hre & Hro & Hsc) Hd Hp. unfold _evaluate_requirement, decorated in *.
  destruct (kind r); cbn in Hp; [done|specialize (Hp _ eq_refl) as [f Hf]; cbn in Hf; rewrite Hf..].
  - by apply Hpe.
  - destruct Hd as [[res ->] [act ->]]. by apply Hpo.
  - destruct Hd as [res ->]. by apply Hre.
  - by apply Hro.
  - by apply Hsc.
Qed.

Lemma source_without_metadata source :
  _source_has_auth_metadata st source = false →
  exists_ PublicAccess_class st source = false ∧ source_requirements st source = [].
Proof.
  unfold _source_has_auth_metadata, source_requirements. intros [-> Hl]%orb_false_iff. split; [done|].
  by destruct (all ProtectedRequirement_class st source).
Qed.

(** The metadata the aspect reads of a method of a scanned class were consistent when
    the application started, and their requirements were demanded. *)
Lemma method_metadata_demanded p cls name f :
  (∃ sources, _protected_metadata_sources p = Ok sources) → scanned_target p = BClass cls →
  (name, BCallable f None) ∈ scanned_members p →
  ∃ md, get_effective_auth_metadata st (BCallable f (Some (SelfInstance cls))) None = Ok md ∧
    ∀ r, r ∈ requirements md → ∃ sources md' source, _protected_metadata_sources p = Ok sources ∧
      (md', source) ∈ sources ∧ r ∈ requirements md'.
Proof.
  intros [sources Hs] Ht Hin. pose proof Hs as Hsources. unfold _protected_metadata_sources in Hs. rewrite Ht in Hs.
  apply outcome_bind_Ok in Hs as (own & Hown & Hs). apply outcome_bind_Ok in Hs as (members & Hmem & [= Hs]).
  cbn [target_class] in Hmem.
  destruct (has_metadata (BCallable f None)) eqn:Hf.
  - unfold member_sources in Hmem. apply mapM_outcome_Ok in Hmem.
    assert ((name, BCallable f None) ∈ List.filter (λ m, has_metadata m.2) (scanned_members p)) as Hfil.
    { apply list_elem_of_In, filter_In. split; [by apply list_elem_of_In|done]. }
    apply list_elem_of_lookup in Hfil as [i Hfil].
    destruct (Forall2_lookup_l _ _ _ i _ Hmem Hfil) as (ms & Hms%list_elem_of_lookup_2 & Hmd).
    apply outcome_bind_Ok in Hmd as (md & Hmd & [= <-]). exists md. split; [exact Hmd|].
    intros r Hr. exists sources, md, (_source_name p +:+ "." +:+ name). split_and!; [done| |done].
    rewrite <-Hs. apply elem_of_app. by right.
  - assert (_source_has_auth_metadata st f = false) as Hnone.
    { unfold has_metadata, has_auth_boundary_metadata in Hf. cbn in Hf. by destruct (_source_has_auth_metadata st f). }
    apply source_without_metadata in Hnone as [Hpub Hreq].
    unfold get_effective_auth_metadata, _metadata_sources. cbn [_owner_type boundary_object existsb mbind list_bind].
    rewrite Hpub, Hreq, orb_false_r. cbn [app].
    destruct (has_metadata (BClass cls)) eqn:Hc.
    + apply outcome_bind_Ok in Hown as (md & Hmd & [= <-]). exists md. split.
      { unfold get_effective_auth_metadata, _metadata_sources in Hmd. cbn [existsb mbind list_bind] in Hmd. by rewrite orb_false_r in Hmd. }
      intros r Hr. exists sources, md, (_source_name p). split_and!; [done| |done]. rewrite <-Hs. by left.
    + assert (_source_has_auth_metadata st cls = false) as Hnone.
      { unfold has_metadata, has_auth_boundary_metadata in Hc. cbn in Hc. by destruct (_source_has_auth_metadata st cls). }
      apply source_without_metadata in Hnone as [-> ->]. eexists. split; [done|]. cbn. intros r Hr. by apply not_elem_of_nil in Hr.
Qed.

(** A started application has its providers: once the validation has passed, the
    aspect around any method of a scanned class finds consistent metadata and a
    provider for each requirement, so no call is refused for want of one. *)
Theorem validated_methods_have_providers pods configs contributions asp p cls name f c :
  validate pods configs contributions = Ok tt →
  backed contributions (_ports asp) → answering (_ports asp) →
  p ∈ pods → scanned_target p = BClass cls → (name, BCallable f None) ∈ scanned_members p →
  ∃ md, get_effective_auth_metadata st (BCallable f (Some (SelfInstance cls))) None = Ok md ∧
    ∀ r, r ∈ requirements md → decorated r →
      _evaluate_requirement asp r c ≠ Raise AuthRequirementProviderUnavailableError.
Proof.
  intros [Hsources Hcount]%validation_exact Hb Ha Hp Ht Hin.
  destruct (method_metadata_demanded p cls name f (Hsources p Hp) Ht Hin) as (md & Hmd & Hr).
  exists md. split; [done|]. intros r Hrin Hdec. apply evaluated_by_provider; [done..|]. intros k Hk.
  destruct (Hr r Hrin) as (sources & md' & source & Hs & Hms & Hr').
  assert (demanded pods configs k source) as Hd.
  { left. exists p, sources, md'. split_and!; [done..|]. split; [|right; by exists r].
    unfold protected. destruct (requirements md'); [by apply not_elem_of_nil in Hr'|done]. }
  specialize (Hcount k source Hd). unfold providers_count in Hcount.
  destruct (List.filter (supports k) contributions) as [|q l] eqn:Hq; [done|].
  assert (q ∈ List.filter (supports k) contributions) as Hin' by (rewrite Hq; by left).
  apply list_elem_of_In, filter_In in Hin' as [Hin' Hsup]. apply list_elem_of_In in Hin'.
  apply bool_decide_eq_true in Hsup. by apply (Hb q).
Qed.
End startup.

(** ** Witnesses *)

Definition ex_startup_store : auth_store := requirement_decorator (require_role "admin" None) "Billing.on_paid" ex_auth_store.
Definition ex_scanned : scanned_pod :=
  mk_scanned (BClass "Billing") "shop.Billing" [("on_paid", BCallable "Billing.on_paid" None)].
Definition ex_oidc : AuthProviderContribution := mk_contribution "oidc" {[AUTHENTICATION]}.
Definition ex_policy : AuthProviderContribution := mk_contribution "policy" {[POLICY_EVALUATION; ROLE_CHECK]}.
Definition ex_openfga : AuthProviderContribution := mk_contribution "openfga" {[POLICY_EVALUATION; ROLE_CHECK]}.
Definition ex_all_ports : auth_ports :=
  let yes := Ok decision_allow in
  mk_auth_ports (Some (λ _, yes)) (Some (λ _, yes)) (Some (λ _, yes)) (Some (λ _, yes)) (Some (λ _, yes)).

Lemma validated_methods_have_providers_witness :
  ∃ md, get_effective_auth_metadata ex_startup_store (BCallable "Billing.on_paid" (Some (SelfInstance "Billing"))) None = Ok md ∧
    ∀ r, r ∈ requirements md → decorated r →
      _evaluate_requirement (mk_aspect None ex_all_ports) r ex_auth_context ≠ Raise AuthRequirementProviderUnavailableError.
Proof.
  apply (validated_methods_have_providers ex_startup_store (λ _, []) [ex_scanned] [] [ex_oidc; ex_policy]
    (mk_aspect None ex_all_ports) ex_scanned "Billing" "on_paid").
  - reflexivity.
  - intros p k _ _. by destruct k; try (by eexists).
  - by repeat split; intros f rq [= <-].
  - by left.
  - reflexivity.
  - by left.
Defined.

(** Two providers of a role check refuse the start. *)
Lemma diagnostics_are_exact_witness : ∃ ds,
  validate ex_startup_store (λ _, []) [ex_scanned] [] [ex_oidc; ex_policy; ex_openfga] =
    Raise (AuthStartupCapabilityValidationError ds) ∧
  map capability ds = [ROLE_CHECK] ∧
  startup_diagnostic_details (AuthStartupCapabilityValidationError ds) =
    [("auth.capability.validation.error",
      "capability=ROLE_CHECK;provider_count=2;providers=openfga,policy;required_by=shop.Billing.on_paid")] ∧
  Sorted (λ d d', capability_le (capability d) (capability d') = true) ds.
Proof.
  eexists. assert (validate ex_startup_store (λ _, []) [ex_scanned] [] [ex_oidc; ex_policy; ex_openfga] = Raise _) as Hv
    by (vm_compute; reflexivity).
  split; [exact Hv|]. split; [reflexivity|]. split; [reflexivity|].
  apply (diagnostics_are_exact ex_startup_store (λ _, []) [ex_scanned] [] [ex_oidc; ex_policy; ex_openfga] _ Hv).
Defined.
