(* ===== verification/ModelPort.v ===== *)
(** * What an agent sends to a model, and what it gets back

    [core/spakky-agent]: context packs, manifests and health signals ([context.py]),
    the port of a model with its requests, responses and stream events
    ([interfaces/model.py]), delegation between agents ([delegation.py]) and the
    evidence these leave ([evidence.py]). The guards are those of [AgentSafety.v]. Times
    are the integers of [Agent.v], written by [isoformat]; a marker carries no
    metadata of its own. *)

From S2P Require Import Prelude Json AgentSafety Agent.

(** ** Context ([context.py]) *)

Inductive ContextPackRole :=
  | ROLE_SYSTEM | ROLE_INSTRUCTION | ROLE_TASK | ROLE_STATE | ROLE_EVIDENCE | ROLE_TOOL_RESULT | ROLE_DELEGATION | ROLE_MEMORY.
Definition role_value (r : ContextPackRole) : string :=
  match r with
  | ROLE_SYSTEM => "system" | ROLE_INSTRUCTION => "instruction" | ROLE_TASK => "task" | ROLE_STATE => "state"
  | ROLE_EVIDENCE => "evidence" | ROLE_TOOL_RESULT => "tool_result" | ROLE_DELEGATION => "delegation"
  | ROLE_MEMORY => "memory"
  end.
Inductive ContextFreshness := FRESH_CURRENT | FRESH_RECENT | FRESH_STALE | FRESH_UNKNOWN.
Definition freshness_value (f : ContextFreshness) : string :=
  match f with FRESH_CURRENT => "current" | FRESH_RECENT => "recent" | FRESH_STALE => "stale" | FRESH_UNKNOWN => "unknown" end.
Inductive ContextSensitivity := CTX_PUBLIC | CTX_INTERNAL | CTX_CONFIDENTIAL | CTX_SENSITIVE | CTX_REDACTED.
#[global] Instance context_sensitivity_eq_dec : EqDecision ContextSensitivity.
Proof. solve_decision. Defined.
Definition ctx_sensitivity_value (s : ContextSensitivity) : string :=
  match s with
  | CTX_PUBLIC => "public" | CTX_INTERNAL => "internal" | CTX_CONFIDENTIAL => "confidential"
  | CTX_SENSITIVE => "sensitive" | CTX_REDACTED => "redacted"
  end.
Inductive ContextRotSymptom := ROT_STALE | CONTRADICTORY | LOW_RELEVANCE | OVER_BUDGET | POLLUTED.
Definition symptom_value (s : ContextRotSymptom) : string :=
  match s with
  | ROT_STALE => "stale" | CONTRADICTORY => "contradictory" | LOW_RELEVANCE => "low_relevance"
  | OVER_BUDGET => "over_budget" | POLLUTED => "polluted"
  end.
Inductive ContextOptimizationActionKind := COMPRESSION | RETRIEVAL_REFRESH | OPTIMIZE_DELEGATION | CONTEXT_SLICE_DROP.
Definition action_kind_value (k : ContextOptimizationActionKind) : string :=
  match k with
  | COMPRESSION => "compression" | RETRIEVAL_REFRESH => "retrieval_refresh" | OPTIMIZE_DELEGATION => "delegation"
  | CONTEXT_SLICE_DROP => "context_slice_drop"
  end.
Inductive ContextOptimizationEvidenceStage := STAGE_BEFORE | STAGE_AFTER.
Definition stage_value (s : ContextOptimizationEvidenceStage) : string :=
  match s with STAGE_BEFORE => "before" | STAGE_AFTER => "after" end.

(** The value of an optional number: a float is its literal *)
Definition opt_int (z : option Z) : json := match z with Some z => JInt z | None => JNull end.
Definition opt_float (f : option string) : json := match f with Some l => JFloat l | None => JNull end.
Definition str_list (l : list string) : json := JList (JStr <$> l).

Record ContextTokenBudget := mk_token_budget {
  max_tokens : option Z;
  estimated_tokens : option Z;
  reserved_output_tokens : option Z;
}.

Record ContextHealthSignal := mk_health_signal {
  health_id : string;
  symptom : ContextRotSymptom;
  health_manifest_ref : option string;
  health_pack_id : option string;
  health_evidence_ref : option string;
  score : option string;
  observed_at : option Z;
  health_metadata : dict;
}.
Record ContextOptimizationAction := mk_optimization {
  optimization_id : string;
  optimization_kind : ContextOptimizationActionKind;
  signal_refs : list string;
  target_pack_ids : list string;
  optimization_manifest_ref : option string;
  digest_ref : option string;
  delegation_ref : option string;
  result_evidence_ref : option string;
  optimization_reason : option string;
  optimization_metadata : dict;
}.

Record ContextPack := mk_pack {
  pack_id : string;
  pack_content : string;
  pack_source : string;
  pack_role : ContextPackRole;
  freshness : ContextFreshness;
  relevance : option string;
  token_budget : ContextTokenBudget;
  pack_sensitivity : ContextSensitivity;
  pack_sensitive_fields : list SensitiveFieldDescriptor;
  pack_metadata : dict;
}.

Section context.
Context (isoformat : Z → string) (sha256_hex : string → string) (py_str : json → string).

Definition signal_evidence_payload (s : ContextHealthSignal) : dict :=
  [("id", JStr (health_id s)); ("symptom", JStr (symptom_value (symptom s)));
   ("manifest_ref", opt_str (health_manifest_ref s)); ("pack_id", opt_str (health_pack_id s));
   ("evidence_ref", opt_str (health_evidence_ref s)); ("score", opt_float (score s));
   ("observed_at", opt_str (isoformat <$> observed_at s)); ("metadata", JObj (health_metadata s))].
Definition action_evidence_payload (a : ContextOptimizationAction) : dict :=
  [("id", JStr (optimization_id a)); ("kind", JStr (action_kind_value (optimization_kind a)));
   ("signal_refs", str_list (signal_refs a)); ("target_pack_ids", str_list (target_pack_ids a));
   ("manifest_ref", opt_str (optimization_manifest_ref a)); ("digest_ref", opt_str (digest_ref a));
   ("delegation_ref", opt_str (delegation_ref a)); ("result_evidence_ref", opt_str (result_evidence_ref a));
   ("reason", opt_str (optimization_reason a)); ("metadata", JObj (optimization_metadata a))].

Abbreviation guard := (guard_json_value sha256_hex py_str).

Definition under (key : string) (d : SensitiveFieldDescriptor) : SensitiveFieldDescriptor :=
  mk_descriptor (key :: path d) (field d).

Definition guarded_content (p : ContextPack) (policy : ContextExposurePolicy) : string :=
  if decide (pack_sensitivity p = CTX_REDACTED) then "[REDACTED]"
  else
    match guard (JObj [("content", JStr (pack_content p))]) (under "content" <$> pack_sensitive_fields p)
      (ContextPolicy policy) with
    | JObj o => match dict_get "content" o with Some (JStr s) => s | _ => "[REDACTED]" end
    | _ => "[REDACTED]"
    end.

(** [MaskingPolicy] and [RedactionPolicy] as text, and the metadata of a marker *)
Definition masking_value (m : MaskingPolicy) : string :=
  match m with MASK_REDACT => "redact" | LAST_FOUR => "last_four" | FIRST_LAST => "first_last" | HASH => "hash" end.
Definition redaction_value (r : RedactionPolicy) : string :=
  match r with REDACT => "redact" | DROP => "drop" | REFERENCE_ONLY => "reference_only" end.
Definition label_entry (l : option string) : dict := match l with Some t => [("label", JStr t)] | None => [] end.
Definition marker_to_metadata (m : sensitive_marker) : dict :=
  match m with
  | SensitiveField c masking redaction label =>
      [("kind", JStr "sensitive"); ("category", JStr (category_name c)); ("sensitivity", JStr (sensitivity_value (sensitivity m)));
       ("masking", JStr (masking_value masking)); ("redaction", JStr (redaction_value redaction))] ++ label_entry label
  | SecretField redaction label =>
      [("kind", JStr "secret"); ("sensitivity", JStr (sensitivity_value SENSITIVITY_SECRET));
       ("redaction", JStr (redaction_value redaction))] ++ label_entry label
  end.
Definition descriptor_to_metadata (d : SensitiveFieldDescriptor) : json :=
  JObj [("path", str_list (path d)); ("field", JObj (marker_to_metadata (field d)))].

Definition message_metadata (p : ContextPack) (policy : ContextExposurePolicy) : dict :=
  [("context_pack_id", JStr (pack_id p)); ("source", JStr (pack_source p)); ("role", JStr (role_value (pack_role p)));
   ("freshness", JStr (freshness_value (freshness p))); ("relevance", opt_float (relevance p));
   ("token_budget", JObj [("max_tokens", opt_int (max_tokens (token_budget p)));
      ("estimated_tokens", opt_int (estimated_tokens (token_budget p)));
      ("reserved_output_tokens", opt_int (reserved_output_tokens (token_budget p)))]);
   ("sensitivity", JStr (ctx_sensitivity_value (pack_sensitivity p))); ("metadata", JObj (pack_metadata p))] ++
  (if include_sensitive_context_metadata policy && negb (bool_decide (pack_sensitive_fields p = []))
   then [("sensitive_fields", JList (descriptor_to_metadata <$> pack_sensitive_fields p))] else []).
End context.

(** ** The port of a model ([interfaces/model.py]) *)

Inductive ModelMessageRole := MSG_SYSTEM | MSG_USER | MSG_ASSISTANT | MSG_TOOL | MSG_EVIDENCE.
#[global] Instance message_role_eq_dec : EqDecision ModelMessageRole.
Proof. solve_decision. Defined.
Definition message_role_value (r : ModelMessageRole) : string :=
  match r with
  | MSG_SYSTEM => "system" | MSG_USER => "user" | MSG_ASSISTANT => "assistant" | MSG_TOOL => "tool" | MSG_EVIDENCE => "evidence"
  end.
Record ModelMessage := mk_message {
  message_role : ModelMessageRole;
  message_content : string;
  message_meta : dict;
}.

Record JsonSchemaConstraint := mk_constraint { constraint_schema : dict; strict : bool }.
Record StructuredOutputSpec := mk_structured { constraint : JsonSchemaConstraint; output_type_name : option string }.
Inductive ModelToolChoice := CHOICE_AUTO | CHOICE_NONE | CHOICE_REQUIRED.
#[global] Instance tool_choice_eq_dec : EqDecision ModelToolChoice.
Proof. solve_decision. Defined.
Record ModelToolSpec := mk_tool_spec {
  spec_name : string;
  spec_parameters : JsonSchemaConstraint;
  spec_description : option string;
}.
Record ToolCallingSpec := mk_tool_calling { spec_tools : list ModelToolSpec; choice : ModelToolChoice }.
(** The numbers of the sampling options as JSON literals *)
Record SamplingOptions := mk_sampling {
  temperature : option json;
  top_p : option json;
  sampling_max_tokens : option Z;
}.

Record ModelRequest := mk_model_request {
  messages : list ModelMessage;
  request_packs : list ContextPack;
  structured_output_spec : option StructuredOutputSpec;
  tool_calling : option ToolCallingSpec;
  sampling : SamplingOptions;
  include_usage : bool;
}.

Record ModelUsage := mk_usage { input_tokens : option Z; output_tokens : option Z; total_tokens : option Z }.
Record ModelToolCall := mk_tool_call {
  call_name : string;
  call_arguments : dict;
  call_id : option string;
  call_metadata : dict;
}.
Record ModelError := mk_model_error {
  error_code : string;
  error_message : string;
  retryable : bool;
  error_metadata : dict;
}.
Record ModelResponse := mk_response {
  response_content : string;
  response_structured : json;
  response_tool_calls : list ModelToolCall;
  response_usage : ModelUsage;
  response_metadata : dict;
}.
Inductive ModelStreamEventKind :=
  | TOKEN_DELTA | TOOL_CALL_CANDIDATE | STRUCTURED_OUTPUT | STREAM_PROGRESS | STREAM_ERROR | STREAM_DONE.
#[global] Instance stream_event_kind_eq_dec : EqDecision ModelStreamEventKind.
Proof. solve_decision. Defined.
Record ModelStreamEvent := mk_stream_event {
  event_kind : ModelStreamEventKind;
  token_delta : option string;
  event_tool_call : option ModelToolCall;
  event_structured : json;
  event_error : option ModelError;
  event_usage : option ModelUsage;
  event_metadata : dict;
}.

Section port.
Context (sha256_hex : string → string) (py_str : json → string).
Abbreviation guard := (guard_json_value sha256_hex py_str).

Definition context_message (policy : ContextExposurePolicy) (p : ContextPack) : ModelMessage :=
  mk_message MSG_EVIDENCE (guarded_content sha256_hex py_str p policy) (message_metadata p policy).
Definition assemble_messages (r : ModelRequest) (policy : ContextExposurePolicy) : list ModelMessage :=
  messages r ++ (context_message policy <$> request_packs r).

Definition guarded_call (c : ModelToolCall) (fields : list SensitiveFieldDescriptor) (policy : EvidenceExposurePolicy)
    : ModelToolCall :=
  mk_tool_call (call_name c)
    (match guard (JObj (call_arguments c)) fields (EvidencePolicy policy) with JObj o => o | _ => [] end)
    (call_id c) (call_metadata c).

(** The descriptors of the whole value or of the field [key] *)
Definition whole_or (key : string) (d : SensitiveFieldDescriptor) : bool :=
  bool_decide (path d = [] ∨ path d = [key]).
(** A text guarded under its key, as the code does it *)
Definition guarded_text (key text : string) (fields : list SensitiveFieldDescriptor) (policy : EvidenceExposurePolicy) : string :=
  match List.filter (whole_or key) fields with
  | [] => text
  | ds =>
      match guard (JObj [(key, JStr text)]) ((λ d, mk_descriptor [key] (field d)) <$> ds) (EvidencePolicy policy) with
      | JObj o => match dict_get key o with Some (JStr s) => s | _ => "[REDACTED]" end
      | _ => "[REDACTED]"
      end
  end.
Definition guarded_structured (key : string) (v : json) (fields : list SensitiveFieldDescriptor) (policy : EvidenceExposurePolicy)
    : json :=
  match List.filter (λ d, negb (whole_or key d)) fields with
  | [] => v
  | ds => guard v ds (EvidencePolicy policy)
  end.

Definition guarded_response (r : ModelResponse) (fields : list SensitiveFieldDescriptor) (policy : EvidenceExposurePolicy)
    : ModelResponse :=
  mk_response (guarded_text "content" (response_content r) fields policy)
    (guarded_structured "content" (response_structured r) fields policy)
    (response_tool_calls r) (response_usage r) (response_metadata r).

Definition guarded_event (e : ModelStreamEvent) (fields : list SensitiveFieldDescriptor) (policy : EvidenceExposurePolicy)
    : ModelStreamEvent :=
  mk_stream_event (event_kind e)
    ((λ t, guarded_text "token_delta" t fields policy) <$> token_delta e)
    ((λ c, guarded_call c fields policy) <$> event_tool_call e)
    (guarded_structured "token_delta" (event_structured e) fields policy)
    (event_error e) (event_usage e) (event_metadata e).
End port.

(** ** Evidence candidates ([evidence.py]) *)

Inductive EvidenceCapture :=
  | CAPTURE_NONE | CAPTURE_REFERENCE_ONLY | CAPTURE_SUMMARY | CAPTURE_STRUCTURED | CAPTURE_RAW | CAPTURE_REDACTED.
Definition capture_value (c : EvidenceCapture) : string :=
  match c with
  | CAPTURE_NONE => "none" | CAPTURE_REFERENCE_ONLY => "reference_only" | CAPTURE_SUMMARY => "summary"
  | CAPTURE_STRUCTURED => "structured" | CAPTURE_RAW => "raw" | CAPTURE_REDACTED => "redacted"
  end.

Section evidence.
Context (isoformat : Z → string) (sha256_hex : string → string) (py_str : json → string).

Definition tool_result (identity schema_name : string) (result : dict) (capture : EvidenceCapture)
    (fields : list SensitiveFieldDescriptor) (policy : EvidenceExposurePolicy) (text : option string)
    : outcome agent_error AgentEvidenceCandidate :=
  _require_non_blank identity "Agent tool identity";;
  _require_non_blank schema_name "Agent tool schema name";;
  (let guarded_result :=
     match guard_json_value sha256_hex py_str (JObj result) fields (EvidencePolicy policy) with JObj o => o | _ => [] end in
   Ok (mk_candidate EVIDENCE_TOOL
     [("tool_identity", JStr identity); ("tool_schema_name", JStr schema_name); ("capture", JStr (capture_value capture));
      ("result", JObj guarded_result)]
     text None None None (if include_sensitive_metadata policy then fields else [])))%stdpp.
Definition model_decision (model : string) (decision : dict) (text : option string) : outcome agent_error AgentEvidenceCandidate :=
  _require_non_blank model "Agent model name";;
  Ok (mk_candidate EVIDENCE_MODEL [("model", JStr model); ("decision", JObj decision)] text None None None [])%stdpp.
Definition tool_decision (identity : string) (decision : dict) (text : option string) : outcome agent_error AgentEvidenceCandidate :=
  _require_non_blank identity "Agent tool identity";;
  Ok (mk_candidate EVIDENCE_TOOL [("tool_identity", JStr identity); ("decision", JObj decision)] text None None None [])%stdpp.
Definition context_optimization (a : ContextOptimizationAction) (stage : ContextOptimizationEvidenceStage)
    (signals : list ContextHealthSignal) (text : option string) : outcome agent_error AgentEvidenceCandidate :=
  _require_non_blank (optimization_id a) "Context optimization action id";;
  Ok (mk_candidate CONTEXT_OPTIMIZATION
    [("stage", JStr (stage_value stage)); ("action", JObj (action_evidence_payload a));
     ("signals", JList (JObj ∘ signal_evidence_payload isoformat <$> signals))]
    text (digest_ref a) (optimization_manifest_ref a) (result_evidence_ref a) [])%stdpp.
End evidence.

(** ** Delegation ([delegation.py]) *)

Inductive DelegationReturnPolicy := RETURN_SUMMARY | RETURN_EVIDENCE_REFS | RETURN_SUMMARY_AND_EVIDENCE | RETURN_FINAL_OUTPUT.

Record AgentDelegateTarget := mk_target {
  target_agent_type : string;
  target_agent_name : option string;
  target_metadata : dict;
}.
Definition make_target (t : AgentDelegateTarget) : outcome agent_error AgentDelegateTarget :=
  check (is_blank (target_agent_type t)) (AgentDefinitionError "Delegate target agent type cannot be blank");;
  check (match target_agent_name t with Some n => is_blank n | None => false end)
    (AgentDefinitionError "Delegate target agent name cannot be blank");;
  Ok t%stdpp.

(** A timeout is a float, [F], with the comparison [<= 0]. *)
Record DelegationBudget (F : Type) := mk_budget {
  max_steps : option Z;
  budget_max_tokens : option Z;
  timeout_seconds : option F;
  deadline_at : option Z;
}.
Arguments mk_budget {F}.
Arguments max_steps {F}.
Arguments budget_max_tokens {F}.
Arguments timeout_seconds {F}.
Arguments deadline_at {F}.
Definition refuses {A} (f : A → bool) (o : option A) : bool := match o with Some a => f a | None => false end.
Definition make_budget {F} (not_positive : F → bool) (b : DelegationBudget F) : outcome agent_error (DelegationBudget F) :=
  check (refuses (λ n, n <=? 0)%Z (max_steps b)) (AgentDefinitionError "Delegation max steps must be positive");;
  check (refuses (λ n, n <=? 0)%Z (budget_max_tokens b)) (AgentDefinitionError "Delegation max tokens must be positive");;
  check (refuses not_positive (timeout_seconds b)) (AgentDefinitionError "Delegation timeout must be positive");;
  Ok b%stdpp.

Record DelegationContextSlice := mk_slice {
  slice_summary : option string;
  slice_evidence_refs : list string;
  slice_manifest_ref : option string;
}.
Record DelegationPacket (F : Type) := mk_packet {
  packet_id : string;
  parent_agent_state_id : string;
  packet_target : AgentDelegateTarget;
  task : dict;
  packet_context : DelegationContextSlice;
  constraints : list string;
  budget : DelegationBudget F;
  allowed_capabilities : list string;
  return_policy : DelegationReturnPolicy;
}.
Arguments mk_packet {F}.
Arguments packet_id {F}.
Arguments parent_agent_state_id {F}.
Definition make_packet {F} (p : DelegationPacket F) : outcome agent_error (DelegationPacket F) :=
  check (is_blank (packet_id p)) (AgentDefinitionError "Delegation id cannot be blank");;
  check (is_blank (parent_agent_state_id p)) (AgentDefinitionError "Delegation parent state id cannot be blank");;
  Ok p%stdpp.

Record DelegationResult := mk_delegation_result {
  result_id : string;
  result_packet_id : string;
  result_target : AgentDelegateTarget;
  result_summary : string;
  result_output : json;
  result_evidence_refs : list string;
  result_metadata : dict;
  result_created_at : option Z;
}.
Definition make_result (r : DelegationResult) : outcome agent_error DelegationResult :=
  check (is_blank (result_id r)) (AgentDefinitionError "Delegation result id cannot be blank");;
  check (is_blank (result_packet_id r)) (AgentDefinitionError "Delegation result packet id cannot be blank");;
  check (is_blank (result_summary r)) (AgentDefinitionError "Delegation result summary cannot be blank");;
  Ok r%stdpp.

(** The value is Python's [None]. *)
Definition is_null (v : json) : bool := match v with JNull => true | _ => false end.

(** [self.output is not None] tells an output of [null] from none only by its absence. *)
Definition to_parent_evidence (r : DelegationResult) (eid sid : string) : AgentEvidence :=
  mk_evidence eid sid EVIDENCE_DELEGATION
    ([("delegation_id", JStr (result_id r)); ("packet_id", JStr (result_packet_id r));
      ("target_agent_type", JStr (target_agent_type (result_target r)));
      ("evidence_refs", str_list (result_evidence_refs r)); ("metadata", JObj (result_metadata r))] ++
     match target_agent_name (result_target r) with Some n => [("target_agent_name", JStr n)] | None => [] end ++
     (if is_null (result_output r) then [] else [("output", result_output r)]))
    (Some (result_summary r)) None None None [] (result_created_at r).

Inductive AgentYieldKind :=
  | YIELD_TOKEN | YIELD_PROGRESS | YIELD_TOOL | YIELD_EVIDENCE | YIELD_APPROVAL | YIELD_FINAL | YIELD_ERROR | YIELD_CANCEL.
Record Evidence := mk_evidence_item { item_evidence : AgentEvidence; item_metadata : dict }.
Record AgentYield (P : Type) := mk_yield { yield_kind : AgentYieldKind; yield_payload : P }.
Arguments mk_yield {P}.
Arguments yield_kind {P}.
Arguments yield_payload {P}.
Definition to_parent_yield (r : DelegationResult) (eid sid : string) : AgentYield Evidence :=
  mk_yield YIELD_EVIDENCE (mk_evidence_item (to_parent_evidence r eid sid)
    [("delegation_id", JStr (result_id r)); ("packet_id", JStr (result_packet_id r))]).

(** ** Theorems *)

Section theorems.
Context (sha256_hex : string → string) (py_str : json → string).
Abbreviation guard := (guard_json_value sha256_hex py_str).
Abbreviation guarded := (guarded_content sha256_hex py_str).

(** A pack with a new content *)
Definition with_content (c : string) (p : ContextPack) : ContextPack :=
  mk_pack (pack_id p) c (pack_source p) (pack_role p) (freshness p) (relevance p) (token_budget p) (pack_sensitivity p)
    (pack_sensitive_fields p) (pack_metadata p).

(** Guarding a text under its key gives a text under the key, or drops it. *)
Lemma guard_single key s ds p :
  Forall (λ d, ∃ q, path d = key :: q) ds →
  (∃ t, guard (JObj [(key, JStr s)]) ds p = JObj [(key, JStr t)]) ∨ guard (JObj [(key, JStr s)]) ds p = JObj [].
Proof.
  unfold guard_json_value. revert s. induction ds as [|d ds IH]; intros s; cbn [foldl]; [by left; exists s|].
  intros [[q Hq] Hds]%Forall_cons. rewrite Hq. cbn [_guard_json_path dict_get]. rewrite decide_True by done.
  assert (∀ q, ∃ t, _guard_json_path sha256_hex py_str (JStr s) q (field d) p = JStr t) as Ht.
  { intros [|k q']; cbn; [|by exists s]. unfold _guard_scalar. destruct (can_expose_value p (field d)); by eexists. }
  destruct (Ht q) as [t ->]. destruct (_ && _); cbn [dict_del dict_set]; rewrite decide_True by done; [|by apply IH].
  right. clear IH. induction Hds as [|d' ds [q' Hq'] _ IH]; cbn [foldl]; [done|]. by rewrite Hq'.
Qed.

(** A pack that is marked as redacted, or whose content carries a marker that hides it
    from the policy, sends the model nothing of its content: the message is the same
    whatever the content is. *)
Theorem hidden_pack_content_is_not_sent p d policy c c' :
  pack_sensitivity p = CTX_REDACTED ∨
    (d ∈ pack_sensitive_fields p ∧ path d = [] ∧ opaque_marker (field d) (ContextPolicy policy)) →
  context_message sha256_hex py_str policy (with_content c p) = context_message sha256_hex py_str policy (with_content c' p).
Proof.
  intros Hd. unfold context_message. f_equal. unfold guarded_content. cbn [pack_sensitivity with_content pack_content pack_sensitive_fields].
  destruct (decide (pack_sensitivity p = CTX_REDACTED)) as [|Hne]; [done|]. destruct Hd as [|(Hin & Hp & Ho)]; [done|].
  assert (guard (JObj [("content", JStr c)]) (under "content" <$> pack_sensitive_fields p) (ContextPolicy policy) =
          guard (JObj [("content", JStr c')]) (under "content" <$> pack_sensitive_fields p) (ContextPolicy policy)) as ->; [|done].
  apply list_elem_of_split in Hin as (l1 & l2 & ->). rewrite fmap_app. cbn [fmap list_fmap]. unfold guard_json_value.
  rewrite !foldl_app. cbn [foldl under path field]. rewrite Hp. f_equal. apply guard_opaque; [done|by left|].
  assert (∀ v v', same_off ["content"] v v' → same_off ["content"]
    (foldl (λ v d, _guard_json_path sha256_hex py_str v (path d) (field d) (ContextPolicy policy)) v (under "content" <$> l1))
    (foldl (λ v d, _guard_json_path sha256_hex py_str v (path d) (field d) (ContextPolicy policy)) v' (under "content" <$> l1))) as Hfold.
  { induction l1 as [|e l1 IH]; intros v v' Hv; cbn [fmap list_fmap foldl]; [done|]. apply IH.
    apply guard_keeps_same_off; [|done].
    intros [[k Hk] Hne']. cbn in *. apply Hne'. destruct (path e); [done|]. by destruct k. }
  apply Hfold. right. by exists [("content", JStr c)], (JStr c), (JStr c').
Qed.

(** A marker with a path into the content hides nothing: the content is a text, in
    which no path leads anywhere. *)
Theorem nested_marker_hides_nothing p policy :
  pack_sensitivity p ≠ CTX_REDACTED →
  (∀ d, d ∈ pack_sensitive_fields p → path d ≠ [] ∧ redaction_of (field d) ≠ DROP) →
  guarded p policy = pack_content p.
Proof.
  intros Hs Hd. unfold guarded_content. rewrite decide_False by done. unfold guard_json_value.
  assert (foldl (λ v d, _guard_json_path sha256_hex py_str v (path d) (field d) (ContextPolicy policy))
    (JObj [("content", JStr (pack_content p))]) (under "content" <$> pack_sensitive_fields p) =
    JObj [("content", JStr (pack_content p))]) as ->; [|done].
  revert Hd. induction (pack_sensitive_fields p) as [|d ds IH]; intros Hd; cbn [fmap list_fmap foldl]; [done|].
  destruct (Hd d) as [Hp Hr]; [by left|]. cbn [under path field _guard_json_path dict_get]. rewrite decide_True by done.
  destruct (path d) as [|k q]; [done|]. cbn [_guard_json_path]. rewrite bool_decide_false by done. cbn [andb dict_set].
  rewrite decide_True by done. apply IH. intros e He. apply Hd. by right.
Qed.

(** The guard of a response leaves the arguments of its tool calls as they are; that of
    a stream event guards them. *)
Theorem response_guard_leaves_tool_calls r fields policy :
  response_tool_calls (guarded_response sha256_hex py_str r fields policy) = response_tool_calls r.
Proof. done. Qed.

(** A secret argument does not survive the guard of a tool call. *)
Theorem guarded_call_hides_secrets c pre d post policy o o' :
  opaque_marker (field d) (EvidencePolicy policy) → path d ≠ [] ∨ redaction_of (field d) ≠ DROP →
  (∀ e, e ∈ pre → ¬ proper_prefix (path e) (path d)) →
  same_off (path d) (JObj o) (JObj o') →
  let call a := mk_tool_call (call_name c) a (call_id c) (call_metadata c) in
  guarded_call sha256_hex py_str (call o) (pre ++ d :: post) policy =
  guarded_call sha256_hex py_str (call o') (pre ++ d :: post) policy.
Proof.
  intros Hm Hd Hpre Hs call. unfold guarded_call, call. cbn [call_arguments call_name call_id call_metadata].
  by rewrite (guard_hides_field sha256_hex py_str pre d post (EvidencePolicy policy) (JObj o) (JObj o')).
Qed.

(** A delegated result leaves evidence of its own kind, linked to the packet, and its
    yield carries that evidence. *)
Theorem delegation_evidence_is_linked r eid sid :
  let e := to_parent_evidence r eid sid in
  evidence_kind e = EVIDENCE_DELEGATION ∧ evidence_state_id e = sid ∧ evidence_id e = eid ∧
  dict_get "packet_id" (evidence_payload e) = Some (JStr (result_packet_id r)) ∧
  dict_get "delegation_id" (evidence_payload e) = Some (JStr (result_id r)) ∧
  dict_get "output" (evidence_payload e) =
    (if is_null (result_output r) then None else Some (result_output r)) ∧
  item_evidence (yield_payload (to_parent_yield r eid sid)) = e.
Proof.
  cbn [to_parent_evidence evidence_kind evidence_state_id evidence_id evidence_payload]. split_and!; try done.
  destruct (target_agent_name (result_target r)); by destruct (is_null (result_output r)).
Qed.
End theorems.

(** ** Witnesses *)

Definition ex_pack (ds : list SensitiveFieldDescriptor) : ContextPack :=
  mk_pack "p1" "token sk-1" "crm" ROLE_TASK FRESH_CURRENT None (mk_token_budget None None None) CTX_SENSITIVE ds [].
Definition ex_secret : SensitiveFieldDescriptor := mk_descriptor [] (SecretField REFERENCE_ONLY None).
Definition ex_nested : SensitiveFieldDescriptor := mk_descriptor ["token"] (SecretField REFERENCE_ONLY None).
Definition ex_closed : ContextExposurePolicy := mk_context_policy false false false false.

Lemma hidden_pack_content_is_not_sent_witness :
  context_message (λ s, s) (λ _, "") ex_closed (with_content "a" (ex_pack [ex_secret])) =
  context_message (λ s, s) (λ _, "") ex_closed (with_content "b" (ex_pack [ex_secret])) ∧
  message_content (context_message (λ s, s) (λ _, "") ex_closed (ex_pack [ex_secret])) = "[SECRET]".
Proof.
  split; [|reflexivity]. apply (hidden_pack_content_is_not_sent (λ s, s) (λ _, "") (ex_pack [ex_secret]) ex_secret).
  right. split; [by left|]. by repeat split.
Defined.

Lemma nested_marker_hides_nothing_witness :
  guarded_content (λ s, s) (λ _, "") (ex_pack [ex_nested]) ex_closed = "token sk-1".
Proof.
  apply (nested_marker_hides_nothing (λ s, s) (λ _, "") (ex_pack [ex_nested]) ex_closed); [done|].
  intros d Hd. inversion Hd as [|? ? ? Hd']; subst; [done|inversion Hd'].
Defined.
