(* ===== verification/VllmSchema.v ===== *)
(** * Validation of JSON values by the vLLM adapter

    [plugins/spakky-vllm/.../model.py], the part that reads the values of the provider
    and validates tool arguments and structured outputs against a JSON schema
    ([_validate_json_value] and its helpers). On the schemas the tools of
    [AgentTooling.v] publish it is JSON Schema ([validate_exact]). *)

From S2P Require Import Prelude Json AgentSafety Agent AgentTooling ModelPort.

(** ** Errors *)

Inductive vllm_error :=
  | VllmTransportError
  | VllmTimeoutError
  | VllmResponseError
  | VllmConstrainedDecodingUnsupportedError
  | VllmStreamingDisabledError
  | VllmModelRefusalError
  | InterpreterLimitError.
#[global] Instance vllm_error_eq_dec : EqDecision vllm_error.
Proof. solve_decision. Defined.

Definition invalid {A} : outcome vllm_error A := Raise VllmResponseError.

(** [InterpreterLimitError] is not of the package: [json.loads] raises [ValueError] for an
    integer of more digits than [int] converts, and [RecursionError] for values nested
    deeper than the stack of the interpreter, and the adapter catches [JSONDecodeError]
    only. Which texts these are depends on the settings of the interpreter. *)
Definition is_vllm_error (e : vllm_error) : bool := bool_decide (e ≠ InterpreterLimitError).
Class InterpreterLimits := { beyond_limits : string → bool }.

Definition loads `{InterpreterLimits} (py_float : string → string) (text : string) : outcome vllm_error json :=
  if beyond_limits text then Raise InterpreterLimitError
  else match json_loads py_float text with Some v => Ok v | None => invalid end.

(** ** Values of the provider *)

Definition _expect_mapping (v : json) : outcome vllm_error dict :=
  match v with JObj o => Ok o | _ => invalid end.
Definition _expect_sequence (v : json) : outcome vllm_error (list json) :=
  match v with JList l => Ok l | _ => invalid end.
Definition _optional_string (v : json) : outcome vllm_error (option string) :=
  match v with JNull => Ok None | JStr s => Ok (Some s) | _ => invalid end.
(** A boolean is an [int], with the values 0 and 1. *)
Definition _optional_int (v : json) : outcome vllm_error (option Z) :=
  match v with JNull => Ok None | JInt z => Ok (Some z) | JBool b => Ok (Some (Z.b2z b)) | _ => invalid end.
(** [d.get(key)] *)
Definition field_of (key : string) (d : dict) : json := default JNull (dict_get key d).

(** [_to_json_value] and [_to_json_object]: a copy, with the keys of an object set one
    by one *)
Fixpoint _to_json_value (v : json) : json :=
  match v with
  | JObj o => JObj (foldl (λ d kv, dict_set kv.1 kv.2 d) [] (map (λ kv, (kv.1, _to_json_value kv.2)) o))
  | JList l => JList (map _to_json_value l)
  | _ => v
  end.
Definition _to_json_object (v : json) : outcome vllm_error dict :=
  match _to_json_value v with JObj o => Ok o | _ => invalid end.

(** ** Equality of values, as [in] on a sequence compares them

    A boolean equals the integer it is; a float and an integer are equal as numbers. *)
Section equality.
Context (float_eq : string → string → bool) (float_int_eq : string → Z → bool).

Definition number_of (v : json) : option (Z + string) :=
  match v with JBool b => Some (inl (Z.b2z b)) | JInt z => Some (inl z) | JFloat l => Some (inr l) | _ => None end.
Definition number_eq (a b : Z + string) : bool :=
  match a, b with
  | inl x, inl y => (x =? y)%Z
  | inr l, inr r => float_eq l r
  | inl x, inr l | inr l, inl x => float_int_eq l x
  end.

Fixpoint py_equal (v w : json) {struct v} : bool :=
  match v, w with
  | JNull, JNull => true
  | JStr s, JStr t => String.eqb s t
  | JList l, JList r =>
      (fix go l r := match l, r with
         | [], [] => true
         | x :: l', y :: r' => py_equal x y && go l' r'
         | _, _ => false
         end) l r
  | JObj o, JObj p =>
      (length o =? length p)%nat &&
      (fix go o := match o with
         | [] => true
         | (k, x) :: o' => match dict_get k p with Some y => py_equal x y | None => false end && go o'
         end) o
  | _, _ => match number_of v, number_of w with Some a, Some b => number_eq a b | _, _ => false end
  end.

(** ** Validation against a JSON schema *)

(** A [Sequence] that is not a text *)
Definition expect_items (v : json) : outcome vllm_error (list json) :=
  match v with JList l => Ok l | _ => invalid end.
Definition fails_if (b : bool) : outcome vllm_error unit := check b VllmResponseError.

Definition is_integer (v : json) : bool := match v with JInt _ => true | _ => false end.
Definition is_number (v : json) : bool := match v with JInt _ | JFloat _ => true | _ => false end.
Definition is_string (v : json) : bool := match v with JStr _ => true | _ => false end.
Definition is_boolean (v : json) : bool := match v with JBool _ => true | _ => false end.

Definition _validate_enum (value enum_values : json) : outcome vllm_error unit :=
  values ← expect_items enum_values;
  fails_if (negb (existsb (py_equal value) values)).

Fixpoint check_required (required : list json) (value : dict) : outcome vllm_error unit :=
  match required with
  | [] => Ok tt
  | JStr k :: required' => if dict_has k value then check_required required' value else invalid
  | _ :: _ => invalid
  end.

Section validate.
(** The validation of a value against a schema, one level down *)
Context (validate : json → dict → outcome vllm_error unit).

Fixpoint try_alternatives (value : json) (alternatives : list json) : outcome vllm_error unit :=
  match alternatives with
  | [] => invalid
  | JObj s :: alternatives' =>
      match validate value s with
      | Ok _ => Ok tt
      | Raise VllmResponseError => try_alternatives value alternatives'
      | Raise e => Raise e
      end
  | _ :: _ => invalid
  end.
Definition _validate_any_of (value alternatives : json) : outcome vllm_error unit :=
  alts ← expect_items alternatives; try_alternatives value alts.

Definition _validate_additional_property (value additional : json) : outcome vllm_error unit :=
  match additional with
  | JBool false => invalid
  | JBool true => Ok tt
  | JObj s => validate value s
  | _ => invalid
  end.

Fixpoint check_properties (items : dict) (properties : dict) (additional : json) : outcome vllm_error unit :=
  match items with
  | [] => Ok tt
  | (key, item) :: items' =>
      match field_of key properties with
      | JNull => _validate_additional_property item additional
      | JObj s => validate item s
      | _ => invalid
      end ≫= λ _, check_properties items' properties additional
  end.
Definition _validate_object (value : json) (schema : dict) : outcome vllm_error unit :=
  o ← _expect_mapping value;
  required ← expect_items (default (JList []) (dict_get "required" schema));
  check_required required o ≫= λ _,
  properties ← _expect_mapping (default (JObj []) (dict_get "properties" schema));
  check_properties o properties (default (JBool true) (dict_get "additionalProperties" schema)).

Fixpoint check_prefix (values items : list json) : outcome vllm_error unit :=
  match items, values with
  | [], _ => Ok tt
  | JObj s :: items', x :: values' => validate x s ≫= λ _, check_prefix values' items'
  | _, _ => invalid
  end.
Definition _validate_prefix_items (values : list json) (prefix_items : json) : outcome vllm_error unit :=
  items ← expect_items prefix_items;
  fails_if (length values <? length items)%nat ≫= λ _, check_prefix values items.

Fixpoint check_items (values : list json) (s : dict) : outcome vllm_error unit :=
  match values with [] => Ok tt | x :: values' => validate x s ≫= λ _, check_items values' s end.
Definition _validate_array (value : json) (schema : dict) : outcome vllm_error unit :=
  values ← expect_items value;
  min_items ← _optional_int (field_of "minItems" schema);
  fails_if (match min_items with Some n => Z.of_nat (length values) <? n | None => false end)%Z ≫= λ _,
  max_items ← _optional_int (field_of "maxItems" schema);
  fails_if (match max_items with Some n => n <? Z.of_nat (length values) | None => false end)%Z ≫= λ _,
  match field_of "prefixItems" schema with
  | JNull =>
      match field_of "items" schema with
      | JNull => Ok tt
      | JObj s => check_items values s
      | _ => invalid
      end
  | prefix_items => _validate_prefix_items values prefix_items
  end.

Definition validate_step (value : json) (schema : dict) : outcome vllm_error unit :=
  match field_of "anyOf" schema with
  | JNull =>
      match field_of "enum" schema with JNull => Ok tt | enum_values => _validate_enum value enum_values end ≫= λ _,
      schema_type ← _optional_string (field_of "type" schema);
      match schema_type with
      | None => Ok tt
      | Some t =>
          if String.eqb t "object" then _validate_object value schema
          else if String.eqb t "array" then _validate_array value schema
          else
            fails_if (String.eqb t "string" && negb (is_string value)) ≫= λ _,
            fails_if (String.eqb t "integer" && negb (is_integer value)) ≫= λ _,
            fails_if (String.eqb t "number" && negb (is_number value)) ≫= λ _,
            fails_if (String.eqb t "boolean" && negb (is_boolean value)) ≫= λ _,
            fails_if (String.eqb t "null" && negb (is_null value))
      end
  | alternatives => _validate_any_of value alternatives
  end.
End validate.

(** The recursion goes down into the schema: the fuel is its depth. *)
Fixpoint validate_with (fuel : nat) (value : json) (schema : dict) : outcome vllm_error unit :=
  match fuel with
  | O => invalid
  | S fuel => validate_step (validate_with fuel) value schema
  end.

Fixpoint depth (v : json) : nat :=
  match v with
  | JList l => S (foldr (λ x n, Nat.max (depth x) n) 0 l)
  | JObj o => S (foldr (λ kx n, Nat.max (depth kx.2) n) 0 o)
  | _ => O
  end.
Definition _validate_json_value (value : json) (schema : dict) : outcome vllm_error unit :=
  validate_with (depth (JObj schema)) value schema.
End equality.

(** ** The fuel is enough *)

Lemma schema_depth_elem v l : v ∈ l → (depth v < depth (JList l))%nat.
Proof. cbn. induction 1; cbn; lia. Qed.
Lemma depth_entry k v o : (k, v) ∈ o → (depth v < depth (JObj o))%nat.
Proof.
  cbn. induction o as [|[k' v'] o IH]; [by intros ?%not_elem_of_nil|]. intros [[= -> ->]|Hin]%elem_of_cons; cbn; [lia|].
  specialize (IH Hin). lia.
Qed.
Lemma schema_depth_field k o v : field_of k o = v → (depth v < depth (JObj o))%nat.
Proof.
  unfold field_of. destruct (dict_get k o) as [w|] eqn:Hw; cbn [default]; intros <-; [|cbn; lia].
  by apply (depth_entry k), dict_get_elem_of.
Qed.

Section fuel.
Context (float_eq : string → string → bool) (float_int_eq : string → Z → bool).
Abbreviation step := (validate_step float_eq float_int_eq).
Abbreviation with_fuel := (validate_with float_eq float_int_eq).
Abbreviation validate := (_validate_json_value float_eq float_int_eq).

Implicit Types (f g : json → dict → outcome vllm_error unit).

Lemma try_alternatives_ext f g v alts :
  (∀ s', JObj s' ∈ alts → f v s' = g v s') → try_alternatives f v alts = try_alternatives g v alts.
Proof.
  induction alts as [|[| | | | | |s'] alts IH]; intros Hfg; cbn; [done..|].
  rewrite Hfg by (by left). rewrite IH; [done|]. intros s0 Hs0. apply Hfg. by right.
Qed.

Lemma check_properties_ext f g items props additional :
  (∀ k x s', field_of k props = JObj s' → f x s' = g x s') →
  (∀ x s', additional = JObj s' → f x s' = g x s') →
  check_properties f items props additional = check_properties g items props additional.
Proof.
  intros Hp Ha. induction items as [|[k x] items IH]; cbn; [done|]. rewrite IH. f_equal.
  destruct (field_of k props) as [| | | | | |s'] eqn:Hk; try done; [|by apply (Hp k)].
  destruct additional as [|[]| | | | |s']; try done. by apply Ha.
Qed.

Lemma check_prefix_ext f g values items :
  (∀ x s', JObj s' ∈ items → f x s' = g x s') → check_prefix f values items = check_prefix g values items.
Proof.
  revert values. induction items as [|i items IH]; intros values Hfg; [by destruct values|].
  destruct i as [| | | | | |s'], values as [|x values]; cbn; try done.
  rewrite Hfg by (by left). rewrite IH; [done|]. intros y s0 Hs0. apply Hfg. by right.
Qed.

Lemma check_items_ext f g values s' :
  (∀ x, f x s' = g x s') → check_items f values s' = check_items g values s'.
Proof. intros Hfg. induction values as [|x values IH]; cbn; [done|]. by rewrite Hfg, IH. Qed.

(** The value of a schema keyword or, when it is an object or a list, what it holds *)
Lemma validate_step_ext f g v s :
  (∀ x s', (depth (JObj s') < depth (JObj s))%nat → f x s' = g x s') → step f v s = step g v s.
Proof.
  intros Hfg. unfold validate_step.
  assert (_validate_object f v s = _validate_object g v s) as Ho.
  { unfold _validate_object. destruct (_expect_mapping v) as [o|e]; cbn; [|done].
    destruct (expect_items _) as [l|e]; cbn; [|done]. destruct (check_required l o); cbn; [|done].
    destruct (dict_get "properties" s) as [p|] eqn:Hp; cbn [default].
    2:{ cbn. apply check_properties_ext; [done|]. intros x s' Ha. apply Hfg.
        destruct (dict_get "additionalProperties" s) as [w|] eqn:Hw; [|done].
        change (w = JObj s') in Ha. subst w.
        by apply (depth_entry "additionalProperties"), dict_get_elem_of. }
    change (Datatypes.id p) with p. destruct p as [| | | | | |props]; cbn [_expect_mapping mbind outcome_bind]; try done.
    apply dict_get_elem_of, depth_entry in Hp. apply check_properties_ext.
    - intros k x s' Hk%schema_depth_field. apply Hfg. lia.
    - intros x s' Ha. apply Hfg. destruct (dict_get "additionalProperties" s) as [w|] eqn:Hw; [|done].
      change (w = JObj s') in Ha. subst w. by apply (depth_entry "additionalProperties"), dict_get_elem_of. }
  assert (_validate_array f v s = _validate_array g v s) as Ha.
  { unfold _validate_array. destruct (expect_items v) as [l|e]; cbn -[_optional_int field_of]; [|done].
    destruct (_optional_int _) as [n|e]; cbn -[_optional_int field_of]; [|done].
    destruct (fails_if _); cbn -[_optional_int field_of]; [|done].
    destruct (_optional_int _) as [n'|e]; cbn -[_optional_int field_of]; [|done].
    destruct (fails_if _); cbn -[_optional_int field_of]; [|done].
    destruct (field_of "prefixItems" s) as [| | | | |its|] eqn:Hp; try done.
    - destruct (field_of "items" s) as [| | | | | |s'] eqn:Hi; try done.
      apply check_items_ext. intros x. by apply Hfg, (schema_depth_field "items").
    - unfold _validate_prefix_items. cbn. destruct (fails_if _); cbn; [|done]. apply check_prefix_ext.
      intros x s' Hs%schema_depth_elem. apply Hfg. apply schema_depth_field in Hp. lia. }
  rewrite Ho, Ha. destruct (field_of "anyOf" s) as [| | | | |alts|] eqn:Hany; try done.
  unfold _validate_any_of. cbn. apply try_alternatives_ext. intros s' Hs%schema_depth_elem. apply Hfg.
  apply schema_depth_field in Hany. lia.
Qed.

Lemma validate_fuel n m v s :
  (depth (JObj s) ≤ n)%nat → (depth (JObj s) ≤ m)%nat → with_fuel n v s = with_fuel m v s.
Proof.
  revert m v s. induction n as [|n IH]; intros [|m] v s Hn Hm; [cbn in *; lia..|]. cbn [validate_with].
  apply validate_step_ext. intros x s' Hs. apply IH; lia.
Qed.

(** The validation is its own recursion: the fuel is never what refuses a value. *)
Lemma validate_unfold v s : validate v s = step validate v s.
Proof.
  unfold _validate_json_value at 1. destruct (depth (JObj s)) as [|n] eqn:Hd; [done|]. cbn [validate_with].
  apply validate_step_ext. intros x s' Hs. apply validate_fuel; lia.
Qed.
End fuel.

(** ** The validation against JSON Schema

    [validates] of [AgentTooling.v] is what the keywords of a schema mean for a value of
    the data model of JSON Schema, where a number without a fractional part is an
    integer, however it is written. [json_model] takes a parsed value, in which [1.0] is a
    float, to that model; [integral] gives the integer a float is, if it is one. *)

Section data_model.
Context (integral : string → option Z).
Fixpoint json_model (v : json) : json :=
  match v with
  | JFloat l => match integral l with Some z => JInt z | None => v end
  | JList l => JList (map json_model l)
  | JObj o => JObj (map (λ kv, (kv.1, json_model kv.2)) o)
  | _ => v
  end.

Lemma json_model_list l : json_model (JList l) = JList (json_model <$> l).
Proof. done. Qed.
Lemma json_model_obj o : json_model (JObj o) = JObj ((λ kv, (kv.1, json_model kv.2)) <$> o).
Proof. done. Qed.
Lemma json_model_get k o : dict_get k ((λ kv, (kv.1, json_model kv.2)) <$> o) = json_model <$> dict_get k o.
Proof. induction o as [|[k' x] o IH]; [done|]. cbn. by case_decide. Qed.

Lemma json_model_type t v : type_matches t v → type_matches t (json_model v).
Proof. destruct v as [| | |l| | |]; cbn; try done. intros ->. destruct (integral l); cbn; auto. Qed.
End data_model.

(** The keys of every object are distinct, as in a value of Python. *)
Inductive unique_keys : json → Prop :=
  | unique_null : unique_keys JNull
  | unique_bool b : unique_keys (JBool b)
  | unique_int z : unique_keys (JInt z)
  | unique_float l : unique_keys (JFloat l)
  | unique_str s : unique_keys (JStr s)
  | unique_list l : (∀ x, x ∈ l → unique_keys x) → unique_keys (JList l)
  | unique_obj o : NoDup o.*1 → (∀ k x, (k, x) ∈ o → unique_keys x) → unique_keys (JObj o).

Lemma foldl_dict_set_unique (o acc : dict) :
  NoDup acc.*1 → (∀ k x, (k, x) ∈ acc → unique_keys x) → (∀ k x, (k, x) ∈ o → unique_keys x) →
  unique_keys (JObj (foldl (λ d kv, dict_set kv.1 kv.2 d) acc o)).
Proof.
  revert acc. induction o as [|[k x] o IH]; intros acc Hnd Hacc Ho; cbn [foldl]; [by constructor|].
  apply IH; [by apply dict_set_NoDup| |intros k' x' Hin; apply (Ho k'); by right].
  intros k' x' Hin. apply dict_get_NoDup in Hin; [|by apply dict_set_NoDup]. cbn [fst snd] in Hin.
  destruct (decide (k' = k)) as [->|Hne].
  - rewrite dict_get_set_eq in Hin. injection Hin as <-. apply (Ho k). by left.
  - rewrite dict_get_set_ne in Hin by done. by apply dict_get_elem_of, Hacc in Hin.
Qed.

Lemma to_json_value_unique v : unique_keys (_to_json_value v).
Proof.
  induction v as [| | | | |l IH|o IH] using json_nested_ind; cbn [_to_json_value]; [constructor..| |].
  - constructor. intros x (y & -> & Hy)%list_elem_of_fmap. rewrite Forall_forall in IH. by apply IH.
  - apply foldl_dict_set_unique; [constructor|by intros ?? ?%not_elem_of_nil|].
    intros k x ([k' y] & [= -> ->] & Hy)%list_elem_of_fmap. rewrite Forall_forall in IH. by apply (IH (k', y)).
Qed.

(** A member of an enumeration that Python compares as JSON Schema does, given the type
    the schema asks for *)
Definition comparable (member : json) (schema_type : option json) : Prop :=
  match member with
  | JStr _ | JNull => True
  | JInt _ => schema_type = Some (JStr "integer")
  | JBool _ => schema_type = Some (JStr "boolean")
  | _ => False
  end.

(** The schemas the validation reads as JSON Schema does: a union stands alone, a type
    has the keywords of that type only, and a tuple has its length. *)
Definition array_keywords : list string := ["items"; "prefixItems"; "minItems"; "maxItems"].
Definition object_keywords : list string := ["properties"; "additionalProperties"; "required"].
Definition absent (keys : list string) (s : dict) : Prop := ∀ k, k ∈ keys → dict_get k s = None.

Definition simple_types : list string := ["string"; "integer"; "number"; "boolean"; "null"].

Definition enum_ok (s : dict) : Prop :=
  dict_get "enum" s = None ∨
  ∃ vs, dict_get "enum" s = Some (JList vs) ∧ ∀ w, w ∈ vs → comparable w (dict_get "type" s).

Inductive schema_ok : dict → Prop :=
  | union_ok s alts :
      dict_get "anyOf" s = Some (JList alts) → absent ("type" :: "enum" :: array_keywords ++ object_keywords) s →
      (∀ a, a ∈ alts → ∃ s', a = JObj s') → (∀ s', JObj s' ∈ alts → schema_ok s') → schema_ok s
  | untyped_ok s : enum_ok s → absent ("anyOf" :: "type" :: array_keywords ++ object_keywords) s → schema_ok s
  | simple_ok s t : enum_ok s → dict_get "type" s = Some (JStr t) → t ∈ simple_types →
      absent ("anyOf" :: array_keywords ++ object_keywords) s → schema_ok s
  | array_ok s i : dict_get "type" s = Some (JStr "array") → dict_get "items" s = Some (JObj i) → schema_ok i →
      absent ("anyOf" :: "enum" :: "prefixItems" :: "minItems" :: "maxItems" :: object_keywords) s → schema_ok s
  | tuple_ok s its : dict_get "type" s = Some (JStr "array") → dict_get "prefixItems" s = Some (JList its) →
      dict_get "minItems" s = Some (JInt (Z.of_nat (length its))) →
      dict_get "maxItems" s = Some (JInt (Z.of_nat (length its))) →
      (∀ a, a ∈ its → ∃ s', a = JObj s') → (∀ s', JObj s' ∈ its → schema_ok s') →
      absent ("anyOf" :: "enum" :: "items" :: object_keywords) s → schema_ok s
  | object_ok s props required additional :
      dict_get "type" s = Some (JStr "object") →
      default (JObj []) (dict_get "properties" s) = JObj props →
      default (JList []) (dict_get "required" s) = JList (JStr <$> required) →
      (∀ k w, dict_get k props = Some w → ∃ s', w = JObj s') →
      (∀ k s', dict_get k props = Some (JObj s') → schema_ok s') →
      dict_get "additionalProperties" s = additional →
      (additional = None ∨ (∃ b, additional = Some (JBool b)) ∨ ∃ s', additional = Some (JObj s')) →
      (∀ s', additional = Some (JObj s') → schema_ok s') →
      absent ("anyOf" :: "enum" :: array_keywords) s → schema_ok s.

Section exact.
Context (float_eq : string → string → bool) (float_int_eq : string → Z → bool).
Abbreviation validate := (_validate_json_value float_eq float_int_eq).
Abbreviation equal := (py_equal float_eq float_int_eq).

Lemma equal_comparable v w ty :
  comparable w ty → (∀ t, ty = Some (JStr t) → type_matches t v) → equal v w = true ↔ v = w.
Proof.
  intros Hc Ht. split.
  - destruct w as [|b|z| |t| |]; cbn in Hc; try done.
    + by destruct v.
    + specialize (Ht "boolean" Hc). destruct v as [|b'|z'|l|t'|l|o]; cbn in Ht; try done; [|by destruct Ht].
      by destruct b, b'.
    + specialize (Ht "integer" Hc). destruct v as [|b'|z'|l|t'|l|o]; cbn in Ht; try done. cbn.
      by intros ->%Z.eqb_eq.
    + destruct v; cbn; try done. by intros ->%String.eqb_eq.
  - intros ->. destruct w; cbn in *; try done; [by rewrite Z.eqb_refl..|by rewrite String.eqb_refl].
Qed.

Lemma fails_if_Ok b : fails_if b = Ok tt ↔ b = false.
Proof. by destruct b. Qed.

Lemma validate_enum_spec v s :
  enum_ok s → (∀ t, dict_get "type" s = Some (JStr t) → type_matches t v) →
  match field_of "enum" s with JNull => Ok tt | e => _validate_enum float_eq float_int_eq v e end = Ok tt ↔
  ∀ vs, dict_get "enum" s = Some (JList vs) → v ∈ vs.
Proof.
  intros [Hn|(vs & Hvs & Hc)] Ht; unfold field_of.
  - rewrite Hn. cbn. naive_solver.
  - rewrite Hvs. cbn [default]. change (Datatypes.id (JList vs)) with (JList vs). unfold _validate_enum. cbn [expect_items mbind outcome_bind].
    rewrite fails_if_Ok, negb_false_iff, existsb_exists. split.
    + intros (w & Hw & He) vs' [= <-]. apply list_elem_of_In in Hw. apply (equal_comparable v w _ (Hc w Hw) Ht) in He. by subst.
    + intros Hin. specialize (Hin vs eq_refl). exists v. split; [by apply list_elem_of_In|].
      by apply (equal_comparable v v _ (Hc v Hin) Ht).
Qed.

(** *** The only error of the validation *)

Definition only_invalid {A} (m : outcome vllm_error A) : Prop := ∀ e, m = Raise e → e = VllmResponseError.
Lemma only_invalid_Ok {A} (a : A) : only_invalid (Ok a).
Proof. by intros e. Qed.
Lemma only_invalid_invalid {A} : only_invalid (@invalid A).
Proof. by intros e [= <-]. Qed.
Lemma only_invalid_bind {A B} (m : outcome vllm_error A) (k : A → outcome vllm_error B) :
  only_invalid m → (∀ a, only_invalid (k a)) → only_invalid (m ≫= k).
Proof. intros Hm Hk e. destruct m as [a|e']; cbn; [by apply Hk|]. intros [= <-]. by apply Hm. Qed.
Lemma only_invalid_fails b : only_invalid (fails_if b).
Proof. by destruct b; intros e [= <-]. Qed.
#[local] Hint Resolve only_invalid_Ok only_invalid_invalid only_invalid_bind only_invalid_fails : core.
Lemma only_invalid_items v : only_invalid (expect_items v).
Proof. destruct v; cbn; auto. Qed.
Lemma only_invalid_mapping v : only_invalid (_expect_mapping v).
Proof. destruct v; cbn; auto. Qed.
Lemma only_invalid_string v : only_invalid (_optional_string v).
Proof. destruct v; cbn; auto. Qed.
Lemma only_invalid_int v : only_invalid (_optional_int v).
Proof. destruct v; cbn; auto. Qed.
Lemma only_invalid_required l o : only_invalid (check_required l o).
Proof. induction l as [|[] l IH]; cbn; auto. destruct (dict_has _ _); auto. Qed.
#[local] Hint Resolve only_invalid_items only_invalid_mapping only_invalid_string only_invalid_int only_invalid_required : core.

Lemma only_invalid_step f v s :
  (∀ x s', only_invalid (f x s')) → only_invalid (validate_step float_eq float_int_eq f v s).
Proof.
  intros Hf.
  assert (∀ x a, only_invalid (_validate_additional_property f x a)) as Hadd by (intros x [|[]| | | | |]; cbn; auto).
  assert (∀ o p a, only_invalid (check_properties f o p a)) as Hprops.
  { intros o p a. induction o as [|[k x] o IH]; cbn; auto. apply only_invalid_bind; auto. destruct (field_of k p); auto. }
  assert (∀ l s', only_invalid (check_items f l s')) as Hitems by (intros l s'; induction l; cbn; auto).
  assert (∀ l its, only_invalid (check_prefix f l its)) as Hprefix.
  { intros l its. revert l. induction its as [|[| | | | | |s'] its IH]; intros [|x xs]; cbn; auto. }
  assert (∀ alts, only_invalid (try_alternatives f v alts)) as Htry.
  { intros alts. induction alts as [|[| | | | | |s'] alts IH]; cbn; auto. destruct (f v s') as [|e] eqn:He; auto.
    apply Hf in He as ->. exact IH. }
  assert (only_invalid (_validate_object f v s)) by (unfold _validate_object; repeat (apply only_invalid_bind; auto; intros ?)).
  assert (only_invalid (_validate_array f v s)).
  { unfold _validate_array. repeat (apply only_invalid_bind; auto; intros ?).
    destruct (field_of "prefixItems" s); unfold _validate_prefix_items; auto. destruct (field_of "items" s); auto. }
  unfold validate_step. destruct (field_of "anyOf" s); unfold _validate_any_of; auto.
  apply only_invalid_bind; [destruct (field_of "enum" s); unfold _validate_enum; auto|]. intros _.
  apply only_invalid_bind; auto. intros [t|]; auto. destruct (String.eqb t "object"); auto.
  destruct (String.eqb t "array"); auto 6.
Qed.

Lemma only_invalid_validate v s : only_invalid (validate v s).
Proof.
  unfold _validate_json_value. generalize (depth (JObj s)). intros n. revert v s.
  induction n as [|n IH]; intros v s; cbn [validate_with]; auto. by apply only_invalid_step.
Qed.

(** *** What each check accepts *)

Lemma check_required_Ok ks o :
  check_required (JStr <$> ks) o = Ok tt ↔ ∀ k, k ∈ ks → dict_get k o ≠ None.
Proof.
  induction ks as [|k ks IH]; cbn [fmap list_fmap check_required].
  { split; [|done]. by intros _ k ?%not_elem_of_nil. }
  unfold dict_has. destruct (dict_get k o) as [x|] eqn:Hk.
  - rewrite IH. split.
    + intros H k' [->|Hin]%elem_of_cons; [by rewrite Hk|by apply H].
    + intros H k' Hin. apply H. by right.
  - split; [done|]. intros H. by destruct (H k (list_elem_of_here _ _)).
Qed.

Lemma check_items_Ok f l s : check_items f l s = Ok tt ↔ ∀ x, x ∈ l → f x s = Ok tt.
Proof.
  induction l as [|x l IH]; cbn.
  { split; [|done]. by intros _ x ?%not_elem_of_nil. }
  rewrite outcome_bind_Ok. setoid_rewrite elem_of_cons. split.
  - intros ([] & Hx & Hl) y [->|Hy]; [done|]. by apply IH.
  - intros H. exists tt. split; [apply H; by left|]. apply IH. auto.
Qed.

Lemma check_prefix_Ok f l its :
  (length its ≤ length l)%nat → (∀ a, a ∈ its → ∃ s', a = JObj s') →
  check_prefix f l its = Ok tt ↔ ∀ k x s', l !! k = Some x → its !! k = Some (JObj s') → f x s' = Ok tt.
Proof.
  revert l. induction its as [|i its IH]; intros l Hlen Ho.
  { destruct l; split; done. }
  destruct (Ho i) as [s ->]; [by left|]. destruct l as [|x l]; cbn in Hlen; [lia|]. cbn [check_prefix].
  rewrite outcome_bind_Ok. rewrite Nat.succ_le_mono in Hlen || (apply le_S_n in Hlen). split.
  - intros ([] & Hx & Hl) [|k] y s' Hy Hs'; [by simplify_eq/=|].
    apply (proj1 (IH l ltac:(lia) ltac:(intros a Ha; apply Ho; by right)) Hl k y s' Hy Hs').
  - intros H. exists tt. split; [by apply (H 0%nat)|]. apply IH; [lia|intros a Ha; apply Ho; by right|].
    intros k y s' Hy Hs'. by apply (H (S k)).
Qed.

Lemma check_properties_Ok f o props additional :
  NoDup o.*1 →
  check_properties f o props additional = Ok tt ↔
  ∀ k x, dict_get k o = Some x →
    match field_of k props with
    | JNull => _validate_additional_property f x additional
    | JObj s => f x s
    | _ => invalid
    end = Ok tt.
Proof.
  intros Hnd. transitivity (∀ k x, (k, x) ∈ o →
    match field_of k props with
    | JNull => _validate_additional_property f x additional | JObj s => f x s | _ => invalid end = Ok tt).
  2:{ split; intros H k x Hk; apply H; [by apply dict_get_elem_of|by apply dict_get_NoDup]. }
  clear Hnd. induction o as [|[k x] o IH]; cbn [check_properties].
  { split; [|done]. by intros _ k x ?%not_elem_of_nil. }
  rewrite outcome_bind_Ok. setoid_rewrite elem_of_cons. split.
  - intros ([] & Hx & Ho) k' x' [[= -> ->]|Hin]; [done|]. by apply IH.
  - intros H. exists tt. split; [apply H; by left|]. apply IH. auto.
Qed.

Lemma try_alternatives_Ok v alts :
  (∀ a, a ∈ alts → ∃ s', a = JObj s') →
  try_alternatives validate v alts = Ok tt ↔ ∃ s', JObj s' ∈ alts ∧ validate v s' = Ok tt.
Proof.
  induction alts as [|a alts IH]; intros Ho; cbn [try_alternatives].
  { split; [done|]. by intros (s' & ?%not_elem_of_nil & _). }
  destruct (Ho a) as [s ->]; [by left|]. destruct (validate v s) as [[]|e] eqn:He.
  - split; [|done]. intros _. exists s. split; [by left|done].
  - pose proof (only_invalid_validate v s e He) as ->. rewrite IH by (intros a Ha; apply Ho; by right).
    setoid_rewrite elem_of_cons. split; [naive_solver|]. intros (s' & [[= ->]|Hin] & Hv); [congruence|eauto].
Qed.

(** *** The equivalence *)

Lemma absent_get k keys s : absent keys s → bool_decide (k ∈ keys) = true → dict_get k s = None.
Proof. intros Ha Hk%bool_decide_eq_true. by apply Ha. Qed.

(** Looks up the keywords a schema does not have. *)
Ltac absent_keywords H :=
  repeat match goal with
  | |- context [dict_get ?k ?s] => rewrite (absent_get k _ s H eq_refl)
  end.

Lemma validates_union v s alts :
  dict_get "anyOf" s = Some (JList alts) → absent ("type" :: "enum" :: array_keywords ++ object_keywords) s →
  validates v (JObj s) ↔ ∃ a, a ∈ alts ∧ validates v a.
Proof.
  intros Hany Ha. split; [intros (_ & _ & Hu & _)%validates_inv; by apply Hu|]. intros Hv.
  constructor; unfold keyword_object; absent_keywords Ha; rewrite ?Hany; by intros; simplify_eq.
Qed.

(** Without keywords of arrays and objects, a schema is its type and its enumeration. *)
Lemma validates_plain v s :
  absent ("anyOf" :: array_keywords ++ object_keywords) s →
  validates v (JObj s) ↔
  (∀ t, dict_get "type" s = Some (JStr t) → type_matches t v) ∧ (∀ vs, dict_get "enum" s = Some (JList vs) → v ∈ vs).
Proof.
  intros Ha. split; [intros (Ht & He & _)%validates_inv; by split|]. intros [Ht He].
  constructor; [exact Ht|exact He|..]; unfold keyword_object; absent_keywords Ha; by intros; simplify_eq.
Qed.

Lemma validates_array v s i :
  dict_get "type" s = Some (JStr "array") → dict_get "items" s = Some i →
  absent ("anyOf" :: "enum" :: "prefixItems" :: "minItems" :: "maxItems" :: object_keywords) s →
  validates v (JObj s) ↔ ∃ xs, v = JList xs ∧ ∀ x, x ∈ xs → validates x i.
Proof.
  intros Hty Hi Ha. split.
  - intros (Ht & _ & _ & Hit & _)%validates_inv. specialize (Ht "array" Hty).
    destruct v as [| | | | |xs|]; cbn in Ht; try (by destruct Ht); try done. exists xs. split; [done|]. intros x. by apply (Hit i xs x).
  - intros (xs & -> & Hx). constructor; unfold keyword_object; absent_keywords Ha; rewrite ?Hty, ?Hi; intros; simplify_eq; auto; done.
Qed.

Lemma validates_tuple_keys v s its :
  dict_get "type" s = Some (JStr "array") → dict_get "prefixItems" s = Some (JList its) →
  dict_get "minItems" s = Some (JInt (Z.of_nat (length its))) → dict_get "maxItems" s = Some (JInt (Z.of_nat (length its))) →
  absent ("anyOf" :: "enum" :: "items" :: object_keywords) s →
  validates v (JObj s) ↔ ∃ xs, v = JList xs ∧ length xs = length its ∧
    ∀ k x i, xs !! k = Some x → its !! k = Some i → validates x i.
Proof.
  intros Hty Hpi Hmi Hma Ha. split.
  - intros (Ht & _ & _ & _ & Hi & Hmin & Hmax & _)%validates_inv. specialize (Ht "array" Hty).
    destruct v as [| | | | |xs|]; cbn in Ht; try (by destruct Ht); try done. exists xs.
    specialize (Hmin _ xs Hmi eq_refl). specialize (Hmax _ xs Hma eq_refl). split_and!; [done|lia|].
    intros k x i. by apply (Hi its xs k x i).
  - intros (xs & -> & Hlen & Hx).
    constructor; unfold keyword_object; absent_keywords Ha; rewrite ?Hty, ?Hpi, ?Hmi, ?Hma; intros; simplify_eq; try done; try lia.
    by eapply Hx.
Qed.

Lemma validates_object_keys v s props required :
  dict_get "type" s = Some (JStr "object") → default (JObj []) (dict_get "properties" s) = JObj props →
  default (JList []) (dict_get "required" s) = JList (JStr <$> required) →
  absent ("anyOf" :: "enum" :: array_keywords) s →
  validates v (JObj s) ↔ ∃ o, v = JObj o ∧ (∀ k, k ∈ required → dict_get k o ≠ None) ∧
    ∀ k x, dict_get k o = Some x →
      match dict_get k props with
      | Some p => validates x p
      | None => dict_get "additionalProperties" s ≠ Some (JBool false) ∧
                ∀ ap, dict_get "additionalProperties" s = Some (JObj ap) → validates x (JObj ap)
      end.
Proof.
  intros Hty Hpr Hrq Ha.
  assert (keyword_object "properties" s = props) as Hkw.
  { unfold keyword_object. destruct (dict_get "properties" s) as [p|]; cbn in Hpr; [by simplify_eq/=|congruence]. }
  split.
  - intros (Ht & _ & _ & _ & _ & _ & _ & Hp & Had & Hap & Hr)%validates_inv. specialize (Ht "object" Hty).
    destruct v as [| | | | | |o]; cbn in Ht; try (by destruct Ht); try done. exists o. rewrite Hkw in *. split_and!; [done| |].
    + intros k Hk. destruct (dict_get "required" s) as [r|] eqn:Hs; [|by destruct required; [apply not_elem_of_nil in Hk|]].
      cbn in Hrq. change (Datatypes.id r) with r in Hrq. subst r. apply (Hr o _ k eq_refl eq_refl). apply list_elem_of_fmap. by exists k.
    + intros k x Hx. destruct (dict_get k props) as [p|] eqn:Hk; [by apply (Hp o k x p)|].
      split; [by apply (Had o k x)|]. intros ap Hap'. by apply (Hap o k x ap).
  - intros (o & -> & Hreq & Hprops). constructor; rewrite ?Hkw.
    + intros t Ht. rewrite Hty in Ht. by injection Ht as <-.
    + by rewrite (absent_get "enum" _ s Ha eq_refl).
    + by rewrite (absent_get "anyOf" _ s Ha eq_refl).
    + by rewrite (absent_get "items" _ s Ha eq_refl).
    + by rewrite (absent_get "prefixItems" _ s Ha eq_refl).
    + by rewrite (absent_get "minItems" _ s Ha eq_refl).
    + by rewrite (absent_get "maxItems" _ s Ha eq_refl).
    + intros o' k x p [= <-] Hx Hp. specialize (Hprops k x Hx). by rewrite Hp in Hprops.
    + intros o' k x [= <-] Hx Hp. specialize (Hprops k x Hx). rewrite Hp in Hprops. apply Hprops.
    + intros o' k x ap [= <-] Hx Hp Hap. specialize (Hprops k x Hx). rewrite Hp in Hprops. by apply Hprops.
    + intros o' ks k [= <-] Hks Hk. apply Hreq. rewrite Hks in Hrq. cbn in Hrq. injection Hrq as ->.
      by apply (list_elem_of_fmap_1 JStr) in Hk as (? & [= ->] & ?).
Qed.

Lemma field_get k w s : dict_get k s = Some w → field_of k s = w.
Proof. unfold field_of. by intros ->. Qed.
Lemma field_none k s : dict_get k s = None → field_of k s = JNull.
Proof. unfold field_of. by intros ->. Qed.

(** The types that are told by the kind of a value *)
Lemma simple_type_Ok v t :
  t ∈ simple_types →
  (fails_if (String.eqb t "string" && negb (is_string v)) ≫= λ _,
   fails_if (String.eqb t "integer" && negb (is_integer v)) ≫= λ _,
   fails_if (String.eqb t "number" && negb (is_number v)) ≫= λ _,
   fails_if (String.eqb t "boolean" && negb (is_boolean v)) ≫= λ _,
   fails_if (String.eqb t "null" && negb (is_null v))) = Ok tt ↔ type_matches t v.
Proof.
  intros Ht. unfold simple_types in Ht. repeat (apply elem_of_cons in Ht as [->|Ht]; [by destruct v; cbn; naive_solver|]).
  by apply not_elem_of_nil in Ht.
Qed.

Lemma validate_object_Ok v s props required :
  dict_get "type" s = Some (JStr "object") → default (JObj []) (dict_get "properties" s) = JObj props →
  default (JList []) (dict_get "required" s) = JList (JStr <$> required) → unique_keys v →
  _validate_object validate v s = Ok tt ↔ ∃ o, v = JObj o ∧ (∀ k, k ∈ required → dict_get k o ≠ None) ∧
    ∀ k x, dict_get k o = Some x →
      match field_of k props with
      | JNull => _validate_additional_property validate x (default (JBool true) (dict_get "additionalProperties" s))
      | JObj s' => validate x s'
      | _ => invalid
      end = Ok tt.
Proof.
  intros Hty Hpr Hrq Hv. unfold _validate_object. rewrite Hpr, Hrq.
  destruct v as [| | | | | |o]; cbn [_expect_mapping mbind outcome_bind expect_items]; try (split; [done|by intros (? & ? & _)]).
  inversion Hv as [| | | | | |o' Hnd _]; subst. rewrite outcome_bind_Ok. split.
  - intros ([] & Hr & Hp). pose proof (proj1 (check_required_Ok required o) Hr). exists o. split_and!; [done..|]. by apply check_properties_Ok.
  - intros (o' & [= <-] & Hr & Hp). exists tt. split; [by apply check_required_Ok|]. by apply check_properties_Ok.
Qed.

Lemma validate_typed v s t :
  absent ["anyOf"; "enum"] s → dict_get "type" s = Some (JStr t) →
  validate v s = if String.eqb t "object" then _validate_object validate v s
                 else if String.eqb t "array" then _validate_array validate v s
                 else fails_if (String.eqb t "string" && negb (is_string v)) ≫= λ _,
                      fails_if (String.eqb t "integer" && negb (is_integer v)) ≫= λ _,
                      fails_if (String.eqb t "number" && negb (is_number v)) ≫= λ _,
                      fails_if (String.eqb t "boolean" && negb (is_boolean v)) ≫= λ _,
                      fails_if (String.eqb t "null" && negb (is_null v)).
Proof.
  intros Ha Ht. rewrite validate_unfold. unfold validate_step.
  rewrite (field_none "anyOf") by (by apply Ha; left). rewrite (field_none "enum") by (by apply Ha; right; left).
  by rewrite (field_get "type" (JStr t)).
Qed.

(** On the schemas it reads as JSON Schema does, the validation is JSON Schema: it accepts
    exactly the values the keywords of the schema allow. *)
Lemma validate_exact s :
  schema_ok s → ∀ v, unique_keys v → validate v s = Ok tt ↔ validates v (JObj s).
Proof.
  induction 1 as [s alts Hany Ha Hobj _ IH|s He Ha|s t He Hty Ht Ha|s i Hty Hi _ IH Ha|s its Hty Hpi Hmi Hma Hobj _ IH Ha
    |s props required additional Hty Hpr Hrq Hobj _ IHp Had Hshape _ IHa Ha]; intros v Hv.
  - rewrite (validates_union v s alts) by done. rewrite validate_unfold. unfold validate_step. rewrite (field_get _ _ _ Hany).
    unfold _validate_any_of. cbn [expect_items mbind outcome_bind]. rewrite try_alternatives_Ok by done. split.
    + intros (s' & Hin & Hs'). exists (JObj s'). split; [done|]. by apply IH.
    + intros (a & Hin & Hs'). destruct (Hobj a Hin) as [s' ->]. exists s'. split; [done|]. by apply IH.
  - rewrite validates_plain by (intros k Hk; apply Ha; set_solver). rewrite validate_unfold. unfold validate_step.
    assert (dict_get "type" s = None) as Ht by (apply Ha; set_solver).
    rewrite (field_none "anyOf" s) by (apply Ha; set_solver). rewrite (field_none "type" s) by done.
    rewrite outcome_bind_Ok. rewrite <-(validate_enum_spec v s He) by (rewrite Ht; done). rewrite Ht. split.
    + intros ([] & Hen & _). by split.
    + intros [_ Hen]. by exists tt.
  - rewrite validates_plain by (intros k Hk; apply Ha; set_solver). rewrite validate_unfold. unfold validate_step.
    rewrite (field_none "anyOf" s) by (apply Ha; set_solver). rewrite (field_get _ _ _ Hty). cbn [_optional_string mbind outcome_bind].
    assert (String.eqb t "object" = false ∧ String.eqb t "array" = false) as [-> ->].
    { unfold simple_types in Ht. repeat (apply elem_of_cons in Ht as [->|Ht]; [done|]). by apply not_elem_of_nil in Ht. }
    rewrite outcome_bind_Ok. split.
    + intros ([] & Hen & Htype). apply simple_type_Ok in Htype; [|done].
      assert (∀ t', dict_get "type" s = Some (JStr t') → type_matches t' v) as Htm by (rewrite Hty; by intros t' [= <-]).
      split; [done|]. by apply (validate_enum_spec v s He Htm).
    + intros [Htm Hen]. exists tt. split; [by apply (validate_enum_spec v s He Htm)|]. apply simple_type_Ok; [done|]. by apply Htm.
  - rewrite (validates_array v s (JObj i)) by done.
    rewrite (validate_typed v s "array") by (done || (intros k Hk; apply Ha; set_solver)). cbn [String.eqb Ascii.eqb Bool.eqb].
    unfold _validate_array. rewrite (field_none "minItems" s), (field_none "maxItems" s), (field_none "prefixItems" s) by (apply Ha; set_solver).
    rewrite (field_get _ _ _ Hi). destruct v as [| | | | |xs|]; cbn [expect_items mbind outcome_bind]; try (split; [done|by intros (? & ? & _)]).
    inversion Hv as [| | | | |l Hl|]; subst. cbn. rewrite check_items_Ok. split.
    + intros Hx. exists xs. split; [done|]. intros x Hin. apply IH; auto.
    + intros (xs' & [= <-] & Hx) x Hin. apply IH; auto.
  - rewrite (validates_tuple_keys v s its) by done.
    rewrite (validate_typed v s "array") by (done || (intros k Hk; apply Ha; set_solver)). cbn [String.eqb Ascii.eqb Bool.eqb].
    unfold _validate_array. rewrite (field_get _ _ _ Hmi), (field_get _ _ _ Hma), (field_get _ _ _ Hpi).
    destruct v as [| | | | |xs|]; cbn [expect_items mbind outcome_bind]; try (split; [done|by intros (? & ? & _)]).
    inversion Hv as [| | | | |l Hl|]; subst. cbn [_optional_int mbind outcome_bind]. unfold _validate_prefix_items. cbn [expect_items mbind outcome_bind].
    rewrite outcome_bind_Ok. setoid_rewrite outcome_bind_Ok. setoid_rewrite outcome_bind_Ok. setoid_rewrite fails_if_Ok || idtac. split.
    + intros ([] & Hmin%fails_if_Ok & [] & Hmax%fails_if_Ok & [] & Hlen%fails_if_Ok & Hpre).
      apply Z.ltb_ge in Hmin, Hmax. pose proof (proj1 (check_prefix_Ok validate xs its ltac:(lia) Hobj) Hpre) as Hall. exists xs. split_and!; [done|lia|].
      intros k x a Hx Hk. destruct (Hobj a) as [s' ->]; [by eapply list_elem_of_lookup_2|].
      apply IH; [by eapply list_elem_of_lookup_2|apply Hl; by eapply list_elem_of_lookup_2|]. by eapply Hall.
    + intros (xs' & [= <-] & Hlen & Hx). exists tt. split; [apply fails_if_Ok, Z.ltb_ge; lia|]. exists tt.
      split; [apply fails_if_Ok, Z.ltb_ge; lia|]. exists tt. split; [apply fails_if_Ok, Nat.ltb_ge; lia|].
      apply check_prefix_Ok; [lia|done|]. intros k x s' Hxk Hk.
      apply IH; [by eapply list_elem_of_lookup_2|apply Hl; by eapply list_elem_of_lookup_2|]. by eapply Hx.
  - rewrite (validates_object_keys v s props required) by done.
    rewrite (validate_typed v s "object") by (done || (intros k Hk; apply Ha; set_solver)). cbn [String.eqb Ascii.eqb Bool.eqb].
    rewrite (validate_object_Ok v s props required) by done.
    split; intros (o & -> & Hreq & Hprops); exists o; (split; [done|]); (split; [done|]); intros k x Hx; specialize (Hprops k x Hx).
    all: inversion Hv as [| | | | | |o' Hnd Hval]; subst; pose proof (Hval k x (dict_get_elem_of _ _ _ Hx)) as Hux.
    all: destruct (dict_get k props) as [w|] eqn:Hw.
    all: try (destruct (Hobj k w Hw) as [s' ->]; rewrite (field_get _ _ _ Hw) in *; by apply (IHp k s')).
    all: rewrite (field_none _ _ Hw) in *; destruct (dict_get "additionalProperties" s) as [ad|] eqn:Had; cbn [default] in *.
    all: try (by split). all: change (Datatypes.id ad) with ad in *.
    all: destruct Hshape as [?|[[b Hb]|[ap Hap]]]; simplify_eq.
    + split; [|done]. by destruct b.
    + split; [done|]. intros ap' [= <-]. by apply IHa.
    + destruct b; [done|]. by destruct Hprops.
    + apply IHa; [done..|]. by apply Hprops.
Qed.

(** In the data model a schema it reads as JSON Schema does accepts what it accepts of the
    parsed value, and more: integers that are written as floats. *)
Lemma validates_model integral s :
  schema_ok s → ∀ v, validates v (JObj s) → validates (json_model integral v) (JObj s).
Proof.
  assert (∀ s v, enum_ok s → (∀ vs, dict_get "enum" s = Some (JList vs) → v ∈ vs) →
            ∀ vs, dict_get "enum" s = Some (JList vs) → json_model integral v ∈ vs) as Henum.
  { intros s0 v He Hin vs Hvs. destruct He as [He|(vs' & He & Hc)]; [congruence|].
    rewrite He in Hvs. injection Hvs as <-. specialize (Hin vs' He). specialize (Hc v Hin). by destruct v. }
  induction 1 as [s alts Hany Ha Hobj _ IH|s He Ha|s t He Hty Ht Ha|s i Hty Hi _ IH Ha|s its Hty Hpi Hmi Hma Hobj _ IH Ha
    |s props required additional Hty Hpr Hrq Hobj _ IHp Had Hshape _ IHa Ha]; intros v.
  - rewrite !(validates_union _ s alts) by done. intros (a & Hin & Hv). exists a. split; [done|].
    destruct (Hobj a Hin) as [s' ->]. by apply IH.
  - rewrite !validates_plain by (intros k Hk; apply Ha; set_solver). intros [Ht Hin].
    split; [intros t Hty; by apply json_model_type, Ht|by apply Henum].
  - rewrite !validates_plain by (intros k Hk; apply Ha; set_solver). intros [Htm Hin].
    split; [intros t' Hty'; by apply json_model_type, Htm|by apply Henum].
  - rewrite !(validates_array _ s (JObj i)) by done. intros (xs & -> & Hx). eexists. split; [done|].
    intros x (y & -> & Hy)%list_elem_of_fmap. by apply IH, Hx.
  - rewrite !(validates_tuple_keys _ s its) by done. intros (xs & -> & Hlen & Hx). eexists. split; [done|].
    split; [by rewrite length_map|]. intros k x i Hxk Hik. apply list_lookup_fmap_Some in Hxk as (y & -> & Hy).
    assert (i ∈ its) as Hin by by eapply list_elem_of_lookup_2.
    destruct (Hobj i Hin) as [s' ->]. by eapply IH, Hx.
  - rewrite !(validates_object_keys _ s props required) by done. intros (o & -> & Hreq & Hprops).
    eexists. split; [apply json_model_obj|]. split.
    + intros k Hk. rewrite json_model_get. specialize (Hreq k Hk). by destruct (dict_get k o).
    + intros k x. rewrite json_model_get. destruct (dict_get k o) as [y|] eqn:Hy; [|done]. intros [= <-].
      specialize (Hprops k y Hy). destruct (dict_get k props) as [w|] eqn:Hw.
      * destruct (Hobj k w Hw) as [s' ->]. by apply (IHp k).
      * destruct Hprops as [Hb Hap]. split; [done|]. intros ap Hap'. apply IHa; [by rewrite <-Had|by apply Hap].
Qed.
End exact.

(** ** The schemas of tools *)

Section tools.
Context (classes : dataclasses).

(** Enumerations of texts, of integers or of booleans: Python tells their members apart
    as JSON Schema does. *)
Definition plain_enum (vs : list (option json)) : Prop :=
  (∀ v, v ∈ vs → ∃ s, v = Some (JStr s)) ∨ (∀ v, v ∈ vs → ∃ z, v = Some (JInt z)) ∨ (∀ v, v ∈ vs → ∃ b, v = Some (JBool b)).

(** All the enumerations the extraction reaches with this fuel are plain. *)
Fixpoint plain_enums (fuel : nat) (a : annotation) : Prop :=
  match fuel with
  | O => True
  | S fuel =>
      match (_unwrap_annotated a []).1 with
      | A_enum vs => plain_enum vs
      | A_union args | A_tuple args => ∀ x, x ∈ args → plain_enums fuel x
      | A_list x | A_tuple_of x | A_mapping _ x => plain_enums fuel x
      | A_dataclass n => ∀ fs f, classes n = Some fs → f ∈ fs → plain_enums fuel (field_annotation f)
      | _ => True
      end
  end.

(** Concrete keywords are absent. *)
Ltac keywords_absent :=
  let k := fresh "k" in let Hk := fresh "Hk" in
  intros k Hk; cbn [array_keywords object_keywords app] in Hk;
  repeat (apply elem_of_cons in Hk as [->|Hk]; [reflexivity|]); by apply not_elem_of_nil in Hk.

Lemma enum_values_types vs ws ts t :
  enum_values vs = Ok (ws, ts) → (∀ w, w ∈ ws → _json_value_type w = Some t) → ∀ t', t' ∈ ts → t' = t.
Proof.
  revert ws ts. induction vs as [|ov vs IH]; intros ws ts; cbn [enum_values].
  { intros [= <- <-] _ t' ?%not_elem_of_nil. done. }
  destruct ov as [v|]; cbn [mbind option_bind]; [|done].
  destruct (_json_value_type v) as [t0|] eqn:Ht0; cbn [fmap option_fmap option_map]; [|done].
  intros ([ws' ts'] & Hl & [= <- <-])%outcome_bind_Ok Hws t' Hin.
  assert (t0 = t) as -> by (specialize (Hws v (list_elem_of_here _ _)); congruence).
  specialize (IH _ _ Hl ltac:(intros w Hw; apply Hws; by right)). destruct (decide (t ∈ ts')); [by apply IH|].
  apply elem_of_cons in Hin as [->|Hin]; [done|by apply IH].
Qed.

Lemma enum_types_nonempty vs w ws ts : enum_values vs = Ok (w :: ws, ts) → ts ≠ [].
Proof.
  intros Hl Hts. destruct (enum_values_Ok _ _ _ Hl) as [_ H]. destruct (H w (list_elem_of_here _ _)) as (t & _ & Ht).
  rewrite Hts in Ht. by apply not_elem_of_nil in Ht.
Qed.

Lemma enum_schema_ok vs s : _enum_schema vs = Ok s → plain_enum vs → schema_ok s.
Proof.
  intros ([ws ts] & Hl & Hs)%outcome_bind_Ok Hp. destruct (enum_values_Ok _ _ _ Hl) as [-> _].
  assert (∀ w, Some w ∈ Some <$> ws ↔ w ∈ ws) as Hin by (intros w; rewrite list_elem_of_fmap; naive_solver).
  destruct ws as [|w0 ws].
  { cbn in Hl. injection Hl as <-. injection Hs as <-. apply untyped_ok; [|keywords_absent].
    right. exists []. split; [done|]. by intros w ?%not_elem_of_nil. }
  assert (∃ t, (∀ w, w ∈ w0 :: ws → _json_value_type w = Some t ∧ comparable w (Some (JStr t))) ∧ t ∈ simple_types) as (t & Ht & Hsimple).
  { destruct Hp as [Hp|[Hp|Hp]]; [exists "string"|exists "integer"|exists "boolean"]; (split; [|unfold simple_types; set_solver]);
      intros w Hw; destruct (Hp (Some w)) as [x [= ->]]; try (by apply Hin); by split. }
  pose proof (enum_values_types _ _ _ t Hl (λ w Hw, proj1 (Ht w Hw))) as Hts. pose proof (enum_types_nonempty _ _ _ _ Hl) as Hne.
  destruct ts as [|t1 [|t2 ts]]; [done| |].
  - assert (t1 = t) as -> by (apply Hts; by left). injection Hs as <-. apply (simple_ok _ t); [|done|done|keywords_absent].
    right. exists (w0 :: ws). split; [done|]. intros w Hw. by apply Ht.
  - exfalso. assert (t1 = t) as -> by (apply Hts; by left). assert (t2 = t) as -> by (apply Hts; right; by left).
    clear -Hl. revert Hl. generalize (w0 :: ws). intros l Hl.
    assert (NoDup (t :: t :: ts)) as Hnd; [|by apply NoDup_cons in Hnd as [Hnd _]; apply Hnd; left].
    revert Hl. generalize (t :: t :: ts). revert l. induction l as [|v l IH]; intros us; cbn [fmap list_fmap enum_values].
    { intros [= <-]. constructor. }
    cbn [mbind option_bind]. destruct (_json_value_type v); cbn [fmap option_fmap option_map]; [|done].
    intros ([vs' us'] & Hl' & [= -> <-])%outcome_bind_Ok. specialize (IH us' Hl'). case_decide; [done|by constructor].
Qed.

Lemma dict_merge_inv (d d' : dict) k w :
  dict_get k (dict_merge d d') = Some w → dict_get k d = Some w ∨ (k, w) ∈ d'.
Proof.
  unfold dict_merge. revert d. induction d' as [|[k' x] d' IH]; intros d; cbn [foldl]; [by left|].
  intros [Hd|Hin]%IH; [|right; by right]. cbn [fst snd] in Hd. destruct (decide (k = k')) as [->|Hne].
  - rewrite dict_get_set_eq in Hd. injection Hd as ->. right. by left.
  - rewrite dict_get_set_ne in Hd by done. by left.
Qed.

Lemma collect_properties_inv names es k w :
  dict_get k (collect_properties names es) = Some w → ∃ e, e ∈ es ∧ w = JObj (schema e).
Proof.
  intros [?|Hin]%dict_merge_inv; [done|]. apply elem_of_zip_r in Hin.
  apply list_elem_of_fmap in Hin as (e & -> & He). by exists e.
Qed.

(** The schema of a closed object whose properties are extracted *)
Lemma record_schema_ok s names es required :
  dict_get "type" s = Some (JStr "object") → dict_get "properties" s = Some (JObj (collect_properties names es)) →
  dict_get "additionalProperties" s = Some (JBool false) →
  dict_get "required" s = (match required with [] => None | _ => Some (JList (JStr <$> required)) end) →
  absent ("anyOf" :: "enum" :: array_keywords) s → (∀ e, e ∈ es → schema_ok (schema e)) → schema_ok s.
Proof.
  intros Hty Hpr Had Hrq Ha Hes.
  apply (object_ok s (collect_properties names es) required (Some (JBool false))); [done|by rewrite Hpr| | | |done| |done|done].
  - rewrite Hrq. by destruct required.
  - intros k w (e & _ & ->)%collect_properties_inv. by eexists.
  - intros k s' (e & He & [= ->])%collect_properties_inv. by apply Hes.
  - right. left. by exists false.
Qed.

Lemma extracted_ok fuel a label path e :
  _schema_for_annotation classes fuel a label path = Ok e → plain_enums fuel a → schema_ok (schema e).
Proof.
  revert a label path e. induction fuel as [|fuel IH]; intros a label path e; [done|].
  cbn [_schema_for_annotation plain_enums]. assert ((_unwrap_annotated a path).1 = (_unwrap_annotated a []).1) as Hun by (by destruct a).
  destruct (_unwrap_annotated a path) as [b marked]. cbn [fst] in Hun. rewrite <-Hun. clear Hun.
  destruct b as [|p|args|item|item|items|key v|vs|n|b ms|]; intros He Hp; try discriminate He.
  - injection He as <-. apply (simple_ok _ (_primitive_schema p)); [by left|done| |keywords_absent].
    destruct p; cbn; unfold simple_types; set_solver.
  - apply outcome_bind_Ok in He as (alts & Halts%map_outcome_Ok & [= <-]).
    apply (union_ok _ (JObj ∘ schema <$> alts)); [done|keywords_absent| |].
    + intros x (e & -> & _)%list_elem_of_fmap. by eexists.
    + intros s' (e & [= ->] & He)%list_elem_of_fmap. destruct (Forall2_elem_r _ _ _ _ Halts He) as (x & Hx & Hs). by apply (IH x label path), Hp.
  - apply outcome_bind_Ok in He as (i & Hi & [= <-]). apply (array_ok _ (schema i)); [done..|by apply (IH item label path)|keywords_absent].
  - apply outcome_bind_Ok in He as (i & Hi & [= <-]). apply (array_ok _ (schema i)); [done..|by apply (IH item label path)|keywords_absent].
  - apply outcome_bind_Ok in He as (es & Hes%map_outcome_Ok & [= <-]).
    apply (tuple_ok _ (JObj ∘ schema <$> es)); [done|done|by rewrite length_fmap..| | |keywords_absent].
    + intros x (e & -> & _)%list_elem_of_fmap. by eexists.
    + intros s' (e & [= ->] & He)%list_elem_of_fmap. destruct (Forall2_elem_r _ _ _ _ Hes He) as (x & Hx & Hs). by apply (IH x label path), Hp.
  - destruct key as [|[]| | | | | | | | |]; try discriminate He. apply outcome_bind_Ok in He as (i & Hi & [= <-]).
    apply (object_ok _ [] [] (Some (JObj (schema i)))); [done..| | |done| | |keywords_absent].
    + by intros k w ?.
    + by intros k w ?.
    + right. right. by eexists.
    + intros s' [= <-]. by apply (IH v label path).
  - apply outcome_bind_Ok in He as (s & Hs & [= <-]). by apply (enum_schema_ok vs).
  - destruct (classes n) as [fs|] eqn:Hfs; [|discriminate He]. apply outcome_bind_Ok in He as (es & Hes%map_outcome_Ok & [= <-]).
    destruct (object_schema_keys (collect_properties (field_name <$> fs) es)
      (field_name <$> List.filter (λ f, negb (field_has_default f)) fs)) as (H1&H2&H3&H4&H5&H6).
    apply (record_schema_ok _ (field_name <$> fs) es (field_name <$> List.filter (λ f, negb (field_has_default f)) fs)); try done.
    + intros k Hk. cbn [array_keywords] in Hk. unfold object_schema.
      repeat (apply elem_of_cons in Hk as [->|Hk]; [by destruct (field_name <$> List.filter _ _)|]); by apply not_elem_of_nil in Hk.
    + intros e He. destruct (Forall2_elem_r _ _ _ _ Hes He) as (f & Hf & Hs). cbn in Hs. eapply IH; [exact Hs|]. by apply (Hp fs).
Qed.

(** The schema of the parameters of a tool *)
Lemma input_schema_ok fuel f name s :
  _build_input_schema classes fuel f name = Ok s →
  (∀ p a, p ∈ parameters f → parameter_hint p = Some a → plain_enums fuel a) → schema_ok (schema s).
Proof.
  intros (u & _ & Hs)%outcome_bind_Ok Hp. apply outcome_bind_Ok in Hs as (es & Hes%map_outcome_Ok & [= <-]). cbn [schema].
  set (required := parameter_name <$> List.filter (λ p, bool_decide (parameter_default p = None)) (List.filter (negb ∘ is_owner) (parameters f))).
  apply (record_schema_ok _ (parameter_name <$> List.filter (negb ∘ is_owner) (parameters f)) es required); try (by destruct required).
  - intros k Hk. cbn [array_keywords] in Hk.
    repeat (apply elem_of_cons in Hk as [->|Hk]; [by destruct required|]); by apply not_elem_of_nil in Hk.
  - intros e He. destruct (Forall2_elem_r _ _ _ _ Hes He) as (p & Hin & Hs). unfold parameter_schema in Hs.
    apply outcome_bind_Ok in Hs as (u' & _ & Hs). destruct (parameter_hint p) as [a|] eqn:Ha; [|discriminate Hs].
    eapply extracted_ok; [exact Hs|]. apply (Hp p); [|done]. apply list_elem_of_In, filter_In in Hin as [Hin _]. by apply list_elem_of_In.
Qed.
End tools.

Section published.
Context (float_eq : string → string → bool) (float_int_eq : string → Z → bool) (classes : dataclasses).

(** C25. On the schema a tool publishes for its parameters, the adapter's validation is
    sound for JSON Schema: it accepts a value only if the keywords of the schema do. It is
    complete but for integers that are written as floats: when no number of the value is
    one, it accepts the value exactly when JSON Schema does. (That it refuses [1.0] where
    an integer is asked for, which JSON Schema accepts, is [integral_float_is_refused].)
    It never refuses a value because its recursion ended early. The enumerations among the
    types of the parameters are of texts, of integers or of booleans. *)
Theorem validation_is_json_schema fuel f name s v integral :
  _build_input_schema classes fuel f name = Ok s →
  (∀ p a, p ∈ parameters f → parameter_hint p = Some a → plain_enums classes fuel a) →
  unique_keys v →
  let validate := _validate_json_value float_eq float_int_eq in
  (validate v (schema s) = Ok tt → validates (json_model integral v) (JObj (schema s))) ∧
  (json_model integral v = v →
     validate v (schema s) = Ok tt ↔ validates (json_model integral v) (JObj (schema s))) ∧
  validate v (schema s) = validate_step float_eq float_int_eq validate v (schema s).
Proof.
  intros Hs Hp Hv validate. assert (schema_ok (schema s)) as Hok by by eapply input_schema_ok. split; [|split].
  - intros Hval. apply (validates_model float_eq float_int_eq); [done|]. by apply (validate_exact float_eq float_int_eq).
  - intros ->. by apply validate_exact.
  - apply validate_unfold.
Qed.

(** An integer that is written as a float is refused where an integer is asked for,
    although JSON Schema accepts it: [json.loads] makes [2.0] a float, and a float is not
    an instance of [int]. *)
Theorem integral_float_is_refused integral l z :
  integral l = Some z →
  _validate_json_value float_eq float_int_eq (JFloat l) [("type", JStr "integer")] = Raise VllmResponseError ∧
  validates (json_model integral (JFloat l)) (JObj [("type", JStr "integer")]).
Proof. intros Hz. split; [done|]. rewrite validates_type. cbn. rewrite Hz. by left. Qed.

(** Python compares a boolean with the integer it is: an enumeration of integers without
    a type accepts a boolean, which JSON Schema does not. *)
Theorem untyped_enum_accepts_boolean :
  _validate_json_value float_eq float_int_eq (JBool true) [("enum", JList [JInt 1; JStr "a"])] = Ok tt ∧
  ¬ validates (JBool true) (JObj [("enum", JList [JInt 1; JStr "a"])]).
Proof.
  split; [done|]. rewrite validates_enum. intros [?|[?|?%not_elem_of_nil]%elem_of_cons]%elem_of_cons; done.
Qed.
End published.

(** ** Witnesses *)

Definition ex_tool : tool_function :=
  mk_function "refund"
    [mk_parameter "order" POSITIONAL_OR_KEYWORD (Some (A_primitive P_str)) None;
     mk_parameter "reason" POSITIONAL_OR_KEYWORD (Some (A_enum [Some (JStr "lost"); Some (JStr "late")])) None;
     mk_parameter "amount" KEYWORD_ONLY (Some (A_primitive P_int)) (Some (JInt 1))]
    (Some (A_primitive P_bool)) true.
Definition ex_no_classes : dataclasses := λ _, None.
Definition ex_tool_schema : dict :=
  match _build_input_schema ex_no_classes 3 ex_tool "refund" with Ok s => schema s | Raise _ => [] end.
Definition ex_arguments : dict := [("order", JStr "o-1"); ("reason", JStr "lost")].

Lemma ex_tool_plain : ∀ p a, p ∈ parameters ex_tool → parameter_hint p = Some a → plain_enums ex_no_classes 3 a.
Proof.
  intros p a Hp Ha. cbn in Hp. repeat (apply elem_of_cons in Hp as [->|Hp]; [injection Ha as <-|]); [done| |done|by apply not_elem_of_nil in Hp].
  left. intros v. rewrite !elem_of_cons, elem_of_nil. naive_solver.
Defined.

Definition ex_integral (l : string) : option Z := if String.eqb l "2.0" then Some 2%Z else None.

(** An accepted call, and one that JSON Schema refuses with the adapter *)
Lemma validation_is_json_schema_witness :
  validates (json_model ex_integral (JObj ex_arguments)) (JObj ex_tool_schema) ∧
  ¬ validates (json_model ex_integral (JObj [("order", JInt 7)])) (JObj ex_tool_schema).
Proof.
  destruct (_build_input_schema ex_no_classes 3 ex_tool "refund") as [s|e] eqn:Hs; [|discriminate Hs].
  assert (ex_tool_schema = schema s) as -> by (unfold ex_tool_schema; by rewrite Hs).
  destruct (validation_is_json_schema (λ _ _, false) (λ _ _, false) ex_no_classes 3 ex_tool "refund" s (JObj ex_arguments)
    ex_integral Hs ex_tool_plain) as (Hok & _ & _).
  { constructor; [decide_compute|]. intros k x. unfold ex_arguments. rewrite !elem_of_cons, elem_of_nil.
    intros [[= -> ->]|[[= -> ->]|[]]]; constructor. }
  destruct (validation_is_json_schema (λ _ _, false) (λ _ _, false) ex_no_classes 3 ex_tool "refund" s (JObj [("order", JInt 7)])
    ex_integral Hs ex_tool_plain) as (_ & Hiff & _).
  { constructor; [decide_compute|]. intros k x. rewrite !elem_of_cons, elem_of_nil. intros [[= -> ->]|[]]; constructor. }
  split.
  - apply Hok. injection Hs as <-. reflexivity.
  - intros Hv. apply (Hiff eq_refl) in Hv. injection Hs as <-. discriminate Hv.
Defined.

Lemma integral_float_is_refused_witness :
  validates (json_model ex_integral (JFloat "2.0")) (JObj [("type", JStr "integer")]).
Proof. apply (integral_float_is_refused (λ _ _, false) (λ _ _, false) ex_integral "2.0" 2). reflexivity. Defined.
