(* ===== verification/Vllm.v ===== *)
(** * The vLLM model adapter

    [plugins/spakky-vllm/.../model.py]: the port of [ModelPort.v] on top of an
    OpenAI-compatible server. A request becomes a JSON payload; the response, or the
    chunks of a stream, become the content, the structured output and the tool calls,
    whose arguments are read by [loads] and checked against the JSON schema of the
    tool by [VllmSchema.v]. The client is a parameter here; [VllmClient.v] models the one of [client.py]. *)

From S2P Require Import Prelude Json AgentSafety Agent AgentTooling ModelPort VllmSchema.

(** ** The adapter *)

Record VllmConfig := mk_vllm_config {
  model_name : string;
  chat_template_kwargs : dict;
  stream_enabled : bool;
}.

Record tool_buffer := mk_buffer {
  buffer_call_id : option string;
  buffer_name : option string;
  arguments_fragments : list string;
}.
Definition empty_buffer : tool_buffer := mk_buffer None None [].

(** What a stream has yielded, and the local variables of the generator *)
Record stream_state := mk_stream_state {
  emitted : list ModelStreamEvent;
  structured_fragments : list string;
  tool_buffers : gmap Z tool_buffer;
  finish_reason : option string;
  stream_usage : option ModelUsage;
  terminal_error : option ModelError;
}.

Abbreviation constraints_by_name := (list (string * JsonSchemaConstraint)).

Section adapter.
Context `{InterpreterLimits}.
(** [float] of a text and the comparisons of floats; [sha256] and [str] are those of the
    guard of context packs. *)
Context (py_float : string → string) (float_eq : string → string → bool) (float_int_eq : string → Z → bool)
  (sha256_hex : string → string) (py_str : json → string).
Context (config : VllmConfig).

Abbreviation validate := (_validate_json_value float_eq float_int_eq).

(** *** The payload *)

Definition _to_openai_message (m : ModelMessage) : json :=
  let role := if decide (message_role m = MSG_EVIDENCE) then MSG_USER else message_role m in
  JObj [("role", JStr (message_role_value role)); ("content", JStr (message_content m))].
Definition _to_tool_choice (c : ModelToolChoice) : string :=
  match c with CHOICE_AUTO => "auto" | CHOICE_NONE => "none" | CHOICE_REQUIRED => "required" end.

Definition _ensure_tool_constraints_supported (t : ToolCallingSpec) : outcome vllm_error unit :=
  check (bool_decide (choice t = CHOICE_AUTO) && existsb (λ s, strict (spec_parameters s)) (spec_tools t))
    VllmConstrainedDecodingUnsupportedError.

Definition tool_payload (t : ModelToolSpec) : json :=
  JObj [("type", JStr "function");
        ("function", JObj [("name", JStr (spec_name t)); ("description", JStr (default "" (spec_description t)));
                           ("parameters", JObj (constraint_schema (spec_parameters t)));
                           ("strict", JBool (strict (spec_parameters t)))])].
Definition opt_entry (k : string) (v : option json) : dict := match v with Some x => [(k, x)] | None => [] end.

(** [a or b] on texts *)
Definition text_or (t : option string) (d : string) : string :=
  match t with Some (String c s) => String c s | _ => d end.

Definition _to_chat_completion_payload (r : ModelRequest) (stream : bool) : outcome vllm_error dict :=
  let policy := mk_context_policy false false false false in
  let base :=
    [("model", JStr (model_name config));
     ("messages", JList (_to_openai_message <$> assemble_messages sha256_hex py_str r policy));
     ("stream", JBool stream)] ++
    opt_entry "temperature" (temperature (sampling r)) ++ opt_entry "top_p" (top_p (sampling r)) ++
    opt_entry "max_tokens" (JInt <$> sampling_max_tokens (sampling r)) ++
    (match chat_template_kwargs config with [] => [] | kw => [("chat_template_kwargs", JObj kw)] end) ++
    match structured_output_spec r with
    | Some spec =>
        [("response_format", JObj [("type", JStr "json_schema");
           ("json_schema", JObj [("name", JStr (text_or (output_type_name spec) "structured_output"));
              ("schema", JObj (constraint_schema (constraint spec))); ("strict", JBool (strict (constraint spec)))])]);
         ("structured_outputs", JObj [("json", JObj (constraint_schema (constraint spec)))])]
    | None => []
    end in
  tools ← match tool_calling r with
          | Some t =>
              _ensure_tool_constraints_supported t ≫= λ _,
              Ok [("tools", JList (tool_payload <$> spec_tools t)); ("tool_choice", JStr (_to_tool_choice (choice t)))]
          | None => Ok []
          end;
  Ok (base ++ tools ++ (if stream && include_usage r then [("stream_options", JObj [("include_usage", JBool true)])] else [])).

(** *** Tool calls *)

Fixpoint collect_constraints (tools : list ModelToolSpec) (acc : constraints_by_name) : outcome vllm_error constraints_by_name :=
  match tools with
  | [] => Ok acc
  | t :: tools' =>
      if dict_has (spec_name t) acc then invalid
      else collect_constraints tools' (dict_set (spec_name t) (spec_parameters t) acc)
  end.
Definition _tool_constraints_by_name (t : option ToolCallingSpec) : outcome vllm_error (option constraints_by_name) :=
  match t with None => Ok None | Some t => Some <$> collect_constraints (spec_tools t) [] end.
Definition _tool_constraint_for (name : string) (by_name : option constraints_by_name)
    : outcome vllm_error (option JsonSchemaConstraint) :=
  match by_name with
  | None => Ok None
  | Some m => match dict_get name m with Some c => Ok (Some c) | None => invalid end
  end.

Definition check_constraint (v : json) (c : option JsonSchemaConstraint) : outcome vllm_error unit :=
  match c with Some c => validate v (constraint_schema c) | None => Ok tt end.

Definition _to_tool_arguments (value : json) (c : option JsonSchemaConstraint) : outcome vllm_error dict :=
  raw_arguments ← _optional_string value;
  match raw_arguments with
  | None | Some "" => check_constraint (JObj []) c ≫= λ _, Ok []
  | Some text =>
      decoded ← loads py_float text;
      arguments ← _to_json_object decoded;
      check_constraint (JObj arguments) c ≫= λ _, Ok arguments
  end.

Definition _to_structured_output (value : json) (c : JsonSchemaConstraint) : outcome vllm_error json :=
  raw_content ← _optional_string value;
  match raw_content with
  | None | Some "" => invalid
  | Some text =>
      decoded ← loads py_float text;
      validate (_to_json_value decoded) (constraint_schema c) ≫= λ _, Ok (_to_json_value decoded)
  end.

Definition provider_metadata : dict := [("provider", JStr "vllm")].

Definition _to_tool_call (by_name : option constraints_by_name) (raw_call : json) : outcome vllm_error ModelToolCall :=
  item ← _expect_mapping raw_call;
  function ← _expect_mapping (field_of "function" item);
  name ← match field_of "name" function with JStr s => Ok s | _ => invalid end;
  c ← _tool_constraint_for name by_name;
  arguments ← _to_tool_arguments (field_of "arguments" function) c;
  call_id ← _optional_string (field_of "id" item);
  provider_arguments ← _optional_string (field_of "arguments" function);
  Ok (mk_tool_call name arguments call_id [("provider_arguments", JStr (text_or provider_arguments ""))]).
Definition _to_tool_calls (value : json) (by_name : option constraints_by_name) : outcome vllm_error (list ModelToolCall) :=
  match value with
  | JNull => Ok []
  | _ => raw_calls ← _expect_sequence value; mapM (_to_tool_call by_name) raw_calls
  end.

(** *** A complete response *)

Definition _to_usage (value : json) : outcome vllm_error ModelUsage :=
  match value with
  | JNull => Ok (mk_usage None None None)
  | _ =>
      usage ← _expect_mapping value;
      i ← _optional_int (field_of "prompt_tokens" usage);
      o ← _optional_int (field_of "completion_tokens" usage);
      t ← _optional_int (field_of "total_tokens" usage);
      Ok (mk_usage i o t)
  end.
Definition _to_message_content (value : json) (calls : list ModelToolCall) : outcome vllm_error string :=
  match value, calls with
  | JStr s, _ => Ok s
  | JNull, _ :: _ => Ok ""
  | _, _ => invalid
  end.
Definition nonempty_text (t : option string) : bool := match t with Some (String _ _) => true | _ => false end.
Definition opt_text (t : option string) : json := match t with Some s => JStr s | None => JNull end.

Definition _to_model_response (response : dict) (r : ModelRequest) (by_name : option constraints_by_name)
    : outcome vllm_error ModelResponse :=
  choices ← _expect_sequence (field_of "choices" response);
  match choices with
  | [] => invalid
  | first :: _ =>
      first_choice ← _expect_mapping first;
      reason ← _optional_string (field_of "finish_reason" first_choice);
      message ← _expect_mapping (field_of "message" first_choice);
      refusal ← _optional_string (field_of "refusal" message);
      check (nonempty_text refusal) VllmModelRefusalError ≫= λ _,
      check (bool_decide (reason = Some "content_filter")) VllmModelRefusalError ≫= λ _,
      calls ← _to_tool_calls (field_of "tool_calls" message) by_name;
      fails_if (match tool_calling r with
                | Some t => bool_decide (choice t = CHOICE_NONE) && negb (bool_decide (length calls = 0%nat))
                | None => false
                end) ≫= λ _,
      content ← _to_message_content (field_of "content" message) calls;
      structured ← match structured_output_spec r with
                   | Some spec => _to_structured_output (JStr content) (constraint spec)
                   | None => Ok JNull
                   end;
      usage ← _to_usage (field_of "usage" response);
      Ok (mk_response content structured calls usage (provider_metadata ++ [("finish_reason", opt_text reason)]))
  end.

Definition complete (client : dict → outcome vllm_error dict) (r : ModelRequest) : outcome vllm_error ModelResponse :=
  payload ← _to_chat_completion_payload r false;
  by_name ← _tool_constraints_by_name (tool_calling r);
  response ← client payload;
  _to_model_response response r by_name.

(** *** A stream *)

Abbreviation action := (comp stream_state vllm_error).

Definition stream_event (k : ModelStreamEventKind) (md : dict) : ModelStreamEvent := mk_stream_event k None None JNull None None md.
Definition token_event (t : string) : ModelStreamEvent := mk_stream_event TOKEN_DELTA (Some t) None JNull None None provider_metadata.
Definition call_event (c : ModelToolCall) : ModelStreamEvent :=
  mk_stream_event TOOL_CALL_CANDIDATE None (Some c) JNull None None provider_metadata.
Definition structured_event (v : json) : ModelStreamEvent :=
  mk_stream_event STRUCTURED_OUTPUT None None v None None provider_metadata.
Definition error_event (e : ModelError) : ModelStreamEvent := mk_stream_event STREAM_ERROR None None JNull (Some e) None [].
Definition refusal_error (message : string) : ModelError := mk_model_error "model_refusal" message false provider_metadata.

Definition _to_model_error (e : vllm_error) : ModelError :=
  match e with
  | VllmTimeoutError => mk_model_error "vllm_timeout" "vLLM request timed out" true provider_metadata
  | VllmTransportError => mk_model_error "vllm_transport_error" "vLLM transport request failed" true provider_metadata
  | VllmStreamingDisabledError => mk_model_error "vllm_streaming_disabled" "vLLM streaming is disabled" false provider_metadata
  | VllmConstrainedDecodingUnsupportedError =>
      mk_model_error "vllm_constrained_decoding_unsupported" "vLLM cannot enforce requested constrained decoding mode" false
        provider_metadata
  | _ => mk_model_error "vllm_response_error" "vLLM response is invalid" false provider_metadata
  end.
Definition _to_error_event (e : vllm_error) : ModelStreamEvent := error_event (_to_model_error e).
Definition _done_event (reason : option string) (usage : option ModelUsage) : ModelStreamEvent :=
  mk_stream_event STREAM_DONE None None JNull None usage (provider_metadata ++ [("finish_reason", opt_text reason)]).

Definition _to_provider_error (value : json) : outcome vllm_error (option ModelError) :=
  match value with
  | JNull => Ok None
  | _ =>
      error ← _expect_mapping value;
      code ← _optional_string (field_of "code" error);
      message ← _optional_string (field_of "message" error);
      Ok (Some (mk_model_error (text_or code "provider_error") (text_or message "vLLM stream error") false provider_metadata))
  end.
Definition _finish_reason_error (reason : string) : option ModelError :=
  if bool_decide (reason ∈ ["stop"; "tool_calls"]) then None
  else Some (mk_model_error (if String.eqb reason "content_filter" then "model_refusal" else "model_finish_reason")
    ("vLLM stream finished with reason: " +:+ reason) false (provider_metadata ++ [("finish_reason", JStr reason)])).

Definition yield (e : ModelStreamEvent) : action unit :=
  modify (λ s, mk_stream_state (emitted s ++ [e]) (structured_fragments s) (tool_buffers s) (finish_reason s) (stream_usage s) (terminal_error s)).
Definition add_fragment (t : string) : action unit :=
  modify (λ s, mk_stream_state (emitted s) (structured_fragments s ++ [t]) (tool_buffers s) (finish_reason s) (stream_usage s) (terminal_error s)).
Definition set_buffers (m : gmap Z tool_buffer) : action unit :=
  modify (λ s, mk_stream_state (emitted s) (structured_fragments s) m (finish_reason s) (stream_usage s) (terminal_error s)).
Definition set_finish_reason (t : string) : action unit :=
  modify (λ s, mk_stream_state (emitted s) (structured_fragments s) (tool_buffers s) (Some t) (stream_usage s) (terminal_error s)).
Definition set_usage (u : ModelUsage) : action unit :=
  modify (λ s, mk_stream_state (emitted s) (structured_fragments s) (tool_buffers s) (finish_reason s) (Some u) (terminal_error s)).
Definition set_terminal_error (e : option ModelError) : action unit :=
  modify (λ s, mk_stream_state (emitted s) (structured_fragments s) (tool_buffers s) (finish_reason s) (stream_usage s) e).

(** What one item of a delta says of a tool call: its index, and what it adds *)
Definition call_delta (position : nat) (raw_call : json) (m : gmap Z tool_buffer) : outcome vllm_error (gmap Z tool_buffer) :=
  item ← _expect_mapping raw_call;
  i ← _optional_int (field_of "index" item);
  let index := default (Z.of_nat position) i in
  let buffer := default empty_buffer (m !! index) in
  call_id ← _optional_string (field_of "id" item);
  let buffer := mk_buffer (match call_id with Some c => Some c | None => buffer_call_id buffer end)
    (buffer_name buffer) (arguments_fragments buffer) in
  match field_of "function" item with
  | JNull => Ok (<[index := buffer]> m)
  | f =>
      function ← _expect_mapping f;
      name ← _optional_string (field_of "name" function);
      fragment ← _optional_string (field_of "arguments" function);
      Ok (<[index := mk_buffer (buffer_call_id buffer) (match name with Some n => Some n | None => buffer_name buffer end)
             (arguments_fragments buffer ++ match fragment with Some t => [t] | None => [] end)]> m)
  end.
Fixpoint call_deltas (position : nat) (raw_calls : list json) (m : gmap Z tool_buffer) : outcome vllm_error (gmap Z tool_buffer) :=
  match raw_calls with
  | [] => Ok m
  | raw_call :: raw_calls' => call_delta position raw_call m ≫= call_deltas (S position) raw_calls'
  end.
Definition _accumulate_tool_call_chunks (value : json) (m : gmap Z tool_buffer) : outcome vllm_error (gmap Z tool_buffer) :=
  raw_calls ← _expect_sequence value; call_deltas 0 raw_calls m.

Definition joined_text (l : list string) : string := String.concat "" l.

Definition to_tool_call (by_name : option constraints_by_name) (b : tool_buffer) : outcome vllm_error ModelToolCall :=
  match buffer_name b with
  | None => invalid
  | Some name =>
      c ← _tool_constraint_for name by_name;
      let provider_arguments := joined_text (arguments_fragments b) in
      arguments ← _to_tool_arguments (JStr provider_arguments) c;
      Ok (mk_tool_call name arguments (buffer_call_id b) [("provider_arguments", JStr provider_arguments)])
  end.
(** The buffers in the order of their indexes *)
Definition sorted_buffers (m : gmap Z tool_buffer) : list tool_buffer :=
  map snd (sort_by (λ a b, (a.1 <=? b.1)%Z) (map_to_list m)).
Definition _tool_call_events (by_name : option constraints_by_name) (m : gmap Z tool_buffer)
    : outcome vllm_error (list ModelStreamEvent) :=
  calls ← mapM (to_tool_call by_name) (sorted_buffers m); Ok (call_event <$> calls).

Context (structured : option StructuredOutputSpec) (by_name : option constraints_by_name).

Definition _stream_choice_events (choice : dict) : action unit :=
  match field_of "delta" choice with
  | JNull => ret tt
  | delta_value =>
      delta <- lift (_expect_mapping delta_value) ;;
      content <- lift (_optional_string (field_of "content" delta)) ;;
      match content with
      | Some (String a t) =>
          (if structured is Some _ then add_fragment (String a t) else ret tt) ;;;
          yield (token_event (String a t))
      | _ => ret tt
      end ;;;
      refusal <- lift (_optional_string (field_of "refusal" delta)) ;;
      match refusal with
      | Some (String a t) => yield (error_event (refusal_error (String a t)))
      | _ => ret tt
      end ;;;
      match field_of "tool_calls" delta with
      | JNull => ret tt
      | chunks =>
          m <- gets tool_buffers ;;
          m' <- lift (_accumulate_tool_call_chunks chunks m) ;;
          set_buffers m'
      end
  end.

Definition stream_finish (reason : string) : action unit :=
  set_finish_reason reason ;;;
  (if String.eqb reason "tool_calls" then
     m <- gets tool_buffers ;;
     events <- lift (_tool_call_events by_name m) ;;
     set_buffers ∅ ;;;
     for_each yield events
   else ret tt) ;;;
  match structured with
  | Some spec =>
      if String.eqb reason "stop" then
        fragments <- gets structured_fragments ;;
        v <- lift (_to_structured_output (JStr (joined_text fragments)) (constraint spec)) ;;
        yield (structured_event v)
      else ret tt
  | None => ret tt
  end ;;;
  set_terminal_error (_finish_reason_error reason).

Definition stream_choice (raw_choice : json) : action unit :=
  choice <- lift (_expect_mapping raw_choice) ;;
  _stream_choice_events choice ;;;
  reason <- lift (_optional_string (field_of "finish_reason" choice)) ;;
  match reason with Some t => stream_finish t | None => ret tt end.

(** One chunk; [true] when the loop breaks. *)
Definition stream_chunk (chunk : dict) : action bool :=
  provider_error <- lift (_to_provider_error (field_of "error" chunk)) ;;
  match provider_error with
  | Some e => set_terminal_error (Some e) ;;; ret true
  | None =>
      match field_of "usage" chunk with
      | JNull => ret tt
      | usage_value => u <- lift (_to_usage usage_value) ;; set_usage u
      end ;;;
      choices <- lift (_expect_sequence (field_of "choices" chunk)) ;;
      for_each stream_choice choices ;;;
      ret false
  end.

(** The chunks of the client, and the error its generator ends with, if it does *)
Fixpoint stream_chunks (chunks : list dict) (last : option vllm_error) : action unit :=
  match chunks with
  | [] => match last with Some e => raise e | None => ret tt end
  | chunk :: chunks' =>
      stop <- stream_chunk chunk ;;
      if (stop : bool) then ret tt else stream_chunks chunks' last
  end.

Definition end_with_error (e : vllm_error) : action unit :=
  yield (_to_error_event e) ;;; yield (_done_event None None).

Definition stream_body (chunks : list dict) (last : option vllm_error) : action unit :=
  failed <- try_except (stream_chunks chunks last ;;; ret false)
              (λ e, if is_vllm_error e then Some (end_with_error e ;;; ret true) else None) ;;
  if (failed : bool) then ret tt
  else
    error <- gets terminal_error ;;
    match error with Some e => yield (error_event e) | None => ret tt end ;;;
    reason <- gets finish_reason ;;
    usage <- gets stream_usage ;;
    yield (_done_event reason usage).
End adapter.

Section stream.
Context `{InterpreterLimits}.
Context (py_float : string → string) (float_eq : string → string → bool) (float_int_eq : string → Z → bool)
  (sha256_hex : string → string) (py_str : json → string) (config : VllmConfig).

(** The client: it may refuse at once; otherwise it gives chunks and an end. *)
Definition _stream (client : dict → outcome vllm_error (list dict * option vllm_error)) (r : ModelRequest)
    : comp stream_state vllm_error unit :=
  if negb (stream_enabled config) then end_with_error VllmStreamingDisabledError
  else
    match _to_chat_completion_payload sha256_hex py_str config r true with
    | Raise e => end_with_error e
    | Ok payload =>
        by_name <- lift (_tool_constraints_by_name (tool_calling r)) ;;
        match client payload with
        | Raise e => if is_vllm_error e then end_with_error e else raise e
        | Ok (chunks, last) => stream_body py_float float_eq float_int_eq (structured_output_spec r) by_name chunks last
        end
    end.
Definition new_stream : stream_state := mk_stream_state [] [] ∅ None None None.
End stream.

(** ** What every stream looks like *)

Section theorems.
Context `{InterpreterLimits}.
Context (py_float : string → string) (float_eq : string → string → bool) (float_int_eq : string → Z → bool)
  (sha256_hex : string → string) (py_str : json → string) (config : VllmConfig).
Abbreviation validate := (_validate_json_value float_eq float_int_eq).

(** A call of a tool of the request, with arguments the schema of that tool accepts *)
Definition sound_call (tools : constraints_by_name) (c : ModelToolCall) : Prop :=
  unique_keys (JObj (call_arguments c)) ∧
  ∃ con, dict_get (call_name c) tools = Some con ∧ validate (JObj (call_arguments c)) (constraint_schema con) = Ok tt.

Lemma tool_arguments_sound v c args :
  _to_tool_arguments py_float float_eq float_int_eq v c = Ok args →
  unique_keys (JObj args) ∧ check_constraint float_eq float_int_eq (JObj args) c = Ok tt.
Proof.
  unfold _to_tool_arguments. intros (raw & _ & H1)%outcome_bind_Ok.
  assert (∀ u : dict, check_constraint float_eq float_int_eq (JObj []) c ≫= (λ _, Ok []) = Ok u →
    unique_keys (JObj u) ∧ check_constraint float_eq float_int_eq (JObj u) c = Ok tt) as Hempty.
  { intros u ([] & Hc & [= <-])%outcome_bind_Ok. split; [|done]. constructor; [constructor|by intros ?? ?%not_elem_of_nil]. }
  destruct raw as [[|a t]|]; [by apply Hempty| |by apply Hempty].
  apply outcome_bind_Ok in H1 as (decoded & _ & H1).
  apply outcome_bind_Ok in H1 as (o & Ho & ([] & Hc & [= <-])%outcome_bind_Ok). split; [|done].
  unfold _to_json_object in Ho. pose proof (to_json_value_unique decoded) as Hu.
  destruct (_to_json_value decoded); try done. by injection Ho as ->.
Qed.

Lemma named_call_sound name args by_name con id md v m :
  _tool_constraint_for name by_name = Ok con →
  _to_tool_arguments py_float float_eq float_int_eq v con = Ok args →
  by_name = Some m → sound_call m (mk_tool_call name args id md).
Proof.
  intros Hcon [Hu Hc]%tool_arguments_sound ->. split; [done|].
  cbn in Hcon. destruct (dict_get name m) as [con'|] eqn:Hm; [|done]. injection Hcon as <-. by exists con'.
Qed.

Lemma to_tool_call_sound m b c :
  to_tool_call py_float float_eq float_int_eq (Some m) b = Ok c → sound_call m c.
Proof.
  unfold to_tool_call. destruct (buffer_name b) as [name|]; [|done].
  intros (con & Hcon & (args & Hargs & [= <-])%outcome_bind_Ok)%outcome_bind_Ok. by eapply named_call_sound.
Qed.

Lemma complete_call_sound m raw c :
  _to_tool_call py_float float_eq float_int_eq (Some m) raw = Ok c → sound_call m c.
Proof.
  unfold _to_tool_call. intros (item & _ & H1)%outcome_bind_Ok. apply outcome_bind_Ok in H1 as (fn & _ & H1).
  apply outcome_bind_Ok in H1 as (name & _ & H1). apply outcome_bind_Ok in H1 as (con & Hcon & H1).
  apply outcome_bind_Ok in H1 as (args & Hargs & H1). apply outcome_bind_Ok in H1 as (id & _ & H1).
  apply outcome_bind_Ok in H1 as (pa & _ & [= <-]). by eapply named_call_sound.
Qed.

(** An event that does not end the stream, and whose tool call, when the request has
    tools, is sound. The calls of a request without tools are not checked. *)
Definition event_ok (by_name : option constraints_by_name) (e : ModelStreamEvent) : Prop :=
  event_kind e ≠ STREAM_DONE ∧
  ∀ c tools, event_tool_call e = Some c → by_name = Some tools → sound_call tools c.

Section steps.
Context (structured : option StructuredOutputSpec) (by_name : option constraints_by_name).
Definition running (s : stream_state) : Prop := Forall (event_ok by_name) (emitted s).

Lemma running_yield e : event_ok by_name e → preserves running (yield e).
Proof. intros He s Hs. apply Forall_app. split; [done|]. by constructor. Qed.

(** Steps that leave the events alone *)
Lemma running_silent (f : stream_state → stream_state) :
  (∀ s, emitted (f s) = emitted s) → preserves (E := vllm_error) running (modify f).
Proof. intros Hf s Hs. unfold running. cbn. by rewrite Hf. Qed.

Ltac silent := apply running_silent; by intros [].
Ltac plain_event := apply running_yield; split; [done|by intros ? ? [=]].

Lemma running_choice_events choice : preserves running (_stream_choice_events structured choice).
Proof.
  unfold _stream_choice_events.
  assert (∀ v m, preserves running (m' <- lift (_accumulate_tool_call_chunks v m) ;; set_buffers m')) as Hacc.
  { intros v m. apply preserves_bind_lift. intros m' _. silent. }
  destruct (field_of "delta" choice); [apply preserves_ret|..]; apply preserves_bind_lift; intros delta _;
    apply preserves_bind_lift; intros content _; (apply preserves_bind; [|intros _; apply preserves_bind_lift; intros refusal _;
      apply preserves_bind; [|intros _; destruct (field_of "tool_calls" delta);
        [apply preserves_ret|apply preserves_bind; [apply preserves_gets|intros m; apply Hacc]..]]]).
  all: try (destruct content as [[|a t]|]; try apply preserves_ret; apply preserves_bind; [|intros _; plain_event];
    destruct structured; [silent|apply preserves_ret]).
  all: destruct refusal as [[|a t]|]; try apply preserves_ret; plain_event.
Qed.

Lemma running_finish reason : preserves running (stream_finish py_float float_eq float_int_eq structured by_name reason).
Proof.
  unfold stream_finish. apply preserves_bind; [silent|]. intros _. apply preserves_bind.
  { destruct (String.eqb reason "tool_calls"); [|apply preserves_ret]. apply preserves_bind; [apply preserves_gets|]. intros m.
    apply preserves_bind_lift. intros events Hev. apply preserves_bind; [silent|]. intros _.
    apply preserves_for_each_in. intros e He. apply running_yield.
    apply outcome_bind_Ok in Hev as (calls & Hcalls%mapM_outcome_Ok & [= <-]).
    apply list_elem_of_fmap in He as (c & -> & Hc). split; [done|]. intros c' tools [= <-] Htools.
    apply list_elem_of_lookup in Hc as [i Hi]. destruct (Forall2_lookup_r _ _ _ _ _ Hcalls Hi) as (b & _ & Hb).
    rewrite Htools in Hb.
    by eapply to_tool_call_sound. }
  intros _. apply preserves_bind.
  { destruct structured as [spec|]; [|apply preserves_ret]. destruct (String.eqb reason "stop"); [|apply preserves_ret].
    apply preserves_bind; [apply preserves_gets|]. intros l. apply preserves_bind_lift. intros v _. plain_event. }
  intros _. silent.
Qed.

Lemma running_choice raw : preserves running (stream_choice py_float float_eq float_int_eq structured by_name raw).
Proof.
  unfold stream_choice. apply preserves_bind_lift. intros choice _. apply preserves_bind; [apply running_choice_events|].
  intros _. apply preserves_bind_lift. intros [reason|] _; [apply running_finish|apply preserves_ret].
Qed.

Lemma running_chunk chunk : preserves running (stream_chunk py_float float_eq float_int_eq structured by_name chunk).
Proof.
  unfold stream_chunk. apply preserves_bind_lift. intros [e|] _.
  { apply preserves_bind; [silent|intros _; apply preserves_ret]. }
  apply preserves_bind.
  { destruct (field_of "usage" chunk); [apply preserves_ret|apply preserves_bind_lift; intros u _; silent..]. }
  intros _. apply preserves_bind_lift. intros choices _. apply preserves_bind; [apply preserves_for_each, running_choice|].
  intros _. apply preserves_ret.
Qed.

Lemma running_chunks chunks last : preserves running (stream_chunks py_float float_eq float_int_eq structured by_name chunks last).
Proof.
  induction chunks as [|chunk chunks IH]; cbn [stream_chunks]; [destruct last; [apply preserves_raise|apply preserves_ret]|].
  apply preserves_bind; [apply running_chunk|]. intros [|]; [apply preserves_ret|done].
Qed.

(** *** Where the limits of the interpreter come from *)

(** Some text of the server is beyond them. *)
Definition text_beyond_limits : Prop := ∃ text, beyond_limits text = true.
Definition vllm_only {A} (m : outcome vllm_error A) : Prop :=
  ∀ e, m = Raise e → e = InterpreterLimitError → text_beyond_limits.

Lemma vllm_only_invalid {A} (m : outcome vllm_error A) : only_invalid m → vllm_only m.
Proof. intros Hm e ->%Hm. done. Qed.
Lemma vllm_only_bind {A B} (m : outcome vllm_error A) (k : A → outcome vllm_error B) :
  vllm_only m → (∀ a, vllm_only (k a)) → vllm_only (m ≫= k).
Proof. intros Hm Hk e. destruct m as [a|e']; cbn; [by apply Hk|]. intros [= <-]. by apply Hm. Qed.
Lemma vllm_only_Ok {A} (a : A) : vllm_only (Ok a).
Proof. by intros e. Qed.
Lemma vllm_only_mapM {A B} (f : A → outcome vllm_error B) l : (∀ a, vllm_only (f a)) → vllm_only (mapM f l).
Proof.
  intros Hf. induction l as [|a l IH]; [apply vllm_only_Ok|]. apply vllm_only_bind; [done|]. intros b.
  apply vllm_only_bind; [done|]. intros bs. apply vllm_only_Ok.
Qed.
Lemma vllm_only_loads text : vllm_only (loads py_float text).
Proof.
  unfold loads. destruct (beyond_limits text) eqn:Ht; [by exists text|].
  destruct (json_loads py_float text); [apply vllm_only_Ok|]. by intros e [= <-].
Qed.
Lemma vllm_only_validate v s : vllm_only (validate v s).
Proof. apply vllm_only_invalid, only_invalid_validate. Qed.

Create HintDb limits.
#[local] Hint Resolve vllm_only_Ok vllm_only_loads vllm_only_validate : limits.
#[local] Hint Extern 2 (vllm_only (@invalid _)) => (by intros ? [= <-]) : limits.
#[local] Hint Extern 2 (vllm_only (check ?b _)) => (destruct b; by intros ? [= <-]) : limits.
#[local] Hint Extern 2 (vllm_only (fails_if ?b)) => (destruct b; by intros ? [= <-]) : limits.

(** The steps of an outcome, one by one *)
Ltac limits := repeat first
  [ progress intros | progress cbv beta zeta | solve [auto with limits] | apply vllm_only_bind | apply vllm_only_mapM
  | match goal with |- vllm_only (match ?x with _ => _ end) => destruct x end ].

Lemma vllm_only_mapping v : vllm_only (_expect_mapping v).
Proof. apply vllm_only_invalid. by destruct v; intros e [= <-]. Qed.
Lemma vllm_only_sequence v : vllm_only (_expect_sequence v).
Proof. apply vllm_only_invalid. by destruct v; intros e [= <-]. Qed.
Lemma vllm_only_string v : vllm_only (_optional_string v).
Proof. apply vllm_only_invalid. by destruct v; intros e [= <-]. Qed.
Lemma vllm_only_int v : vllm_only (_optional_int v).
Proof. apply vllm_only_invalid. by destruct v; intros e [= <-]. Qed.
Lemma vllm_only_object v : vllm_only (_to_json_object v).
Proof. apply vllm_only_invalid. unfold _to_json_object. by destruct (_to_json_value v); intros e [= <-]. Qed.
#[local] Hint Resolve vllm_only_mapping vllm_only_sequence vllm_only_string vllm_only_int vllm_only_object : limits.

Lemma vllm_only_arguments v c : vllm_only (_to_tool_arguments py_float float_eq float_int_eq v c).
Proof. unfold _to_tool_arguments, check_constraint. limits. Qed.
Lemma vllm_only_structured v c : vllm_only (_to_structured_output py_float float_eq float_int_eq v c).
Proof. unfold _to_structured_output. limits. Qed.
Lemma vllm_only_constraint name m : vllm_only (_tool_constraint_for name m).
Proof. unfold _tool_constraint_for. limits. Qed.
Lemma vllm_only_usage v : vllm_only (_to_usage v).
Proof. unfold _to_usage. limits. Qed.
Lemma vllm_only_provider v : vllm_only (_to_provider_error v).
Proof. unfold _to_provider_error. limits. Qed.
#[local] Hint Resolve vllm_only_arguments vllm_only_structured vllm_only_constraint vllm_only_usage vllm_only_provider : limits.
Lemma vllm_only_events m : vllm_only (_tool_call_events py_float float_eq float_int_eq by_name m).
Proof. unfold _tool_call_events, to_tool_call. limits. Qed.
Lemma vllm_only_delta position raw m : vllm_only (call_delta position raw m).
Proof. unfold call_delta. limits. Qed.
Lemma vllm_only_chunks v m : vllm_only (_accumulate_tool_call_chunks v m).
Proof.
  unfold _accumulate_tool_call_chunks. apply vllm_only_bind; [auto with limits|]. intros raw. generalize 0%nat. revert m.
  induction raw as [|r raw IH]; intros m position; cbn [call_deltas]; [apply vllm_only_Ok|].
  apply vllm_only_bind; [apply vllm_only_delta|]. intros m'. apply IH.
Qed.
#[local] Hint Resolve vllm_only_events vllm_only_chunks : limits.

(** A step of the stream raises the limits of the interpreter only where a text is
    beyond them. *)
Definition raises_limit (e : vllm_error) : Prop := e = InterpreterLimitError → text_beyond_limits.
Definition bounded {A} (m : comp stream_state vllm_error A) : Prop :=
  triple (λ _, True) (λ _, True) raises_limit m.

Lemma bounded_bind {A B} (m : comp stream_state vllm_error A) (k : A → comp stream_state vllm_error B) :
  bounded m → (∀ a, bounded (k a)) → bounded (bind m k).
Proof. intros Hm Hk. eapply triple_bind; [exact Hm|]. intros a _. apply Hk. Qed.
Lemma bounded_lift {A} (m : outcome vllm_error A) : vllm_only m → bounded (lift m).
Proof. intros Hm. apply triple_lift; [done|]. intros e He. exact (Hm e He). Qed.
Lemma bounded_for_each {A} (f : A → comp stream_state vllm_error unit) l : (∀ a, bounded (f a)) → bounded (for_each f l).
Proof. intros Hf. induction l as [|a l IH]; [by apply triple_ret|]. apply bounded_bind; [apply Hf|done]. Qed.

Ltac bounded := repeat first
  [ progress intros | solve [auto with limits] | apply bounded_bind | apply bounded_for_each | apply bounded_lift; solve [auto with limits]
  | by apply triple_ret | by apply triple_gets | by apply triple_modify | done
  | match goal with |- bounded (match ?x with _ => _ end) => destruct x end ].

Lemma bounded_choice raw : bounded (stream_choice py_float float_eq float_int_eq structured by_name raw).
Proof. unfold stream_choice, _stream_choice_events, stream_finish. bounded. Qed.
#[local] Hint Resolve bounded_choice : limits.
Lemma bounded_chunk chunk : bounded (stream_chunk py_float float_eq float_int_eq structured by_name chunk).
Proof. unfold stream_chunk. bounded. Qed.

Lemma chunks_limit chunks last s :
  (stream_chunks py_float float_eq float_int_eq structured by_name chunks last s).1 = Raise InterpreterLimitError →
  text_beyond_limits ∨ last = Some InterpreterLimitError.
Proof.
  revert s. induction chunks as [|chunk chunks IH]; intros s; cbn [stream_chunks].
  { destruct last; [intros [= ->]; by right|done]. }
  unfold bind. destruct (bounded_chunk chunk s I) as [_ Hc].
  destruct (stream_chunk _ _ _ _ _ chunk s) as [[[]|e] s1]; cbn in Hc; [done|apply IH|].
  intros [= ->]. left. by apply Hc.
Qed.

(** What a generator leaves when it ends: events that do not end the stream, and one that
    does. Or it raises, where the interpreter is at its limits. *)
Definition closed (limit : Prop) (m : comp stream_state vllm_error unit) : Prop :=
  ∀ s, running s → ∃ s' pre, Forall (event_ok by_name) pre ∧
    ((∃ reason usage, m s = (Ok tt, s') ∧ emitted s' = pre ++ [_done_event reason usage]) ∨
     (m s = (Raise InterpreterLimitError, s') ∧ emitted s' = pre ∧ limit)).

Lemma error_ok e : event_ok by_name (error_event e).
Proof. split; [done|by intros ? ? [=]]. Qed.

Lemma closed_error limit e : closed limit (end_with_error e).
Proof.
  intros s Hs. eexists _, (emitted s ++ [_to_error_event e]). split; [|left; by exists None, None].
  apply Forall_app. split; [done|]. constructor; [apply error_ok|done].
Qed.

Lemma stream_body_eq chunks last s :
  stream_body py_float float_eq float_int_eq structured by_name chunks last s =
  match stream_chunks py_float float_eq float_int_eq structured by_name chunks last s with
  | (Ok _, s1) =>
      let s2 := match terminal_error s1 with Some x => (yield (error_event x) s1).2 | None => s1 end in
      yield (_done_event (finish_reason s1) (stream_usage s1)) s2
  | (Raise e, s1) => if is_vllm_error e then end_with_error e s1 else (Raise e, s1)
  end.
Proof.
  unfold stream_body, try_except, bind at 1. unfold bind at 1.
  destruct (stream_chunks _ _ _ _ _ chunks last s) as [[[]|e] s1].
  - destruct (terminal_error s1) eqn:Hte; cbn; unfold bind, gets; cbn; rewrite Hte;
      unfold yield, modify; cbn; rewrite ?Hte; reflexivity.
  - by destruct (is_vllm_error e).
Qed.

Lemma closed_body chunks last :
  closed (text_beyond_limits ∨ last = Some InterpreterLimitError)
    (stream_body py_float float_eq float_int_eq structured by_name chunks last).
Proof.
  intros s Hs. rewrite stream_body_eq.
  pose proof (running_chunks chunks last s Hs) as Hrun. pose proof (chunks_limit chunks last s) as Hlim.
  destruct (stream_chunks _ _ _ _ _ chunks last s) as [[[]|e] s1]; cbn [fst snd] in Hrun, Hlim.
  - destruct (terminal_error s1) as [x|].
    + eexists _, (emitted s1 ++ [error_event x]). split; [|left; by exists (finish_reason s1), (stream_usage s1)].
      apply Forall_app. split; [done|]. constructor; [apply error_ok|done].
    + eexists _, (emitted s1). split; [done|]. left. by exists (finish_reason s1), (stream_usage s1).
  - unfold is_vllm_error. destruct (decide (e = InterpreterLimitError)) as [->|He].
    + exists s1, (emitted s1). split; [done|]. right. split_and!; [done..|by apply Hlim].
    + rewrite bool_decide_eq_true_2 by done. destruct (closed_error False e s1 Hrun) as (s' & pre & Hpre & [Hend|(_ & _ & [])]).
      exists s', pre. split; [done|]. by left.
Qed.
End steps.

(** The client gives its chunks and ends, or raises, at the limits of the interpreter. *)
Definition client_limit (client : dict → outcome vllm_error (list dict * option vllm_error)) : Prop :=
  ∃ payload, client payload = Raise InterpreterLimitError ∨
    ∃ chunks, client payload = Ok (chunks, Some InterpreterLimitError).

Lemma stream_closed client r by_name :
  _tool_constraints_by_name (tool_calling r) = Ok by_name →
  closed by_name (text_beyond_limits ∨ client_limit client)
    (_stream py_float float_eq float_int_eq sha256_hex py_str config client r).
Proof.
  intros Hby. unfold _stream. destruct (stream_enabled config); cbn [negb]; [|apply closed_error].
  destruct (_to_chat_completion_payload _ _ _ _ _) as [payload|e]; [|apply closed_error]. rewrite Hby.
  intros s Hs. unfold bind, lift. destruct (client payload) as [[chunks last]|e] eqn:Hc.
  - destruct (closed_body (structured_output_spec r) by_name chunks last s Hs) as (s' & pre & Hpre & [Hend|(Hend & Hem & Hlim)]);
      exists s', pre; (split; [done|]); [by left|right]. split_and!; [done..|].
    destruct Hlim as [Hlim|Hlim]; [by left|right]. exists payload. right. exists chunks. by rewrite Hc, Hlim.
  - unfold is_vllm_error. destruct (decide (e = InterpreterLimitError)) as [->|He];
      [|rewrite bool_decide_eq_true_2 by done; by apply closed_error].
    exists s, (emitted s). split; [done|]. right. split_and!; [done..|]. right. exists payload. by left.
Qed.


(** Two tools of one name escape the generator as an exception, without an event. *)
Theorem duplicate_tools_raise client r t tools payload :
  stream_enabled config = true → tool_calling r = Some (mk_tool_calling (t :: t :: tools) CHOICE_REQUIRED) →
  _to_chat_completion_payload sha256_hex py_str config r true = Ok payload →
  _stream py_float float_eq float_int_eq sha256_hex py_str config client r new_stream = (Raise VllmResponseError, new_stream).
Proof.
  intros Hen Ht Hp. unfold _stream. rewrite Hen, Hp, Ht. cbn [negb _tool_constraints_by_name spec_tools collect_constraints].
  unfold bind, lift. cbn. unfold dict_has. cbn. by rewrite decide_True.
Qed.
End theorems.

(** ** Streaming against completing

    A tool call as the server means it, and the two ways it is sent *)
Record sent_call := mk_sent_call {
  sent_id : option string;
  sent_name : string;
  sent_arguments : string;
}.
Definition call_json (c : sent_call) : json :=
  JObj [("id", opt_text (sent_id c)); ("type", JStr "function");
        ("function", JObj [("name", JStr (sent_name c)); ("arguments", JStr (sent_arguments c))])].

(** An item of a delta: what it adds to the call of an index *)
Record fragment := mk_fragment {
  fragment_index : nat;
  fragment_id : option string;
  fragment_name : option string;
  fragment_text : option string;
}.
Definition fragment_json (f : fragment) : json :=
  JObj [("index", JInt (Z.of_nat (fragment_index f))); ("id", opt_text (fragment_id f));
        ("function", JObj [("name", opt_text (fragment_name f)); ("arguments", opt_text (fragment_text f))])].

(** The last value given *)
Definition latest (l : list (option string)) : option string :=
  foldl (λ acc o, match o with Some t => Some t | None => acc end) None l.
Definition of_index (i : nat) (fs : list fragment) : list fragment := List.filter (λ f, (fragment_index f =? i)%nat) fs.

(** The fragments, in whatever pieces and interleaving, are those of [calls]. *)
Definition fragments_of (fs : list fragment) (calls : list sent_call) : Prop :=
  (∀ f, f ∈ fs → (fragment_index f < length calls)%nat) ∧
  ∀ i c, calls !! i = Some c →
    of_index i fs ≠ [] ∧ latest (fragment_id <$> of_index i fs) = sent_id c ∧
    latest (fragment_name <$> of_index i fs) = Some (sent_name c) ∧
    joined_text (omap fragment_text (of_index i fs)) = sent_arguments c.

Definition apply_fragment (m : gmap Z tool_buffer) (f : fragment) : gmap Z tool_buffer :=
  let b := default empty_buffer (m !! Z.of_nat (fragment_index f)) in
  <[Z.of_nat (fragment_index f) :=
      mk_buffer (match fragment_id f with Some c => Some c | None => buffer_call_id b end)
        (match fragment_name f with Some n => Some n | None => buffer_name b end)
        (arguments_fragments b ++ match fragment_text f with Some t => [t] | None => [] end)]> m.

Lemma optional_opt_text t : _optional_string (opt_text t) = Ok t.
Proof. by destruct t. Qed.

Lemma call_delta_fragment position f m : call_delta position (fragment_json f) m = Ok (apply_fragment m f).
Proof. destruct f as [i [fid|] [fname|] [ft|]]; reflexivity. Qed.

Lemma call_deltas_fragments position fs m :
  call_deltas position (fragment_json <$> fs) m = Ok (foldl apply_fragment m fs).
Proof.
  revert position m. induction fs as [|f fs IH]; intros position m; [done|]. cbn [fmap list_fmap call_deltas foldl].
  by rewrite call_delta_fragment; cbn; rewrite IH.
Qed.

(** What the buffers hold of an index *)
Lemma apply_fragments_lookup fs m i :
  foldl apply_fragment m fs !! Z.of_nat i =
  match of_index i fs with
  | [] => m !! Z.of_nat i
  | mine =>
      let b := default empty_buffer (m !! Z.of_nat i) in
      Some (mk_buffer (foldl (λ acc o, match o with Some t => Some t | None => acc end) (buffer_call_id b) (fragment_id <$> mine))
              (foldl (λ acc o, match o with Some t => Some t | None => acc end) (buffer_name b) (fragment_name <$> mine))
              (arguments_fragments b ++ omap fragment_text mine))
  end.
Proof.
  revert m. induction fs as [|f fs IH]; intros m; cbn [foldl]; [done|]. rewrite IH.
  change (of_index i (f :: fs)) with (if (fragment_index f =? i)%nat then f :: of_index i fs else of_index i fs).
  destruct (Nat.eqb_spec (fragment_index f) i) as [<-|Hne].
  - unfold apply_fragment. rewrite lookup_insert_eq. cbn [default buffer_call_id buffer_name arguments_fragments].
    destruct (of_index _ fs) as [|g mine]; cbn [fmap list_fmap foldl omap list_omap].
    + destruct (fragment_id f), (fragment_name f), (fragment_text f); by rewrite ?app_nil_r.
    + destruct (fragment_text f); cbn; by rewrite ?app_nil_r, <-?app_assoc.
  - unfold apply_fragment. rewrite lookup_insert_ne by lia. done.
Qed.

Lemma lookup_other fs m z :
  (∀ f, f ∈ fs → Z.of_nat (fragment_index f) ≠ z) → foldl apply_fragment m fs !! z = m !! z.
Proof.
  revert m. induction fs as [|f fs IH]; intros m Hf; cbn [foldl]; [done|]. rewrite IH by (intros g Hg; apply Hf; by right).
  unfold apply_fragment. rewrite lookup_insert_ne; [done|]. apply Hf. by left.
Qed.

(** The buffers of a list, at the indexes 0, 1, ... *)
Definition indexed (i : nat) (l : list tool_buffer) : list (Z * tool_buffer) := imap (λ k b, (Z.of_nat (i + k), b)) l.

Lemma sorted_buffers_list m (l : list tool_buffer) :
  (∀ i, m !! Z.of_nat i = l !! i) → (∀ z, (z < 0)%Z → m !! z = None) → sorted_buffers m = l.
Proof.
  intros Hm Hneg. unfold sorted_buffers.
  assert (∀ k (l : list tool_buffer), (indexed k l).*1 = Z.of_nat <$> seq k (length l)) as Hkeys.
  { intros k l'. unfold indexed. revert k. induction l' as [|b l' IH]; intros k; [done|]. cbn. rewrite Nat.add_0_r. f_equal.
    rewrite <-(IH (S k)). f_equal. apply imap_ext. intros j b' _. cbn. f_equal. f_equal. lia. }
  assert (sort_by (λ a b : Z * tool_buffer, (a.1 <=? b.1)%Z) (map_to_list m) = indexed 0 l) as ->.
  2:{ unfold indexed. change (map snd) with (fmap (M := list) (@snd Z tool_buffer)). rewrite fmap_imap.
      apply list_eq. intros i. rewrite list_lookup_imap. by destruct (l !! i). }
  rewrite <-(sort_by_id (λ a b : Z * tool_buffer, (a.1 <=? b.1)%Z) (indexed 0 l)).
  - refine (sort_by_perm_eq (λ a b : Z * tool_buffer, (a.1 <=? b.1)%Z) _ _ fst _ _ _ _ _).
    + intros x y Hxy. apply Z.leb_gt in Hxy. apply Z.leb_le. lia.
    + intros x y z Hx Hy. apply Z.leb_le in Hx, Hy. apply Z.leb_le. lia.
    + intros x y Hx Hy. apply Z.leb_le in Hx, Hy. lia.
    + apply NoDup_fst_map_to_list.
    + apply NoDup_Permutation; [apply NoDup_map_to_list|apply (NoDup_fmap_1 fst); rewrite Hkeys; apply NoDup_fmap_2; [apply _|apply NoDup_seq]|].
      intros [z b]. rewrite elem_of_map_to_list. unfold indexed. rewrite elem_of_lookup_imap. split.
      * intros Hz. destruct (decide (z < 0)%Z) as [Hlt|Hge]; [by rewrite Hneg in Hz|].
        exists (Z.to_nat z), b. split; [f_equal; cbn; lia|]. rewrite <-Hm, Z2Nat.id by lia. done.
      * intros (i & b' & [= -> ->] & Hi). by rewrite Hm.
  - assert (∀ k (l : list tool_buffer), Sorted (λ x y : Z * tool_buffer, (x.1 <=? y.1)%Z = true) (indexed k l)) as Hs; [|apply Hs].
    intros k l'. revert k. induction l' as [|b l' IH]; intros k; [constructor|]. unfold indexed. cbn.
    assert (imap ((λ (k0 : nat) (b0 : tool_buffer), (Z.of_nat (k + k0), b0)) ∘ S) l' = indexed (S k) l') as ->.
    { apply imap_ext. intros j b' _. cbn. f_equal. f_equal. lia. }
    constructor; [apply IH|]. destruct l' as [|b' l']; constructor. apply Z.leb_le. cbn. lia.
Qed.

Section equivalence.
Context `{InterpreterLimits}.
Context (py_float : string → string) (float_eq : string → string → bool) (float_int_eq : string → Z → bool).

Definition buffer_of (fs : list fragment) (i : nat) : tool_buffer :=
  mk_buffer (latest (fragment_id <$> of_index i fs)) (latest (fragment_name <$> of_index i fs)) (omap fragment_text (of_index i fs)).

Lemma fragments_buffers fs calls :
  fragments_of fs calls → sorted_buffers (foldl apply_fragment ∅ fs) = buffer_of fs <$> seq 0 (length calls).
Proof.
  intros [Hidx Hcalls]. apply sorted_buffers_list.
  - intros i. rewrite apply_fragments_lookup, lookup_empty, list_lookup_fmap. destruct (decide (i < length calls)%nat) as [Hlt|Hge].
    + rewrite lookup_seq_lt by done. destruct (lookup_lt_is_Some_2 calls i Hlt) as [c Hc]. destruct (Hcalls i c Hc) as [Hne _].
      unfold buffer_of, latest. cbn. by destruct (of_index i fs).
    + rewrite lookup_seq_ge by lia. cbn. destruct (of_index i fs) as [|f l] eqn:Hof; [done|].
      assert (f ∈ of_index i fs) as Hf by (rewrite Hof; by left). unfold of_index in Hf.
      apply list_elem_of_In, filter_In in Hf as [Hf%list_elem_of_In Hi%Nat.eqb_eq]. apply Hidx in Hf. lia.
  - intros z Hz. rewrite lookup_other; [apply lookup_empty|]. intros f _. lia.
Qed.

Lemma buffer_is_call by_name fs i c :
  latest (fragment_id <$> of_index i fs) = sent_id c → latest (fragment_name <$> of_index i fs) = Some (sent_name c) →
  joined_text (omap fragment_text (of_index i fs)) = sent_arguments c →
  to_tool_call py_float float_eq float_int_eq by_name (buffer_of fs i) =
  _to_tool_call py_float float_eq float_int_eq by_name (call_json c).
Proof.
  intros Hid Hname Hargs. unfold to_tool_call, buffer_of. cbn [buffer_name arguments_fragments buffer_call_id]. rewrite Hid, Hname, Hargs.
  transitivity (con ← _tool_constraint_for (sent_name c) by_name;
                args ← _to_tool_arguments py_float float_eq float_int_eq (JStr (sent_arguments c)) con;
                call_id ← _optional_string (opt_text (sent_id c));
                Ok (mk_tool_call (sent_name c) args call_id
                      [("provider_arguments", JStr (text_or (Some (sent_arguments c)) ""))])); [|reflexivity].
  rewrite optional_opt_text. by destruct (sent_arguments c).
Qed.

(** C24. Streaming is completing in pieces: however the server splits the arguments of its
    tool calls and interleaves the pieces in the deltas of a stream, the calls the
    adapter gathers are the calls it reads in the complete message, arguments,
    identifiers and refusals included. *)
Theorem streaming_equals_completing by_name (chunks : list (list fragment)) calls :
  fragments_of (concat chunks) calls →
  ∃ m, foldl (λ o chunk, o ≫= _accumulate_tool_call_chunks (JList (fragment_json <$> chunk))) (Ok ∅) chunks = Ok m ∧
    mapM (to_tool_call py_float float_eq float_int_eq by_name) (sorted_buffers m) =
    _to_tool_calls py_float float_eq float_int_eq (JList (call_json <$> calls)) by_name.
Proof.
  intros Hfs. exists (foldl apply_fragment ∅ (concat chunks)). split.
  - generalize (∅ : gmap Z tool_buffer). clear. induction chunks as [|chunk chunks IH]; intros m; cbn [foldl concat]; [done|].
    cbn [mbind outcome_bind]. unfold _accumulate_tool_call_chunks at 2. cbn [_expect_sequence mbind outcome_bind].
    rewrite call_deltas_fragments, IH. by rewrite foldl_app.
  - rewrite (fragments_buffers _ _ Hfs). destruct Hfs as [_ Hcalls]. unfold _to_tool_calls. cbn [_expect_sequence mbind outcome_bind].
    revert Hcalls. generalize (concat chunks). intros fs Hcalls.
    assert (∀ k, (∀ i c, calls !! i = Some c → to_tool_call py_float float_eq float_int_eq by_name (buffer_of fs (k + i)) =
      _to_tool_call py_float float_eq float_int_eq by_name (call_json c)) →
      mapM (to_tool_call py_float float_eq float_int_eq by_name) (buffer_of fs <$> seq k (length calls)) =
      mapM (_to_tool_call py_float float_eq float_int_eq by_name) (call_json <$> calls)) as Hmap.
    { clear Hcalls. induction calls as [|c calls IH]; intros k Hk; [done|]. cbn [length seq fmap list_fmap mapM].
      pose proof (Hk 0%nat c eq_refl) as H0. rewrite Nat.add_0_r in H0. rewrite H0. rewrite (IH (S k)); [done|].
      intros i c' Hi. specialize (Hk (S i) c' Hi). by rewrite Nat.add_succ_r in Hk. }
    apply Hmap. intros i c Hc. destruct (Hcalls i c Hc) as (_ & Hid & Hname & Hargs). by apply buffer_is_call.
Qed.
End equivalence.

(** ** From the server to the tool *)

Lemma collect_constraints_get tools acc m :
  collect_constraints tools acc = Ok m →
  (∀ t, t ∈ tools → dict_get (spec_name t) m = Some (spec_parameters t)) ∧
  (∀ k c, dict_get k acc = Some c → dict_get k m = Some c).
Proof.
  revert acc. induction tools as [|t tools IH]; intros acc; cbn [collect_constraints].
  { intros [= <-]. by split; [intros ? ?%not_elem_of_nil|]. }
  destruct (dict_has (spec_name t) acc) eqn:Hhas; [done|]. intros (Ht & Hacc)%IH.
  split; [intros t' [->|Hin]%elem_of_cons; [|by apply Ht]|intros k c Hk]; apply Hacc.
  - by rewrite dict_get_set_eq.
  - rewrite dict_get_set_ne; [done|]. intros ->. unfold dict_has in Hhas. by rewrite Hk in Hhas.
Qed.

Section binding.
Context `{InterpreterLimits}.
Context (py_float : string → string) (float_eq : string → string → bool) (float_int_eq : string → Z → bool)
  (sha256_hex : string → string) (py_str : json → string) (config : VllmConfig).
Context (classes : dataclasses) (Hclasses : classes_ok classes).

Lemma response_calls_sound response r by_name resp c :
  _to_model_response py_float float_eq float_int_eq response r (Some by_name) = Ok resp → c ∈ response_tool_calls resp →
  sound_call float_eq float_int_eq by_name c.
Proof.
  unfold _to_model_response. intros (choices & _ & H1)%outcome_bind_Ok Hc. destruct choices as [|first choices]; [done|].
  apply outcome_bind_Ok in H1 as (fc & _ & H1). apply outcome_bind_Ok in H1 as (reason & _ & H1).
  apply outcome_bind_Ok in H1 as (message & _ & H1). apply outcome_bind_Ok in H1 as (refusal & _ & H1).
  apply outcome_bind_Ok in H1 as (u1 & _ & H1). apply outcome_bind_Ok in H1 as (u2 & _ & H1).
  apply outcome_bind_Ok in H1 as (calls & Hcalls & H1). apply outcome_bind_Ok in H1 as (u3 & _ & H1).
  apply outcome_bind_Ok in H1 as (content & _ & H1). apply outcome_bind_Ok in H1 as (st & _ & H1).
  apply outcome_bind_Ok in H1 as (usage & _ & [= <-]). cbn [response_tool_calls] in Hc.
  assert (∃ l, mapM (_to_tool_call py_float float_eq float_int_eq (Some by_name)) l = Ok calls) as [l Hl%mapM_outcome_Ok].
  { unfold _to_tool_calls in Hcalls. destruct (field_of "tool_calls" message); [injection Hcalls as <-; by exists []|..];
      apply outcome_bind_Ok in Hcalls as (raw & _ & Hraw); by exists raw. }
  destruct (Forall2_elem_r _ _ _ _ Hl Hc) as (raw & _ & Hraw). by eapply complete_call_sound.
Qed.

(** The tool calls a request ends up with, streamed or complete *)
Definition yields_call (r : ModelRequest) (c : ModelToolCall) : Prop :=
  (∃ client s e, _stream py_float float_eq float_int_eq sha256_hex py_str config client r new_stream = (Ok tt, s) ∧
     e ∈ emitted s ∧ event_tool_call e = Some c) ∨
  (∃ client resp, complete py_float float_eq float_int_eq sha256_hex py_str config client r = Ok resp ∧ c ∈ response_tool_calls resp).

Lemma yields_sound r tools c :
  _tool_constraints_by_name (tool_calling r) = Ok (Some tools) → yields_call r c → sound_call float_eq float_int_eq tools c.
Proof.
  intros Hby [(client & s & e & Hs & He & Hc)|(client & resp & Hr & Hc)].
  - destruct (stream_closed py_float float_eq float_int_eq sha256_hex py_str config client r (Some tools) Hby new_stream)
      as (s' & pre & Hpre & [(reason & usage & Hs' & Hem)|(Hs' & _)]); [constructor| |congruence].
    rewrite Hs in Hs'. injection Hs' as <-.
    rewrite Hem in He. apply elem_of_app in He as [He|He]; [|apply list_elem_of_singleton in He as ->; done].
    rewrite Forall_forall in Hpre. by apply (Hpre e He).
  - unfold complete in Hr. apply outcome_bind_Ok in Hr as (p & _ & Hr). apply outcome_bind_Ok in Hr as (b & Hb & Hr).
    apply outcome_bind_Ok in Hr as (response & _ & Hr). rewrite Hby in Hb. injection Hb as <-. by eapply response_calls_sound.
Qed.

(** What the model asks for can be called: a tool call a server sends, streamed or
    complete, for a tool published with the schema of a function's parameters, binds to
    that function, with a value of the annotated type for every parameter the server gave
    and the default for every other. *)
Theorem yielded_calls_bind r by_name t spec f fuel name s c :
  tool_calling r = Some spec → t ∈ spec_tools spec → _tool_constraints_by_name (tool_calling r) = Ok by_name →
  _build_input_schema classes fuel f name = Ok s → constraint_schema (spec_parameters t) = schema s →
  (∀ p a, p ∈ parameters f → parameter_hint p = Some a → plain_enums classes fuel a) →
  NoDup (parameter_name <$> schema_parameters f) → _drop_owner_parameter (parameters f) = schema_parameters f →
  "args" ∉ parameter_name <$> schema_parameters f → "kwargs" ∉ parameter_name <$> schema_parameters f →
  yields_call r c → call_name c = spec_name t →
  ∃ i, bind_agent_tool_invocation f (JObj (call_arguments c)) = Ok i ∧
    Forall2 (parameter_value classes (call_arguments c)) (schema_parameters f) (call_values i).
Proof.
  intros Hr Ht Hby Hs Hcon Hplain Hnd Hown Hargs Hkwargs Hc Hname.
  assert (∃ m, by_name = Some m ∧ collect_constraints (spec_tools spec) [] = Ok m) as (m & -> & Hcol).
  { rewrite Hr in Hby. cbn [_tool_constraints_by_name] in Hby.
    destruct (collect_constraints (spec_tools spec) []) as [m|]; [|done]. injection Hby as <-. by exists m. }
  destruct (yields_sound r m c Hby Hc) as [Hu (con & Hg & Hv)].
  destruct (collect_constraints_get _ _ _ Hcol) as [Hget _].
  rewrite Hname, (Hget t Ht) in Hg. injection Hg as <-. rewrite Hcon in Hv.
  apply validate_exact in Hv; [|by eapply input_schema_ok|done].
  destruct (valid_payload_binds classes Hclasses f fuel name s (call_arguments c) Hnd Hown Hargs Hkwargs Hs) as (i & Hi & Hvals & _);
    [by inversion Hu|done|]. by exists i.
Qed.
End binding.

(** ** Witnesses *)

(** [sys.get_int_max_str_digits()] is 4300. *)
Fixpoint digits_run (n longest : nat) (s : string) : nat :=
  match s with
  | "" => Nat.max n longest
  | String c s' => if is_digit c then digits_run (S n) longest s' else digits_run 0 (Nat.max n longest) s'
  end.
#[local] Instance ex_limits : InterpreterLimits := { beyond_limits t := (4300 <? digits_run 0 0 t)%nat }.

Definition ex_float (t : string) : string := t.
Definition ex_no (_ _ : string) : bool := false.
Definition ex_no_int (_ : string) (_ : Z) : bool := false.
Definition ex_str (_ : json) : string := "?".
Definition ex_config : VllmConfig := mk_vllm_config "llama" [] true.
Definition ex_spec : ToolCallingSpec := mk_tool_calling [mk_tool_spec "refund" (mk_constraint ex_tool_schema false) None] CHOICE_REQUIRED.
Definition ex_request : ModelRequest := mk_model_request [] [] None (Some ex_spec) (mk_sampling None None None) false.
Definition ex_by_name : option constraints_by_name := Some [("refund", mk_constraint ex_tool_schema false)].
Definition ex_part_1 : fragment :=
  mk_fragment 0 (Some "call-1") (Some "refund") (Some (String.concat (String (Ascii.ascii_of_nat 34) "") ["{"; "order"; ":"; "o-1"; ", "])).
Definition ex_part_2 : fragment :=
  mk_fragment 0 None None (Some (String.concat (String (Ascii.ascii_of_nat 34) "") [""; "reason"; ":"; "lost"; "}"])).
Definition ex_choice (parts : list fragment) (reason : json) : json :=
  JObj [("delta", JObj [("tool_calls", JList (fragment_json <$> parts))]); ("finish_reason", reason)].
Definition ex_chunk (parts : list fragment) (reason : json) : dict := [("choices", JList [ex_choice parts reason])].
Definition ex_chunks : list dict := [ex_chunk [ex_part_1] JNull; ex_chunk [ex_part_2] (JStr "tool_calls")].
Definition ex_client (_ : dict) : outcome vllm_error (list dict * option vllm_error) := Ok (ex_chunks, None).
Definition ex_run : comp stream_state vllm_error unit :=
  _stream ex_float ex_no ex_no_int (λ _, "?") ex_str ex_config ex_client ex_request.

Example ex_stream_yields :
  map event_kind (emitted (ex_run new_stream).2) = [TOOL_CALL_CANDIDATE; STREAM_DONE] ∧
  omap event_tool_call (emitted (ex_run new_stream).2) =
    [mk_tool_call "refund" ex_arguments (Some "call-1")
       [("provider_arguments", JStr (default "" (fragment_text ex_part_1) +:+ default "" (fragment_text ex_part_2)))]].
Proof. vm_compute. done. Qed.


Definition ex_call : sent_call :=
  mk_sent_call (Some "call-1") "refund" (default "" (fragment_text ex_part_1) +:+ default "" (fragment_text ex_part_2)).

Lemma ex_fragments : fragments_of (concat [[ex_part_1]; [ex_part_2]]) [ex_call].
Proof.
  split; [intros f; cbn; rewrite !elem_of_cons, elem_of_nil; intros [->|[->|[]]]; cbn; lia|].
  intros [|i] c Hc; [|done]. injection Hc as <-. done.
Defined.

Lemma streaming_equals_completing_witness :
  ∃ m, foldl (λ o chunk, o ≫= _accumulate_tool_call_chunks (JList (fragment_json <$> chunk))) (Ok ∅) [[ex_part_1]; [ex_part_2]] = Ok m ∧
    mapM (to_tool_call ex_float ex_no ex_no_int ex_by_name) (sorted_buffers m) =
    _to_tool_calls ex_float ex_no ex_no_int (JList [call_json ex_call]) ex_by_name.
Proof.
  apply (streaming_equals_completing ex_float ex_no ex_no_int ex_by_name [[ex_part_1]; [ex_part_2]] [ex_call]).
  exact ex_fragments.
Defined.

Lemma yielded_calls_bind_witness :
  ∃ i, bind_agent_tool_invocation ex_tool (JObj ex_arguments) = Ok i ∧ call_values i = [JStr "o-1"; JStr "lost"; JInt 1].
Proof.
  destruct (_build_input_schema ex_no_classes 3 ex_tool "refund") as [s|e] eqn:Hs; [|discriminate Hs].
  set (c := mk_tool_call "refund" ex_arguments (Some "call-1") [("provider_arguments", JStr (sent_arguments ex_call))]).
  destruct (yielded_calls_bind ex_float ex_no ex_no_int (λ _, "?") ex_str ex_config ex_no_classes) with
    (r := ex_request) (by_name := ex_by_name) (t := mk_tool_spec "refund" (mk_constraint ex_tool_schema false) None)
    (spec := ex_spec) (f := ex_tool) (fuel := 3) (name := "refund") (s := s) (c := c) as (i & Hi & _).
  - by intros n fs ?.
  - done.
  - by left.
  - reflexivity.
  - exact Hs.
  - cbn [spec_parameters constraint_schema]. unfold ex_tool_schema. by rewrite Hs.
  - exact ex_tool_plain.
  - decide_compute.
  - reflexivity.
  - decide_compute.
  - decide_compute.
  - left. eexists ex_client, (ex_run new_stream).2, (call_event c). split; [vm_compute; reflexivity|].
    split; [|done]. vm_compute. left.
  - done.
  - exists i. split; [exact Hi|]. vm_compute in Hi. by injection Hi as <-.
Defined.

(** ** An argument beyond the limits of the interpreter *)

Definition ex_long_integer : string := String.concat "" (replicate 4301 "9").
Definition ex_long_client (_ : dict) : outcome vllm_error (list dict * option vllm_error) :=
  Ok ([ex_chunk [mk_fragment 0 (Some "call-1") (Some "refund") (Some ex_long_integer)] (JStr "tool_calls")], None).

(** A server that sends an integer of 4301 digits as the arguments of a call ends the
    stream with an exception that is not of the package, and without a DONE. *)
Theorem oversized_integer_escapes_the_stream :
  _stream ex_float ex_no ex_no_int (λ _, "?") ex_str ex_config ex_long_client ex_request new_stream =
    (Raise InterpreterLimitError,
     (_stream ex_float ex_no ex_no_int (λ _, "?") ex_str ex_config ex_long_client ex_request new_stream).2) ∧
  emitted (_stream ex_float ex_no ex_no_int (λ _, "?") ex_str ex_config ex_long_client ex_request new_stream).2 = [].
Proof.
  split; [|vm_compute; reflexivity].
  assert ((_stream ex_float ex_no ex_no_int (λ _, "?") ex_str ex_config ex_long_client ex_request new_stream).1 =
    Raise InterpreterLimitError) as <- by (vm_compute; reflexivity). apply surjective_pairing.
Qed.

(** ** Where a stream and a complete response differ *)

Definition ex_none_request : ModelRequest :=
  mk_model_request [] [] None (Some (mk_tool_calling (spec_tools ex_spec) CHOICE_NONE)) (mk_sampling None None None) false.
Definition ex_response (reason content : json) (calls : list sent_call) : dict :=
  [("choices", JList [JObj [("finish_reason", reason);
     ("message", JObj [("content", content); ("tool_calls", JList (call_json <$> calls))])]])].

(** A request that allows no tool call: complete refuses the response, a stream yields
    the call. *)
Theorem disallowed_call_is_streamed :
  complete ex_float ex_no ex_no_int (λ _, "?") ex_str ex_config (λ _, Ok (ex_response (JStr "tool_calls") JNull [ex_call])) ex_none_request =
    Raise VllmResponseError ∧
  map event_kind (emitted (_stream ex_float ex_no ex_no_int (λ _, "?") ex_str ex_config ex_client ex_none_request new_stream).2) =
    [TOOL_CALL_CANDIDATE; STREAM_DONE].
Proof. vm_compute. done. Qed.

(** A server that ends a message with tool calls with the reason stop: complete reads
    the call, a stream yields nothing but DONE. *)
Theorem stopped_calls_are_dropped :
  (response_tool_calls <$>
    match complete ex_float ex_no ex_no_int (λ _, "?") ex_str ex_config (λ _, Ok (ex_response (JStr "stop") JNull [ex_call])) ex_request
    with Ok r => Some r | Raise _ => None end) =
    Some [mk_tool_call "refund" ex_arguments (Some "call-1") [("provider_arguments", JStr (sent_arguments ex_call))]] ∧
  map event_kind (emitted (_stream ex_float ex_no ex_no_int (λ _, "?") ex_str ex_config
    (λ _, Ok ([ex_chunk [ex_part_1; ex_part_2] (JStr "stop")], None)) ex_request new_stream).2) = [STREAM_DONE].
Proof. vm_compute. done. Qed.

(** An answer cut at the limit of tokens: complete returns it as it is, a stream reports
    an error. *)
Theorem cut_answer_completes :
  (response_content <$>
    match complete ex_float ex_no ex_no_int (λ _, "?") ex_str ex_config (λ _, Ok (ex_response (JStr "length") (JStr "half a sen") [])) ex_request
    with Ok r => Some r | Raise _ => None end) = Some "half a sen" ∧
  map event_kind (emitted (_stream ex_float ex_no ex_no_int (λ _, "?") ex_str ex_config
    (λ _, Ok ([ex_chunk [] (JStr "length")], None)) ex_request new_stream).2) = [STREAM_ERROR; STREAM_DONE].
Proof. vm_compute. done. Qed.

(** The error a server reports with an integer as its code is replaced by the adapter's
    own: code and message are lost. *)
Theorem numbered_error_is_lost m :
  _to_provider_error (JObj [("message", JStr m); ("code", JInt 400)]) = Raise VllmResponseError.
Proof. reflexivity. Qed.
