(* ===== verification/VllmClient.v ===== *)
(** * The HTTP client of the vLLM adapter

    [plugins/spakky-vllm/.../client.py]: the requests to the endpoint and the
    decoding of server-sent events, which give the adapter of [Vllm.v] the objects
    it reads. What httpx does with the connection is a parameter. *)

From S2P Require Import Prelude Json AgentSafety Agent AgentTooling ModelPort VllmSchema Vllm.

(** ** Failures

    [TimeoutException], another [HTTPError], or an exception that is neither (an
    invalid URL). The errors of the client are those of the package and the limits of
    the interpreter ([InterpreterLimitError]); [Escaped] is an exception of httpx that
    none of its clauses catches. *)
Inductive http_failure := HttpTimeout | HttpError | HttpOther.
Inductive client_error := Vllm_error (e : vllm_error) | Escaped.
Definition failure_error (f : http_failure) : client_error :=
  match f with
  | HttpTimeout => Vllm_error VllmTimeoutError
  | HttpError => Vllm_error VllmTransportError
  | HttpOther => Escaped
  end.

Section client.
Context `{InterpreterLimits}.
Context (py_float : string → string).

(** ** A complete answer

    The response: whether [raise_for_status] accepts it, and its body, [None] when
    it is not text. *)
Definition complete_request (post : dict → outcome http_failure (bool * option string)) (payload : dict)
    : outcome client_error dict :=
  match post payload with
  | Raise f => Raise (failure_error f)
  | Ok (false, _) => Raise (Vllm_error VllmTransportError)
  | Ok (true, None) => Raise Escaped
  | Ok (true, Some text) =>
      match loads py_float text with
      | Ok (JObj o) => Ok o
      | Ok _ => Raise (Vllm_error VllmResponseError)
      | Raise e => Raise (Vllm_error e)
      end
  end.

(** ** A stream *)

Definition _decode_sse_line (line : string) : outcome vllm_error (option dict) :=
  if String.eqb line "" || bool_decide (is_Some (strip_prefix ":" line)) then Ok None
  else
    match strip_prefix "data:" line with
    | None => Raise VllmResponseError
    | Some rest =>
        let data := py_strip rest in
        if String.eqb data "[DONE]" then Ok None
        else match loads py_float data with
             | Ok (JObj o) => Ok (Some o)
             | Ok _ => Raise VllmResponseError
             | Raise e => Raise e
             end
    end.

(** The lines of the response, until the connection ends or fails *)
Fixpoint decode_lines (lines : list string) (last : option http_failure) : list dict * option client_error :=
  match lines with
  | [] => ([], failure_error <$> last)
  | line :: lines' =>
      match _decode_sse_line line with
      | Raise e => ([], Some (Vllm_error e))
      | Ok None => decode_lines lines' last
      | Ok (Some o) => let '(os, e) := decode_lines lines' last in (o :: os, e)
      end
  end.
(** What the generator yields, and the exception it ends with *)
Definition stream_request (open : dict → outcome http_failure (bool * list string * option http_failure)) (payload : dict)
    : list dict * option client_error :=
  match open payload with
  | Raise f => ([], Some (failure_error f))
  | Ok (false, _, _) => ([], Some (Vllm_error VllmTransportError))
  | Ok (true, lines, last) => decode_lines lines last
  end.
(** As the client of the adapter, where nothing escapes *)
Definition http_client (open : dict → outcome http_failure (bool * list string * option http_failure))
    : dict → outcome vllm_error (list dict * option vllm_error) := λ payload,
  let '(chunks, last) := stream_request open payload in
  Ok (chunks, match last with Some (Vllm_error e) => Some e | _ => None end).

(** ** Configuration *)

(** [endpoint_url.rstrip('/')] *)
Fixpoint drop_slashes (l : list ascii) : list ascii :=
  match l with c :: l' => if Ascii.eqb c "/" then drop_slashes l' else l | [] => [] end.
Definition rstrip_slash (s : string) : string :=
  String.string_of_list_ascii (reverse (drop_slashes (reverse (String.list_ascii_of_string s)))).
Definition chat_completions_url (endpoint_url : string) : string := rstrip_slash endpoint_url +:+ "/chat/completions".
Definition _normalize_chat_template_kwargs (value : dict) : dict :=
  (λ '(k, v), (k, match v with
                  | JStr s => if bool_decide (lower s ∈ ["true"; "false"]) then JBool (String.eqb (lower s) "true") else v
                  | _ => v
                  end)) <$> value.

(** ** What a server writes

    A chunk as an event of one line, the end of the stream, a comment that keeps the
    connection open, or the empty line between events *)
Inductive sse_line := Chunk (before after : string) (o : dict) | Done_ (before after : string) | Comment (text : string) | Blank.
Definition line_text (l : sse_line) : string :=
  match l with
  | Chunk b a o => "data:" +:+ (b +:+ json_dumps (JObj o) +:+ a)
  | Done_ b a => "data:" +:+ (b +:+ "[DONE]" +:+ a)
  | Comment t => ":" +:+ t
  | Blank => ""
  end.
Definition line_ok (l : sse_line) : Prop :=
  match l with
  | Chunk b a o => is_blank b = true ∧ is_blank a = true ∧ json_ok py_float (JObj o) ∧
      beyond_limits (json_dumps (JObj o)) = false
  | Done_ b a => is_blank b = true ∧ is_blank a = true
  | _ => True
  end.
(** The objects, with their keys in the order of the reader *)
Definition chunks_of (ls : list sse_line) : list dict :=
  omap (λ l, match l with Chunk _ _ o => Some (canonical_members o) | _ => None end) ls.

Lemma strip_chars_framed l1 c m d l2 :
  Forall (λ c, py_isspace c = true) l1 → Forall (λ c, py_isspace c = true) l2 →
  py_isspace c = false → py_isspace d = false → strip_chars (l1 ++ (c :: m ++ [d]) ++ l2) = c :: m ++ [d].
Proof.
  intros H1 H2 Hc Hd. unfold strip_chars. rewrite lstrip_app_space by done.
  rewrite (lstrip_chars_id ((c :: m ++ [d]) ++ l2)) by (by intros ? ? [= -> _]).
  rewrite reverse_app, lstrip_app_space by by apply Forall_reverse.
  rewrite lstrip_chars_id; [apply reverse_involutive|].
  rewrite app_comm_cons, reverse_snoc. by intros ? ? [= -> _].
Qed.
Lemma py_strip_framed b c m d a :
  is_blank b = true → is_blank a = true → py_isspace c = false → py_isspace d = false →
  py_strip (b +:+ (String c (m +:+ String d "")) +:+ a) = String c (m +:+ String d "").
Proof.
  rewrite !is_blank_spec. intros Hb Ha Hc Hd. unfold py_strip. rewrite !list_of_string_app.
  assert (String.list_ascii_of_string (String c (m +:+ String d "")) = c :: String.list_ascii_of_string m ++ [d]) as Heq.
  { cbn [String.list_ascii_of_string]. by rewrite list_of_string_app. }
  rewrite Heq, strip_chars_framed by done. rewrite <- Heq. apply String.string_of_list_ascii_of_string.
Qed.
Lemma joined_framed close ts : ∃ m, joined close ts = m +:+ close.
Proof.
  induction ts as [|t ts [m IH]]; [by exists ""|]. destruct ts as [|t' ts]; [by exists t|].
  exists (t +:+ "," +:+ m). change (joined close (t :: t' :: ts)) with (t +:+ "," +:+ joined close (t' :: ts)).
  rewrite IH. by rewrite !string_app_assoc.
Qed.

Lemma dumps_framed o : ∃ m, json_dumps (JObj o) = String "{" (m +:+ String "}" "").
Proof.
  destruct (joined_framed "}" (map member_text (sort_keys (map (λ kv, (kv.1, json_dumps kv.2)) o)))) as [m Hm].
  exists m. change (json_dumps (JObj o)) with
    ("{" +:+ joined "}" (map member_text (sort_keys (map (λ kv, (kv.1, json_dumps kv.2)) o)))). by rewrite Hm.
Qed.
Lemma decode_data rest :
  _decode_sse_line ("data:" +:+ rest) =
  if String.eqb (py_strip rest) "[DONE]" then Ok None
  else match loads py_float (py_strip rest) with
       | Ok (JObj o) => Ok (Some o) | Ok _ => Raise VllmResponseError | Raise e => Raise e end.
Proof.
  unfold _decode_sse_line. replace (String.eqb ("data:" +:+ rest) "") with false by done.
  replace (bool_decide (is_Some (strip_prefix ":" ("data:" +:+ rest)))) with false by done. cbn [orb].
  replace (strip_prefix "data:" ("data:" +:+ rest)) with (Some rest) by done.
  destruct (String.eqb (py_strip rest) "[DONE]"); [done|]. by destruct (loads py_float (py_strip rest)) as [[]|].
Qed.

Lemma decode_line l :
  line_ok l → _decode_sse_line (line_text l) = Ok (match l with Chunk _ _ o => Some (canonical_members o) | _ => None end).
Proof.
  destruct l as [b a o|b a|t|]; intros Hok; [| |done|done]; cbn [line_text]; rewrite decode_data.
  - destruct Hok as (Hb & Ha & Ho & Hlim). destruct (dumps_framed o) as [m Hm].
    rewrite Hm, py_strip_framed, <- Hm by done. unfold loads. rewrite Hlim, json_loads_dumps by done.
    replace (String.eqb (json_dumps (JObj o)) "[DONE]") with false by by rewrite Hm. done.
  - destruct Hok as (Hb & Ha). change "[DONE]" with (String "[" ("DONE" +:+ String "]" "")). by rewrite py_strip_framed.
Qed.

Lemma decode_lines_spec ls last rest :
  Forall line_ok ls →
  decode_lines (map line_text ls ++ rest) last =
  let '(os, e) := decode_lines rest last in (chunks_of ls ++ os, e).
Proof.
  induction 1 as [|l ls Hl _ IH]; cbn [map app]; [by destruct (decode_lines rest last)|].
  cbn [decode_lines]. rewrite (decode_line l Hl), IH. destruct (decode_lines rest last) as [os e]. by destruct l.
Qed.

(** What a server sends is what the adapter reads: the chunks of a stream of
    server-sent events are decoded to the objects the server wrote, in order,
    whatever white space, comments, empty lines and markers of the end it puts
    between them; and when the connection fails in between, the chunks before the
    failure come first and the error of its kind ends the stream. *)
Theorem events_are_decoded open payload (ls : list sse_line) (last : option http_failure) :
  Forall line_ok ls → open payload = Ok (true, map line_text ls, last) →
  stream_request open payload = (chunks_of ls, failure_error <$> last).
Proof.
  intros Hls Hopen. unfold stream_request. rewrite Hopen. rewrite <- (app_nil_r (map line_text ls)).
  rewrite decode_lines_spec by done. cbn. by rewrite app_nil_r.
Qed.

(** A line that is no event of one data line ends the stream with a response
    error, after the chunks before it. *)
Theorem other_lines_end_the_stream open payload (ls : list sse_line) line rest last :
  Forall line_ok ls → _decode_sse_line line = Raise VllmResponseError →
  open payload = Ok (true, map line_text ls ++ line :: rest, last) →
  stream_request open payload = (chunks_of ls, Some (Vllm_error VllmResponseError)).
Proof.
  intros Hls Hline Hopen. unfold stream_request. rewrite Hopen, decode_lines_spec by done.
  cbn [decode_lines]. rewrite Hline. by rewrite app_nil_r.
Qed.

(** The adapter over HTTP is the adapter over the objects: for a server that
    streams events, a request yields what it yields for a client that gives the
    chunks at once and ends as the connection does. *)
Theorem adapter_over_http float_eq float_int_eq sha256_hex py_str config (r : ModelRequest) open (ls : list sse_line)
    (last : option http_failure) :
  Forall line_ok ls → (∀ payload, open payload = Ok (true, map line_text ls, last)) → last ≠ Some HttpOther →
  _stream py_float float_eq float_int_eq sha256_hex py_str config (http_client open) r ≡
  _stream py_float float_eq float_int_eq sha256_hex py_str config
    (λ _, Ok (chunks_of ls, (λ f, match f with HttpTimeout => VllmTimeoutError | _ => VllmTransportError end) <$> last)) r.
Proof.
  intros Hls Hopen Hlast s.
  assert (∀ payload, http_client open payload =
    Ok (chunks_of ls, (λ f, match f with HttpTimeout => VllmTimeoutError | _ => VllmTransportError end) <$> last)) as Hclient.
  { intros payload. unfold http_client. rewrite (events_are_decoded open payload ls last Hls (Hopen payload)).
    by destruct last as [[]|]. }
  unfold _stream. destruct (negb _); [done|]. destruct (_to_chat_completion_payload _ _ _ _ _) as [payload|e]; [|done].
  unfold bind. destruct (lift _ s) as [[by_name|e] s1]; [|done]. by rewrite Hclient.
Qed.
End client.

(** ** Examples *)

#[local] Existing Instance ex_limits.

Definition ex_event : dict := [("id", JInt 1)].
Example ex_lines :
  decode_lines ex_float [": keep-alive"; ""; "data: " +:+ json_dumps (JObj ex_event); ""; "data: [DONE]"] None = ([ex_event], None) ∧
  decode_lines ex_float ["data:" +:+ json_dumps (JObj ex_event)] (Some HttpTimeout) = ([ex_event], Some (Vllm_error VllmTimeoutError)) ∧
  decode_lines ex_float ["data: [1]"] None = ([], Some (Vllm_error VllmResponseError)) ∧
  chat_completions_url "http://127.0.0.1:8000/v1//" = "http://127.0.0.1:8000/v1/chat/completions".
Proof. split_and!; vm_compute; reflexivity. Qed.

(** The fields of an event besides its data are an error, although a reader of
    events ignores what it does not know; and what follows the end marker is
    still yielded. *)
Example named_events_are_refused :
  decode_lines ex_float ["event: message"; "data: " +:+ json_dumps (JObj ex_event)] None = ([], Some (Vllm_error VllmResponseError)) ∧
  decode_lines ex_float ["data: [DONE]"; "data: " +:+ json_dumps (JObj ex_event)] None = ([ex_event], None).
Proof. split; vm_compute; reflexivity. Qed.

(** A body that is not text escapes the errors of the package. *)
Example undecodable_body_escapes : complete_request ex_float (λ _, Ok (true, None)) [] = Raise Escaped.
Proof. done. Qed.

(** ** Witnesses *)

Lemma ex_event_ok b a : is_blank b = true → is_blank a = true → line_ok ex_float (Chunk b a ex_event).
Proof. intros Hb Ha. split_and!; [done..| |done]. split; [apply NoDup_singleton|done]. Qed.

Lemma events_are_decoded_witness :
  stream_request ex_float (λ _, Ok (true, map line_text [Comment "hi"; Chunk " " "" ex_event; Blank; Done_ " " ""], Some HttpError)) [] =
  ([ex_event], Some (Vllm_error VllmTransportError)).
Proof.
  apply (events_are_decoded ex_float (λ _, Ok (true, map line_text [Comment "hi"; Chunk " " "" ex_event; Blank; Done_ " " ""], Some HttpError)) []
    [Comment "hi"; Chunk " " "" ex_event; Blank; Done_ " " ""] (Some HttpError)); [|reflexivity].
  repeat (apply Forall_cons; split); [done|by apply ex_event_ok|done|done|apply Forall_nil_2].
Defined.
Lemma other_lines_end_the_stream_witness :
  stream_request ex_float (λ _, Ok (true, map line_text [Chunk "" "" ex_event] ++ ["event: x"; ""], None)) [] =
  ([ex_event], Some (Vllm_error VllmResponseError)).
Proof.
  apply (other_lines_end_the_stream ex_float (λ _, Ok (true, map line_text [Chunk "" "" ex_event] ++ ["event: x"; ""], None)) []
    [Chunk "" "" ex_event] "event: x" [""] None); [|reflexivity..].
  constructor; [by apply ex_event_ok|constructor].
Defined.
Lemma adapter_over_http_witness :
  _stream ex_float ex_no ex_no_int (λ _, "?") ex_str ex_config
    (http_client ex_float (λ _, Ok (true, map line_text [Chunk " " "" ex_event; Blank], None))) ex_request ≡
  _stream ex_float ex_no ex_no_int (λ _, "?") ex_str ex_config (λ _, Ok ([ex_event], None)) ex_request.
Proof.
  apply (adapter_over_http ex_float ex_no ex_no_int (λ _, "?") ex_str ex_config ex_request
    (λ _, Ok (true, map line_text [Chunk " " "" ex_event; Blank], None)) [Chunk " " "" ex_event; Blank] None); [|done..].
  repeat (apply Forall_cons; split); [by apply ex_event_ok|done|apply Forall_nil_2].
Defined.
