(* ===== verification/Oidc.v ===== *)
(** * Bearer tokens of an OpenID provider

    [plugins/spakky-oidc/.../provider.py]: the provider that turns a bearer token into
    the [AuthContext] of [Auth.v]. The discovery document and the key set are fetched by a
    function of the configuration; PyJWT, which reads and verifies tokens, is the class
    [PyJWT], and what its documentation promises of [decode] the class [PyJWTLaws]. The
    state of a computation is the list of the addresses fetched so far. *)

From S2P Require Import Prelude Json Auth AuthStartup.

(** The errors of [error.py]; [OtherException] stands for those of other packages. *)
Inductive oidc_error :=
  | OidcDiscoveryError
  | OidcJwksError
  | OidcCredentialError
  | OidcTokenValidationError
  | OtherException.
#[global] Instance oidc_error_eq_dec : EqDecision oidc_error.
Proof. solve_decision. Defined.

Abbreviation dict := (list (string * json)).

Definition OIDC_AUTH_PROVIDER_ID : string := "provider:spakky-oidc".
Definition DEFAULT_RETAINED_CLAIMS : list string :=
  ["sub"; "iss"; "aud"; "azp"; "email"; "name"; "preferred_username"].

(** [str | tuple[str, ...]] *)
Inductive audience_setting := OneAudience (a : string) | Audiences (l : list string).

Record OidcProviderConfig := mk_oidc_config {
  config_issuer : string;
  config_audience : audience_setting;
  client_id : option string;
  discovery_url : option string;
  algorithm : string;
  clock_skew : Z;
  retained_claim_names : list string;
  roles_claim : string;
  scopes_claim : string;
  tenant_claim : option string;
  display_name_claim : option string;
  json_fetcher : string → outcome oidc_error dict;
  provider_available : bool;
}.

Record OidcDiscoveryMetadata := mk_metadata { metadata_issuer : string; metadata_jwks_uri : string }.
Record OidcAuthenticationResult := mk_oidc_result {
  oidc_decision : AuthorizationDecision;
  oidc_auth_context : option AuthContext;
}.

(** ** PyJWT *)

Record decode_options := mk_decode_options {
  opt_algorithms : list string;
  opt_audience : audience_setting;
  opt_issuer : string;
  opt_leeway : Z;
  opt_require : list string;
}.

(** [jwt.get_unverified_header], [PyJWK.from_dict(jwk).key] and [jwt.decode]; [None] is a
    [PyJWTError]. *)
Class PyJWT := {
  jwt_key : Type;
  get_unverified_header : string → option dict;
  pyjwk_key : dict → option jwt_key;
  jwt_decode : string → jwt_key → decode_options → option dict;
}.

Definition text_values (v : json) : option (list string) :=
  match v with
  | JStr s => Some [s]
  | JList l => mapM (λ x, match x with JStr s => Some s | _ => None end) l
  | _ => None
  end.
Definition audience_values (a : audience_setting) : list string :=
  match a with OneAudience s => [s] | Audiences l => l end.

(** What [decode] promises of the claims it returns: the token carries them signed by the
    key under an accepted algorithm, and the registered claims are as asked. *)
Class PyJWTLaws `{PyJWT} := {
  signed : string → jwt_key → string → dict → Prop;
  numeric_date : json → option Z;
  now : Z;
  decode_signed token k o c : jwt_decode token k o = Some c → ∃ alg, alg ∈ opt_algorithms o ∧ signed token k alg c;
  decode_issuer token k o c : jwt_decode token k o = Some c → dict_get "iss" c = Some (JStr (opt_issuer o));
  decode_audience token k o c : jwt_decode token k o = Some c →
    ∃ v vs a, dict_get "aud" c = Some v ∧ text_values v = Some vs ∧ a ∈ vs ∧ a ∈ audience_values (opt_audience o);
  decode_fresh token k o c : "exp" ∈ opt_require o → jwt_decode token k o = Some c →
    ∃ v e, dict_get "exp" c = Some v ∧ numeric_date v = Some e ∧ (now - opt_leeway o < e)%Z;
}.

(** ** Texts *)

Fixpoint rstrip_slashes (l : list ascii) : list ascii :=
  match l with
  | [] => []
  | c :: l' => match rstrip_slashes l' with [] => if Ascii.eqb c "/"%char then [] else [c] | r => c :: r end
  end.
(** [text.rstrip("/")] *)
Definition py_rstrip_slash (s : string) : string := String.string_of_list_ascii (rstrip_slashes (String.list_ascii_of_string s)).

Fixpoint split_space (s : string) : list string :=
  match s with
  | "" => [""]
  | String c s' =>
      if Ascii.eqb c " "%char then "" :: split_space s'
      else match split_space s' with w :: ws => String c w :: ws | [] => [String c ""] end
  end.

(** ** Values of claims *)

Definition _required_string (payload : dict) (key : string) (e : oidc_error) : outcome oidc_error string :=
  match dict_get key payload with Some (JStr (String c s)) => Ok (String c s) | _ => Raise e end.

Definition text_items (l : list json) : outcome oidc_error (list string) :=
  mapM (λ x, match x with JStr s => Ok s | _ => Raise OidcTokenValidationError end) l.

Section claims.
(** The number a float literal denotes *)
Context (float_value : string → QArith_base.Q) (config : OidcProviderConfig).

(** [claims.get(name)], which is also [None] for a claim that is null *)
Definition claim_of (c : dict) (name : string) : json := default JNull (dict_get name c).

Definition _audiences (c : dict) : outcome oidc_error (list string) :=
  match claim_of c "aud" with
  | JStr s => Ok [s]
  | JList l => text_items l
  | _ => Raise OidcTokenValidationError
  end.

Definition _validate_authorized_party (c : dict) : outcome oidc_error unit :=
  match client_id config with
  | None => Ok tt
  | Some cid =>
      audiences ← _audiences c;
      match claim_of c "azp" with
      | JNull => check (1 <? length audiences)%nat OidcTokenValidationError
      | JStr azp => check (negb (String.eqb azp cid)) OidcTokenValidationError
      | _ => Raise OidcTokenValidationError
      end
  end.

Definition _optional_string_claim (c : dict) (name : option string) : outcome oidc_error (option string) :=
  match name with
  | None => Ok None
  | Some n => match claim_of c n with JNull => Ok None | JStr s => Ok (Some s) | _ => Raise OidcTokenValidationError end
  end.
Definition _string_tuple_claim (c : dict) (name : string) : outcome oidc_error (list string) :=
  match claim_of c name with
  | JNull => Ok []
  | JStr s => Ok [s]
  | JList l => text_items l
  | _ => Raise OidcTokenValidationError
  end.
Definition _scope_tuple_claim (c : dict) (name : string) : outcome oidc_error (list string) :=
  match claim_of c name with
  | JNull => Ok []
  | JStr s => Ok (List.filter (λ w, negb (String.eqb w "")) (split_space s))
  | _ => _string_tuple_claim c name
  end.

Definition _audience_claim_value (v : json) : outcome oidc_error AuthClaimValue :=
  match v with
  | JStr s => Ok (CStr s)
  | JList l => values ← text_items l; Ok (CStr (json_dumps (JList (JStr <$> values))))
  | _ => Raise OidcTokenValidationError
  end.
Definition _claim_value (v : json) : outcome oidc_error AuthClaimValue :=
  match v with
  | JNull => Ok CNone
  | JBool b => Ok (CBool b)
  | JInt z => Ok (CInt z)
  | JFloat r => Ok (CFloat (float_value r))
  | JStr s => Ok (CStr s)
  | _ => Raise OidcTokenValidationError
  end.
Definition _retained_claim_value (name : string) (v : json) : outcome oidc_error AuthClaimValue :=
  if String.eqb name "aud" then _audience_claim_value v else _claim_value v.

Fixpoint retain (names : list string) (c : dict) : outcome oidc_error (list AuthClaim) :=
  match names with
  | [] => Ok []
  | n :: names' =>
      match dict_get n c with
      | None => retain names' c
      | Some v => x ← _retained_claim_value n v; rest ← retain names' c; Ok (mk_claim n x :: rest)
      end
  end.
Definition _retained_claims (c : dict) : outcome oidc_error (list AuthClaim) :=
  retain (sort_by str_leb (retained_claim_names config)) c.

Definition _auth_context_from_claims (c : dict) : outcome oidc_error AuthContext :=
  sub ← _required_string c "sub" OidcTokenValidationError;
  label ← _optional_string_claim c (display_name_claim config);
  iss ← _required_string c "iss" OidcTokenValidationError;
  ten ← _optional_string_claim c (tenant_claim config);
  rs ← _string_tuple_claim c (roles_claim config);
  ss ← _scope_tuple_claim c (scopes_claim config);
  cs ← _retained_claims c;
  Ok (mk_auth_context (mk_subject sub label) iss ten rs ss cs None []).
End claims.

(** ** The provider *)

Section provider.
Context (float_value : string → QArith_base.Q) `{PyJWT} (config : OidcProviderConfig).

Abbreviation action := (comp (list string) oidc_error).

Definition fetch (url : string) : action dict :=
  modify (λ log, log ++ [url]) ;;; lift (json_fetcher config url).

Definition _bearer_token (c : CredentialCarrier) : outcome oidc_error string :=
  match carrier_kind c with
  | BEARER_TOKEN =>
      check (String.eqb (carrier_material c) "") OidcCredentialError ≫= λ _,
      check (match carrier_scheme c with Some s => negb (String.eqb (lower s) "bearer") | None => false end)
        OidcCredentialError ≫= λ _,
      Ok (carrier_material c)
  | _ => Raise OidcCredentialError
  end.

Definition _discovery_url : string :=
  match discovery_url config with
  | Some u => u
  | None => py_rstrip_slash (config_issuer config) +:+ "/.well-known/openid-configuration"
  end.

Definition metadata_of (document : dict) : outcome oidc_error OidcDiscoveryMetadata :=
  iss ← _required_string document "issuer" OidcDiscoveryError;
  uri ← _required_string document "jwks_uri" OidcDiscoveryError;
  check (negb (String.eqb iss (config_issuer config))) OidcDiscoveryError ≫= λ _,
  Ok (mk_metadata iss uri).
Definition _discovery_metadata : action OidcDiscoveryMetadata :=
  document <- fetch _discovery_url ;; lift (metadata_of document).

Definition _token_header (token : string) : outcome oidc_error dict :=
  match get_unverified_header token with Some h => Ok h | None => Raise OidcTokenValidationError end.

Definition header_key_id (token : string) : outcome oidc_error string :=
  header ← _token_header token;
  alg ← _required_string header "alg" OidcTokenValidationError;
  check (negb (String.eqb alg (algorithm config))) OidcTokenValidationError ≫= λ _,
  _required_string header "kid" OidcTokenValidationError.

Fixpoint find_key (key_id : string) (keys : list json) : outcome oidc_error dict :=
  match keys with
  | [] => Raise OidcJwksError
  | JObj jwk :: keys' =>
      match dict_get "kid" jwk with
      | Some (JStr k) => if String.eqb k key_id then Ok jwk else find_key key_id keys'
      | _ => find_key key_id keys'
      end
  | _ => Raise OidcJwksError
  end.
Definition key_in (key_id : string) (jwks : dict) : outcome oidc_error dict :=
  match dict_get "keys" jwks with Some (JList keys) => find_key key_id keys | _ => Raise OidcJwksError end.

Definition _matching_jwk (token jwks_uri : string) : action dict :=
  key_id <- lift (header_key_id token) ;;
  jwks <- fetch jwks_uri ;;
  lift (key_in key_id jwks).

Definition token_options (iss : string) : decode_options :=
  mk_decode_options [algorithm config] (config_audience config) iss (clock_skew config) ["sub"; "iss"; "aud"; "exp"; "iat"].

Definition _verified_claims (token : string) (jwk : dict) (iss : string) : outcome oidc_error dict :=
  match pyjwk_key jwk with
  | None => Raise OidcTokenValidationError
  | Some k =>
      match jwt_decode token k (token_options iss) with
      | None => Raise OidcTokenValidationError
      | Some c => _validate_authorized_party config c ≫= λ _, Ok c
      end
  end.

Definition authenticate (credential : CredentialCarrier) : action AuthContext :=
  lift (check (negb (provider_available config)) OidcDiscoveryError) ;;;
  token <- lift (_bearer_token credential) ;;
  metadata <- _discovery_metadata ;;
  jwk <- _matching_jwk token (metadata_jwks_uri metadata) ;;
  c <- lift (_verified_claims token jwk (metadata_issuer metadata)) ;;
  lift (_auth_context_from_claims float_value config c).

Definition failure_decision (e : oidc_error) : option AuthorizationDecision :=
  match e with
  | OidcCredentialError => Some (decision_challenge MISSING_CREDENTIAL None)
  | OidcTokenValidationError | OidcJwksError => Some (decision_challenge INVALID_CREDENTIAL None)
  | OidcDiscoveryError => Some (decision_error VERIFICATION_PROVIDER_UNAVAILABLE None)
  | OtherException => None
  end.
Definition authenticate_result (credential : CredentialCarrier) : action OidcAuthenticationResult :=
  try_except (c <- authenticate credential ;; ret (mk_oidc_result decision_allow (Some c)))
    (λ e, (λ d, ret (mk_oidc_result d None)) <$> failure_decision e).
End provider.

(** ** The default fetcher

    [urlopen] gives the body of a response, or fails with an [OSError] (of which
    [URLError] is one) or, for a malformed address, a [ValueError]. A body that is not
    UTF-8 raises [UnicodeDecodeError] from [json.load]. *)
Inductive url_error := OSError | ValueError.
Inductive body := Utf8Body (text : string) | UndecodableBody.

Definition fetch_json_document (py_float : string → string) (urlopen : string → outcome url_error body) (url : string)
    : outcome oidc_error dict :=
  match urlopen url with
  | Raise OSError => Raise OidcDiscoveryError
  | Raise ValueError => Raise OtherException
  | Ok UndecodableBody => Raise OtherException
  | Ok (Utf8Body text) =>
      match json_loads py_float text with
      | Some (JObj o) => Ok o
      | _ => Raise OidcDiscoveryError
      end
  end.

Definition oidc_auth_provider_contribution : AuthProviderContribution :=
  mk_contribution OIDC_AUTH_PROVIDER_ID {[ AUTHENTICATION ]}.

(** ** What an authenticated context says *)

(** The key is one of the set. *)
Definition published (jwk jwks : dict) : Prop := ∃ keys, dict_get "keys" jwks = Some (JList keys) ∧ JObj jwk ∈ keys.

(** A token of several audiences names the party it is for, and a party a token names is
    the configured one. *)
Definition party_ok (config : OidcProviderConfig) (c : dict) : Prop :=
  ∀ cid, client_id config = Some cid →
    claim_of c "azp" = JStr cid ∨ claim_of c "azp" = JNull ∧ ∃ vs, _audiences c = Ok vs ∧ (length vs ≤ 1)%nat.

Lemma required_string_Ok p k e s : _required_string p k e = Ok s → dict_get k p = Some (JStr s) ∧ s ≠ "".
Proof. unfold _required_string. destruct (dict_get k p) as [[| | | |[|a t]| |]|]; try done. by intros [= <-]. Qed.

Lemma party_Ok config c u : _validate_authorized_party config c = Ok u → party_ok config c.
Proof.
  unfold _validate_authorized_party, party_ok. intros Hc cid Hcid. rewrite Hcid in Hc.
  apply outcome_bind_Ok in Hc as (vs & Hvs & Hc). destruct (claim_of c "azp") as [| | | |azp| |]; try done.
  - apply check_Ok, Nat.ltb_ge in Hc. right. split; [done|]. by exists vs.
  - apply check_Ok, negb_false_iff, String.eqb_eq in Hc as ->. by left.
Qed.

Lemma find_key_Ok kid keys jwk : find_key kid keys = Ok jwk → JObj jwk ∈ keys ∧ dict_get "kid" jwk = Some (JStr kid).
Proof.
  induction keys as [|v keys IH]; [done|]. cbn. destruct v as [| | | | | |o]; try done.
  assert (find_key kid keys = Ok jwk → JObj jwk ∈ JObj o :: keys ∧ dict_get "kid" jwk = Some (JStr kid)) as Hnext.
  { intros [Hin Hk]%IH. split; [by right|done]. }
  destruct (dict_get "kid" o) as [[| | | |k| |]|] eqn:Ho; try done.
  destruct (String.eqb_spec k kid) as [->|]; [|done]. intros [= <-]. split; [by left|done].
Qed.

Lemma bearer_token_Ok c t : _bearer_token c = Ok t → carrier_kind c = BEARER_TOKEN ∧ carrier_material c = t ∧ t ≠ "".
Proof.
  unfold _bearer_token. destruct (carrier_kind c); try done.
  intros (u & Hm%check_Ok & (u' & _ & [= <-])%outcome_bind_Ok)%outcome_bind_Ok. by apply String.eqb_neq in Hm.
Qed.

Lemma header_key_id_Ok `{PyJWT} config t kid : header_key_id config t = Ok kid →
  ∃ h, get_unverified_header t = Some h ∧ dict_get "alg" h = Some (JStr (algorithm config)) ∧ dict_get "kid" h = Some (JStr kid).
Proof.
  unfold header_key_id, _token_header. destruct (get_unverified_header t) as [h|]; [|done].
  intros (h' & [= <-] & Hr)%outcome_bind_Ok. apply outcome_bind_Ok in Hr as (alg & [Halg _]%required_string_Ok & Hr).
  apply outcome_bind_Ok in Hr as (u & Hu%check_Ok & [Hkid _]%required_string_Ok).
  apply negb_false_iff, String.eqb_eq in Hu as ->. by exists h.
Qed.

Lemma metadata_Ok config doc m : metadata_of config doc = Ok m →
  metadata_issuer m = config_issuer config ∧ dict_get "issuer" doc = Some (JStr (config_issuer config)) ∧
  dict_get "jwks_uri" doc = Some (JStr (metadata_jwks_uri m)).
Proof.
  unfold metadata_of. intros (iss & [Hiss _]%required_string_Ok & Hr)%outcome_bind_Ok.
  apply outcome_bind_Ok in Hr as (uri & [Huri _]%required_string_Ok & Hr).
  apply outcome_bind_Ok in Hr as (u & Hu%check_Ok & [= <-]). apply negb_false_iff, String.eqb_eq in Hu as ->. done.
Qed.

(** *** The claims kept *)

Lemma retain_exact fv names c cs :
  retain fv names c = Ok cs →
  map claim_name cs = List.filter (λ n, dict_has n c) names ∧
  Forall (λ x, ∃ v, dict_get (claim_name x) c = Some v ∧ _retained_claim_value fv (claim_name x) v = Ok (claim_value x)) cs.
Proof.
  revert cs. induction names as [|n names IH]; intros cs; cbn; [by intros [= <-]|]. unfold dict_has.
  destruct (dict_get n c) as [v|] eqn:Hn; [|apply IH].
  intros (x & Hx & (rest & [Hm Hf]%IH & [= <-])%outcome_bind_Ok)%outcome_bind_Ok. cbn. rewrite Hm. split; [done|].
  constructor; [|done]. by exists v.
Qed.

Lemma context_fields fv config c ctx :
  _auth_context_from_claims fv config c = Ok ctx →
  dict_get "sub" c = Some (JStr (subject_id (subject ctx))) ∧ dict_get "iss" c = Some (JStr (issuer ctx)) ∧
  credential_carrier ctx = None ∧ context_metadata ctx = [] ∧ _retained_claims fv config c = Ok (claims ctx).
Proof.
  unfold _auth_context_from_claims. intros (sub & [Hsub _]%required_string_Ok & Hr)%outcome_bind_Ok.
  apply outcome_bind_Ok in Hr as (label & _ & Hr). apply outcome_bind_Ok in Hr as (iss & [Hiss _]%required_string_Ok & Hr).
  apply outcome_bind_Ok in Hr as (ten & _ & Hr). apply outcome_bind_Ok in Hr as (rs & _ & Hr).
  apply outcome_bind_Ok in Hr as (ss & _ & Hr). apply outcome_bind_Ok in Hr as (cs & Hcs & [= <-]). done.
Qed.

Section guarantees.
Context (float_value : string → QArith_base.Q) `{PyJWTLaws} (config : OidcProviderConfig).

Lemma authenticate_steps cred log ctx log' :
  authenticate float_value config cred log = (Ok ctx, log') →
  ∃ document m key_id jwks jwk c,
    _bearer_token cred = Ok (carrier_material cred) ∧
    json_fetcher config (_discovery_url config) = Ok document ∧ metadata_of config document = Ok m ∧
    header_key_id config (carrier_material cred) = Ok key_id ∧ json_fetcher config (metadata_jwks_uri m) = Ok jwks ∧
    key_in key_id jwks = Ok jwk ∧ _verified_claims config (carrier_material cred) jwk (metadata_issuer m) = Ok c ∧
    _auth_context_from_claims float_value config c = Ok ctx ∧
    log' = log ++ [_discovery_url config; metadata_jwks_uri m].
Proof.
  unfold authenticate, _discovery_metadata, _matching_jwk, fetch, bind, lift, modify.
  destruct (provider_available config); cbn [negb check]; [|done].
  destruct (_bearer_token cred) as [t|] eqn:Ht; [|done]. destruct (bearer_token_Ok _ _ Ht) as (_ & <- & _).
  destruct (json_fetcher config (_discovery_url config)) as [document|]; [|done].
  destruct (metadata_of config document) as [m|] eqn:Hm; [|done].
  destruct (header_key_id config (carrier_material cred)) as [key_id|] eqn:Hh; [|done].
  destruct (json_fetcher config (metadata_jwks_uri m)) as [jwks|] eqn:Hjwks; [|done].
  destruct (key_in key_id jwks) as [jwk|] eqn:Hk; [|done].
  destruct (_verified_claims config (carrier_material cred) jwk (metadata_issuer m)) as [c|] eqn:Hc; [|done].
  intros [= Hctx <-]. exists document, m, key_id, jwks, jwk, c. rewrite <-app_assoc. done.
Qed.

(** A token the configured issuer signed for this application. The document fetched
    from the discovery address of the configuration names the configured issuer and the
    address of its key set; the key set fetched from there publishes, under the key
    identifier the token asks for, a key with which the token verifies under the
    configured algorithm. The signed claims have not expired, are for the configured
    audience and party, and have issuer and subject of [ctx]. *)
Definition issued_token (token : string) (ctx : AuthContext) : Prop :=
  ∃ document jwks_uri jwks jwk k c,
    json_fetcher config (_discovery_url config) = Ok document ∧
    dict_get "issuer" document = Some (JStr (config_issuer config)) ∧ dict_get "jwks_uri" document = Some (JStr jwks_uri) ∧
    json_fetcher config jwks_uri = Ok jwks ∧ published jwk jwks ∧ pyjwk_key jwk = Some k ∧
    signed token k (algorithm config) c ∧
    (∃ v e, dict_get "exp" c = Some v ∧ numeric_date v = Some e ∧ (now - clock_skew config < e)%Z) ∧
    (∃ v vs a, dict_get "aud" c = Some v ∧ text_values v = Some vs ∧ a ∈ vs ∧ a ∈ audience_values (config_audience config)) ∧
    party_ok config c ∧
    issuer ctx = config_issuer config ∧ dict_get "sub" c = Some (JStr (subject_id (subject ctx))) ∧ credential_carrier ctx = None ∧
    ∃ header kid, get_unverified_header token = Some header ∧
      dict_get "alg" header = Some (JStr (algorithm config)) ∧
      dict_get "kid" header = Some (JStr kid) ∧ dict_get "kid" jwk = Some (JStr kid).

Lemma authenticated_token cred log ctx log' :
  authenticate float_value config cred log = (Ok ctx, log') → issued_token (carrier_material cred) ctx.
Proof.
  intros (document & m & kid & jwks & jwk & c & Hb & Hdoc & Hm & Hkid & Hjwks & Hk & Hc & Hctx & ->)%authenticate_steps.
  destruct (metadata_Ok _ _ _ Hm) as (Hmi & Hiss & Huri). destruct (context_fields _ _ _ _ Hctx) as (Hsub & Hci & Hcarrier & _ & _).
  exists document, (metadata_jwks_uri m), jwks, jwk. unfold _verified_claims in Hc. rewrite Hmi in Hc.
  destruct (pyjwk_key jwk) as [k|]; [|done]. destruct (jwt_decode _ k _) as [c'|] eqn:Hdec; [|done].
  apply outcome_bind_Ok in Hc as (u & Hparty%party_Ok & [= ->]). exists k, c.
  destruct (decode_signed _ _ _ _ Hdec) as (alg & ->%list_elem_of_singleton & Hsigned).
  pose proof (decode_issuer _ _ _ _ Hdec) as Hi. rewrite Hci in Hi. injection Hi as Hi.
  split_and!; try done.
  - unfold key_in in Hk. destruct (dict_get "keys" jwks) as [[| | | | |keys|]|] eqn:Hkeys; try done.
    apply find_key_Ok in Hk as [Hin _]. by exists keys.
  - refine (decode_fresh _ _ _ _ _ Hdec). cbn. set_solver.
  - apply (decode_audience _ _ _ _ Hdec).
  - apply header_key_id_Ok in Hkid as (h & Hh & Halg & Hid). exists h, kid. split_and!; [done..|].
    unfold key_in in Hk. destruct (dict_get "keys" jwks) as [[| | | | |keys|]|]; try done. by apply find_key_Ok in Hk as [_ ?].
Qed.

(** Whoever is authenticated holds a token the issuer signed: the token verifies, under
    the configured algorithm, with a key the configured issuer publishes; it has not
    expired; it is for this application, by its audience and its authorized party; and
    the context names the issuer and the subject of the signed claims and does not carry
    the token on. *)
Theorem authenticated_token_is_verified cred log ctx log' :
  authenticate float_value config cred log = (Ok ctx, log') → issued_token (carrier_material cred) ctx.
Proof. apply authenticated_token. Qed.

(** The claims kept are those of the configuration that the token carries, in order, each
    with the value the token gives it. *)
Theorem retained_claims_exact c ctx :
  _auth_context_from_claims float_value config c = Ok ctx →
  map claim_name (claims ctx) = List.filter (λ n, dict_has n c) (sort_by str_leb (retained_claim_names config)) ∧
  Forall (λ x, ∃ v, dict_get (claim_name x) c = Some v ∧
    _retained_claim_value float_value (claim_name x) v = Ok (claim_value x)) (claims ctx).
Proof. intros (_ & _ & _ & _ & Hcs)%context_fields. by apply retain_exact. Qed.

(** The addresses an attempt fetches: none, the discovery document, or that document and
    the key set it names, never one that the token names. *)
Definition trusted_fetches (l : list string) : Prop :=
  l = [] ∨ l = [_discovery_url config] ∨
  ∃ document m, json_fetcher config (_discovery_url config) = Ok document ∧ metadata_of config document = Ok m ∧
    l = [_discovery_url config; metadata_jwks_uri m].

Lemma fetches_trusted cred log : ∃ l, (authenticate float_value config cred log).2 = log ++ l ∧ trusted_fetches l.
Proof.
  assert (∃ l, log = log ++ l ∧ trusted_fetches l) as Hnone.
  { exists []. rewrite app_nil_r. split; [done|by left]. }
  unfold authenticate, _discovery_metadata, _matching_jwk, fetch, bind, lift, modify.
  destruct (provider_available config); cbn [negb check]; [|done].
  destruct (_bearer_token cred) as [t|]; [|done].
  assert (∃ l, (log ++ [_discovery_url config]) = log ++ l ∧ trusted_fetches l) as Hone.
  { exists [_discovery_url config]. split; [done|right; by left]. }
  destruct (json_fetcher config (_discovery_url config)) as [document|] eqn:Hdoc; [|done].
  destruct (metadata_of config document) as [m|] eqn:Hm; [|done].
  destruct (header_key_id config t) as [key_id|]; [|done].
  assert (∃ l, (log ++ [_discovery_url config]) ++ [metadata_jwks_uri m] = log ++ l ∧ trusted_fetches l) as Htwo.
  { exists [_discovery_url config; metadata_jwks_uri m]. rewrite <-app_assoc. split; [done|]. right. right.
    by exists document, m. }
  destruct (json_fetcher config (metadata_jwks_uri m)) as [jwks|]; [|done].
  destruct (key_in key_id jwks) as [jwk|]; [|done].
  by destruct (_verified_claims config t jwk (metadata_issuer m)).
Qed.
End guarantees.

(** ** Failures

    The code of the provider raises the errors of the provider. *)
Definition mapped {A} (o : outcome oidc_error A) : Prop := ∀ e, o = Raise e → e ≠ OtherException.

Lemma mapped_bind {A B} (o : outcome oidc_error A) (f : A → outcome oidc_error B) :
  mapped o → (∀ a, mapped (f a)) → mapped (o ≫= f).
Proof. intros Ho Hf e [He|(a & _ & He)]%outcome_bind_Raise; [by apply Ho|by apply (Hf a)]. Qed.
Lemma mapped_check b e : e ≠ OtherException → mapped (check b e).
Proof. intros He e'. destruct b; by intros [= <-]. Qed.
Lemma mapped_required p k e : e ≠ OtherException → mapped (_required_string p k e).
Proof. intros He e'. unfold _required_string. destruct (dict_get k p) as [[| | | |[|a t]| |]|]; by intros [= <-]. Qed.

Create HintDb mapped.
#[local] Hint Resolve mapped_check mapped_required : mapped.
#[local] Hint Extern 1 (_ ≠ OtherException) => discriminate : mapped.
Ltac mapped_tac :=
  repeat first
    [ progress intros
    | solve [auto 2 with mapped nocore]
    | match goal with
      | |- mapped (_ ≫= _) => apply mapped_bind
      | |- mapped (match ?x with _ => _ end) => destruct x
      | |- mapped (Raise _) => by intros ? [= <-]
      | |- mapped (Ok _) => by intros ? [=]
      end
    | done ].

Lemma mapped_items l : mapped (text_items l).
Proof. induction l as [|v l IH]; unfold text_items; cbn; mapped_tac. Qed.
#[local] Hint Resolve mapped_items : mapped.

Lemma mapped_context fv config c : mapped (_auth_context_from_claims fv config c).
Proof.
  assert (∀ v, mapped (_claim_value fv v)) as Hv by (intros v; unfold _claim_value; mapped_tac).
  assert (∀ v, mapped (_audience_claim_value v)) as Ha by (intros v; unfold _audience_claim_value; mapped_tac).
  assert (∀ n, mapped (_optional_string_claim c n)) as Ho by (intros n; unfold _optional_string_claim; mapped_tac).
  assert (∀ n, mapped (_string_tuple_claim c n)) as Ht by (intros n; unfold _string_tuple_claim; mapped_tac).
  assert (∀ n, mapped (_scope_tuple_claim c n)) as Hs by (intros n; unfold _scope_tuple_claim; mapped_tac).
  assert (∀ names, mapped (retain fv names c)) as Hr.
  { induction names as [|n names IH]; cbn; unfold _retained_claim_value; mapped_tac. }
  unfold _auth_context_from_claims, _retained_claims. mapped_tac.
Qed.

Lemma mapped_claims `{PyJWT} config token jwk iss : mapped (_verified_claims config token jwk iss).
Proof. unfold _verified_claims, _validate_authorized_party, _audiences. mapped_tac. Qed.

Lemma mapped_key key_id jwks : mapped (key_in key_id jwks).
Proof.
  unfold key_in. destruct (dict_get "keys" jwks) as [[| | | | |keys|]|]; mapped_tac.
  induction keys as [|k keys IH]; cbn; mapped_tac.
Qed.

Lemma mapped_key_id `{PyJWT} config token : mapped (header_key_id config token).
Proof. unfold header_key_id, _token_header. mapped_tac. Qed.

Lemma mapped_metadata config document : mapped (metadata_of config document).
Proof. unfold metadata_of. mapped_tac. Qed.

Lemma mapped_token cred : mapped (_bearer_token cred).
Proof. unfold _bearer_token. mapped_tac. Qed.

Section failures.
Context (float_value : string → QArith_base.Q) `{PyJWT} (config : OidcProviderConfig).
Hypothesis fetcher_mapped : ∀ url, mapped (json_fetcher config url).

Abbreviation raises_mapped := (triple (λ _ : list string, True) (λ _, True) (λ e, e ≠ OtherException)).

Lemma raises_lift {A} (o : outcome oidc_error A) : mapped o → raises_mapped (lift o).
Proof. intros Ho. by apply triple_lift. Qed.

Lemma raises_fetch url : raises_mapped (fetch config url).
Proof.
  unfold fetch. eapply triple_bind; [by apply triple_modify|]. intros _ _. apply raises_lift, fetcher_mapped.
Qed.

Lemma authenticate_mapped cred : raises_mapped (authenticate float_value config cred).
Proof.
  unfold authenticate, _discovery_metadata, _matching_jwk.
  eapply triple_bind; [apply raises_lift, mapped_check; done|intros _ _].
  eapply triple_bind; [apply raises_lift, mapped_token|intros token _].
  eapply triple_bind; [|intros m _].
  { eapply triple_bind; [apply raises_fetch|intros d _]. apply raises_lift, mapped_metadata. }
  eapply triple_bind; [|intros jwk _].
  { eapply triple_bind; [apply raises_lift, mapped_key_id|intros kid _].
    eapply triple_bind; [apply raises_fetch|intros d _]. apply raises_lift, mapped_key. }
  eapply triple_bind; [apply raises_lift, mapped_claims|intros c _]. apply raises_lift, mapped_context.
Qed.

(** The decision of an attempt *)
Definition decision_of (o : outcome oidc_error AuthContext) : AuthorizationDecision :=
  match o with Ok _ => decision_allow | Raise e => default decision_allow (failure_decision e) end.

(** [authenticate_result] always returns a decision, provided the fetcher raises only
    the errors of the provider: ALLOW with the context of [authenticate] when that
    returns one; otherwise CHALLENGE, or ERROR when the provider cannot be used, and no
    context; and in each case nothing was fetched but the discovery document and then
    the key set it names. *)
Theorem authenticate_result_total cred log :
  ∃ r l, authenticate_result float_value config cred log = (Ok r, log ++ l) ∧ trusted_fetches config l ∧
    oidc_decision r = decision_of (authenticate float_value config cred log).1 ∧
    (∀ ctx, oidc_auth_context r = Some ctx ↔ (authenticate float_value config cred log).1 = Ok ctx) ∧
    (state (oidc_decision r) = ALLOW ↔ is_Some (oidc_auth_context r)).
Proof.
  destruct (fetches_trusted float_value config cred log) as (l & Hl & Htrust).
  destruct (authenticate_mapped cred log I) as [_ Hmapped].
  unfold authenticate_result, try_except, bind. destruct (authenticate float_value config cred log) as [[ctx|e] log'];
    cbn in Hl, Hmapped; subst log'.
  - eexists _, l. split_and!; [reflexivity|done..| |]; cbn; [intros ctx'; split; congruence|]. split; [by eexists|done].
  - destruct e; try done; eexists _, l; (split_and!; [reflexivity|done..| |]); cbn; try (by split);
      split; (done || by intros [? [=]]).
Qed.
End failures.

(** The default fetcher raises another error only when [urlopen] refuses an address or
    the body is not UTF-8. *)
Lemma fetch_json_document_mapped py_float urlopen url :
  urlopen url ≠ Raise ValueError → urlopen url ≠ Ok UndecodableBody → mapped (fetch_json_document py_float urlopen url).
Proof. unfold fetch_json_document. intros H1 H2. mapped_tac. Qed.

(** A key set whose bytes are not UTF-8 escapes as an exception. *)
Theorem undecodable_document_escapes (fv : string → QArith_base.Q) `{PyJWT} config py_float urlopen cred t log :
  json_fetcher config = fetch_json_document py_float urlopen → provider_available config = true →
  _bearer_token cred = Ok t → urlopen (_discovery_url config) = Ok UndecodableBody →
  (authenticate_result fv config cred log).1 = Raise OtherException.
Proof.
  intros Hf Hp Ht Hu. unfold authenticate_result, authenticate, _discovery_metadata, fetch, try_except, bind, lift, modify.
  rewrite Hp, Ht, Hf. unfold fetch_json_document. by rewrite Hu.
Qed.

(** ** Witnesses

    A PyJWT that knows one token, valid until 200 *)

Definition ex_claims : dict :=
  [("sub", JStr "ada"); ("iss", JStr "https://issuer.example/"); ("aud", JList [JStr "app"; JStr "admin"]); ("azp", JStr "web");
   ("exp", JInt 200); ("iat", JInt 90); ("scope", JStr "read  write"); ("email", JStr "ada@example.org"); ("secret", JStr "x")].
Definition ex_header : dict := [("alg", JStr "RS256"); ("kid", JStr "k2")].
Definition ex_accepts (token k : string) (o : decode_options) : bool :=
  bool_decide (token = "token" ∧ k = "public-2" ∧ "RS256" ∈ opt_algorithms o ∧ opt_issuer o = "https://issuer.example/" ∧
    "app" ∈ audience_values (opt_audience o) ∧ (100 - opt_leeway o < 200)%Z).
#[local] Instance ex_pyjwt : PyJWT := {
  jwt_key := string;
  get_unverified_header t := if String.eqb t "token" then Some ex_header else None;
  pyjwk_key o := match dict_get "n" o with Some (JStr n) => Some n | _ => None end;
  jwt_decode t k o := if ex_accepts t k o then Some ex_claims else None;
}.
Lemma ex_decode token k o c : jwt_decode token k o = Some c →
  c = ex_claims ∧ token = "token" ∧ k = "public-2" ∧ "RS256" ∈ opt_algorithms o ∧ opt_issuer o = "https://issuer.example/" ∧
  "app" ∈ audience_values (opt_audience o) ∧ (100 - opt_leeway o < 200)%Z.
Proof.
  intros Hd. change ((if ex_accepts token k o then Some ex_claims else None) = Some c) in Hd. unfold ex_accepts in Hd.
  case_bool_decide as Ha; [|done]. injection Hd as <-. by split.
Qed.
#[local] Instance ex_pyjwt_laws : PyJWTLaws.
Proof.
  refine {| signed t k alg c := t = "token" ∧ k = "public-2" ∧ alg = "RS256" ∧ c = ex_claims;
            numeric_date v := match v with JInt z => Some z | _ => None end; now := 100 |}.
  - intros t k o c (-> & -> & -> & Ha & _)%ex_decode. by exists "RS256".
  - by intros t k o c (-> & _ & _ & _ & -> & _)%ex_decode.
  - intros t k o c (-> & _ & _ & _ & _ & Ha & _)%ex_decode. eexists _, ["app"; "admin"], "app". split_and!; [reflexivity|reflexivity|by left|done].
  - intros t k o c _ (-> & _ & _ & _ & _ & _ & He)%ex_decode. by eexists _, 200%Z.
Defined.

Definition ex_fetcher (url : string) : outcome oidc_error dict :=
  if String.eqb url "https://issuer.example/.well-known/openid-configuration" then
    Ok [("issuer", JStr "https://issuer.example/"); ("jwks_uri", JStr "https://issuer.example/keys")]
  else if String.eqb url "https://issuer.example/keys" then
    Ok [("keys", JList [JObj [("kid", JStr "k1"); ("n", JStr "public-1")]; JObj [("kid", JStr "k2"); ("n", JStr "public-2")]])]
  else Raise OidcDiscoveryError.
Definition ex_config : OidcProviderConfig :=
  mk_oidc_config "https://issuer.example/" (OneAudience "app") (Some "web") None "RS256" 60 DEFAULT_RETAINED_CLAIMS "roles" "scope"
    (Some "tenant") (Some "name") ex_fetcher true.
Definition ex_bearer : CredentialCarrier := mk_carrier BEARER_TOKEN AUTHORIZATION_HEADER "token" None (Some "Bearer").
Definition ex_float_value (_ : string) : QArith_base.Q := QArith_base.Qmake 0 1.
Definition ex_context : AuthContext :=
  mk_auth_context (mk_subject "ada" None) "https://issuer.example/" None [] ["read"; "write"]
    [mk_claim "aud" (CStr (json_dumps (JList [JStr "app"; JStr "admin"]))); mk_claim "azp" (CStr "web");
     mk_claim "email" (CStr "ada@example.org"); mk_claim "iss" (CStr "https://issuer.example/"); mk_claim "sub" (CStr "ada")] None [].

Definition ex_log : list string := ["https://issuer.example/.well-known/openid-configuration"; "https://issuer.example/keys"].

Lemma authenticated_token_is_verified_witness :
  ∃ jwk k, published jwk [("keys", JList [JObj [("kid", JStr "k1"); ("n", JStr "public-1")];
    JObj [("kid", JStr "k2"); ("n", JStr "public-2")]])] ∧ pyjwk_key jwk = Some k ∧ signed "token" k "RS256" ex_claims.
Proof.
  destruct (authenticated_token_is_verified ex_float_value ex_config ex_bearer [] ex_context ex_log)
    as (document & uri & jwks & jwk & k & c & Hdoc & _ & Huri & Hjwks & Hp & Hk & Hs & _).
  - vm_compute. reflexivity.
  - exists jwk, k. vm_compute in Hdoc. injection Hdoc as <-. vm_compute in Huri. injection Huri as <-.
    vm_compute in Hjwks. injection Hjwks as <-. destruct Hs as (Ht & Hk' & Ha & ->). by split_and!.
Defined.

Lemma authenticate_result_total_witness :
  ∃ r l, authenticate_result ex_float_value ex_config ex_bearer [] = (Ok r, l) ∧ oidc_auth_context r = Some ex_context.
Proof.
  destruct (authenticate_result_total ex_float_value ex_config) with (cred := ex_bearer) (log := @nil string)
    as (r & l & Hr & _ & _ & Hctx & _).
  - intros url e. unfold ex_config, ex_fetcher. cbn. destruct (String.eqb url _); [done|]. destruct (String.eqb url _); [done|].
    by intros [= <-].
  - exists r, l. split; [exact Hr|]. apply Hctx. vm_compute. reflexivity.
Defined.

(** A token of another algorithm, of another key, or without its authorized party *)
Example ex_refusals :
  (authenticate_result ex_float_value ex_config (mk_carrier BEARER_TOKEN AUTHORIZATION_HEADER "forged" None None) []).1 =
    Ok (mk_oidc_result (decision_challenge INVALID_CREDENTIAL None) None) ∧
  (authenticate_result ex_float_value ex_config (mk_carrier API_KEY HEADER "token" None None) []).1 =
    Ok (mk_oidc_result (decision_challenge MISSING_CREDENTIAL None) None).
Proof. vm_compute. done. Qed.
