(* ===== verification/OpenFga.v ===== *)
(** * Relations checked by OpenFGA

    [plugins/spakky-openfga/.../provider.py] and [client.py]: the provider behind the
    relation and policy ports of [Auth.v] that asks an OpenFGA server. The client of the
    SDK is a parameter. *)

From S2P Require Import Prelude Auth AuthStartup.

(** [error.py]; [SdkError] stands for what the client raises besides. *)
Inductive openfga_error := OpenFgaProviderUnavailableError | OpenFgaReferenceMappingError | SdkError.

Record OpenFgaConfig := mk_openfga_config {
  api_url : string;
  store_id : string;
  authorization_model_id : option string;
  principal_type : string;
  tenant_separator : string;
  include_tenant_in_object : bool;
  relation_check_available : bool;
}.
Definition DEFAULT_OPENFGA_USER_TYPE : string := "user".
Definition DEFAULT_OPENFGA_TENANT_SEPARATOR : string := "/".
Definition OPENFGA_AUTH_PROVIDER_ID : string := "provider:spakky-openfga".

Record OpenFgaCheckRequest := mk_check { check_user : string; check_relation_name : string; check_object : string }.
Record OpenFgaCheckResult := mk_check_result { allowed : bool }.

(** ** The client of the SDK

    [client.check] answers with [True], [False] or [None], or raises an error of the SDK. *)
Inductive sdk_error := ApiException | FgaValidationException | OtherSdkException.
Definition sdk_check (sdk : OpenFgaConfig → OpenFgaCheckRequest → outcome sdk_error (option bool)) (config : OpenFgaConfig)
    (rq : OpenFgaCheckRequest) : outcome openfga_error OpenFgaCheckResult :=
  match sdk config rq with
  | Ok answer => Ok (mk_check_result (bool_decide (answer = Some true)))
  | Raise OtherSdkException => Raise SdkError
  | Raise _ => Raise OpenFgaProviderUnavailableError
  end.

(** ** The provider *)

Section provider.
Context (client : OpenFgaCheckRequest → outcome openfga_error OpenFgaCheckResult) (config : OpenFgaConfig).

Definition _required_ref (value : string) : outcome openfga_error string :=
  check (is_blank value) OpenFgaReferenceMappingError ≫= λ _, Ok value.

Definition has_char (c : ascii) (s : string) : bool := bool_decide (c ∈ String.list_ascii_of_string s).

Definition _openfga_user (subject_id : string) : outcome openfga_error string :=
  principal ← _required_ref subject_id;
  if has_char ":" principal then Ok principal
  else type ← _required_ref (principal_type config); Ok (type +:+ ":" +:+ principal).

Definition _openfga_object (resource : string) (tenant : option string) : outcome openfga_error string :=
  canonical_resource ← _required_ref resource;
  match tenant with
  | Some t =>
      if include_tenant_in_object config then
        canonical_tenant ← _required_ref t;
        separator ← _required_ref (tenant_separator config);
        Ok (canonical_tenant +:+ separator +:+ canonical_resource)
      else Ok canonical_resource
  | None => Ok canonical_resource
  end.

Definition _effective_tenant (request_tenant context_tenant : option string) : option string :=
  match request_tenant with Some t => Some t | None => context_tenant end.

Definition _decision_from_result (r : OpenFgaCheckResult) : AuthorizationDecision :=
  if allowed r then decision_allow else decision_deny POLICY_DENIED None.
Definition _unavailable_decision : AuthorizationDecision :=
  decision_error VERIFICATION_PROVIDER_UNAVAILABLE (Some "OpenFGA relation check provider unavailable").

(** The arguments of a request are evaluated in order, inside the [try]. *)
Definition check_request (subject relation resource : string) (tenant : option string)
    : outcome openfga_error OpenFgaCheckRequest :=
  user ← _openfga_user subject;
  rel ← _required_ref relation;
  object ← _openfga_object resource tenant;
  Ok (mk_check user rel object).

Definition _check (subject relation resource : string) (tenant : option string) : verdict :=
  if relation_check_available config then
    match check_request subject relation resource tenant ≫= client with
    | Ok result => Ok (_decision_from_result result)
    | Raise OpenFgaProviderUnavailableError => Ok _unavailable_decision
    | Raise OpenFgaReferenceMappingError =>
        Ok (decision_error INTERNAL_ERROR (Some "OpenFGA canonical reference mapping failed"))
    | Raise SdkError => Raise (OtherError "SdkError")
    end
  else Ok _unavailable_decision.

Definition check_relation (rq : RelationCheckRequest) : verdict :=
  _check (subject_id (subject (lr_auth_context rq))) (lr_relation rq) (lr_resource rq)
    (_effective_tenant (lr_tenant rq) (tenant (lr_auth_context rq))).
Definition evaluate_policy (rq : AuthorizationRequest) : verdict :=
  _check (subject_id (subject (ar_auth_context rq))) (ar_action rq) (ar_resource rq)
    (_effective_tenant (ar_tenant rq) (tenant (ar_auth_context rq))).

(** The ports it is registered for *)
Definition OpenFgaAuthProvider : auth_ports :=
  mk_auth_ports (Some evaluate_policy) None (Some check_relation) None None.
End provider.

Definition openfga_auth_provider_contribution : AuthProviderContribution :=
  mk_contribution OPENFGA_AUTH_PROVIDER_ID {[ POLICY_EVALUATION; RELATION_CHECK ]}.

(** ** Decisions *)

Section decisions.
Context (client : OpenFgaCheckRequest → outcome openfga_error OpenFgaCheckResult) (config : OpenFgaConfig).

Lemma check_allows s r res t :
  (∃ d, _check client config s r res t = Ok d ∧ state d = ALLOW) ↔
  relation_check_available config = true ∧ ∃ rq, check_request config s r res t = Ok rq ∧ client rq = Ok (mk_check_result true).
Proof.
  unfold _check. destruct (relation_check_available config); [|split; [by intros (d & [= <-] & ?)|by intros [? _]]].
  destruct (check_request config s r res t) as [rq|e]; cbn.
  2:{ split; [|by intros (_ & rq & ? & _)]. intros (d & Hd & Ha). destruct e; try done; by injection Hd as <-. }
  destruct (client rq) as [[a]|e] eqn:Hc; cbn.
  - split; [|intros (_ & rq' & [= <-] & Hr)].
    + intros (d & [= <-] & Ha). split; [done|]. exists rq. split; [done|]. unfold _decision_from_result in Ha. cbn in Ha.
      by destruct a.
    + rewrite Hc in Hr. injection Hr as ->. by exists decision_allow.
  - split; [|intros (_ & rq' & [= <-] & Hr); congruence]. intros (d & Hd & Ha). destruct e; try done; by injection Hd as <-.
Qed.

(** A call that requires a relation runs only when the server says the relation holds:
    unless it allows the one tuple made of the subject of the context, the relation and
    the resource in its tenant, the boundary raises and the handler does not run. *)
Theorem relation_is_enforced {S A} asp ctx c st b md relation res ten (jp : comp S auth_error A) s :
  _ports asp = OpenFgaAuthProvider client config →
  _application_context asp = Some ctx → require_auth_context ctx = Ok c →
  get_effective_auth_metadata st b None = Ok md → require_relation relation res ten ∈ requirements md →
  (∀ rq, check_request config (subject_id (subject c)) relation res (_effective_tenant ten (tenant c)) = Ok rq →
    client rq ≠ Ok (mk_check_result true)) →
  ∃ e, AuthorizationAspect_around asp st b jp s = (Raise e, s).
Proof.
  intros Hports Hctx Hc Hmd Hin Hno. apply around_unauthorized. intros (md' & Hmd' & Hreq).
  rewrite Hmd in Hmd'. injection Hmd' as <-. destruct Hreq as [Hnil|(ctx' & c' & Hctx' & Hc' & Hall)].
  { rewrite Hnil in Hin. by apply not_elem_of_nil in Hin. }
  rewrite Hctx in Hctx'. injection Hctx' as <-. rewrite Hc in Hc'. injection Hc' as <-.
  specialize (Hall _ Hin). unfold _evaluate_requirement in Hall. rewrite Hports in Hall. cbn in Hall.
  apply check_allows in Hall as (_ & rq & Hrq & Hcl). by apply (Hno rq).
Qed.

(** Over a client of the SDK that raises only its documented errors, a check always
    decides: ERROR when the provider is unavailable or a reference is blank, otherwise
    what the server answers. *)
Theorem check_decides s r res t :
  (∀ rq, client rq ≠ Raise SdkError) →
  ∃ d, _check client config s r res t = Ok d ∧
    (state d = ERROR ↔ relation_check_available config = false ∨ (∃ e, check_request config s r res t = Raise e) ∨
       ∃ rq e, check_request config s r res t = Ok rq ∧ client rq = Raise e).
Proof.
  intros Hsdk. unfold _check. destruct (relation_check_available config); [|eexists; split; [done|]; split; [by left|done]].
  destruct (check_request config s r res t) as [rq|e] eqn:Hrq; cbn.
  - destruct (client rq) as [[[|]]|e] eqn:Hc.
    1-2: (eexists; split; [done|]; split; [done|]); intros [?|[[e ?]|(rq' & e & [= <-] & ?)]]; congruence.
    destruct e; [| |by destruct (Hsdk rq)].
    all: eexists; (split; [done|]); split; [|done]; intros _; right; right; by eexists rq, _.
  - destruct e; try (eexists; split; [done|]; split; [intros _; right; left; by eexists|done]).
    exfalso. clear Hsdk. revert Hrq. unfold check_request, _openfga_user, _openfga_object, _required_ref.
    repeat (match goal with |- context [is_blank ?x] => destruct (is_blank x) | |- context [has_char ?x ?y] => destruct (has_char x y) end; cbn; try done).
    all: destruct t; cbn; try done; destruct (include_tenant_in_object config); cbn; try done.
    all: repeat (match goal with |- context [is_blank ?x] => destruct (is_blank x) end; cbn; try done).
Qed.
End decisions.

(** ** References

    What tells two tenants apart *)

Lemma object_in_tenant config res t :
  include_tenant_in_object config = true → is_blank res = false → is_blank t = false → is_blank (tenant_separator config) = false →
  _openfga_object config res (Some t) = Ok (t +:+ tenant_separator config +:+ res).
Proof. intros Hi Hr Ht Hs. unfold _openfga_object, _required_ref. by rewrite Hr, Hi, Ht, Hs. Qed.

Lemma prefix_inj (c : ascii) (t1 t2 r1 r2 : list ascii) :
  c ∉ t1 → c ∉ t2 → t1 ++ c :: r1 = t2 ++ c :: r2 → t1 = t2 ∧ r1 = r2.
Proof.
  revert t2. induction t1 as [|a t1 IH]; intros [|b t2] H1 H2; cbn.
  - by intros [= ->].
  - intros [= -> _]. by destruct H2; left.
  - intros [= -> _]. by destruct H1; left.
  - intros [= -> Heq]. rewrite not_elem_of_cons in H1. rewrite not_elem_of_cons in H2.
    destruct (IH t2) as [-> ->]; naive_solver.
Qed.

(** Tenants whose names do not contain the separator do not share an object: the object a
    check names determines the tenant and the resource. *)
Theorem tenants_are_kept_apart config c res1 res2 t1 t2 o :
  include_tenant_in_object config = true → tenant_separator config = String c "" → py_isspace c = false →
  has_char c t1 = false → has_char c t2 = false →
  _openfga_object config res1 (Some t1) = Ok o → _openfga_object config res2 (Some t2) = Ok o →
  t1 = t2 ∧ res1 = res2.
Proof.
  intros Hi Hs Hc H1 H2 Ho1 Ho2. unfold _openfga_object, _required_ref in *. rewrite Hi, Hs in *.
  destruct (is_blank res1); [done|]. destruct (is_blank res2); [done|]. destruct (is_blank t1); [done|].
  destruct (is_blank t2); [done|]. cbn in Ho1, Ho2. assert (is_blank (String c "") = false) as Hb by (unfold is_blank, strip_chars; cbn; by rewrite Hc; cbn; rewrite Hc).
  rewrite Hb in Ho1, Ho2. cbn in Ho1, Ho2. rewrite <-Ho1 in Ho2. injection Ho2 as Ho2.
  apply (f_equal String.list_ascii_of_string) in Ho2. rewrite !list_of_string_app in Ho2. cbn in Ho2.
  apply bool_decide_eq_false in H1, H2. apply prefix_inj in Ho2 as [Ht Hr]; [|done..].
  apply (f_equal String.string_of_list_ascii) in Ht, Hr. by rewrite !String.string_of_list_ascii_of_string in Ht, Hr.
Qed.

(** A subject is the user its identifier names when that carries a type: it is the
    issuer's identifiers, not the configuration, that decide which objects of the
    server can be subjects. *)
Theorem typed_subject_is_taken config s :
  is_blank s = false → is_blank (principal_type config) = false → has_char ":" s = false →
  has_char ":" (principal_type config +:+ ":" +:+ s) = true → is_blank (principal_type config +:+ ":" +:+ s) = false →
  _openfga_user config s = _openfga_user config (principal_type config +:+ ":" +:+ s).
Proof. intros H1 H2 H3 H4 H5. unfold _openfga_user, _required_ref. by rewrite H1, H5; cbn; rewrite H3, H4, H2. Qed.

(** Without a tenant, or under one whose name holds the separator, a request can name the
    object of another tenant. *)
Theorem tenants_collide config t u res o :
  include_tenant_in_object config = true → is_blank t = false → is_blank (t +:+ tenant_separator config +:+ u) = false →
  is_blank (u +:+ tenant_separator config +:+ res) = false →
  _openfga_object config res (Some (t +:+ tenant_separator config +:+ u)) = Ok o →
  _openfga_object config (u +:+ tenant_separator config +:+ res) (Some t) = Ok o ∧
  _openfga_object config o None = (if is_blank o then Raise OpenFgaReferenceMappingError else Ok o).
Proof.
  intros Hi Ht Htu Hur Ho. unfold _openfga_object, _required_ref in *. rewrite Hi in *. rewrite Htu in Ho. rewrite Hur, Ht.
  destruct (is_blank res); [done|]. destruct (is_blank (tenant_separator config)); [done|]. cbn in *. injection Ho as <-.
  rewrite !string_app_assoc. split; [done|]. by match goal with |- context [is_blank ?x] => destruct (is_blank x) end.
Qed.

(** ** Witnesses *)

Definition ex_config : OpenFgaConfig :=
  mk_openfga_config "http://localhost:8080" "store" None DEFAULT_OPENFGA_USER_TYPE DEFAULT_OPENFGA_TENANT_SEPARATOR true true.
Definition ex_tuple : OpenFgaCheckRequest := mk_check "user:ann" "viewer" "acme/document:1".
Definition ex_sdk (_ : OpenFgaConfig) (rq : OpenFgaCheckRequest) : outcome sdk_error (option bool) :=
  if String.eqb (check_object rq) "acme/document:1" then Ok (Some (String.eqb (check_relation_name rq) "viewer")) else Raise ApiException.
Definition ex_ports : auth_ports := OpenFgaAuthProvider (sdk_check ex_sdk ex_config) ex_config.
Definition ex_relation_aspect : AuthorizationAspect := mk_aspect (Some ex_context_values) ex_ports.
Definition ex_decorated (relation : string) : auth_store :=
  requirement_decorator (require_relation relation "document:1" (Some "acme")) "Api.read" ex_auth_store.
Definition ex_boundary : boundary := BCallable "Api.read" (Some (SelfInstance "Api")).

Example ex_viewer_runs : AuthorizationAspect_around ex_relation_aspect (ex_decorated "viewer") ex_boundary (ret 7) 0 = (Ok 7, 0).
Proof. vm_compute. reflexivity. Qed.

Lemma relation_is_enforced_witness :
  ∃ e, AuthorizationAspect_around ex_relation_aspect (ex_decorated "editor") ex_boundary (ret 7) 0 = (Raise e, 0).
Proof.
  destruct (get_effective_auth_metadata (ex_decorated "editor") ex_boundary None) as [md|e] eqn:Hmd; [|discriminate Hmd].
  apply (relation_is_enforced (sdk_check ex_sdk ex_config) ex_config ex_relation_aspect ex_context_values ex_auth_context
    (ex_decorated "editor") ex_boundary md "editor" "document:1" (Some "acme")).
  - reflexivity.
  - reflexivity.
  - reflexivity.
  - exact Hmd.
  - vm_compute in Hmd. injection Hmd as <-. by left.
  - intros rq Hrq. vm_compute in Hrq. injection Hrq as <-. done.
Defined.

Lemma check_decides_witness :
  ∃ d, _check (sdk_check ex_sdk ex_config) ex_config "ann" "viewer" "document:2" None = Ok d ∧ state d = ERROR.
Proof.
  destruct (check_decides (sdk_check ex_sdk ex_config) ex_config "ann" "viewer" "document:2" None) as (d & Hd & Hs).
  - intros rq. unfold sdk_check, ex_sdk. by destruct (String.eqb _ _).
  - exists d. split; [done|]. apply Hs. right. right. eexists _, _. split; vm_compute; reflexivity.
Defined.

Lemma tenants_are_kept_apart_witness : "acme" = "acme" ∧ "document:1" = "document:1".
Proof.
  apply (tenants_are_kept_apart ex_config "/" "document:1" "document:1" "acme" "acme" "acme/document:1"); vm_compute; reflexivity.
Defined.

Lemma tenants_collide_witness :
  _openfga_object ex_config "eu/document:1" (Some "acme") = Ok "acme/eu/document:1".
Proof. apply (tenants_collide ex_config "acme" "eu" "document:1"); vm_compute; reflexivity. Defined.
