(* ===== verification/DiscoveryManifest.v ===== *)
(** * The discovery manifest

    [core/spakky/application/discovery_manifest.py]: what a scan found, kept in a file
    with a fingerprint of the sources it was found in. Loading compares the fingerprint
    of the file with that of the current input. The file system is a parameter. *)

From S2P Require Import Prelude Json JsonIndent.

Abbreviation dict := (list (string * json)).

Definition DISCOVERY_MANIFEST_SCHEMA_VERSION : Z := 1.
Definition DISCOVERY_MANIFEST_DETAIL_KEY : string := "discovery_manifest_decision".

Inductive DiscoveryManifestDecision := MISS | HIT | STALE_SCHEMA | STALE_INPUT.
#[global] Instance manifest_decision_eq_dec : EqDecision DiscoveryManifestDecision.
Proof. solve_decision. Defined.
Definition manifest_decision_value (d : DiscoveryManifestDecision) : string :=
  match d with MISS => "miss" | HIT => "hit" | STALE_SCHEMA => "stale_schema" | STALE_INPUT => "stale_input" end.

Record DiscoveryManifestSourceFingerprint := mk_source { source_path : string; mtime_ns : Z; source_size : Z }.
Record DiscoveryManifestFingerprint := mk_fingerprint {
  fp_schema_version : Z;
  python_version : string;
  fp_module_name : string;
  fp_is_package : bool;
  fp_exclude : list string;
  fp_sources : list DiscoveryManifestSourceFingerprint;
}.
Record DiscoveryManifestCandidate := mk_candidate { candidate_module : string; candidate_qualname : string }.
Record DiscoveryManifest := mk_manifest {
  manifest_fingerprint : DiscoveryManifestFingerprint;
  manifest_modules : list string;
  manifest_candidates : list DiscoveryManifestCandidate;
}.
Record DiscoveryManifestLoadResult := mk_load_result {
  load_decision : DiscoveryManifestDecision;
  loaded_manifest : option DiscoveryManifest;
}.

#[global] Instance source_fingerprint_eq_dec : EqDecision DiscoveryManifestSourceFingerprint.
Proof. solve_decision. Defined.
#[global] Instance fingerprint_eq_dec : EqDecision DiscoveryManifestFingerprint.
Proof. solve_decision. Defined.
#[global] Instance candidate_eq_dec : EqDecision DiscoveryManifestCandidate.
Proof. solve_decision. Defined.

(** ** To JSON *)

Definition source_json (s : DiscoveryManifestSourceFingerprint) : json :=
  JObj [("path", JStr (source_path s)); ("mtime_ns", JInt (mtime_ns s)); ("size", JInt (source_size s))].
Definition strings_to_json (l : list string) : json := JList (map JStr l).
Definition fingerprint_json (f : DiscoveryManifestFingerprint) : json :=
  JObj [("schema_version", JInt (fp_schema_version f)); ("python_version", JStr (python_version f));
        ("module_name", JStr (fp_module_name f)); ("is_package", JBool (fp_is_package f));
        ("exclude", strings_to_json (fp_exclude f)); ("sources", JList (map source_json (fp_sources f)))].
Definition candidate_json (c : DiscoveryManifestCandidate) : json :=
  JObj [("module_name", JStr (candidate_module c)); ("qualname", JStr (candidate_qualname c))].
Definition manifest_json (m : DiscoveryManifest) : json :=
  JObj [("schema_version", JInt DISCOVERY_MANIFEST_SCHEMA_VERSION);
        ("fingerprint", fingerprint_json (manifest_fingerprint m));
        ("module_names", strings_to_json (manifest_modules m));
        ("candidates", JList (map candidate_json (manifest_candidates m)))].

(** ** From JSON

    [isinstance(value, int)] holds of a boolean, which compares as 0 or 1. *)
Definition as_int (v : option json) : option Z :=
  match v with Some (JInt z) => Some z | Some (JBool b) => Some (if b then 1 else 0)%Z | _ => None end.
Definition as_text (v : option json) : option string := match v with Some (JStr s) => Some s | _ => None end.
Definition as_bool (v : option json) : option bool := match v with Some (JBool b) => Some b | _ => None end.

(** [isinstance(payload, list)], and every item read *)
Definition items_from_json {A} (item : json → option A) (v : option json) : option (list A) :=
  match v with Some (JList l) => mapM item l | _ => None end.
(** [isinstance(item, dict)] *)
Definition from_dict {A} (read : dict → option A) (v : json) : option A :=
  match v with JObj o => read o | _ => None end.

Definition _strings_from_json : option json → option (list string) :=
  items_from_json (λ v, match v with JStr s => Some s | _ => None end).
Definition _module_names_from_json : option json → option (list string) := _strings_from_json.
Definition _sources_from_json : option json → option (list DiscoveryManifestSourceFingerprint) :=
  items_from_json (from_dict (λ o,
    p ← as_text (dict_get "path" o); m ← as_int (dict_get "mtime_ns" o); s ← as_int (dict_get "size" o); Some (mk_source p m s))).
Definition _candidates_from_json : option json → option (list DiscoveryManifestCandidate) :=
  items_from_json (from_dict (λ o,
    m ← as_text (dict_get "module_name" o); q ← as_text (dict_get "qualname" o); Some (mk_candidate m q))).

Definition _fingerprint_from_json (payload : option json) : option DiscoveryManifestFingerprint :=
  match payload with
  | Some (JObj o) =>
      v ← as_int (dict_get "schema_version" o); p ← as_text (dict_get "python_version" o);
      n ← as_text (dict_get "module_name" o); b ← as_bool (dict_get "is_package" o);
      e ← _strings_from_json (dict_get "exclude" o); s ← _sources_from_json (dict_get "sources" o);
      Some (mk_fingerprint v p n b e s)
  | _ => None
  end.

Definition _manifest_from_json (payload : json) : option DiscoveryManifest :=
  match payload with
  | JObj o =>
      v ← as_int (dict_get "schema_version" o);
      if (v =? DISCOVERY_MANIFEST_SCHEMA_VERSION)%Z then
        f ← _fingerprint_from_json (dict_get "fingerprint" o);
        ms ← _module_names_from_json (dict_get "module_names" o);
        cs ← _candidates_from_json (dict_get "candidates" o);
        Some (mk_manifest f ms cs)
      else Some (mk_manifest (mk_fingerprint v "" "" false [] []) [] [])
  | _ => None
  end.

(** ** The store *)

(** The file: its text, or bytes that are not UTF-8 *)
Inductive manifest_file := Text (t : string) | NotUtf8.
Inductive manifest_error := UnicodeDecodeError.

Section store.
Context (py_float : string → string).

Definition load (file : option manifest_file) (fingerprint : DiscoveryManifestFingerprint)
    : outcome manifest_error DiscoveryManifestLoadResult :=
  match file with
  | None => Ok (mk_load_result MISS None)
  | Some NotUtf8 => Raise UnicodeDecodeError
  | Some (Text t) =>
      match json_loads py_float t with
      | None => Ok (mk_load_result MISS None)
      | Some payload =>
          match _manifest_from_json payload with
          | None => Ok (mk_load_result MISS None)
          | Some m =>
              if negb (fp_schema_version (manifest_fingerprint m) =? DISCOVERY_MANIFEST_SCHEMA_VERSION)%Z then
                Ok (mk_load_result STALE_SCHEMA None)
              else if negb (bool_decide (manifest_fingerprint m = fingerprint)) then
                Ok (mk_load_result STALE_INPUT None)
              else Ok (mk_load_result HIT (Some m))
          end
      end
  end.
Definition save (m : DiscoveryManifest) : manifest_file := Text (json_dumps_indent 0 (manifest_json m)).
End store.

(** ** The fingerprint of a scan *)

(** The order of [Path]s: that of their parts *)
Fixpoint path_parts (s : string) : list string :=
  match s with
  | "" => [""]
  | String c s' =>
      if Ascii.eqb c "/"%char then "" :: path_parts s'
      else match path_parts s' with w :: ws => String c w :: ws | [] => [String c ""] end
  end.
Fixpoint parts_leb (p q : list string) : bool :=
  match p, q with
  | [], _ => true
  | _, [] => false
  | a :: p', b :: q' => if String.eqb a b then parts_leb p' q' else str_leb a b
  end.
Definition path_leb (p q : string) : bool := parts_leb (path_parts p) (path_parts q).

(** A module as an import leaves it: [__name__], [__path__] if it is a package, the
    search locations of its spec and its file *)
Record py_module := mk_module {
  module_name_of : string;
  package_path : option (list string);
  submodule_search_locations : option (list string);
  module_file : option string;
}.
Definition is_package (m : py_module) : bool := match package_path m with Some _ => true | None => false end.

Section input.
(** [path.rglob], [resolve] and [stat] of the file system, and [sys.version_info] *)
Context (rglob_py : string → list string) (resolve_path : string → string) (stat : string → Z * Z) (py_version : string).

Definition _source_files_for (m : py_module) : list string :=
  match submodule_search_locations m with
  | Some locations => sort_by path_leb (dedup (map resolve_path (locations ≫= rglob_py)))
  | None => match module_file m with Some f => [resolve_path f] | None => [] end
  end.
Definition _source_fingerprint (p : string) : DiscoveryManifestSourceFingerprint :=
  let '(mtime, size) := stat p in mk_source p mtime size.
(** [exclude] is a set of names, in some order *)
Definition from_scan_input (m : py_module) (exclude : list string) : DiscoveryManifestFingerprint :=
  mk_fingerprint DISCOVERY_MANIFEST_SCHEMA_VERSION py_version (module_name_of m) (is_package m)
    (sort_by str_leb exclude) (map _source_fingerprint (_source_files_for m)).
End input.

(** ** The round trip *)

Lemma items_roundtrip {A} (item : json → option A) (f : A → json) (l : list A) :
  (∀ x, item (canonical (f x)) = Some x) → items_from_json item (Some (canonical (JList (map f l)))) = Some l.
Proof.
  intros Hf. cbn [canonical items_from_json]. rewrite map_map. induction l as [|x l IH]; [done|]. cbn. rewrite Hf. cbn.
  by rewrite IH.
Qed.
Lemma strings_roundtrip l : _strings_from_json (Some (canonical (strings_to_json l))) = Some l.
Proof. by apply items_roundtrip. Qed.
Lemma sources_roundtrip l : _sources_from_json (Some (canonical (JList (map source_json l)))) = Some l.
Proof. apply items_roundtrip. by intros []. Qed.
Lemma candidates_roundtrip l : _candidates_from_json (Some (canonical (JList (map candidate_json l)))) = Some l.
Proof. apply items_roundtrip. by intros []. Qed.

(** The members of an object whose keys are known *)
Lemma canonical_obj o : canonical (JObj o) = JObj (canonical_members o).
Proof. done. Qed.

Lemma fingerprint_roundtrip f : _fingerprint_from_json (Some (canonical (fingerprint_json f))) = Some f.
Proof.
  unfold fingerprint_json. rewrite canonical_obj. unfold _fingerprint_from_json.
  rewrite !dict_get_canonical by decide_compute.
  transitivity (e ← _strings_from_json (Some (canonical (strings_to_json (fp_exclude f))));
                s ← _sources_from_json (Some (canonical (JList (map source_json (fp_sources f)))));
                Some (mk_fingerprint (fp_schema_version f) (python_version f) (fp_module_name f) (fp_is_package f) e s)).
  { reflexivity. }
  rewrite strings_roundtrip, sources_roundtrip. by destruct f.
Qed.

Lemma manifest_roundtrip m : _manifest_from_json (canonical (manifest_json m)) = Some m.
Proof.
  unfold manifest_json. rewrite canonical_obj. unfold _manifest_from_json.
  rewrite !dict_get_canonical by decide_compute.
  transitivity (f ← _fingerprint_from_json (Some (canonical (fingerprint_json (manifest_fingerprint m))));
                ms ← _strings_from_json (Some (canonical (strings_to_json (manifest_modules m))));
                cs ← _candidates_from_json (Some (canonical (JList (map candidate_json (manifest_candidates m)))));
                Some (mk_manifest f ms cs)).
  { reflexivity. }
  rewrite fingerprint_roundtrip, strings_roundtrip, candidates_roundtrip. by destruct m.
Qed.

Section saved.
Context (py_float : string → string).

Ltac members := repeat (apply List.Forall_cons; cbn [snd]); try exact I; try apply List.Forall_nil; auto.
Lemma manifest_ok m : json_ok py_float (manifest_json m).
Proof.
  assert (∀ {A} (f : A → json) l, (∀ x, json_ok py_float (f x)) → json_ok py_float (JList (map f l))) as Hl.
  { intros A f l Hf. apply json_ok_list, Forall_map, Forall_forall. intros x _. apply Hf. }
  assert (∀ o, NoDup o.*1 → Forall (λ kv, json_ok py_float kv.2) o → json_ok py_float (JObj o)) as Ho.
  { intros o ? ?. by apply json_ok_obj. }
  assert (∀ l, json_ok py_float (strings_to_json l)) as Hs by (intros l; by apply Hl).
  apply Ho; [decide_compute|]. members.
  - apply Ho; [decide_compute|]. members. apply Hl. intros x. apply Ho; [decide_compute|]. members.
  - apply Hl. intros x. apply Ho; [decide_compute|]. members.
Qed.

Lemma load_saved m fingerprint :
  fp_schema_version (manifest_fingerprint m) = DISCOVERY_MANIFEST_SCHEMA_VERSION →
  load py_float (Some (save m)) fingerprint =
    Ok (if bool_decide (manifest_fingerprint m = fingerprint) then mk_load_result HIT (Some m) else mk_load_result STALE_INPUT None).
Proof.
  intros Hv. unfold load, save. rewrite json_loads_indent by apply manifest_ok. rewrite manifest_roundtrip.
  rewrite (proj2 (Z.eqb_eq _ _) Hv). cbn [negb]. by destruct (bool_decide _).
Qed.

(** What is saved is found again: loading the file of a manifest with the fingerprint it
    was saved under is a hit and gives the manifest back, whatever its module names and
    paths contain; loading it with any other fingerprint (a source file added, removed or
    changed, another exclusion, another version of Python) is not. *)
Theorem saved_manifest_is_found m fingerprint :
  fp_schema_version (manifest_fingerprint m) = DISCOVERY_MANIFEST_SCHEMA_VERSION →
  load py_float (Some (save m)) fingerprint =
    Ok (if bool_decide (manifest_fingerprint m = fingerprint) then mk_load_result HIT (Some m) else mk_load_result STALE_INPUT None).
Proof. apply load_saved. Qed.

(** A hit is a manifest of the fingerprint asked for. *)
Lemma hit_fingerprint file fingerprint r :
  load py_float file fingerprint = Ok r → load_decision r = HIT →
  ∃ m, loaded_manifest r = Some m ∧ manifest_fingerprint m = fingerprint.
Proof.
  unfold load. destruct file as [[t|]|]; [|done|by intros [= <-]]. destruct (json_loads py_float t) as [p|]; [|by intros [= <-]].
  destruct (_manifest_from_json p) as [m|]; [|by intros [= <-]]. destruct (negb _); [by intros [= <-]|].
  destruct (bool_decide (manifest_fingerprint m = fingerprint)) eqn:He; cbn [negb]; [|by intros [= <-]].
  intros [= <-] _. apply bool_decide_eq_true in He. by exists m.
Qed.

(** A file that is not UTF-8 is not a miss: loading raises. *)
Theorem undecodable_manifest_raises fingerprint : load py_float (Some NotUtf8) fingerprint = Raise UnicodeDecodeError.
Proof. reflexivity. Qed.
End saved.

(** ** Witness *)

Definition ex_manifest : DiscoveryManifest :=
  mk_manifest (mk_fingerprint 1 "3.12" "app" true ["app.tests"] [mk_source "/srv/app/a.py" 17 4]) ["app.a"]
    [mk_candidate "app.a" "Service"].

Lemma saved_manifest_is_found_witness :
  load (λ t, t) (Some (save ex_manifest)) (manifest_fingerprint ex_manifest) = Ok (mk_load_result HIT (Some ex_manifest)).
Proof. exact (saved_manifest_is_found (λ t, t) ex_manifest (manifest_fingerprint ex_manifest) eq_refl). Defined.
