(* ===== verification/Application.v ===== *)
(** * Scanning an application

    [core/spakky/common/importing.py] and the scan of
    [core/spakky/application/application.py]: which modules are found, which objects are
    registered, and how a discovery manifest replaces the search. Importing, walking
    packages and the members of modules are parameters; phases are those of
    [Diagnostics.v]. *)

From S2P Require Import Prelude Json Diagnostics DiscoveryManifest.

(** ** Modules and their objects *)

Inductive object_kind := FunctionObject | ClassObject.
(** A class or a function: its identity, [__module__] and [__qualname__], and whether it is
    annotated as a Pod or a Tag *)
Record py_object := mk_object {
  object_id : nat;
  object_kind_of : object_kind;
  object_module : string;
  object_qualname : string;
  pod_exists : bool;
  tag_exists : bool;
}.
#[global] Instance object_kind_eq_dec : EqDecision object_kind.
Proof. solve_decision. Defined.
#[global] Instance py_object_eq_dec : EqDecision py_object.
Proof. solve_decision. Defined.
#[global] Instance py_module_eq_dec : EqDecision py_module.
Proof. solve_decision. Defined.

(** [Module = ModuleType | str] *)
Inductive Module_ := ByModule (m : py_module) | ByName (name : string).
Definition _normalize_module_name (m : Module_) : string := match m with ByModule m => module_name_of m | ByName n => n end.

Inductive app_error :=
  | ImportError (name : string)
  | CannotScanNonPackageModuleError
  | ManifestDecodeError
  | RegistrationError (o : py_object).

(** ** [fnmatch.fnmatch] *)

Inductive glob_token := AnyText | AnyChar | OneOf (negated : bool) (ranges : list (ascii * ascii)) | Exactly (c : ascii).

(** The characters of a bracket up to the one that closes it *)
Fixpoint up_to_bracket (l : list ascii) : option (list ascii * list ascii) :=
  match l with
  | [] => None
  | c :: l' =>
      if Ascii.eqb c "]"%char then Some ([], l')
      else match up_to_bracket l' with Some (s, r) => Some (c :: s, r) | None => None end
  end.
Fixpoint ranges_of (l : list ascii) : list (ascii * ascii) :=
  match l with
  | a :: (d :: (b :: l') as t) => if Ascii.eqb d "-"%char then (a, b) :: ranges_of l' else (a, a) :: ranges_of t
  | a :: t => (a, a) :: ranges_of t
  | [] => []
  end.
(** After an opening bracket: a negation, a closing bracket that comes first, the rest *)
Definition bracket (l : list ascii) : option (glob_token * list ascii) :=
  let '(negated, l1) := match l with c :: l' => if Ascii.eqb c "!"%char then (true, l') else (false, l) | [] => (false, l) end in
  match l1 with
  | [] => None
  | c :: l2 =>
      if Ascii.eqb c "]"%char then
        match up_to_bracket l2 with Some (s, r) => Some (OneOf negated (ranges_of (c :: s)), r) | None => None end
      else match up_to_bracket l1 with Some (s, r) => Some (OneOf negated (ranges_of s), r) | None => None end
  end.
Fixpoint glob_tokens (fuel : nat) (l : list ascii) : list glob_token :=
  match fuel, l with
  | S fuel, c :: l' =>
      if Ascii.eqb c "*"%char then AnyText :: glob_tokens fuel l'
      else if Ascii.eqb c "?"%char then AnyChar :: glob_tokens fuel l'
      else if Ascii.eqb c "["%char then
        match bracket l' with Some (t, r) => t :: glob_tokens fuel r | None => Exactly c :: glob_tokens fuel l' end
      else Exactly c :: glob_tokens fuel l'
  | _, _ => []
  end.
Definition accepts (t : glob_token) (c : ascii) : bool :=
  match t with
  | AnyText | AnyChar => true
  | Exactly d => Ascii.eqb c d
  | OneOf negated ranges =>
      xorb negated (existsb (λ ab, (N_of_ascii ab.1 <=? N_of_ascii c)%N && (N_of_ascii c <=? N_of_ascii ab.2)%N) ranges)
  end.
Fixpoint glob_match (ts : list glob_token) (s : list ascii) : bool :=
  match ts with
  | [] => match s with [] => true | _ => false end
  | AnyText :: ts' =>
      (fix any (s : list ascii) := glob_match ts' s || match s with [] => false | _ :: s' => any s' end) s
  | t :: ts' => match s with c :: s' => accepts t c && glob_match ts' s' | [] => false end
  end.
Definition fnmatch (name pattern : string) : bool :=
  glob_match (glob_tokens (String.length pattern) (String.list_ascii_of_string pattern)) (String.list_ascii_of_string name).

Definition has_char_of (c : ascii) (s : string) : bool := bool_decide (c ∈ String.list_ascii_of_string s).

Definition matches_pattern (name pattern : string) : bool :=
  String.eqb name pattern ||
  ((has_char_of "*" pattern || has_char_of "?" pattern) && fnmatch name pattern) ||
  String.prefix (pattern +:+ ".") name.
Definition is_subpath_of (name : string) (patterns : list Module_) : bool :=
  existsb (λ p, matches_pattern name (_normalize_module_name p)) patterns.

(** ** The state of a scan: what the context was given, the manifest file, the clock *)

Inductive app_call := AddPod (o : py_object) | RegisterTag (o : py_object).
Record app_world := mk_app_world {
  app_calls : list app_call;
  app_file : option manifest_file;
  app_clock : Z;
}.
Definition set_calls (l : list app_call) (w : app_world) : app_world := mk_app_world l (app_file w) (app_clock w).
Definition set_file (f : manifest_file) (w : app_world) : app_world := mk_app_world (app_calls w) (Some f) (app_clock w).

Section application.
(** [importlib.import_module] ([None] for [ImportError]), the classes and functions among
    [inspect.getmembers], [pkgutil.walk_packages] and [sys.path] *)
Context (import_module : string → option py_module) (members : py_module → list py_object)
  (walk_packages : list string → string → list string) (sys_path : list string).
(** The file system and the version of [from_scan_input], [float], the clock *)
Context (rglob_py : string → list string) (resolve_path : string → string) (stat : string → Z * Z) (py_version : string).
Context (py_float : string → string) (advance : Z → Z).
(** Whether the context refuses an object, given the calls so far *)
Context (context_refuses : list app_call → app_call → bool).
(** What [Diagnostics.v] asks of an exception *)
Context (type_name text : startup_error app_error → string)
  (provided : startup_error app_error → option StartupDiagnosticDetails).

Abbreviation action := (comp (startup app_world) (startup_error app_error)).
Abbreviation body := (comp (startup app_world * recording) (startup_error app_error)).

Definition perf_counter (w : app_world) : Z * app_world :=
  (app_clock w, mk_app_world (app_calls w) (app_file w) (advance (app_clock w))).

Definition lift_app {A} (o : outcome app_error A) : body A := lift (map_error PhaseError o).

(** *** [importing.py] *)

Definition resolve_module (m : Module_) : outcome app_error py_module :=
  match m with
  | ByModule m => Ok m
  | ByName n => match import_module n with Some m => Ok m | None => Raise (ImportError n) end
  end.

Definition is_root_package (m : py_module) : bool :=
  match package_path m with
  | None => false
  | Some paths => existsb (λ p, existsb (λ e, String.eqb (resolve_path p) (resolve_path e)) sys_path) paths
  end.

(** A set comprehension keeps one of equal elements; the order of a set is left open. *)
Definition list_objects (m : py_module) (selector : py_object → bool) : list py_object :=
  dedup (List.filter selector (members m)).

Fixpoint import_all (exclude : list Module_) (names : list string) : list py_module :=
  match names with
  | [] => []
  | n :: names' =>
      if is_subpath_of n exclude then import_all exclude names'
      else match import_module n with Some m => m :: import_all exclude names' | None => import_all exclude names' end
  end.
Definition list_modules (m : py_module) (exclude : list Module_) : outcome app_error (list py_module) :=
  match package_path m with
  | None => Raise CannotScanNonPackageModuleError
  | Some paths =>
      let prefix := if is_root_package m then "" else module_name_of m +:+ "." in
      Ok (dedup (import_all exclude (walk_packages paths prefix)))
  end.

(** *** [application.py] *)

Definition _discover_modules (path : Module_) (exclude : list Module_) : outcome app_error (list py_module) :=
  m ← resolve_module path;
  if is_package m then list_modules m exclude else Ok [m].

Definition call_context (c : app_call) : body unit := λ sr,
  let w := world sr.1 in
  if context_refuses (app_calls w) c then
    (Raise (PhaseError (RegistrationError match c with AddPod o | RegisterTag o => o end)), sr)
  else (Ok tt, (mk_startup (records sr.1) (set_calls (app_calls w ++ [c]) w), sr.2)).

Definition _register_discovered_object (o : py_object) : body Z :=
  (if pod_exists o then call_context (AddPod o) else ret tt) ;;;
  (if tag_exists o then call_context (RegisterTag o) else ret tt) ;;;
  ret ((if pod_exists o then 1 else 0) + (if tag_exists o then 1 else 0))%Z.

Definition from_object (o : py_object) : DiscoveryManifestCandidate := mk_candidate (object_module o) (object_qualname o).
Definition candidate_matches (c : DiscoveryManifestCandidate) (o : py_object) : bool :=
  String.eqb (object_module o) (candidate_module c) && String.eqb (object_qualname o) (candidate_qualname c).

(** The objects of a hit, or [None] when a candidate is not one object *)
Fixpoint _resolve_manifest_hit (cs : list DiscoveryManifestCandidate) : outcome app_error (option (list py_object)) :=
  match cs with
  | [] => Ok (Some [])
  | c :: cs' =>
      m ← resolve_module (ByName (candidate_module c));
      match list_objects m (candidate_matches c) with
      | [o] => rest ← _resolve_manifest_hit cs'; Ok ((λ os, o :: os) <$> rest)
      | _ => Ok None
      end
  end.

Record scan_result := mk_scan_result {
  found_modules : list py_module;
  found_decision : option DiscoveryManifestDecision;
  found_fingerprint : option DiscoveryManifestFingerprint;
  found_objects : list py_object;
}.

Definition fingerprint_of (path : Module_) (exclude : list Module_) : outcome app_error DiscoveryManifestFingerprint :=
  m ← resolve_module path;
  Ok (from_scan_input rglob_py resolve_path stat py_version m (map _normalize_module_name exclude)).

Definition read_file : body (option manifest_file) := gets (λ sr, app_file (world sr.1)).

(** The phase [scan]; [enabled] when a manifest path is set *)
Definition manifest_search (path : Module_) (exclude : list Module_) (file : option manifest_file)
    : outcome app_error scan_result :=
  fp ← fingerprint_of path exclude;
  match load py_float file fp with
  | Raise UnicodeDecodeError => Raise ManifestDecodeError
  | Ok r =>
      match loaded_manifest r with
      | Some m =>
          hit ← _resolve_manifest_hit (manifest_candidates m);
          match hit with
          | Some os =>
              ms ← mapM (λ n, resolve_module (ByName n)) (manifest_modules m);
              Ok (mk_scan_result (dedup ms) (Some HIT) (Some fp) os)
          | None => ms ← _discover_modules path exclude; Ok (mk_scan_result ms (Some STALE_INPUT) (Some fp) [])
          end
      | None => ms ← _discover_modules path exclude; Ok (mk_scan_result ms (Some (load_decision r)) (Some fp) [])
      end
  end.
Definition decision_details (d : option DiscoveryManifestDecision) : StartupDiagnosticDetails :=
  match d with Some d => [(DISCOVERY_MANIFEST_DETAIL_KEY, manifest_decision_value d)] | None => [] end.

Definition scan_phase (enabled : bool) (path : Module_) (exclude : list Module_) : body scan_result :=
  r <- (if enabled then
          file <- read_file ;;
          r <- lift_app (manifest_search path exclude file) ;;
          set_diagnostic_details (decision_details (found_decision r)) ;;; ret r
        else
          ms <- lift_app (_discover_modules path exclude) ;; ret (mk_scan_result ms None None [])) ;;
  set_processed_count (Z.of_nat (length (found_modules r))) ;;; ret r.

(** What a fresh search finds in a module *)
Definition annotated (m : py_module) : list py_object := list_objects m (λ o, pod_exists o || tag_exists o).

Definition is_hit (d : option DiscoveryManifestDecision) : bool := match d with Some HIT => true | _ => false end.

Fixpoint register_all (os : list py_object) : body Z :=
  match os with
  | [] => ret 0%Z
  | o :: os' => n <- _register_discovered_object o ;; k <- register_all os' ;; ret (n + k)%Z
  end.
(** The phase [registration]; it gives the candidates of a fresh search. *)
Definition registration_phase (r : scan_result) : body (list DiscoveryManifestCandidate) :=
  let os := if is_hit (found_decision r) then found_objects r else found_modules r ≫= annotated in
  n <- register_all os ;;
  set_processed_count n ;;;
  ret (if is_hit (found_decision r) then [] else map from_object os).

Definition candidate_leb (a b : DiscoveryManifestCandidate) : bool :=
  if String.eqb (candidate_module a) (candidate_module b) then str_leb (candidate_qualname a) (candidate_qualname b)
  else str_leb (candidate_module a) (candidate_module b).

Definition write_manifest (r : scan_result) (cs : list DiscoveryManifestCandidate) : action unit :=
  match found_fingerprint r with
  | Some fp =>
      if is_hit (found_decision r) then ret tt
      else modify (λ s, mk_startup (records s) (set_file (save (mk_manifest fp
             (sort_by str_leb (map module_name_of (found_modules r))) (sort_by candidate_leb cs))) (world s)))
  | None => ret tt
  end.

(** [add]: an object the application names itself *)
Definition add (o : py_object) : body unit :=
  (if pod_exists o then call_context (AddPod o) else ret tt) ;;;
  (if tag_exists o then call_context (RegisterTag o) else ret tt).

(** [scan(path, exclude)]; without a path the caller's package is found by inspecting the
    stack, which is not modelled. *)
Definition scan (rec : recorder) (enabled : bool) (path : Module_) (exclude : list Module_) : action unit :=
  r <- record_phase perf_counter type_name text provided rec "scan" 0 [] (scan_phase enabled path exclude) ;;
  cs <- record_phase perf_counter type_name text provided rec "registration" 0 [] (registration_phase r) ;;
  write_manifest r cs.

(** ** What a scan registers *)

Definition calls_of (os : list py_object) : list app_call :=
  os ≫= λ o, (if pod_exists o then [AddPod o] else []) ++ (if tag_exists o then [RegisterTag o] else []).

Lemma calls_of_perm os os' : os ≡ₚ os' → calls_of os ≡ₚ calls_of os'.
Proof. intros Hos. unfold calls_of. by rewrite Hos. Qed.

Section runs.
Hypothesis never_refuses : ∀ l c, context_refuses l c = false.
Hypothesis advance_le : ∀ t, (t ≤ advance t)%Z.

Definition with_calls (l : list app_call) (sr : startup app_world * recording) : startup app_world * recording :=
  (mk_startup (records sr.1) (set_calls (app_calls (world sr.1) ++ l) (world sr.1)), sr.2).

Lemma with_calls_nil sr : with_calls [] sr = sr.
Proof. destruct sr as [[recs [l f c]] r]. unfold with_calls, set_calls. cbn. by rewrite app_nil_r. Qed.
Lemma with_calls_app l l' sr : with_calls l' (with_calls l sr) = with_calls (l ++ l') sr.
Proof. unfold with_calls, set_calls. cbn. by rewrite app_assoc. Qed.

Lemma call_runs c sr : call_context c sr = (Ok tt, with_calls [c] sr).
Proof. unfold call_context. by rewrite never_refuses. Qed.

Lemma register_runs o sr : ∃ n, (0 ≤ n)%Z ∧ _register_discovered_object o sr = (Ok n, with_calls (calls_of [o]) sr).
Proof.
  exists ((if pod_exists o then 1 else 0) + (if tag_exists o then 1 else 0))%Z. unfold _register_discovered_object, calls_of, bind, ret.
  destruct (pod_exists o) eqn:Hp, (tag_exists o) eqn:Ht; cbn; rewrite ?Hp, ?Ht, ?call_runs; cbn;
    rewrite ?call_runs, ?with_calls_app, ?with_calls_nil; (split; [lia|done]).
Qed.

Lemma register_all_runs os sr : ∃ n, (0 ≤ n)%Z ∧ register_all os sr = (Ok n, with_calls (calls_of os) sr).
Proof.
  revert sr. induction os as [|o os IH]; intros sr; cbn [register_all].
  { exists 0%Z. by rewrite with_calls_nil. }
  destruct (register_runs o sr) as (n & Hn & Ho). destruct (IH (with_calls (calls_of [o]) sr)) as (k & Hk & Hos).
  exists (n + k)%Z. split; [lia|]. unfold bind. rewrite Ho, Hos, with_calls_app. cbn. by rewrite app_nil_r.
Qed.

(** What the bodies of the phases leave true: anything the count, the details and the
    calls leave true *)
Section kept.
Context (I : startup app_world * recording → Prop).
Hypothesis I_recording : ∀ s r n d, (0 ≤ n)%Z → I (s, r) → I (s, mk_recording n d).
Hypothesis I_details : ∀ s r d, I (s, r) → I (s, mk_recording (_processed_count r) d).
Hypothesis I_calls : ∀ l sr, I sr → I (with_calls l sr).

Lemma kept_count n : preserves I (set_processed_count (E := app_error) (W := app_world) n).
Proof. intros [s r] Hs. unfold set_processed_count. destruct (Z.ltb_spec n 0); [done|]. cbn. by eapply I_recording. Qed.
Lemma kept_details d : preserves I (set_diagnostic_details (E := app_error) (W := app_world) d).
Proof. intros [s r] Hs. by apply I_details. Qed.
Lemma kept_register os : preserves I (register_all os).
Proof. intros sr Hs. destruct (register_all_runs os sr) as (n & _ & ->). by apply I_calls. Qed.
Lemma kept_registration r : preserves I (registration_phase r).
Proof.
  unfold registration_phase. apply preserves_bind; [apply kept_register|intros n].
  apply preserves_bind; [apply kept_count|intros _; apply preserves_ret].
Qed.
Lemma kept_scan enabled path exclude : preserves I (scan_phase enabled path exclude).
Proof.
  unfold scan_phase. apply preserves_bind; [|intros r; apply preserves_bind; [apply kept_count|intros _; apply preserves_ret]].
  destruct enabled.
  - apply preserves_bind; [apply preserves_gets|intros f]. apply preserves_bind; [apply preserves_lift|intros r].
    apply preserves_bind; [apply kept_details|intros _; apply preserves_ret].
  - apply preserves_bind; [apply preserves_lift|intros ms; apply preserves_ret].
Qed.
End kept.

(** The two that matter: no negative count, and a clock left alone *)
Definition counted (sr : startup app_world * recording) : Prop := (0 ≤ _processed_count sr.2)%Z.
Definition clock_is (t : Z) (sr : startup app_world * recording) : Prop := app_clock (world sr.1) = t.
Definition quiet {A} (m : body A) : Prop := preserves counted m ∧ ∀ t, preserves (clock_is t) m.

Lemma quiet_scan enabled path exclude : quiet (scan_phase enabled path exclude).
Proof. split; [|intros t]; by apply kept_scan. Qed.
Lemma quiet_registration r : quiet (registration_phase r).
Proof. split; [|intros t]; by apply kept_registration. Qed.

Lemma phase_runs {A} rec name (m : body A) s a s1 r1 :
  quiet m →
  m (mk_startup (records s) (perf_counter (world s)).2, mk_recording 0 []) = (Ok a, (s1, r1)) →
  ∃ s', record_phase perf_counter type_name text provided rec name 0 [] m s = (Ok a, s') ∧
    app_calls (world s') = app_calls (world s1) ∧ app_file (world s') = app_file (world s1).
Proof.
  intros [Hcount Hclock] Hm.
  pose proof (recorded_phase_is_transparent perf_counter type_name text provided app_clock
    (λ w, conj eq_refl (advance_le (app_clock w))) rec name 0%Z [] m s ltac:(lia) Hcount) as Ht.
  rewrite Hm in Ht. destruct Ht as (elapsed & _ & _ & Hr).
  - intros sr. rewrite (Hclock _ sr eq_refl). lia.
  - rewrite Hr. eexists. split; [reflexivity|done].
Qed.
(** The objects a scan registers, and the file it leaves *)
Definition objects_of (r : scan_result) : list py_object :=
  if is_hit (found_decision r) then found_objects r else found_modules r ≫= annotated.
Definition manifest_of (fp : DiscoveryManifestFingerprint) (ms : list py_module) : DiscoveryManifest :=
  mk_manifest fp (sort_by str_leb (map module_name_of ms)) (sort_by candidate_leb (map from_object (ms ≫= annotated))).

Lemma scan_runs rec path exclude s r :
  manifest_search path exclude (app_file (world s)) = Ok r →
  ∃ s', scan rec true path exclude s = (Ok tt, s') ∧
    app_calls (world s') = app_calls (world s) ++ calls_of (objects_of r) ∧
    app_file (world s') =
      match found_fingerprint r with
      | Some fp => if is_hit (found_decision r) then app_file (world s) else Some (save (manifest_of fp (found_modules r)))
      | None => app_file (world s)
      end.
Proof.
  intros Hr. unfold scan, bind.
  destruct (phase_runs rec "scan" (scan_phase true path exclude) s r
    (mk_startup (records s) (perf_counter (world s)).2)
    (mk_recording (Z.of_nat (length (found_modules r))) (decision_details (found_decision r)))) as (s1 & -> & Hc1 & Hf1).
  { apply quiet_scan. }
  { unfold scan_phase, bind, read_file, gets, lift_app, lift. cbn. rewrite Hr. cbn. unfold set_processed_count. cbn.
    rewrite (proj2 (Z.ltb_ge _ _)) by lia. done. }
  destruct (register_all_runs (objects_of r) (mk_startup (records s1) (perf_counter (world s1)).2, mk_recording 0 []))
    as (n & Hn & Hreg).
  edestruct (phase_runs rec "registration" (registration_phase r) s1) as (s2 & -> & Hc2 & Hf2).
  { apply quiet_registration. }
  { unfold registration_phase, bind. fold (objects_of r). rewrite Hreg. unfold set_processed_count.
    rewrite (proj2 (Z.ltb_ge _ _)) by done. reflexivity. }
  cbn in Hc1, Hf1, Hc2, Hf2. rewrite Hc1 in Hc2. rewrite Hf1 in Hf2. unfold write_manifest, manifest_of. unfold objects_of in *.
  destruct (found_fingerprint r) as [fp|]; [|by exists s2].
  destruct (is_hit (found_decision r)); [by exists s2|]. eexists. split; [reflexivity|].
  split; [exact Hc2|]. done.
Qed.

(** *** Resolving what a manifest lists *)

Hypothesis import_name : ∀ n m, import_module n = Some m → module_name_of m = n.

(** An object that the module it says it is defined in can be asked for, and no other there
    goes by its name *)
Definition addressable (o : py_object) : Prop :=
  ∃ m, import_module (object_module o) = Some m ∧
    ∀ o', o' ∈ members m → object_module o' = object_module o → object_qualname o' = object_qualname o → o' = o.

Lemma candidate_matches_spec o o' :
  candidate_matches (from_object o) o' = true ↔ object_module o' = object_module o ∧ object_qualname o' = object_qualname o.
Proof. unfold candidate_matches, from_object. cbn. by rewrite andb_true_iff, !String.eqb_eq. Qed.

Lemma dedup_at_most (o : py_object) l : (∀ x, x ∈ l → x = o) → dedup l = [o] ∨ dedup l = [].
Proof.
  intros Hl. assert (∀ x, x ∈ dedup l → x = o) as Hd.
  { intros x Hx. apply Hl. rewrite elem_of_dedup in Hx. exact Hx. }
  pose proof (NoDup_dedup l) as Hnd. destruct (dedup l) as [|x [|y k]]; [by right| |].
  - left. f_equal. apply Hd. by left.
  - exfalso. assert (x = o) as -> by (apply Hd; by left). assert (y = o) as -> by (apply Hd; right; by left).
    apply NoDup_cons in Hnd as [Hn _]. apply Hn. by left.
Qed.

Lemma resolve_addressable o m :
  addressable o → import_module (object_module o) = Some m →
  list_objects m (candidate_matches (from_object o)) = [o] ∨ list_objects m (candidate_matches (from_object o)) = [].
Proof.
  intros (m' & Hm' & Huniq) Hm. rewrite Hm in Hm'. injection Hm' as <-. apply dedup_at_most.
  intros x Hx%list_elem_of_In. apply filter_In in Hx as [Hx [H1 H2]%candidate_matches_spec].
  apply Huniq; [by apply list_elem_of_In|done..].
Qed.

Lemma resolve_hit os : Forall addressable os →
  _resolve_manifest_hit (map from_object os) = Ok (Some os) ∨ _resolve_manifest_hit (map from_object os) = Ok None.
Proof.
  induction 1 as [|o os Ho Hos IH]; [by left|]. cbn [map _resolve_manifest_hit]. destruct Ho as (m & Hm & Hu).
  unfold resolve_module. change (candidate_module (from_object o)) with (object_module o). rewrite Hm. cbn [mbind outcome_bind].
  destruct (resolve_addressable o m ltac:(by exists m) Hm) as [-> | ->]; [|by right].
  destruct IH as [-> | ->]; [by left|by right].
Qed.

Lemma sorted_candidates os : ∃ os', os' ≡ₚ os ∧ sort_by candidate_leb (map from_object os) = map from_object os'.
Proof.
  destruct (Permutation_map_inv from_object os (sort_by_perm candidate_leb (map from_object os))) as (os' & Heq & Hp).
  exists os'. split; [by symmetry|done].
Qed.

Lemma import_all_known exclude names : Forall (λ m, import_module (module_name_of m) = Some m) (import_all exclude names).
Proof.
  induction names as [|n names IH]; cbn; [constructor|]. destruct (is_subpath_of n exclude); [done|].
  destruct (import_module n) as [m|] eqn:Hm; [|done]. constructor; [|done]. by rewrite (import_name n m Hm).
Qed.

(** A path given as a module is the module of its name. *)
Definition known_path (path : Module_) : Prop := match path with ByModule m => import_module (module_name_of m) = Some m | _ => True end.

Lemma discovered_known path exclude ms :
  known_path path → _discover_modules path exclude = Ok ms → Forall (λ m, import_module (module_name_of m) = Some m) ms.
Proof.
  intros Hpath (m & Hm & Hms)%outcome_bind_Ok.
  assert (import_module (module_name_of m) = Some m) as Hk.
  { destruct path as [m'|n]; cbn in Hm; [by injection Hm as ->|]. destruct (import_module n) as [m'|] eqn:Hn; [|done].
    injection Hm as <-. by rewrite (import_name n m' Hn). }
  destruct (is_package m); [|injection Hms as <-; by constructor].
  unfold list_modules in Hms. destruct (package_path m) as [paths|]; [|done]. injection Hms as <-.
  apply Forall_forall. intros x Hx. rewrite elem_of_dedup in Hx. pose proof (import_all_known exclude) as Hall.
  specialize (Hall (walk_packages paths (if is_root_package m then "" else module_name_of m +:+ "."))).
  rewrite Forall_forall in Hall. by apply Hall.
Qed.

Lemma resolve_names names ms :
  Forall (λ m, import_module (module_name_of m) = Some m) ms → names ≡ₚ map module_name_of ms →
  ∃ ms', mapM (λ n, resolve_module (ByName n)) names = Ok ms'.
Proof.
  intros Hms Hp. assert (∀ n, n ∈ names → ∃ m, import_module n = Some m) as Hn.
  { intros n. rewrite Hp. intros (m & -> & Hm)%list_elem_of_fmap. rewrite Forall_forall in Hms. eauto. }
  assert (∃ ms', Forall2 (λ n m, resolve_module (ByName n) = Ok m) names ms') as [ms' Hms'].
  { clear Hp. induction names as [|n names IH]; [by exists []|]. destruct (Hn n ltac:(by left)) as [m Hm].
    destruct IH as [ms' IH]; [by intros k Hk; apply Hn; right|]. exists (m :: ms'). constructor; [|done]. cbn. by rewrite Hm. }
  exists ms'. by apply mapM_outcome_Ok.
Qed.

(** *** A scan from a manifest *)

Lemma discover_resolves path exclude ms : _discover_modules path exclude = Ok ms → ∃ fp, fingerprint_of path exclude = Ok fp.
Proof. unfold _discover_modules, fingerprint_of. intros (m & -> & _)%outcome_bind_Ok. by eexists. Qed.

Lemma first_search path exclude ms fp :
  _discover_modules path exclude = Ok ms → fingerprint_of path exclude = Ok fp →
  manifest_search path exclude None = Ok (mk_scan_result ms (Some MISS) (Some fp) []).
Proof. intros Hms Hfp. unfold manifest_search. rewrite Hfp. cbn. by rewrite Hms. Qed.

(** Searching again with the manifest of the first search: a hit on the same objects, or
    the same search *)
Lemma second_search path exclude ms fp :
  known_path path → _discover_modules path exclude = Ok ms → fingerprint_of path exclude = Ok fp →
  Forall addressable (ms ≫= annotated) →
  ∃ r, manifest_search path exclude (Some (save (manifest_of fp ms))) = Ok r ∧ found_fingerprint r = Some fp ∧
    objects_of r ≡ₚ ms ≫= annotated ∧ (is_hit (found_decision r) = false → found_modules r = ms).
Proof.
  intros Hpath Hms Hfp Haddr. unfold manifest_search. rewrite Hfp. cbn [mbind outcome_bind].
  rewrite load_saved; cbn [manifest_fingerprint manifest_of]; [|by apply outcome_bind_Ok in Hfp as (m & _ & [= <-])].
  rewrite bool_decide_eq_true_2 by done. cbn [loaded_manifest manifest_of manifest_candidates manifest_modules].
  destruct (sorted_candidates (ms ≫= annotated)) as (os & Hos & ->).
  destruct (resolve_hit os) as [-> | ->]; [by rewrite Hos|..]; cbn [mbind outcome_bind].
  - destruct (resolve_names (sort_by str_leb (map module_name_of ms)) ms) as [ms' ->];
      [by eapply discovered_known|by rewrite sort_by_perm|]. cbn. eexists. split; [reflexivity|]. by split_and!.
  - rewrite Hms. cbn. eexists. split; [reflexivity|]. by split_and!.
Qed.

(** C23. A manifest is transparent: a scan that writes one registers every object a search of
    the same input finds, and every later scan from that file, in a process where the
    same modules are imported, registers the same objects, whether the manifest is a hit
    or, because an object cannot be found by its name again, is not; and the file stays
    as it is. The objects found must be defined in modules that can be imported, where
    no other object has their name. *)
Theorem cached_scan_registers_the_same rec path exclude ms s :
  known_path path → _discover_modules path exclude = Ok ms → Forall addressable (ms ≫= annotated) →
  app_file (world s) = None →
  ∃ s1, scan rec true path exclude s = (Ok tt, s1) ∧
    app_calls (world s1) = app_calls (world s) ++ calls_of (ms ≫= annotated) ∧
    ∀ s2, app_file (world s2) = app_file (world s1) →
      ∃ s3, scan rec true path exclude s2 = (Ok tt, s3) ∧
        app_calls (world s3) ≡ₚ app_calls (world s2) ++ calls_of (ms ≫= annotated) ∧
        app_file (world s3) = app_file (world s2).
Proof.
  intros Hpath Hms Haddr Hnone. destruct (discover_resolves _ _ _ Hms) as [fp Hfp].
  destruct (scan_runs rec path exclude s (mk_scan_result ms (Some MISS) (Some fp) [])) as (s1 & Hs1 & Hc1 & Hf1).
  { rewrite Hnone. by apply first_search. }
  cbn in Hf1. exists s1. split; [done|]. split; [done|]. intros s2 Hf2. rewrite Hf1 in Hf2.
  destruct (second_search path exclude ms fp) as (r & Hr & Hrf & Hro & Hrm); [done..|].
  destruct (scan_runs rec path exclude s2 r) as (s3 & Hs3 & Hc3 & Hf3); [by rewrite Hf2|].
  exists s3. split; [done|]. rewrite Hc3. split; [by rewrite (calls_of_perm _ _ Hro)|].
  rewrite Hf3, Hrf. destruct (is_hit (found_decision r)) eqn:Hh; [done|]. by rewrite Hrm, Hf2.
Qed.
End runs.
End application.

(** ** What a manifest does not notice *)

Section deviations.
Context (import_module : string → option py_module) (members : py_module → list py_object).

(** An object seen in one module that says, as a wrapper does of what it wraps, that it is
    another object of another module: a scan registers it, a hit the other. *)
Theorem hit_registers_the_namesake m o o' :
  import_module (object_module o) = Some m → members m = [o'] → candidate_matches (from_object o) o' = true →
  _resolve_manifest_hit import_module members [from_object o] = Ok (Some [o']).
Proof.
  intros Hm Hmem Hmatch. cbn. unfold resolve_module. change (candidate_module (from_object o)) with (object_module o).
  rewrite Hm. cbn. unfold list_objects. rewrite Hmem. cbn. by rewrite Hmatch.
Qed.

(** An object whose module cannot be imported makes a hit raise. *)
Theorem hit_imports_the_defining_module o :
  import_module (object_module o) = None →
  _resolve_manifest_hit import_module members [from_object o] = Raise (ImportError (object_module o)).
Proof. intros Hm. cbn. unfold resolve_module. by change (candidate_module (from_object o)) with (object_module o); rewrite Hm. Qed.
End deviations.

(** ** Witness: a package of two modules that share a class *)

Definition ex_package : py_module := mk_module "app" (Some ["/srv/app"]) (Some ["/srv/app"]) (Some "/srv/app/__init__.py").
Definition ex_module (n : string) : py_module := mk_module n None None (Some ("/srv/" +:+ n +:+ ".py")).
Definition ex_import (n : string) : option py_module :=
  if String.eqb n "app" then Some ex_package
  else if bool_decide (n ∈ ["app.a"; "app.b"; "app.tests.c"]) then Some (ex_module n) else None.
Definition ex_service : py_object := mk_object 1 ClassObject "app.a" "Service" true false.
Definition ex_setup : py_object := mk_object 2 FunctionObject "app.b" "setup" true true.
Definition ex_helper : py_object := mk_object 3 FunctionObject "app.b" "helper" false false.
Definition ex_members (m : py_module) : list py_object :=
  if String.eqb (module_name_of m) "app.a" then [ex_service]
  else if String.eqb (module_name_of m) "app.b" then [ex_helper; ex_service; ex_setup] else [].
Definition ex_walk (_ : list string) (prefix : string) : list string := [prefix +:+ "a"; prefix +:+ "b"; prefix +:+ "tests.c"; prefix +:+ "gone"].
Definition ex_stat (_ : string) : Z * Z := (17, 4)%Z.
Definition ex_rglob (l : string) : list string := [l +:+ "/a.py"; l +:+ "/b.py"].
Definition ex_scan : recorder → bool → Module_ → list Module_ → comp (startup app_world) (startup_error app_error) unit :=
  scan ex_import ex_members ex_walk ["/srv"] ex_rglob (λ p, p) ex_stat "3.12" (λ t, t) (λ t, (t + 1)%Z) (λ _ _, false)
    (λ _, "") (λ _, "") (λ _, None).
Definition ex_start : startup app_world := mk_startup [] (mk_app_world [] None 0).
Definition ex_exclude : list Module_ := [ByName "app.test*"].

Example ex_scan_registers :
  app_calls (world (ex_scan ActiveStartupPhaseRecorder true (ByName "app") ex_exclude ex_start).2) =
    [AddPod ex_service; AddPod ex_service; AddPod ex_setup; RegisterTag ex_setup].
Proof. vm_compute. reflexivity. Qed.

Lemma ex_import_name n m : ex_import n = Some m → module_name_of m = n.
Proof.
  unfold ex_import. destruct (String.eqb_spec n "app") as [->|]; [by intros [= <-]|]. case_bool_decide; [|done]. by intros [= <-].
Defined.

Lemma cached_scan_registers_the_same_witness :
  ∃ s1 s3, ex_scan NoOpStartupPhaseRecorder true (ByName "app") ex_exclude ex_start = (Ok tt, s1) ∧
    ex_scan NoOpStartupPhaseRecorder true (ByName "app") ex_exclude (mk_startup [] (mk_app_world [] (app_file (world s1)) 5)) = (Ok tt, s3) ∧
    app_calls (world s3) ≡ₚ [AddPod ex_service; AddPod ex_service; AddPod ex_setup; RegisterTag ex_setup].
Proof.
  destruct (cached_scan_registers_the_same ex_import ex_members ex_walk ["/srv"] ex_rglob (λ p, p) ex_stat "3.12" (λ t, t)
    (λ t, (t + 1)%Z) (λ _ _, false) (λ _, "") (λ _, "") (λ _, None)) with (rec := NoOpStartupPhaseRecorder) (path := ByName "app")
    (exclude := ex_exclude) (ms := [ex_module "app.a"; ex_module "app.b"]) (s := ex_start) as (s1 & Hs1 & _ & Hnext).
  - done.
  - intros t. lia.
  - apply ex_import_name.
  - exact I.
  - vm_compute. reflexivity.
  - repeat (apply List.Forall_cons); [..|apply List.Forall_nil].
    all: eexists; (split; [vm_compute; reflexivity|]); intros o' Ho'; cbn in Ho';
      repeat (apply elem_of_cons in Ho' as [->|Ho']; [done|]); by apply elem_of_nil in Ho'.
  - done.
  - destruct (Hnext (mk_startup [] (mk_app_world [] (app_file (world s1)) 5)) eq_refl) as (s3 & Hs3 & Hc3 & _).
    exists s1, s3. split; [exact Hs1|]. split; [exact Hs3|]. exact Hc3.
Defined.
