(* ===== verification/PluginLoading.v ===== *)
(** * Loading plugins

    [load_plugins] of [core/spakky/application/application.py]: the plugins declared as
    entry points, then the contributions they make to one another's features. The
    metadata of the installed packages and the code of the entry points are parameters. *)

From S2P Require Import Prelude Json Diagnostics.

Definition PLUGIN_PATH : string := "spakky.plugins".
Definition CONTRIBUTION_PATH_PREFIX : string := "spakky.contributions".
Definition _PLUGIN_MODULE_PREFIX : string := "spakky.plugins.".

(** [EntryPoint]: its name and value, and the group and name of every entry point of its
    distribution *)
Record entry_point := mk_entry_point {
  ep_name : string;
  ep_value : string;
  ep_dist : option (list (string * string));
}.
(** A plugin is its name; a set of plugins is a list without repetitions. *)
Abbreviation plugins := (list string).

Inductive skip_reason := INACTIVE_FEATURE | INACTIVE_PROVIDER | INCLUDE_FILTER.
#[global] Instance skip_reason_eq_dec : EqDecision skip_reason.
Proof. solve_decision. Defined.
Definition skip_reason_value (r : skip_reason) : string :=
  match r with INACTIVE_FEATURE => "inactive_feature" | INACTIVE_PROVIDER => "inactive_provider" | INCLUDE_FILTER => "include_filter" end.
Definition _CONTRIBUTION_SKIP_REASONS : list skip_reason := [INACTIVE_FEATURE; INACTIVE_PROVIDER; INCLUDE_FILTER].

Definition mem (x : string) (l : plugins) : bool := bool_decide (x ∈ l).
(** [s & t] *)
Definition intersection (s t : plugins) : plugins := List.filter (λ x, mem x t) s.

Definition _is_core_feature_entry_point (e : entry_point) : bool := negb (String.prefix _PLUGIN_MODULE_PREFIX (ep_value e)).

(** [name.replace("-", ".")] *)
Fixpoint dots_for_dashes (s : string) : string :=
  match s with "" => "" | String c s' => String (if Ascii.eqb c "-"%char then "."%char else c) (dots_for_dashes s') end.
Definition _contribution_entry_point_group (feature : string) : string := CONTRIBUTION_PATH_PREFIX +:+ "." +:+ dots_for_dashes feature.

Definition _provider_plugins_for_contribution (e : entry_point) : plugins :=
  match ep_dist e with
  | None => []
  | Some eps => dedup (map snd (List.filter (λ gn, String.eqb gn.1 PLUGIN_PATH) eps))
  end.

Definition _contribution_skip_reason (feature : string) (e : entry_point) (loaded_base_plugins : plugins) (include : option plugins)
    : option skip_reason :=
  let active_provider_plugins := intersection (_provider_plugins_for_contribution e) loaded_base_plugins in
  if negb (mem feature loaded_base_plugins) then Some INACTIVE_FEATURE
  else if match include with Some i => (length (intersection active_provider_plugins i) =? 0)%nat | None => false end then Some INCLUDE_FILTER
  else if (length active_provider_plugins =? 0)%nat then Some INACTIVE_PROVIDER
  else None.

(** ** What is reported *)

Definition join_with (sep : string) (l : list string) : string := String.concat sep l.
Definition _format_plugin_names (ps : plugins) : string := join_with "," (sort_by str_leb ps).
Definition _contribution_context_detail_value (group : string) (e : entry_point) (providers : plugins) (feature : string) : string :=
  "group=" +:+ group +:+ ";entry_point=" +:+ ep_name e +:+ ";provider=" +:+ _format_plugin_names providers +:+ ";feature=" +:+ feature.

Record _ContributionDiagnostics := mk_contribution_diagnostics {
  _loaded_count : Z;
  _skipped_count : Z;
  _failed_count : Z;
  _skipped_by_reason : skip_reason → Z;
  _events : StartupDiagnosticDetails;
}.
Definition new_diagnostics : _ContributionDiagnostics := mk_contribution_diagnostics 0 0 0 (λ _, 0%Z) [].
Definition record_loaded (group : string) (e : entry_point) (providers : plugins) (feature : string) (d : _ContributionDiagnostics) :=
  mk_contribution_diagnostics (_loaded_count d + 1) (_skipped_count d) (_failed_count d) (_skipped_by_reason d)
    (_events d ++ [("contributions.loaded.item", _contribution_context_detail_value group e providers feature)]).
Definition record_skipped (reason : skip_reason) (group : string) (e : entry_point) (providers : plugins) (feature : string)
    (d : _ContributionDiagnostics) :=
  mk_contribution_diagnostics (_loaded_count d) (_skipped_count d + 1) (_failed_count d)
    (λ r, if decide (r = reason) then (_skipped_by_reason d r + 1)%Z else _skipped_by_reason d r)
    (_events d ++ [("contributions.skipped.item",
       "reason=" +:+ skip_reason_value reason +:+ ";" +:+ _contribution_context_detail_value group e providers feature)]).
Definition record_failed (group : string) (e : entry_point) (providers : plugins) (feature : string) (d : _ContributionDiagnostics) :=
  mk_contribution_diagnostics (_loaded_count d) (_skipped_count d) (_failed_count d + 1) (_skipped_by_reason d)
    (_events d ++ [("contributions.failed.item", _contribution_context_detail_value group e providers feature)]).
Definition details (d : _ContributionDiagnostics) : StartupDiagnosticDetails :=
  [("contributions.loaded", int_text (_loaded_count d)); ("contributions.skipped", int_text (_skipped_count d));
   ("contributions.failed", int_text (_failed_count d))] ++
  map (λ r, ("contributions.skipped." +:+ skip_reason_value r, int_text (_skipped_by_reason d r))) _CONTRIBUTION_SKIP_REASONS ++
  _events d.

(** ** Loading *)

Section loading.
Context {E W : Type}.
(** [entry_points(group=...)] of the installed distributions; [entry_point.load()] and the
    call of what it gives with the application *)
Context (entry_points : string → list entry_point).
Context (load_entry_point call_entry_point : entry_point → comp W E unit).
Context (include : option plugins).

Abbreviation body := (comp (startup W * recording) (startup_error E)).

(** Code of a plugin, which acts on the application *)
Definition on_world {A} (m : comp W E A) : body A := λ sr,
  let '(o, w) := m (world sr.1) in (map_error PhaseError o, (mk_startup (records sr.1) w, sr.2)).

Definition by_name (eps : list entry_point) : list entry_point := sort_by (λ a b, str_leb (ep_name a) (ep_name b)) eps.
Definition included (e : entry_point) : bool := match include with Some i => mem (ep_name e) i | None => true end.

Fixpoint load_base (eps : list entry_point) (count : Z) (loaded : plugins) : body (Z * plugins) :=
  match eps with
  | [] => ret (count, loaded)
  | e :: eps' =>
      if included e then
        on_world (load_entry_point e) ;;;
        set_processed_count (count + 1) ;;;
        on_world (call_entry_point e) ;;;
        load_base eps' (count + 1) (if mem (ep_name e) loaded then loaded else loaded ++ [ep_name e])
      else load_base eps' count loaded
  end.

(** [try: body except Exception: handler; raise] *)
Definition on_failure {A} (m : body A) (handler : body unit) : body A :=
  try_except m (λ e, Some (handler ;;; raise e)).

Fixpoint load_contributions (feature : string) (loaded : plugins) (cs : list entry_point) (count : Z) (d : _ContributionDiagnostics)
    : body (Z * _ContributionDiagnostics) :=
  match cs with
  | [] => ret (count, d)
  | c :: cs' =>
      let group := _contribution_entry_point_group feature in
      let providers := _provider_plugins_for_contribution c in
      match _contribution_skip_reason feature c loaded include with
      | Some reason => load_contributions feature loaded cs' count (record_skipped reason group c providers feature d)
      | None =>
          on_failure (on_world (load_entry_point c) ;;; on_world (call_entry_point c))
            (set_diagnostic_details (details (record_failed group c providers feature d))) ;;;
          set_processed_count (count + 1) ;;;
          load_contributions feature loaded cs' (count + 1) (record_loaded group c providers feature d)
      end
  end.

Fixpoint load_features (features : plugins) (loaded : plugins) (count : Z) (d : _ContributionDiagnostics)
    : body (Z * _ContributionDiagnostics) :=
  match features with
  | [] => ret (count, d)
  | f :: features' =>
      r <- load_contributions f loaded (by_name (entry_points (_contribution_entry_point_group f))) count d ;;
      load_features features' loaded r.1 r.2
  end.

Definition base_entry_points : list entry_point := by_name (entry_points PLUGIN_PATH).
Definition available_feature_plugins : plugins :=
  sort_by str_leb (dedup (map ep_name (List.filter _is_core_feature_entry_point base_entry_points))).

(** The body of the phase [load_plugins] *)
Definition load_plugins : body unit :=
  base <- load_base base_entry_points 0 [] ;;
  r <- load_features available_feature_plugins base.2 base.1 new_diagnostics ;;
  set_diagnostic_details (details r.2).
End loading.

(** ** Which plugins and contributions run *)

Section exactness.
Context {E W : Type} (entry_points : string → list entry_point).
Context (load_entry_point call_entry_point : entry_point → comp W E unit) (include : option plugins).

Abbreviation body := (comp (startup W * recording) (startup_error E)).

(** Loading an entry point and calling it *)
Definition run_entry_point (e : entry_point) : comp W E unit := load_entry_point e ;;; call_entry_point e.

(** [m] does to the application what [n] does, raises what [n] raises, and returns a value
    in [Q]; it may change the recording of the phase. *)
Definition mirrors {A} (m : body A) (n : comp W E unit) (Q : A → Prop) : Prop :=
  ∀ s r, ∃ r', (m (s, r)).2 = (mk_startup (records s) (n (world s)).2, r') ∧
    match (n (world s)).1, (m (s, r)).1 with
    | Ok _, Ok a => Q a
    | Raise e, Raise x => x = PhaseError e
    | _, _ => False
    end.

Lemma mirrors_proper {A} (m : body A) n n' Q : n ≡ n' → mirrors m n Q → mirrors m n' Q.
Proof. intros Hn Hm s r. rewrite <- (Hn (world s)). apply Hm. Qed.
Lemma mirrors_ret {A} (a : A) (Q : A → Prop) : Q a → mirrors (ret a) (ret tt) Q.
Proof. intros Ha [recs w] r. by exists r. Qed.
Lemma mirrors_on_world n : mirrors (on_world n) n (λ _, True).
Proof. intros s r. unfold on_world. cbn. destruct (n (world s)) as [[a|e] w]; by exists r. Qed.
Lemma mirrors_count c : (0 ≤ c)%Z → mirrors (set_processed_count c) (ret tt) (λ _, True).
Proof. intros Hc [recs w] r. unfold set_processed_count. rewrite (proj2 (Z.ltb_ge _ _)) by done. by eexists. Qed.

Lemma mirrors_bind {A B} (m : body A) (f : A → body B) n k (Q : A → Prop) (R : B → Prop) :
  mirrors m n Q → (∀ a, Q a → mirrors (f a) k R) → mirrors (bind m f) (n ;;; k) R.
Proof.
  intros Hm Hf s r. destruct (Hm s r) as (r1 & Hs & Ho). unfold bind.
  destruct (n (world s)) as [[[]|e] w], (m (s, r)) as [[a|x] s1]; cbn in Hs, Ho; subst; try done.
  - apply (Hf a Ho (mk_startup (records s) w) r1).
  - by exists r1.
Qed.

Lemma mirrors_on_failure {A} (m : body A) n Q d : mirrors m n Q → mirrors (on_failure m (set_diagnostic_details d)) n Q.
Proof.
  intros Hm s r. destruct (Hm s r) as (r1 & Hs & Ho). unfold on_failure, try_except, bind.
  destruct (n (world s)) as [[u|e] w], (m (s, r)) as [[a|x] s1]; cbn in Hs, Ho; subst; try done; by eexists.
Qed.

(** *** The base plugins *)

Definition selected_base : list entry_point := List.filter (included include) (base_entry_points entry_points).
Definition loaded_base : plugins := dedup (map ep_name selected_base).

Definition add_plugin (acc : plugins) (x : string) : plugins := if mem x acc then acc else acc ++ [x].
Lemma add_plugins_aux acc l : foldl add_plugin acc l = acc ++ dedup_aux acc l.
Proof.
  revert acc. induction l as [|x l IH]; intros acc; cbn; [by rewrite app_nil_r|]. rewrite IH. unfold add_plugin, mem.
  case_decide as Hx; [by rewrite bool_decide_eq_true_2|]. rewrite bool_decide_eq_false_2 by done. by rewrite <-app_assoc.
Qed.

Lemma base_mirrors eps count loaded : (0 ≤ count)%Z →
  mirrors (load_base load_entry_point call_entry_point include eps count loaded) (for_each run_entry_point (List.filter (included include) eps))
    (λ r, r.1 = (count + Z.of_nat (length (List.filter (included include) eps)))%Z ∧
          r.2 = foldl add_plugin loaded (map ep_name (List.filter (included include) eps))).
Proof.
  revert count loaded. induction eps as [|e eps IH]; intros count loaded Hc; cbn [load_base List.filter].
  { apply mirrors_ret. split; [cbn; lia|done]. }
  destruct (included include e); [|by apply IH]. cbn [for_each map length foldl].
  apply (mirrors_proper _ (load_entry_point e ;;; ret tt ;;; call_entry_point e ;;;
    for_each run_entry_point (List.filter (included include) eps))).
  { intros w. unfold run_entry_point, bind, ret. by destruct (load_entry_point e w) as [[] ?]. }
  eapply mirrors_bind; [apply mirrors_on_world|intros _ _]. eapply mirrors_bind; [apply mirrors_count; lia|intros _ _].
  eapply mirrors_bind; [apply mirrors_on_world|intros _ _].
  intros s r. destruct (IH (count + 1)%Z (add_plugin loaded (ep_name e)) ltac:(lia) s r) as (r' & Hs & Ho).
  exists r'. split; [exact Hs|]. revert Ho. unfold add_plugin. destruct (for_each _ _ _) as [[]]; cbn; [|done].
  destruct (load_base _ _ _ _ _ _ _) as [[y|x] s1]; cbn; [|done]. intros [H1 H2]. split; [rewrite H1; lia|done].
Qed.

(** *** The contributions *)

Definition active (feature : string) (c : entry_point) : bool :=
  bool_decide (_contribution_skip_reason feature c loaded_base include = None).
Definition contributions (feature : string) : list entry_point :=
  by_name (entry_points (_contribution_entry_point_group feature)).
Definition selected_contributions (features : plugins) : list entry_point :=
  features ≫= λ f, List.filter (active f) (contributions f).

(** The counts of a report that took [n] contributions, [k] of which were loaded *)
Definition skipped_total (d : _ContributionDiagnostics) : Z :=
  (_skipped_by_reason d INACTIVE_FEATURE + _skipped_by_reason d INACTIVE_PROVIDER + _skipped_by_reason d INCLUDE_FILTER)%Z.
Definition counts (n k : nat) (d d' : _ContributionDiagnostics) : Prop :=
  (_loaded_count d' = _loaded_count d + Z.of_nat k)%Z ∧ (_skipped_count d' + Z.of_nat k = _skipped_count d + Z.of_nat n)%Z ∧
  _failed_count d' = _failed_count d ∧ (skipped_total d' - skipped_total d = _skipped_count d' - _skipped_count d)%Z.

Lemma counts_skipped reason g e ps f d d' n k : counts n k (record_skipped reason g e ps f d) d' → counts (S n) k d d'.
Proof. unfold counts, skipped_total, record_skipped. cbn [_loaded_count _skipped_count _failed_count _skipped_by_reason]. destruct reason; repeat case_decide; try congruence; lia. Qed.
Lemma counts_loaded g e ps f d d' n k : counts n k (record_loaded g e ps f d) d' → counts (S n) (S k) d d'.
Proof. unfold counts, skipped_total. cbn. lia. Qed.
Lemma counts_trans n k n' k' d d' d'' : counts n k d d' → counts n' k' d' d'' → counts (n + n') (k + k') d d''.
Proof. unfold counts. lia. Qed.

Lemma mirrors_weaken {A} (m : body A) n (Q R : A → Prop) : (∀ a, Q a → R a) → mirrors m n Q → mirrors m n R.
Proof.
  intros HQR Hm s r. destruct (Hm s r) as (r' & Hs & Ho). exists r'. split; [done|].
  destruct (n (world s)).1, (m (s, r)).1; auto.
Qed.

Lemma contributions_mirror f cs count d : (0 ≤ count)%Z →
  mirrors (load_contributions load_entry_point call_entry_point include f loaded_base cs count d)
    (for_each run_entry_point (List.filter (active f) cs))
    (λ r, (r.1 = count + Z.of_nat (length (List.filter (active f) cs)))%Z ∧ counts (length cs) (length (List.filter (active f) cs)) d r.2).
Proof.
  revert count d. induction cs as [|c cs IH]; intros count d Hc; cbn [load_contributions List.filter].
  { apply mirrors_ret. unfold counts. cbn. lia. }
  destruct (_contribution_skip_reason f c loaded_base include) as [reason|] eqn:Hreason.
  - assert (active f c = false) as -> by (unfold active; by rewrite Hreason). eapply mirrors_weaken; [|by apply IH]. intros a [H1 H2]. split; [done|].
    by eapply counts_skipped.
  - assert (active f c = true) as -> by (unfold active; by rewrite Hreason). cbn [for_each length].
    apply (mirrors_proper _ (run_entry_point c ;;; ret tt ;;; for_each run_entry_point (List.filter (active f) cs))).
    { intros w. unfold run_entry_point, bind, ret. by destruct (load_entry_point c w) as [[] ?]. }
    eapply mirrors_bind; [|intros _ _].
    { apply mirrors_on_failure. eapply mirrors_bind; [apply mirrors_on_world|intros _ _]. apply mirrors_on_world. }
    eapply mirrors_bind; [apply mirrors_count; lia|intros _ _].
    eapply mirrors_weaken; [|apply IH; lia]. intros a [H1 H2]. split; [lia|]. by eapply counts_loaded.
Qed.

Lemma features_mirror fs count d : (0 ≤ count)%Z →
  mirrors (load_features entry_points load_entry_point call_entry_point include fs loaded_base count d)
    (for_each run_entry_point (selected_contributions fs))
    (λ r, (r.1 = count + Z.of_nat (length (selected_contributions fs)))%Z ∧
          counts (length (fs ≫= contributions)) (length (selected_contributions fs)) d r.2).
Proof.
  revert count d. induction fs as [|f fs IH]; intros count d Hc; cbn [load_features].
  { apply mirrors_ret. unfold counts. cbn. lia. }
  change (selected_contributions (f :: fs)) with (List.filter (active f) (contributions f) ++ selected_contributions fs).
  change ((f :: fs) ≫= contributions) with (contributions f ++ (fs ≫= contributions)).
  eapply mirrors_proper; [symmetry; apply for_each_app|]. eapply mirrors_bind; [by apply contributions_mirror|].
  intros [n d1] [H1 H2]. cbn [fst snd] in *. eapply mirrors_weaken; [|apply IH; lia]. intros [n2 d2] [H3 H4]. cbn [fst snd] in *.
  rewrite !length_app. split; [lia|]. by eapply counts_trans.
Qed.

Definition selected : list entry_point := selected_base ++ selected_contributions (available_feature_plugins entry_points).

(** Loading plugins runs exactly the selected entry points, in order: the included base
    plugins by name, then, feature by feature, the active contributions by name; it does
    to the application what running them one after the other does, and raises the first
    error one of them raises. When none does, the report of the phase accounts for every
    contribution: those loaded, and those skipped, by reason. *)
Theorem load_plugins_runs_selected s r :
  ∃ r', load_plugins entry_points load_entry_point call_entry_point include (s, r) =
      (map_error PhaseError (for_each run_entry_point selected (world s)).1,
       (mk_startup (records s) (for_each run_entry_point selected (world s)).2, r')) ∧
    ((for_each run_entry_point selected (world s)).1 = Ok tt → ∃ d, _diagnostic_details r' = details d ∧
       counts (length (available_feature_plugins entry_points ≫= contributions))
         (length (selected_contributions (available_feature_plugins entry_points))) new_diagnostics d).
Proof.
  assert (mirrors (load_plugins entry_points load_entry_point call_entry_point include)
    (for_each run_entry_point selected_base ;;; for_each run_entry_point (selected_contributions (available_feature_plugins entry_points)) ;;; ret tt)
    (λ _, True)) as Hm.
  { unfold load_plugins. eapply mirrors_bind; [by apply base_mirrors|]. intros [count loaded] [Hc Hl]. cbn [fst snd] in *.
    assert (loaded = loaded_base) as -> by (rewrite Hl; apply add_plugins_aux).
    eapply mirrors_bind; [apply features_mirror; lia|]. intros [n d] _ [recs w] r0. by eexists. }
  assert ((for_each run_entry_point selected_base ;;; for_each run_entry_point (selected_contributions (available_feature_plugins entry_points)) ;;; ret tt)
    ≡ for_each run_entry_point selected) as Heq.
  { intros w. unfold selected. rewrite (for_each_app _ _ _ w). unfold bind, ret.
    destruct (for_each run_entry_point selected_base w) as [[] w1]; [|done]. by destruct (for_each _ _ w1) as [[[]|] w2]. }
  apply (mirrors_proper _ _ _ _ Heq) in Hm. destruct (Hm s r) as (r' & Hs & Ho). exists r'. split.
  - destruct (load_plugins _ _ _ _ (s, r)) as [o s1]. cbn [fst snd] in *. rewrite Hs. f_equal.
    destruct (for_each run_entry_point selected (world s)).1 as [[]|e], o as [[]|x]; cbn in *; try done. by subst.
  - intros Hok. rewrite Hok in Ho. clear Hm Heq. revert Hs Ho. unfold load_plugins, bind.
    pose proof (base_mirrors (base_entry_points entry_points) 0 [] ltac:(lia) s r) as (r1 & Hs1 & Ho1).
    destruct (load_base _ _ _ _ _ _ (s, r)) as [[[count loaded]|x] s1]; [|done]. cbn [fst snd] in *.
    destruct (for_each run_entry_point (List.filter (included include) (base_entry_points entry_points)) (world s)) as [[]]; [|done].
    destruct Ho1 as [Hc Hl]. assert (loaded = loaded_base) as -> by (rewrite Hl; apply add_plugins_aux). subst s1.
    pose proof (features_mirror (available_feature_plugins entry_points) count new_diagnostics ltac:(lia)) as Hf.
    match goal with |- context [load_features _ _ _ _ _ _ _ _ (?s1, r1)] => destruct (Hf s1 r1) as (r2 & Hs2 & Ho2) end.
    destruct (load_features _ _ _ _ _ _ _ _ _) as [[[n d]|x] s2]; [|done]. cbn [fst snd] in *. subst s2.
    intros [= _ <-] _. exists d. split; [done|]. match type of Ho2 with match ?o with _ => _ end => destruct o end; [by destruct Ho2|done].
Qed.

(** A contribution runs when its feature and one of the plugins that provide it are
    loaded; with an include filter, the provider is one the filter names, and the reason
    to skip it is never an inactive provider. *)
Theorem contribution_runs_iff feature c :
  (active feature c = true ↔ feature ∈ loaded_base ∧ ∃ p, p ∈ _provider_plugins_for_contribution c ∧ p ∈ loaded_base) ∧
  (∀ i p, include = Some i → p ∈ loaded_base → p ∈ i) ∧
  (∀ i, include = Some i → _contribution_skip_reason feature c loaded_base include ≠ Some INACTIVE_PROVIDER).
Proof.
  assert (∀ i p, include = Some i → p ∈ loaded_base → p ∈ i) as Hincl.
  { intros i p Hi Hp. unfold loaded_base in Hp. rewrite elem_of_dedup in Hp. apply list_elem_of_fmap in Hp as (e & -> & He).
    apply list_elem_of_In, filter_In in He as [_ He]. unfold included in He. rewrite Hi in He. by apply bool_decide_eq_true in He. }
  assert (∀ s t p, p ∈ intersection s t ↔ p ∈ s ∧ p ∈ t) as Hint.
  { intros s t p. unfold intersection, mem. rewrite list_elem_of_In, filter_In, <-list_elem_of_In, bool_decide_eq_true. done. }
  set (act := intersection (_provider_plugins_for_contribution c) loaded_base).
  assert ((length act =? 0)%nat = false ↔ ∃ p, p ∈ _provider_plugins_for_contribution c ∧ p ∈ loaded_base) as Hact.
  { rewrite Nat.eqb_neq. split.
    - intros Hne. destruct act as [|p l] eqn:Ha; [done|]. exists p. apply Hint. fold act. rewrite Ha. by left.
    - intros (p & Hp). apply Hint in Hp. fold act in Hp. by destruct act; [apply not_elem_of_nil in Hp|]. }
  assert (∀ i, include = Some i → (length (intersection act i) =? 0)%nat = (length act =? 0)%nat) as Hfilter.
  { intros i Hi. f_equal. f_equal. unfold intersection at 1. apply filter_all. intros p Hp. unfold mem. apply bool_decide_eq_true.
    apply (Hincl i p Hi). unfold act in Hp. by apply Hint in Hp as []. }
  split; [|split; [done|]].
  - unfold active, _contribution_skip_reason. rewrite bool_decide_eq_true. fold act. rewrite <-Hact. unfold mem.
    destruct (decide (feature ∈ loaded_base)) as [Hf|Hf]; [rewrite bool_decide_eq_true_2 by done|rewrite bool_decide_eq_false_2 by done];
      cbn [negb]; [|naive_solver].
    destruct include as [i|]; [rewrite (Hfilter i eq_refl)|]; destruct (length act =? 0)%nat; naive_solver.
  - intros i Hi. unfold _contribution_skip_reason. fold act. destruct (negb _); [done|]. rewrite Hi. rewrite (Hfilter i Hi).
    by destruct (length act =? 0)%nat.
Qed.
End exactness.

(** ** Example: a provider and a feature, with and without a filter *)

Definition ex_feature : entry_point := mk_entry_point "spakky-auth" "spakky.auth.main:initialize" (Some [("spakky.plugins", "spakky-auth")]).
Definition ex_provider : entry_point := mk_entry_point "spakky-oidc" "spakky.plugins.oidc.main:initialize" (Some [("spakky.plugins", "spakky-oidc")]).
Definition ex_contribution : entry_point :=
  mk_entry_point "auth" "spakky.plugins.oidc.contributions.auth:initialize"
    (Some [("spakky.plugins", "spakky-oidc"); ("spakky.contributions.spakky.auth", "auth")]).
Definition ex_entry_points (group : string) : list entry_point :=
  if String.eqb group "spakky.plugins" then [ex_provider; ex_feature]
  else if String.eqb group "spakky.contributions.spakky.auth" then [ex_contribution] else [].
Definition ex_load_plugins (include : option plugins) : comp (startup (list entry_point) * recording) (startup_error string) unit :=
  load_plugins ex_entry_points (λ _, ret tt) (λ e, modify (λ l, l ++ [e])) include.

Example ex_all_run :
  world ((ex_load_plugins None (mk_startup [] [], mk_recording 0 [])).2.1) = [ex_feature; ex_provider; ex_contribution].
Proof. vm_compute. reflexivity. Qed.
Example ex_filtered :
  let s := (ex_load_plugins (Some ["spakky-auth"]) (mk_startup [] [], mk_recording 0 [])).2 in
  world s.1 = [ex_feature] ∧
  take 6 (_diagnostic_details s.2) =
    [("contributions.loaded", "0"); ("contributions.skipped", "1"); ("contributions.failed", "0");
     ("contributions.skipped.inactive_feature", "0"); ("contributions.skipped.inactive_provider", "0");
     ("contributions.skipped.include_filter", "1")].
Proof. vm_compute. done. Qed.
