(* ===== verification/FrontEnd.v ===== *)
(** * What the front ends share

    The plugins that expose an application over HTTP, gRPC and the command line
    ([plugins/spakky-fastapi], [-grpc], [-typer]) wrap each method of a controller in an
    endpoint of the same shape: it clears the context of the application, turns the
    credential of the call into an [AuthContext] with the authentication provider, takes
    the controller from the container and calls its method, behind whose proxy the
    aspect of [Auth.v] checks the requirements. This file has the state and the errors
    of an endpoint, the port of the provider and what the aspect does of a call;
    [FastApi.v], [GrpcServer.v] and [TyperCli.v] have the endpoints. *)

From S2P Require Import Prelude Encoding Annotation Pod Auth Tracing Domain Consumer.

(** The exceptions of an endpoint: those of [spakky-auth] ([AuthRequirementDeniedError]
    may be raised without a decision), those of the context of the trace, and [Failure]
    for the others. *)
Inductive front_error (E : Type) :=
  | AuthFailure (e : auth_error)
  | DenialWithoutDecision
  | TraceFailure (e : tracing_error)
  | Failure (e : E).
Arguments AuthFailure {E}.
Arguments DenialWithoutDecision {E}.
Arguments TraceFailure {E}.
Arguments Failure {E}.

(** [isinstance(error, AbstractSpakkyAuthError)] *)
Definition is_auth_error {E} (e : front_error E) : bool :=
  match e with
  | AuthFailure (OtherError _) => false
  | AuthFailure _ | DenialWithoutDecision => true
  | _ => false
  end.

(** [isinstance(error, AuthRequirementDeniedError)], with [error.decision] *)
Definition denied {E} (e : front_error E) : option (option AuthorizationDecision) :=
  match e with
  | DenialWithoutDecision => Some None
  | AuthFailure (AuthRequirementDeniedError d) => Some (Some d)
  | _ => None
  end.

Lemma metadata_conflict st b owner e :
  get_effective_auth_metadata st b owner = Raise e → e = ConflictingAuthMetadataError.
Proof. unfold get_effective_auth_metadata. destruct (_ && _); congruence. Qed.

Section front_end.
Context {E R W : Type}.

Abbreviation user_code := (comp (visible R W) (front_error E)).

(** The port [IAuthenticationProvider] *)
Definition authentication_provider : Type := CredentialCarrier → AuthInvocation → user_code AuthContext.

(** [application_context.clear_context()] and [store_auth_context] *)
Definition clear_request_context : user_code unit := modify (with_context []).
Definition store_request_auth (c : AuthContext) : user_code unit :=
  modify (λ v, with_context (dict_set AUTH_CONTEXT_CONTEXT_KEY (VAuthContext c) (context v)) v).

Definition on_request_trace {A} (m : comp (execution R) tracing_error A) : user_code A := λ v,
  let '(o, x) := m (trace v) in (map_error TraceFailure o, mk_visible (context v) x (program v)).

(** What is authenticated in a state *)
Definition auth_context_of (v : visible R W) : option AuthContext :=
  match dict_get AUTH_CONTEXT_CONTEXT_KEY (context v) with Some (VAuthContext c) => Some c | _ => None end.

(** A call through the proxy of a controller: the aspect reads the context of the
    application and the body runs if it lets it. The target of the call is the method
    bound to the controller. *)
Definition guarded {A} (ports : auth_ports) (st : auth_store) (b : boundary) (body : user_code A) : user_code A := λ v,
  match (AuthorizationAspect_around (mk_aspect (Some (λ k, dict_get k (context v))) ports) st b (ret tt) tt).1 with
  | Ok _ => body v
  | Raise e => (Raise (AuthFailure e), v)
  end.

(** A method is protected when the aspect requires something of its callers. *)
Definition protected_method (st : auth_store) (b : boundary) : Prop :=
  ∃ md, get_effective_auth_metadata st b None = Ok md ∧ protected md = true.

Lemma guarded_spec ports st b v :
  ((∀ A (body : user_code A), guarded ports st b body v = body v) ∧
     (protected_method st b → ∃ c, auth_context_of v = Some c)) ∨
  ∃ e, ∀ A (body : user_code A), guarded ports st b body v = (Raise (AuthFailure e), v).
Proof.
  unfold guarded. set (asp := mk_aspect _ ports).
  destruct (AuthorizationAspect_around asp st b (ret tt) tt) as [[u|e] s] eqn:Haround; cbn [fst].
  2: { right. by exists e. }
  left. split; [done|]. intros (md & Hmd & Hp). revert Haround. unfold AuthorizationAspect_around, bind, lift.
  rewrite Hmd, Hp. cbn. unfold require_auth_context, auth_context_of.
  destruct (dict_get _ (context v)) as [[c|]|]; [by eauto|done..].
Qed.

(** A body that is not authenticated is not run when the method is protected: the body
    makes no difference. *)
Lemma guarded_anonymous {A} ports st b v :
  protected_method st b → auth_context_of v = None →
  ∃ e, ∀ body : user_code A, guarded ports st b body v = (Raise (AuthFailure e), v).
Proof.
  intros Hp Hc. destruct (guarded_spec ports st b v) as [[_ Hauth]|[e He]].
  - destruct (Hauth Hp) as [c Hc']. congruence.
  - exists e. intros body. apply He.
Qed.

Lemma auth_context_stored c (v : visible R W) :
  auth_context_of (store_request_auth c v).2 = Some c.
Proof. unfold auth_context_of, store_request_auth, modify. cbn. by rewrite dict_get_set_eq. Qed.
End front_end.
Arguments authentication_provider : clear implicits.

(** ** What an endpoint is told of its callers *)

(** Nobody is authenticated. *)
Definition unauthenticated {R W} (v : visible R W) : Prop := auth_context_of v = None.

Section providers.
Context {E R W : Type} (get_provider : comp (visible R W) (front_error E) (option (authentication_provider E R W))).

(** The provider of the container authenticates a credential as [c] and leaves [v'] *)
Definition authenticates (credential : CredentialCarrier) (i : AuthInvocation) (c : AuthContext) (v v' : visible R W) : Prop :=
  ∃ p v1, get_provider v = (Ok (Some p), v1) ∧ p credential i v1 = (Ok c, v').

(** Only the boundary stores an authenticated context. *)
Definition careful : Prop :=
  preserves unauthenticated get_provider ∧
  ∀ v p v' k i, get_provider v = (Ok (Some p), v') → preserves unauthenticated (p k i).
End providers.

(** ** The trace of a call

    [parent = propagator.extract(carrier)], then a child span of it or a new root *)

Section traces.
Context {E R W : Type} `{Entropy R} `{!ITracePropagator R}.

Definition start_request_trace (carrier : list (string * string)) : comp (visible R W) (front_error E) TraceContext :=
  on_request_trace (match port_extract carrier with Some parent => child parent | None => new_root end).

(** What a span that starts a request owes to the trace the caller sent *)
Definition continues (sent : option TraceContext) (span : TraceContext) : Prop :=
  match sent with
  | Some parent => trace_id span = trace_id parent ∧ parent_span_id span = Some (span_id parent)
  | None => parent_span_id span = None
  end.

Lemma start_request_trace_spec carrier v :
  ∃ span rest, continues (port_extract carrier) span ∧
    start_request_trace carrier v =
      (Ok span, mk_visible (context v) (mk_execution (_trace_context (trace v)) rest) (program v)).
Proof.
  unfold start_request_trace, on_request_trace. destruct v as [ctx [t r] w]. cbn [trace context program _trace_context].
  destruct (port_extract carrier) as [parent|].
  - unfold child, bind, generate_span_id, draw. cbn [entropy]. destruct (token_hex _ r) as [sp r']. cbn.
    eexists _, _. by split; [|reflexivity].
  - unfold new_root, bind, generate_trace_id, generate_span_id, draw. cbn [entropy]. destruct (token_hex _ r) as [tr r'].
    cbn. destruct (token_hex _ r') as [sp r2]. cbn. eexists _, _. by split; [|reflexivity].
Qed.
End traces.

(** ** Signatures

    [inspect.Signature] as far as the endpoints change it. Of the default of a parameter
    matters whether it is an [OptionInfo] of Typer, with its names. *)

Inductive parameter_annotation := AnnotatedRequest | AnnotatedWebSocket | AnnotatedOtherwise.
Inductive parameter_default := OptionInfo (param_decls : option (list string)) | OtherDefault.
Record call_parameter := mk_call_parameter {
  parameter_name : string;
  parameter_kind_of : parameter_kind;
  parameter_annotation_of : parameter_annotation;
  parameter_default_of : option parameter_default;
}.

Definition kind_rank (k : parameter_kind) : nat :=
  match k with
  | POSITIONAL_ONLY => 0 | POSITIONAL_OR_KEYWORD => 1 | VAR_POSITIONAL => 2 | KEYWORD_ONLY => 3 | VAR_KEYWORD => 4
  end.
Definition kind_le (p q : call_parameter) : bool :=
  (kind_rank (parameter_kind_of p) <=? kind_rank (parameter_kind_of q))%nat.
Fixpoint in_order (l : list call_parameter) : bool :=
  match l with
  | p :: ((q :: _) as l') => kind_le p q && in_order l'
  | _ => true
  end.
(** [Signature.replace(parameters=...)] raises [ValueError] for parameters whose kinds are
    not in order or whose names are repeated. *)
Definition signature_replace (l : list call_parameter) : option (list call_parameter) :=
  if in_order l && bool_decide (NoDup (parameter_name <$> l)) then Some l else None.

Lemma in_order_Sorted l : in_order l = true ↔ Sorted (λ p q, kind_le p q = true) l.
Proof.
  induction l as [|p l IH]; [by split|]. destruct l as [|q l].
  - split; [by repeat constructor|done].
  - change (kind_le p q && in_order (q :: l) = true ↔ Sorted (λ p q, kind_le p q = true) (p :: q :: l)).
    rewrite andb_true_iff, IH. split.
    + intros [Hpq Hl]. constructor; [done|]. by constructor.
    + inversion 1 as [|?? Hl Hhd]; subst. by inversion Hhd.
Qed.
