(* ===== verification/FastApi.v ===== *)
(** * The HTTP and WebSocket front end

    [plugins/spakky-fastapi]: the boundary that authenticates a request ([auth.py]), the
    endpoints the post-processor registers for the methods of a controller
    ([post_processors/register_routes.py]), the errors with their statuses ([error.py])
    and the two middlewares. FastAPI and Starlette, which call the endpoints, and the
    controllers are parameters. *)

From S2P Require Import Prelude Encoding Json Annotation Pod Auth Tracing Domain Consumer AuthStartup Oidc FrontEnd.

(** ** Errors and responses *)

Inductive AbstractSpakkyFastAPIError :=
  | BadRequest | Unauthorized | Forbidden | NotFound | Conflict | InternalServerError.
#[global] Instance http_error_eq_dec : EqDecision AbstractSpakkyFastAPIError.
Proof. solve_decision. Defined.

Definition http_status_code (e : AbstractSpakkyFastAPIError) : Z :=
  match e with
  | BadRequest => 400 | Unauthorized => 401 | Forbidden => 403
  | NotFound => 404 | Conflict => 409 | InternalServerError => 500
  end.
Definition http_message (e : AbstractSpakkyFastAPIError) : string :=
  match e with
  | BadRequest => "Bad Request" | Unauthorized => "Unauthorized" | Forbidden => "Forbidden"
  | NotFound => "Not Found" | Conflict => "Conflict" | InternalServerError => "Internal Server Error"
  end.

(** What is raised besides the errors of authorization: an HTTP error with its [args] as
    texts, an exception of Python named by its class, and those of user code *)
Inductive web_error (E : Type) :=
  | HttpError (e : AbstractSpakkyFastAPIError) (args : list string)
  | PythonError (class_name : string)
  | Unexpected (e : E).
Arguments HttpError {E}.
Arguments PythonError {E}.
Arguments Unexpected {E}.

(** A response: what the application renders, or the JSON of an error *)
Inductive http_content (A : Type) :=
  | Rendered (a : A)
  | ErrorJson (message : string) (args : list string) (traceback : option string).
Arguments Rendered {A}.
Arguments ErrorJson {A}.
Record Response (A : Type) := mk_response {
  response_status : Z;
  response_headers : list (string * string);
  response_content : http_content A;
}.
Arguments mk_response {A}.
Arguments response_status {A}.
Arguments response_headers {A}.
Arguments response_content {A}.

(** [to_response]; [format_exc] is the text of the traceback. *)
Definition to_response {A} (format_exc : string) (e : AbstractSpakkyFastAPIError) (args : list string)
    (show_traceback : bool) : Response A :=
  mk_response (http_status_code e) [] (ErrorJson (http_message e) args (if show_traceback then Some format_exc else None)).

(** ** Requests

    Names of headers are in lower case, as Starlette gives them. *)

Record Request := mk_request {
  request_method : string;
  request_path : string;
  request_headers : list (string * string);
}.
Record WebSocket := mk_websocket {
  websocket_path : string;
  websocket_headers : list (string * string);
  query_params : list (string * string);
}.

Definition HTTP_AUTH_REQUEST_PARAMETER : string := "__spakky_auth_request".
Definition WEBSOCKET_AUTH_PARAMETER : string := "__spakky_auth_websocket".
Definition AUTHORIZATION_HEADER_NAME : string := "authorization".
Definition BEARER_SCHEME : string := "Bearer".
Definition BEARER_PREFIX : string := BEARER_SCHEME +:+ " ".
Definition WEBSOCKET_QUERY_TOKEN_NAME : string := "access_token".
Definition HTTP_BOUNDARY : string := "HTTP".
Definition WEBSOCKET_BOUNDARY : string := "WEBSOCKET".
Definition WEBSOCKET_AUTH_CHALLENGE_CLOSE_CODE : Z := 1008.
Definition WEBSOCKET_AUTH_ERROR_CLOSE_CODE : Z := 1011.

(** [value[len(prefix):]] when [value.startswith(prefix)] *)
Fixpoint strip_prefix (prefix value : string) : option string :=
  match prefix, value with
  | EmptyString, _ => Some value
  | String c p, String d v => if Ascii.eqb c d then strip_prefix p v else None
  | _, _ => None
  end.

Definition _authorization_header_credential (value : option string) : option CredentialCarrier :=
  match value with
  | None => None
  | Some v =>
      match strip_prefix BEARER_PREFIX v with
      | None => None
      | Some material =>
          if String.eqb material "" then None
          else Some (mk_carrier BEARER_TOKEN AUTHORIZATION_HEADER material (Some AUTHORIZATION_HEADER_NAME) (Some BEARER_SCHEME))
      end
  end.
Definition _http_credential (r : Request) : option CredentialCarrier :=
  _authorization_header_credential (dict_get AUTHORIZATION_HEADER_NAME (request_headers r)).
Definition _websocket_credential (w : WebSocket) : option CredentialCarrier :=
  match _authorization_header_credential (dict_get AUTHORIZATION_HEADER_NAME (websocket_headers w)) with
  | Some c => Some c
  | None =>
      match dict_get WEBSOCKET_QUERY_TOKEN_NAME (query_params w) with
      | None => None
      | Some token =>
          if String.eqb token "" then None
          else Some (mk_carrier BEARER_TOKEN QUERY_PARAMETER token (Some WEBSOCKET_QUERY_TOKEN_NAME) (Some BEARER_SCHEME))
      end
  end.

(** [_invocation_attributes], [_http_invocation] and [_websocket_invocation]; the
    attribute is the qualified name of the method. *)
Definition _invocation_attributes (qualname : string) : list (string * option string) := [("handler", Some qualname)].
Definition _http_invocation (r : Request) (qualname : string) : AuthInvocation :=
  mk_auth_invocation HTTP_BOUNDARY (request_method r +:+ " " +:+ request_path r) (_invocation_attributes qualname).
Definition _websocket_invocation (w : WebSocket) (qualname : string) : AuthInvocation :=
  mk_auth_invocation WEBSOCKET_BOUNDARY (websocket_path w) (_invocation_attributes qualname).

(** ** Signatures *)

Fixpoint insert_before_var_keyword (p : call_parameter) (l : list call_parameter) : list call_parameter :=
  match l with
  | [] => [p]
  | q :: l' =>
      match parameter_kind_of q with
      | VAR_KEYWORD => p :: q :: l'
      | _ => q :: insert_before_var_keyword p l'
      end
  end.
Definition _signature_with_boundary_parameter (original : list call_parameter) (name : string) (a : parameter_annotation)
    : option (list call_parameter) :=
  signature_replace (insert_before_var_keyword (mk_call_parameter name KEYWORD_ONLY a None) original).
Definition signature_with_request (original : list call_parameter) : option (list call_parameter) :=
  _signature_with_boundary_parameter original HTTP_AUTH_REQUEST_PARAMETER AnnotatedRequest.
Definition signature_with_websocket (original : list call_parameter) : option (list call_parameter) :=
  _signature_with_boundary_parameter original WEBSOCKET_AUTH_PARAMETER AnnotatedWebSocket.

Definition annotation_is (a b : parameter_annotation) : bool :=
  match a, b with
  | AnnotatedRequest, AnnotatedRequest | AnnotatedWebSocket, AnnotatedWebSocket => true
  | _, _ => false
  end.
Definition _argument_names_with_annotation (sig : list call_parameter) (a : parameter_annotation) : list string :=
  parameter_name <$> List.filter (λ p, annotation_is (parameter_annotation_of p) a) sig.
Definition request_argument_names (sig : list call_parameter) : list string :=
  _argument_names_with_annotation sig AnnotatedRequest.
Definition websocket_argument_names (sig : list call_parameter) : list string :=
  _argument_names_with_annotation sig AnnotatedWebSocket.

(** ** The boundary and the endpoints *)

Section fastapi.
Context {E R W : Type}.

Abbreviation error := (front_error (web_error E)).
Abbreviation user_code := (comp (visible R W) error).
Abbreviation provider := (authentication_provider (web_error E) R W).

(** A value passed to a handler: what FastAPI injects for a [Request] or a [WebSocket]
    annotation, or anything else *)
Inductive argument (V : Type) := ARequest (r : Request) | AWebSocket (w : WebSocket) | AValue (v : V).
Arguments ARequest {V}.
Arguments AWebSocket {V}.
Arguments AValue {V}.

Context {V A : Type}.

(** A method taken from an instance of the controller: what its authorization metadata is
    looked up on (the wrapper a proxy makes of a method is not bound to an instance),
    its signature, its qualified name and what calling it does, awaited *)
Record controller_method := mk_method {
  method_boundary : boundary;
  method_signature : list call_parameter;
  method_qualname : string;
  call_method : list (string * argument V) → user_code A;
}.

(** [container.get_or_none(IAuthenticationProvider)], [container.get(controller_type)] with
    the lookup of the method, [websocket.close] and the text of [traceback.format_exc()] *)
Context (st : auth_store) (get_provider : user_code (option provider)) (get_method : user_code controller_method).
Context (websocket_close : Z → user_code unit) (format_exc : error → string).

(** [except (AuthenticationError, CredentialCarrierError)] *)
Definition credential_failure (e : error) : bool :=
  match e with AuthFailure AuthenticationError | AuthFailure CredentialCarrierError => true | _ => false end.

(** The body of [seed_http_auth_context] and of [seed_websocket_auth_context], for the
    credential and the invocation of each *)
Definition seed_auth_context (credential : option CredentialCarrier) (invocation : AuthInvocation) (b : boundary)
    : user_code unit :=
  metadata <- lift (map_error AuthFailure (get_effective_auth_metadata st b None)) ;;
  match credential with
  | None => if protected metadata then raise (AuthFailure AuthContextNotFoundError) else ret tt
  | Some credential =>
      found <- get_provider ;;
      match found with
      | None => if protected metadata then raise (AuthFailure AuthRequirementProviderUnavailableError) else ret tt
      | Some authenticate =>
          authenticated <- try_except (c <- authenticate credential invocation ;; ret (Some c))
            (λ e, if credential_failure e then Some (if protected metadata then raise e else ret None) else None) ;;
          match authenticated with
          | Some auth_context => store_request_auth auth_context
          | None => ret tt
          end
      end
  end.
Definition seed_http_auth_context (r : Request) (m : controller_method) : user_code unit :=
  seed_auth_context (_http_credential r) (_http_invocation r (method_qualname m)) (method_boundary m).
Definition seed_websocket_auth_context (w : WebSocket) (m : controller_method) : user_code unit :=
  seed_auth_context (_websocket_credential w) (_websocket_invocation w (method_qualname m)) (method_boundary m).

Definition map_http_auth_error (e : error) : AbstractSpakkyFastAPIError :=
  match e with
  | AuthFailure AuthContextNotFoundError | AuthFailure AuthenticationError | AuthFailure CredentialCarrierError => Unauthorized
  | _ =>
      match denied e with
      | Some _ => Forbidden
      | None => InternalServerError
      end
  end.
Definition websocket_close_code (e : error) : Z :=
  match e with
  | AuthFailure AuthContextNotFoundError | AuthFailure AuthenticationError => WEBSOCKET_AUTH_CHALLENGE_CLOSE_CODE
  | _ =>
      match denied e with
      | Some _ => WEBSOCKET_AUTH_CHALLENGE_CLOSE_CODE
      | None => WEBSOCKET_AUTH_ERROR_CLOSE_CODE
      end
  end.
Definition close_websocket_for_auth_error (e : error) : user_code unit := websocket_close (websocket_close_code e).

(** [kwargs.pop(name)]; FastAPI injects it, for [signature_with_request] declares it. *)
Definition pop_request (kwargs : list (string * argument V)) : outcome error Request :=
  match dict_get HTTP_AUTH_REQUEST_PARAMETER kwargs with
  | Some (ARequest r) => Ok r
  | Some _ => Raise (Failure (PythonError "AttributeError"))
  | None => Raise (Failure (PythonError "KeyError"))
  end.
Definition pop_websocket (kwargs : list (string * argument V)) : outcome error WebSocket :=
  match dict_get WEBSOCKET_AUTH_PARAMETER kwargs with
  | Some (AWebSocket w) => Ok w
  | Some _ => Raise (Failure (PythonError "AttributeError"))
  | None => Raise (Failure (PythonError "KeyError"))
  end.
(** [for name in names: kwargs[name] = value] *)
Definition assign_all (names : list string) (a : argument V) (kwargs : list (string * argument V))
    : list (string * argument V) := foldl (λ k n, dict_set n a k) kwargs names.

Definition endpoint (kwargs : list (string * argument V)) : user_code A :=
  clear_request_context ;;;
  auth_request <- lift (pop_request kwargs) ;;
  method_to_call <- get_method ;;
  try_except
    (seed_http_auth_context auth_request method_to_call ;;;
     call_method method_to_call (assign_all (request_argument_names (method_signature method_to_call)) (ARequest auth_request)
       (dict_del HTTP_AUTH_REQUEST_PARAMETER kwargs)))
    (λ e, if is_auth_error e then Some (raise (Failure (HttpError (map_http_auth_error e) []))) else None).

(** [None] is what a rejected connection returns. *)
Definition websocket_endpoint (kwargs : list (string * argument V)) : user_code (option A) :=
  clear_request_context ;;;
  websocket <- lift (pop_websocket kwargs) ;;
  method_to_call <- get_method ;;
  try_except
    (seed_websocket_auth_context websocket method_to_call ;;;
     a <- call_method method_to_call (assign_all (websocket_argument_names (method_signature method_to_call)) (AWebSocket websocket)
       (dict_del WEBSOCKET_AUTH_PARAMETER kwargs)) ;;
     ret (Some a))
    (λ e, if is_auth_error e then Some (close_websocket_for_auth_error e ;;; ret None) else None).

(** ** Middlewares *)

Definition error_response (debug : bool) (e : error) : Response A :=
  match e with
  | Failure (HttpError h args) => to_response (format_exc e) h args false
  | _ => to_response (format_exc e) InternalServerError [] debug
  end.
(** [ErrorHandlingMiddleware.dispatch] *)
Definition error_dispatch (debug : bool) (call_next : user_code (Response A)) : user_code (Response A) :=
  try_except call_next (λ e, Some (ret (error_response debug e))).

(** [TracingMiddleware.dispatch] *)
Definition add_headers (h : list (string * string)) (r : Response A) : Response A :=
  mk_response (response_status r) (dict_merge (response_headers r) h) (response_content r).
Definition trace_dispatch `{Entropy R} `{!ITracePropagator R} (request_headers : list (string * string))
    (call_next : user_code (Response A)) : user_code (Response A) :=
  ctx <- start_request_trace request_headers ;;
  on_request_trace (Tracing.set ctx) ;;;
  try_finally
    (response <- call_next ;;
     response_carrier <- on_request_trace (port_inject []) ;;
     ret (add_headers response_carrier response))
    (on_request_trace Tracing.clear).

(** The route: FastAPI calls the endpoint with the request and what it read of it, and
    renders what it returns, inside the middlewares. *)
Definition answer (debug : bool) (r : Request) (kwargs : list (string * argument V)) : user_code (Response A) :=
  error_dispatch debug
    (a <- endpoint (dict_set HTTP_AUTH_REQUEST_PARAMETER (ARequest r) kwargs) ;; ret (mk_response 200 [] (Rendered a))).
End fastapi.

Arguments ARequest {V}.
Arguments AWebSocket {V}.
Arguments AValue {V}.
Arguments mk_method {E R W V A}.
Arguments method_boundary {E R W V A}.
Arguments method_signature {E R W V A}.
Arguments method_qualname {E R W V A}.
Arguments call_method {E R W V A}.

(** ** Lemmas *)

Lemma strip_prefix_Some p v s : strip_prefix p v = Some s ↔ v = p +:+ s.
Proof.
  revert v. induction p as [|c p IH]; intros v; [split; [by intros [= ->]|by intros ->]|].
  destruct v as [|d v]; [done|]. cbn [strip_prefix]. destruct (Ascii.eqb_spec c d) as [->|Hne].
  - rewrite IH. change (String d p +:+ s) with (String d (p +:+ s)). split; [by intros ->|by intros [= ->]].
  - split; [done|]. change (String c p +:+ s) with (String c (p +:+ s)). intros [= Hd _]. congruence.
Qed.

Lemma http_credential_Some r cred :
  _http_credential r = Some cred →
  carrier_kind cred = BEARER_TOKEN ∧ carrier_material cred ≠ "" ∧
  dict_get AUTHORIZATION_HEADER_NAME (request_headers r) = Some (BEARER_PREFIX +:+ carrier_material cred).
Proof.
  unfold _http_credential, _authorization_header_credential. destruct (dict_get _ _) as [v|]; [|done].
  destruct (strip_prefix _ v) as [m|] eqn:Hm; [|done]. apply strip_prefix_Some in Hm.
  destruct (String.eqb_spec m ""); [done|]. intros [= <-]. cbn. by subst v.
Qed.

(** *** The parameter of the boundary *)

Lemma insert_perm p l : insert_before_var_keyword p l ≡ₚ p :: l.
Proof.
  induction l as [|q l IH]; [done|]. cbn [insert_before_var_keyword].
  destruct (parameter_kind_of q); try done; by rewrite IH, Permutation_swap.
Qed.

Lemma insert_sorted p l :
  parameter_kind_of p = KEYWORD_ONLY → Sorted (λ p q, kind_le p q = true) l →
  Sorted (λ p q, kind_le p q = true) (insert_before_var_keyword p l).
Proof.
  intros Hp. induction l as [|q l IH]; [by repeat constructor|]. intros [Hl Hhd]%Sorted_inv. cbn [insert_before_var_keyword].
  assert (parameter_kind_of q ≠ VAR_KEYWORD → kind_le q p = true) as Hqp.
  { unfold kind_le. rewrite Hp. by destruct (parameter_kind_of q). }
  assert (parameter_kind_of q ≠ VAR_KEYWORD →
          Sorted (λ p q, kind_le p q = true) (q :: insert_before_var_keyword p l)) as Hnot.
  { intros Hq. constructor; [by apply IH|]. destruct l as [|q' l]; cbn [insert_before_var_keyword]; [by constructor; apply Hqp|].
    inversion Hhd; subst. destruct (parameter_kind_of q'); constructor; auto. }
  destruct (parameter_kind_of q) eqn:Hq; try by apply Hnot.
  constructor; [by constructor|]. constructor. unfold kind_le. by rewrite Hp, Hq.
Qed.

(** Adding the parameter to the signature of a method gives a signature, unless the method
    has a parameter of that name; [**kwargs] stays last. *)
Theorem boundary_parameter_is_declared original name a :
  in_order original = true → NoDup (parameter_name <$> original) →
  (is_Some (_signature_with_boundary_parameter original name a) ↔ name ∉ parameter_name <$> original) ∧
  ∀ l, _signature_with_boundary_parameter original name a = Some l →
    l ≡ₚ mk_call_parameter name KEYWORD_ONLY a None :: original ∧ in_order l = true.
Proof.
  intros Ho Hn. unfold _signature_with_boundary_parameter, signature_replace. set (p := mk_call_parameter _ _ _ _).
  assert (in_order (insert_before_var_keyword p original) = true) as ->.
  { apply in_order_Sorted, insert_sorted; [done|]. by apply in_order_Sorted. }
  assert (NoDup (parameter_name <$> insert_before_var_keyword p original) ↔ name ∉ parameter_name <$> original) as Hnd.
  { rewrite (insert_perm p original), fmap_cons, NoDup_cons. naive_solver. }
  cbn [andb]. case_bool_decide as Hd; split.
  - split; [by rewrite <-Hnd|by eauto].
  - intros l [= <-]. split; [apply insert_perm|]. apply in_order_Sorted, insert_sorted; [done|]. by apply in_order_Sorted.
  - split; [by intros [? ?]|]. by rewrite <-Hnd.
  - done.
Qed.

(** *** What an endpoint does *)

Section endpoints.
Context {E R W V A : Type} (st : auth_store).
Context (get_provider : comp (visible R W) (front_error (web_error E)) (option (authentication_provider (web_error E) R W))).
Context (format_exc : front_error (web_error E) → string).

Abbreviation error := (front_error (web_error E)).
Abbreviation user_code := (comp (visible R W) error).
Abbreviation seeding := (seed_auth_context st get_provider).
Abbreviation method := (controller_method (E := E) (R := R) (W := W) (V := V) (A := A)).

Abbreviation authenticates := (authenticates get_provider).
Abbreviation careful := (careful get_provider).

Lemma seed_spec credential i b v :
  (∃ k c v', credential = Some k ∧ authenticates k i c v v' ∧
     seeding credential i b v = (Ok tt, (store_request_auth (E := web_error E) c v').2)) ∨
  ((∀ k c v', credential = Some k → ¬ authenticates k i c v v') ∧
   (∃ md, get_effective_auth_metadata st b None = Ok md ∧ protected md = false) ∧
   ∃ v', seeding credential i b v = (Ok tt, v') ∧ (careful → auth_context_of v = None → auth_context_of v' = None)) ∨
  ((∀ k c v', credential = Some k → ¬ authenticates k i c v v') ∧
   ∃ e v', seeding credential i b v = (Raise e, v')) ∨
  (∃ e, get_effective_auth_metadata st b None = Raise e ∧ seeding credential i b v = (Raise (AuthFailure e), v)).
Proof.
  unfold seed_auth_context, bind, lift.
  destruct (get_effective_auth_metadata st b None) as [md|e] eqn:Hmd; cbn [map_error]; [|by eauto 10].
  destruct credential as [k|].
  2: { right. destruct (protected md) eqn:Hp; [right|]; left; (split; [by intros|]); eauto 10. }
  destruct (get_provider v) as [[[p|]|e] v1] eqn:Hp1.
  2, 3: assert (∀ k' c v', Some k = Some k' → ¬ authenticates k' i c v v') as Hno
    by (intros k' c v' _ (p' & v1' & Hg & _); congruence); right.
  - unfold try_except, bind. destruct (p k i v1) as [[c|e] v2] eqn:Hp2.
    + left. exists k, c, v2. split_and!; [done|by eexists _, _|done].
    + assert (∀ k' c v', Some k = Some k' → ¬ authenticates k' i c v v') as Hno.
      { intros k' c v' [= <-] (p' & v1' & Hg & Hc). rewrite Hp1 in Hg. injection Hg as <- <-. congruence. }
      right. destruct (credential_failure e); [|right; left; eauto].
      destruct (protected md) eqn:Hp; cbn; [right; left; eauto|]. left. split_and!; [done|by eauto|]. eexists.
      split; [done|]. intros [Hget Hprov] Hv. pose proof (Hprov _ _ _ k i Hp1 v1) as Hk. rewrite Hp2 in Hk. apply Hk.
      specialize (Hget v Hv). by rewrite Hp1 in Hget.
  - destruct (protected md) eqn:Hp; cbn; [right; left; eauto|]. left. split_and!; [done|by eauto|]. eexists.
    split; [done|]. intros [Hget _] Hv. specialize (Hget v Hv). by rewrite Hp1 in Hget.
  - right. left. eauto.
Qed.

(** A controller whose method runs [body] behind the aspect. What [instantiate] gives is what
    the metadata is looked up on, the signature and the qualified name of the method. *)
Context (ports : auth_ports) (target : boundary).
Context (instantiate : user_code (boundary * list call_parameter * string)).
Definition controller (body : list (string * argument V) → user_code A) : user_code method :=
  h <- instantiate ;;
  ret (mk_method h.1.1 h.1.2 h.2 (λ kwargs, guarded ports st target (body kwargs))).
Definition run_endpoint (body : list (string * argument V) → user_code A) (kwargs : list (string * argument V)) : user_code A :=
  endpoint st get_provider (controller body) kwargs.

(** [except AbstractSpakkyAuthError as e: auth_boundary.map_http_auth_error(e)] *)
Definition mapping_auth_errors (m : user_code A) : user_code A :=
  try_except m (λ e, if is_auth_error e then Some (raise (Failure (HttpError (map_http_auth_error e) []))) else None).

Lemma mapping_raised m v e v' : m v = (Raise e, v') → ∃ e', mapping_auth_errors m v = (Raise e', v').
Proof. unfold mapping_auth_errors, try_except. intros ->. destruct (is_auth_error e); by eexists. Qed.

(** The arguments a handler gets *)
Definition handler_arguments (sg : list call_parameter) (r : Request) (kwargs : list (string * argument V))
    : list (string * argument V) :=
  assign_all (request_argument_names sg) (ARequest r) (dict_del HTTP_AUTH_REQUEST_PARAMETER kwargs).

Lemma run_endpoint_unfold body kwargs r v :
  dict_get HTTP_AUTH_REQUEST_PARAMETER kwargs = Some (ARequest r) →
  run_endpoint body kwargs v =
  match instantiate (with_context [] v) with
  | (Ok h, v1) =>
      mapping_auth_errors (seeding (_http_credential r) (_http_invocation r h.2) h.1.1 ;;;
        guarded ports st target (body (handler_arguments h.1.2 r kwargs))) v1
  | (Raise e, v1) => (Raise e, v1)
  end.
Proof.
  intros Hr. unfold run_endpoint, endpoint, controller, clear_request_context, modify, pop_request, bind at 1 2 3 4, lift.
  rewrite Hr. by destruct (instantiate (with_context [] v)) as [[h|e] v1].
Qed.

Lemma http_endpoint_spec kwargs r v :
  dict_get HTTP_AUTH_REQUEST_PARAMETER kwargs = Some (ARequest r) →
  protected_method st target → careful → preserves unauthenticated instantiate →
  (∃ k i c args v1 v2, _http_credential r = Some k ∧ authenticates k i c v1 v2 ∧
     ∀ body, run_endpoint body kwargs v = mapping_auth_errors (body args) (store_request_auth (E := web_error E) c v2).2) ∨
  ∃ e v', ∀ body, run_endpoint body kwargs v = (Raise e, v').
Proof.
  intros Hr Hprot Hcareful Hinst. specialize (Hinst (with_context [] v) eq_refl).
  setoid_rewrite (run_endpoint_unfold _ kwargs r v Hr).
  destruct (instantiate (with_context [] v)) as [[h|e] v1]; [|right; by exists e, v1]. cbn [snd] in Hinst.
  set (args := handler_arguments _ _ _).
  assert (∀ e v', seeding (_http_credential r) (_http_invocation r h.2) h.1.1 v1 = (Raise e, v') →
    ∃ e v', ∀ body, mapping_auth_errors (seeding (_http_credential r) (_http_invocation r h.2) h.1.1 ;;;
        guarded ports st target (body args)) v1 = (Raise e, v')) as Hrefused.
  { intros e v' He. unfold mapping_auth_errors, try_except, bind. rewrite He. destruct (is_auth_error e); by eexists _, _. }
  destruct (seed_spec (_http_credential r) (_http_invocation r h.2) h.1.1 v1)
    as [(k & c & v' & Hk & Ha & Hs)|[(_ & _ & v' & Hs & Hv')|[(_ & e & v' & Hs)|(e & _ & Hs)]]]; [| |by eauto..].
  - destruct (guarded_spec (E := web_error E) ports st target (store_request_auth (E := web_error E) c v').2) as [[Hrun _]|[e He]].
    + left. exists k, (_http_invocation r h.2), c, args, v1, v'. split_and!; [done..|]. intros body.
      unfold mapping_auth_errors, try_except, bind. by rewrite Hs, Hrun.
    + right. unfold mapping_auth_errors, try_except, bind. rewrite Hs. setoid_rewrite He.
      destruct (is_auth_error _); by eexists _, _.
  - right. destruct (guarded_anonymous (E := web_error E) (A := A) ports st target v' Hprot (Hv' Hcareful Hinst)) as [e He].
    unfold mapping_auth_errors, try_except, bind. rewrite Hs. setoid_rewrite He.
    destruct (is_auth_error _); by eexists _, _.
Qed.
End endpoints.

(** *** With the provider of [Oidc.v]

    Its exceptions are not of [spakky-auth]. The addresses it fetches are not part of the
    state of a request. *)

Definition oidc_exception {E} (e : oidc_error) : front_error (web_error E) :=
  Failure (PythonError
    match e with
    | OidcDiscoveryError => "OidcDiscoveryError"
    | OidcJwksError => "OidcJwksError"
    | OidcCredentialError => "OidcCredentialError"
    | OidcTokenValidationError => "OidcTokenValidationError"
    | OtherException => "Exception"
    end).
Definition oidc_provider {E R W} (float_value : string → QArith_base.Q) `{PyJWT} (config : OidcProviderConfig)
    : authentication_provider (web_error E) R W :=
  λ credential _ v, (map_error oidc_exception (Oidc.authenticate float_value config credential []).1, v).

(** What the status of the answer is for an exception of the boundary or of the handler *)
Definition failure_status {E} (e : front_error (web_error E)) : Z :=
  match e with
  | AuthFailure AuthContextNotFoundError | AuthFailure AuthenticationError | AuthFailure CredentialCarrierError => 401
  | AuthFailure (AuthRequirementDeniedError _) | DenialWithoutDecision => 403
  | Failure (HttpError h _) => http_status_code h
  | _ => 500
  end.

Section answers.
Context {E R W V A : Type} (st : auth_store) (format_exc : front_error (web_error E) → string).
Context (get_provider : comp (visible R W) (front_error (web_error E)) (option (authentication_provider (web_error E) R W))).
Context (ports : auth_ports) (target : boundary).
Context (instantiate : comp (visible R W) (front_error (web_error E)) (boundary * list call_parameter * string)).

Abbreviation user_code := (comp (visible R W) (front_error (web_error E))).
Abbreviation answer_with p body := (answer (V := V) (A := A) st p (controller st ports target instantiate body) format_exc).

Lemma error_dispatch_total debug (m : user_code (Response A)) v :
  error_dispatch format_exc debug m v =
  (Ok (match (m v).1 with Ok a => a | Raise e => error_response format_exc debug e end), (m v).2).
Proof. unfold error_dispatch, try_except. by destruct (m v) as [[a|e] v']. Qed.

Lemma mapped_status debug e :
  response_status (error_response (A := A) format_exc debug
    (if is_auth_error e then Failure (HttpError (map_http_auth_error e) []) else e)) = failure_status e.
Proof. destruct e as [[]| | |[]]; done. Qed.

(** The outcome of the boundary and the handler, before it is mapped *)
Definition attempt (p : user_code (option (authentication_provider (web_error E) R W))) (r : Request)
    (h : boundary * list call_parameter * string) (body : list (string * argument V) → user_code A)
    (kwargs : list (string * argument V)) : user_code A :=
  seed_auth_context st p (_http_credential r) (_http_invocation r h.2) h.1.1 ;;;
  guarded ports st target (body (handler_arguments h.1.2 r kwargs)).

Lemma answer_unfold p debug r kwargs body v :
  let all := dict_set HTTP_AUTH_REQUEST_PARAMETER (ARequest r) kwargs in
  answer_with p body debug r kwargs v =
  match instantiate (with_context [] v) with
  | (Ok h, v1) =>
      (Ok (match (attempt p r h body all v1).1 with
           | Ok a => mk_response 200 [] (Rendered a)
           | Raise e => error_response format_exc debug
               (if is_auth_error e then Failure (HttpError (map_http_auth_error e) []) else e)
           end), (attempt p r h body all v1).2)
  | (Raise e, v1) => (Ok (error_response format_exc debug e), v1)
  end.
Proof.
  intros all. unfold answer. rewrite error_dispatch_total.
  set (m := bind _ _). assert (m v = bind (run_endpoint st p ports target instantiate body all)
    (λ a, ret (mk_response 200 [] (Rendered a))) v) as -> by done.
  unfold bind. rewrite (run_endpoint_unfold st p ports target instantiate body all r v) by apply dict_get_set_eq.
  destruct (instantiate (with_context [] v)) as [[h|e] v1]; [|done].
  fold (attempt p r h body all). unfold mapping_auth_errors, try_except.
  destruct (attempt p r h body all v1) as [[a|e] v2]; [done|]. cbn. by destruct (is_auth_error e).
Qed.

(** Every request is answered, the middleware being outermost: 200 with what the handler
    returns, or the status of the failure; an anonymous caller of a protected method and
    one whose credential is rejected with an error of [spakky-auth] get 401, a denied one
    403, and every other failure the status of its HTTP error or 500. *)
Theorem every_request_is_answered p debug r kwargs body v :
  ∃ resp v', answer_with p body debug r kwargs v = (Ok resp, v') ∧
    match instantiate (with_context [] v) with
    | (Ok h, v1) =>
        match (attempt p r h body (dict_set HTTP_AUTH_REQUEST_PARAMETER (ARequest r) kwargs) v1).1 with
        | Ok a => resp = mk_response 200 [] (Rendered a)
        | Raise e => response_status resp = failure_status e
        end
    | (Raise (Failure (HttpError h _)), _) => response_status resp = http_status_code h
    | (Raise _, _) => response_status resp = 500%Z
    end.
Proof.
  rewrite answer_unfold. destruct (instantiate (with_context [] v)) as [[h|e] v1].
  - eexists _, _. split; [done|]. destruct (attempt _ _ _ _ _ _).1 as [a|e]; [done|]. apply mapped_status.
  - eexists _, _. split; [done|]. by destruct e as [[]| | |[]].
Qed.

(** The text of a traceback is in a response only of an application in debug mode. *)
Theorem tracebacks_need_debug p r kwargs body v resp v' message args tb :
  answer_with p body false r kwargs v = (Ok resp, v') → response_content resp = ErrorJson message args tb → tb = None.
Proof.
  rewrite answer_unfold. destruct (instantiate (with_context [] v)) as [[h|e] v1].
  - destruct (attempt _ _ _ _ _ _).1 as [a|e]; intros [= <- <-]; [done|].
    destruct (is_auth_error e); [by intros [= _ _ <-]|]. destruct e as [| | |[]]; by intros [= _ _ <-].
  - intros [= <- <-]. destruct e as [| | |[]]; by intros [= _ _ <-].
Qed.
End answers.

(** ** Properties *)

Section bearer.
Context {E R W V A : Type} (st : auth_store) (ports : auth_ports) (target : boundary).
Context (float_value : string → QArith_base.Q) `{PyJWTLaws} (config : OidcProviderConfig).
Context (instantiate : comp (visible R W) (front_error (web_error E)) (boundary * list call_parameter * string)).

Abbreviation user_code := (comp (visible R W) (front_error (web_error E))).
Definition with_oidc : user_code (option (authentication_provider (web_error E) R W)) :=
  ret (Some (oidc_provider float_value config)).

Lemma oidc_careful : careful with_oidc.
Proof. split; [apply preserves_ret|]. intros v p v' k i [= <- <-] v2 Hv2. done. Qed.

(** C21. End to end: a method that requires anything of its callers runs, behind the HTTP
    endpoint, only for a request whose [Authorization] header is [Bearer] and a token the
    OpenID issuer signed for this application: the token verifies, under the configured
    algorithm, with the key it names of the key set that the issuer publishes where its
    discovery document says; it has not expired, and its audience and party are the
    configured ones. The method then runs in a context authenticated as the issuer and
    the subject of the signed claims. Any other request is refused, whatever the method
    would do, and nothing an earlier request left in the context matters. *)
Theorem bearer_call_runs_verified kwargs r v :
  dict_get HTTP_AUTH_REQUEST_PARAMETER kwargs = Some (ARequest r) →
  protected_method st target → preserves unauthenticated instantiate →
  (∃ token c args v',
     dict_get AUTHORIZATION_HEADER_NAME (request_headers r) = Some (BEARER_PREFIX +:+ token) ∧
     issued_token config token c ∧ auth_context_of v' = Some c ∧
     ∀ body : list (string * argument V) → user_code A, ∀ ctx,
       run_endpoint st with_oidc ports target instantiate body kwargs (with_context ctx v) = mapping_auth_errors (body args) v') ∨
  ∃ e v', ∀ body : list (string * argument V) → user_code A, ∀ ctx,
    run_endpoint st with_oidc ports target instantiate body kwargs (with_context ctx v) = (Raise e, v').
Proof.
  intros Hr Hprot Hinst.
  destruct (http_endpoint_spec (A := A) st with_oidc ports target instantiate kwargs r v Hr Hprot oidc_careful Hinst)
    as [(cred & i & c & args & v1 & v2 & Hcred & (p & v1' & [= <- <-] & Hauth) & Hrun)|(e & v' & Hrun)].
  - left. unfold oidc_provider in Hauth. destruct (Oidc.authenticate _ _ _ _) as [[c'|e] log] eqn:Ho; [|done].
    cbn in Hauth. injection Hauth as -> ->. apply http_credential_Some in Hcred as (_ & _ & Hheader).
    exists (carrier_material cred), c, args, (store_request_auth (E := web_error E) c v2).2.
    split_and!; [done|by eapply authenticated_token|apply auth_context_stored|].
    intros body ctx. rewrite <-(Hrun body). done.
  - right. exists e, v'. intros body ctx. by rewrite <-(Hrun body).
Qed.

(** A request whose token the OpenID provider rejects is answered 500, on a public method
    too, and the method does not run: the exceptions of that provider are not the ones
    the boundary handles. *)
Theorem rejected_token_is_internal_error debug format_exc r kwargs k e v h v1 :
  _http_credential r = Some k → (Oidc.authenticate float_value config k []).1 = Raise e →
  instantiate (with_context [] v) = (Ok h, v1) →
  ∃ resp : Response A, response_status resp = 500%Z ∧
    ∀ body, (answer (V := V) st with_oidc (controller st ports target instantiate body) format_exc debug r kwargs v).1 = Ok resp.
Proof.
  intros Hk He Hh. setoid_rewrite (answer_unfold (A := A) (V := V) st format_exc ports target instantiate). rewrite Hh.
  assert (∃ e' v', failure_status (E := E) e' = 500%Z ∧
    ∀ m : user_code A, (seed_auth_context st with_oidc (Some k) (_http_invocation r h.2) h.1.1 ;;; m) v1 = (Raise e', v'))
    as (e' & v' & Hstatus & Hseed).
  { assert (∀ i, oidc_provider (E := E) float_value config k i v1 = (Raise (oidc_exception e), v1)) as Hreject.
    { intros i. unfold oidc_provider. by rewrite He. }
    unfold seed_auth_context. destruct (get_effective_auth_metadata st h.1.1 None) as [md|e2] eqn:Hmd.
    - exists (oidc_exception e), v1. split; [by destruct e|]. intros m. unfold bind, lift, with_oidc, ret at 1.
      cbn -[oidc_provider]. unfold try_except. rewrite Hreject. by destruct e.
    - exists (AuthFailure e2), v1. by rewrite (metadata_conflict _ _ _ _ Hmd). }
  exists (error_response format_exc debug
    (if is_auth_error e' then Failure (HttpError (map_http_auth_error e') []) else e')).
  split; [by rewrite mapped_status|]. intros body. unfold attempt. by rewrite Hk, Hseed.
Qed.
End bearer.

(** *** Traces *)

Section tracing.
Context {E R W A : Type} `{Entropy R} `{!ITracePropagator R}.
Abbreviation user_code := (comp (visible R W) (front_error (web_error E))).

(** A request is handled in a span of its own, that continues the trace of the caller; its
    response carries the trace that is current when the handler returns; and no trace is
    left for the next request, whether the handler returns or raises. *)
Theorem request_is_traced sent (call_next : user_code (Response A)) v :
  ∃ span rest o v', continues (port_extract sent) span ∧
    call_next (mk_visible (context v) (mk_execution (Some span) rest) (program v)) = (o, v') ∧
    ∃ carrier, port_inject [] (trace v') = (Ok carrier, trace v') ∧
      trace_dispatch sent call_next v =
        (add_headers carrier <$> o, mk_visible (context v') (mk_execution None (entropy (trace v'))) (program v')).
Proof.
  destruct (start_request_trace_spec (E := web_error E) sent v) as (span & rest & Hspan & Hstart).
  destruct (call_next (mk_visible (context v) (mk_execution (Some span) rest) (program v))) as [o v'] eqn:Hcall.
  destruct (port_inject_pure [] (trace v')) as (carrier & Hinject & _).
  exists span, rest, o, v'. split_and!; [done|exact Hcall|]. exists carrier. split; [done|].
  unfold trace_dispatch, bind at 1. rewrite Hstart. unfold bind at 1, try_finally, bind. cbn -[port_inject].
  unfold on_request_trace at 1. cbn -[port_inject]. rewrite Hcall. destruct o as [resp|e]; cbn -[port_inject].
  - unfold on_request_trace. rewrite Hinject. by destruct v'.
  - by destruct v'.
Qed.
End tracing.

(** ** Witnesses

    [GET /orders], of a controller class that requires an authenticated caller, behind its
    proxy; the OpenID provider is the example of [Oidc.v]. *)

#[local] Existing Instances ex_pyjwt ex_pyjwt_laws.

Definition ex_orders : auth_store := requirement_decorator protected_requirement "Orders" ex_auth_store.
Definition ex_target : boundary := BCallable "Orders.list" (Some (SelfInstance "Orders")).
Definition ex_instantiate : comp (visible N (list string)) (front_error (web_error string)) (boundary * list call_parameter * string) :=
  ret (BCallable "Orders.list" None, [mk_call_parameter "request" POSITIONAL_OR_KEYWORD AnnotatedRequest None], "Orders.list").
Definition ex_ports : auth_ports := mk_auth_ports None None None None None.
Definition ex_body (kwargs : list (string * argument nat)) : comp (visible N (list string)) (front_error (web_error string)) nat :=
  modify (λ v, mk_visible (context v) (trace v) (program v ++ kwargs.*1)) ;;; ret 3.
Definition ex_request (h : list (string * string)) : Request := mk_request "GET" "/orders" h.
Definition ex_answer (p : comp (visible N (list string)) (front_error (web_error string))
    (option (authentication_provider (web_error string) N (list string)))) (h : list (string * string)) :=
  answer ex_orders p (controller ex_orders ex_ports ex_target ex_instantiate ex_body) (λ _, "Traceback") true (ex_request h)
    [("limit", AValue 5)] ex_visible.
Definition ex_oidc := with_oidc (E := string) (R := N) (W := list string) ex_float_value ex_config.

Lemma ex_target_protected : protected_method ex_orders ex_target.
Proof. eexists. split; vm_compute; reflexivity. Qed.

(** The handler gets the request and its own arguments, and not the boundary's parameter. *)
Example ex_answered :
  ex_answer ex_oidc [("authorization", "Bearer token")] =
    (Ok (mk_response 200 [] (Rendered 3)),
     mk_visible (authenticated ex_context) (mk_execution None 0%N) ["limit"; "request"]).
Proof. vm_compute. reflexivity. Qed.

(** A scheme in lower case is no credential; a provider that is missing is not reported for
    a requirement of the class, since the wrapper of the proxy is not bound to it; and a
    token the OpenID provider rejects is an internal error. *)
Example ex_statuses :
  response_status <$> (ex_answer ex_oidc [("authorization", "bearer token")]).1 = Ok 401%Z ∧
  response_status <$> (ex_answer (ret None) [("authorization", "Bearer token")]).1 = Ok 401%Z ∧
  response_status <$> (ex_answer ex_oidc [("authorization", "Bearer forged")]).1 = Ok 500%Z.
Proof. vm_compute. done. Qed.

Lemma bearer_call_runs_verified_witness :
  ∃ c, issued_token ex_config "token" c ∧ subject_id (subject c) = "ada" ∧
    (ex_answer ex_oidc [("authorization", "Bearer token")]).1 = Ok (mk_response 200 [] (Rendered 3)).
Proof.
  destruct (bearer_call_runs_verified (A := nat) (V := nat) ex_orders ex_ports ex_target ex_float_value ex_config ex_instantiate
    [(HTTP_AUTH_REQUEST_PARAMETER, ARequest (ex_request [("authorization", "Bearer token")]))]
    (ex_request [("authorization", "Bearer token")]) ex_visible eq_refl ex_target_protected (preserves_ret _ _))
    as [(t & c & args & v' & Ht & Hs & _)|(e & v' & Hrun)].
  - assert (t = "token") as -> by (vm_compute in Ht; congruence). exists c. split; [exact Hs|].
    destruct Hs as (_ & _ & _ & _ & _ & _ & _ & _ & _ & _ & _ & _ & (_ & _ & _ & ->) & _ & _ & _ & _ & Hsub & _).
    split; [|vm_compute; reflexivity]. vm_compute in Hsub. injection Hsub as Hsub. symmetry. exact Hsub.
  - pose proof (Hrun ex_body []) as Hbad. vm_compute in Hbad. discriminate Hbad.
Defined.

Lemma rejected_token_is_internal_error_witness :
  ∃ resp : Response nat, response_status resp = 500%Z ∧
    (ex_answer ex_oidc [("authorization", "Bearer forged")]).1 = Ok resp.
Proof.
  destruct (rejected_token_is_internal_error (A := nat) (V := nat) ex_orders ex_ports ex_target ex_float_value ex_config
    ex_instantiate true (λ _, "Traceback") (ex_request [("authorization", "Bearer forged")]) [("limit", AValue 5)]
    (mk_carrier BEARER_TOKEN AUTHORIZATION_HEADER "forged" (Some "authorization") (Some "Bearer")) OidcTokenValidationError ex_visible
    (BCallable "Orders.list" None, [mk_call_parameter "request" POSITIONAL_OR_KEYWORD AnnotatedRequest None], "Orders.list") ex_visible)
    as (resp & Hs & Hr).
  - reflexivity.
  - vm_compute. reflexivity.
  - reflexivity.
  - exists resp. split; [exact Hs|exact (Hr ex_body)].
Defined.

Lemma boundary_parameter_is_declared_witness :
  signature_with_request [mk_call_parameter "rest" VAR_KEYWORD AnnotatedOtherwise None] =
    Some [mk_call_parameter HTTP_AUTH_REQUEST_PARAMETER KEYWORD_ONLY AnnotatedRequest None;
          mk_call_parameter "rest" VAR_KEYWORD AnnotatedOtherwise None].
Proof.
  destruct (boundary_parameter_is_declared [mk_call_parameter "rest" VAR_KEYWORD AnnotatedOtherwise None]
    HTTP_AUTH_REQUEST_PARAMETER AnnotatedRequest) as [_ _]; [reflexivity|decide_compute|].
  vm_compute. reflexivity.
Defined.
