(* ===== verification/GrpcServer.v ===== *)
(** * The gRPC front end

    [plugins/spakky-grpc]: the credential of a call ([auth.py]), the behaviours of
    [GrpcServiceHandler] for the four streaming patterns ([handler.py]), the two
    interceptors, the errors with their status codes ([error.py]) and the server with its
    service ([server_spec.py], [post_processors/bind_server.py]). The gRPC library, the
    conversion of messages (protobuf and pydantic) and the controllers are parameters.
    What a streaming method yields is part of what it does to the state. *)

From S2P Require Import Prelude Encoding Json Annotation Pod Auth Tracing Domain Consumer AuthStartup Oidc FrontEnd FastApi.

(** ** Errors *)

Inductive StatusCode :=
  | INVALID_ARGUMENT | NOT_FOUND | ALREADY_EXISTS | PERMISSION_DENIED | UNAUTHENTICATED
  | FAILED_PRECONDITION | UNAVAILABLE | INTERNAL.
Inductive AbstractGrpcStatusError :=
  | InvalidArgument | GrpcNotFound | AlreadyExists | PermissionDenied | Unauthenticated
  | FailedPrecondition | Unavailable | InternalError.

Definition grpc_status_code (e : AbstractGrpcStatusError) : StatusCode :=
  match e with
  | InvalidArgument => INVALID_ARGUMENT | GrpcNotFound => NOT_FOUND | AlreadyExists => ALREADY_EXISTS
  | PermissionDenied => PERMISSION_DENIED | Unauthenticated => UNAUTHENTICATED
  | FailedPrecondition => FAILED_PRECONDITION | Unavailable => UNAVAILABLE | InternalError => INTERNAL
  end.
Definition grpc_message (e : AbstractGrpcStatusError) : string :=
  match e with
  | InvalidArgument => "Invalid Argument" | GrpcNotFound => "Not Found" | AlreadyExists => "Already Exists"
  | PermissionDenied => "Permission Denied" | Unauthenticated => "Unauthenticated"
  | FailedPrecondition => "Failed Precondition" | Unavailable => "Unavailable"
  | InternalError => "Internal Server Error"
  end.

(** What is raised besides the errors of authorization; [BaseError] is what the library
    raises itself, to end a call among others. *)
Inductive rpc_error (E : Type) :=
  | GrpcStatusError (e : AbstractGrpcStatusError)
  | BaseError (aborted : option (StatusCode * string))
  | RpcPythonError (class_name : string)
  | RpcUnexpected (e : E).
Arguments GrpcStatusError {E}.
Arguments BaseError {E}.
Arguments RpcPythonError {E}.
Arguments RpcUnexpected {E}.

(** The messages of the errors of [spakky-auth] that are sent to the caller *)
Definition auth_message (e : auth_error) : string :=
  match e with
  | AuthContextNotFoundError => "Auth context was not found in ApplicationContext"
  | AuthenticationError => "Authentication failed"
  | AuthRequirementDeniedError _ => "Authorization requirement was not allowed"
  | AuthRequirementProviderUnavailableError => "Authorization requirement provider is unavailable"
  | AuthVerificationProviderUnavailableError => "Auth verification provider is unavailable"
  | _ => ""
  end.

(** ** Credentials

    [invocation_metadata()]: nothing, a [grpc.aio.Metadata] or a sequence of pairs. *)

Inductive metadata_value := MStr (s : string) | MBytes (b : bytes).
Inductive invocation_metadata :=
  | NoMetadata
  | AioMetadata (l : list (string * metadata_value))
  | MetadataPairs (l : list (string * metadata_value)).

Definition GRPC_AUTH_BOUNDARY : string := "grpc".
Definition GRPC_BEARER_SCHEME : string := "bearer".
Definition AUTHORIZATION_METADATA_KEY : string := "authorization".

(** [value.decode()] may raise [UnicodeDecodeError], here [None]. *)
Definition _text_value (v : option metadata_value) : option (option string) :=
  match v with
  | None => Some None
  | Some (MStr s) => Some (Some s)
  | Some (MBytes b) => Some <$> utf8_decode b
  end.
Fixpoint find_lower (name : string) (l : list (string * metadata_value)) : option metadata_value :=
  match l with
  | [] => None
  | (key, value) :: l' => if String.eqb (lower key) name then Some value else find_lower name l'
  end.
Definition _metadata_value (md : invocation_metadata) (name : string) : option (option string) :=
  match md with
  | NoMetadata => Some None
  | AioMetadata l => _text_value (dict_get name l)
  | MetadataPairs l => _text_value (find_lower name l)
  end.

(** [value.partition(" ")]: what is before and after the first space, if there is one *)
Fixpoint partition_space (s : string) : option (string * string) :=
  match s with
  | EmptyString => None
  | String c s' =>
      if Ascii.eqb c " "%char then Some ("", s')
      else (λ p, (String c p.1, p.2)) <$> partition_space s'
  end.
Definition _authorization_credential (value : string) : option CredentialCarrier :=
  match partition_space value with
  | None => None
  | Some (scheme, material) =>
      if negb (String.eqb (lower scheme) GRPC_BEARER_SCHEME) || String.eqb material "" then None
      else Some (mk_carrier BEARER_TOKEN METADATA material (Some AUTHORIZATION_METADATA_KEY) (Some "Bearer"))
  end.
Definition snapshot_credential (s : string) : CredentialCarrier :=
  mk_carrier AUTH_CONTEXT_SNAPSHOT METADATA s (Some AUTH_CONTEXT_SNAPSHOT_METADATA_KEY) None.
Definition snapshot_value (md : invocation_metadata) : option (option string) :=
  match _metadata_value md AUTH_CONTEXT_SNAPSHOT_METADATA_KEY with
  | Some None => _metadata_value md AUTH_CONTEXT_SNAPSHOT_HEADER_KEY
  | found => found
  end.
Definition _extract_credential (md : invocation_metadata) : option (option CredentialCarrier) :=
  match md with
  | NoMetadata => Some None
  | _ =>
      authorization ← _metadata_value md AUTHORIZATION_METADATA_KEY;
      match authorization with
      | Some value => Some (_authorization_credential value)
      | None =>
          snapshot_value md ≫= λ snapshot : option string, Some (snapshot_credential <$> snapshot)
      end
  end.

Section grpc.
Context {E R W : Type}.

Abbreviation error := (front_error (rpc_error E)).
Abbreviation user_code := (comp (visible R W) error).
Abbreviation provider := (authentication_provider (rpc_error E) R W).

Context (get_provider : user_code (option provider)).

Definition seed_grpc_auth_context (md : invocation_metadata) (operation : string) : user_code unit :=
  credential <- lift (match _extract_credential md with
                      | Some c => Ok c | None => Raise (Failure (RpcPythonError "UnicodeDecodeError")) end) ;;
  match credential with
  | None => ret tt
  | Some credential =>
      found <- get_provider ;;
      match found with
      | None => raise (Failure (GrpcStatusError Unavailable))
      | Some authenticate =>
          auth_context <- authenticate credential (mk_auth_invocation GRPC_AUTH_BOUNDARY operation []) ;;
          store_request_auth auth_context
      end
  end.

(** ** The behaviours of a handler

    [M] are the protobuf messages, [O] other objects, [T] the model types and [B] their
    instances. *)

Context {M O T B A : Type} (_protobuf_to_basemodel : M → T → outcome error B).

Inductive rpc_request := Message (m : M) | Object_ (o : O).
Inductive domain_request := Model (b : B) | Unconverted (r : rpc_request).

(** What a method of a controller is called with *)
Inductive rpc_argument :=
  | NoArgument
  | OneRequest (d : domain_request)
  | RequestStream (l : list (outcome error domain_request)).

Context (get_method : user_code (rpc_argument → user_code A)).

Definition domain_of (request : rpc_request) (request_type : T) : outcome error domain_request :=
  match request with
  | Message m => Model <$> _protobuf_to_basemodel m request_type
  | Object_ o => Ok (Unconverted request)
  end.
Definition _convert_stream (request_type : option T) (requests : list rpc_request) : list (outcome error domain_request) :=
  (λ r, match request_type with Some t => domain_of r t | None => Ok (Unconverted r) end) <$> requests.

(** What every behaviour does first; then the controller is taken and its method called. *)
Definition prologue (md : invocation_metadata) (full_method : string) : user_code (rpc_argument → user_code A) :=
  clear_request_context ;;;
  seed_grpc_auth_context md full_method ;;;
  get_method.

Definition unary_behavior (request_type : option T) (full_method : string) (md : invocation_metadata) (request : rpc_request)
    : user_code A :=
  handler_method <- prologue md full_method ;;
  match request_type with
  | None => handler_method NoArgument
  | Some t => domain <- lift (domain_of request t) ;; handler_method (OneRequest domain)
  end.
Definition server_streaming_behavior (request_type : option T) (full_method : string) (md : invocation_metadata)
    (request : rpc_request) : user_code A :=
  handler_method <- prologue md full_method ;;
  match request_type with
  | None => handler_method NoArgument
  | Some t => domain <- lift (domain_of request t) ;; handler_method (OneRequest domain)
  end.
Definition client_streaming_behavior (request_type : option T) (full_method : string) (md : invocation_metadata)
    (requests : list rpc_request) : user_code A :=
  handler_method <- prologue md full_method ;; handler_method (RequestStream (_convert_stream request_type requests)).
Definition bidi_streaming_behavior (request_type : option T) (full_method : string) (md : invocation_metadata)
    (requests : list rpc_request) : user_code A :=
  handler_method <- prologue md full_method ;; handler_method (RequestStream (_convert_stream request_type requests)).

(** ** Interceptors *)

Context (abort : StatusCode → string → user_code unit) (format_exc : error → string).

Definition _status_for_requirement_denial (decision : option AuthorizationDecision) : StatusCode :=
  match decision with
  | None => PERMISSION_DENIED
  | Some d => match state d with CHALLENGE => UNAUTHENTICATED | DENY => PERMISSION_DENIED | _ => INTERNAL end
  end.
Definition _abort_auth_error (e : error) : user_code unit :=
  match e with
  | AuthFailure ((AuthContextNotFoundError | AuthenticationError) as x) => abort UNAUTHENTICATED (auth_message x)
  | AuthFailure ((AuthRequirementProviderUnavailableError | AuthVerificationProviderUnavailableError) as x) =>
      abort UNAVAILABLE (auth_message x)
  | _ =>
      match denied e with
      | Some decision => abort (_status_for_requirement_denial decision) "Authorization requirement was not allowed"
      | None => abort INTERNAL (grpc_message InternalError)
      end
  end.

(** The wrapper of [ErrorHandlingInterceptor]; [None] is the response of an aborted call. *)
Definition _wrap_behavior (debug : bool) (behavior : user_code A) : user_code (option A) :=
  try_except (a <- behavior ;; ret (Some a)) (λ e,
    match e with
    | Failure (GrpcStatusError s) => Some (abort (grpc_status_code s) (grpc_message s) ;;; ret None)
    | Failure (BaseError _) => None
    | _ =>
        if is_auth_error e then Some (_abort_auth_error e ;;; ret None)
        else Some (abort INTERNAL (if debug then format_exc e else grpc_message InternalError) ;;; ret None)
    end).

(** [TracingInterceptor]: [intercept_service] starts the trace of a call, whose handler the
    rest of the server resolves, and the wrapper of the behaviour ends it. *)
Definition _metadata_to_dict (replace : bytes → string) (l : list (string * metadata_value)) : list (string * string) :=
  foldl (λ d kv, dict_set kv.1 (match kv.2 with MStr s => s | MBytes b => replace b end) d) [] l.

Definition trace_wrapper `{Entropy R} `{!ITracePropagator R} (set_trailing_metadata : list (string * string) → user_code unit)
    (behavior : user_code A) : user_code A :=
  try_finally
    (result <- behavior ;;
     trailing <- on_request_trace (port_inject []) ;;
     (if (0 <? length trailing)%nat then set_trailing_metadata trailing else ret tt) ;;;
     ret result)
    (on_request_trace Tracing.clear).
Definition trace_intercept `{Entropy R} `{!ITracePropagator R} {H : Type} (carrier : list (string * string))
    (continuation : user_code (option H)) : user_code (option H) :=
  ctx <- start_request_trace carrier ;;
  on_request_trace (Tracing.set ctx) ;;;
  handler <- try_except continuation (λ e, Some (on_request_trace Tracing.clear ;;; raise e)) ;;
  match handler with
  | None => on_request_trace Tracing.clear ;;; ret None
  | Some h => ret (Some h)
  end.
End grpc.
Arguments Message {M O}.
Arguments Object_ {M O}.
Arguments Model {M O B}.
Arguments Unconverted {M O B}.
Arguments NoArgument {E M O B}.
Arguments OneRequest {E M O B}.
Arguments RequestStream {E M O B}.

(** ** Lemmas *)

Lemma partition_space_Some v a b : partition_space v = Some (a, b) ↔ v = a +:+ " " +:+ b ∧ " "%char ∉ String.list_ascii_of_string a.
Proof.
  revert a. induction v as [|c v IH]; intros a; cbn [partition_space].
  - split; [done|]. by intros [Hv _]; destruct a.
  - destruct (Ascii.eqb_spec c " "%char) as [->|Hc].
    + split; [intros [= <- <-]; split; [done|]; intros Hin; inversion Hin|].
      intros [Hv Ha]. destruct a as [|d a]; [by injection Hv as ->|]. injection Hv as <- _. destruct Ha. by left.
    + destruct (partition_space v) as [[a' b']|] eqn:Hp; cbn.
      * pose proof (proj1 (IH a')) as Hfwd. split.
        -- intros [= <- <-]. destruct (Hfwd eq_refl) as [-> Ha']. split; [done|]. cbn. rewrite not_elem_of_cons. split; [congruence|done].
        -- intros [Hv Ha]. destruct a as [|d a]; [injection Hv as ->; congruence|]. injection Hv as <- Hv. cbn in Ha.
           apply not_elem_of_cons in Ha as [_ Ha]. pose proof (proj2 (IH a) (conj Hv Ha)) as Heq. by injection Heq as -> ->.
      * split; [done|]. intros [Hv Ha]. destruct a as [|d a]; [injection Hv as ->; congruence|]. injection Hv as <- Hv. cbn in Ha.
        apply not_elem_of_cons in Ha as [_ Ha]. by pose proof (proj2 (IH a) (conj Hv Ha)).
Qed.

(** The credential of an [authorization] value: a scheme that is [Bearer] in any case, one
    space, and the rest, which is not empty. *)
Theorem authorization_credential_exact value k :
  _authorization_credential value = Some k ↔
  ∃ scheme material, value = scheme +:+ " " +:+ material ∧ " "%char ∉ String.list_ascii_of_string scheme ∧
    lower scheme = "bearer" ∧ material ≠ "" ∧
    k = mk_carrier BEARER_TOKEN METADATA material (Some AUTHORIZATION_METADATA_KEY) (Some "Bearer").
Proof.
  unfold _authorization_credential. split.
  - destruct (partition_space value) as [[scheme material]|] eqn:Hp; [|done]. apply partition_space_Some in Hp as [Hv Hs].
    destruct (String.eqb_spec (lower scheme) GRPC_BEARER_SCHEME) as [Hl|]; [|done]. destruct (String.eqb_spec material ""); [done|].
    cbn. intros [= <-]. by exists scheme, material.
  - intros (scheme & material & Hv & Hs & Hl & Hm & ->). rewrite (proj2 (partition_space_Some _ _ _) (conj Hv Hs)), Hl.
    by destruct (String.eqb_spec material "").
Qed.

(** Whatever the HTTP front end takes for a bearer token the gRPC one takes for the same
    token (but not conversely: see [ex_schemes]). *)
Theorem http_credentials_are_rpc_credentials r k :
  _http_credential r = Some k →
  ∃ value k', dict_get AUTHORIZATION_HEADER_NAME (request_headers r) = Some value ∧
    _extract_credential (MetadataPairs [(AUTHORIZATION_METADATA_KEY, MStr value)]) = Some (Some k') ∧
    carrier_kind k' = carrier_kind k ∧ carrier_material k' = carrier_material k ∧ carrier_scheme k' = Some "Bearer".
Proof.
  intros (Hkind & Hm & Hheader)%http_credential_Some.
  set (k' := mk_carrier BEARER_TOKEN METADATA (carrier_material k) (Some AUTHORIZATION_METADATA_KEY) (Some "Bearer")).
  exists (BEARER_PREFIX +:+ carrier_material k), k'. split_and!; [done| |done..].
  transitivity (Some (_authorization_credential (BEARER_PREFIX +:+ carrier_material k))); [done|]. f_equal.
  apply authorization_credential_exact. exists "Bearer", (carrier_material k). split_and!; [done| |done..]. decide_compute.
Qed.

Section calls.
Context {E R W M O T B A : Type} (_protobuf_to_basemodel : M → T → outcome (front_error (rpc_error E)) B).
Context (get_provider : comp (visible R W) (front_error (rpc_error E)) (option (authentication_provider (rpc_error E) R W))).

Abbreviation error := (front_error (rpc_error E)).
Abbreviation user_code := (comp (visible R W) error).
Abbreviation seed := (seed_grpc_auth_context get_provider).
Abbreviation argument := (rpc_argument (E := E) (M := M) (O := O) (B := B)).

Lemma grpc_seed_spec md op v :
  (∃ k c v', _extract_credential md = Some (Some k) ∧ authenticates get_provider k (mk_auth_invocation GRPC_AUTH_BOUNDARY op []) c v v' ∧
     seed md op v = (Ok tt, (store_request_auth (E := rpc_error E) c v').2)) ∨
  (_extract_credential md = Some None ∧ seed md op v = (Ok tt, v)) ∨
  ∃ e v', seed md op v = (Raise e, v').
Proof.
  destruct (seed md op v) as [o v0] eqn:Hs. revert Hs. unfold seed_grpc_auth_context, bind, lift.
  destruct (_extract_credential md) as [[k|]|]; [|by intros [= <- <-]; right; left|by intros [= <- <-]; right; right; eauto].
  destruct (get_provider v) as [[[p|]|e] v1] eqn:Hp; [|intros [= <- <-]; right; right; by eauto..].
  destruct (p k _ v1) as [[c|e] v2] eqn:Hc; intros [= <- <-]; [|right; right; by eauto]. left. exists k, c, v2.
  split_and!; [done|by eexists _, _|done].
Qed.

(** A controller whose method runs [body] behind the aspect *)
Context (st : auth_store) (ports : auth_ports) (target : boundary) (instantiate : user_code unit).
Definition rpc_controller (body : argument → user_code A) : user_code (argument → user_code A) :=
  instantiate ;;; ret (λ x, guarded ports st target (body x)).

(** The four behaviours, for the pattern of a method *)
Inductive RpcMethodType := UNARY | SERVER_STREAMING | CLIENT_STREAMING | BIDI_STREAMING.
Definition behavior (method_type : RpcMethodType) (request_type : option T) (op : string) (md : invocation_metadata)
    (requests : list (rpc_request (M := M) (O := O))) (request : rpc_request) (body : argument → user_code A) : user_code A :=
  match method_type with
  | UNARY => unary_behavior get_provider _protobuf_to_basemodel (rpc_controller body) request_type op md request
  | SERVER_STREAMING => server_streaming_behavior get_provider _protobuf_to_basemodel (rpc_controller body) request_type op md request
  | CLIENT_STREAMING => client_streaming_behavior get_provider _protobuf_to_basemodel (rpc_controller body) request_type op md requests
  | BIDI_STREAMING => bidi_streaming_behavior get_provider _protobuf_to_basemodel (rpc_controller body) request_type op md requests
  end.

(** What a call passes to the method, if the request can be converted *)
Definition rpc_argument_of (method_type : RpcMethodType) (request_type : option T) (requests : list rpc_request)
    (request : rpc_request) : outcome error argument :=
  match method_type, request_type with
  | (UNARY | SERVER_STREAMING), None => Ok NoArgument
  | (UNARY | SERVER_STREAMING), Some t => OneRequest <$> domain_of _protobuf_to_basemodel request t
  | _, _ => Ok (RequestStream (_convert_stream _protobuf_to_basemodel request_type requests))
  end.

Lemma behavior_unfold mt rt op md requests request body v :
  behavior mt rt op md requests request body v =
  bind (seed md op ;;; instantiate) (λ _,
    x <- lift (rpc_argument_of mt rt requests request) ;; guarded ports st target (body x)) (with_context [] v).
Proof.
  assert (∀ k : (argument → user_code A) → user_code A, bind (prologue get_provider (rpc_controller body) md op) k v =
    bind (seed md op ;;; instantiate) (λ _, k (λ x, guarded ports st target (body x))) (with_context [] v)) as Hprologue.
  { intros k. unfold prologue, rpc_controller, clear_request_context, modify, bind, ret.
    destruct (seed md op (with_context [] v)) as [[[]|e] v1]; [|done]. by destruct (instantiate v1) as [[[]|e] v2]. }
  destruct mt; cbn [behavior]; unfold unary_behavior, server_streaming_behavior, client_streaming_behavior, bidi_streaming_behavior;
    rewrite Hprologue; unfold bind; (destruct (seed md op (with_context [] v)) as [[[]|e] v1]; [|done]);
    (destruct (instantiate v1) as [[[]|e] v2]; [|done]); try by destruct rt.
  all: destruct rt as [t|]; [|done]; unfold rpc_argument_of, lift; by destruct (domain_of _ request t).
Qed.

(** C22. Of every streaming pattern, a method that requires anything of its callers runs only
    in a context that the provider of the application authenticated from the metadata of
    the call, and it then gets the converted request; any other call is refused, whatever
    the method would do. *)
Theorem rpc_call_runs_authenticated mt rt op md requests request v :
  protected_method st target → preserves unauthenticated instantiate →
  (∃ k c x v1 v2 v3, _extract_credential md = Some (Some k) ∧
     authenticates get_provider k (mk_auth_invocation GRPC_AUTH_BOUNDARY op []) c v1 v2 ∧
     instantiate (store_request_auth (E := rpc_error E) c v2).2 = (Ok tt, v3) ∧
     rpc_argument_of mt rt requests request = Ok x ∧
     ∀ body, behavior mt rt op md requests request body v = body x v3) ∨
  ∃ e v', ∀ body, behavior mt rt op md requests request body v = (Raise e, v').
Proof.
  intros Hprot Hinst. setoid_rewrite behavior_unfold. unfold bind at 1.
  assert (∀ o v1, (seed md op ;;; instantiate) (with_context [] v) = (o, v1) → is_ok o = false →
    ∃ e v', ∀ body : argument → user_code A, match (seed md op ;;; instantiate) (with_context [] v) with
      | (Ok _, s') => (x <- lift (rpc_argument_of mt rt requests request) ;; guarded ports st target (body x)) s'
      | (Raise e, s') => (Raise e, s') end = (Raise e, v')) as Hrefused.
  { intros [u|e] v1 Hrun Ho; [done|]. rewrite Hrun. by exists e, v1. }
  destruct (grpc_seed_spec md op (with_context [] v)) as [(k & c & v2 & Hk & Ha & Hs)|[[Hk Hs]|(e & v' & Hs)]].
  3: { right. apply (Hrefused (Raise e) v'); [|done]. unfold bind. by rewrite Hs. }
  all: destruct (rpc_argument_of mt rt requests request) as [x|e] eqn:Hx.
  2, 4: right; unfold bind; rewrite Hs; destruct (instantiate _) as [[[]|e'] v3]; cbn; eauto.
  - destruct (instantiate (store_request_auth (E := rpc_error E) c v2).2) as [[[]|e'] v3] eqn:Hi.
    2: { right. unfold bind. rewrite Hs, Hi. by eauto. }
    destruct (guarded_spec (E := rpc_error E) ports st target v3) as [[Hrun _]|[e He]].
    + left. exists k, c, x, (with_context [] v), v2, v3. split_and!; [done..|]. intros body. unfold bind. rewrite Hs, Hi. apply Hrun.
    + right. unfold bind. rewrite Hs, Hi. cbn. setoid_rewrite He. eauto.
  - right. specialize (Hinst (with_context [] v) eq_refl). unfold bind. rewrite Hs.
    destruct (instantiate (with_context [] v)) as [[[]|e'] v3]; [|by eauto]. cbn.
    destruct (guarded_anonymous (E := rpc_error E) (A := A) ports st target v3 Hprot Hinst) as [e He].
    setoid_rewrite He. eauto.
Qed.
End calls.

(** ** Failures *)

(** The status and the details a failed call is aborted with; [None] is an exception of the
    library, which ends the call itself. *)
Definition abort_of {E} (debug : bool) (format_exc : front_error (rpc_error E) → string) (e : front_error (rpc_error E))
    : option (StatusCode * string) :=
  match e with
  | Failure (GrpcStatusError s) => Some (grpc_status_code s, grpc_message s)
  | Failure (BaseError _) => None
  | AuthFailure (AuthContextNotFoundError as x) | AuthFailure (AuthenticationError as x) => Some (UNAUTHENTICATED, auth_message x)
  | AuthFailure (AuthRequirementProviderUnavailableError as x) | AuthFailure (AuthVerificationProviderUnavailableError as x) =>
      Some (UNAVAILABLE, auth_message x)
  | AuthFailure (AuthRequirementDeniedError d) =>
      Some (match state d with CHALLENGE => UNAUTHENTICATED | DENY => PERMISSION_DENIED | _ => INTERNAL end,
            "Authorization requirement was not allowed")
  | DenialWithoutDecision => Some (PERMISSION_DENIED, "Authorization requirement was not allowed")
  | _ => Some (INTERNAL, if negb (is_auth_error e) && debug then format_exc e else "Internal Server Error")
  end.

Section failures.
Context {E R W A : Type} (abort : StatusCode → string → comp (visible R W) (front_error (rpc_error E)) unit).
Context (format_exc : front_error (rpc_error E) → string).

(** Every failure of a call but one of the library aborts it, once, with the status of the
    failure, after what the behaviour did; what is not an error of the framework is
    described only in debug mode. *)
Theorem failures_abort debug (behavior : comp (visible R W) (front_error (rpc_error E)) A) v :
  _wrap_behavior abort format_exc debug behavior v =
  match behavior v with
  | (Ok a, v') => (Ok (Some a), v')
  | (Raise e, v') =>
      match abort_of debug format_exc e with
      | Some (code, details) => (abort code details ;;; ret None) v'
      | None => (Raise e, v')
      end
  end.
Proof.
  unfold _wrap_behavior, try_except, bind, ret. destruct (behavior v) as [[a|e] v']; [done|].
  destruct e as [[]| | |[]]; done.
Qed.
End failures.

(** *** Traces *)

Section grpc_tracing.
Context {E R W A : Type} `{Entropy R} `{!ITracePropagator R}.
Context (set_trailing_metadata : list (string * string) → comp (visible R W) (front_error (rpc_error E)) unit).
Abbreviation user_code := (comp (visible R W) (front_error (rpc_error E))).

Definition untraced (v : visible R W) : Prop := _trace_context (trace v) = None.

(** A call leaves no trace behind, whether its handler is not found, its resolution raises,
    or its behaviour returns or raises. *)
Theorem calls_leave_no_trace carrier {Handler : Type} (continuation : user_code (option Handler)) (behavior : user_code A) v :
  untraced (trace_wrapper set_trailing_metadata behavior v).2 ∧
  ((¬ ∃ h, (trace_intercept carrier continuation v).1 = Ok (Some h)) → untraced (trace_intercept carrier continuation v).2).
Proof.
  split.
  - unfold trace_wrapper, try_finally, on_request_trace at 2. destruct (bind _ _ v) as [o v']. by destruct v'.
  - unfold trace_intercept. destruct (start_request_trace_spec (E := rpc_error E) carrier v) as (span & rest & _ & Hstart).
    unfold bind. rewrite Hstart. cbn. unfold try_except. destruct (continuation _) as [[[h|]|e] v2]; cbn; [|by destruct v2..].
    intros Hno. destruct Hno. by exists h.
Qed.
End grpc_tracing.

(** *** With the provider of [Oidc.v] *)

Definition rpc_oidc_exception {E} (e : oidc_error) : front_error (rpc_error E) :=
  Failure (RpcPythonError
    match e with
    | OidcDiscoveryError => "OidcDiscoveryError"
    | OidcJwksError => "OidcJwksError"
    | OidcCredentialError => "OidcCredentialError"
    | OidcTokenValidationError => "OidcTokenValidationError"
    | OtherException => "Exception"
    end).
Definition rpc_oidc_provider {E R W} (float_value : string → QArith_base.Q) `{PyJWT} (config : OidcProviderConfig)
    : authentication_provider (rpc_error E) R W :=
  λ credential _ v, (map_error rpc_oidc_exception (Oidc.authenticate float_value config credential []).1, v).

Section rpc_oidc.
Context {E R W M O T B A : Type} (to_model : M → T → outcome (front_error (rpc_error E)) B).
Context (float_value : string → QArith_base.Q) `{PyJWT} (config : OidcProviderConfig).
Context (st : auth_store) (ports : auth_ports) (target : boundary) (instantiate : comp (visible R W) (front_error (rpc_error E)) unit).
Context (abort : StatusCode → string → comp (visible R W) (front_error (rpc_error E)) unit).
Context (format_exc : front_error (rpc_error E) → string).

Definition rpc_with_oidc : comp (visible R W) (front_error (rpc_error E)) (option (authentication_provider (rpc_error E) R W)) :=
  ret (Some (rpc_oidc_provider float_value config)).

(** A credential the OpenID provider refuses, an expired token or any snapshot, ends a call
    with INTERNAL, of a public method too, where the guide says UNAUTHENTICATED. *)
Theorem refused_credential_is_internal debug mt rt op md requests request body k e v :
  _extract_credential md = Some (Some k) → (Oidc.authenticate float_value config k []).1 = Raise e →
  ∃ details, _wrap_behavior abort format_exc debug
    (behavior (A := A) (O := O) to_model rpc_with_oidc st ports target instantiate mt rt op md requests request body) v =
    (abort INTERNAL details ;;; ret None) (with_context [] v).
Proof.
  intros Hk He. rewrite failures_abort, behavior_unfold.
  assert (bind (seed_grpc_auth_context rpc_with_oidc md op) (λ _, instantiate) (with_context [] v) =
    (Raise (rpc_oidc_exception e), with_context [] v)) as Hseed.
  { unfold seed_grpc_auth_context, bind, lift. rewrite Hk. cbn -[rpc_oidc_provider]. unfold rpc_oidc_provider. by rewrite He. }
  unfold bind at 1. rewrite Hseed. by destruct e; eexists.
Qed.

Lemma snapshots_are_refused k :
  carrier_kind k = AUTH_CONTEXT_SNAPSHOT → ∃ e, (Oidc.authenticate float_value config k []).1 = Raise e.
Proof.
  intros Hk. unfold Oidc.authenticate, bind, lift, _bearer_token. rewrite Hk.
  destruct (check _ _); by eexists.
Qed.
End rpc_oidc.

(** ** The server and its service

    [H] are generic handlers, [I] interceptors; [port_of] is the port that
    [add_insecure_port] gives an address. *)

Record GrpcServerSpec (H I : Type) := mk_spec {
  spec_handlers : list H;
  spec_interceptors : list I;
  bind_addresses : list string;
  bound_ports : list Z;
}.
Arguments mk_spec {H I}.
Arguments spec_handlers {H I}.
Arguments spec_interceptors {H I}.
Arguments bind_addresses {H I}.
Arguments bound_ports {H I}.

Section server.
Context {H I : Type}.
Implicit Types spec : GrpcServerSpec H I.

Definition add_handler (h : H) spec := mk_spec (spec_handlers spec ++ [h]) (spec_interceptors spec) (bind_addresses spec) (bound_ports spec).
Definition add_interceptor (i : I) spec := mk_spec (spec_handlers spec) (spec_interceptors spec ++ [i]) (bind_addresses spec) (bound_ports spec).
Definition add_insecure_port (a : string) spec := mk_spec (spec_handlers spec) (spec_interceptors spec) (bind_addresses spec ++ [a]) (bound_ports spec).

(** [AddInterceptorsPostProcessor.post_process] on a spec *)
Definition add_interceptors (error_handling : I) (tracing : option I) spec :=
  let spec := add_interceptor error_handling spec in
  match tracing with Some t => add_interceptor t spec | None => spec end.

(** [GrpcServerService]: the spec, the server it holds, and what happened to the servers it
    built, which are numbered *)
Inductive server_event := Built (n : nat) | Started (n : nat) | Stopped (n : nat).
Record server_state := mk_server_state {
  _server : option nat;
  events : list server_event;
  next_server : nat;
}.

Context {X : Type} (server_build server_start server_stop : nat → option X).
Abbreviation action := (comp server_state X).

Definition emit (e : server_event) : action unit := modify (λ s, mk_server_state (_server s) (events s ++ [e]) (next_server s)).
Definition build_server : action nat := λ s,
  match server_build (next_server s) with
  | Some x => (Raise x, s)
  | None => (Ok (next_server s), mk_server_state (_server s) (events s ++ [Built (next_server s)]) (S (next_server s)))
  end.
Definition start_async : action unit :=
  n <- build_server ;;
  modify (λ s, mk_server_state (Some n) (events s) (next_server s)) ;;;
  match server_start n with Some x => raise x | None => emit (Started n) end.
Definition stop_async : action unit :=
  held <- gets _server ;;
  match held with
  | None => ret tt
  | Some n =>
      modify (λ s, mk_server_state None (events s) (next_server s)) ;;;
      emit (Stopped n) ;;;
      match server_stop n with Some x => raise x | None => ret tt end
  end.

(** Whatever the calls of the application context and their failures, no server is stopped
    twice or before it is built. *)
Definition stopped_once (s : server_state) : Prop :=
  NoDup (omap (λ e, match e with Stopped n => Some n | _ => None end) (events s)) ∧
  (∀ n, Stopped n ∈ events s → n < next_server s ∧ _server s ≠ Some n) ∧
  (∀ n, _server s = Some n → n < next_server s).

Lemma start_stopped_once : preserves stopped_once start_async.
Proof.
  intros [held es next] (Hnd & Hst & Hheld). unfold start_async, build_server, emit, bind, modify. cbn in *.
  destruct (server_build next); cbn; [done|].
  assert (∀ e, (∀ n, e ≠ Stopped n) → stopped_once (mk_server_state (Some next) ((es ++ [Built next]) ++ [e]) (S next))) as Hs.
  { intros e He. split_and!; cbn.
    - rewrite !omap_app. destruct e; [..|by destruct (He n)]; by rewrite !app_nil_r.
    - intros n. rewrite !elem_of_app, !list_elem_of_singleton. intros [[Hn|[=]]|Hn]; [|by destruct (He n)].
      destruct (Hst n Hn) as [? _]. split; [lia|]. intros [= ->]. lia.
    - intros n [= <-]. lia. }
  destruct (server_start next); cbn; [|by apply Hs].
  destruct (Hs (Built next)) as (H1 & H2 & H3); [done|]. cbn in *. split_and!; cbn.
  - by rewrite !omap_app, !app_nil_r in *.
  - intros n Hn. apply H2. rewrite elem_of_app. by left.
  - done.
Qed.
Lemma stop_stopped_once : preserves stopped_once stop_async.
Proof.
  intros [[n|] es next] (Hnd & Hst & Hheld); unfold stop_async, emit, bind, gets, modify; cbn in *.
  - assert (stopped_once (mk_server_state None (es ++ [Stopped n]) next)) as Hs.
    { split_and!; cbn; [| |done].
      - rewrite omap_app. apply NoDup_app. split_and!; [done| |repeat constructor; set_solver].
        intros m (e & He & Hm)%list_elem_of_omap. destruct e as [| |m']; try done. injection Hm as ->. cbn.
        rewrite list_elem_of_singleton. intros ->. by destruct (Hst n He) as [_ []].
      - intros m. rewrite elem_of_app, list_elem_of_singleton. intros [Hm|[= ->]]; [by destruct (Hst m Hm)|].
        split; [by apply Hheld|done]. }
    by destruct (server_stop n).
  - done.
Qed.

(** A stop that follows another does nothing. *)
Lemma second_stop s : stop_async (stop_async s).2 = (Ok tt, (stop_async s).2).
Proof.
  destruct s as [[n|] es next]; unfold stop_async, emit, bind, gets, modify; cbn; [|done]. by destruct (server_stop n).
Qed.
End server.

(** A service started twice loses its first server: only the second is stopped. *)
Theorem restarted_server_is_lost {X} :
  events (stop_async (X := X) (λ _, None)
    (start_async (X := X) (λ _, None) (λ _, None) (start_async (X := X) (λ _, None) (λ _, None) (mk_server_state None [] 0)).2).2).2 =
  [Built 0; Started 0; Built 1; Started 1; Stopped 1].
Proof. reflexivity. Qed.

(** ** Witnesses

    A unary method [List] of a protected service; the OpenID provider is the example of
    [Oidc.v]. *)

#[local] Existing Instances ex_pyjwt ex_pyjwt_laws.

Abbreviation ex_world := (visible N (list string)).
Definition ex_rpc_target : boundary := BCallable "Orders.List" (Some (SelfInstance "Orders")).
Definition ex_to_model (m : nat) (_ : unit) : outcome (front_error (rpc_error string)) nat := Ok (m + 1).
Definition ex_rpc_body (x : rpc_argument (E := string) (M := nat) (O := unit) (B := nat))
    : comp ex_world (front_error (rpc_error string)) nat :=
  ret (match x with OneRequest (Model b) => b | _ => 0 end).
Definition ex_abort (code : StatusCode) (details : string) : comp ex_world (front_error (rpc_error string)) unit :=
  raise (Failure (BaseError (Some (code, details)))).
Definition ex_bearer_metadata (token : string) : invocation_metadata := AioMetadata [("authorization", MStr ("bearer " +:+ token))].
Definition ex_call_rpc (md : invocation_metadata) :=
  _wrap_behavior ex_abort (λ _, "Traceback") false
    (behavior (A := nat) ex_to_model (rpc_with_oidc ex_float_value ex_config) ex_orders ex_ports ex_rpc_target (ret tt)
       UNARY (Some tt) "/shop.Orders/List" md [] (Message 4) ex_rpc_body) ex_visible.

Example ex_rpc_calls :
  (ex_call_rpc (ex_bearer_metadata "token")).1 = Ok (Some 5) ∧
  (ex_call_rpc NoMetadata).1 =
    Raise (Failure (BaseError (Some (UNAUTHENTICATED, "Auth context was not found in ApplicationContext")))) ∧
  (ex_call_rpc (ex_bearer_metadata "forged")).1 = Raise (Failure (BaseError (Some (INTERNAL, "Internal Server Error")))) ∧
  (ex_call_rpc (AioMetadata [("spakky.auth.context_snapshot", MStr "signed")])).1 =
    Raise (Failure (BaseError (Some (INTERNAL, "Internal Server Error")))).
Proof. vm_compute. done. Qed.

(** A scheme in lower case is a credential here and none over HTTP. *)
Example ex_schemes :
  _http_credential (mk_request "GET" "/" [("authorization", "bearer token")]) = None ∧
  carrier_material <$> _authorization_credential "bearer token" = Some "token".
Proof. vm_compute. done. Qed.

Lemma rpc_call_runs_authenticated_witness :
  ∃ k, _extract_credential (ex_bearer_metadata "token") = Some (Some k) ∧ carrier_material k = "token".
Proof.
  destruct (rpc_call_runs_authenticated (A := nat) (O := unit) ex_to_model (rpc_with_oidc (R := N) (W := list string) ex_float_value ex_config)
    ex_orders ex_ports ex_rpc_target (ret tt) UNARY (Some tt) "/shop.Orders/List" (ex_bearer_metadata "token") [] (Message 4) ex_visible)
    as [(k & c & x & v1 & v2 & v3 & Hk & _)|(e & v' & Hrun)].
  - eexists. split; vm_compute; reflexivity.
  - apply preserves_ret.
  - exists k. split; [exact Hk|]. vm_compute in Hk. injection Hk as <-. reflexivity.
  - pose proof (Hrun ex_rpc_body) as Hbad. vm_compute in Hbad. discriminate Hbad.
Defined.

Lemma refused_credential_is_internal_witness :
  ∃ details, ex_call_rpc (ex_bearer_metadata "forged") = (ex_abort INTERNAL details ;;; ret None) ex_visible.
Proof.
  destruct (refused_credential_is_internal (A := nat) (O := unit) ex_to_model ex_float_value ex_config ex_orders ex_ports ex_rpc_target (ret tt)
    ex_abort (λ _, "Traceback") false UNARY (Some tt) "/shop.Orders/List" (ex_bearer_metadata "forged") [] (Message 4) ex_rpc_body
    (mk_carrier BEARER_TOKEN METADATA "forged" (Some AUTHORIZATION_METADATA_KEY) (Some "Bearer")) OidcTokenValidationError ex_visible)
    as (details & Hd).
  - vm_compute. reflexivity.
  - vm_compute. reflexivity.
  - exists details. exact Hd.
Defined.
