(* ===== verification/TyperCli.v ===== *)
(** * The command line front end

    [plugins/spakky-typer]: the endpoints [TyperCLIPostProcessor] registers for the
    commands of a controller, with their option for a token and their exit codes
    ([post_processor.py]), and the names of groups ([utils/casing.py]). Typer and the
    controllers are parameters. *)

From S2P Require Import Prelude Encoding Json Annotation Pod Auth Tracing Domain Consumer AuthStartup Oidc FrontEnd.

(** What is raised besides the errors of authorization; [Exit] ends the process with a code. *)
Inductive cli_error (E : Type) :=
  | Exit (code : Z)
  | CliPythonError (class_name : string)
  | CliUnexpected (e : E).
Arguments Exit {E}.
Arguments CliPythonError {E}.
Arguments CliUnexpected {E}.

Definition AUTH_TOKEN_OPTION_PARAMETER : string := "_spakky_auth_token".
Definition AUTH_TOKEN_ENV_VAR : string := "SPAKKY_AUTH_TOKEN".

(** ** Names

    [re.sub(r"(?<!^)(?=[A-Z])", "-", name).lower()] *)
Definition is_upper (c : ascii) : bool := (65 <=? N_of_ascii c)%N && (N_of_ascii c <=? 90)%N.
Fixpoint dash_before_upper (s : string) : string :=
  match s with
  | EmptyString => ""
  | String c s' => if is_upper c then String "-" (String c (dash_before_upper s')) else String c (dash_before_upper s')
  end.
Definition pascal_to_kebab (name : string) : string :=
  lower (match name with EmptyString => "" | String c s => String c (dash_before_upper s) end).

(** ** The option *)

Definition _auth_token_parameter : call_parameter :=
  mk_call_parameter AUTH_TOKEN_OPTION_PARAMETER KEYWORD_ONLY AnnotatedOtherwise (Some (OptionInfo (Some ["--auth-token"]))).

Definition takes_auth_token (p : call_parameter) : bool :=
  String.eqb (parameter_name p) AUTH_TOKEN_OPTION_PARAMETER || String.eqb (parameter_name p) "auth_token" ||
  match parameter_default_of p with
  | Some (OptionInfo (Some decls)) => existsb (String.eqb "--auth-token") decls
  | _ => false
  end.
Definition _existing_auth_token_parameter (original : list call_parameter) : option string :=
  parameter_name <$> List.find takes_auth_token original.
Definition _with_auth_token_option (original : list call_parameter) : option (list call_parameter) :=
  match _existing_auth_token_parameter original with
  | Some _ => Some original
  | None => signature_replace (original ++ [_auth_token_parameter])
  end.

Definition _invocation (controller : string) (method_name : string) : AuthInvocation :=
  mk_auth_invocation "CLI" (controller +:+ "." +:+ method_name) [].
Definition _carrier (auth_token : string) : CredentialCarrier :=
  mk_carrier BEARER_TOKEN CLI_OPTION auth_token (Some "--auth-token") (Some "Bearer").

Definition reason_code_value (c : AuthorizationReasonCode) : string :=
  match c with
  | AUTHORIZED => "AUTHORIZED" | MISSING_CREDENTIAL => "MISSING_CREDENTIAL" | INVALID_CREDENTIAL => "INVALID_CREDENTIAL"
  | EXPIRED_CREDENTIAL => "EXPIRED_CREDENTIAL" | INSUFFICIENT_ROLE => "INSUFFICIENT_ROLE"
  | INSUFFICIENT_SCOPE => "INSUFFICIENT_SCOPE" | POLICY_DENIED => "POLICY_DENIED" | SNAPSHOT_MISSING => "SNAPSHOT_MISSING"
  | SNAPSHOT_INVALID => "SNAPSHOT_INVALID" | SNAPSHOT_EXPIRED => "SNAPSHOT_EXPIRED"
  | VERIFICATION_PROVIDER_UNAVAILABLE => "VERIFICATION_PROVIDER_UNAVAILABLE" | INTERNAL_ERROR => "INTERNAL_ERROR"
  end.
Definition exit_code (d : AuthorizationDecision) : Z :=
  match state d with CHALLENGE => 2 | DENY => 3 | _ => 1 end.

(** ** The endpoint *)

(** What Typer passes for a parameter *)
Inductive cli_value (V : Type) := CliText (s : string) | CliNone | CliOther (v : V).
Arguments CliText {V}.
Arguments CliNone {V}.
Arguments CliOther {V}.

Section typer.
Context {E R W V A : Type}.

Abbreviation error := (front_error (cli_error E)).
Abbreviation user_code := (comp (visible R W) error).
Abbreviation kwargs_type := (list (string * cli_value V)).

Context (get_provider : user_code (option (authentication_provider (cli_error E) R W))).
Context (get_method : user_code (kwargs_type → user_code A)).
Context (echo : string → user_code unit) (environment : option string).

Definition _exit {B} (d : AuthorizationDecision) : user_code B :=
  echo (reason_code_value (reason_code d)) ;;;
  match reason d with Some r => echo r | None => ret tt end ;;;
  raise (Failure (Exit (exit_code d))).

(** The token of a call, and the arguments that are left for the method *)
Definition take_auth_token (existing : option string) (kwargs : kwargs_type) : cli_value V * kwargs_type :=
  let '(token, kwargs) :=
    match existing with
    | Some p => (default CliNone (dict_get p kwargs), kwargs)
    | None => (default CliNone (dict_get AUTH_TOKEN_OPTION_PARAMETER kwargs), dict_del AUTH_TOKEN_OPTION_PARAMETER kwargs)
    end in
  (match token with CliNone => match environment with Some t => CliText t | None => CliNone end | _ => token end, kwargs).
(** [isinstance(auth_token, str) and auth_token] *)
Definition token_text (token : cli_value V) : option string :=
  match token with CliText t => if String.eqb t "" then None else Some t | _ => None end.

Definition seed_cli_auth_context (token : option string) (protected : bool) (invocation : AuthInvocation) : user_code unit :=
  match token with
  | Some auth_token =>
      found <- get_provider ;;
      match found with
      | None => if protected then _exit (decision_error VERIFICATION_PROVIDER_UNAVAILABLE None) else ret tt
      | Some authenticate =>
          auth_context <- try_except (authenticate (_carrier auth_token) invocation) (λ e,
            match e with
            | AuthFailure AuthVerificationProviderUnavailableError => Some (_exit (decision_error VERIFICATION_PROVIDER_UNAVAILABLE None))
            | AuthFailure AuthenticationError => Some (_exit (decision_challenge INVALID_CREDENTIAL None))
            | _ => None
            end) ;;
          store_request_auth auth_context
      end
  | None => if protected then _exit (decision_challenge MISSING_CREDENTIAL None) else ret tt
  end.

(** The decision an exception of the method is reported as *)
Definition reported (e : error) : option AuthorizationDecision :=
  match e with
  | AuthFailure AuthContextNotFoundError => Some (decision_challenge MISSING_CREDENTIAL None)
  | AuthFailure AuthRequirementProviderUnavailableError => Some (decision_error VERIFICATION_PROVIDER_UNAVAILABLE None)
  | _ =>
      match denied e with
      | Some (Some d) => Some d
      | Some None => Some (decision_deny POLICY_DENIED None)
      | None => None
      end
  end.

Definition cli_endpoint (existing : option string) (protected : bool) (controller method_name : string) (kwargs : kwargs_type)
    : user_code A :=
  let '(auth_token, kwargs) := take_auth_token existing kwargs in
  clear_request_context ;;;
  seed_cli_auth_context (token_text auth_token) protected (_invocation controller method_name) ;;;
  method_to_call <- get_method ;;
  try_except (method_to_call kwargs) (λ e, _exit <$> reported e).
End typer.

(** [post_process]: the commands of a group, each with the arguments its endpoint is bound to
    and its signature; [None] is a signature that cannot be extended. *)
Record cli_method := mk_cli_method {
  cli_method_name : string;
  cli_command : option (option string);
  cli_boundary : boundary;
  cli_signature : list call_parameter;
}.
Record cli_registration := mk_registration {
  registered_name : option string;
  registered_method : string;
  registered_protected : bool;
  registered_existing : option string;
  registered_signature : list call_parameter;
}.
Inductive registration_error := MetadataError (e : auth_error) | SignatureError.

Fixpoint cli_post_process (st : auth_store) (controller_type : py_object) (ms : list cli_method)
    : outcome registration_error (list cli_registration) :=
  match ms with
  | [] => Ok []
  | m :: ms' =>
      match cli_command m with
      | None => cli_post_process st controller_type ms'
      | Some name =>
          md ← map_error MetadataError (get_effective_auth_metadata st (cli_boundary m) (Some controller_type));
          sg ← match _with_auth_token_option (cli_signature m) with Some l => Ok l | None => Raise SignatureError end;
          rest ← cli_post_process st controller_type ms';
          Ok (mk_registration name (cli_method_name m) (protected md) (_existing_auth_token_parameter (cli_signature m)) sg :: rest)
      end
  end.

(** ** Lemmas *)

Lemma kind_le_trans p q r : kind_le p q = true → kind_le q r = true → kind_le p r = true.
Proof. unfold kind_le. rewrite !Nat.leb_le. lia. Qed.

Lemma in_order_last l p q : in_order (l ++ [p]) = true → q ∈ l → kind_le q p = true.
Proof.
  rewrite in_order_Sorted. intros Hs%Sorted_StronglySorted; [|intros a b c; apply kind_le_trans].
  induction l as [|x l IH]; [by intros ?%not_elem_of_nil|].
  apply StronglySorted_inv in Hs as [Hs Hall]. intros [->|Hin]%elem_of_cons; [|by apply IH].
  rewrite Forall_forall in Hall. apply Hall. set_solver.
Qed.

(** The option cannot be added to a command with [**kwargs]: [Signature.replace] raises. *)
Theorem variadic_command_is_rejected original q :
  q ∈ original → parameter_kind_of q = VAR_KEYWORD → _existing_auth_token_parameter original = None →
  _with_auth_token_option original = None.
Proof.
  intros Hq Hk He. unfold _with_auth_token_option. rewrite He. unfold signature_replace.
  destruct (in_order (original ++ [_auth_token_parameter])) eqn:Ho; [|done].
  pose proof (in_order_last _ _ _ Ho Hq) as Hle. unfold kind_le in Hle. by rewrite Hk in Hle.
Qed.

Section commands.
Context {E R W V A : Type}.

Abbreviation error := (front_error (cli_error E)).
Abbreviation user_code := (comp (visible R W) error).
Abbreviation kwargs_type := (list (string * cli_value V)).

Context (get_provider : user_code (option (authentication_provider (cli_error E) R W))).
Context (echo : string → user_code unit) (environment : option string).

(** What is printed of a decision *)
Fixpoint echo_all (l : list string) : user_code unit :=
  match l with [] => ret tt | s :: l' => echo s ;;; echo_all l' end.
Definition printed (d : AuthorizationDecision) : list string :=
  reason_code_value (reason_code d) :: match reason d with Some r => [r] | None => [] end.

Lemma exit_spec {B} d v :
  ∃ e v', _exit (B := B) echo d v = (Raise e, v') ∧
    (v', e) = match echo_all (printed d) v with (Ok _, v') => (v', Failure (Exit (exit_code d))) | (Raise e, v') => (v', e) end.
Proof.
  unfold _exit, printed, bind, raise. cbn [echo_all]. unfold bind.
  destruct (echo _ v) as [[[]|e] v1]; [|by eexists _, _]. destruct (reason d) as [r|]; cbn; [|by eexists _, _].
  unfold bind. destruct (echo r v1) as [[[]|e] v2]; by eexists _, _.
Qed.
Lemma exit_raises {B} d v : ∃ e v', _exit (B := B) echo d v = (Raise e, v').
Proof. destruct (exit_spec (B := B) d v) as (e & v' & He & _). by eexists _, _. Qed.

Lemma cli_seed_spec token i v :
  (∃ t c v', token = Some t ∧ authenticates get_provider (_carrier t) i c v v' ∧
     seed_cli_auth_context get_provider echo token true i v = (Ok tt, (store_request_auth (E := cli_error E) c v').2)) ∨
  ∃ e v', seed_cli_auth_context get_provider echo token true i v = (Raise e, v').
Proof.
  destruct (seed_cli_auth_context get_provider echo token true i v) as [o v0] eqn:Hs. revert Hs.
  assert (∀ B d v1 (o' : outcome error B) v2, _exit echo d v1 = (o', v2) → ∃ e, o' = Raise e) as Hexit.
  { intros B d v1 o' v2 He. destruct (exit_raises (B := B) d v1) as (e & v3 & He'). rewrite He' in He. injection He as <- _. by exists e. }
  unfold seed_cli_auth_context, bind. destruct token as [t|].
  2: { intros (e & ->)%Hexit. right. eauto. }
  destruct (get_provider v) as [[[p|]|e] v1] eqn:Hp.
  2: { intros (e & ->)%Hexit. right. eauto. }
  2: { intros [= <- <-]. right. eauto. }
  unfold try_except. destruct (p (_carrier t) i v1) as [[c|e] v2] eqn:Hc.
  - intros [= <- <-]. left. exists t, c, v2. split_and!; [done|by eexists _, _|done].
  - intros Hs. right.
    assert (∃ e', o = Raise e') as [e' ->]; [|by eauto].
    destruct e as [[]| | |]; (destruct (_exit (B := AuthContext) echo _ v2) as [o' v3] eqn:Hx in Hs || idtac);
      try (destruct (Hexit _ _ _ _ _ Hx) as [e' ->]); injection Hs as <- <-; by eexists.
Qed.

(** A command that is protected takes its controller from the container and runs only
    after the provider of the application authenticated a token, from its option or else
    from the environment, and in that caller's context; without one it is refused, and
    what the controller would do does not matter. *)
Theorem command_runs_authenticated existing controller method_name kwargs v :
  let '(token, rest) := take_auth_token environment existing kwargs in
  (∃ t c v1 v2, token_text token = Some t ∧ authenticates get_provider (_carrier t) (_invocation controller method_name) c v1 v2 ∧
     ∃ v3, auth_context_of v3 = Some c ∧
     ∀ get_method : user_code (kwargs_type → user_code A),
       cli_endpoint get_provider get_method echo environment existing true controller method_name kwargs v =
       (m <- get_method ;; try_except (m rest) (λ e, _exit echo <$> reported e)) v3) ∨
  ∃ e v', ∀ get_method : user_code (kwargs_type → user_code A),
    cli_endpoint get_provider get_method echo environment existing true controller method_name kwargs v = (Raise e, v').
Proof.
  unfold cli_endpoint. destruct (take_auth_token environment existing kwargs) as [token rest].
  destruct (cli_seed_spec (token_text token) (_invocation controller method_name) (with_context [] v))
    as [(t & c & v' & Ht & Ha & Hs)|(e & v' & Hs)].
  - left. exists t, c, (with_context [] v), v'. split_and!; [done..|].
    exists (store_request_auth (E := cli_error E) c v').2. split; [apply auth_context_stored|]. intros get_method.
    unfold clear_request_context, modify, bind at 1 2. by rewrite Hs.
  - right. exists e, v'. intros get_method. unfold clear_request_context, modify, bind at 1 2. by rewrite Hs.
Qed.

(** The exit code and the output of a command whose method is denied or not authenticated
    are those of the decision, provided printing succeeds. *)
Theorem denied_command_exits kwargs (m : kwargs_type → user_code A) v e v' d v2 :
  m kwargs v = (Raise e, v') → reported e = Some d → echo_all (printed d) v' = (Ok tt, v2) →
  try_except (m kwargs) (λ e, _exit echo <$> reported e) v = (Raise (Failure (Exit (exit_code d))), v2).
Proof.
  intros Hm Hr Hecho. unfold try_except. rewrite Hm, Hr. cbn.
  destruct (exit_spec (B := A) d v') as (e' & v3 & -> & Heq). rewrite Hecho in Heq. by injection Heq as -> ->.
Qed.
End commands.

(** *** With the provider of [Oidc.v] *)

Definition cli_oidc_provider {E R W} (float_value : string → QArith_base.Q) `{PyJWT} (config : OidcProviderConfig)
    : authentication_provider (cli_error E) R W :=
  λ credential _ v, (map_error (λ e, Failure (CliPythonError
    match e with
    | OidcDiscoveryError => "OidcDiscoveryError"
    | OidcJwksError => "OidcJwksError"
    | OidcCredentialError => "OidcCredentialError"
    | OidcTokenValidationError => "OidcTokenValidationError"
    | OtherException => "Exception"
    end)) (Oidc.authenticate float_value config credential []).1, v).

(** A token the OpenID provider refuses ends the command, public or not, with an exception
    and no reason on the output, where the guide says exit code 2. *)
Theorem refused_token_is_uncaught {E R W V A} (float_value : string → QArith_base.Q) `{PyJWT} (config : OidcProviderConfig)
    (get_method : comp (visible R W) (front_error (cli_error E)) (list (string * cli_value V) → comp (visible R W) (front_error (cli_error E)) A))
    echo environment existing prot controller method_name kwargs v t e :
  token_text (take_auth_token environment existing kwargs).1 = Some t →
  (Oidc.authenticate float_value config (_carrier t) []).1 = Raise e →
  ∃ class_name, cli_endpoint (ret (Some (cli_oidc_provider float_value config))) get_method echo environment existing prot controller
    method_name kwargs v = (Raise (Failure (CliPythonError class_name)), with_context [] v).
Proof.
  unfold cli_endpoint. destruct (take_auth_token environment existing kwargs) as [token rest]. cbn [fst]. intros Ht He.
  unfold clear_request_context, modify, bind at 1. rewrite Ht. unfold seed_cli_auth_context, bind, ret. cbn -[cli_oidc_provider].
  unfold try_except, cli_oidc_provider. rewrite He. cbn. by eexists.
Qed.

(** ** Witnesses

    The command [docs read], that is protected, with a provider that knows one token *)

Abbreviation ex_world := (visible N (list string)).
Definition ex_provider : authentication_provider (cli_error string) N (list string) := λ k _,
  if String.eqb (carrier_material k) "good" then ret ex_auth_context else raise (AuthFailure AuthenticationError).
Definition ex_echo (line : string) : comp ex_world (front_error (cli_error string)) unit :=
  modify (λ v, mk_visible (context v) (trace v) (program v ++ [line])).
Definition ex_command (kwargs : list (string * cli_value nat)) : comp ex_world (front_error (cli_error string)) nat :=
  ret (length kwargs).
Definition ex_run (environment : option string) (kwargs : list (string * cli_value nat)) :=
  cli_endpoint (ret (Some ex_provider)) (ret ex_command) ex_echo environment None true "docs.Docs" "read" kwargs ex_visible.

Example ex_commands :
  (ex_run None [("_spakky_auth_token", CliText "good"); ("page", CliOther 3)]).1 = Ok 1 ∧
  (ex_run (Some "good") [("page", CliOther 3)]).1 = Ok 1 ∧
  (let '(o, v) := ex_run (Some "bad") [] in (o, program v)) = (Raise (Failure (Exit 2)), ["INVALID_CREDENTIAL"]) ∧
  (let '(o, v) := ex_run None [] in (o, program v)) = (Raise (Failure (Exit 2)), ["MISSING_CREDENTIAL"]) ∧
  pascal_to_kebab "UserController" = "user-controller".
Proof. vm_compute. done. Qed.

Lemma variadic_command_is_rejected_witness :
  _with_auth_token_option [mk_call_parameter "rest" VAR_KEYWORD AnnotatedOtherwise None] = None.
Proof.
  apply (variadic_command_is_rejected _ (mk_call_parameter "rest" VAR_KEYWORD AnnotatedOtherwise None)).
  - left.
  - reflexivity.
  - reflexivity.
Defined.

Lemma denied_command_exits_witness :
  (try_except ((λ _, raise (AuthFailure AuthContextNotFoundError)) (@nil (string * cli_value nat)))
     (λ e, _exit (B := nat) ex_echo <$> reported e) ex_visible).1 = Raise (Failure (Exit 2)).
Proof.
  pose proof (denied_command_exits (A := nat) (V := nat) ex_echo [] (λ _, raise (AuthFailure AuthContextNotFoundError)) ex_visible
    (AuthFailure AuthContextNotFoundError) ex_visible (decision_challenge MISSING_CREDENTIAL None)
    (mk_visible [] (mk_execution None 0%N) ["MISSING_CREDENTIAL"]) eq_refl eq_refl eq_refl) as Hexit.
  exact (f_equal fst Hexit).
Defined.

#[local] Existing Instances ex_pyjwt.
Lemma refused_token_is_uncaught_witness :
  ∃ class_name, (cli_endpoint (ret (Some (cli_oidc_provider ex_float_value ex_config))) (ret ex_command) ex_echo None None true
    "docs.Docs" "read" [("_spakky_auth_token", CliText "forged")] ex_visible).1 = Raise (Failure (CliPythonError class_name)).
Proof.
  destruct (refused_token_is_uncaught (R := N) (W := list string) ex_float_value ex_config (ret ex_command) ex_echo None None true
    "docs.Docs" "read" [("_spakky_auth_token", CliText "forged")] ex_visible "forged" OidcTokenValidationError) as (c & Hc).
  - reflexivity.
  - vm_compute. reflexivity.
  - exists c. by rewrite Hc.
Defined.
