(* ===== verification/GenericTypes.v ===== *)
(** * Generic types and annotated types

    [core/spakky/.../core/common/mro.py]: the resolution order of a generic
    class with its type arguments filled in, which the container uses to know
    what a Pod implements and the SQL repositories to know what they store; and
    [common/metadata.py], the metadata of an [Annotated] type. A class is what
    the functions read of it: its own [__orig_bases__], its [__parameters__],
    its bases and its [__mro__]. *)

From S2P Require Import Prelude.

(** ** Type expressions

    [ClassType c []] is the class [c]; with arguments it is the alias
    [c[args]], whose [get_origin] is [c]. *)

Inductive type_expr :=
  | TypeVar (name : string)
  | ClassType (origin : string) (args : list type_expr).

Section type_expr_ind.
Context (P : type_expr → Prop).
Context (Hvar : ∀ v, P (TypeVar v)) (Hclass : ∀ c l, Forall P l → P (ClassType c l)).
Fixpoint type_expr_ind' (t : type_expr) : P t :=
  match t with
  | TypeVar v => Hvar v
  | ClassType c l => Hclass c l
      ((fix go l : Forall P l := match l with [] => Forall_nil_2 P | x :: l' => Forall_cons_2 P x l' (type_expr_ind' x) (go l') end) l)
  end.
End type_expr_ind.

Global Instance type_expr_eq_dec : EqDecision type_expr.
Proof.
  refine (fix go t1 t2 : Decision (t1 = t2) :=
    match t1, t2 with
    | TypeVar v, TypeVar w => cast_if (decide (v = w))
    | ClassType c l, ClassType d k =>
        cast_if_and (decide (c = d))
          ((fix gos l k : Decision (l = k) :=
            match l, k with
            | [], [] => left _
            | x :: l', y :: k' => cast_if_and (go x y) (gos l' k')
            | _, _ => right _
            end) l k)
    | _, _ => right _
    end); congruence.
Defined.

Definition get_origin (t : type_expr) : option string :=
  match t with ClassType c (_ :: _) => Some c | _ => None end.
Definition get_args (t : type_expr) : list type_expr :=
  match t with ClassType _ l => l | TypeVar _ => [] end.
(** The class an expression names *)
Definition origin_of (t : type_expr) : string :=
  match t with ClassType c _ => c | TypeVar v => v end.

Fixpoint type_tree (t : type_expr) : gen_tree string :=
  match t with
  | TypeVar v => GenNode 0 [GenLeaf v]
  | ClassType c l => GenNode 1 (GenLeaf c :: map type_tree l)
  end.
Fixpoint tree_type (t : gen_tree string) : type_expr :=
  match t with
  | GenNode 0 (GenLeaf v :: _) => TypeVar v
  | GenNode _ (GenLeaf c :: l) => ClassType c (map tree_type l)
  | _ => TypeVar ""
  end.
Global Instance type_expr_countable : Countable type_expr.
Proof.
  refine (inj_countable' type_tree tree_type _).
  intros t. induction t as [v|c l IH] using type_expr_ind'; [done|]. cbn. f_equal.
  rewrite map_map. induction IH as [|x l Hx _ IH]; [done|]. cbn. by rewrite Hx, IH.
Defined.

(** [x not in parameters: parameters.append(x)] *)
Definition append_new (ps : list string) (v : string) : list string :=
  if bool_decide (v ∈ ps) then ps else ps ++ [v].

(** The type variables of an expression, as they occur *)
Fixpoint type_vars (t : type_expr) : list string :=
  match t with
  | TypeVar v => [v]
  | ClassType _ l => flat_map type_vars l
  end.

(** [typing._collect_parameters]: in the order of the first occurrences; a bare
    class contributes none. *)
Definition _collect_parameters (l : list type_expr) : list string :=
  foldl append_new [] (flat_map type_vars l).

(** Simultaneous substitution; a variable without a value stays. *)
Fixpoint type_subst (σ : list (string * type_expr)) (t : type_expr) : type_expr :=
  match t with
  | TypeVar v => default (TypeVar v) (dict_get v σ)
  | ClassType c l => ClassType c (map (type_subst σ) l)
  end.

Record class_def := mk_class_def {
  own_orig_bases : option (list type_expr);
  class_bases : list string;
  __parameters__ : list string;
  __mro__ : list string;
}.

Inductive mro_error := GenericMROTypeError.

Definition GenericClass : string := "typing.Generic".

Section classes.
Context (classes : string → option class_def).

Definition mro_of (c : string) : list string := default [c] (__mro__ <$> classes c).

(** [getattr(cls, ORIGIN_BASES)]: a class without bases of its own that are
    aliases finds the attribute of the first class of its MRO that has one. *)
Fixpoint first_orig_bases (l : list string) : option (list type_expr) :=
  match l with
  | [] => None
  | c :: l' =>
      match classes c ≫= own_orig_bases with Some bs => Some bs | None => first_orig_bases l' end
  end.
Definition orig_bases (c : string) : option (list type_expr) := first_orig_bases (mro_of c).

Definition parameters_of (c : string) : list string := default [] (__parameters__ <$> classes c).

(** [getattr(base, PARAMETERS, ())] *)
Definition base_parameters (base : type_expr) : list string :=
  match base with
  | ClassType c [] => parameters_of c
  | _ => _collect_parameters [base]
  end.

(** [base[values]]: of a class the alias, of an alias the substitution *)
Definition subscript (base : type_expr) (values : list type_expr) : type_expr :=
  match base with
  | ClassType c [] => ClassType c values
  | _ => type_subst (zip (base_parameters base) values) base
  end.

(** The body of the loop: [base] with the arguments of the class filled in *)
Definition fill_base (substitution : list (string * type_expr)) (base : type_expr) : type_expr :=
  match base_parameters base with
  | [] => base
  | ps => subscript base ((λ p, default (TypeVar p) (dict_get p substitution)) <$> ps)
  end.

(** [get_origin(base) in result] *)
Definition origin_seen (base : type_expr) (result : gmap string type_expr) : bool :=
  match get_origin base with Some c => bool_decide (is_Some (result !! c)) | None => false end.

Fixpoint _generic_mro (fuel : nat) (tp : type_expr) (result : gmap string type_expr)
    : option (gmap string type_expr) :=
  match fuel with
  | 0 => None
  | S fuel =>
      let origin := origin_of tp in
      let result := <[origin := tp]> result in
      match orig_bases origin with
      | None => Some result
      | Some bases =>
          let substitution := zip (_collect_parameters bases) (get_args tp) in
          foldl (λ r base,
                   result ← r;
                   if origin_seen base result then Some result
                   else _generic_mro fuel (fill_base substitution base) result)
            (Some result) bases
      end
  end.

(** [isinstance(tp, type)]: [tp] names a known class *)
Definition generic_mro (fuel : nat) (tp : type_expr) : option (outcome mro_error (list type_expr)) :=
  match get_origin tp, orig_bases (origin_of tp) with
  | None, None =>
      match tp with
      | ClassType c [] =>
          match classes c with
          | Some d => Some (Ok ((λ c, ClassType c []) <$> __mro__ d))
          | None => Some (Raise GenericMROTypeError)
          end
      | _ => Some (Raise GenericMROTypeError)
      end
  | _, _ =>
      result ← _generic_mro fuel tp {[GenericClass := ClassType GenericClass []]};
      Some (Ok ((λ c, default (ClassType c []) (result !! c)) <$> mro_of (origin_of tp)))
  end.

Definition is_family_with (fuel : nat) (tp target : type_expr) : option (outcome mro_error bool) :=
  o ← generic_mro fuel tp; Some (l ← o; Ok (bool_decide (target ∈ l))).
End classes.

(** ** The metadata of [Annotated] types: [common/metadata.py]

    [Annotated t metadata] is the type with its metadata; [Plain] any other
    annotation. The type is itself the first of [get_args], and [instance] is
    [isinstance(data, cls)] for the class the method is called on. *)

Inductive annotated (D : Type) :=
  | Plain (t : D)
  | Annotated (t : D) (metadata : list D).
Arguments Plain {D}.
Arguments Annotated {D}.

Inductive metadata_error := InvalidAnnotatedTypeError | MetadataNotFoundError.

Section metadata.
Context {D : Type} (instance : D → bool).

Definition _validate_annotated (a : annotated D) : bool :=
  match a with Annotated _ _ => true | Plain _ => false end.
Definition annotated_args (a : annotated D) : list D :=
  match a with Annotated t l => t :: l | Plain _ => [] end.

Definition get_actual_type (a : annotated D) : outcome metadata_error D :=
  match a with Annotated t _ => Ok t | Plain _ => Raise InvalidAnnotatedTypeError end.
Definition metadata_all (a : annotated D) : list D :=
  if negb (_validate_annotated a) then [] else List.filter instance (annotated_args a).
Definition metadata_get (a : annotated D) : outcome metadata_error D :=
  if negb (_validate_annotated a) then Raise InvalidAnnotatedTypeError
  else match head (List.filter instance (annotated_args a)) with
       | Some d => Ok d
       | None => Raise MetadataNotFoundError
       end.
Definition metadata_get_or_none (a : annotated D) : option D :=
  if negb (_validate_annotated a) then None else head (List.filter instance (annotated_args a)).
Definition metadata_get_or_default (a : annotated D) (d : D) : D :=
  if negb (_validate_annotated a) then d
  else default d (head (List.filter instance (annotated_args a))).
Definition metadata_exists (a : annotated D) : bool :=
  if negb (_validate_annotated a) then false else existsb instance (annotated_args a).

(** The accessors agree with [all]: the first of it, or the error that tells a
    plain type from one without the metadata. *)
Theorem metadata_accessors_agree a d :
  metadata_get_or_none a = head (metadata_all a) ∧
  metadata_get_or_default a d = default d (head (metadata_all a)) ∧
  metadata_exists a = negb (bool_decide (metadata_all a = [])) ∧
  metadata_get a =
    match a, metadata_all a with
    | Plain _, _ => Raise InvalidAnnotatedTypeError
    | _, [] => Raise MetadataNotFoundError
    | _, x :: _ => Ok x
    end.
Proof.
  destruct a as [t|t l]; [done|]. unfold metadata_get_or_none, metadata_get_or_default, metadata_exists,
    metadata_get, metadata_all. cbn [_validate_annotated negb].
  generalize (annotated_args (Annotated t l)) as k. intros k.
  induction k as [|x k IH]; [done|]. cbn [List.filter existsb]. by destruct (instance x).
Qed.
End metadata.

(** ** What the resolution order of a generic type lists

    The reference: [supertype t t'] when [t'] is reached from [t] by the bases
    its classes declare, the arguments of an alias standing for the parameters
    of its class. *)

Section hierarchy.
Context (classes : string → option class_def).
Abbreviation own_bases c := (classes c ≫= own_orig_bases).
Abbreviation mro_of := (mro_of classes).
Abbreviation parameters_of := (parameters_of classes).
Abbreviation orig_bases := (orig_bases classes).
Definition bases_of (c : string) : list string := default [] (class_bases <$> classes c).

Inductive supertype : type_expr → type_expr → Prop :=
  | supertype_refl t : supertype t t
  | supertype_alias c args bs base t :
      own_bases c = Some bs → base ∈ bs →
      supertype (type_subst (zip (parameters_of c) args) base) t →
      supertype (ClassType c args) t
  | supertype_plain c args b t :
      own_bases c = None → b ∈ bases_of c →
      supertype (ClassType b []) t → supertype (ClassType c args) t.

(** What Python promises of an MRO: the class, then the MROs of its bases, each
    in its order. *)
Class MroLaws := {
  mro_head c : ∃ l, mro_of c = c :: l;
  mro_tail c d : d ∈ tail (mro_of c) → ∃ b, b ∈ bases_of c ∧ d ∈ mro_of b;
  mro_base c b : b ∈ bases_of c → mro_of b `sublist_of` tail (mro_of c);
  mro_declared c bs base :
    own_bases c = Some bs → base ∈ bs → mro_of (origin_of base) `sublist_of` tail (mro_of c);
  bases_declared c (bs : list type_expr) b : own_bases c = Some bs → b ∈ bases_of c → b ∈ origin_of <$> bs;
  base_is_class c bs base : own_bases c = Some bs → base ∈ bs → ∃ args, base = ClassType (origin_of base) args;
  generic_plain : orig_bases GenericClass = None;
}.

(** The hierarchies [generic_mro] is right for: the type variables occur in the
    bases of a class in the order of its parameters; no generic class is a base
    without arguments; only a class that declares generic bases is subscripted;
    a class that declares none inherits them from one base. *)
Class RegularHierarchy := {
  parameters_in_order c bs : own_bases c = Some bs → _collect_parameters bs = parameters_of c;
  no_bare_generic c bs d : own_bases c = Some bs → ClassType d [] ∈ bs → parameters_of d = [];
  inherited_without_arguments c bs base :
    own_bases c = Some bs → base ∈ bs →
    own_bases (origin_of base) = None → is_Some (orig_bases (origin_of base)) → get_args base = [];
  one_generic_base c b :
    own_bases c = None → b ∈ bases_of c → orig_bases b = None ∨ orig_bases b = orig_bases c;
}.

Lemma supertype_trans t1 t2 t3 : supertype t1 t2 → supertype t2 t3 → supertype t1 t3.
Proof. induction 1; intros; [done|eapply supertype_alias; eauto|eapply supertype_plain; eauto]. Qed.

(** *** Substitution *)

Lemma append_new_elem ps v w : w ∈ append_new ps v ↔ w ∈ ps ∨ w = v.
Proof. unfold append_new. case_bool_decide; set_solver. Qed.
Lemma foldl_append_new_elem l ps w : w ∈ foldl append_new ps l ↔ w ∈ ps ∨ w ∈ l.
Proof.
  revert ps. induction l as [|v l IH]; intros ps; cbn; [set_solver|].
  rewrite IH, append_new_elem. set_solver.
Qed.
Lemma collect_elem l w : w ∈ _collect_parameters l ↔ ∃ t, t ∈ l ∧ w ∈ type_vars t.
Proof.
  unfold _collect_parameters. rewrite foldl_append_new_elem, elem_of_flat_map. set_solver.
Qed.

Lemma type_subst_ext σ σ' t :
  (∀ v, v ∈ type_vars t → dict_get v σ = dict_get v σ') → type_subst σ t = type_subst σ' t.
Proof.
  induction t as [v|c l IH] using type_expr_ind'; intros Hv; cbn in *.
  - by rewrite Hv by set_solver.
  - f_equal. apply map_ext_in. intros x Hx%list_elem_of_In.
    rewrite Forall_forall in IH. apply IH; [done|]. intros v Hx'. apply Hv, elem_of_flat_map. by exists x.
Qed.
Lemma type_subst_id σ t : (∀ v, v ∈ type_vars t → default (TypeVar v) (dict_get v σ) = TypeVar v) →
  type_subst σ t = t.
Proof.
  induction t as [v|c l IH] using type_expr_ind'; intros Hv; cbn in *; [apply Hv; set_solver|].
  f_equal. rewrite <- (map_id l) at 2. apply map_ext_in. intros x Hx%list_elem_of_In.
  rewrite Forall_forall in IH. apply IH; [done|]. intros v Hx'. apply Hv.
  rewrite list_elem_of_In, in_flat_map. exists x. by rewrite <- !list_elem_of_In.
Qed.
Lemma dict_get_zip_fmap (f : string → type_expr) v ps :
  v ∈ ps → dict_get v (zip ps (f <$> ps)) = Some (f v).
Proof.
  induction ps as [|p ps IH]; [set_solver|]. intros Hv. cbn. case_decide as Hp; [by subst|].
  apply IH. set_solver.
Qed.
Lemma origin_of_subst σ t : is_Some (get_origin t) → origin_of (type_subst σ t) = origin_of t.
Proof. by destruct t as [|? []]; intros []. Qed.

(** A variable whose value is the default of a lookup *)
Lemma type_subst_defaults σ ps t :
  (∀ v, v ∈ type_vars t → v ∈ ps) →
  type_subst (zip ps ((λ p, default (TypeVar p) (dict_get p σ)) <$> ps)) t = type_subst σ t.
Proof.
  induction t as [v|c l IH] using type_expr_ind'; intros Hv; cbn in *.
  - by rewrite dict_get_zip_fmap by (apply Hv; set_solver).
  - f_equal. apply map_ext_in. intros x Hx%list_elem_of_In.
    rewrite Forall_forall in IH. apply IH; [done|]. intros v Hx'. apply Hv, elem_of_flat_map. by exists x.
Qed.

(** [base[...]] in the loop is the substitution, but for a bare generic class. *)
Lemma fill_base_subst σ base :
  (∀ d, base = ClassType d [] → parameters_of d = []) → fill_base classes σ base = type_subst σ base.
Proof.
  intros Hbare. assert ((∃ d, base = ClassType d []) ∨ ¬ ∃ d, base = ClassType d []) as [[d ->]|Hb].
  { destruct base as [|c []]; [right; by intros [? [=]]|left; eauto|right; by intros [? [=]]]. }
  { unfold fill_base. cbn. by rewrite (Hbare d). }
  assert (base_parameters classes base = _collect_parameters [base] ∧
    ∀ vs, subscript classes base vs = type_subst (zip (_collect_parameters [base]) vs) base) as [Hps Hsub].
  { destruct base as [v|c [|a l]]; [done| |done]. destruct Hb. by exists c. }
  assert (∀ v, v ∈ type_vars base → v ∈ _collect_parameters [base]) as Hv.
  { intros v Hv. apply collect_elem. exists base. by split; [left|]. }
  unfold fill_base. rewrite Hps. destruct (_collect_parameters [base]) as [|p ps] eqn:Heq.
  - symmetry. apply type_subst_id. intros v Hin. apply Hv in Hin. set_solver.
  - rewrite Hsub. by apply type_subst_defaults.
Qed.
Lemma fill_base_origin σ base : is_Some (get_origin base) ∨ (∃ d, base = ClassType d []) →
  origin_of (fill_base classes σ base) = origin_of base.
Proof.
  unfold fill_base, subscript. intros [Ho|[d ->]].
  - destruct base as [|c [|a l]]; [by destruct Ho..|].
    by destruct (base_parameters classes (ClassType c (a :: l))).
  - by destruct (base_parameters classes (ClassType d [])).
Qed.

(** *** The classes above a class *)

Context `{!MroLaws}.

Lemma mro_tail_length c : length (mro_of c) = S (length (tail (mro_of c))).
Proof. by destruct (mro_head c) as [l ->]. Qed.
Lemma base_shorter c b : b ∈ bases_of c → length (mro_of b) < length (mro_of c).
Proof. intros Hb%mro_base%sublist_length. pose proof (mro_tail_length c). lia. Qed.
Lemma declared_shorter c bs base :
  own_bases c = Some bs → base ∈ bs → length (mro_of (origin_of base)) < length (mro_of c).
Proof. intros Hc Hb. pose proof (sublist_length _ _ (mro_declared _ _ _ Hc Hb)). pose proof (mro_tail_length c). lia. Qed.
Lemma mro_cases c d : d ∈ mro_of c → d = c ∨ ∃ b, b ∈ bases_of c ∧ d ∈ mro_of b.
Proof.
  destruct (mro_head c) as [l Hl]. rewrite Hl. intros [->|Hd]%elem_of_cons; [by left|].
  right. apply mro_tail. by rewrite Hl.
Qed.

(** *** Declared and inherited bases *)

Lemma first_orig_bases_None l : first_orig_bases classes l = None → ∀ e, e ∈ l → own_bases e = None.
Proof.
  induction l as [|c l IH]; cbn; [set_solver|]. intros Hl e.
  destruct (own_bases c) eqn:Hc; [done|]. intros [->|He]%elem_of_cons; [done|by apply IH].
Qed.
Lemma first_orig_bases_Some l bs :
  first_orig_bases classes l = Some bs → ∃ e, e ∈ l ∧ own_bases e = Some bs.
Proof.
  induction l as [|c l IH]; cbn; [done|]. destruct (own_bases c) eqn:Hc.
  - intros [= <-]. exists c. by split; [left|].
  - intros (e & He & Ho)%IH. exists e. by split; [right|].
Qed.
Lemma orig_bases_own c bs : own_bases c = Some bs → orig_bases c = Some bs.
Proof. unfold GenericTypes.orig_bases. destruct (mro_head c) as [l ->]. cbn. by intros ->. Qed.
Lemma orig_bases_tail c : own_bases c = None → orig_bases c = first_orig_bases classes (tail (mro_of c)).
Proof. unfold GenericTypes.orig_bases. destruct (mro_head c) as [l ->]. cbn. by intros ->. Qed.
Lemma orig_bases_above c d bs : d ∈ mro_of c → own_bases d = Some bs → is_Some (orig_bases c).
Proof.
  intros Hd Ho. destruct (orig_bases c) eqn:Hc; [done|].
  by rewrite (first_orig_bases_None _ Hc d Hd) in Ho.
Qed.

(** Without generic bases above it, a class lists its plain ancestors. *)
Lemma plain_chain c d args :
  orig_bases c = None → d ∈ mro_of c → d = c ∨ supertype (ClassType c args) (ClassType d []).
Proof.
  remember (length (mro_of c)) as n eqn:Hn. revert c args Hn.
  induction n as [n IH] using lt_wf_ind. intros c args -> Hc Hd.
  destruct (mro_cases c d Hd) as [->|(b & Hb & Hdb)]; [by left|right].
  assert (own_bases c = None) as Ho.
  { apply (first_orig_bases_None _ Hc). destruct (mro_head c) as [l ->]. left. }
  apply (supertype_plain c args b); [done|done|].
  assert (orig_bases b = None) as Hob.
  { destruct (orig_bases b) as [bs|] eqn:Hbs; [|done].
    apply first_orig_bases_Some in Hbs as (e & He & Hbs).
    assert (e ∈ mro_of c) as He'.
    { destruct (mro_head c) as [l Hl]. rewrite Hl. right.
      pose proof (mro_base c b Hb) as Hsub. rewrite Hl in Hsub. cbn in Hsub. by eapply elem_of_submseteq; [|apply sublist_submseteq]. }
    by rewrite (first_orig_bases_None _ Hc e He') in Hbs. }
  destruct (IH _ (base_shorter c b Hb) b [] eq_refl Hob Hdb) as [->|?]; [constructor|done].
Qed.

Context `{!RegularHierarchy}.

(** The bases a class inherits are declared by a class above it, which it
    extends without arguments. *)
Lemma inherited_chain c bs :
  own_bases c = None → orig_bases c = Some bs →
  ∃ a, own_bases a = Some bs ∧ length (mro_of a) < length (mro_of c) ∧
    ∀ args, supertype (ClassType c args) (ClassType a []).
Proof.
  remember (length (mro_of c)) as n eqn:Hn. revert c Hn.
  induction n as [n IH] using lt_wf_ind. intros c -> Ho Hc.
  rewrite (orig_bases_tail c Ho) in Hc. destruct (first_orig_bases_Some _ _ Hc) as (e & He & Hbs).
  destruct (mro_tail c e He) as (b & Hb & Heb).
  rewrite <- (orig_bases_tail c Ho) in Hc.
  pose proof (base_shorter c b Hb) as Hlt.
  destruct (orig_bases_above b e bs Heb Hbs) as [bs' Hbb].
  destruct (one_generic_base c b Ho Hb) as [?|Heq]; [congruence|].
  destruct (own_bases b) as [bs2|] eqn:Hob.
  - rewrite (orig_bases_own b bs2 Hob) in Heq. exists b. split_and!; [congruence|done|].
    intros args. apply (supertype_plain c args b); [done|done|constructor].
  - destruct (IH _ Hlt b eq_refl Hob ltac:(congruence)) as (a & Ha & Hlen & Hsup).
    exists a. split_and!; [done|lia|]. intros args. by apply (supertype_plain c args b).
Qed.

(** *** What a visit leaves in the dictionary *)

Abbreviation seen R c := (is_Some ((R : gmap string type_expr) !! c)).
Definition closed (R : gmap string type_expr) (c : string) : Prop :=
  ∀ bs base, orig_bases c = Some bs → base ∈ bs → seen R (origin_of base).

(** Every class above a visited one is listed, or has no arguments to find. *)
Lemma covered root R c args d :
  (∀ b, seen R b → closed R b) → supertype root (ClassType c args) → closed R c → d ∈ mro_of c →
  d = c ∨ seen R d ∨ supertype root (ClassType d []).
Proof.
  intros HR. remember (length (mro_of c)) as n eqn:Hn. revert c args Hn.
  induction n as [n IH] using lt_wf_ind. intros c args -> Hsup Hcl Hd.
  destruct (mro_cases c d Hd) as [->|(b & Hb & Hdb)]; [by left|right].
  destruct (own_bases c) as [bs|] eqn:Ho.
  - pose proof (bases_declared c bs b Ho Hb) as (base & -> & Hbase)%list_elem_of_fmap.
    destruct (base_is_class c bs base Ho Hbase) as [bargs Hbargs].
    pose proof (Hcl bs base (orig_bases_own c bs Ho) Hbase) as Hseen.
    destruct (IH _ (declared_shorter c bs base Ho Hbase) (origin_of base)
      (map (type_subst (zip (parameters_of c) args)) bargs) eq_refl) as [->|?]; [|by apply HR|done|by left|done].
    eapply supertype_trans; [exact Hsup|]. apply (supertype_alias c args bs base _ Ho Hbase).
    rewrite Hbargs at 1. constructor.
  - assert (supertype root (ClassType b [])) as Hsb.
    { eapply supertype_trans; [exact Hsup|]. apply (supertype_plain c args b); [done|done|constructor]. }
    destruct (one_generic_base c b Ho Hb) as [Hnone|Heq].
    + right. destruct (plain_chain b d [] Hnone Hdb) as [->|?]; [done|by eapply supertype_trans].
    + destruct (IH _ (base_shorter c b Hb) b [] eq_refl Hsb) as [->|?]; [|done|by right|done].
      intros bs base Hbs. apply Hcl. congruence.
Qed.

Lemma foldl_option_inv {A B} (step : A → B → option B) (P : list A → B → Prop) bs r0 r' :
  foldl (λ r a, r ← r; step a r) (Some r0) bs = Some r' →
  P [] r0 → (∀ l a r r1, l ++ [a] `prefix_of` bs → P l r → step a r = Some r1 → P (l ++ [a]) r1) → P bs r'.
Proof.
  revert r'. induction bs as [|a bs IH] using rev_ind; intros r'; cbn.
  - by intros [= <-].
  - rewrite foldl_app. cbn. destruct (foldl _ (Some r0) bs) as [r|] eqn:Hr; [|done]. cbn.
    intros Hs Hinit HP. apply (HP bs a r r'); [done| |done]. apply IH; [done..|].
    intros l x r2 r3 Hpre. apply HP. by apply prefix_app_r.
Qed.

Definition well_formed (tp : type_expr) : Prop :=
  own_bases (origin_of tp) = None → is_Some (orig_bases (origin_of tp)) → get_args tp = [].

(** A base with the arguments of its class filled in is a declared supertype. *)
Lemma filled_base c args bs base :
  well_formed (ClassType c args) → orig_bases c = Some bs → base ∈ bs →
  let filled := fill_base classes (zip (_collect_parameters bs) args) base in
  (∃ bargs, filled = ClassType (origin_of base) bargs) ∧ well_formed filled ∧
  supertype (ClassType c args) filled.
Proof.
  intros Hwf Hc Hbase. cbn.
  assert (∃ a aargs, own_bases a = Some bs ∧ supertype (ClassType c args) (ClassType a aargs) ∧
    zip (_collect_parameters bs) args = zip (parameters_of a) aargs) as (a & aargs & Ha & Hsup & Hzip).
  { destruct (own_bases c) as [bs'|] eqn:Ho.
    - rewrite (orig_bases_own c bs' Ho) in Hc. injection Hc as ->.
      exists c, args. split_and!; [done|constructor|]. by rewrite (parameters_in_order c bs Ho).
    - destruct (inherited_chain c bs Ho Hc) as (a & Ha & _ & Hsup). exists a, [].
      split_and!; [done..|]. assert (args = []) as -> by (apply Hwf; [done|]; cbn; by rewrite Hc).
      by rewrite !zip_with_nil_r. }
  rewrite Hzip, fill_base_subst by (intros d ->; by apply (no_bare_generic a bs d)).
  destruct (base_is_class a bs base Ha Hbase) as [bargs Hb].
  split_and!.
  - exists (map (type_subst (zip (parameters_of a) aargs)) bargs). by rewrite Hb at 1.
  - unfold well_formed. rewrite Hb. cbn. intros Hob Hib.
    pose proof (inherited_without_arguments a bs base Ha Hbase Hob Hib) as Hnil.
    rewrite Hb in Hnil. cbn in Hnil. by rewrite Hnil.
  - eapply supertype_trans; [exact Hsup|]. apply (supertype_alias a aargs bs base _ Ha Hbase). constructor.
Qed.

Definition listed (root : type_expr) (d : string) (t : type_expr) : Prop :=
  origin_of t = d ∧ (d ≠ GenericClass → supertype root t).

Lemma visit_spec fuel root c args r r' :
  _generic_mro classes fuel (ClassType c args) r = Some r' →
  well_formed (ClassType c args) → supertype root (ClassType c args) →
  (∀ d, seen r d → seen r' d) ∧ seen r' c ∧ (∀ d, seen r' d → seen r d ∨ closed r' d) ∧
  (map_Forall (listed root) r → map_Forall (listed root) r').
Proof.
  revert c args r r'. induction fuel as [|fuel IH]; intros c args r r'; [done|].
  cbn [_generic_mro origin_of get_args]. intros Hr Hwf Hsup.
  assert (∀ d, seen (<[c := ClassType c args]> r) d ↔ d = c ∨ seen r d) as Hins.
  { intros d. destruct (decide (d = c)) as [->|]; [rewrite lookup_insert_eq; split; [by left|by eexists]|].
    rewrite lookup_insert_ne by done. split; [by right|by intros [?|?]]. }
  assert (map_Forall (listed root) r → map_Forall (listed root) (<[c := ClassType c args]> r)) as Hl.
  { intros Hl. by apply map_Forall_insert_2. }
  destruct (orig_bases c) as [bs|] eqn:Hc.
  2: { injection Hr as <-. split_and!; [|apply Hins; by left| |done].
    - intros d Hd. apply Hins. by right.
    - intros d [->|Hd]%Hins; [|by left]. right. intros bs base. by rewrite Hc. }
  pose (P := λ (l : list type_expr) (r1 : gmap string type_expr),
    (∀ d, seen r d → seen r1 d) ∧ seen r1 c ∧ (∀ base, base ∈ l → seen r1 (origin_of base)) ∧
    (∀ d, seen r1 d → d = c ∨ seen r d ∨ closed r1 d) ∧
    (map_Forall (listed root) r → map_Forall (listed root) r1)).
  assert (P bs r') as (H1 & H2 & H3 & H4 & H5).
  { refine (foldl_option_inv
      (λ base result, if origin_seen base result then Some result
         else _generic_mro classes fuel (fill_base classes (zip (_collect_parameters bs) args) base) result)
      P bs _ r' Hr _ _).
    - split_and!; [|apply Hins; by left|set_solver| |done].
      + intros d Hd. apply Hins. by right.
      + intros d [->|Hd]%Hins; [by left|right; by left].
    - intros l base r1 r2 Hpre (Hs & Hseen & Hdone & Hclosed & Hlist) Hstep.
      assert (base ∈ bs) as Hbase.
      { destruct Hpre as [k ->]. set_solver. }
      destruct (filled_base c args bs base Hwf Hc Hbase) as ([bargs Hfill] & Hwf' & Hsup').
      destruct (origin_seen base r1) eqn:Hos.
      { injection Hstep as <-. split_and!; [done..| |done|done].
        intros x [Hx|Hx%list_elem_of_singleton]%elem_of_app; [by apply Hdone|subst x].
        destruct base as [|? []]; try done. cbn in Hos. by apply bool_decide_eq_true in Hos. }
      rewrite Hfill in *.
      destruct (IH _ _ _ _ Hstep Hwf') as (K1 & K2 & K3 & K4); [by eapply supertype_trans|].
      split_and!; [eauto|by apply K1| | |by auto].
      + intros x [Hx|Hx%list_elem_of_singleton]%elem_of_app; [by apply K1, Hdone|by subst x].
      + intros d [Hd|Hd]%K3; [|by right; right].
        destruct (Hclosed d Hd) as [?|[?|Hcl]]; [by left|right; by left|right; right].
        intros bs' b' Hb1 Hb2. eapply K1, Hcl; eauto. }
  split_and!; [done|done| |done].
  intros d Hd. destruct (H4 d Hd) as [->|[?|?]]; [right|by left|by right].
  intros bs' base Hbs' Hbase. rewrite Hc in Hbs'. injection Hbs' as <-. by apply H3.
Qed.

(** *** Termination *)

Lemma foldl_option_total {A B} (step : A → B → option B) bs r0 :
  (∀ a r, a ∈ bs → is_Some (step a r)) → is_Some (foldl (λ r a, r ← r; step a r) (Some r0) bs).
Proof.
  revert r0. induction bs as [|a bs IH]; intros r0 Hs; cbn; [by eexists|].
  destruct (Hs a r0) as [r ->]; [left|]. apply IH. intros b r1 Hb. apply Hs. by right.
Qed.
Lemma inherited_shorter c bs base :
  orig_bases c = Some bs → base ∈ bs → length (mro_of (origin_of base)) < length (mro_of c).
Proof.
  intros Hc Hb. destruct (own_bases c) as [bs'|] eqn:Ho.
  - rewrite (orig_bases_own c bs' Ho) in Hc. injection Hc as ->. by eapply declared_shorter.
  - destruct (inherited_chain c bs Ho Hc) as (a & Ha & Hlt & _).
    pose proof (declared_shorter a bs base Ha Hb). lia.
Qed.
Lemma visit_ends fuel c args r :
  length (mro_of c) < fuel → well_formed (ClassType c args) →
  is_Some (_generic_mro classes fuel (ClassType c args) r).
Proof.
  revert c args r. induction fuel as [|fuel IH]; intros c args r Hf Hwf; [lia|].
  cbn [_generic_mro origin_of get_args]. destruct (orig_bases c) as [bs|] eqn:Hc; [|by eexists].
  refine (foldl_option_total
    (λ base result, if origin_seen base result then Some result
       else _generic_mro classes fuel (fill_base classes (zip (_collect_parameters bs) args) base) result) _ _ _).
  intros base r1 Hbase. destruct (origin_seen base r1); [by eexists|].
  destruct (filled_base c args bs base Hwf Hc Hbase) as ([bargs Hfill] & Hwf' & _).
  rewrite Hfill in *. apply IH; [|done]. pose proof (inherited_shorter c bs base Hc Hbase). lia.
Qed.

Lemma generic_mro_listed fuel c args :
  is_Some (classes c) → well_formed (ClassType c args) → (args ≠ [] → is_Some (orig_bases c)) →
  length (mro_of c) < fuel →
  ∃ l, generic_mro classes fuel (ClassType c args) = Some (Ok l) ∧
    Forall2 (λ d t, origin_of t = d ∧ (d ≠ GenericClass → supertype (ClassType c args) t)) (mro_of c) l.
Proof.
  intros [def Hdef] Hwf Hargs Hf. unfold generic_mro. cbn [origin_of].
  destruct (orig_bases c) as [bs|] eqn:Hc.
  - destruct (visit_ends fuel c args {[GenericClass := ClassType GenericClass []]} Hf Hwf) as [r' Hr].
    destruct (visit_spec fuel (ClassType c args) c args _ r' Hr Hwf (supertype_refl _)) as (_ & Hseen & Hclosed & Hl).
    exists ((λ d, default (ClassType d []) (r' !! d)) <$> mro_of c). split.
    { destruct (get_origin (ClassType c args)); by rewrite Hr. }
    assert (∀ b, seen r' b → closed r' b) as Hall.
    { intros b [Hb|?]%Hclosed; [|done]. intros bs' base Hbs.
      destruct (decide (b = GenericClass)) as [->|Hne]; [by rewrite generic_plain in Hbs|].
      rewrite lookup_singleton_ne in Hb by done. by destruct Hb. }
    apply Forall2_fmap_r, Forall_Forall2_diag, Forall_forall. intros d Hd.
    unfold compose. destruct (r' !! d) as [t|] eqn:Hrd; cbn.
    + apply (Hl ltac:(apply map_Forall_singleton; by split) d t Hrd).
    + split; [done|]. intros _.
      destruct (covered (ClassType c args) r' c args d Hall (supertype_refl _) (Hall c Hseen) Hd)
        as [->|[[? ?]|?]]; [|congruence|done]. rewrite Hrd in Hseen. by destruct Hseen.
  - assert (args = []) as ->.
    { destruct args; [done|]. by destruct (Hargs ltac:(done)). }
    cbn. rewrite Hdef. eexists. split; [done|].
    assert (mro_of c = __mro__ def) as Hm by (unfold GenericTypes.mro_of; by rewrite Hdef).
    rewrite <- Hm. apply Forall2_fmap_r, Forall_Forall2_diag, Forall_forall. intros d Hd.
    split; [done|]. intros _.
    destruct (plain_chain c d [] Hc Hd) as [->|?]; [constructor|done].
Qed.

(** In a regular hierarchy [generic_mro] ends, and lists every class of the
    resolution order as a supertype of the given type: with the arguments the
    declared bases give it. (Fuel beyond the length of the MRO changes nothing;
    the entry for [Generic] itself is never an alias.) *)
Theorem generic_mro_lists_supertypes fuel c args :
  is_Some (classes c) → well_formed (ClassType c args) → (args ≠ [] → is_Some (orig_bases c)) →
  length (mro_of c) < fuel →
  ∃ l, generic_mro classes fuel (ClassType c args) = Some (Ok l) ∧
    Forall2 (λ d t, origin_of t = d ∧ (d ≠ GenericClass → supertype (ClassType c args) t)) (mro_of c) l.
Proof. apply generic_mro_listed. Qed.
End hierarchy.

(** ** Examples *)

(** [IGenericRepository[E, K](ABC)], [AbstractGenericRepository[E, K](IGenericRepository[E, K], ABC)] as the repositories
    of the framework; [UserRepository(AbstractGenericRepository[User, int])] and [SpecialRepository(UserRepository)];
    [KeyedRepository[K, E](IGenericRepository[E, K])], whose parameters change order; a
    generic [Mixin[T]], [Named(Mixin[str])] and [Both(Named, UserRepository)]. *)
Definition ty (c : string) : type_expr := ClassType c [].
Definition ex_class_list : list (string * class_def) :=
  let generic l := ClassType GenericClass (TypeVar <$> l) in
  let IGenericRepository e k := ClassType "IGenericRepository" [e; k] in
  let AbstractGenericRepository e k := ClassType "AbstractGenericRepository" [e; k] in
  [("object", mk_class_def None [] [] ["object"]);
   ("ABC", mk_class_def None ["object"] [] ["ABC"; "object"]);
   (GenericClass, mk_class_def None ["object"] [] [GenericClass; "object"]);
   ("IGenericRepository", mk_class_def (Some [ty "ABC"; generic ["E"; "K"]]) ["ABC"; GenericClass] ["E"; "K"]
      ["IGenericRepository"; "ABC"; GenericClass; "object"]);
   ("AbstractGenericRepository", mk_class_def (Some [IGenericRepository (TypeVar "E") (TypeVar "K"); ty "ABC"; generic ["E"; "K"]])
      ["IGenericRepository"; "ABC"; GenericClass] ["E"; "K"] ["AbstractGenericRepository"; "IGenericRepository"; "ABC"; GenericClass; "object"]);
   ("UserRepository", mk_class_def (Some [AbstractGenericRepository (ty "User") (ty "int")]) ["AbstractGenericRepository"] []
      ["UserRepository"; "AbstractGenericRepository"; "IGenericRepository"; "ABC"; GenericClass; "object"]);
   ("SpecialRepository", mk_class_def None ["UserRepository"] []
      ["SpecialRepository"; "UserRepository"; "AbstractGenericRepository"; "IGenericRepository"; "ABC"; GenericClass; "object"])].
Definition ex_classes : string → option class_def := λ c, dict_get c ex_class_list.
Definition ex_more_list : list (string * class_def) := ex_class_list ++
  [("KeyedRepository", mk_class_def
      (Some [ClassType "IGenericRepository" [TypeVar "E"; TypeVar "K"]; ClassType GenericClass [TypeVar "K"; TypeVar "E"]])
      ["IGenericRepository"; GenericClass] ["K"; "E"] ["KeyedRepository"; "IGenericRepository"; "ABC"; GenericClass; "object"]);
   ("Mixin", mk_class_def (Some [ClassType GenericClass [TypeVar "T"]]) [GenericClass] ["T"]
      ["Mixin"; GenericClass; "object"]);
   ("Named", mk_class_def (Some [ClassType "Mixin" [ty "str"]]) ["Mixin"] []
      ["Named"; "Mixin"; GenericClass; "object"]);
   ("Both", mk_class_def None ["Named"; "UserRepository"] []
      ["Both"; "Named"; "Mixin"; "UserRepository"; "AbstractGenericRepository"; "IGenericRepository"; "ABC"; GenericClass; "object"])].
Definition ex_more : string → option class_def := λ c, dict_get c ex_more_list.

Example ex_special_repository :
  generic_mro ex_classes 9 (ty "SpecialRepository") = Some (Ok
    [ty "SpecialRepository"; ty "UserRepository"; ClassType "AbstractGenericRepository" [ty "User"; ty "int"];
     ClassType "IGenericRepository" [ty "User"; ty "int"]; ty "ABC"; ty GenericClass; ty "object"]).
Proof. reflexivity. Qed.

(** The arguments go to the parameters in the order the bases mention them, not
    in the order of the class: [KeyedRepository[int, User]] is an [IGenericRepository[User, int]]
    and is listed as an [IGenericRepository[int, User]]. *)
Example parameters_are_swapped :
  generic_mro ex_more 9 (ClassType "KeyedRepository" [ty "int"; ty "User"]) = Some (Ok
    [ClassType "KeyedRepository" [ty "int"; ty "User"]; ClassType "IGenericRepository" [ty "int"; ty "User"];
     ty "ABC"; ty GenericClass; ty "object"]) ∧
  supertype ex_more (ClassType "KeyedRepository" [ty "int"; ty "User"]) (ClassType "IGenericRepository" [ty "User"; ty "int"]).
Proof.
  split; [reflexivity|]. eapply supertype_alias; [reflexivity|left|]. constructor.
Qed.

(** A class without generic bases of its own inherits those of one base only:
    [Both(Named, UserRepository)] is not seen to be a repository of users. *)
Example second_base_is_lost :
  generic_mro ex_more 9 (ty "Both") = Some (Ok
    [ty "Both"; ty "Named"; ClassType "Mixin" [ty "str"]; ty "UserRepository"; ty "AbstractGenericRepository"; ty "IGenericRepository";
     ty "ABC"; ty GenericClass; ty "object"]) ∧
  is_family_with ex_more 9 (ty "UserRepository") (ClassType "IGenericRepository" [ty "User"; ty "int"]) = Some (Ok true) ∧
  is_family_with ex_more 9 (ty "Both") (ClassType "IGenericRepository" [ty "User"; ty "int"]) = Some (Ok false).
Proof. repeat split. Qed.

Lemma ex_class_cases c def : ex_classes c = Some def → (c, def) ∈ ex_class_list.
Proof. apply dict_get_elem_of. Qed.
(** Case analysis over the classes of the example, then over the members of a
    concrete list *)
Ltac ex_class c :=
  let H := fresh "Hclass" in let Hin := fresh in let def := fresh "def" in
  destruct (ex_classes c) as [def|] eqn:H;
  [pose proof (ex_class_cases _ _ H) as Hin;
   repeat (apply elem_of_cons in Hin as [Hin|Hin]; [injection Hin as -> ->|]);
   [..|by apply elem_of_nil in Hin]|].
Ltac each_member H :=
  vm_compute in H;
  repeat (apply elem_of_cons in H as [H|H]; [subst|]); [..|by apply elem_of_nil in H].
Ltac bases_member Ho H :=
  vm_compute in Ho; first [discriminate Ho | injection Ho as <-; each_member H].

Global Instance ex_mro_laws : MroLaws ex_classes.
Proof.
  assert (∀ c, ex_classes c = None → mro_of ex_classes c = [c]) as Hnone.
  { intros c Hc. unfold mro_of. by rewrite Hc. }
  split.
  - intros c. ex_class c; [by eexists..|]. exists []. by apply Hnone.
  - intros c d Hd. ex_class c; [..|rewrite Hnone in Hd by done; by apply elem_of_nil in Hd].
    all: apply (Exists_exists (λ b, d ∈ mro_of ex_classes b)); each_member Hd;
      by apply (bool_decide_unpack _).
  - intros c b Hb. ex_class c; [..|unfold bases_of in Hb; first [rewrite Hclass in Hb|idtac]; by apply elem_of_nil in Hb].
    all: each_member Hb; vm_compute; repeat constructor.
  - intros c bs base Ho Hb. ex_class c; [..|first [discriminate Ho|by rewrite Hclass in Ho]].
    all: bases_member Ho Hb; vm_compute; repeat constructor.
  - intros c bs b Ho Hb. ex_class c; [..|first [discriminate Ho|by rewrite Hclass in Ho]].
    all: vm_compute in Ho; first [discriminate Ho | injection Ho as <-];
      each_member Hb; by apply (bool_decide_unpack _).
  - intros c bs base Ho Hb. ex_class c; [..|first [discriminate Ho|by rewrite Hclass in Ho]].
    all: bases_member Ho Hb; by eexists.
  - reflexivity.
Qed.

Global Instance ex_regular : RegularHierarchy ex_classes.
Proof.
  split.
  - intros c bs Ho. ex_class c; [..|first [discriminate Ho|by rewrite Hclass in Ho]].
    all: vm_compute in Ho; first [discriminate Ho | by injection Ho as <-].
  - intros c bs d Ho Hb. ex_class c; [..|first [discriminate Ho|by rewrite Hclass in Ho]].
    all: vm_compute in Ho; first [discriminate Ho | injection Ho as <-];
      vm_compute in Hb; repeat (apply elem_of_cons in Hb as [Hb|Hb]; [first [discriminate Hb | by injection Hb as ->]|]);
      by apply elem_of_nil in Hb.
  - intros c bs base Ho Hb. ex_class c; [..|first [discriminate Ho|by rewrite Hclass in Ho]].
    all: bases_member Ho Hb; first [done | by intros _ [? [=]] | by intros [=]].
  - intros c b Ho Hb. ex_class c; [..|unfold bases_of in Hb; first [rewrite Hclass in Hb|idtac]; by apply elem_of_nil in Hb].
    all: first [discriminate Ho | each_member Hb; by (left + right)].
Qed.

Lemma generic_mro_lists_supertypes_witness :
  ∃ l, generic_mro ex_classes 9 (ty "SpecialRepository") = Some (Ok l) ∧
    Forall2 (λ d t, origin_of t = d ∧ (d ≠ GenericClass → supertype ex_classes (ty "SpecialRepository") t))
      (mro_of ex_classes "SpecialRepository") l.
Proof.
  apply (generic_mro_lists_supertypes ex_classes 9 "SpecialRepository" []).
  - by eexists.
  - done.
  - done.
  - apply (bool_decide_unpack _). by vm_compute.
Defined.
