(* ===== verification/Repository.v ===== *)
(** * SQL repositories

    [plugins/spakky-sqlalchemy]: the annotation of tables ([orm/table.py]), the
    registry that maps the classes of aggregates to tables
    ([orm/schema_registry.py]), the session manager
    ([persistency/session_manager.py]) and the generic repository
    ([persistency/repository.py]); the port is [IGenericRepository] of
    [spakky-data]. SQLAlchemy's session is a record of operations, and the class
    [SessionLaws] is what its documentation promises of them. The asynchronous
    repository has the same statements with [await]. *)

From S2P Require Import Prelude GenericTypes Domain Data.

(** ** Data

    A domain object is what its class and its attributes are; [py] is the value
    of an identifier, a scalar or the tuple of a composite key. *)

Record domain_object := mk_object { object_class : string; object_attrs : attributes }.
Record aggregate_root := mk_aggregate { reference : aggregate_ref; value_of : domain_object }.

Inductive py := Scalar (v : attr_value) | Tuple (l : list attr_value).

Global Instance domain_object_eq_dec : EqDecision domain_object.
Proof. solve_decision. Defined.
Global Instance py_eq_dec : EqDecision py.
Proof. solve_decision. Defined.

Definition attribute (k : string) (o : domain_object) : attr_value := default VNone (object_attrs o !! k).

(** An instance of a table class: its class and its columns *)
Record Row := mk_row { row_table : string; columns : gmap string attr_value }.

Global Instance row_eq_dec : EqDecision Row.
Proof. solve_decision. Defined.

(** SQL conditions, as the expressions SQLAlchemy builds *)
Inductive ColumnElement :=
  | ColumnEq (column : string) (v : attr_value)
  | And_ (l : list (string * attr_value))
  | ColumnIn (column : string) (l : list attr_value)
  | TupleIn (columns : list string) (l : list py).

Inductive repository_error (X : Type) :=
  | CannotDetermineAggregateTypeError (cls : string)
  | SessionNotInitializedError
  | NoSchemaFoundFromDomainError (cls : string)
  | EntityNotFoundError (id : py)
  | VersionConflictError (uid version : attr_value)
  (** SQLAlchemy's *)
  | StaleDataError
  | NoResultFound
  | MultipleResultsFound
  | InvalidRequestError
  | TypeError
  | IndexError
  | UserError (x : X).
Arguments CannotDetermineAggregateTypeError {X}.
Arguments SessionNotInitializedError {X}.
Arguments NoSchemaFoundFromDomainError {X}.
Arguments EntityNotFoundError {X}.
Arguments VersionConflictError {X}.
Arguments StaleDataError {X}.
Arguments NoResultFound {X}.
Arguments MultipleResultsFound {X}.
Arguments InvalidRequestError {X}.
Arguments TypeError {X}.
Arguments IndexError {X}.
Arguments UserError {X}.

(** ** The annotation of a table *)

Inductive table_error := CannotUseTableAnnotationError | TargetDomainNotSpecifiedError.

(** [domain]: [Unset] is the sentinel of the class *)
Inductive target_domain := Unset | NoDomain | Target (t : type_expr).
Record Table := mk_table { table_domain : target_domain; table_class : string }.

Section annotation.
Context (classes : string → option class_def) (fuel : nat).

Definition subclass_of (c d : string) : bool := bool_decide (d ∈ mro_of classes c).

(** [next((type_ for type_ in generic_mro(cls) if get_origin(type_) is base), None)] *)
Definition parameterized_base (cls base : string) : option (outcome mro_error (option type_expr)) :=
  o ← generic_mro classes fuel (ClassType cls []);
  Some (l ← o; Ok (head (List.filter (λ t, bool_decide (get_origin t = Some base)) l))).

(** [Table(domain)(obj)], before the registration of the tag *)
Definition table_annotation (domain : target_domain) (obj : string) : option (outcome table_error Table) :=
  if negb (subclass_of obj "AbstractTable") then Some (Raise CannotUseTableAnnotationError)
  else if subclass_of obj "AbstractMappableTable" then
    match domain with
    | Unset =>
        o ← parameterized_base obj "AbstractMappableTable";
        Some match o with
             | Ok (Some t) =>
                 match head (get_args t) with
                 | Some d => Ok (mk_table (Target d) obj)
                 | None => Raise TargetDomainNotSpecifiedError
                 end
             | _ => Raise TargetDomainNotSpecifiedError
             end
    | _ => Some (Ok (mk_table domain obj))
    end
  else Some (Ok (mk_table NoDomain obj)).

(** [__init__] of a repository: the class it stores *)
Definition resolve_aggregate_type {X} (cls : string) : option (outcome (repository_error X) type_expr) :=
  o ← parameterized_base cls "AbstractGenericRepository";
  Some match o with
       | Ok (Some t) =>
           match head (get_args t) with
           | Some a => Ok a
           | None => Raise (CannotDetermineAggregateTypeError cls)
           end
       | _ => Raise (CannotDetermineAggregateTypeError cls)
       end.
End annotation.

(** ** The registry of schemas *)

Record SchemaRegistry := mk_registry {
  _metadata : list string;
  _domain_to_table_map : gmap type_expr string;
  _table_to_domain_map : gmap string type_expr;
}.

Definition new_registry : SchemaRegistry := mk_registry [] ∅ ∅.

(** One tag of the loop; [mappable] is [issubclass(tag.table, AbstractMappableTable)]
    and [to_metadata] adds a table once. *)
Definition register_tag (mappable : string → bool) (r : SchemaRegistry) (tag : Table) : SchemaRegistry :=
  let metadata := if bool_decide (table_class tag ∈ _metadata r) then _metadata r
                  else _metadata r ++ [table_class tag] in
  match table_domain tag with
  | Target d =>
      if negb (mappable (table_class tag)) then mk_registry metadata (_domain_to_table_map r) (_table_to_domain_map r)
      else mk_registry metadata (<[d := table_class tag]> (_domain_to_table_map r))
             (<[table_class tag := d]> (_table_to_domain_map r))
  | _ => mk_registry metadata (_domain_to_table_map r) (_table_to_domain_map r)
  end.
Definition _register_table (mappable : string → bool) (tags : list Table) (r : SchemaRegistry) : SchemaRegistry :=
  foldl (register_tag mappable) r tags.

(** What a table class adds: the columns of its primary key and its mapping *)
Record table_mapping (X : Type) := mk_mapping {
  primary_key : string → list string;
  from_domain : string → domain_object → outcome X Row;
  to_domain : Row → outcome X domain_object;
}.
Arguments mk_mapping {X}.
Arguments primary_key {X}.
Arguments from_domain {X}.
Arguments to_domain {X}.

Section registry.
Context {X : Type} (mapping : table_mapping X).

Definition get_type (r : SchemaRegistry) (t : type_expr) : outcome (repository_error X) string :=
  match _domain_to_table_map r !! t with
  | Some table => Ok table
  | None => Raise (NoSchemaFoundFromDomainError (origin_of t))
  end.
Definition registry_from_domain (r : SchemaRegistry) (o : domain_object) : outcome (repository_error X) Row :=
  match _domain_to_table_map r !! ClassType (object_class o) [] with
  | Some table => map_error UserError (from_domain mapping table o)
  | None => Raise (NoSchemaFoundFromDomainError (object_class o))
  end.
End registry.

(** ** The session

    [merge] answers with the persistent instance of the same identity, the class
    and the primary key; [instance_of] is what its attributes hold. *)

Abbreviation identity := (string * list attr_value)%type.

Record Session (S X : Type) := mk_session {
  session_merge : Row → comp S (repository_error X) identity;
  session_delete : identity → comp S (repository_error X) unit;
  session_flush : comp S (repository_error X) unit;
  (** [execute(select(table).where(condition)).scalars()] *)
  session_select : string → ColumnElement → comp S (repository_error X) (list Row);
  instance_of : identity → S → Row;
  (** [Result.scalar_one], [Result.scalar_one_or_none] *)
  scalar_one : ∀ A, list A → outcome (repository_error X) A;
  scalar_one_or_none : ∀ A, list A → outcome (repository_error X) (option A);
}.
Arguments mk_session {S X}.
Arguments session_merge {S X}.
Arguments session_delete {S X}.
Arguments session_flush {S X}.
Arguments session_select {S X}.
Arguments instance_of {S X}.
Arguments scalar_one {S X} _ {A}.
Arguments scalar_one_or_none {S X} _ {A}.

(** What the methods of a repository change: the session, present while it is
    open, and the collector *)
Record repository_state (S : Type) := mk_repository_state {
  _current_session : option S;
  _aggregate_collector : AggregateCollector;
}.
Arguments mk_repository_state {S}.
Arguments _current_session {S}.
Arguments _aggregate_collector {S}.

Section repository.
Context {S X : Type} (db : Session S X) (mapping : table_mapping X).
Context (_schema_registry : SchemaRegistry) (_aggregate_type : type_expr).

Abbreviation action := (comp (repository_state S) (repository_error X)).

(** *** [SessionManager] *)

(** A call of the property [session] and of a method of what it returns *)
Definition session {A} (m : comp S (repository_error X) A) : action A :=
  λ st, match _current_session st with
        | None => (Raise SessionNotInitializedError, st)
        | Some s => let '(o, s') := m s in (o, mk_repository_state (Some s') (_aggregate_collector st))
        end.
Definition open (scoped_session : S) : action unit :=
  modify (λ st, mk_repository_state (Some scoped_session) (_aggregate_collector st)).
(** The closed session leaves its scope. *)
Definition close : action unit :=
  modify (λ st, mk_repository_state None (_aggregate_collector st)).

Definition collect_aggregate (a : aggregate_root) : action unit :=
  modify (λ st, mk_repository_state (_current_session st) (collect (reference a) (_aggregate_collector st))).

(** *** Conditions *)

(** Iterating over an identifier: a string gives its characters. *)
Definition items (id : py) : outcome (repository_error X) (list attr_value) :=
  match id with
  | Tuple l => Ok l
  | Scalar (VStr s) => Ok ((λ c, VStr (String.String c "")) <$> String.list_ascii_of_string s)
  | Scalar _ => Raise TypeError
  end.
Definition scalar (id : py) : attr_value := match id with Scalar v => v | Tuple _ => VNone end.

Definition _build_pk_condition (pk_columns : list string) (aggregate_id : py)
    : outcome (repository_error X) ColumnElement :=
  match pk_columns with
  | [c] => Ok (ColumnEq c (scalar aggregate_id))
  | _ => vs ← items aggregate_id; Ok (And_ (zip pk_columns vs))
  end.
Definition _build_pk_in_condition (pk_columns : list string) (aggregate_ids : list py) : ColumnElement :=
  match pk_columns with
  | [c] => ColumnIn c (scalar <$> aggregate_ids)
  | _ => TupleIn pk_columns aggregate_ids
  end.

Definition _get_table_type : outcome (repository_error X) string := get_type _schema_registry _aggregate_type.
Definition _table_from_domain (a : aggregate_root) : outcome (repository_error X) Row :=
  registry_from_domain mapping _schema_registry (value_of a).
Definition domain_of (r : Row) : action domain_object := lift (map_error UserError (to_domain mapping r)).

(** *** Queries *)

(** The property is read before the condition is built. *)
Definition select_where (table : string) (condition : outcome (repository_error X) ColumnElement)
    : action (list Row) :=
  session (ret tt) ;;; c <- lift condition ;; session (session_select db table c).

Definition get (aggregate_id : py) : action domain_object :=
  try_except
    (table <- lift _get_table_type ;;
     let pk_columns := primary_key mapping table in
     rows <- select_where table (_build_pk_condition pk_columns aggregate_id) ;;
     result <- lift (scalar_one db rows) ;;
     domain_of result)
    (λ e, match e with NoResultFound => Some (raise (EntityNotFoundError aggregate_id)) | _ => None end).

Definition get_or_none (aggregate_id : py) : action (option domain_object) :=
  table <- lift _get_table_type ;;
  let pk_columns := primary_key mapping table in
  rows <- select_where table (_build_pk_condition pk_columns aggregate_id) ;;
  result <- lift (scalar_one_or_none db rows) ;;
  match result with Some r => o <- domain_of r ;; ret (Some o) | None => ret None end.

(** [select(pk_columns[0])]: the first key column of the matching rows *)
Definition contains (aggregate_id : py) : action bool :=
  table <- lift _get_table_type ;;
  let pk_columns := primary_key mapping table in
  session (ret tt) ;;;
  c <- lift (match pk_columns with c :: _ => Ok c | [] => Raise IndexError end) ;;
  rows <- select_where table (_build_pk_condition pk_columns aggregate_id) ;;
  result <- lift (scalar_one_or_none db ((λ r, default VNone (columns r !! c)) <$> rows)) ;;
  ret match result with Some VNone | None => false | Some _ => true end.

Definition range (aggregate_ids : list py) : action (list domain_object) :=
  table <- lift _get_table_type ;;
  let pk_columns := primary_key mapping table in
  rows <- select_where table (Ok (_build_pk_in_condition pk_columns aggregate_ids)) ;;
  map_comp domain_of rows.

(** *** Changes *)

(** [except StaleDataError: raise VersionConflictError(aggregate.uid, aggregate.version)] *)
Definition detecting_conflicts {A} (a : aggregate_root) (m : action A) : action A :=
  try_except m
    (λ e, match e with
          | StaleDataError =>
              Some (raise (VersionConflictError (attribute "uid" (value_of a)) (attribute "version" (value_of a))))
          | _ => None
          end).

(** [merged.to_domain()] *)
Definition merged_domain (i : identity) : action domain_object :=
  st <- get_state ;;
  match _current_session st with
  | Some s => domain_of (instance_of db i s)
  | None => raise SessionNotInitializedError
  end.

Definition merge_aggregate (a : aggregate_root) : action identity :=
  table <- lift (_table_from_domain a) ;; session (session_merge db table).

Definition save (a : aggregate_root) : action domain_object :=
  detecting_conflicts a
    (merged <- merge_aggregate a ;;
     session (session_flush db) ;;;
     collect_aggregate a ;;;
     merged_domain merged).

Definition merge_each (a : aggregate_root) : action identity := detecting_conflicts a (merge_aggregate a).
Definition save_all (l : list aggregate_root) : action (list domain_object) :=
  tables <- map_comp merge_each l ;;
  session (session_flush db) ;;;
  for_each collect_aggregate l ;;;
  map_comp merged_domain tables.

Definition delete (a : aggregate_root) : action domain_object :=
  detecting_conflicts a
    (merged <- merge_aggregate a ;;
     session (session_delete db merged) ;;;
     session (session_flush db) ;;;
     collect_aggregate a ;;;
     merged_domain merged).

Definition delete_each (a : aggregate_root) : action identity :=
  detecting_conflicts a (merged <- merge_aggregate a ;; session (session_delete db merged) ;;; ret merged).
Definition delete_all (l : list aggregate_root) : action (list domain_object) :=
  tables <- map_comp delete_each l ;;
  session (session_flush db) ;;;
  for_each collect_aggregate l ;;;
  map_comp merged_domain tables.
End repository.

(** ** What the session promises *)

Definition column (r : Row) (c : string) : attr_value := default VNone (columns r !! c).

(** The meaning of a condition for a row; [IN] is never true of [NULL]. *)
Definition matches (c : ColumnElement) (r : Row) : bool :=
  match c with
  | ColumnEq k v => bool_decide (column r k = v)
  | And_ l => forallb (λ '(k, v), bool_decide (column r k = v)) l
  | ColumnIn k l => negb (bool_decide (column r k = VNone)) && bool_decide (column r k ∈ l)
  | TupleIn ks l => bool_decide (Tuple (column r <$> ks) ∈ l)
  end.

Global Instance attr_value_countable : Countable attr_value.
Proof.
  refine (inj_countable'
    (λ v, match v with
          | VNone => inl (inl (inl tt)) | VBool b => inl (inl (inr b)) | VInt z => inl (inr (inl z))
          | VStr s => inl (inr (inr s)) | VUuid n => inr (inl n) | VTime t => inr (inr t)
          end)
    (λ x, match x with
          | inl (inl (inl _)) => VNone | inl (inl (inr b)) => VBool b | inl (inr (inl z)) => VInt z
          | inl (inr (inr s)) => VStr s | inr (inl n) => VUuid n | inr (inr t) => VTime t
          end) _).
  by intros [].
Defined.

Section laws.
Context {S X : Type} (db : Session S X) (mapping : table_mapping X).

Definition key_columns (r : Row) : list attr_value := column r <$> primary_key mapping (row_table r).
Definition identity_of (r : Row) : identity := (row_table r, key_columns r).

(** [ready s]: the database answers. [contents s] is what the transaction of the
    session holds once the pending changes are flushed, [persistent s i] whether
    the instance has a row already. [accepts r]: the row sets every column of
    its table and meets its constraints. A call may flush first ([autoflush]),
    so what earlier calls left is persistent when a row is merged. *)
Class SessionLaws (ready : S → Prop) (contents : S → identity → option Row)
    (persistent : S → identity → Prop) (accepts : Row → Prop) := {
  merge_ready s r : ready s → accepts r →
    ∃ s', session_merge db r s = (Ok (identity_of r), s') ∧ ready s' ∧
      (∀ i, contents s' i = if decide (i = identity_of r) then Some r else contents s i) ∧
      (∀ i, instance_of db i s' = if decide (i = identity_of r) then r else instance_of db i s) ∧
      (persistent s' (identity_of r) ↔ is_Some (contents s (identity_of r)));
  delete_persistent s i : ready s → persistent s i →
    ∃ s', session_delete db i s = (Ok tt, s') ∧ ready s' ∧
      (∀ j, contents s' j = if decide (j = i) then None else contents s j) ∧
      (∀ j, instance_of db j s' = instance_of db j s);
  delete_pending s i : ready s → ¬ persistent s i →
    ∃ s', session_delete db i s = (Raise InvalidRequestError, s') ∧ ready s' ∧
      (∀ j, contents s' j = contents s j);
  flush_ready s : ready s →
    ∃ s', session_flush db s = (Ok tt, s') ∧ ready s' ∧
      (∀ j, contents s' j = contents s j) ∧ (∀ j, instance_of db j s' = instance_of db j s);
  select_ready s table c : ready s →
    ∃ rows s', session_select db table c s = (Ok rows, s') ∧ ready s' ∧
      (∀ j, contents s' j = contents s j) ∧ (∀ j, instance_of db j s' = instance_of db j s) ∧
      NoDup rows ∧
      (∀ r, r ∈ rows ↔ row_table r = table ∧ contents s (identity_of r) = Some r ∧ matches c r = true);
  scalar_one_spec A (l : list A) : scalar_one db l =
    match l with [] => Raise NoResultFound | [x] => Ok x | _ => Raise MultipleResultsFound end;
  scalar_one_or_none_spec A (l : list A) : scalar_one_or_none db l =
    match l with [] => Ok None | [x] => Ok (Some x) | _ => Raise MultipleResultsFound end;
}.

(** What a table class promises of the aggregates it maps *)
Class MappingLaws (table : string) (storable : domain_object → Prop)
    (key_of : domain_object → list attr_value) (accepts : Row → Prop) := {
  primary_key_some : primary_key mapping table ≠ [];
  key_not_null o : storable o → Forall (λ v, v ≠ VNone) (key_of o);
  from_storable o : storable o →
    ∃ r, from_domain mapping table o = Ok r ∧ accepts r ∧ row_table r = table ∧
      key_columns r = key_of o ∧ to_domain mapping r = Ok o;
}.
End laws.

(** ** The specification: a finite map from keys to aggregates *)

Record model := mk_model {
  stored : gmap (list attr_value) domain_object;
  tracked : list aggregate_ref;
}.

Definition key_values (id : py) : list attr_value := match id with Scalar v => [v] | Tuple l => l end.

Section specification.
Context {X : Type} (key_of : domain_object → list attr_value).

Inductive operation :=
  | OpGet (id : py) | OpGetOrNone (id : py) | OpContains (id : py) | OpRange (ids : list py)
  | OpSave (a : aggregate_root) | OpSaveAll (l : list aggregate_root)
  | OpDelete (a : aggregate_root) | OpDeleteAll (l : list aggregate_root).
Inductive answer := Objects (l : list domain_object) | Maybe (o : option domain_object) | Truth (b : bool).

Definition insert_object (a : aggregate_root) (m : gmap (list attr_value) domain_object) :=
  <[key_of (value_of a) := value_of a]> m.

(** Deleting one after the other; an aggregate that is not stored stops the
    operation, and is stored. *)
Fixpoint delete_objects (l : list aggregate_root) (m : gmap (list attr_value) domain_object)
    : bool * gmap (list attr_value) domain_object :=
  match l with
  | [] => (true, m)
  | a :: l' =>
      match m !! key_of (value_of a) with
      | Some _ => delete_objects l' (base.delete (key_of (value_of a)) m)
      | None => (false, insert_object a m)
      end
  end.

Inductive spec_step : operation → model → outcome (repository_error X) answer → model → Prop :=
  | spec_get id m o : stored m !! key_values id = Some o →
      spec_step (OpGet id) m (Ok (Objects [o])) m
  | spec_get_missing id m : stored m !! key_values id = None →
      spec_step (OpGet id) m (Raise (EntityNotFoundError id)) m
  | spec_get_or_none id m : spec_step (OpGetOrNone id) m (Ok (Maybe (stored m !! key_values id))) m
  | spec_contains id m :
      spec_step (OpContains id) m (Ok (Truth (bool_decide (is_Some (stored m !! key_values id))))) m
  | spec_range ids m l :
      l ≡ₚ omap (λ k, stored m !! k) (remove_dups (key_values <$> ids)) →
      spec_step (OpRange ids) m (Ok (Objects l)) m
  | spec_save a m :
      spec_step (OpSave a) m (Ok (Objects [value_of a]))
        (mk_model (insert_object a (stored m)) (tracked m ++ [reference a]))
  | spec_save_all l m m' :
      m' = foldl (λ m a, insert_object a m) (stored m) l →
      spec_step (OpSaveAll l) m (Ok (Objects (omap (λ a, m' !! key_of (value_of a)) l)))
        (mk_model m' (tracked m ++ (reference <$> l)))
  | spec_delete a m : is_Some (stored m !! key_of (value_of a)) →
      spec_step (OpDelete a) m (Ok (Objects [value_of a]))
        (mk_model (base.delete (key_of (value_of a)) (stored m)) (tracked m ++ [reference a]))
  | spec_delete_unsaved a m : stored m !! key_of (value_of a) = None →
      spec_step (OpDelete a) m (Raise InvalidRequestError) (mk_model (insert_object a (stored m)) (tracked m))
  | spec_delete_all l m m' : delete_objects l (stored m) = (true, m') →
      spec_step (OpDeleteAll l) m (Ok (Objects (value_of <$> l))) (mk_model m' (tracked m ++ (reference <$> l)))
  | spec_delete_all_unsaved l m m' : delete_objects l (stored m) = (false, m') →
      spec_step (OpDeleteAll l) m (Raise InvalidRequestError) (mk_model m' (tracked m)).

(** A sequence of operations, each answered: the caller catches what is raised. *)
Inductive spec_run : list operation → model → list (outcome (repository_error X) answer) → model → Prop :=
  | spec_run_nil m : spec_run [] m [] m
  | spec_run_cons op ops m m1 m2 o os :
      spec_step op m o m1 → spec_run ops m1 os m2 → spec_run (op :: ops) m (o :: os) m2.
End specification.

(** The repository, one operation after the other *)
Section runs.
Context {S X : Type} (db : Session S X) (mapping : table_mapping X).
Context (registry : SchemaRegistry) (aggregate_type : type_expr).

Definition perform (op : operation) : comp (repository_state S) (repository_error X) answer :=
  match op with
  | OpGet id => o <- get db mapping registry aggregate_type id ;; ret (Objects [o])
  | OpGetOrNone id => o <- get_or_none db mapping registry aggregate_type id ;; ret (Maybe o)
  | OpContains id => b <- contains db mapping registry aggregate_type id ;; ret (Truth b)
  | OpRange ids => l <- range db mapping registry aggregate_type ids ;; ret (Objects l)
  | OpSave a => o <- save db mapping registry a ;; ret (Objects [o])
  | OpSaveAll l => os <- save_all db mapping registry l ;; ret (Objects os)
  | OpDelete a => o <- delete db mapping registry a ;; ret (Objects [o])
  | OpDeleteAll l => os <- delete_all db mapping registry l ;; ret (Objects os)
  end.

Fixpoint perform_all (ops : list operation) (st : repository_state S)
    : list (outcome (repository_error X) answer) * repository_state S :=
  match ops with
  | [] => ([], st)
  | op :: ops' =>
      let '(o, st1) := perform op st in let '(os, st2) := perform_all ops' st1 in (o :: os, st2)
  end.
End runs.

(** ** The repository refines the map *)

Section refinement.
Context {S X : Type} (db : Session S X) (mapping : table_mapping X).
Context {ready : S → Prop} {contents : S → identity → option Row} {persistent : S → identity → Prop}.
Context {accepts : Row → Prop} `{!SessionLaws db mapping ready contents persistent accepts}.
Context {table : string} {storable : domain_object → Prop} {key_of : domain_object → list attr_value}.
Context `{!MappingLaws mapping table storable key_of accepts}.
Context (registry : SchemaRegistry) (aggregate_type : type_expr).

(** Every class the repository is given is mapped to its table. *)
Class Registered := {
  registered_type : _domain_to_table_map registry !! aggregate_type = Some table;
  registered_class o : storable o → _domain_to_table_map registry !! ClassType (object_class o) [] = Some table;
}.
Context `{!Registered}.

Abbreviation objects := (gmap (list attr_value) domain_object).
Abbreviation state_of s c := (mk_repository_state (Some (s : S)) (mk_collector c)).
Abbreviation row_of o r := (from_domain mapping table o = Ok r).

Definition agrees (s : S) (m : objects) : Prop :=
  ∀ k, match m !! k with
       | Some o => storable o ∧ key_of o = k ∧ ∃ r, row_of o r ∧ contents s (table, k) = Some r
       | None => contents s (table, k) = None
       end.
Definition represents (st : repository_state S) (m : model) : Prop :=
  ∃ s, st = state_of s (tracked m) ∧ ready s ∧ agrees s (stored m).

(** An identifier of the shape of the primary key *)
Definition valid_id (id : py) : Prop :=
  match primary_key mapping table with
  | [_] => ∃ v, id = Scalar v
  | pks => ∃ l, id = Tuple l ∧ length l = length pks
  end.
Definition valid_operation (op : operation) : Prop :=
  match op with
  | OpGet id | OpGetOrNone id | OpContains id => valid_id id
  | OpRange ids => Forall valid_id ids
  | OpSave a | OpDelete a => storable (value_of a)
  | OpSaveAll l | OpDeleteAll l => Forall (λ a, storable (value_of a)) l
  end.

(** *** Rows and keys *)

Lemma stored_row o : storable o →
  ∃ r, row_of o r ∧ accepts r ∧ identity_of mapping r = (table, key_of o) ∧ to_domain mapping r = Ok o ∧
    row_table r = table ∧ key_columns mapping r = key_of o.
Proof.
  intros Ho. destruct (from_storable mapping o Ho) as (r & Hr & Ha & Ht & Hk & Hd). exists r.
  unfold identity_of. by rewrite Ht, Hk.
Qed.

Lemma pk_condition_spec id r :
  valid_id id → row_table r = table →
  ∃ c, _build_pk_condition (X := X) (primary_key mapping table) id = Ok c ∧
    matches c r = bool_decide (key_columns mapping r = key_values id).
Proof.
  unfold valid_id, key_columns. intros Hid ->. pose proof (primary_key_some mapping (table := table)) as Hne.
  destruct (primary_key mapping table) as [|c1 [|c2 pks]]; [done| |].
  - destruct Hid as [v ->]. eexists. split; [done|]. cbn. apply bool_decide_ext. naive_solver.
  - destruct Hid as (l & -> & Hl). eexists. split; [done|]. cbn [matches key_values].
    revert l Hl. generalize (c1 :: c2 :: pks) as ps. clear.
    induction ps as [|p ps IH]; intros [|v l]; try done. cbn. intros [= Hl].
    rewrite (IH l Hl). rewrite <- bool_decide_and. apply bool_decide_ext. naive_solver.
Qed.

Lemma in_condition_spec ids r :
  Forall valid_id ids → row_table r = table → Forall (λ v, v ≠ VNone) (key_columns mapping r) →
  matches (_build_pk_in_condition (primary_key mapping table) ids) r =
  bool_decide (key_columns mapping r ∈ key_values <$> ids).
Proof.
  unfold valid_id, key_columns. intros Hid ->. pose proof (primary_key_some mapping (table := table)) as Hne.
  destruct (primary_key mapping table) as [|c1 [|c2 pks]]; [done| |]; intros Hnull; cbn -[fmap list_fmap].
  - assert (column r c1 ≠ VNone) as Hc by by inversion Hnull.
    rewrite bool_decide_false by done. cbn [negb andb]. apply bool_decide_ext.
    induction Hid as [|id ids [v ->] _ IH]; cbn; [set_solver|]. rewrite !elem_of_cons, IH. cbn. naive_solver.
  - apply bool_decide_ext. clear Hnull. generalize (column r <$> c1 :: c2 :: pks) as x. intros x.
    induction Hid as [|id ids (l & -> & _) _ IH]; [by rewrite !elem_of_nil|].
    rewrite fmap_cons, !elem_of_cons, IH. cbn. naive_solver.
Qed.

(** *** Queries *)

Lemma select_spec c s m cs :
  ready s → agrees s m →
  ∃ rows s', select_where db table (Ok c) (state_of s cs) = (Ok rows, state_of s' cs) ∧
    ready s' ∧ agrees s' m ∧ NoDup rows ∧
    (∀ r, r ∈ rows ↔ ∃ k o, m !! k = Some o ∧ row_of o r ∧ matches c r = true).
Proof.
  intros Hs Hm. destruct (select_ready db mapping s table c Hs) as (rows & s' & Hsel & Hs' & Hc & _ & Hnd & Hin).
  exists rows, s'. split_and!; [|done| |done|].
  - unfold select_where, session, bind, ret, lift. cbn. by rewrite Hsel.
  - intros k. specialize (Hm k). by rewrite Hc.
  - intros r. rewrite Hin. split.
    + intros (Ht & Hr & Hmatch). unfold identity_of in Hr. rewrite Ht in Hr.
      specialize (Hm (key_columns mapping r)). destruct (m !! key_columns mapping r) as [o|] eqn:Hk; [|congruence].
      destruct Hm as (_ & _ & r' & Hr' & Hcr). exists (key_columns mapping r), o. split_and!; [done|congruence|done].
    + intros (k & o & Hk & Hr & Hmatch). specialize (Hm k). rewrite Hk in Hm.
      destruct Hm as (Ho & Hko & r' & Hr' & Hcr). assert (r' = r) as -> by congruence.
      destruct (stored_row o Ho) as (r2 & Hr2 & _ & Hid & _ & Ht & _). assert (r2 = r) as -> by congruence.
      rewrite Hid, Hko. done.
Qed.

(** The query of an identifier answers with its row, or with nothing. *)
Lemma select_id_spec id s m cs :
  ready s → agrees s m → valid_id id →
  ∃ rows s', select_where db table (_build_pk_condition (primary_key mapping table) id) (state_of s cs) =
      (Ok rows, state_of s' cs) ∧ ready s' ∧ agrees s' m ∧
    match m !! key_values id with
    | Some o => ∃ r, rows = [r] ∧ to_domain mapping r = Ok o ∧ key_columns mapping r = key_of o ∧ row_table r = table
    | None => rows = []
    end ∧ (∀ o, m !! key_values id = Some o → storable o ∧ key_of o = key_values id).
Proof.
  intros Hs Hm Hid.
  assert (∃ c, _build_pk_condition (X := X) (primary_key mapping table) id = Ok c) as [c Hc].
  { destruct (pk_condition_spec id (mk_row table ∅) Hid eq_refl) as (c & Hc & _). by exists c. }
  rewrite Hc. destruct (select_spec c s m cs Hs Hm) as (rows & s' & Hsel & Hs' & Hm' & Hnd & Hin).
  exists rows, s'. split_and!; [done..| |].
  - assert (∀ r, r ∈ rows ↔ ∃ o, m !! key_values id = Some o ∧ row_of o r) as Hin'.
    { intros r. rewrite Hin. split.
      - intros (k & o & Hk & Hr & Hmatch). pose proof (Hm k) as Hmk. rewrite Hk in Hmk.
        destruct Hmk as (Ho & Hko & _). destruct (stored_row o Ho) as (r2 & Hr2 & _ & _ & _ & Ht & Hkr).
        assert (r2 = r) as -> by congruence.
        destruct (pk_condition_spec id r Hid Ht) as (c2 & Hc2 & Hmc). assert (c2 = c) as -> by congruence.
        rewrite Hmc in Hmatch. apply bool_decide_eq_true in Hmatch. exists o. split; [congruence|done].
      - intros (o & Hk & Hr). exists (key_values id), o. split_and!; [done..|].
        pose proof (Hm (key_values id)) as Hmk. rewrite Hk in Hmk.
        destruct Hmk as (Ho & Hko & _). destruct (stored_row o Ho) as (r2 & Hr2 & _ & _ & _ & Ht & Hkr).
        assert (r2 = r) as -> by congruence.
        destruct (pk_condition_spec id r Hid Ht) as (c2 & Hc2 & Hmc). assert (c2 = c) as -> by congruence.
        rewrite Hmc. apply bool_decide_eq_true. congruence. }
    destruct (m !! key_values id) as [o|] eqn:Hk.
    + pose proof (Hm (key_values id)) as Hmk. rewrite Hk in Hmk. destruct Hmk as (Ho & _ & _).
      destruct (stored_row o Ho) as (r & Hr & _ & _ & Hd & Ht & Hkr). exists r. split_and!; [|done..].
      apply singleton_list; [done|]. intros y. rewrite Hin'.
      split; [intros (? & [= <-] & ?); congruence|intros ->; by exists o].
    + destruct rows as [|r rows]; [done|]. destruct (proj1 (Hin' r) ltac:(left)) as (? & ? & _). congruence.
  - intros o Hk. specialize (Hm (key_values id)). rewrite Hk in Hm. naive_solver.
Qed.

(** *** Changes *)

Abbreviation ident a := (table, key_of (value_of a)).
Definition shows (s : S) (i : identity) (o : domain_object) : Prop :=
  to_domain mapping (instance_of db i s) = Ok o.

Lemma merge_spec a s m cs :
  ready s → agrees s m → storable (value_of a) →
  ∃ s', merge_aggregate db mapping registry a (state_of s cs) = (Ok (ident a), state_of s' cs) ∧
    ready s' ∧ agrees s' (insert_object key_of a m) ∧ shows s' (ident a) (value_of a) ∧
    (∀ i o, i ≠ ident a → shows s i o → shows s' i o) ∧
    (persistent s' (ident a) ↔ is_Some (m !! key_of (value_of a))).
Proof.
  intros Hs Hm Ha. destruct (stored_row _ Ha) as (r & Hr & Hacc & Hid & Hd & _ & _).
  destruct (merge_ready db mapping s r Hs Hacc) as (s' & Hmerge & Hs' & Hc & Hi & Hp). rewrite Hid in *.
  exists s'. split_and!; [|done| | | |].
  - unfold merge_aggregate, _table_from_domain, registry_from_domain, bind, lift, session. cbn.
    rewrite registered_class, Hr by done. cbn. by rewrite Hmerge.
  - intros k. unfold insert_object. destruct (decide (k = key_of (value_of a))) as [->|Hk].
    + rewrite lookup_insert_eq. split_and!; [done..|]. exists r. split; [done|]. by rewrite Hc, decide_True.
    + rewrite lookup_insert_ne by done. specialize (Hm k). by rewrite Hc, decide_False by congruence.
  - unfold shows. by rewrite Hi, decide_True.
  - intros i o Hne. unfold shows. by rewrite Hi, decide_False.
  - rewrite Hp. specialize (Hm (key_of (value_of a))).
    destruct (m !! key_of (value_of a)); [destruct Hm as (_ & _ & ? & _ & ->)|rewrite Hm]; split; intros; by eauto.
Qed.

Lemma flush_spec s m cs :
  ready s → agrees s m →
  ∃ s', session (session_flush db) (state_of s cs) = (Ok tt, state_of s' cs) ∧ ready s' ∧ agrees s' m ∧
    ∀ i o, shows s i o → shows s' i o.
Proof.
  intros Hs Hm. destruct (flush_ready db mapping s Hs) as (s' & Hf & Hs' & Hc & Hi). exists s'. split_and!; [|done| |].
  - unfold session. cbn. by rewrite Hf.
  - intros k. specialize (Hm k). by rewrite Hc.
  - intros i o. unfold shows. by rewrite Hi.
Qed.

Lemma delete_spec k s m cs :
  ready s → agrees s m → persistent s (table, k) →
  ∃ s', session (session_delete db (table, k)) (state_of s cs) = (Ok tt, state_of s' cs) ∧ ready s' ∧
    agrees s' (base.delete k m) ∧ ∀ i o, shows s i o → shows s' i o.
Proof.
  intros Hs Hm Hp. destruct (delete_persistent db mapping s _ Hs Hp) as (s' & Hf & Hs' & Hc & Hi).
  exists s'. split_and!; [|done| |].
  - unfold session. cbn. by rewrite Hf.
  - intros k'. rewrite Hc. destruct (decide (k' = k)) as [->|Hk].
    + by rewrite lookup_delete_eq, decide_True.
    + rewrite lookup_delete_ne, decide_False by congruence. apply Hm.
  - intros i o. unfold shows. by rewrite Hi.
Qed.
Lemma delete_pending_spec k s m cs :
  ready s → agrees s m → ¬ persistent s (table, k) →
  ∃ s', session (session_delete db (table, k)) (state_of s cs) = (Raise InvalidRequestError, state_of s' cs) ∧
    ready s' ∧ agrees s' m.
Proof.
  intros Hs Hm Hp. destruct (delete_pending db mapping s _ Hs Hp) as (s' & Hf & Hs' & Hc).
  exists s'. split_and!; [|done|].
  - unfold session. cbn. by rewrite Hf.
  - intros k'. rewrite Hc. apply Hm.
Qed.

Lemma merged_domain_spec s cs i o :
  shows s i o → merged_domain db mapping i (state_of s cs) = (Ok o, state_of s cs).
Proof. intros Ho. unfold merged_domain, bind, get_state, domain_of, lift. cbn. by rewrite Ho. Qed.
Lemma merged_domains_spec s cs (l : list aggregate_root) os :
  Forall2 (λ a o, shows s (ident a) o) l os →
  map_comp (merged_domain db mapping) ((λ a, ident a) <$> l) (state_of s cs) = (Ok os, state_of s cs).
Proof.
  induction 1 as [|a o l os Ho _ IH]; [done|].
  rewrite fmap_cons. cbn [map_comp]. unfold bind.
  rewrite (merged_domain_spec s cs _ _ Ho). by rewrite IH.
Qed.
Lemma collect_all_spec l s cs :
  for_each (collect_aggregate (X := X)) l (state_of s cs) = (Ok tt, state_of s (cs ++ (reference <$> l))).
Proof.
  revert cs. induction l as [|a l IH]; intros cs; cbn; [by rewrite app_nil_r|].
  unfold bind, collect_aggregate, modify, collect in *. cbn in *. rewrite IH. by rewrite <- app_assoc.
Qed.
Lemma detecting_conflicts_Ok {A} a (m : comp (repository_state S) (repository_error X) A) st x st' :
  m st = (Ok x, st') → detecting_conflicts a m st = (Ok x, st').
Proof. unfold detecting_conflicts, try_except. by intros ->. Qed.

(** *** One operation at a time *)

Lemma get_refines id s m cs :
  ready s → agrees s m → valid_id id →
  ∃ s', get db mapping registry aggregate_type id (state_of s cs) =
      (match m !! key_values id with Some o => Ok o | None => Raise (EntityNotFoundError id) end, state_of s' cs) ∧
    ready s' ∧ agrees s' m.
Proof.
  intros Hs Hm Hid. destruct (select_id_spec id s m cs Hs Hm Hid) as (rows & s' & Hsel & Hs' & Hm' & Hrows & _).
  exists s'. split; [|done].
  unfold get, try_except, bind, lift, _get_table_type, get_type. rewrite registered_type. rewrite Hsel.
  rewrite (scalar_one_spec db mapping). destruct (m !! key_values id) as [o|].
  - destruct Hrows as (r & -> & Hd & _ & _). unfold domain_of, lift. by rewrite Hd.
  - by rewrite Hrows.
Qed.
Lemma get_or_none_refines id s m cs :
  ready s → agrees s m → valid_id id →
  ∃ s', get_or_none db mapping registry aggregate_type id (state_of s cs) = (Ok (m !! key_values id), state_of s' cs) ∧
    ready s' ∧ agrees s' m.
Proof.
  intros Hs Hm Hid. destruct (select_id_spec id s m cs Hs Hm Hid) as (rows & s' & Hsel & Hs' & Hm' & Hrows & _).
  exists s'. split; [|done].
  unfold get_or_none, bind, lift, _get_table_type, get_type. rewrite registered_type. rewrite Hsel.
  rewrite (scalar_one_or_none_spec db mapping). destruct (m !! key_values id) as [o|].
  - destruct Hrows as (r & -> & Hd & _ & _). unfold domain_of, lift. by rewrite Hd.
  - by rewrite Hrows.
Qed.
Lemma contains_refines id s m cs :
  ready s → agrees s m → valid_id id →
  ∃ s', contains db mapping registry aggregate_type id (state_of s cs) =
      (Ok (bool_decide (is_Some (m !! key_values id))), state_of s' cs) ∧ ready s' ∧ agrees s' m.
Proof.
  intros Hs Hm Hid. destruct (select_id_spec id s m cs Hs Hm Hid) as (rows & s' & Hsel & Hs' & Hm' & Hrows & Hkey).
  exists s'. split; [|done]. pose proof (primary_key_some mapping (table := table)) as Hne.
  destruct (primary_key mapping table) as [|c pks] eqn:Hpk; [done|].
  unfold contains, bind, lift, _get_table_type, get_type. rewrite registered_type, Hpk.
  cbn -[select_where _build_pk_condition]. rewrite Hsel.
  rewrite (scalar_one_or_none_spec db mapping). destruct (m !! key_values id) as [o|].
  - destruct Hrows as (r & -> & Hd & Hkr & Ht). cbn.
    destruct (Hkey o eq_refl) as (Ho & _). pose proof (key_not_null mapping o Ho) as Hn.
    rewrite <- Hkr in Hn. unfold key_columns in Hn. rewrite Ht, Hpk in Hn. inversion Hn as [|? ? Hc _]. subst.
    change (default VNone (columns r !! c)) with (column r c).
    by destruct (column r c).
  - by rewrite Hrows.
Qed.

Lemma map_domain_of_spec rows os st :
  Forall2 (λ r o, to_domain mapping r = Ok o) rows os →
  map_comp (domain_of (S := S) mapping) rows st = (Ok os, st).
Proof.
  induction 1 as [|r o rows os Ho _ IH]; [done|].
  cbn [map_comp]. unfold bind, domain_of, lift in *. rewrite Ho. cbn. by rewrite IH.
Qed.
Lemma NoDup_omap_objects s m ks :
  agrees s m → NoDup ks → NoDup (omap (λ k, m !! k) ks).
Proof.
  intros Hm. induction 1 as [|k ks Hk _ IH]; cbn; [constructor|].
  destruct (m !! k) as [o|] eqn:Ho; [|done]. constructor; [|done].
  intros (k' & Hk' & Ho')%list_elem_of_omap. pose proof (Hm k) as H1. pose proof (Hm k') as H2.
  rewrite Ho in H1. rewrite Ho' in H2. naive_solver.
Qed.
Lemma range_refines ids s m cs :
  ready s → agrees s m → Forall valid_id ids →
  ∃ os s', range db mapping registry aggregate_type ids (state_of s cs) = (Ok os, state_of s' cs) ∧
    ready s' ∧ agrees s' m ∧ os ≡ₚ omap (λ k, m !! k) (remove_dups (key_values <$> ids)).
Proof.
  intros Hs Hm Hids.
  destruct (select_spec (_build_pk_in_condition (primary_key mapping table) ids) s m cs Hs Hm)
    as (rows & s' & Hsel & Hs' & Hm' & Hnd & Hin).
  assert (∀ r, r ∈ rows ↔ ∃ o, m !! key_of o = Some o ∧ storable o ∧ row_of o r ∧ key_of o ∈ key_values <$> ids) as Hin'.
  { intros r. rewrite Hin. split.
    - intros (k & o & Hk & Hr & Hmatch). pose proof (Hm k) as Hmk. rewrite Hk in Hmk.
      destruct Hmk as (Ho & Hko & _). destruct (stored_row o Ho) as (r2 & Hr2 & _ & _ & _ & Ht & Hkr).
      assert (r2 = r) as -> by congruence. rewrite in_condition_spec in Hmatch; [|done..|rewrite Hkr; by eapply key_not_null].
      apply bool_decide_eq_true in Hmatch. rewrite Hkr in Hmatch. exists o. by rewrite Hko at 1.
    - intros (o & Hk & Ho & Hr & Hko). destruct (stored_row o Ho) as (r2 & Hr2 & _ & _ & _ & Ht & Hkr).
      assert (r2 = r) as -> by congruence. exists (key_of o), o. split_and!; [done..|].
      rewrite in_condition_spec; [|done..|rewrite Hkr; by eapply key_not_null].
      apply bool_decide_eq_true. by rewrite Hkr. }
  assert (∀ r, r ∈ rows → ∃ o, to_domain mapping r = Ok o ∧ row_of o r ∧ m !! key_of o = Some o ∧ key_of o ∈ key_values <$> ids)
    as Hobj.
  { intros r (o & Hk & Ho & Hr & Hko)%Hin'. destruct (stored_row o Ho) as (r2 & Hr2 & _ & _ & Hd & _ & _).
    exists o. split_and!; [congruence|done..]. }
  assert (∃ os, Forall2 (λ r o, to_domain mapping r = Ok o ∧ row_of o r ∧ m !! key_of o = Some o ∧ key_of o ∈ key_values <$> ids) rows os)
    as [os Hos].
  { clear -Hobj. induction rows as [|r rows IH]; [by exists []|].
    destruct (Hobj r ltac:(left)) as (o & Ho). destruct IH as [os Hos]; [intros x Hx; apply Hobj; by right|].
    exists (o :: os). by constructor. }
  exists os, s'. split_and!; [|done..|].
  - unfold range, bind, lift, _get_table_type, get_type. rewrite registered_type. rewrite Hsel.
    apply map_domain_of_spec. eapply Forall2_impl; [exact Hos|]. naive_solver.
  - apply NoDup_Permutation.
    + clear -Hos Hnd. induction Hos as [|r o rows os (Hd & Hr & _) Hos IH]; [constructor|].
      inversion Hnd as [|? ? Hni Hnd']; subst. constructor; [|by apply IH].
      intros Ho. destruct (Forall2_elem_r _ _ _ _ Hos Ho) as (r' & Hr' & _ & Hrow & _).
      apply Hni. by assert (r = r') as -> by congruence.
    + by apply (NoDup_omap_objects s), NoDup_remove_dups.
    + intros o. rewrite list_elem_of_omap. setoid_rewrite elem_of_remove_dups. split.
      * intros Ho. destruct (Forall2_elem_r _ _ _ _ Hos Ho) as (r & _ & _ & _ & Hk & Hin2). by exists (key_of o).
      * intros (k & Hk & Hmk). pose proof (Hm k) as Hmk'. rewrite Hmk in Hmk'. destruct Hmk' as (Ho & Hko & _).
        destruct (stored_row o Ho) as (r & Hr & _ & _ & Hd & _ & _).
        assert (r ∈ rows) as Hrow by (apply Hin'; exists o; subst k; done).
        destruct (Forall2_elem_l _ _ _ _ Hos Hrow) as (o' & Ho' & Hd' & _). by assert (o = o') as -> by congruence.
Qed.

Lemma save_refines a s m cs :
  ready s → agrees s m → storable (value_of a) →
  ∃ s', save db mapping registry a (state_of s cs) = (Ok (value_of a), state_of s' (cs ++ [reference a])) ∧
    ready s' ∧ agrees s' (insert_object key_of a m).
Proof.
  intros Hs Hm Ha. destruct (merge_spec a s m cs Hs Hm Ha) as (s1 & Hmerge & Hs1 & Hm1 & Hsh & _ & _).
  destruct (flush_spec s1 _ cs Hs1 Hm1) as (s2 & Hf & Hs2 & Hm2 & Hk). exists s2. split; [|done].
  apply detecting_conflicts_Ok. unfold bind. rewrite Hmerge, Hf. cbn.
  unfold collect. apply merged_domain_spec. by apply Hk.
Qed.
Lemma delete_refines a s m cs :
  ready s → agrees s m → storable (value_of a) →
  ∃ s', ready s' ∧
    if decide (is_Some (m !! key_of (value_of a))) then
      delete db mapping registry a (state_of s cs) = (Ok (value_of a), state_of s' (cs ++ [reference a])) ∧
      agrees s' (base.delete (key_of (value_of a)) m)
    else
      delete db mapping registry a (state_of s cs) = (Raise InvalidRequestError, state_of s' cs) ∧
      agrees s' (insert_object key_of a m).
Proof.
  intros Hs Hm Ha. destruct (merge_spec a s m cs Hs Hm Ha) as (s1 & Hmerge & Hs1 & Hm1 & Hsh & _ & Hp).
  destruct (decide _) as [Hin|Hni].
  - destruct (delete_spec (key_of (value_of a)) s1 _ cs Hs1 Hm1) as (s2 & Hd & Hs2 & Hm2 & Hk2); [by apply Hp|].
    destruct (flush_spec s2 _ cs Hs2 Hm2) as (s3 & Hf & Hs3 & Hm3 & Hk3). exists s3. split_and!; [done| |].
    + apply detecting_conflicts_Ok. unfold bind. rewrite Hmerge, Hd, Hf. cbn.
      unfold collect. apply merged_domain_spec. by apply Hk3, Hk2.
    + unfold insert_object in Hm3. by rewrite delete_insert_eq in Hm3.
  - destruct (delete_pending_spec (key_of (value_of a)) s1 _ cs Hs1 Hm1) as (s2 & Hd & Hs2 & Hm2); [by rewrite Hp|].
    exists s2. split_and!; [done| |done].
    unfold delete, detecting_conflicts, try_except, bind. by rewrite Hmerge, Hd.
Qed.

(** *** Several aggregates *)

(** The merged instances show what the map holds under their keys. *)
Definition all_show (s : S) (m : objects) (keys : list (list attr_value)) : Prop :=
  ∀ k, k ∈ keys → ∃ o, m !! k = Some o ∧ shows s (table, k) o.

Lemma merge_all_spec l s m cs keys :
  ready s → agrees s m → Forall (λ a, storable (value_of a)) l → all_show s m keys →
  ∃ s', map_comp (merge_each db mapping registry) l (state_of s cs) =
      (Ok ((λ a, ident a) <$> l), state_of s' cs) ∧ ready s' ∧
    agrees s' (foldl (λ m a, insert_object key_of a m) m l) ∧
    all_show s' (foldl (λ m a, insert_object key_of a m) m l) (keys ++ ((λ a, key_of (value_of a)) <$> l)).
Proof.
  revert s m keys. induction l as [|a l IH]; intros s m keys Hs Hm Hl Hsh.
  { exists s. cbn. by rewrite app_nil_r. }
  inversion Hl as [|? ? Ha Hl']; subst.
  destruct (merge_spec a s m cs Hs Hm Ha) as (s1 & Hmerge & Hs1 & Hm1 & Hshow & Hkeep & _).
  destruct (IH s1 (insert_object key_of a m) (keys ++ [key_of (value_of a)]) Hs1 Hm1 Hl') as (s2 & Hmap & Hs2 & Hm2 & Hsh2).
  { intros k Hk. unfold insert_object. destruct (decide (k = key_of (value_of a))) as [->|Hne].
    - exists (value_of a). by rewrite lookup_insert_eq.
    - rewrite lookup_insert_ne by done. destruct (Hsh k) as (o & Ho & Hso); [set_solver|].
      exists o. split; [done|]. apply Hkeep; [congruence|done]. }
  exists s2. split_and!; [|done|done|].
  - erewrite map_comp_step by (apply detecting_conflicts_Ok; exact Hmerge). by rewrite Hmap.
  - rewrite <- app_assoc in Hsh2. done.
Qed.

Lemma shown_objects s m (l : list aggregate_root) :
  all_show s m ((λ a, key_of (value_of a)) <$> l) →
  Forall2 (λ a o, shows s (ident a) o) l (omap (λ a, m !! key_of (value_of a)) l).
Proof.
  induction l as [|a l IH]; intros Hsh; [constructor|]. cbn.
  destruct (Hsh (key_of (value_of a)) ltac:(left)) as (o & -> & Ho). constructor; [done|].
  apply IH. intros k Hk. apply Hsh. by right.
Qed.

Lemma save_all_refines l s m cs :
  ready s → agrees s m → Forall (λ a, storable (value_of a)) l →
  let m' := foldl (λ m a, insert_object key_of a m) m l in
  ∃ s', save_all db mapping registry l (state_of s cs) =
      (Ok (omap (λ a, m' !! key_of (value_of a)) l), state_of s' (cs ++ (reference <$> l))) ∧
    ready s' ∧ agrees s' m'.
Proof.
  intros Hs Hm Hl m'.
  destruct (merge_all_spec l s m cs [] Hs Hm Hl) as (s1 & Hmap & Hs1 & Hm1 & Hsh); [intros k; set_solver|].
  fold m' in Hm1, Hsh. destruct (flush_spec s1 m' cs Hs1 Hm1) as (s2 & Hf & Hs2 & Hm2 & Hk).
  exists s2. split; [|done]. unfold save_all, bind. rewrite Hmap, Hf, collect_all_spec.
  apply merged_domains_spec, shown_objects. intros k Hin. destruct (Hsh k Hin) as (o & Ho & Hso). eauto.
Qed.

(** Deleted instances keep their attributes. *)
Lemma delete_each_spec l s m cs :
  ready s → agrees s m → Forall (λ a, storable (value_of a)) l →
  let '(done, m') := delete_objects key_of l m in
  ∃ s', ready s' ∧ agrees s' m' ∧
    (∀ i o, (∀ a, a ∈ l → done = true → i ≠ ident a) → done = true → shows s i o → shows s' i o) ∧
    (done = true → Forall (λ a, is_Some (m !! key_of (value_of a))) l ∧ Forall (λ a, shows s' (ident a) (value_of a)) l) ∧
    map_comp (delete_each db mapping registry) l (state_of s cs) =
      (if done then Ok ((λ a, ident a) <$> l) else Raise InvalidRequestError, state_of s' cs).
Proof.
  revert s m. induction l as [|a l IH]; intros s m Hs Hm Hl.
  { cbn. exists s. split_and!; [done..| |done]. by intros _. }
  inversion Hl as [|? ? Ha Hl']; subst. cbn [delete_objects].
  destruct (merge_spec a s m cs Hs Hm Ha) as (s1 & Hmerge & Hs1 & Hm1 & Hshow & Hkeep & Hp).
  destruct (m !! key_of (value_of a)) as [o|] eqn:Hmk.
  - destruct (delete_spec (key_of (value_of a)) s1 _ cs Hs1 Hm1) as (s2 & Hd & Hs2 & Hm2 & Hk2); [by apply Hp; eexists|].
    unfold insert_object in Hm2. rewrite delete_insert_eq in Hm2.
    specialize (IH s2 (base.delete (key_of (value_of a)) m) Hs2 Hm2 Hl').
    destruct (delete_objects key_of l (base.delete (key_of (value_of a)) m)) as [done m'].
    destruct IH as (s3 & Hs3 & Hm3 & Hk3 & Hall & Hmap). exists s3. split_and!; [done|done| | |].
    + intros i x Hi Hdone Hx. apply Hk3; [|done|].
      * intros b Hb. apply Hi. by right.
      * apply Hk2, Hkeep; [|done]. by apply Hi; [left|].
    + intros ->. destruct (Hall eq_refl) as [Hpres Hshows]. split.
      * constructor; [by eexists|]. eapply Forall_impl; [exact Hpres|]. intros b [x Hx].
        rewrite lookup_delete_Some in Hx. by eexists; apply Hx.
      * constructor; [|done]. apply Hk3; [|done|by apply Hk2].
        intros b Hb _ Heq. rewrite Forall_forall in Hpres. destruct (Hpres b Hb) as [x Hx].
        rewrite lookup_delete_Some in Hx. destruct Hx as [Hne _]. apply Hne. congruence.
    + rewrite (map_comp_step _ a l (state_of s cs) (ident a) (state_of s2 cs)).
      * rewrite Hmap. by destruct done.
      * apply detecting_conflicts_Ok. unfold bind. by rewrite Hmerge, Hd.
  - destruct (delete_pending_spec (key_of (value_of a)) s1 _ cs Hs1 Hm1) as (s2 & Hd & Hs2 & Hm2).
    { rewrite Hp. by intros []. }
    exists s2. split_and!; [done..|]. cbn [map_comp]. unfold delete_each, detecting_conflicts, try_except, bind. by rewrite Hmerge, Hd.
Qed.

Lemma delete_all_refines l s m cs :
  ready s → agrees s m → Forall (λ a, storable (value_of a)) l →
  let '(done, m') := delete_objects key_of l m in
  ∃ s', ready s' ∧ agrees s' m' ∧
    delete_all db mapping registry l (state_of s cs) =
      if done then (Ok (value_of <$> l), state_of s' (cs ++ (reference <$> l)))
      else (Raise InvalidRequestError, state_of s' cs).
Proof.
  intros Hs Hm Hl. pose proof (delete_each_spec l s m cs Hs Hm Hl) as Heach.
  destruct (delete_objects key_of l m) as [[] m'].
  - destruct Heach as (s1 & Hs1 & Hm1 & _ & Hall & Hmap). destruct (Hall eq_refl) as [_ Hshow].
    destruct (flush_spec s1 m' cs Hs1 Hm1) as (s2 & Hf & Hs2 & Hm2 & Hk). exists s2. split_and!; [done|done|].
    unfold delete_all, bind. rewrite Hmap, Hf, collect_all_spec. apply merged_domains_spec.
    apply Forall2_fmap_r, Forall_Forall2_diag. eapply Forall_impl; [exact Hshow|]. intros a Ha. by apply Hk.
  - destruct Heach as (s1 & Hs1 & Hm1 & _ & _ & Hmap). exists s1. split_and!; [done|done|].
    unfold delete_all, bind. by rewrite Hmap.
Qed.

Lemma perform_refines op st m :
  represents st m → valid_operation op →
  ∃ o m' st', perform db mapping registry aggregate_type op st = (o, st') ∧
    spec_step key_of op m o m' ∧ represents st' m'.
Proof.
  intros (s & -> & Hs & Hm) Hop. destruct m as [m cs]. cbn [stored tracked] in *.
  destruct op as [id|id|id|ids|a|l|a|l]; cbn [perform valid_operation] in *; unfold bind.
  - destruct (get_refines id s m cs Hs Hm Hop) as (s' & -> & Hs' & Hm').
    destruct (m !! key_values id) as [o|] eqn:Hk; eexists _, (mk_model m cs), _;
      (split_and!; [reflexivity|by constructor|by exists s']).
  - destruct (get_or_none_refines id s m cs Hs Hm Hop) as (s' & -> & Hs' & Hm').
    eexists _, (mk_model m cs), _. split_and!; [reflexivity|by constructor|by exists s'].
  - destruct (contains_refines id s m cs Hs Hm Hop) as (s' & -> & Hs' & Hm').
    eexists _, (mk_model m cs), _. split_and!; [reflexivity|by constructor|by exists s'].
  - destruct (range_refines ids s m cs Hs Hm Hop) as (os & s' & -> & Hs' & Hm' & Hos).
    eexists _, (mk_model m cs), _. split_and!; [reflexivity|by constructor|by exists s'].
  - destruct (save_refines a s m cs Hs Hm Hop) as (s' & -> & Hs' & Hm').
    eexists _, _, _. split_and!; [reflexivity|constructor|by exists s'].
  - destruct (save_all_refines l s m cs Hs Hm Hop) as (s' & -> & Hs' & Hm').
    eexists _, _, _. split_and!; [reflexivity|by constructor|by exists s'].
  - destruct (delete_refines a s m cs Hs Hm Hop) as (s' & Hs' & Hd).
    destruct (decide _) as [Hin|Hni%eq_None_not_Some]; destruct Hd as [-> Hm']; eexists _, _, _;
      (split_and!; [reflexivity|by constructor|by exists s']).
  - pose proof (delete_all_refines l s m cs Hs Hm Hop) as Hd.
    destruct (delete_objects key_of l m) as [[] m'] eqn:Hdel; destruct Hd as (s' & Hs' & Hm' & ->);
      eexists _, _, _; (split_and!; [reflexivity|by constructor|by exists s']).
Qed.

(** C28. The generic SQL repository refines a finite map: whatever operations are
    called, one after the other, on a session whose database answers, each
    returns or raises what the map of the stored aggregates says, the session
    ends holding that map, and the collector has tracked exactly the aggregates
    of the calls that succeeded, in their order. *)
Theorem repository_refines_map ops st m :
  represents st m → Forall valid_operation ops →
  ∃ os m' st', perform_all db mapping registry aggregate_type ops st = (os, st') ∧
    spec_run key_of ops m os m' ∧ represents st' m'.
Proof.
  intros Hst Hops. revert st m Hst. induction Hops as [|op ops Hop _ IH]; intros st m Hst.
  { exists [], m, st. by split_and!; [|constructor|]. }
  destruct (perform_refines op st m Hst Hop) as (o & m1 & st1 & Hp & Hstep & Hst1).
  destruct (IH st1 m1 Hst1) as (os & m2 & st2 & Hall & Hrun & Hst2).
  exists (o :: os), m2, st2. split_and!; [|by econstructor|done]. cbn. by rewrite Hp, Hall.
Qed.
End refinement.

(** ** Which class a repository stores *)

(** The type argument of the parameterized base is one a declared supertype of
    the class has. *)
Theorem aggregate_type_is_declared classes `{!MroLaws classes} `{!RegularHierarchy classes} {X} fuel cls t :
  is_Some (classes cls) → cls ≠ "AbstractGenericRepository" → length (mro_of classes cls) < fuel →
  resolve_aggregate_type (X := X) classes fuel cls = Some (Ok t) →
  ∃ args, supertype classes (ClassType cls []) (ClassType "AbstractGenericRepository" (t :: args)).
Proof.
  intros Hcls Hne Hf. unfold resolve_aggregate_type, parameterized_base.
  destruct (generic_mro_listed classes fuel cls [] Hcls) as (l & -> & Hl); [by intros ? ?|done|done|].
  cbn. destruct (head _) as [b|] eqn:Hb; [|done].
  apply head_Some_elem_of, list_elem_of_In, filter_In in Hb as [Hin%list_elem_of_In Ho]. apply bool_decide_eq_true in Ho.
  destruct b as [|c [|a args]]; [done..|]. injection Ho as ->. cbn. intros [= <-].
  destruct (Forall2_elem_r _ _ _ _ Hl Hin) as (d & _ & Hd & Hsup). cbn in Hd. subst d. exists args.
  by apply Hsup.
Qed.

(** ** Conflicts *)

Section conflicts.
Context {S X : Type} (db : Session S X) (mapping : table_mapping X) (registry : SchemaRegistry).

Abbreviation conflict a :=
  (VersionConflictError (X := X) (attribute "uid" (value_of a)) (attribute "version" (value_of a))).
Abbreviation state_of s c := (mk_repository_state (Some (s : S)) c).

(** [save]: whatever the session raises, a stale row is a version conflict of the
    aggregate, and an aggregate is tracked only once its row is flushed. *)
Theorem save_outcomes a s c o st' :
  save db mapping registry a (state_of s c) = (o, st') →
  o ≠ Raise StaleDataError ∧
  (_aggregate_collector st' = collect (reference a) c ∨ _aggregate_collector st' = c) ∧
  (is_ok o = true → _aggregate_collector st' = collect (reference a) c) ∧
  (∀ s1 i s2, merge_aggregate db mapping registry a (state_of s c) = (Ok i, state_of s1 c) →
     session_flush db s1 = (Raise StaleDataError, s2) → o = Raise (conflict a) ∧ st' = state_of s2 c).
Proof.
  unfold save, detecting_conflicts, try_except, bind at 1, merge_aggregate. unfold bind, lift, session. cbn.
  destruct (_table_from_domain mapping registry a) as [r|e]; cbn.
  2: { intros Hsave. destruct e; injection Hsave as <- <-; by split_and!; [|right|..]. }
  destruct (session_merge db r s) as [[i|e] s1]; cbn.
  2: { intros Hsave. destruct e; injection Hsave as <- <-; by split_and!; [|right|..]. }
  destruct (session_flush db s1) as [[[]|e] s2] eqn:Hf; cbn.
  2: { intros Hsave. destruct e; injection Hsave as <- <-; (split_and!; [done|by right|done|]);
         intros ? ? ? [= <- <-]; rewrite Hf; by intros [= <-]. }
  unfold merged_domain, bind, get_state, domain_of, lift. cbn.
  destruct (to_domain mapping (instance_of db i s2)) as [x|e]; cbn; intros [= <- <-];
    (split_and!; [done|by left|done|]); intros ? ? ? [= <- <-]; by rewrite Hf.
Qed.

(** [save_all] and [delete_all] flush after the [try]: what the flush raises
    leaves as it is, [StaleDataError] included. *)
Theorem bulk_flush_escapes l s c tables s1 e s2 :
  session_flush db s1 = (Raise e, s2) →
  (map_comp (merge_each db mapping registry) l (state_of s c) = (Ok tables, state_of s1 c) →
   save_all db mapping registry l (state_of s c) = (Raise e, state_of s2 c)) ∧
  (map_comp (delete_each db mapping registry) l (state_of s c) = (Ok tables, state_of s1 c) →
   delete_all db mapping registry l (state_of s c) = (Raise e, state_of s2 c)).
Proof.
  intros Hf. split; intros Hmap; unfold save_all, delete_all, bind, session; rewrite Hmap; cbn; by rewrite Hf.
Qed.
End conflicts.

(** ** Examples *)

(** A table of orders, and a session over one dictionary of rows that inserts
    what it merges at once and remembers which rows are not flushed. [ex_stale]
    is a database whose flush finds that a row is stale. *)
Definition ex_mapping : table_mapping string :=
  mk_mapping (λ t, if decide (t = "Lines") then ["order"; "line"] else ["id"])
    (λ t o, Ok (mk_row t (object_attrs o))) (λ r, Ok (mk_object "Order" (columns r))).
Record ex_state := mk_ex_state {
  ex_rows : gmap identity Row; ex_new : list identity; ex_instances : gmap identity Row; ex_stale : bool;
}.
Definition ex_session : Session ex_state string := {|
  session_merge r := λ s,
    let i := identity_of ex_mapping r in
    (Ok i, mk_ex_state (<[i := r]> (ex_rows s)) (if decide (is_Some (ex_rows s !! i)) then [] else [i])
             (<[i := r]> (ex_instances s)) (ex_stale s));
  session_delete i := λ s,
    if decide (i ∈ ex_new s) then (Raise InvalidRequestError, s)
    else (Ok tt, mk_ex_state (base.delete i (ex_rows s)) (ex_new s) (ex_instances s) (ex_stale s));
  session_flush := λ s,
    if ex_stale s then (Raise StaleDataError, s)
    else (Ok tt, mk_ex_state (ex_rows s) [] (ex_instances s) false);
  session_select t c := λ s,
    (Ok (List.filter (λ r, bool_decide (row_table r = t) && matches c r) (map_to_list (ex_rows s)).*2), s);
  instance_of i s := default (mk_row "" ∅) (ex_instances s !! i);
  scalar_one A l := match l with [] => Raise NoResultFound | [x] => Ok x | _ => Raise MultipleResultsFound end;
  scalar_one_or_none A l := match l with [] => Ok None | [x] => Ok (Some x) | _ => Raise MultipleResultsFound end;
|}.
Definition ex_ready (s : ex_state) : Prop :=
  map_Forall (λ i r, i = identity_of ex_mapping r) (ex_rows s) ∧ ex_stale s = false.

Global Instance ex_session_laws :
  SessionLaws ex_session ex_mapping ex_ready (λ s i, ex_rows s !! i) (λ s i, i ∉ ex_new s) (λ _, True).
Proof.
  split; try done.
  - intros s r [Hs Hst] _. eexists. split; [reflexivity|]. cbn. split_and!.
    + split; [by apply map_Forall_insert_2|done].
    + intros i. destruct (decide (i = identity_of ex_mapping r)) as [->|Hne];
        [by rewrite lookup_insert_eq|by rewrite lookup_insert_ne].
    + intros i. destruct (decide (i = identity_of ex_mapping r)) as [->|Hne];
        [by rewrite lookup_insert_eq|by rewrite lookup_insert_ne].
    + destruct (decide _); set_solver.
  - intros s i [Hs Hst] Hp. cbn. rewrite decide_False by done. eexists. split; [reflexivity|]. cbn. split_and!.
    + split; [by apply map_Forall_delete|done].
    + intros j. destruct (decide (j = i)) as [->|Hne]; [by rewrite lookup_delete_eq|by rewrite lookup_delete_ne].
    + done.
  - intros s i Hs Hp. cbn. destruct (decide _); [|done]. by eexists.
  - intros s [Hs Hst]. cbn. rewrite Hst. by eexists.
  - intros s t c [Hs Hst]. eexists _, s. split_and!; [reflexivity|done..| |].
    + apply NoDup_ListNoDup, List.NoDup_filter, NoDup_ListNoDup.
      apply (NoDup_fmap_1 (identity_of ex_mapping)). rewrite <- list_fmap_compose.
      rewrite (list_fmap_ext _ fst); [apply NoDup_fst_map_to_list|].
      intros k [i r] Hk%list_elem_of_lookup_2%elem_of_map_to_list. symmetry. by apply (Hs i r).
    + intros r. rewrite list_elem_of_In, filter_In, <- list_elem_of_In, list_elem_of_fmap, andb_true_iff, bool_decide_eq_true.
      split.
      * intros ([[i r'] [-> Hr%elem_of_map_to_list]] & Ht & Hm). split_and!; [done| |done]. cbn in *. by rewrite <- (Hs _ _ Hr).
      * intros (Ht & Hr & Hm). split_and!; [|done..]. exists (identity_of ex_mapping r, r). split; [done|].
        by apply elem_of_map_to_list.
Qed.

Definition ex_storable (o : domain_object) : Prop :=
  object_class o = "Order" ∧ ∃ n, object_attrs o !! "id" = Some (VInt n).
Global Instance ex_mapping_laws :
  MappingLaws ex_mapping "Orders" ex_storable (λ o, [attribute "id" o]) (λ _, True).
Proof.
  split.
  - done.
  - intros o (_ & n & Ho). unfold attribute. rewrite Ho. by repeat constructor.
  - intros [c l] (Hc & n & Ho). cbn in Hc. subst c. by eexists.
Qed.

Definition ex_registry : SchemaRegistry :=
  _register_table (λ t, bool_decide (t ≠ "Audit"))
    [mk_table (Target (ty "Order")) "Orders"; mk_table NoDomain "Audit"] new_registry.
Global Instance ex_registered : Registered (table := "Orders") (storable := ex_storable) ex_registry (ty "Order").
Proof. split; [reflexivity|]. intros o [-> _]. reflexivity. Qed.

Definition ex_order (n total : Z) : domain_object :=
  mk_object "Order" {["id" := VInt n; "total" := VInt total; "version" := VUuid 7]}.
Definition ex_closed : repository_state ex_state := mk_repository_state None new_collector.
Definition ex_open : repository_state ex_state :=
  (open (X := string) (mk_ex_state ∅ [] ∅ false) ex_closed).2.
Definition ex_operations : list operation :=
  [OpSave (mk_aggregate 1 (ex_order 1 10)); OpContains (Scalar (VInt 1)); OpGet (Scalar (VInt 2));
   OpSaveAll [mk_aggregate 2 (ex_order 1 11); mk_aggregate 3 (ex_order 2 20)];
   OpRange [Scalar (VInt 2); Scalar (VInt 5)]; OpDelete (mk_aggregate 4 (ex_order 3 30));
   OpDelete (mk_aggregate 2 (ex_order 1 11)); OpGetOrNone (Scalar (VInt 1))].

(** The same computation with two aggregates of one identity: the second save
    wins. The delete of an order that was never saved is refused by the session,
    and stores it. *)
Example ex_repository :
  (perform_all ex_session ex_mapping ex_registry (ty "Order") ex_operations ex_open).1 =
    [Ok (Objects [ex_order 1 10]); Ok (Truth true); Raise (EntityNotFoundError (Scalar (VInt 2)));
     Ok (Objects [ex_order 1 11; ex_order 2 20]); Ok (Objects [ex_order 2 20]); Raise InvalidRequestError;
     Ok (Objects [ex_order 1 11]); Ok (Maybe None)] ∧
  (get ex_session ex_mapping ex_registry (ty "Order") (Scalar (VInt 3))
     (perform_all ex_session ex_mapping ex_registry (ty "Order") ex_operations ex_open).2).1 = Ok (ex_order 3 30) ∧
  (get ex_session ex_mapping ex_registry (ty "Order") (Scalar (VInt 3)) ex_closed).1 = Raise SessionNotInitializedError ∧
  (get ex_session ex_mapping ex_registry (ty "Invoice") (Scalar (VInt 3)) ex_open).1 =
    Raise (NoSchemaFoundFromDomainError "Invoice").
Proof. by vm_compute. Qed.

(** [zip] stops at the shorter list: an identifier with too few parts selects by
    those it has, and one of none selects every row. *)
Example ex_short_key :
  _build_pk_condition (X := string) (primary_key ex_mapping "Lines") (Tuple [VInt 1]) = Ok (And_ [("order", VInt 1)]) ∧
  (∀ r, matches (And_ []) r = true) ∧
  _build_pk_condition (X := string) (primary_key ex_mapping "Lines") (Scalar (VInt 1)) = Raise TypeError.
Proof. done. Qed.

(** A stale row: a version conflict when it is saved alone, SQLAlchemy's error
    when it is saved with others. *)
Example ex_conflicts :
  let st := mk_repository_state (Some (mk_ex_state ∅ [] ∅ true)) new_collector in
  let a := mk_aggregate 1 (ex_order 1 10) in
  (save ex_session ex_mapping ex_registry a st).1 = Raise (VersionConflictError VNone (VUuid 7)) ∧
  (save_all ex_session ex_mapping ex_registry [a] st).1 = Raise StaleDataError.
Proof. by vm_compute. Qed.

(** The annotation reads the domain of a table from its base; a repository whose
    class inherits it through a second base has none. *)
Example ex_aggregate_types :
  resolve_aggregate_type (X := string) ex_classes 9 "SpecialRepository" = Some (Ok (ty "User")) ∧
  resolve_aggregate_type (X := string) ex_more 9 "Both" = Some (Raise (CannotDetermineAggregateTypeError "Both")).
Proof. by vm_compute. Qed.

Lemma repository_refines_map_witness :
  ∃ os m st, perform_all ex_session ex_mapping ex_registry (ty "Order") ex_operations ex_open = (os, st) ∧
    spec_run (λ o, [attribute "id" o]) ex_operations (mk_model ∅ []) os m ∧
    represents (ready := ex_ready) (contents := λ s i, ex_rows s !! i) (table := "Orders") (storable := ex_storable)
      (key_of := λ o, [attribute "id" o]) ex_mapping st m.
Proof.
  apply (repository_refines_map (persistent := λ s i, i ∉ ex_new s) (accepts := λ _, True)
    ex_session ex_mapping (table := "Orders") (storable := ex_storable) ex_registry (ty "Order")).
  - exists (mk_ex_state ∅ [] ∅ false). by split_and!.
  - repeat constructor; first [by eexists | by eexists; reflexivity | done].
Defined.
