(* ===== verification/GrpcSchema.v ===== *)
(** * The schema of a gRPC service

    [plugins/spakky-grpc]: the types of an [rpc] method ([decorators/rpc.py]), the
    mapping of annotations to protobuf types ([schema/type_map.py]), the file
    descriptor built from a controller ([schema/descriptor_builder.py]), the
    registry over a descriptor pool ([schema/registry.py]), and the dispatch table
    and serializers of a service ([handler.py], [post_processors/register_services.py]).
    A model class is an identifier with its name and its fields; the descriptor
    pool is a record of operations with the class [PoolLaws]. *)

From S2P Require Import Prelude GrpcServer.

(** ** Annotations and models *)

Inductive annotation :=
  | AStr | AInt | AFloat | ABool | ABytes
  | AClass (c : string)                     (** any other class *)
  | AList (item : option annotation)        (** [get_origin(annotation) is list] *)
  | AUnion (members : list annotation)
  | ANone
  | AOther.

Inductive ProtoType := TYPE_STRING | TYPE_INT64 | TYPE_DOUBLE | TYPE_BOOL | TYPE_BYTES | TYPE_MESSAGE.

(** [metadata] of a field: the numbers of its [ProtoField]s, [None] another object *)
Record field_info := mk_field_info { field_annotation : annotation; field_metadata : list (option Z) }.
(** A class: its name, and its fields when it is a model *)
Record model_class := mk_model_class { model_name : string; model_fields : option (list (string * field_info)) }.

Inductive schema_error :=
  | UnsupportedFieldTypeError
  | MissingProtoFieldAnnotationError (c field : string)
  | DescriptorAlreadyRegisteredError (file : string)
  | UnsupportedResponseTypeError
  | AttributeError                          (** a class that is no model *)
  | PoolError                               (** raised by the descriptor pool *)
  | KeyError (name : string)                (** an unknown name in the pool *)
  | RecursionError.

Record ResolvedFieldType := mk_resolved {
  proto_type : ProtoType;
  is_repeated : bool;
  is_optional : bool;
  message_type : option string;             (** [is_message] when there is one *)
}.

(** [is_none]: the member is [NoneType] *)
Definition is_none (a : annotation) : bool := match a with ANone => true | _ => false end.

(** ** Descriptors *)

Inductive field_label := LABEL_OPTIONAL | LABEL_REPEATED.
Record FieldDescriptorProto := mk_field {
  f_name : string;
  f_number : Z;
  f_type : ProtoType;
  f_label : field_label;
  f_proto3_optional : bool;
  f_oneof_index : option nat;
  f_type_name : option string;
}.
Record DescriptorProto := mk_descriptor {
  d_name : string;
  d_field : list FieldDescriptorProto;
  d_oneof_decl : list string;
}.
Record MethodDescriptorProto := mk_method {
  m_name : string;
  m_input_type : string;
  m_output_type : string;
  m_client_streaming : bool;
  m_server_streaming : bool;
}.
Record ServiceDescriptorProto := mk_service { s_name : string; s_method : list MethodDescriptorProto }.
Record FileDescriptorProto := mk_file {
  file_name : string;
  file_package : string;
  file_message_type : list DescriptorProto;
  file_service : list ServiceDescriptorProto;
}.

(** [collected], in the order the messages were met; a descriptor is entered
    before its fields are filled in. *)
Abbreviation messages := (list (string * DescriptorProto)).

(** ** The methods of a controller

    What [get_type_hints] says of a parameter or the return value: [None] is the
    class [NoneType]. *)

Inductive hint :=
  | HintClass (c : string)
  | HintAsyncIterator (item : option hint)
  | HintOther.

Definition _unwrap_streaming_type (h : option hint) : option string :=
  match h with
  | Some (HintClass c) => Some c
  | Some (HintAsyncIterator (Some (HintClass c))) => Some c
  | _ => None
  end.

Record Rpc := mk_rpc {
  method_type : RpcMethodType;
  request_type : option string;
  response_type : option string;
}.
(** The names of the parameters and the hints of a function *)
Record rpc_function := mk_rpc_function { function_parameters : list string; function_hints : list (string * hint) }.

Definition _extract_types (r : Rpc) (f : rpc_function) : Rpc :=
  let request :=
    match request_type r with
    | Some t => Some t
    | None =>
        match List.filter (λ p, negb (bool_decide (p = "self"))) (function_parameters f) with
        | p :: _ => _unwrap_streaming_type (dict_get p (function_hints f))
        | [] => None
        end
    end in
  let response :=
    match response_type r with
    | Some t => Some t
    | None => _unwrap_streaming_type (dict_get "return" (function_hints f))
    end in
  mk_rpc (method_type r) request response.
Definition rpc_call (r : Rpc) (f : rpc_function) : Rpc :=
  match request_type r, response_type r with
  | Some _, Some _ => r
  | _, _ => _extract_types r f
  end.

(** [getmembers(controller_type, predicate=isfunction)] with the annotations *)
Abbreviation members := (list (string * option Rpc)).

(** [GrpcController]: its class name, its annotation and its members *)
Record controller := mk_controller {
  controller_name : string;
  controller_package : string;
  controller_service_name : option string;
  controller_members : members;
}.
(** ** Building descriptors *)

Section schema.
Context (models : string → model_class).

Definition _resolve_scalar (a : annotation) : outcome schema_error ResolvedFieldType :=
  match a with
  | AStr => Ok (mk_resolved TYPE_STRING false false None)
  | AInt => Ok (mk_resolved TYPE_INT64 false false None)
  | AFloat => Ok (mk_resolved TYPE_DOUBLE false false None)
  | ABool => Ok (mk_resolved TYPE_BOOL false false None)
  | ABytes => Ok (mk_resolved TYPE_BYTES false false None)
  | AClass c =>
      match model_fields (models c) with
      | Some _ => Ok (mk_resolved TYPE_MESSAGE false false (Some c))
      | None => Raise UnsupportedFieldTypeError
      end
  | _ => Raise UnsupportedFieldTypeError
  end.

Definition resolve_type (a : annotation) : outcome schema_error ResolvedFieldType :=
  match a with
  | AList None => Raise UnsupportedFieldTypeError
  | AList (Some inner) =>
      r ← _resolve_scalar inner; Ok (mk_resolved (proto_type r) true false (message_type r))
  | AUnion members =>
      match List.filter (λ m, negb (is_none m)) members with
      | [inner] => r ← _resolve_scalar inner; Ok (mk_resolved (proto_type r) false true (message_type r))
      | _ => Raise UnsupportedFieldTypeError
      end
  | _ => _resolve_scalar a
  end.

Definition extract_proto_field (c : string) (field : string) : outcome schema_error Z :=
  match dict_get field (default [] (model_fields (models c))) with
  | None => Raise (MissingProtoFieldAnnotationError c field)
  | Some info =>
      match head (omap id (field_metadata info)) with
      | Some n => Ok n
      | None => Raise (MissingProtoFieldAnnotationError c field)
      end
  end.

(** [c.__name__] *)
Definition class_name (c : string) : string := model_name (models c).

(** A field of the loop: its descriptor, with the oneof it adds *)
Definition field_descriptor (c : string) (field : string) (info : field_info) (oneofs : list string)
    : outcome schema_error (FieldDescriptorProto * list string * option string) :=
  resolved ← resolve_type (field_annotation info);
  number ← extract_proto_field c field;
  let type_name := class_name <$> message_type resolved in
  Ok (if is_repeated resolved then
        (mk_field field number (proto_type resolved) LABEL_REPEATED false None type_name, oneofs, message_type resolved)
      else if is_optional resolved then
        (mk_field field number (proto_type resolved) LABEL_OPTIONAL true (Some (length oneofs)) type_name,
         oneofs ++ [("__" +:+ field)%string], message_type resolved)
      else
        (mk_field field number (proto_type resolved) LABEL_OPTIONAL false None type_name, oneofs, message_type resolved)).

(** The loop over [model_fields]; [build] is the recursive call on a nested model. *)
Fixpoint build_fields (build : string → messages → outcome schema_error messages) (c : string)
    (fields : list (string * field_info)) (d : DescriptorProto) (collected : messages)
    : outcome schema_error (DescriptorProto * messages) :=
  match fields with
  | [] => Ok (d, collected)
  | (field, info) :: fields' =>
      '(fd, oneofs, nested) ← field_descriptor c field info (d_oneof_decl d);
      collected' ← match nested with Some t => build t collected | None => Ok collected end;
      build_fields build c fields' (mk_descriptor (d_name d) (d_field d ++ [fd]) oneofs) collected'
  end.

Fixpoint build_message_descriptor (fuel : nat) (c : string) (collected : messages) : outcome schema_error messages :=
  match fuel with
  | 0 => Raise RecursionError
  | S fuel =>
      let name := class_name c in
      if dict_has name collected then Ok collected
      else
        let descriptor := mk_descriptor name [] [] in
        match model_fields (models c) with
        | None => Raise AttributeError
        | Some fields =>
            '(descriptor, collected) ← build_fields (build_message_descriptor fuel) c fields descriptor
                                         (dict_set name descriptor collected);
            Ok (dict_set name descriptor collected)
        end
  end.

Definition streams_requests (t : RpcMethodType) : bool :=
  match t with CLIENT_STREAMING | BIDI_STREAMING => true | _ => false end.
Definition streams_responses (t : RpcMethodType) : bool :=
  match t with SERVER_STREAMING | BIDI_STREAMING => true | _ => false end.

(** One type of a method: the messages it needs, and its qualified name *)
Definition method_type_name (fuel : nat) (package : string) (t : option string) (collected : messages)
    : outcome schema_error (string * messages) :=
  match t with
  | None => Ok ("", collected)
  | Some c =>
      collected ← build_message_descriptor fuel c collected;
      Ok (("." +:+ package +:+ "." +:+ class_name c)%string, collected)
  end.

Fixpoint service_methods (fuel : nat) (package : string) (ms : members) (collected : messages)
    : outcome schema_error (list MethodDescriptorProto * messages) :=
  match ms with
  | [] => Ok ([], collected)
  | (_, None) :: ms' => service_methods fuel package ms' collected
  | (name, Some r) :: ms' =>
      '(input, collected) ← method_type_name fuel package (request_type r) collected;
      '(output, collected) ← method_type_name fuel package (response_type r) collected;
      '(methods, collected) ← service_methods fuel package ms' collected;
      Ok (mk_method name input output (streams_requests (method_type r)) (streams_responses (method_type r)) :: methods,
          collected)
  end.
Definition build_service_descriptor (fuel : nat) (package service_name : string) (ms : members) (collected : messages)
    : outcome schema_error (ServiceDescriptorProto * messages) :=
  '(methods, collected) ← service_methods fuel package ms collected;
  Ok (mk_service service_name methods, collected).

(** [annotation.service_name or controller_type.__name__] *)
Definition service_name_of (k : controller) : string :=
  match controller_service_name k with
  | Some s => if bool_decide (s = "") then controller_name k else s
  | None => controller_name k
  end.
(** [GrpcController.__call__] *)
Definition GrpcController_call (k : controller) : controller :=
  mk_controller (controller_name k) (controller_package k)
    (Some (default (controller_name k) (controller_service_name k))) (controller_members k).

Fixpoint replace_dots (s : string) : string :=
  match s with
  | EmptyString => EmptyString
  | String c s' => String (if Ascii.eqb c "." then "/"%char else c) (replace_dots s')
  end.
Definition proto_file_name (k : controller) : string :=
  (replace_dots (controller_package k) +:+ "/" +:+ service_name_of k +:+ ".proto")%string.

Definition build_file_descriptor (fuel : nat) (k : controller) : outcome schema_error FileDescriptorProto :=
  '(service, collected) ← build_service_descriptor fuel (controller_package k) (service_name_of k) (controller_members k) [];
  Ok (mk_file (proto_file_name k) (controller_package k) collected.*2 [service]).

(** ** The registry of descriptors *)

Section registry.
Context {P : Type}.

(** [AddSerializedFile], which may raise, and [FindMessageTypeByName] *)
Record DescriptorPool := mk_pool {
  add_file : FileDescriptorProto → P → option P;
  find_message : string → P → option DescriptorProto;
}.
Context (pool_operations : DescriptorPool).

Record DescriptorRegistry := mk_registry { pool : P; _registered_files : list string }.

(** The file counts as registered before the pool has accepted it. *)
Definition register (f : FileDescriptorProto) : comp DescriptorRegistry schema_error unit := λ r,
  if bool_decide (file_name f ∈ _registered_files r) then (Raise (DescriptorAlreadyRegisteredError (file_name f)), r)
  else
    let files := _registered_files r ++ [file_name f] in
    match add_file pool_operations f (pool r) with
    | Some p => (Ok tt, mk_registry p files)
    | None => (Raise PoolError, mk_registry (pool r) files)
    end.
Definition is_registered (name : string) (r : DescriptorRegistry) : bool := bool_decide (name ∈ _registered_files r).
Definition get_message_class (full_name : string) : comp DescriptorRegistry schema_error DescriptorProto := λ r,
  match find_message pool_operations full_name (pool r) with
  | Some d => (Ok d, r)
  | None => (Raise (KeyError full_name), r)
  end.

(** ** The dispatch table of a service *)

(** [rsplit('.', 1)[0]]: what precedes the last dot, or the whole name *)
Fixpoint before_last_dot (s : string) : option string :=
  match s with
  | EmptyString => None
  | String c s' =>
      match before_last_dot s' with
      | Some t => Some (String c t)
      | None => if Ascii.eqb c "." then Some EmptyString else None
      end
  end.
Definition rsplit_dot (s : string) : string := default s (before_last_dot s).

(** A handler: how it streams, and the message classes of its (de)serializers *)
Record RpcMethodHandler := mk_handler {
  h_method_type : RpcMethodType;
  h_method_name : string;
  h_request : option DescriptorProto;
  h_response : option DescriptorProto;
}.

Definition _full_service_name (package service_name : string) : string := (package +:+ "." +:+ service_name)%string.
(** [_make_deserializer], [_make_serializer]: the message class is looked up at once. *)
Definition message_class_of (full_service_name : string) (t : option string)
    : comp DescriptorRegistry schema_error (option DescriptorProto) :=
  match t with
  | None => ret None
  | Some c => d <- get_message_class (rsplit_dot full_service_name +:+ "." +:+ class_name c)%string ;; ret (Some d)
  end.

Fixpoint _build_handlers (full_service_name : string) (ms : members)
    : comp DescriptorRegistry schema_error (list (string * RpcMethodHandler)) :=
  match ms with
  | [] => ret []
  | (_, None) :: ms' => _build_handlers full_service_name ms'
  | (name, Some r) :: ms' =>
      request <- message_class_of full_service_name (request_type r) ;;
      response <- message_class_of full_service_name (response_type r) ;;
      handlers <- _build_handlers full_service_name ms' ;;
      ret ((("/" +:+ full_service_name +:+ "/" +:+ name)%string, mk_handler (method_type r) name request response) :: handlers)
  end.
(** [service]: [None] when the call is for another handler *)
Definition service (handlers : list (string * RpcMethodHandler)) (method : string) : option RpcMethodHandler :=
  dict_get method handlers.

(** What a method returned: a message as it is, a model through JSON *)
Inductive response (M B : Type) := ResponseMessage (m : M) | ResponseModel (b : B) | ResponseOther.
Arguments ResponseMessage {M B}.
Arguments ResponseModel {M B}.
Arguments ResponseOther {M B}.
Definition _serialize {M B W} (_basemodel_to_protobuf : B → outcome schema_error M) (SerializeToString : M → W) (r : response M B)
    : outcome schema_error W :=
  match r with
  | ResponseMessage m => Ok (SerializeToString m)
  | ResponseModel b => m ← _basemodel_to_protobuf b; Ok (SerializeToString m)
  | ResponseOther => Raise UnsupportedResponseTypeError
  end.

(** [RegisterServicesPostProcessor.post_process] on a controller: its service, with the
    qualified name it serves *)
Definition post_process (fuel : nat) (k : controller)
    : comp DescriptorRegistry schema_error (string * list (string * RpcMethodHandler)) :=
  file <- lift (build_file_descriptor fuel k) ;;
  known <- gets (is_registered (file_name file)) ;;
  (if known then ret tt else register file) ;;;
  let name := _full_service_name (controller_package k) (service_name_of k) in
  handlers <- _build_handlers name (controller_members k) ;;
  ret (name, handlers).
End registry.
End schema.

(** ** What a file descriptor contains

    The reference: the descriptor of one model, and the models its fields refer
    to. [reachable] follows the references. *)

Section completeness.
Context (models : string → model_class).
Abbreviation name_of c := (class_name models c).

Fixpoint describe (c : string) (fields : list (string * field_info)) (d : DescriptorProto)
    : outcome schema_error (DescriptorProto * list string) :=
  match fields with
  | [] => Ok (d, [])
  | (field, info) :: fields' =>
      '(fd, oneofs, nested) ← field_descriptor models c field info (d_oneof_decl d);
      '(d', ts) ← describe c fields' (mk_descriptor (d_name d) (d_field d ++ [fd]) oneofs);
      Ok (d', option_list nested ++ ts)
  end.
Definition message_of (c : string) : outcome schema_error (DescriptorProto * list string) :=
  match model_fields (models c) with
  | None => Raise AttributeError
  | Some fields => describe c fields (mk_descriptor (name_of c) [] [])
  end.
Definition refers (c t : string) : Prop := ∃ d ts, message_of c = Ok (d, ts) ∧ t ∈ ts.
Abbreviation reachable := (rtc refers).

Fixpoint build_all (build : string → messages → outcome schema_error messages) (ts : list string) (col : messages)
    : outcome schema_error messages :=
  match ts with [] => Ok col | t :: ts' => col' ← build t col; build_all build ts' col' end.

(** The loop over the fields describes the model and builds what it refers to. *)
Lemma build_fields_spec build c fields d col d' col' :
  build_fields models build c fields d col = Ok (d', col') →
  ∃ ts, describe c fields d = Ok (d', ts) ∧ build_all build ts col = Ok col'.
Proof.
  revert d col. induction fields as [|[field info] fields IH]; intros d col; cbn.
  { intros [= <- <-]. by exists []. }
  destruct (field_descriptor models c field info (d_oneof_decl d)) as [[[fd oneofs] nested]|e]; cbn; [|done].
  intros (col1 & Hn & Hrest)%outcome_bind_Ok. apply IH in Hrest as (ts & -> & Hall). cbn.
  eexists. split; [done|]. destruct nested as [t|]; cbn in *; [by rewrite Hn|]. by injection Hn as ->.
Qed.

Abbreviation known col n := (is_Some (dict_get n (col : messages))).

(** What a call of [build_message_descriptor] leaves in [collected] *)
Record collects (roots : list string) (col col' : messages) : Prop := {
  collects_keeps n d : dict_get n col = Some d → dict_get n col' = Some d;
  collects_roots c : c ∈ roots → known col' (name_of c);
  collects_new n d : dict_get n col = None → dict_get n col' = Some d →
    ∃ root c ts, root ∈ roots ∧ reachable root c ∧ name_of c = n ∧ message_of c = Ok (d, ts) ∧
      ∀ t, t ∈ ts → known col' (name_of t);
  collects_NoDup : NoDup col.*1 → NoDup col'.*1;
}.

Lemma collects_nil col : collects [] col col.
Proof. split; [done|set_solver|congruence|done]. Qed.
Lemma collects_app l k col1 col2 col3 :
  collects l col1 col2 → collects k col2 col3 → collects (l ++ k) col1 col3.
Proof.
  intros H1 H2. split.
  - intros n d Hn. by apply (collects_keeps _ _ _ H2), (collects_keeps _ _ _ H1).
  - intros c [Hc|Hc]%elem_of_app; [|by apply (collects_roots _ _ _ H2)].
    destruct (collects_roots _ _ _ H1 c Hc) as [d Hd]. exists d. by apply (collects_keeps _ _ _ H2).
  - intros n d Hn Hd. destruct (dict_get n col2) as [d2|] eqn:Hn2.
    + pose proof (collects_keeps _ _ _ H2 n d2 Hn2) as Hd2. assert (d2 = d) as -> by congruence.
      destruct (collects_new _ _ _ H1 n d Hn Hn2) as (root & c & ts & Hr & Hrc & Hnc & Hm & Hts).
      exists root, c, ts. split_and!; [set_solver|done..|]. intros t Ht. destruct (Hts t Ht) as [x Hx].
      exists x. by apply (collects_keeps _ _ _ H2).
    + destruct (collects_new _ _ _ H2 n d Hn2 Hd) as (root & c & ts & Hr & Hrest). exists root, c, ts.
      split; [set_solver|done].
  - intros Hnd. by apply (collects_NoDup _ _ _ H2), (collects_NoDup _ _ _ H1).
Qed.
Lemma build_all_collects build ts col col' :
  (∀ t col col', build t col = Ok col' → collects [t] col col') →
  build_all build ts col = Ok col' → collects ts col col'.
Proof.
  intros Hb. revert col. induction ts as [|t ts IH]; intros col; cbn.
  - intros [= <-]. apply collects_nil.
  - intros (col1 & H1 & H2)%outcome_bind_Ok. apply (collects_app [t] ts _ col1); [by apply Hb|by apply IH].
Qed.

Lemma dict_has_spec {V} n (d : list (string * V)) : dict_has n d = bool_decide (is_Some (dict_get n d)).
Proof. unfold dict_has. by destruct (dict_get n d). Qed.

Lemma build_collects fuel c col col' :
  build_message_descriptor models fuel c col = Ok col' → collects [c] col col'.
Proof.
  revert c col col'. induction fuel as [|fuel IH]; intros c col col'; cbn; [done|].
  rewrite dict_has_spec. case_bool_decide as Hk.
  { intros [= <-]. split; [done| |congruence|done]. by intros x ->%list_elem_of_singleton. }
  apply eq_None_not_Some in Hk. destruct (model_fields (models c)) as [fields|] eqn:Hf; [|done].
  intros ([d' col1] & Hb & [= <-])%outcome_bind_Ok.
  apply build_fields_spec in Hb as (ts & Hdesc & Hall).
  apply build_all_collects in Hall; [|by intros t col2 col3 Ht; apply IH].
  assert (message_of c = Ok (d', ts)) as Hm by (unfold message_of; by rewrite Hf).
  assert (∀ n, known col1 n → known (dict_set (name_of c) d' col1) n) as Hgrow.
  { intros n Hn. destruct (decide (n = name_of c)) as [->|]; [rewrite dict_get_set_eq|rewrite dict_get_set_ne]; eauto. }
  split.
  - intros n d Hn. assert (n ≠ name_of c) by congruence. rewrite dict_get_set_ne by done.
    apply (collects_keeps _ _ _ Hall). by rewrite dict_get_set_ne.
  - intros x ->%list_elem_of_singleton. rewrite dict_get_set_eq. by eexists.
  - intros n d Hn Hd. exists c. destruct (decide (n = name_of c)) as [->|Hne].
    + rewrite dict_get_set_eq in Hd. injection Hd as <-. exists c, ts. split_and!; [set_solver|constructor|done..|].
      intros t Ht. by apply Hgrow, (collects_roots _ _ _ Hall).
    + rewrite dict_get_set_ne in Hd by done.
      destruct (collects_new _ _ _ Hall n d) as (root & x & ts' & Hr & Hrx & Hnx & Hmx & Hts); [by rewrite dict_get_set_ne|done|].
      exists x, ts'. split_and!; [set_solver| |done..|intros t Ht; by apply Hgrow, Hts].
      eapply rtc_l; [|exact Hrx]. by exists d', ts.
  - intros Hnd. by apply dict_set_NoDup, (collects_NoDup _ _ _ Hall), dict_set_NoDup.
Qed.

(** The types of the methods of a controller *)
Definition root_types (ms : members) : list string :=
  ms ≫= λ '(_, r), match r with
                   | Some r => option_list (request_type r) ++ option_list (response_type r)
                   | None => []
                   end.

Lemma method_type_name_collects fuel package t col name col' :
  method_type_name models fuel package t col = Ok (name, col') →
  collects (option_list t) col col' ∧
  name = match t with None => "" | Some c => ("." +:+ package +:+ "." +:+ name_of c)%string end.
Proof.
  destruct t as [c|]; cbn.
  - intros (col1 & Hb & [= <- <-])%outcome_bind_Ok. split; [by eapply build_collects|done].
  - intros [= <- <-]. split; [apply collects_nil|done].
Qed.

(** The qualified name of a type in a method descriptor *)
Definition qualified (package : string) (t : option string) : string :=
  match t with None => "" | Some c => ("." +:+ package +:+ "." +:+ name_of c)%string end.

Lemma service_methods_collects fuel package ms col methods col' :
  service_methods models fuel package ms col = Ok (methods, col') →
  collects (root_types ms) col col' ∧
  methods = omap (λ '(name, r), r ← r;
    Some (mk_method name (qualified package (request_type r)) (qualified package (response_type r))
            (streams_requests (method_type r)) (streams_responses (method_type r)))) ms.
Proof.
  revert col methods. induction ms as [|[name [r|]] ms IH]; intros col methods; cbn.
  - intros [= <- <-]. split; [apply collects_nil|done].
  - intros ([i col1] & Hi & H1)%outcome_bind_Ok. apply outcome_bind_Ok in H1 as ([o col2] & Ho & H2).
    apply outcome_bind_Ok in H2 as ([ms' col3] & Hms & [= <- <-]).
    apply method_type_name_collects in Hi as [Hi ->]. apply method_type_name_collects in Ho as [Ho ->].
    apply IH in Hms as [Hms ->]. split; [|done].
    apply (collects_app _ _ _ col2); [by apply (collects_app _ _ _ col1)|done].
  - apply IH.
Qed.

(** *** The descriptor of one model *)

Definition optional_fields (l : list FieldDescriptorProto) : list FieldDescriptorProto :=
  List.filter f_proto3_optional l.
(** Optional fields number the oneofs of their message in their order. *)
Definition oneofs_numbered (d : DescriptorProto) : Prop :=
  d_oneof_decl d = (λ f, "__" +:+ f_name f)%string <$> optional_fields (d_field d) ∧
  f_oneof_index <$> optional_fields (d_field d) = Some <$> seq 0 (length (d_oneof_decl d)) ∧
  Forall (λ f, f_proto3_optional f = false → f_oneof_index f = None) (d_field d).

Lemma field_descriptor_inv c field info oneofs fd oneofs' nested :
  field_descriptor models c field info oneofs = Ok (fd, oneofs', nested) →
  f_name fd = field ∧ f_type_name fd = class_name models <$> nested ∧
  ((f_proto3_optional fd = false ∧ f_oneof_index fd = None ∧ oneofs' = oneofs) ∨
   (f_proto3_optional fd = true ∧ f_oneof_index fd = Some (length oneofs) ∧
    oneofs' = oneofs ++ [("__" +:+ field)%string])).
Proof.
  unfold field_descriptor. intros (r & _ & Hn)%outcome_bind_Ok. apply outcome_bind_Ok in Hn as (n & _ & Hr).
  destruct (is_repeated r); [|destruct (is_optional r)]; injection Hr as <- <- <-;
    (split; [done|]); (split; [done|]); [left|right|left]; done.
Qed.

Lemma describe_inv c fields d d' ts :
  describe c fields d = Ok (d', ts) → oneofs_numbered d →
  d_name d' = d_name d ∧ oneofs_numbered d' ∧
  f_name <$> d_field d' = (f_name <$> d_field d) ++ fields.*1 ∧
  omap f_type_name (d_field d') = omap f_type_name (d_field d) ++ (class_name models <$> ts).
Proof.
  revert d ts. induction fields as [|[field info] fields IH]; intros d ts; cbn.
  { intros [= <- <-] Hd. by rewrite !app_nil_r. }
  destruct (field_descriptor models c field info (d_oneof_decl d)) as [[[fd oneofs] nested]|e] eqn:Hfd; cbn; [|done].
  intros ([d1 ts'] & Hrest & [= <- <-])%outcome_bind_Ok (Hdecl & Hidx & Hnone).
  apply field_descriptor_inv in Hfd as (Hname & Htype & Hcase).
  apply IH in Hrest as (Hn & Ho & Hf & Ht); cbn in *.
  - split_and!; [done|done| |].
    + rewrite Hf, fmap_app, <- app_assoc. cbn. by rewrite Hname.
    + rewrite Ht, omap_app, <- app_assoc, fmap_app. cbn. rewrite Htype. by destruct nested.
  - unfold oneofs_numbered, optional_fields in *. cbn. rewrite !List.filter_app. cbn.
    destruct Hcase as [(Hopt & Hix & ->)|(Hopt & Hix & ->)]; rewrite Hopt; cbn; rewrite ?app_nil_r.
    + split_and!; [done|done|]. apply Forall_app. split; [done|]. by constructor.
    + rewrite !fmap_app, length_app, seq_app, fmap_app. cbn. rewrite Hix, Hname, Hidx, <- Hdecl.
      split_and!; [done|done|]. apply Forall_app. split; [done|]. constructor; [congruence|constructor].
Qed.

Lemma message_of_spec c d ts :
  message_of c = Ok (d, ts) →
  d_name d = name_of c ∧ oneofs_numbered d ∧
  (λ fields : list (string * field_info), fields.*1) <$> model_fields (models c) = Some (f_name <$> d_field d) ∧
  omap f_type_name (d_field d) = class_name models <$> ts.
Proof.
  unfold message_of. destruct (model_fields (models c)) as [fields|]; [|done].
  intros Hd. apply describe_inv in Hd as (Hn & Ho & Hf & Ht); [|by split_and!; [..|constructor]].
  split_and!; [done|done|cbn; by rewrite Hf|by rewrite Ht].
Qed.

(** *** The file *)

Definition reached (ms : members) (c : string) : Prop := ∃ root, root ∈ root_types ms ∧ reachable root c.

(** Different classes a controller needs have different names. *)
Definition named_apart (ms : members) : Prop :=
  ∀ c c', reached ms c → reached ms c' → name_of c = name_of c' → c = c'.

Lemma collected_exactly ms col :
  collects (root_types ms) [] col → named_apart ms →
  (∀ n d, dict_get n col = Some d ↔ ∃ c ts, reached ms c ∧ name_of c = n ∧ message_of c = Ok (d, ts)).
Proof.
  intros Hc Hinj.
  assert (∀ n d, dict_get n col = Some d → ∃ c ts, reached ms c ∧ name_of c = n ∧ message_of c = Ok (d, ts) ∧
    ∀ t, t ∈ ts → known col (name_of t)) as Hnew.
  { intros n d Hn. destruct (collects_new _ _ _ Hc n d eq_refl Hn) as (root & c & ts & Hr & Hrc & Hnc & Hm & Hts).
    exists c, ts. split_and!; [by exists root|done..]. }
  assert (∀ c, reached ms c → known col (name_of c)) as Hall.
  { intros c (root & Hr & Hrc). assert (reached ms root) as Hroot by (exists root; split; [done|constructor]).
    assert (known col (name_of root)) as Hk by by apply (collects_roots _ _ _ Hc).
    clear Hr. induction Hrc as [|root t c Hrt _ IH]; [done|]. apply IH; clear IH.
    - destruct Hroot as (r0 & Hr0 & Hrr). exists r0. split; [done|]. by eapply rtc_r.
    - destruct Hk as [d Hd]. destruct (Hnew _ _ Hd) as (c' & ts & Hc' & Hn & Hm & Hts).
      assert (c' = root) as -> by by apply Hinj. destruct Hrt as (d2 & ts2 & Hm2 & Ht). apply Hts. congruence. }
  intros n d. split.
  - intros (c & ts & ? & ? & ? & _)%Hnew. by exists c, ts.
  - intros (c & ts & Hr & <- & Hm). destruct (Hall c Hr) as [d' Hd'].
    destruct (Hnew _ _ Hd') as (c' & ts' & Hc' & Hn & Hm' & _). assert (c' = c) as -> by by apply Hinj. congruence.
Qed.

(** The file descriptor of a controller is complete and nothing else: it
    holds the descriptor of every model the types of its methods reach through
    their fields, each once and under its own name, so that the type of every
    message field and of every method is defined in the file; the fields are those of the
    model in their order, and the optional ones number their oneofs. *)
Theorem file_descriptor_complete fuel k f :
  build_file_descriptor models fuel k = Ok f → named_apart (controller_members k) →
  NoDup (d_name <$> file_message_type f) ∧
  (∀ d, d ∈ file_message_type f ↔ ∃ c ts, reached (controller_members k) c ∧ message_of c = Ok (d, ts)) ∧
  (∀ d field t, d ∈ file_message_type f → field ∈ d_field d → f_type_name field = Some t →
     t ∈ d_name <$> file_message_type f) ∧
  (∀ d, d ∈ file_message_type f → oneofs_numbered d) ∧
  (∀ c, c ∈ root_types (controller_members k) → name_of c ∈ d_name <$> file_message_type f).
Proof.
  unfold build_file_descriptor, build_service_descriptor.
  intros ([svc col] & ([ms col'] & Hms & [= <- <-])%outcome_bind_Ok & [= <-])%outcome_bind_Ok Hinj. cbn.
  apply service_methods_collects in Hms as [Hc _].
  pose proof (collected_exactly _ _ Hc Hinj) as Hex.
  pose proof (collects_NoDup _ _ _ Hc (NoDup_nil_2)) as Hnd.
  assert (∀ d, d ∈ col'.*2 ↔ ∃ c ts, reached (controller_members k) c ∧ message_of c = Ok (d, ts)) as Hin.
  { intros d. rewrite list_elem_of_fmap. split.
    - intros ([n d'] & -> & Hd). apply (dict_get_NoDup n d' col' Hnd) in Hd. apply Hex in Hd as (c & ts & ? & _ & ?).
      by exists c, ts.
    - intros (c & ts & Hr & Hm). exists (name_of c, d). split; [done|]. apply dict_get_elem_of, Hex. by exists c, ts. }
  assert (∀ c, reached (controller_members k) c → name_of c ∈ d_name <$> col'.*2) as Hnames.
  { intros c (root & Hr & Hrc).
    assert (known col' (name_of c)) as [d Hd].
    { destruct (rtc_inv_r _ _ Hrc) as [<-|(b & Hb & d & ts & Hm & Ht)]; [by apply (collects_roots _ _ _ Hc)|].
      assert (dict_get (name_of b) col' = Some d) as Hdb.
      { apply Hex. exists b, ts. split_and!; [by exists root|done..]. }
      destruct (collects_new _ _ _ Hc _ _ eq_refl Hdb) as (r2 & b2 & ts2 & Hr2 & Hrb2 & Hn2 & Hm2 & Hts2).
      apply Hts2. assert (b2 = b) as -> by (apply Hinj; [by exists r2|by exists root|done]). congruence. }
    apply Hex in Hd as Hd'. destruct Hd' as (c' & ts & _ & Hn & Hm). apply message_of_spec in Hm as (Hdn & _).
    apply list_elem_of_fmap. exists d. split; [congruence|]. apply list_elem_of_fmap.
    exists (name_of c, d). split; [done|]. by apply dict_get_elem_of. }
  split_and!.
  - rewrite <- list_fmap_compose. rewrite (list_fmap_ext _ fst); [done|].
    intros i [n d] Hi%list_elem_of_lookup_2. cbn. apply (dict_get_NoDup n d col' Hnd), Hex in Hi as (c & ts & _ & <- & Hm).
    by apply message_of_spec in Hm as (-> & _).
  - done.
  - intros d field t (c & ts & Hr & Hm)%Hin Hf Ht. apply message_of_spec in Hm as Hs. destruct Hs as (_ & _ & _ & Htypes).
    assert (t ∈ class_name models <$> ts) as (t' & -> & Ht')%list_elem_of_fmap.
    { rewrite <- Htypes. apply list_elem_of_omap. by exists field. }
    apply Hnames. destruct Hr as (root & Hroot & Hrc). exists root. split; [done|].
    eapply rtc_r; [exact Hrc|]. by exists d, ts.
  - intros d (c & ts & _ & Hm)%Hin. by apply message_of_spec in Hm as (_ & ? & _).
  - intros c Hc'. apply Hnames. exists c. split; [done|constructor].
Qed.

(** *** Termination, recursive models included *)

Definition ends {A} (o : outcome schema_error A) : Prop := o ≠ Raise RecursionError.

Lemma ends_bind {A B} (o : outcome schema_error A) (f : A → outcome schema_error B) :
  ends o → (∀ a, o = Ok a → ends (f a)) → ends (o ≫= f).
Proof. unfold ends. destruct o as [a|e]; cbn; [auto|]. intros He _ [= ->]. by destruct He. Qed.

(** The models the fields of a class refer to *)
Definition field_models (c : string) : list string :=
  default [] (model_fields (models c)) ≫= λ '(_, info),
    match resolve_type models (field_annotation info) with Ok r => option_list (message_type r) | Raise _ => [] end.

Lemma scalar_ends a : ends (_resolve_scalar models a).
Proof. destruct a; try done. cbn. by destruct (model_fields _). Qed.
Lemma resolve_ends a : ends (resolve_type models a).
Proof.
  destruct a as [| | | | |c|[inner|]|ms| |]; try (apply scalar_ends); try done; cbn.
  - by apply ends_bind; [apply scalar_ends|].
  - destruct (List.filter _ ms) as [|inner []]; try done. by apply ends_bind; [apply scalar_ends|].
Qed.
Lemma field_descriptor_ends c field info oneofs : ends (field_descriptor models c field info oneofs).
Proof.
  apply ends_bind; [apply resolve_ends|]. intros r _. apply ends_bind.
  - unfold extract_proto_field. destruct (dict_get field _) as [i|]; [|done]. by destruct (head _).
  - intros n _. by destruct (is_repeated r), (is_optional r).
Qed.
Lemma field_descriptor_nested c field info oneofs fd oneofs' t :
  field_descriptor models c field info oneofs = Ok (fd, oneofs', Some t) →
  ∃ r, resolve_type models (field_annotation info) = Ok r ∧ message_type r = Some t.
Proof.
  unfold field_descriptor. intros (r & Hr & Hn)%outcome_bind_Ok. apply outcome_bind_Ok in Hn as (n & _ & Hres).
  exists r. split; [done|]. destruct (is_repeated r), (is_optional r); by injection Hres.
Qed.

Context (universe : list string) (Hclosed : ∀ c t, c ∈ universe → t ∈ field_models c → t ∈ universe).
Definition unknown_names (col : messages) : list string :=
  List.filter (λ n, negb (dict_has n col)) (remove_dups (class_name models <$> universe)).

Lemma unknown_mono col col' :
  (∀ n, known col n → known col' n) → length (unknown_names col') ≤ length (unknown_names col).
Proof.
  intros Hk. unfold unknown_names. induction (remove_dups _) as [|n l IH]; [done|]. cbn.
  rewrite !dict_has_spec. repeat case_bool_decide; cbn; try lia. by destruct H; apply Hk.
Qed.
Lemma unknown_fewer col col' n :
  (∀ n, known col n → known col' n) → n ∈ class_name models <$> universe → ¬ known col n → known col' n →
  length (unknown_names col') < length (unknown_names col).
Proof.
  intros Hk Hn%elem_of_remove_dups Hnk Hk'. unfold unknown_names in *.
  induction (remove_dups _) as [|m l IH]; [by apply elem_of_nil in Hn|]. cbn. rewrite !dict_has_spec.
  assert (length (List.filter (λ n, negb (dict_has n col')) l) ≤ length (List.filter (λ n, negb (dict_has n col)) l)) as Hle.
  { clear -Hk. induction l as [|x l IH]; [done|]. cbn. rewrite !dict_has_spec. repeat case_bool_decide; cbn; try lia.
    by destruct H; apply Hk. }
  destruct (decide (m = n)) as [->|Hne].
  - rewrite (bool_decide_false (known col n)), (bool_decide_true (known col' n)) by done. cbn. lia.
  - apply elem_of_cons in Hn as [?|Hn]; [congruence|]. specialize (IH Hn).
    repeat case_bool_decide; cbn; try lia. by destruct H; apply Hk.
Qed.
Lemma keeps_known roots col col' : collects roots col col' → ∀ n, known col n → known col' n.
Proof. intros Hc n [d Hd]. exists d. by apply (collects_keeps _ _ _ Hc). Qed.

Lemma build_fields_ends fuel c fields d col bound :
  (∀ t col, t ∈ universe → length (unknown_names col) < bound → ends (build_message_descriptor models fuel t col)) →
  (∀ t, t ∈ (fields ≫= λ '(_, info),
     match resolve_type models (field_annotation info) with Ok r => option_list (message_type r) | Raise _ => [] end) → t ∈ universe) →
  length (unknown_names col) < bound →
  ends (build_fields models (build_message_descriptor models fuel) c fields d col).
Proof.
  intros Hb. revert d col. induction fields as [|[field info] fields IH]; intros d col Hsub Hlt; cbn; [done|].
  cbn in Hsub. apply ends_bind; [apply field_descriptor_ends|]. intros [[fd oneofs] [t|]] Hfd; cbn.
  - apply field_descriptor_nested in Hfd as (r & Hr & Ht).
    assert (t ∈ universe) as Htu by (apply Hsub; rewrite Hr, Ht; set_solver).
    apply ends_bind; [by apply Hb|]. intros col' Hbuild. apply IH; [intros x Hx; apply Hsub; set_solver|].
    pose proof (unknown_mono col col' (keeps_known _ _ _ (build_collects _ _ _ _ Hbuild))). lia.
  - apply IH; [|done]. intros t Ht. apply Hsub. set_solver.
Qed.

(** Every call with an unknown name enters it, so the recursion is at most as
    deep as there are names. *)
Lemma build_ends fuel c col :
  c ∈ universe → length (unknown_names col) < fuel → ends (build_message_descriptor models fuel c col).
Proof.
  revert c col. induction fuel as [|fuel IH]; intros c col Hc Hlt; [lia|]. cbn.
  rewrite dict_has_spec. case_bool_decide as Hk; [done|].
  destruct (model_fields (models c)) as [fields|] eqn:Hf; [|done].
  assert (∀ n, known col n → known (dict_set (name_of c) (mk_descriptor (name_of c) [] []) col) n) as Hgrow.
  { intros n Hn. destruct (decide (n = name_of c)) as [->|]; [rewrite dict_get_set_eq|rewrite dict_get_set_ne]; eauto. }
  assert (length (unknown_names (dict_set (name_of c) (mk_descriptor (name_of c) [] []) col)) < length (unknown_names col)).
  { apply (unknown_fewer _ _ (name_of c)); [done|apply list_elem_of_fmap; by exists c|done|].
    rewrite dict_get_set_eq. by eexists. }
  apply ends_bind; [|by intros []]. apply (build_fields_ends _ _ _ _ _ fuel); [by intros; apply IH| |lia].
  intros t Ht. apply (Hclosed c); [done|]. unfold field_models. by rewrite Hf.
Qed.

Lemma method_type_name_ends fuel package t col :
  (∀ c, t = Some c → c ∈ universe) → length (unknown_names col) < fuel →
  ends (method_type_name models fuel package t col).
Proof.
  intros Ht Hlt. destruct t as [c|]; cbn; [|done]. apply ends_bind; [|done]. apply build_ends; [by apply Ht|done].
Qed.

(** Building the descriptor of a controller ends. *)
Theorem build_file_ends fuel k :
  (∀ c, c ∈ root_types (controller_members k) → c ∈ universe) →
  length (remove_dups (class_name models <$> universe)) < fuel →
  ends (build_file_descriptor models fuel k).
Proof.
  intros Hroots Hlen. unfold build_file_descriptor, build_service_descriptor.
  assert (∀ ms col, (∀ c, c ∈ root_types ms → c ∈ universe) → length (unknown_names col) < fuel →
    ends (service_methods models fuel (controller_package k) ms col)) as Hms.
  { clear Hroots. induction ms as [|[name [r|]] ms IH]; intros col Hroots Hlt; cbn; [done| |by apply IH].
    cbn in Hroots. apply ends_bind.
    { apply method_type_name_ends; [|done]. intros c Hc. apply Hroots. rewrite Hc. set_solver. }
    intros [i col1] [Hi _]%method_type_name_collects. pose proof (unknown_mono col col1 (keeps_known _ _ _ Hi)).
    apply ends_bind.
    { apply method_type_name_ends; [|lia]. intros c Hc. apply Hroots. rewrite Hc. set_solver. }
    intros [o col2] [Ho _]%method_type_name_collects. pose proof (unknown_mono col1 col2 (keeps_known _ _ _ Ho)).
    apply ends_bind; [|by intros []]. apply IH; [|lia]. intros c Hc. apply Hroots. set_solver. }
  apply ends_bind; [|by intros []]. apply ends_bind; [|by intros []]. apply Hms; [done|].
  eapply Nat.le_lt_trans; [|exact Hlen]. apply List.filter_length_le.
Qed.
End completeness.

(** ** Services *)

(** What the pool promises: a file that is accepted defines its messages and
    keeps what was defined; a new file that defines a known name is refused. *)
Definition full_name (package name : string) : string := (package +:+ "." +:+ name)%string.
Class PoolLaws {P} (ops : DescriptorPool (P := P)) (files : P → list string) := {
  find_added f p p' d : add_file ops f p = Some p' → NoDup (d_name <$> file_message_type f) →
    d ∈ file_message_type f → find_message ops (full_name (file_package f) (d_name d)) p' = Some d;
  find_kept f p p' n d : add_file ops f p = Some p' → find_message ops n p = Some d → find_message ops n p' = Some d;
  add_duplicate f p d : file_name f ∉ files p → d ∈ file_message_type f →
    is_Some (find_message ops (full_name (file_package f) (d_name d)) p) → add_file ops f p = None;
  added_files f p p' : add_file ops f p = Some p' → files p' ⊆ file_name f :: files p;
}.

Fixpoint has_dot (s : string) : bool :=
  match s with EmptyString => false | String c s' => Ascii.eqb c "." || has_dot s' end.
Lemma before_last_dot_None s : has_dot s = false → before_last_dot s = None.
Proof. induction s as [|c s IH]; cbn; [done|]. intros [-> Hs]%orb_false_iff. by rewrite IH. Qed.
Lemma rsplit_full_service package service :
  has_dot service = false → rsplit_dot (_full_service_name package service) = package.
Proof.
  intros Hs. unfold rsplit_dot, _full_service_name.
  assert (before_last_dot (package +:+ "." +:+ service) = Some package) as ->; [|done].
  induction package as [|c package IH].
  - change (before_last_dot (String "." service) = Some ""). cbn. by rewrite (before_last_dot_None service Hs).
  - change (before_last_dot (String c (package +:+ "." +:+ service)) = Some (String c package)).
    cbn [before_last_dot]. by rewrite IH.
Qed.

Section services.
Context (models : string → model_class) {P : Type} (ops : DescriptorPool (P := P)) (files : P → list string).
Context `{!PoolLaws ops files}.

(** The descriptor of a type of a method, when it has one *)
Definition typed (t : option string) (d : option DescriptorProto) : Prop :=
  match t, d with
  | None, None => True
  | Some c, Some d => ∃ ts, message_of models c = Ok (d, ts)
  | _, _ => False
  end.
(** A handler for a member: it streams as annotated, and its (de)serializers
    have the message classes of the types of the method. *)
Definition serves (name : string) (r : Rpc) (h : RpcMethodHandler) : Prop :=
  h_method_name h = name ∧ h_method_type h = method_type r ∧
  typed (request_type r) (h_request h) ∧ typed (response_type r) (h_response h).

Lemma message_class_spec package service t (reg : DescriptorRegistry) :
  has_dot service = false →
  (∀ c, t = Some c → ∃ d ts, message_of models c = Ok (d, ts) ∧
     find_message ops (full_name package (class_name models c)) (pool reg) = Some d) →
  ∃ d, message_class_of models ops (_full_service_name package service) t reg = (Ok d, reg) ∧ typed t d.
Proof.
  intros Hs Ht. destruct t as [c|]; [|by exists None].
  destruct (Ht c eq_refl) as (d & ts & Hm & Hf). exists (Some d). split; [|by exists ts].
  unfold message_class_of, get_message_class, bind. rewrite (rsplit_full_service _ _ Hs).
  unfold full_name in Hf. by rewrite Hf.
Qed.

Lemma build_handlers_spec package service ms (reg : DescriptorRegistry) :
  has_dot service = false →
  (∀ c, c ∈ root_types ms → ∃ d ts, message_of models c = Ok (d, ts) ∧
     find_message ops (full_name package (class_name models c)) (pool reg) = Some d) →
  ∃ handlers, _build_handlers models ops (_full_service_name package service) ms reg = (Ok handlers, reg) ∧
    handlers.*1 = omap (λ '(name, r), (λ _ : Rpc, "/" +:+ _full_service_name package service +:+ "/" +:+ name)%string <$> r) ms ∧
    ∀ name r, (name, Some r) ∈ ms → ∃ h, ((("/" +:+ _full_service_name package service +:+ "/" +:+ name)%string, h) ∈ handlers) ∧
      serves name r h.
Proof.
  intros Hs. induction ms as [|[name [r|]] ms IH]; intros Hroots; cbn.
  - exists []. split_and!; [done..|]. intros name r. by intros []%elem_of_nil.
  - cbn in Hroots.
    destruct (message_class_spec package service (request_type r) reg Hs) as (i & Hi & Hti).
    { intros c Hc. apply Hroots. rewrite Hc. set_solver. }
    destruct (message_class_spec package service (response_type r) reg Hs) as (o & Ho & Hto).
    { intros c Hc. apply Hroots. rewrite Hc. set_solver. }
    destruct IH as (hs & Hhs & Hkeys & Hall); [intros c Hc; apply Hroots; set_solver|].
    eexists. split_and!.
    + unfold bind. rewrite Hi, Ho, Hhs. reflexivity.
    + cbn. by rewrite Hkeys.
    + intros n r' [[= -> ->]|Hin]%elem_of_cons.
      * eexists. split; [left|]. by split_and!.
      * destruct (Hall n r' Hin) as (h & Hh & Hserve). exists h. split; [by right|done].
  - destruct IH as (hs & Hhs & Hkeys & Hall); [done|]. exists hs. split_and!; [done..|].
    intros n r' [[=]|Hin]%elem_of_cons. by apply Hall.
Qed.

(** A controller whose file the pool accepts is served whole: registration
    returns one handler per [rpc] method, in the order of the members, under the
    name clients call, with the message classes built from its types. *)
Theorem registered_service_serves fuel k f (reg : DescriptorRegistry) p' :
  build_file_descriptor models fuel k = Ok f → named_apart models (controller_members k) →
  has_dot (service_name_of k) = false → is_registered (file_name f) reg = false →
  add_file ops f (pool reg) = Some p' →
  let name := _full_service_name (controller_package k) (service_name_of k) in
  ∃ handlers, post_process models ops fuel k reg = (Ok (name, handlers), mk_registry p' (_registered_files reg ++ [file_name f])) ∧
    handlers.*1 = omap (λ '(m, r), (λ _ : Rpc, "/" +:+ name +:+ "/" +:+ m)%string <$> r) (controller_members k) ∧
    ∀ m r, (m, Some r) ∈ controller_members k → ∃ h, ((("/" +:+ name +:+ "/" +:+ m)%string, h) ∈ handlers) ∧ serves m r h.
Proof.
  intros Hf Hinj Hdot Hreg Hadd name.
  destruct (file_descriptor_complete models fuel k f Hf Hinj) as (Hnd & Hin & _ & _ & Hroots).
  destruct (build_handlers_spec (controller_package k) (service_name_of k) (controller_members k)
    (mk_registry p' (_registered_files reg ++ [file_name f])) Hdot) as (hs & Hhs & Hkeys & Hall).
  { intros c Hc. pose proof (Hroots c Hc) as (d & Hname & Hd)%list_elem_of_fmap.
    pose proof (proj1 (Hin d) Hd) as (c' & ts & Hr & Hm).
    pose proof (message_of_spec models _ _ _ Hm) as (Hdn & _).
    assert (c' = c) as -> by (apply Hinj; [done|exists c; split; [done|constructor]|congruence]).
    exists d, ts. split; [done|]. rewrite Hname. cbn.
    replace (controller_package k) with (file_package f); [by eapply find_added|].
    unfold build_file_descriptor in Hf. apply outcome_bind_Ok in Hf as ([svc col] & _ & [= <-]). done. }
  exists hs. split_and!; [|done..].
  unfold post_process, bind, lift, gets. rewrite Hf, Hreg. unfold register.
  unfold is_registered in Hreg. rewrite Hreg. rewrite Hadd. by rewrite Hhs.
Qed.

(** Every file of a controller defines its messages in the package: when two
    controllers of one package share a model, the second is refused by the pool.
    Its file counts as registered from then on. *)
Theorem shared_message_is_refused fuel k f (reg : DescriptorRegistry) c :
  build_file_descriptor models fuel k = Ok f → named_apart models (controller_members k) →
  is_registered (file_name f) reg = false → file_name f ∉ files (pool reg) →
  c ∈ root_types (controller_members k) →
  is_Some (find_message ops (full_name (controller_package k) (class_name models c)) (pool reg)) →
  post_process models ops fuel k reg = (Raise PoolError, mk_registry (pool reg) (_registered_files reg ++ [file_name f])).
Proof.
  intros Hf Hinj Hreg Hfiles Hc Hfound.
  destruct (file_descriptor_complete models fuel k f Hf Hinj) as (_ & _ & _ & _ & Hroots).
  pose proof (Hroots c Hc) as (d & Hname & Hd)%list_elem_of_fmap.
  assert (file_package f = controller_package k) as Hpk.
  { unfold build_file_descriptor in Hf. apply outcome_bind_Ok in Hf as ([svc col] & _ & [= <-]). done. }
  assert (add_file ops f (pool reg) = None) as Hadd.
  { apply (add_duplicate f (pool reg) d Hfiles Hd). by rewrite Hpk, <- Hname. }
  unfold post_process, bind, lift, gets. rewrite Hf, Hreg. unfold register.
  unfold is_registered in Hreg. by rewrite Hreg, Hadd.
Qed.
End services.

(** ** Examples *)

(** A pool over the list of its files *)
Definition ex_pool_find (n : string) (fs : list FileDescriptorProto) : option DescriptorProto :=
  head (fs ≫= λ f, List.filter (λ d, bool_decide (full_name (file_package f) (d_name d) = n)) (file_message_type f)).
Definition ex_pool : DescriptorPool (P := list FileDescriptorProto) := {|
  add_file f fs :=
    if bool_decide (file_name f ∉ file_name <$> fs) &&
       forallb (λ d, negb (bool_decide (is_Some (ex_pool_find (full_name (file_package f) (d_name d)) fs)))) (file_message_type f)
    then Some (fs ++ [f]) else None;
  find_message := ex_pool_find;
|}.

Definition ex_field (a : annotation) (n : Z) : field_info := mk_field_info a [None; Some n].
(** [Node] refers to itself; [OtherUser] is another class named [User]. *)
Definition ex_models (c : string) : model_class :=
  if decide (c = "User") then
    mk_model_class "User" (Some [("name", ex_field AStr 1); ("age", ex_field (AUnion [AInt; ANone]) 2);
                                 ("root", ex_field (AUnion [AClass "Node"; ANone]) 3)])
  else if decide (c = "Node") then
    mk_model_class "Node" (Some [("value", ex_field AInt 1); ("next", ex_field (AUnion [AClass "Node"; ANone]) 2);
                                 ("tags", ex_field (AList (Some AStr)) 3)])
  else if decide (c = "OtherUser") then mk_model_class "User" (Some [("id", ex_field AInt 1)])
  else if decide (c = "Bad") then mk_model_class "Bad" (Some [("x", mk_field_info AStr [])])
  else mk_model_class c None.
Definition ex_users : controller :=
  mk_controller "Users" "demo.v1" None
    [("find", Some (rpc_call (mk_rpc UNARY None None)
        (mk_rpc_function ["self"; "user"] [("user", HintClass "User"); ("return", HintClass "Node")])));
     ("helper", None);
     ("watch", Some (mk_rpc BIDI_STREAMING (Some "Node") (Some "User")))].
(** Another controller of the package, with the model of the first *)
Definition ex_nodes : controller :=
  mk_controller "Nodes" "demo.v1" None [("put", Some (mk_rpc UNARY (Some "Node") (Some "Node")))].

Definition ex_node_descriptor : DescriptorProto :=
  mk_descriptor "Node"
    [mk_field "value" 1 TYPE_INT64 LABEL_OPTIONAL false None None;
     mk_field "next" 2 TYPE_MESSAGE LABEL_OPTIONAL true (Some 0) (Some "Node");
     mk_field "tags" 3 TYPE_STRING LABEL_REPEATED false None None] ["__next"].

Example ex_file :
  build_file_descriptor ex_models 4 ex_users = Ok (mk_file "demo/v1/Users.proto" "demo.v1"
    [mk_descriptor "User"
       [mk_field "name" 1 TYPE_STRING LABEL_OPTIONAL false None None;
        mk_field "age" 2 TYPE_INT64 LABEL_OPTIONAL true (Some 0) None;
        mk_field "root" 3 TYPE_MESSAGE LABEL_OPTIONAL true (Some 1) (Some "Node")] ["__age"; "__root"];
     ex_node_descriptor]
    [mk_service "Users"
       [mk_method "find" ".demo.v1.User" ".demo.v1.Node" false false;
        mk_method "watch" ".demo.v1.Node" ".demo.v1.User" true true]]).
Proof. reflexivity. Qed.

(** The two controllers share [Node]: the second is refused, and its file counts
    as registered. *)
Example ex_shared_model :
  let r1 := (post_process ex_models ex_pool 4 ex_users (mk_registry [] [])).2 in
  (post_process ex_models ex_pool 4 ex_nodes r1).1 = Raise PoolError ∧
  is_registered "demo/v1/Nodes.proto" (post_process ex_models ex_pool 4 ex_nodes r1).2 = true ∧
  is_ok (post_process ex_models ex_pool 4 ex_nodes (mk_registry [] [])).1 = true.
Proof. by vm_compute. Qed.

(** Two classes of one name: the second is taken for the first, whose fields it
    does not have. *)
Example ex_same_name :
  build_file_descriptor ex_models 4
    (mk_controller "C" "p" None [("m", Some (mk_rpc UNARY (Some "OtherUser") (Some "User")))]) =
  Ok (mk_file "p/C.proto" "p" [mk_descriptor "User" [mk_field "id" 1 TYPE_INT64 LABEL_OPTIONAL false None None] []]
        [mk_service "C" [mk_method "m" ".p.User" ".p.User" false false]]).
Proof. reflexivity. Qed.

(** A field without its number, a method whose hint is no model, a service name
    with a dot *)
Example ex_refused :
  build_file_descriptor ex_models 4 (mk_controller "C" "p" None [("m", Some (mk_rpc UNARY (Some "Bad") None))]) =
    Raise (MissingProtoFieldAnnotationError "Bad" "x") ∧
  build_file_descriptor ex_models 4 (mk_controller "C" "p" None [("m", Some (mk_rpc UNARY (Some "str") None))]) =
    Raise AttributeError ∧
  (post_process ex_models ex_pool 4
     (mk_controller "C" "p" (Some "v1.S") [("m", Some (mk_rpc UNARY (Some "Node") None))]) (mk_registry [] [])).1 =
    Raise (KeyError "p.v1.Node").
Proof. by vm_compute. Qed.

Lemma ex_pool_find_app n fs gs :
  ex_pool_find n (fs ++ gs) = match ex_pool_find n fs with Some d => Some d | None => ex_pool_find n gs end.
Proof. unfold ex_pool_find. rewrite bind_app. by destruct (_ ≫= _). Qed.
Global Instance ex_pool_laws : PoolLaws ex_pool (λ fs, file_name <$> fs).
Proof.
  split; cbn -[ex_pool_find].
  - intros f p p' d. destruct (_ && _) eqn:Hacc; [|done]. intros [= <-] Hnd Hd.
    apply andb_true_iff in Hacc as [_ Hnew]. rewrite forallb_forall in Hnew.
    assert (ex_pool_find (full_name (file_package f) (d_name d)) p = None) as Hp.
    { apply eq_None_not_Some. intros Hs. specialize (Hnew d (proj1 (list_elem_of_In _ _) Hd)).
      by rewrite bool_decide_true in Hnew. }
    rewrite ex_pool_find_app, Hp. unfold ex_pool_find. cbn. rewrite app_nil_r. clear -Hnd Hd.
    induction (file_message_type f) as [|x l IH]; [by apply elem_of_nil in Hd|]. cbn. cbn in Hnd.
    apply NoDup_cons in Hnd as [Hx Hnd]. apply elem_of_cons in Hd as [->|Hd].
    + by rewrite bool_decide_true.
    + rewrite bool_decide_false; [by apply IH|]. unfold full_name. intros Heq. apply Hx.
      assert (d_name x = d_name d) as ->; [|by apply list_elem_of_fmap_2].
      by apply (inj (String.append (file_package f))), (inj (String.append ".")) in Heq.
  - intros f p p' n d. destruct (_ && _); [|done]. intros [= <-] Hd. by rewrite ex_pool_find_app, Hd.
  - intros f p d Hf Hd Hs. destruct (_ && _) eqn:Hacc; [|done].
    apply andb_true_iff in Hacc as [_ Hnew]. rewrite forallb_forall in Hnew.
    specialize (Hnew d (proj1 (list_elem_of_In _ _) Hd)). by rewrite bool_decide_true in Hnew.
  - intros f p p'. destruct (_ && _); [|done]. intros [= <-]. rewrite fmap_app. set_solver.
Qed.

Lemma ex_reached c : reached ex_models (controller_members ex_users) c → c = "User" ∨ c = "Node".
Proof.
  intros (root & Hroot & Hr). cbn in Hroot.
  assert (root = "User" ∨ root = "Node") as Hstart by set_solver. clear Hroot.
  induction Hr as [|x y z (d & ts & Hm & Hin) _ IH]; [done|]. apply IH.
  destruct Hstart as [->| ->]; vm_compute in Hm; injection Hm as <- <-; set_solver.
Qed.

Lemma registered_service_serves_witness :
  ∃ handlers r, post_process ex_models ex_pool 4 ex_users (mk_registry [] []) = (Ok ("demo.v1.Users", handlers), r) ∧
    ∃ h, ("/demo.v1.Users/watch", h) ∈ handlers ∧ serves ex_models "watch" (mk_rpc BIDI_STREAMING (Some "Node") (Some "User")) h.
Proof.
  edestruct (registered_service_serves ex_models ex_pool (λ fs, file_name <$> fs) 4 ex_users)
    as (handlers & Hp & _ & Hall).
  - apply ex_file.
  - intros c c' [->| ->]%ex_reached [->| ->]%ex_reached; by vm_compute.
  - reflexivity.
  - by instantiate (1 := mk_registry [] []).
  - reflexivity.
  - exists handlers. eexists. split; [exact Hp|]. apply Hall. set_solver.
Defined.
