(* ===== verification/Logging.v ===== *)
(** * Logging

    [plugins/spakky-logging]: the aspect that logs calls
    ([aspects/logging_aspect.py]) with the masking of sensitive values
    ([constants.py]), the context of log records ([context.py], [filters.py],
    [log_context_binder.py]), the formatters and the set-up of the root logger
    ([post_processor.py]). What [re] does with the masking pattern is modelled by
    a backtracking matcher of its constructs. The asynchronous aspect has the
    same statements with [await]. *)

From S2P Require Import Prelude.
From Stdlib Require QArith_base.


(** ** Regular expressions

    The constructs the pattern uses, over a list of characters: one character of
    a class, an optional one, a greedy repetition, a lookahead for one of several
    words, and the end of the captured group. *)

Abbreviation text := (list ascii).

Inductive item :=
  | One (p : ascii → bool)
  | Optional (p : ascii → bool)
  | Star (p : ascii → bool)
  | Lookahead (words : list text)
  | GroupEnd.

Fixpoint starts_with (w s : text) : bool :=
  match w, s with
  | [], _ => true
  | c :: w', d :: s' => Ascii.eqb c d && starts_with w' s'
  | _ :: _, [] => false
  end.

(** [p*] then [k], the longest repetition first; [n] characters are consumed so
    far. *)
Fixpoint star {A} (p : ascii → bool) (k : nat → text → option A) (n : nat) (s : text) : option A :=
  match s with
  | c :: s' =>
      if p c then match star p k (S n) s' with Some a => Some a | None => k n s end else k n s
  | [] => k n s
  end.

(** The match of [items] at the start of [s], as the backtracking engine finds it:
    the length of the group and of the whole *)
Fixpoint match_items (items : list item) (n : nat) (group : nat) (s : text) : option (nat * nat) :=
  match items with
  | [] => Some (group, n)
  | One p :: items' =>
      match s with c :: s' => if p c then match_items items' (S n) group s' else None | [] => None end
  | Optional p :: items' =>
      match s with
      | c :: s' =>
          if p c then
            match match_items items' (S n) group s' with Some r => Some r | None => match_items items' n group s end
          else match_items items' n group s
      | [] => match_items items' n group s
      end
  | Star p :: items' => star p (λ n s, match_items items' n group s) n s
  | Lookahead ws :: items' => if existsb (λ w, starts_with w s) ws then match_items items' n group s else None
  | GroupEnd :: items' => match_items items' n n s
  end.

(** [pattern.sub(replacement, s)] where the replacement is the group and a fixed
    text; matches are not empty here. [skip] characters belong to a match. *)
Fixpoint sub_items (items : list item) (replacement : text) (skip : nat) (s : text) : text :=
  match s with
  | [] => []
  | c :: s' =>
      match skip with
      | S skip => sub_items items replacement skip s'
      | 0 =>
          match match_items items 0 0 s with
          | Some (group, n) => take group s ++ replacement ++ sub_items items replacement (Nat.pred n) s'
          | None => c :: sub_items items replacement 0 s'
          end
      end
  end.

(** ** Constants *)

Definition DEFAULT_MASK_KEYS : list string := ["password"; "secret"; "token"; "key"].
Definition DEFAULT_SLOW_THRESHOLD_MS : QArith_base.Q := QArith_base.inject_Z 1000.
Definition DEFAULT_MAX_RESULT_LENGTH : Z := 200.
Definition TEXT_SEPARATOR : string := " | ".
Definition HANDLER_NAME : string := "__spakky_logging_handler__".

Definition double_quote : ascii := Ascii.ascii_of_nat 34.
Definition is_quote (c : ascii) : bool := Ascii.eqb c "'" || Ascii.eqb c double_quote.
Definition not_quote (c : ascii) : bool := negb (is_quote c).
Definition is_separator (c : ascii) : bool := Ascii.eqb c ":" || Ascii.eqb c "=".
(** [MASKING_REGEX], with the group its replacement refers to *)
Definition MASKING_REGEX (keys : list text) : list item :=
  [Optional is_quote; Lookahead keys; Star not_quote; Optional is_quote; One is_separator; Star py_isspace; GroupEnd;
   One is_quote; Star not_quote; One is_quote].
Definition MASKED : text := String.list_ascii_of_string "'******'".

(** ** The annotation, the configuration and the aspect *)

Record Logged := mk_logged {
  enable_masking : bool;
  masking_keys : list string;
  slow_threshold_ms : option QArith_base.Q;
  max_result_length : option Z;
  log_args : bool;
  log_result : bool;
}.
Definition logged_defaults : Logged := mk_logged true [] None None true true.

Inductive LogFormat := TEXT | JSON | PRETTY.
Record LoggingConfig := mk_config {
  level : Z;
  format : LogFormat;
  package_levels : list (string * Z);
  config_mask_keys : list string;
  mask_replacement : string;
  config_slow_threshold_ms : QArith_base.Q;
  config_max_result_length : Z;
}.

Definition chars (s : string) : text := String.list_ascii_of_string s.
Definition unchars (l : text) : string := String.string_of_list_ascii l.

(** Without keys the alternatives are one empty word, which is everywhere. *)
Definition _build_mask (keys : list string) : list item :=
  MASKING_REGEX (match keys with [] => [[]] | _ => chars <$> keys end).
Definition mask_sub (mask : list item) (s : string) : string := unchars (sub_items mask MASKED 0 (chars s)).

(** [value[:k]] *)
Definition slice_to (k : Z) (l : text) : text :=
  take (Z.to_nat (if (k <? 0)%Z then (Z.of_nat (length l) + k) else k)) l.
Definition _truncate (value : string) (max_length : Z) : string :=
  if (Z.of_nat (length (chars value)) <=? max_length)%Z then value
  else unchars (slice_to (max_length - 3) (chars value)) +:+ "...".

Definition _format_args {V} (repr : V → string) (args : list V) (kwargs : list (string * V)) : string :=
  String.concat ", " ((repr <$> args) ++ ((λ '(k, v), k +:+ "=" +:+ repr v) <$> kwargs)).

(** [a or b] on the options of the annotation *)
Definition or_list (l d : list string) : list string := match l with [] => d | _ => l end.
Definition or_threshold (o : option QArith_base.Q) (d : QArith_base.Q) : QArith_base.Q :=
  match o with Some q => if QArith_base.Qeq_bool q (QArith_base.inject_Z 0) then d else q | None => d end.
Definition or_length (o : option Z) (d : Z) : Z :=
  match o with Some n => if (n =? 0)%Z then d else n | None => d end.

Definition mask_keys_of (a : Logged) (c : option LoggingConfig) : list string :=
  or_list (masking_keys a) (match c with Some c => config_mask_keys c | None => DEFAULT_MASK_KEYS end).
Definition slow_threshold_of (a : Logged) (c : option LoggingConfig) : QArith_base.Q :=
  or_threshold (slow_threshold_ms a)
    (match c with Some c => config_slow_threshold_ms c | None => DEFAULT_SLOW_THRESHOLD_MS end).
Definition max_result_length_of (a : Logged) (c : option LoggingConfig) : Z :=
  or_length (max_result_length a)
    (match c with Some c => config_max_result_length c | None => DEFAULT_MAX_RESULT_LENGTH end).

Inductive log_level := INFO | WARNING | ERROR.
Record logging_state (W : Type) := mk_logging_state { records : list (log_level * string); world : W }.
Arguments mk_logging_state {W}.
Arguments records {W}.
Arguments world {W}.

Section aspect.
Context {W E V R : Type}.
Context (perf_counter : W → QArith_base.Q * W).
Context (repr : V → string) (repr_result : R → string) (type_name : E → string) (fixed2 : QArith_base.Q → string).
(** [isinstance(e, Exception)]: the clause of the aspect catches it *)
Context (is_exception : E → bool).
Context (aspect_name qualname : string) (annotation : Logged) (config : option LoggingConfig).

Abbreviation action := (comp (logging_state W) E).

Definition read_clock : action QArith_base.Q := λ s,
  let '(t, w) := perf_counter (world s) in (Ok t, mk_logging_state (records s) w).
Definition emit (l : log_level) (m : string) : action unit :=
  modify (λ s, mk_logging_state (records s ++ [(l, m)]) (world s)).

Definition elapsed_ms (start stop : QArith_base.Q) : QArith_base.Q :=
  QArith_base.Qmult (QArith_base.Qminus stop start) (QArith_base.inject_Z 1000).
Definition masked (s : string) : string :=
  if enable_masking annotation then mask_sub (_build_mask (mask_keys_of annotation config)) s else s.
Definition call_text (args : list V) (kwargs : list (string * V)) : string :=
  "[" +:+ aspect_name +:+ "] " +:+ qualname +:+
  "(" +:+ (if log_args annotation then _format_args repr args kwargs else "...") +:+ ")".
Definition error_msg (args : list V) (kwargs : list (string * V)) (e : E) (ms : QArith_base.Q) : string :=
  call_text args kwargs +:+ " raised " +:+ type_name e +:+ " (" +:+ fixed2 ms +:+ "ms)".
Definition result_msg (args : list V) (kwargs : list (string * V)) (r : R) (ms : QArith_base.Q) : string :=
  call_text args kwargs +:+ " -> " +:+
  (if log_result annotation then _truncate (repr_result r) (max_result_length_of annotation config) else "...") +:+
  " (" +:+ fixed2 ms +:+ "ms)".

Definition around (joinpoint : list V → list (string * V) → action R) (args : list V) (kwargs : list (string * V)) : action R :=
  start <- read_clock ;;
  result <- try_except (joinpoint args kwargs)
    (λ e, if is_exception e then
            Some (stop <- read_clock ;;
                  emit ERROR (masked (error_msg args kwargs e (elapsed_ms start stop))) ;;;
                  raise e)
          else None) ;;
  stop <- read_clock ;;
  let ms := elapsed_ms start stop in
  let log_msg := masked (result_msg args kwargs result ms) in
  (if QArith_base.Qle_bool (slow_threshold_of annotation config) ms then emit WARNING ("[SLOW] " +:+ log_msg)
   else emit INFO log_msg) ;;;
  ret result.
End aspect.

(** ** The context of log records *)

Abbreviation log_context := (list (string * string)).

Section context.
Context {E : Type}.
Abbreviation in_context := (comp log_context E).

Definition bind_context (kwargs : log_context) : in_context unit := modify (λ c, dict_merge c kwargs).
Definition unbind (keys : list string) : in_context unit := modify (λ c, foldl (λ c k, dict_del k c) c keys).
Definition clear : in_context unit := modify (λ _, []).
Definition get_context : in_context log_context := get_state.
(** [with LogContext.scope(kwargs): body] *)
Definition scope {A} (kwargs : log_context) (body : in_context A) : in_context A :=
  previous <- get_state ;;
  modify (λ _, dict_merge previous kwargs) ;;;
  try_finally body (modify (λ _, previous)).
End context.

(** ** Records and formatters

    [attributes] are the attributes of the record, the standard ones first;
    [timestamp] and the texts of exceptions come from [datetime] and [logging]. *)

Record LogRecord := mk_record {
  levelname : string;
  levelno : Z;
  record_name : string;
  message : string;
  context : log_context;
  attributes : list (string * string);
  exc_text : option string;
  stack_info : option string;
}.

(** [ContextInjectingFilter.filter] *)
Definition filter_record (c : log_context) (r : LogRecord) : LogRecord :=
  mk_record (levelname r) (levelno r) (record_name r) (message r) c
    (foldl (λ attrs '(k, v), if dict_has k attrs || bool_decide (k = "context") then attrs else attrs ++ [(k, v)])
       (attributes r) c)
    (exc_text r) (stack_info r).

(** [f"{s:<5}"] *)
Definition pad5 (s : string) : string := s +:+ unchars (replicate (5 - String.length s) " "%char).
Definition context_text (c : log_context) : string := String.concat " " ((λ '(k, v), k +:+ "=" +:+ v) <$> c).
Definition newline : string := String (Ascii.ascii_of_nat 10) EmptyString.

(** What follows the line: the exception and the stack, each on lines of its own *)
Definition with_traces (line : string) (r : LogRecord) : string :=
  let line := match exc_text r with Some t => line +:+ newline +:+ t | None => line end in
  match stack_info r with Some t => line +:+ newline +:+ t | None => line end.

Definition text_format (timestamp : string) (r : LogRecord) : string :=
  let parts := [timestamp; pad5 (levelname r); record_name r] ++
    (match context r with [] => [] | c => [context_text c] end) ++ [message r] in
  with_traces (String.concat TEXT_SEPARATOR parts) r.

(** The object the JSON formatter prints *)
Definition json_entry (timestamp : string) (r : LogRecord) : list (string * string) :=
  let entry := [("timestamp", timestamp); ("level", levelname r); ("logger", record_name r); ("message", message r)] in
  let entry := dict_merge entry (context r) in
  let entry := match exc_text r with Some t => dict_set "exception" t entry | None => entry end in
  match stack_info r with Some t => dict_set "stack_info" t entry | None => entry end.

Definition ANSI_RESET : string := String (Ascii.ascii_of_nat 27) "[0m".
Definition ANSI_DIM : string := String (Ascii.ascii_of_nat 27) "[2m".
Definition LEVEL_COLORS (l : Z) : string :=
  let color n := String (Ascii.ascii_of_nat 27) ("[" +:+ n +:+ "m") in
  (if l =? 10 then color "36" else if l =? 20 then color "32" else if l =? 30 then color "33"
   else if l =? 40 then color "31" else if l =? 50 then color "35" else "")%Z.
Definition pretty_format (timestamp : string) (r : LogRecord) : string :=
  let bar := " " +:+ ANSI_DIM +:+ "|" +:+ ANSI_RESET in
  let header := ANSI_DIM +:+ timestamp +:+ ANSI_RESET +:+ bar +:+ " " +:+
    LEVEL_COLORS (levelno r) +:+ pad5 (levelname r) +:+ ANSI_RESET +:+ bar +:+ " " +:+ record_name r in
  let header := match context r with [] => header | c => header +:+ bar +:+ " " +:+ context_text c end in
  with_traces (header +:+ bar +:+ newline +:+ "  " +:+ message r) r.

(** ** Setting up the root logger *)

Record log_handler := mk_log_handler { handler_name : option string; handler_format : option LogFormat; injects_context : bool }.
Record root_logger := mk_root {
  root_handlers : list log_handler;
  root_level : Z;
  logger_levels : list (string * Z);
  configured : bool;
}.

Definition _configure (c : LoggingConfig) (r : root_logger) : root_logger :=
  let kept := List.filter (λ h, negb (bool_decide (handler_name h = Some HANDLER_NAME))) (root_handlers r) in
  mk_root (kept ++ [mk_log_handler (Some HANDLER_NAME) (Some (format c)) true]) (level c)
    (dict_merge (logger_levels r) (package_levels c)) (configured r).
(** [post_process]: [get] is what the container answers for [LoggingConfig]. *)
Definition setup_post_process {E} (get : outcome E LoggingConfig) : comp root_logger E unit :=
  root <- get_state ;;
  if configured root then ret tt
  else
    modify (λ r, mk_root (root_handlers r) (root_level r) (logger_levels r) true) ;;;
    c <- lift get ;;
    modify (_configure c).

(** ** What the mask hides

    The reference reads a message as chunks between quotes. A chunk with a key
    either ends in a separator, and the chunk after it is the value, or is the
    key itself, in quotes, and the chunk after the separator is the value. *)

Definition spaces_only (s : text) : bool := forallb py_isspace s.
(** [[:=]\s*] and nothing else *)
Definition sep_only (s : text) : bool := match s with c :: s' => is_separator c && spaces_only s' | [] => false end.
Fixpoint ends_sep (s : text) : bool := match s with [] => false | c :: s' => sep_only (c :: s') || ends_sep s' end.
Definition key_here (keys : list text) (s : text) : bool := existsb (λ w, starts_with w s) keys.
Fixpoint has_key (keys : list text) (s : text) : bool :=
  key_here keys s || match s with [] => false | _ :: s' => has_key keys s' end.

Abbreviation chunks := (list (ascii * text)).
Definition joined (rest : chunks) : text := flat_map (λ '(q, c), q :: c) rest.

Fixpoint mask_chunks (keys : list text) (fuel : nat) (c : text) (rest : chunks) : text :=
  match fuel with
  | 0 => c
  | S fuel =>
      let next := match rest with [] => c | (q, c1) :: rest' => c ++ q :: mask_chunks keys fuel c1 rest' end in
      let plain := match rest with
                   | (_, _) :: (_, c2) :: rest' =>
                       if ends_sep c then c ++ MASKED ++ mask_chunks keys fuel c2 rest' else next
                   | _ => next
                   end in
      if negb (has_key keys c) then next
      else match rest with
           | (q1, c1) :: (_, _) :: (_, c3) :: rest' =>
               if sep_only c1 then c ++ q1 :: c1 ++ MASKED ++ mask_chunks keys fuel c3 rest' else plain
           | _ => plain
           end
  end.

(** Keys are words: not empty, without quotes, separators and spaces. *)
Definition word (w : text) : Prop :=
  w ≠ [] ∧ Forall (λ c, not_quote c = true ∧ is_separator c = false ∧ py_isspace c = false) w.
Definition quote_free (s : text) : Prop := Forall (λ c, not_quote c = true) s.
Definition well_chunked (rest : chunks) : Prop := Forall (λ '(q, c), is_quote q = true ∧ quote_free c) rest.

Lemma quote_not_space q : is_quote q = true → py_isspace q = false ∧ is_separator q = false ∧ not_quote q = false.
Proof.
  unfold not_quote. intros Hq. rewrite Hq. split_and!; [..|done];
    (unfold is_quote in Hq; apply orb_true_iff in Hq as [?%Ascii.eqb_eq| ?%Ascii.eqb_eq]; by subst).
Qed.
Lemma well_chunked_cons q c rest :
  well_chunked ((q, c) :: rest) ↔ is_quote q = true ∧ quote_free c ∧ well_chunked rest.
Proof. unfold well_chunked. rewrite Forall_cons. tauto. Qed.
Lemma not_quote_spec c : not_quote c = true ↔ is_quote c = false.
Proof. unfold not_quote. by rewrite negb_true_iff. Qed.

(** *** The matcher *)

(** A greedy repetition whose continuation fails on what it repeats is determined. *)
Lemma star_until {A} p (k : nat → text → option A) n u r :
  Forall (λ c, p c = true) u → (∀ c s', r = c :: s' → p c = false) →
  (∀ n c s, p c = true → k n (c :: s) = None) →
  star p k n (u ++ r) = k (n + length u) r.
Proof.
  intros Hu Hr Hk. revert n. induction Hu as [|c u Hc _ IH]; intros n; cbn.
  - rewrite Nat.add_0_r. destruct r as [|d r]; [done|]. cbn. by rewrite (Hr d r eq_refl).
  - rewrite Hc, IH, Nat.add_succ_r. cbn. destruct (k (S (n + length u)) r) eqn:Hkr; [done|]. by apply Hk.
Qed.

Abbreviation value_items := [One is_quote; Star not_quote; One is_quote].
Abbreviation tail_items :=
  [Optional is_quote; One is_separator; Star py_isspace; GroupEnd; One is_quote; Star not_quote; One is_quote].

(** The quoted value at the head of [joined rest] *)
Definition value_at (n : nat) (rest : chunks) : option (nat * nat) :=
  match rest with (_, v) :: (_, _) :: _ => Some (n, n + length v + 2) | _ => None end.

Lemma match_value n g rest :
  well_chunked rest → match_items value_items n g (joined rest) =
    match rest with (_, v) :: (_, _) :: _ => Some (g, n + length v + 2) | _ => None end.
Proof.
  intros Hrest. destruct rest as [|[q v] rest]; [done|]. apply well_chunked_cons in Hrest as (Hq & Hv & Hrest').
  cbn -[star]. rewrite Hq.
  rewrite (star_until not_quote _ (S n) v (joined rest)).
  - destruct rest as [|[q2 c2] rest]; [done|]. apply well_chunked_cons in Hrest' as (Hq2 & _ & _). cbn. rewrite Hq2.
    do 2 f_equal. lia.
  - done.
  - intros c s' Hj. destruct rest as [|[q2 c2] rest]; [done|]. apply well_chunked_cons in Hrest' as (Hq2 & _ & _).
    injection Hj as -> _. by apply quote_not_space.
  - intros m c s Hc. apply not_quote_spec in Hc. cbn. by rewrite Hc.
Qed.
Lemma match_spaces_value n g sp rest :
  well_chunked rest → spaces_only sp = true →
  match_items ([Star py_isspace; GroupEnd] ++ value_items) n g (sp ++ joined rest) = value_at (n + length sp) rest.
Proof.
  intros Hrest Hsp. cbn [app match_items].
  rewrite (star_until py_isspace _ n sp (joined rest)).
  - apply (match_value _ _ _ Hrest).
  - apply Forall_forall. intros c Hc%list_elem_of_In. unfold spaces_only in Hsp. rewrite forallb_forall in Hsp. by apply Hsp.
  - intros c s' Hj. destruct rest as [|[q v] rest]; [done|]. apply well_chunked_cons in Hrest as (Hq & _ & _).
    injection Hj as -> _. by apply quote_not_space.
  - intros m c s Hc. cbn. destruct (is_quote c) eqn:Hq; [|done]. apply quote_not_space in Hq as (Hs & _). congruence.
Qed.
Lemma match_spaces_other n g sp c u rest :
  spaces_only sp = true → py_isspace c = false → is_quote c = false →
  match_items ([Star py_isspace; GroupEnd] ++ value_items) n g (sp ++ c :: u ++ joined rest) = None.
Proof.
  intros Hsp Hc Hq. cbn [app match_items]. rewrite (star_until py_isspace _ n sp (c :: u ++ joined rest)).
  - cbn. by rewrite Hq.
  - apply Forall_forall. intros d Hd%list_elem_of_In. unfold spaces_only in Hsp. rewrite forallb_forall in Hsp. by apply Hsp.
  - by intros ? ? [= -> _].
  - intros m d s Hd. cbn. destruct (is_quote d) eqn:Hq'; [|done]. apply quote_not_space in Hq' as (Hs & _). congruence.
Qed.

(** A text is spaces, or spaces and then another character. *)
Lemma spaces_split (u : text) :
  spaces_only u = true ∨ ∃ sp c u', u = sp ++ c :: u' ∧ spaces_only sp = true ∧ py_isspace c = false.
Proof.
  induction u as [|c u IH]; [by left|]. destruct (py_isspace c) eqn:Hc.
  - destruct IH as [IH|(sp & d & u' & -> & Hsp & Hd)]; [left; cbn; by rewrite Hc|right].
    exists (c :: sp), d, u'. cbn. by rewrite Hc.
  - right. exists [], c, u. done.
Qed.

Lemma match_spaces n g u rest :
  well_chunked rest → quote_free u →
  match_items ([Star py_isspace; GroupEnd] ++ value_items) n g (u ++ joined rest) =
  if spaces_only u then value_at (n + length u) rest else None.
Proof.
  intros Hrest Hu. destruct (spaces_split u) as [Hs|(sp & c & u' & -> & Hsp & Hc)].
  - rewrite Hs. by apply match_spaces_value.
  - assert (spaces_only (sp ++ c :: u') = false) as ->.
    { unfold spaces_only. rewrite forallb_app. cbn. rewrite Hc. by rewrite andb_false_r. }
    rewrite <- app_assoc. cbn [app]. apply match_spaces_other; [done|done|].
    unfold quote_free in Hu. rewrite Forall_app, Forall_cons in Hu. apply not_quote_spec. tauto.
Qed.

(** From inside a chunk: a separator must follow. *)
Lemma match_tail_chunk n u rest c :
  well_chunked rest → quote_free (c :: u) →
  match_items tail_items n 0 (c :: u ++ joined rest) =
  if sep_only (c :: u) then value_at (n + length (c :: u)) rest else None.
Proof.
  intros Hrest Hu. inversion Hu as [|? ? Hc Hu']; subst. apply not_quote_spec in Hc.
  cbn [app match_items sep_only]. rewrite Hc. destruct (is_separator c); cbn [andb]; [|done].
  change (match_items ([Star py_isspace; GroupEnd] ++ value_items) (S n) 0 (u ++ joined rest) =
    if spaces_only u then value_at (n + S (length u)) rest else None).
  rewrite match_spaces by done. by rewrite Nat.add_succ_r.
Qed.
(** At the end of a chunk: the key was in quotes. *)
Definition quoted_key_at (n : nat) (rest : chunks) : option (nat * nat) :=
  match rest with
  | (_, c1) :: rest' => if sep_only c1 then value_at (n + 1 + length c1) rest' else None
  | [] => None
  end.
Lemma match_tail_end n rest :
  well_chunked rest → match_items tail_items n 0 (joined rest) = quoted_key_at n rest.
Proof.
  intros Hrest. destruct rest as [|[q c1] rest]; [done|]. apply well_chunked_cons in Hrest as (Hq & Hc1 & Hrest').
  destruct (quote_not_space q Hq) as (_ & Hqs & _).
  cbn [joined flat_map app match_items quoted_key_at]. rewrite Hq, Hqs.
  change (flat_map (λ '(q, c), q :: c) rest) with (joined rest).
  assert (match c1 ++ joined rest with
     | c :: s' => if is_separator c then match_items ([Star py_isspace; GroupEnd] ++ value_items) (S (S n)) 0 s' else None
     | [] => None end = if sep_only c1 then value_at (n + 1 + length c1) rest else None) as Hgoal.
  { destruct c1 as [|c c1]; cbn [app sep_only].
    - destruct rest as [|[q2 c2] rest]; [done|]. apply well_chunked_cons in Hrest' as (Hq2 & _ & _). cbn.
      destruct (quote_not_space q2 Hq2) as (_ & -> & _). done.
    - inversion Hc1; subst. destruct (is_separator c); cbn [andb]; [|done]. rewrite match_spaces by done.
      cbn [length]. by replace (n + 1 + S (length c1)) with (S (S n) + length c1) by lia. }
  cbn [app match_items] in Hgoal. rewrite Hgoal. destruct (sep_only c1); [|done].
  by destruct (value_at (n + 1 + length c1) rest).
Qed.

(** A match is the rest of a chunk with a key, what is before the value, and the
    value with its quotes. *)
Definition chunk_result (ends : bool) (rest : chunks) : option (text * text * text) :=
  let plain := match rest with
               | (q1, v) :: (q2, c2) :: rest' => if ends then Some ([], q1 :: v ++ [q2], c2 ++ joined rest') else None
               | _ => None
               end in
  match rest with
  | (q1, c1) :: (q2, v) :: (q3, c3) :: rest' =>
      if sep_only c1 then Some (q1 :: c1, q2 :: v ++ [q3], c3 ++ joined rest') else plain
  | _ => plain
  end.
Definition chunk_match (n : nat) (r : option (text * text * text)) : option (nat * nat) :=
  match r with Some (a, v, _) => Some (n + length a, n + length a + length v) | None => None end.

Lemma match_key n u rest :
  well_chunked rest → quote_free u →
  match_items (Star not_quote :: tail_items) n 0 (u ++ joined rest) =
  chunk_match (n + length u) (chunk_result (ends_sep u) rest).
Proof.
  intros Hrest Hu. change (match_items (Star not_quote :: tail_items) n 0 (u ++ joined rest)) with
    (star not_quote (λ n s, match_items tail_items n 0 s) n (u ++ joined rest)).
  assert (star not_quote (λ n s, match_items tail_items n 0 s) n (u ++ joined rest) =
    match quoted_key_at (n + length u) rest with
    | Some r => Some r
    | None => if ends_sep u then value_at (n + length u) rest else None
    end) as ->.
  { revert n. induction u as [|c u IH]; intros n.
    - rewrite Nat.add_0_r. transitivity (match_items tail_items n 0 (joined rest)).
      + destruct rest as [|[q c] rest]; [done|]. apply well_chunked_cons in Hrest as (Hq & _ & _).
        cbn -[match_items]. by rewrite (proj2 (proj2 (quote_not_space q Hq))).
      + rewrite match_tail_end by done. by destruct (quoted_key_at _ _).
    - pose proof Hu as [Hc Hu']%Forall_cons. cbn -[match_items sep_only]. rewrite Hc, IH by done.
      rewrite (match_tail_chunk n u rest c) by done.
      cbn [length]. rewrite !Nat.add_succ_r. cbn [Nat.add]. destruct (quoted_key_at _ _); [done|].
      destruct (ends_sep u), (sep_only (c :: u)), (value_at _ _); done. }
  unfold quoted_key_at, value_at, chunk_result, chunk_match.
  destruct rest as [|[q1 c1] [|[q2 c2] [|[q3 c3] rest]]]; try done.
  - by destruct (ends_sep u).
  - by destruct (sep_only c1), (ends_sep u).
  - destruct (sep_only c1), (ends_sep u); cbn; rewrite ?length_app; cbn; try done; do 2 f_equal; lia.
  - destruct (sep_only c1); [cbn; rewrite ?length_app; cbn; do 2 f_equal; lia|].
    destruct (ends_sep u); [|done]. cbn; rewrite ?length_app; cbn; do 2 f_equal; lia.
Qed.

(** Words do not see the end of a chunk. *)
Lemma starts_with_chunk w u rest :
  word w → well_chunked rest → starts_with w (u ++ joined rest) = starts_with w u.
Proof.
  intros [_ Hw] Hrest. revert u. induction Hw as [|c w [Hc _] _ IH]; intros u; [done|].
  destruct u as [|d u]; cbn; [|by rewrite IH].
  destruct rest as [|[q c'] rest]; [done|]. apply well_chunked_cons in Hrest as (Hq & _ & _). cbn.
  destruct (Ascii.eqb_spec c q) as [->|]; [|done]. apply not_quote_spec in Hc. congruence.
Qed.
Lemma key_here_chunk keys u rest :
  Forall word keys → well_chunked rest → key_here keys (u ++ joined rest) = key_here keys u.
Proof.
  intros Hkeys Hrest. unfold key_here. induction Hkeys as [|w keys Hw _ IH]; [done|]. cbn.
  by rewrite IH, starts_with_chunk.
Qed.
Lemma key_here_nil keys : Forall word keys → key_here keys [] = false.
Proof. unfold key_here. induction 1 as [|w keys [Hw _] _ IH]; [done|]. cbn. rewrite IH. by destruct w. Qed.
Lemma key_here_quote keys q s : Forall word keys → is_quote q = true → key_here keys (q :: s) = false.
Proof.
  unfold key_here. intros Hkeys Hq. induction Hkeys as [|w keys [Hw Hc] _ IH]; [done|]. cbn. rewrite IH.
  destruct w as [|c w]; [done|]. apply Forall_cons in Hc as [[Hc _] _]. cbn.
  destruct (Ascii.eqb_spec c q) as [->|]; [|done]. apply not_quote_spec in Hc. congruence.
Qed.

(** The match at a character of a chunk, and at a quote *)
Lemma match_chunk keys c u rest :
  Forall word keys → well_chunked rest → quote_free (c :: u) →
  match_items (MASKING_REGEX keys) 0 0 (c :: u ++ joined rest) =
  if key_here keys (c :: u) then chunk_match (S (length u)) (chunk_result (ends_sep (c :: u)) rest) else None.
Proof.
  intros Hkeys Hrest Hu. pose proof Hu as [Hc _]%Forall_cons. apply not_quote_spec in Hc.
  unfold MASKING_REGEX. cbn [match_items]. rewrite Hc.
  change (existsb (λ w, starts_with w (c :: u ++ joined rest)) keys) with (key_here keys ((c :: u) ++ joined rest)).
  rewrite key_here_chunk by done. destruct (key_here keys (c :: u)); [|done].
  apply (match_key 0 (c :: u) rest Hrest Hu).
Qed.
Lemma match_quote keys q c rest :
  Forall word keys → is_quote q = true → well_chunked rest → quote_free c →
  match_items (MASKING_REGEX keys) 0 0 (q :: c ++ joined rest) =
  if key_here keys c then chunk_match (S (length c)) (chunk_result (ends_sep c) rest) else None.
Proof.
  intros Hkeys Hq Hrest Hc. unfold MASKING_REGEX. cbn [match_items]. rewrite Hq.
  change (existsb (λ w, starts_with w (c ++ joined rest)) keys) with (key_here keys (c ++ joined rest)).
  change (existsb (λ w, starts_with w (q :: c ++ joined rest)) keys) with (key_here keys (q :: c ++ joined rest)).
  rewrite key_here_chunk, key_here_quote by done. destruct (key_here keys c); [|done].
  pose proof (match_key 1 c rest Hrest Hc) as Hm. cbn [match_items] in Hm. rewrite Hm.
  cbn [Nat.add]. by destruct (chunk_match _ _).
Qed.

(** *** Substituting *)

Lemma sub_skip items r k s : sub_items items r k s = sub_items items r 0 (drop k s).
Proof. revert k. induction s as [|c s IH]; intros [|k]; try done. cbn [drop]. apply IH. Qed.
Lemma sub_match items r a v t :
  v ≠ [] → match_items items 0 0 (a ++ v ++ t) = Some (length a, length a + length v) →
  sub_items items r 0 (a ++ v ++ t) = a ++ r ++ sub_items items r 0 t.
Proof.
  intros Hv Hm. destruct (a ++ v ++ t) as [|c s] eqn:Hs; [by destruct a, v|].
  cbn [sub_items]. rewrite Hm. rewrite sub_skip, <- Hs, take_app_length. do 2 f_equal.
  assert (drop (Nat.pred (length a + length v)) s = t) as ->; [|done].
  replace (drop (Nat.pred (length a + length v)) s) with (drop (length a + length v) (c :: s)).
  - by rewrite <- Hs, app_assoc, <- length_app, drop_app_length.
  - destruct v as [|d v]; [done|]. cbn [length]. by rewrite Nat.add_succ_r.
Qed.

Lemma chunk_result_spec e rest a v t : chunk_result e rest = Some (a, v, t) → joined rest = a ++ v ++ t ∧ v ≠ [].
Proof.
  assert (∀ q1 v q2 c2 rest', joined ((q1, v) :: (q2, c2) :: rest') = (q1 :: v ++ [q2]) ++ c2 ++ joined rest') as Hj.
  { intros. cbn. by rewrite <- app_assoc. }
  unfold chunk_result. destruct rest as [|[q1 c1] [|[q2 c2] rest]]; [done..|].
  destruct rest as [|[q3 c3] rest].
  - destruct e; [|done]. intros [= <- <- <-]. by rewrite Hj.
  - destruct (sep_only c1).
    + intros [= <- <- <-]. split; [|done].
      change (joined ((q1, c1) :: (q2, c2) :: (q3, c3) :: rest)) with ((q1 :: c1) ++ joined ((q2, c2) :: (q3, c3) :: rest)).
      by rewrite Hj.
    + destruct e; [|done]. intros [= <- <- <-]. by rewrite Hj.
Qed.
Lemma chunk_result_mono rest : chunk_result true rest = None → chunk_result false rest = None.
Proof. destruct rest as [|[q1 c1] [|[q2 c2] [|[q3 c3] rest]]]; cbn; try done. by destruct (sep_only c1). Qed.

Lemma spaces_no_key keys u : Forall word keys → spaces_only u = true → has_key keys u = false.
Proof.
  intros Hkeys. induction u as [|c u IH]; intros Hu; cbn -[key_here]; [by rewrite key_here_nil|].
  apply andb_true_iff in Hu as [Hc Hu]. rewrite IH, orb_false_r by done. clear IH. unfold key_here.
  induction Hkeys as [|w keys [Hw Hcs] _ IHk]; [done|]. cbn. rewrite IHk by done. destruct w as [|d w]; [done|].
  apply Forall_cons in Hcs as [(_ & _ & Hd) _]. cbn. destruct (Ascii.eqb_spec d c) as [->|]; [congruence|done].
Qed.

Lemma sub_chunk keys u rest :
  Forall word keys → well_chunked rest → quote_free u →
  sub_items (MASKING_REGEX keys) MASKED 0 (u ++ joined rest) =
  match (if has_key keys u then chunk_result (ends_sep u) rest else None) with
  | Some (a, _, t) => u ++ a ++ MASKED ++ sub_items (MASKING_REGEX keys) MASKED 0 t
  | None => u ++ sub_items (MASKING_REGEX keys) MASKED 0 (joined rest)
  end.
Proof.
  intros Hkeys Hrest. induction u as [|c u IH]; intros Hu.
  - cbn [has_key]. by rewrite key_here_nil.
  - pose proof Hu as [Hc Hu']%Forall_cons. specialize (IH Hu').
    pose proof (match_chunk keys c u rest Hkeys Hrest Hu) as Hm.
    assert (has_key keys (c :: u) = key_here keys (c :: u) || has_key keys u) as Hhas by done.
    assert (match_items (MASKING_REGEX keys) 0 0 (c :: u ++ joined rest) = None →
      sub_items (MASKING_REGEX keys) MASKED 0 ((c :: u) ++ joined rest) =
      c :: sub_items (MASKING_REGEX keys) MASKED 0 (u ++ joined rest)) as Hstep.
    { intros Hnone. cbn [app sub_items]. by rewrite Hnone. }
    destruct (key_here keys (c :: u)) eqn:Hkey; rewrite Hhas; cbn [orb].
    + destruct (chunk_result (ends_sep (c :: u)) rest) as [[[a v] t]|] eqn:Hr.
      * destruct (chunk_result_spec _ _ _ _ _ Hr) as [Hj Hv]. rewrite Hj in Hm |- *.
        rewrite !app_assoc, <- (app_assoc _ v t). rewrite (sub_match _ _ ((c :: u) ++ a) v t Hv); [by rewrite <- !app_assoc|].
        rewrite <- app_assoc. change ((c :: u) ++ a ++ v ++ t) with (c :: u ++ a ++ v ++ t). rewrite Hm. cbn.
        by rewrite length_app.
      * rewrite Hstep by done. rewrite IH.
        replace (if has_key keys u then chunk_result (ends_sep u) rest else None) with (@None (text * text * text)); [done|].
        destruct (has_key keys u); [|done]. cbn [ends_sep] in Hr. destruct (ends_sep u).
        -- by rewrite orb_true_r in Hr.
        -- destruct (sep_only (c :: u)); [by rewrite chunk_result_mono|done].
    + rewrite Hstep by done. rewrite IH. destruct (has_key keys u) eqn:Hu2; [|done].
      replace (ends_sep (c :: u)) with (ends_sep u); [by destruct (chunk_result _ _) as [[[? ?] ?]|]|].
      cbn [ends_sep sep_only]. destruct (spaces_only u) eqn:Hsp; [|by rewrite andb_false_r].
      rewrite spaces_no_key in Hu2 by done. done.
Qed.

(** Starting at a quote is starting after it. *)
Lemma sub_quote keys q c rest :
  Forall word keys → well_chunked ((q, c) :: rest) →
  sub_items (MASKING_REGEX keys) MASKED 0 (joined ((q, c) :: rest)) =
  q :: sub_items (MASKING_REGEX keys) MASKED 0 (c ++ joined rest).
Proof.
  intros Hkeys (Hq & Hc & Hrest)%well_chunked_cons.
  change (joined ((q, c) :: rest)) with (q :: c ++ joined rest).
  pose proof (match_quote keys q c rest Hkeys Hq Hrest Hc) as Hm.
  destruct (match_items (MASKING_REGEX keys) 0 0 (q :: c ++ joined rest)) as [gn|] eqn:Hmatch.
  - destruct (key_here keys c) eqn:Hkey; [|done]. rewrite sub_chunk by done.
    assert (has_key keys c = true) as -> by (destruct c; cbn -[key_here]; by rewrite Hkey).
    destruct (chunk_result (ends_sep c) rest) as [[[a v] t]|] eqn:Hr; [|done].
    destruct (chunk_result_spec _ _ _ _ _ Hr) as [Hj Hv]. rewrite Hj in Hmatch |- *.
    change (q :: c ++ a ++ v ++ t) with ((q :: c) ++ a ++ v ++ t) in *. rewrite app_assoc in Hmatch |- *.
    rewrite (sub_match _ _ ((q :: c) ++ a) v t Hv); [by rewrite <- app_assoc|].
    rewrite Hmatch, Hm. cbn. by rewrite length_app.
  - cbn [sub_items]. by rewrite Hmatch.
Qed.

Lemma sub_next keys c rest :
  Forall word keys → well_chunked rest → quote_free c →
  c ++ sub_items (MASKING_REGEX keys) MASKED 0 (joined rest) =
  match rest with
  | [] => c
  | (q, c1) :: rest' => c ++ q :: sub_items (MASKING_REGEX keys) MASKED 0 (c1 ++ joined rest')
  end.
Proof.
  intros Hkeys Hrest Hc. destruct rest as [|[q c1] rest]; [by rewrite app_nil_r|]. by rewrite sub_quote.
Qed.

Lemma masking_follows_the_chunks keys fuel c rest :
  Forall word keys → quote_free c → well_chunked rest → length rest < fuel →
  sub_items (MASKING_REGEX keys) MASKED 0 (c ++ joined rest) = mask_chunks keys fuel c rest.
Proof.
  intros Hkeys. revert c rest. induction fuel as [|fuel IH]; intros c rest Hc Hrest Hfuel; [lia|].
  rewrite sub_chunk, sub_next by done. cbn [mask_chunks].
  destruct rest as [|[q1 c1] rest]; [by destruct (has_key keys c)|].
  apply well_chunked_cons in Hrest as (Hq1 & Hc1 & Hrest). cbn [length] in Hfuel.
  rewrite (IH c1 rest Hc1 Hrest) by lia.
  destruct rest as [|[q2 c2] rest]; [by destruct (has_key keys c)|].
  apply well_chunked_cons in Hrest as (Hq2 & Hc2 & Hrest). cbn [length] in Hfuel.
  destruct (has_key keys c); cbn [negb]; [|done].
  destruct rest as [|[q3 c3] rest].
  - cbn [chunk_result]. destruct (ends_sep c); [|done]. cbn [app]. rewrite (IH c2 []) by (done || cbn; lia). done.
  - pose proof Hrest as (Hq3 & Hc3 & Hrest3)%well_chunked_cons. cbn [length] in Hfuel. cbn [chunk_result].
    destruct (sep_only c1).
    + rewrite (IH c3 rest) by (done || lia). by rewrite <- app_comm_cons.
    + destruct (ends_sep c); [|done]. cbn [app]. rewrite (IH c2 ((q3, c3) :: rest)) by (done || cbn; lia). done.
Qed.

Definition word_b (w : text) : bool :=
  match w with [] => false | _ => forallb (λ c, not_quote c && negb (is_separator c) && negb (py_isspace c)) w end.

Lemma quote_free_b s : forallb not_quote s = true → quote_free s.
Proof. rewrite forallb_forall. intros H. apply Forall_forall. intros c Hc%list_elem_of_In. by apply H. Qed.
Lemma word_b_spec w : word_b w = true → word w.
Proof.
  intros H. split; [by intros ->|]. apply Forall_forall. intros c Hc%list_elem_of_In.
  assert (forallb (λ c, not_quote c && negb (is_separator c) && negb (py_isspace c)) w = true) as Hall by by destruct w.
  rewrite forallb_forall in Hall. specialize (Hall c Hc).
  rewrite !andb_true_iff, !negb_true_iff in Hall. tauto.
Qed.
Lemma words_b_spec keys : forallb word_b keys = true → Forall word keys.
Proof. rewrite forallb_forall. intros H. apply Forall_forall. intros w Hw%list_elem_of_In. by apply word_b_spec, H. Qed.

Lemma unchars_chars l : chars (unchars l) = l.
Proof. apply String.list_ascii_of_string_of_list_ascii. Qed.
(** The masking pattern does what a reader of quotes would do. Cut the message
    at its quotes: where a piece contains one of the keys, the value in quotes
    after it, when the piece ends in a colon or an equals sign, or after the next
    piece, when the key was in quotes itself, is replaced with stars and reading
    goes on behind it; every other piece is copied. *)
Theorem masking_is_by_chunks (keys : list string) (c : text) (rest : chunks) :
  forallb word_b (chars <$> keys) = true → keys ≠ [] → forallb not_quote c = true → well_chunked rest →
  mask_sub (_build_mask keys) (unchars (c ++ joined rest)) =
  unchars (mask_chunks (chars <$> keys) (S (length rest)) c rest).
Proof.
  intros Hkeys Hne Hc Hrest. unfold mask_sub, _build_mask. rewrite unchars_chars. destruct keys as [|k keys]; [done|].
  by rewrite (masking_follows_the_chunks _ (S (length rest))) by auto using words_b_spec, quote_free_b.
Qed.

(** *** Quoted values

    A text goes on safely when it does not start with a separator. *)

Definition goes_on (s : text) : bool := match s with c :: _ => negb (is_separator c) | [] => true end.
(** A text between two quotes, and not of the other kind inside *)
Definition quoted (t v : text) : Prop :=
  ∃ q q', is_quote q = true ∧ is_quote q' = true ∧ quote_free v ∧ t = q :: v ++ [q'].
(** What may stand for an argument that is shown: without quotes, or between quotes
    and not ending in a separator *)
Definition plain_text (t : text) : Prop := quote_free t ∨ ∃ v, quoted t v ∧ ends_sep v = false.
(** What may stand for one that is hidden: between quotes and not a separator itself *)
Definition secret_text (t : text) : Prop := ∃ v, quoted t v ∧ sep_only v = false.

Lemma cut_at_quotes (s : text) : ∃ c rest, s = c ++ joined rest ∧ quote_free c ∧ well_chunked rest.
Proof.
  induction s as [|d s (c & rest & -> & Hc & Hrest)]; [exists [], []; split_and!; [done|constructor|constructor]|].
  destruct (is_quote d) eqn:Hd.
  - exists [], ((d, c) :: rest). split_and!; [done|constructor|]. by apply well_chunked_cons.
  - exists (d :: c), rest. split_and!; [done| |done]. constructor; [by apply not_quote_spec|done].
Qed.
Lemma sep_only_ends v : ends_sep v = false → sep_only v = false.
Proof. destruct v; [done|]. cbn [ends_sep]. by intros [? _]%orb_false_iff. Qed.
Lemma goes_on_sep_only c s : goes_on (c ++ s) = true → sep_only c = false.
Proof. destruct c as [|d c]; [done|]. cbn. by intros ->%negb_true_iff. Qed.
Lemma has_key_app keys c p : has_key keys p = true → has_key keys (c ++ p) = true.
Proof. intros Hp. induction c as [|d c IH]; [done|]. cbn -[key_here]. by rewrite IH, orb_true_r. Qed.
Lemma ends_sep_app c p : ends_sep p = true → ends_sep (c ++ p) = true.
Proof. intros Hp. induction c as [|d c IH]; [done|]. cbn -[sep_only]. by rewrite IH, orb_true_r. Qed.
Lemma has_key_prefix keys k s : has_key keys k = true → has_key keys (k ++ s) = true.
Proof.
  assert (∀ w u, starts_with w u = true → starts_with w (u ++ s) = true) as Hw.
  { induction w as [|c w IH]; [done|]. intros [|d u]; [done|]. cbn. intros [-> Hu]%andb_true_iff. by apply IH. }
  assert (∀ u, key_here keys u = true → key_here keys (u ++ s) = true) as Hkey.
  { unfold key_here. intros u. rewrite !existsb_exists. intros (w & Hin & Hu). eauto. }
  induction k as [|c k IH]; cbn -[key_here].
  - rewrite orb_false_r. intros Hk%Hkey. cbn in Hk. destruct s; cbn -[key_here]; by rewrite Hk.
  - intros [Hk%Hkey|Hk]%orb_true_iff; [cbn in Hk|]; [by rewrite Hk|]. by rewrite (IH Hk), orb_true_r.
Qed.

Section quoted_values.
Context (keys : list text) (Hkeys : Forall word keys).
Abbreviation mask_text := (sub_items (MASKING_REGEX keys) MASKED 0).

(** A quoted value after a piece of the message: hidden, or copied *)
Lemma mask_quoted c q v q' U :
  quote_free c → is_quote q = true → is_quote q' = true → quote_free v → sep_only v = false →
  mask_text (c ++ q :: v ++ q' :: U) =
  if has_key keys c && ends_sep c then c ++ MASKED ++ mask_text U else c ++ q :: mask_text (v ++ q' :: U).
Proof.
  intros Hc Hq Hq' Hv Hsep. destruct (cut_at_quotes U) as (u & rest & -> & Hu & Hrest).
  assert (well_chunked ((q, v) :: (q', u) :: rest)) as Hw by (rewrite !well_chunked_cons; tauto).
  change (q :: v ++ q' :: u ++ joined rest) with (joined ((q, v) :: (q', u) :: rest)).
  rewrite sub_chunk by done. rewrite sub_quote by done.
  change (v ++ q' :: u ++ joined rest) with (v ++ joined ((q', u) :: rest)).
  destruct (has_key keys c); [|done]. cbn [andb chunk_result].
  destruct rest as [|[q3 c3] rest]; rewrite ?Hsep; by destruct (ends_sep c).
Qed.
Lemma mask_copied v q' U :
  quote_free v → is_quote q' = true → ends_sep v = false → goes_on U = true →
  mask_text (v ++ q' :: U) = v ++ q' :: mask_text U.
Proof.
  intros Hv Hq' Hsep HU. destruct (cut_at_quotes U) as (u & rest & -> & Hu & Hrest).
  assert (well_chunked ((q', u) :: rest)) as Hw by (rewrite !well_chunked_cons; tauto).
  change (q' :: u ++ joined rest) with (joined ((q', u) :: rest)).
  rewrite sub_chunk, sub_quote by done. rewrite Hsep. apply goes_on_sep_only in HU.
  destruct (has_key keys v); [|done]. cbn [chunk_result].
  by destruct rest as [|[q3 c3] [|[q4 c4] rest]]; rewrite ?HU.
Qed.

(** *** Arguments

    An argument in a message is what comes before its value, and the value. *)

Abbreviation argument := (text * text)%type.
Definition arguments_text (l : list argument) : text := flat_map (λ '(p, t), p ++ t) l.
Definition same_but_hidden (a a' : argument) : Prop :=
  a.1 = a'.1 ∧ quote_free a.1 ∧ a.1 ≠ [] ∧ goes_on a.1 = true ∧
  (a.2 = a'.2 ∧ plain_text a.2 ∨
   has_key keys a.1 = true ∧ ends_sep a.1 = true ∧ secret_text a.2 ∧ secret_text a'.2).

Lemma goes_on_arguments l l' T : Forall2 same_but_hidden l l' → goes_on T = true →
  goes_on (arguments_text l ++ T) = true.
Proof. intros [|[p t] [p' t'] ? ? (_ & _ & Hne & Hp & _)] HT; [done|]. cbn in *. by destruct p. Qed.

(** Every hidden value of [l] is shown as stars in [m]. *)
Definition stars_shown (l : list argument) (m : text) : Prop :=
  Forall (λ '(p, t), has_key keys p = true → ends_sep p = true → secret_text t → ∃ a b, m = a ++ p ++ MASKED ++ b) l.
Lemma stars_shown_app l a m : stars_shown l m → stars_shown l (a ++ m).
Proof.
  intros Hl. eapply Forall_impl; [exact Hl|]. intros [p t] H Hk He Ht. destruct (H Hk He Ht) as (x & y & ->). exists (a ++ x), y. by rewrite <- app_assoc.
Qed.

Lemma quoted_not_free t v : quoted t v → ¬ quote_free t.
Proof. intros (q & q' & Hq & _ & _ & ->) [Hn _]%Forall_cons. apply not_quote_spec in Hn. congruence. Qed.

Lemma mask_arguments l l' T c :
  Forall2 same_but_hidden l l' → quote_free c → goes_on T = true →
  mask_text (c ++ arguments_text l ++ T) = mask_text (c ++ arguments_text l' ++ T) ∧
  stars_shown l (mask_text (c ++ arguments_text l ++ T)).
Proof.
  intros Hl Hc HT. revert c Hc. induction Hl as [|[p t] [p' t'] l l' (Hp & Hpq & _ & _ & Hcase) Hl IH]; intros c Hc.
  { split; [done|constructor]. }
  cbn [fst snd] in *. subst p'. change (arguments_text ((p, t) :: l)) with ((p ++ t) ++ arguments_text l).
  change (arguments_text ((p, t') :: l')) with ((p ++ t') ++ arguments_text l').
  assert (quote_free (c ++ p)) as Hcp by by apply Forall_app.
  pose proof (goes_on_arguments l l' T Hl HT) as HU.
  assert (goes_on (arguments_text l' ++ T) = true) as HU'.
  { destruct Hl as [|[p1 ?] [p2 ?] ? ? (? & _ & Hne & Hp1 & _)]; [done|]. cbn in *. subst. by destruct p2. }
  set (U := arguments_text l ++ T) in *. set (U' := arguments_text l' ++ T) in *.
  replace (c ++ ((p ++ t) ++ arguments_text l) ++ T) with (((c ++ p) ++ t) ++ U) by (unfold U; by rewrite <- !app_assoc).
  replace (c ++ ((p ++ t') ++ arguments_text l') ++ T) with (((c ++ p) ++ t') ++ U') by (unfold U'; by rewrite <- !app_assoc).
  assert (∀ t0 v q q' V, t0 = q :: v ++ [q'] → ((c ++ p) ++ t0) ++ V = (c ++ p) ++ q :: v ++ q' :: V) as Hshape.
  { intros t0 v q q' V ->. by repeat (rewrite <- app_assoc; cbn). }
  destruct Hcase as [[<- [Hfree|(v & (q & q' & Hq & Hq' & Hv & Ht) & Hsep)]]|(Hkey & Hends & (v & (q & q' & Hq & Hq' & Hv & Ht) & Hsep) & (v' & (r & r' & Hr & Hr' & Hv' & Ht') & Hsep'))].
  - destruct (IH ((c ++ p) ++ t)) as [He Hs]; [by apply Forall_app|]. fold U U' in He, Hs. split; [exact He|].
    constructor; [|exact Hs]. intros _ _ (v & Hqv & _). by destruct (quoted_not_free t v Hqv).
  - destruct (IH []) as [He Hs]; [constructor|]. cbn [app] in He, Hs. fold U U' in He, Hs.
    rewrite !(Hshape t v q q') by done. rewrite !mask_quoted by auto using sep_only_ends.
    rewrite !mask_copied by done. rewrite He. split; [done|]. rewrite <- He. constructor.
    + intros Hk Hen _. rewrite (has_key_app _ c p Hk), (ends_sep_app c p Hen). cbn [andb].
      exists c, (mask_text U). by rewrite <- app_assoc.
    + destruct (has_key keys (c ++ p) && ends_sep (c ++ p)); [by apply stars_shown_app, stars_shown_app|].
      change ((c ++ p) ++ q :: v ++ q' :: mask_text U) with ((c ++ p) ++ [q] ++ v ++ [q'] ++ mask_text U).
      by do 4 apply stars_shown_app.
  - destruct (IH []) as [He Hs]; [constructor|]. cbn [app] in He, Hs. fold U U' in He, Hs.
    rewrite (Hshape t v q q') by done. rewrite (Hshape t' v' r r') by done. rewrite !mask_quoted by done.
    rewrite (has_key_app _ c p Hkey), (ends_sep_app c p Hends). cbn [andb]. rewrite He. split; [done|]. rewrite <- He.
    constructor; [|by apply stars_shown_app, stars_shown_app].
    intros _ _ _. exists c, (mask_text U). by rewrite <- app_assoc.
Qed.
End quoted_values.

(** ** The aspect *)

Section aspect_spec.
Context {W E V R : Type}.
Context (perf_counter : W → QArith_base.Q * W).
Context (repr : V → string) (repr_result : R → string) (type_name : E → string) (fixed2 : QArith_base.Q → string).
Context (is_exception : E → bool).
Context (aspect_name qualname : string) (annotation : Logged) (config : option LoggingConfig).

Abbreviation run_around :=
  (around perf_counter repr repr_result type_name fixed2 is_exception aspect_name qualname annotation config).
Abbreviation mask_message := (masked annotation config).

(** The state of the clock and the log when the method starts *)
Definition started (s : logging_state W) : logging_state W :=
  mk_logging_state (records s) (perf_counter (world s)).2.

Lemma around_outcome (joinpoint : list V → list (string * V) → comp (logging_state W) E R) args kwargs s :
  run_around joinpoint args kwargs s =
  let '(o, s2) := joinpoint args kwargs (started s) in
  let stop := perf_counter (world s2) in
  let ms := elapsed_ms (perf_counter (world s)).1 stop.1 in
  (o,
   match o with
   | Ok r =>
       let m := mask_message (result_msg repr repr_result fixed2 aspect_name qualname annotation config args kwargs r ms) in
       let entry := if QArith_base.Qle_bool (slow_threshold_of annotation config) ms
                    then (WARNING, "[SLOW] " +:+ m) else (INFO, m) in
       mk_logging_state (records s2 ++ [entry]) stop.2
   | Raise e =>
       if is_exception e then
         mk_logging_state (records s2 ++
           [(ERROR, mask_message (error_msg repr type_name fixed2 aspect_name qualname annotation args kwargs e ms))]) stop.2
       else s2
   end).
Proof.
  unfold around, read_clock, emit, modify, bind, try_except, started.
  destruct (perf_counter (world s)) as [t w]. cbn [fst snd].
  destruct (joinpoint args kwargs (mk_logging_state (records s) w)) as [[r|e] s2]; cbn.
  - destruct (perf_counter (world s2)) as [t' w']. cbn. by destruct (QArith_base.Qle_bool _ _).
  - destruct (is_exception e); cbn; [|done]. by destruct (perf_counter (world s2)) as [t' w'].
Qed.


(** The aspect is transparent and logs each call once: it returns what the
    method returns and raises what it raises, the records the method wrote are
    kept, and one record follows them: an error for an exception, a warning when
    the call took the threshold or longer, information otherwise. What is no
    [Exception] passes without a record. *)
Theorem logging_is_transparent (joinpoint : list V → list (string * V) → comp (logging_state W) E R) args kwargs s :
  let '(o, s2) := joinpoint args kwargs (started s) in
  let stop := perf_counter (world s2) in
  let ms := elapsed_ms (perf_counter (world s)).1 stop.1 in
  run_around joinpoint args kwargs s =
  (o,
   match o with
   | Ok r =>
       let m := mask_message (result_msg repr repr_result fixed2 aspect_name qualname annotation config args kwargs r ms) in
       let entry := if QArith_base.Qle_bool (slow_threshold_of annotation config) ms
                    then (WARNING, "[SLOW] " +:+ m) else (INFO, m) in
       mk_logging_state (records s2 ++ [entry]) stop.2
   | Raise e =>
       if is_exception e then
         mk_logging_state (records s2 ++
           [(ERROR, mask_message (error_msg repr type_name fixed2 aspect_name qualname annotation args kwargs e ms))]) stop.2
       else s2
   end).
Proof.
  rewrite around_outcome. by destruct (joinpoint args kwargs (started s)) as [o s2].
Qed.

(** *** What a call shows of its arguments *)

(** The pairs of keyword arguments of two calls that differ in secrets only: the name
    is without quotes, and the value is the same and plain, or the name contains a
    masking key and the values are secrets. *)
Definition same_but_secret (keys : list text) (a a' : string * V) : Prop :=
  a.1 = a'.1 ∧ quote_free (chars a.1) ∧
  (a.2 = a'.2 ∧ plain_text (chars (repr a.2)) ∨
   has_key keys (chars a.1) = true ∧ secret_text (chars (repr a.2)) ∧ secret_text (chars (repr a'.2))).

(** The arguments of a call, the opening bracket and the commas with their names *)
Definition bare_arguments (args : list V) (kwargs : list (string * V)) : list (text * text) :=
  ((λ v, ([], chars (repr v))) <$> args) ++ ((λ '(k, v), (chars k ++ chars "=", chars (repr v))) <$> kwargs).
Definition led_by (lead : text) (a : text * text) : text * text := (lead ++ a.1, a.2).
Definition call_arguments (args : list V) (kwargs : list (string * V)) : list (text * text) :=
  match bare_arguments args kwargs with
  | [] => []
  | a :: l => led_by (chars "(") a :: (led_by (chars ", ") <$> l)
  end.
Definition bracket (args : list V) (kwargs : list (string * V)) : text :=
  match bare_arguments args kwargs with [] => chars "(" | _ => [] end.

Lemma chars_concatenated x y : chars (x +:+ y) = chars x ++ chars y.
Proof.
  induction x as [|c x IH]; [done|]. change (chars (String c x +:+ y)) with (c :: chars (x +:+ y)). by rewrite IH.
Qed.
Lemma chars_comma_separated x l :
  chars (String.concat ", " (x :: l)) = chars x ++ flat_map (λ y, chars ", " ++ chars y) l.
Proof.
  revert x. induction l as [|y l IH]; intros x; [by rewrite app_nil_r|].
  transitivity (chars (x +:+ ", " +:+ String.concat ", " (y :: l))); [done|].
  rewrite !chars_concatenated, IH. cbn [flat_map]. by rewrite <- app_assoc.
Qed.
Lemma chars_format_args args kwargs :
  chars ("(" +:+ _format_args repr args kwargs) = arguments_text (call_arguments args kwargs) ++ bracket args kwargs.
Proof.
  assert (chars <$> ((repr <$> args) ++ ((λ '(k, v), k +:+ "=" +:+ repr v) <$> kwargs)) =
    (λ '(p, t), p ++ t) <$> bare_arguments args kwargs) as Hparts.
  { unfold bare_arguments. rewrite !fmap_app, <- !list_fmap_compose. f_equal. apply list_fmap_ext. intros i [k v] _. cbn -[chars].
    by rewrite !chars_concatenated, <- app_assoc. }
  rewrite chars_concatenated. unfold _format_args, call_arguments, bracket.
  destruct ((repr <$> args) ++ ((λ '(k, v), k +:+ "=" +:+ repr v) <$> kwargs)) as [|x l], (bare_arguments args kwargs) as [|[p t] l']; try done.
  rewrite !fmap_cons in Hparts. apply (inj2 cons) in Hparts as [Hx Hl]. rewrite chars_comma_separated, app_nil_r, Hx. cbn -[chars].
  rewrite <- !app_assoc. do 3 f_equal. revert l' Hl. induction l as [|y l IH]; intros [|[p' t'] l'] Hl; try done.
  rewrite !fmap_cons in Hl. apply (inj2 cons) in Hl as [Hy Hl].
  cbn -[chars]. rewrite Hy, (IH l' Hl). by rewrite <- !app_assoc.
Qed.

Lemma led_same keys lead a a' :
  quote_free lead → lead ≠ [] → goes_on lead = true →
  a.1 = a'.1 → quote_free a.1 →
  (a.2 = a'.2 ∧ plain_text a.2 ∨
   has_key keys a.1 = true ∧ ends_sep a.1 = true ∧ secret_text a.2 ∧ secret_text a'.2) →
  same_but_hidden keys (led_by lead a) (led_by lead a').
Proof.
  intros Hl Hne Hgo Heq Hq Hcase. unfold same_but_hidden, led_by. cbn. rewrite Heq in *.
  split_and!; [done|by apply Forall_app|by destruct lead|by destruct lead|].
  destruct Hcase as [?|(Hk & He & ? & ?)]; [by left|right]. split_and!; [by apply has_key_app|by apply ends_sep_app|done|done].
Qed.
Lemma call_arguments_same keys args kwargs kwargs' :
  Forall (λ v, plain_text (chars (repr v))) args → Forall2 (same_but_secret keys) kwargs kwargs' →
  Forall2 (same_but_hidden keys) (call_arguments args kwargs) (call_arguments args kwargs') ∧
  bracket args kwargs = bracket args kwargs'.
Proof.
  intros Hargs Hkw.
  assert (Forall2 (λ a a', a.1 = a'.1 ∧ quote_free a.1 ∧ (a.2 = a'.2 ∧ plain_text a.2 ∨
     has_key keys a.1 = true ∧ ends_sep a.1 = true ∧ secret_text a.2 ∧ secret_text a'.2))
     (bare_arguments args kwargs) (bare_arguments args kwargs')) as Hbare.
  { unfold bare_arguments. apply Forall2_app.
    - clear Hkw. induction Hargs as [|v args Hv _ IH]; [constructor|]. constructor; [|exact IH].
      split_and!; [done|constructor|by left].
    - clear Hargs. induction Hkw as [|[k v] [k' v'] l l' (Hk & Hq & Hcase) _ IH]; [constructor|]. constructor; [|exact IH].
      cbn -[chars] in *. subst k'. split_and!; [done|apply Forall_app; split; [done|by repeat constructor]|].
      destruct Hcase as [[<- Hp]|(Hkey & Hs & Hs')]; [by left|right].
      split_and!; [by apply has_key_prefix|by apply ends_sep_app|done|done]. }
  unfold call_arguments, bracket. destruct Hbare as [|a a' l l' (Heq & Hq & Hcase) Hl]; [by split; [constructor|]|].
  split; [|done]. constructor; [apply led_same; try done; by repeat constructor|].
  induction Hl as [|b b' l l' (Heq' & Hq' & Hcase') _ IH]; [constructor|]. constructor; [|exact IH].
  apply led_same; try done; by repeat constructor.
Qed.

Lemma keyword_argument args kwargs k v :
  (k, v) ∈ kwargs → ∃ lead, (lead ++ chars k ++ chars "=", chars (repr v)) ∈ call_arguments args kwargs.
Proof.
  intros Hin. assert ((chars k ++ chars "=", chars (repr v)) ∈ bare_arguments args kwargs) as Hb.
  { unfold bare_arguments. apply elem_of_app. right. apply list_elem_of_fmap. by exists (k, v). }
  unfold call_arguments. destruct (bare_arguments args kwargs) as [|a l]; [by apply elem_of_nil in Hb|].
  apply elem_of_cons in Hb as [<-|Hb]; [exists (chars "("); by left|exists (chars ", "); right].
  apply list_elem_of_fmap. by exists (chars k ++ chars "=", chars (repr v)).
Qed.

(** What the record of a call says of its secrets *)
Definition shows_stars (kwargs : list (string * V)) (m : string) : Prop :=
  Forall (λ '(k, v), has_key (chars <$> mask_keys_of annotation config) (chars k) = true → secret_text (chars (repr v)) →
    ∃ a b, m = a +:+ k +:+ "='******'" +:+ b) kwargs.

Lemma unchars_app a b : unchars (a ++ b) = unchars a +:+ unchars b.
Proof.
  induction a as [|c a IH]; [done|]. change (unchars ((c :: a) ++ b)) with (String c (unchars (a ++ b))). by rewrite IH.
Qed.
Lemma unchars_of_chars x : unchars (chars x) = x.
Proof. apply String.string_of_list_ascii_of_string. Qed.

Lemma masked_call args kwargs kwargs' suffix :
  let keys := mask_keys_of annotation config in
  enable_masking annotation = true → log_args annotation = true → keys ≠ [] → forallb word_b (chars <$> keys) = true →
  quote_free (chars aspect_name) → quote_free (chars qualname) →
  Forall (λ v, plain_text (chars (repr v))) args → Forall2 (same_but_secret (chars <$> keys)) kwargs kwargs' →
  let text kwargs := mask_message (call_text repr aspect_name qualname annotation args kwargs +:+ suffix) in
  text kwargs = text kwargs' ∧ shows_stars kwargs (text kwargs).
Proof.
  intros keys Hon Hlog Hne Hwords Ha Hq Hargs Hkw text.
  destruct (call_arguments_same (chars <$> keys) args kwargs kwargs' Hargs Hkw) as [Hsame Hbr].
  set (lead := chars "[" ++ chars aspect_name ++ chars "] " ++ chars qualname).
  assert (∀ kw, text kw = unchars (sub_items (MASKING_REGEX (chars <$> keys)) MASKED 0
    (lead ++ arguments_text (call_arguments args kw) ++ bracket args kw ++ chars ")" ++ chars suffix))) as Htext.
  { intros kw. unfold text, masked, mask_sub, _build_mask. rewrite Hon. fold keys. destruct keys as [|k keys']; [done|].
    do 2 f_equal. unfold call_text. rewrite Hlog, !chars_concatenated.
    pose proof (chars_format_args args kw) as Hf. rewrite chars_concatenated in Hf.
    unfold lead. rewrite <- !app_assoc. do 4 f_equal. rewrite (app_assoc (chars "(")), Hf. by rewrite <- !app_assoc. }
  destruct (mask_arguments (chars <$> keys) (words_b_spec _ Hwords) (call_arguments args kwargs) (call_arguments args kwargs')
    (bracket args kwargs ++ chars ")" ++ chars suffix) lead Hsame) as [He Hs].
  { unfold lead, quote_free. rewrite !Forall_app. split_and!; [by repeat constructor|done|by repeat constructor|done]. }
  { unfold bracket. by destruct (bare_arguments args kwargs). }
  rewrite !Htext, He, Hbr. split; [done|]. rewrite <- Hbr, <- He. apply Forall_forall. intros [k v] Hin Hkey Hsec.
  destruct (keyword_argument args kwargs k v Hin) as (pre & Hin').
  unfold stars_shown in Hs. rewrite Forall_forall in Hs.
  destruct (Hs _ Hin') as (a & b & ->); [by apply has_key_app, has_key_prefix|by apply ends_sep_app, ends_sep_app|exact Hsec|].
  exists (unchars (a ++ pre)), (unchars b). change MASKED with (chars "'******'").
  rewrite <- !app_assoc, (app_assoc a pre), !unchars_app, !unchars_of_chars.
  by change ("='******'" +:+ unchars b) with ("=" +:+ "'******'" +:+ unchars b).
Qed.

End aspect_spec.

(** The context is what it was after the block, whatever the block does and
    however it ends; inside, the bindings of the block come first. *)
Theorem scope_restores {E A} kwargs (body : comp log_context E A) c :
  scope kwargs body c = ((body (dict_merge c kwargs)).1, c).
Proof. unfold scope, bind, try_finally, get_state, modify. by destruct (body (dict_merge c kwargs)). Qed.

(** *** Set-up *)

Definition spakky_handler (h : log_handler) : bool := bool_decide (handler_name h = Some HANDLER_NAME).
Lemma configured_handlers c r :
  List.filter spakky_handler (root_handlers (_configure c r)) = [mk_log_handler (Some HANDLER_NAME) (Some (format c)) true] ∧
  List.filter (λ h, negb (spakky_handler h)) (root_handlers (_configure c r)) =
  List.filter (λ h, negb (spakky_handler h)) (root_handlers r).
Proof.
  unfold _configure. cbn [root_handlers]. rewrite !List.filter_app.
  assert (∀ l, List.filter spakky_handler (List.filter (λ h, negb (spakky_handler h)) l) = [] ∧
    List.filter (λ h, negb (spakky_handler h)) (List.filter (λ h, negb (spakky_handler h)) l) =
    List.filter (λ h, negb (spakky_handler h)) l) as Hl.
  { induction l as [|h l [IH1 IH2]]; [done|]. cbn. destruct (spakky_handler h) eqn:Hh; cbn; rewrite ?Hh; cbn; [done|].
    by rewrite IH1, IH2. }
  change (List.filter (λ h, negb (bool_decide (handler_name h = Some HANDLER_NAME))) (root_handlers r)) with
    (List.filter (λ h, negb (spakky_handler h)) (root_handlers r)).
  destruct (Hl (root_handlers r)) as [-> ->]. cbn. by rewrite app_nil_r.
Qed.

(** Logging is set up once, however many pods are processed: the root logger has
    one handler of the framework, with the format and the level of the
    configuration, and keeps the handlers of others. *)
Theorem setup_runs_once {E} (c : LoggingConfig) (pods : nat) (r : root_logger) :
  configured r = false →
  let r' := (for_each (λ _ : nat, setup_post_process (E:=E) (Ok c)) (seq 0 (S pods)) r).2 in
  List.filter spakky_handler (root_handlers r') = [mk_log_handler (Some HANDLER_NAME) (Some (format c)) true] ∧
  List.filter (λ h, negb (spakky_handler h)) (root_handlers r') =
  List.filter (λ h, negb (spakky_handler h)) (root_handlers r) ∧ root_level r' = level c.
Proof.
  intros Hr r'. assert (r' = _configure c (mk_root (root_handlers r) (root_level r) (logger_levels r) true)) as ->.
  { unfold r'. cbn [seq for_each]. unfold bind, setup_post_process at 1. unfold bind, get_state, lift, modify. rewrite Hr. cbn.
    generalize (seq 1 pods). intros l. set (r1 := _configure _ _). assert (configured r1 = true) as H1 by done. clearbody r1.
    induction l as [|x l IH]; [done|]. cbn. unfold bind, setup_post_process, bind, get_state. rewrite H1. apply IH. }
  by destruct (configured_handlers c (mk_root (root_handlers r) (root_level r) (logger_levels r) true)).
Qed.

(** ** Examples *)

Definition dq : string := String double_quote EmptyString.
Definition mask (s : string) : string := mask_sub (_build_mask DEFAULT_MASK_KEYS) s.

Example ex_masked :
  mask "login(user='ann', password='hunter2')" = "login(user='ann', password='******')" ∧
  mask ("{" +:+ dq +:+ "api_token" +:+ dq +:+ ": 'abc', 'n': 1}") = "{" +:+ dq +:+ "api_token" +:+ dq +:+ ": '******', 'n': 1}".
Proof. split_and!; vm_compute; reflexivity. Qed.
(** The keys of an empty configuration are everywhere. *)
Example ex_no_keys : mask_sub (_build_mask []) "f(name='ann')" = "f(name='******')".
Proof. by vm_compute. Qed.

(** Values that are not a string between quotes of one kind are not hidden: bytes
    and lists are printed, a value with the other quote in it is hidden to that
    quote only, positional arguments and numbers have no key before a quote. *)
Example values_that_leak :
  mask "login(password=b'hunter2')" = "login(password=b'hunter2')" ∧
  mask "rotate(tokens=['abc', 'def'])" = "rotate(tokens=['abc', 'def'])" ∧
  mask ("login(password=" +:+ dq +:+ "it's mine" +:+ dq +:+ ")") = "login(password='******'s mine" +:+ dq +:+ ")" ∧
  mask "login(pin_token=1234)" = "login(pin_token=1234)" ∧ mask "login('ann', 'hunter2')" = "login('ann', 'hunter2')".
Proof. split_and!; vm_compute; reflexivity. Qed.

(** A value that is a separator is read as what stands between a key in quotes and
    its value, and one that ends in a separator after a key as a key: the text up to
    the next quote is taken for the value, and the value after it is shown. *)
Example separators_leak :
  mask "f(password=':', token='hunter2')" = "f(password=':'******'hunter2')" ∧
  mask "f(note='token:', password='hunter2')" = "f(note='token:'******'hunter2')".
Proof. split_and!; vm_compute; reflexivity. Qed.

(** The result is cut before it is masked, and a value without its closing quote
    is not hidden. *)
Example cut_results_leak :
  mask ("-> " +:+ _truncate "{'password': 'correct horse battery'}" 30) = "-> {'password': 'correct horse..." ∧
  mask ("-> " +:+ "{'password': 'correct horse battery'}") = "-> {'password': '******'}".
Proof. split_and!; vm_compute; reflexivity. Qed.

(** Zero is not a threshold or a length of its own, and a length under three adds to
    the text. *)
Example zero_falls_back c :
  slow_threshold_of (mk_logged true [] (Some (QArith_base.inject_Z 0)) (Some 0%Z) true true) (Some c) = config_slow_threshold_ms c ∧
  max_result_length_of (mk_logged true [] (Some (QArith_base.inject_Z 0)) (Some 0%Z) true true) (Some c) = config_max_result_length c.
Proof. done. Qed.
Example short_lengths : _truncate "abcdef" 2 = "abcde..." ∧ _truncate "abcdef" 5 = "ab...".
Proof. split_and!; vm_compute; reflexivity. Qed.

Definition ex_record : LogRecord := mk_record "INFO" 20 "app" "hello" [] [("name", "app")] None None.
(** A binding named like a field of the JSON entry replaces the field. *)
Example context_replaces_fields :
  dict_get "message" (json_entry "now" (filter_record [("message", "bound"); ("level", "DEBUG")] ex_record)) = Some "bound" ∧
  text_format "now" (filter_record [("message", "bound")] ex_record) = "now | INFO  | app | message=bound | hello".
Proof. split_and!; vm_compute; reflexivity. Qed.

(** ** Witnesses *)

Lemma masking_is_by_chunks_witness :
  let rest := [("'"%char, chars "password"); ("'"%char, chars ": "); ("'"%char, chars "x"); ("'"%char, chars "}")] in
  mask_sub (_build_mask DEFAULT_MASK_KEYS) (unchars (chars "{" ++ joined rest)) =
  unchars (mask_chunks (chars <$> DEFAULT_MASK_KEYS) 5 (chars "{") rest).
Proof.
  apply (masking_is_by_chunks DEFAULT_MASK_KEYS (chars "{")
    [("'"%char, chars "password"); ("'"%char, chars ": "); ("'"%char, chars "x"); ("'"%char, chars "}")]); [done|done|done|].
  repeat (apply well_chunked_cons; split; [done|]; split; [by apply quote_free_b|]). apply Forall_nil_2.
Defined.

(** A call by name, its arguments printed in quotes *)
Definition ex_quote_repr (v : string) : string := "'" +:+ v +:+ "'".
Definition ex_login (args : list string) (kwargs : list (string * string)) : comp (logging_state unit) string nat := ret 7.
Definition ex_run_login (kwargs : list (string * string)) : outcome string nat * logging_state unit :=
  around (λ w, (QArith_base.inject_Z 0, w)) ex_quote_repr (λ _, "7") (λ _, "ValueError") (λ _, "0.00") (λ _, true)
    "LoggingAspect" "login" logged_defaults None ex_login ["site"] kwargs (mk_logging_state [] tt).

Lemma plain_quoted v : forallb not_quote (chars v) = true → ends_sep (chars v) = false → plain_text (chars (ex_quote_repr v)).
Proof.
  intros Hv He. right. exists (chars v). split; [|done]. exists "'"%char, "'"%char.
  split_and!; [done|done|by apply quote_free_b|]. unfold ex_quote_repr. by rewrite !chars_concatenated.
Qed.
Lemma secret_quoted v : forallb not_quote (chars v) = true → sep_only (chars v) = false → secret_text (chars (ex_quote_repr v)).
Proof.
  intros Hv He. exists (chars v). split; [|done]. exists "'"%char, "'"%char.
  split_and!; [done|done|by apply quote_free_b|]. unfold ex_quote_repr. by rewrite !chars_concatenated.
Qed.


Lemma setup_runs_once_witness :
  let c := mk_config 20 JSON [] DEFAULT_MASK_KEYS "******" DEFAULT_SLOW_THRESHOLD_MS DEFAULT_MAX_RESULT_LENGTH in
  let r := mk_root [mk_log_handler (Some HANDLER_NAME) None false; mk_log_handler None None false] 30 [] false in
  let r' := (for_each (λ _ : nat, setup_post_process (E:=unit) (Ok c)) (seq 0 3) r).2 in
  List.filter spakky_handler (root_handlers r') = [mk_log_handler (Some HANDLER_NAME) (Some JSON) true] ∧
  List.filter (λ h, negb (spakky_handler h)) (root_handlers r') = [mk_log_handler None None false] ∧ root_level r' = 20%Z.
Proof.
  apply (setup_runs_once (mk_config 20 JSON [] DEFAULT_MASK_KEYS "******" DEFAULT_SLOW_THRESHOLD_MS DEFAULT_MAX_RESULT_LENGTH) 2
    (mk_root [mk_log_handler (Some HANDLER_NAME) None false; mk_log_handler None None false] 30 [] false)); done.
Defined.
