(* ===== verification/OpenTelemetry.v ===== *)
(** * The bridge to OpenTelemetry

    [plugins/spakky-opentelemetry]: the propagator that replaces the one of
    [Tracing.v] and implements its port through the SDK ([propagator.py]), the
    post-processor that sets the SDK up and does the replacement
    ([post_processor.py]), and the bridge that copies the trace into the context
    of log records of [Logging.v] ([bridge.py]). The text map propagator of the SDK
    is an interface with the laws of the W3C format. *)

From S2P Require Import Prelude Logging Tracing.
From Stdlib Require QArith_base.

(** ** Span contexts *)

Record SpanContext := mk_span_context {
  span_trace_id : N;
  span_span_id : N;
  is_remote : bool;
  span_trace_flags : Z;
}.
(** [SpanContext.is_valid]: neither identifier is zero or too large *)
Definition is_valid (s : SpanContext) : bool :=
  ((0 <? span_trace_id s) && (span_trace_id s <? 2 ^ 128) && (0 <? span_span_id s) && (span_span_id s <? 2 ^ 64))%N.

(** [format(n, "032x")]: the digits, padded with zeros to a width *)
Fixpoint fixed_digits (width : nat) (n : N) (acc : string) : string :=
  match width with
  | O => acc
  | S w => fixed_digits w (n / 16)%N (String (hex_digit (n mod 16)%N) acc)
  end.
Definition format_0x (width : nat) (n : N) : string :=
  if (n <? 16 ^ N.of_nat width)%N then fixed_digits width n ""
  else hex_digits (S (N.to_nat (N.log2 n))) n "".

(** [TraceContextTextMapPropagator]: [inject] writes a span context into a
    carrier, [extract] gives the context of the current span of what it read. The
    laws are those of the W3C format it documents. *)
Class TextMapPropagator := {
  sdk_inject : SpanContext → list (string * string) → list (string * string);
  sdk_extract : list (string * string) → SpanContext;
  sdk_fields : list string;
  sdk_field : TRACEPARENT_HEADER ∈ sdk_fields;
  sdk_inject_others s c k : k ∉ sdk_fields → dict_get k (sdk_inject s c) = dict_get k c;
  sdk_extract_fields c c' :
    (∀ k, k ∈ sdk_fields → dict_get k c = dict_get k c') → sdk_extract c = sdk_extract c';
  sdk_writes s c : is_valid s = true → (0 ≤ span_trace_flags s < 256)%Z →
    dict_get TRACEPARENT_HEADER (sdk_inject s c) =
      Some ("00-" +:+ format_0x 32 (span_trace_id s) +:+ "-" +:+ format_0x 16 (span_span_id s) +:+ "-" +:+ format_02x (span_trace_flags s));
  sdk_reads c t : valid_trace t → dict_get TRACEPARENT_HEADER c = Some (to_traceparent t) →
    sdk_extract c = mk_span_context (int_hex 0 (trace_id t)) (int_hex 0 (span_id t)) true (trace_flags t);
}.

(** ** [OTelTracePropagator] *)

Section propagator.
Context `{TextMapPropagator} {R : Type}.

(** The identifiers of a context are hexadecimal text; [int] raises for others. *)
Definition _to_otel_context (t : TraceContext) : SpanContext :=
  mk_span_context (int_hex 0 (trace_id t)) (int_hex 0 (span_id t)) false (trace_flags t).
Definition otel_inject (carrier : list (string * string)) : comp (execution R) tracing_error (list (string * string)) :=
  ctx <- Tracing.get ;;
  match ctx with
  | None => ret carrier
  | Some t => ret (sdk_inject (_to_otel_context t) carrier)
  end.
Definition otel_extract (carrier : list (string * string)) : option TraceContext :=
  let s := sdk_extract carrier in
  if is_valid s then Some (mk_trace (format_0x 32 (span_trace_id s)) (format_0x 16 (span_span_id s)) None (span_trace_flags s))
  else None.
Definition otel_fields : list string := sdk_fields.
End propagator.

(** ** The post-processor *)

Inductive ExporterType := OTLP | CONSOLE | NONE.
Record OpenTelemetryConfig := mk_otel_config {
  service_name : string;
  exporter_type : ExporterType;
  exporter_endpoint : string;
  sample_rate : QArith_base.Q;
}.
Inductive SpanExporter := ConsoleSpanExporter | OTLPSpanExporter (endpoint : string).
Record TracerProvider := mk_provider { resource : string; sampler : QArith_base.Q; span_processors : list SpanExporter }.

Definition _create_exporter (c : OpenTelemetryConfig) : option SpanExporter :=
  match exporter_type c with
  | CONSOLE => Some ConsoleSpanExporter
  | OTLP => Some (OTLPSpanExporter (exporter_endpoint c))
  | NONE => None
  end.
Definition tracer_provider (c : OpenTelemetryConfig) : TracerProvider :=
  mk_provider (service_name c) (sample_rate c) (match _create_exporter c with Some e => [e] | None => [] end).

(** The state of the post-processor and the providers it registered globally *)
Record otel_setup := mk_setup { setup_configured : bool; registered_providers : list TracerProvider }.
Inductive processed_pod := W3CPod | OTelPod | OtherPod (n : nat).

Definition _configure_tracer_provider {E} (get : outcome E OpenTelemetryConfig) : comp otel_setup E unit :=
  c <- lift get ;;
  modify (λ s, mk_setup (setup_configured s) (registered_providers s ++ [tracer_provider c])).
Definition otel_post_process {E} (get : outcome E OpenTelemetryConfig) (pod : processed_pod) : comp otel_setup E processed_pod :=
  s <- get_state ;;
  (if setup_configured s then ret tt
   else modify (λ s, mk_setup true (registered_providers s)) ;;; _configure_tracer_provider get) ;;;
  ret match pod with W3CPod => OTelPod | _ => pod end.

(** ** [LogContextBridge] *)

(** The ambient trace and the context of log records; [binder] tells whether one
    was injected. *)
Definition sync (binder : bool) (trace : option TraceContext) (c : log_context) : log_context :=
  if binder then
    match trace with
    | Some t => dict_merge c [("trace_id", trace_id t); ("span_id", span_id t)]
    | None => dict_del "span_id" (dict_del "trace_id" c)
    end
  else c.

(** ** The propagator keeps the port *)

Lemma zeros_snoc k acc : zeros k +:+ String "0" acc = zeros (S k) +:+ acc.
Proof.
  induction k as [|k IH]; [done|]. change (String "0" (zeros k +:+ String "0" acc) = String "0" (zeros (S k) +:+ acc)).
  by rewrite IH.
Qed.
Lemma int_hex_fixed s a w acc :
  all_hex s = true → fixed_digits (String.length s + w) (int_hex a s) acc = fixed_digits w a (s +:+ acc).
Proof.
  revert a w. induction s as [|c s IH]; intros a w Hs; [done|]. cbn in Hs. apply andb_true_iff in Hs as [Hc Hs].
  cbn [String.length int_hex]. replace (S (String.length s) + w) with (String.length s + S w) by lia. rewrite IH by done.
  cbn [fixed_digits]. unfold is_hex in Hc. destruct (hex_value c) as [v|] eqn:Hv; [|done].
  apply hex_value_digit in Hv as [Hv ->]. cbn [default from_option].
  rewrite (N.mul_comm 16 a), N.Div0.add_mod, N.Div0.mod_mul, N.add_0_l, !N.Div0.mod_mod, N.mod_small by done.
  rewrite N.div_add_l by done. rewrite N.div_small by done. by rewrite N.add_0_r.
Qed.
Lemma int_hex_bound s a : all_hex s = true → (int_hex a s < (a + 1) * 16 ^ N.of_nat (String.length s))%N.
Proof.
  revert a. induction s as [|c s IH]; intros a Hs; cbn [int_hex String.length]; [cbn; lia|].
  cbn in Hs. apply andb_true_iff in Hs as [Hc Hs]. specialize (IH (16 * a + default 0 (hex_value c))%N Hs).
  unfold is_hex in Hc. destruct (hex_value c) as [v|] eqn:Hv; [|done]. apply hex_value_digit in Hv as [Hv _].
  cbn [default from_option id] in *. rewrite Nat2N.inj_succ, N.pow_succ_r by lia.
  eapply N.lt_le_trans; [exact IH|]. rewrite N.mul_assoc. apply N.mul_le_mono_r. lia.
Qed.
Lemma format_int_hex_field n s : hex_field n s → format_0x n (int_hex 0 s) = s.
Proof.
  intros [Hs Hn]. unfold format_0x. pose proof (int_hex_bound s 0 Hs) as Hb. rewrite Hn, N.add_0_l, N.mul_1_l in Hb.
  rewrite (proj2 (N.ltb_lt _ _) Hb). subst n. rewrite <- (Nat.add_0_r (String.length s)), int_hex_fixed by done.
  cbn [fixed_digits]. apply string_app_nil.
Qed.
Lemma int_hex_zero n s : hex_field n s → int_hex 0 s = 0%N → s = zeros n.
Proof.
  intros Hs H0. rewrite <- (format_int_hex_field n s Hs), H0. unfold format_0x.
  rewrite (proj2 (N.ltb_lt _ _)) by (apply N.neq_0_lt_0, N.pow_nonzero; done). clear.
  assert (∀ k acc, fixed_digits k 0 acc = zeros k +:+ acc) as Hz.
  { induction k as [|k IH]; intros acc; [done|]. cbn [fixed_digits]. change (0 / 16)%N with 0%N. rewrite IH. clear.
    change (hex_digit (0 mod 16)) with "0"%char. apply zeros_snoc. }
  rewrite Hz. apply string_app_nil.
Qed.

Lemma otel_context_valid t :
  valid_trace t → is_valid (_to_otel_context t) = true ∧ is_valid (mk_span_context (int_hex 0 (trace_id t)) (int_hex 0 (span_id t)) true (trace_flags t)) = true.
Proof.
  intros [[Ht Htz] [Hs Hsz] _].
  assert (0 < int_hex 0 (trace_id t) ∧ int_hex 0 (trace_id t) < 2 ^ 128)%N as [Ht1 Ht2].
  { split; [apply N.neq_0_lt_0; intros H0; by apply Htz, (int_hex_zero 32)|].
    destruct Ht as [Ha Hn]. pose proof (int_hex_bound _ 0 Ha) as Hb. rewrite Hn in Hb. exact Hb. }
  assert (0 < int_hex 0 (span_id t) ∧ int_hex 0 (span_id t) < 2 ^ 64)%N as [Hs1 Hs2].
  { split; [apply N.neq_0_lt_0; intros H0; by apply Hsz, (int_hex_zero 16)|].
    destruct Hs as [Ha Hn]. pose proof (int_hex_bound _ 0 Ha) as Hb. rewrite Hn in Hb. exact Hb. }
  unfold is_valid, _to_otel_context. cbn [span_trace_id span_span_id].
  by rewrite !(proj2 (N.ltb_lt _ _)) by done.
Qed.

Section bridge.
Context `{Htmp : TextMapPropagator}.

Lemma sdk_writes_traceparent t c :
  valid_trace t → dict_get TRACEPARENT_HEADER (sdk_inject (_to_otel_context t) c) = Some (to_traceparent t).
Proof.
  intros Ht. destruct (otel_context_valid t Ht) as [Hv _]. destruct Ht as [[Ht _] [Hs _] Hf].
  rewrite sdk_writes by done. cbn [span_trace_id span_span_id span_trace_flags _to_otel_context].
  by rewrite !format_int_hex_field by done.
Qed.
Lemma otel_extract_traceparent t c :
  valid_trace t → dict_get TRACEPARENT_HEADER c = Some (to_traceparent t) → otel_extract c = Some (detached t).
Proof.
  intros Ht Hc. unfold otel_extract. rewrite (sdk_reads c t) by done.
  destruct (otel_context_valid t Ht) as [_ ->]. destruct Ht as [[Ht _] [Hs _] Hf].
  cbn [span_trace_id span_span_id span_trace_flags]. by rewrite !format_int_hex_field by done.
Qed.
End bridge.

(** The bridge implements the port of [Tracing.v], so what is proved of a front
    end or a transport against the port holds with it. *)
#[export] Program Instance OTelTracePropagator `{TextMapPropagator} (R : Type) : ITracePropagator R := {
  port_inject := otel_inject;
  port_extract := otel_extract;
  port_fields := otel_fields;
}.
Next Obligation.
  intros Htmp R c x. unfold otel_inject, Tracing.get, bind, gets. destruct (_trace_context x) as [t|];
    eexists; (split_and!; [done| |done]); [|done]. intros k Hk. by apply sdk_inject_others.
Qed.
Next Obligation. intros Htmp R c c' Hc. unfold otel_extract. by rewrite (sdk_extract_fields c c' Hc). Qed.
Next Obligation.
  intros Htmp R c x t c' Hx Ht. unfold otel_inject, Tracing.get, bind, gets. rewrite Hx. intros [= <-].
  apply otel_extract_traceparent; [done|]. by apply sdk_writes_traceparent.
Qed.

(** ** Properties *)

(** Services that trace with the framework's own propagator and services that
    trace with the SDK understand each other: a valid trace injected by either is
    extracted by either, with its identifiers and flags. *)
Theorem propagators_interoperate `{TextMapPropagator} {R} (t : TraceContext) (carrier : list (string * string)) (x : execution R)
    (sender receiver : ITracePropagator R) :
  sender ∈ [W3CTracePropagator R; OTelTracePropagator R] → receiver ∈ [W3CTracePropagator R; OTelTracePropagator R] →
  valid_trace t → _trace_context x = Some t →
  ∃ carrier', port_inject (ITracePropagator:=sender) carrier x = (Ok carrier', x) ∧
    port_extract (ITracePropagator:=receiver) carrier' = Some (detached t).
Proof.
  intros Hs Hr Ht Hx.
  assert (∃ c', port_inject (ITracePropagator:=sender) carrier x = (Ok c', x) ∧
    dict_get TRACEPARENT_HEADER c' = Some (to_traceparent t)) as (c' & Hin & Hc).
  { apply elem_of_cons in Hs as [->|Hs%list_elem_of_singleton]; [|subst sender]; cbn [port_inject W3CTracePropagator OTelTracePropagator].
    - eexists. unfold Tracing.inject, Tracing.get, bind, gets. rewrite Hx. split; [done|]. apply dict_get_set_eq.
    - eexists. unfold otel_inject, Tracing.get, bind, gets. rewrite Hx. split; [done|]. by apply sdk_writes_traceparent. }
  exists c'. split; [done|].
  apply elem_of_cons in Hr as [->|Hr%list_elem_of_singleton]; [|subst receiver]; cbn [port_extract W3CTracePropagator OTelTracePropagator].
  - unfold Tracing.extract. by rewrite Hc, from_to_traceparent.
  - by apply otel_extract_traceparent.
Qed.

(** The SDK is set up once, with the exporter of the configuration, before the
    first pod is processed, and every propagator of the framework is replaced. *)
Theorem setup_replaces_every_propagator {E} (c : OpenTelemetryConfig) (pods : list processed_pod) :
  pods ≠ [] →
  map_comp (otel_post_process (E:=E) (Ok c)) pods (mk_setup false []) =
  (Ok ((λ p, match p with W3CPod => OTelPod | _ => p end) <$> pods), mk_setup true [tracer_provider c]).
Proof.
  assert (∀ l s, setup_configured s = true →
    map_comp (otel_post_process (E:=E) (Ok c)) l s = (Ok ((λ p, match p with W3CPod => OTelPod | _ => p end) <$> l), s)) as Hdone.
  { intros l. induction l as [|p ps IH]; intros s Hs; [reflexivity|].
    rewrite (map_comp_step _ p ps s (match p with W3CPod => OTelPod | _ => p end) s).
    - by rewrite IH.
    - unfold otel_post_process, bind, get_state. by rewrite Hs. }
  destruct pods as [|p ps]; [done|]. intros _.
  rewrite (map_comp_step _ p ps _ (match p with W3CPod => OTelPod | _ => p end) (mk_setup true [tracer_provider c])); [|done].
  by rewrite Hdone.
Qed.

(** When the container has no configuration, the setup is not tried again: the
    application goes on without a provider. *)
Example failed_setup_is_final :
  let '(o, s) := otel_post_process (Raise "NoSuchPodError") (OtherPod 1) (mk_setup false []) in
  o = Raise "NoSuchPodError" ∧
  otel_post_process (E:=string) (Ok (mk_otel_config "app" CONSOLE "" (QArith_base.inject_Z 1))) W3CPod s = (Ok OTelPod, s) ∧
  registered_providers s = [].
Proof. done. Qed.

(** Records carry the trace: after a synchronisation with a binder, every record
    that passes the filter has the identifiers of the ambient trace, or none when
    there is no trace, and the other bindings stay. *)
Theorem synced_records_carry_the_trace (trace : option TraceContext) (c : log_context) (r : LogRecord) :
  NoDup c.*1 →
  let logged := context (filter_record (sync true trace c) r) in
  dict_get "trace_id" logged = trace_id <$> trace ∧ dict_get "span_id" logged = span_id <$> trace ∧
  ∀ k, k ≠ "trace_id" → k ≠ "span_id" → dict_get k logged = dict_get k c.
Proof.
  intros Hc. unfold filter_record, sync. cbn [context]. destruct trace as [t|]; cbn [fmap option_fmap option_map].
  - unfold dict_merge. cbn [foldl fst snd]. rewrite !dict_get_set_eq, dict_get_set_ne, dict_get_set_eq by done.
    split_and!; [done..|]. intros k H1 H2. by rewrite !dict_get_set_ne by done.
  - split_and!.
    + rewrite dict_get_del_ne by done. by apply dict_get_del_eq.
    + apply dict_get_del_eq. by apply dict_del_NoDup.
    + intros k H1 H2. by rewrite !dict_get_del_ne by done.
Qed.

(** ** Witnesses: a propagator with the W3C format *)

#[export] Program Instance w3c_text_map : TextMapPropagator := {
  sdk_inject s c :=
    if is_valid s then
      dict_set TRACEPARENT_HEADER
        ("00-" +:+ format_0x 32 (span_trace_id s) +:+ "-" +:+ format_0x 16 (span_span_id s) +:+ "-" +:+ format_02x (span_trace_flags s)) c
    else c;
  sdk_extract c :=
    match Tracing.extract c with
    | Some t => mk_span_context (int_hex 0 (trace_id t)) (int_hex 0 (span_id t)) true (trace_flags t)
    | None => mk_span_context 0 0 false 0
    end;
  sdk_fields := [TRACEPARENT_HEADER; "tracestate"];
}.
Next Obligation. by left. Qed.
Next Obligation. intros s c k Hk. cbn beta. destruct (is_valid s); [|done]. apply dict_get_set_ne. intros ->. apply Hk. by left. Qed.
Next Obligation. intros c c' Hc. unfold Tracing.extract. by rewrite (Hc TRACEPARENT_HEADER) by by left. Qed.
Next Obligation. intros s c Hs Hf. cbn beta. rewrite Hs. apply dict_get_set_eq. Qed.
Next Obligation. intros c t Ht Hc. unfold Tracing.extract. by rewrite Hc, from_to_traceparent. Qed.

Lemma propagators_interoperate_witness :
  ∃ carrier', port_inject (ITracePropagator:=OTelTracePropagator N) [("accept", "*")] (mk_execution (Some ex_trace) 7%N) =
      (Ok carrier', mk_execution (Some ex_trace) 7%N) ∧
    port_extract (ITracePropagator:=W3CTracePropagator N) carrier' = Some (detached ex_trace).
Proof.
  apply (propagators_interoperate ex_trace); [right; left|left|apply ex_trace_valid|reflexivity].
Defined.
Lemma setup_replaces_every_propagator_witness :
  let c := mk_otel_config "app" OTLP "http://localhost:4317" (QArith_base.inject_Z 1) in
  map_comp (otel_post_process (E:=string) (Ok c)) [OtherPod 1; W3CPod; OtherPod 2] (mk_setup false []) =
  (Ok [OtherPod 1; OTelPod; OtherPod 2], mk_setup true [tracer_provider c]).
Proof.
  by apply (setup_replaces_every_propagator (mk_otel_config "app" OTLP "http://localhost:4317" (QArith_base.inject_Z 1))
    [OtherPod 1; W3CPod; OtherPod 2]).
Defined.
Lemma synced_records_carry_the_trace_witness :
  let logged := context (filter_record (sync true (Some ex_trace) [("user", "ann")]) ex_record) in
  dict_get "trace_id" logged = Some (trace_id ex_trace) ∧ dict_get "span_id" logged = Some (span_id ex_trace) ∧
  ∀ k, k ≠ "trace_id" → k ≠ "span_id" → dict_get k logged = dict_get k [("user", "ann")].
Proof. apply (synced_records_carry_the_trace (Some ex_trace)). apply NoDup_singleton. Defined.
