(* ===== verification/Background.v ===== *)
(** * Background services

    [core/service/background.py]: a service that runs in a thread of its own,
    started and stopped by the application context ([Lifecycle.v]) through its
    methods [start] and [stop]. The statements of the main thread and those of the
    services interleave: a step relation. The stop event is the context's, one for
    all services. The asynchronous service has the same statements, a task in
    place of the thread. *)

From S2P Require Import Prelude.

Section services.
Context {L : Type}.

(** A service is a number. What [run] does between two looks at the stop event is
    a parameter: the local state after it, or [None] when [run] is over. *)
Context (run_begin : nat → L) (run_step : nat → L → bool → option L).

(** ** The statements of [start] and [stop] *)

Inductive statement := Clear_event | Initialize (i : nat) | Spawn (i : nat) | Set_event | Join (i : nat) | Dispose (i : nat).
Definition start (i : nat) : list statement := [Clear_event; Initialize i; Spawn i].
Definition stop (i : nat) : list statement := [Set_event; Join i; Dispose i].

Inductive command := Start (i : nat) | Stop (i : nat).
Definition code (cs : list command) : list statement :=
  flat_map (λ c, match c with Start i => start i | Stop i => stop i end) cs.

(** [_thread] of a service: unset, or a thread *)
Inductive thread := Running (l : L) | Finished.
Inductive lifecycle_event := Initialized (i : nat) | Began (i : nat) | Ended (i : nat) | Disposed (i : nat).

Record machine := mk_machine {
  todo : list statement;
  stop_event : bool;
  threads : gmap nat thread;
  history : list lifecycle_event;
}.
Definition boot (cs : list command) : machine := mk_machine (code cs) false ∅ [].

(** A step of the main thread, whose exceptions end it, or of a service. [join]
    waits for the thread to finish; a service that was not started has no
    attribute [_thread]. *)
Inductive step : machine → machine → Prop :=
  | step_clear ss ev ts h : step (mk_machine (Clear_event :: ss) ev ts h) (mk_machine ss false ts h)
  | step_initialize i ss ev ts h :
      step (mk_machine (Initialize i :: ss) ev ts h) (mk_machine ss ev ts (h ++ [Initialized i]))
  | step_initialize_raises i ss ev ts h : step (mk_machine (Initialize i :: ss) ev ts h) (mk_machine [] ev ts h)
  | step_spawn i ss ev ts h :
      step (mk_machine (Spawn i :: ss) ev ts h) (mk_machine ss ev (<[i := Running (run_begin i)]> ts) (h ++ [Began i]))
  | step_set ss ev ts h : step (mk_machine (Set_event :: ss) ev ts h) (mk_machine ss true ts h)
  | step_join i ss ev ts h :
      ts !! i = Some Finished → step (mk_machine (Join i :: ss) ev ts h) (mk_machine ss ev ts h)
  | step_join_unset i ss ev ts h : ts !! i = None → step (mk_machine (Join i :: ss) ev ts h) (mk_machine [] ev ts h)
  | step_dispose i ss ev ts h :
      step (mk_machine (Dispose i :: ss) ev ts h) (mk_machine ss ev ts (h ++ [Disposed i]))
  | step_run i l l' ss ev ts h :
      ts !! i = Some (Running l) → run_step i l ev = Some l' →
      step (mk_machine ss ev ts h) (mk_machine ss ev (<[i := Running l']> ts) h)
  | step_return i l ss ev ts h :
      ts !! i = Some (Running l) → run_step i l ev = None →
      step (mk_machine ss ev ts h) (mk_machine ss ev (<[i := Finished]> ts) (h ++ [Ended i])).

(** ** The life of a service

    Initialised, begun, ended, disposed, and again *)
Inductive phase := Idle | Ready | Active | Over.
Definition next_phase (i : nat) (p : option phase) (e : lifecycle_event) : option phase :=
  match e with
  | Initialized j => if decide (j = i) then match p with Some Idle => Some Ready | _ => None end else p
  | Began j => if decide (j = i) then match p with Some Ready => Some Active | _ => None end else p
  | Ended j => if decide (j = i) then match p with Some Active => Some Over | _ => None end else p
  | Disposed j => if decide (j = i) then match p with Some Over => Some Idle | _ => None end else p
  end.
(** The phase after a history; [None] when the history is no life of the service *)
Definition phase_of (i : nat) (h : list lifecycle_event) : option phase := foldl (next_phase i) (Some Idle) h.

Arguments phase_of : simpl never.

(** The main thread will treat the service in turn: [start], [stop], [start], ... *)
Fixpoint in_turn (i : nat) (p : phase) (ss : list statement) : bool :=
  match ss with
  | [] => true
  | Initialize j :: ss' =>
      if decide (j = i) then match p with Idle => in_turn i Ready ss' | _ => false end else in_turn i p ss'
  | Spawn j :: ss' =>
      if decide (j = i) then match p with Ready => in_turn i Active ss' | _ => false end else in_turn i p ss'
  | Join j :: ss' =>
      if decide (j = i) then match p with Active | Over => in_turn i Over ss' | _ => false end else in_turn i p ss'
  | Dispose j :: ss' =>
      if decide (j = i) then match p with Over => in_turn i Idle ss' | _ => false end else in_turn i p ss'
  | _ :: ss' => in_turn i p ss'
  end.

Definition thread_in (p : phase) (t : option thread) : Prop :=
  match p with
  | Active => ∃ l, t = Some (Running l)
  | Over => t = Some Finished
  | _ => t = None ∨ t = Some Finished
  end.
Definition well_phased (m : machine) : Prop :=
  ∀ i, ∃ p, phase_of i (history m) = Some p ∧ in_turn i p (todo m) = true ∧ thread_in p (threads m !! i).

Lemma phase_snoc i h e : phase_of i (h ++ [e]) = next_phase i (phase_of i h) e.
Proof. unfold phase_of. by rewrite foldl_app. Qed.
(** A thread that ends on its own keeps its turn. *)
Lemma in_turn_over i ss : in_turn i Active ss = true → in_turn i Over ss = true.
Proof.
  induction ss as [|[|j|j| |j|j] ss IH]; cbn; try done; case_decide; done || auto.
Qed.

Lemma step_well_phased m m' : step m m' → well_phased m → well_phased m'.
Proof.
  intros Hstep Hm i. destruct (Hm i) as (p & Hp & Ht & Hth).
  destruct Hstep as [| j ss ev ts h| |j ss ev ts h| |j ss ev ts h Hj|j ss ev ts h Hj|j ss ev ts h|j l l' ss ev ts h Hj Hr|j l ss ev ts h Hj Hr];
    cbn in *; try by exists p.
  - destruct (decide (j = i)) as [->|Hne].
    + destruct p; try done. exists Ready. rewrite phase_snoc, Hp. cbn. by rewrite decide_True.
    + exists p. rewrite phase_snoc, Hp. cbn. by rewrite decide_False.
  - destruct (decide (j = i)) as [->|Hne].
    + destruct p; try done. exists Active. rewrite phase_snoc, Hp, lookup_insert_eq. cbn. rewrite decide_True by done. eauto.
    + exists p. rewrite phase_snoc, Hp, lookup_insert_ne by done. cbn. by rewrite decide_False.
  - destruct (decide (j = i)) as [->|Hne]; [|by exists p]. exists Over. rewrite Hj in Hth.
    destruct p; cbn in Hth; try done. by destruct Hth as [? [=]].
  - destruct (decide (j = i)) as [->|Hne].
    + destruct p; try done. exists Idle. rewrite phase_snoc, Hp. cbn. rewrite decide_True by done. split_and!; [done..|by right].
    + exists p. rewrite phase_snoc, Hp. cbn. by rewrite decide_False.
  - exists p. split_and!; [done..|]. destruct (decide (j = i)) as [->|Hne]; [|by rewrite lookup_insert_ne].
    rewrite lookup_insert_eq. rewrite Hj in Hth. destruct p; cbn in *; naive_solver.
  - destruct (decide (j = i)) as [->|Hne].
    + rewrite Hj in Hth. assert (p = Active) as -> by (destruct p; cbn in Hth; naive_solver).
      exists Over. rewrite phase_snoc, Hp, lookup_insert_eq. cbn. rewrite decide_True by done.
      split_and!; [done|by apply in_turn_over|done].
    + exists p. rewrite phase_snoc, Hp, lookup_insert_ne by done. cbn. by rewrite decide_False.
Qed.
Lemma reachable_well_phased m m' : rtc step m m' → well_phased m → well_phased m'.
Proof. induction 1; eauto using step_well_phased. Qed.

(** ** Waiting for a service

    A service is responsive when, from the moment the event is set, its loop ends
    after [measure] rounds at most. *)
Context (measure : nat → L → nat).
Definition responsive (i : nat) : Prop := ∀ l l', run_step i l true = Some l' → measure i l' < measure i l.
(** The rounds service [i] has left *)
Definition work (i : nat) (m : machine) : nat :=
  match threads m !! i with Some (Running l) => S (measure i l) | _ => 0 end.

(** The main thread waits for service [i] to end. *)
Definition waiting (i : nat) (ss : list statement) (m : machine) : Prop :=
  todo m = Join i :: ss ∧ stop_event m = true ∧ is_Some (threads m !! i).

Lemma todo_shrinks m m' : rtc step m m' → length (todo m') ≤ length (todo m).
Proof.
  induction 1 as [|m m1 m' Hstep _ IH]; [done|]. destruct Hstep; cbn in *; lia.
Qed.

(** While the main thread waits, the event stays set and the service has no more
    to do than before. *)
Lemma still_waiting i ss m m' :
  responsive i → waiting i ss m → rtc step m m' → todo m' = Join i :: ss → waiting i ss m' ∧ work i m' ≤ work i m.
Proof.
  intros Hresp Hw Hpath Htodo. induction Hpath as [m|m m1 m' Hstep Hpath IH]; [done|].
  assert (todo m1 = todo m) as Hsame.
  { pose proof (todo_shrinks m1 m' Hpath) as Hlen. destruct Hw as [Hm _]. rewrite Htodo in Hlen.
    destruct Hstep; cbn in *; subst; cbn in *; try done; injection Hm as <- <-; lia. }
  assert (waiting i ss m1 ∧ work i m1 ≤ work i m) as [Hw1 Hwork].
  { destruct Hw as (Hm & Hev & Ht). unfold waiting, work. rewrite Hsame. clear IH Hpath.
    destruct Hstep as [| | | | |? ? ? ? ? Hj|? ? ? ? ? Hj| |j l l' ss' ev ts h Hj Hr|j l ss' ev ts h Hj Hr]; cbn in *;
      try (exfalso; apply (f_equal length) in Hsame; cbn in Hsame; lia); subst; try done.
    - destruct (decide (j = i)) as [->|Hne]; [|by rewrite lookup_insert_ne].
      rewrite lookup_insert_eq, Hj. split_and!; [done|done|by eexists|]. specialize (Hresp l l' Hr). lia.
    - destruct (decide (j = i)) as [->|Hne]; [|by rewrite lookup_insert_ne].
      rewrite lookup_insert_eq, Hj. split_and!; [done|done|by eexists|lia]. }
  destruct (IH Hw1 Htodo) as [Hw' Hle]. split; [done|lia].
Qed.

Lemma join_returns i ss m :
  responsive i → waiting i ss m → ∃ n m', n ≤ S (work i m) ∧ nsteps step n m m' ∧ todo m' = ss.
Proof.
  intros Hresp. destruct m as [td ev ts h]. unfold waiting, work. cbn. intros (-> & -> & [t Ht]). rewrite Ht.
  destruct t as [l|].
  - revert ts h Ht. remember (measure i l) as k eqn:Hk. revert l Hk.
    induction (lt_wf k) as [k _ IH]. intros l -> ts h Ht. destruct (run_step i l true) as [l'|] eqn:Hr.
    + destruct (IH _ (Hresp l l' Hr) l' eq_refl (<[i := Running l']> ts) h (lookup_insert_eq _ _ _)) as (n & m' & Hn & Hsteps & Htodo).
      exists (S n), m'. split_and!; [|by econstructor; [by eapply step_run|]|done]. specialize (Hresp l l' Hr). lia.
    + eexists 2, _. split_and!; [lia| |].
      * econstructor; [by eapply step_return|]. econstructor; [by apply step_join, lookup_insert_eq|constructor].
      * done.
  - eexists 1, _. split_and!; [lia| |]; [econstructor; [by apply step_join|constructor]|done].
Qed.
End services.

(** ** Properties *)

(** Services live in order: in a program that starts and stops each service in
    turn, whatever the interleaving with the services and whichever initialisation
    fails, every service is initialised before its [run] begins, ends before it is
    disposed, and is disposed before it is initialised again; and where the main
    thread is about to dispose of one, its thread has finished. *)
Theorem lifecycles_are_orderly {L} (run_begin : nat → L) (run_step : nat → L → bool → option L) cs m :
  (∀ i, in_turn i Idle (code cs) = true) → rtc (step run_begin run_step) (boot cs) m →
  (∀ i, ∃ p, phase_of i (history m) = Some p ∧ thread_in p (threads m !! i)) ∧
  ∀ i ss, todo m = Dispose i :: ss → threads m !! i = Some Finished.
Proof.
  intros Hcs Hm. assert (well_phased m) as Hwell.
  { apply (reachable_well_phased run_begin run_step (boot cs) m Hm). intros i. exists Idle.
    split_and!; [done|apply Hcs|left; apply lookup_empty]. }
  split.
  - intros i. destruct (Hwell i) as (p & Hp & _ & Ht). by exists p.
  - intros i ss Htodo. destruct (Hwell i) as (p & _ & Hin & Ht). rewrite Htodo in Hin. cbn in Hin.
    rewrite decide_True in Hin by done. by destruct p.
Qed.

(** Stopping a responsive service comes to an end: at every moment in which the
    main thread still waits for its thread, as many rounds as the service had left
    when the event was set, and one more, are enough for [join] to return. *)
Theorem stop_returns {L} (run_begin : nat → L) (run_step : nat → L → bool → option L) measure i ss m m' :
  responsive run_step measure i → waiting i ss m → rtc (step run_begin run_step) m m' → todo m' = Join i :: ss →
  ∃ n m'', n ≤ S (work measure i m) ∧ nsteps (step run_begin run_step) n m' m'' ∧ todo m'' = ss.
Proof.
  intros Hresp Hw Hpath Htodo. destruct (still_waiting run_begin run_step measure i ss m m' Hresp Hw Hpath Htodo) as [Hw' Hle].
  destruct (join_returns run_begin run_step measure i ss m' Hresp Hw') as (n & m'' & Hn & Hs & Ht).
  exists n, m''. split_and!; [lia|done|done].
Qed.

(** One that never looks at the event is waited for for ever. *)
Theorem deaf_service_blocks_the_stop {L} (run_begin : nat → L) (run_step : nat → L → bool → option L) i ss m m' :
  (∀ l ev, run_step i l ev ≠ None) → todo m = Join i :: ss → (∃ l, threads m !! i = Some (Running l)) →
  rtc (step run_begin run_step) m m' → todo m' = Join i :: ss.
Proof.
  intros Hdeaf Htodo Hth Hpath. induction Hpath as [|m m1 m' Hstep _ IH]; [done|]. apply IH; clear IH.
  - destruct Hth as [l0 Hl0]. destruct Hstep; cbn in *; try done; injection Htodo as -> ->; congruence.
  - destruct Hth as [l0 Hl0]. destruct Hstep as [| | | | | | | |j l l' ss' ev ts h Hj Hr|j l ss' ev ts h Hj Hr]; cbn in *; try done; try (by eexists).
    + destruct (decide (j = i)) as [->|Hne]; [rewrite lookup_insert_eq|rewrite lookup_insert_ne by done]; by eexists.
    + destruct (decide (j = i)) as [->|Hne]; [by destruct (Hdeaf l ev)|]. rewrite lookup_insert_ne by done. by eexists.
Qed.

(** ** Examples and witnesses

    A service that counts down from 3 while the event is not set, and ends in the
    round after it is set *)
Definition ex_run (i l : nat) (ev : bool) : option nat := if ev then None else Some (S l).
Abbreviation ex_step := (step (λ _, 3) ex_run).

(** [stop] before [start]: the attribute is unset, and nothing is disposed. *)
Example stop_before_start :
  rtc ex_step (boot [Stop 1]) (mk_machine [] true ∅ []).
Proof. eapply rtc_l; [apply step_set|]. eapply rtc_l; [by apply step_join_unset|]. apply rtc_refl. Qed.

(** The event is shared: stopping one service ends the other. *)
Example stopping_one_signals_all :
  ∃ ts, rtc ex_step (boot [Start 1; Start 2; Stop 1])
    (mk_machine [Join 1; Dispose 1] true ts [Initialized 1; Began 1; Initialized 2; Began 2; Ended 2]).
Proof.
  eexists. do 6 (eapply rtc_l; [by constructor|]). eapply rtc_l; [apply step_set|].
  eapply rtc_l; [by eapply (step_return _ _ 2 3)|]. apply rtc_refl.
Qed.

Lemma ex_in_turn : ∀ i, in_turn i Idle (code [Start 1; Start 2; Stop 2; Stop 1; Start 2]) = true.
Proof.
  intros i. cbn. destruct (decide (1 = i)) as [<-|]; [done|]. by destruct (decide (2 = i)) as [<-|].
Qed.
Lemma lifecycles_are_orderly_witness :
  let m : machine := boot (L:=nat) [Start 1; Start 2; Stop 2; Stop 1; Start 2] in
  (∀ i, ∃ p, phase_of i (history m) = Some p ∧ thread_in p (threads m !! i)) ∧
  ∀ i ss, todo m = Dispose i :: ss → threads m !! i = Some Finished.
Proof.
  apply (lifecycles_are_orderly (λ _, 3) ex_run [Start 1; Start 2; Stop 2; Stop 1; Start 2]
    (boot [Start 1; Start 2; Stop 2; Stop 1; Start 2])); [exact ex_in_turn|apply rtc_refl].
Defined.

Definition ex_waiting : machine := mk_machine [Join 1; Dispose 1] true {[1 := Running 7]} [].
Lemma stop_returns_witness :
  ∃ n m'', n ≤ S (work (λ _ _, 0) 1 ex_waiting) ∧ nsteps ex_step n ex_waiting m'' ∧ todo m'' = [Dispose 1].
Proof.
  apply (stop_returns (λ _, 3) ex_run (λ _ _, 0) 1 [Dispose 1] ex_waiting ex_waiting).
  - intros l l' H. discriminate H.
  - split_and!; [done|done|by eexists].
  - apply rtc_refl.
  - reflexivity.
Defined.
Lemma deaf_service_blocks_the_stop_witness :
  todo (mk_machine [Join 1; Dispose 1] true {[1 := Running 4]} []) = [Join 1; Dispose 1].
Proof.
  apply (deaf_service_blocks_the_stop (λ _, 3) (λ _ l _, Some (S l)) 1 [Dispose 1]
    (mk_machine [Join 1; Dispose 1] true {[1 := Running 3]} [])); [done|done|by eexists|].
  eapply rtc_l; [by eapply (step_run _ _ 1 3 4)|]. cbn. rewrite insert_singleton_eq. apply rtc_refl.
Defined.
