(* ===== verification/Proxy.v ===== *)
(** * Dynamic proxies

    [core/common/proxy.py]: the factory that makes an object of a subclass of the
    target's class, whose attribute accesses go to a handler, and the wrappers of
    methods it caches. The theorems say when such a proxy is the object itself,
    but for what its handler does around calls, and what [AspectPostProcessor]
    gets by putting the handler of [Aop.v] in it. Coroutine methods have the same
    wrappers with [await]. *)

From S2P Require Import Prelude Aop.

(** ** Objects

    A class says what its names are: methods, properties and other values.
    [object.__getattribute__] looks for a property of the class first, then for
    an attribute of the instance, then for the rest of the class. The classes
    have no [__getattr__], [__getattribute__] or [__setattr__] of their own. *)

Section objects.
Context {W E V Args : Type}.
Context (AttributeError : string → E).

(** A bound method, identified by a name, or another value *)
Inductive value := Bound (m : string) | Plain (v : V).
Record object := mk_object { attributes : list (string * value); world : W }.

Inductive class_attribute :=
  | Function (m : string)
  | Property (fget : comp object E value) (fset : option (value → comp object E unit)) (fdel : option (comp object E unit))
  | ClassValue (v : value).

(** The names of the class, what methods do, and calling a value that is no
    bound method *)
Context (cls : string → option class_attribute).
Context (body : string → Args → comp object E value).
Context (call_plain : V → Args → comp object E value).

Definition set_attributes (l : list (string * value)) : comp object E unit :=
  modify (λ o, mk_object l (world o)).

Definition object_getattribute (name : string) : comp object E value := λ o,
  match cls name with
  | Some (Property fget _ _) => fget o
  | other =>
      match dict_get name (attributes o) with
      | Some v => (Ok v, o)
      | None =>
          match other with
          | Some (Function m) => (Ok (Bound m), o)
          | Some (ClassValue v) => (Ok v, o)
          | _ => (Raise (AttributeError name), o)
          end
      end
  end.
Definition object_setattr (name : string) (v : value) : comp object E unit := λ o,
  match cls name with
  | Some (Property _ (Some fset) _) => fset v o
  | Some (Property _ None _) => (Raise (AttributeError name), o)
  | _ => set_attributes (dict_set name v (attributes o)) o
  end.
Definition object_delattr (name : string) : comp object E unit := λ o,
  match cls name with
  | Some (Property _ _ (Some fdel)) => fdel o
  | Some (Property _ _ None) => (Raise (AttributeError name), o)
  | _ => if dict_has name (attributes o) then set_attributes (dict_del name (attributes o)) o
         else (Raise (AttributeError name), o)
  end.

(** ** Handlers *)

Section proxies.
Context {H : Type}.
Abbreviation intercepted := (comp (object * H) E).

Definition on_target {A} (m : comp object E A) : intercepted A := λ '(o, h), let '(r, o') := m o in (r, (o', h)).

Record IProxyHandler := mk_proxy_handler {
  handler_call : string → Args → intercepted value;
  handler_get : string → intercepted value;
  handler_set : string → value → intercepted unit;
  handler_delete : string → intercepted unit;
}.
(** [AbstractProxyHandler]: the target does it. *)
Definition AbstractProxyHandler : IProxyHandler :=
  mk_proxy_handler (λ m args, on_target (body m args)) (λ n, on_target (object_getattribute n))
    (λ n v, on_target (object_setattr n v)) (λ n, on_target (object_delattr n)).
(** A handler that overrides [call] only *)
Definition calling (call : string → Args → intercepted value) : IProxyHandler :=
  mk_proxy_handler call (handler_get AbstractProxyHandler) (handler_set AbstractProxyHandler)
    (handler_delete AbstractProxyHandler).

(** ** The factory *)

Definition ATTRIBUTES_TO_IGNORE : list string :=
  ["__dict__"; "__class__"; "__weakref__"; "__base__"; "__bases__"; "__mro__"; "__subclasses__"; "__name__";
   "__qualname__"; "__module__"; "__annotations__"; "__doc__"].

Context (handler : IProxyHandler).

(** The target, the state of the handler, and for each name the bound method its
    wrapper was made for *)
Record ProxyFactory := mk_factory { _target : object; _handler_state : H; _wrapper_cache : list (string * string) }.
Abbreviation access := (comp ProxyFactory E).
Inductive proxied := Wrapper (m : string) | Value (v : value).

Definition with_handler {A} (m : intercepted A) : access A := λ p,
  let '(r, (o, h)) := m (_target p, _handler_state p) in (r, mk_factory o h (_wrapper_cache p)).
Definition raw_getattribute (name : string) : access value := with_handler (on_target (object_getattribute name)).
Definition cache_wrapper (name m : string) : access unit :=
  modify (λ p, mk_factory (_target p) (_handler_state p) (dict_set name m (_wrapper_cache p))).

Definition __proxy_getattr__ (name : string) : access value := with_handler (handler_get handler name).
Definition __proxy_setattr__ (name : string) (v : value) : access unit := with_handler (handler_set handler name v).
Definition __proxy_delattr__ (name : string) : access unit := with_handler (handler_delete handler name).
Definition __proxy_call__ (m : string) (args : Args) : access value := with_handler (handler_call handler m args).

Definition __proxy_getattribute__ (name : string) : access proxied :=
  cache <- gets _wrapper_cache ;;
  match dict_get name cache with
  | Some m => ret (Wrapper m)
  | None =>
      v <- raw_getattribute name ;;
      match v with
      | Bound m => cache_wrapper name m ;;; ret (Wrapper m)
      | Plain _ =>
          if bool_decide (name ∈ ATTRIBUTES_TO_IGNORE) then ret (Value v)
          else v <- __proxy_getattr__ name ;; ret (Value v)
      end
  end.

(** [create]: the object of the subclass, without attributes of its own *)
Definition create (target : object) (h : H) : ProxyFactory := mk_factory target h [].

(** ** Clients

    [x.name], [x.name = v], [del x.name] and [x.name(args)], and what the client
    sees; a wrapper shows as the method it wraps. *)

Inductive client_op := Get (name : string) | Set_ (name : string) (v : value) | Delete (name : string) | Call (name : string) (args : Args).
Definition client_result := option value.

Definition shown (v : proxied) : value := match v with Wrapper m => Bound m | Value v => v end.

Definition call_proxied (v : proxied) (args : Args) : access value :=
  match v with
  | Wrapper m => __proxy_call__ m args
  | Value (Bound m) => with_handler (on_target (body m args))
  | Value (Plain v) => with_handler (on_target (call_plain v args))
  end.
Definition proxy_op (op : client_op) : access client_result :=
  match op with
  | Get n => v <- __proxy_getattribute__ n ;; ret (Some (shown v))
  | Set_ n v => __proxy_setattr__ n v ;;; ret None
  | Delete n => __proxy_delattr__ n ;;; ret None
  | Call n args => v <- __proxy_getattribute__ n ;; r <- call_proxied v args ;; ret (Some r)
  end.
(** The same on the target, its bound methods called by [call] *)
Definition target_op (call : string → Args → intercepted value) (op : client_op) : intercepted client_result :=
  match op with
  | Get n => v <- on_target (object_getattribute n) ;; ret (Some v)
  | Set_ n v => on_target (object_setattr n v) ;;; ret None
  | Delete n => on_target (object_delattr n) ;;; ret None
  | Call n args =>
      v <- on_target (object_getattribute n) ;;
      r <- match v with Bound m => call m args | Plain v => on_target (call_plain v args) end ;;
      ret (Some r)
  end.

(** A client goes on after an exception. *)
Fixpoint run_ops {S} (step : client_op → comp S E client_result) (ops : list client_op) (s : S) : list (outcome E client_result) * S :=
  match ops with
  | [] => ([], s)
  | op :: ops' => let '(r, s1) := step op s in let '(rs, s2) := run_ops step ops' s1 in (r :: rs, s2)
  end.
End proxies.

(** ** Objects whose methods stay

    No attribute of the instance shadows a method of the class or holds a bound
    method, the class has no other bound methods, and reading a property changes
    nothing. *)

Definition method_name (name : string) : bool := match cls name with Some (Function _) => true | _ => false end.
Definition settled_attribute (a : string * value) : Prop := method_name a.1 = false ∧ ∃ p, a.2 = Plain p.
Definition settled (o : object) : Prop := Forall settled_attribute (attributes o).
Definition preserves {A} (m : comp object E A) : Prop := ∀ o, settled o → settled (m o).2.

Record WellBehaved := {
  quiet_getters : ∀ n fget fset fdel o, cls n = Some (Property fget fset fdel) →
    (fget o).2 = o ∧ ∀ m, (fget o).1 ≠ Ok (Bound m);
  class_values : ∀ n v, cls n = Some (ClassValue v) → ∃ p, v = Plain p;
  settled_setters : ∀ n fget f fdel v, cls n = Some (Property fget (Some f) fdel) → preserves (f v);
  settled_deleters : ∀ n fget fset f, cls n = Some (Property fget fset (Some f)) → preserves f;
  settled_plain : ∀ v args, preserves (call_plain v args);
}.
(** A client assigns values, not methods, and not over methods. *)
Definition tame (op : client_op) : bool :=
  match op with Set_ n v => negb (method_name n) && match v with Plain _ => true | Bound _ => false end | _ => true end.
End objects.

Arguments value : clear implicits.
Arguments object : clear implicits.
Arguments class_attribute : clear implicits.
Arguments client_op : clear implicits.
Arguments ProxyFactory : clear implicits.

Section specification.
Context {W E V Args H : Type}.
Context (AttributeError : string → E) (cls : string → option (class_attribute W E V)).
Context (body : string → Args → comp (object W V) E (value V)).
Context (call_plain : V → Args → comp (object W V) E (value V)).
Context (Hwell : WellBehaved cls call_plain).
Implicit Types (o : object W V) (h : H).

Abbreviation getattribute := (object_getattribute AttributeError cls).
Abbreviation is_settled := (settled cls).

Definition calls_preserve (J : H → Prop) (call : string → Args → comp (object W V * H) E (value V)) : Prop :=
  ∀ m args o h, is_settled o → J h → is_settled (call m args (o, h)).2.1 ∧ J (call m args (o, h)).2.2.

Lemma settled_get n v o : is_settled o → dict_get n (attributes o) = Some v → method_name cls n = false ∧ ∃ p, v = Plain p.
Proof. intros Ho Hv%dict_get_elem_of. unfold settled in Ho. rewrite Forall_forall in Ho. apply (Ho _ Hv). Qed.

(** Reading a name *)
Lemma getattribute_quiet n o : (getattribute n o).2 = o.
Proof.
  unfold object_getattribute. destruct (cls n) as [[m|fget fset fdel|v]|] eqn:Hn;
    try by destruct (dict_get n (attributes o)). by apply (quiet_getters _ _ Hwell n fget fset fdel o).
Qed.
Lemma getattribute_bound n o m :
  is_settled o → (getattribute n o).1 = Ok (Bound m) ↔ cls n = Some (Function m).
Proof.
  intros Ho. unfold object_getattribute. destruct (cls n) as [[m'|fget fset fdel|v]|] eqn:Hn.
  - destruct (dict_get n (attributes o)) as [v|] eqn:Hv.
    + destruct (settled_get n v o Ho Hv) as [Hm _]. unfold method_name in Hm. by rewrite Hn in Hm.
    + cbn. split; [by intros [= ->]|by intros [= ->]].
  - split; [|done]. intros Hf. by destruct (proj2 (quiet_getters _ _ Hwell n fget fset fdel o Hn) m).
  - split; [|done]. destruct (dict_get n (attributes o)) as [u|] eqn:Hu.
    + destruct (settled_get n u o Ho Hu) as [_ [p ->]]. done.
    + destruct (class_values _ _ Hwell n v Hn) as [p ->]. done.
  - split; [|done]. destruct (dict_get n (attributes o)) as [u|] eqn:Hu; [|done].
    destruct (settled_get n u o Ho Hu) as [_ [p ->]]. done.
Qed.

Lemma set_settled n v o :
  is_settled o → tame (Args:=Args) cls (Set_ n v) = true → is_settled (object_setattr AttributeError cls n v o).2.
Proof.
  intros Ho [Hn Hv]%andb_true_iff. apply negb_true_iff in Hn. destruct v as [m|p]; [done|].
  assert (is_settled (mk_object (dict_set n (Plain p) (attributes o)) (world o))) as Hset.
  { apply dict_set_Forall; [done|]. split; [done|]. eauto. }
  unfold object_setattr. destruct (cls n) as [[m|fget [f|] fdel|v]|] eqn:Hc; try done.
  by apply (settled_setters _ _ Hwell n fget f fdel).
Qed.
Lemma delete_settled n o : is_settled o → is_settled (object_delattr AttributeError cls n o).2.
Proof.
  intros Ho. assert (is_settled (mk_object (dict_del n (attributes o)) (world o))) as Hdel by by apply dict_del_Forall.
  unfold object_delattr. destruct (cls n) as [[m|fget fset [f|]|v]|] eqn:Hc; try by destruct (dict_has n (attributes o)).
  by apply (settled_deleters _ _ Hwell n fget fset f).
Qed.

(** A wrapper in the cache is the wrapper of the method of the class. *)
Definition cached_methods (cache : list (string * string)) : Prop :=
  ∀ n m, dict_get n cache = Some m → cls n = Some (Function m).
Lemma cache_wrapper_methods n m cache :
  cached_methods cache → cls n = Some (Function m) → cached_methods (dict_set n m cache).
Proof.
  intros Hc Hn n' m'. destruct (decide (n' = n)) as [->|Hne].
  - rewrite dict_get_set_eq. by intros [= <-].
  - rewrite dict_get_set_ne by done. apply Hc.
Qed.

Context (call : string → Args → comp (object W V * H) E (value V)).
Context (J : H → Prop) (Hcall : calls_preserve J call).
Abbreviation handler := (calling AttributeError cls body call).

(** Reading through the proxy shows what reading the target does, and the method
    of a wrapper is the one the target has. *)
Lemma proxy_get_spec n (p : ProxyFactory W V H) :
  is_settled (_target p) → cached_methods (_wrapper_cache p) →
  ∃ cache, cached_methods cache ∧
    __proxy_getattribute__ AttributeError cls handler n p =
      (match (getattribute n (_target p)).1 with
       | Ok (Bound m) => Ok (Wrapper m)
       | Ok (Plain v) => Ok (Value (Plain v))
       | Raise e => Raise e
       end, mk_factory (_target p) (_handler_state p) cache).
Proof.
  intros Ho Hc. destruct p as [o h cache]; cbn in *.
  assert (∀ m, dict_get n cache = Some m → getattribute n o = (Ok (Bound m), o)) as Hcached.
  { intros m Hm. rewrite (surjective_pairing (getattribute n o)), getattribute_quiet. f_equal.
    apply getattribute_bound; [done|]. by apply Hc. }
  unfold __proxy_getattribute__, bind at 1, gets. cbn [_wrapper_cache].
  destruct (dict_get n cache) as [m|] eqn:Hm; [exists cache; by rewrite (Hcached m)|].
  unfold bind at 1, raw_getattribute, with_handler, on_target. cbn [_target _handler_state].
  pose proof (getattribute_quiet n o) as Hq. destruct (getattribute n o) as [[v|e] o'] eqn:Hg; cbn in Hq; subst o'.
  - destruct v as [m|v].
    + exists (dict_set n m cache). split; [|done]. apply cache_wrapper_methods; [done|].
      apply (getattribute_bound n o m Ho). by rewrite Hg.
    + exists cache. split; [done|]. destruct (bool_decide _); [done|]. cbn.
      unfold bind, __proxy_getattr__, with_handler. cbn. by rewrite Hg.
  - by exists cache.
Qed.

Lemma proxy_op_spec op (p : ProxyFactory W V H) :
  is_settled (_target p) → J (_handler_state p) → cached_methods (_wrapper_cache p) → tame cls op = true →
  ∃ cache, cached_methods cache ∧
    let '(r, (o, h)) := target_op AttributeError cls call_plain call op (_target p, _handler_state p) in
    is_settled o ∧ J h ∧ proxy_op AttributeError cls body call_plain handler op p = (r, mk_factory o h cache).
Proof.
  intros Ho Hh Hc Hop. destruct op as [n|n v|n|n args]; cbn [proxy_op target_op].
  - destruct (proxy_get_spec n p Ho Hc) as (cache & Hcache & Hp). exists cache. split; [done|].
    unfold bind. rewrite Hp. unfold on_target.
    pose proof (getattribute_quiet n (_target p)) as Hq. destruct (getattribute n (_target p)) as [[[m|v]|e] o];
      cbn in Hq |- *; by subst o.
  - exists (_wrapper_cache p). split; [done|]. unfold bind, __proxy_setattr__, with_handler, on_target. cbn.
    pose proof (set_settled n v (_target p) Ho Hop) as Hset. unfold on_target.
    destruct (object_setattr AttributeError cls n v (_target p)) as [[[]|e] o]; done.
  - exists (_wrapper_cache p). split; [done|]. unfold bind, __proxy_delattr__, with_handler, on_target. cbn.
    pose proof (delete_settled n (_target p) Ho) as Hset. unfold on_target.
    destruct (object_delattr AttributeError cls n (_target p)) as [[[]|e] o]; done.
  - destruct (proxy_get_spec n p Ho Hc) as (cache & Hcache & Hp). exists cache. split; [done|].
    unfold bind. rewrite Hp. unfold on_target.
    pose proof (getattribute_quiet n (_target p)) as Hq. destruct (getattribute n (_target p)) as [[[m|v]|e] o];
      cbn in Hq |- *; subst o; [| |done].
    + unfold __proxy_call__, with_handler. cbn. pose proof (Hcall m args (_target p) (_handler_state p) Ho Hh) as [Hs HJ].
      destruct (call m args (_target p, _handler_state p)) as [[r|e] [o h]]; done.
    + unfold with_handler, on_target. cbn. pose proof (settled_plain _ _ Hwell v args _ Ho) as Hs.
      destruct (call_plain v args (_target p)) as [[r|e] o]; done.
Qed.

Lemma proxy_ops_spec ops (p : ProxyFactory W V H) :
  is_settled (_target p) → J (_handler_state p) → cached_methods (_wrapper_cache p) → forallb (tame cls) ops = true →
  ∃ cache,
    let '(rs, (o, h)) := run_ops (target_op AttributeError cls call_plain call) ops (_target p, _handler_state p) in
    J h ∧ run_ops (proxy_op AttributeError cls body call_plain handler) ops p = (rs, mk_factory o h cache).
Proof.
  revert p. induction ops as [|op ops IH]; intros p Ho Hh Hc Hops; [exists (_wrapper_cache p); by destruct p|].
  cbn in Hops. apply andb_true_iff in Hops as [Hop Hops].
  destruct (proxy_op_spec op p Ho Hh Hc Hop) as (cache & Hcache & Hp). cbn [run_ops].
  destruct (target_op AttributeError cls call_plain call op (_target p, _handler_state p)) as [r [o h]].
  destruct Hp as (Ho' & Hh' & ->). destruct (IH (mk_factory o h cache) Ho' Hh' Hcache Hops) as (cache' & Hr). exists cache'.
  cbn in Hr. destruct (run_ops (target_op AttributeError cls call_plain call) ops (o, h)) as [rs [o' h']].
  destruct Hr as [HJ ->]. done.
Qed.
End specification.

(** ** The proxies of aspects *)

Section woven.
Context {W E V Args : Type}.
Context (AttributeError : string → E) (cls : string → option (class_attribute W E V)).
Context (body : string → Args → comp (object W V) E (value V)).
Context (call_plain : V → Args → comp (object W V) E (value V)).
Context (is_exception : E → bool).
Abbreviation aspect := (IAspect (object W V) E Args (value V)).
Abbreviation aop_handler := (@AspectProxyHandler (object W V) E Args (value V)).
Abbreviation func := (Args → comp (object W V) E (value V)).
Implicit Types l : list aspect.

(** [AspectProxyHandler.call], with its cache *)
Definition woven_call (m : string) (args : Args) : comp (object W V * aop_handler) E (value V) := λ '(o, h),
  let '(r, o', h') := Aop.call is_exception h m (body m) args o in (r, (o', h')).
Definition woven_handler : IProxyHandler := calling AttributeError cls body woven_call.
(** [AspectPostProcessor.post_process] for the aspects that match *)
Definition weave l (target : object W V) : ProxyFactory W V aop_handler := create target (new_handler (sort_aspects l)).
Definition woven_op : client_op V Args → comp (ProxyFactory W V aop_handler) E (option (value V)) :=
  proxy_op AttributeError cls body call_plain woven_handler.

(** The calls of methods of the object, advised *)
Definition advised l (m : string) (args : Args) : comp (object W V * unit) E (value V) :=
  on_target (nest is_exception (advice_order l m) (body m) args).
Definition advised_op l : client_op V Args → comp (object W V * unit) E (option (value V)) :=
  target_op AttributeError cls call_plain (advised l).

Definition func_preserves (f : func) : Prop := ∀ args, preserves cls (f args).
Definition aspect_preserves (x : aspect) : Prop := ∀ f, func_preserves f → func_preserves (Advisor_call is_exception x f).

Definition handler_ok l (h : aop_handler) : Prop := cache_ok is_exception body h ∧ aspects h = sort_aspects l.

Lemma woven_call_spec l m args o h :
  handler_ok l h →
  ∃ h', handler_ok l h' ∧
    woven_call m args (o, h) = (let '(r, o') := nest is_exception (advice_order l m) (body m) args o in (r, (o', h'))).
Proof.
  intros [Hok Hl]. destruct (runnable_of_ok is_exception body h m Hok) as (Hr & Hok' & Hl').
  unfold woven_call, Aop.call. destruct (runnable_of is_exception h m (body m)) as [r h']; cbn in *. subst r.
  exists h'. split; [split; [done|congruence]|]. rewrite Hl, advise_nest. fold (advice_order l m).
  by destruct (nest is_exception (advice_order l m) (body m) args o).
Qed.

Lemma nest_preserves l m :
  Forall aspect_preserves l → (∀ m, func_preserves (body m)) → func_preserves (nest is_exception (advice_order l m) (body m)).
Proof.
  intros Hl Hbody. unfold nest. assert (Forall aspect_preserves (advice_order l m)) as Ha.
  { apply Forall_forall. intros x [Hx _]%advice_order_elem. rewrite Forall_forall in Hl. by apply Hl. }
  induction Ha as [|x xs Hx _ IH]; [apply Hbody|]. cbn. by apply Hx.
Qed.

Lemma woven_target_op l op o h :
  handler_ok l h →
  ∃ h', handler_ok l h' ∧
    target_op AttributeError cls call_plain woven_call op (o, h) =
    (let '(r, (o', _)) := advised_op l op (o, tt) in (r, (o', h'))).
Proof.
  intros Hh. unfold advised_op. destruct op as [n|n v|n|n args]; cbn [target_op]; unfold bind, on_target.
  - exists h. split; [done|]. by destruct (object_getattribute AttributeError cls n o) as [[]].
  - exists h. split; [done|]. by destruct (object_setattr AttributeError cls n v o) as [[]].
  - exists h. split; [done|]. by destruct (object_delattr AttributeError cls n o) as [[]].
  - destruct (object_getattribute AttributeError cls n o) as [[[m|v]|e] o'].
    + destruct (woven_call_spec l m args o' h Hh) as (h' & Hh' & Hw). exists h'. split; [done|]. rewrite Hw.
      unfold advised, on_target. by destruct (nest is_exception (advice_order l m) (body m) args o') as [[]].
    + exists h. split; [done|]. by destruct (call_plain v args o') as [[]].
    + by exists h.
Qed.
Lemma woven_target_ops l ops o h :
  handler_ok l h →
  ∃ h', run_ops (target_op AttributeError cls call_plain woven_call) ops (o, h) =
    (let '(rs, (o', _)) := run_ops (advised_op l) ops (o, tt) in (rs, (o', h'))).
Proof.
  revert o h. induction ops as [|op ops IH]; intros o h Hh; [by exists h|]. cbn [run_ops].
  destruct (woven_target_op l op o h Hh) as (h' & Hh' & ->).
  destruct (advised_op l op (o, tt)) as [r [o' []]]. destruct (IH o' h' Hh') as (h'' & ->). exists h''.
  by destruct (run_ops (advised_op l) ops (o', tt)) as [rs [o'' []]].
Qed.

End woven.

(** With the handler that passes everything on, the proxy is its target. *)
Theorem proxy_is_transparent {W E V Args H} AttributeError (cls : string → option (class_attribute W E V))
    (body : string → Args → comp (object W V) E (value V)) call_plain ops o (h : H) :
  WellBehaved cls call_plain → settled cls o → (∀ m args, preserves cls (body m args)) → forallb (tame cls) ops = true →
  let '(rs, p) := run_ops (proxy_op AttributeError cls body call_plain (AbstractProxyHandler AttributeError cls body)) ops (create o h) in
  run_ops (target_op AttributeError cls call_plain (λ m args, on_target (body m args))) ops (o, h) = (rs, (_target p, h)).
Proof.
  intros Hwell Ho Hbody Hops.
  destruct (proxy_ops_spec AttributeError cls body call_plain Hwell (λ m args, on_target (body m args)) (λ h', h' = h)
    ltac:(intros m args o1 h1 Ho1 ->; cbn; pose proof (Hbody m args o1 Ho1); by destruct (body m args o1))
    ops (create o h) Ho eq_refl ltac:(done) Hops) as (cache & Hp).
  cbn in Hp. unfold create in *. unfold calling in Hp. unfold AbstractProxyHandler in *. cbn in Hp.
  destruct (run_ops (target_op AttributeError cls call_plain (λ m args, on_target (body m args))) ops (o, h)) as [rs [o1 h1]].
  by destruct Hp as [-> ->].
Qed.

(** ** Examples *)

Definition ex_class (name : string) : option (class_attribute nat string nat) :=
  if bool_decide (name = "greet") then Some (Function "greet")
  else if bool_decide (name = "outer") then Some (Function "outer")
  else if bool_decide (name = "ticket") then
    Some (Property (λ o, (Ok (Plain (world o)), mk_object (attributes o) (S (world o)))) None None)
  else if bool_decide (name = "strategy") then
    Some (Property (λ o, (Ok (Bound (if bool_decide (world o = 0) then "greet" else "outer")), o)) None None)
  else None.
(** [greet] returns its argument, [outer] the number after it. *)
Definition ex_body (m : string) (args : nat) : comp (object nat nat) string (value nat) :=
  if bool_decide (m = "outer") then ret (Plain (S args)) else ret (Plain args).
Definition ex_plain (v : nat) (args : nat) : comp (object nat nat) string (value nat) := raise "TypeError".
Definition ex_object : object nat nat := mk_object [("size", Plain 3)] 0.

(** A handler that counts the calls it sees *)
Definition ex_counting : IProxyHandler :=
  calling (λ n : string, n) ex_class ex_body
    (λ m args, λ '(o, n), let '(r, o') := ex_body m args o in (r, (o', S n))).
Abbreviation ex_proxy := (run_ops (proxy_op (λ n : string, n) ex_class ex_body ex_plain ex_counting)).
Abbreviation ex_target := (run_ops (target_op (H:=nat) (λ n : string, n) ex_class ex_plain (λ m args, on_target (ex_body m args)))).

Example ex_calls :
  let '(rs, p) := ex_proxy [Call "greet" 1; Get "size"; Get "missing"; Set_ "size" (Plain 4); Call "greet" 2; Call "outer" 2]
                    (create ex_object 0) in
  rs = [Ok (Some (Plain 1)); Ok (Some (Plain 3)); Raise "missing"; Ok None; Ok (Some (Plain 2)); Ok (Some (Plain 3))] ∧
  _handler_state p = 3 ∧ attributes (_target p) = [("size", Plain 4)].
Proof. done. Qed.

(** An attribute that is assigned one bound method after another is called through
    the wrapper of the first. *)
Example stale_bound_attribute :
  let ops := [Set_ "callback" (Bound "greet"); Call "callback" 1; Set_ "callback" (Bound "outer"); Call "callback" 1] in
  (ex_proxy ops (create ex_object 0)).1 = [Ok None; Ok (Some (Plain 1)); Ok None; Ok (Some (Plain 1))] ∧
  (ex_target ops (ex_object, 0)).1 = [Ok None; Ok (Some (Plain 1)); Ok None; Ok (Some (Plain 2))].
Proof. by vm_compute. Qed.
(** A wrapper outlives its method: after an assignment over a method that was
    read before, or its deletion, the proxy still calls the first one. *)
Example stale_wrapper :
  (ex_proxy [Get "greet"; Set_ "greet" (Plain 9); Get "greet"] (create ex_object 0)).1 =
    [Ok (Some (Bound "greet")); Ok None; Ok (Some (Bound "greet"))] ∧
  (ex_target [Get "greet"; Set_ "greet" (Plain 9); Get "greet"] (ex_object, 0)).1 =
    [Ok (Some (Bound "greet")); Ok None; Ok (Some (Plain 9))].
Proof. done. Qed.

(** The getter of a property runs twice for each read through a proxy, and a
    property that returns a bound method is read once and for all. *)
Example getter_runs_twice :
  (ex_proxy [Get "ticket"; Get "ticket"] (create ex_object 0)).1 = [Ok (Some (Plain 1)); Ok (Some (Plain 3))] ∧
  (ex_target [Get "ticket"; Get "ticket"] (ex_object, 0)).1 = [Ok (Some (Plain 0)); Ok (Some (Plain 1))].
Proof. done. Qed.
Example property_is_frozen :
  (ex_proxy [Get "strategy"; Get "ticket"; Get "strategy"] (create ex_object 0)).1 =
    [Ok (Some (Bound "greet")); Ok (Some (Plain 1)); Ok (Some (Bound "greet"))] ∧
  (ex_target [Get "strategy"; Get "ticket"; Get "strategy"] (ex_object, 0)).1 =
    [Ok (Some (Bound "greet")); Ok (Some (Plain 0)); Ok (Some (Bound "outer"))].
Proof. done. Qed.

(** ** Witnesses *)

(** The class without its two properties *)
Definition quiet_class (name : string) : option (class_attribute nat string nat) :=
  if bool_decide (name = "greet") then Some (Function "greet")
  else if bool_decide (name = "outer") then Some (Function "outer") else None.
Lemma quiet_class_well : WellBehaved quiet_class ex_plain.
Proof.
  assert (∀ n c, quiet_class n = Some c → ∃ m, c = Function m) as Hf.
  { intros n c. unfold quiet_class. repeat (case_bool_decide; [intros [= <-]; eauto|]). done. }
  split; try by intros; match goal with H : quiet_class _ = _ |- _ => destruct (Hf _ _ H) end.
  by intros v args o Ho.
Qed.
Lemma ex_object_settled : settled quiet_class ex_object.
Proof. repeat constructor. eauto. Qed.

Lemma ex_body_preserves m args : preserves quiet_class (ex_body m args).
Proof. intros o Ho. unfold ex_body. by case_bool_decide. Qed.

Definition ex_doubling : IAspect (object nat nat) string nat (value nat) :=
  mk_aspect 1 (mk_pointcuts None None None None (Some (λ m, bool_decide (m = "greet"))))
    default_before default_after_raising default_after_returning default_after (λ next args, next (args + args)).

Example ex_woven :
  (run_ops (woven_op (λ n : string, n) quiet_class ex_body ex_plain (λ _, true))
    [Call "greet" 2; Get "size"; Call "outer" 2] (weave [ex_doubling] ex_object)).1 =
  [Ok (Some (Plain 4)); Ok (Some (Plain 3)); Ok (Some (Plain 3))].
Proof. done. Qed.

Lemma proxy_is_transparent_witness :
  let ops := [Call "greet" 2; Get "size"; Set_ "size" (Plain 4)] in
  let '(rs, p) := run_ops (proxy_op (λ n : string, n) quiet_class ex_body ex_plain
                    (AbstractProxyHandler (λ n : string, n) quiet_class ex_body)) ops (create ex_object 7) in
  run_ops (target_op (λ n : string, n) quiet_class ex_plain (λ m args, on_target (ex_body m args))) ops (ex_object, 7)
  = (rs, (_target p, 7)).
Proof.
  apply (proxy_is_transparent (λ n : string, n) quiet_class ex_body ex_plain
    [Call "greet" 2; Get "size"; Set_ "size" (Plain 4)] ex_object 7).
  - apply quiet_class_well.
  - apply ex_object_settled.
  - intros m args. apply ex_body_preserves.
  - reflexivity.
Defined.
