(* ===== verification/SqlTransaction.v ===== *)
(** * Transactions over scoped sessions

    [plugins/spakky-sqlalchemy]: the session manager
    ([persistency/session_manager.py]) and the transaction ([transaction.py]) it
    makes of the contract of [Data.v]. The scoped registry and the sessions are
    SQLAlchemy's, an interface with laws. The theorems say what one transaction
    after the other does; the examples, what happens to transactions that
    overlap. The asynchronous classes run the same statements with [await]. *)

From S2P Require Import Prelude Data.

Section session_manager.
Context {S X H C : Type}.

(** [scoped_session()] and [scoped_session.remove()] of the scope [c], which
    [get_context_id] names, and the methods of a session *)
Record scoped_sessions := mk_scoped_sessions {
  registry_call : C → comp S X H;
  registry_remove : C → comp S X unit;
  session_commit : H → comp S X unit;
  session_rollback : H → comp S X unit;
  session_close : H → comp S X unit;
}.
Context (SessionNotInitializedError : X) (db : scoped_sessions).

(** ** [SessionManager] *)

Record SessionManager := mk_manager { database : S; _current_session : option H }.
Abbreviation action := (comp SessionManager X).

Definition on_database {A} (m : comp S X A) : action A := λ st,
  let '(o, s) := m (database st) in (o, mk_manager s (_current_session st)).
Definition set_current (h : option H) : action unit := modify (λ st, mk_manager (database st) h).

Definition session : action H :=
  current <- gets _current_session ;;
  match current with Some h => ret h | None => raise SessionNotInitializedError end.
Definition open (c : C) : action unit :=
  h <- on_database (registry_call db c) ;; set_current (Some h).
Definition close (c : C) : action unit :=
  current <- gets _current_session ;;
  match current with Some h => on_database (session_close db h) | None => ret tt end ;;;
  on_database (registry_remove db c) ;;;
  set_current None.

(** ** [Transaction] *)

Definition Transaction (autocommit : bool) (c : C) : AbstractTransaction SessionManager X :=
  mk_transaction autocommit (open c) (close c)
    (h <- session ;; on_database (session_commit db h))
    (h <- session ;; on_database (session_rollback db h)).
End session_manager.

Arguments scoped_sessions : clear implicits.
Arguments SessionManager : clear implicits.

(** ** What SQLAlchemy promises

    A scope has a session while it is registered, and asking again gives the same
    one; a new session sees what is durable. Any of the calls may raise: a rollback
    needs the connection, which a failure may have taken. *)

Class ScopedSessionsLaws {S X H C D : Type} (db : scoped_sessions S X H C)
    (durable : S → D) (working : S → H → option D) (registered : S → C → option H) := {
  call_durable c s : durable (registry_call db c s).2 = durable s;
  call_new c s h s' : registered s c = None → registry_call db c s = (Ok h, s') → working s' h = Some (durable s);
  call_same c s h : registered s c = Some h → registry_call db c s = (Ok h, s);
  call_registered c s c' : c' ≠ c → registered (registry_call db c s).2 c' = registered s c';
  call_failed c s e s' : registry_call db c s = (Raise e, s') → registered s' c = registered s c;
  session_commit_durable h s s' d : session_commit db h s = (Ok tt, s') → working s h = Some d → durable s' = d;
  session_commit_raise h s e s' : session_commit db h s = (Raise e, s') → durable s' = durable s;
  session_commit_registered h s c : registered (session_commit db h s).2 c = registered s c;
  session_rollback_durable h s : durable (session_rollback db h s).2 = durable s;
  session_rollback_registered h s c : registered (session_rollback db h s).2 c = registered s c;
  session_close_durable h s : durable (session_close db h s).2 = durable s;
  session_close_registered h s c : registered (session_close db h s).2 c = registered s c;
  remove_durable c s : durable (registry_remove db c s).2 = durable s;
  remove_registered c s s' : registry_remove db c s = (Ok tt, s') → registered s' c = None;
  remove_others c s c' : c' ≠ c → registered (registry_remove db c s).2 c' = registered s c';
}.

Section laws.
Context {S X H C D : Type} (missing : X) (db : scoped_sessions S X H C).
Context {durable : S → D} {working : S → H → option D} {registered : S → C → option H}.
Context `{!ScopedSessionsLaws db durable working registered} `{!EqDecision C}.
Implicit Types (m : SessionManager S H) (c : C).

Definition durable_of m : D := durable (database m).
Definition working_of m : option D := _current_session m ≫= working (database m).
(** Nobody is in a transaction. *)
Definition idle m : Prop := _current_session m = None ∧ ∀ c, registered (database m) c = None.
(** Only the scope [c] is. *)
Definition only_in c m : Prop := ∀ c', c' ≠ c → registered (database m) c' = None.

(** An error of a call that ends a session: of its rollback, of its close or of
    the removal of its scope *)
Definition cleanup_error (e : X) : Prop :=
  (∃ h s, (session_rollback db h s).1 = Raise e) ∨
  (∃ h s, (session_close db h s).1 = Raise e) ∨
  (∃ c s, (registry_remove db c s).1 = Raise e).

Lemma remove_spec c s :
  match registry_remove db c s with
  | (Ok _, s') => durable s' = durable s ∧ ∀ c', registered s' c' = if decide (c' = c) then None else registered s c'
  | (Raise e, s') => durable s' = durable s ∧ cleanup_error e
  end.
Proof.
  pose proof (remove_durable c s) as Hd. pose proof (remove_registered c s) as Hn. pose proof (remove_others c s) as Ho.
  destruct (registry_remove db c s) as [[[]|e] s'] eqn:Hs; cbn in *; (split; [done|]).
  - intros c'. case_decide as Hc; [subst c'; by apply Hn|by apply Ho].
  - right; right. exists c, s. by rewrite Hs.
Qed.

Lemma close_spec c m :
  match close db c m with
  | (Ok _, m') => durable_of m' = durable_of m ∧ (only_in c m → idle m')
  | (Raise e, m') => durable_of m' = durable_of m ∧ cleanup_error e
  end.
Proof.
  assert (∀ s s' : S, (∀ c', c' ≠ c → registered s c' = None) → (∀ c', registered s' c' = if decide (c' = c) then None else registered s c') →
    idle (mk_manager s' None)) as Hidle.
  { intros s s' Hs Hs'. split; [done|]. intros c'. cbn. rewrite Hs'. case_decide; auto. }
  unfold close, bind, gets, on_database, set_current, modify, ret, durable_of, only_in. destruct m as [s [h|]]; cbn.
  - pose proof (session_close_durable h s) as Hd. pose proof (session_close_registered h s) as Hg.
    destruct (session_close db h s) as [[[]|e] s1] eqn:Hs; cbn in *; [|split; [done|]; right; left; exists h, s; by rewrite Hs].
    pose proof (remove_spec c s1) as Hr. destruct (registry_remove db c s1) as [[[]|e] s2]; cbn; destruct Hr as [Hd2 Hr];
      (split; [congruence|]); [|done].
    intros Honly. apply (Hidle s1); [|done]. intros c' Hne. rewrite Hg. auto.
  - pose proof (remove_spec c s) as Hr. destruct (registry_remove db c s) as [[[]|e] s2]; cbn; destruct Hr as [Hd2 Hr];
      (split; [congruence|]); [|done].
    intros Honly. by apply (Hidle s).
Qed.

Lemma open_spec c m :
  idle m →
  match open db c m with
  | (Ok _, m') => durable_of m' = durable_of m ∧ working_of m' = Some (durable_of m) ∧ only_in c m'
  | (Raise _, m') => durable_of m' = durable_of m ∧ idle m'
  end.
Proof.
  intros [Hcur Hreg]. unfold open, bind, on_database, set_current, modify, durable_of, working_of, only_in, idle.
  pose proof (call_durable c (database m)) as Hd. pose proof (call_registered c (database m)) as Hg.
  destruct (registry_call db c (database m)) as [[h|e] s] eqn:Hs; cbn in *.
  - split_and!; [done|by apply (call_new c (database m))|]. intros c' Hne. by rewrite Hg.
  - split_and!; [done|done|]. intros c'. destruct (decide (c' = c)) as [->|Hne].
    + by rewrite (call_failed c (database m) e s Hs).
    + by rewrite Hg.
Qed.

(** A body works in the session it finds, which computes [f] of what the session
    sees: it changes nothing durable and no scope, and raises where [f] has no
    value. *)
Definition computes {A} (body : comp (SessionManager S H) X A) (f : D → option D) : Prop :=
  ∀ m d, working_of m = Some d →
    let '(o, m') := body m in
    durable_of m' = durable_of m ∧ (∀ c, registered (database m') c = registered (database m) c) ∧
    is_Some (working_of m') ∧
    match o with Ok _ => working_of m' = f d | Raise _ => f d = None end.

Lemma rollback_spec c m :
  only_in c m → is_Some (_current_session m) →
  match rollback (Transaction missing db true c) m with
  | (Ok _, m') => durable_of m' = durable_of m ∧ only_in c m'
  | (Raise e, m') => durable_of m' = durable_of m ∧ only_in c m' ∧ cleanup_error e
  end.
Proof.
  intros Honly [h Hh]. destruct m as [s cur]; cbn in Hh; subst cur.
  cbn [Transaction rollback]. unfold bind, session, gets, ret, on_database, durable_of, only_in. cbn.
  pose proof (session_rollback_durable h s) as Hd. pose proof (session_rollback_registered h s) as Hg.
  destruct (session_rollback db h s) as [[[]|e] s'] eqn:Hs; cbn in *; split_and!; try done;
    try (intros c' Hne; rewrite Hg; by apply Honly).
  left. exists h, s. by rewrite Hs.
Qed.

(** What [__exit__] makes of the outcome of a body that worked in its session *)
Lemma transaction_exit_spec {A} c (o : outcome X A) m w :
  only_in c m → working_of m = Some w →
  match (match o with
         | Ok a => __exit__ (Transaction missing db true c) false ;;; ret a
         | Raise e => __exit__ (Transaction missing db true c) true ;;; raise e
         end : comp (SessionManager S H) X A) m with
  | (Ok _, m') => (∃ a, o = Ok a) ∧ idle m' ∧ durable_of m' = w
  | (Raise e, m') => cleanup_error e ∨ (idle m' ∧ durable_of m' = durable_of m)
  end.
Proof.
  intros Honly Hw. assert (is_Some (_current_session m)) as Hcur by (unfold working_of in Hw; destruct (_current_session m); eauto; done).
  destruct o as [a|e]; unfold __exit__; cbn [autocommit_enabled Transaction].
  - unfold try_finally, try_except, bind. destruct Hcur as [h Hh]. destruct m as [s cur]; cbn in Hh; subst cur.
    cbn [Transaction commit dispose]. unfold session, gets, ret, on_database, bind. cbn [database _current_session].
    pose proof (session_commit_registered (db:=db) h s) as Hcg.
    destruct (session_commit db h s) as [[[]|e] s1] eqn:Hs; cbn [snd database _current_session] in *.
    + pose proof (close_spec c (mk_manager s1 (Some h))) as Hc. destruct (close db c (mk_manager s1 (Some h))) as [[[]|e] m2]; destruct Hc as [Hd Hi].
      * split_and!; [eauto| |].
        -- apply Hi. intros c' Hne. cbn. rewrite Hcg. by apply Honly.
        -- rewrite Hd. by apply (session_commit_durable h s s1).
      * by left.
    + pose proof (session_commit_raise h s e s1 Hs) as Hd0.
      assert (only_in c (mk_manager s1 (Some h))) as Hin1 by (intros c' Hne; cbn; rewrite Hcg; by apply Honly).
      pose proof (rollback_spec c (mk_manager s1 (Some h)) Hin1 ltac:(eauto)) as Hr.
      unfold raise. destruct (rollback (Transaction missing db true c) (mk_manager s1 (Some h))) as [[[]|e1] m2].
      * destruct Hr as [Hd1 Hin2]. pose proof (close_spec c m2) as Hc. destruct (close db c m2) as [[[]|e2] m3]; destruct Hc as [Hd Hi].
        -- right. split; [auto|]. rewrite Hd, Hd1. exact Hd0.
        -- by left.
      * destruct Hr as (_ & _ & Hr). pose proof (close_spec c m2) as Hc. destruct (close db c m2) as [[[]|e2] m3]; destruct Hc as [_ Hi]; by left.
  - unfold bind. pose proof (rollback_spec c m Honly Hcur) as Hr. cbn [Transaction dispose].
    destruct (rollback (Transaction missing db true c) m) as [[[]|e1] m2].
    + destruct Hr as [Hd1 Hin2]. pose proof (close_spec c m2) as Hc. destruct (close db c m2) as [[[]|e2] m3]; destruct Hc as [Hd Hi]; [right|by left].
      split; [auto|congruence].
    + destruct Hr as (_ & _ & Hr). by left.
Qed.

(** One transaction of an idle manager *)
Lemma transaction_from_idle {A} c (body : comp (SessionManager S H) X A) f m :
  idle m → computes body f →
  match with_transaction (Transaction missing db true c) body m with
  | (Ok _, m') => idle m' ∧ f (durable_of m) = Some (durable_of m')
  | (Raise e, m') => cleanup_error e ∨ (idle m' ∧ durable_of m' = durable_of m)
  end.
Proof.
  intros Hidle Hbody. pose proof (open_spec c m Hidle) as Ho. unfold with_transaction, __enter__. unfold bind at 1. cbn [initialize Transaction].
  destruct (open db c m) as [[[]|e] m1].
  - destruct Ho as (Hd1 & Hw1 & Hin1). specialize (Hbody m1 (durable_of m) Hw1).
    destruct (body m1) as [o m2]. destruct Hbody as (Hd2 & Hg2 & [w Hw2] & Hf).
    pose proof (transaction_exit_spec c o m2 w ltac:(intros c' Hne; rewrite Hg2; by apply Hin1) Hw2) as Hx.
    destruct o as [a|e]; cbn beta iota in Hx |- *.
    + destruct ((__exit__ (Transaction missing db true c) false;;; ret a) m2) as [[a'|e'] m3].
      * destruct Hx as (_ & Hi & Hx). split; [done|congruence].
      * destruct Hx as [Hx|[Hi Hx]]; [by left|right]. split; [done|congruence].
    + destruct ((__exit__ (Transaction missing db true c) true;;; raise e) m2) as [[a'|e'] m3].
      * by destruct Hx as [[? Hx] _].
      * destruct Hx as [Hx|[Hi Hx]]; [by left|right]. split; [done|congruence].
  - destruct Ho as [Hd Hi]. right. done.
Qed.
End laws.

(** ** Use cases, one after the other *)

Section serial.
Context {S X H C D : Type} (missing : X) (db : scoped_sessions S X H C).
Context {durable : S → D} {working : S → H → option D} {registered : S → C → option H}.
Context `{!ScopedSessionsLaws db durable working registered} `{!EqDecision C}.

Fixpoint run_use_cases (l : list (C * comp (SessionManager S H) X unit)) (m : SessionManager S H)
    : list (outcome X unit) * SessionManager S H :=
  match l with
  | [] => ([], m)
  | (c, body) :: l' =>
      let '(o, m1) := with_transaction (Transaction missing db true c) body m in
      let '(os, m2) := run_use_cases l' m1 in (o :: os, m2)
  end.

(** The effects of the use cases that returned, in order *)
Fixpoint apply_returned (os : list (outcome X unit)) (fs : list (D → option D)) (d : D) : option D :=
  match os, fs with
  | Ok _ :: os', f :: fs' => d' ← f d; apply_returned os' fs' d'
  | Raise _ :: os', _ :: fs' => apply_returned os' fs' d
  | _, _ => Some d
  end.

(** C27. Transactions that do not overlap are atomic and leave nothing behind: run
    any number of use cases one after the other, in whatever contexts, each in a
    transaction, and let no use case end in an error that a rollback, the close of
    a session or the removal of a scope raised. Then what is durable in the end is
    what the use cases that returned compute, in their order, from what was durable
    before; one that raised, in its body, in the opening of its session or in its
    commit, has no effect; and no session stays open. (A rollback that raises does
    leave the session open, [failed_rollback_skips_dispose].) *)
Theorem use_cases_are_serial (l : list (C * comp (SessionManager S H) X unit)) (fs : list (D → option D)) (m : SessionManager S H) os m' :
  idle (registered:=registered) m →
  Forall2 (λ '(_, body) f, computes (durable:=durable) (working:=working) (registered:=registered) body f) l fs →
  run_use_cases l m = (os, m') →
  (∀ e, In (Raise e) os → ¬ cleanup_error db e) →
  idle (registered:=registered) m' ∧
  apply_returned os fs (durable_of (durable:=durable) m) = Some (durable_of (durable:=durable) m').
Proof.
  intros Hidle Hl. revert m os m' Hidle. induction Hl as [|[c body] f l fs Hbody _ IH]; intros m os m' Hidle.
  { by intros [= <- <-]. }
  cbn [run_use_cases]. pose proof (transaction_from_idle missing db c body f m Hidle Hbody) as Hx.
  destruct (with_transaction (Transaction missing db true c) body m) as [o m1].
  destruct (run_use_cases l m1) as [os1 m2] eqn:Hrun. intros [= <- <-] Hno. cbn [apply_returned].
  assert (∀ e, In (Raise e) os1 → ¬ cleanup_error db e) as Hno1 by (intros e He; apply Hno; by right).
  destruct o as [[]|e].
  - destruct Hx as [Hi Hd]. rewrite Hd. by apply (IH m1 os1 m2).
  - destruct Hx as [Hx|[Hi Hd]]; [by destruct (Hno e (or_introl eq_refl))|]. rewrite <- Hd. by apply (IH m1 os1 m2).
Qed.
End serial.

(** ** A database of one number

    [handles] are the sessions with what they see, [scopes] the registry. *)

Record cell_db := mk_cell_db { cell : nat; handles : gmap nat nat; scopes : gmap nat nat; next_handle : nat }.

Definition cell_sessions : scoped_sessions cell_db string nat nat := mk_scoped_sessions
  (λ c s, match scopes s !! c with
          | Some h => (Ok h, s)
          | None => (Ok (next_handle s),
                     mk_cell_db (cell s) (<[next_handle s := cell s]> (handles s)) (<[c := next_handle s]> (scopes s)) (S (next_handle s)))
          end)
  (λ c s, (Ok tt, mk_cell_db (cell s) (handles s) (delete c (scopes s)) (next_handle s)))
  (λ h s, match handles s !! h with
          | Some n => (Ok tt, mk_cell_db n (handles s) (scopes s) (next_handle s))
          | None => (Raise "closed", s)
          end)
  (λ h s, (Ok tt, mk_cell_db (cell s) (<[h := cell s]> (handles s)) (scopes s) (next_handle s)))
  (λ h s, (Ok tt, mk_cell_db (cell s) (delete h (handles s)) (scopes s) (next_handle s))).

#[export] Instance cell_sessions_laws :
  ScopedSessionsLaws cell_sessions cell (λ s h, handles s !! h) (λ s c, scopes s !! c).
Proof.
  split; cbn; try done.
  - intros c s. by destruct (scopes s !! c).
  - intros c s h s' ->. intros [= <- <-]. cbn. by rewrite lookup_insert_eq.
  - by intros c s h ->.
  - intros c s c' Hne. destruct (scopes s !! c); [done|]. cbn. by rewrite lookup_insert_ne.
  - intros c s e s'. by destruct (scopes s !! c).
  - intros h s s' d. destruct (handles s !! h); [|done]. by intros [= <-] [= ->].
  - intros h s e s'. destruct (handles s !! h); [done|]. by intros [= _ <-].
  - intros h s c. by destruct (handles s !! h).
  - intros c s s' [= <-]. cbn. by rewrite lookup_delete_eq.
  - intros c s c' Hne. by rewrite lookup_delete_ne.
Qed.

Abbreviation cell_manager := (SessionManager cell_db nat).
Abbreviation cell_action := (comp cell_manager string unit).
Definition cell_transaction (c : nat) : AbstractTransaction cell_manager string := Transaction "not initialized" cell_sessions true c.

(** A use case through the manager: adding to the number its session sees *)
Definition add_to_cell (n : nat) : cell_action :=
  h <- session "not initialized" ;;
  on_database (modify (λ s, mk_cell_db (cell s) (alter (Nat.add n) h (handles s)) (scopes s) (next_handle s))).
Definition refuse : cell_action := raise "refused".
Definition fresh_manager (n : nat) : cell_manager := mk_manager (mk_cell_db n ∅ ∅ 0) None.

Lemma add_to_cell_computes n :
  computes (durable:=cell) (working:=λ s h, handles s !! h) (registered:=λ s c, scopes s !! c) (add_to_cell n) (λ d, Some (n + d)).
Proof.
  intros [s [h|]] d Hw; [|done]. unfold working_of in Hw. cbn in Hw.
  unfold add_to_cell, session, on_database, gets, modify, ret, bind. cbn. unfold working_of. cbn.
  rewrite lookup_alter_eq, Hw. cbn. eauto.
Qed.
Lemma refuse_computes :
  computes (durable:=cell) (working:=λ s h, handles s !! h) (registered:=λ s c, scopes s !! c) refuse (λ _, None).
Proof. intros m d Hw. unfold refuse, raise. split_and!; [done|done|by eexists|done]. Qed.

Lemma cell_cleanup_returns e : ¬ cleanup_error cell_sessions e.
Proof. by intros [(h & s & [=])|[(h & s & [=])|(c & s & [=])]]. Qed.

Definition ex_use_cases : list (nat * cell_action) := [(1, add_to_cell 2); (7, add_to_cell 5 ;;; refuse); (1, add_to_cell 3)].

Lemma use_cases_are_serial_witness :
  let '(os, m') := run_use_cases "not initialized" cell_sessions ex_use_cases (fresh_manager 10) in
  os = [Ok tt; Raise "refused"; Ok tt] ∧ cell (database m') = 15 ∧
  idle (registered:=λ s c, scopes s !! c) m' ∧
  apply_returned os [(λ d, Some (2 + d)); (λ _, None); (λ d, Some (3 + d))] 10 = Some (durable_of (durable:=cell) m').
Proof.
  assert (idle (registered:=λ s c, scopes s !! c) (fresh_manager 10)) as Hidle.
  { split; [done|]. intros c. apply lookup_empty. }
  assert (Forall2 (λ '(_, body) f, computes (durable:=cell) (working:=λ s h, handles s !! h) (registered:=λ s c, scopes s !! c) body f)
    ex_use_cases [(λ d, Some (2 + d)); (λ _, None); (λ d, Some (3 + d))]) as Hbodies.
  { repeat constructor; try apply add_to_cell_computes.
    intros m d Hw. pose proof (add_to_cell_computes 5 m d Hw) as Hadd. unfold bind.
    destruct (add_to_cell 5 m) as [[[]|e] m2]; destruct Hadd as (? & ? & ? & ?); unfold refuse, raise; done. }
  destruct (run_use_cases "not initialized" cell_sessions ex_use_cases (fresh_manager 10)) as [os m'] eqn:Hrun.
  assert (os = [Ok tt; Raise "refused"; Ok tt] ∧ cell (database m') = 15) as [Hos Hcell].
  { vm_compute in Hrun. injection Hrun as <- <-. by split. }
  split; [exact Hos|]. split; [exact Hcell|].
  refine (use_cases_are_serial (durable:=cell) (working:=λ s h, handles s !! h) (registered:=λ s c, scopes s !! c)
    "not initialized" cell_sessions _ _ _ os m' Hidle Hbodies Hrun _).
  intros e _. apply cell_cleanup_returns.
Defined.

(** ** Transactions that overlap

    The sessions are those of their scopes, but the manager has one attribute for
    the current one: the session of the context that opened last is the session
    of everybody, and the first to close leaves the others without. *)

Fixpoint interleaved (l : list cell_action) (m : cell_manager) : list (outcome string unit) * cell_manager :=
  match l with
  | [] => ([], m)
  | a :: l' => let '(o, m1) := a m in let '(os, m2) := interleaved l' m1 in (o :: os, m2)
  end.

(** Context 1 adds 5 and fails, context 2 adds 1 and commits in between: the work
    of the transaction that failed is durable, and its rollback raises. *)
Example overlapping_transactions_mix :
  let '(os, m) := interleaved
    [__enter__ (cell_transaction 1); __enter__ (cell_transaction 2); add_to_cell 5; add_to_cell 1;
     __exit__ (cell_transaction 2) false; __exit__ (cell_transaction 1) true] (fresh_manager 10) in
  os = [Ok tt; Ok tt; Ok tt; Ok tt; Ok tt; Raise "not initialized"] ∧ cell (database m) = 16.
Proof. by vm_compute. Qed.
(** Context 1 finishes without having worked, and the use case of context 2, which
    is alone in its own transaction, has no session. *)
Example overlapping_transactions_lose_their_session :
  let '(os, m) := interleaved
    [__enter__ (cell_transaction 1); __enter__ (cell_transaction 2); __exit__ (cell_transaction 1) false;
     add_to_cell 1; __exit__ (cell_transaction 2) false] (fresh_manager 10) in
  os = [Ok tt; Ok tt; Ok tt; Raise "not initialized"; Raise "not initialized"] ∧ cell (database m) = 10.
Proof. by vm_compute. Qed.

(** A transactional method that calls another in the same context commits with the
    inner one, and then has no session. *)
Example nested_transaction_commits_early :
  let '(o, m) := with_transaction (cell_transaction 1)
    (add_to_cell 5 ;;; with_transaction (cell_transaction 1) (add_to_cell 1) ;;; refuse) (fresh_manager 10) in
  o = Raise "not initialized" ∧ cell (database m) = 16.
Proof. by vm_compute. Qed.
