(* ===== verification/AgentBootstrap.v ===== *)
(** * The stereotype of agents and its validation at startup

    [core/spakky-agent]: the execution spec and the [Agent] annotation with the
    contract of [execute] ([execution.py]), and the post-processor that validates
    agents when the application starts ([post_processor.py]). Pods are those of
    [Pod.v], the catalog of tools is built in [AgentTooling.v], and the container
    the post-processor asks is the one of [Container.v]. *)

From S2P Require Import Prelude Pod Container AgentSafety Agent AgentTooling.
From Stdlib Require QArith_base.

(** ** Errors

    [CallError] stands for what is no error of the package: [signature] raises
    [TypeError] for what is not callable, and [get_type_hints] what the
    annotation raises. *)
Inductive bootstrap_error :=
  | DefinitionError (message : string)
  | ToolError (e : tool_error)
  | BootstrapError (message : string)
  | PersistenceConfigurationError (message : string)
  | CallError.

(** ** The execution spec *)

Inductive RecoveryStrategy := RECOVERY_NONE | ACTION_BOUNDARY.
Inductive StreamingExposureMode := LOW_LATENCY | BALANCED | STRICT | NO_STREAM_UNTIL_FINAL_GUARDED.

Record AgentExecutionLimits := mk_limits { limit_seconds : option QArith_base.Q }.
Record AgentExecutionSpec := mk_spec {
  spec_name : option string;
  objective : option string;
  accepted_signals : list AgentSignalKind;
  recovery : RecoveryStrategy;
  streaming_exposure_mode : StreamingExposureMode;
  timeout_seconds : option QArith_base.Q;
  limits : AgentExecutionLimits;
  delegation_allowed : bool;
  spec_metadata : list (string * string);
}.
Definition default_spec : AgentExecutionSpec :=
  mk_spec None None [] RECOVERY_NONE BALANCED None (mk_limits None) false [].

Definition not_positive (t : option QArith_base.Q) : bool :=
  match t with Some q => QArith_base.Qle_bool q (QArith_base.inject_Z 0) | None => false end.
Definition blank_text (t : option string) : bool := match t with Some s => is_blank s | None => false end.

(** The two [__post_init__] *)
Definition make_limits (l : AgentExecutionLimits) : outcome bootstrap_error AgentExecutionLimits :=
  check (not_positive (limit_seconds l)) (DefinitionError "Agent timeout limit must be positive");; Ok l.
Definition make_spec (s : AgentExecutionSpec) : outcome bootstrap_error AgentExecutionSpec :=
  check (blank_text (spec_name s)) (DefinitionError "Agent name cannot be blank");;
  check (blank_text (objective s)) (DefinitionError "Agent objective cannot be blank");;
  check (not_positive (timeout_seconds s)) (DefinitionError "Agent timeout must be positive");;
  check (match timeout_seconds s, limit_seconds (limits s) with
         | Some t, Some l => negb (QArith_base.Qeq_bool t l)
         | _, _ => false
         end) (DefinitionError "Agent timeout declarations must match");;
  Ok s.

(** ** The contract of [execute] *)

(** A type hint: [None], a class, or a subscripted class with its arguments (none
    for the bare aliases of [typing]); anything else has no class as its origin. *)
Inductive hint :=
  | H_none
  | H_class (module name : string)
  | H_alias (module name : string) (args : list hint)
  | H_other.

(** A function: its parameters, its return annotation, and what [get_type_hints]
    makes of it; [None] is a [NameError] or a [TypeError], and [Raise tt] another
    exception. *)
Record execute_function := mk_execute {
  execute_parameters : list Param;
  return_annotation : option hint;
  resolved_return : outcome unit (option hint);
}.
(** What [getattr_static] finds: a member that is no function is not callable,
    nor is the object of a class method. *)
Inductive execute_member := PlainFunction (f : execute_function) | StaticMethod (f : execute_function) | NotCallable.

Fixpoint check_parameters (ps : list Param) : outcome bootstrap_error unit :=
  match ps with
  | [] => Ok tt
  | p :: ps' =>
      check (match p_kind p with Pod.POSITIONAL_ONLY => true | _ => false end)
        (DefinitionError "@Agent.execute() cannot use positional-only parameters");;
      check (match p_kind p with Pod.VAR_POSITIONAL | Pod.VAR_KEYWORD => true | _ => false end)
        (DefinitionError "@Agent.execute() cannot use variable arguments");;
      check (match p_annotation p with None => true | Some _ => false end)
        (DefinitionError "@Agent.execute() parameters must be type annotated");;
      check_parameters ps'
  end.
Definition _validate_execute_parameters (ps : list Param) : outcome bootstrap_error unit :=
  match ps with
  | p :: ps' =>
      check (negb (String.eqb (p_name p) "self")) (DefinitionError "@Agent.execute() must be an instance method");;
      check_parameters ps'
  | [] => Raise (DefinitionError "@Agent.execute() must be an instance method")
  end.

Definition _resolve_execute_return_annotation (f : execute_function) : outcome bootstrap_error (option hint) :=
  match return_annotation f with
  | None => Ok None
  | Some raw =>
      match resolved_return f with
      | Raise _ => Raise CallError
      | Ok None => Raise (DefinitionError "@Agent.execute() return type annotation cannot be resolved")
      | Ok (Some h) => Ok (Some h)
      end
  end.

Inductive generator_kind := SYNC | ASYNC.
(** The origin, when it is one of the two generators of [collections.abc] *)
Definition generator_class (module name : string) : option generator_kind :=
  if bool_decide (module = "collections.abc" ∧ name = "AsyncGenerator") then Some ASYNC
  else if bool_decide (module = "collections.abc" ∧ name = "Generator") then Some SYNC else None.
Definition generator_origin (h : hint) : option (generator_kind * list hint) :=
  match h with
  | H_class m n => (λ g, (g, [])) <$> generator_class m n
  | H_alias m n args => (λ g, (g, args)) <$> generator_class m n
  | _ => None
  end.
Definition is_agent_yield (h : hint) : bool :=
  match h with
  | H_class m n | H_alias m n _ => bool_decide (m = "spakky.agent.yield_" ∧ n = "AgentYield")
  | _ => false
  end.
Definition _is_none_annotation (h : hint) : bool := match h with H_none => true | _ => false end.

Definition _validate_generator_control_types (g : generator_kind) (args : list hint) : outcome bootstrap_error unit :=
  check (match args with _ :: send :: _ => negb (_is_none_annotation send) | _ => true end)
    (DefinitionError "@Agent.execute() generator send type must be None");;
  check (match g, args with SYNC, _ :: _ :: r :: _ => negb (_is_none_annotation r) | _, _ => false end)
    (DefinitionError "@Agent.execute() sync generator return type must be None").

Definition _validate_execute_return_type (h : option hint) : outcome bootstrap_error unit :=
  match h with
  | None => Raise (DefinitionError "@Agent.execute() return type is required")
  | Some h =>
      match generator_origin h with
      | None => Ok tt
      | Some (g, []) => Raise (DefinitionError "@Agent.execute() yield type is required")
      | Some (g, (y :: _) as args) =>
          check (negb (is_agent_yield y)) (DefinitionError "@Agent.execute() must yield AgentYield items");;
          _validate_generator_control_types g args
      end
  end.

Definition _validate_execute_contract (execute : option execute_member) : outcome bootstrap_error unit :=
  match execute with
  | None => Raise (DefinitionError "@Agent class must define execute()")
  | Some NotCallable => Raise CallError
  | Some (PlainFunction f) | Some (StaticMethod f) =>
      _validate_execute_parameters (execute_parameters f);;
      r ← _resolve_execute_return_annotation f;
      _validate_execute_return_type r
  end.

(** ** The annotation *)

(** What is decorated: a class with its pod target, its [execute] and its classes
    in resolution order, or something else *)
Inductive agent_target :=
  | AgentClass (pod : PodType) (class_name : string) (execute : option execute_member) (mro : list owner_class)
  | NotAClass.
Record AgentAnnotation := mk_agent {
  spec : AgentExecutionSpec;
  agent_pod : Pod;
  agent_target_of : agent_target;
  tool_catalog : list ToolDescriptor;
}.

Section annotation.
Context (generic_mro : type → list type) (classes : dataclasses) (fuel : nat).

(** [Agent._initialize] *)
Definition initialize_agent (s : AgentExecutionSpec) (pod_id : nat) (pod_name : string) (pod_scope : Scope) (t : agent_target)
    : outcome bootstrap_error AgentAnnotation :=
  match t with
  | NotAClass => Raise (DefinitionError "@Agent can only annotate classes")
  | AgentClass obj class_name execute mro =>
      match Pod._initialize generic_mro pod_id pod_name pod_scope false false obj with
      | Raise _ => Raise (DefinitionError "Agent Pod metadata is invalid")
      | Ok p =>
          _validate_execute_contract execute;;
          match discover_agent_tools classes fuel mro with
          | Raise e => Raise (ToolError e)
          | Ok tools => Ok (mk_agent s p t tools)
          end
      end
  end.
End annotation.

Definition validate_bootstrap (a : AgentAnnotation) : outcome bootstrap_error unit :=
  match agent_target_of a with
  | NotAClass => Raise (DefinitionError "@Agent can only annotate classes")
  | AgentClass _ _ execute _ => _validate_execute_contract execute
  end.

Inductive repository_type := IAgentStateRepository | IAgentSignalRepository | IAgentEvidenceRepository.
Definition repository_name (r : repository_type) : string :=
  match r with
  | IAgentStateRepository => "IAgentStateRepository"
  | IAgentSignalRepository => "IAgentSignalRepository"
  | IAgentEvidenceRepository => "IAgentEvidenceRepository"
  end.
(** An agent that recovers, or that can be sent signals, has state to keep. *)
Definition durable (s : AgentExecutionSpec) : bool :=
  (match recovery s with ACTION_BOUNDARY => true | RECOVERY_NONE => false end)
  || (match accepted_signals s with [] => false | _ => true end).
Definition required_persistence_repository_types (a : AgentAnnotation) : list repository_type :=
  if durable (spec a) then [IAgentStateRepository; IAgentSignalRepository; IAgentEvidenceRepository] else [].

(** ** The post-processor *)

Section post_processor.
Context {W : Type} (class_of : repository_type → type).

Definition _agent_type_name (a : AgentAnnotation) : string :=
  match agent_target_of a with AgentClass _ n _ _ => n | NotAClass => "" end.
Definition _raise_missing_persistence (a : AgentAnnotation) (missing : list repository_type) : outcome bootstrap_error unit :=
  Raise (PersistenceConfigurationError
    ("Agent persistence contribution is required for " +:+ _agent_type_name a +:+ ". Missing repositories: " +:+
     String.concat ", " (repository_name <$> missing) +:+
     ". Install/activate provider contribution: spakky-sqlalchemy[agent] via spakky.contributions.spakky.agent.")).

Definition missing_repositories (c : ApplicationContext W) (a : AgentAnnotation) : list repository_type :=
  List.filter (λ r, negb (Container.contains c (class_of r) None)) (required_persistence_repository_types a).
Definition _validate_persistence_contributions (container : option (ApplicationContext W)) (a : AgentAnnotation)
    : outcome bootstrap_error unit :=
  match required_persistence_repository_types a with
  | [] => Ok tt
  | required =>
      match container with
      | None => _raise_missing_persistence a required
      | Some c =>
          match missing_repositories c a with
          | [] => Ok tt
          | missing => _raise_missing_persistence a missing
          end
      end
  end.

(** [post_process] of a pod of the class annotated with [agent] *)
Definition post_process_agent (container : option (ApplicationContext W)) (agent : option AgentAnnotation) : outcome bootstrap_error unit :=
  match agent with
  | None => Ok tt
  | Some a =>
      match validate_bootstrap a with
      | Raise (DefinitionError _) | Raise (ToolError _) => Raise (BootstrapError "Agent bootstrap contract is invalid")
      | Raise e => Raise e
      | Ok _ => _validate_persistence_contributions container a
      end
  end.
End post_processor.

(** ** The contract, said once *)

Definition plain_parameter (p : Param) : Prop :=
  (p_kind p = Pod.POSITIONAL_OR_KEYWORD ∨ p_kind p = Pod.KEYWORD_ONLY) ∧ p_annotation p ≠ None.
(** What a generator yields, takes and returns *)
Definition return_contract (h : hint) : Prop :=
  match generator_origin h with
  | None => True
  | Some (g, args) =>
      ∃ y rest, args = y :: H_none :: rest ∧ is_agent_yield y = true ∧
        (g = SYNC → rest = [] ∨ ∃ rest', rest = H_none :: rest')
  end.
Definition function_contract (f : execute_function) : Prop :=
  (∃ self ps, execute_parameters f = self :: ps ∧ p_name self = "self" ∧ Forall plain_parameter ps) ∧
  return_annotation f ≠ None ∧ ∃ h, resolved_return f = Ok (Some h) ∧ return_contract h.
Definition execute_contract (execute : option execute_member) : Prop :=
  ∃ f, (execute = Some (PlainFunction f) ∨ execute = Some (StaticMethod f)) ∧ function_contract f.

Lemma check_parameters_Ok ps : check_parameters ps = Ok tt ↔ Forall plain_parameter ps.
Proof.
  induction ps as [|p ps IH]; [by split|]. rewrite Forall_cons, <- IH. unfold plain_parameter. cbn [check_parameters].
  destruct p as [n [] [h|] d]; unfold check; cbn; split; naive_solver.
Qed.
Lemma validate_parameters_Ok ps :
  _validate_execute_parameters ps = Ok tt ↔
  ∃ self ps', ps = self :: ps' ∧ p_name self = "self" ∧ Forall plain_parameter ps'.
Proof.
  destruct ps as [|p ps]; [naive_solver|]. unfold _validate_execute_parameters, check.
  destruct (String.eqb_spec (p_name p) "self") as [Hs|Hs]; cbn; [rewrite check_parameters_Ok|]; naive_solver.
Qed.
Lemma validate_return_Ok h : _validate_execute_return_type (Some h) = Ok tt ↔ return_contract h.
Proof.
  unfold _validate_execute_return_type, return_contract, _validate_generator_control_types, check.
  destruct (generator_origin h) as [[g args]|]; [|done]. destruct args as [|y args]; [naive_solver|].
  destruct (is_agent_yield y) eqn:Hy; cbn; [|split; [done|intros (y' & rest & [= <- ->] & ? & _); congruence]].
  destruct args as [|[] rest]; cbn; try (split; [done|by intros (? & ? & ? & _)]).
  destruct g; cbn.
  - destruct rest as [|[] rest]; cbn; split; try done; try (intros (y' & r & [= <- <-] & _ & Hr); by destruct (Hr eq_refl) as [|[]]).
    + intros _. exists y, []. split_and!; [done|done|by left].
    + intros _. exists y, (H_none :: rest). split_and!; [done|done|right; by exists rest].
  - split; [|done]. intros _. by exists y, rest.
Qed.
Lemma validate_function_Ok f :
  (_validate_execute_parameters (execute_parameters f);; r ← _resolve_execute_return_annotation f;
   _validate_execute_return_type r) = Ok tt ↔ function_contract f.
Proof.
  unfold function_contract. rewrite <- validate_parameters_Ok.
  destruct (_validate_execute_parameters (execute_parameters f)) as [[]|e]; cbn; [|naive_solver].
  unfold _resolve_execute_return_annotation. destruct (return_annotation f) as [raw|]; cbn; [|naive_solver].
  destruct (resolved_return f) as [[h|]|e]; cbn -[_validate_execute_return_type]; [rewrite validate_return_Ok| |]; naive_solver.
Qed.

(** The validation accepts exactly the classes whose [execute] keeps the contract:
    a function whose first parameter is [self] and whose others have an annotation
    and a name, and which, if it returns a generator, yields [AgentYield] items,
    takes nothing and returns nothing. *)
Theorem validation_is_the_contract (execute : option execute_member) :
  _validate_execute_contract execute = Ok tt ↔ execute_contract execute.
Proof.
  unfold execute_contract, _validate_execute_contract.
  destruct execute as [[f|f|]|]; try rewrite validate_function_Ok; naive_solver.
Qed.

(** ** Registration and startup *)

Section startup.
Context {W : Type} (class_of : repository_type → type).
Implicit Types (c : ApplicationContext W) (a : AgentAnnotation).

Definition agent_contract a : Prop :=
  match agent_target_of a with AgentClass _ _ execute _ => execute_contract execute | NotAClass => False end.
Definition all_repositories : list repository_type := [IAgentStateRepository; IAgentSignalRepository; IAgentEvidenceRepository].

Lemma validate_bootstrap_Ok a : validate_bootstrap a = Ok tt ↔ agent_contract a.
Proof.
  unfold validate_bootstrap, agent_contract. destruct (agent_target_of a); [apply validation_is_the_contract|done].
Qed.

Lemma missing_repositories_nil c a :
  missing_repositories class_of c a = [] ↔
  ∀ r, r ∈ required_persistence_repository_types a → Container.contains c (class_of r) None = true.
Proof.
  unfold missing_repositories. generalize (required_persistence_repository_types a). intros l.
  induction l as [|r l IH]; cbn [List.filter]; [set_solver|].
  destruct (Container.contains c (class_of r) None) eqn:Hr; cbn [negb].
  - rewrite IH. set_solver.
  - split; [done|]. intros Hall. specialize (Hall r ltac:(left)). congruence.
Qed.

(** An agent that starts can run and keep its state: the validation at startup
    lets an agent pass exactly when its [execute] keeps the contract and, if the
    agent recovers at action boundaries or accepts signals, the container of the
    application has a pod for each of the three repositories; otherwise startup
    fails, and when repositories are missing the error names them. *)
Theorem started_agents_are_sound (container : option (ApplicationContext W)) (a : AgentAnnotation) :
  (post_process_agent class_of container (Some a) = Ok tt ↔
   agent_contract a ∧
   (durable (spec a) = true →
    ∃ c, container = Some c ∧ ∀ r, r ∈ all_repositories → Container.contains c (class_of r) None = true)) ∧
  (agent_contract a → durable (spec a) = true →
   let missing := match container with
                  | Some c => List.filter (λ r, negb (Container.contains c (class_of r) None)) all_repositories
                  | None => all_repositories
                  end in
   missing ≠ [] → post_process_agent class_of container (Some a) = _raise_missing_persistence a missing).
Proof.
  unfold post_process_agent, _validate_persistence_contributions.
  assert (durable (spec a) = true → required_persistence_repository_types a = all_repositories) as Hreq.
  { unfold required_persistence_repository_types. by intros ->. }
  split.
  - destruct (validate_bootstrap a) as [[]|e] eqn:Hv.
    + apply validate_bootstrap_Ok in Hv. destruct (durable (spec a)) eqn:Hd.
      * rewrite Hreq by done. destruct container as [c|]; cbn [all_repositories]; [|split; [done|naive_solver]].
        fold all_repositories. destruct (missing_repositories class_of c a) as [|r l] eqn:Hm.
        -- pose proof (proj1 (missing_repositories_nil c a) Hm) as Hall. rewrite Hreq in Hall by done. naive_solver.
        -- split; [done|]. intros [_ Hall]. destruct (Hall eq_refl) as (c' & [= <-] & Hall').
           rewrite (proj2 (missing_repositories_nil c a)) in Hm; [done|]. by rewrite Hreq.
      * unfold required_persistence_repository_types. rewrite Hd. naive_solver.
    + split; [by destruct e|]. intros [Hc _]. apply validate_bootstrap_Ok in Hc. congruence.
  - intros Hc Hd Hmissing. apply validate_bootstrap_Ok in Hc. rewrite Hc, Hreq by done. cbn [all_repositories].
    destruct container as [c|]; [|done]. fold all_repositories.
    unfold missing_repositories. rewrite Hreq by done. by destruct (List.filter _ all_repositories).
Qed.
End startup.

(** A class the decorator accepts passes the validation at startup, with the tools
    and the dependencies it was registered with. *)
Theorem registered_agents_are_valid generic_mro classes fuel sp pod_id pod_name pod_scope t (a : AgentAnnotation) :
  initialize_agent generic_mro classes fuel sp pod_id pod_name pod_scope t = Ok a →
  validate_bootstrap a = Ok tt ∧ spec a = sp ∧
  ∃ obj n execute mro, t = AgentClass obj n execute mro ∧
    Pod.__get_dependencies obj = Ok (dependencies (agent_pod a)) ∧
    discover_agent_tools classes fuel mro = Ok (tool_catalog a).
Proof.
  unfold initialize_agent. destruct t as [obj n execute mro|]; [|done].
  destruct (Pod._initialize generic_mro pod_id pod_name pod_scope false false obj) as [p|e] eqn:Hp; [|done].
  destruct (_validate_execute_contract execute) as [[]|e] eqn:Hv; cbn; [|done].
  destruct (discover_agent_tools classes fuel mro) as [tools|e] eqn:Ht; [|done]. intros [= <-].
  split_and!; [done|done|]. exists obj, n, execute, mro. split_and!; [done| |done]. cbn.
  unfold Pod._initialize in Hp. destruct (Pod.__get_dependencies obj) as [deps|e]; [|done]. cbn in Hp.
  destruct obj as [m ctor|m ps [r|]]; cbn in Hp; try done.
  - naive_solver.
  - destruct (is_optional r); naive_solver.
Qed.

(** A spec is accepted when its texts are not blank, its times positive and, if
    both are given, equal. *)
Theorem spec_is_checked (s : AgentExecutionSpec) :
  make_spec s = Ok s ↔
  blank_text (spec_name s) = false ∧ blank_text (objective s) = false ∧ not_positive (timeout_seconds s) = false ∧
  ∀ t l, timeout_seconds s = Some t → limit_seconds (limits s) = Some l → QArith_base.Qeq t l.
Proof.
  unfold make_spec, check. destruct (blank_text (spec_name s)); cbn; [naive_solver|].
  destruct (blank_text (objective s)); cbn; [naive_solver|]. destruct (not_positive (timeout_seconds s)); cbn; [naive_solver|].
  destruct (timeout_seconds s) as [t|], (limit_seconds (limits s)) as [l|]; cbn; try (split; [naive_solver|done]).
  destruct (QArith_base.Qeq_bool t l) eqn:Heq; cbn.
  - apply QArith_base.Qeq_bool_iff in Heq. naive_solver.
  - split; [done|]. intros (_ & _ & _ & Hall). specialize (Hall t l eq_refl eq_refl).
    apply QArith_base.Qeq_bool_iff in Hall. congruence.
Qed.

(** ** Examples *)

Definition ex_self : Param := Pod.mk_parameter "self" Pod.POSITIONAL_OR_KEYWORD None false.
Definition ex_task : Param := Pod.mk_parameter "task" Pod.KEYWORD_ONLY (Some (TClass "str" true)) false.
Definition ex_yields : hint := H_alias "collections.abc" "AsyncGenerator" [H_alias "spakky.agent.yield_" "AgentYield" [H_other]; H_none].
Definition ex_execute : execute_function := mk_execute [ex_self; ex_task] (Some ex_yields) (Ok (Some ex_yields)).
Definition ex_sync (rest : list hint) : execute_function :=
  let h := H_alias "collections.abc" "Generator" (H_class "spakky.agent.yield_" "AgentYield" :: H_none :: rest) in
  mk_execute [ex_self] (Some h) (Ok (Some h)).

Example ex_contracts :
  _validate_execute_contract (Some (PlainFunction ex_execute)) = Ok tt ∧
  _validate_execute_contract (Some (PlainFunction (ex_sync [H_none]))) = Ok tt ∧
  _validate_execute_contract (Some (PlainFunction (ex_sync [H_other]))) =
    Raise (DefinitionError "@Agent.execute() sync generator return type must be None") ∧
  _validate_execute_contract (Some (PlainFunction (mk_execute [ex_task] (Some ex_yields) (Ok (Some ex_yields))))) =
    Raise (DefinitionError "@Agent.execute() must be an instance method") ∧
  _validate_execute_contract None = Raise (DefinitionError "@Agent class must define execute()").
Proof. done. Qed.

(** A class method, or a property, is no definition error: [signature] refuses the
    object [getattr_static] finds, although the code that resolves the annotation
    is prepared for class methods. A static method with a first parameter called
    [self] passes for an instance method. *)
Example class_method_is_a_call_error :
  _validate_execute_contract (Some NotCallable) = Raise CallError ∧
  _validate_execute_contract (Some (StaticMethod ex_execute)) = Ok tt.
Proof. done. Qed.

Definition ex_agent (s : AgentExecutionSpec) : outcome bootstrap_error AgentAnnotation :=
  initialize_agent (λ t : type, [t]) ex_classes 5 s 1 "" SINGLETON (AgentClass (ClassTarget "Planner" None) "Planner" (Some (PlainFunction ex_execute)) ex_mro).

(** An agent that accepts signals does not start without its repositories, and one
    that neither recovers nor listens starts without a container. *)
Example ex_startup :
  (a ← ex_agent (mk_spec None None [PAUSE] RECOVERY_NONE BALANCED None (mk_limits None) false []);
   post_process_agent (W:=unit) repository_name None (Some a)) =
    Raise (PersistenceConfigurationError
      "Agent persistence contribution is required for Planner. Missing repositories: IAgentStateRepository, IAgentSignalRepository, IAgentEvidenceRepository. Install/activate provider contribution: spakky-sqlalchemy[agent] via spakky.contributions.spakky.agent.") ∧
  (a ← ex_agent default_spec; post_process_agent (W:=unit) repository_name None (Some a)) = Ok tt.
Proof. split; vm_compute; reflexivity. Qed.

Lemma registered_agents_are_valid_witness :
  ∃ a, ex_agent default_spec = Ok a ∧ validate_bootstrap a = Ok tt.
Proof.
  eexists. split; [vm_compute; reflexivity|].
  refine (proj1 (registered_agents_are_valid (λ t : type, [t]) ex_classes 5 default_spec 1 "" SINGLETON
    (AgentClass (ClassTarget "Planner" None) "Planner" (Some (PlainFunction ex_execute)) ex_mro) _ _)).
  vm_compute. reflexivity.
Defined.
