(* ===== verification/AgentExposure.v ===== *)
(** * What is published about sensitive data

    [core/spakky-agent]: the metadata of sensitive fields as an extension of the
    schemas a model is shown ([schema_with_sensitive_metadata] of [safety.py],
    the schema handles of [tooling.py]), the evidence of a redacted stream, and the
    limits and effects a tool declares. The schemas are those of
    [AgentTooling.v], the metadata of a marker that of [ModelPort.v]; the extension does not change which values they accept. *)

From S2P Require Import Prelude Json AgentSafety Agent AgentTooling ModelPort.

(** ** The extension of a schema *)

Definition EXTENSION : string := "x-spakky-sensitive".

(** A copy that shares no object with the schema *)
Fixpoint _copy_json_value (v : json) : json :=
  match v with
  | JObj o => JObj (map (λ kv, (kv.1, _copy_json_value kv.2)) o)
  | JList l => JList (map _copy_json_value l)
  | _ => v
  end.
Definition _copy_json_object (s : dict) : dict := map (λ kv, (kv.1, _copy_json_value kv.2)) s.

Definition extend (s : dict) (metadata : json) : dict :=
  dict_set EXTENSION
    (JList (match dict_get EXTENSION s with Some (JList existing) => existing ++ [metadata] | _ => [metadata] end))
    s.

(** The descent along the path copies every object it passes and links the copies; it
    stops, leaving the schema as it was, where the path leads nowhere. *)
Fixpoint _attach_schema_extension (s : dict) (p : list string) (metadata : json) : dict :=
  match p with
  | [] => extend s metadata
  | part :: p' =>
      match dict_get "properties" s with
      | Some (JObj properties) =>
          match dict_get part properties with
          | Some (JObj candidate) =>
              dict_set "properties"
                (JObj (dict_set part (JObj (_attach_schema_extension candidate p' metadata)) properties)) s
          | _ => s
          end
      | _ => s
      end
  end.

Definition schema_with_sensitive_metadata (s : dict) (fields : list SensitiveFieldDescriptor)
    (policy : ContextExposurePolicy) : dict :=
  if negb (include_sensitive_schema_metadata policy) || bool_decide (length fields = 0%nat) then s
  else foldl (λ s d, _attach_schema_extension s (path d) (descriptor_to_metadata d)) (_copy_json_object s) fields.

Definition default_context_policy : ContextExposurePolicy := mk_context_policy false false false false.
Definition input_schema_for (h : AgentToolSchemaHandle) (policy : option ContextExposurePolicy) : dict :=
  schema_with_sensitive_metadata (input_schema h) (input_sensitive_fields h) (default default_context_policy policy).
Definition output_schema_for (h : AgentToolSchemaHandle) (policy : option ContextExposurePolicy) : dict :=
  schema_with_sensitive_metadata (output_schema h) (output_sensitive_fields h) (default default_context_policy policy).

(** ** The evidence of a redacted stream *)

Definition match_to_payload (m : StreamingRedactionMatch) : json :=
  JObj [("pattern_name", JStr (match_pattern_name m)); ("start", JInt (Z.of_nat (match_start m)));
        ("end", JInt (Z.of_nat (match_end m)))].
Definition missed_count (a : StreamingRedactionAudit) : nat := length (missed_matches a).
Definition audit_status_value (s : StreamingRedactionAuditStatus) : string :=
  match s with PASSED => "passed" | FAILED => "failed" end.
Definition to_evidence_payload (a : StreamingRedactionAudit) : dict :=
  [("kind", JStr "streaming_redaction_audit"); ("status", JStr (audit_status_value (AgentSafety.status a)));
   ("detected_count", JInt (Z.of_nat (detected_count a))); ("redacted_count", JInt (Z.of_nat (redacted_count a)));
   ("missed_count", JInt (Z.of_nat (missed_count a))); ("missed_matches", JList (match_to_payload <$> missed_matches a));
   ("buffer_size", JInt (Z.of_nat (audit_buffer_size a))); ("emitted_char_count", JInt (Z.of_nat (emitted_char_count a)));
   ("original_char_count", JInt (Z.of_nat (original_char_count a)))].
Definition to_error_payload (a : StreamingRedactionAudit) : dict :=
  [("code", JStr "streaming_redaction_audit_failed");
   ("message", JStr "Streaming redaction final audit detected unmasked candidates");
   ("retryable", JBool false); ("metadata", JObj (to_evidence_payload a))].

(** ** References to secrets, limits and effects of a tool *)

Record CredentialRef := mk_credential { credential_id : string; credential_provider : option string }.
Record SecretRef := mk_secret { secret_id : string; secret_credential : option CredentialRef }.
Definition make_credential (c : CredentialRef) : outcome agent_error CredentialRef :=
  _require_non_blank (credential_id c) "Credential reference id";;
  match credential_provider c with Some p => _require_non_blank p "Credential provider" | None => Ok tt end;;
  Ok c%stdpp.
Definition make_secret (s : SecretRef) : outcome agent_error SecretRef :=
  _require_non_blank (secret_id s) "Secret reference id";; Ok s%stdpp.

Definition make_permission (name : string) : outcome agent_error string :=
  _require_non_blank name "Agent tool permission name";; Ok name%stdpp.
(** Seconds are a rational number in the code; only their sign is looked at. *)
Definition make_timeout (seconds : option Z) : outcome agent_error (option Z) :=
  check (match seconds with Some s => s <=? 0 | None => false end)%Z
    (AgentDefinitionError "Agent tool timeout must be positive");; Ok seconds%stdpp.
Definition make_budget (max_bytes : option Z) : outcome agent_error (option Z) :=
  check (match max_bytes with Some n => n <=? 0 | None => false end)%Z
    (AgentDefinitionError "Agent tool result budget must be positive");; Ok max_bytes%stdpp.

Definition read_only : ToolEffects := mk_effects READ LOCAL false false.
Definition write_state : ToolEffects := mk_effects WRITE LOCAL false false.
Definition external_side_effect : ToolEffects := mk_effects READ_WRITE EXTERNAL false true.
Definition destructive_action : ToolEffects := mk_effects WRITE EXTERNAL true false.

Definition make_risk (axes : list ToolRiskAxis) : outcome agent_error (list ToolRiskAxis) :=
  check (negb (bool_decide (NoDup axes))) (AgentDefinitionError "Agent tool risk axes must be unique");; Ok axes%stdpp.
(** [ToolRisk.from_metadata] with the check of the constructor *)
Definition risk_from_metadata (m : AgentToolMetadata) : outcome agent_error (list ToolRiskAxis) := make_risk (risk_axes m).

Inductive ToolResumeAction := RETRY | REQUIRE_APPROVAL | SKIP_COMPLETED.
Definition action_for_completed_boundary (i : Idempotency) : ToolResumeAction := SKIP_COMPLETED.
Definition action_for_incomplete_boundary (i : Idempotency) : ToolResumeAction :=
  if incomplete_is_retried i then RETRY else REQUIRE_APPROVAL.

(** ** Properties *)

Lemma copy_json_value_eq v : _copy_json_value v = v.
Proof.
  induction v as [|b|z|r|s|l IH|o IH] using json_nested_ind; cbn; try done; f_equal.
  - induction IH as [|v l Hv _ IH]; [done|]. cbn. by rewrite Hv, IH.
  - induction IH as [|[k v] o Hv _ IH]; [done|]. cbn in *. by rewrite Hv, IH.
Qed.
Lemma copy_json_object_eq s : _copy_json_object s = s.
Proof. unfold _copy_json_object. induction s as [|[k v] s IH]; [done|]. cbn. by rewrite copy_json_value_eq, IH. Qed.

(** Two schemas with the same keywords, but for what the properties say, and for the
    extension, which is not a keyword *)
Lemma validates_like s s' v :
  (∀ k, k ≠ EXTENSION → k ≠ "properties" → dict_get k s = dict_get k s') →
  (∀ k, match dict_get k (keyword_object "properties" s), dict_get k (keyword_object "properties" s') with
        | Some p, Some p' => ∀ x, validates x p → validates x p'
        | None, None => True
        | _, _ => False
        end) →
  validates v (JObj s) → validates v (JObj s').
Proof.
  intros Hk Hp (H1 & H2 & H3 & H4 & H5 & H6 & H7 & H8 & H9 & H10 & H11)%validates_inv.
  assert (∀ k o x, v = JObj o → dict_get k o = Some x → dict_get k (keyword_object "properties" s') = None →
    dict_get k (keyword_object "properties" s) = None) as Hnone.
  { intros k o x _ _ Hn. specialize (Hp k). rewrite Hn in Hp. by destruct (dict_get k (keyword_object "properties" s)). }
  constructor; try (intros ?; rewrite <-Hk by done; clear -H1 H2 H3 H4 H5 H6 H7 H11; eauto; fail).
  - intros o k x p' -> Hx Hp'. specialize (Hp k). rewrite Hp' in Hp.
    destruct (dict_get k (keyword_object "properties" s)) as [p|] eqn:Hq; [|done]. apply Hp. by eapply H8.
  - intros o k x Hv Hx Hn. rewrite <-Hk by done. eapply H9; eauto.
  - intros o k x ap Hv Hx Hn. rewrite <-Hk by done. eapply H10; eauto.
Qed.

Lemma keyword_object_set_ne k k' (x : json) s : k ≠ k' → keyword_object k (dict_set k' x s) = keyword_object k s.
Proof. intros Hk. unfold keyword_object. by rewrite dict_get_set_ne. Qed.
Lemma keyword_object_set_eq k o (s : dict) : keyword_object k (dict_set k (JObj o) s) = o.
Proof. unfold keyword_object. by rewrite dict_get_set_eq. Qed.

Lemma extend_validates s metadata v : validates v (JObj (extend s metadata)) ↔ validates v (JObj s).
Proof.
  unfold extend. split; apply validates_like; intros k; rewrite ?keyword_object_set_ne by done.
  1,3: intros Hk _; by rewrite dict_get_set_ne.
  all: by destruct (dict_get k _).
Qed.

Lemma attach_validates p s metadata v :
  validates v (JObj (_attach_schema_extension s p metadata)) ↔ validates v (JObj s).
Proof.
  revert s v. induction p as [|part p IH]; intros s v; [apply extend_validates|]. cbn [_attach_schema_extension].
  destruct (dict_get "properties" s) as [[| | | | | |properties]|] eqn:Hs; try reflexivity.
  destruct (dict_get part properties) as [[| | | | | |candidate]|] eqn:Hc; try reflexivity.
  assert (keyword_object "properties" s = properties) as Hps by (unfold keyword_object; by rewrite Hs).
  split; apply validates_like; intros k; rewrite ?keyword_object_set_eq, ?Hps.
  1,3: intros _ Hk; by rewrite dict_get_set_ne.
  all: destruct (decide (k = part)) as [->|Hk]; [|rewrite dict_get_set_ne by done; by destruct (dict_get k properties)].
  all: rewrite dict_get_set_eq, Hc; intros x; apply IH.
Qed.

(** The schema a path leads to *)
Fixpoint schema_at (p : list string) (s : dict) : option dict :=
  match p with
  | [] => Some s
  | part :: p' =>
      match dict_get part (keyword_object "properties" s) with Some (JObj candidate) => schema_at p' candidate | _ => None end
  end.
(** What a schema says of sensitive data *)
Definition extension_of (s : dict) : list json := match dict_get EXTENSION s with Some (JList l) => l | _ => [] end.
Definition published (p : list string) (s : dict) : option (list json) := extension_of <$> schema_at p s.

Lemma attach_unresolved p s metadata : schema_at p s = None → _attach_schema_extension s p metadata = s.
Proof.
  revert s. induction p as [|part p IH]; intros s Hs; [done|]. cbn [_attach_schema_extension schema_at] in *.
  unfold keyword_object in Hs. destruct (dict_get "properties" s) as [[| | | | | |properties]|] eqn:Hps; try done.
  destruct (dict_get part properties) as [[| | | | | |candidate]|] eqn:Hc; try done.
  rewrite IH by done. by rewrite (dict_set_same part), (dict_set_same "properties").
Qed.

Lemma attach_resolved p s metadata q :
  schema_at p s ≠ None →
  published q (_attach_schema_extension s p metadata) =
  if decide (q = p) then (λ l, l ++ [metadata]) <$> published q s else published q s.
Proof.
  unfold published. revert s q. induction p as [|part p IH]; intros s q Hs; cbn [_attach_schema_extension].
  { destruct q as [|r q]; cbn [schema_at]; [rewrite decide_True by done|rewrite decide_False by done].
    - cbn. f_equal. unfold extension_of, extend. rewrite dict_get_set_eq.
      by destruct (dict_get EXTENSION s) as [[]|].
    - unfold extend. by rewrite keyword_object_set_ne. }
  cbn [schema_at] in Hs. unfold keyword_object in Hs.
  destruct (dict_get "properties" s) as [[| | | | | |properties]|] eqn:Hps; try done.
  destruct (dict_get part properties) as [[| | | | | |candidate]|] eqn:Hc; try done.
  assert (keyword_object "properties" s = properties) as Hk by (unfold keyword_object; by rewrite Hps).
  destruct q as [|r q]; cbn [schema_at].
  { rewrite decide_False by done. cbn. f_equal. unfold extension_of. by rewrite dict_get_set_ne. }
  rewrite keyword_object_set_eq, Hk. destruct (decide (r = part)) as [->|Hr].
  - rewrite dict_get_set_eq, Hc, IH by done. by destruct (decide (q = p)), (decide (part :: q = part :: p)); naive_solver.
  - rewrite dict_get_set_ne by done. by rewrite decide_False by naive_solver.
Qed.

Lemma attach_published p s metadata q :
  published q (_attach_schema_extension s p metadata) =
  if decide (q = p) then (λ l, l ++ [metadata]) <$> published q s else published q s.
Proof.
  destruct (schema_at p s) as [t|] eqn:Hs; [apply attach_resolved; by rewrite Hs|].
  rewrite attach_unresolved by done. case_decide as Hq; [|done]. subst q. unfold published. by rewrite Hs.
Qed.

Definition metadata_for (q : list string) (fields : list SensitiveFieldDescriptor) : list json :=
  descriptor_to_metadata <$> List.filter (λ d, bool_decide (path d = q)) fields.

Lemma attach_all_published fields s q :
  published q (foldl (λ s d, _attach_schema_extension s (path d) (descriptor_to_metadata d)) s fields) =
  (λ l, l ++ metadata_for q fields) <$> published q s.
Proof.
  revert s. induction fields as [|d fields IH]; intros s; cbn [foldl].
  { destruct (published q s); cbn; by rewrite ?app_nil_r. }
  rewrite IH, attach_published. unfold metadata_for. cbn [List.filter].
  destruct (decide (q = path d)) as [->|Hq].
  - rewrite bool_decide_true by done. destruct (published (path d) s); cbn; by rewrite <-?app_assoc.
  - by rewrite bool_decide_false by congruence.
Qed.

Lemma attach_all_validates fields s v :
  validates v (JObj (foldl (λ s d, _attach_schema_extension s (path d) (descriptor_to_metadata d)) s fields)) ↔
  validates v (JObj s).
Proof.
  revert s. induction fields as [|d fields IH]; intros s; cbn [foldl]; [reflexivity|].
  rewrite IH. apply attach_validates.
Qed.

(** The schema a model is shown accepts the same values as the schema of the tool,
    whatever the policy. When the policy publishes metadata, the schema at the path of
    each sensitive field says, after what it said before, the metadata of the fields of
    that path in their order, and no other schema says more; a path that leads nowhere
    is left out. When the policy does not, the schema is shown as it is. *)
Theorem shown_schema_accepts_the_same s fields policy :
  (∀ v, validates v (JObj (schema_with_sensitive_metadata s fields policy)) ↔ validates v (JObj s)) ∧
  (include_sensitive_schema_metadata policy = false → schema_with_sensitive_metadata s fields policy = s) ∧
  (include_sensitive_schema_metadata policy = true → ∀ q,
     published q (schema_with_sensitive_metadata s fields policy) = (λ l, l ++ metadata_for q fields) <$> published q s).
Proof.
  unfold schema_with_sensitive_metadata. rewrite copy_json_object_eq. split_and!.
  - intros v. case_match; [reflexivity|]. apply attach_all_validates.
  - by intros ->.
  - intros -> q. case_bool_decide as Hf; cbn [negb orb]; [|apply attach_all_published].
    apply nil_length_inv in Hf as ->. destruct (published q s); cbn; by rewrite ?app_nil_r.
Qed.

(** The axes derived from the metadata of a tool are always accepted. *)
Lemma derived_risk_is_accepted m : risk_from_metadata m = Ok (risk_axes m).
Proof.
  unfold risk_from_metadata, make_risk. rewrite bool_decide_true; [done|]. apply NoDup_dedup.
Qed.

(** The fields of the items of a list are named by a path the schema does not have: what
    is sensitive in them is not published. *)
Lemma fields_of_items_are_not_published s properties f item fields policy :
  dict_get "properties" s = Some (JObj properties) →
  dict_get f properties = Some (JObj [("type", JStr "array"); ("items", JObj item)]) →
  (∀ d, d ∈ fields → ∃ g gs, path d = f :: g :: gs) →
  schema_with_sensitive_metadata s fields policy = s.
Proof.
  intros Hp Hf Hd. unfold schema_with_sensitive_metadata. rewrite copy_json_object_eq. case_match; [done|].
  clear -Hp Hf Hd. induction fields as [|d fields IH]; [done|]. cbn [foldl].
  destruct (Hd d ltac:(by left)) as (g & gs & ->).
  rewrite attach_unresolved; [apply IH; intros e He; apply Hd; by right|].
  cbn [schema_at]. unfold keyword_object at 1. by rewrite Hp, Hf.
Qed.

(** ** Examples *)

Definition ex_published_schema : dict :=
  [("type", JStr "object"); ("properties", JObj [("email", JObj [("type", JStr "string")])])].
Definition ex_email : SensitiveFieldDescriptor :=
  mk_descriptor ["email"] (SensitiveField (inl EMAIL) MASK_REDACT REDACT None).
Example ex_extension :
  schema_with_sensitive_metadata ex_published_schema [ex_email] (mk_context_policy false false true false) =
  [("type", JStr "object");
   ("properties", JObj [("email", JObj [("type", JStr "string"); (EXTENSION, JList [descriptor_to_metadata ex_email])])])].
Proof. reflexivity. Qed.
Example ex_hidden_extension : schema_with_sensitive_metadata ex_published_schema [ex_email] default_context_policy = ex_published_schema.
Proof. reflexivity. Qed.
Example ex_audit_payload : to_error_payload (mk_audit FAILED 1 0 [mk_match "key" 3 8] 64 20 20) =
  [("code", JStr "streaming_redaction_audit_failed");
   ("message", JStr "Streaming redaction final audit detected unmasked candidates"); ("retryable", JBool false);
   ("metadata", JObj
     [("kind", JStr "streaming_redaction_audit"); ("status", JStr "failed"); ("detected_count", JInt 1);
      ("redacted_count", JInt 0); ("missed_count", JInt 1);
      ("missed_matches", JList [JObj [("pattern_name", JStr "key"); ("start", JInt 3); ("end", JInt 8)]]);
      ("buffer_size", JInt 64); ("emitted_char_count", JInt 20); ("original_char_count", JInt 20)])].
Proof. reflexivity. Qed.
